(* ===== verification/_CoqProject ===== *)
-Q . S2P
Prelude.v
JsNumber.v
JsString.v
Ledger.v
KillSwitch.v
RateLimit.v
Halt.v
Reputation.v
SelfPlagiarism.v
Chokepoint.v
PortfolioQueue.v
WorktreePool.v
PlanDag.v
JsRegex.v
Guardrail.v
DuplicateWinner.v
GateAdvisory.v
SelfReview.v
CodingAgent.v
IteratePolicy.v
AttemptMeter.v
IterateLoop.v
Submission.v
Autonomy.v
PrDisposition.v
PublicComment.v
AgentActions.v
AgentPlan.v
AgentBreakers.v
MergeTrain.v
MergeFailure.v
PrFreshness.v
AgentExecutor.v
ExecutorSafety.v
Moderation.v
ApprovalAccept.v
ApprovalQueue.v
CanonicalJson.v
DecisionRecord.v
LedgerVerify.v
LedgerWalk.v
LedgerAnchor.v
Wilson.v
ProofPage.v
TransientLocks.v
LocalWrite.v
LocalStore.v
ClaimLedger.v
ClaimConflict.v
PortfolioStore.v
PortfolioManager.v
DenyHooks.v
DenySynthesis.v
WorktreeAllocator.v
LinkedIssueRefs.v
LinkedIssueRules.v
Supersession.v
RiskControl.v
ManifestPath.v
PrChecks.v
