(* ===== verification/Prelude.v ===== *)
(** * LoopOver: the decision core

    LoopOver runs coding agents that open pull requests on other people's
    repositories, and reviews the pull requests that arrive.  Everything that
    may be done to the outside world passes through a decision that is a pure
    function of values read beforehand, and is carried out by an executor that
    re-checks it.  This library models those decisions, as
    [packages/loopover-engine/src] and the hosted service under [src/src] write
    them, the adapters of [packages/loopover-miner/lib] and the executor and
    approval queue of [src/src/services] that apply their effects, and proves
    what they promise.

    ** Parts of the program and files of the library

    Language: [Prelude] (this file: thrown and normal completions, [??], closed
    vocabularies, hint databases, list lemmas); [JsNumber] (IEEE 754 doubles with
    rounding, the comparison operators, [Math]); [JsString] (strings, rendering
    of numbers, [Set]s of strings, sorting, untyped values); [JsRegex] (the regular
    expressions and the backtracking matcher).

    The governor decides about each write of a miner.
    - [Ledger]: [governor-ledger.ts], [repo-segment.ts], the rows in which every
      governor component reports.
    - [KillSwitch]: [governor/kill-switch.ts], [governor/action-mode.ts].
    - [RateLimit]: [governor/rate-limit.ts], [governor/write-rate-limit.ts].
      State: the global and per-repository buckets and the backoff counters.
    - [Halt]: [governor/budget-cap.ts], [portfolio/non-convergence.ts],
      [governor/run-halt.ts] and the miner's [governor-run-halt.ts].  State: the
      halt latch.
    - [Reputation]: [governor/reputation-throttle.ts].
    - [SelfPlagiarism]: [governor/self-plagiarism.ts].
    - [Chokepoint]: [governor/chokepoint.ts], which composes all of the above in
      one precedence ladder, and the miner's [governor-chokepoint.ts], which
      appends the row and advances the rate-limit state.

    The miner chooses work and lets an agent do it.
    - [PortfolioQueue]: [portfolio/queue.ts].  State: the buckets of queued and
      active items.
    - [WorktreePool]: [miner/worktree-plan.ts], [miner/worktree-pool.ts].  State:
      the live worktrees.
    - [PlanDag]: [plan-dag.ts], [plan-export.ts] and the [plan-*.ts] queries.
      State: the statuses and attempts of the steps.
    - [CodingAgent]: [miner/coding-agent-mode.ts], [-driver.ts], [-invoke.ts] and
      [miner/attempt-log.ts].
    - [SelfReview]: [miner/self-review-adapter.ts].
    - [IteratePolicy]: [miner/iterate-policy.ts].
    - [AttemptMeter]: [miner/attempt-metering.ts].
    - [IterateLoop]: [miner/iterate-loop.ts], which composes the previous four.
    - [Submission]: [miner/submission-gate.ts],
      [miner/harness-submission-trigger.ts], [miner/loop-reentry-policy.ts].
    - [LocalWrite]: [miner/local-write-tools.ts], the shell commands a miner is
      handed instead of write access.
    - [DenyHooks]: [miner/deny-hooks.ts]; [DenySynthesis]:
      [miner/deny-hook-synthesis.ts] and the miner's store of its proposals.
      State: the proposals with the maintainers' decisions.

    Miners on one machine share tables on disk.
    - [LocalStore]: what the stores have in common: calls that may throw,
      transactions, statements on keyed rows, the normalizers of their inputs.
    - [ClaimLedger]: [claim-ledger.ts], [claim-ledger-expiry.ts].  State: the
      claims of issues.  [ClaimConflict]: [submission-freshness-check.ts],
      [claim-adjudication.ts], [claim-conflict-resolver.ts].
    - [PortfolioStore]: [portfolio-queue.ts], [portfolio-queue-expiry.ts].  State:
      the work items with leases and counters.  [PortfolioManager]:
      [portfolio-queue-manager.ts], which lets [PortfolioQueue] select what a
      transaction of the store claims.
    - [WorktreeAllocator]: [worktree-allocator.ts].  State: the slots with their
      leases.

    The reviewer judges a pull request.
    - [Guardrail]: [signals/change-guardrail.ts], [review/guardrail-config.ts].
    - [DuplicateWinner]: [duplicate-winner.ts].
    - [GateAdvisory]: [advisory/gate-advisory.ts] with the types, constants and
      author associations it reads.
    - [LinkedIssueRefs]: the closing references of a body, of
      [db/repositories.ts].  [LinkedIssueRules]:
      [review/linked-issue-hard-rules.ts] with its configuration, the reading of an
      issue and the rule block of a maintenance pass, whose result the planner
      takes.  State: the violation remembered on the row.
    - [Supersession]: [review/linked-issue-superseded.ts] with its lookup, over the
      closures [LinkedIssueRules] reads.
    - [ManifestPath]: the path patterns of [focus-manifest/guidance.ts].
      [PrChecks]: [review/pre-merge-checks.ts], which restricts checks by such
      patterns, and [review/cla-check.ts], with the steps that hand their findings
      to [GateAdvisory].

    The maintainer's agent acts on the reviewed pull request.
    - [Autonomy]: [settings/autonomy.ts] of the engine and the service's
      [settings/agent-execution.ts]: what the agent may do, the brakes, the
      permissions it needs.
    - [PrDisposition]: [settings/pr-disposition.ts], the declared holds and the
      would-merge and would-approve verdicts.
    - [PublicComment]: the sanitizer of [github/commands.ts].
    - [AgentActions]: [settings/agent-actions.ts], the planner
      [planAgentMaintenanceActions] and the precision breakers; [AgentPlan] proves
      what plans contain.
    - [AgentBreakers]: the breakers composed with the randomised audit of
      [review/close-audit-holdout.ts].
    - [MergeTrain]: [review/merge-train.ts].
    - [MergeFailure]: [services/merge-failure.ts] and the retry state of a pull
      request row.  State: attempts, blocked head, expiry.
    - [PrFreshness]: [github/pr-freshness.ts].
    - [AgentExecutor]: [services/agent-action-executor.ts], which runs a plan
      through its gate stack; it calls the previous four.  State: the denial
      cooldown; effects are a trace.  [ExecutorSafety] proves what it guarantees.
    - [Moderation]: [settings/moderation-rules.ts],
      [settings/contributor-blacklist.ts] and the escalation of the executor.
      State: the violation ledger and the blacklist.
    - [ApprovalAccept], [ApprovalQueue]: [services/agent-approval-queue.ts] and
      [services/agent-approval-staleness.ts] with the row operations of
      [db/repositories.ts]: the re-validation of an accepted action, which hands
      its plan to the executor, and the table of staged actions under concurrent
      workers.  State: the rows and the deliveries.
    - [TransientLocks]: [queue/transient-locks.ts], [queue/submission-lock.ts],
      [queue/held-lock-registry.ts] over the Redis cache or the durable object.
      State: the lock entries and the locks each process holds.

    What was decided is recorded so that others can check it.
    - [CanonicalJson]: [digest.ts] of the contract package, with [JSON.parse].
    - [DecisionRecord]: [review/decision-record.ts], the records and the hash
      chain, as a system of concurrent writers.  State: records and ledger rows.
    - [LedgerVerify], [LedgerWalk]: the verification of one window and the walk
      of a client over all windows, with the retention policy of
      [db/retention.ts].
    - [LedgerAnchor]: [review/ledger-anchor.ts], [-persistence.ts],
      [-scheduler.ts] and the client's [anchor-verify.ts].  State: the attempts.
    - [Wilson], [ProofPage]: the interval of [orb/analytics.ts],
      [review/proof-summary.ts] and [api/proof-badge.ts].
    - [RiskControl]: [review/risk-control.ts], the confidence from which decisions
      may be acted on, certified from adjudicated ones.

    Names are the source's; a record's fields carry a prefix where two records
    share a field name, an enumeration's members where they would clash.

    ** How the code is modelled

    A function that can throw returns a [completion].  An input that arrives over
    an untyped boundary and makes its reader throw is itself a [completion]; what
    the sources call [unknown] is a [jsval].  Optional and nullable fields are
    [option]s; where the code distinguishes [null] from [undefined] both are
    constructors.  Numbers are doubles throughout, [NaN] and the infinities
    included; a counter the code only increments from zero is a [nat].  Objects
    and [Map]s used as tables are [gmap]s; where identity of objects matters
    ([other !== sibling]) a record carries its identity.  Injected functions
    (driver, clock, log sink, random source, [git] runner, slop assessment, gate
    predictor, label matcher) are parameters that may answer anything or throw,
    and so are [Date.parse], [toISOString], [localeCompare], [path.join], [Math.log]
    and [Math.exp].  Where
    the code relies on a platform the dependence is a class that states its
    documented behaviour ([WebCrypto], [Redis], [IsoClock]), with an instance for
    the witnesses.  Effects are traces of
    outside calls ([InvokeCall], [loop_call], [Event], [QEvent]) or explicit state.  What a
    procedure reads from GitHub or the database on its way is a record of reads
    ([LiveReads], [AcceptReads], [World]), arbitrary in every theorem.
    Concurrency (the approval queue, the decision ledger) is a step relation over
    processes, each stopped between two of its database statements, any of which
    may be killed; calls on the miner's tables are transactions, so processes that
    share a table are histories of calls.  Inputs of tool calls are object graphs
    with sharing and cycles.
    The records of a pull request, a repository and its registry configuration
    hold the fields the modelled functions read.

    ** What the theorems show

    - The governor: a write is allowed exactly when no stage objects, stages are
      consulted in the documented order, a calculator that throws denies (with
      the one exception [chokepoint_throws_iff] isolates), and in runs of gated
      writes no window admits more than its limit.  The limiter's doubles refine
      an integer limiter; clients are proved against the class [WriteLimiter].
      The halt latch refines its specification; caps fail closed on malformed
      numbers; two near-duplicate submissions never both pass; ledger rows are
      well formed and payloads stored without loss.
    - The miner: batches respect both caps, are work-conserving and diversify;
      queue and pool invariants hold in all runs; plan validation is exact, valid
      plans never deadlock and steps follow their state machine; the iterate loop
      ends, calls the agent only in live mode after a clear kill-switch probe,
      hands off only what a real review passed within budget, and records every
      decision; the submission circuit breaker is final.
    - The reviewer: the gate's verdict is characterised exactly; blocking is
      opt-in, more findings never help, a dry run only escalates, an election
      spares exactly the winner, guardrails hold exactly the meaning of their
      globs.  The references of a body are what is written in it; the linked-issue
      decision is characterised exactly, and a recorded violation outlives any edit
      of the links; a superseded pull request is named the earliest rival of its
      lowest closed issue, whatever the order of the rows.  A manifest pattern
      matches exactly its meaning; no pull request passes the gate past an enforced
      check, nor in block mode without consent from its text or the trusted app.
    - The agent: a merge is planned exactly when it is earned, a close exactly
      when it is due; plans are coherent, within autonomy and change labels
      soundly; the linked-issue rule closes in two passes; the breakers only
      tighten.  Whenever the executor merges, every condition was verified live
      for that commit; a brake leaves nothing but audit records.  The merge train
      is characterised and moves where numbers follow creation times; a head that failed terminally or five
      times is not merged again; bans happen exactly at the threshold.  A staged
      action runs at most once, only for the maintainer who accepted it; an
      accepted merge runs exactly when still justified and merges the staged
      commit.  A lock has one owner at a time, through claims, renewals, releases
      and expiry.
    - The shared tables: claims of a repository and items in progress never exceed
      their caps in any history of calls; a batch claims exactly what the engine
      selected; dequeuing drains the queue in its order and a held item is not
      handed out again; stranded claims and leases come back, and only those.  No
      worktree is given to two attempts under any interleaving, and a lease survives
      outdated probes.
      Commands for a miner's shell say what was asked for whatever the texts
      contain.  A tool call is blocked exactly when a deny rule fires on a string
      reachable from its input; a synthesized rule is enforced only on a
      maintainer's decision, and frequently blocked paths are denied once approved.
    - The record: the chain holds under concurrent writers, verification raises no
      false alarm, the walk over the windows equals one verification of the whole
      chain, and a history that agrees with an anchored tip is the anchored one.  The
      hourly tick covers the tip; published intervals are within bounds, and the
      act threshold is the lowest observed confidence the bound certifies.
    - What the code does not do as documented is stated too:
      [chokepoint_throws_iff], [newline_path_evades_guardrail],
      [cadence_can_miss_floor], [distinct_attempts_can_share_worktree],
      [nan_attempt_limit_retries_forever], [unreadable_clock_loses_decision],
      [sanitizer_publishes_forbidden_terms], [approves_what_it_closes],
      [contention_lifts_live_hold], [quiescent_repository_labelled],
      [merge_train_deadlock], [blocker_not_oldest],
      [staging_noop_shifts_outcomes], [audit_failure_reports_merged_as_failed],
      [accepted_close_escapes_rule_breaker], [blacklist_union_drops_id],
      [accept_forgets_admins], [superseded_never_restaged],
      [reopened_row_is_silent], [sweep_starves_oldest],
      [pruned_head_loses_verdicts], [reused_id_reported_as_tampering],
      [deleted_ledger_verifies], [page_verifies_first_window_only],
      [outage_hides_anchors], [two_failed_renewals_lose_lock],
      [durable_lock_not_renewed], [marker_survives_stripping],
      [same_issue_claims_uncapped], [racing_miners_both_win],
      [colon_identifier_blocks_batches], [dot_segments_evade_rules],
      [canonical_keys_not_fixed], [raced_attempt_other_repo],
      [outage_exonerates], [settings_fault_forgets],
      [remembered_close_superseded], [late_close_attributed],
      [busy_repository_hides_rival], [crowded_commit_reads_missing],
      [predictor_holds_named_check].

    ** Bounds and fuel

    The depth-first search of [validatePlanDag] has the number of steps as fuel
    and the rounds of [orderByDependency] likewise; the selection loop of
    [nextEligibleItems] has one more than the queued items; the collection of
    input strings has one more than the objects; the walk over the ledger has more
    than its rows, [JSON_parse] twice the length of its text.  Each bound is shown
    sufficient by the exactness theorems about the function.  The iterate loop
    recurses on its own (finite, integral) iteration ceiling.  Exactness of
    double arithmetic is used for integers up to 2^53 (clock readings and
    windows up to 2^52, whose sums stay below it), stated as hypotheses
    ([safe], [caps_ok], [safe_length], [small_times], [zq_small],
    [usage_bounded]).  The rendering of a double
    tries seventeen digits at most; replacement over a string and bounded
    repetition in a pattern recurse at most once per character.

    ** Not modelled

    The gate predictor [predicted-gate.ts] beyond its maintainer checks and the
    signal scorers behind it (slop, collisions, label matching), which enter as
    values; configuration
    parsing ([focus-manifest.ts] and the like), whose result the decisions take;
    [renderPlanAsJson], ranking and the replay of predictions, which decide only
    what is tried first; the agent drivers and the miner's command line, which are processes and
    terminals.  Of the stores, opening the file and schema migrations.  Of the
    record, signing and signature verification, the submissions to Rekor, git and
    Bittensor, and the markup of the badge.  Of the hosted service the transport:
    webhooks, job queue, HTTP, most of the database layer, GitHub reads, metrics,
    notifications, check-run cancellation and the lock flush at boot; retention
    enters as a step of the ledger system, renames of repositories do not.  Strings
    are byte strings: [trim], [toLowerCase] and character classes act on ASCII;
    lengths and cuts count UTF-16 units where the source does.  Promises are
    sequential within a procedure. *)

From stdpp Require Import base list strings option sets.

(** ** Hint databases of the development *)

Create HintDb jsnum.
Create HintDb loopover.

(** ** Notations *)

Declare Scope js_scope.
Delimit Scope js_scope with js.

(** [x ?? d]: nullish coalescing.  A field typed [T | null | undefined] that
    the source only reads through [??] is an [option T]. *)
Notation "x ?? d" := (default d x) (at level 60, right associativity) : js_scope.

(** ** Completions

    A call either completes with a value or throws; the message of the thrown
    [Error] is what the sources read back from it. *)

Inductive completion (A : Type) : Type :=
| Normal (a : A)
| Thrown (msg : string).
Arguments Normal {A} a.
Arguments Thrown {A} msg.

Definition cbind {A B} (c : completion A) (k : A -> completion B) : completion B :=
  match c with
  | Normal a => k a
  | Thrown m => Thrown m
  end.

Notation "x <- c ;; k" := (cbind c (fun x => k))
  (at level 100, c at next level, right associativity) : js_scope.

(** [try { ... } catch (error) { handler }]. *)
Definition try_catch {A} (c : completion A) (handler : string -> A) : A :=
  match c with
  | Normal a => a
  | Thrown m => handler m
  end.

Lemma cbind_normal {A B} (c : completion A) (k : A -> completion B) b :
  cbind c k = Normal b -> exists a, c = Normal a /\ k a = Normal b.
Proof. destruct c as [a | m]; [| discriminate]. intros H. by exists a. Qed.

(** ** Closed vocabularies

    A union of string literals is an enumeration with the literal of each
    member; the sources test membership in the [Set] of its literals. *)

Class Vocabulary (A : Type) := {
  word : A -> string;
  vocabulary : list A;
  vocabulary_total a : In a vocabulary;
  word_inj a b : word a = word b -> a = b;
}.

(** The member a text names, if any. *)
Definition of_word {A} `{Vocabulary A} (s : string) : option A :=
  List.find (fun a => String.eqb (word a) s) vocabulary.

Lemma of_word_word {A} `{Vocabulary A} (a : A) : of_word (word a) = Some a.
Proof.
  unfold of_word. destruct (List.find _ _) as [b |] eqn:E.
  - apply List.find_some in E as [_ E%String.eqb_eq]. by rewrite (word_inj _ _ E).
  - pose proof (List.find_none _ _ E a (vocabulary_total a)) as N. simpl in N. by rewrite String.eqb_refl in N.
Qed.

Lemma of_word_sound {A} `{Vocabulary A} s (a : A) : of_word s = Some a -> word a = s.
Proof. intros [_ E%String.eqb_eq]%List.find_some. exact E. Qed.

(** Instances are by case analysis on the members. *)
Ltac vocabulary_by f l :=
  refine {| word := f; vocabulary := l |}; [intros []; simpl; tauto | intros [] []; simpl; congruence].

#[export] Hint Rewrite @of_word_word : loopover.

(** ** Lists *)

Lemma last_cons_default {A} (x d : A) xs : List.last (x :: xs) d = List.last xs x.
Proof.
  revert x d. induction xs as [| y xs IH]; intros x d; [reflexivity |].
  change (List.last (y :: xs) d = List.last (y :: xs) x). by rewrite !IH.
Qed.

Lemma filter_nonempty {A} (P : A -> bool) l : Nat.ltb 0 (List.length (List.filter P l)) = existsb P l.
Proof. induction l as [| x l IH]; simpl; [done |]. by destruct (P x). Qed.

Lemma nil_iff_no_elem {A} (l : list A) : l = [] <-> forall x, x ∉ l.
Proof.
  split; [intros -> x H; by apply elem_of_nil in H |]. destruct l as [| x l]; [done |].
  intros H. destruct (H x). apply list_elem_of_here.
Qed.

Lemma filter_all_in {A} (P : A -> bool) l : (forall x, In x l -> P x = true) -> List.filter P l = l.
Proof.
  induction l as [| x l IH]; intros H; simpl; [reflexivity |].
  rewrite (H x) by (by left). f_equal. apply IH. intros y Hy. apply H. by right.
Qed.

Lemma filter_snoc {A} (p : A -> bool) l x : List.filter p (l ++ [x]) = (List.filter p l ++ if p x then [x] else [])%list.
Proof. rewrite List.filter_app. simpl. by destruct (p x). Qed.

Lemma list_sum_add (f g : string -> nat) rs :
  list_sum (List.map (fun r => f r + g r) rs) = list_sum (List.map f rs) + list_sum (List.map g rs).
Proof. induction rs as [| r rs IH]; [reflexivity |]. cbn [List.map]. unfold list_sum in *. simpl. lia. Qed.

Lemma filter_full {A} (p : A -> bool) l : List.length (List.filter p l) = List.length l -> List.filter p l = l.
Proof.
  induction l as [| a l IH]; [done |]. cbn [List.filter]. pose proof (List.filter_length_le p l).
  destruct (p a); simpl; intros H'; [rewrite IH; [done |]; lia | lia].
Qed.

Lemma filter_nothing {A} (p : A -> bool) l : List.length (List.filter (fun a => negb (p a)) l) = 0 -> List.filter p l = l.
Proof.
  induction l as [| a l IH]; [done |]. cbn [List.filter]. destruct (p a); simpl; [intros H; by rewrite IH | lia].
Qed.
