(* ===== verification/JsNumber.v ===== *)
(** * JavaScript numbers

    The sources compute with the language's only number type, the IEEE 754
    binary64 double.  This file models it: a number is [NaN], an infinity or a
    finite rational, every arithmetic operation is the exact rational operation
    followed by [rnd], the round-to-nearest-ties-to-even rounding to 53 bits of
    precision with gradual underflow and overflow to infinity, and comparisons
    follow ECMAScript (any comparison with [NaN] is false).

    The two zeros are identified.  ECMAScript tells them apart only through
    [Object.is], the sign of an infinite quotient and [Math.atan2]; no modelled
    function uses the first or the last, and the quotients they compute have a
    divisor tested positive first.

    Results: [rnd] is monotone ([rnd_mono]), is exact on every integer up to
    2^53 ([rnd_int_exact]), hence sums and differences of such integers are
    exact, and the comparison operators form a total order away from [NaN]. *)

From Stdlib Require Import QArith Qround Qpower Qreduction ZArith Lia Lqa Bool.
From S2P Require Import Prelude.

Local Open Scope Q_scope.

(** ** Rounding a rational to binary64 *)

Definition qpow2 (e : Z) : Q := 2 ^ e.

(** The binary exponent of a positive rational: [2^k <= q < 2^(k+1)]. *)
Definition ilog2 (q : Q) : Z :=
  let k := (Z.log2 (Qnum q) - Z.log2 (Zpos (Qden q)))%Z in
  if Qle_bool (qpow2 k) q then k else (k - 1)%Z.

(** Round half to even, rational to integer. *)
Definition rhe (q : Q) : Z :=
  let f := Qfloor q in
  match Qcompare (q - inject_Z f) (1 # 2) with
  | Lt => f
  | Gt => (f + 1)%Z
  | Eq => if Z.even f then f else (f + 1)%Z
  end.

(** Exponent of the unit in the last place of the binade of [q], with the
    subnormal floor. *)
Definition ulp_exp (q : Q) : Z := Z.max (ilog2 q - 52) (-1074).

Definition rnd_pos (q : Q) : Q :=
  let e := ulp_exp q in inject_Z (rhe (q * qpow2 (- e))) * qpow2 e.

Inductive num : Set :=
| NaN
| PInf
| NInf
| Fin (q : Q).

Definition rnd (q : Q) : num :=
  match Qcompare q 0 with
  | Eq => Fin 0
  | Gt => let v := rnd_pos q in
          if Qle_bool (qpow2 1024) v then PInf else Fin (Qred v)
  | Lt => let v := rnd_pos (- q) in
          if Qle_bool (qpow2 1024) v then NInf else Fin (Qred (- v))
  end.

Definition nz (z : Z) : num := Fin (inject_Z z).
Definition nnat (n : nat) : num := nz (Z.of_nat n).

(** ** Comparison *)

(** [None] is the "undefined" outcome of ECMAScript's IsLessThan. *)
Definition ncmp (x y : num) : option comparison :=
  match x, y with
  | NaN, _ | _, NaN => None
  | PInf, PInf | NInf, NInf => Some Eq
  | PInf, _ => Some Gt
  | _, PInf => Some Lt
  | NInf, _ => Some Lt
  | _, NInf => Some Gt
  | Fin a, Fin b => Some (Qcompare a b)
  end.

Definition nltb (x y : num) : bool :=
  match ncmp x y with Some Lt => true | _ => false end.
Definition nleb (x y : num) : bool :=
  match ncmp x y with Some Lt | Some Eq => true | _ => false end.
Definition ngtb (x y : num) : bool := nltb y x.
Definition ngeb (x y : num) : bool := nleb y x.
(** [===] on numbers. *)
Definition neqb (x y : num) : bool :=
  match ncmp x y with Some Eq => true | _ => false end.

Definition is_finite (x : num) : bool :=
  match x with Fin _ => true | _ => false end.
Definition is_nan (x : num) : bool :=
  match x with NaN => true | _ => false end.

(** ** Math and arithmetic *)

Definition nmax (x y : num) : num :=
  match ncmp x y with
  | None => NaN
  | Some Lt => y
  | Some _ => x
  end.
Definition nmin (x y : num) : num :=
  match ncmp x y with
  | None => NaN
  | Some Gt => y
  | Some _ => x
  end.

Definition nfloor (x : num) : num :=
  match x with Fin q => nz (Qfloor q) | _ => x end.
Definition nceil (x : num) : num :=
  match x with Fin q => nz (Qceiling q) | _ => x end.
Definition ntrunc (x : num) : num :=
  match x with
  | Fin q => if Qle_bool 0 q then nz (Qfloor q) else nz (Qceiling q)
  | _ => x
  end.
(** [Math.round]: ties go towards positive infinity. *)
Definition nround (x : num) : num :=
  match x with Fin q => nz (Qfloor (q + (1 # 2))) | _ => x end.

Definition nadd (x y : num) : num :=
  match x, y with
  | NaN, _ | _, NaN => NaN
  | PInf, NInf | NInf, PInf => NaN
  | PInf, _ | _, PInf => PInf
  | NInf, _ | _, NInf => NInf
  | Fin a, Fin b => rnd (a + b)
  end.
Definition nopp (x : num) : num :=
  match x with
  | NaN => NaN | PInf => NInf | NInf => PInf | Fin q => Fin (- q)
  end.
Definition nsub (x y : num) : num := nadd x (nopp y).

(** An infinity with the sign of a nonzero rational, [NaN] for zero. *)
Definition inf_of (q : Q) : num :=
  match Qcompare q 0 with Eq => NaN | Gt => PInf | Lt => NInf end.

Definition nmul (x y : num) : num :=
  match x, y with
  | NaN, _ | _, NaN => NaN
  | PInf, PInf | NInf, NInf => PInf
  | PInf, NInf | NInf, PInf => NInf
  | PInf, Fin b | Fin b, PInf => inf_of b
  | NInf, Fin b | Fin b, NInf => inf_of (- b)
  | Fin a, Fin b => rnd (a * b)
  end.
Definition ndiv (x y : num) : num :=
  match x, y with
  | NaN, _ | _, NaN => NaN
  | PInf, Fin b => if Qle_bool 0 b then PInf else NInf
  | NInf, Fin b => if Qle_bool 0 b then NInf else PInf
  | Fin _, (PInf | NInf) => Fin 0
  | (PInf | NInf), (PInf | NInf) => NaN
  | Fin a, Fin b => if Qeq_bool b 0 then inf_of a else rnd (a / b)
  end.

(** [Number(value.toFixed(3))]: the nearest multiple of a thousandth (the
    larger one on a tie), read back as a double.  At 10^21 and above [toFixed]
    falls back to the exact decimal rendering, which reads back unchanged. *)
Definition round3 (x : num) : num :=
  match x with
  | Fin q =>
      if Qle_bool (inject_Z (10 ^ 21)) q then x
      else if Qle_bool q (inject_Z (- 10 ^ 21)) then x
      else if Qle_bool 0 q
           then rnd (Qfloor (q * 1000 + (1 # 2)) # 1000)
           else nopp (rnd (Qfloor (- q * 1000 + (1 # 2)) # 1000))
  | _ => x
  end.

(** ** Properties of the rounding function *)

Lemma two_neq_0 : ~ (2 == 0)%Q.
Proof. discriminate. Qed.

Lemma qpow2_pos e : 0 < qpow2 e.
Proof. apply Qpower_0_lt. reflexivity. Qed.

Lemma qpow2_add a b : qpow2 (a + b) == qpow2 a * qpow2 b.
Proof. apply Qpower_plus, two_neq_0. Qed.

Lemma qpow2_opp_r e : qpow2 e * qpow2 (- e) == 1.
Proof. rewrite <- qpow2_add, Z.add_opp_diag_r. reflexivity. Qed.

Lemma qpow2_le a b : (a <= b)%Z -> qpow2 a <= qpow2 b.
Proof. intros. apply Qpower_le_compat_l; [assumption | discriminate]. Qed.

Lemma qpow2_lt_inv a b : qpow2 a < qpow2 b -> (a < b)%Z.
Proof. intros H. apply Qpower_lt_compat_l_inv in H; [assumption | reflexivity]. Qed.

Lemma qpow2_int e : (0 <= e)%Z -> qpow2 e == inject_Z (2 ^ e).
Proof. intros. unfold qpow2. rewrite Zpower_Qpower by assumption. reflexivity. Qed.

Lemma Qlt_inv_bool x y : Qle_bool x y = false <-> y < x.
Proof.
  split.
  - intros H. apply Qnot_le_lt. intros C. apply Qle_bool_iff in C. congruence.
  - intros H. destruct (Qle_bool x y) eqn:E; [| reflexivity].
    apply Qle_bool_iff in E. lra.
Qed.

Lemma ilog2_spec q : 0 < q -> qpow2 (ilog2 q) <= q < qpow2 (ilog2 q + 1).
Proof.
  destruct q as [n d]. intros Hq.
  assert (Hn : (0 < n)%Z) by (revert Hq; unfold Qlt; simpl; lia).
  assert (Hk : (n # d) < qpow2 (Z.log2 n - Z.log2 (Zpos d) + 1)
               /\ qpow2 (Z.log2 n - Z.log2 (Zpos d) - 1) < (n # d)).
  { pose proof (Z.log2_spec n Hn) as [Hn1 Hn2].
    pose proof (Z.log2_spec (Zpos d) eq_refl) as [Hd1 Hd2].
    pose proof (Z.log2_nonneg n) as Hln. pose proof (Z.log2_nonneg (Zpos d)) as Hld.
    set (ln := Z.log2 n) in *. set (ld := Z.log2 (Zpos d)) in *.
    assert (E : (n # d) == inject_Z n / inject_Z (Zpos d)) by apply Qmake_Qdiv.
    assert (Pd : 0 < inject_Z (Zpos d)) by reflexivity.
    rewrite E. split.
    - apply Qlt_shift_div_r; [exact Pd |].
      replace (ln - ld + 1)%Z with (Z.succ ln - ld)%Z by lia.
      assert (A : inject_Z n < qpow2 (Z.succ ln))
        by (rewrite qpow2_int by lia; rewrite <- Zlt_Qlt; exact Hn2).
      assert (B : qpow2 ld <= inject_Z (Zpos d))
        by (rewrite qpow2_int by lia; rewrite <- Zle_Qle; exact Hd1).
      eapply Qlt_le_trans; [exact A |].
      replace (Z.succ ln) with (Z.succ ln - ld + ld)%Z at 1 by lia.
      rewrite qpow2_add. apply Qmult_le_l; [apply qpow2_pos | exact B].
    - apply Qlt_shift_div_l; [exact Pd |].
      assert (A : qpow2 ln <= inject_Z n)
        by (rewrite qpow2_int by lia; rewrite <- Zle_Qle; exact Hn1).
      assert (B : inject_Z (Zpos d) < qpow2 (Z.succ ld))
        by (rewrite qpow2_int by lia; rewrite <- Zlt_Qlt; exact Hd2).
      eapply Qlt_le_trans; [| exact A].
      replace ln with (ln - ld - 1 + Z.succ ld)%Z at 2 by lia.
      rewrite qpow2_add. apply Qmult_lt_l; [apply qpow2_pos | exact B]. }
  destruct Hk as [H1 H2]. unfold ilog2; simpl Qnum; simpl Qden.
  destruct (Qle_bool _ _) eqn:E.
  - apply Qle_bool_iff in E. split; assumption.
  - apply Qlt_inv_bool in E. split; [apply Qlt_le_weak; exact H2 |].
    replace (Z.log2 n - Z.log2 (Zpos d) - 1 + 1)%Z with (Z.log2 n - Z.log2 (Zpos d))%Z by lia.
    exact E.
Qed.

Lemma ilog2_mono x y : 0 < x -> x <= y -> (ilog2 x <= ilog2 y)%Z.
Proof.
  intros Hx Hy.
  destruct (ilog2_spec x Hx) as [Hx1 _].
  destruct (ilog2_spec y ltac:(lra)) as [_ Hy2].
  assert (qpow2 (ilog2 x) < qpow2 (ilog2 y + 1)) as H by lra.
  apply qpow2_lt_inv in H. lia.
Qed.

(** *** Round half to even *)

Lemma rhe_bounds q : (Qfloor q <= rhe q <= Qfloor q + 1)%Z.
Proof. unfold rhe. destruct (Qcompare _ _); [destruct (Z.even _) | |]; lia. Qed.

#[global] Instance rhe_comp : Proper (Qeq ==> eq) rhe.
Proof.
  intros x y H. unfold rhe. rewrite (Qfloor_comp _ _ H).
  assert (E : x - inject_Z (Qfloor y) == y - inject_Z (Qfloor y)) by (rewrite H; reflexivity).
  rewrite (Qcompare_comp _ _ E (1#2) (1#2) (Qeq_refl _)). reflexivity.
Qed.

Lemma rhe_mono x y : x <= y -> (rhe x <= rhe y)%Z.
Proof.
  intros H. pose proof (Qfloor_resp_le _ _ H) as Hf.
  destruct (Z.eq_dec (Qfloor x) (Qfloor y)) as [E | NE].
  - unfold rhe. rewrite E.
    destruct (Qcompare_spec (x - inject_Z (Qfloor y)) (1#2)),
             (Qcompare_spec (y - inject_Z (Qfloor y)) (1#2));
      try destruct (Z.even _); try lia; exfalso; lra.
  - pose proof (rhe_bounds x). pose proof (rhe_bounds y). lia.
Qed.

Lemma rhe_int z : rhe (inject_Z z) = z.
Proof.
  unfold rhe. rewrite Qfloor_Z.
  destruct (Qcompare_spec (inject_Z z - inject_Z z) (1#2)); [| reflexivity |]; exfalso; lra.
Qed.

Lemma rhe_le_int q z : q <= inject_Z z -> (rhe q <= z)%Z.
Proof. intros H. rewrite <- (rhe_int z). apply rhe_mono, H. Qed.

Lemma rhe_ge_int q z : inject_Z z <= q -> (z <= rhe q)%Z.
Proof. intros H. rewrite <- (rhe_int z) at 1. apply rhe_mono, H. Qed.

(** *** Rounding of positive rationals *)

Lemma scale_cancel q e : q * qpow2 (- e) * qpow2 e == q.
Proof.
  rewrite <- Qmult_assoc, (Qmult_comm (qpow2 (- e))), qpow2_opp_r. ring.
Qed.

Lemma scale_le q c e : q <= c * qpow2 e -> q * qpow2 (- e) <= c.
Proof.
  intros H. apply (Qmult_le_r _ _ (qpow2 e)); [apply qpow2_pos |].
  rewrite scale_cancel. exact H.
Qed.

Lemma scale_ge q c e : c * qpow2 e <= q -> c <= q * qpow2 (- e).
Proof.
  intros H. apply (Qmult_le_r _ _ (qpow2 e)); [apply qpow2_pos |].
  rewrite scale_cancel. exact H.
Qed.

(** A value on the grid of its own binade bounds the rounding from above and
    from below. *)
Lemma rnd_pos_le_grid q c : q <= inject_Z c * qpow2 (ulp_exp q) ->
  rnd_pos q <= inject_Z c * qpow2 (ulp_exp q).
Proof.
  intros H. unfold rnd_pos. apply Qmult_le_compat_r; [| apply Qlt_le_weak, qpow2_pos].
  rewrite <- Zle_Qle. apply rhe_le_int, scale_le, H.
Qed.

Lemma rnd_pos_ge_grid q c : inject_Z c * qpow2 (ulp_exp q) <= q ->
  inject_Z c * qpow2 (ulp_exp q) <= rnd_pos q.
Proof.
  intros H. unfold rnd_pos. apply Qmult_le_compat_r; [| apply Qlt_le_weak, qpow2_pos].
  rewrite <- Zle_Qle. apply rhe_ge_int, scale_ge, H.
Qed.

(** A power of two at or above the unit of a binade lies on its grid. *)
Lemma qpow2_on_grid k e : (e <= k)%Z -> qpow2 k == inject_Z (2 ^ (k - e)) * qpow2 e.
Proof.
  intros H. rewrite <- qpow2_int by lia. rewrite <- qpow2_add.
  replace (k - e + e)%Z with k by lia. reflexivity.
Qed.

Lemma rnd_pos_mono x y : 0 < x -> x <= y -> rnd_pos x <= rnd_pos y.
Proof.
  intros Hx Hxy. pose proof (ilog2_mono x y Hx Hxy) as Hk.
  destruct (Z.eq_dec (ulp_exp x) (ulp_exp y)) as [E | NE].
  - unfold rnd_pos. rewrite E. apply Qmult_le_compat_r; [| apply Qlt_le_weak, qpow2_pos].
    rewrite <- Zle_Qle. apply rhe_mono. apply Qmult_le_r; [apply qpow2_pos | exact Hxy].
  - assert (Hexp : (ulp_exp y = ilog2 y - 52 /\ ulp_exp x <= ilog2 y /\ ilog2 x + 1 <= ilog2 y)%Z)
      by (unfold ulp_exp in *; lia).
    destruct Hexp as (He & Hg & Hlt).
    apply Qle_trans with (qpow2 (ilog2 y)).
    + rewrite (qpow2_on_grid _ _ Hg). apply rnd_pos_le_grid. rewrite <- (qpow2_on_grid _ _ Hg).
      destruct (ilog2_spec x Hx) as [_ H2]. pose proof (qpow2_le _ _ Hlt). lra.
    + assert (Hg' : (ulp_exp y <= ilog2 y)%Z) by lia.
      rewrite (qpow2_on_grid _ _ Hg'). apply rnd_pos_ge_grid. rewrite <- (qpow2_on_grid _ _ Hg').
      apply ilog2_spec. lra.
Qed.

Lemma rnd_pos_grid_exact q c : q == inject_Z c * qpow2 (ulp_exp q) -> rnd_pos q == q.
Proof.
  intros H. unfold rnd_pos.
  assert (E : q * qpow2 (- ulp_exp q) == inject_Z c).
  { apply (Qmult_inj_r _ _ (qpow2 (ulp_exp q))).
    - pose proof (qpow2_pos (ulp_exp q)). lra.
    - rewrite scale_cancel. exact H. }
  rewrite E, rhe_int. symmetry. exact H.
Qed.

Lemma rnd_pos_nonneg q : 0 < q -> 0 <= rnd_pos q.
Proof.
  intros H. assert (E : inject_Z 0 * qpow2 (ulp_exp q) == 0) by (change (inject_Z 0) with 0; ring).
  rewrite <- E. apply rnd_pos_ge_grid. rewrite E. lra.
Qed.

(** Every positive integer up to 2^53 is on the grid of its binade. *)
Lemma rnd_pos_int z : (0 < z <= 2 ^ 53)%Z -> rnd_pos (inject_Z z) == inject_Z z.
Proof.
  intros Hz. assert (H0 : 0 < inject_Z z) by (rewrite (Zlt_Qlt 0 z) in Hz; tauto).
  destruct (ilog2_spec _ H0) as [Hlo Hhi]. set (k := ilog2 (inject_Z z)) in *.
  assert (Hk : (0 <= k <= 53)%Z).
  { split.
    - enough (qpow2 0 < qpow2 (k + 1)) as C by (apply qpow2_lt_inv in C; lia).
      assert (inject_Z 1 <= inject_Z z) by (rewrite <- Zle_Qle; lia).
      change (qpow2 0) with (inject_Z 1). lra.
    - enough (qpow2 k < qpow2 54) as C by (apply qpow2_lt_inv in C; lia).
      assert (inject_Z z <= inject_Z (2 ^ 53)) by (rewrite <- Zle_Qle; lia).
      rewrite <- qpow2_int in H by lia.
      assert (qpow2 53 < qpow2 54) by reflexivity. lra. }
  destruct (Z.eq_dec k 53) as [E | NE].
  - assert (inject_Z (2 ^ 53) <= inject_Z z) as Hge.
    { rewrite <- qpow2_int by lia. rewrite <- E. exact Hlo. }
    rewrite <- Zle_Qle in Hge. assert (z = 2 ^ 53)%Z by lia. subst z. reflexivity.
  - apply (rnd_pos_grid_exact _ (z * 2 ^ (52 - k))).
    assert (Eu : ulp_exp (inject_Z z) = (k - 52)%Z) by (unfold ulp_exp; fold k; lia).
    rewrite Eu, inject_Z_mult, <- qpow2_int by lia.
    rewrite <- Qmult_assoc, <- qpow2_add. replace (52 - k + (k - 52))%Z with 0%Z by lia.
    change (qpow2 0) with 1. ring.
Qed.

(** ** Order *)

Lemma nleb_fin a b : nleb (Fin a) (Fin b) = true <-> a <= b.
Proof.
  unfold nleb; simpl. destruct (Qcompare_spec a b); split; intros; try reflexivity; try lra; discriminate.
Qed.

Lemma nltb_fin a b : nltb (Fin a) (Fin b) = true <-> a < b.
Proof.
  unfold nltb; simpl. destruct (Qcompare_spec a b); split; intros; try reflexivity; try lra; discriminate.
Qed.

Lemma nltb_fin_false a b : nltb (Fin a) (Fin b) = false <-> b <= a.
Proof.
  rewrite <- not_true_iff_false, nltb_fin. split; intros; [apply Qnot_lt_le | apply Qle_not_lt]; assumption.
Qed.

Lemma nleb_fin_false a b : nleb (Fin a) (Fin b) = false <-> b < a.
Proof.
  rewrite <- not_true_iff_false, nleb_fin. split; intros; [apply Qnot_le_lt | apply Qlt_not_le]; assumption.
Qed.

Lemma neqb_fin a b : neqb (Fin a) (Fin b) = true <-> a == b.
Proof.
  unfold neqb; simpl. destruct (Qcompare_spec a b); split; intros; try reflexivity; try lra; discriminate.
Qed.

(** Case analysis on numbers: split every number of the context and turn the
    boolean comparisons of rationals into inequalities. *)
Ltac num_facts :=
  repeat match goal with
  | H : nleb (Fin _) (Fin _) = true |- _ => apply nleb_fin in H
  | H : nltb (Fin _) (Fin _) = true |- _ => apply nltb_fin in H
  | H : nleb (Fin _) (Fin _) = false |- _ => apply nleb_fin_false in H
  | H : nltb (Fin _) (Fin _) = false |- _ => apply nltb_fin_false in H
  | |- nleb (Fin _) (Fin _) = true => apply nleb_fin
  | |- nltb (Fin _) (Fin _) = true => apply nltb_fin
  | |- nleb (Fin _) (Fin _) = false => apply nleb_fin_false
  | |- nltb (Fin _) (Fin _) = false => apply nltb_fin_false
  end.

Ltac num_destruct :=
  repeat match goal with x : num |- _ => destruct x end.

Ltac num_solve :=
  unfold ngeb, ngtb in *; num_destruct; try discriminate; try reflexivity;
  try congruence; num_facts; try lra.

Lemma nleb_refl x : is_nan x = false -> nleb x x = true.
Proof. intros; num_solve. Qed.

Lemma nleb_trans x y z : nleb x y = true -> nleb y z = true -> nleb x z = true.
Proof. intros; num_solve. Qed.

Lemma nltb_nleb_trans x y z : nltb x y = true -> nleb y z = true -> nltb x z = true.
Proof. intros; num_solve. Qed.

Lemma nleb_nltb_trans x y z : nleb x y = true -> nltb y z = true -> nltb x z = true.
Proof. intros; num_solve. Qed.

Lemma nltb_nleb x y : nltb x y = true -> nleb x y = true.
Proof. intros; num_solve. Qed.

Lemma nltb_irrefl x : nltb x x = false.
Proof. num_solve. Qed.

Lemma nltb_not_nleb x y : nltb x y = true -> nleb y x = false.
Proof. intros; num_solve. Qed.

Lemma nleb_total x y : is_nan x = false -> is_nan y = false -> nltb x y = negb (nleb y x).
Proof.
  intros; num_destruct; try discriminate; try reflexivity.
  destruct (nleb (Fin q) (Fin q0)) eqn:E; simpl; num_facts; assumption.
Qed.

(** ** Rounding of arbitrary rationals *)

Lemma ilog2_comp x y : 0 < x -> x == y -> ilog2 x = ilog2 y.
Proof.
  intros Hx H.
  assert (ilog2 x <= ilog2 y)%Z by (apply ilog2_mono; lra).
  assert (ilog2 y <= ilog2 x)%Z by (apply ilog2_mono; lra). lia.
Qed.

Lemma rnd_pos_comp x y : 0 < x -> x == y -> rnd_pos x == rnd_pos y.
Proof. intros Hx H. apply Qle_antisym; apply rnd_pos_mono; lra. Qed.

Lemma rnd_comp x y : x == y -> rnd x = rnd y.
Proof.
  intros H. unfold rnd. rewrite (Qcompare_comp _ _ H 0 0 (Qeq_refl _)).
  destruct (Qcompare_spec y 0) as [E | E | E]; [reflexivity | |].
  - assert (R : rnd_pos (- x) == rnd_pos (- y)) by (apply rnd_pos_comp; lra).
    rewrite (Qleb_comp _ _ (Qeq_refl (qpow2 1024)) _ _ R). destruct (Qle_bool _ _); [reflexivity |].
    f_equal. apply Qred_complete. rewrite R. reflexivity.
  - assert (R : rnd_pos x == rnd_pos y) by (apply rnd_pos_comp; lra).
    rewrite (Qleb_comp _ _ (Qeq_refl (qpow2 1024)) _ _ R). destruct (Qle_bool _ _); [reflexivity |].
    f_equal. apply Qred_complete. exact R.
Qed.

#[global] Instance rnd_Proper : Proper (Qeq ==> eq) rnd.
Proof. intros x y. apply rnd_comp. Qed.

Lemma rnd_not_nan q : is_nan (rnd q) = false.
Proof. unfold rnd. destruct (Qcompare q 0); [reflexivity | |]; destruct (Qle_bool _ _); reflexivity. Qed.

(** The outcome of [rnd] on each sign, as an order-friendly description. *)
Lemma rnd_pos_case q : 0 < q ->
  (qpow2 1024 <= rnd_pos q /\ rnd q = PInf) \/
  (rnd_pos q < qpow2 1024 /\ exists v, rnd q = Fin v /\ v == rnd_pos q).
Proof.
  intros H. unfold rnd. rewrite (proj1 (Qgt_alt q 0) H).
  destruct (Qle_bool _ _) eqn:E.
  - left. apply Qle_bool_iff in E. auto.
  - right. apply Qlt_inv_bool in E. split; [exact E |].
    eexists; split; [reflexivity | apply Qred_correct].
Qed.

Lemma rnd_neg q : q < 0 -> rnd q = nopp (rnd (- q)).
Proof.
  intros H. unfold rnd. rewrite (proj1 (Qlt_alt q 0) H).
  rewrite (proj1 (Qgt_alt (- q) 0) ltac:(lra)). cbv zeta.
  destruct (Qle_bool _ _); [reflexivity |]. unfold nopp. f_equal. apply Qred_opp.
Qed.

Lemma rnd_0 q : q == 0 -> rnd q = Fin 0.
Proof. intros H. rewrite H. reflexivity. Qed.

Lemma nopp_mono x y : nleb x y = true -> nleb (nopp y) (nopp x) = true.
Proof. intros; num_destruct; simpl; try discriminate; try reflexivity; num_facts; lra. Qed.

Lemma rnd_mono_pos x y : 0 < x -> x <= y -> nleb (rnd x) (rnd y) = true.
Proof.
  intros Hx Hy. pose proof (rnd_pos_mono x y Hx Hy) as Hm.
  destruct (rnd_pos_case x Hx) as [[A ->] | [A (v & -> & Ev)]],
           (rnd_pos_case y ltac:(lra)) as [[B ->] | [B (w & -> & Ew)]];
    try reflexivity; num_facts; try lra.
Qed.

Lemma rnd_nonneg q : 0 <= q -> nleb (Fin 0) (rnd q) = true.
Proof.
  intros H. destruct (Qlt_le_dec 0 q) as [H0 | H0].
  - destruct (rnd_pos_case q H0) as [[_ ->] | [_ (v & -> & Ev)]]; [reflexivity |].
    num_facts. pose proof (rnd_pos_nonneg q H0). lra.
  - rewrite rnd_0 by lra. reflexivity.
Qed.

Lemma rnd_nonpos q : q <= 0 -> nleb (rnd q) (Fin 0) = true.
Proof.
  intros H. destruct (Qlt_le_dec q 0) as [H0 | H0].
  - rewrite rnd_neg by assumption. change (Fin 0) with (nopp (Fin 0)).
    apply nopp_mono, rnd_nonneg. lra.
  - rewrite rnd_0 by lra. reflexivity.
Qed.

(** Rounding is monotone: an inequality between exact results survives. *)
Lemma rnd_mono x y : x <= y -> nleb (rnd x) (rnd y) = true.
Proof.
  intros H. destruct (Qlt_le_dec 0 x) as [Hx | Hx]; [apply rnd_mono_pos; assumption |].
  destruct (Qlt_le_dec y 0) as [Hy | Hy].
  - rewrite (rnd_neg x), (rnd_neg y) by lra. apply nopp_mono, rnd_mono_pos; lra.
  - eapply nleb_trans; [apply rnd_nonpos | apply rnd_nonneg]; assumption.
Qed.

Lemma Qred_inject_Z z : Qred (inject_Z z) = inject_Z z.
Proof.
  unfold Qred. simpl.
  pose proof (Z.ggcd_gcd z 1) as G. pose proof (Z.ggcd_correct_divisors z 1) as D.
  rewrite Z.gcd_1_r in G. destruct (Z.ggcd z 1) as [g [a b]]. simpl in *. subst g.
  destruct D as [D1 D2]. rewrite Z.mul_1_l in D1, D2. subst. reflexivity.
Qed.

Lemma rnd_int_pos z : (0 < z <= 2 ^ 53)%Z -> rnd (inject_Z z) = nz z.
Proof.
  intros Hz. pose proof (rnd_pos_int z Hz) as E.
  assert (H0 : 0 < inject_Z z) by (rewrite (Zlt_Qlt 0 z) in Hz; tauto).
  unfold rnd. rewrite (proj1 (Qgt_alt _ _) H0).
  assert (L : inject_Z z < qpow2 1024).
  { apply Qle_lt_trans with (inject_Z (2 ^ 53)); [rewrite <- Zle_Qle; lia | reflexivity]. }
  rewrite (proj2 (Qlt_inv_bool _ _)) by lra.
  unfold nz. f_equal. rewrite (Qred_complete _ _ E). apply Qred_inject_Z.
Qed.

(** Integers of magnitude at most 2^53 are doubles. *)
Lemma rnd_int_exact z : (Z.abs z <= 2 ^ 53)%Z -> rnd (inject_Z z) = nz z.
Proof.
  intros Hz. destruct (Z.lt_trichotomy z 0) as [H | [-> | H]].
  - rewrite rnd_neg by (rewrite (Zlt_Qlt z 0) in H; exact H).
    rewrite <- inject_Z_opp, rnd_int_pos by lia. unfold nz; simpl. f_equal.
    rewrite <- inject_Z_opp, Z.opp_involutive. reflexivity.
  - reflexivity.
  - apply rnd_int_pos. lia.
Qed.

(** ** Facts the components share *)

Lemma nz_finite z : is_finite (nz z) = true.
Proof. reflexivity. Qed.

Lemma nz_leb a b : nleb (nz a) (nz b) = (a <=? b)%Z.
Proof.
  apply eq_true_iff_eq. rewrite Z.leb_le. unfold nz. rewrite nleb_fin, <- Zle_Qle. reflexivity.
Qed.

Lemma nz_ltb a b : nltb (nz a) (nz b) = (a <? b)%Z.
Proof.
  apply eq_true_iff_eq. rewrite Z.ltb_lt. unfold nz. rewrite nltb_fin, <- Zlt_Qlt. reflexivity.
Qed.

Lemma nz_geb a b : ngeb (nz a) (nz b) = (b <=? a)%Z.
Proof. apply nz_leb. Qed.

Lemma nz_gtb a b : ngtb (nz a) (nz b) = (b <? a)%Z.
Proof. apply nz_ltb. Qed.

Lemma nz_eqb a b : neqb (nz a) (nz b) = (a =? b)%Z.
Proof.
  apply eq_true_iff_eq. rewrite Z.eqb_eq. unfold nz. rewrite neqb_fin.
  split; [| intros ->; reflexivity]. unfold Qeq; simpl. lia.
Qed.

Lemma nz_max a b : nmax (nz a) (nz b) = nz (Z.max a b).
Proof.
  unfold nmax, nz, ncmp, Qcompare; simpl. rewrite !Z.mul_1_r.
  destruct (Z.compare_spec a b); f_equal; f_equal; lia.
Qed.

Lemma nz_min a b : nmin (nz a) (nz b) = nz (Z.min a b).
Proof.
  unfold nmin, nz, ncmp, Qcompare; simpl. rewrite !Z.mul_1_r.
  destruct (Z.compare_spec a b); f_equal; f_equal; lia.
Qed.

Lemma nz_add a b : (Z.abs (a + b) <= 2 ^ 53)%Z -> nadd (nz a) (nz b) = nz (a + b).
Proof. intros H. simpl. rewrite <- inject_Z_plus. apply rnd_int_exact, H. Qed.

Lemma nz_sub a b : (Z.abs (a - b) <= 2 ^ 53)%Z -> nsub (nz a) (nz b) = nz (a - b).
Proof.
  intros H. unfold nsub, nz; simpl. rewrite <- inject_Z_opp, <- inject_Z_plus.
  apply rnd_int_exact. replace (a + - b)%Z with (a - b)%Z by lia. exact H.
Qed.

Lemma nfloor_nz z : nfloor (nz z) = nz z.
Proof. unfold nfloor, nz. rewrite Qfloor_Z. reflexivity. Qed.

Lemma ntrunc_nz z : ntrunc (nz z) = nz z.
Proof.
  unfold ntrunc, nz. destruct (Qle_bool _ _); [rewrite Qfloor_Z | rewrite Qceiling_Z]; reflexivity.
Qed.

Lemma nround_nz z : nround (nz z) = nz z.
Proof.
  unfold nround, nz. do 2 f_equal. unfold Qfloor, inject_Z; simpl.
  symmetry. apply (Z.div_unique _ 2 z 1); lia.
Qed.

(** The least and greatest of two comparable numbers. *)
Lemma nmax_spec x y : is_nan x = false -> is_nan y = false ->
  nleb x (nmax x y) = true /\ nleb y (nmax x y) = true /\ (nmax x y = x \/ nmax x y = y).
Proof.
  intros; num_destruct; try discriminate; unfold nmax, ncmp; auto using nleb_refl.
  destruct (Qcompare_spec q0 q); repeat split; auto; num_facts; lra.
Qed.

Lemma nmax_left x y : nleb y x = true -> nmax x y = x.
Proof.
  unfold nleb, nmax. destruct x, y; simpl; try discriminate; try reflexivity.
  destruct (Qcompare_spec q0 q) as [H | H | H]; intros E; try discriminate E;
    destruct (Qcompare_spec q q0) as [H' | H' | H']; try reflexivity.
  - rewrite H in H'. exfalso. exact (Qlt_irrefl _ H').
  - exfalso. exact (Qlt_irrefl _ (Qlt_trans _ _ _ H H')).
Qed.

Lemma nmin_spec x y : is_nan x = false -> is_nan y = false ->
  nleb (nmin x y) x = true /\ nleb (nmin x y) y = true /\ (nmin x y = x \/ nmin x y = y).
Proof.
  intros; num_destruct; try discriminate; unfold nmin, ncmp; auto using nleb_refl.
  destruct (Qcompare_spec q0 q); repeat split; auto; num_facts; lra.
Qed.

Lemma nsub_nonneg a b : nleb (Fin b) (Fin a) = true -> nleb (nz 0) (nsub (Fin a) (Fin b)) = true.
Proof. intros H. num_facts. apply rnd_nonneg. lra. Qed.

(** ** Values that are doubles

    [Fin q] ranges over all rationals; the ones a program can hold are the
    fixed points of [rnd]. *)
Definition is_double (x : num) : bool :=
  match x with Fin q => neqb (rnd q) x | _ => true end.

Lemma rnd_pos_on_grid q : exists c, rnd_pos q == inject_Z c * qpow2 (-1074).
Proof.
  unfold rnd_pos. set (r := rhe _).
  exists (r * 2 ^ (ulp_exp q - -1074))%Z. rewrite inject_Z_mult, <- Qmult_assoc, <- qpow2_on_grid; [reflexivity |].
  unfold ulp_exp. lia.
Qed.

Lemma double_grid q : is_double (Fin q) = true -> exists c, q == inject_Z c * qpow2 (-1074).
Proof.
  unfold is_double. intros H. destruct (Q_dec q 0) as [[Hq | Hq] | Hq].
  - destruct (rnd_pos_case (- q) ltac:(lra)) as [[_ E] | [_ (v & E & Ev)]];
      rewrite (rnd_neg q Hq), E in H; [discriminate H |].
    destruct (rnd_pos_on_grid (- q)) as [c Hc]. simpl nopp in H. apply neqb_fin in H.
    exists (- c)%Z. rewrite inject_Z_opp. rewrite <- H, Ev, Hc. ring.
  - destruct (rnd_pos_case q Hq) as [[_ E] | [_ (v & E & Ev)]]; rewrite E in H; [discriminate H |].
    destruct (rnd_pos_on_grid q) as [c Hc]. apply neqb_fin in H. exists c. rewrite <- Hc, <- Ev. symmetry; exact H.
  - exists 0%Z. rewrite Hq. change (inject_Z 0) with 0. ring.
Qed.

Lemma rnd_least : rnd (qpow2 (-1074)) = Fin (qpow2 (-1074)).
Proof. vm_compute. reflexivity. Qed.

(** Gradual underflow: the difference of two distinct doubles does not round
    to zero. *)
Lemma double_sub_pos a b : is_double (Fin a) = true -> is_double (Fin b) = true -> a < b ->
  nltb (Fin 0) (rnd (b - a)) = true.
Proof.
  intros Ha Hb H. destruct (double_grid a Ha) as [ca Ea], (double_grid b Hb) as [cb Eb].
  assert (Hc : (ca < cb)%Z).
  { rewrite Ea, Eb in H. apply Qmult_lt_r in H; [| apply qpow2_pos]. rewrite Zlt_Qlt. exact H. }
  assert (L : qpow2 (-1074) <= b - a).
  { rewrite Ea, Eb. assert (E : inject_Z cb * qpow2 (-1074) - inject_Z ca * qpow2 (-1074)
      == inject_Z (cb - ca) * qpow2 (-1074)) by (unfold Z.sub; rewrite inject_Z_plus, inject_Z_opp; ring).
    rewrite E. rewrite <- (Qmult_1_l (qpow2 (-1074))) at 1. apply Qmult_le_compat_r; [| apply Qlt_le_weak, qpow2_pos].
    change 1 with (inject_Z 1). rewrite <- Zle_Qle. lia. }
  apply rnd_mono in L. rewrite rnd_least in L. apply nltb_nleb_trans with (2 := L).
  apply nltb_fin, qpow2_pos.
Qed.

(** Rounding is idempotent: what [rnd] returns is a double. *)
Lemma rnd_pos_idem q : 0 < q -> 0 < rnd_pos q -> rnd_pos (rnd_pos q) == rnd_pos q.
Proof.
  intros Hq Hv. set (v := rnd_pos q) in *. destruct (ilog2_spec q Hq) as [_ Hk].
  assert (He : (ulp_exp q <= ilog2 q + 1)%Z \/ (ilog2 q + 1 < ulp_exp q)%Z) by lia.
  destruct He as [He | He].
  - assert (Hle : v <= qpow2 (ilog2 q + 1)).
    { rewrite (qpow2_on_grid _ _ He). apply rnd_pos_le_grid. rewrite <- (qpow2_on_grid _ _ He). lra. }
    destruct (Qlt_le_dec v (qpow2 (ilog2 q + 1))) as [Hlt | Hge].
    + assert (Hi : (ilog2 v <= ilog2 q)%Z).
      { destruct (ilog2_spec v Hv) as [H1 _]. enough (ilog2 v < ilog2 q + 1)%Z by lia.
        apply qpow2_lt_inv. lra. }
      assert (Hu : (ulp_exp v <= ulp_exp q)%Z) by (unfold ulp_exp; lia).
      apply (rnd_pos_grid_exact v (rhe (q * qpow2 (- ulp_exp q)) * 2 ^ (ulp_exp q - ulp_exp v))).
      rewrite inject_Z_mult, <- Qmult_assoc, <- (qpow2_on_grid _ _ Hu). reflexivity.
    + assert (E : v == qpow2 (ilog2 q + 1)) by lra.
      assert (Hi : (ilog2 v <= ilog2 q + 1)%Z).
      { destruct (ilog2_spec v Hv) as [H1 _]. destruct (Z.le_gt_cases (ilog2 v) (ilog2 q + 1)); [assumption |].
        assert (qpow2 (ilog2 q + 1) < qpow2 (ilog2 v)).
        { apply Qlt_le_trans with (qpow2 (ilog2 q + 1 + 1)); [| apply qpow2_le; lia].
          rewrite (qpow2_add (ilog2 q + 1) 1). pose proof (qpow2_pos (ilog2 q + 1)). change (qpow2 1) with (2 # 1). lra. }
        lra. }
      assert (Hu : (ulp_exp v <= ilog2 q + 1)%Z) by (unfold ulp_exp in *; lia).
      apply (rnd_pos_grid_exact v (2 ^ (ilog2 q + 1 - ulp_exp v))).
      rewrite E at 1. apply (qpow2_on_grid _ _ Hu).
  - (* deep underflow: the result is at most one unit of the subnormal grid *)
    assert (Hu : (ulp_exp v <= ulp_exp q)%Z).
    { assert (Hle : v <= inject_Z 1 * qpow2 (ulp_exp q)).
      { apply rnd_pos_le_grid. change (inject_Z 1) with 1. rewrite Qmult_1_l.
        apply Qlt_le_weak, Qlt_le_trans with (1 := Hk). apply qpow2_le. lia. }
      change (inject_Z 1) with 1 in Hle. rewrite Qmult_1_l in Hle. destruct (ilog2_spec v Hv) as [H1 _].
      assert (qpow2 (ilog2 v) < qpow2 (ulp_exp q + 1)).
      { rewrite (qpow2_add (ulp_exp q) 1). pose proof (qpow2_pos (ulp_exp q)). change (qpow2 1) with (2 # 1). lra. }
      apply qpow2_lt_inv in H. unfold ulp_exp in *. lia. }
    apply (rnd_pos_grid_exact v (rhe (q * qpow2 (- ulp_exp q)) * 2 ^ (ulp_exp q - ulp_exp v))).
    rewrite inject_Z_mult, <- Qmult_assoc, <- (qpow2_on_grid _ _ Hu). reflexivity.
Qed.

Lemma rnd_double_pos q : 0 < q -> is_double (rnd q) = true.
Proof.
  intros Hq. destruct (rnd_pos_case q Hq) as [[_ E] | [Hlt (v & E & Ev)]]; rewrite E; [reflexivity |].
  unfold is_double. pose proof (rnd_pos_nonneg q Hq) as H0.
  destruct (Q_dec v 0) as [[Hv | Hv] | Hv]; [lra | | rewrite (rnd_0 v Hv); apply neqb_fin; lra].
  assert (Hi : rnd_pos v == v).
  { rewrite (rnd_pos_comp v (rnd_pos q) Hv Ev), Ev. apply rnd_pos_idem; lra. }
  destruct (rnd_pos_case v Hv) as [[Hge _] | [_ (w & E2 & Ew)]]; [lra |].
  rewrite E2. apply neqb_fin. lra.
Qed.

Lemma nopp_double x : is_double x = true -> is_double (nopp x) = true.
Proof.
  destruct x as [| | | q]; try reflexivity. intros H. simpl nopp. unfold is_double in *.
  assert (E : rnd (- q) = nopp (rnd q) \/ q == 0).
  { destruct (Q_dec q 0) as [[Hq | Hq] | Hq]; [left | left | now right].
    - rewrite (rnd_neg q Hq). destruct (rnd_pos_case (- q) ltac:(lra)) as [[_ E] | [_ (v & E & Ev)]];
        rewrite E; simpl; [reflexivity |]. rewrite (rnd_neg q Hq), E in H. simpl nopp in H. apply neqb_fin in H.
      f_equal. destruct v as [n d]. unfold Qopp; simpl. now rewrite Z.opp_involutive.
    - rewrite (rnd_neg (- q)) by lra. f_equal. apply rnd_comp. ring. }
  destruct E as [-> | E0].
  - destruct (rnd q) as [| | | v]; try discriminate H. simpl nopp. apply neqb_fin in H. apply neqb_fin. lra.
  - rewrite rnd_0 by lra. apply neqb_fin. lra.
Qed.

Lemma rnd_double q : is_double (rnd q) = true.
Proof.
  destruct (Q_dec q 0) as [[Hq | Hq] | Hq].
  - rewrite (rnd_neg q Hq). apply nopp_double, rnd_double_pos. lra.
  - now apply rnd_double_pos.
  - rewrite (rnd_0 q Hq). reflexivity.
Qed.

Lemma nadd_double x y : is_double (nadd x y) = true.
Proof. destruct x, y; try reflexivity. apply rnd_double. Qed.

(** Adding a nonnegative amount to a double never decreases it. *)
Lemma nadd_ge_left x y : is_double x = true -> is_finite x = true -> nleb (nz 0) y = true ->
  nleb x (nadd x y) = true.
Proof.
  destruct x as [| | | a], y as [| | | b]; try discriminate; intros Hd _ Hy; [reflexivity |].
  unfold is_double in Hd. simpl nadd. unfold nz in Hy. apply nleb_fin in Hy. change (inject_Z 0) with 0 in Hy.
  apply nleb_trans with (rnd a); [| apply rnd_mono; lra].
  destruct (rnd a); try discriminate Hd. apply neqb_fin in Hd. apply nleb_fin. lra.
Qed.

(** A value of the unit interval rounds into it. *)
Lemma rnd_unit q : 0 <= q <= 1 -> exists v, rnd q = Fin v /\ 0 <= v <= 1.
Proof.
  intros [H0 H1]. apply rnd_nonneg in H0. apply rnd_mono in H1.
  change 1 with (inject_Z 1) in H1. rewrite (rnd_int_exact 1) in H1 by lia. unfold nz in H1.
  destruct (rnd q) as [| | | v]; [discriminate H0 | discriminate H1 | discriminate H0 |].
  exists v. num_facts. change (inject_Z 1) with 1 in *. split; [reflexivity | split; assumption].
Qed.

Lemma frac_unit m d : (0 <= m <= d)%Z -> (1 <= d)%Z -> 0 <= inject_Z m / inject_Z d <= 1.
Proof.
  intros Hm Hd. assert (0 < inject_Z d) by (change 0 with (inject_Z 0); rewrite <- Zlt_Qlt; lia). split.
  - apply Qle_shift_div_l; [assumption |]. rewrite Qmult_0_l. change 0 with (inject_Z 0). rewrite <- Zle_Qle. lia.
  - apply Qle_shift_div_r; [assumption |]. rewrite Qmult_1_l, <- Zle_Qle. lia.
Qed.

Lemma round3_unit q : 0 <= q <= 1 -> round3 (Fin q) = rnd (Qfloor (q * 1000 + (1 # 2)) # 1000).
Proof.
  intros [H0 H1]. unfold round3. destruct (Qle_bool (inject_Z (10 ^ 21)) q) eqn:A.
  { apply Qle_bool_iff in A. assert (1 < inject_Z (10 ^ 21)) by reflexivity. lra. }
  destruct (Qle_bool q (inject_Z (- 10 ^ 21))) eqn:B.
  { apply Qle_bool_iff in B. assert (inject_Z (- 10 ^ 21) < 0) by reflexivity. lra. }
  destruct (Qle_bool 0 q) eqn:C; [reflexivity |]. apply Qlt_inv_bool in C. lra.
Qed.

Lemma round3_mono p q : 0 <= p -> p <= q -> q <= 1 -> nleb (round3 (Fin p)) (round3 (Fin q)) = true.
Proof.
  intros Hp Hpq Hq. rewrite !round3_unit by lra. apply rnd_mono. unfold Qle; cbn [Qnum Qden].
  assert (Qfloor (p * 1000 + (1 # 2)) <= Qfloor (q * 1000 + (1 # 2)))%Z by (apply Qfloor_resp_le; lra). lia.
Qed.

(** A thousandth is the least positive value of [round3]. *)
Lemma round3_pos q : nltb (nz 0) (round3 (Fin q)) = true -> nltb (round3 (Fin q)) (nz 1) = true ->
  nleb (rnd (1 # 1000)) (round3 (Fin q)) = true.
Proof.
  unfold round3. destruct (Qle_bool (inject_Z (10 ^ 21)) q) eqn:A.
  { intros _ H. unfold nz in H. apply nltb_fin in H. apply Qle_bool_iff in A.
    assert (1 <= inject_Z (10 ^ 21)) as A1 by (vm_compute; discriminate).
    change (inject_Z 1) with 1 in H. pose proof (Qle_trans _ _ _ A1 A). lra. }
  destruct (Qle_bool q (inject_Z (- 10 ^ 21))) eqn:B.
  { intros H _. unfold nz in H. apply nltb_fin in H. apply Qle_bool_iff in B.
    assert (inject_Z (- 10 ^ 21) <= 0) as B1 by (vm_compute; discriminate).
    change (inject_Z 0) with 0 in H. pose proof (Qle_trans _ _ _ B B1). lra. }
  set (n := Qfloor (q * 1000 + (1 # 2))). destruct (Qle_bool 0 q) eqn:C.
  - intros H _. apply rnd_mono. unfold Qle; simpl. destruct (Z_lt_le_dec 0 n) as [| Hn]; [lia |]. exfalso.
    assert (L : nleb (rnd (n # 1000)) (nz 0) = true) by (apply rnd_nonpos; unfold Qle; simpl; lia).
    rewrite (nltb_not_nleb _ _ H) in L. discriminate L.
  - intros H _. exfalso. set (k := Qfloor (- q * 1000 + (1 # 2))) in H.
    assert (Hk : (0 <= k)%Z).
    { subst k. change 0%Z with (Qfloor 0). apply Qfloor_resp_le.
      assert (q < 0) by (apply Qnot_le_lt; intros N; apply Qle_bool_iff in N; congruence). lra. }
    assert (L : nleb (nopp (rnd (k # 1000))) (nz 0) = true).
    { change (nz 0) with (nopp (nz 0)). apply nopp_mono. apply rnd_nonneg. unfold Qle; simpl. lia. }
    rewrite (nltb_not_nleb _ _ H) in L. discriminate L.
Qed.

Lemma round3_range q : 0 <= q <= 1 -> exists v, round3 (Fin q) = Fin v /\ 0 <= v <= 1.
Proof.
  intros H. rewrite (round3_unit q H). apply rnd_unit.
  assert (0 <= Qfloor (q * 1000 + (1 # 2)) <= 1000)%Z.
  { rewrite <- (Qfloor_Z 0) at 1.
    split; [apply Qfloor_resp_le; change (inject_Z 0) with 0; lra |].
    enough (Qfloor (q * 1000 + (1 # 2)) < 1001)%Z by lia. rewrite Zlt_Qlt.
    eapply Qle_lt_trans; [apply Qfloor_le |]. change (inject_Z 1001) with (1001 # 1). lra. }
  split; unfold Qle; cbn [Qnum Qden]; lia.
Qed.

Lemma finite_not_nan x : is_finite x = true -> is_nan x = false.
Proof. destruct x; easy. Qed.

#[export] Hint Rewrite nz_finite nz_leb nz_ltb nz_geb nz_gtb nz_eqb nz_max nz_min nfloor_nz ntrunc_nz nround_nz : jsnum.
#[export] Hint Resolve nleb_refl finite_not_nan rnd_not_nan rnd_mono rnd_nonneg : jsnum.

(** Evaluate comparisons of integer-valued numbers. *)
Ltac num_int := autorewrite with jsnum in *.

(** ** Sanity checks against the language *)

Example add_rounds : nadd (Fin (1 # 10)) (Fin (2 # 10)) = rnd (3 # 10).
Proof. vm_compute. reflexivity. Qed.

(** With the operands rounded to doubles first, [0.1 + 0.2] is the next double
    above [0.3]. *)
Example add_doubles :
  neqb (nadd (rnd (1 # 10)) (rnd (2 # 10))) (rnd (3 # 10)) = false
  /\ ngtb (nadd (rnd (1 # 10)) (rnd (2 # 10))) (rnd (3 # 10)) = true.
Proof. vm_compute. auto. Qed.

Example int_saturates : nadd (nz (2 ^ 53)) (nz 1) = nz (2 ^ 53).
Proof. vm_compute. reflexivity. Qed.

Example overflow_inf : nmul (rnd (qpow2 1023)) (nz 2) = PInf.
Proof. vm_compute. reflexivity. Qed.

Example smallest_subnormal : rnd (qpow2 (-1074)) = Fin (qpow2 (-1074)) /\ rnd (qpow2 (-1075)) = Fin 0.
Proof. vm_compute. auto. Qed.

Lemma rnd_half : rnd (1 # 2) = Fin (1 # 2).
Proof. vm_compute. reflexivity. Qed.

(** Proofs reason about [rnd] through its lemmas; [vm_compute] still evaluates it. *)
#[global] Opaque rnd.
