(* ===== verification/JsString.v ===== *)
(** * JavaScript strings, number rendering and dynamic values

    Strings are [String.string]: the bytes of the UTF-8 encoding of the text.
    [trim] and [toLowerCase] act on the ASCII range, which is what repository
    names, action classes, logins, labels and paths are made of; the Unicode
    tables for case folding and white space beyond it are not modelled, and a
    byte outside ASCII is left alone by both.

    [num_to_string] is ECMAScript's Number::toString (the shortest decimal that
    reads back as the number), used wherever a template literal renders a
    number.  [jsval] is the type of values the sources call [unknown]. *)

From stdpp Require Import base list strings sorting option pretty sets.
From Stdlib Require Import QArith Qround ZArith Ascii Lia.
From S2P Require Import Prelude JsNumber.

Local Open Scope nat_scope.
Local Open Scope string_scope.

(** ** Characters *)

(** The ASCII members of WhiteSpace and LineTerminator. *)
Definition is_space (c : ascii) : bool :=
  let n := N_of_ascii c in
  ((9 <=? n) && (n <=? 13) || (n =? 32))%N.

Definition lower_ascii (c : ascii) : ascii :=
  let n := N_of_ascii c in
  if ((65 <=? n) && (n <=? 90))%N then ascii_of_N (n + 32) else c.

Definition is_alnum (c : ascii) : bool :=
  let n := N_of_ascii c in
  ((48 <=? n) && (n <=? 57) || (65 <=? n) && (n <=? 90) || (97 <=? n) && (n <=? 122))%N.

(** ** Strings *)

Fixpoint toLowerCase (s : string) : string :=
  match s with
  | EmptyString => EmptyString
  | String c s' => String (lower_ascii c) (toLowerCase s')
  end.

Fixpoint trim_start (s : string) : string :=
  match s with
  | String c s' => if is_space c then trim_start s' else s
  | EmptyString => EmptyString
  end.

(** Drops the white space at the end: a character is kept when it or something
    after it is not white space. *)
Fixpoint trim_end (s : string) : string :=
  match s with
  | EmptyString => EmptyString
  | String c s' =>
      match trim_end s' with
      | EmptyString => if is_space c then EmptyString else String c EmptyString
      | t => String c t
      end
  end.

Definition trim (s : string) : string := trim_end (trim_start s).

(** The emptiness test behind [if (!s)] and [s.length > 0]. *)
Definition str_empty (s : string) : bool :=
  match s with EmptyString => true | _ => false end.

Fixpoint str_forallb (p : ascii -> bool) (s : string) : bool :=
  match s with
  | EmptyString => true
  | String c s' => p c && str_forallb p s'
  end.

(** [parts.join(sep)]. *)
Fixpoint join (sep : string) (parts : list string) : string :=
  match parts with
  | [] => ""
  | [p] => p
  | p :: ps => p ++ sep ++ join sep ps
  end.

(** [s.split(/[...]+/)] followed by dropping the empty pieces: the maximal runs
    of characters that are not separators. *)
Fixpoint split_runs_aux (sep : ascii -> bool) (cur : string) (s : string) : list string :=
  match s with
  | EmptyString => if str_empty cur then [] else [cur]
  | String c s' =>
      if sep c
      then (if str_empty cur then [] else [cur]) ++ split_runs_aux sep "" s'
      else split_runs_aux sep (cur ++ String c "") s'
  end%list.
Definition split_runs (sep : ascii -> bool) (s : string) : list string := split_runs_aux sep "" s.

(** [s.split(c)] for a one-character separator: always at least one piece. *)
Fixpoint split_on_aux (sep : ascii) (cur : string) (s : string) : list string :=
  match s with
  | EmptyString => [cur]
  | String c s' =>
      if Ascii.eqb c sep then cur :: split_on_aux sep "" s'
      else split_on_aux sep (cur ++ String c "") s'
  end.
Definition split_on (sep : ascii) (s : string) : list string := split_on_aux sep "" s.

(** Code-unit order, [a < b] on strings. *)
Definition str_ltb (a b : string) : bool := String.ltb a b.

(** [s.length] and [s.slice(0, n)] count UTF-16 code units: none for a
    continuation byte, two for the first byte of a character beyond the basic
    plane.  Where the cut would fall inside such a character the source keeps a
    lone surrogate, which UTF-8 cannot encode; here the cut is before it. *)
Definition utf16_units (c : ascii) : nat :=
  let n := N_of_ascii c in
  if (n <? 128)%N then 1 else if (n <? 192)%N then 0 else if (n <? 240)%N then 1 else 2.

Fixpoint js_length (s : string) : nat :=
  match s with
  | EmptyString => 0
  | String c s' => utf16_units c + js_length s'
  end.

Fixpoint js_take (n : nat) (s : string) : string :=
  match s with
  | EmptyString => ""
  | String c s' => if Nat.leb (utf16_units c) n then String c (js_take (n - utf16_units c) s') else ""
  end.

Lemma js_take_length n s : js_length (js_take n s) <= n.
Proof.
  revert n. induction s as [| c s IH]; intros n; simpl; [lia |].
  destruct (Nat.leb_spec (utf16_units c) n); simpl; [| lia]. specialize (IH (n - utf16_units c)). lia.
Qed.

Lemma js_take_all n s : js_length s <= n -> js_take n s = s.
Proof.
  revert n. induction s as [| c s IH]; intros n H; simpl in *; [done |].
  destruct (Nat.leb_spec (utf16_units c) n); [| lia]. rewrite IH by lia. done.
Qed.

Lemma js_length_app s t : js_length (s ++ t) = js_length s + js_length t.
Proof. induction s as [| c s IH]; simpl; [done |]. rewrite IH. lia. Qed.

(** ** Sets of strings

    [new Set(xs)] keeps the first occurrence of every element, in order. *)

Fixpoint js_set_from (seen xs : list string) : list string :=
  match xs with
  | [] => []
  | x :: xs' => if decide (x ∈ seen) then js_set_from seen xs' else x :: js_set_from (x :: seen) xs'
  end.
Definition js_set (xs : list string) : list string := js_set_from [] xs.

Definition set_has (xs : list string) (x : string) : bool := bool_decide (x ∈ xs).

(** ** Sorting *)

(** [Array.prototype.sort], which is stable: an element goes before the first one that is not ahead of it. *)
Fixpoint insert_sorted {A} (ahead : A -> A -> bool) (x : A) (l : list A) : list A :=
  match l with
  | [] => [x]
  | y :: rest => if ahead y x then y :: insert_sorted ahead x rest else x :: l
  end.

Fixpoint js_sort {A} (ahead : A -> A -> bool) (l : list A) : list A :=
  match l with
  | [] => []
  | x :: rest => insert_sorted ahead x (js_sort ahead rest)
  end.

(** ** Rendering numbers *)

(** [10^(n-1) <= q < 10^n] for a positive [q]. *)
Definition dec_exp (q : Q) : Z :=
  let e := (ilog2 q * 30103 / 100000)%Z in
  if Qle_bool (Qpower 10 e) q
  then if Qle_bool (Qpower 10 (e + 1)) q then (e + 2)%Z else (e + 1)%Z
  else e.

(** The integers next to [q / 10^(n-k)] that read back as [q], nearest first. *)
Definition dec_candidate (q : Q) (n k : Z) : option Z :=
  let scale := Qpower 10 (n - k) in
  let x := (q / scale)%Q in
  let s0 := Qfloor x in
  let ok s := (Qle_bool (Qpower 10 (k - 1)) (inject_Z s)
               && neqb (rnd (inject_Z s * scale)) (Fin q))%bool in
  let lo := ok s0 in
  let hi := ok (s0 + 1)%Z in
  let near_lo := match Qcompare (x - inject_Z s0) (1 # 2) with
                 | Lt => true | Gt => false | Eq => Z.even s0 end in
  if lo && (negb hi || near_lo) then Some s0
  else if hi then Some (s0 + 1)%Z
  else None.

Fixpoint shortest_from (fuel : nat) (q : Q) (n k : Z) : Z * Z * Z :=
  match dec_candidate q n k with
  | Some s => if (s =? 10 ^ k)%Z then (1%Z, (n + 1)%Z, 1%Z) else (s, n, k)
  | None =>
      match fuel with
      | O => (Qfloor (q / Qpower 10 (n - k)), n, k)
      | S fuel' => shortest_from fuel' q n (k + 1)%Z
      end
  end.

(** Seventeen significant digits always suffice for a double. *)
Definition shortest (q : Q) : Z * Z * Z := shortest_from 16 q (dec_exp q) 1.

Fixpoint zeros (n : nat) : string :=
  match n with O => "" | S n' => "0" ++ zeros n' end.

Definition render_pos (q : Q) : string :=
  let '(s, n, k) := shortest q in
  let digits := pretty s in
  let e := (n - 1)%Z in
  if ((k <=? n) && (n <=? 21))%Z then digits ++ zeros (Z.to_nat (n - k))
  else if ((0 <? n) && (n <=? 21))%Z
       then String.substring 0 (Z.to_nat n) digits ++ "." ++ String.substring (Z.to_nat n) (Z.to_nat (k - n)) digits
  else if ((-6 <? n) && (n <=? 0))%Z then "0." ++ zeros (Z.to_nat (- n)) ++ digits
  else String.substring 0 1 digits
       ++ (if (k =? 1)%Z then "" else "." ++ String.substring 1 (Z.to_nat (k - 1)) digits)
       ++ "e" ++ (if (e <? 0)%Z then "-" else "+") ++ pretty (Z.abs e).

Definition num_to_string (x : num) : string :=
  match x with
  | NaN => "NaN"
  | PInf => "Infinity"
  | NInf => "-Infinity"
  | Fin q =>
      match Qcompare q 0 with
      | Eq => "0"
      | Gt => render_pos q
      | Lt => "-" ++ render_pos (- q)
      end
  end.

Example render_int : num_to_string (nz 1200) = "1200". Proof. vm_compute. reflexivity. Qed.
Example render_tenth : num_to_string (rnd (1 # 10)) = "0.1". Proof. vm_compute. reflexivity. Qed.
Example render_sum :
  num_to_string (nadd (rnd (1 # 10)) (rnd (2 # 10))) = "0.30000000000000004".
Proof. vm_compute. reflexivity. Qed.
Example render_big : num_to_string (nz (2 ^ 60)) = "1152921504606847000".
Proof. vm_compute. reflexivity. Qed.
Example render_exp :
  num_to_string (nz (10 ^ 21)) = "1e+21" /\ num_to_string (rnd (1 # 10000000)) = "1e-7"
  /\ num_to_string (rnd (inject_Z (10 ^ 23))) = "1e+23" /\ num_to_string (rnd (qpow2 (-1074))) = "5e-324".
Proof. vm_compute. auto. Qed.
Example render_neg : num_to_string (rnd (-123456789 # 1000)) = "-123456.789".
Proof. vm_compute. reflexivity. Qed.

(** ** Dynamic values *)

Inductive jsval : Type :=
| JUndefined
| JNull
| JBool (b : bool)
| JNum (n : num)
| JStr (s : string)
| JArr (vs : list jsval)
| JObj (fields : list (string * jsval)).

(** [v ?? null] in a payload. *)
Definition jopt {A} (inj : A -> jsval) (o : option A) : jsval :=
  match o with Some a => inj a | None => JNull end.

(** ** Facts about strings *)

Lemma str_empty_true s : str_empty s = true <-> s = "".
Proof. destruct s; simpl; split; congruence. Qed.

Lemma str_empty_false s : str_empty s = false <-> s <> "".
Proof. destruct s; simpl; split; congruence. Qed.

Lemma string_app_cons c s t : String c s ++ t = String c (s ++ t).
Proof. reflexivity. Qed.

Lemma string_app_nil_r s : s ++ "" = s.
Proof. induction s as [| c s IH]; [reflexivity | by rewrite string_app_cons, IH]. Qed.

Lemma string_app_assoc s1 s2 s3 : (s1 ++ s2) ++ s3 = s1 ++ s2 ++ s3.
Proof. induction s1 as [| c s1 IH]; [reflexivity | by rewrite !string_app_cons, IH]. Qed.

Lemma string_length_app (s t : string) : String.length (s ++ t) = String.length s + String.length t.
Proof. induction s as [| c s IH]; [done |]. rewrite string_app_cons. simpl. by rewrite IH. Qed.

Lemma trim_end_idem s : trim_end (trim_end s) = trim_end s.
Proof.
  induction s as [| c s IH]; [reflexivity |]. simpl.
  destruct (trim_end s) as [| c' t] eqn:E.
  - destruct (is_space c) eqn:S; simpl; [reflexivity | by rewrite S].
  - remember (String c' t) as u eqn:Eu. cbn [trim_end]. rewrite IH. by subst u.
Qed.

(** The first character that is not white space survives [trim_end]. *)
Lemma trim_end_head c s : is_space c = false -> exists t, trim_end (String c s) = String c t.
Proof. intros H. simpl. rewrite H. destruct (trim_end s); eauto. Qed.

Lemma trim_start_head s : trim_start s = "" \/ exists c t, trim_start s = String c t /\ is_space c = false.
Proof.
  induction s as [| c s IH]; [by left |]. simpl. destruct (is_space c) eqn:E; [exact IH |].
  right. eauto.
Qed.

Lemma trim_start_nonspace c s : is_space c = false -> trim_start (String c s) = String c s.
Proof. intros H. simpl. by rewrite H. Qed.

Lemma trim_idem s : trim (trim s) = trim s.
Proof.
  unfold trim. destruct (trim_start_head s) as [-> | (c & t & -> & Hc)]; [reflexivity |].
  destruct (trim_end_head c t Hc) as [u Hu]. rewrite Hu, trim_start_nonspace by assumption.
  by rewrite <- Hu, trim_end_idem.
Qed.

Lemma lower_space c : is_space (lower_ascii c) = is_space c.
Proof. by destruct c as [[] [] [] [] [] [] [] []]. Qed.

Lemma lower_lower c : lower_ascii (lower_ascii c) = lower_ascii c.
Proof. by destruct c as [[] [] [] [] [] [] [] []]. Qed.

Lemma toLowerCase_idem s : toLowerCase (toLowerCase s) = toLowerCase s.
Proof. induction s as [| c s IH]; simpl; [reflexivity |]. by rewrite lower_lower, IH. Qed.

Lemma trim_start_lower s : trim_start (toLowerCase s) = toLowerCase (trim_start s).
Proof. induction s as [| c s IH]; simpl; [reflexivity |]. rewrite lower_space. by destruct (is_space c). Qed.

Lemma trim_end_lower s : trim_end (toLowerCase s) = toLowerCase (trim_end s).
Proof.
  induction s as [| c s IH]; simpl; [reflexivity |]. rewrite IH, lower_space.
  destruct (trim_end s); simpl; [by destruct (is_space c) | reflexivity].
Qed.

Lemma trim_lower s : trim (toLowerCase s) = toLowerCase (trim s).
Proof. unfold trim. by rewrite trim_start_lower, trim_end_lower. Qed.

(** [value.trim().toLowerCase()] is a normal form. *)
Lemma clean_idem s : toLowerCase (trim (toLowerCase (trim s))) = toLowerCase (trim s).
Proof. by rewrite trim_lower, trim_idem, toLowerCase_idem. Qed.

Lemma split_on_aux_nonempty sep cur s : split_on_aux sep cur s <> [].
Proof.
  revert cur. induction s as [| c s IH]; intros cur; simpl; [discriminate |].
  destruct (Ascii.eqb c sep); [discriminate | apply IH].
Qed.

Lemma join_cons sep p ps : ps <> [] -> join sep (p :: ps) = p ++ sep ++ join sep ps.
Proof. destruct ps; [congruence | reflexivity]. Qed.

Lemma split_on_aux_join sep cur s :
  join (String sep "") (split_on_aux sep cur s) = cur ++ s.
Proof.
  revert cur. induction s as [| c s IH]; intros cur; simpl; [by rewrite string_app_nil_r |].
  destruct (Ascii.eqb_spec c sep) as [-> | Hne].
  - rewrite join_cons, IH by apply split_on_aux_nonempty. reflexivity.
  - rewrite IH, string_app_assoc. reflexivity.
Qed.

(** Splitting on a character and joining with it is the identity. *)
Lemma split_on_join sep s : join (String sep "") (split_on sep s) = s.
Proof. unfold split_on. by rewrite split_on_aux_join. Qed.

(** ** Facts about sets *)

Lemma js_set_from_elem seen xs x :
  x ∈ js_set_from seen xs <-> x ∈ xs /\ x ∉ seen.
Proof.
  revert seen. induction xs as [| y xs IH]; intros seen; simpl; [set_solver |].
  case_decide as Hy; [rewrite IH; set_solver |].
  rewrite elem_of_cons, IH. destruct (decide (x = y)) as [-> |]; set_solver.
Qed.

Lemma js_set_elem xs x : x ∈ js_set xs <-> x ∈ xs.
Proof. unfold js_set. rewrite js_set_from_elem. set_solver. Qed.

Lemma js_set_from_nodup seen xs : NoDup (js_set_from seen xs).
Proof.
  revert seen. induction xs as [| y xs IH]; intros seen; simpl; [constructor |].
  case_decide; [apply IH |]. constructor; [| apply IH].
  rewrite js_set_from_elem. set_solver.
Qed.

Lemma js_set_nodup xs : NoDup (js_set xs).
Proof. apply js_set_from_nodup. Qed.

Lemma js_set_from_id seen xs : NoDup xs -> (forall x, x ∈ xs -> x ∉ seen) -> js_set_from seen xs = xs.
Proof.
  revert seen. induction xs as [| y xs IH]; intros seen Hnd Hs; simpl; [reflexivity |].
  apply NoDup_cons in Hnd as [Hy Hnd]. rewrite decide_False by (apply Hs; set_solver).
  f_equal. apply IH; [assumption |]. set_solver.
Qed.

Lemma js_set_id xs : NoDup xs -> js_set xs = xs.
Proof. intros. apply js_set_from_id; set_solver. Qed.

Lemma js_set_from_length seen xs : length (js_set_from seen xs) <= length xs.
Proof.
  revert seen. induction xs as [| y xs IH]; intros seen; simpl; [lia |].
  case_decide; simpl; [specialize (IH seen) | specialize (IH (y :: seen))]; lia.
Qed.

(** The set is as large as the list exactly when the list has no repetition. *)
Lemma js_set_size xs : length (js_set xs) = length xs <-> NoDup xs.
Proof.
  split; [| intros H; by rewrite js_set_id].
  unfold js_set. cut (forall seen, length (js_set_from seen xs) = length xs -> NoDup xs /\ forall x, x ∈ xs -> x ∉ seen).
  { intros H E. by apply (H []). }
  induction xs as [| y xs IH]; intros seen E; simpl in *; [split; [constructor | set_solver] |].
  case_decide as Hy.
  - pose proof (js_set_from_length seen xs). lia.
  - simpl in E. destruct (IH (y :: seen)) as [Hnd Hs]; [lia |]. split.
    + constructor; [| assumption]. intros C. apply (Hs _ C). set_solver.
    + intros x [-> | Hx]%elem_of_cons; [assumption |]. specialize (Hs _ Hx). set_solver.
Qed.

Lemma set_has_elem xs x : set_has xs x = true <-> x ∈ xs.
Proof. unfold set_has. apply bool_decide_eq_true. Qed.

Lemma js_sort_elem {A} (ahead : A -> A -> bool) l x : x ∈ js_sort ahead l <-> x ∈ l.
Proof.
  assert (I : forall y k, x ∈ insert_sorted ahead y k <-> x = y \/ x ∈ k).
  { intros y k. induction k as [| z k IH]; cbn [insert_sorted]; [by rewrite elem_of_cons |].
    destruct (ahead z y); rewrite !elem_of_cons; [rewrite IH |]; tauto. }
  induction l as [| y l IH]; [done |]. cbn [js_sort]. by rewrite I, elem_of_cons, IH.
Qed.

Lemma js_sort_perm {A} (ahead : A -> A -> bool) l : js_sort ahead l ≡ₚ l.
Proof.
  assert (I : forall x k, insert_sorted ahead x k ≡ₚ x :: k).
  { intros x k. induction k as [| z k IH]; cbn [insert_sorted]; [done |]. destruct (ahead z x); [| done]. rewrite IH. by constructor. }
  induction l as [| x l IH]; [done |]. cbn [js_sort]. by rewrite I, IH.
Qed.

(** The result is sorted when [ahead] decides a total preorder on the elements. *)
Lemma js_sort_strong {A} (ahead : A -> A -> bool) (R : A -> A -> Prop) (P : A -> Prop) l :
  (forall x y, P x -> P y -> ahead y x = true -> R y x) -> (forall x y, P x -> P y -> ahead y x = false -> R x y) ->
  (forall x y z, P x -> P y -> P z -> R x y -> R y z -> R x z) -> (forall x, x ∈ l -> P x) -> StronglySorted R (js_sort ahead l).
Proof.
  intros H1 H2 T. assert (E : forall x y k, y ∈ insert_sorted ahead x k <-> y = x \/ y ∈ k).
  { intros x y k. induction k as [| z k IH]; cbn [insert_sorted]; [by rewrite elem_of_cons |]. destruct (ahead z x); rewrite !elem_of_cons; [rewrite IH |]; tauto. }
  assert (I : forall x k, P x -> (forall y, y ∈ k -> P y) -> StronglySorted R k -> StronglySorted R (insert_sorted ahead x k)).
  { intros x k Px Pk S. induction S as [| y k S IH F]; cbn [insert_sorted]; [by repeat constructor |]. rewrite List.Forall_forall in F.
    assert (Py : P y) by (apply Pk; left). destruct (ahead y x) eqn:Ah.
    - constructor; [apply IH; intros z Hz; apply Pk; by right |]. apply List.Forall_forall. intros z Hz%list_elem_of_In. apply E in Hz as [-> | Hz]; [by apply H1 |].
      by apply F, list_elem_of_In.
    - constructor; [constructor; [done | by apply List.Forall_forall] |]. constructor; [by apply H2 |]. apply List.Forall_forall. intros z Hz.
      apply (T x y z); [done | done | apply Pk; right; by apply list_elem_of_In | by apply H2 | by apply F]. }
  induction l as [| x l IH]; intros Pl; [constructor |]. cbn [js_sort]. apply I; [apply Pl; left | | apply IH; intros y Hy; apply Pl; by right].
  intros y Hy%js_sort_elem. apply Pl. by right.
Qed.

#[export] Hint Resolve js_set_nodup trim_idem : loopover.
#[export] Hint Rewrite trim_idem js_set_elem : loopover.
