(* ===== verification/Ledger.v ===== *)
(** * The governor ledger's event contract

    Models [packages/loopover-engine/src/governor-ledger.ts] and
    [repo-segment.ts]: the closed event vocabulary every governor component
    reports in, and the validation each row passes before it is inserted
    ([normalizeGovernorLedgerEvent]), with the parts of [JSON.stringify] and
    [JSON.parse] it relies on.

    Main results: a row that validates is well formed (closed vocabulary,
    trimmed non-empty strings, a repository name that cannot traverse paths),
    validation is idempotent, and a payload is accepted exactly when JSON text
    represents it without loss. *)

From stdpp Require Import base list strings option sets.
From Stdlib Require Import QArith Ascii.
From S2P Require Import Prelude JsNumber JsString.

Local Open Scope nat_scope.
Local Open Scope string_scope.
Local Open Scope js_scope.

(** ** Vocabulary *)

Inductive GovernorLedgerEventType :=
| allowed | denied | throttled | kill_switch.

#[global] Instance GovernorLedgerEventType_eq_dec : EqDecision GovernorLedgerEventType.
Proof. solve_decision. Defined.

Definition eventType_to_string (t : GovernorLedgerEventType) : string :=
  match t with
  | allowed => "allowed"
  | denied => "denied"
  | throttled => "throttled"
  | kill_switch => "kill_switch"
  end.

(** [GOVERNOR_LEDGER_EVENT_TYPES], and the membership test of the set built from it. *)
Definition GOVERNOR_LEDGER_EVENT_TYPES : list GovernorLedgerEventType :=
  [allowed; denied; throttled; kill_switch].

#[export] Instance GovernorLedgerEventType_vocabulary : Vocabulary GovernorLedgerEventType.
Proof. vocabulary_by eventType_to_string GOVERNOR_LEDGER_EVENT_TYPES. Defined.

Definition eventType_of_string (s : string) : option GovernorLedgerEventType := of_word s.

Record GovernorLedgerEvent := mkEvent {
  eventType : GovernorLedgerEventType;
  repoFullName : option string;
  actionClass : string;
  decision : string;
  reason : string;
  payload : list (string * jsval);
}.

Record NormalizedGovernorLedgerEvent := mkNormalized {
  n_eventType : GovernorLedgerEventType;
  n_repoFullName : option string;
  n_actionClass : string;
  n_decision : string;
  n_reason : string;
  n_payloadJson : string;
}.

(** ** Repository segments *)

Definition repo_segment_char (c : ascii) : bool :=
  is_alnum c || Ascii.eqb c "." || Ascii.eqb c "_" || Ascii.eqb c "-".

(** [/^[A-Za-z0-9._-]+$/] and not a bare [.] or [..]. *)
Definition isValidRepoSegment (segment : string) : bool :=
  negb (str_empty segment) && str_forallb repo_segment_char segment
  && negb (String.eqb segment ".") && negb (String.eqb segment "..").

(** ** JSON *)

Definition hex_digit (n : N) : string :=
  if (n <? 10)%N then String (ascii_of_N (48 + n)) "" else String (ascii_of_N (87 + n)) "".

Definition json_escape_char (c : ascii) : string :=
  let n := N_of_ascii c in
  if (n =? 34)%N || (n =? 92)%N then String "\" (String c "")
  else if (n =? 8)%N then "\b"
  else if (n =? 9)%N then "\t"
  else if (n =? 10)%N then "\n"
  else if (n =? 12)%N then "\f"
  else if (n =? 13)%N then "\r"
  else if (n <? 32)%N then "\u00" ++ hex_digit (n / 16) ++ hex_digit (n mod 16)
  else String c "".

Fixpoint json_escape (s : string) : string :=
  match s with
  | EmptyString => ""
  | String c s' => json_escape_char c ++ json_escape s'
  end.

Definition json_quote (s : string) : string :=
  let q := String (ascii_of_N 34) "" in q ++ json_escape s ++ q.

Definition json_num (n : num) : string := if is_finite n then num_to_string n else "null".

(** [JSON.stringify]; [None] is the [undefined] it returns for [undefined]. *)
Fixpoint json_stringify (v : jsval) : option string :=
  match v with
  | JUndefined => None
  | JNull => Some "null"
  | JBool b => Some (if b then "true" else "false")
  | JNum n => Some (json_num n)
  | JStr s => Some (json_quote s)
  | JArr vs =>
      Some ("[" ++ join "," (List.map (fun w => default "null" (json_stringify w)) vs) ++ "]")
  | JObj fs =>
      Some ("{" ++ join "," (List.concat (List.map (fun kw =>
          match json_stringify kw.2 with
          | Some t => [json_quote kw.1 ++ ":" ++ t]
          | None => []
          end) fs)) ++ "}")
  end.

(** [JSON.parse(JSON.stringify(v))] as a value: what the text of [v] means. *)
Fixpoint json_image (v : jsval) : option jsval :=
  match v with
  | JUndefined => None
  | JNum n => Some (if is_finite n then JNum n else JNull)
  | JArr vs => Some (JArr (List.map (fun w => default JNull (json_image w)) vs))
  | JObj fs =>
      Some (JObj (List.concat (List.map (fun kw =>
          match json_image kw.2 with
          | Some w => [(kw.1, w)]
          | None => []
          end) fs)))
  | _ => Some v
  end.

(** Own-property lookup on an object's fields. *)
Definition get_own (fs : list (string * jsval)) (k : string) : option jsval :=
  snd <$> List.find (fun kv => String.eqb kv.1 k) fs.

Definition get_field (v : jsval) (k : string) : jsval :=
  match v with
  | JObj fs => default JUndefined (get_own fs k)
  | _ => JUndefined
  end.

(** The parsed side [a] is compared with the original [b].  [a === b] holds
    only between equal primitives: a parsed object is never the original one. *)
Fixpoint jsonRoundTripEqual (a b : jsval) : bool :=
  match a, b with
  | JUndefined, JUndefined | JNull, JNull => true
  | JBool x, JBool y => Bool.eqb x y
  | JNum x, JNum y => neqb x y
  | JStr x, JStr y => String.eqb x y
  | JArr xs, JArr ys =>
      (fix go (xs ys : list jsval) : bool :=
         match xs, ys with
         | [], [] => true
         | x :: xs', y :: ys' => jsonRoundTripEqual x y && go xs' ys'
         | _, _ => false
         end) xs ys
  | JObj fs, JObj gs =>
      Nat.eqb (List.length fs) (List.length gs)
      && forallb (fun kx => match get_own gs kx.1 with
                            | Some y => jsonRoundTripEqual kx.2 y
                            | None => false
                            end) fs
  | _, _ => false
  end.

(** ** Validation *)

Definition normalizeRequiredString (value : jsval) (code : string) : completion string :=
  match value with
  | JStr s =>
      let trimmed := trim s in
      if str_empty trimmed then Thrown code else Normal trimmed
  | _ => Thrown code
  end.

Definition normalizeOptionalRepoFullName (value : jsval) : completion (option string) :=
  match value with
  | JUndefined | JNull => Normal None
  | JStr s =>
      match split_on "/" (trim s) with
      | [owner; repo] =>
          if str_empty owner || str_empty repo then Thrown "invalid_repo_full_name"
          else if negb (isValidRepoSegment owner) || negb (isValidRepoSegment repo)
               then Thrown "invalid_repo_full_name"
               else Normal (Some (owner ++ "/" ++ repo))
      | _ => Thrown "invalid_repo_full_name"
      end
  | _ => Thrown "invalid_repo_full_name"
  end.

Definition serializePayload (p : jsval) : completion string :=
  match p with
  | JUndefined => Normal "{}"
  | JObj _ =>
      match json_stringify p, json_image p with
      | Some json, Some parsed =>
          if jsonRoundTripEqual parsed p then Normal json else Thrown "invalid_payload"
      | _, _ => Thrown "invalid_payload"
      end
  | _ => Thrown "invalid_payload"
  end.

Definition normalizeGovernorLedgerEvent (input : jsval) : completion NormalizedGovernorLedgerEvent :=
  match input with
  | JObj _ | JArr _ =>
      t <- normalizeRequiredString (get_field input "eventType") "invalid_event_type" ;;
      match eventType_of_string t with
      | None => Thrown "invalid_event_type"
      | Some et =>
          r <- normalizeOptionalRepoFullName (get_field input "repoFullName") ;;
          a <- normalizeRequiredString (get_field input "actionClass") "invalid_action_class" ;;
          d <- normalizeRequiredString (get_field input "decision") "invalid_decision" ;;
          why <- normalizeRequiredString (get_field input "reason") "invalid_reason" ;;
          p <- serializePayload (get_field input "payload") ;;
          Normal (mkNormalized et r a d why p)
      end
  | _ => Thrown "invalid_event"
  end.

(** The row a governor component builds, as the untyped value the append path
    receives. *)
Definition event_value (e : GovernorLedgerEvent) : jsval :=
  JObj [("eventType", JStr (eventType_to_string (eventType e)));
        ("repoFullName", jopt JStr (repoFullName e));
        ("actionClass", JStr (actionClass e));
        ("decision", JStr (decision e));
        ("reason", JStr (reason e));
        ("payload", JObj (payload e))].

(** ** Lossless payloads *)

(** Induction over dynamic values with the hypothesis for every component. *)
Section JsvalInd.
Variable P : jsval -> Prop.
Hypothesis HU : P JUndefined.
Hypothesis HN : P JNull.
Hypothesis HB : forall b, P (JBool b).
Hypothesis Hn : forall n, P (JNum n).
Hypothesis HS : forall s, P (JStr s).
Hypothesis HA : forall vs, Forall P vs -> P (JArr vs).
Hypothesis HO : forall fs, Forall (fun kv => P kv.2) fs -> P (JObj fs).

Fixpoint jsval_rect_all (v : jsval) : P v :=
  match v with
  | JUndefined => HU
  | JNull => HN
  | JBool b => HB b
  | JNum n => Hn n
  | JStr s => HS s
  | JArr vs => HA vs ((fix go l : Forall P l :=
      match l with [] => Forall_nil_2 _ | x :: l' => Forall_cons_2 _ _ _ (jsval_rect_all x) (go l') end) vs)
  | JObj fs => HO fs ((fix go l : Forall (fun kv => P kv.2) l :=
      match l with [] => Forall_nil_2 _ | x :: l' => Forall_cons_2 _ _ _ (jsval_rect_all x.2) (go l') end) fs)
  end.
End JsvalInd.

(** JSON text represents the value: no [undefined] and no non-finite number
    anywhere in it. *)
Fixpoint json_clean (v : jsval) : bool :=
  match v with
  | JUndefined => false
  | JNum n => is_finite n
  | JArr vs => forallb json_clean vs
  | JObj fs => forallb (fun kv => json_clean kv.2) fs
  | _ => true
  end.

(** The keys of a JavaScript object are distinct, at every level. *)
Fixpoint keys_distinct (v : jsval) : bool :=
  match v with
  | JArr vs => forallb keys_distinct vs
  | JObj fs => bool_decide (NoDup (fs.*1)) && forallb (fun kv => keys_distinct kv.2) fs
  | _ => true
  end.

Lemma get_own_in (fs : list (string * jsval)) k v :
  NoDup (fs.*1) -> (k, v) ∈ fs -> get_own fs k = Some v.
Proof.
  unfold get_own. induction fs as [| [k' v'] fs IH]; intros Hnd Hin; [set_solver |].
  simpl in *. apply NoDup_cons in Hnd as [Hk Hnd].
  destruct (String.eqb_spec k' k) as [-> | Hne].
  - apply elem_of_cons in Hin as [Heq | Hin]; [by inversion Heq |].
    exfalso. apply Hk. apply list_elem_of_fmap. by exists (k, v).
  - apply IH; [assumption |]. set_solver.
Qed.

Lemma clean_image v : json_clean v = true -> json_image v = Some v.
Proof.
  induction v as [| | | n | | vs IH | fs IH] using jsval_rect_all; simpl; intros H; try congruence.
  - by rewrite H.
  - do 2 f_equal. induction IH as [| x vs Hx _ IHvs]; simpl in *; [reflexivity |].
    apply andb_true_iff in H as [H1 H2]. by rewrite (Hx H1), IHvs.
  - do 2 f_equal. induction IH as [| [k x] fs Hx _ IHfs]; simpl in *; [reflexivity |].
    apply andb_true_iff in H as [H1 H2]. by rewrite (Hx H1), IHfs.
Qed.

Lemma roundtrip_fields (gs : list (string * jsval)) :
  NoDup (gs.*1) -> Forall (fun kv => jsonRoundTripEqual kv.2 kv.2 = true) gs ->
  jsonRoundTripEqual (JObj gs) (JObj gs) = true.
Proof.
  intros Hnd Hall. simpl. rewrite Nat.eqb_refl. simpl. apply forallb_forall.
  intros [k x] Hin%list_elem_of_In. simpl. rewrite (get_own_in gs k x Hnd Hin).
  by apply (proj1 (Forall_forall _ _) Hall (k, x)).
Qed.

Lemma clean_roundtrip v :
  json_clean v = true -> keys_distinct v = true -> jsonRoundTripEqual v v = true.
Proof.
  induction v as [| | | n | | vs IH | fs IH] using jsval_rect_all; intros H K; simpl in *; try done.
  - by destruct b.
  - destruct n; try done. unfold neqb; simpl. by rewrite (proj1 (Qeq_alt q q) (Qeq_refl q)).
  - apply String.eqb_refl.
  - induction IH as [| x vs Hx _ IHvs]; simpl in *; [reflexivity |].
    apply andb_true_iff in H as [H1 H2], K as [K1 K2]. by rewrite Hx, IHvs.
  - apply andb_true_iff in K as [K1 K2]. apply bool_decide_eq_true in K1.
    apply roundtrip_fields; [assumption |].
    apply Forall_forall. intros kv Hin. rewrite Forall_forall in IH. apply IH; [assumption | |].
    + by apply (proj1 (forallb_forall _ _) H), list_elem_of_In.
    + by apply (proj1 (forallb_forall _ _) K2), list_elem_of_In.
Qed.

(** The image of an object's fields, as the parse of its text sees them. *)
Definition image_fields (fs : list (string * jsval)) : list (string * jsval) :=
  List.concat (List.map (fun kw => match json_image kw.2 with Some w => [(kw.1, w)] | None => [] end) fs).

Lemma image_fields_length fs : List.length (image_fields fs) <= List.length fs.
Proof.
  unfold image_fields. induction fs as [| [k v] fs IH]; simpl; [lia |].
  destruct (json_image v); simpl; lia.
Qed.

Lemma image_fields_full fs : List.length (image_fields fs) = List.length fs ->
  Forall (fun kv => exists w, json_image kv.2 = Some w /\ (kv.1, w) ∈ image_fields fs) fs.
Proof.
  induction fs as [| [k v] fs IH]; intros Hlen; [constructor |].
  pose proof (image_fields_length fs) as Hle.
  unfold image_fields in *. simpl in *. destruct (json_image v) as [w |] eqn:E; simpl in Hlen; [| lia].
  constructor; [exists w; set_solver |].
  eapply Forall_impl; [apply IH; lia |]. intros kv (u & Hu & Hin). exists u. set_solver.
Qed.

Lemma roundtrip_obj_inv (fs gs : list (string * jsval)) :
  jsonRoundTripEqual (JObj fs) (JObj gs) = true ->
  List.length fs = List.length gs /\
  forall k x, (k, x) ∈ fs -> exists y, get_own gs k = Some y /\ jsonRoundTripEqual x y = true.
Proof.
  simpl. rewrite andb_true_iff. intros [Hlen Hgo]. split; [by apply Nat.eqb_eq |].
  intros k x Hin%list_elem_of_In. rewrite forallb_forall in Hgo. specialize (Hgo _ Hin). simpl in Hgo.
  destruct (get_own gs k); [eauto | discriminate].
Qed.

Lemma roundtrip_clean v w :
  keys_distinct v = true -> json_image v = Some w -> jsonRoundTripEqual w v = true -> json_clean v = true.
Proof.
  revert w. induction v as [| | | n | | vs IH | fs IH] using jsval_rect_all; intros w K I R; simpl in *; try done.
  - inversion I; subst. destruct (is_finite n); [done | discriminate].
  - inversion I; subst; clear I. induction IH as [| x vs Hx _ IHvs]; simpl in *; [reflexivity |].
    apply andb_true_iff in K as [K1 K2], R as [R1 R2]. rewrite IHvs by assumption. rewrite andb_true_r.
    destruct (json_image x) as [u |] eqn:E; simpl in R1; [by eapply Hx |].
    destruct x; simpl in E; discriminate.
  - apply andb_true_iff in K as [K1 K2]. apply bool_decide_eq_true in K1.
    assert (Hw : w = JObj (image_fields fs)) by (by inversion I). subst w.
    apply roundtrip_obj_inv in R as [Hlen Hall].
    apply forallb_forall. intros kv Hin. apply list_elem_of_In in Hin.
    rewrite Forall_forall in IH.
    destruct (proj1 (Forall_forall _ _) (image_fields_full fs Hlen) kv Hin) as (u & Hu & Hmem).
    destruct (Hall _ _ Hmem) as (y & Hy & Hr).
    rewrite (get_own_in fs kv.1 kv.2 K1) in Hy by (by destruct kv). inversion Hy; subst.
    eapply IH; [exact Hin | | exact Hu | exact Hr].
    by apply (proj1 (forallb_forall _ _) K2), list_elem_of_In.
Qed.

(** ** Properties *)

(** [serializePayload] accepts an object payload exactly when JSON text
    represents it without loss: [undefined] members and non-finite numbers are
    rejected with [invalid_payload], everything else is stored. *)
Theorem serializePayload_lossless fs :
  keys_distinct (JObj fs) = true ->
  (json_clean (JObj fs) = true <-> exists json, serializePayload (JObj fs) = Normal json)
  /\ (json_clean (JObj fs) = false -> serializePayload (JObj fs) = Thrown "invalid_payload").
Proof.
  intros K.
  assert (Hacc : jsonRoundTripEqual (JObj (image_fields fs)) (JObj fs) = true <-> json_clean (JObj fs) = true).
  { split.
    - intros R. by eapply roundtrip_clean.
    - intros C. assert (I : JObj (image_fields fs) = JObj fs)
        by exact (f_equal (default JNull) (clean_image _ C)).
      rewrite I. by apply clean_roundtrip. }
  assert (Hser : exists json, serializePayload (JObj fs) =
            if jsonRoundTripEqual (JObj (image_fields fs)) (JObj fs) then Normal json else Thrown "invalid_payload").
  { eexists. reflexivity. }
  destruct Hser as [json ->].
  destruct (jsonRoundTripEqual (JObj (image_fields fs)) (JObj fs)) eqn:E.
  - rewrite (proj1 Hacc eq_refl). split; [split; eauto | discriminate].
  - assert (json_clean (JObj fs) = false) as ->.
    { destruct (json_clean (JObj fs)); [symmetry; by apply Hacc | reflexivity]. }
    split; [split; [discriminate | intros [? ?]; discriminate] | reflexivity].
Qed.

(** *** Well-formed rows *)

Definition required_ok (s : string) : Prop := trim s = s /\ s <> "".

Definition repo_ok (r : option string) : Prop :=
  match r with
  | None => True
  | Some s => exists owner repo, s = owner ++ "/" ++ repo /\ split_on "/" s = [owner; repo]
                /\ isValidRepoSegment owner = true /\ isValidRepoSegment repo = true
  end.

Definition row_ok (n : NormalizedGovernorLedgerEvent) : Prop :=
  repo_ok (n_repoFullName n) /\ required_ok (n_actionClass n)
  /\ required_ok (n_decision n) /\ required_ok (n_reason n).

Lemma required_normal v code s :
  normalizeRequiredString v code = Normal s -> exists r, v = JStr r /\ s = trim r /\ required_ok s.
Proof.
  destruct v; simpl; try discriminate. destruct (str_empty (trim s0)) eqn:E; [discriminate |].
  intros [= <-]. apply str_empty_false in E. exists s0. repeat split; auto using trim_idem.
Qed.

Lemma required_of_ok s code : required_ok s -> normalizeRequiredString (JStr s) code = Normal s.
Proof. intros [Ht Hne]. simpl. rewrite Ht. by rewrite (proj2 (str_empty_false s) Hne). Qed.

Lemma repo_normal v r :
  normalizeOptionalRepoFullName v = Normal r ->
  repo_ok r /\ normalizeOptionalRepoFullName (jopt JStr r) = Normal r.
Proof.
  destruct v; simpl; try discriminate; try (intros [= <-]; by split).
  destruct (split_on "/" (trim s)) as [| owner [| repo [| ? ?]]] eqn:E; try discriminate.
  destruct (str_empty owner || str_empty repo) eqn:Ee; [discriminate |].
  destruct (negb (isValidRepoSegment owner) || negb (isValidRepoSegment repo)) eqn:V; [discriminate |].
  intros [= <-]. pose proof (split_on_join "/" (trim s)) as J. rewrite E in J. simpl in J.
  pose proof V as V'. apply orb_false_iff in V' as [V1%negb_false_iff V2%negb_false_iff].
  split.
  - exists owner, repo. rewrite J. auto.
  - simpl. rewrite J, trim_idem, E, Ee, V. by rewrite <- J.
Qed.

Lemma eventType_of_to t : eventType_of_string (eventType_to_string t) = Some t.
Proof. exact (of_word_word t). Qed.

Lemma trim_eventType t : trim (eventType_to_string t) = eventType_to_string t.
Proof. by destruct t. Qed.

(** Every row that passes validation is well formed: its event type is in
    the closed vocabulary, its three required strings are trimmed and not empty,
    and its repository is absent or [owner/repo] with both segments made of
    [A-Za-z0-9._-] and neither of them a [.] or [..] traversal segment. *)
Theorem normalizeGovernorLedgerEvent_wf input n :
  normalizeGovernorLedgerEvent input = Normal n -> row_ok n.
Proof.
  intros H.
  assert (Hbody : exists t et r a d why p,
    n = mkNormalized et r a d why p
    /\ eventType_of_string t = Some et
    /\ normalizeOptionalRepoFullName (get_field input "repoFullName") = Normal r
    /\ normalizeRequiredString (get_field input "actionClass") "invalid_action_class" = Normal a
    /\ normalizeRequiredString (get_field input "decision") "invalid_decision" = Normal d
    /\ normalizeRequiredString (get_field input "reason") "invalid_reason" = Normal why).
  { destruct input; try discriminate;
      apply cbind_normal in H as (t & Ht & H);
      destruct (eventType_of_string t) as [et |] eqn:Et; try discriminate;
      apply cbind_normal in H as (r & Hr & H); apply cbind_normal in H as (a & Ha & H);
      apply cbind_normal in H as (d & Hd & H); apply cbind_normal in H as (why & Hw & H);
      apply cbind_normal in H as (p & Hp & H); exists t, et, r, a, d, why, p; by inversion H. }
  destruct Hbody as (t & et & r & a & d & why & p & -> & _ & Hr & Ha & Hd & Hw).
  apply repo_normal in Hr as [Hr _].
  apply required_normal in Ha as (? & _ & _ & Ha), Hd as (? & _ & _ & Hd), Hw as (? & _ & _ & Hw).
  unfold row_ok; simpl; auto.
Qed.

Lemma normalizeGovernorLedgerEvent_wf_witness :
  row_ok (mkNormalized denied (Some "acme/widgets") "open_pr" "deny" "floored" "{}").
Proof.
  apply (normalizeGovernorLedgerEvent_wf
    (event_value (mkEvent denied (Some " acme/widgets ") "open_pr " "deny" "floored" []))).
  reflexivity.
Defined.

(** Validation is idempotent: re-submitting the normalized fields of an
    accepted row, with the payload it was built from, produces the same row. *)
Theorem normalizeGovernorLedgerEvent_idem e n :
  normalizeGovernorLedgerEvent (event_value e) = Normal n ->
  normalizeGovernorLedgerEvent (event_value (mkEvent (n_eventType n) (n_repoFullName n)
    (n_actionClass n) (n_decision n) (n_reason n) (payload e))) = Normal n.
Proof.
  destruct e as [et0 r0 a0 d0 why0 p0]. intros H.
  change (normalizeGovernorLedgerEvent _) with
    (t <- normalizeRequiredString (JStr (eventType_to_string et0)) "invalid_event_type" ;;
     match eventType_of_string t with
     | None => Thrown "invalid_event_type"
     | Some et =>
         r <- normalizeOptionalRepoFullName (jopt JStr r0) ;;
         a <- normalizeRequiredString (JStr a0) "invalid_action_class" ;;
         d <- normalizeRequiredString (JStr d0) "invalid_decision" ;;
         why <- normalizeRequiredString (JStr why0) "invalid_reason" ;;
         p <- serializePayload (JObj p0) ;; Normal (mkNormalized et r a d why p)
     end) in H.
  apply cbind_normal in H as (t & Ht & H). apply required_normal in Ht as (? & [= <-] & -> & _).
  rewrite trim_eventType, eventType_of_to in H.
  apply cbind_normal in H as (r & Hr & H); apply cbind_normal in H as (a & Ha & H);
  apply cbind_normal in H as (d & Hd & H); apply cbind_normal in H as (why & Hw & H);
  apply cbind_normal in H as (p & Hp & H). inversion H; subst; clear H.
  apply repo_normal in Hr as [_ Hr].
  apply required_normal in Ha as (? & _ & _ & Ha), Hd as (? & _ & _ & Hd), Hw as (? & _ & _ & Hw).
  unfold normalizeGovernorLedgerEvent, event_value. simpl get_field. cbn [eventType repoFullName actionClass decision reason payload n_eventType n_repoFullName n_actionClass n_decision n_reason].
  rewrite required_of_ok by (split; [apply trim_eventType | by destruct et0]). cbn [cbind].
  rewrite eventType_of_to, Hr. cbn [cbind]. rewrite !required_of_ok by assumption. cbn [cbind].
  by rewrite Hp.
Qed.

Lemma normalizeGovernorLedgerEvent_idem_witness :
  normalizeGovernorLedgerEvent (event_value
    (mkEvent throttled (Some "acme/widgets") "open_pr" "throttle" "per_repo_rate_limit"
       [("retryAfterMs", JNum (nz 500))]))
  = Normal (mkNormalized throttled (Some "acme/widgets") "open_pr" "throttle" "per_repo_rate_limit"
       (String "{" (json_quote "retryAfterMs" ++ ":500}"))).
Proof.
  apply (normalizeGovernorLedgerEvent_idem
    (mkEvent throttled (Some "acme/widgets") " open_pr" "throttle" "per_repo_rate_limit "
       [("retryAfterMs", JNum (nz 500))])
    (mkNormalized throttled (Some "acme/widgets") "open_pr" "throttle" "per_repo_rate_limit"
       (String "{" (json_quote "retryAfterMs" ++ ":500}")))).
  vm_compute. reflexivity.
Defined.

Lemma serializePayload_lossless_witness :
  serializePayload (JObj [("retryAfterMs", JNum PInf)]) = Thrown "invalid_payload".
Proof.
  apply (serializePayload_lossless [("retryAfterMs", JNum PInf)]); reflexivity.
Defined.
