(* ===== verification/KillSwitch.v ===== *)
(** * Kill switch and action mode

    Models [governor/kill-switch.ts] (the emergency halt every write consults
    first) and [governor/action-mode.ts] (paused, dry-run or live).  Main
    results: writes execute only when no switch is engaged and both the operator
    and the repository opted in with the exact literal; the transition records
    follow every run of observed scopes exactly. *)

From stdpp Require Import base list strings option gmap.
From S2P Require Import Prelude JsNumber JsString Ledger.

Local Open Scope string_scope.

(** ** Kill switch *)

Inductive MinerKillSwitchScope := scope_global | scope_repo | scope_none.

#[global] Instance MinerKillSwitchScope_eq_dec : EqDecision MinerKillSwitchScope.
Proof. solve_decision. Defined.

Definition scope_to_string (s : MinerKillSwitchScope) : string :=
  match s with scope_global => "global" | scope_repo => "repo" | scope_none => "none" end.

Definition MINER_KILL_SWITCH_ENV_VAR : string := "LOOPOVER_MINER_KILL_SWITCH".

(** [/^(1|true|yes|on)$/i.test(value)]. *)
Definition TRUTHY_ENV_VALUE (value : string) : bool :=
  let v := toLowerCase value in
  String.eqb v "1" || String.eqb v "true" || String.eqb v "yes" || String.eqb v "on".

Definition isGlobalMinerKillSwitch (env : gmap string string) : bool :=
  TRUTHY_ENV_VALUE (default "" (env !! MINER_KILL_SWITCH_ENV_VAR)).

Definition resolveMinerKillSwitch (global : bool) (repoPaused : option bool) : MinerKillSwitchScope :=
  if global then scope_global
  else if bool_decide (repoPaused = Some true) then scope_repo
  else scope_none.

Definition isMinerKillSwitchActive (scope : MinerKillSwitchScope) : bool :=
  match scope with scope_none => false | _ => true end.

Definition buildMinerKillSwitchTransitionGovernorLedgerEvent
    (repo : option string) (action : string) (previousScope scope : MinerKillSwitchScope)
    : option GovernorLedgerEvent :=
  if decide (previousScope = scope) then None
  else
    let tripped := isMinerKillSwitchActive scope in
    Some (mkEvent kill_switch repo action
      (if tripped then "tripped" else "resumed")
      (if tripped then scope_to_string scope ++ "_kill_switch_engaged"
       else scope_to_string previousScope ++ "_kill_switch_cleared")
      [("previousScope", JStr (scope_to_string previousScope)); ("scope", JStr (scope_to_string scope))]).

Inductive MinerKillSwitchPagerDutySeverity := pd_critical | pd_error | pd_warning | pd_info.

Record MinerKillSwitchPagerDutyAlert := mkAlert {
  al_repoFullName : option string;
  al_scope : MinerKillSwitchScope;
  al_actionClass : string;
  al_summary : string;
  al_severity : MinerKillSwitchPagerDutySeverity;
  al_dedupKey : string;
  al_customDetails : list (string * jsval);
}.

Definition buildMinerKillSwitchPagerDutyAlert
    (repo : option string) (action : string) (previousScope scope : MinerKillSwitchScope)
    : option MinerKillSwitchPagerDutyAlert :=
  if decide (previousScope = scope) then None
  else if negb (isMinerKillSwitchActive scope) then None
  else
    let target := default "global" repo in
    Some (mkAlert repo scope action
      ("AMS miner kill-switch tripped (" ++ scope_to_string scope ++ ") — " ++ action ++ " halted for " ++ target)
      pd_critical
      ("miner_kill_switch_tripped:" ++ scope_to_string scope ++ ":" ++ target)
      [("scope", JStr (scope_to_string scope)); ("previousScope", JStr (scope_to_string previousScope));
       ("repoFullName", jopt JStr repo); ("actionClass", JStr action)]).

(** ** Action mode *)

Inductive MinerActionMode := paused | dry_run | live.

#[global] Instance MinerActionMode_eq_dec : EqDecision MinerActionMode.
Proof. solve_decision. Defined.

Definition MINER_LIVE_MODE_OPT_IN : string := "live".
Definition MINER_LIVE_MODE_ENV_VAR : string := "LOOPOVER_MINER_LIVE_MODE".

(** [value === "live"] on an unknown value. *)
Definition isExplicitMinerLiveModeOptIn (value : jsval) : bool :=
  match value with JStr s => String.eqb s MINER_LIVE_MODE_OPT_IN | _ => false end.

Definition isGlobalMinerLiveModeOptIn (env : gmap string string) : bool :=
  bool_decide (env !! MINER_LIVE_MODE_ENV_VAR = Some MINER_LIVE_MODE_OPT_IN).

Definition resolveMinerActionMode (scope : MinerKillSwitchScope) (repoLiveModeOptIn : jsval)
    (globalLiveModeOptIn : bool) : MinerActionMode :=
  if isMinerKillSwitchActive scope then paused
  else if globalLiveModeOptIn && isExplicitMinerLiveModeOptIn repoLiveModeOptIn then live
  else dry_run.

Definition minerActionModeExecutes (mode : MinerActionMode) : bool :=
  match mode with live => true | _ => false end.

Definition buildMinerDryRunGovernorLedgerEvent (repo : option string) (action : string)
    (wouldBeAction : jsval) : GovernorLedgerEvent :=
  mkEvent allowed repo action "dry_run" "dry_run_mode_active" [("wouldBeAction", wouldBeAction)].

(** ** Lemmas *)

Lemma resolve_active global repoPaused :
  isMinerKillSwitchActive (resolveMinerKillSwitch global repoPaused) = true
  <-> global = true \/ repoPaused = Some true.
Proof.
  unfold resolveMinerKillSwitch. destruct global; simpl; [naive_solver |].
  case_bool_decide; simpl; naive_solver.
Qed.

Lemma explicit_opt_in v : isExplicitMinerLiveModeOptIn v = true <-> v = JStr "live".
Proof.
  destruct v; simpl; try naive_solver. rewrite String.eqb_eq. unfold MINER_LIVE_MODE_OPT_IN. naive_solver.
Qed.

(** ** Properties *)

(** A write can execute only under explicit consent: the resolved mode
    executes if and only if neither kill switch is engaged, the operator opted
    in globally, and the repository's own value is exactly the string "live"
    (no truthy boolean, number or other spelling unlocks it). *)
Theorem live_iff_explicit_consent (global : bool) repoPaused repoOptIn (globalOptIn : bool) :
  minerActionModeExecutes
    (resolveMinerActionMode (resolveMinerKillSwitch global repoPaused) repoOptIn globalOptIn) = true
  <-> global = false /\ repoPaused <> Some true /\ globalOptIn = true /\ repoOptIn = JStr "live".
Proof.
  unfold resolveMinerActionMode.
  destruct (isMinerKillSwitchActive _) eqn:A.
  - apply resolve_active in A. destruct A as [-> | ->]; simpl; naive_solver.
  - assert (~ (global = true \/ repoPaused = Some true)) as N by (rewrite <- resolve_active; congruence).
    destruct (globalOptIn && isExplicitMinerLiveModeOptIn repoOptIn) eqn:E; simpl.
    + apply andb_true_iff in E as [-> E]. apply explicit_opt_in in E as ->.
      destruct global; naive_solver.
    + split; [discriminate |]. intros (_ & _ & -> & ->). discriminate.
Qed.

(** *** Runs of observed scopes *)

(** The rows a caller appends when it compares every observed scope with the
    one before it. *)
Fixpoint transition_log (repo : option string) (action : string)
    (prev : MinerKillSwitchScope) (scopes : list MinerKillSwitchScope) : list GovernorLedgerEvent :=
  match scopes with
  | [] => []
  | s :: rest =>
      (match buildMinerKillSwitchTransitionGovernorLedgerEvent repo action prev s with
       | Some e => [e]
       | None => []
       end ++ transition_log repo action s rest)%list
  end.

(** Whether the last row of a log says the switch is engaged. *)
Definition log_engaged (prev : MinerKillSwitchScope) (log : list GovernorLedgerEvent) : bool :=
  match last log with
  | Some e => String.eqb (decision e) "tripped"
  | None => isMinerKillSwitchActive prev
  end.

Lemma transition_decision repo action prev s e :
  buildMinerKillSwitchTransitionGovernorLedgerEvent repo action prev s = Some e ->
  String.eqb (decision e) "tripped" = isMinerKillSwitchActive s.
Proof.
  unfold buildMinerKillSwitchTransitionGovernorLedgerEvent. case_decide; [discriminate |].
  intros [= <-]. by destruct s.
Qed.

(** The transition rows are a faithful history: after any sequence of
    checks, the last row appended (or the initial scope when none was) tells
    whether the switch is engaged now. *)
Theorem transition_log_faithful repo action prev scopes :
  log_engaged prev (transition_log repo action prev scopes)
  = isMinerKillSwitchActive (List.last scopes prev).
Proof.
  revert prev. induction scopes as [| s rest IH]; intros prev; [reflexivity |].
  simpl transition_log. specialize (IH s).
  rewrite last_cons_default, <- IH. unfold log_engaged. rewrite last_app.
  destruct (last (transition_log repo action s rest)) as [e |] eqn:E; [reflexivity |].
  destruct (buildMinerKillSwitchTransitionGovernorLedgerEvent repo action prev s) as [e |] eqn:B; simpl.
  - by apply transition_decision in B.
  - unfold buildMinerKillSwitchTransitionGovernorLedgerEvent in B. case_decide; [by subst | discriminate].
Qed.

(** An operator is paged exactly when a ledger row with decision
    "tripped" is written, never on a resume and never without a transition. *)
Theorem pages_exactly_on_trip repo action prev s :
  is_Some (buildMinerKillSwitchPagerDutyAlert repo action prev s)
  <-> exists e, buildMinerKillSwitchTransitionGovernorLedgerEvent repo action prev s = Some e
                /\ decision e = "tripped".
Proof.
  unfold buildMinerKillSwitchPagerDutyAlert, buildMinerKillSwitchTransitionGovernorLedgerEvent.
  case_decide; [split; [by intros [? ?] | naive_solver] |].
  destruct s; simpl; split; try (by intros [? ?]); try (intros _; eauto; done);
    intros (e & [= <-] & H'); simpl in *; congruence.
Qed.
