(* ===== verification/RateLimit.v ===== *)
(** * Rate limiting

    Models [governor/rate-limit.ts] (rolling-window bucket arithmetic and the
    jittered backoff) and [governor/write-rate-limit.ts] (the global and
    per-repository buckets a governor write consults and advances).

    A policy or bucket table is a [gmap string _]: the sources read them through
    [Object.hasOwn], or with a key that contains a colon and so names no
    inherited property.  The injected random source is called at most once per
    decision, so it is modelled by the outcome of that call, a [completion num]:
    it may return any number or throw.

    Main results: no input makes a decision negative, larger than a window or
    [NaN]; the backoff is a non-negative integer; the arithmetic on doubles
    refines an integer specification ([Spec]); and in every run of writes no
    window admits more than its limit, per repository and across repositories. *)

From stdpp Require Import base list strings option gmap.
From Stdlib Require Import QArith Qround ZArith Lia Lqa.
From S2P Require Import Prelude JsNumber JsString Ledger.

Local Open Scope nat_scope.
Local Open Scope string_scope.
Local Open Scope js_scope.

(** ** Normalizers *)

(** [Number.isFinite(v) ? Math.max(0, Math.floor(v)) : 0].  The same helper is
    written out in rate-limit, budget-cap, reputation-throttle, non-convergence
    and worktree-pool. *)
Definition finiteNonNegativeInt (value : num) : num :=
  if is_finite value then nmax (nz 0) (nfloor value) else nz 0.

(** ** One bucket *)

Record LocalRateLimitConfig := mkConfig { limit : num; windowMs : num }.

Record LocalRateBucket := mkBucket { count : num; windowStartMs : num }.

Record LocalRateLimitDecision := mkRateDecision {
  rd_allowed : bool;
  rd_limit : num;
  rd_remaining : num;
  rd_resetAtMs : num;
  rd_retryAfterMs : num;
}.

Definition evaluateLocalRateLimit (bucket : LocalRateBucket) (config : LocalRateLimitConfig) (nowMs : num)
    : LocalRateLimitDecision :=
  let lim := finiteNonNegativeInt (limit config) in
  let win := finiteNonNegativeInt (windowMs config) in
  let cnt := finiteNonNegativeInt (count bucket) in
  let start := if is_finite (windowStartMs bucket) then windowStartMs bucket else nz 0 in
  let now := if is_finite nowMs then nowMs else nz 0 in
  let windowElapsed := ngeb (nsub now start) win in
  let effectiveCount := if windowElapsed then nz 0 else cnt in
  let effectiveWindowStart := if windowElapsed then now else start in
  let resetAtMs := nadd effectiveWindowStart win in
  let ok := nltb effectiveCount lim in
  let remaining := if ok then nsub (nsub lim effectiveCount) (nz 1) else nz 0 in
  let retryAfterMs := if ok then nz 0 else nmin win (nmax (nz 0) (nsub resetAtMs now)) in
  mkRateDecision ok lim remaining resetAtMs retryAfterMs.

(** ** Jittered backoff *)

Definition MAX_BACKOFF_EXPONENT : num := nz 30.
Definition MAX_SAFE_INTEGER : num := nz (2 ^ 53 - 1).

(** [2 ** exponent] for a non-negative integer exponent. *)
Definition pow2 (exponent : num) : num :=
  match exponent with
  | Fin q => rnd (qpow2 (Qfloor q))
  | other => other
  end.

Definition jitteredBackoffMs (baseMs attempt : num) (randomFn : completion num) : completion num :=
  let safeBase := if is_finite baseMs then nmax (nz 0) baseMs else nz 0 in
  let exponent := if is_nan attempt then nz 0
                  else nmin MAX_BACKOFF_EXPONENT (nmax (nz 0) (nfloor attempt)) in
  let exponential := nmul safeBase (pow2 exponent) in
  rawDraw <- randomFn ;;
  let draw := if is_finite rawDraw
              then nmin (rnd (999999 # 1000000)) (nmax (nz 0) rawDraw) else nz 0 in
  let jitterFactor := nadd (Fin (1 # 2)) draw in
  let rawDelay := nmul exponential jitterFactor in
  Normal (if is_finite rawDelay then nmax (nz 0) (nround rawDelay) else MAX_SAFE_INTEGER).

(** ** Global and per-repository buckets *)

Definition DEFAULT_WRITE_RATE_LIMIT_BACKOFF_BASE_MS : num := nz 1000.

Definition PERMISSIVE_CONFIG : LocalRateLimitConfig := mkConfig (nz 1000000) (nz 60000).

Record WriteRateLimitPolicies := mkPolicies {
  pol_global : gmap string LocalRateLimitConfig;
  pol_perRepo : gmap string LocalRateLimitConfig;
  backoffBaseMs : num;
}.

Definition DEFAULT_WRITE_RATE_LIMIT_POLICIES : WriteRateLimitPolicies :=
  mkPolicies
    {["open_pr" := mkConfig (nz 30) (nz 60000); "comment" := mkConfig (nz 60) (nz 60000)]}
    {["open_pr" := mkConfig (nz 3) (nz 60000); "comment" := mkConfig (nz 10) (nz 60000)]}
    DEFAULT_WRITE_RATE_LIMIT_BACKOFF_BASE_MS.

Record WriteRateLimitBucketStore := mkStore {
  st_global : gmap string LocalRateBucket;
  st_perRepo : gmap string LocalRateBucket;
}.

(** [WriteRateLimitBackoffStore]: attempts per [actionClass:repo] key. *)
Definition WriteRateLimitBackoffStore : Type := gmap string num.

Inductive WriteRateLimitBlockedBy := blocked_global | blocked_per_repo.

#[global] Instance WriteRateLimitBlockedBy_eq_dec : EqDecision WriteRateLimitBlockedBy.
Proof. solve_decision. Defined.

Definition blockedBy_to_string (b : WriteRateLimitBlockedBy) : string :=
  match b with blocked_global => "global" | blocked_per_repo => "per_repo" end.

Record WriteRateLimitVerdict := mkVerdict {
  wv_allowed : bool;
  wv_blockedBy : option WriteRateLimitBlockedBy;
  wv_global : LocalRateLimitDecision;
  wv_perRepo : LocalRateLimitDecision;
  wv_retryAfterMs : num;
  wv_backoffAttempt : num;
  wv_reason : string;
}.

Definition writeRateLimitRepoKey (action repo : string) : string :=
  trim action ++ ":" ++ toLowerCase (trim repo).

Inductive PolicyScope := global_scope | perRepo_scope.

Definition policyFor (policies : WriteRateLimitPolicies) (action : string) (scope : PolicyScope)
    : LocalRateLimitConfig :=
  let table := match scope with global_scope => pol_global policies | perRepo_scope => pol_perRepo policies end in
  (table !! action) ?? PERMISSIVE_CONFIG.

Definition emptyBucket (nowMs : num) : LocalRateBucket := mkBucket (nz 0) nowMs.

Definition incrementBucket (bucket : LocalRateBucket) (config : LocalRateLimitConfig) (nowMs : num)
    : LocalRateBucket :=
  let win := if is_finite (windowMs config) then nmax (nz 0) (nfloor (windowMs config)) else nz 0 in
  let start := if is_finite (windowStartMs bucket) then windowStartMs bucket else nowMs in
  let windowElapsed := ngeb (nsub nowMs start) win in
  let effectiveCount := if windowElapsed then nz 0 else nmax (nz 0) (nfloor (count bucket)) in
  mkBucket (nadd effectiveCount (nz 1)) (if windowElapsed then nowMs else start).

Definition evaluateWriteRateLimit (actionInput repo : string) (buckets : WriteRateLimitBucketStore)
    (backoffAttempts : gmap string num) (policiesOpt : option WriteRateLimitPolicies) (nowInput : num)
    (randomOpt : option (completion num)) : completion WriteRateLimitVerdict :=
  let policies := policiesOpt ?? DEFAULT_WRITE_RATE_LIMIT_POLICIES in
  let randomFn := randomOpt ?? Normal (Fin (1 # 2)) in
  let nowMs := if is_finite nowInput then nowInput else nz 0 in
  let action := trim actionInput in
  let repoKey := writeRateLimitRepoKey action repo in
  let backoffAttempt := (backoffAttempts !! repoKey) ?? nz 0 in
  let globalBucket := (st_global buckets !! action) ?? emptyBucket nowMs in
  let perRepoBucket := (st_perRepo buckets !! repoKey) ?? emptyBucket nowMs in
  let globalConfig := policyFor policies action global_scope in
  let perRepoConfig := policyFor policies action perRepo_scope in
  let global := evaluateLocalRateLimit globalBucket globalConfig nowMs in
  let perRepo := evaluateLocalRateLimit perRepoBucket perRepoConfig nowMs in
  if rd_allowed global && rd_allowed perRepo
  then Normal (mkVerdict true None global perRepo (nz 0) backoffAttempt "under_limit")
  else
    let blockedBy := if rd_allowed global then blocked_per_repo else blocked_global in
    let windowWait := nmax (rd_retryAfterMs global) (rd_retryAfterMs perRepo) in
    jitterWait <- jitteredBackoffMs (backoffBaseMs policies) backoffAttempt randomFn ;;
    Normal (mkVerdict false (Some blockedBy) global perRepo (nmax windowWait jitterWait) backoffAttempt
      (match blockedBy with blocked_global => "global_rate_limit" | blocked_per_repo => "per_repo_rate_limit" end)).

Definition recordWriteRateLimitAllowed (buckets : WriteRateLimitBucketStore) (actionInput repo : string)
    (nowMs : num) (policies : WriteRateLimitPolicies) : WriteRateLimitBucketStore :=
  let action := trim actionInput in
  let repoKey := writeRateLimitRepoKey action repo in
  let globalConfig := policyFor policies action global_scope in
  let perRepoConfig := policyFor policies action perRepo_scope in
  let globalBucket := (st_global buckets !! action) ?? emptyBucket nowMs in
  let perRepoBucket := (st_perRepo buckets !! repoKey) ?? emptyBucket nowMs in
  mkStore
    (<[action := incrementBucket globalBucket globalConfig nowMs]> (st_global buckets))
    (<[repoKey := incrementBucket perRepoBucket perRepoConfig nowMs]> (st_perRepo buckets)).

Definition recordWriteRateLimitDenied (backoffAttempts : gmap string num) (actionInput repo : string)
    : gmap string num :=
  let key := writeRateLimitRepoKey (trim actionInput) repo in
  <[key := nadd ((backoffAttempts !! key) ?? nz 0) (nz 1)]> backoffAttempts.

Definition clearWriteRateLimitBackoff (backoffAttempts : gmap string num) (actionInput repo : string)
    : gmap string num :=
  let key := writeRateLimitRepoKey (trim actionInput) repo in
  match backoffAttempts !! key with
  | None => backoffAttempts
  | Some _ => delete key backoffAttempts
  end.

Definition buildWriteRateLimitGovernorLedgerEvent (repo action : string) (verdict : WriteRateLimitVerdict)
    : GovernorLedgerEvent :=
  mkEvent (if wv_allowed verdict then allowed else throttled) (Some repo) action
    (if wv_allowed verdict then "allow" else "throttle") (wv_reason verdict)
    (if wv_allowed verdict then []
     else [("blockedBy", jopt (fun b => JStr (blockedBy_to_string b)) (wv_blockedBy verdict));
           ("retryAfterMs", JNum (wv_retryAfterMs verdict));
           ("backoffAttempt", JNum (wv_backoffAttempt verdict));
           ("globalResetAtMs", JNum (rd_resetAtMs (wv_global verdict)));
           ("perRepoResetAtMs", JNum (rd_resetAtMs (wv_perRepo verdict)))]).

(** ** Lemmas *)

Lemma finiteNonNegativeInt_nz x : exists z, (0 <= z)%Z /\ finiteNonNegativeInt x = nz z.
Proof.
  unfold finiteNonNegativeInt. destruct x; simpl; try (exists 0%Z; split; [lia | reflexivity]).
  exists (Z.max 0 (Qfloor q)). split; [lia | apply nz_max].
Qed.

Lemma finiteNonNegativeInt_of_nz z : finiteNonNegativeInt (nz z) = nz (Z.max 0 z).
Proof. unfold finiteNonNegativeInt. simpl is_finite. rewrite nfloor_nz. apply nz_max. Qed.

Lemma finite_or_zero x : is_finite (if is_finite x then x else nz 0) = true.
Proof. by destruct x. Qed.

Lemma nmul_nonneg_mono a b c : nleb (nz 0) (Fin a) = true -> nleb (Fin b) (Fin c) = true ->
  nleb (nmul (Fin a) (Fin b)) (nmul (Fin a) (Fin c)) = true.
Proof.
  intros Ha Hb. unfold nz in Ha. num_facts. apply rnd_mono. rewrite !(Qmult_comm a).
  apply Qmult_le_compat_r; [assumption | exact Ha].
Qed.

Lemma nround_mono x y : nleb x y = true -> nleb (nround x) (nround y) = true.
Proof.
  destruct x, y; intros H; try discriminate; try reflexivity. unfold nround.
  rewrite nz_leb. apply Z.leb_le. apply Qfloor_resp_le. num_facts.
  apply Qplus_le_compat; [assumption | apply Qle_refl].
Qed.

Lemma nround_int x : is_finite x = true -> exists z, nround x = nz z.
Proof. destruct x; try discriminate. intros _. by eexists. Qed.

(** The exponent of the backoff is an integer between 0 and 30. *)
Lemma backoff_exponent attempt : exists z, (0 <= z <= 30)%Z
  /\ (if is_nan attempt then nz 0 else nmin MAX_BACKOFF_EXPONENT (nmax (nz 0) (nfloor attempt))) = nz z.
Proof.
  destruct attempt; simpl.
  - exists 0%Z. split; [lia | reflexivity].
  - exists 30%Z. split; [lia | reflexivity].
  - exists 0%Z. split; [lia | reflexivity].
  - exists (Z.min 30 (Z.max 0 (Qfloor q))). split; [lia |].
    unfold MAX_BACKOFF_EXPONENT. by rewrite nz_max, nz_min.
Qed.

Lemma pow2_nz z : (0 <= z <= 30)%Z -> pow2 (nz z) = nz (2 ^ z).
Proof.
  intros H. unfold pow2, nz. rewrite Qfloor_Z, qpow2_int by lia. apply rnd_int_exact.
  rewrite Z.abs_eq by (apply Z.pow_nonneg; lia). apply Z.pow_le_mono_r; lia.
Qed.

(** ** Properties of one decision *)

(** No input, however malformed, makes a window decision out of range:
    [remaining] and [retryAfterMs] are never negative, the reported wait is
    never longer than one (normalized) window even when the clock steps
    backwards, an admitted event waits zero and a blocked one leaves zero. *)
Theorem evaluateLocalRateLimit_bounds bucket config nowMs :
  let d := evaluateLocalRateLimit bucket config nowMs in
  nleb (nz 0) (rd_remaining d) = true
  /\ nleb (nz 0) (rd_retryAfterMs d) = true
  /\ nleb (rd_retryAfterMs d) (finiteNonNegativeInt (windowMs config)) = true
  /\ (rd_allowed d = true -> rd_retryAfterMs d = nz 0)
  /\ (rd_allowed d = false -> rd_remaining d = nz 0).
Proof.
  unfold evaluateLocalRateLimit; simpl.
  destruct (finiteNonNegativeInt_nz (limit config)) as (lim & Hlim & ->).
  destruct (finiteNonNegativeInt_nz (windowMs config)) as (win & Hwin & ->).
  destruct (finiteNonNegativeInt_nz (count bucket)) as (cnt & Hcnt & ->).
  pose proof (finite_or_zero (windowStartMs bucket)) as Hs. set (start := if is_finite (windowStartMs bucket) then _ else _) in *.
  pose proof (finite_or_zero nowMs) as Hn. set (now := if is_finite nowMs then nowMs else _) in *.
  clearbody start now. set (el := ngeb (nsub now start) (nz win)). clearbody el.
  assert (Heff : exists eff, (0 <= eff)%Z /\ (if el then nz 0 else nz cnt) = nz eff).
  { destruct el; [exists 0%Z | exists cnt]; split; auto; lia. }
  destruct Heff as (eff & Heff & ->).
  destruct (nltb (nz eff) (nz lim)) eqn:Ok.
  - rewrite nz_ltb, Z.ltb_lt in Ok. split; [| split; [| split; [| split]]]; auto; try discriminate.
    + assert (Hd : nleb (nz 1) (nsub (nz lim) (nz eff)) = true).
      { rewrite <- (rnd_int_exact 1) by lia. unfold nsub, nz; simpl.
        apply rnd_mono. rewrite <- inject_Z_opp, <- inject_Z_plus, <- Zle_Qle. lia. }
      destruct (nsub (nz lim) (nz eff)) as [| | | d]; try discriminate; [reflexivity |].
      apply nsub_nonneg. exact Hd.
    + rewrite nz_leb. by apply Z.leb_le.
  - assert (Hd : is_nan (nsub (nadd (if el then now else start) (nz win)) now) = false).
    { assert (F : is_finite (if el then now else start) = true) by (by destruct el).
      destruct (if el then now else start) as [| | | a]; try discriminate.
      destruct now as [| | | b]; try discriminate. simpl.
      pose proof (rnd_not_nan (a + inject_Z win)) as R.
      destruct (rnd (a + inject_Z win)); try discriminate; simpl; auto using rnd_not_nan. }
    set (w := nsub _ now) in *. clearbody w.
    destruct (nmax_spec (nz 0) w eq_refl Hd) as (M1 & _ & _).
    assert (Hm : is_nan (nmax (nz 0) w) = false) by (by destruct (nmax (nz 0) w)).
    destruct (nmin_spec (nz win) (nmax (nz 0) w) eq_refl Hm) as (m1 & _ & [m3 | m3]); rewrite m3 in *;
      (split; [reflexivity | split; [| split; [assumption | split; [discriminate | auto]]]]); auto.
    rewrite nz_leb. by apply Z.leb_le.
Qed.

(** The backoff is total and finite: whatever the base, the attempt count
    and the random draw, a returned delay is a non-negative integer; the only
    way not to return is the random source itself throwing. *)
Lemma jitteredBackoffMs_nonneg_int baseMs attempt randomFn :
  match randomFn with
  | Normal _ => exists z, (0 <= z)%Z /\ jitteredBackoffMs baseMs attempt randomFn = Normal (nz z)
  | Thrown m => jitteredBackoffMs baseMs attempt randomFn = Thrown m
  end.
Proof.
  destruct randomFn as [r | m]; [| reflexivity]. unfold jitteredBackoffMs; cbn [cbind].
  set (d := nmul _ _). destruct (is_finite d) eqn:F.
  - destruct (nround_int d F) as [z ->]. exists (Z.max 0 z). rewrite nz_max. split; [lia | reflexivity].
  - exists (2 ^ 53 - 1)%Z. split; [lia | reflexivity].
Qed.

Definition jitter_ceiling : num := nadd (Fin (1 # 2)) (rnd (999999 # 1000000)).

Lemma jitter_ceiling_fin : exists c, jitter_ceiling = Fin c.
Proof. eexists. vm_compute. reflexivity. Qed.

Lemma draw_ceiling_fin : exists c, rnd (999999 # 1000000) = Fin c /\ (0 <= c)%Q.
Proof. eexists. split; [vm_compute; reflexivity | discriminate]. Qed.

(** The jitter factor lies between one half and its ceiling. *)
Lemma jitter_factor r : exists j,
  nadd (Fin (1 # 2)) (if is_finite r then nmin (rnd (999999 # 1000000)) (nmax (nz 0) r) else nz 0) = Fin j
  /\ nleb (Fin (1 # 2)) (Fin j) = true /\ nleb (Fin j) jitter_ceiling = true.
Proof.
  destruct draw_ceiling_fin as (c & Ec & Hc). unfold jitter_ceiling. rewrite Ec.
  assert (Hd : exists d, (if is_finite r then nmin (Fin c) (nmax (nz 0) r) else nz 0) = Fin d
              /\ (0 <= d)%Q /\ (d <= c)%Q).
  { destruct r as [| | | q]; simpl is_finite; try (exists 0%Q; repeat split; [apply Qle_refl | exact Hc]).
    assert (Hm : exists m, nmax (nz 0) (Fin q) = Fin m /\ (0 <= m)%Q).
    { destruct (nmax_spec (nz 0) (Fin q) eq_refl eq_refl) as (M1 & _ & [M3 | M3]); rewrite M3 in *.
      - exists 0%Q. split; [reflexivity | apply Qle_refl].
      - exists q. split; [reflexivity |]. unfold nz in M1. by num_facts. }
    destruct Hm as (m & -> & Hm).
    destruct (nmin_spec (Fin c) (Fin m) eq_refl eq_refl) as (m1 & _ & [m3 | m3]); rewrite m3 in *.
    - exists c. repeat split; [exact Hc | apply Qle_refl].
    - exists m. num_facts. auto. }
  destruct Hd as (d & -> & D1 & D2).
  assert (Hlo : nleb (Fin (1 # 2)) (nadd (Fin (1 # 2)) (Fin d)) = true).
  { rewrite <- rnd_half at 1. apply rnd_mono. lra. }
  assert (Hhi : nleb (nadd (Fin (1 # 2)) (Fin d)) (nadd (Fin (1 # 2)) (Fin c)) = true).
  { apply rnd_mono. lra. }
  assert (Hc' : exists c', nadd (Fin (1 # 2)) (Fin c) = Fin c').
  { destruct jitter_ceiling_fin as [c' E]. unfold jitter_ceiling in E. rewrite Ec in E. eauto. }
  destruct Hc' as [c' Ec']. rewrite Ec' in *.
  destruct (nadd (Fin (1 # 2)) (Fin d)) as [| | | j];
    [discriminate Hlo | discriminate Hhi | discriminate Hlo |].
  exists j. split; [reflexivity | split; assumption].
Qed.

(** The jitter stays inside its band.  While the exponential term and its
    1.5-fold stay finite, a returned delay lies between the rounded half and
    the rounded ceiling-multiple of [base * 2^k], with [k] the attempt count
    clamped to 0..30. *)
Theorem jitteredBackoffMs_band b attempt r :
  exists k, (0 <= k <= 30)%Z /\
  let e := nmul (nmax (nz 0) (Fin b)) (nz (2 ^ k)) in
  (is_finite (nmul e jitter_ceiling) = true ->
   exists d, jitteredBackoffMs (Fin b) attempt (Normal r) = Normal d
     /\ nleb (nround (nmul e (Fin (1 # 2)))) d = true
     /\ nleb d (nround (nmul e jitter_ceiling)) = true).
Proof.
  destruct (backoff_exponent attempt) as (k & Hk & Ek). exists k. split; [assumption |]. cbv zeta.
  intros F. unfold jitteredBackoffMs. cbn [is_finite cbind]. rewrite Ek, (pow2_nz k Hk).
  destruct (jitter_factor r) as (j & -> & J1 & J2).
  assert (Hc' : exists c, jitter_ceiling = Fin c /\ (0 < c)%Q).
  { destruct jitter_ceiling_fin as [c C]. exists c. rewrite C in J2. num_facts. split; [exact C | lra]. }
  destruct Hc' as (c & C & Hc'). rewrite C in *. clear C.
  set (e := nmul (nmax (nz 0) (Fin b)) (nz (2 ^ k))) in *.
  assert (He : exists x, e = Fin x /\ nleb (nz 0) (Fin x) = true).
  { assert (exists m, nmax (nz 0) (Fin b) = Fin m /\ (0 <= m)%Q) as (m & Hm & Hm0).
    { destruct (nmax_spec (nz 0) (Fin b) eq_refl eq_refl) as (M1 & _ & [M3 | M3]); rewrite M3 in *.
      - exists 0%Q. split; [reflexivity | lra].
      - exists b. split; [reflexivity |]. unfold nz in M1. by num_facts. }
    assert (Hn : nleb (nz 0) e = true).
    { subst e. rewrite Hm. apply rnd_nonneg. apply Qmult_le_0_compat; [assumption |].
      change 0%Q with (inject_Z 0). rewrite <- Zle_Qle. apply Z.pow_nonneg; lia. }
    destruct e as [| | | x]; [discriminate Hn | | discriminate Hn | by exists x].
    exfalso. clear -F Hc'. simpl in F. unfold inf_of in F. destruct (c ?= 0)%Q; discriminate. }
  destruct He as (x & -> & Hx).
  pose proof (nmul_nonneg_mono x _ _ Hx J1) as L. pose proof (nmul_nonneg_mono x _ _ Hx J2) as U.
  assert (Fd : is_finite (nmul (Fin x) (Fin j)) = true).
  { assert (Hj : nleb (nz 0) (nmul (Fin x) (Fin j)) = true).
    { apply rnd_nonneg. unfold nz in Hx. num_facts. apply Qmult_le_0_compat; [exact Hx | lra]. }
    destruct (nmul (Fin x) (Fin j)), (nmul (Fin x) (Fin c));
      first [discriminate Hj | discriminate U | discriminate F | reflexivity]. }
  rewrite Fd. eexists. split; [reflexivity |].
  assert (R0 : nleb (nz 0) (nround (nmul (Fin x) (Fin (1 # 2)))) = true).
  { change (nz 0) with (nround (nz 0)). apply nround_mono. apply rnd_nonneg.
    unfold nz in Hx. num_facts. apply Qmult_le_0_compat; [exact Hx | discriminate]. }
  pose proof (nround_mono _ _ L) as L'. pose proof (nround_mono _ _ U) as U'.
  destruct (nround_int _ Fd) as [z Hz]. rewrite Hz in *. rewrite nz_max.
  assert (0 <= z)%Z.
  { pose proof (nleb_trans _ _ _ R0 L') as Z0. by rewrite nz_leb, Z.leb_le in Z0. }
  rewrite Z.max_r by assumption. split; assumption.
Qed.

(** ** Integer specification

    The abstract rolling-window limiter: counts, starts, limits and windows are
    integers.  [Safe] bounds keep every intermediate value exactly
    representable, so the code's arithmetic on doubles refines it. *)

Module Spec.

Record cfg := mkCfg { zlimit : Z; zwindow : Z }.
Record bkt := mkBkt { zcount : Z; zstart : Z }.

Definition elapsed (b : bkt) (c : cfg) (now : Z) : bool := (zwindow c <=? now - zstart b)%Z.
Definition eff (b : bkt) (c : cfg) (now : Z) : Z := if elapsed b c now then 0%Z else zcount b.
Definition admits (b : bkt) (c : cfg) (now : Z) : bool := (eff b c now <? zlimit c)%Z.
Definition bump (b : bkt) (c : cfg) (now : Z) : bkt :=
  mkBkt (eff b c now + 1) (if elapsed b c now then now else zstart b).
Definition fresh (now : Z) : bkt := mkBkt 0 now.

Definition safe (z : Z) : Prop := (0 <= z <= 2 ^ 52)%Z.
Definition cfg_ok (c : cfg) : Prop := safe (zlimit c) /\ (1 <= zwindow c <= 2 ^ 52)%Z.
Definition bkt_ok (b : bkt) : Prop := safe (zcount b) /\ safe (zstart b).

Definition emb_cfg (c : cfg) : LocalRateLimitConfig := mkConfig (nz (zlimit c)) (nz (zwindow c)).
Definition emb_bkt (b : bkt) : LocalRateBucket := mkBucket (nz (zcount b)) (nz (zstart b)).

(** *** One table of buckets, keyed by string *)

(** An admitted event: its bucket, the class whose limit it was held to, and
    the start of the window it was counted in. *)
Record entry := mkEntry { en_key : string; en_class : string; en_start : Z }.

Definition in_window (k cl : string) (w : Z) (e : entry) : bool :=
  String.eqb (en_key e) k && String.eqb (en_class e) cl && (en_start e =? w)%Z.
Definition in_bucket (k : string) (w : Z) (e : entry) : bool :=
  String.eqb (en_key e) k && (en_start e =? w)%Z.

Definition tally (p : entry -> bool) (l : list entry) : Z :=
  Z.of_nat (List.length (List.filter p l)).

Definition get (t : gmap string bkt) (k : string) (now : Z) : bkt := default (fresh now) (t !! k).

(** What the log of admissions says about the table, [lim] being the limit of
    each class.  The windows may differ from write to write. *)
Record table_inv (lim : string -> Z) (t : gmap string bkt) (l : list entry) : Prop := mkInv {
  inv_ok : forall k b, t !! k = Some b -> bkt_ok b;
  inv_none : forall k e, t !! k = None -> In e l -> en_key e <> k;
  inv_start : forall k b e, t !! k = Some b -> In e l -> en_key e = k -> (en_start e <= zstart b)%Z;
  inv_count : forall k b, t !! k = Some b -> (tally (in_bucket k (zstart b)) l <= zcount b)%Z;
  inv_limit : forall k cl w, (tally (in_window k cl w) l <= lim cl)%Z;
}.

Lemma tally_app p l e :
  tally p (l ++ [e]) = (tally p l + if p e then 1 else 0)%Z.
Proof.
  unfold tally. rewrite List.filter_app, List.length_app. simpl.
  destruct (p e); simpl; lia.
Qed.

Lemma tally_le (p q : entry -> bool) l :
  (forall e, In e l -> p e = true -> q e = true) -> (tally p l <= tally q l)%Z.
Proof.
  unfold tally. induction l as [| e l IH]; intros H; simpl; [lia |].
  assert (Hl : forall e', In e' l -> p e' = true -> q e' = true) by (intros; apply H; simpl; auto).
  specialize (IH Hl). specialize (H e (or_introl eq_refl)).
  destruct (p e); [rewrite (H eq_refl) | destruct (q e)]; simpl; lia.
Qed.

Lemma tally_zero p l : (forall e, In e l -> p e = false) -> tally p l = 0%Z.
Proof.
  unfold tally. induction l as [| e l IH]; intros H; simpl; [reflexivity |].
  rewrite (H e) by (simpl; auto). apply IH. intros; apply H; simpl; auto.
Qed.

Lemma bump_ok b c now : bkt_ok b -> cfg_ok c -> safe now -> admits b c now = true -> bkt_ok (bump b c now).
Proof.
  unfold bkt_ok, cfg_ok, admits, bump, eff, safe. intros [? ?] [? ?] ? A. simpl in *.
  apply Z.ltb_lt in A. destruct (elapsed b c now); lia.
Qed.

(** The window counted in after an admission never moves backwards, and when
    it moves it moves past every window before it. *)
Lemma bump_start b c now : cfg_ok c ->
  (zstart (bump b c now) = zstart b /\ elapsed b c now = false)
  \/ (zstart b < zstart (bump b c now) /\ elapsed b c now = true)%Z.
Proof.
  intros [_ [Hw _]]. unfold bump; simpl. destruct (elapsed b c now) eqn:E; [right | left; auto].
  unfold elapsed in E. apply Z.leb_le in E. split; [lia | reflexivity].
Qed.

Section Step.
Context (lim : string -> Z).
Context (t : gmap string bkt) (l : list entry) (I : table_inv lim t l).
Context (k cl : string) (now : Z) (Hnow : safe now).
Context (c : cfg) (Hc : cfg_ok c) (Hlim : zlimit c = lim cl).
Hypothesis (Hadm : admits (get t k now) c now = true).

Let b := get t k now.
Let b' := bump b c now.
Let e' := mkEntry k cl (zstart b').

Lemma get_ok : bkt_ok b.
Proof.
  unfold b, get. destruct (t !! k) as [b0 |] eqn:E; simpl; [by eapply inv_ok |].
  split; simpl; [unfold safe; lia | assumption].
Qed.

(** Entries of this bucket counted in the window of the incremented bucket. *)
Lemma before_count : (tally (in_bucket k (zstart b')) l <= eff b c now)%Z.
Proof.
  unfold b', b, get. destruct (t !! k) as [b0 |] eqn:E.
  - change (default (fresh now) (Some b0)) with b0.
    destruct (bump_start b0 c now Hc) as [[Hs El] | [Hs El]].
    + unfold bump, eff in *. rewrite El in *. simpl in *. by apply (inv_count _ _ _ I).
    + unfold eff. rewrite El. rewrite tally_zero; [lia |]. intros e He.
      unfold in_bucket. destruct (String.eqb_spec (en_key e) k) as [Hk |]; [| reflexivity].
      rewrite andb_true_l. apply Z.eqb_neq. pose proof (inv_start _ _ _ I _ _ _ E He Hk). lia.
  - rewrite tally_zero.
    + unfold eff, fresh. simpl. destruct (elapsed _ _ _); lia.
    + intros e He. unfold in_bucket. pose proof (inv_none _ _ _ I _ _ E He).
      by rewrite (proj2 (String.eqb_neq _ _)).
Qed.

Lemma start_mono e : In e l -> en_key e = k -> (en_start e <= zstart b')%Z.
Proof.
  intros He Hk. unfold b', b, get. destruct (t !! k) as [b0 |] eqn:E.
  - change (default (fresh now) (Some b0)) with b0. pose proof (inv_start _ _ _ I _ _ _ E He Hk).
    destruct (bump_start b0 c now Hc) as [[-> _] | [Hs _]]; lia.
  - exfalso. exact (inv_none _ _ _ I _ _ E He Hk).
Qed.

Lemma step_limit k1 cl1 w : (tally (in_window k1 cl1 w) (l ++ [e']) <= lim cl1)%Z.
Proof.
  rewrite tally_app. pose proof (inv_limit _ _ _ I k1 cl1 w) as Hold.
  destruct (in_window k1 cl1 w e') eqn:Ew; [| lia].
  unfold in_window in Ew. rewrite !andb_true_iff, !String.eqb_eq, Z.eqb_eq in Ew.
  change (en_key e') with k in Ew. change (en_class e') with cl in Ew.
  change (en_start e') with (zstart b') in Ew. destruct Ew as [[<- <-] <-].
  assert (Hle : (tally (in_window k cl (zstart b')) l <= tally (in_bucket k (zstart b')) l)%Z).
  { apply tally_le. intros e _. unfold in_window, in_bucket. rewrite !andb_true_iff. tauto. }
  pose proof before_count as Hb. unfold admits in Hadm. apply Z.ltb_lt in Hadm. unfold b in *. lia.
Qed.

(** An admission keeps the invariant. *)
Lemma step_inv : table_inv lim (<[k := b']> t) (l ++ [e']).
Proof.
  constructor.
  - intros k1 b1 H. destruct (decide (k1 = k)) as [-> | Hne].
    + rewrite lookup_insert_eq in H. inversion H; subst. apply bump_ok; auto using get_ok.
    + rewrite lookup_insert_ne in H by done. by eapply inv_ok.
  - intros k1 e H He. destruct (decide (k1 = k)) as [-> | Hne]; [by rewrite lookup_insert_eq in H |].
    rewrite lookup_insert_ne in H by done.
    apply in_app_or in He as [He | [<- | []]]; [by eapply inv_none |]. unfold e'; simpl. congruence.
  - intros k1 b1 e H He Hk. apply in_app_or in He. destruct (decide (k1 = k)) as [-> | Hne].
    + rewrite lookup_insert_eq in H. inversion H; subst b1. destruct He as [He | [<- | []]]; [by apply start_mono |].
      unfold e'; simpl. lia.
    + rewrite lookup_insert_ne in H by done. destruct He as [He | [<- | []]].
      * by eapply inv_start.
      * unfold e' in Hk; simpl in Hk. congruence.
  - intros k1 b1 H. rewrite tally_app. destruct (decide (k1 = k)) as [-> | Hne].
    + rewrite lookup_insert_eq in H. inversion H; subst b1. pose proof before_count as Hb.
      assert (in_bucket k (zstart b') e' = true) as ->
        by (unfold in_bucket; simpl; by rewrite String.eqb_refl, Z.eqb_refl).
      change (zcount b') with (eff b c now + 1)%Z. lia.
    + rewrite lookup_insert_ne in H by done. unfold in_bucket at 2. unfold e'; simpl.
      rewrite (proj2 (String.eqb_neq k k1)) by congruence. simpl.
      pose proof (inv_count _ _ _ I _ _ H). lia.
  - exact step_limit.
Qed.
End Step.

Lemma empty_inv lim : (forall cl, 0 <= lim cl)%Z -> table_inv lim ∅ [].
Proof.
  intros H. constructor.
  - intros k b E. by rewrite lookup_empty in E.
  - intros k e _ [].
  - intros k b e E. by rewrite lookup_empty in E.
  - intros k b E. by rewrite lookup_empty in E.
  - intros k cl w. unfold tally; simpl. apply H.
Qed.

End Spec.

(** ** The code refines the specification *)

Import Spec.

Lemma safe_sub a b : safe a -> safe b -> nsub (nz a) (nz b) = nz (a - b).
Proof. unfold safe. intros. apply nz_sub. lia. Qed.

Lemma max0_safe z : safe z -> Z.max 0 z = z.
Proof. unfold safe. lia. Qed.

Lemma cfg_window_safe c : cfg_ok c -> safe (zwindow c).
Proof. unfold cfg_ok, safe. lia. Qed.

Lemma limiter_refines b c now :
  bkt_ok b -> cfg_ok c -> safe now ->
  rd_allowed (evaluateLocalRateLimit (emb_bkt b) (emb_cfg c) (nz now)) = admits b c now
  /\ incrementBucket (emb_bkt b) (emb_cfg c) (nz now) = emb_bkt (bump b c now).
Proof.
  intros Hb Hc Hn. destruct Hb as [Hcnt Hst]. pose proof (cfg_window_safe c Hc) as Hw.
  destruct Hc as [Hl _].
  unfold evaluateLocalRateLimit, incrementBucket, emb_bkt, emb_cfg, admits, bump, eff, elapsed;
    cbn [rd_allowed limit windowMs count windowStartMs zcount zstart].
  rewrite !nz_finite, !finiteNonNegativeInt_of_nz, (safe_sub _ _ Hn Hst), !nfloor_nz, !nz_max, !nz_geb,
    !max0_safe by assumption.
  destruct (zwindow c <=? now - zstart b)%Z; rewrite nz_ltb, nz_add by (unfold safe in *; lia);
    split; reflexivity.
Qed.



(** ** Runs of writes *)

(** One attempted write: its class, its repository and the clock reading. *)
Record write_event := mkWrite { we_action : string; we_repo : string; we_now : Z }.

(** An admitted write with the windows it was counted in. *)
Record admission := mkAdmission {
  ad_action : string;
  ad_key : string;
  ad_global_start : num;
  ad_repo_start : num;
}.

Record write_state := mkWState {
  ws_store : WriteRateLimitBucketStore;
  ws_backoff : gmap string num;
  ws_log : list admission;
}.

Definition bucket_start (t : gmap string LocalRateBucket) (k : string) : num :=
  from_option windowStartMs NaN (t !! k).

(** An admitted write advances both buckets and clears the backoff. *)
Definition admit_write (policies : WriteRateLimitPolicies) (s : write_state) (ev : write_event) : write_state :=
  let store' := recordWriteRateLimitAllowed (ws_store s) (we_action ev) (we_repo ev) (nz (we_now ev)) policies in
  let action := trim (we_action ev) in
  let key := writeRateLimitRepoKey action (we_repo ev) in
  mkWState store' (clearWriteRateLimitBackoff (ws_backoff s) (we_action ev) (we_repo ev))
    (ws_log s ++ [mkAdmission action key (bucket_start (st_global store') action)
                                         (bucket_start (st_perRepo store') key)]).

(** What a caller does with a verdict; a blocked write bumps the backoff. *)
Definition write_step (policies : WriteRateLimitPolicies) (s : write_state) (ev : write_event) : write_state :=
  match evaluateWriteRateLimit (we_action ev) (we_repo ev) (ws_store s) (ws_backoff s) (Some policies)
          (nz (we_now ev)) None with
  | Normal v =>
      if wv_allowed v then admit_write policies s ev
      else mkWState (ws_store s) (recordWriteRateLimitDenied (ws_backoff s) (we_action ev) (we_repo ev)) (ws_log s)
  | Thrown _ => s
  end.

Definition write_run (policies : WriteRateLimitPolicies) (s : write_state) (evs : list write_event) : write_state :=
  List.fold_left (write_step policies) evs s.

Definition empty_write_state : write_state := mkWState (mkStore ∅ ∅) ∅ [].

(** Admissions of a class counted in one global window, and of a class and
    repository key counted in one window of that repository. *)
Definition global_admissions (log : list admission) (action : string) (w : Z) : nat :=
  List.length (List.filter (fun a => String.eqb (ad_action a) action && neqb (ad_global_start a) (nz w)) log).
Definition repo_admissions (log : list admission) (action key : string) (w : Z) : nat :=
  List.length (List.filter (fun a => String.eqb (ad_key a) key && String.eqb (ad_action a) action
                                     && neqb (ad_repo_start a) (nz w)) log).

(** Policies whose numbers are integers in range. *)
Record zpolicies := mkZpol { zp_global : gmap string cfg; zp_perRepo : gmap string cfg; zp_base : num }.

Definition emb_policies (zp : zpolicies) : WriteRateLimitPolicies :=
  mkPolicies (emb_cfg <$> zp_global zp) (emb_cfg <$> zp_perRepo zp) (zp_base zp).

Definition zpermissive : cfg := mkCfg 1000000 60000.
Definition zglobal (zp : zpolicies) (cl : string) : cfg := default zpermissive (zp_global zp !! cl).
Definition zrepo (zp : zpolicies) (cl : string) : cfg := default zpermissive (zp_perRepo zp !! cl).

Definition policies_ok (zp : zpolicies) : Prop :=
  map_Forall (fun _ => cfg_ok) (zp_global zp) /\ map_Forall (fun _ => cfg_ok) (zp_perRepo zp).

Lemma zpermissive_ok : cfg_ok zpermissive.
Proof. unfold cfg_ok, safe, zpermissive; simpl; lia. Qed.

Lemma zglobal_ok zp cl : policies_ok zp -> cfg_ok (zglobal zp cl).
Proof.
  intros [H _]. unfold zglobal. destruct (zp_global zp !! cl) eqn:E; simpl; [by eapply H | apply zpermissive_ok].
Qed.

Lemma zrepo_ok zp cl : policies_ok zp -> cfg_ok (zrepo zp cl).
Proof.
  intros [_ H]. unfold zrepo. destruct (zp_perRepo zp !! cl) eqn:E; simpl; [by eapply H | apply zpermissive_ok].
Qed.

Lemma policyFor_emb zp cl :
  policyFor (emb_policies zp) cl global_scope = emb_cfg (zglobal zp cl)
  /\ policyFor (emb_policies zp) cl perRepo_scope = emb_cfg (zrepo zp cl).
Proof.
  unfold policyFor, emb_policies, zglobal, zrepo; simpl. rewrite !lookup_fmap.
  destruct (zp_global zp !! cl), (zp_perRepo zp !! cl); split; reflexivity.
Qed.

Lemma get_emb (t : gmap string bkt) k now :
  default (emptyBucket (nz now)) ((emb_bkt <$> t) !! k) = emb_bkt (get t k now).
Proof. rewrite lookup_fmap. unfold get. destruct (t !! k); reflexivity. Qed.

(** The integer view of an admission. *)
Record zadmission := mkZadm { za_action : string; za_key : string; za_g : Z; za_r : Z }.
Definition emb_adm (a : zadmission) : admission :=
  mkAdmission (za_action a) (za_key a) (nz (za_g a)) (nz (za_r a)).
Definition g_entry (a : zadmission) : entry := mkEntry (za_action a) (za_action a) (za_g a).
Definition r_entry (a : zadmission) : entry := mkEntry (za_key a) (za_action a) (za_r a).

(** Simulation relation between the code's state and the integer tables. *)
Definition write_sim (zp : zpolicies) (s : write_state) : Prop :=
  exists tg tr zl,
    ws_store s = mkStore (emb_bkt <$> tg) (emb_bkt <$> tr)
    /\ ws_log s = List.map emb_adm zl
    /\ table_inv (fun cl => zlimit (zglobal zp cl)) tg (List.map g_entry zl)
    /\ table_inv (fun cl => zlimit (zrepo zp cl)) tr (List.map r_entry zl).

(** Policies with the limits of [zp], and windows of their own. *)
Definition same_limits (zp zp' : zpolicies) : Prop :=
  forall cl, zlimit (zglobal zp' cl) = zlimit (zglobal zp cl) /\ zlimit (zrepo zp' cl) = zlimit (zrepo zp cl).

Lemma evaluate_allowed zp tg tr back ev random v : policies_ok zp -> safe (we_now ev) ->
  (forall k b, tg !! k = Some b -> bkt_ok b) -> (forall k b, tr !! k = Some b -> bkt_ok b) ->
  evaluateWriteRateLimit (we_action ev) (we_repo ev) (mkStore (emb_bkt <$> tg) (emb_bkt <$> tr)) back
    (Some (emb_policies zp)) (nz (we_now ev)) random = Normal v ->
  let action := trim (we_action ev) in
  let key := writeRateLimitRepoKey action (we_repo ev) in
  wv_allowed v = admits (get tg action (we_now ev)) (zglobal zp action) (we_now ev)
                 && admits (get tr key (we_now ev)) (zrepo zp action) (we_now ev).
Proof.
  intros Hp Hn Hg Hr E action key. revert E. unfold evaluateWriteRateLimit.
  change (default DEFAULT_WRITE_RATE_LIMIT_POLICIES (Some (emb_policies zp))) with (emb_policies zp).
  rewrite nz_finite. cbn [st_global st_perRepo]. fold action key. rewrite !get_emb.
  destruct (policyFor_emb zp action) as [-> ->].
  assert (Og : bkt_ok (get tg action (we_now ev))).
  { unfold get. destruct (tg !! action) eqn:E; simpl; [by eapply Hg |]. split; simpl; [unfold safe; lia | done]. }
  assert (Or : bkt_ok (get tr key (we_now ev))).
  { unfold get. destruct (tr !! key) eqn:E; simpl; [by eapply Hr |]. split; simpl; [unfold safe; lia | done]. }
  destruct (limiter_refines _ _ _ Og (zglobal_ok zp action Hp) Hn) as [-> _].
  destruct (limiter_refines _ _ _ Or (zrepo_ok zp action Hp) Hn) as [-> _].
  destruct (admits _ _ _ && admits _ _ _) eqn:A; [intros [= <-]; reflexivity |].
  destruct (jitteredBackoffMs _ _ _); [| intros E; discriminate E]. intros [= <-]. reflexivity.
Qed.

Lemma get_bkt_ok lim t l k now : table_inv lim t l -> safe now -> bkt_ok (get t k now).
Proof.
  intros I Hn. unfold get. destruct (t !! k) eqn:E; simpl; [by eapply inv_ok |].
  split; simpl; [unfold safe; lia | assumption].
Qed.

Lemma bucket_start_insert (t : gmap string LocalRateBucket) k b : bucket_start (<[k := emb_bkt b]> t) k = nz (zstart b).
Proof. unfold bucket_start. by rewrite lookup_insert_eq. Qed.

Lemma admit_sim zp zp' s ev random v : policies_ok zp' -> same_limits zp zp' -> safe (we_now ev) -> write_sim zp s ->
  evaluateWriteRateLimit (we_action ev) (we_repo ev) (ws_store s) (ws_backoff s) (Some (emb_policies zp'))
    (nz (we_now ev)) random = Normal v -> wv_allowed v = true ->
  write_sim zp (admit_write (emb_policies zp') s ev).
Proof.
  intros Hp Hl Hn (tg & tr & zl & Es & El & Ig & Ir) Ev A. rewrite Es in Ev.
  pose proof (evaluate_allowed zp' tg tr _ ev _ _ Hp Hn (inv_ok _ _ _ Ig) (inv_ok _ _ _ Ir) Ev) as Hv.
  cbv zeta in Hv. unfold admit_write. rewrite Es. rewrite A in Hv. symmetry in Hv. apply andb_true_iff in Hv as [Ag Ar].
  set (action := trim (we_action ev)) in *. set (key := writeRateLimitRepoKey action (we_repo ev)) in *.
  pose proof (step_inv _ _ _ Ig action action _ Hn _ (zglobal_ok zp' action Hp) (proj1 (Hl action)) Ag) as Ig'.
  pose proof (step_inv _ _ _ Ir key action _ Hn _ (zrepo_ok zp' action Hp) (proj2 (Hl action)) Ar) as Ir'.
  set (bg := bump (get tg action (we_now ev)) (zglobal zp' action) (we_now ev)) in *.
  set (br := bump (get tr key (we_now ev)) (zrepo zp' action) (we_now ev)) in *.
  exists (<[action := bg]> tg), (<[key := br]> tr), ((zl ++ [mkZadm action key (zstart bg) (zstart br)])%list).
  assert (Est : recordWriteRateLimitAllowed (mkStore (emb_bkt <$> tg) (emb_bkt <$> tr)) (we_action ev) (we_repo ev)
                  (nz (we_now ev)) (emb_policies zp')
                = mkStore (<[action := emb_bkt bg]> (emb_bkt <$> tg)) (<[key := emb_bkt br]> (emb_bkt <$> tr))).
  { unfold recordWriteRateLimitAllowed. cbn [st_global st_perRepo]. fold action key. rewrite !get_emb.
    destruct (policyFor_emb zp' action) as [-> ->].
    destruct (limiter_refines _ _ _ (get_bkt_ok _ _ _ action _ Ig Hn) (zglobal_ok zp' action Hp) Hn) as [_ ->].
    by destruct (limiter_refines _ _ _ (get_bkt_ok _ _ _ key _ Ir Hn) (zrepo_ok zp' action Hp) Hn) as [_ ->]. }
  rewrite Est. cbn [ws_store ws_log st_global st_perRepo]. rewrite !bucket_start_insert, El, !fmap_insert, !List.map_app.
  split; [reflexivity | split; [reflexivity | split; [exact Ig' | exact Ir']]].
Qed.

Lemma empty_write_sim zp : policies_ok zp -> write_sim zp empty_write_state.
Proof.
  intros Hp. exists ∅, ∅, []. rewrite !fmap_empty. split; [reflexivity | split; [reflexivity |]].
  split; apply empty_inv; intros cl; [apply (zglobal_ok zp cl Hp) | apply (zrepo_ok zp cl Hp)].
Qed.

Lemma neqb_nz a b : neqb (nz a) (nz b) = (a =? b)%Z.
Proof. apply nz_eqb. Qed.

Lemma global_admissions_tally zl a w :
  Z.of_nat (global_admissions (List.map emb_adm zl) a w) = tally (in_window a a w) (List.map g_entry zl).
Proof.
  unfold global_admissions, tally. induction zl as [| x zl IH]; [reflexivity |]. simpl.
  unfold in_window at 1; simpl. rewrite neqb_nz.
  destruct (String.eqb (za_action x) a), (za_g x =? w)%Z; simpl; lia.
Qed.

Lemma repo_admissions_tally zl a k w :
  Z.of_nat (repo_admissions (List.map emb_adm zl) a k w) = tally (in_window k a w) (List.map r_entry zl).
Proof.
  unfold repo_admissions, tally. induction zl as [| x zl IH]; [reflexivity |]. simpl.
  unfold in_window at 1; simpl. rewrite neqb_nz.
  destruct (String.eqb (za_key x) k), (String.eqb (za_action x) a), (za_r x =? w)%Z; simpl; lia.
Qed.

Lemma write_sim_limits zp s : write_sim zp s ->
  (forall action w, (Z.of_nat (global_admissions (ws_log s) action w) <= zlimit (zglobal zp action))%Z)
  /\ (forall action key w, (Z.of_nat (repo_admissions (ws_log s) action key w) <= zlimit (zrepo zp action))%Z).
Proof.
  intros (tg & tr & zl & _ & El & Ig & Ir). rewrite El. split; intros.
  - rewrite global_admissions_tally. apply (inv_limit _ _ _ Ig).
  - rewrite repo_admissions_tally. apply (inv_limit _ _ _ Ir).
Qed.

(** ** What the limiter promises

    A client keeps a [write_state] and admits a write through [admit_write] exactly
    when the limiter's verdict allows it, each write under policies with the
    limits of [zp] but possibly windows of its own.  For such clients [inv] is
    an invariant, and it bounds the admissions of every window. *)
Class WriteLimiter (zp : zpolicies) (inv : write_state -> Prop) : Prop := {
  limiter_empty : inv empty_write_state;
  limiter_backoff s backoff : inv s -> inv (mkWState (ws_store s) backoff (ws_log s));
  limiter_admit zp' s ev random v :
    policies_ok zp' -> same_limits zp zp' -> safe (we_now ev) -> inv s ->
    evaluateWriteRateLimit (we_action ev) (we_repo ev) (ws_store s) (ws_backoff s) (Some (emb_policies zp'))
      (nz (we_now ev)) random = Normal v -> wv_allowed v = true ->
    inv (admit_write (emb_policies zp') s ev);
  limiter_limits s : inv s ->
    (forall action w, (Z.of_nat (global_admissions (ws_log s) action w) <= zlimit (zglobal zp action))%Z)
    /\ (forall action key w, (Z.of_nat (repo_admissions (ws_log s) action key w) <= zlimit (zrepo zp action))%Z);
}.

#[export] Instance write_limiter zp : policies_ok zp -> WriteLimiter zp (write_sim zp).
Proof.
  intros Hp. split.
  - by apply empty_write_sim.
  - intros s backoff Hs. exact Hs.
  - intros zp' s ev random v. by apply admit_sim.
  - apply write_sim_limits.
Qed.

Section Clients.
Context (zp : zpolicies) (inv : write_state -> Prop) `{!WriteLimiter zp inv} (Hzp : policies_ok zp).

Lemma write_step_inv s ev : safe (we_now ev) -> inv s -> inv (write_step (emb_policies zp) s ev).
Proof.
  intros Hn Hs. unfold write_step. destruct (evaluateWriteRateLimit _ _ _ _ _ _ _) as [v | m] eqn:E; [| exact Hs].
  destruct (wv_allowed v) eqn:A; [| by apply limiter_backoff].
  by apply (limiter_admit zp s ev None v Hzp).
Qed.

Lemma write_run_inv evs : Forall (fun ev => safe (we_now ev)) evs ->
  inv (write_run (emb_policies zp) empty_write_state evs).
Proof.
  intros Hev. unfold write_run. generalize limiter_empty. generalize empty_write_state.
  induction Hev as [| ev evs Hn _ IH]; intros s Hs; [exact Hs |]. apply IH. by apply write_step_inv.
Qed.
End Clients.

(** The contract of the limiter over whole runs.  Start from empty buckets
    and let any sequence of writes arrive, of any classes, to any repositories,
    in any order and even with a clock that steps backwards.  Every window of a
    class admits at most that class's global limit across all repositories, and
    every window of a class and repository at most the per-repository limit. *)
Theorem write_run_respects_limits zp evs :
  policies_ok zp -> Forall (fun ev => safe (we_now ev)) evs ->
  let log := ws_log (write_run (emb_policies zp) empty_write_state evs) in
  (forall action w, (Z.of_nat (global_admissions log action w) <= zlimit (zglobal zp action))%Z)
  /\ (forall action key w, (Z.of_nat (repo_admissions log action key w) <= zlimit (zrepo zp action))%Z).
Proof.
  intros Hp Hev. pose proof (write_limiter zp Hp) as L. exact (limiter_limits _ (write_run_inv zp _ Hp evs Hev)).
Qed.

(** The default policies, as integers. *)
Definition zdefault : zpolicies :=
  mkZpol {["open_pr" := mkCfg 30 60000; "comment" := mkCfg 60 60000]}
         {["open_pr" := mkCfg 3 60000; "comment" := mkCfg 10 60000]} DEFAULT_WRITE_RATE_LIMIT_BACKOFF_BASE_MS.

Lemma emb_zdefault : emb_policies zdefault = DEFAULT_WRITE_RATE_LIMIT_POLICIES.
Proof. vm_compute. reflexivity. Qed.

Lemma zdefault_ok : policies_ok zdefault.
Proof.
  split; unfold zdefault; cbn [zp_global zp_perRepo]; intros k c E;
    apply lookup_insert_Some in E as [[<- <-] | [_ E]];
    [| apply lookup_singleton_Some in E as [<- <-] | | apply lookup_singleton_Some in E as [<- <-]];
    unfold cfg_ok, safe; simpl; lia.
Qed.

(** Five pull requests to one repository inside a minute: three are admitted. *)
Lemma write_run_respects_limits_witness :
  let evs := List.repeat (mkWrite "open_pr" "acme/widgets" 1000) 5 in
  let log := ws_log (write_run (emb_policies zdefault) empty_write_state evs) in
  repo_admissions log "open_pr" "open_pr:acme/widgets" 1000 = 3
  /\ (Z.of_nat (repo_admissions log "open_pr" "open_pr:acme/widgets" 1000) <= 3)%Z.
Proof.
  intros evs log. split; [vm_compute; reflexivity |].
  refine (proj2 (write_run_respects_limits zdefault evs _ _) "open_pr" "open_pr:acme/widgets" 1000%Z).
  - exact zdefault_ok.
  - repeat constructor; simpl; lia.
Defined.
