(* ===== verification/Halt.v ===== *)
(** * Caps, convergence and the run-loop halt

    Models [governor/budget-cap.ts] (cumulative budget, turn and wall-clock
    ceilings), [portfolio/non-convergence.ts] (is a queue item stuck?),
    [governor/run-halt.ts] (the halt decision that composes both) and the gate
    [packages/loopover-miner/lib/governor-run-halt.ts] that latches it.

    Main results: malformed usage or ceilings never open a cap; more usage
    never turns a stop into a go; a halt sticks until it is cleared and is
    recorded exactly once. *)

From stdpp Require Import base list strings option.
From Stdlib Require Import QArith Qround ZArith Lia.
From S2P Require Import Prelude JsNumber JsString Ledger RateLimit.

Local Open Scope nat_scope.
Local Open Scope string_scope.
Local Open Scope js_scope.

(** ** Caps *)

Record GovernorCapLimits := mkLimits { lim_budget : num; lim_turns : num; lim_elapsedMs : num }.

Record GovernorCapUsage := mkUsage { us_budgetSpent : num; us_turnsTaken : num; us_elapsedMs : num }.

Record GovernorCapDimension := mkDimension {
  dim_limit : num;
  dim_used : num;
  dim_remaining : num;
  dim_exceeded : bool;
}.

Record GovernorCapReport := mkReport {
  cap_verdict : GovernorLedgerEventType;
  cap_budget : GovernorCapDimension;
  cap_turns : GovernorCapDimension;
  cap_termination : GovernorCapDimension;
}.

Definition finiteNonNegative (value : num) : num :=
  if is_finite value then nmax (nz 0) value else nz 0.

Definition evaluateDimension (used limit : num) : GovernorCapDimension :=
  mkDimension limit used (nmax (nz 0) (nsub limit used)) (ngeb used limit).

Definition evaluateGovernorCaps (usage : GovernorCapUsage) (limits : GovernorCapLimits) : GovernorCapReport :=
  let budget := evaluateDimension (finiteNonNegative (us_budgetSpent usage)) (finiteNonNegative (lim_budget limits)) in
  let turns := evaluateDimension (finiteNonNegativeInt (us_turnsTaken usage)) (finiteNonNegativeInt (lim_turns limits)) in
  let termination := evaluateDimension (finiteNonNegative (us_elapsedMs usage)) (finiteNonNegative (lim_elapsedMs limits)) in
  let verdict := if dim_exceeded termination then kill_switch
                 else if dim_exceeded budget || dim_exceeded turns then denied
                 else allowed in
  mkReport verdict budget turns termination.

(** ** Convergence of one queue item *)

Inductive PortfolioConvergenceStatus := converging | stalled | non_convergent.

#[global] Instance PortfolioConvergenceStatus_eq_dec : EqDecision PortfolioConvergenceStatus.
Proof. solve_decision. Defined.

Definition convergence_to_string (s : PortfolioConvergenceStatus) : string :=
  match s with converging => "converging" | stalled => "stalled" | non_convergent => "non_convergent" end.

Record PortfolioConvergenceInput := mkConvInput {
  cv_attempts : num;
  cv_consecutiveFailures : num;
  cv_reenqueues : num;
  cv_reachedDone : bool;
}.

Record PortfolioConvergenceThresholds := mkConvThresholds {
  maxConsecutiveFailures : num;
  maxReenqueues : num;
}.

Definition DEFAULT_PORTFOLIO_CONVERGENCE_THRESHOLDS : PortfolioConvergenceThresholds :=
  mkConvThresholds (nz 3) (nz 3).

Record PortfolioConvergenceVerdict := mkConvVerdict {
  cvv_status : PortfolioConvergenceStatus;
  cvv_reasons : list string;
}.

Definition classifyPortfolioConvergence (input : PortfolioConvergenceInput)
    (thresholds : PortfolioConvergenceThresholds) : PortfolioConvergenceVerdict :=
  let attempts := finiteNonNegativeInt (cv_attempts input) in
  let failures := finiteNonNegativeInt (cv_consecutiveFailures input) in
  let reenqueues := finiteNonNegativeInt (cv_reenqueues input) in
  let maxF := finiteNonNegativeInt (maxConsecutiveFailures thresholds) in
  let maxR := finiteNonNegativeInt (maxReenqueues thresholds) in
  if nleb attempts (nz 0)
  then mkConvVerdict converging ["No attempts yet; a first attempt is not evidence of a stuck loop."]
  else if cv_reachedDone input then mkConvVerdict converging ["Item reached done."]
  else
    let reasons :=
      ((if ngeb failures maxF
       then [(num_to_string failures ++ " consecutive failures (≥ " ++ num_to_string maxF ++ ").")%string] else [])
      ++ (if ngeb reenqueues maxR
          then [("re-enqueued " ++ num_to_string reenqueues ++ " times without reaching done (≥ "
                 ++ num_to_string maxR ++ ").")%string] else []))%list in
    if (0 <? List.length reasons)%nat then mkConvVerdict non_convergent reasons
    else if ngtb failures (nz 0) || ngtb reenqueues (nz 0)
         then mkConvVerdict stalled
                [num_to_string failures ++ " consecutive failure(s), " ++ num_to_string reenqueues
                 ++ " re-enqueue(s) — below the non-convergence threshold."]
         else mkConvVerdict converging ["Attempts in progress with no failure streak."].

(** ** The halt decision *)

Definition evaluateBudgetCaps := evaluateGovernorCaps.

Record NonConvergenceSignal := mkSignal {
  sig_tripped : bool;
  sig_status : PortfolioConvergenceStatus;
  sig_reasons : list string;
}.

(** The default parameter applies when the argument is [undefined]. *)
Definition detectNonConvergence (input : PortfolioConvergenceInput)
    (thresholds : option PortfolioConvergenceThresholds) : NonConvergenceSignal :=
  let verdict := classifyPortfolioConvergence input (thresholds ?? DEFAULT_PORTFOLIO_CONVERGENCE_THRESHOLDS) in
  mkSignal (bool_decide (cvv_status verdict = non_convergent)) (cvv_status verdict) (cvv_reasons verdict).

Inductive RunLoopHaltReason :=
  | cleared | prior_halt | non_convergence | budget_exceeded | turn_cap_exceeded | termination_cap_exceeded.

Definition halt_reason_to_string (r : RunLoopHaltReason) : string :=
  match r with
  | cleared => "cleared" | prior_halt => "prior_halt" | non_convergence => "non_convergence"
  | budget_exceeded => "budget_exceeded" | turn_cap_exceeded => "turn_cap_exceeded"
  | termination_cap_exceeded => "termination_cap_exceeded"
  end.

Record RunLoopHaltVerdict := mkHaltVerdict {
  hv_shouldHalt : bool;
  hv_canClaimNext : bool;
  hv_reason : RunLoopHaltReason;
  hv_convergence : NonConvergenceSignal;
  hv_caps : GovernorCapReport;
  hv_ledgerEventType : GovernorLedgerEventType;
  hv_ledgerReason : string;
}.

Definition haltVerdict (reason : RunLoopHaltReason) (convergence : NonConvergenceSignal) (caps : GovernorCapReport)
    (ledgerEventType : GovernorLedgerEventType) (ledgerReason : string) : RunLoopHaltVerdict :=
  mkHaltVerdict true false reason convergence caps ledgerEventType ledgerReason.

Record RunLoopHaltInput := mkHaltInput {
  hi_runHalted : bool;
  hi_usage : GovernorCapUsage;
  hi_limits : GovernorCapLimits;
  hi_convergence : PortfolioConvergenceInput;
  hi_convergenceThresholds : option PortfolioConvergenceThresholds;
}.

Definition evaluateRunLoopHalt (input : RunLoopHaltInput) : RunLoopHaltVerdict :=
  let convergence := detectNonConvergence (hi_convergence input) (hi_convergenceThresholds input) in
  let caps := evaluateGovernorCaps (hi_usage input) (hi_limits input) in
  if hi_runHalted input
  then haltVerdict prior_halt convergence caps denied "run_already_halted"
  else if bool_decide (cap_verdict caps = kill_switch)
  then haltVerdict termination_cap_exceeded convergence caps kill_switch "termination_cap_exceeded"
  else if dim_exceeded (cap_budget caps)
  then haltVerdict budget_exceeded convergence caps denied "budget_cap_exceeded"
  else if dim_exceeded (cap_turns caps)
  then haltVerdict turn_cap_exceeded convergence caps denied "turn_cap_exceeded"
  else if sig_tripped convergence
  then haltVerdict non_convergence convergence caps denied "non_convergence_detected"
  else mkHaltVerdict false true cleared convergence caps allowed "under_limit".

(** The latch after an operator clears a halted run. *)
Definition clearRunLoopHalt : bool := false.

Definition buildRunLoopHaltGovernorLedgerEvent (repo inFlightIdentifier : option string)
    (verdict : RunLoopHaltVerdict) : GovernorLedgerEvent :=
  mkEvent (hv_ledgerEventType verdict) repo "run_loop"
    (if hv_shouldHalt verdict then "halt" else "continue") (hv_ledgerReason verdict)
    [("haltReason", JStr (halt_reason_to_string (hv_reason verdict)));
     ("convergenceStatus", JStr (convergence_to_string (sig_status (hv_convergence verdict))));
     ("convergenceReasons", JArr (List.map JStr (sig_reasons (hv_convergence verdict))));
     ("budgetExceeded", JBool (dim_exceeded (cap_budget (hv_caps verdict))));
     ("turnsExceeded", JBool (dim_exceeded (cap_turns (hv_caps verdict))));
     ("terminationExceeded", JBool (dim_exceeded (cap_termination (hv_caps verdict))));
     ("inFlightIdentifier", jopt JStr inFlightIdentifier)].

(** ** The boundary gate

    [append] and [markFailed] are callbacks of the gate: the first records a
    ledger row, the second releases the claimed queue item.  Either may throw. *)

Record RunLoopInFlightItem := mkInFlight { if_repoFullName : string; if_identifier : string }.

Section Gate.
Context {Row QueueRow : Type}.

Record RunLoopBoundaryResult := mkBoundaryResult {
  br_verdict : RunLoopHaltVerdict;
  br_recorded : option Row;
  br_runHalted : bool;
  br_canClaimNext : bool;
  br_releasedItem : option QueueRow;
}.

Definition evaluateRunLoopBoundaryGate
    (append : GovernorLedgerEvent -> completion Row)
    (markFailed : option (string -> string -> completion (option QueueRow)))
    (inFlightItem : option RunLoopInFlightItem) (input : RunLoopHaltInput)
    : completion RunLoopBoundaryResult :=
  let wasHalted := hi_runHalted input in
  let verdict := evaluateRunLoopHalt input in
  let newlyHalted := negb wasHalted && hv_shouldHalt verdict in
  releasedItem <- (match newlyHalted, inFlightItem, markFailed with
                   | true, Some item, Some release => release (if_repoFullName item) (if_identifier item)
                   | _, _, _ => Normal None
                   end) ;;
  recorded <- (if negb (Bool.eqb wasHalted (hv_shouldHalt verdict))
               then row <- append (buildRunLoopHaltGovernorLedgerEvent
                             (if_repoFullName <$> inFlightItem) (if_identifier <$> inFlightItem) verdict) ;;
                    Normal (Some row)
               else Normal None) ;;
  Normal (mkBoundaryResult verdict recorded (hv_shouldHalt verdict) (hv_canClaimNext verdict) releasedItem).
End Gate.
Arguments RunLoopBoundaryResult : clear implicits.

(** ** Lemmas *)

Lemma finiteNonNegative_fin x : exists q, finiteNonNegative x = Fin q /\ (0 <= q)%Q.
Proof.
  unfold finiteNonNegative. destruct x as [| | | q]; simpl is_finite; try (exists 0%Q; split; [reflexivity | apply Qle_refl]).
  destruct (nmax_spec (nz 0) (Fin q) eq_refl eq_refl) as (M1 & _ & [M3 | M3]); rewrite M3 in *.
  - exists 0%Q. split; [reflexivity | apply Qle_refl].
  - exists q. split; [reflexivity |]. unfold nz in M1. by num_facts.
Qed.

Lemma finiteNonNegativeInt_fin x : exists q, finiteNonNegativeInt x = Fin q /\ (0 <= q)%Q.
Proof.
  destruct (finiteNonNegativeInt_nz x) as (z & Hz & ->). exists (inject_Z z). split; [reflexivity |].
  change 0%Q with (inject_Z 0). by rewrite <- Zle_Qle.
Qed.

Lemma dimension_bounds u l : (exists q, u = Fin q /\ (0 <= q)%Q) -> (exists q, l = Fin q /\ (0 <= q)%Q) ->
  let d := evaluateDimension u l in
  nleb (nz 0) (dim_remaining d) = true /\ dim_exceeded d = negb (nltb u l)
  /\ (dim_exceeded d = true -> dim_remaining d = nz 0).
Proof.
  intros (qu & -> & _) (ql & -> & _). unfold evaluateDimension; cbn [dim_remaining dim_exceeded].
  cbv zeta. assert (Hn : is_nan (nsub (Fin ql) (Fin qu)) = false) by apply rnd_not_nan.
  destruct (nmax_spec (nz 0) (nsub (Fin ql) (Fin qu)) eq_refl Hn) as (M1 & _ & M3).
  split; [exact M1 |]. unfold ngeb. split.
  { rewrite (nleb_total (Fin qu) (Fin ql) eq_refl eq_refl). by rewrite negb_involutive. }
  intros H. num_facts. assert (Hs : nleb (nsub (Fin ql) (Fin qu)) (nz 0) = true).
  { apply rnd_nonpos. apply (Qplus_le_l _ _ qu). ring_simplify. exact H. }
  by apply nmax_left.
Qed.

Definition dim_ok (d : GovernorCapDimension) : Prop :=
  nleb (nz 0) (dim_remaining d) = true /\ dim_exceeded d = negb (nltb (dim_used d) (dim_limit d))
  /\ (dim_exceeded d = true -> dim_remaining d = nz 0).

(** Every dimension of a report is well formed, whatever the inputs. *)
Lemma caps_dimensions usage limits :
  let r := evaluateGovernorCaps usage limits in
  dim_ok (cap_budget r) /\ dim_ok (cap_turns r) /\ dim_ok (cap_termination r).
Proof.
  split; [| split]; apply dimension_bounds;
    first [apply finiteNonNegative_fin | apply finiteNonNegativeInt_fin].
Qed.

Lemma caps_verdict_cases usage limits :
  let r := evaluateGovernorCaps usage limits in
  (cap_verdict r = kill_switch <-> dim_exceeded (cap_termination r) = true)
  /\ (cap_verdict r = allowed <->
        dim_exceeded (cap_budget r) = false /\ dim_exceeded (cap_turns r) = false
        /\ dim_exceeded (cap_termination r) = false)
  /\ cap_verdict r <> throttled.
Proof.
  cbv zeta. unfold evaluateGovernorCaps. cbn [cap_verdict cap_budget cap_turns cap_termination].
  repeat match goal with |- context [dim_exceeded (evaluateDimension ?u ?l)] =>
    destruct (dim_exceeded (evaluateDimension u l)) end; simpl; intuition congruence.
Qed.

(** A ceiling that is not a finite number is a ceiling of zero. *)
Lemma exceeded_zero_limit u : (exists q, u = Fin q /\ (0 <= q)%Q) -> dim_exceeded (evaluateDimension u (nz 0)) = true.
Proof. intros (q & -> & Hq). unfold evaluateDimension; cbn [dim_exceeded]. unfold ngeb, nz. by apply nleb_fin. Qed.

Lemma finiteNonNegative_bad x : is_finite x = false -> finiteNonNegative x = nz 0.
Proof. unfold finiteNonNegative. by intros ->. Qed.
Lemma finiteNonNegativeInt_bad x : is_finite x = false -> finiteNonNegativeInt x = nz 0.
Proof. unfold finiteNonNegativeInt. by intros ->. Qed.

(** The caps on every input.  The three headrooms are never negative and
    are zero once a ceiling is reached; the verdict is [kill_switch] exactly
    when the wall-clock ceiling is reached, [allowed] exactly when all three
    normalized usages are strictly below their ceilings, and a ceiling that is
    not a finite number (NaN, infinite, missing) is never [allowed]. *)
Theorem evaluateGovernorCaps_fail_closed usage limits :
  let r := evaluateGovernorCaps usage limits in
  Forall (fun d => nleb (nz 0) (dim_remaining d) = true) [cap_budget r; cap_turns r; cap_termination r]
  /\ Forall (fun d => dim_exceeded d = true -> dim_remaining d = nz 0) [cap_budget r; cap_turns r; cap_termination r]
  /\ (cap_verdict r = kill_switch <->
        nltb (finiteNonNegative (us_elapsedMs usage)) (finiteNonNegative (lim_elapsedMs limits)) = false)
  /\ (cap_verdict r = allowed <->
        nltb (finiteNonNegative (us_budgetSpent usage)) (finiteNonNegative (lim_budget limits)) = true
        /\ nltb (finiteNonNegativeInt (us_turnsTaken usage)) (finiteNonNegativeInt (lim_turns limits)) = true
        /\ nltb (finiteNonNegative (us_elapsedMs usage)) (finiteNonNegative (lim_elapsedMs limits)) = true)
  /\ (is_finite (lim_budget limits) && is_finite (lim_turns limits) && is_finite (lim_elapsedMs limits) = false ->
       cap_verdict r <> allowed).
Proof.
  intros r. pose proof (caps_dimensions usage limits) as D. cbv zeta in D. fold r in D.
  destruct (caps_verdict_cases usage limits) as (K & A & _). fold r in K, A.
  destruct D as ((b1 & b2 & b3) & (t1 & t2 & t3) & (e1 & e2 & e3)).
  split; [by repeat constructor |]. split; [by repeat constructor |].
  rewrite b2, t2, e2 in A. rewrite e2 in K. rewrite !negb_true_iff in K. rewrite !negb_false_iff in A.
  split; [exact K |]. split; [exact A |]. intros F.
  rewrite !andb_false_iff in F. intros V. apply A in V. rewrite <- !negb_false_iff, <- b2, <- t2, <- e2 in V.
  destruct V as (V1 & V2 & V3). revert V1 V2 V3. unfold r, evaluateGovernorCaps; cbn [cap_budget cap_turns cap_termination].
  destruct F as [[F | F] | F]; rewrite ?(finiteNonNegative_bad _ F), ?(finiteNonNegativeInt_bad _ F);
    rewrite exceeded_zero_limit by auto using finiteNonNegative_fin, finiteNonNegativeInt_fin; intros; discriminate.
Qed.

(** ** More usage never re-opens a cap *)

Definition severity (v : GovernorLedgerEventType) : nat :=
  match v with allowed => 0 | throttled => 1 | denied => 2 | kill_switch => 3 end.

Record usage_le (u1 u2 : GovernorCapUsage) : Prop := mkUsageLe {
  ule_budget : nleb (us_budgetSpent u1) (us_budgetSpent u2) = true;
  ule_turns : nleb (us_turnsTaken u1) (us_turnsTaken u2) = true;
  ule_elapsed : nleb (us_elapsedMs u1) (us_elapsedMs u2) = true;
}.

Definition usage_finite (u : GovernorCapUsage) : bool :=
  is_finite (us_budgetSpent u) && is_finite (us_turnsTaken u) && is_finite (us_elapsedMs u).

Lemma nmax_mono_r a x y : is_nan a = false -> nleb x y = true -> nleb (nmax a x) (nmax a y) = true.
Proof.
  intros Ha H. assert (Hx : is_nan x = false) by (by destruct x). assert (Hy : is_nan y = false) by (by destruct x, y).
  destruct (nmax_spec a x Ha Hx) as (_ & _ & [-> | ->]);
    destruct (nmax_spec a y Ha Hy) as (M1 & M2 & _); [assumption |].
  eauto using nleb_trans.
Qed.

Lemma nfloor_mono x y : nleb x y = true -> nleb (nfloor x) (nfloor y) = true.
Proof.
  destruct x, y; intros H; try discriminate; try reflexivity. unfold nfloor.
  rewrite nz_leb. apply Z.leb_le. apply Qfloor_resp_le. by num_facts.
Qed.

(** A value below a finite one is finite or negative infinity, which both clamp. *)
Lemma finiteNonNegative_mono x y : is_finite y = true -> nleb x y = true ->
  nleb (finiteNonNegative x) (finiteNonNegative y) = true.
Proof.
  intros Hy H. destruct (finiteNonNegative_fin y) as (q & Eq & Hq).
  destruct x as [| | | p]; [discriminate H | by destruct y | |].
  - rewrite Eq. by apply nleb_fin.
  - unfold finiteNonNegative. rewrite Hy. by apply nmax_mono_r.
Qed.

Lemma finiteNonNegativeInt_mono x y : is_finite y = true -> nleb x y = true ->
  nleb (finiteNonNegativeInt x) (finiteNonNegativeInt y) = true.
Proof.
  intros Hy H. destruct (finiteNonNegativeInt_fin y) as (q & Eq & Hq).
  destruct x as [| | | p]; [discriminate H | by destruct y | |].
  - rewrite Eq. by apply nleb_fin.
  - unfold finiteNonNegativeInt. rewrite Hy. cbn [is_finite]. apply nmax_mono_r; [reflexivity |]. by apply nfloor_mono.
Qed.

Lemma exceeded_mono u1 u2 l : nleb u1 u2 = true ->
  dim_exceeded (evaluateDimension u1 l) = true -> dim_exceeded (evaluateDimension u2 l) = true.
Proof. unfold evaluateDimension, ngeb; cbn [dim_exceeded]. eauto using nleb_trans. Qed.

(** The caps are monotone: against the same ceilings, a run with at least
    as much (finite) usage in every dimension never gets a milder verdict. *)
Theorem evaluateGovernorCaps_monotone u1 u2 limits :
  usage_finite u2 = true -> usage_le u1 u2 ->
  severity (cap_verdict (evaluateGovernorCaps u1 limits))
    <= severity (cap_verdict (evaluateGovernorCaps u2 limits)).
Proof.
  intros F [Hb Ht He]. unfold usage_finite in F. rewrite !andb_true_iff in F. destruct F as [[Fb Ft] Fe].
  pose proof (exceeded_mono _ _ (finiteNonNegative (lim_budget limits)) (finiteNonNegative_mono _ _ Fb Hb)) as Mb.
  pose proof (exceeded_mono _ _ (finiteNonNegativeInt (lim_turns limits)) (finiteNonNegativeInt_mono _ _ Ft Ht)) as Mt.
  pose proof (exceeded_mono _ _ (finiteNonNegative (lim_elapsedMs limits)) (finiteNonNegative_mono _ _ Fe He)) as Me.
  unfold evaluateGovernorCaps; cbn [cap_verdict]. revert Mb Mt Me.
  repeat match goal with |- context [dim_exceeded (evaluateDimension ?u ?l)] =>
    destruct (dim_exceeded (evaluateDimension u l)) end; simpl; intros Mb Mt Me;
    try lia; first [specialize (Mb eq_refl); discriminate | specialize (Mt eq_refl); discriminate
                   | specialize (Me eq_refl); discriminate].
Qed.

Lemma evaluateGovernorCaps_monotone_witness :
  severity (cap_verdict (evaluateGovernorCaps (mkUsage (nz 4) (nz 1) (nz 10)) (mkLimits (nz 5) (nz 3) (nz 100)))) = 0
  /\ severity (cap_verdict (evaluateGovernorCaps (mkUsage (nz 4) (nz 1) (nz 10)) (mkLimits (nz 5) (nz 3) (nz 100))))
     <= severity (cap_verdict (evaluateGovernorCaps (mkUsage (nz 4) (nz 3) (nz 10)) (mkLimits (nz 5) (nz 3) (nz 100)))).
Proof.
  split; [vm_compute; reflexivity |].
  apply evaluateGovernorCaps_monotone; [reflexivity | constructor; vm_compute; reflexivity].
Defined.

(** ** Convergence *)

(** An item reads [non_convergent] exactly when it was tried, never
    finished, and a normalized streak reached its normalized threshold; that is
    exactly when a run-halting signal trips, and then a reason is always given.
    A threshold that is not a finite number trips for every such item. *)
Theorem classifyPortfolioConvergence_non_convergent input thresholds :
  let v := classifyPortfolioConvergence input thresholds in
  let tried := ngtb (finiteNonNegativeInt (cv_attempts input)) (nz 0) && negb (cv_reachedDone input) in
  (cvv_status v = non_convergent <->
     tried = true
     /\ (ngeb (finiteNonNegativeInt (cv_consecutiveFailures input))
              (finiteNonNegativeInt (maxConsecutiveFailures thresholds)) = true
         \/ ngeb (finiteNonNegativeInt (cv_reenqueues input))
                 (finiteNonNegativeInt (maxReenqueues thresholds)) = true))
  /\ cvv_reasons v <> []
  /\ sig_tripped (detectNonConvergence input (Some thresholds)) = bool_decide (cvv_status v = non_convergent)
  /\ (tried = true ->
      is_finite (maxConsecutiveFailures thresholds) && is_finite (maxReenqueues thresholds) = false ->
      cvv_status v = non_convergent).
Proof.
  intros v tried.
  assert (Ht : tried = negb (nleb (finiteNonNegativeInt (cv_attempts input)) (nz 0)) && negb (cv_reachedDone input)).
  { unfold tried. destruct (finiteNonNegativeInt_nz (cv_attempts input)) as (z & _ & ->).
    rewrite nz_gtb, nz_leb, Z.leb_antisym. by rewrite negb_involutive. }
  assert (Hbad : forall x m, is_finite m = false -> ngeb (finiteNonNegativeInt x) (finiteNonNegativeInt m) = true).
  { intros x m Hm. rewrite (finiteNonNegativeInt_bad m Hm). apply exceeded_zero_limit, finiteNonNegativeInt_fin. }
  assert (Hiff : cvv_status v = non_convergent <->
     tried = true
     /\ (ngeb (finiteNonNegativeInt (cv_consecutiveFailures input))
              (finiteNonNegativeInt (maxConsecutiveFailures thresholds)) = true
         \/ ngeb (finiteNonNegativeInt (cv_reenqueues input))
                 (finiteNonNegativeInt (maxReenqueues thresholds)) = true)).
  { rewrite Ht. unfold v, classifyPortfolioConvergence. destruct (nleb _ _); cbn [negb andb].
    { simpl. intuition discriminate. }
    destruct (cv_reachedDone input); cbn [negb]; [simpl; intuition discriminate |].
    destruct (ngeb _ _), (ngeb _ _); simpl; try tauto.
    destruct (_ || _); simpl; intuition discriminate. }
  split; [exact Hiff |]. split; [| split; [reflexivity |]].
  - unfold v, classifyPortfolioConvergence. destruct (nleb _ _); [done |]. destruct (cv_reachedDone input); [done |].
    destruct (ngeb _ _), (ngeb _ _); simpl; try done. by destruct (_ || _).
  - intros T F. apply Hiff. split; [exact T |]. apply andb_false_iff in F as [F | F]; auto.
Qed.

(** ** The halt decision and its latch *)

(** The signals of one boundary are clear: all caps open and no stuck item. *)
Definition signals_clear (i : RunLoopHaltInput) : bool :=
  bool_decide (cap_verdict (evaluateGovernorCaps (hi_usage i) (hi_limits i)) = allowed)
  && negb (sig_tripped (detectNonConvergence (hi_convergence i) (hi_convergenceThresholds i))).

Lemma halt_cases i :
  hv_shouldHalt (evaluateRunLoopHalt i) = hi_runHalted i || negb (signals_clear i).
Proof.
  unfold evaluateRunLoopHalt, signals_clear. destruct (hi_runHalted i); [reflexivity |].
  destruct (caps_verdict_cases (hi_usage i) (hi_limits i)) as (K & A & T).
  set (r := evaluateGovernorCaps _ _) in *. set (s := detectNonConvergence _ _). clearbody r s.
  destruct (cap_verdict r) eqn:V; simpl.
  - destruct (proj1 A eq_refl) as (-> & -> & _). by destruct (sig_tripped s).
  - destruct (dim_exceeded (cap_budget r)); [reflexivity |].
    destruct (dim_exceeded (cap_turns r)); [reflexivity |].
    destruct (dim_exceeded (cap_termination r)); [by discriminate (proj2 K eq_refl) |].
    discriminate (proj2 A (conj eq_refl (conj eq_refl eq_refl))).
  - by destruct T.
  - reflexivity.
Qed.

Lemma claim_iff_no_halt i :
  hv_canClaimNext (evaluateRunLoopHalt i) = negb (hv_shouldHalt (evaluateRunLoopHalt i)).
Proof. unfold evaluateRunLoopHalt. by repeat case_match. Qed.

(** The halt decision on every input: the run stops exactly when it was
    already halted, a cap is not [allowed] or the item is stuck; a claim is
    possible exactly otherwise; and the ledger row says so, with the reason
    [cleared] and the event type [allowed] only for a run that continues. *)
Theorem evaluateRunLoopHalt_spec i repo inFlight :
  let v := evaluateRunLoopHalt i in
  let row := buildRunLoopHaltGovernorLedgerEvent repo inFlight v in
  hv_shouldHalt v = hi_runHalted i || negb (signals_clear i)
  /\ hv_canClaimNext v = negb (hv_shouldHalt v)
  /\ (hv_reason v = cleared <-> hv_shouldHalt v = false)
  /\ (eventType row = allowed <-> hv_shouldHalt v = false)
  /\ (decision row = "continue" <-> hv_shouldHalt v = false).
Proof.
  cbv zeta. rewrite claim_iff_no_halt. split; [apply halt_cases |]. split; [reflexivity |].
  unfold evaluateRunLoopHalt. repeat case_match; simpl; intuition discriminate.
Qed.

(** One iteration boundary of a run, with the claimed item, or an operator
    clearing the halt. *)
Inductive halt_op :=
  | Boundary (item : option RunLoopInFlightItem) (input : RunLoopHaltInput)
  | Clear.

Record halt_state := mkHaltState {
  hs_halted : bool;
  hs_rows : list GovernorLedgerEvent;
  hs_released : list (string * string);
  hs_claims : list bool;
}.

Definition with_latch (halted : bool) (i : RunLoopHaltInput) : RunLoopHaltInput :=
  mkHaltInput halted (hi_usage i) (hi_limits i) (hi_convergence i) (hi_convergenceThresholds i).

Definition opt_list {A} (o : option A) : list A := match o with Some a => [a] | None => [] end.

(** The gate with a ledger and a queue that record what they are called with. *)
Definition halt_step (s : halt_state) (op : halt_op) : halt_state :=
  match op with
  | Clear => mkHaltState clearRunLoopHalt (hs_rows s) (hs_released s) (hs_claims s)
  | Boundary item input =>
      match evaluateRunLoopBoundaryGate Normal (Some (fun r i => Normal (Some (r, i)))) item
              (with_latch (hs_halted s) input) with
      | Normal res => mkHaltState (br_runHalted res) (hs_rows s ++ opt_list (br_recorded res))
                        (hs_released s ++ opt_list (br_releasedItem res)) (hs_claims s ++ [br_canClaimNext res])
      | Thrown _ => s
      end
  end.

Definition halt_run (ops : list halt_op) : halt_state :=
  List.fold_left halt_step ops (mkHaltState false [] [] []).

(** What a run should do, from the signals alone: [halted] holds when some
    boundary since the last clear was not clear; the first such boundary is the
    only one that writes a row and releases its item. *)
Fixpoint halt_spec (halted : bool) (ops : list halt_op) : bool * list bool * list (string * string) * nat :=
  match ops with
  | [] => (halted, [], [], 0)
  | Clear :: ops => halt_spec false ops
  | Boundary item i :: ops =>
      let fresh := negb halted && negb (signals_clear i) in
      let '(h, claims, released, rows) := halt_spec (halted || negb (signals_clear i)) ops in
      (h, (negb halted && signals_clear i) :: claims,
       ((if fresh then opt_list ((fun x => (if_repoFullName x, if_identifier x)) <$> item) else []) ++ released)%list,
       (if fresh then S rows else rows))
  end.

Lemma halt_step_boundary s item i :
  halt_step s (Boundary item i) =
  let v := evaluateRunLoopHalt (with_latch (hs_halted s) i) in
  let fresh := negb (hs_halted s) && negb (signals_clear i) in
  mkHaltState (hs_halted s || negb (signals_clear i))
    (hs_rows s ++ if fresh then [buildRunLoopHaltGovernorLedgerEvent (if_repoFullName <$> item) (if_identifier <$> item) v]
                  else [])
    (hs_released s ++ if fresh then opt_list ((fun x => (if_repoFullName x, if_identifier x)) <$> item) else [])
    (hs_claims s ++ [negb (hs_halted s) && signals_clear i]).
Proof.
  unfold halt_step, evaluateRunLoopBoundaryGate. rewrite claim_iff_no_halt, (halt_cases (with_latch (hs_halted s) i)).
  change (signals_clear (with_latch (hs_halted s) i)) with (signals_clear i).
  change (hi_runHalted (with_latch (hs_halted s) i)) with (hs_halted s).
  destruct (hs_halted s), (signals_clear i), item; reflexivity.
Qed.

Lemma halt_run_from ops s :
  let '(h, claims, released, rows) := halt_spec (hs_halted s) ops in
  let s' := List.fold_left halt_step ops s in
  hs_halted s' = h /\ hs_claims s' = (hs_claims s ++ claims)%list /\ hs_released s' = (hs_released s ++ released)%list
  /\ exists new, hs_rows s' = (hs_rows s ++ new)%list /\ List.length new = rows
                 /\ Forall (fun e => decision e = "halt" /\ eventType e <> allowed) new.
Proof.
  revert s. induction ops as [| [item i |] ops IH]; intros s.
  - simpl. rewrite !app_nil_r. repeat split; auto. exists []. by rewrite app_nil_r.
  - cbn [halt_spec List.fold_left]. specialize (IH (halt_step s (Boundary item i))).
    rewrite halt_step_boundary in *. cbv zeta in *. cbn [hs_halted hs_claims hs_released hs_rows] in IH.
    destruct (halt_spec (hs_halted s || negb (signals_clear i)) ops) as [[[h claims] released] rows].
    destruct IH as (E1 & E2 & E3 & new & E4 & E5 & E6). rewrite E1, E2, E3, E4, <- !app_assoc.
    split; [reflexivity |]. split; [reflexivity |]. split; [reflexivity |].
    eexists. split; [reflexivity |]. destruct (negb (hs_halted s) && negb (signals_clear i)) eqn:Fr; [| by split].
    split; [simpl; by rewrite E5 |]. constructor; [| exact E6].
    pose proof (halt_cases (with_latch (hs_halted s) i)) as Hh.
    change (signals_clear (with_latch (hs_halted s) i)) with (signals_clear i) in Hh.
    change (hi_runHalted (with_latch (hs_halted s) i)) with (hs_halted s) in Hh.
    apply andb_true_iff in Fr as [_ Fr]. rewrite Fr, orb_true_r in Hh. revert Hh.
    unfold evaluateRunLoopHalt. repeat case_match; simpl; intros; try discriminate; split; done.
  - cbn [halt_spec List.fold_left]. exact (IH (halt_step s Clear)).
Qed.

(** The halt latch over whole runs.  In every sequence of boundaries and
    operator clears, a claim is permitted at a boundary exactly when its signals
    are clear and every boundary since the last clear was clear too; each fresh
    halt, and nothing else, writes one non-[allowed] "halt" row and releases
    the claimed item of that boundary. *)
Theorem halt_run_refines ops :
  let '(h, claims, released, rows) := halt_spec false ops in
  let s := halt_run ops in
  hs_halted s = h /\ hs_claims s = claims /\ hs_released s = released /\ List.length (hs_rows s) = rows
  /\ Forall (fun e => decision e = "halt" /\ eventType e <> allowed) (hs_rows s).
Proof.
  pose proof (halt_run_from ops (mkHaltState false [] [] [])) as H. cbn [hs_halted hs_claims hs_released hs_rows] in H.
  unfold halt_run. destruct (halt_spec false ops) as [[[h claims] released] rows].
  destruct H as (E1 & E2 & E3 & new & E4 & E5 & E6). simpl in E4. rewrite E4. auto.
Qed.
