(* ===== verification/Reputation.v ===== *)
(** * Self-reputation throttle

    Models [governor/reputation-throttle.ts]: how far the miner slows its own
    submissions to a repository after unfavourable outcomes there.

    Main results: for every override and history the cadence factor stays in
    [0, 1] and short histories are never throttled; under the default
    thresholds it stays at or above a tenth and never grows when an outcome
    turns unfavourable.  All of it is about the double arithmetic of the code,
    interpolation and [toFixed] included. *)

From stdpp Require Import base list strings option.
From Stdlib Require Import QArith Qround ZArith Lia Lqa.
From S2P Require Import Prelude JsNumber JsString Ledger RateLimit.

Local Open Scope nat_scope.
Local Open Scope string_scope.
Local Open Scope js_scope.

(** ** Definitions *)

Record SelfReputationThresholds := mkThresholds {
  minSampleSize : num;
  throttleAtRatio : num;
  floorAtRatio : num;
  minCadenceFactor : num;
}.

Definition DEFAULT_SELF_REPUTATION_THRESHOLDS : SelfReputationThresholds :=
  mkThresholds (nz 5) (rnd (5 # 10)) (rnd (9 # 10)) (rnd (1 # 10)).

Record RepoOutcomeHistory := mkHistory { decided : num; unfavorable : num }.

Inductive SelfReputationThrottleReason := insufficient_history | clean | rep_throttled | floored.

Definition throttle_reason_to_string (r : SelfReputationThrottleReason) : string :=
  match r with
  | insufficient_history => "insufficient_history" | clean => "clean"
  | rep_throttled => "throttled" | floored => "floored"
  end.

Record SelfReputationThrottleDecision := mkThrottle {
  cadenceFactor : num;
  td_throttled : bool;
  unfavorableRatio : option num;
  td_reason : SelfReputationThrottleReason;
}.

Definition clampFraction (value fallback : num) : num :=
  if is_finite value then nmin (nz 1) (nmax (nz 0) value) else fallback.

(** [Partial<SelfReputationThresholds>]: each field may be absent. *)
Record ThresholdOverrides := mkOverrides {
  ov_minSampleSize : option num;
  ov_throttleAtRatio : option num;
  ov_floorAtRatio : option num;
  ov_minCadenceFactor : option num;
}.

Definition resolveSelfReputationThresholds (overrides : ThresholdOverrides) : SelfReputationThresholds :=
  let d := DEFAULT_SELF_REPUTATION_THRESHOLDS in
  let sample := nmax (nz 1) (finiteNonNegativeInt (ov_minSampleSize overrides ?? minSampleSize d)) in
  let throttleAt := clampFraction (ov_throttleAtRatio overrides ?? throttleAtRatio d) (throttleAtRatio d) in
  let floorAt := nmax throttleAt (clampFraction (ov_floorAtRatio overrides ?? floorAtRatio d) (floorAtRatio d)) in
  let cadence := clampFraction (ov_minCadenceFactor overrides ?? minCadenceFactor d) (minCadenceFactor d) in
  mkThresholds sample throttleAt floorAt cadence.

Definition selfReputationThrottle (history : RepoOutcomeHistory) (thresholds : SelfReputationThresholds)
    : SelfReputationThrottleDecision :=
  let dec := finiteNonNegativeInt (decided history) in
  let unf := nmin dec (finiteNonNegativeInt (unfavorable history)) in
  if nltb dec (minSampleSize thresholds) then mkThrottle (nz 1) false None insufficient_history
  else
    let ratio := ndiv unf dec in
    if nltb ratio (throttleAtRatio thresholds) then mkThrottle (nz 1) false (Some (round3 ratio)) clean
    else if ngeb ratio (floorAtRatio thresholds)
    then mkThrottle (minCadenceFactor thresholds) true (Some (round3 ratio)) floored
    else
      let t := ndiv (nsub ratio (throttleAtRatio thresholds))
                    (nsub (floorAtRatio thresholds) (throttleAtRatio thresholds)) in
      let factor := round3 (nsub (nz 1) (nmul t (nsub (nz 1) (minCadenceFactor thresholds)))) in
      mkThrottle factor true (Some (round3 ratio)) rep_throttled.

Definition selfReputationThrottleLedgerEvent (repo action : string) (d : SelfReputationThrottleDecision)
    : GovernorLedgerEvent :=
  mkEvent (if td_throttled d then throttled else allowed) (Some repo) action
    (if td_throttled d then "throttle" else "allow") (throttle_reason_to_string (td_reason d))
    [("cadenceFactor", JNum (cadenceFactor d)); ("unfavorableRatio", jopt JNum (unfavorableRatio d))].

(** A slowed cadence that is not the floor is a number of thousandths. *)
Lemma slowed_cadence history thresholds :
  let d := selfReputationThrottle history thresholds in
  td_reason d <> floored -> nltb (cadenceFactor d) (nz 1) = true -> exists x, cadenceFactor d = round3 x.
Proof.
  unfold selfReputationThrottle. destruct (nltb _ _); [intros _ H; discriminate H |].
  destruct (nltb _ _); [intros _ H; discriminate H |]. destruct (ngeb _ _); [intros H; by destruct H |].
  intros _ _. by eexists.
Qed.

(** ** The interpolation *)

Local Open Scope Q_scope.

(** A number of the unit interval. *)
Definition unit_num (x : num) : Prop := exists q, x = Fin q /\ 0 <= q <= 1.

Lemma unit_bounds x : unit_num x -> nleb (nz 0) x = true /\ nleb x (nz 1) = true.
Proof. intros (q & -> & H). unfold nz. rewrite !nleb_fin. exact H. Qed.

Lemma unit_1 : unit_num (nz 1).
Proof. exists 1. split; [reflexivity | lra]. Qed.

Lemma unit_rnd q : 0 <= q <= 1 -> unit_num (rnd q).
Proof. intros H. destruct (rnd_unit q H) as (v & E & Hv). exists v. auto. Qed.

(** The cadence at interpolation parameter [t]. *)
Definition cadence_at (t m : num) : num := round3 (nsub (nz 1) (nmul t (nsub (nz 1) m))).

Lemma unit_complement x : unit_num x -> unit_num (nsub (nz 1) x).
Proof. intros (q & -> & H). apply unit_rnd. change (inject_Z 1) with 1. lra. Qed.

Lemma unit_mul x y : unit_num x -> unit_num y -> unit_num (nmul x y).
Proof. intros (p & -> & Hp) (q & -> & Hq). apply unit_rnd. split; [apply Qmult_le_0_compat; lra | nra]. Qed.

Lemma cadence_unit t m : unit_num t -> unit_num m -> unit_num (cadence_at t m).
Proof.
  intros Ht Hm. destruct (unit_complement _ (unit_mul _ _ Ht (unit_complement _ Hm))) as (q & E & H).
  unfold cadence_at. rewrite E. destruct (round3_range q H) as (v & Ev & Hv). exists v. auto.
Qed.

Lemma cadence_antitone t1 t2 m : unit_num t1 -> unit_num t2 -> unit_num m -> nleb t1 t2 = true ->
  nleb (cadence_at t2 m) (cadence_at t1 m) = true.
Proof.
  intros H1 H2 Hm Hle. unfold cadence_at. pose proof (unit_complement _ Hm) as (c & Ec & Hc). rewrite Ec.
  assert (Hm12 : nleb (nmul t1 (Fin c)) (nmul t2 (Fin c)) = true).
  { destruct H1 as (p & -> & Hp), H2 as (q & -> & Hq). num_facts. apply rnd_mono. nra. }
  assert (U : unit_num (Fin c)) by (exists c; auto).
  destruct (unit_mul _ _ H1 U) as (a & Ea & Ha), (unit_mul _ _ H2 U) as (b & Eb & Hb). rewrite Ea, Eb in *.
  assert (Hs : nleb (nsub (nz 1) (Fin b)) (nsub (nz 1) (Fin a)) = true) by (num_facts; apply rnd_mono; lra).
  destruct (unit_complement (Fin a)) as (a' & Ea' & Ha'); [by exists a |].
  destruct (unit_complement (Fin b)) as (b' & Eb' & Hb'); [by exists b |].
  rewrite Ea', Eb' in *. num_facts. apply round3_mono; lra.
Qed.

(** The interpolation parameter, on a band whose width does not round to zero. *)
Definition band_t (r a f : num) : num := ndiv (nsub r a) (nsub f a).

Lemma band_span a f : is_double (Fin a) = true -> is_double (Fin f) = true -> 0 <= a -> a < f -> f <= 1 ->
  exists d, nsub (Fin f) (Fin a) = Fin d /\ 0 < d.
Proof.
  intros Da Df Ha Haf Hf. pose proof (double_sub_pos a f Da Df Haf) as Hp.
  destruct (rnd_unit (f + - a) ltac:(lra)) as (d & Ed & Hd). exists d. split; [exact Ed |].
  unfold Qminus in Hp. rewrite Ed in Hp. by num_facts.
Qed.

Lemma band_t_range r a f d : nsub (Fin f) (Fin a) = Fin d -> 0 < d -> 0 <= a -> a <= r -> r <= f -> f <= 1 ->
  unit_num (band_t (Fin r) (Fin a) (Fin f)).
Proof.
  intros Ed Hd Ha Har Hrf Hf. unfold band_t. rewrite Ed.
  destruct (rnd_unit (r + - a) ltac:(lra)) as (n & En & Hn).
  assert (Hnd : nleb (nsub (Fin r) (Fin a)) (nsub (Fin f) (Fin a)) = true) by (apply rnd_mono; lra).
  change (nsub (Fin r) (Fin a)) with (rnd (r + - a)) in *. rewrite En, Ed in *. unfold ndiv.
  destruct (Qeq_bool d 0) eqn:Z. { apply Qeq_bool_eq in Z. lra. }
  apply unit_rnd. num_facts. split.
  - apply Qle_shift_div_l; lra.
  - apply Qle_shift_div_r; lra.
Qed.

Lemma band_t_mono r1 r2 a f d : nsub (Fin f) (Fin a) = Fin d -> 0 < d -> 0 <= a -> a <= r1 -> r1 <= r2 -> r2 <= f -> f <= 1 ->
  nleb (band_t (Fin r1) (Fin a) (Fin f)) (band_t (Fin r2) (Fin a) (Fin f)) = true.
Proof.
  intros Ed Hd Ha Har Hr Hrf Hf. unfold band_t. rewrite Ed.
  assert (Hn : nleb (nsub (Fin r1) (Fin a)) (nsub (Fin r2) (Fin a)) = true) by (apply rnd_mono; lra).
  change (nsub (Fin r1) (Fin a)) with (rnd (r1 + - a)) in *.
  change (nsub (Fin r2) (Fin a)) with (rnd (r2 + - a)) in *.
  destruct (rnd_unit (r1 + - a) ltac:(lra)) as (n1 & E1 & _), (rnd_unit (r2 + - a) ltac:(lra)) as (n2 & E2 & _).
  rewrite E1, E2 in *.
  unfold ndiv. destruct (Qeq_bool d 0) eqn:Z. { apply Qeq_bool_eq in Z. lra. }
  num_facts. apply rnd_mono. unfold Qdiv.
  apply Qmult_le_compat_r; [lra | apply Qinv_le_0_compat; lra].
Qed.

(** ** The unfavourable ratio *)

Definition ratio_of (h : RepoOutcomeHistory) : num :=
  let dec := finiteNonNegativeInt (decided h) in
  ndiv (nmin dec (finiteNonNegativeInt (unfavorable h))) dec.

Lemma ratio_int d u : (1 <= d)%Z -> (0 <= u)%Z ->
  ndiv (nmin (nz d) (nz u)) (nz d) = rnd (inject_Z (Z.min d u) / inject_Z d).
Proof.
  intros Hd Hu. rewrite nz_min. unfold nz, ndiv. destruct (Qeq_bool (inject_Z d) 0) eqn:Z; [| reflexivity].
  apply Qeq_bool_eq in Z. unfold Qeq in Z; simpl in Z. lia.
Qed.

Lemma ratio_unit h : nleb (nz 1) (finiteNonNegativeInt (decided h)) = true -> unit_num (ratio_of h).
Proof.
  unfold ratio_of. destruct (finiteNonNegativeInt_nz (decided h)) as (d & _ & ->).
  destruct (finiteNonNegativeInt_nz (unfavorable h)) as (u & Hu & ->).
  rewrite nz_leb, Z.leb_le. intros Hd. rewrite ratio_int by assumption. apply unit_rnd, frac_unit; lia.
Qed.

Lemma ratio_mono d u1 u2 : nleb (nz 1) (finiteNonNegativeInt d) = true ->
  nleb (finiteNonNegativeInt u1) (finiteNonNegativeInt u2) = true ->
  nleb (ratio_of (mkHistory d u1)) (ratio_of (mkHistory d u2)) = true.
Proof.
  unfold ratio_of; cbn [decided unfavorable]. destruct (finiteNonNegativeInt_nz d) as (z & _ & ->).
  destruct (finiteNonNegativeInt_nz u1) as (z1 & H1 & ->), (finiteNonNegativeInt_nz u2) as (z2 & H2 & ->).
  rewrite !nz_leb, !Z.leb_le. intros Hz Hle. rewrite !ratio_int by assumption. apply rnd_mono. unfold Qdiv.
  apply Qmult_le_compat_r; [rewrite <- Zle_Qle; lia |]. apply Qinv_le_0_compat.
  change 0 with (inject_Z 0). rewrite <- Zle_Qle. lia.
Qed.

(** ** Resolved thresholds *)

Record thresholds_ok (t : SelfReputationThresholds) : Prop := mkThresholdsOk {
  ok_sample : nleb (nz 1) (minSampleSize t) = true;
  ok_throttle : unit_num (throttleAtRatio t);
  ok_floor : unit_num (floorAtRatio t);
  ok_cadence : unit_num (minCadenceFactor t);
  ok_band : nleb (throttleAtRatio t) (floorAtRatio t) = true;
  ok_throttle_double : is_double (throttleAtRatio t) = true;
  ok_floor_double : is_double (floorAtRatio t) = true;
}.

Definition overrides_double (o : ThresholdOverrides) : bool :=
  forallb (fun x => match x with Some v => is_double v | None => true end)
    [ov_minSampleSize o; ov_throttleAtRatio o; ov_floorAtRatio o; ov_minCadenceFactor o].

Lemma clampFraction_ok v d : unit_num d -> is_double d = true -> is_double v = true ->
  unit_num (clampFraction v d) /\ is_double (clampFraction v d) = true.
Proof.
  intros Ud Dd Dv. unfold clampFraction. destruct v as [| | | q]; try (by split). cbn [is_finite].
  assert (Hd0 : is_double (nz 0) = true) by reflexivity. assert (Hd1 : is_double (nz 1) = true) by (vm_compute; reflexivity).
  destruct (nmax_spec (nz 0) (Fin q) eq_refl eq_refl) as (M1 & _ & M3).
  assert (Hm : is_nan (nmax (nz 0) (Fin q)) = false /\ is_double (nmax (nz 0) (Fin q)) = true
               /\ exists m, nmax (nz 0) (Fin q) = Fin m)
    by (destruct M3 as [-> | ->]; repeat split; eauto; by eexists).
  destruct Hm as (Hn & Hdm & m & Em). rewrite Em in *.
  destruct (nmin_spec (nz 1) (Fin m) eq_refl eq_refl) as (m1 & m2 & [E | E]); rewrite E in *; (split; [| assumption]).
  - exists 1. split; [reflexivity | lra].
  - exists m. unfold nz in *. num_facts. change (inject_Z 0) with 0 in *. change (inject_Z 1) with 1 in *. auto.
Qed.

Lemma default_fields :
  let d := DEFAULT_SELF_REPUTATION_THRESHOLDS in
  let ok := fun x => unit_num x /\ is_double x = true in
  ok (throttleAtRatio d) /\ ok (floorAtRatio d) /\ ok (minCadenceFactor d).
Proof.
  assert (H : forall x q, x = Fin q -> (Qle_bool 0 q && Qle_bool q 1)%bool = true -> unit_num x).
  { intros x q -> H. rewrite andb_true_iff, !Qle_bool_iff in H. by exists q. }
  cbv zeta. split; [| split]; (split; [eapply H; vm_compute; reflexivity | vm_compute; reflexivity]).
Qed.

Lemma resolve_ok o : overrides_double o = true -> thresholds_ok (resolveSelfReputationThresholds o).
Proof.
  unfold overrides_double. cbn [forallb]. rewrite !andb_true_iff. intros (_ & Ht & Hf & Hc & _).
  pose proof default_fields as D. cbv zeta in D.
  destruct D as ((t1 & t2) & (f1 & f2) & (c1 & c2)).
  assert (K : forall (x : option num) d, unit_num d -> is_double d = true ->
    match x with Some v => is_double v | None => true end = true ->
    unit_num (clampFraction (default d x) d) /\ is_double (clampFraction (default d x) d) = true).
  { intros x d Ud Dd Hx. apply clampFraction_ok; auto. by destruct x. }
  destruct (K _ _ t1 t2 Ht) as [t3 t4], (K _ _ f1 f2 Hf) as [f3 f4], (K _ _ c1 c2 Hc) as [c3 _].
  unfold resolveSelfReputationThresholds. cbv zeta.
  set (th := clampFraction (default _ (ov_throttleAtRatio o)) _) in *.
  set (fl := clampFraction (default _ (ov_floorAtRatio o)) _) in *.
  clearbody th fl. clear t1 t2 f1 f2 c1 c2 K.
  assert (N1 : is_nan th = false) by (destruct t3 as (? & E & _); rewrite E; reflexivity).
  assert (N2 : is_nan fl = false) by (destruct f3 as (? & E & _); rewrite E; reflexivity).
  destruct (nmax_spec th fl N1 N2) as (M1 & M2 & M3).
  constructor; cbn [minSampleSize throttleAtRatio floorAtRatio minCadenceFactor]; try assumption.
  - destruct (finiteNonNegativeInt_nz (default (minSampleSize DEFAULT_SELF_REPUTATION_THRESHOLDS) (ov_minSampleSize o)))
      as (z & Hz & ->). rewrite nz_max, nz_leb. apply Z.leb_le. lia.
  - destruct M3 as [-> | ->]; assumption.
  - destruct M3 as [-> | ->]; assumption.
Qed.

(** ** The decision *)

(** The throttled branch: the ratio lies in a band of positive width. *)
Lemma in_band r T : thresholds_ok T -> unit_num r ->
  nltb r (throttleAtRatio T) = false -> ngeb r (floorAtRatio T) = false ->
  exists q a f d, r = Fin q /\ throttleAtRatio T = Fin a /\ floorAtRatio T = Fin f
    /\ nsub (Fin f) (Fin a) = Fin d /\ 0 < d /\ 0 <= a /\ a <= q /\ q < f /\ f <= 1.
Proof.
  intros [_ (a & Ea & Ha) (f & Ef & Hf) _ _ Da Df] (q & -> & Hq) L F. rewrite Ea, Ef in *. unfold ngeb in F. num_facts.
  destruct (band_span a f Da Df) as (d & Ed & Hd); try lra. exists q, a, f, d. repeat split; auto; lra.
Qed.

Lemma throttled_unit r T : thresholds_ok T -> unit_num r ->
  nltb r (throttleAtRatio T) = false -> ngeb r (floorAtRatio T) = false ->
  unit_num (band_t r (throttleAtRatio T) (floorAtRatio T)).
Proof.
  intros HT Hr L F. destruct (in_band r T HT Hr L F) as (q & a & f & d & -> & -> & -> & Ed & ?). intuition.
  apply (band_t_range q a f d); auto; lra.
Qed.

Lemma decided_floor T x : thresholds_ok T -> nltb x (minSampleSize T) = false -> is_nan x = false -> nleb (nz 1) x = true.
Proof.
  intros HT H Hx. pose proof (ok_sample T HT) as S. apply nleb_trans with (1 := S).
  assert (is_nan (minSampleSize T) = false) by (destruct (minSampleSize T); [discriminate S | reflexivity ..]).
  rewrite nleb_total in H by assumption. by apply negb_false_iff in H.
Qed.

Lemma finiteNonNegativeInt_not_nan x : is_nan (finiteNonNegativeInt x) = false.
Proof. destruct (finiteNonNegativeInt_nz x) as (z & _ & ->). reflexivity. Qed.

Lemma throttle_cadence_unit h T : thresholds_ok T -> unit_num (cadenceFactor (selfReputationThrottle h T)).
Proof.
  intros HT. pose proof unit_1 as U1.
  unfold selfReputationThrottle. fold (ratio_of h). cbv zeta. destruct (nltb _ (minSampleSize T)) eqn:S; [exact U1 |].
  pose proof (decided_floor T _ HT S (finiteNonNegativeInt_not_nan _)) as D. pose proof (ratio_unit h D) as R.
  destruct (nltb (ratio_of h) _) eqn:L; [exact U1 |]. destruct (ngeb (ratio_of h) _) eqn:F; [exact (ok_cadence T HT) |].
  exact (cadence_unit _ _ (throttled_unit _ _ HT R L F) (ok_cadence T HT)).
Qed.

(** Whatever the (double) overrides and whatever the history, the cadence
    factor is a number between 0 and 1, so it can only slow submissions down;
    fewer decided outcomes than the sample floor, which is at least one, never
    throttle; and an unthrottled decision runs at full cadence. *)
Theorem selfReputationThrottle_bounds overrides history :
  overrides_double overrides = true ->
  let T := resolveSelfReputationThresholds overrides in
  let d := selfReputationThrottle history T in
  nleb (nz 0) (cadenceFactor d) = true /\ nleb (cadenceFactor d) (nz 1) = true
  /\ nleb (nz 1) (minSampleSize T) = true
  /\ (nltb (finiteNonNegativeInt (decided history)) (minSampleSize T) = true ->
      td_throttled d = false /\ unfavorableRatio d = None)
  /\ (td_throttled d = false -> cadenceFactor d = nz 1).
Proof.
  intros HO T d. pose proof (resolve_ok overrides HO) as HT. fold T in HT.
  destruct (unit_bounds _ (throttle_cadence_unit history T HT)) as [B0 B1].
  split; [exact B0 |]. split; [exact B1 |]. split; [exact (ok_sample T HT) |]. unfold d, selfReputationThrottle in *. clearbody T. split.
  - intros S. rewrite S. split; reflexivity.
  - destruct (nltb _ (minSampleSize T)); [reflexivity |]. destruct (nltb _ _); [reflexivity |].
    destruct (ngeb _ _); intros X; discriminate X.
Qed.

Lemma selfReputationThrottle_bounds_witness :
  nleb (cadenceFactor (selfReputationThrottle (mkHistory (nz 10) (nz 7))
         (resolveSelfReputationThresholds (mkOverrides None (Some (rnd (1 # 4))) None (Some (nz 0)))))) (nz 1) = true.
Proof.
  assert (H : overrides_double (mkOverrides None (Some (rnd (1 # 4))) None (Some (nz 0))) = true)
    by (vm_compute; reflexivity).
  exact (proj1 (proj2 (selfReputationThrottle_bounds _ (mkHistory (nz 10) (nz 7)) H))).
Defined.

(** ** The default thresholds *)

Definition default_cadence (d u : num) : num :=
  cadenceFactor (selfReputationThrottle (mkHistory d u) DEFAULT_SELF_REPUTATION_THRESHOLDS).

Lemma default_ok : thresholds_ok DEFAULT_SELF_REPUTATION_THRESHOLDS.
Proof.
  destruct default_fields as ((t1 & t2) & (f1 & f2) & (c1 & _)).
  constructor; try assumption; vm_compute; reflexivity.
Qed.

(** At the far end of the band the interpolation meets the floor. *)
Lemma default_end :
  cadence_at (nz 1) (minCadenceFactor DEFAULT_SELF_REPUTATION_THRESHOLDS)
  = minCadenceFactor DEFAULT_SELF_REPUTATION_THRESHOLDS.
Proof. vm_compute. reflexivity. Qed.

Section Antitone.
Context (T : SelfReputationThresholds) (HT : thresholds_ok T).
Hypothesis Hend : cadence_at (nz 1) (minCadenceFactor T) = minCadenceFactor T.

Lemma cadence_floor t : unit_num t -> nleb (minCadenceFactor T) (cadence_at t (minCadenceFactor T)) = true.
Proof.
  intros Ht. rewrite <- Hend at 1.
  exact (cadence_antitone _ _ _ Ht unit_1 (ok_cadence T HT) (proj2 (unit_bounds _ Ht))).
Qed.

Lemma throttle_floor h : nleb (minCadenceFactor T) (cadenceFactor (selfReputationThrottle h T)) = true.
Proof.
  pose proof (proj2 (unit_bounds _ (ok_cadence T HT))) as H1.
  unfold selfReputationThrottle. fold (ratio_of h). cbv zeta. destruct (nltb _ (minSampleSize T)) eqn:S; [exact H1 |].
  pose proof (decided_floor T _ HT S (finiteNonNegativeInt_not_nan _)) as D. pose proof (ratio_unit h D) as R.
  destruct (nltb (ratio_of h) _) eqn:L; [exact H1 |]. destruct (ngeb (ratio_of h) _) eqn:F.
  - apply nleb_refl. destruct (ok_cadence T HT) as (q & -> & _). reflexivity.
  - exact (cadence_floor _ (throttled_unit _ _ HT R L F)).
Qed.

Lemma throttle_antitone d u1 u2 :
  nleb (finiteNonNegativeInt u1) (finiteNonNegativeInt u2) = true ->
  nleb (cadenceFactor (selfReputationThrottle (mkHistory d u2) T))
       (cadenceFactor (selfReputationThrottle (mkHistory d u1) T)) = true.
Proof.
  intros Hu. pose proof (proj2 (unit_bounds _ (throttle_cadence_unit (mkHistory d u2) T HT))) as L1.
  pose proof (throttle_floor (mkHistory d u1)) as Fl. revert L1 Fl. unfold selfReputationThrottle.
  fold (ratio_of (mkHistory d u1)) (ratio_of (mkHistory d u2)). cbv zeta. cbn [decided].
  destruct (nltb _ (minSampleSize T)) eqn:S; [intros L1 _; exact L1 |].
  pose proof (decided_floor T _ HT S (finiteNonNegativeInt_not_nan _)) as D.
  pose proof (ratio_unit (mkHistory d u1) D) as R1. pose proof (ratio_unit (mkHistory d u2) D) as R2.
  pose proof (ratio_mono d u1 u2 D Hu) as RM.
  set (r1 := ratio_of _) in *. set (r2 := ratio_of (mkHistory d u2)) in *. clearbody r1 r2.
  destruct (nltb r1 _) eqn:L1; [intros H _; exact H |].
  destruct (nltb r2 _) eqn:L2. { rewrite (nleb_nltb_trans _ _ _ RM L2) in L1. discriminate L1. }
  destruct (ngeb r2 _) eqn:F2; [intros _ H; exact H |].
  destruct (ngeb r1 _) eqn:F1. { unfold ngeb in *. rewrite (nleb_trans _ _ _ F1 RM) in F2. discriminate F2. }
  intros _ _. apply cadence_antitone; try (by apply throttled_unit); [exact (ok_cadence T HT) |].
  destruct (in_band r1 T HT R1 L1 F1) as (q1 & a & f & e & -> & Ea & Ef & Ee & He & Ha & Haq & Hqf & Hf).
  destruct (in_band r2 T HT R2 L2 F2) as (q2 & a' & f' & e' & -> & Ea' & Ef' & _ & _ & _ & _ & Hqf' & _).
  rewrite Ea in Ea' |- *. rewrite Ef in Ef' |- *. injection Ea' as <-. injection Ef' as <-. num_facts.
  apply (band_t_mono q1 q2 a f e); auto; lra.
Qed.
End Antitone.

(** Under the default thresholds the cadence never falls below a tenth of
    the normal one, and among histories with the same number of decided
    outcomes it never rises with the number of unfavourable ones. *)
Theorem default_cadence_floor_and_antitone d u1 u2 :
  nleb (minCadenceFactor DEFAULT_SELF_REPUTATION_THRESHOLDS) (default_cadence d u1) = true
  /\ (nleb (finiteNonNegativeInt u1) (finiteNonNegativeInt u2) = true ->
      nleb (default_cadence d u2) (default_cadence d u1) = true).
Proof.
  split; [exact (throttle_floor _ default_ok default_end _) | exact (throttle_antitone _ default_ok default_end d u1 u2)].
Qed.

Lemma default_cadence_floor_and_antitone_witness :
  nleb (default_cadence (nz 10) (nz 8)) (default_cadence (nz 10) (nz 6)) = true.
Proof.
  refine (proj2 (default_cadence_floor_and_antitone (nz 10) (nz 6) (nz 8)) _). vm_compute. reflexivity.
Defined.

(** Above three decimals of configured floor the documented range
    [minCadenceFactor, 1] is missed: rounding to thousandths goes below it. *)
Theorem cadence_can_miss_floor :
  let T := resolveSelfReputationThresholds (mkOverrides None None None (Some (rnd (1004 # 10000)))) in
  let d := selfReputationThrottle (mkHistory (nz 100000) (nz 89999)) T in
  td_throttled d = true /\ nltb (cadenceFactor d) (minCadenceFactor T) = true.
Proof. vm_compute. split; reflexivity. Qed.
