(* ===== verification/SelfPlagiarism.v ===== *)
(** * Self-plagiarism check

    Models [governor/self-plagiarism.ts]: is a prospective pull request a
    near-duplicate of the miner's own earlier submissions, and if so, which
    member of the cluster survives?

    Records are compared by object identity in the source ([other !== sibling]),
    so a record carries the identity [or_ref] of its object.  [Date.parse] is
    implementation-defined outside the ISO format: it is the parameter
    [Date_parse], and every result holds for all of them.

    Main results: similarity is a symmetric fraction that is 1 on equal
    fingerprints; the verdict is [allowed] in exactly two situations; no two
    near-duplicates can both win; fingerprints do not depend on path order. *)

From stdpp Require Import base list strings option sorting.
From Stdlib Require Import QArith ZArith Ascii Lia Lqa.
From S2P Require Import Prelude JsNumber JsString Ledger RateLimit.

Local Open Scope nat_scope.
Local Open Scope string_scope.
Local Open Scope js_scope.

(** ** Data *)

Definition DEFAULT_SELF_PLAGIARISM_SIMILARITY_THRESHOLD : num := rnd (85 # 100).

Record SelfPlagiarismConfig := mkPlagConfig { similarityThreshold : num }.

Definition DEFAULT_SELF_PLAGIARISM_CONFIG : SelfPlagiarismConfig :=
  mkPlagConfig DEFAULT_SELF_PLAGIARISM_SIMILARITY_THRESHOLD.

Record OwnSubmissionRecord := mkRecord {
  or_ref : nat;
  or_repoFullName : string;
  or_fingerprint : option string;
  or_submittedAt : option string;
  or_pullRequestNumber : option num;
  or_issueNumber : option num;
}.

Record SelfPlagiarismVerdict := mkPlagVerdict {
  pv_allowed : bool;
  pv_eventType : GovernorLedgerEventType;
  pv_reason : string;
  pv_matchedSubmission : option OwnSubmissionRecord;
  pv_similarity : option num;
}.

(** ** Fingerprints *)

Definition normalizeThreshold (value : num) : num :=
  if negb (is_finite value) then DEFAULT_SELF_PLAGIARISM_SIMILARITY_THRESHOLD
  else nmin (nz 1) (nmax (nz 0) value).

Definition normalizeFingerprint (value : option string) : option string :=
  match value with
  | None => None
  | Some s => let trimmed := toLowerCase (trim s) in if str_empty trimmed then None else Some trimmed
  end.

(** The separator class [[\s:,]]. *)
Definition token_sep (c : ascii) : bool := is_space c || Ascii.eqb c ":" || Ascii.eqb c ",".

Definition tokenSet (fingerprint : string) : list string :=
  js_set (List.filter (fun t => negb (str_empty t)) (List.map trim (split_runs token_sep fingerprint))).

Definition fingerprintSimilarity (left right : string) : num :=
  let setLeft := tokenSet (normalizeFingerprint (Some left) ?? "") in
  let setRight := tokenSet (normalizeFingerprint (Some right) ?? "") in
  if Nat.eqb (List.length setLeft) 0 && Nat.eqb (List.length setRight) 0 then nz 1
  else if Nat.eqb (List.length setLeft) 0 || Nat.eqb (List.length setRight) 0 then nz 0
  else
    let intersection := List.length (List.filter (set_has setRight) setLeft) in
    let union := List.length setLeft + List.length setRight - intersection in
    ndiv (nnat intersection) (nnat union).

(** [paths.filter(typeof path === "string").map(trim).filter(nonempty)]. *)
Definition changed_paths (paths : list jsval) : list string :=
  List.filter (fun p => negb (str_empty p))
    (List.map trim (omap (fun v => match v with JStr s => Some s | _ => None end) paths)).

Definition fingerprintFromChangedFiles (paths : list jsval) : string :=
  join "," (merge_sort String.le (js_set (changed_paths paths))).

(** ** The election *)

Section Check.
Context (Date_parse : string -> num).

Definition submissionTimeMs (value : option string) : option num :=
  match value with
  | None => None
  | Some s => if str_empty s then None
              else let parsed := Date_parse s in if is_finite parsed then Some parsed else None
  end.

Definition finite_field (o : option num) : option num :=
  match o with Some n => if is_finite n then Some n else None | None => None end.

Definition submissionNumber (record : OwnSubmissionRecord) : num :=
  match finite_field (or_pullRequestNumber record) with
  | Some n => n
  | None => finite_field (or_issueNumber record) ?? nz 0
  end.

Definition repoTieBreaker (record : OwnSubmissionRecord) : string :=
  toLowerCase (trim (or_repoFullName record)).

(** A [null] time compares as zero; the callers have excluded it. *)
Definition submissionPrecedesSibling (candidate sibling : OwnSubmissionRecord) : bool :=
  let candidateTime := submissionTimeMs (or_submittedAt candidate) ?? nz 0 in
  let siblingTime := submissionTimeMs (or_submittedAt sibling) ?? nz 0 in
  if nltb siblingTime candidateTime then false
  else if ngtb siblingTime candidateTime then true
  else
    let candidateNumber := submissionNumber candidate in
    let siblingNumber := submissionNumber sibling in
    if nltb siblingNumber candidateNumber then false
    else if ngtb siblingNumber candidateNumber then true
    else
      let candidateRepo := repoTieBreaker candidate in
      let siblingRepo := repoTieBreaker sibling in
      if str_empty siblingRepo || str_empty candidateRepo then false
      else str_ltb candidateRepo siblingRepo.

Definition isSelfPlagiarismClusterWinner (candidate : OwnSubmissionRecord)
    (nearDuplicates : list OwnSubmissionRecord) : bool :=
  forallb (submissionPrecedesSibling candidate) nearDuplicates.

Definition resolveSelfPlagiarismWinner (candidate : OwnSubmissionRecord)
    (nearDuplicates : list OwnSubmissionRecord) : option OwnSubmissionRecord :=
  List.find (fun sibling =>
    let rest := List.filter (fun other => negb (Nat.eqb (or_ref other) (or_ref sibling))) nearDuplicates in
    isSelfPlagiarismClusterWinner sibling (candidate :: rest)) nearDuplicates.

Definition buildVerdict (ok : bool) (ev : GovernorLedgerEventType) (reason : string)
    (matched : option OwnSubmissionRecord) (sim : option num) : SelfPlagiarismVerdict :=
  mkPlagVerdict ok ev reason matched sim.

(** One pass over the history: the near-duplicates in order and the best
    similarity among them. *)
Definition scan_prior (threshold : num) (candidatePrint : string)
    (acc : num * list OwnSubmissionRecord) (prior : OwnSubmissionRecord) : num * list OwnSubmissionRecord :=
  match normalizeFingerprint (or_fingerprint prior) with
  | None => acc
  | Some priorPrint =>
      let similarity := fingerprintSimilarity candidatePrint priorPrint in
      if ngeb similarity threshold
      then ((if ngtb similarity (fst acc) then similarity else fst acc), (snd acc ++ [prior])%list)
      else acc
  end.

(** Everything [selfPlagiarismCheck] does once a candidate fingerprint and
    time are known. *)
Definition adjudicate (threshold : num) (candidatePrint : string) (candidate : OwnSubmissionRecord)
    (recent : list OwnSubmissionRecord) : SelfPlagiarismVerdict :=
  let '(bestSimilarity, nearDuplicates) := List.fold_left (scan_prior threshold candidatePrint) recent (nz 0, []) in
  if Nat.eqb (List.length nearDuplicates) 0
  then buildVerdict true allowed "distinct_from_recent_own_submissions" None None
  else if existsb (fun prior => bool_decide (submissionTimeMs (or_submittedAt prior) = None)) nearDuplicates
  then buildVerdict false denied "missing_prior_submitted_at" None None
  else if isSelfPlagiarismClusterWinner candidate nearDuplicates
  then buildVerdict true allowed "earliest_near_duplicate_claimant" None None
  else match resolveSelfPlagiarismWinner candidate nearDuplicates with
       | None => buildVerdict false denied "ambiguous_election_tie" None None
       | Some winner =>
           let matchedPrint := normalizeFingerprint (or_fingerprint winner) ?? "" in
           buildVerdict false throttled "near_duplicate_self_plagiarism" (Some winner)
             (Some (if ngtb bestSimilarity (nz 0) then bestSimilarity
                    else fingerprintSimilarity candidatePrint matchedPrint))
       end.

(** The history is read only when the candidate is complete, so a malformed
    history ([Thrown]) matters only then. *)
Definition selfPlagiarismCheck (candidate : OwnSubmissionRecord)
    (recentOwnSubmissions : completion (list OwnSubmissionRecord)) (config : SelfPlagiarismConfig)
    : completion SelfPlagiarismVerdict :=
  let threshold := normalizeThreshold (similarityThreshold config) in
  match normalizeFingerprint (or_fingerprint candidate) with
  | None => Normal (buildVerdict false denied "missing_candidate_fingerprint" None None)
  | Some candidatePrint =>
      match submissionTimeMs (or_submittedAt candidate) with
      | None => Normal (buildVerdict false denied "missing_candidate_submitted_at" None None)
      | Some _ => recent <- recentOwnSubmissions ;; Normal (adjudicate threshold candidatePrint candidate recent)
      end
  end.
End Check.

Definition buildSelfPlagiarismGovernorLedgerEvent (repo : string) (verdict : SelfPlagiarismVerdict)
    : GovernorLedgerEvent :=
  mkEvent (pv_eventType verdict) (Some repo) "open_pr"
    (if pv_allowed verdict then "allow"
     else if bool_decide (pv_eventType verdict = throttled) then "throttle" else "deny")
    (pv_reason verdict)
    (match pv_matchedSubmission verdict with
     | Some m => [("matchedRepoFullName", JStr (or_repoFullName m));
                  ("matchedPullRequestNumber", jopt JNum (or_pullRequestNumber m));
                  ("matchedIssueNumber", jopt JNum (or_issueNumber m));
                  ("matchedSubmittedAt", jopt JStr (or_submittedAt m));
                  ("similarity", jopt JNum (pv_similarity verdict))]
     | None => []
     end).

(** The fields of an object have distinct names, so the first match is the property. *)
Definition resolveSelfPlagiarismConfig (raw : jsval) : SelfPlagiarismConfig :=
  match raw with
  | JNum n => mkPlagConfig (normalizeThreshold n)
  | JObj fields =>
      mkPlagConfig (normalizeThreshold
        (match List.find (fun f => String.eqb (fst f) "similarityThreshold") fields with
         | Some (_, JNum n) => n
         | _ => DEFAULT_SELF_PLAGIARISM_SIMILARITY_THRESHOLD
         end))
  | _ => DEFAULT_SELF_PLAGIARISM_CONFIG
  end.

(** ** Similarity *)

Lemma tokenSet_nodup f : NoDup (tokenSet f).
Proof. apply js_set_nodup. Qed.

Lemma filter_in_elem (xs ys : list string) x : x ∈ List.filter (set_has ys) xs <-> x ∈ xs /\ x ∈ ys.
Proof. by rewrite list_elem_of_In, List.filter_In, <- list_elem_of_In, set_has_elem. Qed.

Lemma filter_nodup (p : string -> bool) xs : NoDup xs -> NoDup (List.filter p xs).
Proof. rewrite !NoDup_ListNoDup. apply List.NoDup_filter. Qed.

Lemma intersection_comm xs ys : NoDup xs -> NoDup ys ->
  List.length (List.filter (set_has ys) xs) = List.length (List.filter (set_has xs) ys).
Proof.
  intros Hx Hy. apply Permutation_length, NoDup_Permutation; [by apply filter_nodup .. |].
  intros x. rewrite !filter_in_elem. tauto.
Qed.

Lemma intersection_self xs : List.filter (set_has xs) xs = xs.
Proof.
  assert (H : forall ys, (forall x, x ∈ ys -> x ∈ xs) -> List.filter (set_has xs) ys = ys).
  { induction ys as [| y ys IH]; intros Hs; [reflexivity |]. cbn [List.filter].
    rewrite (proj2 (set_has_elem xs y)) by (apply Hs; left). f_equal. apply IH. intros; apply Hs. by right. }
  apply H. auto.
Qed.

(** The similarity of two token lists. *)
Definition jaccard (l r : list string) : num :=
  if Nat.eqb (List.length l) 0 && Nat.eqb (List.length r) 0 then nz 1
  else if Nat.eqb (List.length l) 0 || Nat.eqb (List.length r) 0 then nz 0
  else let i := List.length (List.filter (set_has r) l) in
       ndiv (nnat i) (nnat (List.length l + List.length r - i)).

Lemma jaccard_sym l r : NoDup l -> NoDup r -> jaccard l r = jaccard r l.
Proof.
  intros Hl Hr. unfold jaccard. rewrite (intersection_comm l r Hl Hr), (Nat.add_comm (List.length l)).
  by destruct (Nat.eqb (List.length l) 0), (Nat.eqb (List.length r) 0).
Qed.

Lemma jaccard_frac l r : NoDup l -> NoDup r -> Nat.eqb (List.length l) 0 = false -> Nat.eqb (List.length r) 0 = false ->
  exists i u, (0 <= i <= u)%Z /\ (1 <= u)%Z /\ jaccard l r = rnd (inject_Z i / inject_Z u)
    /\ (l = r -> i = u).
Proof.
  intros Nl Nr Hl Hr. unfold jaccard. rewrite Hl, Hr. apply Nat.eqb_neq in Hl, Hr. cbn [andb orb].
  pose proof (List.filter_length_le (set_has r) l) as Hf. pose proof (List.filter_length_le (set_has l) r) as Hg.
  rewrite <- (intersection_comm l r Nl Nr) in Hg. set (i := List.length (List.filter _ l)) in *.
  set (u := List.length l + List.length r - i). exists (Z.of_nat i), (Z.of_nat u).
  split; [lia |]. split; [lia |]. split.
  - unfold nnat, nz, ndiv. destruct (Qeq_bool (inject_Z (Z.of_nat u)) 0) eqn:E; [| reflexivity].
    apply Qeq_bool_eq in E. unfold Qeq in E; simpl in E. lia.
  - intros <-. unfold u, i. rewrite intersection_self. lia.
Qed.

Lemma jaccard_range l r : NoDup l -> NoDup r -> nleb (nz 0) (jaccard l r) = true /\ nleb (jaccard l r) (nz 1) = true.
Proof.
  intros Nl Nr. destruct (Nat.eqb (List.length l) 0) eqn:El; [| destruct (Nat.eqb (List.length r) 0) eqn:Er].
  - unfold jaccard. rewrite El. by destruct (Nat.eqb (List.length r) 0).
  - unfold jaccard. by rewrite El, Er.
  - destruct (jaccard_frac l r Nl Nr El Er) as (i & u & Hi & Hu & -> & _).
    destruct (rnd_unit _ (frac_unit i u Hi Hu)) as (v & -> & Hv). unfold nz. by rewrite !nleb_fin.
Qed.

Lemma jaccard_same l : NoDup l -> jaccard l l = nz 1.
Proof.
  intros N. destruct (Nat.eqb (List.length l) 0) eqn:El; [unfold jaccard; by rewrite El |].
  destruct (jaccard_frac l l N N El El) as (i & u & Hi & Hu & -> & E). rewrite (E eq_refl).
  rewrite (rnd_comp _ (inject_Z 1)); [apply rnd_int_exact; lia |].
  apply Qmult_inv_r. unfold Qeq; simpl. lia.
Qed.

Lemma fingerprintSimilarity_jaccard l r :
  fingerprintSimilarity l r = jaccard (tokenSet (default "" (normalizeFingerprint (Some l))))
                                      (tokenSet (default "" (normalizeFingerprint (Some r)))).
Proof. reflexivity. Qed.

Lemma similarity_sym l r : fingerprintSimilarity l r = fingerprintSimilarity r l.
Proof. rewrite !fingerprintSimilarity_jaccard. apply jaccard_sym; apply tokenSet_nodup. Qed.

Lemma similarity_range l r :
  nleb (nz 0) (fingerprintSimilarity l r) = true /\ nleb (fingerprintSimilarity l r) (nz 1) = true.
Proof. apply jaccard_range; apply tokenSet_nodup. Qed.

(** Similarity is a number between 0 and 1, symmetric, and exactly 1 when
    the two fingerprints normalize to the same text. *)
Theorem fingerprintSimilarity_metric l r :
  nleb (nz 0) (fingerprintSimilarity l r) = true
  /\ nleb (fingerprintSimilarity l r) (nz 1) = true
  /\ fingerprintSimilarity l r = fingerprintSimilarity r l
  /\ (normalizeFingerprint (Some l) = normalizeFingerprint (Some r) -> fingerprintSimilarity l r = nz 1).
Proof.
  destruct (similarity_range l r) as [R0 R1]. repeat split; auto using similarity_sym.
  intros E. rewrite fingerprintSimilarity_jaccard, E. apply jaccard_same, tokenSet_nodup.
Qed.

Lemma fingerprintSimilarity_metric_witness : fingerprintSimilarity " A,b" "a,B" = nz 1.
Proof. apply fingerprintSimilarity_metric. vm_compute. reflexivity. Defined.

(** A fingerprint depends only on the set of changed paths: not on the
    order they were reported in, on repetitions, or on surrounding blanks. *)
Theorem fingerprintFromChangedFiles_set ps qs :
  (forall p, p ∈ changed_paths ps <-> p ∈ changed_paths qs) ->
  fingerprintFromChangedFiles ps = fingerprintFromChangedFiles qs.
Proof.
  intros H. unfold fingerprintFromChangedFiles. f_equal.
  apply (Sorted_unique String.le); try apply (Sorted_merge_sort String.le).
  rewrite !merge_sort_Permutation. apply NoDup_Permutation; try apply js_set_nodup.
  intros x. rewrite !js_set_elem. apply H.
Qed.

Lemma fingerprintFromChangedFiles_set_witness :
  fingerprintFromChangedFiles [JStr "src/b.ts"; JStr " src/a.ts"; JStr "src/b.ts"; JNull]
  = fingerprintFromChangedFiles [JStr "src/a.ts"; JStr "src/b.ts"].
Proof.
  apply fingerprintFromChangedFiles_set. intros p. vm_compute changed_paths.
  rewrite !list_elem_of_In. simpl. tauto.
Defined.

(** ** The election *)

Lemma str_ltb_asym a b : str_ltb a b = true -> str_ltb b a = false.
Proof.
  unfold str_ltb, String.ltb. rewrite (String.compare_antisym a b).
  by destruct (String.compare b a).
Qed.

(** Is [prior] a near-duplicate of a candidate with this fingerprint? *)
Definition near_duplicate (threshold : num) (candidatePrint : string) (prior : OwnSubmissionRecord) : bool :=
  match normalizeFingerprint (or_fingerprint prior) with
  | None => false
  | Some p => ngeb (fingerprintSimilarity candidatePrint p) threshold
  end.

(** The similarity to a prior, zero without a fingerprint. *)
Definition similarity_to (candidatePrint : string) (prior : OwnSubmissionRecord) : num :=
  match normalizeFingerprint (or_fingerprint prior) with
  | None => nz 0
  | Some p => fingerprintSimilarity candidatePrint p
  end.

Section Election.
Context (Date_parse : string -> num).
Notation precedes := (submissionPrecedesSibling Date_parse).
Notation timed r := (submissionTimeMs Date_parse (or_submittedAt r)).

Lemma time_not_nan r : is_nan (default (nz 0) (timed r)) = false.
Proof.
  unfold submissionTimeMs. destruct (or_submittedAt r) as [s |]; [| reflexivity].
  destruct (str_empty s); [reflexivity |]. by destruct (Date_parse s).
Qed.

Lemma number_not_nan r : is_nan (submissionNumber r) = false.
Proof.
  unfold submissionNumber, finite_field. destruct (or_pullRequestNumber r) as [[| | |] |]; try reflexivity;
    destruct (or_issueNumber r) as [[| | |] |]; reflexivity.
Qed.

Lemma precedes_asym a b : precedes a b = true -> precedes b a = false.
Proof.
  unfold submissionPrecedesSibling, ngtb.
  destruct (nltb _ (default (nz 0) (timed a))) eqn:T1; [discriminate |].
  destruct (nltb (default (nz 0) (timed a)) _) eqn:T2; [reflexivity |].
  destruct (nltb _ (submissionNumber a)) eqn:N1; [discriminate |].
  destruct (nltb (submissionNumber a) _) eqn:N2; [reflexivity |].
  destruct (str_empty (repoTieBreaker b)), (str_empty (repoTieBreaker a)); try discriminate; try reflexivity.
  apply str_ltb_asym.
Qed.

Lemma scan_step threshold p acc prior :
  snd (scan_prior threshold p acc prior)
    = (snd acc ++ if near_duplicate threshold p prior then [prior] else [])%list
  /\ fst (scan_prior threshold p acc prior)
    = if near_duplicate threshold p prior && ngtb (similarity_to p prior) (fst acc)
      then similarity_to p prior else fst acc.
Proof.
  unfold scan_prior, near_duplicate, similarity_to. destruct (normalizeFingerprint (or_fingerprint prior)) as [q |].
  - destruct (ngeb _ _); [split; reflexivity |]. by rewrite app_nil_r.
  - by rewrite app_nil_r.
Qed.

Lemma scan_near threshold p recent acc :
  snd (List.fold_left (scan_prior threshold p) recent acc)
  = (snd acc ++ List.filter (near_duplicate threshold p) recent)%list.
Proof.
  revert acc. induction recent as [| r recent IH]; intros acc; simpl; [by rewrite app_nil_r |].
  rewrite IH. destruct (scan_step threshold p acc r) as [-> _].
  destruct (near_duplicate threshold p r); by rewrite <- app_assoc.
Qed.

(** The running best is the largest similarity seen, starting from [fst acc]. *)
Lemma scan_best threshold p recent acc : is_nan (fst acc) = false ->
  let best := fst (List.fold_left (scan_prior threshold p) recent acc) in
  is_nan best = false /\ nleb (fst acc) best = true
  /\ Forall (fun r => nleb (similarity_to p r) best = true) (List.filter (near_duplicate threshold p) recent)
  /\ (best = fst acc \/ Exists (fun r => best = similarity_to p r) (List.filter (near_duplicate threshold p) recent)).
Proof.
  assert (HN : forall r, is_nan (similarity_to p r) = false).
  { intros r. unfold similarity_to. destruct (normalizeFingerprint (or_fingerprint r)) as [q |]; [| reflexivity].
    destruct (similarity_range p q) as [H _]. by destruct (fingerprintSimilarity p q). }
  revert acc. induction recent as [| r recent IH]; intros acc Ha; cbv zeta; simpl List.fold_left.
  { split; [exact Ha |]. split; [by apply nleb_refl |]. split; [constructor | by left]. }
  destruct (scan_step threshold p acc r) as [_ Ef]. cbn [List.filter].
  destruct (near_duplicate threshold p r) eqn:Nd; cbn [andb] in Ef.
  2: { rewrite <- Ef in Ha. rewrite <- Ef. apply IH. exact Ha. }
  destruct (ngtb (similarity_to p r) (fst acc)) eqn:G; unfold ngtb in G.
  - destruct (IH (scan_prior threshold p acc r)) as (B1 & B2 & B3 & B4); [rewrite Ef; apply HN |]. rewrite Ef in B2, B4.
    split; [exact B1 |]. split; [eapply nleb_trans; [apply nltb_nleb; exact G | exact B2] |].
    split; [by constructor |]. destruct B4 as [B4 | B4]; right; [by left | by right].
  - destruct (IH (scan_prior threshold p acc r)) as (B1 & B2 & B3 & B4); [by rewrite Ef |]. rewrite Ef in B2, B4.
    split; [exact B1 |]. split; [exact B2 |]. split.
    + constructor; [| exact B3]. eapply nleb_trans; [| exact B2].
      rewrite nleb_total in G by auto. by apply negb_false_iff in G.
    + destruct B4 as [B4 | B4]; [by left | right; by right].
Qed.

(** [adjudicate] in terms of the near-duplicates. *)
Lemma adjudicate_near threshold p candidate recent :
  let near := List.filter (near_duplicate threshold p) recent in
  pv_allowed (adjudicate Date_parse threshold p candidate recent) = true <->
  near = [] \/ (Forall (fun r => timed r <> None) near /\ Forall (fun r => precedes candidate r = true) near).
Proof.
  cbv zeta. unfold adjudicate. pose proof (scan_near threshold p recent (nz 0, [])) as Es. simpl in Es.
  destruct (List.fold_left _ recent _) as [best near]. simpl in Es. subst near.
  set (near := List.filter _ recent). destruct near as [| r near'] eqn:En; [simpl; tauto |]. rewrite <- En.
  assert (Hne : near <> []) by (by rewrite En). clearbody near. clear En r near'.
  assert (El : Nat.eqb (List.length near) 0 = false) by (destruct near; [done | reflexivity]). rewrite El.
  destruct (existsb _ near) eqn:Ex.
  { apply existsb_exists in Ex as (r & Hr & Hb). apply bool_decide_eq_true in Hb. split; [discriminate |].
    intros [? | [Ht _]]; [done |]. rewrite Forall_forall in Ht. destruct (Ht r); [by apply list_elem_of_In | done]. }
  assert (Ht : Forall (fun r => timed r <> None) near).
  { apply Forall_forall. intros r Hr E. rewrite <- not_true_iff_false in Ex. apply Ex, existsb_exists.
    exists r. split; [by apply list_elem_of_In | by apply bool_decide_eq_true]. }
  unfold isSelfPlagiarismClusterWinner. destruct (forallb _ near) eqn:F.
  - split; [| reflexivity]. intros _. right. split; [exact Ht |]. rewrite forallb_forall in F.
    apply Forall_forall. intros r Hr. apply F. by apply list_elem_of_In.
  - split; [destruct (resolveSelfPlagiarismWinner _ _ _); discriminate |].
    intros [? | [_ Hp]]; [done |]. rewrite <- not_true_iff_false in F. destruct F. apply forallb_forall.
    intros r Hr. rewrite Forall_forall in Hp. apply Hp. by apply list_elem_of_In.
Qed.
End Election.

Definition near_of (config : SelfPlagiarismConfig) (print : string) (recent : list OwnSubmissionRecord)
    : list OwnSubmissionRecord :=
  List.filter (near_duplicate (normalizeThreshold (similarityThreshold config)) print) recent.

Lemma adjudicate_event Date_parse threshold p candidate recent :
  let v := adjudicate Date_parse threshold p candidate recent in
  pv_eventType v = allowed <-> pv_allowed v = true.
Proof.
  unfold adjudicate. destruct (List.fold_left _ _ _) as [best near]. repeat case_match; simpl; intuition discriminate.
Qed.

(** Fail closed.  The check lets a candidate through exactly when its
    fingerprint and time are known, its history is readable, and either no
    earlier submission is a near-duplicate or every near-duplicate has a known
    time and loses the election against the candidate. *)
Theorem selfPlagiarismCheck_allowed_iff Date_parse candidate recent config v :
  selfPlagiarismCheck Date_parse candidate recent config = Normal v ->
  (pv_eventType v = allowed <-> pv_allowed v = true)
  /\ (pv_allowed v = true <->
      exists print history,
        normalizeFingerprint (or_fingerprint candidate) = Some print
        /\ submissionTimeMs Date_parse (or_submittedAt candidate) <> None
        /\ recent = Normal history
        /\ (near_of config print history = []
            \/ (Forall (fun r => submissionTimeMs Date_parse (or_submittedAt r) <> None) (near_of config print history)
                /\ Forall (fun r => submissionPrecedesSibling Date_parse candidate r = true)
                     (near_of config print history)))).
Proof.
  unfold selfPlagiarismCheck.
  destruct (normalizeFingerprint (or_fingerprint candidate)) as [p |] eqn:Ep.
  2: { intros [= <-]. split; [simpl; intuition discriminate |]. split; [discriminate | naive_solver]. }
  destruct (submissionTimeMs Date_parse (or_submittedAt candidate)) as [t |] eqn:Et.
  2: { intros [= <-]. split; [simpl; intuition discriminate |]. split; [discriminate | naive_solver]. }
  destruct recent as [h | m]; [| discriminate]. cbn [cbind]. intros [= <-].
  split; [apply adjudicate_event |]. rewrite adjudicate_near. fold (near_of config p h). split.
  - intros H. exists p, h. repeat split; auto; discriminate.
  - intros (p' & h' & [= <-] & _ & [= <-] & H). exact H.
Qed.

Definition length_clock (s : string) : num := nz (Z.of_nat (String.length s)).
Definition rec_a : OwnSubmissionRecord := mkRecord 1 "acme/w" (Some "src/a.ts,src/b.ts") (Some "1") None None.
Definition rec_b : OwnSubmissionRecord := mkRecord 2 "acme/w" (Some "src/b.ts,src/a.ts") (Some "12") None None.

Lemma selfPlagiarismCheck_allowed_iff_witness :
  exists v, selfPlagiarismCheck length_clock rec_a (Normal [rec_b]) DEFAULT_SELF_PLAGIARISM_CONFIG = Normal v
  /\ pv_eventType v = allowed.
Proof.
  eexists. split; [reflexivity |].
  refine (proj2 (proj1 (selfPlagiarismCheck_allowed_iff length_clock rec_a (Normal [rec_b])
    DEFAULT_SELF_PLAGIARISM_CONFIG _ eq_refl)) _).
  vm_compute. reflexivity.
Defined.

(** No two survivors.  When two submissions are near-duplicates of each
    other, each in the other's history, the election cannot let both through,
    whatever else the two histories hold and however ties fall. *)
Theorem near_duplicates_exclude Date_parse config a b pa pb ha hb va vb :
  b ∈ ha -> a ∈ hb ->
  normalizeFingerprint (or_fingerprint a) = Some pa -> normalizeFingerprint (or_fingerprint b) = Some pb ->
  ngeb (fingerprintSimilarity pa pb) (normalizeThreshold (similarityThreshold config)) = true ->
  selfPlagiarismCheck Date_parse a (Normal ha) config = Normal va ->
  selfPlagiarismCheck Date_parse b (Normal hb) config = Normal vb ->
  pv_allowed va && pv_allowed vb = false.
Proof.
  intros Hb Ha Pa Pb Sim Ea Eb. apply not_true_iff_false. intros H. apply andb_true_iff in H as [Va Vb].
  unfold selfPlagiarismCheck in Ea, Eb. rewrite Pa in Ea. rewrite Pb in Eb.
  destruct (submissionTimeMs Date_parse (or_submittedAt a)); [| injection Ea as <-; discriminate Va].
  destruct (submissionTimeMs Date_parse (or_submittedAt b)); [| injection Eb as <-; discriminate Vb].
  cbn [cbind] in Ea, Eb. injection Ea as <-. injection Eb as <-. rewrite adjudicate_near in Va, Vb.
  set (th := normalizeThreshold _) in *.
  assert (Nb : b ∈ List.filter (near_duplicate th pa) ha).
  { apply list_elem_of_In, List.filter_In. split; [by apply list_elem_of_In |]. unfold near_duplicate. by rewrite Pb. }
  assert (Na : a ∈ List.filter (near_duplicate th pb) hb).
  { apply list_elem_of_In, List.filter_In. split; [by apply list_elem_of_In |]. unfold near_duplicate.
    rewrite Pa, similarity_sym. exact Sim. }
  destruct Va as [E | [_ Wa]]; [rewrite E in Nb; by apply not_elem_of_nil in Nb |].
  destruct Vb as [E | [_ Wb]]; [rewrite E in Na; by apply not_elem_of_nil in Na |].
  rewrite Forall_forall in Wa, Wb. pose proof (precedes_asym _ _ _ (Wa b Nb)) as X.
  rewrite (Wb a Na) in X. discriminate X.
Qed.

Lemma near_duplicates_exclude_witness :
  match selfPlagiarismCheck length_clock rec_a (Normal [rec_b]) DEFAULT_SELF_PLAGIARISM_CONFIG,
        selfPlagiarismCheck length_clock rec_b (Normal [rec_a]) DEFAULT_SELF_PLAGIARISM_CONFIG with
  | Normal va, Normal vb => pv_allowed va && pv_allowed vb = false
  | _, _ => False
  end.
Proof.
  apply (near_duplicates_exclude length_clock DEFAULT_SELF_PLAGIARISM_CONFIG rec_a rec_b
    "src/a.ts,src/b.ts" "src/b.ts,src/a.ts" [rec_b] [rec_a]);
    first [by left | vm_compute; reflexivity].
Defined.

Lemma resolve_winner Date_parse candidate near w :
  resolveSelfPlagiarismWinner Date_parse candidate near = Some w ->
  w ∈ near /\ submissionPrecedesSibling Date_parse w candidate = true
  /\ Forall (fun r => or_ref r <> or_ref w -> submissionPrecedesSibling Date_parse w r = true) near.
Proof.
  intros H. apply find_some in H as [Hin Hw]. unfold isSelfPlagiarismClusterWinner in Hw. cbn [forallb] in Hw.
  apply andb_true_iff in Hw as [Hc Hr]. split; [by apply list_elem_of_In |]. split; [exact Hc |].
  apply Forall_forall. intros r Hr' Hne. rewrite forallb_forall in Hr. apply Hr, List.filter_In.
  split; [by apply list_elem_of_In |]. by rewrite (proj2 (Nat.eqb_neq _ _)).
Qed.

(** A throttled verdict is backed by evidence: the matched submission is a
    near-duplicate from the history that precedes the candidate and every other
    near-duplicate, and the reported similarity bounds that of every
    near-duplicate. *)
Theorem selfPlagiarismCheck_throttled Date_parse candidate history config v :
  selfPlagiarismCheck Date_parse candidate (Normal history) config = Normal v ->
  pv_eventType v = throttled ->
  exists print winner sim,
    normalizeFingerprint (or_fingerprint candidate) = Some print
    /\ pv_allowed v = false /\ pv_matchedSubmission v = Some winner /\ pv_similarity v = Some sim
    /\ winner ∈ near_of config print history
    /\ submissionPrecedesSibling Date_parse winner candidate = true
    /\ Forall (fun r => or_ref r <> or_ref winner -> submissionPrecedesSibling Date_parse winner r = true)
         (near_of config print history)
    /\ Forall (fun r => nleb (similarity_to print r) sim = true) (near_of config print history).
Proof.
  unfold selfPlagiarismCheck. destruct (normalizeFingerprint (or_fingerprint candidate)) as [p |] eqn:Ep;
    [| intros [= <-] E; discriminate E].
  destruct (submissionTimeMs Date_parse (or_submittedAt candidate)); [| intros [= <-] E; discriminate E].
  cbn [cbind]. intros [= <-]. unfold adjudicate, near_of. set (th := normalizeThreshold _).
  pose proof (scan_near th p history (nz 0, [])) as Es. pose proof (scan_best th p history (nz 0, []) eq_refl) as Bs.
  cbv zeta in Bs. simpl in Es. destruct (List.fold_left _ _ _) as [best near]. simpl in Es, Bs.
  subst near. set (near := List.filter _ history) in *. destruct Bs as (Bn & B0 & Bmax & _).
  destruct (Nat.eqb _ 0); [intros E; discriminate E |]. destruct (existsb _ near); [intros E; discriminate E |].
  destruct (isSelfPlagiarismClusterWinner _ _ _); [intros E; discriminate E |].
  destruct (resolveSelfPlagiarismWinner _ _ near) as [w |] eqn:Ew; [| intros E; discriminate E].
  intros _. destruct (resolve_winner _ _ _ _ Ew) as (Hin & Hc & Hall).
  eexists p, w, _. split; [reflexivity |]. split; [reflexivity |]. split; [reflexivity |]. split; [reflexivity |].
  split; [exact Hin |]. split; [exact Hc |]. split; [exact Hall |].
  unfold ngtb. destruct (nltb (nz 0) best) eqn:Bp; [exact Bmax |].
  rewrite nleb_total in Bp by auto. apply negb_false_iff in Bp. rewrite Forall_forall in Bmax |- *.
  intros r Hr. eapply nleb_trans; [exact (Bmax r Hr) |]. eapply nleb_trans; [exact Bp |]. apply similarity_range.
Qed.

Lemma selfPlagiarismCheck_throttled_witness :
  exists v winner, selfPlagiarismCheck length_clock rec_b (Normal [rec_a]) DEFAULT_SELF_PLAGIARISM_CONFIG = Normal v
  /\ pv_matchedSubmission v = Some winner.
Proof.
  eexists. assert (E := selfPlagiarismCheck_throttled length_clock rec_b [rec_a] DEFAULT_SELF_PLAGIARISM_CONFIG _ eq_refl).
  destruct E as (p & w & s & _ & _ & E & _); [vm_compute; reflexivity |].
  exists w. split; [reflexivity | exact E].
Defined.
