(* ===== verification/Chokepoint.v ===== *)
(** * The governor chokepoint

    Models [governor/chokepoint.ts], the one decision every miner write passes
    through, and [packages/loopover-miner/lib/governor-chokepoint.ts], the gate
    that records the decision and advances the rate-limit state.

    The calculators of the earlier files are the stages of the ladder.  Their
    inputs arrive over an untyped boundary; a malformed one makes the calculator
    throw when it reads it.  Such an input is a [completion]: [Thrown m] is a
    value whose fields cannot be read, [m] the message of the error.  Optional
    inputs are [option]s of that.

    Main results: a write is allowed exactly when every stage passes; the ladder
    is the first-failing-stage specification [Ladder]; errors deny; the gate
    moves rate-limit state only for admitted and rate-limited writes; and over
    whole runs of gated writes the rate limits hold. *)

From stdpp Require Import base list strings option gmap.
From Stdlib Require Import QArith ZArith Lia Lqa.
From S2P Require Import Prelude JsNumber JsString Ledger KillSwitch RateLimit Halt Reputation SelfPlagiarism.

Local Open Scope nat_scope.
Local Open Scope string_scope.
Local Open Scope js_scope.

(** ** Data *)

Inductive GovernorDecisionStage :=
  | stage_kill_switch | stage_dry_run | stage_rate_limit | stage_budget_cap | stage_non_convergence
  | stage_reputation_throttle | stage_self_plagiarism | stage_allow | stage_internal_error.

#[global] Instance GovernorDecisionStage_eq_dec : EqDecision GovernorDecisionStage.
Proof. solve_decision. Defined.

Definition stage_to_string (s : GovernorDecisionStage) : string :=
  match s with
  | stage_kill_switch => "kill_switch" | stage_dry_run => "dry_run" | stage_rate_limit => "rate_limit"
  | stage_budget_cap => "budget_cap" | stage_non_convergence => "non_convergence"
  | stage_reputation_throttle => "reputation_throttle" | stage_self_plagiarism => "self_plagiarism"
  | stage_allow => "allow" | stage_internal_error => "internal_error"
  end.

Definition SELF_SUBMISSION_ACTION_CLASSES : list string := ["open_pr"].

Record GovernorChokepointInput := mkInput {
  gi_actionClass : string;
  gi_repoFullName : string;
  gi_nowMs : num;
  gi_wouldBeAction : jsval;
  gi_killSwitchGlobal : bool;
  gi_killSwitchRepoPaused : option bool;
  gi_liveModeGlobalOptIn : bool;
  gi_liveModeRepoOptIn : jsval;
  gi_rateLimitBuckets : completion WriteRateLimitBucketStore;
  gi_rateLimitBackoffAttempts : completion WriteRateLimitBackoffStore;
  gi_rateLimitPolicies : option (completion WriteRateLimitPolicies);
  gi_rateLimitRandomFn : option (completion num);
  gi_capUsage : completion GovernorCapUsage;
  gi_capLimits : completion GovernorCapLimits;
  gi_convergenceInput : completion PortfolioConvergenceInput;
  gi_convergenceThresholds : option (completion PortfolioConvergenceThresholds);
  gi_reputationHistory : option (completion RepoOutcomeHistory);
  gi_reputationThresholds : option (completion SelfReputationThresholds);
  gi_selfPlagiarismCandidate : option (completion OwnSubmissionRecord);
  gi_selfPlagiarismRecentSubmissions : option (completion (list OwnSubmissionRecord));
  gi_selfPlagiarismConfig : option (completion SelfPlagiarismConfig);
}.

Record GovernorDecisionDetail := mkDetail {
  dt_killSwitchScope : MinerKillSwitchScope;
  dt_mode : MinerActionMode;
  dt_rateLimit : option WriteRateLimitVerdict;
  dt_budgetCap : option GovernorCapReport;
  dt_convergence : option PortfolioConvergenceVerdict;
  dt_reputation : option SelfReputationThrottleDecision;
  dt_selfPlagiarism : option SelfPlagiarismVerdict;
  dt_effectiveRateLimitPolicies : option WriteRateLimitPolicies;
}.

Record GovernorDecision := mkGovDecision {
  gd_allowed : bool;
  gd_mode : MinerActionMode;
  gd_stage : GovernorDecisionStage;
  gd_reason : string;
  gd_detail : GovernorDecisionDetail;
  gd_ledgerEvent : GovernorLedgerEvent;
}.

(** ** Helpers *)

(** A looked-up config is an object, so it is truthy whenever it is present. *)
Definition scaleRateLimitPerRepoWindow (policies : WriteRateLimitPolicies) (actionClass : string)
    (cadenceFactor : num) : WriteRateLimitPolicies :=
  match pol_perRepo policies !! actionClass with
  | None => policies
  | Some perRepoConfig =>
      let safeFactor := if ngtb cadenceFactor (nz 0) then cadenceFactor else rnd (1 # 1000) in
      mkPolicies (pol_global policies)
        (<[actionClass := mkConfig (limit perRepoConfig) (nround (ndiv (windowMs perRepoConfig) safeFactor))]>
           (pol_perRepo policies))
        (backoffBaseMs policies)
  end.

Definition denyResult (stage : GovernorDecisionStage) (reason : string) (mode : MinerActionMode)
    (detail : GovernorDecisionDetail) (ev : GovernorLedgerEventType) (actionClass repo : string)
    (extraPayload : list (string * jsval)) : GovernorDecision :=
  mkGovDecision false mode stage reason detail
    (mkEvent ev (Some repo) actionClass
      (match ev with kill_switch => "paused" | throttled => "throttle" | _ => "deny" end)
      reason (("stage", JStr (stage_to_string stage)) :: extraPayload)).

Definition dimension_value (d : GovernorCapDimension) : jsval :=
  JObj [("limit", JNum (dim_limit d)); ("used", JNum (dim_used d));
        ("remaining", JNum (dim_remaining d)); ("exceeded", JBool (dim_exceeded d))].

(** [x ?? DEFAULT] on an optional input that may be malformed. *)
Definition orDefault {A} (o : option (completion A)) (d : A) : completion A := o ?? Normal d.

(** A stage either returns the decision early or hands a value to the rest. *)
Inductive staged (A : Type) : Type :=
| Return (d : GovernorDecision)
| Continue (a : A).
Arguments Return {A} d.
Arguments Continue {A} a.

(** ** The ladder *)

Section Chokepoint.
Context (Date_parse : string -> num).

Definition isSelfSubmissionAction (input : GovernorChokepointInput) : bool :=
  set_has SELF_SUBMISSION_ACTION_CLASSES (gi_actionClass input).

Definition base_detail (scope : MinerKillSwitchScope) (mode : MinerActionMode) : GovernorDecisionDetail :=
  mkDetail scope mode None None None None None None.

Definition internal_error (input : GovernorChokepointInput) (what : string) (mode : MinerActionMode)
    (detail : GovernorDecisionDetail) (m : string) : GovernorDecision :=
  denyResult stage_internal_error (what ++ ": " ++ m) mode detail denied
    (gi_actionClass input) (gi_repoFullName input) [].

(** The calls the ladder makes, with the errors they can throw. *)
Definition call_reputation (input : GovernorChokepointInput) (h : completion RepoOutcomeHistory)
    : completion SelfReputationThrottleDecision :=
  history <- h ;;
  thresholds <- orDefault (gi_reputationThresholds input) DEFAULT_SELF_REPUTATION_THRESHOLDS ;;
  Normal (selfReputationThrottle history thresholds).

Definition call_rate_limit (input : GovernorChokepointInput) (policies : option (completion WriteRateLimitPolicies))
    : completion WriteRateLimitVerdict :=
  backoff <- gi_rateLimitBackoffAttempts input ;;
  buckets <- gi_rateLimitBuckets input ;;
  pol <- orDefault policies DEFAULT_WRITE_RATE_LIMIT_POLICIES ;;
  evaluateWriteRateLimit (gi_actionClass input) (gi_repoFullName input) buckets backoff (Some pol)
    (gi_nowMs input) (gi_rateLimitRandomFn input).

Definition call_caps (input : GovernorChokepointInput) : completion GovernorCapReport :=
  usage <- gi_capUsage input ;;
  limits <- gi_capLimits input ;;
  Normal (evaluateGovernorCaps usage limits).

Definition call_convergence (input : GovernorChokepointInput) : completion PortfolioConvergenceVerdict :=
  conv <- gi_convergenceInput input ;;
  thresholds <- orDefault (gi_convergenceThresholds input) DEFAULT_PORTFOLIO_CONVERGENCE_THRESHOLDS ;;
  Normal (classifyPortfolioConvergence conv thresholds).

Definition call_self_plagiarism (input : GovernorChokepointInput) (c : completion OwnSubmissionRecord)
    : completion SelfPlagiarismVerdict :=
  config <- orDefault (gi_selfPlagiarismConfig input) DEFAULT_SELF_PLAGIARISM_CONFIG ;;
  candidate <- c ;;
  selfPlagiarismCheck Date_parse candidate (gi_selfPlagiarismRecentSubmissions input ?? Normal []) config.

(** The reputation verdict, computed before the rate limit. *)
Definition stage_reputation (input : GovernorChokepointInput) (mode : MinerActionMode)
    (baseDetail : GovernorDecisionDetail) : staged (option SelfReputationThrottleDecision) :=
  match isSelfSubmissionAction input, gi_reputationHistory input with
  | true, Some h =>
      match call_reputation input h with
      | Normal r => Continue (Some r)
      | Thrown m => Return (internal_error input "reputation_throttle_calculator_error" mode baseDetail m)
      end
  | _, _ => Continue None
  end.

Definition throttles_cadence (reputation : option SelfReputationThrottleDecision) : option num :=
  match reputation with
  | Some r => if nltb (cadenceFactor r) (nz 1) then Some (cadenceFactor r) else None
  | None => None
  end.

(** Outside every [try]: reading malformed policies here throws. *)
Definition effective_policies (input : GovernorChokepointInput)
    (reputation : option SelfReputationThrottleDecision) : completion (option (completion WriteRateLimitPolicies)) :=
  match throttles_cadence reputation with
  | Some factor =>
      pol <- orDefault (gi_rateLimitPolicies input) DEFAULT_WRITE_RATE_LIMIT_POLICIES ;;
      Normal (Some (Normal (scaleRateLimitPerRepoWindow pol (gi_actionClass input) factor)))
  | None => Normal (gi_rateLimitPolicies input)
  end.

Definition stage_rate (input : GovernorChokepointInput) (mode : MinerActionMode) (base : GovernorDecisionDetail)
    (reputation : option SelfReputationThrottleDecision) (policies : option (completion WriteRateLimitPolicies))
    : staged GovernorDecisionDetail :=
  match call_rate_limit input policies with
  | Thrown m => Return (internal_error input "rate_limit_calculator_error" mode base m)
  | Normal rateLimit =>
      let detail := mkDetail (dt_killSwitchScope base) mode (Some rateLimit) None None None None
        (match orDefault policies DEFAULT_WRITE_RATE_LIMIT_POLICIES with Normal p => Some p | Thrown _ => None end) in
      if negb (wv_allowed rateLimit)
      then Return (denyResult stage_rate_limit (wv_reason rateLimit) mode detail throttled
             (gi_actionClass input) (gi_repoFullName input)
             (("retryAfterMs", JNum (wv_retryAfterMs rateLimit))
              :: ("blockedBy", jopt (fun b => JStr (blockedBy_to_string b)) (wv_blockedBy rateLimit))
              :: match throttles_cadence reputation with
                 | Some factor => [("reputationCadenceFactor", JNum factor)]
                 | None => []
                 end))
      else Continue detail
  end.

Definition with_budget (d : GovernorDecisionDetail) (r : GovernorCapReport) : GovernorDecisionDetail :=
  mkDetail (dt_killSwitchScope d) (dt_mode d) (dt_rateLimit d) (Some r) (dt_convergence d) (dt_reputation d)
    (dt_selfPlagiarism d) (dt_effectiveRateLimitPolicies d).
Definition with_convergence (d : GovernorDecisionDetail) (c : PortfolioConvergenceVerdict) : GovernorDecisionDetail :=
  mkDetail (dt_killSwitchScope d) (dt_mode d) (dt_rateLimit d) (dt_budgetCap d) (Some c) (dt_reputation d)
    (dt_selfPlagiarism d) (dt_effectiveRateLimitPolicies d).
Definition with_reputation (d : GovernorDecisionDetail) (r : SelfReputationThrottleDecision) : GovernorDecisionDetail :=
  mkDetail (dt_killSwitchScope d) (dt_mode d) (dt_rateLimit d) (dt_budgetCap d) (dt_convergence d) (Some r)
    (dt_selfPlagiarism d) (dt_effectiveRateLimitPolicies d).
Definition with_plagiarism (d : GovernorDecisionDetail) (v : SelfPlagiarismVerdict) : GovernorDecisionDetail :=
  mkDetail (dt_killSwitchScope d) (dt_mode d) (dt_rateLimit d) (dt_budgetCap d) (dt_convergence d) (dt_reputation d)
    (Some v) (dt_effectiveRateLimitPolicies d).

Definition stage_budget (input : GovernorChokepointInput) (mode : MinerActionMode) (detail : GovernorDecisionDetail)
    : staged GovernorDecisionDetail :=
  match call_caps input with
  | Thrown m => Return (internal_error input "budget_cap_calculator_error" mode detail m)
  | Normal budgetCap =>
      let detailWithBudget := with_budget detail budgetCap in
      if negb (bool_decide (cap_verdict budgetCap = allowed))
      then Return (denyResult stage_budget_cap ("budget_cap_" ++ eventType_to_string (cap_verdict budgetCap)) mode
             detailWithBudget (cap_verdict budgetCap) (gi_actionClass input) (gi_repoFullName input)
             [("budget", dimension_value (cap_budget budgetCap)); ("turns", dimension_value (cap_turns budgetCap));
              ("termination", dimension_value (cap_termination budgetCap))])
      else Continue detailWithBudget
  end.

Definition stage_convergence (input : GovernorChokepointInput) (mode : MinerActionMode)
    (detail : GovernorDecisionDetail) : staged GovernorDecisionDetail :=
  match call_convergence input with
  | Thrown m => Return (internal_error input "non_convergence_calculator_error" mode detail m)
  | Normal convergence =>
      let detailWithConvergence := with_convergence detail convergence in
      if bool_decide (cvv_status convergence = non_convergent)
      then Return (denyResult stage_non_convergence (join " " (cvv_reasons convergence)) mode detailWithConvergence
             denied (gi_actionClass input) (gi_repoFullName input) [])
      else Continue detailWithConvergence
  end.

Definition is_floored (r : SelfReputationThrottleDecision) : bool :=
  match td_reason r with floored => true | _ => false end.

Definition stage_floor (input : GovernorChokepointInput) (mode : MinerActionMode)
    (reputation : option SelfReputationThrottleDecision) (detail : GovernorDecisionDetail)
    : staged GovernorDecisionDetail :=
  match reputation with
  | None => Continue detail
  | Some r =>
      let detailWithReputation := with_reputation detail r in
      if is_floored r
      then Return (denyResult stage_reputation_throttle (throttle_reason_to_string (td_reason r)) mode
             detailWithReputation throttled (gi_actionClass input) (gi_repoFullName input)
             [("cadenceFactor", JNum (cadenceFactor r)); ("unfavorableRatio", jopt JNum (unfavorableRatio r))])
      else Continue detailWithReputation
  end.

Definition stage_plagiarism (input : GovernorChokepointInput) (mode : MinerActionMode)
    (detail : GovernorDecisionDetail) : staged GovernorDecisionDetail :=
  match isSelfSubmissionAction input, gi_selfPlagiarismCandidate input with
  | true, Some c =>
      match call_self_plagiarism input c with
      | Thrown m => Return (internal_error input "self_plagiarism_calculator_error" mode detail m)
      | Normal v =>
          let finalDetail := with_plagiarism detail v in
          if negb (pv_allowed v)
          then Return (denyResult stage_self_plagiarism (pv_reason v) mode finalDetail (pv_eventType v)
                 (gi_actionClass input) (gi_repoFullName input) [("similarity", jopt JNum (pv_similarity v))])
          else Continue finalDetail
      end
  | _, _ => Continue detail
  end.

Definition sbind {A} (s : staged A) (k : A -> completion GovernorDecision) : completion GovernorDecision :=
  match s with Return d => Normal d | Continue a => k a end.

Definition evaluateGovernorChokepoint (input : GovernorChokepointInput) : completion GovernorDecision :=
  let killSwitchScope := resolveMinerKillSwitch (gi_killSwitchGlobal input) (gi_killSwitchRepoPaused input) in
  let mode := resolveMinerActionMode killSwitchScope (gi_liveModeRepoOptIn input) (gi_liveModeGlobalOptIn input) in
  let baseDetail := base_detail killSwitchScope mode in
  if isMinerKillSwitchActive killSwitchScope
  then Normal (denyResult stage_kill_switch (scope_to_string killSwitchScope ++ "_kill_switch_active") mode baseDetail
                 kill_switch (gi_actionClass input) (gi_repoFullName input) [])
  else if negb (minerActionModeExecutes mode)
  then Normal (mkGovDecision false mode stage_dry_run "dry_run_mode_active" baseDetail
                 (mkEvent allowed (Some (gi_repoFullName input)) (gi_actionClass input) "dry_run"
                    "dry_run_mode_active" [("wouldBeAction", gi_wouldBeAction input)]))
  else
    sbind (stage_reputation input mode baseDetail) (fun reputation =>
    policies <- effective_policies input reputation ;;
    sbind (stage_rate input mode baseDetail reputation policies) (fun detailWithRateLimit =>
    sbind (stage_budget input mode detailWithRateLimit) (fun detailWithBudget =>
    sbind (stage_convergence input mode detailWithBudget) (fun detailWithConvergence =>
    sbind (stage_floor input mode reputation detailWithConvergence) (fun detailWithReputation =>
    sbind (stage_plagiarism input mode detailWithReputation) (fun finalDetail =>
    Normal (mkGovDecision true mode stage_allow "all_governor_checks_passed" finalDetail
      (mkEvent allowed (Some (gi_repoFullName input)) (gi_actionClass input) "allow"
         "all_governor_checks_passed" [])))))))).

(** ** The gate *)

Section Gate.
Context {Row : Type}.

Record ChokepointGateResult := mkGateResult {
  cg_decision : GovernorDecision;
  cg_recorded : Row;
  cg_rateLimitBuckets : completion WriteRateLimitBucketStore;
  cg_rateLimitBackoffAttempts : completion WriteRateLimitBackoffStore;
}.

Definition evaluateGovernorChokepointGate (append : GovernorLedgerEvent -> completion Row)
    (input : GovernorChokepointInput) : completion ChokepointGateResult :=
  decision <- evaluateGovernorChokepoint input ;;
  recorded <- append (gd_ledgerEvent decision) ;;
  match gd_stage decision with
  | stage_allow =>
      buckets <- gi_rateLimitBuckets input ;;
      policies <- (match dt_effectiveRateLimitPolicies (gd_detail decision) with
                   | Some p => Normal p
                   | None => orDefault (gi_rateLimitPolicies input) DEFAULT_WRITE_RATE_LIMIT_POLICIES
                   end) ;;
      backoff <- gi_rateLimitBackoffAttempts input ;;
      Normal (mkGateResult decision recorded
        (Normal (recordWriteRateLimitAllowed buckets (gi_actionClass input) (gi_repoFullName input)
                   (gi_nowMs input) policies))
        (Normal (clearWriteRateLimitBackoff backoff (gi_actionClass input) (gi_repoFullName input))))
  | stage_rate_limit =>
      backoff <- gi_rateLimitBackoffAttempts input ;;
      Normal (mkGateResult decision recorded (gi_rateLimitBuckets input)
        (Normal (recordWriteRateLimitDenied backoff (gi_actionClass input) (gi_repoFullName input))))
  | _ => Normal (mkGateResult decision recorded (gi_rateLimitBuckets input) (gi_rateLimitBackoffAttempts input))
  end.
End Gate.
End Chokepoint.
Arguments ChokepointGateResult : clear implicits.

(** ** Specification: the first stage that does not pass

    The documented precedence, as data: each stage passes, blocks, or is broken
    (its calculator threw).  The verdict is the first stage that does not pass;
    a broken stage reads [internal_error]. *)

Module Ladder.

Inductive check := Pass | Block | Broken.

Definition of_completion {A} (ok : A -> bool) (c : completion A) : check :=
  match c with Normal a => if ok a then Pass else Block | Thrown _ => Broken end.

Definition of_bool (b : bool) : check := if b then Pass else Block.

Definition reputation_of (input : GovernorChokepointInput) : option (completion SelfReputationThrottleDecision) :=
  if isSelfSubmissionAction input then call_reputation input <$> gi_reputationHistory input else None.

Definition known_reputation (input : GovernorChokepointInput) : option SelfReputationThrottleDecision :=
  match reputation_of input with Some (Normal r) => Some r | _ => None end.

(** The policies the rate-limit stage is evaluated against. *)
Definition policies_of (input : GovernorChokepointInput) : option (completion WriteRateLimitPolicies) :=
  match effective_policies input (known_reputation input) with
  | Normal p => p
  | Thrown m => Some (Thrown m)
  end.

Definition plagiarism_of (Date_parse : string -> num) (input : GovernorChokepointInput)
    : option (completion SelfPlagiarismVerdict) :=
  if isSelfSubmissionAction input then call_self_plagiarism Date_parse input <$> gi_selfPlagiarismCandidate input
  else None.

Definition mode_of (input : GovernorChokepointInput) : MinerActionMode :=
  resolveMinerActionMode (resolveMinerKillSwitch (gi_killSwitchGlobal input) (gi_killSwitchRepoPaused input))
    (gi_liveModeRepoOptIn input) (gi_liveModeGlobalOptIn input).

Definition checks (Date_parse : string -> num) (input : GovernorChokepointInput) : list (GovernorDecisionStage * check) :=
  [(stage_kill_switch,
      of_bool (negb (isMinerKillSwitchActive
        (resolveMinerKillSwitch (gi_killSwitchGlobal input) (gi_killSwitchRepoPaused input)))));
   (stage_dry_run, of_bool (minerActionModeExecutes (mode_of input)));
   (stage_internal_error, match reputation_of input with Some (Thrown _) => Broken | _ => Pass end);
   (stage_rate_limit, of_completion wv_allowed (call_rate_limit input (policies_of input)));
   (stage_budget_cap, of_completion (fun r => bool_decide (cap_verdict r = allowed)) (call_caps input));
   (stage_non_convergence,
      of_completion (fun c => negb (bool_decide (cvv_status c = non_convergent))) (call_convergence input));
   (stage_reputation_throttle, match known_reputation input with Some r => of_bool (negb (is_floored r)) | None => Pass end);
   (stage_self_plagiarism,
      match plagiarism_of Date_parse input with Some v => of_completion pv_allowed v | None => Pass end)].

Fixpoint first_failing (cs : list (GovernorDecisionStage * check)) : GovernorDecisionStage :=
  match cs with
  | [] => stage_allow
  | (s, Pass) :: cs => first_failing cs
  | (s, Block) :: _ => s
  | (_, Broken) :: _ => stage_internal_error
  end.

Lemma first_failing_allow cs :
  Forall (fun c => fst c <> stage_allow) cs -> first_failing cs = stage_allow <-> Forall (fun c => snd c = Pass) cs.
Proof.
  induction cs as [| [s c] cs IH]; intros H; [by split |].
  inversion H as [| ? ? Hs Hcs]; subst. destruct c; simpl.
  - rewrite (IH Hcs). split; [by constructor | by inversion 1].
  - simpl in Hs. split; [done | by inversion 1].
  - split; [done | by inversion 1].
Qed.

End Ladder.

Import Ladder.

Section Refinement.
Context (Date_parse : string -> num).
Notation evaluate := (evaluateGovernorChokepoint Date_parse).

(** The policies a rate-limit verdict was reached with. *)
Definition used_policies (i : GovernorChokepointInput) : option WriteRateLimitPolicies :=
  match orDefault (policies_of i) DEFAULT_WRITE_RATE_LIMIT_POLICIES with Normal p => Some p | Thrown _ => None end.

(** What every decision of the ladder satisfies. *)
Definition coherent (i : GovernorChokepointInput) (stage : GovernorDecisionStage) (d : GovernorDecision) : Prop :=
  gd_stage d = stage /\ gd_allowed d = bool_decide (stage = stage_allow)
  /\ (decision (gd_ledgerEvent d) = "allow" <-> stage = stage_allow)
  /\ reason (gd_ledgerEvent d) = gd_reason d
  /\ (stage = stage_allow -> dt_effectiveRateLimitPolicies (gd_detail d) = used_policies i).

Lemma coherent_deny i stage reason mode detail ev action repo extra : stage <> stage_allow ->
  coherent i stage (denyResult stage reason mode detail ev action repo extra).
Proof.
  intros H. unfold coherent, denyResult; simpl. rewrite bool_decide_eq_false_2 by done.
  split; [done |]. split; [done |]. split; [destruct ev; naive_solver |]. split; [done | by intros ?].
Qed.

(** The final verdict, from the details gathered on the way. *)
Definition allow_result (i : GovernorChokepointInput) (mode : MinerActionMode) (detail : GovernorDecisionDetail)
    : GovernorDecision :=
  mkGovDecision true mode stage_allow "all_governor_checks_passed" detail
    (mkEvent allowed (Some (gi_repoFullName i)) (gi_actionClass i) "allow" "all_governor_checks_passed" []).

Lemma coherent_allow i mode detail : dt_effectiveRateLimitPolicies detail = used_policies i ->
  coherent i stage_allow (allow_result i mode detail).
Proof. intros H. by repeat split. Qed.

(** The ladder from the rate limit on, for a known reputation. *)
Lemma lower_ladder i mode base policies : policies_of i = policies ->
  exists d,
    sbind (stage_rate i mode base (known_reputation i) policies) (fun d1 =>
    sbind (stage_budget i mode d1) (fun d2 =>
    sbind (stage_convergence i mode d2) (fun d3 =>
    sbind (stage_floor i mode (known_reputation i) d3) (fun d4 =>
    sbind (stage_plagiarism Date_parse i mode d4) (fun d5 =>
    Normal (allow_result i mode d5)))))) = Normal d
    /\ coherent i (first_failing (skipn 3 (checks Date_parse i))) d.
Proof.
  intros <-. unfold checks. cbn [skipn].
  unfold stage_rate. destruct (call_rate_limit i (policies_of i)) as [rl | m]; cbn [of_completion first_failing].
  2: { eexists. split; [reflexivity |]. by apply coherent_deny. }
  destruct (wv_allowed rl); cbn [negb sbind first_failing].
  2: { eexists. split; [reflexivity |]. by apply coherent_deny. }
  unfold stage_budget. destruct (call_caps i) as [r | m]; cbn [of_completion first_failing sbind].
  2: { eexists. split; [reflexivity |]. by apply coherent_deny. }
  destruct (bool_decide (cap_verdict r = allowed)); cbn [negb sbind first_failing].
  2: { eexists. split; [reflexivity |]. by apply coherent_deny. }
  unfold stage_convergence. destruct (call_convergence i) as [c | m]; cbn [of_completion first_failing sbind].
  2: { eexists. split; [reflexivity |]. by apply coherent_deny. }
  destruct (bool_decide (cvv_status c = non_convergent)); cbn [negb sbind first_failing].
  { eexists. split; [reflexivity |]. by apply coherent_deny. }
  assert (Hplag : forall d4, dt_effectiveRateLimitPolicies d4 = used_policies i -> exists d,
    sbind (stage_plagiarism Date_parse i mode d4) (fun d5 => Normal (allow_result i mode d5)) = Normal d
    /\ coherent i (first_failing [(stage_self_plagiarism,
         match plagiarism_of Date_parse i with Some v => of_completion pv_allowed v | None => Pass end)]) d).
  { intros d4 H4. unfold stage_plagiarism, plagiarism_of.
    destruct (isSelfSubmissionAction i); [| eexists; split; [reflexivity | by apply coherent_allow]].
    destruct (gi_selfPlagiarismCandidate i) as [cand |]; [| eexists; split; [reflexivity | by apply coherent_allow]].
    cbn [fmap option_fmap option_map]. destruct (call_self_plagiarism Date_parse i cand) as [v | m]; cbn [of_completion].
    2: { eexists. split; [reflexivity |]. by apply coherent_deny. }
    destruct (pv_allowed v); [eexists; split; [reflexivity | by apply coherent_allow] |].
    eexists. split; [reflexivity |]. by apply coherent_deny. }
  unfold stage_floor. destruct (known_reputation i) as [rep |]; [| by apply Hplag].
  destruct (is_floored rep); [| by apply Hplag]. eexists. split; [reflexivity |]. by apply coherent_deny.
Qed.

Lemma ladder_cases i :
  (exists d, evaluate i = Normal d /\ coherent i (first_failing (checks Date_parse i)) d)
  \/ (exists m factor, evaluate i = Thrown m /\ mode_of i = live
        /\ throttles_cadence (known_reputation i) = Some factor /\ gi_rateLimitPolicies i = Some (Thrown m)).
Proof.
  unfold evaluateGovernorChokepoint. fold (mode_of i). set (tail := skipn 3 (checks Date_parse i)).
  assert (Ec : checks Date_parse i =
    (stage_kill_switch, of_bool (negb (isMinerKillSwitchActive
       (resolveMinerKillSwitch (gi_killSwitchGlobal i) (gi_killSwitchRepoPaused i)))))
    :: (stage_dry_run, of_bool (minerActionModeExecutes (mode_of i)))
    :: (stage_internal_error, match reputation_of i with Some (Thrown _) => Broken | _ => Pass end) :: tail) by reflexivity.
  rewrite Ec. clear Ec. set (scope := resolveMinerKillSwitch _ _).
  destruct (isMinerKillSwitchActive scope) eqn:K; cbn [negb of_bool first_failing].
  { left. eexists. split; [reflexivity |]. by apply coherent_deny. }
  destruct (minerActionModeExecutes (mode_of i)) eqn:M; cbn [negb of_bool first_failing].
  2: { left. eexists. split; [reflexivity |]. by repeat split. }
  assert (Hlive : mode_of i = live) by (by destruct (mode_of i)).
  assert (Er : stage_reputation i (mode_of i) (base_detail scope (mode_of i)) =
    match reputation_of i with
    | Some (Thrown m) => Return (internal_error i "reputation_throttle_calculator_error" (mode_of i)
                                   (base_detail scope (mode_of i)) m)
    | _ => Continue (known_reputation i)
    end).
  { unfold stage_reputation, known_reputation, reputation_of. destruct (isSelfSubmissionAction i); [| reflexivity].
    destruct (gi_reputationHistory i) as [h |]; [| reflexivity]. simpl. by destruct (call_reputation i h). }
  rewrite Er. destruct (reputation_of i) as [[r | m] |] eqn:R; cbn [sbind first_failing].
  2: { left. eexists. split; [reflexivity |]. by apply coherent_deny. }
  all: destruct (effective_policies i (known_reputation i)) as [p | m] eqn:P; cbn [cbind].
  1,3: left; apply lower_ladder; unfold policies_of; by rewrite P.
  all: right; unfold effective_policies in P; destruct (throttles_cadence (known_reputation i)) as [f |] eqn:T;
    [| discriminate P]; destruct (gi_rateLimitPolicies i) as [[p | m'] |] eqn:G; try discriminate P;
    cbn in P; injection P as ->; exists m, f; auto.
Qed.
End Refinement.

(** C10: the chokepoint refines its ladder.  Whenever it returns, its stage is
    the first stage that does not pass in the documented order kill switch,
    dry run, (reputation error,) rate limit, caps, convergence, reputation
    floor, self-plagiarism; it allows exactly at the end of the ladder, and the
    ledger row says "allow" exactly then. *)
Theorem chokepoint_refines_ladder Date_parse input d :
  evaluateGovernorChokepoint Date_parse input = Normal d ->
  gd_stage d = first_failing (checks Date_parse input)
  /\ gd_allowed d = bool_decide (gd_stage d = stage_allow)
  /\ (decision (gd_ledgerEvent d) = "allow" <-> gd_allowed d = true)
  /\ reason (gd_ledgerEvent d) = gd_reason d.
Proof.
  intros E. destruct (ladder_cases Date_parse input) as [(d' & E' & C) | (m & f & E' & _)]; rewrite E' in E; [| done].
  injection E as ->. destruct C as (C1 & C2 & C3 & C4 & _). rewrite C1, C2. repeat split; try done.
  - intros H. apply bool_decide_eq_true. by apply C3.
  - intros H. apply C3. by apply bool_decide_eq_true in H.
Qed.

(** A concrete live write of a well-behaved miner, and the same one to a
    repository whose pause flag is set. *)
Definition sample_input (paused_ : bool) : GovernorChokepointInput :=
  mkInput "open_pr" "acme/widgets" (nz 1000) JNull false (Some paused_) true (JStr "live")
    (Normal (mkStore ∅ ∅)) (Normal ∅) None None
    (Normal (mkUsage (nz 0) (nz 0) (nz 0))) (Normal (mkLimits (nz 10) (nz 10) (nz 10)))
    (Normal (mkConvInput (nz 0) (nz 0) (nz 0) false)) None
    (Some (Normal (mkHistory (nz 10) (nz 1)))) None None None None.

Lemma chokepoint_refines_ladder_witness :
  exists d, evaluateGovernorChokepoint length_clock (sample_input true) = Normal d /\ gd_stage d = stage_kill_switch.
Proof.
  eexists. split; [reflexivity |].
  rewrite (proj1 (chokepoint_refines_ladder length_clock (sample_input true) _ eq_refl)). reflexivity.
Defined.

(** ** When a write is allowed *)

Lemma passes_bool b : of_bool b = Pass <-> b = true.
Proof. by destruct b. Qed.

Lemma passes_completion {A} (ok : A -> bool) c : of_completion ok c = Pass <-> exists a, c = Normal a /\ ok a = true.
Proof.
  destruct c as [a | m]; simpl; split; try done.
  - intros H. exists a. split; [done |]. by destruct (ok a).
  - intros (a' & [= <-] & ->). done.
  - intros (a' & E & _). discriminate E.
Qed.

Lemma checks_stages Date_parse i : Forall (fun c => fst c <> stage_allow) (checks Date_parse i).
Proof. by repeat constructor. Qed.

(** C1: a write is allowed exactly when nothing on the ladder objects: no kill
    switch and both live opt-ins, a readable reputation that is not floored, an
    admitting rate limit under the policies in force, open caps, an item that is
    not stuck, and (for pull requests with a fingerprint) no earlier
    near-duplicate.  A calculator that throws is an objection. *)
Theorem chokepoint_allows_iff Date_parse i :
  (exists d, evaluateGovernorChokepoint Date_parse i = Normal d /\ gd_allowed d = true) <->
  (mode_of i = live
   /\ (exists v, call_rate_limit i (policies_of i) = Normal v /\ wv_allowed v = true)
   /\ (exists r, call_caps i = Normal r /\ cap_verdict r = allowed)
   /\ (exists c, call_convergence i = Normal c /\ cvv_status c <> non_convergent)
   /\ (forall r, reputation_of i = Some r -> exists t, r = Normal t /\ td_reason t <> floored)
   /\ (forall p, plagiarism_of Date_parse i = Some p -> exists v, p = Normal v /\ pv_allowed v = true)).
Proof.
  transitivity (Forall (fun c => snd c = Pass) (checks Date_parse i)).
  { rewrite <- (first_failing_allow _ (checks_stages Date_parse i)).
    destruct (ladder_cases Date_parse i) as [(d & E & C1 & C2 & _) | (m & f & E & Hl & Ht & Hp)].
    - rewrite E. split; [intros (d' & [= <-] & A) | intros A; exists d; split; [done |]].
      + rewrite C2 in A. by apply bool_decide_eq_true in A.
      + rewrite C2. by apply bool_decide_eq_true.
    - split; [intros (d & E' & _); congruence |]. intros F. exfalso.
      assert (P : policies_of i = Some (Thrown m)).
      { unfold policies_of, effective_policies. rewrite Ht, Hp. reflexivity. }
      revert F. unfold checks. rewrite P. cbn [first_failing].
      destruct (of_bool _); try discriminate. destruct (of_bool _); try discriminate.
      destruct (match reputation_of i with Some (Thrown _) => Broken | _ => Pass end); try discriminate.
      unfold call_rate_limit. destruct (gi_rateLimitBackoffAttempts i), (gi_rateLimitBuckets i); discriminate. }
  assert (Hm : minerActionModeExecutes (mode_of i) = true <-> mode_of i = live) by (by destruct (mode_of i)).
  assert (Hk : mode_of i = live -> isMinerKillSwitchActive
     (resolveMinerKillSwitch (gi_killSwitchGlobal i) (gi_killSwitchRepoPaused i)) = false).
  { unfold mode_of, resolveMinerActionMode. by destruct (isMinerKillSwitchActive _). }
  assert (Hr : (match reputation_of i with Some (Thrown _) => Broken | _ => Pass end = Pass
                /\ match known_reputation i with Some r => of_bool (negb (is_floored r)) | None => Pass end = Pass)
               <-> (forall r, reputation_of i = Some r -> exists t, r = Normal t /\ td_reason t <> floored)).
  { unfold known_reputation. destruct (reputation_of i) as [[t | m] |].
    2: { split; [intros [H _]; discriminate H |]. intros H. destruct (H _ eq_refl) as (t & E & _). discriminate E. }
    2: { split; [by intros _ r | done]. }
    rewrite passes_bool. unfold is_floored. split.
    - intros [_ H] r [= <-]. exists t. split; [done |]. by destruct (td_reason t).
    - intros H. split; [done |]. destruct (H _ eq_refl) as (t' & [= <-] & Hne). by destruct (td_reason t). }
  assert (Hp : match plagiarism_of Date_parse i with Some v => of_completion pv_allowed v | None => Pass end = Pass
               <-> (forall p, plagiarism_of Date_parse i = Some p -> exists v, p = Normal v /\ pv_allowed v = true)).
  { destruct (plagiarism_of Date_parse i) as [p |]; [| by split]. rewrite passes_completion.
    split; [by intros H p' [= <-] | intros H; exact (H p eq_refl)]. }
  assert (Hc : of_completion (fun r => bool_decide (cap_verdict r = allowed)) (call_caps i) = Pass
               <-> exists r, call_caps i = Normal r /\ cap_verdict r = allowed).
  { rewrite passes_completion. by setoid_rewrite bool_decide_eq_true. }
  assert (Hv : of_completion (fun c => negb (bool_decide (cvv_status c = non_convergent))) (call_convergence i) = Pass
               <-> exists c, call_convergence i = Normal c /\ cvv_status c <> non_convergent).
  { rewrite passes_completion. setoid_rewrite negb_true_iff. by setoid_rewrite bool_decide_eq_false. }
  rewrite <- Hr, <- Hp, <- Hc, <- Hv, <- passes_completion, <- Hm. unfold checks. rewrite !List.Forall_cons_iff. simpl.
  rewrite !passes_bool. split; [tauto |]. intros (A & ?). rewrite (Hk (proj1 Hm A)). simpl. intuition constructor.
Qed.

(** The chokepoint returns a decision on every input, malformed ones
    included, with one exception: a throttled reputation together with
    unreadable rate-limit policies, whose scaling is outside every [try]. *)
Theorem chokepoint_throws_iff Date_parse i m :
  evaluateGovernorChokepoint Date_parse i = Thrown m <->
  (mode_of i = live /\ gi_rateLimitPolicies i = Some (Thrown m)
   /\ exists r, reputation_of i = Some (Normal r) /\ nltb (cadenceFactor r) (nz 1) = true).
Proof.
  assert (Hk : mode_of i = live -> isMinerKillSwitchActive
     (resolveMinerKillSwitch (gi_killSwitchGlobal i) (gi_killSwitchRepoPaused i)) = false).
  { unfold mode_of, resolveMinerActionMode. by destruct (isMinerKillSwitchActive _). }
  split.
  - intros E. destruct (ladder_cases Date_parse i) as [(d & E' & _) | (m' & f & E' & Hl & Ht & Hp)]; [congruence |].
    rewrite E in E'. injection E' as <-. split; [done |]. split; [done |].
    unfold throttles_cadence, known_reputation in Ht. destruct (reputation_of i) as [[r |] |]; try done.
    exists r. split; [done |]. by destruct (nltb (cadenceFactor r) (nz 1)).
  - intros (Hl & Hp & r & Hr & Hc). unfold evaluateGovernorChokepoint. fold (mode_of i).
    rewrite (Hk Hl), Hl. cbn [minerActionModeExecutes negb].
    unfold reputation_of in Hr. unfold stage_reputation. destruct (isSelfSubmissionAction i); [| discriminate Hr].
    destruct (gi_reputationHistory i) as [h |]; [| discriminate Hr]. cbn in Hr. injection Hr as ->. cbn [sbind].
    unfold effective_policies, throttles_cadence. rewrite Hc, Hp. reflexivity.
Qed.

(** ** The gate *)

(** What an allowing verdict says about the stages. *)
Lemma allow_checks Date_parse i d : evaluateGovernorChokepoint Date_parse i = Normal d -> gd_stage d = stage_allow ->
  Forall (fun c => snd c = Pass) (checks Date_parse i)
  /\ dt_effectiveRateLimitPolicies (gd_detail d) = used_policies i.
Proof.
  intros E A. destruct (ladder_cases Date_parse i) as [(d' & E' & C1 & _ & _ & _ & C5) | (m & f & E' & _)]; [| congruence].
  rewrite E in E'. injection E' as <-. rewrite A in C1. symmetry in C1. split; [| by apply C5].
  by apply (first_failing_allow _ (checks_stages Date_parse i)).
Qed.

Lemma allow_not_floored Date_parse i d r : evaluateGovernorChokepoint Date_parse i = Normal d ->
  gd_stage d = stage_allow -> known_reputation i = Some r -> td_reason r <> floored.
Proof.
  intros E A K. destruct (allow_checks _ _ _ E A) as [C _]. unfold checks in C. rewrite K, !List.Forall_cons_iff in C.
  destruct C as (_ & _ & _ & _ & _ & _ & R & _). apply passes_bool in R. unfold is_floored in R. by destruct (td_reason r).
Qed.

Lemma allow_rate_limit Date_parse i d : evaluateGovernorChokepoint Date_parse i = Normal d -> gd_stage d = stage_allow ->
  exists v p, call_rate_limit i (policies_of i) = Normal v /\ wv_allowed v = true
    /\ orDefault (policies_of i) DEFAULT_WRITE_RATE_LIMIT_POLICIES = Normal p
    /\ dt_effectiveRateLimitPolicies (gd_detail d) = Some p.
Proof.
  intros E A. destruct (allow_checks _ _ _ E A) as [C1 C5].
  unfold checks in C1. rewrite !List.Forall_cons_iff in C1. destruct C1 as (_ & _ & _ & R & _).
  apply passes_completion in R as (v & Ev & Av). unfold used_policies in C5. exists v.
  assert (Ep : exists p, orDefault (policies_of i) DEFAULT_WRITE_RATE_LIMIT_POLICIES = Normal p).
  { revert Ev. unfold call_rate_limit. destruct (gi_rateLimitBackoffAttempts i); [| discriminate].
    destruct (gi_rateLimitBuckets i); [| discriminate]. cbn [cbind].
    destruct (orDefault (policies_of i) _); [eauto | discriminate]. }
  destruct Ep as [p Ep]. rewrite Ep in C5 |- *. exists p. auto.
Qed.

Lemma chokepoint_allowed_stage Date_parse i d : evaluateGovernorChokepoint Date_parse i = Normal d ->
  gd_allowed d = bool_decide (gd_stage d = stage_allow).
Proof.
  intros E. destruct (ladder_cases Date_parse i) as [(d' & E' & C1 & C2 & _) | (m & f & E' & _)]; [| congruence].
  rewrite E in E'. injection E' as <-. by rewrite C1.
Qed.

(** The gate's effect on the rate-limit state.  Only an allowed write
    advances the buckets, by exactly the policies its verdict was reached with;
    only a rate-limited one bumps the backoff; every other outcome leaves both
    untouched.  The row handed to the ledger is the decision's own. *)
Theorem chokepoint_gate_effects {Row} Date_parse (append : GovernorLedgerEvent -> completion Row) i r :
  evaluateGovernorChokepointGate Date_parse append i = Normal r ->
  let d := cg_decision r in
  evaluateGovernorChokepoint Date_parse i = Normal d
  /\ append (gd_ledgerEvent d) = Normal (cg_recorded r)
  /\ (gd_allowed d = true -> exists buckets backoff p,
        gi_rateLimitBuckets i = Normal buckets /\ gi_rateLimitBackoffAttempts i = Normal backoff
        /\ orDefault (policies_of i) DEFAULT_WRITE_RATE_LIMIT_POLICIES = Normal p
        /\ cg_rateLimitBuckets r
           = Normal (recordWriteRateLimitAllowed buckets (gi_actionClass i) (gi_repoFullName i) (gi_nowMs i) p)
        /\ cg_rateLimitBackoffAttempts r
           = Normal (clearWriteRateLimitBackoff backoff (gi_actionClass i) (gi_repoFullName i)))
  /\ (gd_allowed d = false -> cg_rateLimitBuckets r = gi_rateLimitBuckets i)
  /\ (gd_stage d <> stage_allow -> gd_stage d <> stage_rate_limit ->
      cg_rateLimitBackoffAttempts r = gi_rateLimitBackoffAttempts i).
Proof.
  unfold evaluateGovernorChokepointGate. destruct (evaluateGovernorChokepoint Date_parse i) as [d |] eqn:E; [| discriminate].
  cbn [cbind]. destruct (append (gd_ledgerEvent d)) as [row |] eqn:Ea; [| discriminate]. cbn [cbind].
  pose proof (chokepoint_allowed_stage _ _ _ E) as HA.
  destruct (decide (gd_stage d = stage_allow)) as [Hs | Hs].
  - destruct (allow_rate_limit _ _ _ E Hs) as (v & p & Ev & _ & Ep & Ee). rewrite Hs, Ee.
    revert Ev. unfold call_rate_limit. destruct (gi_rateLimitBackoffAttempts i) as [back |]; [| discriminate].
    destruct (gi_rateLimitBuckets i) as [bk |]; [| discriminate]. cbn [cbind]. intros _ [= <-]. simpl.
    rewrite HA, bool_decide_eq_true_2 by done. split; [done |]. split; [done |]. split; [| by split].
    intros _. exists bk, back, p. auto.
  - rewrite bool_decide_eq_false_2 in HA by done. intros H.
    assert (D : cg_decision r = d /\ cg_recorded r = row /\ cg_rateLimitBuckets r = gi_rateLimitBuckets i
                /\ (gd_stage d <> stage_rate_limit -> cg_rateLimitBackoffAttempts r = gi_rateLimitBackoffAttempts i)).
    { destruct (gd_stage d); try (injection H as <-; by repeat split); [| done].
      destruct (gi_rateLimitBackoffAttempts i); [| discriminate H]. injection H as <-. by repeat split. }
    destruct D as (-> & -> & -> & Hb). rewrite HA. by repeat split.
Qed.

Lemma chokepoint_gate_effects_witness :
  exists r, evaluateGovernorChokepointGate length_clock Normal (sample_input true) = Normal r
  /\ cg_rateLimitBuckets r = Normal (mkStore ∅ ∅).
Proof.
  eexists. split; [reflexivity |].
  refine (proj1 (proj2 (proj2 (proj2
    (chokepoint_gate_effects length_clock (@Normal GovernorLedgerEvent) (sample_input true) _ eq_refl)))) _).
  reflexivity.
Defined.

(** ** Runs of gated writes *)

Definition with_store (s : write_state) (i : GovernorChokepointInput) : GovernorChokepointInput :=
  mkInput (gi_actionClass i) (gi_repoFullName i) (gi_nowMs i) (gi_wouldBeAction i) (gi_killSwitchGlobal i)
    (gi_killSwitchRepoPaused i) (gi_liveModeGlobalOptIn i) (gi_liveModeRepoOptIn i)
    (Normal (ws_store s)) (Normal (ws_backoff s)) (gi_rateLimitPolicies i) (gi_rateLimitRandomFn i)
    (gi_capUsage i) (gi_capLimits i) (gi_convergenceInput i) (gi_convergenceThresholds i)
    (gi_reputationHistory i) (gi_reputationThresholds i) (gi_selfPlagiarismCandidate i)
    (gi_selfPlagiarismRecentSubmissions i) (gi_selfPlagiarismConfig i).

(** One gated write: the state of the buckets is threaded through the gate, and
    an allowed write is logged with the windows it was counted in. *)
Definition gate_step (Date_parse : string -> num) (s : write_state) (i : GovernorChokepointInput) : write_state :=
  match evaluateGovernorChokepointGate Date_parse Normal (with_store s i) with
  | Normal r =>
      match cg_rateLimitBuckets r, cg_rateLimitBackoffAttempts r with
      | Normal b, Normal k =>
          let action := trim (gi_actionClass i) in
          let key := writeRateLimitRepoKey action (gi_repoFullName i) in
          mkWState b k
            (if gd_allowed (cg_decision r)
             then ws_log s ++ [mkAdmission action key (bucket_start (st_global b) action)
                                                      (bucket_start (st_perRepo b) key)]
             else ws_log s)
      | _, _ => s
      end
  | Thrown _ => s
  end.

Definition gate_run (Date_parse : string -> num) (inputs : list GovernorChokepointInput) : write_state :=
  List.fold_left (gate_step Date_parse) inputs empty_write_state.

(** Inputs that share the policies [zp] and read a clock in range; everything
    else about them is arbitrary. *)
Definition gate_input_ok (zp : zpolicies) (i : GovernorChokepointInput) : Prop :=
  gi_rateLimitPolicies i = Some (Normal (emb_policies zp)) /\ exists now, gi_nowMs i = nz now /\ Spec.safe now.

(** Room to stretch: a window a thousand times as long is still a safe integer. *)
Definition stretchable (zp : zpolicies) : Prop :=
  map_Forall (fun _ c => (Spec.zwindow c <= 2 ^ 41)%Z) (zp_perRepo zp).

Lemma scale_factor x : nltb (round3 x) (nz 1) = true ->
  exists q, (if ngtb (round3 x) (nz 0) then round3 x else rnd (1 # 1000)) = Fin q /\ ((1 # 1001) <= q <= 1)%Q.
Proof.
  intros L. assert (T : exists v, rnd (1 # 1000) = Fin v /\ ((1 # 1001) <= v <= 1)%Q).
  { eexists. split; [vm_compute; reflexivity |]. split; discriminate. }
  destruct T as (v & Ev & Hv). destruct (ngtb (round3 x) (nz 0)) eqn:G; [| exists v; split; [exact Ev | exact Hv]].
  destruct x as [| | | q]; [discriminate L | discriminate L | discriminate G |]. pose proof (round3_pos q G L) as P.
  rewrite Ev in P. destruct (round3 (Fin q)) as [| | | w]; [discriminate L | discriminate L | discriminate G |]. exists w. split; [reflexivity |].
  unfold nz in L. num_facts. change (inject_Z 1) with 1%Q in L. split; [| by apply Qlt_le_weak]. exact (Qle_trans _ _ _ (proj1 Hv) P).
Qed.

Lemma stretched_window W q : (1 <= W <= 2 ^ 41)%Z -> ((1 # 1001) <= q <= 1)%Q ->
  exists z, nround (ndiv (nz W) (Fin q)) = nz z /\ (1 <= z <= 2 ^ 52)%Z.
Proof.
  intros HW Hq. assert (H0 : (0 < q)%Q) by lra. unfold nz, ndiv.
  destruct (Qeq_bool q 0) eqn:Z0; [apply Qeq_bool_iff in Z0; rewrite Z0 in H0; by apply Qlt_irrefl in H0 |].
  assert (HW0 : (0 <= inject_Z W)%Q) by (change 0%Q with (inject_Z 0); rewrite <- Zle_Qle; lia).
  assert (L : nleb (nz W) (rnd (inject_Z W / q)) = true).
  { rewrite <- rnd_int_exact by lia. apply rnd_mono. apply Qle_shift_div_l; [assumption |]. nra. }
  assert (U : nleb (rnd (inject_Z W / q)) (nz (1001 * W)) = true).
  { rewrite <- rnd_int_exact by lia. apply rnd_mono. apply Qle_shift_div_r; [assumption |].
    rewrite inject_Z_mult. change (inject_Z 1001) with 1001%Q. nra. }
  destruct (rnd (inject_Z W / q)) as [| | | v] eqn:E; try discriminate.
  apply nround_mono in L, U. rewrite nround_nz in L, U. unfold nround in *. rewrite nz_leb in L, U.
  apply Z.leb_le in L, U. eexists. split; [reflexivity |]. lia.
Qed.

(** Stretching the window of one class keeps every limit. *)
Lemma scale_same_limits zp action x : policies_ok zp -> stretchable zp -> nltb (round3 x) (nz 1) = true ->
  exists zp', scaleRateLimitPerRepoWindow (emb_policies zp) action (round3 x) = emb_policies zp'
    /\ policies_ok zp' /\ same_limits zp zp'.
Proof.
  intros [Hg Hr] Hs L. unfold scaleRateLimitPerRepoWindow. cbn [emb_policies pol_perRepo pol_global backoffBaseMs].
  rewrite lookup_fmap. destruct (zp_perRepo zp !! action) as [c |] eqn:Ec; cbn [fmap option_fmap option_map].
  2: { exists zp. split; [reflexivity |]. split; [by split | by intros cl]. }
  destruct (scale_factor x L) as (q & -> & Hq). cbn [Spec.emb_cfg limit windowMs].
  pose proof (Hr _ _ Ec) as [Hl Hw]. pose proof (Hs _ _ Ec) as Hw'.
  destruct (stretched_window (Spec.zwindow c) q (conj (proj1 Hw) Hw') Hq) as (z & -> & Hz).
  exists (mkZpol (zp_global zp) (<[action := Spec.mkCfg (Spec.zlimit c) z]> (zp_perRepo zp)) (zp_base zp)).
  split; [unfold emb_policies; cbn [zp_global zp_perRepo zp_base]; by rewrite fmap_insert |]. split.
  - split; [exact Hg |]. apply map_Forall_insert_2; [split; assumption | exact Hr].
  - intros cl. split; [reflexivity |]. unfold zrepo. cbn [zp_perRepo]. destruct (decide (cl = action)) as [-> | Hne].
    + by rewrite lookup_insert_eq, Ec.
    + by rewrite lookup_insert_ne.
Qed.

Lemma policies_in_force zp i : policies_ok zp -> stretchable zp -> gate_input_ok zp i ->
  (forall r, known_reputation i = Some r -> td_reason r <> floored) ->
  exists zp', policies_of i = Some (Normal (emb_policies zp')) /\ policies_ok zp' /\ same_limits zp zp'.
Proof.
  intros Hz Hs (Hp & _) Hf. unfold policies_of, effective_policies, throttles_cadence. rewrite Hp.
  destruct (known_reputation i) as [r |] eqn:K; [| by exists zp; split; [| split; [| intros cl]]]. specialize (Hf r eq_refl).
  destruct (nltb (cadenceFactor r) (nz 1)) eqn:L; [| by exists zp; split; [| split; [| intros cl]]].
  assert (X : exists x, cadenceFactor r = round3 x).
  { unfold known_reputation, reputation_of, call_reputation in K. destruct (isSelfSubmissionAction i); [| discriminate].
    destruct (gi_reputationHistory i) as [[h |] |]; try discriminate. cbn in K.
    destruct (orDefault _ _) as [T |]; [| discriminate]. cbn in K. injection K as <-. by apply slowed_cadence. }
  destruct X as [x X]. rewrite X in *. destruct (scale_same_limits zp (gi_actionClass i) x Hz Hs L) as (zp' & E & H).
  exists zp'. split; [| exact H]. cbn. by rewrite E.
Qed.

(** The gate is a client of the limiter: whatever implements [WriteLimiter], its
    invariant survives every gated write. *)
Lemma gate_step_inv Date_parse zp inv `{!WriteLimiter zp inv} s i : policies_ok zp -> stretchable zp ->
  gate_input_ok zp i -> inv s -> inv (gate_step Date_parse s i).
Proof.
  intros Hz Hst Hi Hs. assert (Hi' : gate_input_ok zp (with_store s i)) by exact Hi.
  unfold gate_step.
  unfold evaluateGovernorChokepointGate.
  destruct (evaluateGovernorChokepoint Date_parse (with_store s i)) as [d |] eqn:E; [| exact Hs]. cbn [cbind].
  destruct (decide (gd_stage d = stage_allow)) as [A | A].
  - destruct (policies_in_force _ _ Hz Hst Hi' (fun r => allow_not_floored _ _ _ r E A)) as (zp' & Hp & Hz' & Hl).
    destruct (allow_rate_limit _ _ _ E A) as (v & p & Ev & Av & Ep & Ee). rewrite Hp in Ev, Ep. rewrite A, Ee.
    cbn in Ep. injection Ep as <-. unfold call_rate_limit in Ev. cbn in Ev.
    cbn. rewrite (chokepoint_allowed_stage _ _ _ E), bool_decide_eq_true_2 by done. destruct Hi as (_ & now & Hnow & Hsafe). rewrite Hnow in *.
    exact (limiter_admit zp' s (mkWrite (gi_actionClass i) (gi_repoFullName i) now) _ v Hz' Hl Hsafe Hs Ev Av).
  - pose proof (chokepoint_allowed_stage _ _ _ E) as Hall. rewrite bool_decide_eq_false_2 in Hall by done.
    destruct (gd_stage d); try done; cbn; rewrite Hall; by apply limiter_backoff.
Qed.

(** C8: end to end.  Whatever sequence of writes under common rate policies is put
    through the gate, with whatever kill switches, caps, outcome histories (which
    stretch the windows), earlier submissions and malformed fields, the writes it
    lets through never exceed the global or the per-repository limit of any
    window. *)
Theorem gate_run_respects_limits Date_parse zp inputs :
  policies_ok zp -> stretchable zp -> Forall (gate_input_ok zp) inputs ->
  let log := ws_log (gate_run Date_parse inputs) in
  (forall action w, (Z.of_nat (global_admissions log action w) <= Spec.zlimit (zglobal zp action))%Z)
  /\ (forall action key w, (Z.of_nat (repo_admissions log action key w) <= Spec.zlimit (zrepo zp action))%Z).
Proof.
  intros Hz Hst Hi. pose proof (write_limiter zp Hz) as L. apply (limiter_limits (zp := zp)). unfold gate_run.
  generalize (limiter_empty (WriteLimiter := L)). generalize empty_write_state.
  induction Hi as [| i inputs Hi _ IH]; intros s Hs; [exact Hs |]. apply IH. by apply gate_step_inv with zp.
Qed.

(** Five live comments to one repository within a minute: all pass the default
    limit of ten; of twelve, ten do. *)
Definition sample_comment : GovernorChokepointInput :=
  mkInput "comment" "acme/widgets" (nz 1000) JNull false None true (JStr "live")
    (Thrown "unset") (Thrown "unset") (Some (Normal (emb_policies zdefault))) None
    (Normal (mkUsage (nz 0) (nz 0) (nz 0))) (Normal (mkLimits (nz 10) (nz 10) (nz 10)))
    (Normal (mkConvInput (nz 0) (nz 0) (nz 0) false)) None None None None None None.

Lemma gate_run_respects_limits_witness :
  let log := ws_log (gate_run length_clock (List.repeat sample_comment 12)) in
  repo_admissions log "comment" "comment:acme/widgets" 1000 = 10
  /\ (Z.of_nat (repo_admissions log "comment" "comment:acme/widgets" 1000) <= 10)%Z.
Proof.
  intros log. split; [vm_compute; reflexivity |].
  refine (proj2 (gate_run_respects_limits length_clock zdefault (List.repeat sample_comment 12) zdefault_ok _ _)
    "comment" "comment:acme/widgets" 1000%Z).
  { intros k c E. unfold zdefault in E. cbn [zp_perRepo] in E. apply lookup_insert_Some in E as [[<- <-] | [_ E]];
      [| apply lookup_singleton_Some in E as [<- <-]]; simpl; lia. }
  assert (H : gate_input_ok zdefault sample_comment).
  { split; [reflexivity |]. exists 1000%Z. split; [reflexivity | unfold Spec.safe; lia]. }
  cbn [List.repeat]. repeat (apply List.Forall_cons; [exact H |]). apply List.Forall_nil.
Defined.
