(* ===== verification/PortfolioQueue.v ===== *)
(** * Portfolio queue

    Models [portfolio/queue.ts]: the miner's cross-repository work queue, its
    enqueue and dequeue, and the selection of the next batch under global and
    per-repository work-in-progress caps.

    Selection buckets are the values of a [Map] keyed by repository, so a bucket
    is identified by its repository name, and the in-place increment of the
    picked bucket is an update of the one with that name.  The selection loop is
    written with fuel (one more than the queued items); it always stops by its
    own conditions before the fuel runs out.

    Main results: the selection respects both caps, takes a prefix of every
    repository's queue, is work-conserving, and picks the same repository twice
    in a row only when no other one has anything left; enqueue and dequeue keep
    the queue well formed and are inverse to each other. *)

From Stdlib Require Import QArith Qround ZArith Lia.
From stdpp Require Import base list strings option.
From S2P Require Import Prelude JsNumber JsString.

Local Open Scope nat_scope.
Local Open Scope string_scope.
Local Open Scope js_scope.

(** ** Data *)

Inductive PortfolioQueueItemState := queued | in_progress.

#[global] Instance PortfolioQueueItemState_eq_dec : EqDecision PortfolioQueueItemState.
Proof. solve_decision. Defined.

Record PortfolioQueueItem := mkItem {
  it_id : string;
  it_repoFullName : string;
  it_state : PortfolioQueueItemState;
}.

#[global] Instance PortfolioQueueItem_eq_dec : EqDecision PortfolioQueueItem.
Proof. solve_decision. Defined.

Record PortfolioQueueBucket := mkQBucket {
  qb_repoFullName : string;
  qb_items : list PortfolioQueueItem;
}.

Definition PortfolioQueue : Type := list PortfolioQueueBucket.

Record PortfolioCaps := mkCaps { globalWipCap : num; perRepoWipCap : num }.

Record QueueSelectionBucket := mkSel {
  sb_repoFullName : string;
  sb_activeCount : nat;
  sb_queuedItems : list PortfolioQueueItem;
  sb_selectedCount : nat;
}.

(** ** Normalization *)

Definition cleanId (value : string) : string := trim value.
Definition cleanRepoFullName (value : string) : string := toLowerCase (trim value).

Definition normalizeState (value : PortfolioQueueItemState) : PortfolioQueueItemState :=
  match value with in_progress => in_progress | _ => queued end.

Definition normalizeItem (item : PortfolioQueueItem) : PortfolioQueueItem :=
  mkItem (cleanId (it_id item)) (cleanRepoFullName (it_repoFullName item)) (normalizeState (it_state item)).

(** This module's cap normalizer keeps [Infinity], meaning uncapped. *)
Definition finiteNonNegativeInt (value : num) : num :=
  match value with
  | PInf => PInf
  | _ => if negb (is_finite value) then nz 0 else nmax (nz 0) (ntrunc value)
  end.

Definition normalizeCaps (caps : PortfolioCaps) : PortfolioCaps :=
  mkCaps (finiteNonNegativeInt (globalWipCap caps)) (finiteNonNegativeInt (perRepoWipCap caps)).

Definition isActiveItem (item : PortfolioQueueItem) : bool := bool_decide (it_state item = in_progress).
Definition isQueuedItem (item : PortfolioQueueItem) : bool := bool_decide (it_state item = queued).

(** ** Enqueue and dequeue *)

Definition queueHasItem (queue : PortfolioQueue) (itemId : string) : bool :=
  existsb (fun bucket => existsb (fun item => String.eqb (cleanId (it_id item)) itemId) (qb_items bucket)) queue.

(** [queue.buckets.map] with the bucket at the first matching index replaced. *)
Fixpoint append_to_bucket (queue : PortfolioQueue) (item : PortfolioQueueItem) : option PortfolioQueue :=
  match queue with
  | [] => None
  | bucket :: rest =>
      if String.eqb (cleanRepoFullName (qb_repoFullName bucket)) (it_repoFullName item)
      then Some (mkQBucket (it_repoFullName item) (List.map normalizeItem (qb_items bucket) ++ [item])%list :: rest)
      else (fun r => bucket :: r) <$> append_to_bucket rest item
  end.

Definition enqueueItem (queue : PortfolioQueue) (item : PortfolioQueueItem) : PortfolioQueue :=
  let normalizedItem := normalizeItem item in
  if str_empty (it_id normalizedItem) || str_empty (it_repoFullName normalizedItem)
     || queueHasItem queue (it_id normalizedItem)
  then queue
  else match append_to_bucket queue normalizedItem with
       | None => (queue ++ [mkQBucket (it_repoFullName normalizedItem) [normalizedItem]])%list
       | Some q => q
       end.

Definition keeps (targetId : string) (item : PortfolioQueueItem) : bool :=
  negb (String.eqb (cleanId (it_id item)) targetId).

Definition dequeueItem (queue : PortfolioQueue) (itemId : string) : PortfolioQueue :=
  let targetId := cleanId itemId in
  if str_empty targetId then queue
  else
    let removed := existsb (fun bucket => existsb (fun item => negb (keeps targetId item)) (qb_items bucket)) queue in
    let buckets := List.flat_map (fun bucket =>
      let items := List.filter (keeps targetId) (qb_items bucket) in
      if (0 <? List.length items)%nat then [mkQBucket (qb_repoFullName bucket) items] else []) queue in
    if removed then buckets else queue.

(** ** Selection *)

Definition projectedLoad (bucket : QueueSelectionBucket) : nat := sb_activeCount bucket + sb_selectedCount bucket.

Definition is_eligible (bucket : QueueSelectionBucket) : bool :=
  Nat.ltb (sb_selectedCount bucket) (List.length (sb_queuedItems bucket)).

(** [lastRepoFullName === null] is [None]. *)
Definition pickNextBucket (buckets : list QueueSelectionBucket) (lastRepoFullName : option string)
    : option QueueSelectionBucket :=
  let eligible := List.filter is_eligible buckets in
  let alternates :=
    match lastRepoFullName with
    | None => eligible
    | Some last => List.filter (fun bucket => negb (String.eqb (sb_repoFullName bucket) last)) eligible
    end in
  let candidates := if (0 <? List.length alternates)%nat then alternates else eligible in
  match candidates with
  | [] => None
  | first :: rest =>
      Some (List.fold_left (fun winner candidate =>
        if Nat.ltb (projectedLoad candidate) (projectedLoad winner) then candidate else winner) rest first)
  end.

Definition new_selection_bucket (item : PortfolioQueueItem) : QueueSelectionBucket :=
  mkSel (it_repoFullName item) (if isActiveItem item then 1 else 0) (if isQueuedItem item then [item] else []) 0.

(** One item entered into the [Map]: found entries are updated in place, new
    ones go to the end. *)
Fixpoint group_item (buckets : list QueueSelectionBucket) (item : PortfolioQueueItem) : list QueueSelectionBucket :=
  match buckets with
  | [] => [new_selection_bucket item]
  | b :: rest =>
      if String.eqb (sb_repoFullName b) (it_repoFullName item)
      then (if isActiveItem item
            then mkSel (sb_repoFullName b) (sb_activeCount b + 1) (sb_queuedItems b) (sb_selectedCount b)
            else mkSel (sb_repoFullName b) (sb_activeCount b) (sb_queuedItems b ++ [item])%list (sb_selectedCount b)) :: rest
      else b :: group_item rest item
  end.

Definition all_items (queue : PortfolioQueue) : list PortfolioQueueItem :=
  List.flat_map (fun bucket => List.map normalizeItem (qb_items bucket)) queue.

Definition group_items (queue : PortfolioQueue) : list QueueSelectionBucket :=
  List.fold_left group_item (all_items queue) [].

(** [items.slice(0, n)] for a positive [n]. *)
Definition slice_to {A} (items : list A) (n : num) : list A :=
  match n with
  | PInf => items
  | Fin q => List.firstn (Z.to_nat (Qfloor q)) items
  | _ => []
  end.

Definition cap_bucket (perRepoCap : num) (bucket : QueueSelectionBucket) : QueueSelectionBucket :=
  let remaining := nsub perRepoCap (nnat (sb_activeCount bucket)) in
  mkSel (sb_repoFullName bucket) (sb_activeCount bucket)
    (if ngtb remaining (nz 0) then slice_to (sb_queuedItems bucket) remaining else []) (sb_selectedCount bucket).

(** [nextBucket.selectedCount += 1] on the shared bucket object. *)
Definition bump_selected (repo : string) (buckets : list QueueSelectionBucket) : list QueueSelectionBucket :=
  List.map (fun b => if String.eqb (sb_repoFullName b) repo
                     then mkSel (sb_repoFullName b) (sb_activeCount b) (sb_queuedItems b) (sb_selectedCount b + 1)
                     else b) buckets.

Fixpoint select_loop (fuel : nat) (slots : num) (buckets : list QueueSelectionBucket) (last : option string)
    (selected : list PortfolioQueueItem) : list QueueSelectionBucket * option string * list PortfolioQueueItem :=
  match fuel with
  | 0 => (buckets, last, selected)
  | S fuel =>
      if negb (nltb (nnat (List.length selected)) slots) then (buckets, last, selected)
      else match pickNextBucket buckets last with
           | None => (buckets, last, selected)
           | Some b =>
               match nth_error (sb_queuedItems b) (sb_selectedCount b) with
               | None => (buckets, last, selected)
               | Some item => select_loop fuel slots (bump_selected (sb_repoFullName b) buckets)
                                (Some (sb_repoFullName b)) (selected ++ [item])%list
               end
           end
  end.

Definition total_active (buckets : list QueueSelectionBucket) : nat :=
  List.fold_left (fun sum bucket => sum + sb_activeCount bucket) buckets 0.

Definition queued_total (buckets : list QueueSelectionBucket) : nat :=
  list_sum (List.map (fun b => List.length (sb_queuedItems b)) buckets).

Definition nextEligibleItems (queue : PortfolioQueue) (caps : PortfolioCaps) : list PortfolioQueueItem :=
  let normalizedCaps := normalizeCaps caps in
  if neqb (globalWipCap normalizedCaps) (nz 0) || neqb (perRepoWipCap normalizedCaps) (nz 0) then []
  else
    let selectionBuckets := List.map (cap_bucket (perRepoWipCap normalizedCaps)) (group_items queue) in
    let remainingGlobalSlots := nsub (globalWipCap normalizedCaps) (nnat (total_active selectionBuckets)) in
    if nleb remainingGlobalSlots (nz 0) then []
    else snd (select_loop (S (queued_total selectionBuckets)) remainingGlobalSlots selectionBuckets None []).

Example select_diversified :
  let q := [mkQBucket "a/x" [mkItem "1" "a/x" queued; mkItem "2" "a/x" queued];
            mkQBucket "b/y" [mkItem "3" "B/Y " queued; mkItem "4" "b/y" in_progress]] in
  List.map it_id (nextEligibleItems q (mkCaps PInf (nz 2))) = ["1"; "3"; "2"]
  /\ List.map it_id (nextEligibleItems q (mkCaps (nz 2) (nz 1))) = ["1"].
Proof. vm_compute. split; reflexivity. Qed.

(** ** The selection loop *)

Definition of_repo (r : string) (i : PortfolioQueueItem) : bool := String.eqb (it_repoFullName i) r.

(** What the loop keeps true of the buckets and the items picked so far. *)
Record sel_inv (bs : list QueueSelectionBucket) (lastRepo : option string) (sel : list PortfolioQueueItem) : Prop := mkSelInv {
  si_nodup : NoDup (List.map sb_repoFullName bs);
  si_count : forall b, In b bs -> sb_selectedCount b <= List.length (sb_queuedItems b);
  si_items : forall b i, In b bs -> In i (sb_queuedItems b) -> it_repoFullName i = sb_repoFullName b;
  si_prefix : forall b, In b bs ->
    List.filter (of_repo (sb_repoFullName b)) sel = List.firstn (sb_selectedCount b) (sb_queuedItems b);
  si_known : forall i, In i sel -> exists b, In b bs /\ sb_repoFullName b = it_repoFullName i;
  si_last : lastRepo = it_repoFullName <$> hd_error (reverse sel);
  si_div : forall pre x y post, sel = (pre ++ x :: y :: post)%list -> it_repoFullName x = it_repoFullName y ->
    forall b, In b bs -> sb_repoFullName b <> it_repoFullName x ->
    List.filter (of_repo (sb_repoFullName b)) pre = sb_queuedItems b;
}.

Lemma pick_in_fold (f : QueueSelectionBucket -> QueueSelectionBucket -> bool) rest first :
  In (List.fold_left (fun w c => if f c w then c else w) rest first) (first :: rest).
Proof.
  revert first. induction rest as [| c rest IH]; intros first; [by left |]. simpl List.fold_left.
  destruct (IH (if f c first then c else first)) as [H | H]; [| by right; right].
  rewrite <- H. destruct (f c first); [by right; left | by left].
Qed.

Lemma pick_some bs lastRepo b : pickNextBucket bs lastRepo = Some b ->
  In b bs /\ is_eligible b = true
  /\ (lastRepo = Some (sb_repoFullName b) ->
      forall b', In b' bs -> is_eligible b' = true -> sb_repoFullName b' = sb_repoFullName b).
Proof.
  unfold pickNextBucket. set (el := List.filter is_eligible bs).
  set (alt := match lastRepo with None => el | Some _ => _ end).
  assert (Halt : forall x, In x alt -> In x el).
  { intros x. unfold alt. destruct lastRepo; [| done]. rewrite List.filter_In. tauto. }
  set (cands := if (0 <? List.length alt)%nat then alt else el).
  assert (Hc : forall x, In x cands -> In x el) by (unfold cands; destruct (0 <? _)%nat; auto).
  destruct cands as [| first rest] eqn:Ec; [done |]. intros [= E].
  pose proof (pick_in_fold (fun c w => Nat.ltb (projectedLoad c) (projectedLoad w)) rest first) as Hin.
  cbn beta in Hin. rewrite E in Hin. pose proof (Hc b Hin) as Hel. unfold el in Hel. apply List.filter_In in Hel as [H1 H2].
  split; [done |]. split; [done |]. intros HL b' Hb' He'.
  destruct alt as [| a alt'] eqn:Ea.
  - assert (Hb'el : In b' el) by (by apply List.filter_In).
    destruct (String.eqb_spec (sb_repoFullName b') (sb_repoFullName b)) as [-> | Hne]; [done |].
    assert (X : In b' []); [| done]. rewrite <- Ea. unfold alt. rewrite HL. apply List.filter_In.
    split; [done |]. by rewrite (proj2 (String.eqb_neq _ _)).
  - exfalso. unfold cands in Ec. simpl in Ec. injection Ec as -> ->. rewrite <- Ea in Hin.
    unfold alt in Hin. rewrite HL in Hin. apply List.filter_In in Hin as [_ Hn]. by rewrite String.eqb_refl in Hn.
Qed.

Lemma pick_none bs lastRepo : pickNextBucket bs lastRepo = None -> forall b, In b bs -> is_eligible b = false.
Proof.
  unfold pickNextBucket. set (el := List.filter is_eligible bs).
  set (alt := match lastRepo with None => el | Some _ => _ end). intros H b Hb.
  assert (He : el = []).
  { destruct alt as [| a alt']; [| done]. simpl in H. by destruct el. }
  destruct (is_eligible b) eqn:E; [| done]. assert (X : In b el) by (by apply List.filter_In). by rewrite He in X.
Qed.

Lemma bump_repos r bs : List.map sb_repoFullName (bump_selected r bs) = List.map sb_repoFullName bs.
Proof.
  unfold bump_selected. rewrite List.map_map. apply List.map_ext. intros b. by destruct (String.eqb _ _).
Qed.

Lemma bump_in r bs b' : In b' (bump_selected r bs) ->
  exists b, In b bs /\ sb_repoFullName b' = sb_repoFullName b /\ sb_activeCount b' = sb_activeCount b
    /\ sb_queuedItems b' = sb_queuedItems b
    /\ sb_selectedCount b' = (if String.eqb (sb_repoFullName b) r then sb_selectedCount b + 1 else sb_selectedCount b).
Proof.
  unfold bump_selected. rewrite List.in_map_iff. intros (b & <- & Hb). exists b. by destruct (String.eqb _ _).
Qed.

Lemma nodup_same_repo (bs : list QueueSelectionBucket) b b' : NoDup (List.map sb_repoFullName bs) -> In b bs -> In b' bs ->
  sb_repoFullName b = sb_repoFullName b' -> b = b'.
Proof.
  induction bs as [| c bs IH]; [done |]. simpl. intros Hnd. inversion_clear Hnd as [| ? ? Hn Hd].
  intros [-> | Hb] [-> | Hb'] E; auto.
  - destruct Hn. rewrite E. apply list_elem_of_In. by apply List.in_map.
  - destruct Hn. rewrite <- E. apply list_elem_of_In. by apply List.in_map.
Qed.

Lemma firstn_snoc {A} (l : list A) n x : nth_error l n = Some x -> List.firstn (n + 1) l = (List.firstn n l ++ [x])%list.
Proof.
  revert n. induction l as [| a l IH]; intros [| n] H; try discriminate; simpl in *.
  - by injection H as ->.
  - by rewrite IH.
Qed.

(** A split of [l ++ [x]] ending in two adjacent elements either ends at the
    new element or was already there. *)
Lemma snoc_adjacent {A} (l pre post : list A) x a b : (l ++ [x])%list = (pre ++ a :: b :: post)%list ->
  (post = [] /\ b = x /\ l = (pre ++ [a])%list) \/ exists post', l = (pre ++ a :: b :: post')%list.
Proof.
  destruct (decide (post = [])) as [-> | Hne]; intros H.
  - left. replace (pre ++ [a; b])%list with ((pre ++ [a]) ++ [b])%list in H by (by rewrite <- app_assoc).
    apply app_inj_tail in H as [-> ->]. done.
  - right. destruct (exists_last Hne) as (post' & z & ->).
    replace (pre ++ a :: b :: post' ++ [z])%list with ((pre ++ a :: b :: post') ++ [z])%list in H by (by rewrite <- app_assoc).
    apply app_inj_tail in H as [-> _]. by exists post'.
Qed.

Lemma sel_inv_step bs lastRepo sel b item : sel_inv bs lastRepo sel -> pickNextBucket bs lastRepo = Some b ->
  nth_error (sb_queuedItems b) (sb_selectedCount b) = Some item ->
  sel_inv (bump_selected (sb_repoFullName b) bs) (Some (sb_repoFullName b)) (sel ++ [item]).
Proof.
  intros I P N. destruct (pick_some _ _ _ P) as (Hb & He & Hlast).
  assert (Hr : it_repoFullName item = sb_repoFullName b) by (eapply (si_items _ _ _ I); eauto using nth_error_In).
  constructor.
  - rewrite bump_repos. exact (si_nodup _ _ _ I).
  - intros b' Hb'. apply bump_in in Hb' as (c & Hc & Er & _ & Eq & Es). rewrite Es, Eq.
    destruct (String.eqb_spec (sb_repoFullName c) (sb_repoFullName b)) as [E | E]; [| exact (si_count _ _ _ I c Hc)].
    rewrite (nodup_same_repo bs c b (si_nodup _ _ _ I) Hc Hb E). unfold is_eligible in He. apply Nat.ltb_lt in He. lia.
  - intros b' i Hb' Hi. apply bump_in in Hb' as (c & Hc & Er & _ & Eq & _). rewrite Er. rewrite Eq in Hi.
    exact (si_items _ _ _ I c i Hc Hi).
  - intros b' Hb'. apply bump_in in Hb' as (c & Hc & Er & _ & Eq & Es). rewrite Er, Eq, Es, filter_snoc.
    unfold of_repo at 2. rewrite Hr. rewrite (si_prefix _ _ _ I c Hc).
    destruct (String.eqb_spec (sb_repoFullName c) (sb_repoFullName b)) as [E | E].
    + rewrite (nodup_same_repo bs c b (si_nodup _ _ _ I) Hc Hb E), String.eqb_refl. symmetry. by apply firstn_snoc.
    + rewrite (proj2 (String.eqb_neq _ _)) by congruence. by rewrite app_nil_r.
  - intros i Hi. apply in_app_or in Hi.
    assert (K : exists c, In c bs /\ sb_repoFullName c = it_repoFullName i).
    { destruct Hi as [Hi | [<- | []]]; [exact (si_known _ _ _ I i Hi) | by exists b]. }
    destruct K as (c & Hc & Ec).
    assert (Hm : In (sb_repoFullName c) (List.map sb_repoFullName (bump_selected (sb_repoFullName b) bs)))
      by (rewrite bump_repos; by apply List.in_map).
    apply List.in_map_iff in Hm as (c' & Ec' & Hc'). exists c'. split; [done |]. congruence.
  - rewrite reverse_snoc. simpl. by rewrite Hr.
  - intros pre x y post E Exy b' Hb' Hne. apply bump_in in Hb' as (c & Hc & Er & _ & Eq & _). rewrite Er, Eq in *.
    apply snoc_adjacent in E as [(-> & -> & ->) | (post' & ->)]; [| exact (si_div _ _ _ I pre x y post' eq_refl Exy c Hc Hne)].
    assert (HL : lastRepo = Some (sb_repoFullName b)).
    { rewrite (si_last _ _ _ I), reverse_snoc. simpl. by rewrite Exy, Hr. }
    pose proof (si_prefix _ _ _ I c Hc) as Hp. rewrite filter_snoc in Hp. unfold of_repo at 2 in Hp.
    rewrite (proj2 (String.eqb_neq (it_repoFullName x) _)), app_nil_r in Hp by congruence. rewrite Hp.
    apply List.firstn_all2. destruct (is_eligible c) eqn:Ec.
    + destruct Hne. rewrite (Hlast HL c Hc Ec). congruence.
    + unfold is_eligible in Ec. by apply Nat.ltb_ge in Ec.
Qed.

(** ** Termination and exit of the loop *)

(** Items the loop could still pick. *)
Definition room (bs : list QueueSelectionBucket) : nat :=
  list_sum (List.map (fun b => List.length (sb_queuedItems b) - sb_selectedCount b) bs).

(** The part of a bucket the loop never changes. *)
Definition static (b : QueueSelectionBucket) : string * nat * list PortfolioQueueItem :=
  (sb_repoFullName b, sb_activeCount b, sb_queuedItems b).

Lemma bump_static r bs : List.map static (bump_selected r bs) = List.map static bs.
Proof.
  unfold bump_selected. rewrite List.map_map. apply List.map_ext. intros b. by destruct (String.eqb _ _).
Qed.

Lemma bump_absent r bs : ~ In r (List.map sb_repoFullName bs) -> bump_selected r bs = bs.
Proof.
  intros H. unfold bump_selected. rewrite <- (List.map_id bs) at 2. apply List.map_ext_in. intros b Hb.
  rewrite (proj2 (String.eqb_neq _ _)); [done |]. intros E. apply H. rewrite <- E. by apply List.in_map.
Qed.

Lemma room_bump bs b : NoDup (List.map sb_repoFullName bs) -> In b bs -> is_eligible b = true ->
  room bs = S (room (bump_selected (sb_repoFullName b) bs)).
Proof.
  induction bs as [| c bs IH]; [done |]. simpl List.map. intros Hnd. inversion_clear Hnd as [| ? ? Hn Hd].
  rewrite list_elem_of_In in Hn. intros [-> | Hb] He.
  - unfold bump_selected. cbn [List.map]. fold (bump_selected (sb_repoFullName b) bs).
    rewrite (bump_absent _ bs Hn), String.eqb_refl. unfold room; simpl.
    unfold is_eligible in He. apply Nat.ltb_lt in He. lia.
  - unfold bump_selected. cbn [List.map]. fold (bump_selected (sb_repoFullName b) bs).
    rewrite (proj2 (String.eqb_neq (sb_repoFullName c) _)).
    + specialize (IH Hd Hb He). unfold room in *; simpl. lia.
    + intros E. apply Hn. rewrite E. by apply List.in_map.
Qed.

(** Slot counts: unlimited, or an integer. *)
Definition slots_ok (slots : num) : Prop := slots = PInf \/ exists z, slots = nz z.

Lemma slots_succ slots n : slots_ok slots -> nltb (nnat n) slots = true -> nleb (nnat (n + 1)) slots = true.
Proof.
  intros [-> | [z ->]]; [done |]. unfold nnat. rewrite nz_ltb, nz_leb, Z.ltb_lt, Z.leb_le. lia.
Qed.

Lemma loop_spec fuel slots bs lastRepo sel : slots_ok slots -> sel_inv bs lastRepo sel -> room bs < fuel ->
  nleb (nnat (List.length sel)) slots = true ->
  let '(bs', last', sel') := select_loop fuel slots bs lastRepo sel in
  sel_inv bs' last' sel' /\ List.map static bs' = List.map static bs
  /\ nleb (nnat (List.length sel')) slots = true
  /\ (nltb (nnat (List.length sel')) slots = false \/ forall b, In b bs' -> is_eligible b = false).
Proof.
  intros Hs. revert bs lastRepo sel. induction fuel as [| fuel IH]; intros bs lastRepo sel I Hf Hle; [lia |].
  cbn [select_loop]. destruct (nltb (nnat (List.length sel)) slots) eqn:L; cbn [negb]; [| by auto].
  destruct (pickNextBucket bs lastRepo) as [b |] eqn:P.
  2: { split; [done |]. split; [done |]. split; [done |]. right. by eapply pick_none. }
  destruct (pick_some _ _ _ P) as (Hb & He & _).
  destruct (nth_error (sb_queuedItems b) (sb_selectedCount b)) as [item |] eqn:N.
  2: { apply nth_error_None in N. unfold is_eligible in He. apply Nat.ltb_lt in He. lia. }
  pose proof (room_bump bs b (si_nodup _ _ _ I) Hb He) as Hr.
  specialize (IH (bump_selected (sb_repoFullName b) bs) (Some (sb_repoFullName b)) (sel ++ [item])%list
    (sel_inv_step _ _ _ _ _ I P N)).
  rewrite bump_static, List.length_app in IH. apply IH; [lia |]. by apply slots_succ.
Qed.

(** ** Grouping by repository *)

Definition active_in (r : string) (l : list PortfolioQueueItem) : nat :=
  List.length (List.filter (fun i => of_repo r i && isActiveItem i) l).
Definition queued_in (r : string) (l : list PortfolioQueueItem) : list PortfolioQueueItem :=
  List.filter (fun i => of_repo r i && isQueuedItem i) l.
Definition active_all (l : list PortfolioQueueItem) : nat := List.length (List.filter isActiveItem l).

Lemma queued_not_active i : isQueuedItem i = negb (isActiveItem i).
Proof. unfold isQueuedItem, isActiveItem. by destruct (it_state i). Qed.

Definition bucket_for (l : list PortfolioQueueItem) (r : string) : QueueSelectionBucket :=
  mkSel r (active_in r l) (queued_in r l) 0.

Definition group_inv (l : list PortfolioQueueItem) (bs : list QueueSelectionBucket) : Prop :=
  NoDup (List.map sb_repoFullName bs)
  /\ (forall b, In b bs -> b = bucket_for l (sb_repoFullName b))
  /\ (forall i, In i l -> In (it_repoFullName i) (List.map sb_repoFullName bs)).

Lemma group_item_repos bs item :
  List.map sb_repoFullName (group_item bs item) =
  (List.map sb_repoFullName bs ++
    if existsb (fun b => String.eqb (sb_repoFullName b) (it_repoFullName item)) bs then [] else [it_repoFullName item])%list.
Proof.
  induction bs as [| b bs IH]; [reflexivity |]. cbn [group_item existsb]. destruct (String.eqb_spec (sb_repoFullName b) (it_repoFullName item)).
  - cbn [List.map orb]. rewrite app_nil_r. by destruct (isActiveItem item).
  - cbn [List.map orb]. by rewrite IH.
Qed.

Lemma bucket_for_snoc l i r : bucket_for (l ++ [i]) r =
  mkSel r (active_in r l + if of_repo r i && isActiveItem i then 1 else 0)
    (queued_in r l ++ if of_repo r i && isQueuedItem i then [i] else []) 0.
Proof.
  unfold bucket_for, active_in, queued_in. rewrite !filter_snoc, List.length_app.
  by destruct (of_repo r i && isActiveItem i).
Qed.

Lemma absent_repo l r bs : (forall i, In i l -> In (it_repoFullName i) (List.map sb_repoFullName bs)) ->
  ~ In r (List.map sb_repoFullName bs) -> active_in r l = 0 /\ queued_in r l = [].
Proof.
  intros Hk Hr. unfold active_in, queued_in.
  assert (E : forall p : PortfolioQueueItem -> bool, List.filter (fun i => of_repo r i && p i) l = []).
  { intros p. induction l as [| i l IH]; [done |]. cbn [List.filter]. unfold of_repo at 1.
    rewrite (proj2 (String.eqb_neq (it_repoFullName i) r)).
    - cbn [andb]. apply IH. intros j Hj. apply Hk. by right.
    - intros E. apply Hr. rewrite <- E. apply Hk. by left. }
  by rewrite !E.
Qed.

Lemma group_item_in bs item b' : NoDup (List.map sb_repoFullName bs) -> In b' (group_item bs item) ->
  (b' = new_selection_bucket item /\ ~ In (it_repoFullName item) (List.map sb_repoFullName bs))
  \/ (exists b, In b bs /\ sb_repoFullName b = it_repoFullName item
        /\ b' = mkSel (sb_repoFullName b) (sb_activeCount b + if isActiveItem item then 1 else 0)
                  (sb_queuedItems b ++ if isActiveItem item then [] else [item]) (sb_selectedCount b))
  \/ (In b' bs /\ sb_repoFullName b' <> it_repoFullName item).
Proof.
  induction bs as [| b bs IH]; cbn [group_item List.map].
  - intros _ [<- | []]. left. split; [done | by intros []].
  - intros Hnd. inversion_clear Hnd as [| ? ? Hn Hd]. rewrite list_elem_of_In in Hn.
    destruct (String.eqb_spec (sb_repoFullName b) (it_repoFullName item)) as [E | E]; intros [<- | Hb'].
    + right. left. exists b. split; [by left |]. split; [done |].
      destruct (isActiveItem item); [by rewrite app_nil_r | by rewrite Nat.add_0_r].
    + right. right. split; [by right |]. intros E'. apply Hn. rewrite E, <- E'. by apply List.in_map.
    + right. right. split; [by left | done].
    + destruct (IH Hd Hb') as [(-> & Hni) | [(c & Hc & Ec & ->) | (Hin & Hne)]].
      * left. split; [done |]. intros [H | H]; congruence.
      * right. left. exists c. split; [by right |]. done.
      * right. right. split; [by right | done].
Qed.

Lemma group_inv_step l bs item : group_inv l bs -> group_inv (l ++ [item]) (group_item bs item).
Proof.
  intros (Hd & Hb & Hk). split; [| split].
  - rewrite group_item_repos. destruct (existsb _ bs) eqn:E; [by rewrite app_nil_r |].
    rewrite NoDup_ListNoDup. apply List.NoDup_app; [by apply NoDup_ListNoDup | apply List.NoDup_cons; [by intros [] | apply List.NoDup_nil] |].
    intros r Hr [<- | []]. apply List.in_map_iff in Hr as (b & Eb & Hin). rewrite <- not_true_iff_false in E. apply E.
    apply existsb_exists. exists b. split; [done | by apply String.eqb_eq].
  - intros b' Hb'. destruct (group_item_in bs item b' Hd Hb') as [(-> & Hni) | [(b & Hin & Er & ->) | (Hin & Hne)]].
    + unfold new_selection_bucket. cbn [sb_repoFullName]. rewrite bucket_for_snoc.
      destruct (absent_repo l _ bs Hk Hni) as [-> ->]. unfold of_repo. by rewrite String.eqb_refl.
    + cbn [sb_repoFullName]. rewrite bucket_for_snoc. rewrite (Hb b Hin) at 2 3 4. cbn. unfold of_repo.
      rewrite Er, String.eqb_refl, queued_not_active. by destruct (isActiveItem item).
    + rewrite bucket_for_snoc. unfold of_repo. rewrite (proj2 (String.eqb_neq (it_repoFullName item) _)) by congruence.
      cbn [andb]. rewrite Nat.add_0_r, app_nil_r. exact (Hb b' Hin).
  - intros i Hi. rewrite group_item_repos. apply List.in_or_app. apply in_app_or in Hi as [Hi | [<- | []]]; [by left; auto |].
    destruct (existsb _ bs) eqn:E; [left | right; by left].
    apply existsb_exists in E as (b & Hin & Eb). apply String.eqb_eq in Eb. rewrite <- Eb. by apply List.in_map.
Qed.

Lemma group_items_inv q : group_inv (all_items q) (group_items q).
Proof.
  unfold group_items. assert (H : forall l acc bs, group_inv acc bs -> group_inv (acc ++ l) (List.fold_left group_item l bs)).
  { induction l as [| i l IH]; intros acc bs Hi; simpl; [by rewrite app_nil_r |].
    replace (acc ++ i :: l)%list with ((acc ++ [i]) ++ l)%list by (by rewrite <- app_assoc).
    apply IH. by apply group_inv_step. }
  apply (H (all_items q) [] []). split; [constructor | by split].
Qed.

(** ** Caps *)

(** A normalized cap: unlimited, or an integer up to 2^53. *)
Definition cap_ok (c : num) : Prop := c = PInf \/ exists z, (0 <= z <= 2 ^ 53)%Z /\ c = nz z.

Definition caps_ok (caps : PortfolioCaps) : Prop :=
  cap_ok (globalWipCap (normalizeCaps caps)) /\ cap_ok (perRepoWipCap (normalizeCaps caps)).

Definition safe_length (n : nat) : Prop := (Z.of_nat n <= 2 ^ 53)%Z.

Lemma headroom c a : cap_ok c -> safe_length a ->
  nsub c (nnat a) = match c with PInf => PInf | _ => nz (match c with Fin q => Qfloor q | _ => 0%Z end - Z.of_nat a) end.
Proof.
  unfold safe_length. intros [-> | (z & Hz & ->)] Ha; [reflexivity |]. unfold nnat. rewrite nz_sub by lia.
  unfold nz. by rewrite Qfloor_Z.
Qed.

(** The items a repository may still contribute. *)
Definition eligible_in (c : num) (l : list PortfolioQueueItem) (r : string) : list PortfolioQueueItem :=
  match c with
  | Fin q => List.firstn (Z.to_nat (Qfloor q - Z.of_nat (active_in r l))) (queued_in r l)
  | _ => queued_in r l
  end.

Lemma cap_bucket_for c l r : cap_ok c -> safe_length (active_in r l) ->
  cap_bucket c (bucket_for l r) = mkSel r (active_in r l) (eligible_in c l r) 0.
Proof.
  intros Hc Ha. unfold cap_bucket, bucket_for. cbn [sb_activeCount sb_queuedItems sb_repoFullName sb_selectedCount].
  rewrite (headroom c _ Hc Ha). destruct Hc as [-> | (z & Hz & ->)]; [reflexivity |].
  change (match nz z with Fin q0 => Qfloor q0 | _ => 0%Z end) with (Qfloor (inject_Z z)).
  change (eligible_in (nz z) l r) with (List.firstn (Z.to_nat (Qfloor (inject_Z z) - Z.of_nat (active_in r l))) (queued_in r l)).
  change (match nz z with PInf => PInf | _ => nz (Qfloor (inject_Z z) - Z.of_nat (active_in r l)) end)
    with (nz (Qfloor (inject_Z z) - Z.of_nat (active_in r l))).
  rewrite !Qfloor_Z, nz_gtb.
  destruct (Z.ltb_spec 0 (z - Z.of_nat (active_in r l))) as [H | H].
  - unfold slice_to, nz. by rewrite Qfloor_Z.
  - replace (Z.to_nat (z - Z.of_nat (active_in r l))) with 0 by lia. reflexivity.
Qed.

Lemma filter_length_bound {A} (p : A -> bool) l : safe_length (List.length l) -> safe_length (List.length (List.filter p l)).
Proof. unfold safe_length. pose proof (List.filter_length_le p l). lia. Qed.

(** Sum of the active counts over the buckets. *)
Lemma total_active_sum bs : total_active bs = list_sum (List.map sb_activeCount bs).
Proof.
  unfold total_active. assert (H : forall n, List.fold_left (fun sum b => sum + sb_activeCount b) bs n
    = n + list_sum (List.map sb_activeCount bs)).
  { induction bs as [| b bs IH]; intros n; simpl; [lia |]. rewrite IH. lia. }
  by rewrite H.
Qed.

Lemma sum_indicator_absent x v rs : ~ In x rs -> list_sum (List.map (fun r => if String.eqb x r then v else 0) rs) = 0.
Proof.
  induction rs as [| r rs IH]; [reflexivity |]. intros Hn. cbn [List.map]. unfold list_sum in *. simpl.
  rewrite (proj2 (String.eqb_neq x r)) by (intros ->; apply Hn; by left). apply IH. intros H. apply Hn. by right.
Qed.

Lemma sum_indicator x v rs : NoDup rs -> In x rs -> list_sum (List.map (fun r => if String.eqb x r then v else 0) rs) = v.
Proof.
  induction rs as [| r rs IH]; [by intros _ [] |]. intros Hd Hx. inversion_clear Hd as [| ? ? Hn Hd'].
  rewrite list_elem_of_In in Hn. pose proof (sum_indicator_absent x v rs) as Ha. cbn [List.map]. unfold list_sum in *. simpl.
  destruct (String.eqb_spec x r) as [-> | Hne]; [specialize (Ha Hn); lia |].
  destruct Hx as [-> | Hx]; [done |]. by apply IH.
Qed.

Lemma active_sum l rs : NoDup rs -> (forall i, In i l -> In (it_repoFullName i) rs) ->
  list_sum (List.map (fun r => active_in r l) rs) = active_all l.
Proof.
  intros Hd. induction l as [| i l IH]; intros Hk.
  - change (list_sum (List.map (fun _ : string => 0) rs) = 0). clear. induction rs as [| r rs IH]; [reflexivity | exact IH].
  - assert (E : forall r, active_in r (i :: l)
        = (if String.eqb (it_repoFullName i) r then (if isActiveItem i then 1 else 0) else 0) + active_in r l).
    { intros r. unfold active_in, of_repo. cbn [List.filter].
      by destruct (String.eqb (it_repoFullName i) r), (isActiveItem i). }
    rewrite (List.map_ext _ _ E), list_sum_add, sum_indicator, IH; try done.
    + unfold active_all. cbn [List.filter]. by destruct (isActiveItem i).
    + intros j Hj. apply Hk. by right.
    + apply Hk. by left.
Qed.

(** ** The selection, in terms of the queue *)

Definition selection_buckets (q : PortfolioQueue) (caps : PortfolioCaps) : list QueueSelectionBucket :=
  List.map (cap_bucket (perRepoWipCap (normalizeCaps caps))) (group_items q).

Section Selection.
Context (q : PortfolioQueue) (caps : PortfolioCaps).
Hypothesis (Hcaps : caps_ok caps) (Hlen : safe_length (List.length (all_items q))).
Let items := all_items q.
Let per := perRepoWipCap (normalizeCaps caps).
Let glob := globalWipCap (normalizeCaps caps).
Let bs := selection_buckets q caps.

Lemma selection_bucket b : In b bs ->
  b = mkSel (sb_repoFullName b) (active_in (sb_repoFullName b) items) (eligible_in per items (sb_repoFullName b)) 0.
Proof.
  unfold bs, selection_buckets. rewrite List.in_map_iff. intros (c & <- & Hc).
  destruct (group_items_inv q) as (_ & Hb & _). rewrite (Hb c Hc) at 1.
  rewrite cap_bucket_for; [| apply Hcaps | by apply filter_length_bound]. reflexivity.
Qed.

Lemma selection_repos : List.map sb_repoFullName bs = List.map sb_repoFullName (group_items q).
Proof. unfold bs, selection_buckets. rewrite List.map_map. by apply List.map_ext. Qed.

Lemma selection_known i : In i items -> exists b, In b bs /\ sb_repoFullName b = it_repoFullName i.
Proof.
  intros Hi. destruct (group_items_inv q) as (_ & _ & Hk). pose proof (Hk i Hi) as H. rewrite <- selection_repos in H.
  apply List.in_map_iff in H as (b & E & Hb). eauto.
Qed.

Lemma selection_active : total_active bs = active_all items.
Proof.
  rewrite total_active_sum. destruct (group_items_inv q) as (Hd & _ & Hk).
  rewrite <- (active_sum items (List.map sb_repoFullName bs)).
  - rewrite List.map_map. f_equal. apply List.map_ext_in. intros b Hb. by rewrite (selection_bucket b Hb).
  - by rewrite selection_repos.
  - by rewrite selection_repos.
Qed.

Lemma eligible_repo c l r i : In i (eligible_in c l r) -> it_repoFullName i = r.
Proof.
  assert (H : In i (queued_in r l) -> it_repoFullName i = r).
  { unfold queued_in. rewrite List.filter_In, andb_true_iff. unfold of_repo. rewrite String.eqb_eq. tauto. }
  unfold eligible_in. destruct c as [| | | cq]; try exact H. intros Hi. apply H.
  rewrite <- (List.firstn_skipn (Z.to_nat (Qfloor cq - Z.of_nat (active_in r l))) (queued_in r l)).
  apply List.in_or_app. by left.
Qed.

Lemma selection_init : sel_inv bs None [].
Proof.
  destruct (group_items_inv q) as (Hd & _). constructor; try done.
  - by rewrite selection_repos.
  - intros b Hb. rewrite (selection_bucket b Hb). simpl. lia.
  - intros b i Hb. rewrite (selection_bucket b Hb) at 1. simpl. apply eligible_repo.
  - intros b Hb. by rewrite (selection_bucket b Hb).
  - intros pre x y post E. by destruct pre.
Qed.

Lemma slots_facts n : cap_ok glob -> safe_length n ->
  let slots := nsub glob (nnat n) in
  slots_ok slots
  /\ (nleb slots (nz 0) = true -> nleb glob (nnat n) = true)
  /\ (nleb slots (nz 0) = false -> nleb (nnat 0) slots = true)
  /\ (forall k, nleb (nnat k) slots = nleb (nnat (n + k)) glob /\ nltb (nnat k) slots = nltb (nnat (n + k)) glob).
Proof.
  intros Hc Hn slots. unfold slots. rewrite (headroom glob n Hc Hn).
  destruct Hc as [-> | (z & Hz & ->)].
  - split; [by left |]. split; [done |]. split; [done |]. intros k. by split.
  - change (match nz z with PInf => PInf | _ => nz (match nz z with Fin q0 => Qfloor q0 | _ => 0%Z end - Z.of_nat n) end)
      with (nz (Qfloor (inject_Z z) - Z.of_nat n)). rewrite Qfloor_Z. unfold nnat.
    split; [right; eauto |]. rewrite !nz_leb.
    split; [intros H; apply Z.leb_le in H; apply Z.leb_le; lia |].
    split; [intros H; apply Z.leb_gt in H; apply Z.leb_le; lia |].
    intros k. rewrite !nz_leb, !nz_ltb. split; apply Bool.eq_iff_eq_true;
      rewrite ?Z.leb_le, ?Z.ltb_lt; lia.
Qed.

Lemma selection_cases :
  let sel := nextEligibleItems q caps in
  (sel = [] /\ (neqb glob (nz 0) = true \/ neqb per (nz 0) = true \/ nleb glob (nnat (active_all items)) = true))
  \/ (exists bs' last', sel_inv bs' last' sel /\ List.map static bs' = List.map static bs
       /\ nleb (nnat (active_all items + List.length sel)) glob = true
       /\ (nltb (nnat (active_all items + List.length sel)) glob = false
           \/ forall b, In b bs' -> is_eligible b = false)).
Proof.
  unfold nextEligibleItems. cbv zeta. fold per glob. change (List.map (cap_bucket per) (group_items q)) with bs.
  destruct (neqb glob (nz 0)) eqn:Eg; [by left; auto |]. destruct (neqb per (nz 0)) eqn:Ep; [by left; auto |].
  cbn [orb]. rewrite selection_active.
  destruct (slots_facts (active_all items) (proj1 Hcaps) (filter_length_bound _ _ Hlen)) as (S1 & S2 & S3 & S4).
  destruct (nleb (nsub glob (nnat (active_all items))) (nz 0)) eqn:E0; [by left; auto |]. right.
  assert (Hroom : room bs < S (queued_total bs)).
  { unfold room, queued_total. clear. induction bs as [| b l IH]; [simpl; lia |]. unfold list_sum in *. simpl. lia. }
  pose proof (loop_spec (S (queued_total bs)) _ bs None [] S1 selection_init Hroom (S3 eq_refl)) as L.
  destruct (select_loop _ _ bs None []) as [[bs' last'] sel']. cbn [snd]. destruct L as (L1 & L2 & L3 & L4).
  destruct (S4 (List.length sel')) as [E1 E2]. rewrite E1 in L3. rewrite E2 in L4. exists bs', last'. auto.
Qed.

Lemma static_bucket bs' b' : List.map static bs' = List.map static bs -> In b' bs' ->
  sb_queuedItems b' = eligible_in per items (sb_repoFullName b').
Proof.
  intros E Hb'. assert (H : In (static b') (List.map static bs)) by (rewrite <- E; by apply List.in_map).
  apply List.in_map_iff in H as (b & Eb & Hb). unfold static in Eb. injection Eb as E1 E2 E3.
  rewrite <- E3, <- E1. by rewrite (selection_bucket b Hb) at 1.
Qed.

Lemma static_repos bs' : List.map static bs' = List.map static bs ->
  List.map sb_repoFullName bs' = List.map sb_repoFullName bs.
Proof.
  intros E. apply (f_equal (List.map (fun x => fst (fst x)))) in E. by rewrite !List.map_map in E.
Qed.

Lemma no_bucket_nothing r : ~ In r (List.map sb_repoFullName bs) -> queued_in r items = [].
Proof.
  rewrite selection_repos. intros H. destruct (group_items_inv q) as (_ & _ & Hk).
  exact (proj2 (absent_repo _ r _ Hk H)).
Qed.

(** The part of the selection that belongs to one repository. *)
Lemma selection_per_repo bs' last' sel r : sel_inv bs' last' sel -> List.map static bs' = List.map static bs ->
  exists n, n <= List.length (eligible_in per items r)
    /\ List.filter (of_repo r) sel = List.firstn n (eligible_in per items r)
    /\ ((forall b, In b bs' -> is_eligible b = false) -> n = List.length (eligible_in per items r)).
Proof.
  intros I E. destruct (in_dec String.string_dec r (List.map sb_repoFullName bs)) as [H | H].
  - rewrite <- (static_repos bs' E) in H. apply List.in_map_iff in H as (b & <- & Hb).
    pose proof (si_count _ _ _ I b Hb) as Hc. pose proof (si_prefix _ _ _ I b Hb) as Hp.
    rewrite <- (static_bucket bs' b E Hb). exists (sb_selectedCount b). split; [done |]. split; [done |].
    intros Hn. specialize (Hn b Hb). unfold is_eligible in Hn. apply Nat.ltb_ge in Hn. lia.
  - assert (Eq : eligible_in per items r = []).
    { unfold eligible_in. rewrite (no_bucket_nothing r H). destruct per; try done. apply List.firstn_nil. }
    exists 0. rewrite Eq. split; [done |]. split; [| done]. cbn.
    destruct (List.filter (of_repo r) sel) as [| i l] eqn:F; [done |]. exfalso.
    assert (Hi : In i (List.filter (of_repo r) sel)) by (rewrite F; by left).
    apply List.filter_In in Hi as [Hi Hr]. apply String.eqb_eq in Hr. subst r.
    destruct (si_known _ _ _ I i Hi) as (b & Hb & Eb). apply H. rewrite <- (static_repos bs' E), <- Eb. by apply List.in_map.
Qed.

Lemma eligible_within_cap r n : cap_ok per -> n <= List.length (eligible_in per items r) ->
  n = 0 \/ nleb (nnat (active_in r items + n)) per = true.
Proof.
  intros [Hp | (z & Hz & Hp)] Hn; rewrite Hp in *; [by right |].
  unfold eligible_in, nz in Hn. rewrite Qfloor_Z, List.length_firstn in Hn.
  destruct n as [| n]; [by left |]. right. unfold nnat. rewrite nz_leb. apply Z.leb_le. lia.
Qed.

(** What is not eligible is held back by the cap. *)
Lemma eligible_all_or_cap r : cap_ok per ->
  eligible_in per items r = queued_in r items
  \/ nleb per (nnat (active_in r items + List.length (eligible_in per items r))) = true.
Proof.
  intros [Hp | (z & Hz & Hp)]; rewrite Hp; [by left |]. unfold eligible_in, nz. rewrite Qfloor_Z.
  destruct (Nat.le_gt_cases (List.length (queued_in r items)) (Z.to_nat (z - Z.of_nat (active_in r items)))) as [H | H].
  - left. by apply List.firstn_all2.
  - right. rewrite List.length_firstn. unfold nnat. fold (nz z). rewrite nz_leb. apply Z.leb_le. lia.
Qed.
End Selection.

(** A selected batch never breaks a cap: together with the work already in
    progress it fits the global cap, and for every repository the per-repository
    cap ([Infinity] meaning no cap); a repository already at its cap contributes
    nothing. *)
Theorem nextEligibleItems_respects_caps q caps :
  caps_ok caps -> safe_length (List.length (all_items q)) ->
  let sel := nextEligibleItems q caps in
  (sel = [] \/ nleb (nnat (active_all (all_items q) + List.length sel)) (globalWipCap (normalizeCaps caps)) = true)
  /\ (forall r, let n := List.length (List.filter (of_repo r) sel) in
        n = 0 \/ nleb (nnat (active_in r (all_items q) + n)) (perRepoWipCap (normalizeCaps caps)) = true).
Proof.
  intros Hc Hl. cbv zeta. destruct (selection_cases q caps Hc Hl) as [[E _] | (bs & lst & I & Es & G & _)].
  - rewrite E. split; [by left |]. intros r. by left.
  - split; [by right |]. intros r. destruct (selection_per_repo q caps Hc Hl _ _ _ r I Es) as (n & Hn & E & _).
    rewrite E, List.length_firstn, Nat.min_l by exact Hn. by apply eligible_within_cap; [apply Hc |].
Qed.

Definition sample_queue : PortfolioQueue :=
  [mkQBucket "a/x" [mkItem "1" "a/x" queued; mkItem "2" "a/x" queued; mkItem "5" "a/x" queued];
   mkQBucket "b/y" [mkItem "3" "b/y" queued; mkItem "4" "b/y" in_progress]].
Definition sample_caps : PortfolioCaps := mkCaps PInf (nz 2).

Lemma sample_caps_ok : caps_ok sample_caps.
Proof.
  split; [by left |]. right. exists 2%Z. split; [lia | reflexivity].
Qed.
Lemma sample_safe : safe_length (List.length (all_items sample_queue)).
Proof. unfold safe_length. change (List.length (all_items sample_queue)) with 5. lia. Qed.

Lemma nextEligibleItems_respects_caps_witness :
  let n := List.length (List.filter (of_repo "a/x") (nextEligibleItems sample_queue sample_caps)) in
  n = 2 /\ (n = 0 \/ nleb (nnat (active_in "a/x" (all_items sample_queue) + n)) (nz 2) = true).
Proof.
  split; [reflexivity |].
  exact (proj2 (nextEligibleItems_respects_caps sample_queue sample_caps sample_caps_ok sample_safe) "a/x").
Defined.

(** First in, first out.  For every repository the selected items are a
    prefix of its queued items in queue order, so nothing is selected twice,
    skipped, or selected while in progress. *)
Theorem nextEligibleItems_fifo q caps r :
  caps_ok caps -> safe_length (List.length (all_items q)) ->
  exists rest, queued_in r (all_items q) = (List.filter (of_repo r) (nextEligibleItems q caps) ++ rest)%list.
Proof.
  intros Hc Hl. destruct (selection_cases q caps Hc Hl) as [[E _] | (bs & lst & I & Es & _)].
  - rewrite E. by eexists.
  - destruct (selection_per_repo q caps Hc Hl _ _ _ r I Es) as (n & _ & -> & _). unfold eligible_in.
    destruct (perRepoWipCap _) as [| | | c];
      try (eexists; symmetry; apply List.firstn_skipn).
    rewrite List.firstn_firstn. eexists; symmetry; apply List.firstn_skipn.
Qed.

Lemma nextEligibleItems_fifo_witness :
  exists rest, queued_in "a/x" (all_items sample_queue)
    = (List.filter (of_repo "a/x") (nextEligibleItems sample_queue sample_caps) ++ rest)%list.
Proof. exact (nextEligibleItems_fifo sample_queue sample_caps "a/x" sample_caps_ok sample_safe). Defined.

(** Work-conserving.  When global capacity is left over after the
    selection (and neither cap is zero), every repository has either all its
    queued items selected or reached its own cap. *)
Theorem nextEligibleItems_work_conserving q caps r :
  caps_ok caps -> safe_length (List.length (all_items q)) ->
  neqb (globalWipCap (normalizeCaps caps)) (nz 0) = false -> neqb (perRepoWipCap (normalizeCaps caps)) (nz 0) = false ->
  let sel := nextEligibleItems q caps in
  nltb (nnat (active_all (all_items q) + List.length sel)) (globalWipCap (normalizeCaps caps)) = true ->
  List.filter (of_repo r) sel = queued_in r (all_items q)
  \/ nleb (perRepoWipCap (normalizeCaps caps))
          (nnat (active_in r (all_items q) + List.length (List.filter (of_repo r) sel))) = true.
Proof.
  intros Hc Hl Z1 Z2. cbv zeta. intros Hlt.
  destruct (selection_cases q caps Hc Hl) as [[E [X | [X | X]]] | (bs & lst & I & Es & _ & Hex)];
    [by rewrite X in Z1 | by rewrite X in Z2 | |].
  - exfalso. rewrite E, Nat.add_0_r in Hlt. apply nltb_not_nleb in Hlt. by rewrite Hlt in X.
  - destruct Hex as [Hex | Hex]; [by rewrite Hex in Hlt |].
    destruct (selection_per_repo q caps Hc Hl _ _ _ r I Es) as (n & _ & -> & Hn). rewrite (Hn Hex).
    rewrite List.firstn_all. apply eligible_all_or_cap. apply Hc.
Qed.

Lemma nextEligibleItems_work_conserving_witness :
  List.filter (of_repo "b/y") (nextEligibleItems sample_queue sample_caps) = queued_in "b/y" (all_items sample_queue)
  \/ nleb (nz 2) (nnat (active_in "b/y" (all_items sample_queue)
       + List.length (List.filter (of_repo "b/y") (nextEligibleItems sample_queue sample_caps)))) = true.
Proof.
  apply (nextEligibleItems_work_conserving sample_queue sample_caps "b/y" sample_caps_ok sample_safe); reflexivity.
Defined.

(** Diversification.  The batch takes two items of the same repository in
    a row only when every other repository had already contributed all it may
    (its queued items up to the per-repository cap). *)
Theorem nextEligibleItems_diversifies q caps pre x y post r :
  caps_ok caps -> safe_length (List.length (all_items q)) ->
  nextEligibleItems q caps = (pre ++ x :: y :: post)%list ->
  it_repoFullName x = it_repoFullName y -> r <> it_repoFullName x ->
  List.filter (of_repo r) pre = eligible_in (perRepoWipCap (normalizeCaps caps)) (all_items q) r.
Proof.
  intros Hc Hl E Exy Hr. destruct (selection_cases q caps Hc Hl) as [[E' _] | (bs & lst & I & Es & _)].
  { rewrite E' in E. by destruct pre. }
  destruct (in_dec String.string_dec r (List.map sb_repoFullName (selection_buckets q caps))) as [H | H].
  - rewrite <- (static_repos q caps bs Es) in H. apply List.in_map_iff in H as (b & <- & Hb).
    rewrite <- (static_bucket q caps Hc Hl bs b Es Hb). exact (si_div _ _ _ I pre x y post E Exy b Hb Hr).
  - destruct (selection_per_repo q caps Hc Hl _ _ _ r I Es) as (n & Hn & F & _).
    assert (Eq : eligible_in (perRepoWipCap (normalizeCaps caps)) (all_items q) r = []).
    { unfold eligible_in. rewrite (no_bucket_nothing q caps r H).
      destruct (perRepoWipCap _); try done. apply List.firstn_nil. }
    rewrite Eq in *. rewrite List.firstn_nil, E, List.filter_app in F. by apply app_eq_nil in F as [F _].
Qed.

Lemma nextEligibleItems_diversifies_witness :
  let q := [mkQBucket "a/x" [mkItem "1" "a/x" queued; mkItem "2" "a/x" queued; mkItem "5" "a/x" queued];
            mkQBucket "b/y" [mkItem "3" "b/y" queued]] in
  let caps := mkCaps PInf PInf in
  List.filter (of_repo "b/y") [mkItem "1" "a/x" queued; mkItem "3" "b/y" queued] = eligible_in PInf (all_items q) "b/y".
Proof.
  intros q caps. apply (nextEligibleItems_diversifies q caps _ (mkItem "2" "a/x" queued) (mkItem "5" "a/x" queued) []);
    [split; by left | | vm_compute; reflexivity | reflexivity | discriminate].
  unfold safe_length. change (List.length (all_items q)) with 4. lia.
Defined.

(** ** Enqueue and dequeue *)

Definition item_ids (q : PortfolioQueue) : list string :=
  List.flat_map (fun b => List.map (fun i => cleanId (it_id i)) (qb_items b)) q.

(** A bucket as the operations build it. *)
Definition bucket_wf (b : PortfolioQueueBucket) : Prop :=
  qb_items b <> [] /\ str_empty (qb_repoFullName b) = false /\ cleanRepoFullName (qb_repoFullName b) = qb_repoFullName b
  /\ forall i, In i (qb_items b) ->
       normalizeItem i = i /\ it_repoFullName i = qb_repoFullName b /\ str_empty (it_id i) = false.

Definition queue_wf (q : PortfolioQueue) : Prop :=
  List.NoDup (item_ids q) /\ List.NoDup (List.map qb_repoFullName q) /\ forall b, In b q -> bucket_wf b.

Lemma normalizeItem_idem i : normalizeItem (normalizeItem i) = normalizeItem i.
Proof.
  unfold normalizeItem, cleanId, cleanRepoFullName; cbn [it_id it_repoFullName it_state].
  rewrite trim_idem, clean_idem. by destruct (it_state i).
Qed.

Lemma has_item q id : queueHasItem q id = true <-> In id (item_ids q).
Proof.
  unfold queueHasItem, item_ids. rewrite existsb_exists, List.in_flat_map. split; intros (b & Hb & H); exists b; split; auto.
  - apply existsb_exists in H as (i & Hi & E). apply String.eqb_eq in E. apply List.in_map_iff. eauto.
  - apply List.in_map_iff in H as (i & E & Hi). apply existsb_exists. exists i. split; [done | by apply String.eqb_eq].
Qed.

Lemma map_normalize_wf b : bucket_wf b -> List.map normalizeItem (qb_items b) = qb_items b.
Proof.
  intros (_ & _ & _ & H). rewrite <- (List.map_id (qb_items b)) at 2. apply List.map_ext_in. intros i Hi. by apply H.
Qed.

(** Where a new item goes in a well-formed queue. *)
Lemma append_spec q i : (forall b, In b q -> bucket_wf b) ->
  match append_to_bucket q i with
  | None => ~ In (it_repoFullName i) (List.map qb_repoFullName q)
  | Some q' => exists q1 b q2, q = (q1 ++ b :: q2)%list /\ qb_repoFullName b = it_repoFullName i
                 /\ q' = (q1 ++ mkQBucket (qb_repoFullName b) (qb_items b ++ [i]) :: q2)%list
  end.
Proof.
  induction q as [| b q IH]; intros Hw; cbn [append_to_bucket]; [by intros [] |].
  assert (Wb : bucket_wf b) by (apply Hw; by left). destruct Wb as (W1 & W2 & W3 & W4). rewrite W3.
  destruct (String.eqb_spec (qb_repoFullName b) (it_repoFullName i)) as [E | E].
  - exists [], b, q. rewrite <- E, map_normalize_wf by (apply Hw; by left). done.
  - specialize (IH (fun c Hc => Hw c (or_intror Hc))). destruct (append_to_bucket q i) as [q' |]; cbn.
    + destruct IH as (q1 & c & q2 & -> & Er & ->). exists (b :: q1), c, q2. done.
    + intros [H | H]; [congruence | done].
Qed.

Lemma item_ids_app q1 q2 : item_ids (q1 ++ q2)%list = (item_ids q1 ++ item_ids q2)%list.
Proof. apply List.flat_map_app. Qed.

Lemma item_ids_cons b q : item_ids (b :: q) = (List.map (fun i => cleanId (it_id i)) (qb_items b) ++ item_ids q)%list.
Proof. reflexivity. Qed.

(** The new item is the only change to the identifiers, up to order. *)
Lemma enqueue_ids q i q1 b q2 : q = (q1 ++ b :: q2)%list ->
  Permutation (item_ids (q1 ++ mkQBucket (qb_repoFullName b) (qb_items b ++ [i]) :: q2)%list) (cleanId (it_id i) :: item_ids q).
Proof.
  intros ->. rewrite !item_ids_app, !item_ids_cons. cbn [qb_items]. rewrite List.map_app, <- !app_assoc. cbn [List.map app].
  rewrite !(app_assoc (item_ids q1)). symmetry. apply Permutation_middle.
Qed.

Section Enqueue.
Context (q : PortfolioQueue) (item : PortfolioQueueItem) (Hw : queue_wf q).
Let n := normalizeItem item.
Hypothesis (Hid : str_empty (it_id n) = false) (Hrepo : str_empty (it_repoFullName n) = false)
           (Hfresh : queueHasItem q (it_id n) = false).

Lemma enqueue_cases :
  (~ In (it_repoFullName n) (List.map qb_repoFullName q)
     /\ enqueueItem q item = (q ++ [mkQBucket (it_repoFullName n) [n]])%list)
  \/ (exists q1 b q2, q = (q1 ++ b :: q2)%list /\ qb_repoFullName b = it_repoFullName n
        /\ enqueueItem q item = (q1 ++ mkQBucket (qb_repoFullName b) (qb_items b ++ [n]) :: q2)%list).
Proof.
  unfold enqueueItem. fold n. rewrite Hid, Hrepo, Hfresh. cbn [orb].
  pose proof (append_spec q n (proj2 (proj2 Hw))) as H. destruct (append_to_bucket q n); [right | left]; auto.
Qed.

Lemma clean_id_n : cleanId (it_id n) = it_id n.
Proof. apply trim_idem. Qed.

Lemma item_ok : normalizeItem n = n /\ str_empty (it_id n) = false.
Proof. split; [apply normalizeItem_idem | exact Hid]. Qed.

Lemma enqueue_wf : queue_wf (enqueueItem q item).
Proof.
  destruct Hw as (W1 & W2 & W3).
  assert (Hnew : ~ In (it_id n) (item_ids q)) by (rewrite <- has_item, Hfresh; discriminate).
  destruct item_ok as [N1 N2].
  destruct enqueue_cases as [(Hn & ->) | (q1 & b & q2 & E & Er & ->)].
  - split; [| split].
    + rewrite item_ids_app. change (item_ids [mkQBucket (it_repoFullName n) [n]]) with [cleanId (it_id n)].
      rewrite clean_id_n. apply List.NoDup_app; auto.
      * apply List.NoDup_cons; [by intros [] | apply List.NoDup_nil].
      * by intros x Hx [<- | []].
    + rewrite List.map_app. apply List.NoDup_app; [done | apply List.NoDup_cons; [by intros [] | apply List.NoDup_nil] |].
      by intros x Hx [<- | []].
    + intros b Hb. apply in_app_or in Hb as [Hb | [<- | []]]; [by apply W3 |].
      split; [done |]. split; [exact Hrepo |]. split; [apply clean_idem |]. by intros i [<- | []].
  - split; [| split].
    + eapply Permutation_NoDup; [symmetry; by apply enqueue_ids |]. rewrite clean_id_n. by apply List.NoDup_cons.
    + rewrite E in W2. rewrite List.map_app in W2 |- *. exact W2.
    + intros c Hc. apply in_app_or in Hc as [Hc | [<- | Hc]].
      * apply W3. rewrite E. apply in_or_app. by left.
      * destruct (W3 b) as (B1 & B2 & B3 & B4); [rewrite E; apply in_or_app; right; by left |].
        split; [by destruct (qb_items b) |]. split; [done |]. split; [done |]. cbn [qb_items qb_repoFullName].
        intros i Hi. apply in_app_or in Hi as [Hi | [<- | []]]; [by apply B4 |]. by rewrite Er.
      * apply W3. rewrite E. apply in_or_app. right. by right.
Qed.

Lemma enqueue_has : queueHasItem (enqueueItem q item) (it_id n) = true.
Proof.
  apply has_item. destruct enqueue_cases as [(_ & ->) | (q1 & b & q2 & E & _ & ->)].
  - rewrite item_ids_app. apply in_or_app. right. left. apply clean_id_n.
  - eapply Permutation_in; [symmetry; by apply enqueue_ids |]. left. apply clean_id_n.
Qed.
End Enqueue.

(** One bucket with the target removed; an empty bucket disappears. *)
Definition strip (targetId : string) (b : PortfolioQueueBucket) : list PortfolioQueueBucket :=
  let items := List.filter (keeps targetId) (qb_items b) in
  if (0 <? List.length items)%nat then [mkQBucket (qb_repoFullName b) items] else [].

Definition stripped (targetId : string) (q : PortfolioQueue) : PortfolioQueue := List.flat_map (strip targetId) q.

Lemma filter_keeps_all targetId l : (forall i, In i l -> cleanId (it_id i) <> targetId) -> List.filter (keeps targetId) l = l.
Proof.
  intros H. induction l as [| i l IH]; [done |]. cbn [List.filter]. unfold keeps at 1.
  rewrite (proj2 (String.eqb_neq _ _)) by (apply H; by left). cbn [negb]. f_equal. apply IH. intros j Hj. apply H. by right.
Qed.

Lemma stripped_absent targetId q : (forall b, In b q -> bucket_wf b) -> ~ In targetId (item_ids q) -> stripped targetId q = q.
Proof.
  induction q as [| b q IH]; intros Hw Hn; [done |]. unfold stripped. cbn [List.flat_map]. fold (stripped targetId q).
  rewrite item_ids_cons, List.in_app_iff in Hn. rewrite IH; [| by auto using in_cons | tauto].
  destruct (Hw b (or_introl eq_refl)) as (B1 & _). unfold strip. rewrite filter_keeps_all.
  - destruct b as [r l]. cbn in *. by destruct l.
  - intros i Hi E. apply Hn. left. rewrite <- E. apply List.in_map_iff. eauto.
Qed.

(** [dequeueItem] of a non-blank id is [stripped], whichever branch it takes. *)
Lemma dequeue_stripped q id : (forall b, In b q -> bucket_wf b) -> str_empty (cleanId id) = false ->
  dequeueItem q id = stripped (cleanId id) q.
Proof.
  intros Hw Hb. unfold dequeueItem. rewrite Hb. cbv zeta. fold (strip (cleanId id)). fold (stripped (cleanId id) q).
  destruct (existsb _ q) eqn:E; [reflexivity |]. symmetry. apply stripped_absent; [done |]. intros Hin.
  rewrite <- not_true_iff_false in E. apply E. unfold item_ids in Hin. apply List.in_flat_map in Hin as (b & Hbq & Hi).
  apply List.in_map_iff in Hi as (i & Ei & Hi). apply existsb_exists. exists b. split; [done |].
  apply existsb_exists. exists i. split; [done |]. unfold keeps. by rewrite Ei, String.eqb_refl.
Qed.

Lemma stripped_ids targetId q : item_ids (stripped targetId q) = List.filter (fun x => negb (String.eqb x targetId)) (item_ids q).
Proof.
  induction q as [| b q IH]; [done |]. unfold stripped. cbn [List.flat_map]. fold (stripped targetId q).
  rewrite item_ids_app, IH, item_ids_cons, List.filter_app. f_equal. unfold strip.
  assert (E : List.map (fun i => cleanId (it_id i)) (List.filter (keeps targetId) (qb_items b)) =
    List.filter (fun x => negb (String.eqb x targetId)) (List.map (fun i => cleanId (it_id i)) (qb_items b))).
  { induction (qb_items b) as [| i l IHl]; [done |]. cbn [List.filter List.map]. unfold keeps at 1.
    destruct (negb (String.eqb (cleanId (it_id i)) targetId)); cbn [List.map]; by rewrite IHl. }
  rewrite <- E. destruct (List.filter (keeps targetId) (qb_items b)); [done |]. cbn. by rewrite app_nil_r.
Qed.

Lemma stripped_repos targetId q : exists p : PortfolioQueueBucket -> bool,
  List.map qb_repoFullName (stripped targetId q) = List.map qb_repoFullName (List.filter p q).
Proof.
  exists (fun b => (0 <? List.length (List.filter (keeps targetId) (qb_items b)))%nat).
  induction q as [| b q IH]; [done |]. unfold stripped. cbn [List.flat_map List.filter]. fold (stripped targetId q).
  unfold strip at 1. destruct (0 <? _)%nat; cbn; by rewrite IH.
Qed.

Lemma nodup_map_filter (p : PortfolioQueueBucket -> bool) q :
  List.NoDup (List.map qb_repoFullName q) -> List.NoDup (List.map qb_repoFullName (List.filter p q)).
Proof.
  induction q as [| b q IH]; [done |]. cbn [List.map List.filter]. intros H. inversion_clear H as [| ? ? Hn Hd].
  destruct (p b); [| by apply IH]. cbn [List.map]. apply List.NoDup_cons; [| by apply IH].
  intros Hin. apply Hn. apply List.in_map_iff in Hin as (c & E & Hc). apply List.filter_In in Hc as [Hc _].
  apply List.in_map_iff. eauto.
Qed.

Lemma stripped_wf targetId q : queue_wf q -> queue_wf (stripped targetId q).
Proof.
  intros (W1 & W2 & W3). split; [| split].
  - rewrite stripped_ids. by apply List.NoDup_filter.
  - destruct (stripped_repos targetId q) as [p ->]. by apply nodup_map_filter.
  - intros b Hb. unfold stripped in Hb. apply List.in_flat_map in Hb as (c & Hc & Hb). unfold strip in Hb.
    destruct (List.filter (keeps targetId) (qb_items c)) as [| i l] eqn:F; [by destruct Hb |].
    destruct Hb as [<- | []]. destruct (W3 c Hc) as (C1 & C2 & C3 & C4). split; [done |]. split; [done |]. split; [done |].
    cbn [qb_items qb_repoFullName]. intros j Hj. apply C4. rewrite <- F in Hj. by apply List.filter_In in Hj as [Hj _].
Qed.

(** The queue invariant.  Ids are unique across the queue, every repository
    has one bucket, and buckets are non-empty and hold normalized items of their
    repository; enqueue and dequeue keep it so, for any arguments. *)
Theorem queue_ops_preserve_wf q item id :
  queue_wf q -> queue_wf (enqueueItem q item) /\ queue_wf (dequeueItem q id).
Proof.
  intros Hw. split.
  - destruct (str_empty (it_id (normalizeItem item))) eqn:E1; [unfold enqueueItem; by rewrite E1 |].
    destruct (str_empty (it_repoFullName (normalizeItem item))) eqn:E2; [unfold enqueueItem; by rewrite E1, E2 |].
    destruct (queueHasItem q (it_id (normalizeItem item))) eqn:E3; [unfold enqueueItem; by rewrite E1, E2, E3 |].
    by apply enqueue_wf.
  - destruct (str_empty (cleanId id)) eqn:E; [unfold dequeueItem; by rewrite E |].
    rewrite dequeue_stripped by (done || apply Hw). by apply stripped_wf.
Qed.

Lemma queue_ops_preserve_wf_witness : queue_wf (enqueueItem [] (mkItem " 7 " "Acme/Widgets" queued)).
Proof.
  apply (queue_ops_preserve_wf [] (mkItem " 7 " "Acme/Widgets" queued) "7").
  split; [apply List.NoDup_nil |]. split; [apply List.NoDup_nil | by intros b []].
Defined.

Lemma stripped_app targetId q1 q2 : stripped targetId (q1 ++ q2)%list = (stripped targetId q1 ++ stripped targetId q2)%list.
Proof. apply List.flat_map_app. Qed.

(** Round trip.  Enqueueing a fresh item makes it present, and dequeueing
    its id right after gives back the very same queue. *)
Theorem enqueue_dequeue_round_trip q item :
  queue_wf q -> str_empty (it_id (normalizeItem item)) = false ->
  str_empty (it_repoFullName (normalizeItem item)) = false ->
  queueHasItem q (it_id (normalizeItem item)) = false ->
  queueHasItem (enqueueItem q item) (it_id (normalizeItem item)) = true
  /\ dequeueItem (enqueueItem q item) (it_id item) = q.
Proof.
  intros Hw H1 H2 H3. split; [by apply enqueue_has |].
  pose proof (enqueue_wf q item Hw H1 H2 H3) as Hw'. change (it_id (normalizeItem item)) with (cleanId (it_id item)) in *.
  rewrite dequeue_stripped by (done || apply Hw'). set (t := cleanId (it_id item)) in *.
  assert (Hn : ~ In t (item_ids q)) by (rewrite <- has_item, H3; discriminate).
  assert (Ht : keeps t (normalizeItem item) = false).
  { unfold keeps. cbn [it_id normalizeItem]. unfold t, cleanId. by rewrite trim_idem, String.eqb_refl. }
  destruct (enqueue_cases q item Hw H1 H2 H3) as [(_ & ->) | (q1 & b & q2 & E & Er & ->)].
  - rewrite stripped_app, (stripped_absent t q (proj2 (proj2 Hw)) Hn).
    unfold stripped, strip. cbn [List.flat_map List.filter qb_items]. rewrite Ht. apply app_nil_r.
  - transitivity (stripped t q); [| exact (stripped_absent t q (proj2 (proj2 Hw)) Hn)].
    rewrite E, !stripped_app. f_equal.
    unfold stripped. cbn [List.flat_map]. f_equal. unfold strip. cbn [qb_items qb_repoFullName].
    by rewrite filter_snoc, Ht, app_nil_r.
Qed.

Lemma enqueue_dequeue_round_trip_witness :
  dequeueItem (enqueueItem [] (mkItem " 7 " "Acme/Widgets" queued)) " 7 " = [].
Proof.
  apply (enqueue_dequeue_round_trip [] (mkItem " 7 " "Acme/Widgets" queued)); try reflexivity.
  split; [apply List.NoDup_nil |]. split; [apply List.NoDup_nil | by intros b []].
Defined.
