(* ===== verification/WorktreePool.v ===== *)
(** * Git worktrees of coding attempts

    Models [miner/worktree-plan.ts] (the deterministic location of one attempt's
    worktree, and its creation and removal through an injected [git] runner) and
    [miner/worktree-pool.ts] (the pool of live worktrees under a concurrency
    cap).  [join] of [node:path] and the [git] runner are parameters.

    Main results: a slug is a valid, bounded, stable ref component; the pool
    never exceeds its cap nor holds an attempt twice, over all sequences of
    operations; reclaiming partitions the pool; and two distinct attempt ids can
    be given the same worktree, contrary to the module's documentation. *)

From Stdlib Require Import QArith ZArith Ascii Lia.
From stdpp Require Import base list strings option.
From S2P Require Import Prelude JsNumber JsString RateLimit.

Local Open Scope nat_scope.
Local Open Scope string_scope.
Local Open Scope js_scope.

(** ** Slugs *)

Definition WORKTREE_SUBDIR : string := ".loopover-worktrees".
Definition WORKTREE_BRANCH_PREFIX : string := "loopover/attempt/".
Definition MAX_SLUG_LENGTH : nat := 64.

(** The class [[a-z0-9._-]] and its separator part [[-.]]. *)
Definition slug_char (c : ascii) : bool :=
  let n := N_of_ascii c in
  ((97 <=? n) && (n <=? 122) || (48 <=? n) && (n <=? 57) || (n =? 46) || (n =? 95) || (n =? 45))%N.
Definition edge_char (c : ascii) : bool := Ascii.eqb c "-" || Ascii.eqb c ".".

(** [.replace(/[^a-z0-9._-]+/g, "-")]: a run of other characters becomes one
    dash; [inside] says the previous character was part of such a run. *)
Fixpoint dash_runs (inside : bool) (s : string) : string :=
  match s with
  | EmptyString => EmptyString
  | String c s' =>
      if slug_char c then String c (dash_runs false s')
      else if inside then dash_runs true s' else String "-" (dash_runs true s')
  end.

(** [.replace(/^[-.]+|[-.]+$/g, "")]. *)
Fixpoint strip_start (s : string) : string :=
  match s with
  | String c s' => if edge_char c then strip_start s' else s
  | EmptyString => EmptyString
  end.
Fixpoint strip_end (s : string) : string :=
  match s with
  | EmptyString => EmptyString
  | String c s' =>
      match strip_end s' with
      | EmptyString => if edge_char c then EmptyString else String c EmptyString
      | t => String c t
      end
  end.
Definition strip_edges (s : string) : string := strip_end (strip_start s).

(** [.slice(0, n)]. *)
Fixpoint str_take (n : nat) (s : string) : string :=
  match n, s with
  | S n, String c s' => String c (str_take n s')
  | _, _ => EmptyString
  end.

Definition slugifyAttemptId (attemptId : string) : completion string :=
  let slug := strip_edges (str_take MAX_SLUG_LENGTH (strip_edges (dash_runs false (toLowerCase (trim attemptId))))) in
  if str_empty slug then Thrown "invalid_attempt_id" else Normal slug.

(** ** Worktrees *)

Record WorktreePlan := mkPlan { wp_attemptId : string; wp_worktreePath : string; wp_branchName : string }.

Record WorktreeExecResult := mkExec { ex_code : option num; ex_stderr : option string }.

Record WorktreeAddResult := mkAdd { wa_ok : bool; wa_plan : WorktreePlan; wa_error : option string }.
Record WorktreeRemoveResult := mkRemove { wr_ok : bool; wr_removed : bool; wr_error : option string }.

Section Plan.
(** [join(repoPath, WORKTREE_SUBDIR, slug)] of [node:path]. *)
Context (path_join : string -> string -> string -> string).
(** [exec(cmd, args, { cwd })]: settles with a result or rejects. *)
Context (exec : string -> list string -> string -> completion WorktreeExecResult).

Definition planWorktree (repoPath attemptId : string) : completion WorktreePlan :=
  slug <- slugifyAttemptId attemptId ;;
  Normal (mkPlan attemptId (path_join repoPath WORKTREE_SUBDIR slug) (WORKTREE_BRANCH_PREFIX ++ slug)).

(** [(result.stderr ?? "").trim() || fallback]. *)
Definition exec_detail (result : WorktreeExecResult) (what : string) : string :=
  let detail := trim (ex_stderr result ?? "") in
  if str_empty detail
  then what ++ (match ex_code result with Some c => num_to_string c | None => "null" end)
  else detail.

Definition exit_ok (result : WorktreeExecResult) : bool :=
  match ex_code result with Some c => neqb c (nz 0) | None => false end.

Definition addWorktree (repoPath baseBranch attemptId : string) : completion WorktreeAddResult :=
  plan <- planWorktree repoPath attemptId ;;
  result <- exec "git" ["worktree"; "add"; "-b"; wp_branchName plan; wp_worktreePath plan; baseBranch] repoPath ;;
  Normal (if exit_ok result then mkAdd true plan None
          else mkAdd false plan (Some (exec_detail result "git_worktree_add_exit_"))).

Definition shouldRetainWorktree (attemptOk : bool) : bool := negb attemptOk.

Definition removeWorktree (repoPath worktreePath : string) (retain : bool) : completion WorktreeRemoveResult :=
  if retain then Normal (mkRemove true false None)
  else
    result <- exec "git" ["worktree"; "remove"; "--force"; worktreePath] repoPath ;;
    Normal (if exit_ok result then mkRemove true true None
            else mkRemove false false (Some (exec_detail result "git_worktree_remove_exit_"))).
End Plan.

(** ** The pool *)

Record WorktreeAllocation := mkAlloc { al_attemptId : string; al_repoPath : string; al_plan : WorktreePlan }.

(** [WorktreePoolState.allocations]. *)
Definition WorktreePoolState : Type := list WorktreeAllocation.
Definition EMPTY_WORKTREE_POOL : WorktreePoolState := [].

Inductive AcquireFailure := already_allocated | at_capacity.

Inductive AcquireWorktreeResult :=
| AcquireOk (state : WorktreePoolState) (allocation : WorktreeAllocation)
| AcquireFailed (why : AcquireFailure) (state : WorktreePoolState).

Definition isWorktreeAllocated (state : WorktreePoolState) (attemptId : string) : bool :=
  existsb (fun allocation => String.eqb (al_attemptId allocation) attemptId) state.

Definition availableWorktreeSlots (state : WorktreePoolState) (maxConcurrency : num) : num :=
  nmax (nz 0) (nsub (finiteNonNegativeInt maxConcurrency) (nnat (List.length state))).

Definition acquireWorktree (path_join : string -> string -> string -> string) (state : WorktreePoolState)
    (maxConcurrency : num) (attemptId repoPath : string) : completion AcquireWorktreeResult :=
  if isWorktreeAllocated state attemptId then Normal (AcquireFailed already_allocated state)
  else if ngeb (nnat (List.length state)) (finiteNonNegativeInt maxConcurrency)
  then Normal (AcquireFailed at_capacity state)
  else
    plan <- planWorktree path_join repoPath attemptId ;;
    let allocation := mkAlloc attemptId repoPath plan in
    Normal (AcquireOk (state ++ [allocation])%list allocation).

Definition releaseWorktree (state : WorktreePoolState) (attemptId : string) : WorktreePoolState :=
  let allocations := List.filter (fun a => negb (String.eqb (al_attemptId a) attemptId)) state in
  if Nat.eqb (List.length allocations) (List.length state) then state else allocations.

Definition reclaimOrphanedWorktrees (state : WorktreePoolState) (liveAttemptIds : list string)
    : WorktreePoolState * list WorktreeAllocation :=
  let live := js_set liveAttemptIds in
  let remaining := List.filter (fun a => set_has live (al_attemptId a)) state in
  let reclaimed := List.filter (fun a => negb (set_has live (al_attemptId a))) state in
  (if Nat.eqb (List.length reclaimed) 0 then state else remaining, reclaimed).

Example slug_example : slugifyAttemptId "  Fix #12 (acme/widgets)!  " = Normal "fix-12-acme-widgets".
Proof. reflexivity. Qed.

(** ** Slugs are valid, bounded and stable *)

Lemma slug_char_facts c : slug_char c = true -> is_space c = false /\ lower_ascii c = c.
Proof. by destruct c as [[] [] [] [] [] [] [] []]. Qed.

Lemma dash_runs_chars b s : str_forallb slug_char (dash_runs b s) = true.
Proof.
  revert b. induction s as [| c s IH]; intros b; [reflexivity |]. simpl.
  destruct (slug_char c) eqn:E; [simpl; by rewrite E, IH |]. destruct b; [apply IH |]. simpl. apply IH.
Qed.

Lemma strip_start_chars s : str_forallb slug_char s = true -> str_forallb slug_char (strip_start s) = true.
Proof.
  induction s as [| c s IH]; [done |]. simpl. rewrite andb_true_iff. intros [H1 H2].
  destruct (edge_char c); [by apply IH |]. simpl. by rewrite H1, H2.
Qed.

Lemma strip_end_cons c s : strip_end (String c s) =
  if str_empty (strip_end s) then (if edge_char c then "" else String c "") else String c (strip_end s).
Proof. simpl. by destruct (strip_end s). Qed.

Lemma strip_end_chars s : str_forallb slug_char s = true -> str_forallb slug_char (strip_end s) = true.
Proof.
  induction s as [| c s IH]; [done |]. rewrite strip_end_cons. simpl. rewrite andb_true_iff. intros [H1 H2].
  destruct (str_empty (strip_end s)); [destruct (edge_char c); simpl; by rewrite ?H1 |]. simpl. by rewrite H1, IH.
Qed.

Lemma str_take_chars n s : str_forallb slug_char s = true -> str_forallb slug_char (str_take n s) = true.
Proof.
  revert n. induction s as [| c s IH]; intros [| n]; try done. simpl. rewrite !andb_true_iff. intros [? ?]. auto.
Qed.

Lemma strip_start_length s : String.length (strip_start s) <= String.length s.
Proof. induction s as [| c s IH]; [done |]. simpl. destruct (edge_char c); simpl; lia. Qed.

Lemma strip_end_length s : String.length (strip_end s) <= String.length s.
Proof.
  induction s as [| c s IH]; [done |]. rewrite strip_end_cons.
  destruct (str_empty _); [destruct (edge_char c) |]; simpl; lia.
Qed.

Lemma str_take_length n s : String.length (str_take n s) <= n.
Proof. revert n. induction s as [| c s IH]; intros [| n]; simpl; try lia. specialize (IH n). lia. Qed.

Lemma str_take_all n s : String.length s <= n -> str_take n s = s.
Proof.
  revert n. induction s as [| c s IH]; intros [| n]; simpl; try done; try lia. intros H. by rewrite IH by lia.
Qed.

Lemma strip_end_idem s : strip_end (strip_end s) = strip_end s.
Proof.
  induction s as [| c s IH]; [done |]. rewrite strip_end_cons. destruct (str_empty (strip_end s)) eqn:E.
  - destruct (edge_char c) eqn:Ec; [done |]. simpl. by rewrite Ec.
  - by rewrite strip_end_cons, IH, E.
Qed.

Lemma strip_start_cases s : strip_start s = "" \/ exists c t, strip_start s = String c t /\ edge_char c = false.
Proof.
  induction s as [| c s IH]; [by left |]. simpl. destruct (edge_char c) eqn:E; [exact IH |]. right. eauto.
Qed.

(** The result of stripping has no separator at either end. *)
Lemma strip_edges_fixed s : strip_edges (strip_edges s) = strip_edges s.
Proof.
  unfold strip_edges. destruct (strip_start_cases s) as [-> | (c & t & -> & Ec)]; [done |].
  assert (E : exists u, strip_end (String c t) = String c u).
  { rewrite strip_end_cons, Ec. destruct (str_empty (strip_end t)); eauto. }
  destruct E as [u E]. rewrite E at 1. cbn [strip_start]. rewrite Ec, <- E. apply strip_end_idem.
Qed.

Lemma strip_end_snoc t c : edge_char c = true -> strip_end (t ++ String c "") = strip_end t.
Proof.
  intros Hc. induction t as [| a t IH]; [simpl; by rewrite Hc |].
  rewrite string_app_cons, !strip_end_cons. by rewrite IH.
Qed.

Lemma slug_chars_fixed s : str_forallb slug_char s = true ->
  trim_start s = s /\ trim_end s = s /\ toLowerCase s = s /\ dash_runs false s = s.
Proof.
  induction s as [| c s IH]; [done |]. cbn [str_forallb]. rewrite andb_true_iff. intros [Hc Hs].
  destruct (IH Hs) as (_ & I2 & I3 & I4). destruct (slug_char_facts c Hc) as [F1 F2].
  cbn [trim_start trim_end toLowerCase dash_runs]. rewrite I2, F1, F2, Hc, I3, I4. repeat split. by destruct s.
Qed.

Lemma strip_edges_chars s : str_forallb slug_char s = true -> str_forallb slug_char (strip_edges s) = true.
Proof. intros H. apply strip_end_chars, strip_start_chars, H. Qed.

Lemma strip_edges_length s : String.length (strip_edges s) <= String.length s.
Proof. etransitivity; [apply strip_end_length | apply strip_start_length]. Qed.

Lemma slug_shape id s : slugifyAttemptId id = Normal s ->
  s <> "" /\ str_forallb slug_char s = true /\ String.length s <= MAX_SLUG_LENGTH /\ strip_edges s = s.
Proof.
  unfold slugifyAttemptId. generalize MAX_SLUG_LENGTH. intros m. set (r := dash_runs _ _).
  destruct (str_empty _) eqn:E; [done |]. intros [= <-]. apply str_empty_false in E.
  split; [exact E |]. split; [| split; [| apply strip_edges_fixed]].
  - apply strip_edges_chars, str_take_chars, strip_edges_chars, dash_runs_chars.
  - etransitivity; [apply strip_edges_length | apply str_take_length].
Qed.

Lemma slug_stable s : s <> "" -> str_forallb slug_char s = true -> String.length s <= MAX_SLUG_LENGTH ->
  strip_edges s = s -> slugifyAttemptId s = Normal s.
Proof.
  intros H1 H2 H3 H4. destruct (slug_chars_fixed s H2) as (E1 & E2 & E3 & E4). unfold slugifyAttemptId, trim.
  rewrite E1, E2, E3, E4, H4, (str_take_all _ s H3), H4. by rewrite (proj2 (str_empty_false s) H1).
Qed.

(** The slug of an attempt id is a usable path and ref component: not
    empty, at most 64 characters, made only of [a-z0-9._-], and never starting
    or ending with a dash or a dot, even where the truncation cut; and it is
    its own slug, so a worktree found by name maps back to its location. *)
Theorem slugifyAttemptId_valid id s :
  slugifyAttemptId id = Normal s ->
  s <> "" /\ String.length s <= 64 /\ str_forallb slug_char s = true
  /\ (forall t c, edge_char c = true -> s <> String c t /\ s <> t ++ String c "")
  /\ slugifyAttemptId s = Normal s.
Proof.
  intros H. destruct (slug_shape id s H) as (H1 & H2 & H3 & H4).
  split; [done |]. split; [done |]. split; [done |]. split; [| by apply slug_stable].
  intros t c Hc. unfold strip_edges in H4.
  pose proof (strip_start_length s) as L1. pose proof (strip_end_length (strip_start s)) as L2. rewrite H4 in L2. split.
  - intros ->. simpl in L1, L2. rewrite Hc in L1, L2. pose proof (strip_start_length t). lia.
  - intros E. assert (Es : strip_start s = s).
    { destruct (strip_start_cases s) as [X | (a & u & X & Ha)].
      - rewrite X in H4. by rewrite <- H4 in H1.
      - destruct s as [| b s']; [done |]. simpl in X |- *. destruct (edge_char b) eqn:Eb; [| done].
        simpl in L1, L2. rewrite Eb in L1, L2. pose proof (strip_start_length s'). lia. }
    rewrite Es, E, strip_end_snoc in H4 by done. pose proof (strip_end_length t) as L3. rewrite H4, string_length_app in L3.
    simpl in L3. lia.
Qed.

Lemma slugifyAttemptId_valid_witness : slugifyAttemptId "fix-12" = Normal "fix-12".
Proof. apply (slugifyAttemptId_valid "Fix #12" "fix-12"). reflexivity. Defined.

(** ** The pool over sequences of operations *)

Inductive pool_op :=
| Acquire (attemptId repoPath : string)
| Release (attemptId : string)
| Reclaim (live : list string).

Definition pool_ids (s : WorktreePoolState) : list string := List.map al_attemptId s.

(** A failed acquisition, or one whose id has no slug, leaves the pool as it was. *)
Definition pool_step (path_join : string -> string -> string -> string) (cap : num) (s : WorktreePoolState) (op : pool_op)
    : WorktreePoolState :=
  match op with
  | Acquire attemptId repoPath =>
      match acquireWorktree path_join s cap attemptId repoPath with
      | Normal (AcquireOk s' _) => s'
      | Normal (AcquireFailed _ s') => s'
      | Thrown _ => s
      end
  | Release attemptId => releaseWorktree s attemptId
  | Reclaim live => fst (reclaimOrphanedWorktrees s live)
  end.

Definition pool_run path_join cap (ops : list pool_op) : WorktreePoolState :=
  List.fold_left (pool_step path_join cap) ops EMPTY_WORKTREE_POOL.

(** Each attempt holds at most one slot, its plan is the one of its id, and the
    cap is not exceeded. *)
Definition pool_inv path_join (cap : num) (s : WorktreePoolState) : Prop :=
  List.NoDup (pool_ids s)
  /\ nleb (nnat (List.length s)) (finiteNonNegativeInt cap) = true
  /\ forall a, In a s -> planWorktree path_join (al_repoPath a) (al_attemptId a) = Normal (al_plan a).

Lemma allocated_iff s id : isWorktreeAllocated s id = true <-> In id (pool_ids s).
Proof.
  unfold isWorktreeAllocated, pool_ids. rewrite existsb_exists, List.in_map_iff.
  split; intros (a & H1 & H2); exists a; rewrite String.eqb_eq in *; auto.
Qed.

Lemma release_filter s id : releaseWorktree s id = List.filter (fun a => negb (String.eqb (al_attemptId a) id)) s.
Proof.
  unfold releaseWorktree. destruct (Nat.eqb_spec (List.length (List.filter (fun a => negb (String.eqb (al_attemptId a) id)) s))
    (List.length s)) as [E | E]; [| done]. symmetry. by apply filter_full.
Qed.

Lemma reclaim_filter s live : reclaimOrphanedWorktrees s live =
  (List.filter (fun a => set_has (js_set live) (al_attemptId a)) s,
   List.filter (fun a => negb (set_has (js_set live) (al_attemptId a))) s).
Proof.
  unfold reclaimOrphanedWorktrees. f_equal. destruct (Nat.eqb_spec (List.length (List.filter
    (fun a => negb (set_has (js_set live) (al_attemptId a))) s)) 0) as [E | E]; [| done].
  symmetry. exact (filter_nothing (fun a => set_has (js_set live) (al_attemptId a)) s E).
Qed.

Lemma filter_inv path_join cap p s : pool_inv path_join cap s -> pool_inv path_join cap (List.filter p s).
Proof.
  intros (H1 & H2 & H3). split; [| split].
  - unfold pool_ids in *. clear H2 H3. induction s as [| a s IH]; [done |]. cbn [List.filter List.map] in *.
    inversion_clear H1 as [| ? ? Hn Hd]. destruct (p a); [| by apply IH]. cbn [List.map]. apply List.NoDup_cons; [| by apply IH].
    intros Hin. apply Hn. apply List.in_map_iff in Hin as (b & E & Hb). apply List.filter_In in Hb as [Hb _].
    apply List.in_map_iff. eauto.
  - eapply nleb_trans; [| exact H2]. unfold nnat. rewrite nz_leb. apply Z.leb_le. pose proof (List.filter_length_le p s). lia.
  - intros a Ha. apply List.filter_In in Ha as [Ha _]. by apply H3.
Qed.

Lemma acquire_inv path_join cap s id repo s' a :
  pool_inv path_join cap s -> acquireWorktree path_join s cap id repo = Normal (AcquireOk s' a) -> pool_inv path_join cap s'.
Proof.
  intros (H1 & H2 & H3). unfold acquireWorktree. destruct (isWorktreeAllocated s id) eqn:Al; [done |].
  destruct (ngeb _ _) eqn:C; [done |]. destruct (planWorktree path_join repo id) as [plan |] eqn:P; [| done]. cbn [cbind].
  intros [= <- <-]. split; [| split].
  - unfold pool_ids. rewrite List.map_app. apply List.NoDup_app; [done | apply List.NoDup_cons; [by intros [] | apply List.NoDup_nil] |].
    intros x Hx [<- | []]. apply allocated_iff in Hx. cbn [al_attemptId] in Hx. by rewrite Hx in Al.
  - rewrite List.length_app. unfold ngeb in C. destruct (finiteNonNegativeInt_nz cap) as (z & Hz & E). rewrite E in *.
    unfold nnat in *. rewrite nz_leb in *. apply Z.leb_gt in C. apply Z.leb_le. simpl. lia.
  - intros b Hb. apply in_app_or in Hb as [Hb | [<- | []]]; [by apply H3 | exact P].
Qed.

Lemma pool_step_inv path_join cap s op : pool_inv path_join cap s -> pool_inv path_join cap (pool_step path_join cap s op).
Proof.
  intros H. destruct op as [id repo | id | live]; cbn [pool_step].
  - destruct (acquireWorktree path_join s cap id repo) as [[s' a | why s'] | m] eqn:E; [by eapply acquire_inv | | done].
    assert (s' = s) as ->; [| done]. revert E. unfold acquireWorktree.
    destruct (isWorktreeAllocated s id); [by intros [= _ <-] |]. destruct (ngeb _ _); [by intros [= _ <-] |].
    by destruct (planWorktree path_join repo id).
  - rewrite release_filter. by apply filter_inv.
  - rewrite reclaim_filter. by apply filter_inv.
Qed.

(** In every sequence of acquisitions, releases and reclaims, whatever the
    cap (a malformed one is zero), the pool holds at most the cap, no attempt
    twice, and every slot the plan of its own attempt. *)
Theorem pool_run_inv path_join cap ops : pool_inv path_join cap (pool_run path_join cap ops).
Proof.
  unfold pool_run. assert (H : pool_inv path_join cap EMPTY_WORKTREE_POOL).
  { split; [apply List.NoDup_nil |]. split; [| by intros a []].
    destruct (finiteNonNegativeInt_nz cap) as (z & Hz & ->). unfold nnat. rewrite nz_leb. by apply Z.leb_le. }
  revert H. generalize EMPTY_WORKTREE_POOL. induction ops as [| op ops IH]; intros s Hs; [exact Hs |].
  apply IH. by apply pool_step_inv.
Qed.

(** The outcome of an acquisition: it fails with [already_allocated]
    exactly for a current holder, with [at_capacity] exactly for a newcomer to a
    full pool, throws exactly for an id without a slug that would otherwise get
    a slot, and otherwise appends one slot for that id. *)
Theorem acquireWorktree_outcomes path_join s cap id repo :
  match acquireWorktree path_join s cap id repo with
  | Normal (AcquireFailed already_allocated s') => In id (pool_ids s) /\ s' = s
  | Normal (AcquireFailed at_capacity s') =>
      ~ In id (pool_ids s) /\ s' = s /\ ngeb (nnat (List.length s)) (finiteNonNegativeInt cap) = true
  | Normal (AcquireOk s' a) =>
      ~ In id (pool_ids s) /\ nltb (nnat (List.length s)) (finiteNonNegativeInt cap) = true
      /\ s' = (s ++ [a])%list /\ al_attemptId a = id /\ al_repoPath a = repo
      /\ releaseWorktree s' id = s
  | Thrown m => m = "invalid_attempt_id" /\ slugifyAttemptId id = Thrown m
  end.
Proof.
  unfold acquireWorktree. destruct (isWorktreeAllocated s id) eqn:Al; [split; [by apply allocated_iff | done] |].
  assert (Hn : ~ In id (pool_ids s)) by (rewrite <- allocated_iff, Al; discriminate).
  destruct (ngeb _ _) eqn:C; [done |]. unfold planWorktree.
  destruct (slugifyAttemptId id) as [slug | m] eqn:Sl; cbn [cbind].
  - split; [done |]. split.
    { unfold ngeb in C. destruct (finiteNonNegativeInt_nz cap) as (z & Hz & E). rewrite E in *. unfold nnat in *.
      rewrite nz_leb in C. rewrite nz_ltb. apply Z.leb_gt in C. by apply Z.ltb_lt. }
    split; [done |]. split; [done |]. split; [done |].
    rewrite release_filter, List.filter_app. cbn [List.filter al_attemptId]. rewrite String.eqb_refl. cbn [negb].
    rewrite app_nil_r. clear -Hn. induction s as [| a s IH]; [done |]. cbn [List.filter]. simpl in Hn.
    rewrite (proj2 (String.eqb_neq _ _)) by tauto. cbn [negb]. f_equal. apply IH. tauto.
  - split; [| done]. revert Sl. unfold slugifyAttemptId. destruct (str_empty _); congruence.
Qed.

(** Reclaiming splits the pool: every slot of a live attempt stays, every
    other one is handed back for teardown, none is lost or invented. *)
Theorem reclaim_partitions s live :
  let '(s', reclaimed) := reclaimOrphanedWorktrees s live in
  (forall a, In a s' <-> In a s /\ al_attemptId a ∈ live)
  /\ (forall a, In a reclaimed <-> In a s /\ al_attemptId a ∉ live)
  /\ List.length s' + List.length reclaimed = List.length s.
Proof.
  rewrite reclaim_filter. split; [| split].
  - intros a. rewrite List.filter_In, set_has_elem, js_set_elem. done.
  - intros a. rewrite List.filter_In, negb_true_iff, <- not_true_iff_false, set_has_elem, js_set_elem. done.
  - induction s as [| a s IH]; [done |]. cbn [List.filter]. destruct (set_has _ _); simpl; lia.
Qed.

(** Two concurrent attempts with different ids can be handed one worktree: the
    path and branch are keyed on the slug, not on the id, and slugs collide. *)
Theorem distinct_attempts_can_share_worktree path_join :
  exists a b, a <> b /\
  match pool_run path_join (nz 2) [Acquire a "/repo"; Acquire b "/repo"] with
  | [x; y] => al_attemptId x = a /\ al_attemptId y = b
              /\ wp_worktreePath (al_plan x) = wp_worktreePath (al_plan y)
              /\ wp_branchName (al_plan x) = wp_branchName (al_plan y)
  | _ => False
  end.
Proof. exists "fix/12", "fix-12". split; [discriminate |]. vm_compute. repeat split. Qed.
