(* ===== verification/PlanDag.v ===== *)
(** * Plan DAG

    Models the multi-step plan of a miner: [plan-dag.ts] (build, validate,
    advance), [plan-export.ts] (dependency order and Markdown rendering),
    [plan-step-readiness.ts], [plan-overall-status.ts] and the one-predicate
    modules [plan-blocked.ts], [plan-completed.ts], [plan-completion.ts],
    [plan-empty.ts], [plan-failure.ts], [plan-pending.ts],
    [plan-progress-complete.ts], [plan-ready.ts], [plan-running.ts],
    [plan-skipped.ts], [plan-step-count.ts], [plan-step-stats.ts] and
    [plan-terminated.ts].

    A [Map] built from the steps is a [gmap] in which later steps win.  The
    depth-first search of [validatePlanDag] takes fuel, the number of steps,
    which bounds its depth: every call colours a step that had no colour.  The
    outer loop of [orderByDependency] takes as many rounds as there are steps,
    since a round that makes progress removes one.

    Main results: validation accepts exactly the acyclic, closed plans with
    unique ids; the dependency order is a permutation, and a topological order
    for valid plans; a valid plan is never blocked; the status functions agree;
    finished steps stay finished. *)

From stdpp Require Import base list strings option gmap relations.
From Stdlib Require Import QArith Qround ZArith Ascii Lia.
From S2P Require Import Prelude JsNumber JsString.

Local Open Scope nat_scope.
Local Open Scope string_scope.
Local Open Scope js_scope.

(** ** Data *)

Inductive PlanStepStatus := st_pending | st_running | st_completed | st_failed | st_skipped.

#[global] Instance PlanStepStatus_eq_dec : EqDecision PlanStepStatus.
Proof. solve_decision. Defined.

Definition status_to_string (s : PlanStepStatus) : string :=
  match s with
  | st_pending => "pending" | st_running => "running" | st_completed => "completed"
  | st_failed => "failed" | st_skipped => "skipped"
  end.

Record PlanStep := mkStep {
  ps_id : string;
  ps_title : string;
  ps_actionClass : option string;
  ps_dependsOn : list string;
  ps_status : PlanStepStatus;
  ps_attempts : num;
  ps_maxAttempts : num;
  ps_lastError : option string;
}.

(** [PlanDag.steps]. *)
Definition PlanDag : Type := list PlanStep.

(** ** Readiness and predicates *)

Definition isDone (status : PlanStepStatus) : bool :=
  match status with st_completed | st_skipped => true | _ => false end.

Definition has_status (s : PlanStepStatus) (step : PlanStep) : bool := bool_decide (ps_status step = s).

(** [new Map(plan.steps.map((step) => [step.id, step]))]. *)
Definition byId_map (plan : PlanDag) : gmap string PlanStep :=
  List.fold_left (fun m step => <[ps_id step := step]> m) plan ∅.

Definition statusById (plan : PlanDag) : gmap string PlanStepStatus :=
  List.fold_left (fun m step => <[ps_id step := ps_status step]> m) plan ∅.

Definition nextReadySteps (plan : PlanDag) : list PlanStep :=
  List.filter (fun step => has_status st_pending step
    && forallb (fun dep => isDone (statusById plan !! dep ?? st_pending)) (ps_dependsOn step)) plan.

Definition countPlanSteps (plan : PlanDag) : nat := List.length plan.
Definition countPlanStepsByStatus (plan : PlanDag) (status : PlanStepStatus) : nat :=
  List.length (List.filter (has_status status) plan).

Definition hasPlanCompletedSteps (plan : PlanDag) : bool := existsb (has_status st_completed) plan.
Definition hasPlanFailedSteps (plan : PlanDag) : bool := existsb (has_status st_failed) plan.
Definition hasPlanPendingSteps (plan : PlanDag) : bool := existsb (has_status st_pending) plan.
Definition hasPlanRunningSteps (plan : PlanDag) : bool := existsb (has_status st_running) plan.
Definition hasPlanSkippedSteps (plan : PlanDag) : bool := existsb (has_status st_skipped) plan.
Definition isPlanEmpty (plan : PlanDag) : bool := Nat.eqb (List.length plan) 0.
Definition isPlanFullyCompleted (plan : PlanDag) : bool :=
  Nat.ltb 0 (List.length plan) && forallb (has_status st_completed) plan.
Definition isPlanProgressComplete (plan : PlanDag) : bool :=
  if Nat.eqb (List.length plan) 0 then false
  else forallb (fun step => has_status st_completed step || has_status st_skipped step) plan.
Definition hasPlanReadySteps (plan : PlanDag) : bool := Nat.ltb 0 (List.length (nextReadySteps plan)).
Definition isPlanTerminated (plan : PlanDag) : bool := hasPlanFailedSteps plan || isPlanProgressComplete plan.

Inductive PlanOverallStatus := ov_pending | ov_running | ov_completed | ov_failed | ov_blocked.

#[global] Instance PlanOverallStatus_eq_dec : EqDecision PlanOverallStatus.
Proof. solve_decision. Defined.

Definition resolvePlanOverallStatus (plan : PlanDag) : PlanOverallStatus :=
  let total := List.length plan in
  let completed := List.length (List.filter (has_status st_completed) plan) in
  let skipped := List.length (List.filter (has_status st_skipped) plan) in
  let failed := List.length (List.filter (has_status st_failed) plan) in
  let running := List.length (List.filter (has_status st_running) plan) in
  let pending := List.length (List.filter (has_status st_pending) plan) in
  if Nat.ltb 0 total && Nat.eqb (completed + skipped) total then ov_completed
  else if Nat.ltb 0 failed then ov_failed
  else if Nat.ltb 0 running then ov_running
  else if Nat.ltb 0 pending && Nat.eqb (List.length (nextReadySteps plan)) 0 then ov_blocked
  else ov_pending.

Definition isPlanBlocked (plan : PlanDag) : bool :=
  let total := List.length plan in
  if Nat.eqb total 0 then false
  else
    let completed := List.length (List.filter (has_status st_completed) plan) in
    let skipped := List.length (List.filter (has_status st_skipped) plan) in
    if Nat.eqb (completed + skipped) total then false
    else if existsb (has_status st_failed) plan then false
    else if existsb (has_status st_running) plan then false
    else existsb (has_status st_pending) plan && Nat.eqb (List.length (nextReadySteps plan)) 0.

Record PlanProgress := mkProgress {
  pp_total : nat; pp_completed : nat; pp_failed : nat; pp_running : nat; pp_pending : nat; pp_skipped : nat;
  pp_status : PlanOverallStatus;
}.

Definition planProgress (plan : PlanDag) : PlanProgress :=
  let count := fun status => List.length (List.filter (has_status status) plan) in
  let completed := count st_completed in
  let skipped := count st_skipped in
  let failed := count st_failed in
  let running := count st_running in
  let pending := count st_pending in
  let total := List.length plan in
  let status :=
    if Nat.ltb 0 total && Nat.eqb (completed + skipped) total then ov_completed
    else if Nat.ltb 0 failed then ov_failed
    else if Nat.ltb 0 running then ov_running
    else if Nat.ltb 0 pending && Nat.eqb (List.length (nextReadySteps plan)) 0 then ov_blocked
    else ov_pending in
  mkProgress total completed failed running pending skipped status.

(** ** Building and advancing *)

Definition DEFAULT_MAX_ATTEMPTS : num := nz 1.

Record RawStep := mkRaw {
  raw_id : string; raw_title : string; raw_actionClass : option string;
  raw_dependsOn : option (list string); raw_maxAttempts : option num;
}.

Definition buildPlanDag (steps : list RawStep) : PlanDag :=
  List.map (fun step =>
    mkStep (raw_id step) (raw_title step) (raw_actionClass step)
      (js_set (List.filter (fun dep => negb (String.eqb dep (raw_id step))) (raw_dependsOn step ?? [])))
      st_pending (nz 0)
      (nmin (nz 10) (nmax (nz 1) (ntrunc (raw_maxAttempts step ?? DEFAULT_MAX_ATTEMPTS)))) None) steps.

Definition with_status (step : PlanStep) (s : PlanStepStatus) (attempts : num) (err : option string) : PlanStep :=
  mkStep (ps_id step) (ps_title step) (ps_actionClass step) (ps_dependsOn step) s attempts (ps_maxAttempts step) err.

Definition mapStep (plan : PlanDag) (stepId : string) (update : PlanStep -> PlanStep) : PlanDag :=
  List.map (fun step => if String.eqb (ps_id step) stepId then update step else step) plan.

Definition markStepRunning (plan : PlanDag) (stepId : string) : PlanDag :=
  mapStep plan stepId (fun step =>
    match ps_status step with
    | st_pending => with_status step st_running (ps_attempts step) (ps_lastError step)
    | _ => step
    end).

Inductive StepOutcome := out_completed | out_failed | out_skipped.

Definition apply_outcome (outcome : StepOutcome) (error : option string) (step : PlanStep) : PlanStep :=
  if isDone (ps_status step) || has_status st_failed step then step
  else match outcome with
       | out_completed => with_status step st_completed (ps_attempts step) None
       | out_skipped => with_status step st_skipped (ps_attempts step) None
       | out_failed =>
           let attempts := nadd (ps_attempts step) (nz 1) in
           let exhausted := ngeb attempts (ps_maxAttempts step) in
           with_status step (if exhausted then st_failed else st_pending) attempts (Some (error ?? "step failed"))
       end.

Definition applyStepResult (plan : PlanDag) (stepId : string) (outcome : StepOutcome) (error : option string) : PlanDag :=
  mapStep plan stepId (apply_outcome outcome error).

(** ** Validation *)

(** Colours 1 and 2; an id without an entry has colour 0. *)
Inductive Color := gray | black.

#[global] Instance Color_eq_dec : EqDecision Color.
Proof. solve_decision. Defined.

Section Search.
Context (byId : gmap string PlanStep).

Definition deps_of (id : string) : list string :=
  match byId !! id with Some step => ps_dependsOn step | None => [] end.

(** The loop over the dependencies of [id]; [search] is the recursive call. *)
Fixpoint visit (search : gmap string Color -> string -> option (bool * gmap string Color)) (id : string)
    (deps : list string) (color : gmap string Color) : option (bool * gmap string Color) :=
  match deps with
  | [] => Some (false, <[id := black]> color)
  | dep :: deps =>
      match color !! dep with
      | Some gray => Some (true, color)
      | Some black => visit search id deps color
      | None =>
          if bool_decide (is_Some (byId !! dep))
          then match search color dep with
               | None => None
               | Some (true, color) => Some (true, color)
               | Some (false, color) => visit search id deps color
               end
          else visit search id deps color
      end
  end.

(** [None] only when the fuel runs out. *)
Fixpoint hasCycle (fuel : nat) (color : gmap string Color) (id : string) : option (bool * gmap string Color) :=
  match fuel with
  | 0 => None
  | S fuel => visit (hasCycle fuel) id (deps_of id) (<[id := gray]> color)
  end.

(** The loop over all steps; [Some true] when a cycle was found. *)
Fixpoint any_cycle (fuel : nat) (color : gmap string Color) (ids : list string) : option bool :=
  match ids with
  | [] => Some false
  | id :: ids =>
      match color !! id with
      | Some _ => any_cycle fuel color ids
      | None => match hasCycle fuel color id with
                | None => None
                | Some (true, _) => Some true
                | Some (false, color) => any_cycle fuel color ids
                end
      end
  end.
End Search.

Definition validatePlanDag (plan : PlanDag) : bool * list string :=
  let ids := List.map ps_id plan in
  let idSet := js_set ids in
  let dup := if Nat.eqb (List.length idSet) (List.length ids) then [] else ["duplicate step ids"] in
  let unknown := List.flat_map (fun step =>
    List.map (fun dep => "step " ++ ps_id step ++ " depends on unknown step " ++ dep)
      (List.filter (fun dep => negb (set_has idSet dep)) (ps_dependsOn step))) plan in
  let cycle := match any_cycle (byId_map plan) (List.length plan) ∅ ids with
               | Some false => []
               | _ => ["plan has a dependency cycle"]
               end in
  let errors := (dup ++ unknown ++ cycle)%list in
  (Nat.eqb (List.length errors) 0, errors).

(** ** Dependency order *)

(** One pass of the [for] loop over [remaining], with its three variables. *)
Fixpoint emit_pass (remaining : list PlanStep) (emitted : list string) (ordered : list PlanStep)
    : list PlanStep * list string * list PlanStep * bool :=
  match remaining with
  | [] => ([], emitted, ordered, false)
  | step :: rest =>
      if forallb (set_has emitted) (ps_dependsOn step)
      then let '(r, e, o, _) := emit_pass rest (ps_id step :: emitted) (ordered ++ [step])%list in (r, e, o, true)
      else let '(r, e, o, p) := emit_pass rest emitted ordered in (step :: r, e, o, p)
  end.

Fixpoint emit_rounds (fuel : nat) (remaining : list PlanStep) (emitted : list string) (ordered : list PlanStep)
    : list PlanStep * list string * list PlanStep :=
  match fuel with
  | 0 => (remaining, emitted, ordered)
  | S fuel =>
      match remaining with
      | [] => (remaining, emitted, ordered)
      | _ => let '(r, e, o, progressed) := emit_pass remaining emitted ordered in
             if progressed then emit_rounds fuel r e o else (r, e, o)
      end
  end.

Definition orderByDependency (steps : list PlanStep) : list PlanStep :=
  let '(remaining, _, ordered) := emit_rounds (S (List.length steps)) steps [] [] in
  (ordered ++ remaining)%list.

(** ** Rendering *)

Definition is_crlf (c : ascii) : bool := let n := N_of_ascii c in ((n =? 13) || (n =? 10))%N.

Fixpoint collapse_newlines (inside : bool) (s : string) : string :=
  match s with
  | EmptyString => EmptyString
  | String c s' =>
      if is_crlf c then (if inside then collapse_newlines true s' else String " " (collapse_newlines true s'))
      else String c (collapse_newlines false s')
  end.

(** The class [[\\`*_[\]<>|~]]. *)
Definition is_markdown (c : ascii) : bool :=
  let n := N_of_ascii c in
  existsb (N.eqb n) [92; 96; 42; 95; 91; 93; 60; 62; 124; 126]%N.

Fixpoint escape_markdown (s : string) : string :=
  match s with
  | EmptyString => EmptyString
  | String c s' => if is_markdown c then String (ascii_of_N 92) (String c (escape_markdown s')) else String c (escape_markdown s')
  end.

Definition displaySafe (text : string) : string := escape_markdown (collapse_newlines false text).

Definition render_step (step : PlanStep) : string :=
  let box := match ps_status step with st_completed => "[x]" | _ => "[ ]" end in
  "- " ++ box ++ " " ++ displaySafe (ps_title step) ++ " — " ++ status_to_string (ps_status step)
  ++ (if ngtb (ps_attempts step) (nz 0)
      then " (attempt " ++ num_to_string (ps_attempts step) ++ "/" ++ num_to_string (ps_maxAttempts step) ++ ")" else "")
  ++ (match ps_lastError step with
      | Some e => if str_empty e then "" else ": " ++ displaySafe e
      | None => ""
      end).

Definition renderPlanAsMarkdown (plan : PlanDag) : string :=
  match orderByDependency plan with
  | [] => "_No steps in this plan._"
  | ordered => join (String (ascii_of_N 10) "") (List.map render_step ordered)
  end.

Definition sample_plan : PlanDag :=
  buildPlanDag [mkRaw "b" "Land *2*" None (Some ["a"; "b"; "a"]) None; mkRaw "a" "Close" None None (Some (nz 3))].

Example validate_sample : validatePlanDag sample_plan = (true, []).
Proof. vm_compute. reflexivity. Qed.
Example validate_cycle :
  validatePlanDag (buildPlanDag [mkRaw "a" "A" None (Some ["b"]) None; mkRaw "b" "B" None (Some ["a"]) None])
  = (false, ["plan has a dependency cycle"]).
Proof. vm_compute. reflexivity. Qed.
Example render_sample : renderPlanAsMarkdown sample_plan
  = ("- [ ] Close — pending" ++ String (ascii_of_N 10) "- [ ] Land \*2\* — pending").
Proof. vm_compute. reflexivity. Qed.

(** ** The depth-first search decides acyclicity *)

Section SearchCorrect.
Context (byId : gmap string PlanStep).

Definition edge (a b : string) : Prop := b ∈ deps_of byId a /\ is_Some (byId !! b).
Definition cyclic : Prop := exists a, tc edge a a.

(** Black ids: closed under dependencies and on no cycle. *)
Record black_ok (color : gmap string Color) : Prop := mkBlackOk {
  bo_dom : forall a, is_Some (color !! a) -> is_Some (byId !! a);
  bo_closed : forall a b, color !! a = Some black -> edge a b -> color !! b = Some black;
  bo_acyclic : forall a, color !! a = Some black -> ~ tc edge a a;
}.

Definition whites (color : gmap string Color) : gset string := dom byId ∖ dom color.

Lemma whites_insert color id c : color !! id = None -> is_Some (byId !! id) ->
  size (whites (<[id := c]> color)) < size (whites color).
Proof.
  intros Hc Hb. apply subset_size. unfold whites. rewrite dom_insert_L.
  assert (id ∈ dom byId) by (by apply elem_of_dom). assert (id ∉ dom color) by (by apply not_elem_of_dom). set_solver.
Qed.

Lemma whites_mono color color' : (forall a, is_Some (color !! a) -> is_Some (color' !! a)) ->
  size (whites color') <= size (whites color).
Proof.
  intros H. apply subseteq_size. unfold whites. intros a. rewrite !elem_of_difference, !elem_of_dom. naive_solver.
Qed.

Lemma black_reach color a b : black_ok color -> color !! a = Some black -> tc edge a b -> color !! b = Some black.
Proof.
  intros Hok Ha H. induction H as [x y H | x y z H _ IH]; [by eapply bo_closed |]. apply IH. by eapply bo_closed.
Qed.

(** Blackening an id whose dependencies are all black. *)
Lemma blacken color id : black_ok color -> color !! id = Some gray ->
  (forall b, edge id b -> color !! b = Some black) -> black_ok (<[id := black]> color).
Proof.
  intros Hok Hg Hd. constructor.
  - intros a [c Hc]. destruct (decide (a = id)) as [-> | Hne]; [by eapply bo_dom; eauto |].
    rewrite lookup_insert_ne in Hc by done. eapply bo_dom; eauto.
  - intros a b Ha Hab. destruct (decide (b = id)) as [-> | Hb]; [by rewrite lookup_insert_eq |].
    rewrite lookup_insert_ne by done. destruct (decide (a = id)) as [-> | Hne]; [by apply Hd |].
    rewrite lookup_insert_ne in Ha by done. by eapply bo_closed.
  - assert (Hi : ~ tc edge id id).
    { intros H. assert (exists b, edge id b /\ rtc edge b id) as (b & Hb & Hr).
      { inversion H as [? ? He | ? y ? He Ht]; subst; [exists id; split; [done | apply rtc_refl] |].
        exists y. split; [done | by apply tc_rtc]. }
      specialize (Hd b Hb). inversion Hr as [| ? y ? Hy Hyr]; subst; [congruence |].
      assert (X : color !! id = Some black) by (eapply black_reach; [done | exact Hd | eapply tc_rtc_r; [by apply tc_once | done]]).
      congruence. }
    intros a Ha H. destruct (decide (a = id)) as [-> | Hne]; [done |]. rewrite lookup_insert_ne in Ha by done.
    by eapply bo_acyclic.
Qed.

(** What a finished search without a cycle leaves behind. *)
Definition grown (color color' : gmap string Color) : Prop :=
  black_ok color' /\ (forall a, color' !! a = Some gray <-> color !! a = Some gray)
  /\ (forall a, color !! a = Some black -> color' !! a = Some black).

Lemma grown_refl color : black_ok color -> grown color color.
Proof. intros H. split; [done |]. by split. Qed.

Lemma grown_trans a b c : grown a b -> grown b c -> grown a c.
Proof. intros (_ & G1 & B1) (O & G2 & B2). split; [done |]. split; [| naive_solver]. intros x. by rewrite G2. Qed.

Lemma grown_some color color' a : grown color color' -> is_Some (color !! a) -> is_Some (color' !! a).
Proof. intros (_ & G & B) [[] H]; [apply G in H | apply B in H]; eauto. Qed.

Definition search_post (color : gmap string Color) (id : string) (res : option (bool * gmap string Color)) : Prop :=
  match res with
  | None => False
  | Some (true, _) => cyclic
  | Some (false, color') => grown color color' /\ color' !! id = Some black
  end.

(** Colouring a new id gray disturbs no black id. *)
Lemma enter_gray color id : black_ok color -> is_Some (byId !! id) -> color !! id = None ->
  black_ok (<[id := gray]> color).
Proof.
  intros Hok Hid Hw. constructor.
  - intros a [c Hc]. destruct (decide (a = id)) as [-> | Hne]; [done |].
    rewrite lookup_insert_ne in Hc by done. eapply bo_dom; eauto.
  - intros a b Ha Hab. destruct (decide (a = id)) as [-> | Hne]; [by rewrite lookup_insert_eq in Ha |].
    rewrite lookup_insert_ne in Ha by done. pose proof (bo_closed _ Hok _ _ Ha Hab) as Hb.
    rewrite lookup_insert_ne by (intros ->; congruence). done.
  - intros a Ha. destruct (decide (a = id)) as [-> | Hne]; [by rewrite lookup_insert_eq in Ha |].
    rewrite lookup_insert_ne in Ha by done. by eapply bo_acyclic.
Qed.

(** Leaving an id after its dependencies were all found black. *)
Lemma leave_black color c id : color !! id = None -> grown (<[id := gray]> color) c ->
  (forall b, edge id b -> c !! b = Some black) -> search_post color id (Some (false, <[id := black]> c)).
Proof.
  intros Hw (Oc & Gc & Bc) Hd. assert (Hic : c !! id = Some gray) by (apply Gc; by rewrite lookup_insert_eq).
  split; [| by rewrite lookup_insert_eq]. split; [by apply blacken |]. split.
  - intros a. destruct (decide (a = id)) as [-> | Hne]; [rewrite lookup_insert_eq; split; congruence |].
    rewrite lookup_insert_ne by done. rewrite Gc. by rewrite lookup_insert_ne.
  - intros a Ha. destruct (decide (a = id)) as [-> | Hne]; [congruence |]. rewrite lookup_insert_ne by done.
    apply Bc. by rewrite lookup_insert_ne.
Qed.

Section Visit.
Context (search : gmap string Color -> string -> option (bool * gmap string Color)).
Context (color : gmap string Color) (id : string) (fuel : nat).
Hypothesis Hsearch : forall c a, black_ok c -> is_Some (byId !! a) -> c !! a = None ->
  (forall g, c !! g = Some gray -> rtc edge g a) -> size (whites c) <= fuel -> search_post c a (search c a).
Hypothesis Hw : color !! id = None.
Let c0 := <[id := gray]> color.
Hypothesis Hg0 : forall g, c0 !! g = Some gray -> rtc edge g id.
Hypothesis Hsz : size (whites c0) <= fuel.

(** [seen] are the dependencies already visited. *)
Lemma visit_spec todo seen c : deps_of byId id = (seen ++ todo)%list -> grown c0 c ->
  (forall b, b ∈ seen -> is_Some (byId !! b) -> c !! b = Some black) ->
  search_post color id (visit byId search id todo c).
Proof.
  revert seen c. induction todo as [| dep todo IHt]; intros seen c Ed Gc Hv.
  { apply leave_black; [done | done |]. intros b [Hb Hs]. apply Hv; [| done]. by rewrite app_nil_r in Ed; rewrite <- Ed. }
  assert (Hed : is_Some (byId !! dep) -> edge id dep).
  { intros H. split; [| done]. rewrite Ed. apply elem_of_app. right. left. }
  assert (Ed' : deps_of byId id = ((seen ++ [dep]) ++ todo)%list) by (by rewrite <- app_assoc).
  assert (Hstep : forall c', grown c0 c' -> (forall b, b ∈ seen -> is_Some (byId !! b) -> c' !! b = Some black) ->
    (is_Some (byId !! dep) -> c' !! dep = Some black) -> search_post color id (visit byId search id todo c')).
  { intros c' G' Hv' Hd. apply (IHt (seen ++ [dep])%list); [done | done |].
    intros b Hb. apply elem_of_app in Hb as [Hb | Hb]; [by apply Hv' |]. by apply list_elem_of_singleton in Hb as ->. }
  cbn [visit]. destruct (c !! dep) as [[] |] eqn:Ec; [| by apply Hstep |].
  - (* gray: the path back to it closes a cycle *)
    assert (Hs : is_Some (byId !! dep)) by (eapply bo_dom; [apply Gc | eauto]).
    exists dep. apply tc_rtc_l with id; [| by apply tc_once, Hed]. apply Hg0. by apply (proj1 (proj2 Gc)).
  - destruct (decide (is_Some (byId !! dep))) as [Hs | Hs]; [| rewrite bool_decide_eq_false_2 by done; by apply Hstep].
    rewrite bool_decide_eq_true_2 by done.
    assert (P : search_post c dep (search c dep)).
    { apply Hsearch; [apply Gc | done | done | |].
      - intros g H. apply (proj1 (proj2 Gc)) in H. eapply rtc_r; [by apply Hg0 | by apply Hed].
      - etransitivity; [| exact Hsz]. apply whites_mono. intros a. by apply grown_some. }
    destruct (search c dep) as [[[] c'] |]; [exact P | | done]. destruct P as [G' Hb'].
    apply Hstep; [by eapply grown_trans | | done]. intros b Hb Hsb. by apply G', Hv.
Qed.
End Visit.

Lemma hasCycle_spec fuel color id : black_ok color -> is_Some (byId !! id) -> color !! id = None ->
  (forall g, color !! g = Some gray -> rtc edge g id) -> size (whites color) <= fuel ->
  search_post color id (hasCycle byId fuel color id).
Proof.
  revert color id. induction fuel as [| fuel IH]; intros color id Hok Hid Hw Hg Hf;
    pose proof (whites_insert color id gray Hw Hid) as Hlt; [lia |].
  cbn [hasCycle]. apply (visit_spec _ color id fuel IH Hw) with (seen := []); [| lia | done | |].
  - intros g H. destruct (decide (g = id)) as [-> | Hne]; [apply rtc_refl |].
    rewrite lookup_insert_ne in H by done. by apply Hg.
  - apply grown_refl. by apply enter_gray.
  - intros b Hb. by apply not_elem_of_nil in Hb.
Qed.

(** The loop over all roots: it always answers, [true] only with a cycle, and
    [false] only when every listed id was proved to be on none. *)
Lemma any_cycle_spec fuel ids color : black_ok color -> (forall g, color !! g <> Some gray) ->
  (forall id, id ∈ ids -> is_Some (byId !! id)) -> size (whites color) <= fuel ->
  match any_cycle byId fuel color ids with
  | None => False
  | Some true => cyclic
  | Some false => exists color', black_ok color' /\ (forall id, color !! id = Some black -> color' !! id = Some black)
                    /\ forall id, id ∈ ids -> color' !! id = Some black
  end.
Proof.
  revert color. induction ids as [| id ids IH]; intros color Hok Hng Hids Hf; cbn [any_cycle].
  { exists color. split; [done |]. split; [done |]. intros id Hid. by apply not_elem_of_nil in Hid. }
  assert (Hids' : forall a, a ∈ ids -> is_Some (byId !! a)) by (intros a Ha; apply Hids; by right).
  destruct (color !! id) as [[] |] eqn:Ec; [by destruct (Hng id) | |].
  - specialize (IH color Hok Hng Hids' Hf). destruct (any_cycle byId fuel color ids) as [[] |]; [done | | done].
    destruct IH as (c & O & M & A). exists c. split; [done |]. split; [done |].
    intros a Ha. apply elem_of_cons in Ha as [-> | Ha]; auto.
  - assert (P : search_post color id (hasCycle byId fuel color id)).
    { apply hasCycle_spec; auto; [apply Hids; by left | intros g Hg; by destruct (Hng g)]. }
    destruct (hasCycle byId fuel color id) as [[[] c1] |]; [done | | done]. destruct P as [(O1 & G1 & B1) Hb].
    assert (Hng1 : forall g, c1 !! g <> Some gray) by (intros g Hg; apply G1 in Hg; by destruct (Hng g)).
    assert (Hf1 : size (whites c1) <= fuel).
    { etransitivity; [| exact Hf]. apply whites_mono. intros a. by apply grown_some. }
    specialize (IH c1 O1 Hng1 Hids' Hf1). destruct (any_cycle byId fuel c1 ids) as [[] |]; [done | | done].
    destruct IH as (c & O & M & A). exists c. split; [done |]. split; [auto |].
    intros a Ha. apply elem_of_cons in Ha as [-> | Ha]; auto.
Qed.
End SearchCorrect.

(** ** Validation *)

Lemma byId_snoc plan step : byId_map (plan ++ [step])%list = <[ps_id step := step]> (byId_map plan).
Proof. unfold byId_map. by rewrite List.fold_left_app. Qed.

Lemma byId_some plan id : is_Some (byId_map plan !! id) <-> id ∈ List.map ps_id plan.
Proof.
  induction plan as [| step plan IH] using rev_ind.
  - change (byId_map []) with (∅ : gmap string PlanStep). rewrite lookup_empty.
    split; [by intros [s H] | intros H; by apply not_elem_of_nil in H].
  - rewrite byId_snoc, List.map_app, elem_of_app, <- IH. simpl. rewrite list_elem_of_singleton.
    destruct (decide (ps_id step = id)) as [<- | Hne]; [rewrite lookup_insert_eq; naive_solver |].
    rewrite lookup_insert_ne by done. naive_solver.
Qed.

Lemma byId_in plan id step : byId_map plan !! id = Some step -> In step plan /\ ps_id step = id.
Proof.
  induction plan as [| s plan IH] using rev_ind.
  { change (byId_map []) with (∅ : gmap string PlanStep). by rewrite lookup_empty. }
  rewrite byId_snoc. destruct (decide (ps_id s = id)) as [<- | Hne].
  - rewrite lookup_insert_eq. intros [= <-]. split; [apply in_or_app; right; by left | done].
  - rewrite lookup_insert_ne by done. intros H. destruct (IH H). split; [apply in_or_app; by left | done].
Qed.

Lemma byId_unique plan step : NoDup (List.map ps_id plan) -> In step plan -> byId_map plan !! ps_id step = Some step.
Proof.
  induction plan as [| s plan IH] using rev_ind; [done |]. rewrite List.map_app, NoDup_ListNoDup. intros Hd Hin.
  rewrite byId_snoc. apply in_app_or in Hin as [Hin | [<- | []]]; [| by rewrite lookup_insert_eq].
  simpl in Hd. apply List.NoDup_remove in Hd as [Hd Hn]. rewrite app_nil_r in Hd, Hn.
  rewrite lookup_insert_ne; [apply IH; [by apply NoDup_ListNoDup | done] |].
  intros E. apply Hn. rewrite E. by apply List.in_map.
Qed.

(** A plan as a directed graph on step ids. *)
Definition depends (plan : PlanDag) (a b : string) : Prop :=
  exists step, In step plan /\ ps_id step = a /\ b ∈ ps_dependsOn step.

Definition plan_wf (plan : PlanDag) : Prop :=
  NoDup (List.map ps_id plan)
  /\ (forall step dep, In step plan -> dep ∈ ps_dependsOn step -> dep ∈ List.map ps_id plan)
  /\ ~ exists a, tc (depends plan) a a.

Lemma edge_depends plan a b : NoDup (List.map ps_id plan) ->
  (forall step dep, In step plan -> dep ∈ ps_dependsOn step -> dep ∈ List.map ps_id plan) ->
  edge (byId_map plan) a b <-> depends plan a b.
Proof.
  intros Hd Hk. unfold edge, deps_of, depends. split.
  - intros [Hb _]. destruct (byId_map plan !! a) as [step |] eqn:E; [| by apply not_elem_of_nil in Hb].
    apply byId_in in E as [Hin Hid]. eauto.
  - intros (step & Hin & <- & Hb). rewrite (byId_unique plan step Hd Hin). split; [done |].
    apply byId_some. by eapply Hk.
Qed.

Lemma any_cycle_plan plan :
  match any_cycle (byId_map plan) (List.length plan) ∅ (List.map ps_id plan) with
  | Some true => cyclic (byId_map plan)
  | Some false => ~ cyclic (byId_map plan)
  | None => False
  end.
Proof.
  assert (H0 : black_ok (byId_map plan) ∅).
  { constructor; intros a; rewrite lookup_empty; [by intros [? ?] | by intros b | by intros]. }
  assert (Hg : forall g, (∅ : gmap string Color) !! g <> Some gray) by (intros g; by rewrite lookup_empty).
  assert (Hi : forall id, id ∈ List.map ps_id plan -> is_Some (byId_map plan !! id)) by (intros id; apply byId_some).
  assert (Hs : size (whites (byId_map plan) ∅) <= List.length plan).
  { unfold whites. rewrite dom_empty_L, difference_empty_L. clear. induction plan as [| s plan IH] using rev_ind; [done |].
    rewrite byId_snoc, dom_insert_L, List.length_app, size_union_alt, size_singleton. cbn [List.length].
    assert (size (dom (byId_map plan) ∖ {[ps_id s]}) <= size (dom (byId_map plan))) by (apply subseteq_size; set_solver).
    lia. }
  pose proof (any_cycle_spec (byId_map plan) (List.length plan) _ ∅ H0 Hg Hi Hs) as H.
  destruct (any_cycle _ _ _ _) as [[] |]; [done | | done]. destruct H as (c & O & _ & A). intros [a Ha].
  assert (Hb : is_Some (byId_map plan !! a)).
  { assert (X : exists b, edge (byId_map plan) a b) by (inversion Ha; eauto). destruct X as (b & Hb & _). unfold deps_of in Hb.
    destruct (byId_map plan !! a); [eauto | by apply not_elem_of_nil in Hb]. }
  apply byId_some in Hb. exact (bo_acyclic _ _ O a (A a Hb) Ha).
Qed.

Lemma unknown_nil plan idSet (msg : PlanStep -> string -> string) :
  List.flat_map (fun step => List.map (msg step) (List.filter (fun dep => negb (set_has idSet dep)) (ps_dependsOn step))) plan = []
  <-> forall step dep, In step plan -> dep ∈ ps_dependsOn step -> dep ∈ idSet.
Proof.
  split.
  - intros H step dep Hs Hd. destruct (set_has idSet dep) eqn:E; [by apply set_has_elem |]. exfalso.
    assert (X : In (msg step dep) []); [| done]. rewrite <- H. apply List.in_flat_map. exists step. split; [done |].
    apply List.in_map, List.filter_In. split; [by apply list_elem_of_In | by rewrite E].
  - intros H. induction plan as [| s plan IH]; [done |]. cbn [List.flat_map]. rewrite IH, app_nil_r by (intros; eapply H; eauto; by right).
    assert (E : forall l, (forall d, d ∈ l -> d ∈ idSet) -> List.filter (fun dep => negb (set_has idSet dep)) l = []).
    { induction l as [| d l IHl]; intros Hl; [done |]. cbn [List.filter].
      rewrite (proj2 (set_has_elem idSet d)) by (apply Hl; by left). apply IHl. intros x Hx. apply Hl. by right. }
    by rewrite E by (intros d Hd; eapply H; eauto; by left).
Qed.

Lemma validate_iff plan : validatePlanDag plan = (true, []) <-> plan_wf plan.
Proof.
  assert (Heq : validatePlanDag plan = (true, []) <-> snd (validatePlanDag plan) = []).
  { unfold validatePlanDag. cbn [snd]. split; [by intros [= _ H] | intros H; by rewrite H]. }
  rewrite Heq. unfold validatePlanDag. cbn [snd].
  set (dup := if Nat.eqb _ _ then [] else _). set (unk := List.flat_map _ plan).
  set (cyc := match any_cycle _ _ _ _ with Some false => [] | _ => ["plan has a dependency cycle"] end).
  assert (Hdup : dup = [] <-> NoDup (List.map ps_id plan)).
  { unfold dup. rewrite <- js_set_size. destruct (Nat.eqb_spec (List.length (js_set (List.map ps_id plan))) (List.length (List.map ps_id plan)));
      by split. }
  assert (Hunk : unk = [] <-> forall step dep, In step plan -> dep ∈ ps_dependsOn step -> dep ∈ List.map ps_id plan).
  { unfold unk. rewrite (unknown_nil plan (js_set (List.map ps_id plan))
      (fun step dep => "step " ++ ps_id step ++ " depends on unknown step " ++ dep)).
    by setoid_rewrite js_set_elem. }
  assert (Hcyc : cyc = [] <-> ~ cyclic (byId_map plan)).
  { unfold cyc. pose proof (any_cycle_plan plan) as A. destruct (any_cycle _ _ _ _) as [[] |]; [| done | done]. by split. }
  transitivity (dup = [] /\ unk = [] /\ cyc = []).
  { split; [intros H; apply app_eq_nil in H as [-> H]; by apply app_eq_nil in H as [-> ->] | by intros (-> & -> & ->)]. }
  rewrite Hdup, Hunk, Hcyc. unfold plan_wf. split; intros (H1 & H2 & H3); (split; [done |]; split; [done |]).
  - intros [a Ha]. apply H3. exists a. eapply tc_congruence with (f := id); [| exact Ha]. intros x y. by apply edge_depends.
  - intros [a Ha]. apply H3. exists a. eapply tc_congruence with (f := id); [| exact Ha]. intros x y. by apply edge_depends.
Qed.

(** C30: validation is exact: a plan is accepted, with no error, if and only if
    step ids are unique, every dependency is a step of the plan, and no step
    depends on itself through any chain. *)
Theorem validatePlanDag_correct plan :
  (fst (validatePlanDag plan) = true <-> plan_wf plan)
  /\ (fst (validatePlanDag plan) = true <-> snd (validatePlanDag plan) = []).
Proof.
  assert (H : fst (validatePlanDag plan) = true <-> snd (validatePlanDag plan) = []).
  { unfold validatePlanDag. cbn [fst snd]. rewrite Nat.eqb_eq. apply List.length_zero_iff_nil. }
  split; [| exact H]. rewrite <- validate_iff. destruct (validatePlanDag plan) as [v e]. simpl in *.
  split; [intros Hv; f_equal; [done | by apply H] | by intros [= -> _]].
Qed.

Lemma validatePlanDag_wf plan : fst (validatePlanDag plan) = true -> plan_wf plan.
Proof.
  intros Hv. apply validate_iff. destruct (validatePlanDag plan) as [v e] eqn:E. simpl in Hv. subst v.
  unfold validatePlanDag in E. injection E as E1 E2. apply Nat.eqb_eq in E1. rewrite E2 in E1.
  by apply List.length_zero_iff_nil in E1 as ->.
Qed.

(** ** Valid plans always have a next step *)

Lemma wf_sn plan a : plan_wf plan -> sn (depends plan) a.
Proof.
  intros (_ & Hk & Hac). apply tc_finite_sn.
  - intros x Hx. apply Hac. by exists x.
  - exists (List.map ps_id plan). intros b Hb. assert (exists c, depends plan c b) as (c & s & Hs & _ & Hd).
    { induction Hb as [x y H | x y z _ _ IH]; eauto. }
    by eapply Hk.
Qed.

(** No property of ids can be handed on forever along dependencies. *)
Lemma no_endless_chain plan (P : string -> Prop) a : plan_wf plan ->
  (forall a, P a -> exists b, depends plan a b /\ P b) -> ~ P a.
Proof.
  intros Hw Hstep. induction (wf_sn plan a Hw) as [a _ IH]. intros Ha. destruct (Hstep a Ha) as (b & Hab & Hb).
  exact (IH b Hab Hb).
Qed.

Lemma statusById_map plan : statusById plan = ps_status <$> byId_map plan.
Proof.
  induction plan as [| s plan IH] using rev_ind; [unfold statusById, byId_map; simpl; by rewrite fmap_empty |].
  rewrite byId_snoc, fmap_insert, <- IH. unfold statusById. by rewrite List.fold_left_app.
Qed.

Lemma existsb_none {A} (p : A -> bool) l : existsb p l = false -> forall x, In x l -> p x = false.
Proof.
  intros H x Hx. destruct (p x) eqn:E; [| done]. rewrite <- H. symmetry. apply existsb_exists. eauto.
Qed.

Lemma wf_not_blocked plan : plan_wf plan -> hasPlanFailedSteps plan = false -> hasPlanRunningSteps plan = false ->
  hasPlanPendingSteps plan = true -> nextReadySteps plan <> [].
Proof.
  intros Hw Hf Hr Hp Hn. apply existsb_exists in Hp as (s & Hs & Est).
  refine (no_endless_chain plan (fun a => exists s, In s plan /\ ps_id s = a /\ ps_status s = st_pending) (ps_id s) Hw _ _).
  2: { exists s. split; [done |]. split; [done |]. by apply bool_decide_eq_true in Est. }
  clear s Hs Est. intros a (s & Hs & <- & Est). destruct Hw as (Hd & Hk & _).
  assert (Hnr : forallb (fun dep => isDone (default st_pending (statusById plan !! dep))) (ps_dependsOn s) = false).
  { destruct (forallb _ _) eqn:E; [| done]. assert (X : In s []); [| done]. rewrite <- Hn. apply List.filter_In.
    split; [done |]. unfold has_status. rewrite E, bool_decide_eq_true_2 by done. done. }
  assert (Hdep : exists dep, dep ∈ ps_dependsOn s /\ isDone (default st_pending (statusById plan !! dep)) = false).
  { revert Hnr. clear. induction (ps_dependsOn s) as [| d l IH]; [done |]. cbn [forallb].
    destruct (isDone (default st_pending (statusById plan !! d))) eqn:E; [| intros _; exists d; split; [by left | done]].
    intros H. destruct (IH H) as (x & Hx & Ex). exists x. split; [by right | done]. }
  destruct Hdep as (dep & Hin & Hnd). exists dep. split; [by exists s |].
  pose proof (Hk s dep Hs Hin) as Hid. apply byId_some in Hid as [t Ht]. pose proof (byId_in _ _ _ Ht) as [Htin Htid].
  exists t. split; [done |]. split; [done |]. rewrite statusById_map, lookup_fmap, Ht in Hnd. simpl in Hnd.
  pose proof (existsb_none _ _ Hf t Htin) as F1. pose proof (existsb_none _ _ Hr t Htin) as F2.
  unfold has_status in F1, F2. apply bool_decide_eq_false in F1, F2. by destruct (ps_status t).
Qed.

(** A valid plan is never deadlocked: whatever statuses its steps have
    reached, its overall status is never [blocked]; and if it is neither
    finished nor failed, some step is running or ready to run. *)
Theorem valid_plan_never_blocked plan :
  fst (validatePlanDag plan) = true ->
  resolvePlanOverallStatus plan <> ov_blocked
  /\ (plan <> [] -> isPlanTerminated plan = false -> hasPlanRunningSteps plan = true \/ hasPlanReadySteps plan = true).
Proof.
  intros Hv. pose proof (validatePlanDag_wf plan Hv) as Hw.
  pose proof (wf_not_blocked plan Hw) as H. split.
  - unfold resolvePlanOverallStatus. rewrite !filter_nonempty. destruct (_ && _); [done |].
    fold (hasPlanFailedSteps plan) (hasPlanRunningSteps plan) (hasPlanPendingSteps plan).
    destruct (hasPlanFailedSteps plan); [done |]. destruct (hasPlanRunningSteps plan); [done |].
    destruct (hasPlanPendingSteps plan); [| done]. cbn [andb]. specialize (H eq_refl eq_refl eq_refl).
    by destruct (nextReadySteps plan).
  - intros Hne. unfold isPlanTerminated. destruct (hasPlanFailedSteps plan) eqn:F; [done |]. cbn [orb]. intros Hc.
    destruct (hasPlanRunningSteps plan) eqn:R; [by left |]. right. unfold hasPlanReadySteps.
    assert (Hp : hasPlanPendingSteps plan = true).
    { unfold isPlanProgressComplete in Hc. destruct (Nat.eqb_spec (List.length plan) 0) as [E | _].
      { by apply List.length_zero_iff_nil in E. }
      destruct (hasPlanPendingSteps plan) eqn:P; [done |]. rewrite <- Hc. apply forallb_forall. intros s Hs.
      pose proof (existsb_none _ _ P s Hs) as P'. pose proof (existsb_none _ _ F s Hs) as F'.
      pose proof (existsb_none _ _ R s Hs) as R'. revert P' F' R'. unfold has_status. by destruct (ps_status s). }
    specialize (H eq_refl eq_refl Hp). by destruct (nextReadySteps plan).
Qed.

Lemma valid_plan_never_blocked_witness : resolvePlanOverallStatus sample_plan <> ov_blocked.
Proof. apply (valid_plan_never_blocked sample_plan). vm_compute. reflexivity. Defined.

(** ** Dependency order *)

(** Every step comes after all its dependencies. *)
Definition topological (l : list PlanStep) : Prop :=
  forall pre s post, l = (pre ++ s :: post)%list -> forall d, d ∈ ps_dependsOn s -> d ∈ List.map ps_id pre.

Definition emitted_ok (emitted : list string) (ordered : list PlanStep) : Prop :=
  forall x, x ∈ emitted <-> x ∈ List.map ps_id ordered.

Lemma topological_snoc l s : topological l -> (forall d, d ∈ ps_dependsOn s -> d ∈ List.map ps_id l) ->
  topological (l ++ [s]).
Proof.
  intros Ht Hs pre x post E. destruct (decide (post = [])) as [-> | Hne].
  - apply app_inj_tail in E as [-> ->]. exact Hs.
  - destruct (exists_last Hne) as (post' & z & ->).
    replace (pre ++ x :: post' ++ [z])%list with ((pre ++ x :: post') ++ [z])%list in E by (by rewrite <- app_assoc).
    apply app_inj_tail in E as [-> _]. by eapply Ht.
Qed.

Lemma emit_pass_spec rem e o r' e' o' p : emit_pass rem e o = (r', e', o', p) -> emitted_ok e o -> topological o ->
  emitted_ok e' o' /\ topological o' /\ Permutation (o' ++ r') (o ++ rem)
  /\ (p = true -> List.length r' < List.length rem) /\ List.length r' <= List.length rem
  /\ (p = false -> e' = e /\ Forall (fun s => forallb (set_has e) (ps_dependsOn s) = false) r').
Proof.
  revert e o r' e' o' p. induction rem as [| s rem IH]; intros e o r' e' o' p; cbn [emit_pass].
  { intros [= <- <- <- <-] He Ho. split; [done |]. split; [done |]. split; [done |]. split; [done |]. split; [done |].
    intros _. by split. }
  destruct (forallb (set_has e) (ps_dependsOn s)) eqn:R.
  - destruct (emit_pass rem (ps_id s :: e) (o ++ [s])%list) as [[[r1 e1] o1] p1] eqn:E. intros [= <- <- <- <-] He Ho.
    assert (He1 : emitted_ok (ps_id s :: e) (o ++ [s])).
    { intros x. rewrite List.map_app, elem_of_app. cbn [List.map]. rewrite list_elem_of_singleton, elem_of_cons, (He x). tauto. }
    assert (Ho1 : topological (o ++ [s])).
    { apply topological_snoc; [done |]. intros d Hd. apply He. rewrite forallb_forall in R.
      apply set_has_elem, R. by apply list_elem_of_In. }
    destruct (IH _ _ _ _ _ _ E He1 Ho1) as (A & B & C & _ & D & _). split; [done |]. split; [done |].
    split; [by rewrite C, <- app_assoc |]. split; [simpl; lia |]. split; [simpl; lia | done].
  - destruct (emit_pass rem e o) as [[[r1 e1] o1] p1] eqn:E. intros [= <- <- <- <-] He Ho.
    destruct (IH _ _ _ _ _ _ E He Ho) as (A & B & C & D & F & G). split; [done |]. split; [done |].
    split; [rewrite <- !Permutation_middle; by constructor |].
    split; [intros Hp; specialize (D Hp); simpl; lia |]. split; [simpl; lia |].
    intros Hp. destruct (G Hp) as [-> HF]. split; [done |]. by constructor.
Qed.

Lemma emit_rounds_spec fuel rem e o : List.length rem < fuel -> emitted_ok e o -> topological o ->
  let '(r', e', o') := emit_rounds fuel rem e o in
  emitted_ok e' o' /\ topological o' /\ Permutation (o' ++ r') (o ++ rem)
  /\ Forall (fun s => forallb (set_has e') (ps_dependsOn s) = false) r'.
Proof.
  revert rem e o. induction fuel as [| fuel IH]; intros rem e o Hf He Ho; [lia |]. cbn [emit_rounds].
  destruct rem as [| s rem]; [by split |]. destruct (emit_pass (s :: rem) e o) as [[[r1 e1] o1] p] eqn:E.
  destruct (emit_pass_spec _ _ _ _ _ _ _ E He Ho) as (A & B & C & D & _ & G). destruct p.
  - specialize (D eq_refl). specialize (IH r1 e1 o1). destruct (emit_rounds fuel r1 e1 o1) as [[r' e'] o'].
    destruct IH as (A' & B' & C' & D'); [lia | done | done |]. split; [done |]. split; [done |]. split; [| done].
    by rewrite C', C.
  - destruct (G eq_refl) as [-> HF]. by split.
Qed.

(** The rendered order loses and invents no step, on any plan, cyclic ones
    included; on a valid plan every step comes after all its dependencies. *)
Theorem orderByDependency_topological plan :
  Permutation (orderByDependency plan) plan
  /\ (fst (validatePlanDag plan) = true -> topological (orderByDependency plan)).
Proof.
  unfold orderByDependency. pose proof (emit_rounds_spec (S (List.length plan)) plan [] []) as H.
  destruct (emit_rounds _ _ _ _) as [[r e] o]. destruct H as (He & Ho & Hp & Hn); [lia | done | intros pre s post E; by destruct pre |].
  split; [exact Hp |]. intros Hv. assert (Hw : plan_wf plan) by (by apply validatePlanDag_wf).
  assert (Hr : r = []); [| by rewrite Hr, app_nil_r].
  destruct r as [| s r']; [done |]. exfalso. set (r := s :: r') in *.
  refine (no_endless_chain plan (fun a => exists t, In t r /\ ps_id t = a) (ps_id s) Hw _ _); [| exists s; split; [by left | done]].
  intros a (t & Ht & <-). destruct Hw as (_ & Hk & _).
  assert (Htp : In t plan) by (eapply Permutation_in; [exact Hp | apply in_or_app; by right]).
  rewrite Forall_forall in Hn. pose proof (Hn t (proj2 (list_elem_of_In _ _) Ht)) as Hnr.
  assert (Hd : exists d, d ∈ ps_dependsOn t /\ d ∉ e).
  { revert Hnr. clear. induction (ps_dependsOn t) as [| d l IH]; [done |]. cbn [forallb]. destruct (set_has e d) eqn:E.
    - intros H. destruct (IH H) as (x & Hx & Hxe). exists x. split; [by right | done].
    - intros _. exists d. split; [by left |]. rewrite <- set_has_elem, E. discriminate. }
  destruct Hd as (d & Hd & Hde). exists d. split; [by exists t |].
  pose proof (Hk t d Htp Hd) as Hid. apply list_elem_of_In, List.in_map_iff in Hid as (u & Eu & Hu).
  assert (Hu' : In u (o ++ r)) by (eapply Permutation_in; [symmetry; exact Hp | done]).
  apply in_app_or in Hu' as [Hu' | Hu']; [| by exists u]. destruct Hde. apply He. rewrite <- Eu.
  apply list_elem_of_In. by apply List.in_map.
Qed.

Lemma orderByDependency_topological_witness : topological (orderByDependency sample_plan).
Proof. apply (proj2 (orderByDependency_topological sample_plan)). vm_compute. reflexivity. Defined.

(** ** The status functions agree *)

Lemma has_status_at st s : has_status st s = bool_decide (ps_status s = st).
Proof. reflexivity. Qed.

Lemma status_partition plan :
  countPlanStepsByStatus plan st_completed + countPlanStepsByStatus plan st_skipped
  + countPlanStepsByStatus plan st_failed + countPlanStepsByStatus plan st_running
  + countPlanStepsByStatus plan st_pending = List.length plan.
Proof.
  unfold countPlanStepsByStatus. induction plan as [| s plan IH]; [done |]. cbn [List.filter].
  rewrite !has_status_at. destruct (ps_status s); simpl; lia.
Qed.

Lemma done_count plan : Nat.eqb (List.length (List.filter (has_status st_completed) plan)
    + List.length (List.filter (has_status st_skipped) plan)) (List.length plan)
  = forallb (fun step => has_status st_completed step || has_status st_skipped step) plan.
Proof.
  assert (L : forall l, List.length (List.filter (has_status st_completed) l)
    + List.length (List.filter (has_status st_skipped) l) <= List.length l).
  { induction l as [| s l IH]; [done |]. cbn [List.filter]. rewrite !has_status_at. destruct (ps_status s); simpl; lia. }
  induction plan as [| s plan IH]; [done |]. cbn [List.filter forallb]. rewrite <- IH. specialize (L plan).
  rewrite !has_status_at. destruct (ps_status s); simpl; rewrite ?Nat.add_succ_r; simpl; try reflexivity;
    apply Nat.eqb_neq; lia.
Qed.

(** The independently written status functions agree on every plan: the
    progress report carries the overall status and counts that add up; a plan is
    blocked, complete or terminated exactly when its overall status says so. *)
Theorem plan_status_functions_agree plan :
  pp_status (planProgress plan) = resolvePlanOverallStatus plan
  /\ isPlanBlocked plan = bool_decide (resolvePlanOverallStatus plan = ov_blocked)
  /\ isPlanProgressComplete plan = bool_decide (resolvePlanOverallStatus plan = ov_completed)
  /\ isPlanTerminated plan = bool_decide (resolvePlanOverallStatus plan = ov_completed)
                             || hasPlanFailedSteps plan
  /\ pp_completed (planProgress plan) + pp_skipped (planProgress plan) + pp_failed (planProgress plan)
     + pp_running (planProgress plan) + pp_pending (planProgress plan) = pp_total (planProgress plan).
Proof.
  split; [reflexivity |]. unfold isPlanTerminated, isPlanBlocked, isPlanProgressComplete, resolvePlanOverallStatus, hasPlanFailedSteps.
  rewrite !filter_nonempty, done_count. split; [| split; [| split; [| exact (status_partition plan)]]].
  - destruct plan as [| s plan]; [reflexivity |]. set (l := s :: plan).
    change (Nat.eqb (List.length l) 0) with false. change (Nat.ltb 0 (List.length l)) with true. cbn [andb].
    destruct (forallb _ l); [done |]. destruct (existsb (has_status st_failed) l); [done |].
    destruct (existsb (has_status st_running) l); [done |].
    by destruct (existsb (has_status st_pending) l && Nat.eqb (List.length (nextReadySteps l)) 0).
  - destruct plan as [| s plan]; [reflexivity |]. set (l := s :: plan).
    change (Nat.eqb (List.length l) 0) with false. change (Nat.ltb 0 (List.length l)) with true. cbn [andb].
    destruct (forallb _ l); [done |]. by repeat case_match.
  - destruct plan as [| s plan]; [reflexivity |]. set (l := s :: plan).
    change (Nat.eqb (List.length l) 0) with false. change (Nat.ltb 0 (List.length l)) with true. cbn [andb].
    rewrite orb_comm. f_equal. destruct (forallb _ l); [done |]. by repeat case_match.
Qed.

(** ** Advancing a plan *)

Inductive plan_op := OpRunning (stepId : string) | OpResult (stepId : string) (outcome : StepOutcome) (error : option string).

Definition plan_step_op (plan : PlanDag) (op : plan_op) : PlanDag :=
  match op with
  | OpRunning id => markStepRunning plan id
  | OpResult id outcome err => applyStepResult plan id outcome err
  end.

Definition plan_run (plan : PlanDag) (ops : list plan_op) : PlanDag := List.fold_left plan_step_op ops plan.

(** A step as the state machine keeps it: whole attempt counts, a limit between
    1 and 10, and failed exactly when the attempts are used up. *)
Definition step_ok (s : PlanStep) : Prop :=
  exists a m, ps_attempts s = nz a /\ ps_maxAttempts s = nz m /\ (0 <= a <= m)%Z /\ (1 <= m <= 10)%Z
    /\ (ps_status s = st_failed <-> a = m).

Lemma apply_ok o err s : step_ok s -> step_ok (apply_outcome o err s).
Proof.
  intros (a & m & Ha & Hm & Hr & Hb & Hf). unfold apply_outcome, has_status.
  destruct (isDone (ps_status s)) eqn:D; [by exists a, m |]. cbn [orb].
  case_bool_decide as Hfs; [by exists a, m |].
  assert (Hne : a <> m) by (intros E; by apply Hfs, Hf).
  assert (Hend : forall st, st <> st_failed -> step_ok (with_status s st (ps_attempts s) None)).
  { intros st Hst. exists a, m. cbn. split; [done |]. split; [done |]. split; [done |]. split; [done |]. by split. }
  destruct o; [by apply Hend | | by apply Hend].
  rewrite Ha, Hm. rewrite nz_add by lia. rewrite nz_geb. exists (a + 1)%Z, m.
  cbn [ps_attempts ps_maxAttempts ps_status with_status]. split; [done |]. split; [done |]. split; [lia |]. split; [done |].
  destruct (Z.leb_spec m (a + 1)); split; intros; try done; lia.
Qed.

Lemma step_op_ok plan op : Forall step_ok plan -> Forall step_ok (plan_step_op plan op).
Proof.
  intros H. rewrite Forall_forall in H |- *. intros s Hs.
  destruct op as [id | id o err]; cbn [plan_step_op] in Hs; apply list_elem_of_In in Hs;
    unfold markStepRunning, applyStepResult, mapStep in Hs; apply List.in_map_iff in Hs as (t & <- & Ht);
    apply list_elem_of_In in Ht; pose proof (H t Ht) as Ot; destruct (String.eqb (ps_id t) id); try done.
  - destruct Ot as (a & m & Ha & Hm & Hr & Hb & Hf). destruct (ps_status t) eqn:E; try (exists a, m; by rewrite E).
    exists a, m. cbn. split; [done |]. split; [done |]. split; [done |]. split; [done |].
    split; [done |]. intros X. apply Hf in X. discriminate X.
  - by apply apply_ok.
Qed.

Lemma clamp_attempts x : is_nan x = false -> exists m, (1 <= m <= 10)%Z /\ nmin (nz 10) (nmax (nz 1) (ntrunc x)) = nz m.
Proof.
  intros H. assert (Ht : ntrunc x = PInf \/ ntrunc x = NInf \/ exists z, ntrunc x = nz z).
  { destruct x; simpl; auto; [discriminate H |]. right. right. destruct (Qle_bool 0 q); eauto. }
  destruct Ht as [-> | [-> | [z ->]]].
  - exists 10%Z. split; [lia | reflexivity].
  - exists 1%Z. split; [lia | reflexivity].
  - exists (Z.min 10 (Z.max 1 z)). split; [lia |]. by rewrite nz_max, nz_min.
Qed.

Lemma build_ok raws : Forall (fun r => is_nan (default DEFAULT_MAX_ATTEMPTS (raw_maxAttempts r)) = false) raws ->
  Forall step_ok (buildPlanDag raws).
Proof.
  intros H. induction H as [| r raws Hr _ IH]; [constructor |]. cbn [buildPlanDag List.map]. constructor; [| exact IH].
  destruct (clamp_attempts _ Hr) as (m & Hm & E). exists 0%Z, m. cbn [ps_attempts ps_maxAttempts ps_status]. rewrite E.
  split; [done |]. split; [done |]. split; [lia |]. split; [done |]. split; [done | lia].
Qed.

Lemma terminal_stays s op : isDone (ps_status s) = true \/ ps_status s = st_failed ->
  plan_step_op [s] op = [s].
Proof.
  intros H. destruct op as [id | id o err]; cbn; destruct (String.eqb (ps_id s) id); try done.
  - by destruct (ps_status s), H.
  - unfold apply_outcome, has_status. destruct H as [-> | ->]; [done |]. by rewrite orb_true_r.
Qed.

Lemma plan_op_map plan op : plan_step_op plan op = List.flat_map (fun s => plan_step_op [s] op) plan.
Proof.
  destruct op; cbn; unfold markStepRunning, applyStepResult, mapStep;
    (induction plan as [| s plan IH]; [done |]; cbn [List.map List.flat_map app]; by rewrite <- IH).
Qed.

Lemma plan_op_length plan op : List.length (plan_step_op plan op) = List.length plan.
Proof. destruct op; cbn; unfold markStepRunning, applyStepResult, mapStep; apply List.length_map. Qed.

Lemma plan_op_nth plan op i s : nth_error plan i = Some s -> isDone (ps_status s) = true \/ ps_status s = st_failed ->
  nth_error (plan_step_op plan op) i = Some s.
Proof.
  intros Hs Ht. pose proof (terminal_stays s op Ht) as T.
  destruct op as [id | id o err]; cbn [plan_step_op] in *; unfold markStepRunning, applyStepResult, mapStep in *;
    rewrite List.nth_error_map, Hs; cbn in T |- *; by injection T as ->.
Qed.

(** The step state machine over whole runs.  From a plan built from raw
    steps (with no NaN attempt limit), after any sequence of starts and results,
    every step has used between 0 and its 1..10 allowed attempts and is failed
    exactly when all are used up; and a step that is completed, skipped or
    failed never changes again. *)
Theorem plan_run_state_machine raws ops ops' :
  Forall (fun r => is_nan (default DEFAULT_MAX_ATTEMPTS (raw_maxAttempts r)) = false) raws ->
  let plan := plan_run (buildPlanDag raws) ops in
  Forall step_ok plan
  /\ forall i s, nth_error plan i = Some s -> isDone (ps_status s) = true \/ ps_status s = st_failed ->
     nth_error (plan_run plan ops') i = Some s.
Proof.
  intros H plan. split.
  - unfold plan, plan_run. generalize (build_ok raws H). generalize (buildPlanDag raws).
    induction ops as [| op ops IH]; intros p Hp; [exact Hp |]. apply IH. by apply step_op_ok.
  - clearbody plan. intros i s Hs Ht. unfold plan_run. revert plan Hs.
    induction ops' as [| op ops' IH]; intros plan Hs; [exact Hs |]. apply IH. by apply plan_op_nth.
Qed.

Lemma plan_run_state_machine_witness :
  Forall step_ok (plan_run sample_plan [OpRunning "a"; OpResult "a" out_failed None; OpResult "a" out_completed None]).
Proof.
  apply (plan_run_state_machine [mkRaw "b" "Land *2*" None (Some ["a"; "b"; "a"]) None; mkRaw "a" "Close" None None (Some (nz 3))]
    [OpRunning "a"; OpResult "a" out_failed None; OpResult "a" out_completed None] []).
  repeat constructor.
Defined.

(** A NaN attempt limit survives the clamp to [1, 10]: such a step fails any
    number of times and is retried forever. *)
Theorem nan_attempt_limit_retries_forever n :
  let plan := buildPlanDag [mkRaw "a" "A" None None (Some NaN)] in
  exists s, plan_run plan (List.repeat (OpResult "a" out_failed None) n) = [s]
    /\ ps_status s = st_pending /\ ps_maxAttempts s = NaN.
Proof.
  assert (H : forall k s, ps_id s = "a" -> ps_status s = st_pending -> ps_maxAttempts s = NaN ->
    exists s', plan_run [s] (List.repeat (OpResult "a" out_failed None) k) = [s'] /\ ps_status s' = st_pending
      /\ ps_maxAttempts s' = NaN).
  { induction k as [| k IH]; intros s Hi Hs Hm; [by exists s |]. cbn [List.repeat plan_run List.fold_left].
    cbn [plan_step_op]. unfold applyStepResult, mapStep. cbn [List.map]. rewrite Hi, String.eqb_refl.
    unfold apply_outcome, has_status. rewrite Hs. cbn [isDone orb].
    rewrite bool_decide_eq_false_2 by done. apply IH; cbn; rewrite ?Hm; try done. }
  apply (H n (mkStep "a" "A" None [] st_pending (nz 0) NaN None)); reflexivity.
Qed.
