(* ===== verification/JsRegex.v ===== *)
(** * Regular expressions

    The regular expressions of the sources, as syntax trees, and the matching
    the language defines for them: a backtracking search that tries the
    alternatives in order and repeats greedily.  Only character classes are
    repeated in the sources, so [Rep] repeats a class and the matcher recurses
    on the expression and on the subject.

    [m] is the matcher in continuation style; [denotes] is the declarative
    meaning of an expression.  Main results: the matcher finds a match exactly
    when the meaning has one ([m_complete], [m_sound]), so an anchored test
    decides membership ([test_full_iff]).

    Subjects are strings of single-byte characters, as in [JsString]: the
    classes below are the ASCII part of the language's. *)

From stdpp Require Import base list strings option.
From Stdlib Require Import Ascii.
From S2P Require Import Prelude JsString.

Local Open Scope nat_scope.
Local Open Scope string_scope.

(** ** Expressions *)

Inductive re :=
| Eps
| Never
| Chr (p : ascii -> bool)
| Rep (p : ascii -> bool)
| Cat (r s : re)
| Alt (r s : re)
| WordBoundary.

Definition Opt (r : re) : re := Alt r Eps.
Definition Plus (p : ascii -> bool) : re := Cat (Chr p) (Rep p).

(** [\w] and the case-insensitive comparison with a literal character. *)
Definition is_word (c : ascii) : bool := is_alnum c || Ascii.eqb c "_".
Definition ci (c : ascii) : ascii -> bool := fun d => Ascii.eqb (lower_ascii d) (lower_ascii c).

(** [.] without the [s] flag: anything but a line terminator. *)
Definition is_line_terminator (c : ascii) : bool :=
  (N_of_ascii c =? 10)%N || (N_of_ascii c =? 13)%N.
Definition dot (c : ascii) : bool := negb (is_line_terminator c).

(** The literal text of a pattern, with and without the [i] flag. *)
Fixpoint lit_ci (s : string) : re :=
  match s with
  | EmptyString => Eps
  | String c s' => Cat (Chr (ci c)) (lit_ci s')
  end.

Fixpoint cat_all (rs : list re) : re :=
  match rs with
  | [] => Eps
  | r :: rs' => Cat r (cat_all rs')
  end.

Fixpoint alt_all (rs : list re) : re :=
  match rs with
  | [] => Never
  | r :: rs' => Alt r (alt_all rs')
  end.

(** ** Matching *)

Definition at_boundary (prev : option ascii) (s : string) : bool :=
  let w := fun o => match o with Some c => is_word c | None => false end in
  negb (Bool.eqb (w prev) (w (match s with String c _ => Some c | EmptyString => None end))).

Section Matcher.
Context {A : Type}.

Fixpoint m_rep (p : ascii -> bool) (prev : option ascii) (s : string)
    (k : option ascii -> string -> option A) : option A :=
  match s with
  | String c s' =>
      if p c then match m_rep p (Some c) s' k with
                  | Some x => Some x
                  | None => k prev s
                  end
      else k prev s
  | EmptyString => k prev s
  end.

Fixpoint m (r : re) (prev : option ascii) (s : string)
    (k : option ascii -> string -> option A) : option A :=
  match r with
  | Eps => k prev s
  | Never => None
  | Chr p => match s with
             | String c s' => if p c then k (Some c) s' else None
             | EmptyString => None
             end
  | Rep p => m_rep p prev s k
  | Cat r1 r2 => m r1 prev s (fun prev' s' => m r2 prev' s' k)
  | Alt r1 r2 => match m r1 prev s k with Some x => Some x | None => m r2 prev s k end
  | WordBoundary => if at_boundary prev s then k prev s else None
  end.
End Matcher.

(** [/^r$/.test(s)]. *)
Definition test_full (r : re) (s : string) : bool :=
  match m r None s (fun _ rest => match rest with EmptyString => Some tt | _ => None end) with
  | Some _ => true
  | None => false
  end.

(** The character before the position that follows [consumed]. *)
Fixpoint last_char (prev : option ascii) (consumed : string) : option ascii :=
  match consumed with
  | EmptyString => prev
  | String c s => last_char (Some c) s
  end.

(** [s.replace(/r/g, by)] for an expression that matches no empty string.  The
    continuation returns what follows the match and the character before it. *)
Fixpoint replace_all_from (fuel : nat) (r : re) (by_ : string) (prev : option ascii) (s : string) : string :=
  match fuel with
  | O => s
  | S fuel' =>
      match s with
      | EmptyString => ""
      | String c s' =>
          match m r prev s (fun prev' rest => Some (prev', rest)) with
          | Some (prev', rest) => by_ ++ replace_all_from fuel' r by_ prev' rest
          | None => String c (replace_all_from fuel' r by_ (Some c) s')
          end
      end
  end.

(** One step per character of the subject is enough: every match consumes at
    least one. *)
Definition replace_all (r : re) (by_ : string) (s : string) : string :=
  replace_all_from (String.length s) r by_ None s.

(** [/r/.test(s)] for an unanchored expression. *)
Fixpoint test_from (r : re) (prev : option ascii) (s : string) : bool :=
  match m r prev s (fun _ _ => Some tt) with
  | Some _ => true
  | None => match s with
            | EmptyString => false
            | String c s' => test_from r (Some c) s'
            end
  end.
Definition test (r : re) (s : string) : bool := test_from r None s.

(** ** Meaning *)

(** [denotes r prev s rest]: [r] can match, after [prev], a prefix of [s] that
    leaves [rest]. *)
Inductive denotes : re -> option ascii -> string -> option ascii -> string -> Prop :=
| D_eps prev s : denotes Eps prev s prev s
| D_chr p prev c s : p c = true -> denotes (Chr p) prev (String c s) (Some c) s
| D_rep_stop p prev s : denotes (Rep p) prev s prev s
| D_rep_more p prev c s prev' rest :
    p c = true -> denotes (Rep p) (Some c) s prev' rest -> denotes (Rep p) prev (String c s) prev' rest
| D_cat r1 r2 prev s prev1 s1 prev2 s2 :
    denotes r1 prev s prev1 s1 -> denotes r2 prev1 s1 prev2 s2 -> denotes (Cat r1 r2) prev s prev2 s2
| D_alt_l r1 r2 prev s prev' rest : denotes r1 prev s prev' rest -> denotes (Alt r1 r2) prev s prev' rest
| D_alt_r r1 r2 prev s prev' rest : denotes r2 prev s prev' rest -> denotes (Alt r1 r2) prev s prev' rest
| D_bound prev s : at_boundary prev s = true -> denotes WordBoundary prev s prev s.

#[export] Hint Constructors denotes : loopover.

Lemma m_rep_sound {A} p : forall s prev (k : option ascii -> string -> option A) x,
  m_rep p prev s k = Some x -> exists prev' rest, denotes (Rep p) prev s prev' rest /\ k prev' rest = Some x.
Proof.
  induction s as [| c s IH]; simpl; intros prev k x H; [eauto with loopover |].
  destruct (p c) eqn:Pc; [| eauto with loopover].
  destruct (m_rep p (Some c) s k) as [y |] eqn:E; [| eauto with loopover].
  injection H as <-. apply IH in E as (prev' & rest & Hd & Hk). eauto with loopover.
Qed.

(** What the matcher returns comes from a match. *)
Lemma m_sound {A} r : forall prev s (k : option ascii -> string -> option A) x,
  m r prev s k = Some x -> exists prev' rest, denotes r prev s prev' rest /\ k prev' rest = Some x.
Proof.
  induction r as [| | p | p | r1 IH1 r2 IH2 | r1 IH1 r2 IH2 |]; simpl; intros prev s k x H.
  - eauto with loopover.
  - discriminate.
  - destruct s as [| c s]; [discriminate |]. destruct (p c) eqn:Pc; [eauto with loopover | discriminate].
  - by apply m_rep_sound.
  - apply IH1 in H as (prev1 & s1 & H1 & H). apply IH2 in H as (prev2 & s2 & H2 & H). eauto with loopover.
  - destruct (m r1 prev s k) as [y |] eqn:E.
    + injection H as <-. apply IH1 in E as (prev' & rest & Hd & Hk). eauto with loopover.
    + apply IH2 in H as (prev' & rest & Hd & Hk). eauto with loopover.
  - destruct (at_boundary prev s) eqn:E; [eauto with loopover | discriminate].
Qed.

Lemma m_rep_none {A} p : forall s prev (k : option ascii -> string -> option A),
  m_rep p prev s k = None -> k prev s = None.
Proof.
  intros [| c s] prev k; simpl; [done |]. destruct (p c); [| done]. by destruct (m_rep p (Some c) s k).
Qed.

Lemma m_rep_complete {A} p prev s prev' rest : denotes (Rep p) prev s prev' rest ->
  forall k : option ascii -> string -> option A, m_rep p prev s k = None -> k prev' rest = None.
Proof.
  intros H. remember (Rep p) as r eqn:E. revert E.
  induction H; intros [= ->]; intros k Hk; [by eapply m_rep_none |].
  simpl in Hk. rewrite H in Hk. apply IHdenotes; [reflexivity |].
  by destruct (m_rep p (Some c) s k).
Qed.

(** When the matcher fails, no match satisfies the continuation. *)
Lemma m_complete {A} r prev s prev' rest : denotes r prev s prev' rest ->
  forall k : option ascii -> string -> option A, m r prev s k = None -> k prev' rest = None.
Proof.
  induction 1 as [| p prev c s Hp | | p prev c s prev' rest Hp Hd IH | r1 r2 prev s prev1 s1 prev2 s2 H1 IH1 H2 IH2
    | r1 r2 prev s prev' rest H IH | r1 r2 prev s prev' rest H IH | prev s Hb]; simpl; intros k Hk.
  - assumption.
  - by rewrite Hp in Hk.
  - by eapply m_rep_none.
  - rewrite Hp in Hk. apply (m_rep_complete p (Some c) s prev' rest Hd k).
    by destruct (m_rep p (Some c) s k).
  - apply IH2. by apply (IH1 (fun prev' s' => m r2 prev' s' k)).
  - apply IH. by destruct (m r1 prev s k).
  - apply IH. by destruct (m r1 prev s k).
  - by rewrite Hb in Hk.
Qed.

(** An anchored test decides whether the whole subject is in the meaning. *)
Lemma test_full_iff r s : test_full r s = true <-> exists prev', denotes r None s prev' "".
Proof.
  unfold test_full. set (k := fun (_ : option ascii) (rest : string) => match rest with EmptyString => Some tt | _ => None end).
  split.
  - destruct (m r None s k) as [[] |] eqn:E; [| discriminate]. intros _.
    apply m_sound in E as (prev' & rest & Hd & Hk). destruct rest; [eauto | discriminate].
  - intros [prev' Hd]. destruct (m r None s k) as [x |] eqn:E; [reflexivity |].
    apply (m_complete _ _ _ _ _ Hd) in E. discriminate.
Qed.

(** ** Meaning of the derived forms *)

Lemma denotes_cat r1 r2 prev s prev2 s2 :
  denotes (Cat r1 r2) prev s prev2 s2 <-> exists prev1 s1, denotes r1 prev s prev1 s1 /\ denotes r2 prev1 s1 prev2 s2.
Proof. split; [inversion 1; subst; eauto | intros (? & ? & ? & ?); eauto with loopover]. Qed.

Lemma denotes_rep p prev s prev' rest :
  denotes (Rep p) prev s prev' rest <-> exists u, s = u ++ rest /\ str_forallb p u = true /\ prev' = last_char prev u.
Proof.
  split.
  - intros H. remember (Rep p) as r eqn:E. revert E. induction H; intros [= ->].
    + by exists "".
    + destruct (IHdenotes eq_refl) as (u & -> & Hu & ->). exists (String c u).
      rewrite string_app_cons. simpl. by rewrite H.
  - intros (u & -> & Hu & ->). revert prev Hu. induction u as [| c u IH]; intros prev Hu; simpl.
    + constructor.
    + simpl in Hu. apply andb_true_iff in Hu as [Hc Hu]. rewrite string_app_cons. constructor; auto.
Qed.

Lemma denotes_chr p prev s prev' rest :
  denotes (Chr p) prev s prev' rest <-> exists c, s = String c rest /\ p c = true /\ prev' = Some c.
Proof. split; [inversion 1; subst; eauto | intros (c & -> & Hc & ->); by constructor]. Qed.

(** ** Sanity checks against the language *)

Example greedy : replace_all (Plus is_space) " " "a  b   c" = "a b c".
Proof. vm_compute. reflexivity. Qed.

Example boundaries : replace_all (Cat WordBoundary (Cat (lit_ci "cat") WordBoundary)) "dog" "Cat concat cat." = "dog concat dog.".
Proof. vm_compute. reflexivity. Qed.
