(* ===== verification/Guardrail.v ===== *)
(** * Hard path guardrails

    Models [signals/change-guardrail.ts] (the glob compiler and the path checks
    that force a change to manual review) and [resolveHardGuardrailGlobs] of
    [review/guardrail-config.ts].

    [glob_matches] is the declarative meaning of a glob; the operations compile
    globs to regular expressions as the source does.  Main results: a change is
    held exactly when the file list cannot be trusted or a path is in the
    meaning of a configured glob (over-complex globs guard everything); the
    detailed match list and the boolean verdict agree; repository settings can
    only widen the built-in protection unless the explicit override is set; and
    a file name with a line break is outside the meaning of [**]. *)

From stdpp Require Import base list strings option sets.
From Stdlib Require Import Ascii.
From S2P Require Import Prelude JsString JsRegex.

Local Open Scope nat_scope.
Local Open Scope string_scope.

(** ** Canonical paths *)

Fixpoint backslashes_to_slashes (s : string) : string :=
  match s with
  | EmptyString => ""
  | String c s' => String (if Ascii.eqb c "\" then "/"%char else c) (backslashes_to_slashes s')
  end.

(** [.replace(/^\.\//, "")]. *)
Definition drop_dot_slash (s : string) : string :=
  match s with
  | String "." (String "/" s') => s'
  | _ => s
  end.

(** [.replace(/^\/+/, "")]. *)
Fixpoint drop_slashes (s : string) : string :=
  match s with
  | String "/" s' => drop_slashes s'
  | _ => s
  end.

Definition canonicalize (value : string) : string :=
  toLowerCase (drop_slashes (drop_dot_slash (backslashes_to_slashes value))).

(** ** Globs *)

Definition MAX_GLOB_WILDCARD_GROUPS : nat := 2.

Fixpoint countWildcardGroups (glob : string) : nat :=
  match glob with
  | EmptyString => 0
  | String "*" rest =>
      S (match rest with
         | String "*" (String "/" rest') => countWildcardGroups rest'
         | String "*" rest' => countWildcardGroups rest'
         | _ => countWildcardGroups rest
         end)
  | String _ rest => countWildcardGroups rest
  end.

Definition hasUnsafeWildcardCount (glob : string) : bool :=
  Nat.ltb MAX_GLOB_WILDCARD_GROUPS (countWildcardGroups glob).

(** [/^(?!)$/]. *)
Definition NEVER_MATCHES : re := Never.

Definition not_slash (c : ascii) : bool := negb (Ascii.eqb c "/").

(** The body of the compiled pattern, [^re$] without its anchors. *)
Fixpoint glob_body (canonical : string) : re :=
  match canonical with
  | EmptyString => Eps
  | String "*" rest =>
      match rest with
      | String "*" (String "/" rest') => Cat (Rep dot) (glob_body rest')
      | String "*" rest' => Cat (Rep dot) (glob_body rest')
      | _ => Cat (Rep not_slash) (glob_body rest)
      end
  | String c rest => Cat (Chr (Ascii.eqb c)) (glob_body rest)
  end.

Definition globToRegExp (glob : string) : re :=
  if hasUnsafeWildcardCount glob then NEVER_MATCHES else glob_body (canonicalize glob).

Definition matchesAny (path : string) (globs : list string) : bool :=
  let canonicalPath := canonicalize path in
  existsb (fun g => hasUnsafeWildcardCount g || test_full (globToRegExp g) canonicalPath) globs.

(** A leading [!] on a glob longer than one character marks an exclusion. *)
Definition exclusion_of (glob : string) : option string :=
  match glob with
  | String "!" (String c s) => Some (String c s)
  | _ => None
  end.

Definition matchesAnyWithExclusions (path : string) (globs : list string) : bool :=
  let includes := List.filter (fun g => negb (bool_decide (is_Some (exclusion_of g)))) globs in
  let excludes := omap exclusion_of globs in
  if Nat.eqb (List.length includes) 0 then false
  else if negb (matchesAny path includes) then false
  else if Nat.eqb (List.length excludes) 0 then true
  else negb (existsb (fun e => test_full (globToRegExp e) (canonicalize path)) excludes).

(** ** Guardrail verdicts *)

Definition changedPathsHittingGuardrail (changedPaths hardGuardrailGlobs : list string) : list string :=
  if Nat.eqb (List.length hardGuardrailGlobs) 0 then []
  else List.filter (fun path => negb (str_empty path) && matchesAny path hardGuardrailGlobs) changedPaths.

Record GuardrailPathMatch := mkMatch { gm_path : string; gm_glob : string }.

Definition guardrailPathMatches (changedPaths hardGuardrailGlobs : list string) : list GuardrailPathMatch :=
  if Nat.eqb (List.length hardGuardrailGlobs) 0 || Nat.eqb (List.length changedPaths) 0 then []
  else List.concat (List.map (fun path =>
    if str_empty path then []
    else
      let canonicalPath := canonicalize path in
      List.concat (List.map (fun glob =>
        if hasUnsafeWildcardCount glob then [mkMatch path glob]
        else if test_full (globToRegExp glob) canonicalPath then [mkMatch path glob]
        else []) hardGuardrailGlobs)) changedPaths).

Definition GUARDRAIL_UNVERIFIABLE_FILE_COUNT : nat := 1000.

Definition isGuardrailHit (changedPaths hardGuardrailGlobs : list string) : bool :=
  if Nat.eqb (List.length hardGuardrailGlobs) 0 then false
  else Nat.eqb (List.length changedPaths) 0
       || Nat.leb GUARDRAIL_UNVERIFIABLE_FILE_COUNT (List.length changedPaths)
       || Nat.ltb 0 (List.length (changedPathsHittingGuardrail changedPaths hardGuardrailGlobs)).

(** ** Configuration *)

Definition CONFIG_AS_CODE_GUARDRAIL_GLOBS : list string :=
  [".loopover.yml"; ".loopover.yaml"; ".loopover.json"; ".github/loopover.yml"; ".github/loopover.yaml";
   ".github/loopover.json"; "**/codecov.yml"; "**/codecov.yaml"; "**/.codecov.yml"].

Definition WORKFLOW_AND_RUNTIME_GUARDRAIL_GLOBS : list string :=
  [".github/workflows/**"; "scripts/**"; "wrangler.jsonc"; "src/selfhost/**"].

Definition ENGINE_DECISION_GUARDRAIL_GLOBS : list string :=
  ["src/rules/**"; "src/services/**"; "src/settings/agent-actions.ts"; "src/settings/agent-execution.ts";
   "src/settings/agent-sweep.ts"; "src/settings/autonomy.ts";
   "packages/loopover-engine/src/settings/autonomy.ts"; "src/queue/**"; "src/github/pr-actions.ts";
   "src/github/app.ts"; "src/github/backfill.ts"; "src/github/e2e-test-commit.ts"; "src/scoring/**";
   "src/auth/**"; "src/review/safety.ts"; "src/review/guardrail-config.ts";
   "packages/loopover-engine/src/review/guardrail-config.ts"; "src/review/cutover-gate.ts";
   "src/review/linked-issue-hard-rules.ts"; "src/review/outcomes-wire.ts";
   "packages/loopover-engine/src/signals/change-guardrail.ts";
   "packages/loopover-engine/src/advisory/gate-advisory.ts";
   "packages/loopover-engine/src/predicted-gate.ts"].

Definition DEFAULT_HARD_GUARDRAIL_GLOBS : list string :=
  (CONFIG_AS_CODE_GUARDRAIL_GLOBS ++ WORKFLOW_AND_RUNTIME_GUARDRAIL_GLOBS ++ ENGINE_DECISION_GUARDRAIL_GLOBS)%list.

Record FocusManifestSettings := mkSettings {
  hardGuardrailGlobs : option (list string);
  hardGuardrailGlobsOverridesInvariants : option bool;
}.

Definition resolveHardGuardrailGlobs (settings : option FocusManifestSettings) : list string :=
  let configuredList := default [] (settings ≫= hardGuardrailGlobs) in
  if bool_decide (settings ≫= hardGuardrailGlobsOverridesInvariants = Some true) then configuredList
  else js_set (DEFAULT_HARD_GUARDRAIL_GLOBS ++ configuredList)%list.

(** ** Meaning of a glob *)

(** [glob_matches g s]: the canonical glob [g] covers the canonical path [s].
    [*] stands for text without a [/], [**] and [**/] for text without a line
    terminator, everything else for itself. *)
Inductive glob_matches : string -> string -> Prop :=
| gm_nil : glob_matches "" ""
| gm_lit c g s : c <> "*"%char -> glob_matches g s -> glob_matches (String c g) (String c s)
| gm_star g u s :
    (forall g', g <> String "*" g') -> str_forallb not_slash u = true ->
    glob_matches g s -> glob_matches (String "*" g) (u ++ s)
| gm_globstar_slash g u s :
    str_forallb dot u = true -> glob_matches g s -> glob_matches ("**/" ++ g) (u ++ s)
| gm_globstar g u s :
    (forall g', g <> String "/" g') -> str_forallb dot u = true ->
    glob_matches g s -> glob_matches ("**" ++ g) (u ++ s).

(** Induction following the tokens of a glob. *)
Lemma glob_ind (P : string -> Prop) :
  P "" ->
  (forall c g, c <> "*"%char -> P g -> P (String c g)) ->
  (forall g, (forall g', g <> String "*" g') -> P g -> P (String "*" g)) ->
  (forall g, P g -> P (String "*" (String "*" (String "/" g)))) ->
  (forall g, (forall g', g <> String "/" g') -> P g -> P (String "*" (String "*" g))) ->
  forall g, P g.
Proof.
  intros H0 Hl Hs Hgs Hg g.
  assert (K : forall n g, String.length g <= n -> P g); [| by apply (K (String.length g))].
  clear g. induction n as [| n IH]; intros g Hn; destruct g as [| c g]; simpl in Hn; try lia; [exact H0 | exact H0 |].
  destruct (decide (c = "*"%char)) as [-> | Hc]; [| apply Hl; [assumption | apply IH; lia]].
  destruct g as [| c1 g]; [apply Hs; [discriminate | exact H0] |]. simpl in Hn.
  destruct (decide (c1 = "*"%char)) as [-> | Hc1].
  - destruct g as [| c2 g]; [apply Hg; [discriminate | exact H0] |]. simpl in Hn.
    destruct (decide (c2 = "/"%char)) as [-> | Hc2].
    + apply Hgs, IH. lia.
    + apply Hg; [congruence | apply IH; simpl; lia].
  - apply Hs; [congruence | apply IH; simpl; lia].
Qed.

(** Unfolding equations of the compiler, one per token. *)
Lemma glob_body_lit c g : c <> "*"%char -> glob_body (String c g) = Cat (Chr (Ascii.eqb c)) (glob_body g).
Proof. destruct c as [[] [] [] [] [] [] [] []]; intros H; try reflexivity. congruence. Qed.

Lemma glob_body_star g : (forall g', g <> String "*" g') -> glob_body (String "*" g) = Cat (Rep not_slash) (glob_body g).
Proof.
  intros H. destruct g as [| c g]; [reflexivity |].
  destruct (decide (c = "*"%char)) as [-> | Hc]; [by destruct (H g) |].
  destruct c as [[] [] [] [] [] [] [] []]; try reflexivity. congruence.
Qed.

Lemma glob_body_globstar g : (forall g', g <> String "/" g') ->
  glob_body (String "*" (String "*" g)) = Cat (Rep dot) (glob_body g).
Proof.
  intros H. destruct g as [| c g]; [reflexivity |].
  destruct (decide (c = "/"%char)) as [-> | Hc]; [by destruct (H g) |].
  destruct c as [[] [] [] [] [] [] [] []]; try reflexivity. congruence.
Qed.

Lemma glob_matches_inv g s : glob_matches g s ->
  match g with
  | "" => s = ""
  | String c g' =>
      (c <> "*"%char /\ exists s', s = String c s' /\ glob_matches g' s')
      \/ (c = "*"%char /\ (forall h, g' <> String "*" h)
          /\ exists u s', s = u ++ s' /\ str_forallb not_slash u = true /\ glob_matches g' s')
      \/ (exists h u s', String c g' = String "*" (String "*" (String "/" h)) /\ s = u ++ s'
          /\ str_forallb dot u = true /\ glob_matches h s')
      \/ (exists h u s', String c g' = String "*" (String "*" h) /\ (forall h', h <> String "/" h')
          /\ s = u ++ s' /\ str_forallb dot u = true /\ glob_matches h s')
  end.
Proof.
  destruct 1 as [| c g s Hc H | g u s Hg Hu H | g u s Hu H | g u s Hg Hu H].
  - reflexivity.
  - left. eauto.
  - right. left. eauto 10.
  - right. right. left. exists g, u, s. auto.
  - right. right. right. exists g, u, s. auto.
Qed.

(** Closes the cases of an inversion that the token at hand excludes. *)
Ltac glob_absurd :=
  solve [exfalso; match goal with
    | H : forall g', _ <> String _ g' |- _ => eapply H; reflexivity
    | _ => congruence
    end].

(** The compiled expression means what the glob means. *)
Lemma glob_body_denotes g : forall prev s,
  (exists prev', denotes (glob_body g) prev s prev' "") <-> glob_matches g s.
Proof.
  induction g as [| c g Hc IH | g Hg IH | g IH | g Hg IH] using glob_ind; intros prev s.
  - split; [intros [prev' H]; inversion H; constructor | intros H; apply glob_matches_inv in H as ->; eauto with loopover].
  - rewrite glob_body_lit by assumption. split.
    + intros (prev' & H). apply denotes_cat in H as (prev1 & s1 & H1 & H2).
      apply denotes_chr in H1 as (d & -> & Hd & ->). apply Ascii.eqb_eq in Hd as <-.
      constructor; [assumption |]. apply (IH (Some c)). eauto.
    + intros H. apply glob_matches_inv in H as [(_ & s' & -> & H) | [(-> & _) | [(h & u & s' & [= ->] & _) | (h & u & s' & [= ->] & _)]]];
        try glob_absurd.
      apply (IH (Some c)) in H as [prev' H]. exists prev'. apply denotes_cat. exists (Some c), s'.
      split; [| exact H]. apply denotes_chr. exists c. rewrite Ascii.eqb_refl. auto.
  - rewrite glob_body_star by assumption. split.
    + intros (prev' & H). apply denotes_cat in H as (prev1 & s1 & H1 & H2).
      apply denotes_rep in H1 as (u & -> & Hu & ->). constructor; [assumption.. |].
      apply (IH (last_char prev u)). eauto.
    + intros H. apply glob_matches_inv in H as [(? & _) | [(_ & _ & u & s' & -> & Hu & H)
        | [(h & u & s' & [= ->] & _) | (h & u & s' & [= ->] & _)]]]; try glob_absurd.
      apply (IH (last_char prev u)) in H as [prev' H]. exists prev'. apply denotes_cat. exists (last_char prev u), s'.
      split; [| exact H]. apply denotes_rep. eauto.
  - change (glob_body (String "*" (String "*" (String "/" g)))) with (Cat (Rep dot) (glob_body g)). split.
    + intros (prev' & H). apply denotes_cat in H as (prev1 & s1 & H1 & H2).
      apply denotes_rep in H1 as (u & -> & Hu & ->). apply (gm_globstar_slash g u); [assumption |].
      apply (IH (last_char prev u)). eauto.
    + intros H. apply glob_matches_inv in H as [(? & _) | [(_ & Hn & _)
        | [(h & u & s' & [= <-] & -> & Hu & H) | (h & u & s' & [= <-] & Hn & _)]]]; try glob_absurd.
      apply (IH (last_char prev u)) in H as [prev' H]. exists prev'. apply denotes_cat. exists (last_char prev u), s'.
      split; [| exact H]. apply denotes_rep. eauto.
  - rewrite glob_body_globstar by assumption. split.
    + intros (prev' & H). apply denotes_cat in H as (prev1 & s1 & H1 & H2).
      apply denotes_rep in H1 as (u & -> & Hu & ->). apply (gm_globstar g u); [assumption.. |].
      apply (IH (last_char prev u)). eauto.
    + intros H. apply glob_matches_inv in H as [(? & _) | [(_ & Hn & _)
        | [(h & u & s' & [= ->] & _) | (h & u & s' & [= <-] & _ & -> & Hu & H)]]]; try glob_absurd.
      apply (IH (last_char prev u)) in H as [prev' H]. exists prev'. apply denotes_cat. exists (last_char prev u), s'.
      split; [| exact H]. apply denotes_rep. eauto.
Qed.

(** ** What the verdicts say *)

(** [glob] guards [path]: it is too complex to compile, or covers it. *)
Definition guards (glob path : string) : Prop :=
  hasUnsafeWildcardCount glob = true \/ glob_matches (canonicalize glob) (canonicalize path).

Lemma guards_test glob path :
  hasUnsafeWildcardCount glob || test_full (globToRegExp glob) (canonicalize path) = true <-> guards glob path.
Proof.
  unfold guards, globToRegExp. destruct (hasUnsafeWildcardCount glob); simpl; [intuition |].
  rewrite test_full_iff, glob_body_denotes. intuition discriminate.
Qed.

Lemma matchesAny_iff path globs : matchesAny path globs = true <-> exists g, g ∈ globs /\ guards g path.
Proof.
  unfold matchesAny. cbv zeta. rewrite existsb_exists. split.
  - intros (g & Hg & H). exists g. rewrite list_elem_of_In, <- guards_test. auto.
  - intros (g & Hg & H). exists g. rewrite <- list_elem_of_In, guards_test. auto.
Qed.

Lemma hitting_iff paths globs p :
  p ∈ changedPathsHittingGuardrail paths globs <-> p ∈ paths /\ p <> "" /\ exists g, g ∈ globs /\ guards g p.
Proof.
  unfold changedPathsHittingGuardrail. destruct globs as [| g0 globs]; simpl Nat.eqb; cbv iota.
  - rewrite elem_of_nil. split; [done |]. intros (_ & _ & g & Hg & _). by apply elem_of_nil in Hg.
  - rewrite !list_elem_of_In, filter_In, andb_true_iff, negb_true_iff, str_empty_false, matchesAny_iff. tauto.
Qed.

Lemma nonempty_iff {A} (l : list A) : Nat.ltb 0 (List.length l) = true <-> exists x, x ∈ l.
Proof.
  rewrite Nat.ltb_lt. destruct l as [| x l]; simpl.
  - split; [lia | intros [x H]; by apply elem_of_nil in H].
  - split; [intros _; exists x; apply list_elem_of_here | lia].
Qed.

Lemma isGuardrailHit_spec paths globs :
  isGuardrailHit paths globs = true <->
  globs <> [] /\ (paths = [] \/ 1000 <= List.length paths
                 \/ exists p g, p ∈ paths /\ p <> "" /\ g ∈ globs /\ guards g p).
Proof.
  unfold isGuardrailHit. destruct globs as [| g0 globs']; [simpl; naive_solver |].
  set (globs := g0 :: globs'). change (Nat.eqb (List.length globs) 0) with false. cbv iota.
  rewrite !orb_true_iff, Nat.eqb_eq, Nat.leb_le, nonempty_iff.
  assert (E : List.length paths = 0 <-> paths = []) by (split; [by destruct paths | by intros ->]). rewrite E.
  setoid_rewrite hitting_iff. split.
  - intros [[H | H] | (p & Hp & Hn & g & Hg & H)]; (split; [discriminate |]); eauto 10.
  - intros [_ [H | [H | (p & g & Hp & Hn & Hg & H)]]]; eauto 10.
Qed.

Lemma path_matches_iff paths globs p g :
  mkMatch p g ∈ guardrailPathMatches paths globs <-> p ∈ paths /\ p <> "" /\ g ∈ globs /\ guards g p.
Proof.
  unfold guardrailPathMatches. destruct (_ || _) eqn:E.
  - rewrite elem_of_nil. split; [done |]. intros (Hp & _ & Hg & _). apply orb_true_iff in E as [E | E];
      apply Nat.eqb_eq in E; [destruct globs | destruct paths]; try discriminate; by apply elem_of_nil in Hg || by apply elem_of_nil in Hp.
  - clear E. rewrite !list_elem_of_In, in_concat. setoid_rewrite in_map_iff. split.
    + intros (ms & (p' & <- & Hp) & Hin). destruct (str_empty p') eqn:Ee; [done |]. cbv zeta in Hin.
      apply in_concat in Hin as (ms & Hms & Hin). apply in_map_iff in Hms as (g' & <- & Hg).
      assert (E : p' = p /\ g' = g /\ guards g' p').
      { rewrite <- guards_test. destruct (hasUnsafeWildcardCount g'); simpl;
          [| destruct (test_full (globToRegExp g') (canonicalize p')); [| done]];
          destruct Hin as [[= <- <-] | []]; auto. }
      destruct E as (<- & <- & H). apply str_empty_false in Ee. auto.
    + intros (Hp & Hn & Hg & H). eexists. split; [exists p; split; [reflexivity | exact Hp] |].
      rewrite (proj2 (str_empty_false p) Hn). cbv zeta. apply in_concat. eexists.
      split; [apply in_map_iff; exists g; split; [reflexivity | exact Hg] |].
      rewrite <- guards_test in H. destruct (hasUnsafeWildcardCount g); simpl in *; [by left |]. rewrite H. by left.
Qed.

(** ** Theorems *)

(** The hard guardrail holds a change exactly when it should.  With globs
    configured, a change is a hit iff its file list is empty or at the 1000-file
    listing cap (so it cannot be trusted), or one of its non-empty paths is
    covered by the meaning of a configured glob (a glob too complex to compile
    covers every path).  With no globs nothing is a hit. *)
Theorem isGuardrailHit_iff paths globs :
  isGuardrailHit paths globs = true <->
  globs <> [] /\ (paths = [] \/ 1000 <= List.length paths
                 \/ exists p g, p ∈ paths /\ p <> "" /\ g ∈ globs
                    /\ (2 < countWildcardGroups g \/ glob_matches (canonicalize g) (canonicalize p))).
Proof.
  rewrite isGuardrailHit_spec. unfold guards, hasUnsafeWildcardCount, MAX_GLOB_WILDCARD_GROUPS.
  by setoid_rewrite Nat.ltb_lt.
Qed.

(** The detailed match list agrees with the boolean checks: a pair is listed
    exactly when that glob guards that non-empty changed path, and a path is
    reported as hitting exactly when it occurs in some listed pair. *)
Theorem guardrailPathMatches_agree paths globs p :
  (forall g, mkMatch p g ∈ guardrailPathMatches paths globs <-> p ∈ paths /\ p <> "" /\ g ∈ globs /\ matchesAny p [g] = true)
  /\ (p ∈ changedPathsHittingGuardrail paths globs <-> exists g, mkMatch p g ∈ guardrailPathMatches paths globs).
Proof.
  split.
  - intros g. rewrite path_matches_iff, matchesAny_iff. setoid_rewrite list_elem_of_singleton. naive_solver.
  - rewrite hitting_iff. setoid_rewrite path_matches_iff. naive_solver.
Qed.

(** The built-in protection is a floor.  Unless a repository sets the
    explicit override, every change the built-in globs hold is held under the
    resolved globs, whatever the repository configures, and every configured
    glob is in force too. *)
Theorem guardrail_floor settings paths :
  settings ≫= hardGuardrailGlobsOverridesInvariants <> Some true ->
  (isGuardrailHit paths DEFAULT_HARD_GUARDRAIL_GLOBS = true ->
   isGuardrailHit paths (resolveHardGuardrailGlobs settings) = true)
  /\ (forall g, g ∈ default [] (settings ≫= hardGuardrailGlobs) -> g ∈ resolveHardGuardrailGlobs settings).
Proof.
  intros Ho. unfold resolveHardGuardrailGlobs. rewrite bool_decide_false by assumption. cbv zeta.
  assert (Hsub : forall g, g ∈ DEFAULT_HARD_GUARDRAIL_GLOBS ->
    g ∈ js_set (DEFAULT_HARD_GUARDRAIL_GLOBS ++ default [] (settings ≫= hardGuardrailGlobs))%list).
  { intros g Hg. apply js_set_elem, elem_of_app. by left. }
  split.
  - rewrite !isGuardrailHit_spec. intros [Hne H]. split.
    + intros E. assert (Hin : ".loopover.yml" ∈ DEFAULT_HARD_GUARDRAIL_GLOBS) by apply list_elem_of_here.
      apply Hsub in Hin. rewrite E in Hin. by apply elem_of_nil in Hin.
    + destruct H as [H | [H | (p & g & Hp & Hn & Hg & H)]]; eauto 10.
  - intros g Hg. apply js_set_elem, elem_of_app. by right.
Qed.

Lemma guardrail_floor_witness :
  isGuardrailHit [".github/Workflows/ci.yml"]
    (resolveHardGuardrailGlobs (Some (mkSettings (Some ["docs/**"]) (Some false)))) = true.
Proof.
  apply (proj1 (guardrail_floor (Some (mkSettings (Some ["docs/**"]) (Some false))) [".github/Workflows/ci.yml"]
    ltac:(discriminate))).
  vm_compute. reflexivity.
Defined.

(** *** Line breaks in file names *)

Definition newline_workflow : string := ".github/workflows/a" ++ String (ascii_of_N 10) "b.yml".

(** A file name with a line break is outside [**]: the built-in guardrails
    hold a new workflow file, and do not hold the same file when its name
    contains a newline, although it lies in the guarded directory. *)
Theorem newline_path_evades_guardrail :
  isGuardrailHit [".github/workflows/ab.yml"] DEFAULT_HARD_GUARDRAIL_GLOBS = true
  /\ isGuardrailHit [newline_workflow] DEFAULT_HARD_GUARDRAIL_GLOBS = false
  /\ (exists rest, newline_workflow = ".github/workflows/" ++ rest).
Proof.
  split; [vm_compute; reflexivity |]. split; [vm_compute; reflexivity |].
  exists ("a" ++ String (ascii_of_N 10) "b.yml"). reflexivity.
Qed.
