(* ===== verification/DuplicateWinner.v ===== *)
(** * Duplicate-cluster winner election

    Models [packages/loopover-engine/src/duplicate-winner.ts]: among open pull
    requests that claim the same issue, the earliest observed claimant wins.
    Pull request numbers are integers; [Date.parse], whose behaviour outside one
    format is left to the implementation, is a parameter of every definition.

    Main results: a cluster has at most one winner; it has one exactly when every
    claim time is known (a lone member always wins); the number shown to the
    losers is the number of that winner. *)

From stdpp Require Import base list strings option sets.
From Stdlib Require Import QArith Lqa.
From S2P Require Import Prelude JsNumber JsString.

Local Open Scope nat_scope.

Record DuplicateClaimMember := mkMember {
  dm_number : Z;
  linkedIssueClaimedAt : option string;
  createdAt : option string;
}.

Section Election.
Context (Date_parse : string -> num).

Definition claimTimeMs (value : option string) : option num :=
  match value with
  | None => None
  | Some s => if str_empty s then None
              else let parsed := Date_parse s in if is_finite parsed then Some parsed else None
  end.

Definition prPrecedesSibling (pr sibling : DuplicateClaimMember) : bool :=
  match claimTimeMs (linkedIssueClaimedAt pr) with
  | None => false
  | Some prClaim =>
      match claimTimeMs (linkedIssueClaimedAt sibling) with
      | None => false
      | Some siblingClaim =>
          if nltb siblingClaim prClaim then false
          else if neqb siblingClaim prClaim && (dm_number sibling <? dm_number pr)%Z then false
          else true
      end
  end.

Definition isDuplicateClusterWinnerByClaim (pr : DuplicateClaimMember)
    (openSiblings : list DuplicateClaimMember) : bool :=
  if Nat.eqb (List.length openSiblings) 0 then true
  else forallb (fun sibling => prPrecedesSibling pr sibling) openSiblings.

Definition others (n : Z) (openSiblings : list DuplicateClaimMember) : list DuplicateClaimMember :=
  List.filter (fun other => negb (dm_number other =? n)%Z) openSiblings.

Definition resolveDuplicateClusterWinnerNumber (pr : DuplicateClaimMember)
    (openSiblings : list DuplicateClaimMember) : option Z :=
  if isDuplicateClusterWinnerByClaim pr openSiblings then Some (dm_number pr)
  else
    dm_number <$> List.find (fun sibling =>
      isDuplicateClusterWinnerByClaim sibling (pr :: others (dm_number sibling) openSiblings)) openSiblings.

(** ** The order behind the election *)

(** The claim of a member as a pair (time, number), when it is known. *)
Definition claim (x : DuplicateClaimMember) : option Q :=
  match claimTimeMs (linkedIssueClaimedAt x) with
  | Some (Fin q) => Some q
  | _ => None
  end.

Definition before (x y : DuplicateClaimMember) : Prop :=
  exists a b, claim x = Some a /\ claim y = Some b
    /\ (Qlt a b \/ Qeq a b /\ (dm_number x <= dm_number y)%Z).

Lemma claim_fin x : claimTimeMs (linkedIssueClaimedAt x) = Fin <$> claim x.
Proof.
  unfold claim. destruct (claimTimeMs (linkedIssueClaimedAt x)) as [t |] eqn:E; [| reflexivity].
  unfold claimTimeMs in E. destruct (linkedIssueClaimedAt x) as [s |]; [| discriminate].
  destruct (str_empty s); [discriminate |]. destruct (Date_parse s); simpl in E; try discriminate.
  by injection E as <-.
Qed.

Lemma precedes_iff x y : prPrecedesSibling x y = true <-> before x y.
Proof.
  unfold prPrecedesSibling, before. rewrite !claim_fin.
  destruct (claim x) as [a |], (claim y) as [b |]; simpl; try (split; [discriminate | naive_solver]).
  destruct (nltb (Fin b) (Fin a)) eqn:L; [apply nltb_fin in L | apply nltb_fin_false in L].
  { split; [discriminate |]. intros (a' & b' & [= <-] & [= <-] & [H | [H _]]); lra. }
  destruct (neqb (Fin b) (Fin a)) eqn:E; simpl.
  - apply neqb_fin in E. destruct (Z.ltb_spec (dm_number y) (dm_number x)).
    + split; [discriminate |]. intros (a' & b' & [= <-] & [= <-] & [H' | [_ H']]); [lra | lia].
    + split; [| reflexivity]. intros _. exists a, b. split; [reflexivity |]. split; [reflexivity |].
      right. split; [lra | lia].
  - split; [| reflexivity]. intros _. exists a, b. split; [reflexivity |]. split; [reflexivity |].
    left. destruct (Qlt_le_dec a b) as [H | H]; [assumption |].
    assert (E' : neqb (Fin b) (Fin a) = true) by (apply neqb_fin; lra). congruence.
Qed.

Lemma before_antisym x y : before x y -> before y x -> dm_number x = dm_number y.
Proof.
  intros (a & b & Ha & Hb & H1) (b' & a' & Hb' & Ha' & H2).
  rewrite Ha in Ha'. rewrite Hb in Hb'. injection Ha' as <-. injection Hb' as <-.
  destruct H1 as [H1 | [E1 H1]], H2 as [H2 | [E2 H2]]; try lra. lia.
Qed.

Lemma before_trans x y z : before x y -> before y z -> before x z.
Proof.
  intros (a & b & Ha & Hb & H1) (b' & c & Hb' & Hc & H2). rewrite Hb in Hb'. injection Hb' as <-.
  exists a, c. split; [assumption |]. split; [assumption |].
  destruct H1 as [H1 | [E1 H1]], H2 as [H2 | [E2 H2]]; [left; lra | left; lra | left; lra | right; split; [lra | lia]].
Qed.

Lemma before_total x y : is_Some (claim x) -> is_Some (claim y) -> before x y \/ before y x.
Proof.
  intros [a Ha] [b Hb]. destruct (Qlt_le_dec a b) as [L | L]; [left; exists a, b; auto |].
  destruct (Qlt_le_dec b a) as [L' | L']; [right; exists b, a; auto |].
  assert (E : Qeq a b) by lra. destruct (Z.le_gt_cases (dm_number x) (dm_number y)).
  - left. exists a, b. auto.
  - right. exists b, a. split; [assumption |]. split; [assumption |]. right. split; [lra | lia].
Qed.

Lemma wins_iff x sibs : isDuplicateClusterWinnerByClaim x sibs = true <-> (forall y, y ∈ sibs -> before x y).
Proof.
  unfold isDuplicateClusterWinnerByClaim. destruct sibs as [| s sibs]; simpl Nat.eqb; cbv iota.
  - split; [intros _ y Hy; by apply elem_of_nil in Hy | reflexivity].
  - rewrite forallb_forall. setoid_rewrite precedes_iff. by setoid_rewrite list_elem_of_In.
Qed.

Lemma others_elem n sibs y : y ∈ others n sibs <-> y ∈ sibs /\ dm_number y <> n.
Proof.
  unfold others. rewrite !list_elem_of_In, filter_In, negb_true_iff, Z.eqb_neq. reflexivity.
Qed.

(** ** Clusters *)

(** A cluster: its members have distinct numbers. *)
Definition cluster_ok (c : list DuplicateClaimMember) : Prop := NoDup (dm_number <$> c).

(** [x] wins in [c] as each of its members computes it: against the others. *)
Definition wins (c : list DuplicateClaimMember) (x : DuplicateClaimMember) : bool :=
  isDuplicateClusterWinnerByClaim x (others (dm_number x) c).

Lemma wins_before c x : wins c x = true <-> (forall y, y ∈ c -> dm_number y <> dm_number x -> before x y).
Proof. unfold wins. rewrite wins_iff. setoid_rewrite others_elem. naive_solver. Qed.

Lemma min_exists c : c <> [] -> (forall x, x ∈ c -> is_Some (claim x)) ->
  exists x, x ∈ c /\ forall y, y ∈ c -> before x y.
Proof.
  induction c as [| x c IH]; [done |]. intros _ Hc.
  assert (Hx : before x x).
  { destruct (Hc x (list_elem_of_here _ _)) as [a Ha]. exists a, a. split; [assumption |]. split; [assumption |].
    right. split; [reflexivity | lia]. }
  destruct c as [| y c].
  - exists x. split; [apply list_elem_of_here |]. intros y Hy. apply list_elem_of_singleton in Hy as ->. assumption.
  - destruct IH as (z & Hz & Hmin); [done | intros w Hw; apply Hc; by apply list_elem_of_further |].
    destruct (before_total x z) as [B | B]; [apply Hc, list_elem_of_here | apply Hc; by apply list_elem_of_further | |].
    + exists x. split; [apply list_elem_of_here |]. intros w Hw. apply elem_of_cons in Hw as [-> | Hw]; [assumption |].
      apply (before_trans x z w B). by apply Hmin.
    + exists z. split; [by apply list_elem_of_further |]. intros w Hw. apply elem_of_cons in Hw as [-> | Hw]; [assumption |].
      by apply Hmin.
Qed.

(** An election has exactly one outcome.  In a cluster of pull requests with
    distinct numbers at most one member is the winner; when the cluster has at
    least two members there is a winner exactly when every member's claim time
    is known, and then it is the member whose (claim time, number) is least. *)
Theorem duplicate_election_unique c :
  cluster_ok c ->
  (forall x y, x ∈ c -> y ∈ c -> wins c x = true -> wins c y = true -> x = y)
  /\ (2 <= List.length c ->
      ((exists x, x ∈ c /\ wins c x = true) <-> forall x, x ∈ c -> is_Some (claim x)))
  /\ (forall x, x ∈ c -> wins c x = true -> forall y, y ∈ c -> dm_number y <> dm_number x -> before x y).
Proof.
  intros Hnd. unfold cluster_ok in Hnd.
  assert (Hinj : forall x y, x ∈ c -> y ∈ c -> dm_number x = dm_number y -> x = y).
  { clear -Hnd. induction c as [| z c IH]; intros x y Hx Hy E; [by apply elem_of_nil in Hx |].
    simpl in Hnd. inversion_clear Hnd as [| ? ? Hz Hnd'].
    apply elem_of_cons in Hx as [-> | Hx]; apply elem_of_cons in Hy as [-> | Hy]; [reflexivity | | | by apply IH];
      destruct Hz; [rewrite E | rewrite <- E]; by apply list_elem_of_fmap_2. }
  split; [| split].
  - intros x y Hx Hy Wx Wy. destruct (decide (dm_number x = dm_number y)) as [E | E]; [by apply Hinj |].
    rewrite wins_before in Wx, Wy. exfalso. apply E. apply before_antisym; [apply Wx | apply Wy]; first [assumption | congruence].
  - intros Hlen. split.
    + intros (x & Hx & Wx) y Hy. rewrite wins_before in Wx.
      assert (Hother : exists z, z ∈ c /\ dm_number z <> dm_number x).
      { destruct c as [| z1 [| z2 c']]; simpl in Hlen; try lia.
        destruct (decide (dm_number z1 = dm_number x)) as [E1 | E1]; [| exists z1; split; [apply list_elem_of_here | done]].
        exists z2. split; [apply list_elem_of_further, list_elem_of_here |]. rewrite <- E1. intros E2.
        simpl in Hnd. inversion_clear Hnd as [| ? ? Hz _]. destruct Hz. rewrite <- E2. apply list_elem_of_here. }
      destruct Hother as (z & Hz & Nz). destruct (Wx z Hz Nz) as (a & b & Ha & _).
      destruct (decide (dm_number y = dm_number x)) as [E | E].
      * rewrite (Hinj y x Hy Hx E). by exists a.
      * destruct (Wx y Hy E) as (a' & b' & _ & Hb' & _). by exists b'.
    + intros Hall. destruct (min_exists c) as (x & Hx & Hmin); [intros ->; simpl in Hlen; lia | exact Hall |].
      exists x. split; [assumption |]. apply wins_before. auto.
  - intros x Hx Wx. by apply wins_before.
Qed.

(** The winner named to the losers is the winner.  For a member [pr] with its
    siblings (all numbers distinct), the resolved number is [n] exactly when
    the member of the cluster with number [n] wins, and nothing is named when
    no member wins. *)
Theorem resolve_names_the_winner pr sibs :
  cluster_ok (pr :: sibs) ->
  forall n, resolveDuplicateClusterWinnerNumber pr sibs = Some n
    <-> exists x, x ∈ pr :: sibs /\ dm_number x = n /\ wins (pr :: sibs) x = true.
Proof.
  intros Hok n. pose proof Hok as Hnd. unfold cluster_ok in Hnd. simpl in Hnd.
  apply NoDup_ListNoDup in Hnd. inversion_clear Hnd as [| ? ? Hpr Hnd'].
  assert (Hpr' : forall y, y ∈ sibs -> dm_number y <> dm_number pr).
  { intros y Hy E. apply Hpr. rewrite <- E. apply list_elem_of_In, list_elem_of_fmap_2, Hy. }
  assert (Epr : isDuplicateClusterWinnerByClaim pr sibs = wins (pr :: sibs) pr).
  { apply Bool.eq_true_iff_eq. rewrite wins_iff, wins_before. split.
    - intros H y Hy Ny. apply elem_of_cons in Hy as [-> | Hy]; [done | auto].
    - intros H y Hy. apply H; [by apply list_elem_of_further | auto]. }
  assert (Esib : forall x, x ∈ sibs ->
    isDuplicateClusterWinnerByClaim x (pr :: others (dm_number x) sibs) = wins (pr :: sibs) x).
  { intros x Hx. apply Bool.eq_true_iff_eq. rewrite wins_iff, wins_before. split.
    - intros H y Hy Ny. apply H. apply elem_of_cons in Hy as [-> | Hy]; [apply list_elem_of_here |].
      apply list_elem_of_further, others_elem. auto.
    - intros H y Hy. apply elem_of_cons in Hy as [-> | Hy].
      + apply H; [apply list_elem_of_here |]. intros E. by apply (Hpr' x Hx).
      + apply others_elem in Hy as [Hy Ny]. apply H; [by apply list_elem_of_further | assumption]. }
  unfold resolveDuplicateClusterWinnerNumber. rewrite Epr. destruct (wins (pr :: sibs) pr) eqn:W.
  - split.
    + intros [= <-]. exists pr. split; [apply list_elem_of_here |]. auto.
    + intros (x & Hx & <- & Wx). f_equal. destruct (decide (dm_number pr = dm_number x)) as [E | E]; [done |].
      rewrite wins_before in W, Wx. apply before_antisym; [apply W | apply Wx]; try first [assumption | congruence]. apply list_elem_of_here.
  - split.
    + destruct (List.find _ sibs) as [x |] eqn:F; [| discriminate]. intros [= <-].
      apply find_some in F as [Hx Wx]. apply list_elem_of_In in Hx. exists x.
      split; [by apply list_elem_of_further |]. by rewrite <- (Esib x Hx).
    + intros (x & Hx & <- & Wx). apply elem_of_cons in Hx as [-> | Hx]; [congruence |].
      destruct (List.find _ sibs) as [y |] eqn:F.
      * apply find_some in F as [Hy Wy]. apply list_elem_of_In in Hy. rewrite (Esib y Hy) in Wy. simpl. f_equal.
        destruct (decide (dm_number y = dm_number x)) as [E | E]; [done |].
        rewrite wins_before in Wx, Wy. apply before_antisym; [apply Wy | apply Wx]; try congruence; by apply list_elem_of_further.
      * apply find_none with (x := x) in F; [| by apply list_elem_of_In]. simpl in F. rewrite (Esib x Hx) in F. congruence.
Qed.
End Election.

(** A [Date.parse] for the witnesses: the length of the text. *)
Definition toy_parse (s : string) : num := nz (Z.of_nat (String.length s)).

Definition toy_cluster : list DuplicateClaimMember :=
  [mkMember 7 (Some "bb"%string) None; mkMember 9 (Some "a"%string) None; mkMember 5 (Some "bb"%string) None].

Lemma duplicate_election_unique_witness :
  (exists x, x ∈ toy_cluster /\ wins toy_parse toy_cluster x = true).
Proof.
  apply (proj1 (proj2 (duplicate_election_unique toy_parse toy_cluster
    ltac:(apply (bool_decide_unpack _); vm_compute; exact I)))).
  - simpl. lia.
  - intros x Hx. repeat (apply elem_of_cons in Hx as [-> | Hx]; [vm_compute; eauto |]). by apply elem_of_nil in Hx.
Defined.

Lemma resolve_names_the_winner_witness :
  resolveDuplicateClusterWinnerNumber toy_parse (mkMember 7 (Some "bb"%string) None)
    [mkMember 9 (Some "a"%string) None; mkMember 5 (Some "bb"%string) None] = Some 9%Z.
Proof.
  apply (resolve_names_the_winner toy_parse (mkMember 7 (Some "bb"%string) None)
    [mkMember 9 (Some "a"%string) None; mkMember 5 (Some "bb"%string) None]
    ltac:(apply (bool_decide_unpack _); vm_compute; exact I)).
  exists (mkMember 9 (Some "a"%string) None). split; [by apply list_elem_of_further, list_elem_of_here |].
  split; [reflexivity | vm_compute; reflexivity].
Defined.
