(* ===== verification/GateAdvisory.v ===== *)
(** * The review gate

    Models [packages/loopover-engine/src/advisory/gate-advisory.ts]: the findings
    an advisory collects about a pull request ([buildPullRequestAdvisory]) and
    the verdict the gate derives from the findings and the repository's policy
    ([evaluateGateCheck]), with the sanitizer of the texts it publishes.

    Main results: the conclusion is characterised exactly (not evaluated, held,
    failed or passed); unconditional blockers fail whatever the policy says; a
    policy that opts into nothing never fails a pull request otherwise;
    duplicate findings and readiness scores never fail a pull request; more
    findings never turn a non-passing verdict into a pass; the dry-run verdict
    only escalates; state the app has not synced yet is never held against the
    author; and the sanitizer can publish terms it is meant to withhold. *)

From stdpp Require Import base list strings option sets.
From Stdlib Require Import QArith Ascii.
From S2P Require Import Prelude JsNumber JsString JsRegex DuplicateWinner Guardrail.

Local Open Scope nat_scope.
Local Open Scope string_scope.
Local Open Scope js_scope.

(** ** Data *)

Inductive AdvisorySeverity := sev_info | sev_warning | sev_critical.
Inductive AdvisoryConclusion := adv_success | adv_neutral | adv_action_required.

#[global] Instance AdvisorySeverity_eq_dec : EqDecision AdvisorySeverity.
Proof. solve_decision. Defined.

(** [off], [advisory] and [block]; [mode_malformed] stands for any other value
    that reaches the gate at run time. *)
Inductive GateRuleMode := mode_off | mode_advisory | mode_block | mode_malformed.

#[global] Instance GateRuleMode_eq_dec : EqDecision GateRuleMode.
Proof. solve_decision. Defined.

Record AdvisoryFinding := mkFinding {
  f_code : string;
  f_severity : AdvisorySeverity;
  f_title : string;
  f_detail : string;
  f_action : option string;
  f_publicText : option string;
  f_confidence : option num;
}.

(** A finding without public text or confidence. *)
Definition plain_finding (code : string) (severity : AdvisorySeverity) (title detail : string)
    (action : option string) : AdvisoryFinding :=
  mkFinding code severity title detail action None None.

Record Advisory := mkAdvisory {
  adv_id : string;
  adv_targetType : string;
  adv_targetKey : string;
  adv_repoFullName : string;
  adv_pullNumber : option Z;
  adv_issueNumber : option Z;
  adv_headSha : option string;
  adv_conclusion : AdvisoryConclusion;
  adv_severity : AdvisorySeverity;
  adv_title : string;
  adv_summary : string;
  findings : list AdvisoryFinding;
  adv_generatedAt : string;
}.

Inductive GateCheckConclusion := gc_success | gc_failure | gc_action_required | gc_neutral | gc_skipped.

#[global] Instance GateCheckConclusion_eq_dec : EqDecision GateCheckConclusion.
Proof. solve_decision. Defined.

Definition conclusion_to_string (c : GateCheckConclusion) : string :=
  match c with
  | gc_success => "success" | gc_failure => "failure" | gc_action_required => "action_required"
  | gc_neutral => "neutral" | gc_skipped => "skipped"
  end.

Inductive LowConfidenceDisposition := one_shot | hold_for_review | advisory_only.

(** The policy fields the gate reads, and the author context it carries. *)
Record GateCheckPolicy := mkPolicy {
  linkedIssueGateMode : option GateRuleMode;
  duplicatePrGateMode : option GateRuleMode;
  qualityGateMode : option GateRuleMode;
  qualityGateMinScore : option num;
  aiReviewGateMode : option GateRuleMode;
  aiReviewCloseConfidence : option num;
  aiReviewLowConfidenceDisposition : option LowConfidenceDisposition;
  readinessScore : option num;
  slopGateMode : option GateRuleMode;
  slopGateMinScore : option num;
  slopRisk : option num;
  mergeReadinessGateMode : option GateRuleMode;
  manifestPolicyGateMode : option GateRuleMode;
  selfAuthoredLinkedIssueGateMode : option GateRuleMode;
  linkedIssueSatisfactionGateMode : option GateRuleMode;
  contentLaneDeliverableGateMode : option GateRuleMode;
  backtestRegressionGateMode : option GateRuleMode;
  claGateMode : option GateRuleMode;
  authorMergedPrCount : option num;
  authorClosedUnmergedPrCount : option num;
  confirmedContributor : option bool;
  sizeGateMode : option GateRuleMode;
  sizeGateMaxFiles : option num;
  sizeGateMaxLines : option num;
  lockfileIntegrityGateMode : option GateRuleMode;
  changedFileCount : option num;
  changedLineCount : option num;
  guardrailHit : option bool;
  guardrailMatches : option (list GuardrailPathMatch);
  dryRun : option bool;
}.

(** [{}]. *)
Definition default_policy : GateCheckPolicy :=
  mkPolicy None None None None None None None None None None None None None None None None None None None None
    None None None None None None None None None None.

Record GateCheckEvaluation := mkEvaluation {
  ge_enabled : bool;
  ge_conclusion : GateCheckConclusion;
  ge_displayConclusion : option GateCheckConclusion;
  ge_title : string;
  ge_summary : string;
  ge_blockers : list AdvisoryFinding;
  ge_warnings : list AdvisoryFinding;
}.

(** ** Published text *)

Definition opt_s : re := Opt (Chr (ci "s")).
Definition spaces : re := Plus is_space.
Definition maybe_space : re := Opt (Chr is_space).
Definition maybe_sep : re := Opt (Chr (fun c => Ascii.eqb c "-" || Ascii.eqb c "_" || is_space c)).
Definition is_digit (c : ascii) : bool := let n := N_of_ascii c in ((48 <=? n) && (n <=? 57))%N.

Definition CHECK_RUN_FORBIDDEN_TERMS : re :=
  cat_all [WordBoundary; alt_all
    [Cat (lit_ci "reward") opt_s; Cat (lit_ci "payout") opt_s; lit_ci "farming";
     cat_all [lit_ci "estimated"; spaces; lit_ci "score"; opt_s];
     cat_all [lit_ci "raw"; spaces; lit_ci "trust"; spaces; lit_ci "score"; opt_s];
     cat_all [lit_ci "raw"; spaces; lit_ci "trust"];
     cat_all [lit_ci "trust"; spaces; lit_ci "score"; opt_s];
     cat_all [lit_ci "score"; spaces; lit_ci "estimate"; opt_s];
     cat_all [lit_ci "reward"; spaces; lit_ci "estimate"; opt_s];
     Cat (lit_ci "wallet") opt_s; Cat (lit_ci "hotkey") opt_s; Cat (lit_ci "coldkey") opt_s;
     Cat (lit_ci "mnemonic") opt_s;
     cat_all [lit_ci "seed"; maybe_space; lit_ci "phrase"; opt_s];
     Cat (lit_ci "cohort") opt_s;
     cat_all [lit_ci "miner"; maybe_sep; lit_ci "originated"];
     cat_all [lit_ci "human"; maybe_sep; lit_ci "originated"];
     Cat (lit_ci "ranking") opt_s; lit_ci "reviewability"; lit_ci "scoreability";
     cat_all [lit_ci "private"; spaces; lit_ci "signal"; opt_s]; lit_ci "likely_duplicate";
     cat_all [lit_ci "reviewability"; Rep is_space; Chr is_digit]]; WordBoundary].

Definition sanitizeForCheckRun (text : string) : string :=
  trim (replace_all (Plus is_space) " " (replace_all CHECK_RUN_FORBIDDEN_TERMS "[context]" text)).

(** ** Policy helpers *)

Definition DEFAULT_AI_REVIEW_CLOSE_CONFIDENCE : num := rnd (93 # 100).
Definition CONFIDENCE_WHEN_UNSTATED : num := Fin (1 # 2).
Definition DEFAULT_SLOP_BLOCK_THRESHOLD : num := nz 60.
Definition CLA_CONSENT_MISSING_CODE : string := "cla_consent_missing".
Definition CLA_CHECK_UNRESOLVED_CODE : string := "cla_check_unresolved".
Definition REVIEW_THREAD_BLOCKER_CODE : string := "review_thread_unresolved".
Definition LOOPOVER_GATE_CHECK_NAME : string := "LoopOver Orb Review Agent".
Definition SIZE_HOLD_DEFAULT_MAX_FILES : num := nz 10.
Definition SIZE_HOLD_DEFAULT_MAX_LINES : num := nz 1000.

(** A value that is not one of the three modes, absence included, blocks. *)
Definition gateMode (value : option GateRuleMode) : GateRuleMode :=
  match value with
  | Some mode_off => mode_off
  | Some mode_block => mode_block
  | Some mode_advisory => mode_advisory
  | _ => mode_block
  end.

Definition is_block (mode : GateRuleMode) : bool := bool_decide (mode = mode_block).

Definition gatePolicyBlocks (mode : option GateRuleMode) (defaultMode : GateRuleMode) : bool :=
  is_block (gateMode (Some (mode ?? defaultMode))).

Definition normalizeScore (value : option num) : option num :=
  match value with
  | Some v => if is_finite v then Some (nmax (nz 0) (nmin (nz 100) (nround v))) else None
  | None => None
  end.

Definition isEvaluationBlocker (code : string) (policy : GateCheckPolicy) : bool :=
  if String.eqb code "repo_not_cached" || String.eqb code "repo_not_seen" || String.eqb code "pr_not_cached"
     || String.eqb code "pre_merge_check_unresolved" then true
  else if String.eqb code CLA_CHECK_UNRESOLVED_CODE then bool_decide (claGateMode policy = Some mode_block)
  else false.

Definition isConfiguredGateBlocker (finding : AdvisoryFinding) (policy : GateCheckPolicy) : bool :=
  let code := f_code finding in
  if String.eqb code "missing_linked_issue" then gatePolicyBlocks (linkedIssueGateMode policy) mode_advisory
  else if String.eqb code "duplicate_pr_risk" then gatePolicyBlocks (duplicatePrGateMode policy) mode_advisory
  else if String.eqb code "duplicate_pr_risk_unconfirmed" then false
  else if String.eqb code "ai_consensus_defect" || String.eqb code "ai_review_split" then
    if negb (gatePolicyBlocks (aiReviewGateMode policy) mode_advisory) then false
    else match aiReviewLowConfidenceDisposition policy ?? hold_for_review with
         | advisory_only =>
             let floor := aiReviewCloseConfidence policy ?? DEFAULT_AI_REVIEW_CLOSE_CONFIDENCE in
             let confidence := f_confidence finding ?? CONFIDENCE_WHEN_UNSTATED in
             if nltb confidence floor then false else true
         | _ => true
         end
  else if String.eqb code REVIEW_THREAD_BLOCKER_CODE then true
  else if String.eqb code "secret_leak" then true
  else if String.eqb code "pre_merge_check_required" then true
  else if String.eqb code "manifest_missing_tests" then gatePolicyBlocks (manifestPolicyGateMode policy) mode_off
  else if String.eqb code "manifest_linked_issue_required" then
    gatePolicyBlocks (manifestPolicyGateMode policy) mode_off || gatePolicyBlocks (linkedIssueGateMode policy) mode_advisory
  else if String.eqb code "self_authored_linked_issue" then
    gatePolicyBlocks (selfAuthoredLinkedIssueGateMode policy) mode_advisory
  else if String.eqb code "linked_issue_scope_mismatch" then
    gatePolicyBlocks (linkedIssueSatisfactionGateMode policy) mode_advisory
  else if String.eqb code "content_lane_deliverable_missing" then
    gatePolicyBlocks (contentLaneDeliverableGateMode policy) mode_off
  else if String.eqb code "backtest_regression" then gatePolicyBlocks (backtestRegressionGateMode policy) mode_advisory
  else if String.eqb code "lockfile_tamper_risk" then gatePolicyBlocks (lockfileIntegrityGateMode policy) mode_off
  else if String.eqb code CLA_CONSENT_MISSING_CODE then gatePolicyBlocks (claGateMode policy) mode_off
  else false.

Definition buildQualityGateWarning (policy : GateCheckPolicy) : option AdvisoryFinding :=
  if bool_decide (gateMode (qualityGateMode policy) = mode_off) then None
  else match normalizeScore (readinessScore policy), normalizeScore (qualityGateMinScore policy) with
       | Some score, Some minScore =>
           if ngeb score minScore then None
           else Some (plain_finding "readiness_score_below_threshold" sev_warning
             "Readiness score is below the configured threshold"
             ("The public readiness score is " ++ num_to_string score
              ++ "/100, below the repository threshold of " ++ num_to_string minScore ++ "/100.")
             (Some "Use the readiness panel as advisory maintainer context; the score does not block this PR."))
       | _, _ => None
       end.

Definition buildSlopGateBlocker (policy : GateCheckPolicy) : option AdvisoryFinding :=
  if negb (is_block (gateMode (Some (slopGateMode policy ?? mode_advisory)))) then None
  else match normalizeScore (slopRisk policy) with
       | None => None
       | Some risk =>
           let minScore := normalizeScore (slopGateMinScore policy) ?? DEFAULT_SLOP_BLOCK_THRESHOLD in
           if nltb risk minScore then None
           else Some (plain_finding "slop_risk_above_threshold" sev_warning
             "Slop risk is above the configured threshold"
             ("The deterministic slop risk is " ++ num_to_string risk
              ++ "/100, at or above the repository threshold of " ++ num_to_string minScore ++ "/100.")
             (Some "Reduce whitespace-only churn, add test evidence, or describe the change, then re-run the gate."))
       end.

Definition applyMergeReadinessGate (p : GateCheckPolicy) : GateCheckPolicy :=
  let composite := gateMode (Some (mergeReadinessGateMode p ?? mode_off)) in
  if bool_decide (composite = mode_off) then p
  else mkPolicy (Some composite) (Some composite) (qualityGateMode p) (qualityGateMinScore p)
    (aiReviewGateMode p) (aiReviewCloseConfidence p) (aiReviewLowConfidenceDisposition p) (readinessScore p)
    (Some composite) (slopGateMinScore p) (slopRisk p) (mergeReadinessGateMode p) (manifestPolicyGateMode p)
    (selfAuthoredLinkedIssueGateMode p) (linkedIssueSatisfactionGateMode p) (contentLaneDeliverableGateMode p)
    (backtestRegressionGateMode p) (claGateMode p) (authorMergedPrCount p) (authorClosedUnmergedPrCount p)
    (confirmedContributor p) (sizeGateMode p) (sizeGateMaxFiles p) (sizeGateMaxLines p)
    (lockfileIntegrityGateMode p) (changedFileCount p) (changedLineCount p) (guardrailHit p)
    (guardrailMatches p) (dryRun p).

Definition promoteAdvisoryToBlock (p : GateCheckPolicy) : GateCheckPolicy :=
  let block := fun mode => if bool_decide (mode = Some mode_advisory) then Some mode_block else mode in
  mkPolicy (linkedIssueGateMode p) (duplicatePrGateMode p) (qualityGateMode p) (qualityGateMinScore p)
    (block (aiReviewGateMode p)) (aiReviewCloseConfidence p) (aiReviewLowConfidenceDisposition p) (readinessScore p)
    (slopGateMode p) (slopGateMinScore p) (slopRisk p) (mergeReadinessGateMode p) (manifestPolicyGateMode p)
    (selfAuthoredLinkedIssueGateMode p) (linkedIssueSatisfactionGateMode p) (contentLaneDeliverableGateMode p)
    (backtestRegressionGateMode p) (claGateMode p) (authorMergedPrCount p) (authorClosedUnmergedPrCount p)
    (confirmedContributor p) (sizeGateMode p) (sizeGateMaxFiles p) (sizeGateMaxLines p)
    (lockfileIntegrityGateMode p) (changedFileCount p) (changedLineCount p) (guardrailHit p)
    (guardrailMatches p) (Some false).

(** ** Holds *)

Definition buildSizeHoldFinding (policy : GateCheckPolicy) : option AdvisoryFinding :=
  if bool_decide (sizeGateMode policy = None) || bool_decide (sizeGateMode policy = Some mode_off) then None
  else
    let files := changedFileCount policy ?? nz 0 in
    let lines := changedLineCount policy ?? nz 0 in
    let maxFiles := sizeGateMaxFiles policy ?? SIZE_HOLD_DEFAULT_MAX_FILES in
    let maxLines := sizeGateMaxLines policy ?? SIZE_HOLD_DEFAULT_MAX_LINES in
    if nltb files maxFiles && nltb lines maxLines then None
    else Some (plain_finding "oversized_pr" sev_warning "Large change — held for manual review"
      ("This PR changes " ++ num_to_string files ++ " file(s) / " ++ num_to_string lines
       ++ " line(s) (hold threshold: " ++ num_to_string maxFiles ++ " files or " ++ num_to_string maxLines ++ " lines).")
      (Some "Split this into smaller, focused PRs, or a maintainer reviews and merges it manually.")).

Definition buildGuardrailHoldFinding (matches : list GuardrailPathMatch) : AdvisoryFinding :=
  let detail :=
    if Nat.ltb 0 (List.length matches) then
      "This PR changes guardrail-protected path(s): "
      ++ join ", " (List.map (fun m => "`" ++ gm_path m ++ "` (matched `" ++ gm_glob m ++ "`)") (firstn 5 matches))
      ++ (if Nat.ltb 5 (List.length matches)
          then ", and " ++ num_to_string (nnat (List.length matches - 5)) ++ " more" else "") ++ "."
    else "This PR changes a guardrail-protected path, or the changed-file list could not be verified while guardrails are configured." in
  plain_finding "guardrail_hold" sev_warning "Touches a guarded path — held for manual review" detail
    (Some "A maintainer must review and merge this change.").

(** ** The gate *)

Definition has_code (code : string) (f : AdvisoryFinding) : bool := String.eqb (f_code f) code.
Definition is_warning (f : AdvisoryFinding) : bool := bool_decide (f_severity f = sev_warning).

Definition titles_of (fs : list AdvisoryFinding) : string :=
  join "; " (List.map (fun f => sanitizeForCheckRun (f_title f)) fs).

Definition neutral_evaluation (title summary : string) (warnings : list AdvisoryFinding) : GateCheckEvaluation :=
  mkEvaluation true gc_neutral None (LOOPOVER_GATE_CHECK_NAME ++ title) summary [] warnings.

Definition configured_blockers (fs : list AdvisoryFinding) (effective : GateCheckPolicy) : list AdvisoryFinding :=
  List.filter (fun f => isConfiguredGateBlocker f effective) fs.

(** [blockers.includes(finding)] compares object references.  A finding of the
    advisory is one of the blockers exactly when it passed the blocker filter,
    and the readiness warning, built afresh, never is. *)
Definition not_blocker (effective : GateCheckPolicy) (f : AdvisoryFinding) : bool :=
  negb (isConfiguredGateBlocker f effective).

Definition evaluateGateCheckCore (advisoryResult : Advisory) (policy : GateCheckPolicy) : GateCheckEvaluation :=
  let fs := findings advisoryResult in
  let warnings := List.filter is_warning fs in
  if existsb (fun f => isEvaluationBlocker (f_code f) policy) fs then
    neutral_evaluation " — not evaluated yet"
      "LoopOver has not finished syncing this repo/PR. The gate stays advisory and re-evaluates automatically; no action is needed."
      warnings
  else
    let effective := applyMergeReadinessGate policy in
    let configuredBlockers := configured_blockers fs effective in
    let qualityWarning := buildQualityGateWarning effective in
    let slopBlocker := buildSlopGateBlocker effective in
    let blockers := (configuredBlockers ++ option_list slopBlocker)%list in
    let gateWarnings := (warnings ++ option_list qualityWarning)%list in
    if Nat.eqb (List.length blockers) 0 then
      if gatePolicyBlocks (aiReviewGateMode effective) mode_advisory && existsb (has_code "ai_review_inconclusive") fs then
        neutral_evaluation " — held for human review"
          "The AI review could not be completed for this change, so the gate is held for a human reviewer rather than passed automatically. It re-evaluates on the next update."
          gateWarnings
      else
        let secretScanIncompleteFindings := List.filter (has_code "secret_scan_incomplete") fs in
        if Nat.ltb 0 (List.length secretScanIncompleteFindings) then
          neutral_evaluation " — held for human review" (titles_of secretScanIncompleteFindings)
            (gateWarnings ++ secretScanIncompleteFindings)%list
        else
          let sizeHold := buildSizeHoldFinding effective in
          let guardrailHold := if guardrailHit effective ?? false
                               then Some (buildGuardrailHoldFinding (guardrailMatches effective ?? [])) else None in
          let holds := (option_list sizeHold ++ option_list guardrailHold)%list in
          if Nat.ltb 0 (List.length holds) then
            neutral_evaluation " — held for manual review" (titles_of holds) (gateWarnings ++ holds)%list
          else
            mkEvaluation true gc_success None (LOOPOVER_GATE_CHECK_NAME ++ " passed")
              "No configured hard blocker was found. Advisory findings, if any, stay advisory." blockers gateWarnings
    else if forallb (has_code "duplicate_pr_risk") blockers then
      neutral_evaluation " — held for manual review" (titles_of blockers)
        (List.filter (not_blocker effective) gateWarnings ++ blockers)%list
    else
      let titleDetail := match blockers with
                         | [firstBlocker] => sanitizeForCheckRun (f_title firstBlocker)
                         | _ => num_to_string (nnat (List.length blockers)) ++ " blockers"
                         end in
      mkEvaluation true gc_failure None (LOOPOVER_GATE_CHECK_NAME ++ ": " ++ titleDetail)
        (join "; " (List.map (fun f => sanitizeForCheckRun (f_title f)
           ++ match f_action f with
              | Some a => if str_empty a then "" else " — " ++ sanitizeForCheckRun a
              | None => ""
              end) blockers))
        blockers
        (List.filter (fun f => is_warning f && not_blocker effective f) fs ++ option_list qualityWarning)%list.

Definition evaluateGateCheck (advisoryResult : Advisory) (policy : GateCheckPolicy) : GateCheckEvaluation :=
  let result := evaluateGateCheckCore advisoryResult policy in
  if negb (dryRun policy ?? false) then result
  else
    let wouldBe := evaluateGateCheckCore advisoryResult (promoteAdvisoryToBlock policy) in
    mkEvaluation (ge_enabled result) (ge_conclusion result) (Some (ge_conclusion wouldBe)) (ge_title result)
      (ge_summary result) (ge_blockers result) (ge_warnings result).

(** ** Building the advisory *)

Definition highestSeverity (fs : list AdvisoryFinding) : AdvisorySeverity :=
  if existsb (fun f => bool_decide (f_severity f = sev_critical)) fs then sev_critical
  else if existsb is_warning fs then sev_warning
  else sev_info.

Definition conclusionForSeverity (severity : AdvisorySeverity) (fs : list AdvisoryFinding) : AdvisoryConclusion :=
  if existsb (fun f => has_code "repo_unregistered" f || has_code "repo_not_seen" f) fs then adv_action_required
  else match severity with
       | sev_warning => adv_neutral
       | sev_critical => adv_action_required
       | sev_info => adv_success
       end.

(** [randomUUID()] and [nowIso()] are arguments. *)
Definition advisory (uuid now : string) (targetType targetKey repoFullName : string) (fs : list AdvisoryFinding)
    (fallbackSummary : string) (pullNumber issueNumber : option Z) (headSha : option string) : Advisory :=
  let severity := highestSeverity fs in
  let conclusion := conclusionForSeverity severity fs in
  let title := match conclusion with
               | adv_success => "LoopOver advisory passed"
               | _ => "LoopOver advisory available"
               end in
  let summary := if Nat.ltb 0 (List.length fs)
    then num_to_string (nnat (List.length fs)) ++ " advisory finding"
         ++ (if Nat.eqb (List.length fs) 1 then "" else "s") ++ " generated."
    else fallbackSummary in
  mkAdvisory uuid targetType targetKey repoFullName pullNumber issueNumber headSha conclusion severity title summary fs now.

Record RegistryRepoConfig := mkRegistryConfig {
  issueDiscoveryShare : num;
  labelMultipliers : list (string * num);
  maintainerCut : num;
}.

Record RepositoryRecord := mkRepository {
  rr_fullName : string;
  isRegistered : bool;
  registryConfig : option RegistryRepoConfig;
}.

(** [pr_bodyObservedAt]: [None] is [undefined], [Some None] is [null]. *)
Record PullRequestRecord := mkPullRequest {
  pr_repoFullName : string;
  pr_number : Z;
  pr_title : string;
  pr_state : string;
  pr_authorLogin : option string;
  pr_authorAssociation : option string;
  pr_headSha : option string;
  pr_body : option string;
  pr_createdAt : option string;
  pr_linkedIssueClaimedAt : option string;
  pr_bodyObservedAt : option (option string);
  pr_labels : list string;
  pr_linkedIssues : list Z;
  pr_changedFiles : option (list string);
}.

Definition claim_member (pr : PullRequestRecord) : DuplicateClaimMember :=
  mkMember (pr_number pr) (pr_linkedIssueClaimedAt pr) (pr_createdAt pr).

Definition addRepoFindings (repo : RepositoryRecord) : list AdvisoryFinding :=
  if negb (isRegistered repo) then
    [plain_finding "repo_unregistered" sev_warning "Repository is not registered in the latest snapshot"
       "This repository is installed in LoopOver, but the latest registry snapshot does not include it."
       (Some "Verify repository registration before relying on Gittensor-specific signals.")]
  else match registryConfig repo with
  | None =>
      [plain_finding "repo_config_missing" sev_warning "Repository config was not parsed"
         "The repository appears in the registry, but its config was not available in normalized form." None]
  | Some config =>
      let issueShare := issueDiscoveryShare config in
      ((if neqb issueShare (nz 0) then
          [mkFinding "issue_discovery_disabled" sev_info "Issue discovery is disabled for this repo"
             "The current Gittensor registry config routes this repository away from issue-discovery work." None
             (Some "This repo is configured for direct contribution review rather than issue-discovery flow.") None]
        else if neqb issueShare (nz 1) then
          [mkFinding "direct_pr_pool_disabled" sev_info "Direct PR scoring is disabled for this repo"
             "The current Gittensor registry config routes this repository fully toward issue-discovery work." None
             (Some "This repo is configured around issue-discovery flow. Maintainers should review PR expectations manually.") None]
        else [])
       ++ (if ngtb (maintainerCut config) (nz 0) then
             [plain_finding "maintainer_cut_enabled" sev_info "Maintainer allocation is configured"
                "This repo has a maintainer allocation configured in the registry." None]
           else []))%list
  end.

Definition hasDuplicateOverlapCorroboration (pr otherPr : PullRequestRecord) : bool :=
  let nonempty := fun o => match o with Some (_ :: _) => true | _ => false end in
  if nonempty (pr_changedFiles pr) && nonempty (pr_changedFiles otherPr)
     && existsb (fun path => set_has (pr_changedFiles pr ?? []) path) (pr_changedFiles otherPr ?? [])
  then true
  else nonempty (pr_changedFiles otherPr).

Record PullRequestFindingSignals := mkSignals {
  otherOpenPullRequests : list PullRequestRecord;
  requireLinkedIssue : bool;
  duplicateWinnerEnabled : bool;
  linkedIssueAuthorLogins : list (option string);
  confirmedNoOpenLinkedIssue : bool;
  supersededBy : option (Z * Z);
}.

Definition MAINTAINER_AUTHOR_ASSOCIATIONS : list string := ["OWNER"; "MEMBER"; "COLLABORATOR"].

Fixpoint toUpperCase (s : string) : string :=
  match s with
  | EmptyString => ""
  | String c s' =>
      let n := N_of_ascii c in
      String (if ((97 <=? n) && (n <=? 122))%N then ascii_of_N (n - 32) else c) (toUpperCase s')
  end.

Definition isMaintainerAuthorAssociation (association : option string) : bool :=
  match association with
  | None => false
  | Some a => set_has MAINTAINER_AUTHOR_ASSOCIATIONS (toUpperCase (trim a))
  end.

Definition hash_number (n : Z) : string := "#" ++ num_to_string (nz n).

Section Findings.
Context (Date_parse : string -> num) (labelMatchesPattern : string -> string -> bool).

Definition linked_issue_findings (pr : PullRequestRecord) (signals : PullRequestFindingSignals) : list AdvisoryFinding :=
  let noLinkedIssueCited := Nat.eqb (List.length (pr_linkedIssues pr)) 0
                            && negb (bool_decide (pr_bodyObservedAt pr = Some None)) in
  if (noLinkedIssueCited || confirmedNoOpenLinkedIssue signals) && requireLinkedIssue signals then
    match supersededBy signals with
    | Some (issueNumber, rivalPullNumber) =>
        [plain_finding "linked_issue_superseded" sev_warning "Superseded by a merged pull request"
           ("Issue " ++ hash_number issueNumber ++ " was closed by " ++ hash_number rivalPullNumber
            ++ ", which merged after this pull request opened. The work this pull request targets is already on the default branch.")
           (Some ("Nothing is wrong with the issue link. If part of this pull request is still unaddressed by "
            ++ hash_number rivalPullNumber ++ ", open a new issue describing what remains."))]
    | None =>
        [plain_finding "missing_linked_issue" sev_warning "No linked issue detected"
           (if noLinkedIssueCited
            then "No closing reference or linked issue number was found in the PR metadata/body."
            else "The PR cites an issue number, but it could not be verified as a currently open issue.")
           (Some "If this PR is intended to solve an issue, link it explicitly in the PR body.")]
    end
  else
    let overlappingPrs := List.filter (fun otherPr =>
      existsb (fun i => existsb (Z.eqb i) (pr_linkedIssues pr)) (pr_linkedIssues otherPr)) (otherOpenPullRequests signals) in
    if Nat.ltb 0 (List.length overlappingPrs)
       && negb (duplicateWinnerEnabled signals
                && isDuplicateClusterWinnerByClaim Date_parse (claim_member pr) (List.map claim_member overlappingPrs))
    then
      let corroboratedPrs := List.filter (fun o => hasDuplicateOverlapCorroboration pr o) overlappingPrs in
      let uncorroboratedPrs := List.filter (fun o => negb (hasDuplicateOverlapCorroboration pr o)) overlappingPrs in
      ((if Nat.ltb 0 (List.length corroboratedPrs) then
          [plain_finding "duplicate_pr_risk" sev_warning "Linked issue overlaps another open PR with corroborating changes"
             ("Other open pull requests reference the same linked issue set AND show corroborating changed-file overlap or a non-trivial diff: "
              ++ join ", " (List.map (fun o => hash_number (pr_number o)) corroboratedPrs) ++ ".")
             (Some "This looks like a genuine race for the same issue. Coordinate with the other contributor, or wait for a maintainer to triage before assuming priority.")]
        else [])
       ++ (if Nat.ltb 0 (List.length uncorroboratedPrs) then
          [plain_finding "duplicate_pr_risk_unconfirmed" sev_info "Linked issue is also cited by another open PR"
             ("Other open pull requests cite the same linked issue number, with no corroborating changed-file evidence yet: "
              ++ join ", " (List.map (fun o => hash_number (pr_number o)) uncorroboratedPrs) ++ ".")
             (Some "This may be coincidental, or an early race that hasn't produced comparable code yet — verify manually before assuming it's a genuine duplicate.")]
        else []))%list
    else [].

Definition addPullRequestFindings (repo : option RepositoryRecord) (pr : PullRequestRecord)
    (signals : PullRequestFindingSignals) : list AdvisoryFinding :=
  ((if negb (String.eqb (pr_state pr) "open") then
      [plain_finding "pr_not_open" sev_info "Pull request is not open"
         ("The pull request state is " ++ pr_state pr ++ ".") None]
    else [])
   ++ linked_issue_findings pr signals
   ++ (match pr_authorLogin pr with
       | Some login =>
           if Nat.ltb 0 (List.length (pr_linkedIssues pr)) && negb (str_empty login) then
             let prAuthor := toLowerCase login in
             if existsb (fun l => match l with Some s => String.eqb (toLowerCase s) prAuthor | None => false end)
                  (linkedIssueAuthorLogins signals)
             then [plain_finding "self_authored_linked_issue" sev_warning "PR author also opened the linked issue"
                     "The contributor who opened this PR also filed the linked issue. This pattern can indicate artificial issue-discovery work rather than solving an independently discovered problem."
                     (Some "Link an issue that was opened by a different contributor, or provide a rationale for why this self-authored issue represents genuine discovery work.")]
             else []
           else []
       | None => []
       end)
   ++ (if Nat.leb 10 (List.length (otherOpenPullRequests signals)) then
         [mkFinding "busy_pr_queue" sev_info "Review queue is busy"
            ("LoopOver has " ++ num_to_string (nnat (List.length (otherOpenPullRequests signals)))
             ++ " other open pull requests cached for this repository.") None
            (Some "This repo has a busy review queue in the local LoopOver cache.") None]
       else [])
   ++ (let multiplierPatterns := List.map fst (match repo with
                                               | Some r => match registryConfig r with Some c => labelMultipliers c | None => [] end
                                               | None => []
                                               end) in
       let matchedLabels := List.filter (fun label => existsb (labelMatchesPattern label) multiplierPatterns) (pr_labels pr) in
       if Nat.ltb 0 (List.length matchedLabels) then
         [plain_finding "label_context_found" sev_info "Configured label context found"
            ("Matched configured labels: " ++ join ", " matchedLabels ++ ".") None]
       else [])
   ++ (if isMaintainerAuthorAssociation (pr_authorAssociation pr) then
         [mkFinding "maintainer_authored_pr" sev_info "PR author has maintainer association"
            "GitHub marks this PR author as owner, member, or collaborator for the repository." None
            (Some "This PR appears to come from a maintainer-associated account.") None]
       else []))%list.

Definition buildPullRequestAdvisory (uuid now : string) (repo : option RepositoryRecord)
    (pr : option PullRequestRecord) (context : PullRequestFindingSignals) : Advisory :=
  let repoFullName := match pr, repo with
                      | Some p, _ => pr_repoFullName p
                      | None, Some r => rr_fullName r
                      | None, None => "unknown/unknown"
                      end in
  let targetKey := match pr with
                   | Some p => repoFullName ++ hash_number (pr_number p)
                   | None => repoFullName ++ "#unknown"
                   end in
  let repoFindings := match repo with
    | None => [plain_finding "repo_not_cached" sev_warning "Repository is not yet cached"
                 "LoopOver has not synced this repository yet, so repo-specific rules cannot be evaluated."
                 (Some "Wait for the next repo sync, or re-deliver the installation webhook.")]
    | Some r => addRepoFindings r
    end in
  let prFindings := match pr with
    | None => [plain_finding "pr_not_cached" sev_warning "Pull request is not cached"
                 "The GitHub webhook or manual fetch has not recorded this pull request yet."
                 (Some "Re-deliver the webhook or wait for the next sync.")]
    | Some p => addPullRequestFindings repo p context
    end in
  advisory uuid now "pull_request" targetKey repoFullName (repoFindings ++ prFindings)%list
    "Pull request advisory generated." (pr_number <$> pr) None (pr ≫= pr_headSha).
End Findings.

(** ** The verdict, declaratively *)

(** The hard blockers of a policy: the findings it blocks on and the slop
    blocker. *)
Definition gate_blockers (fs : list AdvisoryFinding) (policy : GateCheckPolicy) : list AdvisoryFinding :=
  let effective := applyMergeReadinessGate policy in
  (configured_blockers fs effective ++ option_list (buildSlopGateBlocker effective))%list.

(** The app cannot evaluate the pull request yet. *)
Definition unevaluated (fs : list AdvisoryFinding) (policy : GateCheckPolicy) : bool :=
  existsb (fun f => isEvaluationBlocker (f_code f) policy) fs.

(** A pull request without blockers is kept for a human. *)
Definition gate_holds (fs : list AdvisoryFinding) (policy : GateCheckPolicy) : bool :=
  gatePolicyBlocks (aiReviewGateMode policy) mode_advisory && existsb (has_code "ai_review_inconclusive") fs
  || existsb (has_code "secret_scan_incomplete") fs
  || bool_decide (is_Some (buildSizeHoldFinding policy))
  || (guardrailHit policy ?? false).

Definition gate_conclusion (fs : list AdvisoryFinding) (policy : GateCheckPolicy) : GateCheckConclusion :=
  if unevaluated fs policy then gc_neutral
  else match gate_blockers fs policy with
       | [] => if gate_holds fs policy then gc_neutral else gc_success
       | bs => if forallb (has_code "duplicate_pr_risk") bs then gc_neutral else gc_failure
       end.

Lemma effective_ai p : aiReviewGateMode (applyMergeReadinessGate p) = aiReviewGateMode p.
Proof. unfold applyMergeReadinessGate. by destruct (bool_decide _). Qed.

Lemma effective_guardrail p : guardrailHit (applyMergeReadinessGate p) = guardrailHit p.
Proof. unfold applyMergeReadinessGate. by destruct (bool_decide _). Qed.

Lemma effective_size p : buildSizeHoldFinding (applyMergeReadinessGate p) = buildSizeHoldFinding p.
Proof. unfold applyMergeReadinessGate. by destruct (bool_decide _). Qed.

(** The operational verdict computes the declarative one, and reports blockers
    exactly when it fails. *)
Lemma core_spec a p :
  ge_conclusion (evaluateGateCheckCore a p) = gate_conclusion (findings a) p
  /\ ge_blockers (evaluateGateCheckCore a p)
     = (if bool_decide (gate_conclusion (findings a) p = gc_failure) then gate_blockers (findings a) p else []).
Proof.
  unfold evaluateGateCheckCore, gate_conclusion, gate_blockers, gate_holds, unevaluated. cbv zeta.
  set (fs := findings a). rewrite effective_ai, effective_guardrail, effective_size, filter_nonempty.
  destruct (existsb _ fs) eqn:E1; [split; reflexivity |].
  destruct (configured_blockers fs _ ++ _)%list as [| b bs] eqn:B; cbn [List.length Nat.eqb].
  - destruct (gatePolicyBlocks (aiReviewGateMode p) mode_advisory && existsb (has_code "ai_review_inconclusive") fs);
      [split; reflexivity |].
    destruct (existsb (has_code "secret_scan_incomplete") fs); [split; reflexivity |].
    destruct (buildSizeHoldFinding p) as [s |]; simpl; [split; reflexivity |].
    destruct (guardrailHit p) as [[] |]; simpl; split; reflexivity.
  - destruct (forallb _ (b :: bs)); split; reflexivity.
Qed.

Lemma check_spec a p :
  ge_conclusion (evaluateGateCheck a p) = gate_conclusion (findings a) p
  /\ ge_blockers (evaluateGateCheck a p)
     = (if bool_decide (gate_conclusion (findings a) p = gc_failure) then gate_blockers (findings a) p else []).
Proof. unfold evaluateGateCheck. destruct (negb _); [apply core_spec |]. simpl. apply core_spec. Qed.

Lemma forallb_dup_false bs : forallb (has_code "duplicate_pr_risk") bs = false <->
  exists b, b ∈ bs /\ f_code b <> "duplicate_pr_risk".
Proof.
  rewrite <- not_true_iff_false, forallb_forall. unfold has_code. split.
  - intros H. apply not_true_iff_false in H || idtac. induction bs as [| b bs IH]; [by destruct H |].
    destruct (String.eqb_spec (f_code b) "duplicate_pr_risk") as [E | E].
    + destruct IH as (b' & Hb & Hn); [| exists b'; split; [by apply list_elem_of_further | done]].
      intros H'. apply H. intros x [-> | Hx]; [by apply String.eqb_eq | by apply H'].
    + exists b. split; [apply list_elem_of_here | done].
  - intros (b & Hb & Hn) H. apply Hn, String.eqb_eq, H. by apply list_elem_of_In.
Qed.

Lemma conclusion_failure fs p : gate_conclusion fs p = gc_failure <->
  unevaluated fs p = false /\ exists b, b ∈ gate_blockers fs p /\ f_code b <> "duplicate_pr_risk".
Proof.
  unfold gate_conclusion. destruct (unevaluated fs p); [split; [discriminate | intros [[=] _]] |].
  rewrite <- forallb_dup_false. destruct (gate_blockers fs p) as [| b bs].
  - simpl. destruct (gate_holds fs p); split; [discriminate | intros [_ [=]] | discriminate | intros [_ [=]]].
  - destruct (forallb _ (b :: bs)); split; try discriminate; auto. by intros [_ [=]].
Qed.

Lemma conclusion_success fs p : gate_conclusion fs p = gc_success <->
  unevaluated fs p = false /\ gate_blockers fs p = [] /\ gate_holds fs p = false.
Proof.
  unfold gate_conclusion. destruct (unevaluated fs p); [split; [discriminate | intros [[=] _]] |].
  destruct (gate_blockers fs p) as [| b bs].
  - destruct (gate_holds fs p); split; try discriminate; auto. by intros (_ & _ & [=]).
  - destruct (forallb _ (b :: bs)); split; try discriminate; by intros (_ & [=] & _).
Qed.

Lemma blockers_elem fs p b :
  b ∈ gate_blockers fs p <->
  (b ∈ fs /\ isConfiguredGateBlocker b (applyMergeReadinessGate p) = true)
  \/ buildSlopGateBlocker (applyMergeReadinessGate p) = Some b.
Proof.
  unfold gate_blockers, configured_blockers. cbv zeta.
  rewrite elem_of_app, !list_elem_of_In, filter_In. destruct (buildSlopGateBlocker _) as [s |]; simpl.
  - split; [intros [H | [<- | []]]; auto | intros [H | [= <-]]; auto].
  - split; [intros [H | []]; auto | intros [H | [=]]; auto].
Qed.

(** ** Theorems *)

(** C6: the gate's verdict is exact.  Nothing but success, failure or neutral is
    concluded.  The gate fails exactly when the app can evaluate the pull request
    and some hard blocker is not a mere duplicate finding; it passes exactly when
    the app can evaluate it, there is no hard blocker and no hold (inconclusive
    AI review in block mode, incomplete secret scan, size, guarded path).  A
    failing verdict lists all the hard blockers, any other verdict lists none. *)
Theorem gate_verdict_exact a p :
  let e := evaluateGateCheck a p in
  let fs := findings a in
  (ge_conclusion e = gc_success \/ ge_conclusion e = gc_failure \/ ge_conclusion e = gc_neutral)
  /\ (ge_conclusion e = gc_failure <->
      (forall f, f ∈ fs -> isEvaluationBlocker (f_code f) p = false)
      /\ exists b, b ∈ gate_blockers fs p /\ f_code b <> "duplicate_pr_risk")
  /\ (ge_conclusion e = gc_success <->
      (forall f, f ∈ fs -> isEvaluationBlocker (f_code f) p = false)
      /\ gate_blockers fs p = [] /\ gate_holds fs p = false)
  /\ ge_blockers e = (if bool_decide (ge_conclusion e = gc_failure) then gate_blockers fs p else []).
Proof.
  cbv zeta. destruct (check_spec a p) as [-> ->].
  assert (U : unevaluated (findings a) p = false <-> forall f, f ∈ findings a -> isEvaluationBlocker (f_code f) p = false).
  { unfold unevaluated. rewrite <- not_true_iff_false, existsb_exists. split.
    - intros H f Hf. apply not_true_iff_false. intros E. apply H. exists f. by rewrite <- list_elem_of_In.
    - intros H (f & Hf & E). apply list_elem_of_In in Hf. by rewrite (H f Hf) in E. }
  split; [| split; [| split]].
  - unfold gate_conclusion. destruct (unevaluated _ p); [auto |].
    destruct (gate_blockers (findings a) p) as [| b bs]; [destruct (gate_holds _ p) | destruct (forallb _ _)]; auto.
  - by rewrite conclusion_failure, U.
  - by rewrite conclusion_success, U.
  - reflexivity.
Qed.

(** The codes that block under every policy. *)
Definition UNCONDITIONAL_CODES : list string := [REVIEW_THREAD_BLOCKER_CODE; "secret_leak"; "pre_merge_check_required"].

Lemma unconditional_blocks f p : f_code f ∈ UNCONDITIONAL_CODES -> isConfiguredGateBlocker f p = true.
Proof.
  unfold UNCONDITIONAL_CODES, isConfiguredGateBlocker. intros H. cbv zeta.
  repeat (apply elem_of_cons in H as [-> | H]; [reflexivity |]). by apply elem_of_nil in H.
Qed.

(** A leaked secret, a failed enforced pre-merge check or an unresolved review
    thread fails the gate under every policy, and the failing verdict lists it,
    unless the app has not finished syncing the pull request. *)
Theorem unconditional_blockers_fail a p f :
  f ∈ findings a -> f_code f ∈ UNCONDITIONAL_CODES ->
  (forall g, g ∈ findings a -> isEvaluationBlocker (f_code g) p = false) ->
  ge_conclusion (evaluateGateCheck a p) = gc_failure /\ f ∈ ge_blockers (evaluateGateCheck a p).
Proof.
  intros Hf Hc Hu. destruct (check_spec a p) as [-> ->].
  assert (Hb : f ∈ gate_blockers (findings a) p).
  { apply blockers_elem. left. split; [assumption |]. by apply unconditional_blocks. }
  assert (E : gate_conclusion (findings a) p = gc_failure).
  { apply conclusion_failure. split.
    - unfold unevaluated. apply not_true_iff_false. rewrite existsb_exists. intros (g & Hg & E).
      apply list_elem_of_In in Hg. by rewrite (Hu g Hg) in E.
    - exists f. split; [assumption |]. intros E. rewrite E in Hc. unfold UNCONDITIONAL_CODES in Hc.
      repeat (apply elem_of_cons in Hc as [[=] | Hc]). by apply elem_of_nil in Hc. }
  rewrite E. by rewrite bool_decide_true.
Qed.

Definition leak_advisory : Advisory :=
  advisory "id" "now" "pull_request" "acme/widgets#7" "acme/widgets"
    [plain_finding "secret_leak" sev_critical "Leaked credential" "A credential was committed." None] "none" (Some 7%Z) None None.

Lemma unconditional_blockers_fail_witness :
  ge_conclusion (evaluateGateCheck leak_advisory default_policy) = gc_failure.
Proof.
  apply (unconditional_blockers_fail leak_advisory default_policy
    (plain_finding "secret_leak" sev_critical "Leaked credential" "A credential was committed." None)).
  - apply list_elem_of_here.
  - apply list_elem_of_further, list_elem_of_here.
  - intros g Hg. apply list_elem_of_singleton in Hg as ->. reflexivity.
Defined.

(** *** Blocking is opt-in *)

Definition opted_in (mode : option GateRuleMode) : bool :=
  match mode with Some mode_block | Some mode_malformed => true | _ => false end.

(** The modes that can turn a finding or the slop score into a blocker. *)
Definition blocking_modes (p : GateCheckPolicy) : list (option GateRuleMode) :=
  [linkedIssueGateMode p; duplicatePrGateMode p; aiReviewGateMode p; slopGateMode p; mergeReadinessGateMode p;
   manifestPolicyGateMode p; selfAuthoredLinkedIssueGateMode p; linkedIssueSatisfactionGateMode p;
   contentLaneDeliverableGateMode p; backtestRegressionGateMode p; claGateMode p; lockfileIntegrityGateMode p].

Definition opts_into_nothing (p : GateCheckPolicy) : Prop := Forall (fun m => opted_in m = false) (blocking_modes p).

Lemma quiet_mode m d : opted_in m = false -> d <> mode_block -> d <> mode_malformed -> gatePolicyBlocks m d = false.
Proof. intros Hm Hd Hd'. destruct m as [[] |], d; try discriminate; try congruence; reflexivity. Qed.

Lemma quiet_effective p : opts_into_nothing p -> opts_into_nothing (applyMergeReadinessGate p).
Proof.
  intros H. unfold applyMergeReadinessGate. cbv zeta. destruct (bool_decide _) eqn:E; [assumption |].
  assert (Hm : opted_in (mergeReadinessGateMode p) = false).
  { unfold opts_into_nothing in H. rewrite List.Forall_forall in H. apply H. simpl; auto 10. }
  apply bool_decide_eq_false in E.
  assert (C : gateMode (Some (mergeReadinessGateMode p ?? mode_off)) = mode_advisory).
  { destruct (mergeReadinessGateMode p) as [[] |]; simpl in *; congruence. }
  rewrite C. unfold opts_into_nothing in *. rewrite List.Forall_forall in *.
  intros m Hin. simpl in Hin. simpl in H.
  repeat (destruct Hin as [<- | Hin]; [first [reflexivity | apply H; auto 20] |]). destruct Hin.
Qed.

Lemma quiet_blocker f p : opts_into_nothing p -> isConfiguredGateBlocker f p = true -> f_code f ∈ UNCONDITIONAL_CODES.
Proof.
  intros H. unfold opts_into_nothing, blocking_modes in H. rewrite !List.Forall_cons_iff in H.
  destruct H as (H1 & H2 & H3 & H4 & H5 & H6 & H7 & H8 & H9 & H10 & H11 & H12 & _).
  unfold isConfiguredGateBlocker. cbv zeta. rewrite !quiet_mode by (assumption || discriminate). simpl.
  unfold UNCONDITIONAL_CODES.
  repeat match goal with
  | |- context [if String.eqb (f_code f) ?c || String.eqb (f_code f) ?d then _ else _] =>
      destruct (String.eqb (f_code f) c || String.eqb (f_code f) d); [discriminate |]
  | |- (if String.eqb (f_code f) ?c then false else _) = true -> _ => destruct (String.eqb (f_code f) c); [discriminate |]
  | |- (if String.eqb (f_code f) ?c then true else _) = true -> _ =>
      destruct (String.eqb_spec (f_code f) c) as [-> | ?]; [intros _; set_solver |]
  end.
  discriminate.
Qed.

Lemma quiet_slop p : opts_into_nothing p -> buildSlopGateBlocker p = None.
Proof.
  intros H. unfold opts_into_nothing, blocking_modes in H. rewrite !List.Forall_cons_iff in H.
  destruct H as (_ & _ & _ & H4 & _). unfold buildSlopGateBlocker.
  destruct (slopGateMode p) as [[] |]; try discriminate H4; reflexivity.
Qed.

(** Blocking is opt-in.  Under a policy none of whose rules is set to block
    (the empty policy, in particular) the gate fails exactly when the app can
    evaluate the pull request and one of its findings is an unconditional one;
    a malformed mode counts as set to block. *)
Theorem gate_failure_needs_opt_in a p :
  opts_into_nothing p ->
  ge_conclusion (evaluateGateCheck a p) = gc_failure <->
  unevaluated (findings a) p = false /\ exists f, f ∈ findings a /\ f_code f ∈ UNCONDITIONAL_CODES.
Proof.
  intros Hq. destruct (check_spec a p) as [-> _]. rewrite conclusion_failure.
  apply quiet_effective in Hq. split; intros [Hu H]; (split; [assumption |]).
  - destruct H as (b & Hb & Hn). apply blockers_elem in Hb as [[Hf Hb] | Hb].
    + exists b. split; [assumption | by eapply quiet_blocker].
    + by rewrite quiet_slop in Hb.
  - destruct H as (f & Hf & Hc). exists f. split.
    + apply blockers_elem. left. split; [assumption | by apply unconditional_blocks].
    + intros E. rewrite E in Hc. unfold UNCONDITIONAL_CODES in Hc.
      repeat (apply elem_of_cons in Hc as [[=] | Hc]). by apply elem_of_nil in Hc.
Qed.

Lemma gate_failure_needs_opt_in_witness :
  ge_conclusion (evaluateGateCheck leak_advisory default_policy) = gc_failure.
Proof.
  apply (proj2 (gate_failure_needs_opt_in leak_advisory default_policy ltac:(repeat constructor))).
  split; [reflexivity |]. exists (plain_finding "secret_leak" sev_critical "Leaked credential" "A credential was committed." None).
  split; [apply list_elem_of_here | apply list_elem_of_further, list_elem_of_here].
Defined.

(** *** More findings *)

Lemma unevaluated_mono fs gs p : fs ⊆ gs -> unevaluated gs p = false -> unevaluated fs p = false.
Proof.
  intros Hs. unfold unevaluated. rewrite <- !not_true_iff_false, !existsb_exists. intros H (f & Hf & E).
  apply H. exists f. rewrite <- list_elem_of_In in *. auto.
Qed.

Lemma blockers_mono fs gs p b : fs ⊆ gs -> b ∈ gate_blockers fs p -> b ∈ gate_blockers gs p.
Proof. intros Hs. rewrite !blockers_elem. intros [[H1 H2] | H]; [left; auto | by right]. Qed.

Lemma existsb_mono {A} (P : A -> bool) (fs gs : list A) : fs ⊆ gs -> existsb P fs = true -> existsb P gs = true.
Proof.
  intros Hs. rewrite !existsb_exists. intros (f & Hf & E). exists f. rewrite <- list_elem_of_In in *. auto.
Qed.

Lemma holds_mono fs gs p : fs ⊆ gs -> gate_holds fs p = true -> gate_holds gs p = true.
Proof.
  intros Hs. unfold gate_holds. rewrite !orb_true_iff, !andb_true_iff.
  intros [[[[H1 H2] | H] | H] | H]; [| | by auto | by auto].
  - apply (existsb_mono _ _ _ Hs) in H2. auto.
  - apply (existsb_mono _ _ _ Hs) in H. auto.
Qed.

(** Evidence only counts against a pull request.  When the findings of one
    advisory are among those of another, a pass with more findings is a pass
    with fewer, and a failure with fewer is a failure with more unless the app's
    own missing state defers the verdict. *)
Theorem gate_monotone a b p :
  findings a ⊆ findings b ->
  (ge_conclusion (evaluateGateCheck b p) = gc_success -> ge_conclusion (evaluateGateCheck a p) = gc_success)
  /\ (ge_conclusion (evaluateGateCheck a p) = gc_failure ->
      ge_conclusion (evaluateGateCheck b p) = gc_failure \/ unevaluated (findings b) p = true).
Proof.
  intros Hs. destruct (check_spec a p) as [-> _], (check_spec b p) as [-> _]. split.
  - rewrite !conclusion_success. intros (Hu & Hb & Hh). split; [by eapply unevaluated_mono |]. split.
    + rewrite nil_iff_no_elem in *. intros x Hx. apply (Hb x). by eapply blockers_mono.
    + apply not_true_iff_false. intros E. apply (holds_mono _ _ p Hs) in E. congruence.
  - rewrite !conclusion_failure. intros (Hu & f & Hf & Hn). destruct (unevaluated (findings b) p) eqn:U; [by right |].
    left. split; [done |]. exists f. split; [by eapply blockers_mono | done].
Qed.

Definition crowded_advisory : Advisory :=
  advisory "id" "now" "pull_request" "acme/widgets#7" "acme/widgets"
    (plain_finding "busy_pr_queue" sev_info "Review queue is busy" "Many open pull requests." None :: findings leak_advisory)
    "none" (Some 7%Z) None None.

Lemma gate_monotone_witness :
  ge_conclusion (evaluateGateCheck crowded_advisory default_policy) = gc_failure
  \/ unevaluated (findings crowded_advisory) default_policy = true.
Proof.
  apply (proj2 (gate_monotone leak_advisory crowded_advisory default_policy
    ltac:(intros f Hf; apply list_elem_of_further; exact Hf))).
  reflexivity.
Defined.

(** *** Signals that never fail a pull request *)

(** The policy with its readiness inputs replaced. *)
Definition with_readiness (p : GateCheckPolicy) (mode : option GateRuleMode) (score minScore : option num) : GateCheckPolicy :=
  mkPolicy (linkedIssueGateMode p) (duplicatePrGateMode p) mode minScore
    (aiReviewGateMode p) (aiReviewCloseConfidence p) (aiReviewLowConfidenceDisposition p) score
    (slopGateMode p) (slopGateMinScore p) (slopRisk p) (mergeReadinessGateMode p) (manifestPolicyGateMode p)
    (selfAuthoredLinkedIssueGateMode p) (linkedIssueSatisfactionGateMode p) (contentLaneDeliverableGateMode p)
    (backtestRegressionGateMode p) (claGateMode p) (authorMergedPrCount p) (authorClosedUnmergedPrCount p)
    (confirmedContributor p) (sizeGateMode p) (sizeGateMaxFiles p) (sizeGateMaxLines p)
    (lockfileIntegrityGateMode p) (changedFileCount p) (changedLineCount p) (guardrailHit p)
    (guardrailMatches p) (dryRun p).

Lemma effective_readiness p m s t :
  applyMergeReadinessGate (with_readiness p m s t) = with_readiness (applyMergeReadinessGate p) m s t.
Proof.
  unfold applyMergeReadinessGate. cbv zeta.
  change (mergeReadinessGateMode (with_readiness p m s t)) with (mergeReadinessGateMode p).
  by destruct (bool_decide _).
Qed.

Lemma conclusion_readiness fs p m s t : gate_conclusion fs (with_readiness p m s t) = gate_conclusion fs p.
Proof.
  unfold gate_conclusion.
  assert (B : gate_blockers fs (with_readiness p m s t) = gate_blockers fs p).
  { unfold gate_blockers. cbv zeta. rewrite effective_readiness. reflexivity. }
  rewrite B. reflexivity.
Qed.

Definition without_code (code : string) (a : Advisory) : Advisory :=
  mkAdvisory (adv_id a) (adv_targetType a) (adv_targetKey a) (adv_repoFullName a) (adv_pullNumber a) (adv_issueNumber a)
    (adv_headSha a) (adv_conclusion a) (adv_severity a) (adv_title a) (adv_summary a)
    (List.filter (fun f => negb (has_code code f)) (findings a)) (adv_generatedAt a).

(** Overlap with another pull request and a low readiness score never fail a
    pull request.  Whatever the policy, the verdict does not depend on the
    readiness mode, score or threshold, and a failing pull request still fails
    when its duplicate findings are deleted. *)
Theorem soft_signals_never_fail a p mode score minScore :
  ge_conclusion (evaluateGateCheck a (with_readiness p mode score minScore)) = ge_conclusion (evaluateGateCheck a p)
  /\ (ge_conclusion (evaluateGateCheck a p) = gc_failure <->
      ge_conclusion (evaluateGateCheck (without_code "duplicate_pr_risk" a) p) = gc_failure).
Proof.
  destruct (check_spec a (with_readiness p mode score minScore)) as [-> _], (check_spec a p) as [-> _],
    (check_spec (without_code "duplicate_pr_risk" a) p) as [-> _].
  split; [apply conclusion_readiness |]. rewrite !conclusion_failure. cbn [findings without_code].
  set (fs := findings a).
  assert (E : forall f, f ∈ List.filter (fun f => negb (has_code "duplicate_pr_risk" f)) fs <->
    f ∈ fs /\ f_code f <> "duplicate_pr_risk").
  { intros f. rewrite !list_elem_of_In, filter_In, negb_true_iff. unfold has_code. by rewrite String.eqb_neq. }
  assert (U : unevaluated (List.filter (fun f => negb (has_code "duplicate_pr_risk" f)) fs) p = unevaluated fs p).
  { apply Bool.eq_true_iff_eq. unfold unevaluated. rewrite !existsb_exists. split.
    - intros (f & Hf & H). apply list_elem_of_In, E in Hf as [Hf _]. exists f. by rewrite <- list_elem_of_In.
    - intros (f & Hf & H). exists f. rewrite <- list_elem_of_In in *. rewrite E. split; [split; [assumption |] | assumption].
      intros Ec. rewrite Ec in H. discriminate. }
  rewrite U. split; intros (Hu & b & Hb & Hn); (split; [assumption |]); exists b; (split; [| assumption]);
    rewrite blockers_elem in *; rewrite E in *; tauto.
Qed.

(** *** Dry run *)

Lemma promote_effective p :
  applyMergeReadinessGate (promoteAdvisoryToBlock p) = promoteAdvisoryToBlock (applyMergeReadinessGate p)
  /\ gatePolicyBlocks (aiReviewGateMode (promoteAdvisoryToBlock p)) mode_advisory
     = gatePolicyBlocks (aiReviewGateMode p) mode_advisory || bool_decide (aiReviewGateMode p = Some mode_advisory).
Proof.
  split.
  - unfold applyMergeReadinessGate. cbv zeta.
    change (mergeReadinessGateMode (promoteAdvisoryToBlock p)) with (mergeReadinessGateMode p).
    by destruct (bool_decide (gateMode _ = mode_off)).
  - simpl. destruct (aiReviewGateMode p) as [[] |]; reflexivity.
Qed.

Definition AI_CODES : list string := ["ai_consensus_defect"; "ai_review_split"].

Lemma promote_blocker f p :
  (isConfiguredGateBlocker f p = true -> isConfiguredGateBlocker f (promoteAdvisoryToBlock p) = true)
  /\ (f_code f ∉ AI_CODES -> isConfiguredGateBlocker f (promoteAdvisoryToBlock p) = isConfiguredGateBlocker f p).
Proof.
  unfold isConfiguredGateBlocker. cbv zeta. rewrite (proj2 (promote_effective p)).
  cbn [promoteAdvisoryToBlock linkedIssueGateMode duplicatePrGateMode manifestPolicyGateMode
    selfAuthoredLinkedIssueGateMode linkedIssueSatisfactionGateMode contentLaneDeliverableGateMode
    backtestRegressionGateMode lockfileIntegrityGateMode claGateMode aiReviewLowConfidenceDisposition aiReviewCloseConfidence].
  destruct (String.eqb_spec (f_code f) "ai_consensus_defect") as [E | E];
    [rewrite E; split; [| intros H; destruct H; apply list_elem_of_here] |].
  { change (String.eqb "ai_consensus_defect" _) with false. cbn. by destruct (gatePolicyBlocks (aiReviewGateMode p) mode_advisory). }
  destruct (String.eqb_spec (f_code f) "ai_review_split") as [E' | E'];
    [rewrite E'; split; [| intros H; destruct H; apply list_elem_of_further, list_elem_of_here] |].
  { cbn. by destruct (gatePolicyBlocks (aiReviewGateMode p) mode_advisory). }
  cbn [orb]. split; auto.
Qed.

Lemma promote_unevaluated fs p : unevaluated fs (promoteAdvisoryToBlock p) = unevaluated fs p.
Proof. reflexivity. Qed.

Lemma promote_blockers_sub fs p b : b ∈ gate_blockers fs p -> b ∈ gate_blockers fs (promoteAdvisoryToBlock p).
Proof.
  rewrite !blockers_elem, (proj1 (promote_effective p)). intros [[Hf Hb] | H]; [left | by right].
  split; [assumption |]. by apply promote_blocker.
Qed.

Lemma promote_holds fs p : gate_holds fs p = true -> gate_holds fs (promoteAdvisoryToBlock p) = true.
Proof.
  unfold gate_holds. rewrite (proj2 (promote_effective p)).
  change (buildSizeHoldFinding (promoteAdvisoryToBlock p)) with (buildSizeHoldFinding p).
  change (guardrailHit (promoteAdvisoryToBlock p)) with (guardrailHit p).
  destruct (gatePolicyBlocks (aiReviewGateMode p) mode_advisory); simpl; [auto |].
  rewrite !orb_true_iff. intuition.
Qed.

(** A dry run reports without enforcing.  Switching dry-run on leaves the
    posted conclusion, blockers and warnings as they are and adds the would-be
    conclusion, which only escalates: it passes only if the posted one does, it
    fails if the posted one does, and it is the posted one when no finding comes
    from the AI review. *)
Theorem dry_run_only_escalates a p :
  dryRun p = Some true ->
  exists display,
    ge_displayConclusion (evaluateGateCheck a p) = Some display
    /\ ge_conclusion (evaluateGateCheck a p) = ge_conclusion (evaluateGateCheckCore a p)
    /\ ge_blockers (evaluateGateCheck a p) = ge_blockers (evaluateGateCheckCore a p)
    /\ ge_warnings (evaluateGateCheck a p) = ge_warnings (evaluateGateCheckCore a p)
    /\ (display = gc_success -> ge_conclusion (evaluateGateCheck a p) = gc_success)
    /\ (ge_conclusion (evaluateGateCheck a p) = gc_failure -> display = gc_failure)
    /\ ((forall f, f ∈ findings a -> f_code f ∉ "ai_review_inconclusive" :: AI_CODES) ->
        display = ge_conclusion (evaluateGateCheck a p)).
Proof.
  intros Hd. unfold evaluateGateCheck. rewrite Hd. cbv zeta. simpl negb. cbv iota. cbn [ge_displayConclusion ge_conclusion ge_blockers ge_warnings].
  eexists. split; [reflexivity |]. do 3 (split; [reflexivity |]).
  destruct (core_spec a p) as [-> _], (core_spec a (promoteAdvisoryToBlock p)) as [-> _]. set (fs := findings a).
  split; [| split].
  - rewrite !conclusion_success, promote_unevaluated. intros (Hu & Hb & Hh). split; [assumption |]. split.
    + rewrite nil_iff_no_elem in *. intros b Hin. by apply (Hb b), promote_blockers_sub.
    + apply not_true_iff_false. intros E. apply promote_holds in E. congruence.
  - rewrite !conclusion_failure, promote_unevaluated. intros (Hu & b & Hb & Hn). split; [assumption |].
    exists b. split; [by apply promote_blockers_sub | assumption].
  - intros Hai. unfold gate_conclusion. rewrite promote_unevaluated.
    assert (B : gate_blockers fs (promoteAdvisoryToBlock p) = gate_blockers fs p).
    { unfold gate_blockers. cbv zeta. rewrite (proj1 (promote_effective p)). f_equal.
      unfold configured_blockers. apply filter_ext_in. intros f Hf. apply promote_blocker.
      intros Hc. apply (Hai f); [by apply list_elem_of_In | by apply list_elem_of_further]. }
    assert (I : existsb (has_code "ai_review_inconclusive") fs = false).
    { apply not_true_iff_false. rewrite existsb_exists. intros (f & Hf & E). apply String.eqb_eq in E.
      apply (Hai f); [by apply list_elem_of_In |]. rewrite E. apply list_elem_of_here. }
    rewrite B. unfold gate_holds. rewrite I, !andb_false_r. reflexivity.
Qed.

(** The empty policy in dry-run with an advisory AI review. *)
Definition dry_policy : GateCheckPolicy :=
  mkPolicy None None None None (Some mode_advisory) None None None None None None None None None None None None None None None
    None None None None None None None None None (Some true).

Definition ai_advisory : Advisory :=
  advisory "id" "now" "pull_request" "acme/widgets#7" "acme/widgets"
    [plain_finding "ai_consensus_defect" sev_critical "Defect" "Both reviewers found a defect." None] "none" (Some 7%Z) None None.

Lemma dry_run_only_escalates_witness :
  (exists display, ge_displayConclusion (evaluateGateCheck ai_advisory dry_policy) = Some display)
  /\ ge_conclusion (evaluateGateCheck ai_advisory dry_policy) = gc_success
  /\ ge_displayConclusion (evaluateGateCheck ai_advisory dry_policy) = Some gc_failure.
Proof.
  split; [| split; reflexivity].
  destruct (dry_run_only_escalates ai_advisory dry_policy eq_refl) as (display & H & _). by exists display.
Defined.

(** *** From records to verdict *)

(** State the app has not synced is never held against the author: with the
    repository or the pull request missing from the cache, the gate stays neutral
    and lists no blocker, under every policy and whatever else is known. *)
Theorem unsynced_state_never_fails date_parse label_matches uuid now repo pr context p :
  repo = None \/ pr = None ->
  let e := evaluateGateCheck (buildPullRequestAdvisory date_parse label_matches uuid now repo pr context) p in
  ge_conclusion e = gc_neutral /\ ge_blockers e = [].
Proof.
  intros H. cbv zeta. set (a := buildPullRequestAdvisory _ _ _ _ _ _ _). destruct (check_spec a p) as [-> ->].
  assert (U : unevaluated (findings a) p = true).
  { unfold unevaluated. apply existsb_exists. subst a. unfold buildPullRequestAdvisory, advisory. cbn [findings].
    destruct H as [-> | ->]; eexists; rewrite in_app_iff; (split; [(left + right); left; reflexivity |]); reflexivity. }
  unfold gate_conclusion. rewrite U. split; reflexivity.
Qed.

Lemma unsynced_state_never_fails_witness :
  ge_conclusion (evaluateGateCheck (buildPullRequestAdvisory toy_parse String.eqb "id" "now" None None
    (mkSignals [] true false [] false None)) default_policy) = gc_neutral.
Proof.
  apply (unsynced_state_never_fails toy_parse String.eqb "id" "now" None None (mkSignals [] true false [] false None) default_policy).
  by left.
Defined.

(** *** Duplicate clusters *)

Definition DUPLICATE_CODES : list string := ["duplicate_pr_risk"; "duplicate_pr_risk_unconfirmed"].

(** What each member of a cluster [c] is evaluated with: the other members, and
    the election switched on. *)
Definition cluster_signals (c : list PullRequestRecord) (pr : PullRequestRecord) (require : bool) : PullRequestFindingSignals :=
  mkSignals (List.filter (fun o => negb (pr_number o =? pr_number pr)%Z) c) require true [] false None.

Lemma others_members c pr :
  List.map claim_member (List.filter (fun o => negb (pr_number o =? pr_number pr)%Z) c)
  = others (dm_number (claim_member pr)) (List.map claim_member c).
Proof.
  unfold others. induction c as [| x c IH]; simpl; [reflexivity |].
  destruct (negb (pr_number x =? pr_number pr)%Z); simpl; by rewrite IH.
Qed.

(** An election spares exactly the winner.  In a cluster of at least two open
    pull requests with distinct numbers that all link issue [i], evaluated with
    the election on, a member carries no duplicate finding exactly when it is the
    earliest known claimant of the cluster; so at most one member is spared. *)
Theorem only_the_winner_is_spared date_parse c pr i require :
  NoDup (List.map pr_number c) -> 2 <= List.length c -> pr ∈ c ->
  (forall x, x ∈ c -> i ∈ pr_linkedIssues x) ->
  ((forall f, f ∈ linked_issue_findings date_parse pr (cluster_signals c pr require) -> f_code f ∉ DUPLICATE_CODES)
   <-> wins date_parse (List.map claim_member c) (claim_member pr) = true).
Proof.
  intros Hnd Hlen Hpr Hi. unfold linked_issue_findings. cbv zeta.
  assert (L : Nat.eqb (List.length (pr_linkedIssues pr)) 0 = false).
  { specialize (Hi pr Hpr). destruct (pr_linkedIssues pr); [by apply elem_of_nil in Hi | reflexivity]. }
  rewrite L. cbn [andb orb confirmedNoOpenLinkedIssue cluster_signals].
  set (sibs := List.filter (fun o => negb (pr_number o =? pr_number pr)%Z) c).
  change (otherOpenPullRequests (cluster_signals c pr require)) with sibs.
  change (duplicateWinnerEnabled (cluster_signals c pr require)) with true. cbn [andb].
  assert (Hall : List.filter (fun o => existsb (fun k => existsb (Z.eqb k) (pr_linkedIssues pr)) (pr_linkedIssues o)) sibs = sibs).
  { apply filter_all_in. intros x Hx. apply filter_In in Hx as [Hx _]. apply list_elem_of_In in Hx.
    apply existsb_exists. exists i. split; [apply list_elem_of_In; by apply Hi |].
    apply existsb_exists. exists i. split; [apply list_elem_of_In; by apply Hi | apply Z.eqb_refl]. }
  rewrite Hall.
  assert (Hne : Nat.ltb 0 (List.length sibs) = true).
  { unfold sibs. rewrite filter_nonempty. apply existsb_exists.
    destruct c as [| x1 [| x2 c']]; simpl in Hlen; try lia. simpl in Hnd. apply NoDup_ListNoDup in Hnd.
    inversion_clear Hnd as [| ? ? Hn _].
    destruct (decide (pr_number x1 = pr_number pr)) as [E | E].
    - exists x2. split; [right; left; reflexivity |]. apply negb_true_iff, Z.eqb_neq. intros E2. apply Hn. left. congruence.
    - exists x1. split; [left; reflexivity |]. by apply negb_true_iff, Z.eqb_neq. }
  rewrite Hne. cbn [andb]. unfold wins. unfold sibs at 1. rewrite others_members.
  destruct (isDuplicateClusterWinnerByClaim date_parse (claim_member pr) _); cbn [negb].
  - split; [reflexivity |]. intros _ f Hf. by apply elem_of_nil in Hf.
  - split; [| discriminate]. intros H. exfalso. apply Nat.ltb_lt in Hne.
    destruct sibs as [| s sibs'] eqn:Es; [simpl in Hne; lia |]. rewrite !filter_nonempty in H.
    destruct (hasDuplicateOverlapCorroboration pr s) eqn:C.
    + simpl existsb in H. rewrite C in H. cbn [orb] in H.
      eapply (H _); [apply elem_of_app; left; apply list_elem_of_here | apply list_elem_of_here].
    + simpl existsb in H. rewrite C in H. cbn [orb negb] in H.
      eapply (H _); [apply elem_of_app; right; apply list_elem_of_here | apply list_elem_of_further, list_elem_of_here].
Qed.

Definition toy_pr (n : Z) (claimed : string) : PullRequestRecord :=
  mkPullRequest "acme/widgets" n "Fix" "open" None None None None None (Some claimed) None [] [3%Z] None.

Lemma only_the_winner_is_spared_witness :
  wins toy_parse (List.map claim_member [toy_pr 7 "bb"; toy_pr 9 "a"]) (claim_member (toy_pr 9 "a")) = true
  /\ forall f, f ∈ linked_issue_findings toy_parse (toy_pr 9 "a")
                   (cluster_signals [toy_pr 7 "bb"; toy_pr 9 "a"] (toy_pr 9 "a") true) ->
     f_code f ∉ DUPLICATE_CODES.
Proof.
  split; [vm_compute; reflexivity |].
  apply (proj2 (only_the_winner_is_spared toy_parse [toy_pr 7 "bb"; toy_pr 9 "a"] (toy_pr 9 "a") 3%Z true
    ltac:(apply (bool_decide_unpack _); vm_compute; exact I) ltac:(simpl; lia)
    ltac:(apply list_elem_of_further, list_elem_of_here)
    ltac:(intros x Hx; repeat (apply elem_of_cons in Hx as [-> | Hx]; [apply list_elem_of_here |]); by apply elem_of_nil in Hx))).
  vm_compute. reflexivity.
Defined.

(** *** The sanitizer *)

(** Sanitizing is not enough to withhold the forbidden terms.  Terms are
    replaced before white space is collapsed, so a term whose words are separated
    by more white space than the pattern allows is published: a second pass over
    the published text still finds one. *)
Theorem sanitizer_publishes_forbidden_terms :
  sanitizeForCheckRun "keep the seed  phrase safe" = "keep the seed phrase safe"
  /\ test CHECK_RUN_FORBIDDEN_TERMS (sanitizeForCheckRun "keep the seed  phrase safe") = true
  /\ sanitizeForCheckRun (sanitizeForCheckRun "keep the seed  phrase safe") = "keep the [context] safe".
Proof. vm_compute. auto. Qed.
