(* ===== verification/SelfReview.v ===== *)
(** * Self-review

    Models [miner/self-review-adapter.ts]: the inputs an attempt's diff gives to
    the predicted gate and to the slop assessment, and the combined verdict.  The
    gate predictor and the injected slop assessment are parameters; they may
    throw.  The repository context the caller supplies is passed to the predictor
    unchanged and has a type of its own. *)

From stdpp Require Import base list strings option.
From S2P Require Import Prelude JsNumber JsString Ledger GateAdvisory.

Local Open Scope nat_scope.
Local Open Scope string_scope.
Local Open Scope js_scope.

(** ** Data *)

Record SelfReviewChangedFile := mkChangedFile {
  cf_path : string;
  cf_additions : option num;
  cf_deletions : option num;
}.

Inductive SelfReviewSlopBand := band_clean | band_low | band_elevated | band_high.

Definition band_to_string (b : SelfReviewSlopBand) : string :=
  match b with
  | band_clean => "clean" | band_low => "low" | band_elevated => "elevated" | band_high => "high"
  end.

Record SelfReviewSlopInput := mkSlopInput {
  si_changedFiles : option (list SelfReviewChangedFile);
  si_testFiles : option (list string);
  si_description : option string;
  si_commitMessages : option (list string);
  si_inDuplicateCluster : option bool;
  si_hasLinkedIssue : option bool;
  si_issueDiscoveryLane : option bool;
}.

Record SelfReviewSlopAssessment := mkSlop {
  sa_slopRisk : num;
  sa_band : SelfReviewSlopBand;
  sa_findings : list AdvisoryFinding;
}.

Record AttemptDiffState := mkDiff {
  ds_repoFullName : string;
  ds_contributorLogin : string;
  ds_title : string;
  ds_body : option string;
  ds_labels : option (list string);
  ds_linkedIssues : option (list Z);
  ds_authorAssociation : option string;
  ds_changedFiles : list SelfReviewChangedFile;
  ds_testFiles : option (list string);
  ds_commitMessages : option (list string);
  ds_issueDiscoveryLane : option bool;
}.

Record PredictedGateInput := mkGateInput {
  gi_repoFullName : string;
  gi_contributorLogin : string;
  gi_title : string;
  gi_body : option string;
  gi_labels : option (list string);
  gi_linkedIssues : option (list Z);
  gi_authorAssociation : option string;
}.

(** The fields of the predicted verdict the miner reads. *)
Record PredictedGateVerdict := mkPredicted {
  pv_conclusion : GateCheckConclusion;
  pv_title : string;
  pv_summary : string;
  pv_readinessScore : option num;
  pv_blockers : list AdvisoryFinding;
  pv_warnings : list AdvisoryFinding;
}.

Record SelfReviewVerdict := mkReview {
  predictedGateVerdict : PredictedGateVerdict;
  slopAssessment : SelfReviewSlopAssessment;
  changedPaths : list string;
  passesPredictedGate : bool;
}.

(** ** Operations *)

Definition SELF_REVIEW_PASSING_CONCLUSION : GateCheckConclusion := gc_success.

Definition isClearPass (conclusion : GateCheckConclusion) : bool :=
  bool_decide (conclusion = SELF_REVIEW_PASSING_CONCLUSION).

Definition buildSelfReviewPredictedGateInput (d : AttemptDiffState) : PredictedGateInput :=
  mkGateInput (ds_repoFullName d) (ds_contributorLogin d) (ds_title d) (ds_body d) (ds_labels d)
    (ds_linkedIssues d) (ds_authorAssociation d).

Definition buildSelfReviewChangedPaths (d : AttemptDiffState) : list string :=
  List.map cf_path (ds_changedFiles d).

Section Review.
Context {RepoContext : Type}.

(** The repository-level part is opaque; the cluster flag is read here. *)
Record SelfReviewContext := mkContext {
  rc_repo : RepoContext;
  rc_inDuplicateCluster : option bool;
}.

Definition buildSelfReviewSlopInput (d : AttemptDiffState) (context : SelfReviewContext) : SelfReviewSlopInput :=
  mkSlopInput (Some (ds_changedFiles d)) (ds_testFiles d) (ds_body d) (ds_commitMessages d)
    (rc_inDuplicateCluster context)
    (Some (Nat.ltb 0 (List.length (ds_linkedIssues d ?? [])))) (ds_issueDiscoveryLane d).

Context (buildPredictedGateVerdict : PredictedGateInput -> RepoContext -> list string -> completion PredictedGateVerdict).

Definition runSelfReview (d : AttemptDiffState) (context : SelfReviewContext)
    (runSlopAssessment : SelfReviewSlopInput -> completion SelfReviewSlopAssessment) : completion SelfReviewVerdict :=
  let paths := buildSelfReviewChangedPaths d in
  verdict <- buildPredictedGateVerdict (buildSelfReviewPredictedGateInput d) (rc_repo context) paths ;;
  slop <- runSlopAssessment (buildSelfReviewSlopInput d context) ;;
  Normal (mkReview verdict slop paths (isClearPass (pv_conclusion verdict))).

(** A verdict passes exactly when the predictor, given the paths of the diff,
    concluded success. *)
Lemma runSelfReview_passes d context slop v :
  runSelfReview d context slop = Normal v ->
  buildPredictedGateVerdict (buildSelfReviewPredictedGateInput d) (rc_repo context) (buildSelfReviewChangedPaths d)
    = Normal (predictedGateVerdict v)
  /\ (passesPredictedGate v = true <-> pv_conclusion (predictedGateVerdict v) = gc_success).
Proof.
  unfold runSelfReview. intros H. apply cbind_normal in H as (g & Hg & H).
  apply cbind_normal in H as (s & _ & [= <-]). simpl. split; [assumption |].
  unfold isClearPass, SELF_REVIEW_PASSING_CONCLUSION. by rewrite bool_decide_eq_true.
Qed.
End Review.
Arguments SelfReviewContext : clear implicits.
