(* ===== verification/CodingAgent.v ===== *)
(** * Coding-agent invocation and the attempt log

    Models [miner/coding-agent-mode.ts] (paused, dry-run or live),
    [miner/coding-agent-driver.ts] (the task and result of a driver run),
    [miner/coding-agent-invoke.ts] (the mode-gated call with its log rows) and
    [miner/attempt-log.ts] (the validation of those rows and the in-memory log).

    Driver and log sink are parameters that may throw.  An invocation returns its
    result together with the trace of its calls, in order.

    Main results: the driver runs exactly in live mode, once, after the start row;
    every other mode is a no-op that records why; log rows are well formed and an
    attempt's exported trace has one line per row. *)

From stdpp Require Import base list strings option sets gmap pretty.
From Stdlib Require Import QArith Ascii.
From S2P Require Import Prelude JsNumber JsString Ledger.

Local Open Scope nat_scope.
Local Open Scope string_scope.
Local Open Scope js_scope.

(** ** Execution mode *)

Inductive CodingAgentExecutionMode := ca_paused | ca_dry_run | ca_live.

#[global] Instance CodingAgentExecutionMode_eq_dec : EqDecision CodingAgentExecutionMode.
Proof. solve_decision. Defined.

Definition mode_to_string (m : CodingAgentExecutionMode) : string :=
  match m with ca_paused => "paused" | ca_dry_run => "dry_run" | ca_live => "live" end.

(** [/^(1|true|yes|on)$/i.test(env.MINER_CODING_AGENT_PAUSED ?? "")]. *)
Definition isGlobalMinerCodingAgentPause (env : gmap string string) : bool :=
  let v := toLowerCase (default "" (env !! "MINER_CODING_AGENT_PAUSED")) in
  String.eqb v "1" || String.eqb v "true" || String.eqb v "yes" || String.eqb v "on".

Definition resolveCodingAgentExecutionMode (globalPaused : bool) (agentPaused agentDryRun : option bool)
    : CodingAgentExecutionMode :=
  if globalPaused || bool_decide (agentPaused = Some true) then ca_paused
  else if bool_decide (agentDryRun = Some true) then ca_dry_run
  else ca_live.

Definition resolveCodingAgentModeFromConfig (env : option (gmap string string)) (agentPaused agentDryRun : option bool)
    : CodingAgentExecutionMode :=
  resolveCodingAgentExecutionMode (isGlobalMinerCodingAgentPause (env ?? ∅)) agentPaused agentDryRun.

Definition codingAgentModeExecutes (mode : CodingAgentExecutionMode) : bool := bool_decide (mode = ca_live).

(** ** Driver contract *)

Record CodingAgentDriverTask := mkTask {
  t_attemptId : string;
  t_workingDirectory : string;
  t_acceptanceCriteriaPath : string;
  t_instructions : string;
  t_maxTurns : num;
}.

Record CodingAgentDriverResult := mkResult {
  r_ok : bool;
  r_changedFiles : list string;
  r_summary : string;
  r_transcript : option string;
  r_turnsUsed : option num;
  r_costUsd : option num;
  r_tokensUsed : option num;
  r_inputTokens : option num;
  r_outputTokens : option num;
  r_error : option string;
}.

(** A result without usage or transcript. *)
Definition bare_result (ok : bool) (changedFiles : list string) (summary : string) (turnsUsed : option num)
    (error : option string) : CodingAgentDriverResult :=
  mkResult ok changedFiles summary None turnsUsed None None None None error.

Definition createNoopCodingAgentDriver (task : CodingAgentDriverTask) : completion CodingAgentDriverResult :=
  Normal (bare_result true [] ("noop driver acknowledged " ++ t_attemptId task) (Some (nz 0)) None).

(** ** Attempt log rows *)

Inductive AttemptLogEventType :=
| attempt_started | attempt_tool_edit | attempt_shadow | attempt_succeeded | attempt_failed | attempt_aborted
| attempt_outcome_summary.

#[global] Instance AttemptLogEventType_eq_dec : EqDecision AttemptLogEventType.
Proof. solve_decision. Defined.

Definition ATTEMPT_LOG_EVENT_TYPES : list AttemptLogEventType :=
  [attempt_started; attempt_tool_edit; attempt_shadow; attempt_succeeded; attempt_failed; attempt_aborted;
   attempt_outcome_summary].

Definition attemptEventType_to_string (t : AttemptLogEventType) : string :=
  match t with
  | attempt_started => "attempt_started"
  | attempt_tool_edit => "attempt_tool_edit"
  | attempt_shadow => "attempt_shadow"
  | attempt_succeeded => "attempt_succeeded"
  | attempt_failed => "attempt_failed"
  | attempt_aborted => "attempt_aborted"
  | attempt_outcome_summary => "attempt_outcome_summary"
  end.

#[export] Instance AttemptLogEventType_vocabulary : Vocabulary AttemptLogEventType.
Proof. vocabulary_by attemptEventType_to_string ATTEMPT_LOG_EVENT_TYPES. Defined.

Definition attemptEventType_of_string (s : string) : option AttemptLogEventType := of_word s.

Record AttemptLogEvent := mkLogEvent {
  le_eventType : AttemptLogEventType;
  le_attemptId : string;
  le_actionClass : string;
  le_mode : CodingAgentExecutionMode;
  le_reason : string;
  le_payload : option (list (string * jsval));
  le_provider : option string;
  le_costUsd : option num;
  le_tokensUsed : option num;
}.

(** A row without the fields only the outcome summary sets. *)
Definition log_row (t : AttemptLogEventType) (attemptId actionClass : string) (mode : CodingAgentExecutionMode)
    (reason : string) (payload : list (string * jsval)) : AttemptLogEvent :=
  mkLogEvent t attemptId actionClass mode reason (Some payload) None None None.

Record NormalizedAttemptLogEvent := mkNormalizedLog {
  nl_eventType : AttemptLogEventType;
  nl_attemptId : string;
  nl_actionClass : string;
  nl_mode : CodingAgentExecutionMode;
  nl_reason : string;
  nl_payloadJson : string;
  nl_provider : option string;
  nl_costUsd : option num;
  nl_tokensUsed : option num;
}.

Definition codingAgentModes : list CodingAgentExecutionMode := [ca_paused; ca_dry_run; ca_live].

#[export] Instance CodingAgentExecutionMode_vocabulary : Vocabulary CodingAgentExecutionMode.
Proof. vocabulary_by mode_to_string codingAgentModes. Defined.

Definition mode_of_string (s : string) : option CodingAgentExecutionMode := of_word s.

Definition normalizeMode (value : jsval) : completion CodingAgentExecutionMode :=
  s <- normalizeRequiredString value "invalid_mode" ;;
  match mode_of_string s with
  | Some m => Normal m
  | None => Thrown "invalid_mode"
  end.

Definition normalizeOptionalString (value : jsval) (code : string) : completion (option string) :=
  match value with
  | JUndefined => Normal None
  | _ => s <- normalizeRequiredString value code ;; Normal (Some s)
  end.

Definition normalizeOptionalNonNegativeNumber (value : jsval) (code : string) : completion (option num) :=
  match value with
  | JUndefined => Normal None
  | JNum n => if negb (is_finite n) || nltb n (nz 0) then Thrown code else Normal (Some n)
  | _ => Thrown code
  end.

(** [normalizeRequiredString], [jsonRoundTripEqual] and [serializePayload] are
    repeated verbatim from the governor ledger in the source. *)
Definition normalizeAttemptLogEvent (input : jsval) : completion NormalizedAttemptLogEvent :=
  match input with
  | JObj _ | JArr _ =>
      t <- normalizeRequiredString (get_field input "eventType") "invalid_event_type" ;;
      match attemptEventType_of_string t with
      | None => Thrown "invalid_event_type"
      | Some et =>
          i <- normalizeRequiredString (get_field input "attemptId") "invalid_attempt_id" ;;
          a <- normalizeRequiredString (get_field input "actionClass") "invalid_action_class" ;;
          m <- normalizeMode (get_field input "mode") ;;
          why <- normalizeRequiredString (get_field input "reason") "invalid_reason" ;;
          p <- serializePayload (get_field input "payload") ;;
          prov <- normalizeOptionalString (get_field input "provider") "invalid_provider" ;;
          c <- normalizeOptionalNonNegativeNumber (get_field input "costUsd") "invalid_cost_usd" ;;
          k <- normalizeOptionalNonNegativeNumber (get_field input "tokensUsed") "invalid_tokens_used" ;;
          Normal (mkNormalizedLog et i a m why p prov c k)
      end
  | _ => Thrown "invalid_event"
  end.

Definition jundef {A} (inj : A -> jsval) (o : option A) : jsval :=
  match o with Some a => inj a | None => JUndefined end.

(** The row as the untyped value the append path receives. *)
Definition log_value (e : AttemptLogEvent) : jsval :=
  JObj [("eventType", JStr (attemptEventType_to_string (le_eventType e)));
        ("attemptId", JStr (le_attemptId e));
        ("actionClass", JStr (le_actionClass e));
        ("mode", JStr (mode_to_string (le_mode e)));
        ("reason", JStr (le_reason e));
        ("payload", jundef JObj (le_payload e));
        ("provider", jundef JStr (le_provider e));
        ("costUsd", jundef JNum (le_costUsd e));
        ("tokensUsed", jundef JNum (le_tokensUsed e))].

(** [JSON.stringify(event)] of a normalized row. *)
Definition normalized_value (e : NormalizedAttemptLogEvent) : jsval :=
  JObj [("eventType", JStr (attemptEventType_to_string (nl_eventType e)));
        ("attemptId", JStr (nl_attemptId e));
        ("actionClass", JStr (nl_actionClass e));
        ("mode", JStr (mode_to_string (nl_mode e)));
        ("reason", JStr (nl_reason e));
        ("payloadJson", JStr (nl_payloadJson e));
        ("provider", jopt JStr (nl_provider e));
        ("costUsd", jopt JNum (nl_costUsd e));
        ("tokensUsed", jopt JNum (nl_tokensUsed e))].

Definition NEWLINE : ascii := ascii_of_N 10.

Definition row_line (e : NormalizedAttemptLogEvent) : string := default "" (json_stringify (normalized_value e)).

Definition formatAttemptLogJsonl (events : list NormalizedAttemptLogEvent) : string :=
  join (String NEWLINE "") (List.map row_line events).

(** The buffer's state is its rows; [append] validates, then pushes. *)
Definition createAttemptLogBuffer : list NormalizedAttemptLogEvent := [].

Definition buffer_append (rows : list NormalizedAttemptLogEvent) (event : AttemptLogEvent)
    : completion NormalizedAttemptLogEvent * list NormalizedAttemptLogEvent :=
  match normalizeAttemptLogEvent (log_value event) with
  | Normal n => (Normal n, (rows ++ [n])%list)
  | Thrown m => (Thrown m, rows)
  end.

(** ** Mode-gated invocation *)

Definition shadowSummary (task : CodingAgentDriverTask) : string :=
  "dry-run: would invoke coding agent in " ++ t_workingDirectory task ++ " (≤" ++ num_to_string (t_maxTurns task)
  ++ " turns, criteria " ++ t_acceptanceCriteriaPath task ++ ")".

(** Calls of an invocation: [driver.run(task)] and [log.append(event)]. *)
Inductive InvokeCall :=
| CallDriver (task : CodingAgentDriverTask)
| CallAppend (event : AttemptLogEvent).

Section Invoke.
(** The driver, and the sink when there is one; [log k event] is its [k]-th call. *)
Context (driver : CodingAgentDriverTask -> completion CodingAgentDriverResult).
Context (log : option (nat -> AttemptLogEvent -> completion unit)).

(** [log?.append(event)]. *)
Definition append_row (k : nat) (event : AttemptLogEvent) : completion unit * list InvokeCall :=
  match log with
  | None => (Normal tt, [])
  | Some sink => (sink k event, [CallAppend event])
  end.

Definition base_row (t : AttemptLogEventType) (mode : CodingAgentExecutionMode) (task : CodingAgentDriverTask)
    (reason : string) (payload : list (string * jsval)) : AttemptLogEvent :=
  log_row t (t_attemptId task) "codegen" mode reason payload.

Definition started_row (mode : CodingAgentExecutionMode) (task : CodingAgentDriverTask) : AttemptLogEvent :=
  base_row attempt_started mode task "live coding-agent invocation"
    [("workingDirectory", JStr (t_workingDirectory task)); ("maxTurns", JNum (t_maxTurns task))].

Definition outcome_row (mode : CodingAgentExecutionMode) (task : CodingAgentDriverTask)
    (result : CodingAgentDriverResult) : AttemptLogEvent :=
  base_row (if r_ok result then attempt_succeeded else attempt_failed) mode task (r_summary result)
    [("changedFiles", JArr (List.map JStr (r_changedFiles result)));
     ("turnsUsed", jopt JNum (r_turnsUsed result)); ("error", jopt JStr (r_error result))].

(** The handler of the live call: records the failure and reports it. *)
Definition invocation_failed (mode : CodingAgentExecutionMode) (task : CodingAgentDriverTask) (k : nat)
    (message : string) : completion CodingAgentDriverResult * list InvokeCall :=
  let '(c, calls) := append_row k (base_row attempt_failed mode task message [("thrown", JBool true)]) in
  (_ <- c ;; Normal (bare_result false [] "coding agent invocation failed" None (Some message)), calls).

Definition invokeCodingAgentDriver (mode : CodingAgentExecutionMode) (task : CodingAgentDriverTask)
    : completion CodingAgentDriverResult * list InvokeCall :=
  if bool_decide (mode = ca_paused) then
    let '(c, calls) := append_row 0 (base_row attempt_aborted mode task "coding_agent_paused"
      [("workingDirectory", JStr (t_workingDirectory task))]) in
    (_ <- c ;; Normal (bare_result false [] "coding agent paused" None (Some "coding_agent_paused")), calls)
  else if negb (codingAgentModeExecutes mode) then
    let '(c, calls) := append_row 0 (base_row attempt_shadow mode task
      "dry-run: would invoke coding agent without spawning underlying session"
      [("workingDirectory", JStr (t_workingDirectory task));
       ("acceptanceCriteriaPath", JStr (t_acceptanceCriteriaPath task)); ("maxTurns", JNum (t_maxTurns task))]) in
    (_ <- c ;; Normal (bare_result true [] (shadowSummary task) (Some (nz 0)) None), calls)
  else
    let '(c, calls0) := append_row 0 (started_row mode task) in
    match c with
    | Thrown m => (Thrown m, calls0)
    | Normal _ =>
        match driver task with
        | Normal result =>
            let '(c1, calls1) := append_row 1 (outcome_row mode task result) in
            match c1 with
            | Normal _ => (Normal result, (calls0 ++ [CallDriver task] ++ calls1)%list)
            | Thrown m =>
                let '(r, calls2) := invocation_failed mode task 2 m in
                (r, (calls0 ++ [CallDriver task] ++ calls1 ++ calls2)%list)
            end
        | Thrown m =>
            let '(r, calls2) := invocation_failed mode task 1 m in
            (r, (calls0 ++ [CallDriver task] ++ calls2)%list)
        end
    end.
End Invoke.

(** The driver calls of a trace. *)
Definition driver_calls (calls : list InvokeCall) : list CodingAgentDriverTask :=
  omap (fun c => match c with CallDriver t => Some t | CallAppend _ => None end) calls.

(** ** One line per row *)

(** No line feed in the text. *)
Definition line_free (s : string) : bool := str_forallb (fun c => negb (Ascii.eqb c NEWLINE)) s.

Lemma line_free_app s t : line_free (s ++ t) = line_free s && line_free t.
Proof.
  unfold line_free. induction s as [| c s IH]; [reflexivity |].
  rewrite string_app_cons. simpl. by rewrite IH, andb_assoc.
Qed.

Lemma line_free_join sep parts : line_free sep = true -> Forall (fun p => line_free p = true) parts -> line_free (join sep parts) = true.
Proof.
  intros Hs. induction 1 as [| p ps Hp Hps IH]; [reflexivity |].
  destruct ps as [| q ps]; [exact Hp |]. rewrite join_cons by discriminate.
  by rewrite !line_free_app, Hp, Hs, IH.
Qed.

Lemma line_free_substring s : forall i n, line_free s = true -> line_free (String.substring i n s) = true.
Proof.
  unfold line_free. induction s as [| c s IH]; intros [| i] [| n] H; simpl in *; try reflexivity;
    apply andb_true_iff in H as [Hc H]; rewrite ?Hc; simpl; by apply IH.
Qed.

Lemma line_free_zeros n : line_free (zeros n) = true.
Proof. induction n as [| n IH]; [reflexivity |]. change (zeros (S n)) with ("0" ++ zeros n). by rewrite line_free_app, IH. Qed.

Lemma line_free_pretty_char n : negb (Ascii.eqb (pretty_N_char n) NEWLINE) = true.
Proof. unfold pretty_N_char. by repeat case_match. Qed.

Lemma line_free_pretty_go n : forall s, line_free s = true -> line_free (pretty_N_go n s) = true.
Proof.
  induction (N.lt_wf_0 n) as [n _ IH]. intros s Hs. destruct (decide (0 < n)%N) as [Hn | Hn].
  - rewrite pretty_N_go_step by assumption. apply IH; [apply N.div_lt; lia |].
    unfold line_free in *. simpl. by rewrite line_free_pretty_char, Hs.
  - assert (n = 0%N) as -> by lia. by rewrite pretty_N_go_0.
Qed.

Lemma line_free_pretty (z : Z) : line_free (pretty z) = true.
Proof.
  destruct z as [| p | p]; [reflexivity | |].
  - change (line_free (pretty_N_go (Npos p) "") = true). by apply line_free_pretty_go.
  - change (line_free ("-" ++ pretty_N_go (Npos p) "") = true). rewrite line_free_app. simpl. by apply line_free_pretty_go.
Qed.

Lemma line_free_render q : line_free (render_pos q) = true.
Proof.
  unfold render_pos. destruct (shortest q) as [[s n] k]. cbv zeta.
  repeat case_match; rewrite ?line_free_app, ?line_free_zeros, ?line_free_substring, ?line_free_pretty by apply line_free_pretty;
    reflexivity.
Qed.

Lemma line_free_num n : line_free (num_to_string n) = true.
Proof.
  destruct n as [| | | q]; try reflexivity. simpl. destruct (Qcompare q 0); [reflexivity | |].
  - by rewrite line_free_app, line_free_render.
  - apply line_free_render.
Qed.

Lemma line_free_escape s : line_free (json_escape s) = true.
Proof.
  induction s as [| c s IH]; [reflexivity |]. simpl. rewrite line_free_app, IH, andb_true_r.
  destruct c as [[] [] [] [] [] [] [] []]; vm_compute; reflexivity.
Qed.

Lemma line_free_quote s : line_free (json_quote s) = true.
Proof. unfold json_quote. cbv zeta. by rewrite !line_free_app, line_free_escape. Qed.

Lemma json_single_line v : forall t, json_stringify v = Some t -> line_free t = true.
Proof.
  induction v as [| | b | n | s | vs IH | fs IH] using jsval_rect_all; simpl; intros t H.
  - discriminate.
  - by injection H as <-.
  - injection H as <-. by destruct b.
  - injection H as <-. unfold json_num. destruct (is_finite n); [apply line_free_num | reflexivity].
  - injection H as <-. apply line_free_quote.
  - injection H as <-. rewrite !line_free_app. rewrite line_free_join; [reflexivity | reflexivity |].
    apply List.Forall_map. eapply List.Forall_impl; [| exact IH]. intros w Hw. simpl.
    destruct (json_stringify w) as [u |] eqn:E; [exact (Hw u E) | reflexivity].
  - injection H as <-. rewrite !line_free_app. rewrite line_free_join; [reflexivity | reflexivity |].
    apply List.Forall_concat, List.Forall_map. eapply List.Forall_impl; [| exact IH]. intros [k w] Hw. cbn [fst snd] in *.
    destruct (json_stringify w) as [u |] eqn:E; [| constructor]. constructor; [| constructor].
    by rewrite !line_free_app, line_free_quote, (Hw u eq_refl).
Qed.

Lemma split_aux_line_free u : forall cur rest, line_free u = true ->
  split_on_aux NEWLINE cur (u ++ rest) = split_on_aux NEWLINE (cur ++ u) rest.
Proof.
  unfold line_free. induction u as [| c u IH]; intros cur rest H.
  - by rewrite string_app_nil_r.
  - rewrite string_app_cons. simpl in *. apply andb_true_iff in H as [Hc H]. apply negb_true_iff in Hc. rewrite Hc.
    rewrite IH by assumption. f_equal. by rewrite string_app_assoc.
Qed.

Lemma split_join_lines ls : forall l, Forall (fun p => line_free p = true) (l :: ls) ->
  split_on NEWLINE (join (String NEWLINE "") (l :: ls)) = l :: ls.
Proof.
  unfold split_on. induction ls as [| l' ls IH]; intros l H; apply List.Forall_cons_iff in H as [Hl H].
  - cbn [join]. rewrite <- (string_app_nil_r l) at 1. by rewrite split_aux_line_free by assumption.
  - rewrite join_cons by discriminate. rewrite split_aux_line_free by assumption.
    rewrite string_app_cons. simpl split_on_aux. f_equal. by apply IH.
Qed.

(** ** Rows *)

(** A payload JSON text represents: validation stores it. *)
Lemma serializePayload_clean fs :
  json_clean (JObj fs) = true -> keys_distinct (JObj fs) = true -> exists json, serializePayload (JObj fs) = Normal json.
Proof.
  intros C K. unfold serializePayload. rewrite (clean_image _ C), (clean_roundtrip _ C K). simpl. eauto.
Qed.

Lemma attemptEventType_of_to t : attemptEventType_of_string (attemptEventType_to_string t) = Some t.
Proof. exact (of_word_word t). Qed.

Lemma mode_of_to m : mode_of_string (mode_to_string m) = Some m.
Proof. exact (of_word_word m). Qed.

Lemma required_nonblank s code : str_empty (trim s) = false -> normalizeRequiredString (JStr s) code = Normal (trim s).
Proof. intros H. simpl. by rewrite H. Qed.

(** A row the components build is accepted, and stored as they wrote it up to
    trimming, when its texts are not blank and its payload is JSON. *)
Lemma log_row_accepted t i a m why p :
  str_empty (trim i) = false -> str_empty (trim a) = false -> str_empty (trim why) = false ->
  json_clean (JObj p) = true -> keys_distinct (JObj p) = true ->
  exists json, normalizeAttemptLogEvent (log_value (log_row t i a m why p))
    = Normal (mkNormalizedLog t (trim i) (trim a) m (trim why) json None None None).
Proof.
  intros Hi Ha Hw Hc Hk. destruct (serializePayload_clean p Hc Hk) as [json Hj]. exists json.
  unfold normalizeAttemptLogEvent, log_value, log_row.
  cbn [le_eventType le_attemptId le_actionClass le_mode le_reason le_payload le_provider le_costUsd le_tokensUsed jundef].
  simpl get_field.
  rewrite (required_nonblank (attemptEventType_to_string t)) by (by destruct t). cbn [cbind].
  assert (trim (attemptEventType_to_string t) = attemptEventType_to_string t) as -> by (by destruct t).
  rewrite attemptEventType_of_to, !required_nonblank by assumption. cbn [cbind].
  unfold normalizeMode. rewrite required_nonblank by (by destruct m). cbn [cbind].
  assert (trim (mode_to_string m) = mode_to_string m) as -> by (by destruct m).
  rewrite mode_of_to. cbn [cbind]. rewrite Hj. reflexivity.
Qed.

(** ** Traces of an invocation *)

Lemma append_no_driver log k e : driver_calls (append_row log k e).2 = [].
Proof. unfold append_row. by destruct log. Qed.

Lemma driver_calls_app l1 l2 : driver_calls (l1 ++ l2)%list = (driver_calls l1 ++ driver_calls l2)%list.
Proof. apply omap_app. Qed.

(** Whatever the sink does, the driver is called at most once and only live. *)
Lemma invoke_driver_calls driver log mode task :
  driver_calls (invokeCodingAgentDriver driver log mode task).2
  = (if bool_decide (mode = ca_live)
     then match (append_row log 0 (started_row mode task)).1 with Normal _ => [task] | Thrown _ => [] end
     else []).
Proof.
  unfold invokeCodingAgentDriver, invocation_failed, codingAgentModeExecutes.
  destruct mode; simpl; [by destruct log | by destruct log |].
  pose proof (append_no_driver log 0 (started_row ca_live task)) as H0.
  destruct (append_row log 0 (started_row ca_live task)) as [[[] | m] calls0]; simpl in *; [| assumption].
  destruct (driver task) as [r | m].
  - pose proof (append_no_driver log 1 (outcome_row ca_live task r)) as H1.
    destruct (append_row log 1 (outcome_row ca_live task r)) as [[[] | m] calls1]; simpl in *;
      [by rewrite driver_calls_app, H0; simpl; rewrite H1 |].
    pose proof (append_no_driver log 2 (base_row attempt_failed ca_live task m [("thrown", JBool true)])) as H2.
    destruct (append_row log 2 _) as [c calls2]; simpl in *. rewrite driver_calls_app, H0. simpl. fold (driver_calls (calls1 ++ calls2)%list).
    by rewrite driver_calls_app, H1, H2.
  - pose proof (append_no_driver log 1 (base_row attempt_failed ca_live task m [("thrown", JBool true)])) as H2.
    destruct (append_row log 1 _) as [c calls2]; simpl in *. rewrite driver_calls_app, H0. simpl. by rewrite H2.
Qed.

(** The only way to the underlying agent is an explicit live mode.  For every
    environment, per-run setting, driver and log sink, the driver is called at
    most once, never when the global or the per-run pause or the dry-run setting
    is on, and exactly once when none is and recording the start row succeeds. *)
Theorem driver_runs_only_live driver log env agentPaused agentDryRun task :
  let mode := resolveCodingAgentModeFromConfig env agentPaused agentDryRun in
  let calls := (invokeCodingAgentDriver driver log mode task).2 in
  let consent := isGlobalMinerCodingAgentPause (default ∅ env) = false /\ agentPaused <> Some true /\ agentDryRun <> Some true in
  (driver_calls calls = [] \/ driver_calls calls = [task])
  /\ (driver_calls calls = [task] <-> consent /\ (append_row log 0 (started_row mode task)).1 = Normal tt).
Proof.
  cbv zeta. rewrite invoke_driver_calls. set (mode := resolveCodingAgentModeFromConfig env agentPaused agentDryRun).
  assert (L : mode = ca_live <-> isGlobalMinerCodingAgentPause (default ∅ env) = false /\ agentPaused <> Some true /\ agentDryRun <> Some true).
  { unfold mode, resolveCodingAgentModeFromConfig, resolveCodingAgentExecutionMode.
    destruct (isGlobalMinerCodingAgentPause (default ∅ env)); simpl; [naive_solver |].
    case_bool_decide; [naive_solver |]. case_bool_decide; naive_solver. }
  rewrite <- L. destruct (append_row log 0 (started_row mode task)) as [[[] | m] calls]; simpl; case_bool_decide; naive_solver.
Qed.

(** The rows of a trace, in the order they were appended. *)
Definition appended (calls : list InvokeCall) : list AttemptLogEvent :=
  omap (fun c => match c with CallAppend e => Some e | CallDriver _ => None end) calls.

(** With a sink that accepts its rows, an invocation always returns, whatever
    the driver does, and its rows tell what happened: one row naming the reason
    when nothing ran, and when the driver ran the start row followed by its
    outcome.  A driver that throws is reported as a failed result. *)
Theorem invocation_is_total_and_logged driver sink mode task :
  (forall k e, sink k e = Normal tt) ->
  exists r rows,
    (invokeCodingAgentDriver driver (Some sink) mode task).1 = Normal r
    /\ appended (invokeCodingAgentDriver driver (Some sink) mode task).2 = rows
    /\ match mode with
       | ca_paused => r_ok r = false /\ le_eventType <$> rows = [attempt_aborted]
       | ca_dry_run => r_ok r = true /\ r_changedFiles r = [] /\ le_eventType <$> rows = [attempt_shadow]
       | ca_live =>
           (driver task = Normal r \/ exists m, driver task = Thrown m /\ r_ok r = false /\ r_error r = Some m)
           /\ le_eventType <$> rows = [attempt_started; if r_ok r then attempt_succeeded else attempt_failed]
       end.
Proof.
  intros Hs. unfold invokeCodingAgentDriver, invocation_failed, append_row. rewrite !Hs.
  destruct mode; simpl; [eauto 10 | eauto 10 |].
  destruct (driver task) as [r | m] eqn:D; rewrite !Hs; simpl.
  - exists r. eexists. split; [reflexivity |]. split; [reflexivity |]. split; [by left |]. reflexivity.
  - eexists. eexists. split; [reflexivity |]. split; [reflexivity |]. simpl. split; [right; eauto | reflexivity].
Qed.

Lemma invocation_is_total_and_logged_witness :
  exists r rows,
    (invokeCodingAgentDriver createNoopCodingAgentDriver (Some (fun _ _ => Normal tt)) ca_live
       (mkTask "a1" "/tmp/w" "/tmp/c" "do" (nz 5))).1 = Normal r
    /\ le_eventType <$> rows = [attempt_started; attempt_succeeded].
Proof.
  destruct (invocation_is_total_and_logged createNoopCodingAgentDriver (fun _ _ => Normal tt) ca_live
    (mkTask "a1" "/tmp/w" "/tmp/c" "do" (nz 5)) (fun _ _ => eq_refl)) as (r & rows & H1 & H2 & _).
  exists r, rows. split; [exact H1 |]. rewrite <- H2. reflexivity.
Defined.

(** An exported attempt trace has one line per row: splitting the text at line
    feeds gives back the JSON of each row, in order, whatever the rows hold. *)
Theorem jsonl_one_line_per_row row rows :
  split_on NEWLINE (formatAttemptLogJsonl (row :: rows)) = List.map row_line (row :: rows).
Proof.
  unfold formatAttemptLogJsonl. apply (split_join_lines (List.map row_line rows) (row_line row)).
  change (row_line row :: List.map row_line rows) with (List.map row_line (row :: rows)).
  apply List.Forall_map, List.Forall_forall. intros e _. change (line_free (row_line e) = true). unfold row_line.
  destruct (json_stringify (normalized_value e)) as [t |] eqn:E; [exact (json_single_line _ _ E) | reflexivity].
Qed.
