(* ===== verification/IteratePolicy.v ===== *)
(** * Iterate-loop policy

    Models [miner/iterate-policy.ts]: the pure decision the iterate loop consults
    after each iteration.  Main results: the precedence ladder is exact (when it
    hands off, abandons for which reason, and continues), every decision carries
    the fields its action calls for, and the no-progress test is equality of the
    two blocker sets and of the two counts. *)

From stdpp Require Import base list strings option sets.
From S2P Require Import Prelude JsNumber JsString GateAdvisory SelfReview.

Local Open Scope nat_scope.
Local Open Scope string_scope.
Local Open Scope js_scope.

(** ** Data *)

Inductive AutonomyLevel := observe | auto_with_approval | auto_level.

#[global] Instance AutonomyLevel_eq_dec : EqDecision AutonomyLevel.
Proof. solve_decision. Defined.

Inductive IterateLoopAction := act_continue | act_handoff | act_abandon.

#[global] Instance IterateLoopAction_eq_dec : EqDecision IterateLoopAction.
Proof. solve_decision. Defined.

Definition action_to_string (a : IterateLoopAction) : string :=
  match a with act_continue => "continue" | act_handoff => "handoff" | act_abandon => "abandon" end.

Inductive AbandonReason :=
| rejection_signaled | self_review_ambiguous | max_iterations_reached | cost_ceiling_reached | no_progress
| kill_switch_engaged | autonomy_observe_only.

#[global] Instance AbandonReason_eq_dec : EqDecision AbandonReason.
Proof. solve_decision. Defined.

Definition abandon_to_string (r : AbandonReason) : string :=
  match r with
  | rejection_signaled => "rejection_signaled"
  | self_review_ambiguous => "self_review_ambiguous"
  | max_iterations_reached => "max_iterations_reached"
  | cost_ceiling_reached => "cost_ceiling_reached"
  | no_progress => "no_progress"
  | kill_switch_engaged => "kill_switch_engaged"
  | autonomy_observe_only => "autonomy_observe_only"
  end.

Inductive SelfReviewOutcome :=
| sr_pass
| sr_fail (blockerCodes : list string)
| sr_ambiguous (reason : option string).

Record IterationState := mkIteration {
  is_iterationNumber : num;
  is_maxIterations : num;
  is_costCeilingReached : option bool;
  is_selfReview : SelfReviewOutcome;
  is_previousBlockerCodes : option (list string);
  is_rejectionSignaled : bool;
  is_autonomyLevel : option AutonomyLevel;
}.

Record HandoffPacket := mkPacket {
  hp_worktreePath : string;
  hp_branchRef : option string;
  hp_diffSummary : string;
  hp_selfReviewVerdict : SelfReviewVerdict;
  hp_attemptLogReference : string;
  hp_changedFiles : option (list string);
}.

Record IterateLoopDecision := mkDecision {
  d_action : IterateLoopAction;
  d_reason : string;
  d_abandonReason : option AbandonReason;
  d_requiresApproval : option bool;
}.

Definition abandon_with (why : AbandonReason) (reason : string) : IterateLoopDecision :=
  mkDecision act_abandon reason (Some why) None.

(** ** Operations *)

Definition deriveSelfReviewOutcome (verdict : SelfReviewVerdict) : SelfReviewOutcome :=
  if passesPredictedGate verdict then sr_pass
  else sr_fail (List.map f_code (pv_blockers (predictedGateVerdict verdict))).

Definition blockerSetsEqual (current previous : list string) : bool :=
  if negb (Nat.eqb (List.length current) (List.length previous)) then false
  else
    let currentSet := js_set current in
    let previousSet := js_set previous in
    if negb (Nat.eqb (List.length currentSet) (List.length previousSet)) then false
    else forallb (fun code => set_has previousSet code) currentSet.

(** [${reason ? `: ${reason}` : "."}]. *)
Definition colon_or_dot (reason : option string) : string :=
  match reason with
  | Some r => if str_empty r then "." else ": " ++ r
  | None => "."
  end.

Definition decideNextActionWithReason (state : IterationState) : IterateLoopDecision :=
  if is_rejectionSignaled state then
    abandon_with rejection_signaled
      "Repo or contributor has signaled it does not want automated contributions; disengaging silently rather than retry-hammering."
  else match is_selfReview state with
  | sr_ambiguous reason =>
      abandon_with self_review_ambiguous
        ("Self-review could not conclusively determine pass/fail" ++ colon_or_dot reason
         ++ " Downgrading to abandon rather than optimistically handing off.")
  | sr_pass =>
      match is_autonomyLevel state ?? auto_level with
      | observe =>
          abandon_with autonomy_observe_only
            "Self-review reached a clean predicted-gate pass, but the configured self-loop autonomy level is observe-only; stopping without handing off."
      | auto_with_approval =>
          mkDecision act_handoff "Self-review reached a clean predicted-gate pass." None (Some true)
      | auto_level => mkDecision act_handoff "Self-review reached a clean predicted-gate pass." None None
      end
  | sr_fail blockerCodes =>
      if ngeb (is_iterationNumber state) (is_maxIterations state) then
        abandon_with max_iterations_reached
          ("Reached the iteration ceiling (" ++ num_to_string (is_maxIterations state) ++ ") without a clean predicted-gate pass.")
      else if bool_decide (is_costCeilingReached state = Some true) then
        abandon_with cost_ceiling_reached
          "Reached the attempt's cost ceiling (cumulative driver spend across every iteration so far) without a clean predicted-gate pass."
      else if match is_previousBlockerCodes state with
              | Some previous => blockerSetsEqual blockerCodes previous
              | None => false
              end
      then
        let listed := join ", " blockerCodes in
        abandon_with no_progress
          ("Blocker set unchanged from the prior iteration (" ++ (if str_empty listed then "no blockers listed" else listed)
           ++ "); stopping rather than repeating an attempt that is not converging.")
      else mkDecision act_continue "Self-review still failing but the blocker set changed since the prior iteration; continuing." None None
  end.

Definition decideNextAction (state : IterationState) : IterateLoopAction := d_action (decideNextActionWithReason state).

(** ** The no-progress test *)

Lemma same_size_subset (xs ys : list string) : NoDup xs -> NoDup ys -> List.length xs = List.length ys ->
  (forall x, x ∈ xs -> x ∈ ys) -> forall y, y ∈ ys -> y ∈ xs.
Proof.
  intros Hx Hy Hl Hs y Hin. apply NoDup_ListNoDup in Hx. rewrite list_elem_of_In in *.
  apply (@NoDup_length_incl string xs ys Hx); [lia | | assumption]. intros z Hz. apply list_elem_of_In, Hs, list_elem_of_In, Hz.
Qed.

Lemma blockerSetsEqual_iff current previous :
  blockerSetsEqual current previous = true <->
  List.length current = List.length previous /\ forall code, code ∈ current <-> code ∈ previous.
Proof.
  unfold blockerSetsEqual. cbv zeta.
  destruct (Nat.eqb_spec (List.length current) (List.length previous)) as [L | L]; simpl; [| naive_solver].
  destruct (Nat.eqb_spec (List.length (js_set current)) (List.length (js_set previous))) as [S | S]; simpl.
  - rewrite forallb_forall. setoid_rewrite set_has_elem. setoid_rewrite <- list_elem_of_In. setoid_rewrite js_set_elem. split.
    + intros H. split; [assumption |]. intros code. split; [apply H |]. intros Hp.
      apply js_set_elem. apply (same_size_subset (js_set current) (js_set previous)); auto using js_set_nodup.
      * intros x Hx. apply js_set_elem. apply H. by apply js_set_elem.
      * by apply js_set_elem.
    + intros [_ H] x Hx. by apply H.
  - split; [discriminate |]. intros [_ H]. destruct S.
    assert (E : forall x, x ∈ js_set current <-> x ∈ js_set previous) by (intros x; rewrite !js_set_elem; apply H).
    apply Nat.le_antisymm; apply NoDup_incl_length; try apply NoDup_ListNoDup, js_set_nodup;
      intros x Hx; apply list_elem_of_In, E, list_elem_of_In, Hx.
Qed.

(** ** Theorems *)

(** Settles a rung of the ladder: the decision is known, every clause is an
    equation between constructors. *)
Ltac policy_cases :=
  repeat match goal with
  | |- _ /\ _ => split
  | |- _ <-> _ => split
  | |- forall _, _ => intro
  | |- ~ _ => intro
  | H : _ /\ _ |- _ => destruct H
  | H : exists _, _ |- _ => destruct H
  | H : is_Some _ |- _ => destruct H
  | H : Some _ = Some _ |- _ => injection H as ?; subst
  | H : sr_fail _ = sr_fail _ |- _ => injection H as ?; subst
  end; try congruence; eauto; try (eexists; repeat split; intros; simplify_eq; eauto; congruence).

(** The precedence ladder is exact.  The policy hands off exactly when no
    rejection was signalled, the self-review is a clean pass and the autonomy
    level is not observe-only, and asks for approval exactly at the approval
    level.  It continues exactly when no rejection was signalled, the review
    failed, neither ceiling is reached, and the blockers differ from the previous
    iteration's as sets or in number.  In every other case it abandons; a
    decision names an abandon reason exactly when it abandons. *)
Theorem iterate_policy_exact s :
  let d := decideNextActionWithReason s in
  (d_action d = act_handoff <->
     is_rejectionSignaled s = false /\ is_selfReview s = sr_pass /\ is_autonomyLevel s <> Some observe)
  /\ (d_requiresApproval d = Some true <-> d_action d = act_handoff /\ is_autonomyLevel s = Some auto_with_approval)
  /\ (d_action d = act_continue <->
      is_rejectionSignaled s = false
      /\ exists codes, is_selfReview s = sr_fail codes
         /\ ngeb (is_iterationNumber s) (is_maxIterations s) = false
         /\ is_costCeilingReached s <> Some true
         /\ forall previous, is_previousBlockerCodes s = Some previous ->
              ~ (List.length codes = List.length previous /\ forall code, code ∈ codes <-> code ∈ previous))
  /\ (is_Some (d_abandonReason d) <-> d_action d = act_abandon)
  /\ (is_rejectionSignaled s = true -> d_abandonReason d = Some rejection_signaled)
  /\ (forall why, is_rejectionSignaled s = false -> is_selfReview s = sr_ambiguous why ->
        d_abandonReason d = Some self_review_ambiguous).
Proof.
  destruct s as [n mx cost sr prev rej lvl]. cbv zeta. unfold decideNextActionWithReason. simpl.
  destruct rej; simpl; [policy_cases |].
  destruct sr as [| codes | why]; simpl; [destruct lvl as [[] |]; simpl; policy_cases | | policy_cases].
  destruct (ngeb n mx); simpl; [policy_cases |].
  case_bool_decide as Hc; simpl; [policy_cases |].
  destruct prev as [previous |]; simpl.
  - setoid_rewrite <- blockerSetsEqual_iff.
    destruct (blockerSetsEqual codes previous) eqn:E; simpl; policy_cases.
    by destruct (H3 previous eq_refl).
  - policy_cases.
Qed.
