(* ===== verification/AttemptMeter.v ===== *)
(** * Attempt metering

    Models [packages/loopover-engine/src/miner/attempt-metering.ts]: the
    accumulation of a coding-agent attempt's usage on four axes and the
    evaluation of the running totals against the configured ceilings.

    Main results: the meter accepts exactly the finite, nonnegative usage and
    its totals never decrease; an axis is reported breached exactly when its
    total is at or above its ceiling; a breach, once reported, is reported for
    every longer run of the same attempt; on integer usage below 2^53 the totals
    are the exact sums. *)

From stdpp Require Import base list strings option sets.
From Stdlib Require Import QArith Lqa.
From S2P Require Import Prelude JsNumber JsString Ledger.

Local Open Scope nat_scope.
Local Open Scope string_scope.
Local Open Scope js_scope.

(** ** Data *)

Record AttemptUsage := mkUsage {
  u_tokens : num;
  u_turns : num;
  u_wallClockMs : num;
  u_costUsd : num;
}.

Definition AttemptMeterTotals : Type := AttemptUsage.

Record AttemptBudget := mkBudget {
  maxTokens : option num;
  maxTurns : option num;
  maxWallClockMs : option num;
  maxCostUsd : option num;
}.

Inductive AttemptBudgetAxis := axis_tokens | axis_turns | axis_wallClockMs | axis_costUsd.

#[global] Instance AttemptBudgetAxis_eq_dec : EqDecision AttemptBudgetAxis.
Proof. solve_decision. Defined.

Definition axis_to_string (a : AttemptBudgetAxis) : string :=
  match a with
  | axis_tokens => "tokens"
  | axis_turns => "turns"
  | axis_wallClockMs => "wallClockMs"
  | axis_costUsd => "costUsd"
  end.

Record AttemptMeterVerdict := mkVerdict {
  v_totals : AttemptMeterTotals;
  withinBudget : bool;
  breaches : list AttemptBudgetAxis;
}.

Definition ZERO_USAGE : AttemptUsage := mkUsage (nz 0) (nz 0) (nz 0) (nz 0).

(** ** Operations *)

Definition assertNonNegativeFiniteNumber (name : string) (value : num) : completion unit :=
  if negb (is_finite value) || nltb value (nz 0)
  then Thrown (name ++ " must be a finite, non-negative number")
  else Normal tt.

Definition assertAttemptUsage (name : string) (usage : AttemptUsage) : completion unit :=
  _ <- assertNonNegativeFiniteNumber (name ++ ".tokens") (u_tokens usage) ;;
  _ <- assertNonNegativeFiniteNumber (name ++ ".turns") (u_turns usage) ;;
  _ <- assertNonNegativeFiniteNumber (name ++ ".wallClockMs") (u_wallClockMs usage) ;;
  assertNonNegativeFiniteNumber (name ++ ".costUsd") (u_costUsd usage).

(** [if (value !== undefined) assertNonNegativeFiniteNumber(name, value)]. *)
Definition assert_optional (name : string) (value : option num) : completion unit :=
  match value with
  | Some v => assertNonNegativeFiniteNumber name v
  | None => Normal tt
  end.

Definition assertAttemptBudget (budget : AttemptBudget) : completion unit :=
  _ <- assert_optional "budget.maxTokens" (maxTokens budget) ;;
  _ <- assert_optional "budget.maxTurns" (maxTurns budget) ;;
  _ <- assert_optional "budget.maxWallClockMs" (maxWallClockMs budget) ;;
  assert_optional "budget.maxCostUsd" (maxCostUsd budget).

Definition accumulateAttemptUsage (total : AttemptMeterTotals) (next : AttemptUsage)
    : completion AttemptMeterTotals :=
  _ <- assertAttemptUsage "total" total ;;
  _ <- assertAttemptUsage "next" next ;;
  Normal (mkUsage (nadd (u_tokens total) (u_tokens next)) (nadd (u_turns total) (u_turns next))
            (nadd (u_wallClockMs total) (u_wallClockMs next)) (nadd (u_costUsd total) (u_costUsd next))).

(** [increments.reduce(accumulateAttemptUsage, total)]. *)
Fixpoint reduce_usage (total : AttemptMeterTotals) (increments : list AttemptUsage)
    : completion AttemptMeterTotals :=
  match increments with
  | [] => Normal total
  | u :: us => t <- accumulateAttemptUsage total u ;; reduce_usage t us
  end.

Definition meterAttemptUsage (increments : list AttemptUsage) : completion AttemptMeterTotals :=
  reduce_usage ZERO_USAGE increments.

(** [if (max !== undefined && total >= max) breaches.push(axis)]. *)
Definition breach_of (max : option num) (total : num) (axis : AttemptBudgetAxis) : list AttemptBudgetAxis :=
  match max with
  | Some m => if ngeb total m then [axis] else []
  | None => []
  end.

Definition evaluateAttemptBudget (totals : AttemptMeterTotals) (budget : AttemptBudget)
    : completion AttemptMeterVerdict :=
  _ <- assertAttemptUsage "totals" totals ;;
  _ <- assertAttemptBudget budget ;;
  let bs := (breach_of (maxTokens budget) (u_tokens totals) axis_tokens
            ++ breach_of (maxTurns budget) (u_turns totals) axis_turns
            ++ breach_of (maxWallClockMs budget) (u_wallClockMs totals) axis_wallClockMs
            ++ breach_of (maxCostUsd budget) (u_costUsd totals) axis_costUsd)%list in
  Normal (mkVerdict totals (Nat.eqb (List.length bs) 0) bs).

(** ** Well-formed usage *)

(** The value and the ceiling of one axis. *)
Definition axis_total (a : AttemptBudgetAxis) (u : AttemptUsage) : num :=
  match a with
  | axis_tokens => u_tokens u
  | axis_turns => u_turns u
  | axis_wallClockMs => u_wallClockMs u
  | axis_costUsd => u_costUsd u
  end.

Definition axis_ceiling (a : AttemptBudgetAxis) (b : AttemptBudget) : option num :=
  match a with
  | axis_tokens => maxTokens b
  | axis_turns => maxTurns b
  | axis_wallClockMs => maxWallClockMs b
  | axis_costUsd => maxCostUsd b
  end.

Definition usage_value_ok (x : num) : bool := is_finite x && nleb (nz 0) x.

Definition usage_ok (u : AttemptUsage) : Prop := forall a, usage_value_ok (axis_total a u) = true.

Definition budget_ok (b : AttemptBudget) : Prop :=
  forall a c, axis_ceiling a b = Some c -> usage_value_ok c = true.

(** What [accumulateAttemptUsage] returns when it accepts its arguments. *)
Definition usage_sum (t u : AttemptUsage) : AttemptUsage :=
  mkUsage (nadd (u_tokens t) (u_tokens u)) (nadd (u_turns t) (u_turns u))
    (nadd (u_wallClockMs t) (u_wallClockMs u)) (nadd (u_costUsd t) (u_costUsd u)).

Lemma axis_total_sum a t u : axis_total a (usage_sum t u) = nadd (axis_total a t) (axis_total a u).
Proof. by destruct a. Qed.

Lemma assert_number name x :
  assertNonNegativeFiniteNumber name x = Normal tt <-> usage_value_ok x = true.
Proof.
  unfold assertNonNegativeFiniteNumber, usage_value_ok. destruct x as [| | | q]; simpl; try naive_solver.
  rewrite (nleb_total (Fin q) (nz 0)) by reflexivity.
  destruct (nleb (nz 0) (Fin q)); simpl; naive_solver.
Qed.

Lemma assert_number_throws name x :
  usage_value_ok x = false -> exists m, assertNonNegativeFiniteNumber name x = Thrown m.
Proof.
  intros H. destruct (assertNonNegativeFiniteNumber name x) as [[] | m] eqn:E; [| eauto].
  apply assert_number in E. congruence.
Qed.

Lemma cbind_unit (c k : completion unit) : cbind c (fun _ => k) = Normal tt <-> c = Normal tt /\ k = Normal tt.
Proof. destruct c as [[] |]; simpl; naive_solver. Qed.

Lemma assert_usage name u : assertAttemptUsage name u = Normal tt <-> usage_ok u.
Proof.
  unfold assertAttemptUsage. rewrite !cbind_unit, !assert_number. split.
  - intros (H1 & H2 & H3 & H4) []; assumption.
  - intros H. repeat split; [apply (H axis_tokens) | apply (H axis_turns) | apply (H axis_wallClockMs) | apply (H axis_costUsd)].
Qed.

Lemma assert_optional_ok name o :
  assert_optional name o = Normal tt <-> (forall c, o = Some c -> usage_value_ok c = true).
Proof.
  destruct o as [c |]; simpl; [rewrite assert_number |]; split; try naive_solver.
Qed.

Lemma assert_budget b : assertAttemptBudget b = Normal tt <-> budget_ok b.
Proof.
  unfold assertAttemptBudget. rewrite !cbind_unit, !assert_optional_ok. split.
  - intros (H1 & H2 & H3 & H4) []; assumption.
  - intros H. repeat split; [apply (H axis_tokens) | apply (H axis_turns) | apply (H axis_wallClockMs) | apply (H axis_costUsd)].
Qed.

Lemma completion_cases {A} (c : completion A) : (exists a, c = Normal a) \/ (exists m, c = Thrown m).
Proof. destruct c; eauto. Qed.

Lemma cbind_assert {A} (c : completion unit) (k : completion A) r :
  cbind c (fun _ => k) = Normal r <-> c = Normal tt /\ k = Normal r.
Proof. destruct c as [[] |]; simpl; naive_solver. Qed.

Lemma accumulate_iff t u r :
  accumulateAttemptUsage t u = Normal r <-> usage_ok t /\ usage_ok u /\ r = usage_sum t u.
Proof.
  unfold accumulateAttemptUsage. rewrite !cbind_assert, !assert_usage.
  unfold usage_sum. naive_solver.
Qed.

Lemma breach_in max total axis a :
  a ∈ breach_of max total axis <-> a = axis /\ exists c, max = Some c /\ ngeb total c = true.
Proof.
  unfold breach_of. destruct max as [c |]; [destruct (ngeb total c) eqn:E |];
    rewrite ?list_elem_of_singleton, ?elem_of_nil.
  - split; [eauto | by intros [-> _]].
  - split; [done | intros (_ & c' & [= <-] & H); congruence].
  - split; [done | by intros (_ & c' & [=] & _)].
Qed.

Lemma evaluate_iff t b v :
  evaluateAttemptBudget t b = Normal v <->
  usage_ok t /\ budget_ok b /\ v_totals v = t
  /\ withinBudget v = bool_decide (breaches v = [])
  /\ breaches v = (breach_of (maxTokens b) (u_tokens t) axis_tokens
        ++ breach_of (maxTurns b) (u_turns t) axis_turns
        ++ breach_of (maxWallClockMs b) (u_wallClockMs t) axis_wallClockMs
        ++ breach_of (maxCostUsd b) (u_costUsd t) axis_costUsd)%list.
Proof.
  unfold evaluateAttemptBudget. rewrite !cbind_assert, assert_usage, assert_budget.
  set (bs := (_ ++ _)%list). assert (Hb : Nat.eqb (List.length bs) 0 = bool_decide (bs = [])).
  { destruct bs; reflexivity. }
  rewrite Hb. destruct v as [t' w bs']; simpl. split.
  - intros (H1 & H2 & [= <- <- <-]). auto.
  - intros (H1 & H2 & -> & -> & ->). auto.
Qed.

Lemma evaluate_breach t b v a :
  evaluateAttemptBudget t b = Normal v ->
  (a ∈ breaches v <-> exists c, axis_ceiling a b = Some c /\ ngeb (axis_total a t) c = true).
Proof.
  intros H. apply evaluate_iff in H as (_ & _ & _ & _ & ->).
  rewrite !elem_of_app, !breach_in. destruct a; simpl; naive_solver.
Qed.

(** ** Totals along a run *)

Definition usage_double (u : AttemptUsage) : Prop := forall a, is_double (axis_total a u) = true.

Lemma accumulate_grows t u r a : usage_double t -> accumulateAttemptUsage t u = Normal r ->
  nleb (axis_total a t) (axis_total a r) = true /\ usage_double r.
Proof.
  intros Hd H. apply accumulate_iff in H as (Ht & Hu & ->). split.
  - rewrite axis_total_sum. specialize (Ht a). specialize (Hu a).
    apply andb_true_iff in Ht as [Ht _]. apply andb_true_iff in Hu as [_ Hu]. by apply nadd_ge_left.
  - intros a'. rewrite axis_total_sum. apply nadd_double.
Qed.

Lemma reduce_grows us : forall t r a, usage_double t -> is_nan (axis_total a t) = false ->
  reduce_usage t us = Normal r -> nleb (axis_total a t) (axis_total a r) = true.
Proof.
  induction us as [| u us IH]; simpl; intros t r a Hd Hn H.
  - injection H as <-. by apply nleb_refl.
  - apply cbind_normal in H as (t1 & H1 & H). destruct (accumulate_grows t u t1 a Hd H1) as [Hle Hd1].
    apply nleb_trans with (1 := Hle). apply (IH t1 r a Hd1); [| exact H].
    destruct (axis_total a t1); try reflexivity. by destruct (axis_total a t).
Qed.

Lemma reduce_app us vs : forall t, reduce_usage t (us ++ vs)%list = (r <- reduce_usage t us ;; reduce_usage r vs).
Proof.
  induction us as [| u us IH]; intros t; simpl; [reflexivity |].
  destruct (accumulateAttemptUsage t u); simpl; [apply IH | reflexivity].
Qed.

Lemma reduce_double us : forall t r, usage_double t -> reduce_usage t us = Normal r -> usage_double r.
Proof.
  induction us as [| u us IH]; simpl; intros t r Hd H; [by injection H as <- |].
  apply cbind_normal in H as (t1 & H1 & H). apply (IH t1 r); [| exact H].
  by destruct (accumulate_grows t u t1 axis_tokens Hd H1).
Qed.

Lemma zero_double : usage_double ZERO_USAGE.
Proof. intros []; reflexivity. Qed.

Lemma reduce_ok us : forall t r, reduce_usage t us = Normal r -> Forall usage_ok us.
Proof.
  induction us as [| u us IH]; simpl; intros t r H; [constructor |].
  apply cbind_normal in H as (t1 & H1 & H). apply accumulate_iff in H1 as (_ & Hu & _).
  constructor; eauto.
Qed.

(** ** Theorems *)

(** Budget evaluation is exact and sticky.  For a run of usage the meter
    accepts, an axis is reported breached exactly when its ceiling is set and
    its total has reached it (equality included), the verdict is "within budget"
    exactly when nothing is breached, and after any further accepted usage every
    axis that was breached still is. *)
Theorem attempt_budget_exact_and_sticky us vs budget totals totals' v v' :
  meterAttemptUsage us = Normal totals ->
  meterAttemptUsage (us ++ vs)%list = Normal totals' ->
  evaluateAttemptBudget totals budget = Normal v ->
  evaluateAttemptBudget totals' budget = Normal v' ->
  (forall a, a ∈ breaches v <-> exists c, axis_ceiling a budget = Some c /\ ngeb (axis_total a totals) c = true)
  /\ (withinBudget v = true <-> breaches v = [])
  /\ (forall a, a ∈ breaches v -> a ∈ breaches v').
Proof.
  unfold meterAttemptUsage. intros H H' Hv Hv'. split; [intros a; by apply evaluate_breach |]. split.
  { apply evaluate_iff in Hv as (_ & _ & _ & -> & _). by rewrite bool_decide_eq_true. }
  intros a Ha. apply (evaluate_breach _ _ _ a Hv) in Ha as (c & Hc & Hge).
  apply (evaluate_breach _ _ _ a Hv'). exists c. split; [assumption |].
  rewrite reduce_app, H in H'. simpl in H'. apply nleb_trans with (1 := Hge).
  apply (reduce_grows vs totals totals' a); [by eapply reduce_double; [apply zero_double |] | | exact H'].
  apply evaluate_iff in Hv as (Hok & _). specialize (Hok a). apply andb_true_iff in Hok as [Hf _].
  by apply finite_not_nan.
Qed.

Lemma attempt_budget_exact_and_sticky_witness :
  axis_turns ∈ [axis_turns; axis_costUsd].
Proof.
  pose (u := mkUsage (nz 100) (nz 2) (nz 50) (nz 1)). pose (b := mkBudget None (Some (nz 2)) None (Some (nz 2))).
  apply (proj2 (proj2 (attempt_budget_exact_and_sticky [u] [u] b
    (mkUsage (nz 100) (nz 2) (nz 50) (nz 1)) (mkUsage (nz 200) (nz 4) (nz 100) (nz 2))
    (mkVerdict (mkUsage (nz 100) (nz 2) (nz 50) (nz 1)) false [axis_turns])
    (mkVerdict (mkUsage (nz 200) (nz 4) (nz 100) (nz 2)) false [axis_turns; axis_costUsd])
    ltac:(vm_compute; reflexivity) ltac:(vm_compute; reflexivity) ltac:(vm_compute; reflexivity)
    ltac:(vm_compute; reflexivity)))).
  set_solver.
Defined.

(** *** Exact totals on integer usage *)

(** Usage with integer values, as reported by the drivers for turns and tokens. *)
Definition int_usage (z : Z * Z * Z * Z) : AttemptUsage :=
  let '(a, b, c, d) := z in mkUsage (nz a) (nz b) (nz c) (nz d).

Definition zsum (f : Z * Z * Z * Z -> Z) (zs : list (Z * Z * Z * Z)) : Z := foldr (fun z s => (f z + s)%Z) 0%Z zs.

Definition zq_tokens (z : Z * Z * Z * Z) : Z := let '(a, _, _, _) := z in a.
Definition zq_turns (z : Z * Z * Z * Z) : Z := let '(_, b, _, _) := z in b.
Definition zq_wall (z : Z * Z * Z * Z) : Z := let '(_, _, c, _) := z in c.
Definition zq_cost (z : Z * Z * Z * Z) : Z := let '(_, _, _, d) := z in d.

Definition zq_nonneg (z : Z * Z * Z * Z) : Prop :=
  (0 <= zq_tokens z /\ 0 <= zq_turns z /\ 0 <= zq_wall z /\ 0 <= zq_cost z)%Z.

Definition zq_small (zs : list (Z * Z * Z * Z)) : Prop :=
  (zsum zq_tokens zs <= 2 ^ 53 /\ zsum zq_turns zs <= 2 ^ 53 /\ zsum zq_wall zs <= 2 ^ 53 /\ zsum zq_cost zs <= 2 ^ 53)%Z.

Lemma int_usage_ok z : zq_nonneg z -> usage_ok (int_usage z).
Proof.
  destruct z as [[[a b] c] d]. unfold zq_nonneg; simpl. intros H ax. unfold usage_value_ok.
  destruct ax; simpl; rewrite nz_leb; apply Z.leb_le; lia.
Qed.

Lemma zsum_nonneg f zs : Forall (fun z => 0 <= f z)%Z zs -> (0 <= zsum f zs)%Z.
Proof. induction 1; simpl; lia. Qed.

Lemma zq_sums_nonneg zs : Forall zq_nonneg zs ->
  (0 <= zsum zq_tokens zs /\ 0 <= zsum zq_turns zs /\ 0 <= zsum zq_wall zs /\ 0 <= zsum zq_cost zs)%Z.
Proof.
  intros H. repeat split; apply zsum_nonneg; eapply List.Forall_impl; try exact H; unfold zq_nonneg; cbv beta; intros; lia.
Qed.

Lemma reduce_int zs : forall a b c d,
  (0 <= a /\ 0 <= b /\ 0 <= c /\ 0 <= d)%Z -> Forall zq_nonneg zs ->
  (a + zsum zq_tokens zs <= 2 ^ 53 /\ b + zsum zq_turns zs <= 2 ^ 53
   /\ c + zsum zq_wall zs <= 2 ^ 53 /\ d + zsum zq_cost zs <= 2 ^ 53)%Z ->
  reduce_usage (int_usage (a, b, c, d)) (List.map int_usage zs)
  = Normal (int_usage (a + zsum zq_tokens zs, b + zsum zq_turns zs, c + zsum zq_wall zs, d + zsum zq_cost zs)%Z).
Proof.
  induction zs as [| [[[x y] z] w] zs IH]; intros a b c d Hp Hzs Hs.
  - simpl. by rewrite !Z.add_0_r.
  - apply List.Forall_cons_iff in Hzs as [Hz Hzs]. pose proof (zq_sums_nonneg zs Hzs) as Hn.
    unfold zq_nonneg in Hz. simpl in Hz, Hs.
    assert (E : accumulateAttemptUsage (int_usage (a, b, c, d)) (int_usage (x, y, z, w))
      = Normal (int_usage (a + x, b + y, c + z, d + w)%Z)).
    { apply accumulate_iff. split; [apply int_usage_ok; unfold zq_nonneg; simpl; lia |].
      split; [apply int_usage_ok; unfold zq_nonneg; simpl; lia |].
      unfold usage_sum, int_usage; cbn [u_tokens u_turns u_wallClockMs u_costUsd].
      rewrite !nz_add by lia. reflexivity. }
    cbn [List.map reduce_usage]. rewrite E. cbn [cbind]. rewrite IH; [| lia | assumption | lia].
    cbn [zsum foldr zq_tokens zq_turns zq_wall zq_cost]. rewrite !Z.add_assoc. reflexivity.
Qed.

(** Metering is exact addition on integer usage: when every increment is
    nonnegative and the true totals stay within 2^53, the meter accepts the run
    and its totals are the exact sums, axis by axis. *)
Theorem meterAttemptUsage_exact zs :
  Forall zq_nonneg zs -> zq_small zs ->
  meterAttemptUsage (List.map int_usage zs)
  = Normal (mkUsage (nz (zsum zq_tokens zs)) (nz (zsum zq_turns zs)) (nz (zsum zq_wall zs)) (nz (zsum zq_cost zs))).
Proof.
  intros H Hs. unfold meterAttemptUsage, zq_small in *.
  change ZERO_USAGE with (int_usage (0, 0, 0, 0)%Z).
  rewrite (reduce_int zs 0 0 0 0); [reflexivity | lia | assumption | lia].
Qed.

Lemma meterAttemptUsage_exact_witness :
  meterAttemptUsage (List.map int_usage [(10, 1, 5, 0); (20, 2, 7, 1)]%Z)
  = Normal (mkUsage (nz 30) (nz 3) (nz 12) (nz 1)).
Proof.
  apply (meterAttemptUsage_exact [(10, 1, 5, 0); (20, 2, 7, 1)]%Z).
  - repeat constructor; simpl; lia.
  - unfold zq_small; simpl; lia.
Defined.
