(* ===== verification/IterateLoop.v ===== *)
(** * The iterate loop

    Models [miner/iterate-loop.ts]: invoke the driver, self-review the diff,
    consult the policy, until the attempt is handed off or abandoned.

    What the loop is given from outside (kill-switch probe, clock, driver, slop
    assessment, log sink) answers per iteration and may throw; the answers are
    fields of [IterateLoopDeps].  A run returns its completion and the trace of
    the outside calls in order.  The iteration counter is a natural number: it
    is exact for the doubles up to 2^53.

    Main results: the loop always ends within the iteration ceiling, through a
    decision (its fallback is unreachable); a handoff is always earned by a
    genuine passing review, inside the budget, with nothing vetoing it; no driver
    call happens without live mode and a negative kill-switch probe; the log has
    one decision row per iteration, and every row is accepted; the loop completes
    on well-behaved clocks and usage, and an unreadable clock loses the decision
    of the iteration. *)

From stdpp Require Import base list strings option sets.
From Stdlib Require Import QArith Qround.
From S2P Require Import Prelude JsNumber JsString Ledger GateAdvisory SelfReview CodingAgent IteratePolicy AttemptMeter.

Local Open Scope nat_scope.
Local Open Scope string_scope.
Local Open Scope js_scope.

(** ** Data *)

Inductive IterateLoopShouldAbort :=
| abort_flag (b : bool)
| abort_object (abort : bool) (reason : option string).

Inductive IterateLoopOutcome := out_handoff | out_abandon.

Record IterateLoopIterationRecord := mkIterRecord {
  ir_iterationNumber : nat;
  ir_driverResult : CodingAgentDriverResult;
  ir_decision : IterateLoopDecision;
}.

Record IterateLoopCoreResult := mkCore {
  cr_outcome : IterateLoopOutcome;
  cr_finalDecision : IterateLoopDecision;
  cr_iterationsUsed : nat;
  cr_totalTurnsUsed : num;
  cr_totalCostUsd : num;
  cr_iterations : list IterateLoopIterationRecord;
  cr_handoffPacket : option HandoffPacket;
}.

Record IterateLoopResult := mkLoopResult {
  lr_core : IterateLoopCoreResult;
  lr_finalMeterTotals : AttemptMeterTotals;
  lr_budgetBreaches : list AttemptBudgetAxis;
}.

Record MeterTracker := mkTracker {
  mt_totals : AttemptMeterTotals;
  mt_breaches : list AttemptBudgetAxis;
}.

Definition ZERO_METER_TOTALS : AttemptMeterTotals := mkUsage (nz 0) (nz 0) (nz 0) (nz 0).

Section Loop.
Context {RepoContext : Type}.
Context (buildPredictedGateVerdict : PredictedGateInput -> RepoContext -> list string -> completion PredictedGateVerdict).

Record IterateLoopInput := mkLoopInput {
  in_attemptId : string;
  in_workingDirectory : string;
  in_acceptanceCriteriaPath : string;
  in_instructions : string;
  in_mode : CodingAgentExecutionMode;
  in_maxIterations : num;
  in_maxTurnsPerIteration : num;
  in_budget : option AttemptBudget;
  in_repoFullName : string;
  in_contributorLogin : string;
  in_title : string;
  in_body : option string;
  in_labels : option (list string);
  in_linkedIssues : option (list Z);
  in_authorAssociation : option string;
  in_branchRef : option string;
  in_reviewContext : SelfReviewContext RepoContext;
  in_rejectionSignaled : bool;
  in_autonomyLevel : option AutonomyLevel;
}.

(** The first argument is the iteration; the clock is read twice in each,
    before ([false]) and after ([true]) the driver.  [append] answers for the
    start row with iteration 0. *)
Record IterateLoopDeps := mkDeps {
  dep_driver : nat -> CodingAgentDriverTask -> completion CodingAgentDriverResult;
  dep_runSlopAssessment : nat -> SelfReviewSlopInput -> completion SelfReviewSlopAssessment;
  dep_append : nat -> AttemptLogEvent -> completion unit;
  dep_nowMs : nat -> bool -> num;
  dep_shouldAbort : option (nat -> completion IterateLoopShouldAbort);
}.

(** Outside calls. *)
Inductive loop_call :=
| LProbe (i : nat)
| LDriver (i : nat) (task : CodingAgentDriverTask)
| LReview (i : nat) (diff : AttemptDiffState)
| LLog (event : AttemptLogEvent) (stored : bool).

Variable input : IterateLoopInput.
Variable deps : IterateLoopDeps.

Definition buildAttemptDiffState (driverResult : CodingAgentDriverResult) : AttemptDiffState :=
  mkDiff (in_repoFullName input) (in_contributorLogin input) (in_title input) (in_body input) (in_labels input)
    (in_linkedIssues input) (in_authorAssociation input)
    (List.map (fun path => mkChangedFile path None None) (r_changedFiles driverResult)) None None None.

Definition evaluateSelfReviewOutcome (i : nat) (driverResult : CodingAgentDriverResult)
    : SelfReviewOutcome * option SelfReviewVerdict * list loop_call :=
  if negb (r_ok driverResult) then
    (sr_ambiguous (Some ("driver run did not complete successfully" ++ colon_or_dot (r_error driverResult))), None, [])
  else
    let diff := buildAttemptDiffState driverResult in
    match runSelfReview buildPredictedGateVerdict diff (in_reviewContext input) (dep_runSlopAssessment deps i) with
    | Normal verdict => (deriveSelfReviewOutcome verdict, Some verdict, [LReview i diff])
    | Thrown m => (sr_ambiguous (Some ("self_review_error: " ++ m)), None, [LReview i diff])
    end.

(** The sink's failure is swallowed; only the trace knows of it. *)
Definition safeAppendAttemptLogEvent (i : nat) (event : AttemptLogEvent) : list loop_call :=
  [LLog event (match dep_append deps i event with Normal _ => true | Thrown _ => false end)].

Definition lift_invoke (i : nat) (c : InvokeCall) : list loop_call :=
  match c with
  | CallDriver task => [LDriver i task]
  | CallAppend event => safeAppendAttemptLogEvent i event
  end.

Definition runDriverSafely (i : nat) (task : CodingAgentDriverTask)
    : completion CodingAgentDriverResult * list loop_call :=
  if negb (codingAgentModeExecutes (in_mode input)) then
    let '(c, calls) := invokeCodingAgentDriver (dep_driver deps i) (Some (fun _ _ => Normal tt)) (in_mode input) task in
    (c, List.concat (List.map (lift_invoke i) calls))
  else match dep_driver deps i task with
       | Normal r => (Normal r, [LDriver i task])
       | Thrown m => (Normal (bare_result false [] "" None (Some ("driver_threw: " ++ m))), [LDriver i task])
       end.

Definition attemptLogEventTypeForDecision (decision : IterateLoopDecision) : AttemptLogEventType :=
  match d_action decision with
  | act_continue => attempt_tool_edit
  | act_handoff => attempt_succeeded
  | act_abandon =>
      if bool_decide (d_abandonReason decision = Some rejection_signaled)
         || bool_decide (d_abandonReason decision = Some self_review_ambiguous)
         || bool_decide (d_abandonReason decision = Some kill_switch_engaged)
      then attempt_aborted else attempt_failed
  end.

Definition DEFAULT_ABORT_REASON : string :=
  "Kill-switch engaged mid-attempt; abandoning without starting another driver iteration.".

Definition resolveShouldAbort (i : nat) : completion (bool * string) :=
  match dep_shouldAbort deps with
  | None => Normal (false, "")
  | Some probe =>
      raw <- probe i ;;
      Normal (match raw with
              | abort_flag b => (b, if b then DEFAULT_ABORT_REASON else "")
              | abort_object true reason =>
                  (true, match reason with
                         | Some r => if str_empty (trim r) then DEFAULT_ABORT_REASON else trim r
                         | None => DEFAULT_ABORT_REASON
                         end)
              | abort_object false _ => (false, "")
              end)
  end.

(** The trace of the probe: no call when none is injected. *)
Definition probe_call (i : nat) : list loop_call :=
  match dep_shouldAbort deps with Some _ => [LProbe i] | None => [] end.

Definition loop_row (t : AttemptLogEventType) (reason : string) (payload : list (string * jsval)) : AttemptLogEvent :=
  log_row t (in_attemptId input) "iterate_loop" (in_mode input) reason payload.

Definition decision_row (iterationNumber : nat) (decision : IterateLoopDecision) (budgetBreaches : list AttemptBudgetAxis)
    : AttemptLogEvent :=
  loop_row (attemptLogEventTypeForDecision decision) (d_reason decision)
    (("iterationNumber", JNum (nnat iterationNumber)) :: ("action", JStr (action_to_string (d_action decision)))
     :: (match d_abandonReason decision with
         | Some why => [("abandonReason", JStr (abandon_to_string why))]
         | None => []
         end
         ++ match budgetBreaches with
            | [] => []
            | _ => [("budgetBreaches", JArr (List.map (fun a => JStr (axis_to_string a)) budgetBreaches))]
            end))%list.

Definition logDecision (iterationNumber : nat) (decision : IterateLoopDecision) (budgetBreaches : list AttemptBudgetAxis)
    : list loop_call :=
  safeAppendAttemptLogEvent iterationNumber (decision_row iterationNumber decision budgetBreaches).

Definition finiteNonNegativeUsage (value : option num) : num :=
  match value with
  | Some v => if is_finite v && ngeb v (nz 0) then v else nz 0
  | None => nz 0
  end.

Definition blockerCodesFromContinuingOutcome (outcome : SelfReviewOutcome) : list string :=
  match outcome with sr_fail codes => codes | _ => [] end.

Definition buildHandoffPacket (verdict : SelfReviewVerdict) (driverResult : CodingAgentDriverResult) : HandoffPacket :=
  mkPacket (in_workingDirectory input) (in_branchRef input) (r_summary driverResult) verdict (in_attemptId input)
    (Some (r_changedFiles driverResult)).

Definition no_iterations_decision : IterateLoopDecision :=
  abandon_with max_iterations_reached
    ("maxIterations (" ++ num_to_string (in_maxIterations input)
     ++ ") permits no iterations; abandoning without invoking the driver.").

Definition immediateAbandonNoIterationsPermitted : IterateLoopCoreResult * list loop_call :=
  (mkCore out_abandon no_iterations_decision 0 (nz 0) (nz 0) [] None,
   safeAppendAttemptLogEvent 0 (loop_row attempt_aborted (d_reason no_iterations_decision)
     [("iterationNumber", JNum (nnat 0)); ("action", JStr "abandon");
      ("abandonReason", JStr (abandon_to_string max_iterations_reached))])).

(** ** One iteration *)

(** The mutable variables of the loop. *)
Record LoopState := mkLoop {
  ls_previousBlockerCodes : option (list string);
  ls_totalTurnsUsed : num;
  ls_totalCostUsd : num;
  ls_tracker : MeterTracker;
  ls_iterations : list IterateLoopIterationRecord;
  ls_trace : list loop_call;
}.

Inductive StepResult :=
| Next (st : LoopState)
| Return (r : IterateLoopCoreResult) (st : LoopState)
| Raise (msg : string) (st : LoopState).

Definition with_trace (st : LoopState) (calls : list loop_call) : LoopState :=
  mkLoop (ls_previousBlockerCodes st) (ls_totalTurnsUsed st) (ls_totalCostUsd st) (ls_tracker st) (ls_iterations st)
    (ls_trace st ++ calls)%list.

Definition loop_task : CodingAgentDriverTask :=
  mkTask (in_attemptId input) (in_workingDirectory input) (in_acceptanceCriteriaPath input) (in_instructions input)
    (in_maxTurnsPerIteration input).

Definition result_of (outcome : IterateLoopOutcome) (decision : IterateLoopDecision) (used : nat) (st : LoopState)
    (packet : option HandoffPacket) : IterateLoopCoreResult :=
  mkCore outcome decision used (ls_totalTurnsUsed st) (ls_totalCostUsd st) (ls_iterations st) packet.

Definition budget_decision (breached : list AttemptBudgetAxis) (i : nat) : IterateLoopDecision :=
  abandon_with cost_ceiling_reached
    ("Reached the attempt's budget ceiling (" ++ join ", " (List.map axis_to_string breached) ++ ") on iteration "
     ++ num_to_string (nnat i) ++ "; abandoning regardless of this iteration's own result.").

(** From the self-review to the end of the iteration. *)
Definition review_and_decide (maxIterations : num) (i : nat) (driverResult : CodingAgentDriverResult) (st : LoopState)
    : StepResult :=
  let '(selfReview, verdict, calls) := evaluateSelfReviewOutcome i driverResult in
  let decision := decideNextActionWithReason
    (mkIteration (nnat i) maxIterations None selfReview (ls_previousBlockerCodes st) (in_rejectionSignaled input)
       (in_autonomyLevel input)) in
  let st' := mkLoop (ls_previousBlockerCodes st) (ls_totalTurnsUsed st) (ls_totalCostUsd st) (ls_tracker st)
    (ls_iterations st ++ [mkIterRecord i driverResult decision])%list
    (ls_trace st ++ calls ++ logDecision i decision [])%list in
  match d_action decision with
  | act_handoff => Return (result_of out_handoff decision i st' ((fun v => buildHandoffPacket v driverResult) <$> verdict)) st'
  | act_abandon => Return (result_of out_abandon decision i st' None) st'
  | act_continue =>
      Next (mkLoop (Some (blockerCodesFromContinuingOutcome selfReview)) (ls_totalTurnsUsed st') (ls_totalCostUsd st')
              (ls_tracker st') (ls_iterations st') (ls_trace st'))
  end.

(** From the driver's result: metering, the hard budget stop, then the review. *)
Definition meter_and_continue (maxIterations : num) (i : nat) (driverResult : CodingAgentDriverResult) (st : LoopState)
    : StepResult :=
  let iterationElapsedMs := nmax (nz 0) (nsub (dep_nowMs deps i true) (dep_nowMs deps i false)) in
  let st1 := mkLoop (ls_previousBlockerCodes st)
    (nadd (ls_totalTurnsUsed st) (finiteNonNegativeUsage (r_turnsUsed driverResult)))
    (nadd (ls_totalCostUsd st) (finiteNonNegativeUsage (r_costUsd driverResult)))
    (ls_tracker st) (ls_iterations st) (ls_trace st) in
  match accumulateAttemptUsage (mt_totals (ls_tracker st))
          (mkUsage (finiteNonNegativeUsage (r_tokensUsed driverResult)) (finiteNonNegativeUsage (r_turnsUsed driverResult))
             iterationElapsedMs (finiteNonNegativeUsage (r_costUsd driverResult))) with
  | Thrown m => Raise m st1
  | Normal totals =>
      let metered := fun bs => mkLoop (ls_previousBlockerCodes st1) (ls_totalTurnsUsed st1) (ls_totalCostUsd st1)
                       (mkTracker totals bs) (ls_iterations st1) (ls_trace st1) in
      match in_budget input with
      | None => review_and_decide maxIterations i driverResult (metered [])
      | Some budget =>
          match evaluateAttemptBudget totals budget with
          | Thrown m => Raise m (metered (mt_breaches (ls_tracker st)))
          | Normal verdict =>
              let st2 := metered (breaches verdict) in
              if withinBudget verdict then review_and_decide maxIterations i driverResult st2
              else
                let decision := budget_decision (breaches verdict) i in
                let st3 := mkLoop (ls_previousBlockerCodes st2) (ls_totalTurnsUsed st2) (ls_totalCostUsd st2) (ls_tracker st2)
                  (ls_iterations st2 ++ [mkIterRecord i driverResult decision])%list
                  (ls_trace st2 ++ logDecision i decision (breaches verdict))%list in
                Return (result_of out_abandon decision i st3 None) st3
          end
      end
  end.

Definition kill_decision (reason : string) : IterateLoopDecision := abandon_with kill_switch_engaged reason.

(** The body of the [for] loop at iteration [i]. *)
Definition loop_body (maxIterations : num) (i : nat) (st : LoopState) : StepResult :=
  match resolveShouldAbort i with
  | Thrown m => Raise m (with_trace st (probe_call i))
  | Normal (true, reason) =>
      let decision := kill_decision reason in
      let st' := with_trace st (probe_call i ++ safeAppendAttemptLogEvent i
        (loop_row (attemptLogEventTypeForDecision decision) reason
           [("iterationNumber", JNum (nnat (i - 1))); ("action", JStr "abandon");
            ("abandonReason", JStr (abandon_to_string kill_switch_engaged))]))%list in
      Return (result_of out_abandon decision (i - 1) st' None) st'
  | Normal (false, _) =>
      let '(c, calls) := runDriverSafely i loop_task in
      let st' := with_trace st (probe_call i ++ calls)%list in
      match c with
      | Thrown m => Raise m st'
      | Normal driverResult => meter_and_continue maxIterations i driverResult st'
      end
  end.

Definition fallbackDecision : IterateLoopDecision :=
  abandon_with max_iterations_reached "Iterate loop exhausted its iteration budget.".

(** [fuel] iterations are left, the next one is [i]. *)
Fixpoint loop_from (maxIterations : num) (fuel i : nat) (st : LoopState) : completion IterateLoopCoreResult * LoopState :=
  match fuel with
  | O => (Normal (result_of out_abandon fallbackDecision (i - 1) st None), st)
  | S fuel' =>
      match loop_body maxIterations i st with
      | Next st' => loop_from maxIterations fuel' (S i) st'
      | Return r st' => (Normal r, st')
      | Raise m st' => (Thrown m, st')
      end
  end.

Definition nat_of_num (x : num) : nat := match x with Fin q => Z.to_nat (Qfloor q) | _ => 0 end.

Definition start_row (maxIterations : num) : AttemptLogEvent :=
  loop_row attempt_started "iterate_loop_started"
    [("maxIterations", JNum maxIterations); ("maxTurnsPerIteration", JNum (in_maxTurnsPerIteration input))].

Definition initial_state (maxIterations : num) (tracker : MeterTracker) : LoopState :=
  mkLoop None (nz 0) (nz 0) tracker [] (safeAppendAttemptLogEvent 0 (start_row maxIterations)).

Definition loop_ceiling : num := nmax (nz 0) (ntrunc (in_maxIterations input)).

Definition runIterateLoopCore (tracker : MeterTracker) : completion IterateLoopCoreResult * MeterTracker * list loop_call :=
  let maxIterations := loop_ceiling in
  if negb (is_finite maxIterations) || nleb maxIterations (nz 0) then
    let '(r, calls) := immediateAbandonNoIterationsPermitted in (Normal r, tracker, calls)
  else
    let '(c, st) := loop_from maxIterations (nat_of_num maxIterations) 1 (initial_state maxIterations tracker) in
    (c, ls_tracker st, ls_trace st).

Definition runIterateLoop : completion IterateLoopResult * list loop_call :=
  let '(c, tracker, calls) := runIterateLoopCore (mkTracker ZERO_METER_TOTALS []) in
  (core <- c ;; Normal (mkLoopResult core (mt_totals tracker) (mt_breaches tracker)), calls).
End Loop.
Arguments IterateLoopInput : clear implicits.

(** ** Structure of a run *)

Section Runs.
Context {RepoContext : Type}.
Context (predict : PredictedGateInput -> RepoContext -> list string -> completion PredictedGateVerdict).
Context (input : IterateLoopInput RepoContext) (deps : IterateLoopDeps).

Notation body := (loop_body predict input deps).
Notation review := (review_and_decide predict input deps).
Notation task := (loop_task input).

Lemma decide_continue s : d_action (decideNextActionWithReason s) = act_continue ->
  is_rejectionSignaled s = false
  /\ exists codes, is_selfReview s = sr_fail codes /\ ngeb (is_iterationNumber s) (is_maxIterations s) = false.
Proof.
  unfold decideNextActionWithReason. destruct (is_rejectionSignaled s); [discriminate |].
  destruct (is_selfReview s) as [| codes | why]; [destruct (_ ?? auto_level)%js; discriminate | | discriminate].
  destruct (ngeb _ _); [discriminate |]. intros _. eauto.
Qed.

Lemma decide_handoff s : d_action (decideNextActionWithReason s) = act_handoff ->
  is_rejectionSignaled s = false /\ is_selfReview s = sr_pass /\ is_autonomyLevel s <> Some observe.
Proof.
  unfold decideNextActionWithReason. destruct (is_rejectionSignaled s); [discriminate |].
  destruct (is_selfReview s) as [| codes | why]; [| | discriminate].
  - destruct (is_autonomyLevel s) as [[] |]; simpl; try discriminate; auto.
  - destruct (ngeb _ _); [discriminate |]. destruct (bool_decide _); [discriminate |].
    destruct (match is_previousBlockerCodes s with Some _ => _ | None => _ end); discriminate.
Qed.

Lemma driver_safely_total i : exists r calls, runDriverSafely input deps i task = (Normal r, calls).
Proof.
  unfold runDriverSafely. destruct (codingAgentModeExecutes (in_mode input)) eqn:E; simpl.
  - destruct (dep_driver deps i task); eauto.
  - unfold invokeCodingAgentDriver, append_row. destruct (in_mode input); simpl; eauto. discriminate.
Qed.

(** The usage of iteration [i] with driver result [r], as it is metered. *)
Definition iteration_usage (i : nat) (r : CodingAgentDriverResult) : AttemptUsage :=
  mkUsage (finiteNonNegativeUsage (r_tokensUsed r)) (finiteNonNegativeUsage (r_turnsUsed r))
    (nmax (nz 0) (nsub (dep_nowMs deps i true) (dep_nowMs deps i false))) (finiteNonNegativeUsage (r_costUsd r)).

(** The state after metering: totals and breached axes [bs], calls [calls]. *)
Definition metered_state (i : nat) (r : CodingAgentDriverResult) (calls : list loop_call) (st : LoopState)
    (totals : AttemptMeterTotals) (bs : list AttemptBudgetAxis) : LoopState :=
  mkLoop (ls_previousBlockerCodes st)
    (nadd (ls_totalTurnsUsed st) (finiteNonNegativeUsage (r_turnsUsed r)))
    (nadd (ls_totalCostUsd st) (finiteNonNegativeUsage (r_costUsd r)))
    (mkTracker totals bs) (ls_iterations st) (ls_trace st ++ probe_call deps i ++ calls)%list.

(** The budget allows the iteration's result to be reviewed. *)
Definition budget_allows (totals : AttemptMeterTotals) (bs : list AttemptBudgetAxis) : Prop :=
  match in_budget input with
  | None => bs = []
  | Some b => exists v, evaluateAttemptBudget totals b = Normal v /\ withinBudget v = true /\ bs = breaches v
  end.

(** The ways an iteration can go. *)
Inductive iteration (mx : num) (i : nat) (st : LoopState) : StepResult -> Prop :=
| it_probe_throws m :
    resolveShouldAbort deps i = Thrown m -> iteration mx i st (Raise m (with_trace st (probe_call deps i)))
| it_killed reason st' :
    resolveShouldAbort deps i = Normal (true, reason) ->
    st' = with_trace st (probe_call deps i ++ safeAppendAttemptLogEvent deps i
        (loop_row input attempt_aborted reason
           [("iterationNumber", JNum (nnat (i - 1))); ("action", JStr "abandon");
            ("abandonReason", JStr (abandon_to_string kill_switch_engaged))]))%list ->
    iteration mx i st (Return (result_of out_abandon (kill_decision reason) (i - 1) st' None) st')
| it_meter_throws reason r calls m st' :
    resolveShouldAbort deps i = Normal (false, reason) -> runDriverSafely input deps i task = (Normal r, calls) ->
    ls_trace st' = (ls_trace st ++ probe_call deps i ++ calls)%list -> ls_iterations st' = ls_iterations st ->
    ((exists e, accumulateAttemptUsage (mt_totals (ls_tracker st)) (iteration_usage i r) = Thrown e)
     \/ (exists totals b e, accumulateAttemptUsage (mt_totals (ls_tracker st)) (iteration_usage i r) = Normal totals
           /\ in_budget input = Some b /\ evaluateAttemptBudget totals b = Thrown e)) ->
    iteration mx i st (Raise m st')
| it_over_budget reason r calls totals b v st' :
    resolveShouldAbort deps i = Normal (false, reason) -> runDriverSafely input deps i task = (Normal r, calls) ->
    accumulateAttemptUsage (mt_totals (ls_tracker st)) (iteration_usage i r) = Normal totals ->
    in_budget input = Some b -> evaluateAttemptBudget totals b = Normal v -> withinBudget v = false ->
    st' = mkLoop (ls_previousBlockerCodes st) (ls_totalTurnsUsed (metered_state i r calls st totals (breaches v)))
      (ls_totalCostUsd (metered_state i r calls st totals (breaches v))) (mkTracker totals (breaches v))
      (ls_iterations st ++ [mkIterRecord i r (budget_decision (breaches v) i)])%list
      ((ls_trace st ++ probe_call deps i ++ calls) ++ logDecision input deps i (budget_decision (breaches v) i) (breaches v))%list ->
    iteration mx i st (Return (result_of out_abandon (budget_decision (breaches v) i) i st' None) st')
| it_reviewed reason r calls totals bs :
    resolveShouldAbort deps i = Normal (false, reason) -> runDriverSafely input deps i task = (Normal r, calls) ->
    accumulateAttemptUsage (mt_totals (ls_tracker st)) (iteration_usage i r) = Normal totals ->
    budget_allows totals bs ->
    iteration mx i st (review mx i r (metered_state i r calls st totals bs)).

Lemma loop_body_iteration mx i st : iteration mx i st (body mx i st).
Proof.
  unfold loop_body. destruct (resolveShouldAbort deps i) as [[[] reason] | m] eqn:R.
  - by apply it_killed.
  - destruct (driver_safely_total i) as (r & calls & D). rewrite D. unfold meter_and_continue. cbv zeta.
    fold (iteration_usage i r). cbn [ls_tracker with_trace].
    destruct (accumulateAttemptUsage (mt_totals (ls_tracker st)) (iteration_usage i r)) as [totals | e] eqn:A.
    + destruct (in_budget input) as [b |] eqn:B.
      * destruct (evaluateAttemptBudget totals b) as [v | e] eqn:V.
        -- destruct (withinBudget v) eqn:W.
           ++ apply (it_reviewed mx i st reason r calls totals (breaches v)); auto.
              unfold budget_allows. rewrite B. eauto.
           ++ by eapply it_over_budget.
        -- eapply it_meter_throws; eauto 10.
      * apply (it_reviewed mx i st reason r calls totals []); auto. unfold budget_allows. by rewrite B.
    + eapply it_meter_throws; eauto 10.
  - by apply it_probe_throws.
Qed.

Lemma review_next mx i r st st' : review mx i r st = Next st' -> ngeb (nnat i) mx = false.
Proof.
  unfold review_and_decide. destruct (evaluateSelfReviewOutcome _ _ _ _ _) as [[sr v] calls].
  destruct (d_action _) eqn:E; try discriminate. intros _. apply decide_continue in E as (_ & codes & _ & H). exact H.
Qed.

Lemma body_next mx i st st' : body mx i st = Next st' -> ngeb (nnat i) mx = false.
Proof.
  intros H. pose proof (loop_body_iteration mx i st) as V. rewrite H in V.
  inversion V as [| | | | reason r calls totals bs R D A B E]; subst; try discriminate.
  by eapply review_next.
Qed.

(** Induction over the iterations.  The last permitted one never asks for
    another, so the fallback after the loop is not a case. *)
Lemma loop_from_ind (I : nat -> LoopState -> Prop) (Q : completion IterateLoopCoreResult -> LoopState -> Prop) (n : nat) :
  (forall i st, 1 <= i <= n -> I i st ->
     match body (nnat n) i st with
     | Next st' => i < n -> I (S i) st'
     | Return r st' => Q (Normal r) st'
     | Raise m st' => Q (Thrown m) st'
     end) ->
  forall fuel i st, 1 <= i -> 1 <= fuel -> i + fuel = S n -> I i st ->
  forall c st', loop_from predict input deps (nnat n) fuel i st = (c, st') -> Q c st'.
Proof.
  intros Hstep. induction fuel as [| fuel IH]; intros i st Hi Hf He HI c st' H; [lia |].
  simpl in H. specialize (Hstep i st ltac:(lia) HI).
  destruct (body (nnat n) i st) as [s | r s | m s] eqn:B; [| by injection H as <- <- | by injection H as <- <-].
  apply body_next in B. unfold nnat in B. rewrite nz_geb, Z.leb_gt in B.
  apply (IH (S i) s); [lia | lia | lia | apply Hstep; lia | exact H].
Qed.

Lemma ceiling_cases :
  (negb (is_finite (loop_ceiling input)) || nleb (loop_ceiling input) (nz 0) = true)
  \/ exists n, 1 <= n /\ loop_ceiling input = nnat n
       /\ negb (is_finite (loop_ceiling input)) || nleb (loop_ceiling input) (nz 0) = false.
Proof.
  unfold loop_ceiling.
  assert (Hz : (exists z, ntrunc (in_maxIterations input) = nz z) \/ is_finite (ntrunc (in_maxIterations input)) = false).
  { destruct (in_maxIterations input) as [| | | q]; simpl; auto. destruct (Qle_bool 0 q); eauto. }
  destruct Hz as [[z ->] | Hf].
  - rewrite nz_max, nz_finite, nz_leb. simpl.
    destruct (Z.leb_spec (Z.max 0 z) 0) as [L | L]; [by left | right].
    exists (Z.to_nat (Z.max 0 z)). split; [lia |]. split; [| reflexivity]. unfold nnat. f_equal. lia.
  - left. destruct (ntrunc (in_maxIterations input)); try discriminate; reflexivity.
Qed.

Lemma nat_of_nnat n : nat_of_num (nnat n) = n.
Proof. unfold nat_of_num, nnat, nz. rewrite Qfloor_Z. lia. Qed.

(** A run either permits no iteration or is a loop over [1..n]. *)
Lemma run_cases :
  (exists calls, runIterateLoop predict input deps
     = (Normal (mkLoopResult (mkCore out_abandon (no_iterations_decision input) 0 (nz 0) (nz 0) [] None) ZERO_METER_TOTALS []), calls)
     /\ calls = (immediateAbandonNoIterationsPermitted input deps).2)
  \/ (exists n c st, 1 <= n /\ loop_ceiling input = nnat n
       /\ loop_from predict input deps (nnat n) n 1 (initial_state input deps (nnat n) (mkTracker ZERO_METER_TOTALS [])) = (c, st)
       /\ runIterateLoop predict input deps
          = ((core <- c ;; Normal (mkLoopResult core (mt_totals (ls_tracker st)) (mt_breaches (ls_tracker st)))), ls_trace st)).
Proof.
  unfold runIterateLoop, runIterateLoopCore. cbv zeta. destruct ceiling_cases as [E | (n & Hn & C & E)]; rewrite E.
  - left. eexists. split; reflexivity.
  - right. rewrite C, nat_of_nnat.
    destruct (loop_from predict input deps (nnat n) n 1 _) as [c st] eqn:L. exists n, c, st. auto.
Qed.

(** Induction over a whole run. *)
Lemma run_ind (I : nat -> nat -> LoopState -> Prop) (Q : completion IterateLoopCoreResult -> LoopState -> Prop) n c st :
  1 <= n ->
  loop_from predict input deps (nnat n) n 1 (initial_state input deps (nnat n) (mkTracker ZERO_METER_TOTALS [])) = (c, st) ->
  I n 1 (initial_state input deps (nnat n) (mkTracker ZERO_METER_TOTALS [])) ->
  (forall i st, 1 <= i <= n -> I n i st ->
     match body (nnat n) i st with
     | Next st' => i < n -> I n (S i) st'
     | Return r st' => Q (Normal r) st'
     | Raise m st' => Q (Thrown m) st'
     end) ->
  Q c st.
Proof.
  intros Hn L H0 Hstep. eapply (loop_from_ind (I n) Q n Hstep n 1); [lia | lia | lia | exact H0 | exact L].
Qed.
End Runs.

(** ** Theorems *)

(** The driver calls of a trace. *)
Definition driver_runs (calls : list loop_call) : list (nat * CodingAgentDriverTask) :=
  omap (fun c => match c with LDriver i t => Some (i, t) | _ => None end) calls.

(** The rows the loop itself writes (the driver boundary writes [codegen] rows). *)
Definition loop_rows (calls : list loop_call) : list AttemptLogEvent :=
  omap (fun c => match c with LLog e _ => if String.eqb (le_actionClass e) "iterate_loop" then Some e else None | _ => None end) calls.

Lemma driver_runs_app l1 l2 : driver_runs (l1 ++ l2)%list = (driver_runs l1 ++ driver_runs l2)%list.
Proof. apply omap_app. Qed.

Lemma loop_rows_app l1 l2 : loop_rows (l1 ++ l2)%list = (loop_rows l1 ++ loop_rows l2)%list.
Proof. apply omap_app. Qed.

Section Theorems.
Context {RepoContext : Type}.
Context (predict : PredictedGateInput -> RepoContext -> list string -> completion PredictedGateVerdict).
Context (input : IterateLoopInput RepoContext) (deps : IterateLoopDeps).

Notation run := (runIterateLoop predict input deps).
Notation is_live := (bool_decide (in_mode input = ca_live)).
Notation task := (loop_task input).

Lemma probe_no_driver i : driver_runs (probe_call deps i) = [] /\ loop_rows (probe_call deps i) = [].
Proof. unfold probe_call. by destruct (dep_shouldAbort deps). Qed.

Lemma log_no_driver i e : driver_runs (safeAppendAttemptLogEvent deps i e) = [].
Proof. reflexivity. Qed.

Lemma driver_safely_trace i r calls : runDriverSafely input deps i task = (Normal r, calls) ->
  driver_runs calls = (if is_live then [(i, task)] else []) /\ loop_rows calls = [].
Proof.
  unfold runDriverSafely, codingAgentModeExecutes. case_bool_decide as L; simpl.
  - destruct (dep_driver deps i task); intros [= <- <-]; split; reflexivity.
  - unfold invokeCodingAgentDriver, append_row. destruct (in_mode input) eqn:M; simpl; [| | congruence];
      intros [= <- <-]; split; reflexivity.
Qed.

Lemma review_trace i r sr v calls : evaluateSelfReviewOutcome predict input deps i r = (sr, v, calls) ->
  driver_runs calls = [] /\ loop_rows calls = [].
Proof.
  unfold evaluateSelfReviewOutcome. destruct (negb (r_ok r)); [by intros [= <- <- <-] |]. cbv zeta.
  destruct (runSelfReview _ _ _ _); intros [= <- <- <-]; split; reflexivity.
Qed.

(** The driver calls of the first [n] iterations. *)
Definition runs_upto (n : nat) : list (nat * CodingAgentDriverTask) :=
  if is_live then List.map (fun i => (i, task)) (seq 1 n) else [].

Lemma runs_upto_S i : 1 <= i -> (runs_upto (i - 1) ++ (if is_live then [(i, task)] else []))%list = runs_upto i.
Proof.
  intros Hi. unfold runs_upto. destruct is_live; [| reflexivity].
  replace i with (S (i - 1)) at 2 by lia. replace i with (S (i - 1)) at 3 by lia. rewrite seq_S, map_app. simpl.
  do 3 f_equal; lia.
Qed.

Definition probe_clear (i : nat) : Prop := exists reason, resolveShouldAbort deps i = Normal (false, reason).

(** The driver calls and records of the iterations before [i]. *)
Definition governed_before (i : nat) (st : LoopState) : Prop :=
  driver_runs (ls_trace st) = runs_upto (i - 1)
  /\ List.map ir_iterationNumber (ls_iterations st) = seq 1 (i - 1) /\ (forall k, 1 <= k < i -> probe_clear k).

(** [k] iterations called the driver. *)
Definition governed_total (k : nat) (c : completion IterateLoopCoreResult) (st : LoopState) : Prop :=
  driver_runs (ls_trace st) = runs_upto k /\ (forall i, 1 <= i <= k -> probe_clear i)
  /\ (forall r, c = Normal r -> cr_iterationsUsed r = k /\ List.map ir_iterationNumber (cr_iterations r) = seq 1 k).

Lemma seq_snoc i : 1 <= i -> (seq 1 (i - 1) ++ [i])%list = seq 1 i.
Proof.
  intros Hi. replace (seq 1 i) with (seq 1 (S (i - 1))) by (f_equal; lia). rewrite seq_S. do 2 f_equal; lia.
Qed.

Lemma probe_clear_upto i : probe_clear i -> (forall k, 1 <= k < i -> probe_clear k) -> forall k, 1 <= k <= i -> probe_clear k.
Proof. intros Hc Hp k Hk. destruct (decide (k = i)) as [-> | N]; [assumption | apply Hp; lia]. Qed.

(** The trace after the driver of iteration [i] returned. *)
Lemma runs_after_driver i r calls trace : 1 <= i -> driver_runs trace = runs_upto (i - 1) ->
  runDriverSafely input deps i task = (Normal r, calls) ->
  driver_runs (trace ++ probe_call deps i ++ calls)%list = runs_upto i.
Proof.
  intros Hi Hd D. rewrite !driver_runs_app, (proj1 (probe_no_driver i)), (proj1 (driver_safely_trace _ _ _ D)), Hd.
  exact (runs_upto_S i Hi).
Qed.

Lemma governed_review n i r calls totals bs st reason : 1 <= i -> governed_before i st ->
  resolveShouldAbort deps i = Normal (false, reason) -> runDriverSafely input deps i task = (Normal r, calls) ->
  match review_and_decide predict input deps (nnat n) i r (metered_state deps i r calls st totals bs) with
  | Next st' => governed_before (S i) st'
  | Return res st' => governed_total i (Normal res) st'
  | Raise m st' => governed_total i (Thrown m) st'
  end.
Proof.
  intros Hi (Hd & Hs & Hp) R D. unfold review_and_decide.
  destruct (evaluateSelfReviewOutcome predict input deps i r) as [[sr v] rc] eqn:Ev.
  destruct (review_trace _ _ _ _ _ Ev) as [Hrc _]. cbv zeta.
  set (dec := decideNextActionWithReason _).
  assert (Hd' : driver_runs ((ls_trace st ++ probe_call deps i ++ calls) ++ rc ++ logDecision input deps i dec [])%list = runs_upto i).
  { rewrite driver_runs_app, (runs_after_driver i r calls _ Hi Hd D), driver_runs_app, Hrc. apply app_nil_r. }
  assert (Hp' : forall k, 1 <= k <= i -> probe_clear k) by (apply probe_clear_upto; [by exists reason | exact Hp]).
  assert (Hs' : List.map ir_iterationNumber (ls_iterations st ++ [mkIterRecord i r dec])%list = seq 1 i).
  { rewrite map_app, Hs. exact (seq_snoc i Hi). }
  destruct (d_action dec); [split; [| split] | split; [| split] | split; [| split]].
  - rewrite Nat.sub_succ, Nat.sub_0_r. exact Hd'.
  - rewrite Nat.sub_succ, Nat.sub_0_r. exact Hs'.
  - intros k Hk. apply Hp'. lia.
  - exact Hd'.
  - exact Hp'.
  - intros r0 [= <-]. split; [reflexivity | exact Hs'].
  - exact Hd'.
  - exact Hp'.
  - intros r0 [= <-]. split; [reflexivity | exact Hs'].
Qed.

Lemma governed_step n i st : 1 <= i <= n -> governed_before i st ->
  match loop_body predict input deps (nnat n) i st with
  | Next st' => governed_before (S i) st'
  | Return res st' => exists k, k <= n /\ governed_total k (Normal res) st'
  | Raise m st' => exists k, k <= n /\ governed_total k (Thrown m) st'
  end.
Proof.
  intros Hi HI. pose proof HI as (Hd & Hs & Hp).
  pose proof (loop_body_iteration predict input deps (nnat n) i st) as V.
  inversion V as [m R E | reason st' R Est E | reason r calls m st' R D T It W E
    | reason r calls totals b v st' R D A B EV W Est E | reason r calls totals bs R D A B E].
  - exists (i - 1). split; [lia |]. split; [| split; [intros k Hk; apply Hp; lia | discriminate]].
    cbn [ls_trace with_trace]. by rewrite driver_runs_app, (proj1 (probe_no_driver i)), app_nil_r.
  - exists (i - 1). subst st'. split; [lia |]. split; [| split; [intros k Hk; apply Hp; lia | intros r [= <-]; by split]].
    cbn [ls_trace with_trace]. by rewrite !driver_runs_app, (proj1 (probe_no_driver i)), log_no_driver, !app_nil_r.
  - exists i. split; [lia |]. split; [rewrite T; exact (runs_after_driver i r calls _ (proj1 Hi) Hd D) |].
    split; [apply probe_clear_upto; [by exists reason | exact Hp] | discriminate].
  - exists i. subst st'. split; [lia |]. split; [| split; [apply probe_clear_upto; [by exists reason | exact Hp] |]].
    + cbn [ls_trace]. rewrite driver_runs_app, (runs_after_driver i r calls _ (proj1 Hi) Hd D). apply app_nil_r.
    + intros r0 [= <-]. split; [reflexivity |]. cbn [result_of cr_iterations ls_iterations].
      rewrite map_app, Hs. exact (seq_snoc i (proj1 Hi)).
  - pose proof (governed_review n i r calls totals bs st reason (proj1 Hi) HI R D) as G.
    destruct (review_and_decide _ _ _ _ _ _ _); [exact G | exists i; split; [lia | exact G].. ].
Qed.

(** Nothing runs the agent without permission.  In every run the driver calls
    are those of iterations 1 to [n], once each and all with the attempt's task,
    when the mode is live, and there are none in any other mode; [n] is at most
    the iteration ceiling; the kill-switch probe was clear in each of these
    iterations; and a run that returns reports [n] as the iterations used,
    with one record per iteration. *)
Theorem driver_calls_governed :
  exists n,
    (n = 0 \/ nleb (nnat n) (loop_ceiling input) = true)
    /\ driver_runs run.2 = (if is_live then List.map (fun i => (i, task)) (seq 1 n) else [])
    /\ (forall i, 1 <= i <= n -> probe_clear i)
    /\ (forall r, run.1 = Normal r ->
          cr_iterationsUsed (lr_core r) = n
          /\ List.map ir_iterationNumber (cr_iterations (lr_core r)) = seq 1 n).
Proof.
  destruct (run_cases predict input deps) as [(calls & -> & ->) | (n & c & st & Hn & C & L & ->)].
  { exists 0. split; [by left |]. split; [by destruct is_live |]. split; [lia |]. intros r [= <-]. split; reflexivity. }
  assert (H : exists k, k <= n /\ governed_total k c st).
  { apply (run_ind predict input deps (fun _ => governed_before) (fun c st => exists k, k <= n /\ governed_total k c st) n c st Hn L).
    - split; [unfold runs_upto; by destruct is_live |]. split; [reflexivity | lia].
    - intros i s Hi HI. pose proof (governed_step n i s Hi HI) as G.
      destruct (loop_body _ _ _ _ _ _); [intros _; exact G | exact G | exact G]. }
  destruct H as (k & Hk & Hd & Hp & Hr). exists k. split.
  { right. rewrite C. unfold nnat. rewrite nz_leb. apply Z.leb_le. lia. }
  split; [exact Hd |]. split; [exact Hp |]. intros r Hc. simpl in Hc.
  apply cbind_normal in Hc as (core & -> & [= <-]). by apply Hr.
Qed.

(** *** Handoffs *)

(** What authorizes a handoff: a completed driver run whose diff a genuine
    self-review passed. *)
Definition earned (r : IterateLoopCoreResult) (res : CodingAgentDriverResult) (v : SelfReviewVerdict) : Prop :=
  cr_handoffPacket r = Some (buildHandoffPacket input v res)
  /\ r_ok res = true
  /\ (exists slop, runSelfReview predict (buildAttemptDiffState input res) (in_reviewContext input) slop = Normal v)
  /\ pv_conclusion (predictedGateVerdict v) = gc_success
  /\ in_rejectionSignaled input = false
  /\ in_autonomyLevel input <> Some observe.

(** The final totals are inside every configured ceiling. *)
Definition within_all_ceilings (tracker : MeterTracker) : Prop :=
  mt_breaches tracker = []
  /\ match in_budget input with
     | None => True
     | Some b => exists bv, evaluateAttemptBudget (mt_totals tracker) b = Normal bv /\ withinBudget bv = true
     end.

Lemma budget_allows_within totals bs : budget_allows input totals bs -> within_all_ceilings (mkTracker totals bs).
Proof.
  unfold budget_allows, within_all_ceilings. simpl. destruct (in_budget input) as [b |]; [| by intros ->].
  intros (v & Hv & Hw & ->). split; [| eauto]. pose proof Hv as Hv'. apply evaluate_iff in Hv' as (_ & _ & _ & W & _).
  rewrite Hw in W. symmetry in W. by apply bool_decide_eq_true in W.
Qed.

Lemma review_handoff n i r st res st' :
  review_and_decide predict input deps n i r st = Return res st' ->
  match cr_outcome res with
  | out_handoff => exists v, earned res r v /\ d_action (cr_finalDecision res) = act_handoff /\ ls_tracker st' = ls_tracker st
  | out_abandon => cr_handoffPacket res = None /\ d_action (cr_finalDecision res) = act_abandon
  end.
Proof.
  unfold review_and_decide. destruct (evaluateSelfReviewOutcome predict input deps i r) as [[sr v] rc] eqn:Ev. cbv zeta.
  destruct (d_action _) eqn:Act; [discriminate | |].
  - intros [= <- <-]. simpl. pose proof Act as Act'. apply decide_handoff in Act' as (Hrej & Hsr & Hlvl). simpl in *. subst sr.
    unfold evaluateSelfReviewOutcome in Ev. destruct (r_ok r) eqn:Ok; simpl in Ev; [| discriminate].
    destruct (runSelfReview predict _ _ _) as [vd | m] eqn:Rev; [| discriminate]. injection Ev as Hout <- <-.
    exists vd. split; [| split; [exact Act | reflexivity]]. split; [reflexivity |]. split; [exact Ok |]. split; [by eexists |].
    split; [| auto]. apply (runSelfReview_passes _ _ _ _ _ Rev). unfold deriveSelfReviewOutcome in Hout.
    by destruct (passesPredictedGate vd).
  - intros [= <- <-]. by split.
Qed.

(** *** The decision trail *)

(** What a row and a decision say: its class in the log and its reason. *)
Definition row_says (e : AttemptLogEvent) : AttemptLogEventType * string := (le_eventType e, le_reason e).
Definition decision_says (d : IterateLoopDecision) : AttemptLogEventType * string :=
  (attemptLogEventTypeForDecision d, d_reason d).
Definition STARTED : AttemptLogEventType * string := (attempt_started, "iterate_loop_started").

Definition trail (calls : list loop_call) : list (AttemptLogEventType * string) := List.map row_says (loop_rows calls).
Definition recorded (its : list IterateLoopIterationRecord) : list (AttemptLogEventType * string) :=
  List.map (fun it => decision_says (ir_decision it)) its.

Lemma trail_app l1 l2 : trail (l1 ++ l2)%list = (trail l1 ++ trail l2)%list.
Proof. unfold trail. by rewrite loop_rows_app, map_app. Qed.

Lemma trail_driver i r calls : runDriverSafely input deps i task = (Normal r, calls) -> trail (probe_call deps i ++ calls)%list = [].
Proof.
  intros D. rewrite trail_app. unfold trail.
  by rewrite (proj2 (probe_no_driver i)), (proj2 (driver_safely_trace _ _ _ D)).
Qed.

Definition trail_upto (st : LoopState) : Prop := trail (ls_trace st) = STARTED :: recorded (ls_iterations st).

(** The trail of a finished run: every record's decision, in order, then the
    kill decision when that is what ended the run; it ends with the final one. *)
Definition trail_complete (res : IterateLoopCoreResult) (calls : list loop_call) : Prop :=
  exists decisions, trail calls = STARTED :: List.map decision_says decisions
    /\ (decisions = List.map ir_decision (cr_iterations res)
        \/ (decisions = List.map ir_decision (cr_iterations res) ++ [cr_finalDecision res]
            /\ d_abandonReason (cr_finalDecision res) = Some kill_switch_engaged))%list
    /\ exists before, decisions = (before ++ [cr_finalDecision res])%list.

Lemma recorded_decisions its : recorded its = List.map decision_says (List.map ir_decision its).
Proof. unfold recorded. by rewrite map_map. Qed.

Lemma trail_step n i st : trail_upto st ->
  match loop_body predict input deps (nnat n) i st with
  | Next st' => trail_upto st'
  | Return res st' => trail_complete res (ls_trace st')
  | Raise m st' => trail_upto st'
  end.
Proof.
  unfold trail_upto. intros Ht. pose proof (loop_body_iteration predict input deps (nnat n) i st) as V.
  inversion V as [m R E | reason st' R Est E | reason r calls m st' R D T It W E
    | reason r calls totals b v st' R D A B EV W Est E | reason r calls totals bs R D A B E].
  - cbn [ls_trace ls_iterations with_trace]. rewrite trail_app, Ht. unfold trail. rewrite (proj2 (probe_no_driver i)). apply app_nil_r.
  - subst st'. exists (List.map ir_decision (ls_iterations st) ++ [kill_decision reason])%list.
    cbn [ls_trace with_trace]. rewrite !trail_app, Ht, recorded_decisions. unfold trail at 1.
    rewrite (proj2 (probe_no_driver i)), map_app. split; [reflexivity |]. split; [right; split; reflexivity | by eexists].
  - rewrite T, It, trail_app, (trail_driver i r calls D), app_nil_r. exact Ht.
  - subst st'. exists (List.map ir_decision (ls_iterations st) ++ [budget_decision (breaches v) i])%list.
    cbn [ls_trace]. rewrite !trail_app, Ht, recorded_decisions, <- trail_app, (trail_driver i r calls D), app_nil_r, map_app.
    split; [reflexivity |]. split; [left; cbn [result_of cr_iterations ls_iterations]; by rewrite map_app | by eexists].
  - unfold review_and_decide. destruct (evaluateSelfReviewOutcome predict input deps i r) as [[sr v] rc] eqn:Ev. cbv zeta.
    set (dec := decideNextActionWithReason _).
    assert (Ht' : trail ((ls_trace st ++ probe_call deps i ++ calls) ++ rc ++ logDecision input deps i dec [])%list
      = STARTED :: recorded (ls_iterations st ++ [mkIterRecord i r dec])%list).
    { rewrite 2!trail_app, Ht, (trail_driver i r calls D), app_nil_r, trail_app. unfold recorded. rewrite map_app.
      unfold trail at 1. rewrite (proj2 (review_trace _ _ _ _ _ Ev)). reflexivity. }
    destruct (d_action dec); [exact Ht' | |];
      (exists (List.map ir_decision (ls_iterations st ++ [mkIterRecord i r dec]))%list;
       split; [rewrite <- recorded_decisions; exact Ht' |]; split; [by left | rewrite map_app; by eexists]).
Qed.

(** The decision trail is complete.  The rows a run writes are its start row
    and then one row per decision taken, in order, with the decision's class and
    reason: those of the iteration records and, if the kill switch ended the
    run, the kill decision.  The last row is the final decision.  A run that
    permits no iteration writes the one row of its final decision. *)
Theorem decision_trail_complete r :
  run.1 = Normal r ->
  trail run.2 = [(attempt_aborted, d_reason (cr_finalDecision (lr_core r)))]
  \/ trail_complete (lr_core r) run.2.
Proof.
  destruct (run_cases predict input deps) as [(calls & -> & ->) | (n & c & st & Hn & C & L & ->)].
  { intros [= <-]. by left. }
  intros Hr. simpl in Hr. apply cbind_normal in Hr as (core & -> & [= <-]). simpl. right.
  pose (Q := fun (c : completion IterateLoopCoreResult) st => forall res, c = Normal res -> trail_complete res (ls_trace st)).
  enough (H : Q (Normal core) st) by exact (H core eq_refl).
  apply (run_ind predict input deps (fun _ _ => trail_upto) Q n _ st Hn L); [reflexivity |].
  intros i s Hi HI. pose proof (trail_step n i s HI) as G.
  destruct (loop_body _ _ _ _ _ _); [intros _; exact G | intros res [= <-]; exact G | intros res [=]].
Qed.
(** *** Rows are accepted *)

Definition nonblank (s : string) : Prop := str_empty (trim s) = false.

Lemma nonblank_head c s : is_space c = false -> nonblank (String c s).
Proof.
  intros H. unfold nonblank, trim. rewrite trim_start_nonspace by assumption.
  destruct (trim_end_head c s H) as [t ->]. reflexivity.
Qed.

Definition call_accepted (c : loop_call) : Prop :=
  match c with
  | LLog e _ => exists n, normalizeAttemptLogEvent (log_value e) = Normal n
  | _ => True
  end.

Ltac nonblank_const := repeat rewrite string_app_cons; apply nonblank_head; reflexivity.

Lemma decide_reason_nonblank s : nonblank (d_reason (decideNextActionWithReason s)).
Proof.
  unfold decideNextActionWithReason, abandon_with.
  destruct (is_rejectionSignaled s); [cbn [d_reason]; nonblank_const |].
  destruct (is_selfReview s) as [| codes | why]; [destruct (_ ?? auto_level)%js; cbn [d_reason]; nonblank_const | | cbn [d_reason]; nonblank_const].
  destruct (ngeb _ _); [cbn [d_reason]; nonblank_const |]. destruct (bool_decide _); [cbn [d_reason]; nonblank_const |].
  destruct (match is_previousBlockerCodes s with Some _ => _ | None => _ end); cbn [d_reason]; nonblank_const.
Qed.

Lemma axis_array_clean bs :
  json_clean (JArr (List.map (fun a => JStr (axis_to_string a)) bs)) = true
  /\ keys_distinct (JArr (List.map (fun a => JStr (axis_to_string a)) bs)) = true.
Proof. split; simpl; induction bs as [| b bs IH]; simpl; auto. Qed.

Context (Hid : nonblank (in_attemptId input)).
Context (Hturns : is_finite (in_maxTurnsPerIteration input) = true).

Lemma loop_row_accepted i t reason p :
  nonblank reason -> json_clean (JObj p) = true -> keys_distinct (JObj p) = true ->
  Forall call_accepted (safeAppendAttemptLogEvent deps i (loop_row input t reason p)).
Proof.
  intros Hr Hc Hk. constructor; [| constructor]. simpl. unfold loop_row.
  destruct (log_row_accepted t (in_attemptId input) "iterate_loop" (in_mode input) reason p) as [json E]; auto. eauto.
Qed.

Lemma decision_accepted i d bs : nonblank (d_reason d) -> Forall call_accepted (logDecision input deps i d bs).
Proof.
  intros Hr. apply loop_row_accepted; [exact Hr | |]; destruct (d_abandonReason d) as [why |], bs as [| b bs];
    try reflexivity; destruct (axis_array_clean (b :: bs)) as [Hc Hk].
  - change (json_clean (JArr (List.map (fun a => JStr (axis_to_string a)) (b :: bs))) && true = true). by rewrite Hc.
  - change (json_clean (JArr (List.map (fun a => JStr (axis_to_string a)) (b :: bs))) && true = true). by rewrite Hc.
  - change (keys_distinct (JArr (List.map (fun a => JStr (axis_to_string a)) (b :: bs))) && true = true). by rewrite Hk.
  - change (keys_distinct (JArr (List.map (fun a => JStr (axis_to_string a)) (b :: bs))) && true = true). by rewrite Hk.
Qed.

Lemma codegen_accepted t m reason p s :
  nonblank reason -> json_clean (JObj p) = true -> keys_distinct (JObj p) = true ->
  call_accepted (LLog (log_row t (in_attemptId input) "codegen" m reason p) s).
Proof.
  intros Hr Hc Hk. simpl.
  destruct (log_row_accepted t (in_attemptId input) "codegen" m reason p) as [json E]; auto. eauto.
Qed.

Lemma driver_accepted i r calls : runDriverSafely input deps i task = (Normal r, calls) -> Forall call_accepted calls.
Proof.
  unfold runDriverSafely, codingAgentModeExecutes. case_bool_decide as Lv; simpl.
  - destruct (dep_driver deps i task); intros [= <- <-]; repeat constructor.
  - unfold invokeCodingAgentDriver, append_row. destruct (in_mode input) eqn:M; simpl; [| | congruence]; intros [= <- <-];
      (constructor; [| constructor]); apply codegen_accepted; try reflexivity.
    cbn [json_clean forallb snd task t_maxTurns]. rewrite Hturns. reflexivity.
Qed.

Lemma probe_accepted i : Forall call_accepted (probe_call deps i).
Proof. unfold probe_call. destruct (dep_shouldAbort deps); repeat constructor. Qed.

Lemma review_accepted i r sr v calls :
  evaluateSelfReviewOutcome predict input deps i r = (sr, v, calls) -> Forall call_accepted calls.
Proof.
  unfold evaluateSelfReviewOutcome. destruct (negb (r_ok r)); [intros [= <- <- <-]; constructor |]. cbv zeta.
  destruct (runSelfReview _ _ _ _); intros [= <- <- <-]; repeat constructor.
Qed.

Lemma abort_reason_nonblank i reason : resolveShouldAbort deps i = Normal (true, reason) -> nonblank reason.
Proof.
  unfold resolveShouldAbort. destruct (dep_shouldAbort deps) as [probe |]; [| discriminate].
  destruct (probe i) as [[[] | [] [s |]] | m]; simpl; try discriminate; intros [= <-]; try reflexivity.
  destruct (str_empty (trim s)) eqn:E; [reflexivity |]. unfold nonblank. by rewrite trim_idem.
Qed.

Lemma accepted_step n i st : Forall call_accepted (ls_trace st) ->
  match loop_body predict input deps (nnat n) i st with
  | Next st' | Return _ st' | Raise _ st' => Forall call_accepted (ls_trace st')
  end.
Proof.
  intros Ht. pose proof (loop_body_iteration predict input deps (nnat n) i st) as V.
  inversion V as [m R E | reason st' R Est E | reason r calls m st' R D T It W E
    | reason r calls totals b v st' R D A B EV W Est E | reason r calls totals bs R D A B E].
  - cbn [ls_trace with_trace]. apply List.Forall_app. split; [exact Ht | apply probe_accepted].
  - subst st'. cbn [ls_trace with_trace]. apply List.Forall_app. split; [exact Ht |].
    apply List.Forall_app. split; [apply probe_accepted |].
    apply loop_row_accepted; [by apply (abort_reason_nonblank i) | reflexivity | reflexivity].
  - rewrite T. repeat (apply List.Forall_app; split); auto using probe_accepted. by apply (driver_accepted i r).
  - subst st'. cbn [ls_trace]. repeat (apply List.Forall_app; split); auto using probe_accepted; [by apply (driver_accepted i r) |].
    apply decision_accepted. cbn [budget_decision abandon_with d_reason]. nonblank_const.
  - unfold review_and_decide. destruct (evaluateSelfReviewOutcome predict input deps i r) as [[sr v] rc] eqn:Ev. cbv zeta.
    assert (H : forall d, nonblank (d_reason d) -> Forall call_accepted
      ((ls_trace st ++ probe_call deps i ++ calls) ++ rc ++ logDecision input deps i d [])%list).
    { intros d Hd. repeat (apply List.Forall_app; split); auto using probe_accepted;
        [by apply (driver_accepted i r) | by apply (review_accepted i r sr v) | by apply decision_accepted]. }
    destruct (d_action _); apply H, decide_reason_nonblank.
Qed.

(** No row of the trail is lost to validation.  With a non-blank attempt id
    and a finite turn limit, every row a run hands to the log, by the loop itself
    or at the driver boundary, is accepted by the attempt log's validation,
    whatever the driver, the review and the probe report. *)
Theorem every_row_is_accepted e stored :
  LLog e stored ∈ (runIterateLoop predict input deps).2 -> exists n, normalizeAttemptLogEvent (log_value e) = Normal n.
Proof.
  intros H. change (call_accepted (LLog e stored)). revert H. rewrite list_elem_of_In. revert e stored.
  enough (F : Forall call_accepted run.2).
  { intros e stored Hin. by apply (proj1 (List.Forall_forall _ _) F). }
  destruct (run_cases predict input deps) as [(calls & -> & ->) | (n & c & st & Hn & C & L & ->)]; simpl snd.
  - apply loop_row_accepted; [| reflexivity | reflexivity].
    cbn [no_iterations_decision abandon_with d_reason]. nonblank_const.
  - apply (run_ind predict input deps (fun _ _ st => Forall call_accepted (ls_trace st))
      (fun _ st => Forall call_accepted (ls_trace st)) n c st Hn L).
    + apply loop_row_accepted; [reflexivity | | reflexivity].
      cbn [json_clean forallb snd]. by rewrite Hturns.
    + intros i s Hi HI. pose proof (accepted_step n i s HI) as G. destruct (loop_body _ _ _ _ _ _); auto.
Qed.
End Theorems.

(** *** Completion *)

Lemma evaluate_total t b : usage_ok t -> budget_ok b -> exists v, evaluateAttemptBudget t b = Normal v.
Proof.
  intros Ht Hb. unfold evaluateAttemptBudget.
  rewrite (proj2 (assert_usage "totals" t) Ht), (proj2 (assert_budget b) Hb). simpl. eauto.
Qed.

Lemma accumulate_int a b c d z : (0 <= a /\ 0 <= b /\ 0 <= c /\ 0 <= d)%Z -> zq_nonneg z ->
  (a + zq_tokens z <= 2 ^ 53 /\ b + zq_turns z <= 2 ^ 53 /\ c + zq_wall z <= 2 ^ 53 /\ d + zq_cost z <= 2 ^ 53)%Z ->
  accumulateAttemptUsage (int_usage (a, b, c, d)) (int_usage z)
  = Normal (int_usage (a + zq_tokens z, b + zq_turns z, c + zq_wall z, d + zq_cost z)%Z).
Proof.
  intros Ha Hz Hs. pose proof (reduce_int [z] a b c d Ha) as H. cbn [zsum foldr List.map reduce_usage] in H.
  rewrite !Z.add_0_r in H. specialize (H ltac:(apply List.Forall_cons; [exact Hz | apply List.Forall_nil]) Hs).
  destruct (accumulateAttemptUsage (int_usage (a, b, c, d)) (int_usage z)); exact H.
Qed.

Section Completion.
Context {RepoContext : Type}.
Context (predict : PredictedGateInput -> RepoContext -> list string -> completion PredictedGateVerdict).
Context (input : IterateLoopInput RepoContext) (deps : IterateLoopDeps).

(** Every iteration's usage is integral and at most [B] on each axis. *)
Definition usage_bounded (B : Z) : Prop :=
  forall i r calls, runDriverSafely input deps i (loop_task input) = (Normal r, calls) ->
  exists z, iteration_usage deps i r = int_usage z
    /\ (0 <= zq_tokens z <= B /\ 0 <= zq_turns z <= B /\ 0 <= zq_wall z <= B /\ 0 <= zq_cost z <= B)%Z.

(** The totals after the iterations before [i]. *)
Definition totals_bounded (B : Z) (i : nat) (st : LoopState) : Prop :=
  exists a b c d, mt_totals (ls_tracker st) = int_usage (a, b, c, d)
    /\ (0 <= a <= Z.of_nat (i - 1) * B /\ 0 <= b <= Z.of_nat (i - 1) * B
        /\ 0 <= c <= Z.of_nat (i - 1) * B /\ 0 <= d <= Z.of_nat (i - 1) * B)%Z.

Lemma meter_step B n i st r calls :
  (0 <= B)%Z -> (Z.of_nat n * B <= 2 ^ 53)%Z -> 1 <= i <= n -> usage_bounded B -> totals_bounded B i st ->
  runDriverSafely input deps i (loop_task input) = (Normal r, calls) ->
  exists a b c d, accumulateAttemptUsage (mt_totals (ls_tracker st)) (iteration_usage deps i r) = Normal (int_usage (a, b, c, d))
    /\ (0 <= a <= Z.of_nat i * B /\ 0 <= b <= Z.of_nat i * B /\ 0 <= c <= Z.of_nat i * B /\ 0 <= d <= Z.of_nat i * B)%Z
    /\ usage_ok (int_usage (a, b, c, d)).
Proof.
  intros HB Hn Hi Hu (a & b & c & d & E & Hb) D. destruct (Hu i r calls D) as (z & Ez & Hz).
  assert (Hle : (Z.of_nat i * B <= Z.of_nat n * B)%Z) by (apply Z.mul_le_mono_nonneg_r; lia).
  assert (Hs : (Z.of_nat i * B = Z.of_nat (i - 1) * B + B)%Z) by (replace (Z.of_nat i) with (Z.of_nat (i - 1) + 1)%Z by lia; ring).
  exists (a + zq_tokens z)%Z, (b + zq_turns z)%Z, (c + zq_wall z)%Z, (d + zq_cost z)%Z.
  rewrite E, Ez. split; [apply accumulate_int; unfold zq_nonneg; lia |]. split; [lia |].
  apply int_usage_ok. unfold zq_nonneg; cbn [zq_tokens zq_turns zq_wall zq_cost]. lia.
Qed.

Lemma review_tracker mx i r st st' :
  match review_and_decide predict input deps mx i r st with
  | Next s => s = st' -> ls_tracker st' = ls_tracker st
  | Return _ _ => True
  | Raise _ _ => False
  end.
Proof.
  unfold review_and_decide. destruct (evaluateSelfReviewOutcome _ _ _ _ _) as [[sr v] rc]. cbv zeta.
  destruct (d_action _); auto. by intros <-.
Qed.

(** C35: the loop completes.  When the kill-switch probe does not throw, the budget
    is well formed and each iteration's usage (clock included) is integral with
    totals that stay within 2^53, every run returns a result, whatever the
    driver, the predictor, the slop assessment and the log sink do. *)
Theorem iterate_loop_completes B :
  (forall i m, resolveShouldAbort deps i <> Thrown m) ->
  (forall b, in_budget input = Some b -> budget_ok b) ->
  (0 <= B)%Z -> (forall n, loop_ceiling input = nnat n -> (Z.of_nat n * B <= 2 ^ 53)%Z) -> usage_bounded B ->
  exists r, (runIterateLoop predict input deps).1 = Normal r.
Proof.
  intros Hp Hbud HB Hn Hu.
  destruct (run_cases predict input deps) as [(calls & -> & _) | (n & c & st & Hn1 & C & L & ->)]; [by eexists |].
  specialize (Hn n C). simpl. enough (H : exists core, c = Normal core) by (destruct H as [core ->]; by eexists).
  apply (run_ind predict input deps (fun _ => totals_bounded B) (fun c _ => exists core, c = Normal core) n c st Hn1 L).
  { exists 0%Z, 0%Z, 0%Z, 0%Z. split; [reflexivity |]. lia. }
  clear c st L. intros i st Hi HI. pose proof (loop_body_iteration predict input deps (nnat n) i st) as V.
  inversion V as [m R E | reason st' R Est E | reason r calls m st' R D T It W E
    | reason r calls totals b v st' R D A Bd EV W Est E | reason r calls totals bs R D A Bd E].
  - by destruct (Hp i m).
  - by eexists.
  - exfalso. destruct (meter_step B n i st r calls HB Hn Hi Hu HI D) as (a & b & c & d & Acc & _ & Ok).
    destruct W as [(e & W) | (totals & bd & e & W & Bd & Ev)]; [rewrite Acc in W; discriminate W |].
    rewrite Acc in W. assert (Et : totals = int_usage (a, b, c, d)) by congruence.
    destruct (evaluate_total _ _ Ok (Hbud bd Bd)) as [v Hv]. rewrite Et, Hv in Ev. discriminate Ev.
  - by eexists.
  - destruct (meter_step B n i st r calls HB Hn Hi Hu HI D) as (a & b & c & d & Acc & Bnd & _).
    pose proof (review_tracker (nnat n) i r (metered_state deps i r calls st totals bs)) as RT.
    destruct (review_and_decide _ _ _ _ _ _ _) as [s | res s | m s]; [| by eexists | by destruct (RT st)].
    intros _. specialize (RT s eq_refl). exists a, b, c, d. rewrite RT. simpl.
    rewrite Acc in A. assert (Et : totals = int_usage (a, b, c, d)) by congruence.
    split; [exact Et |]. replace (i - 0) with i by lia. lia.
Qed.
End Completion.

(** *** Concrete runs *)

Definition toy_predict (_ : PredictedGateInput) (_ : unit) (_ : list string) : completion PredictedGateVerdict :=
  Normal (mkPredicted gc_success "passed" "" None [] []).

Definition toy_input (mode : CodingAgentExecutionMode) (maxIterations : num) : IterateLoopInput unit :=
  mkLoopInput "attempt-1" "/tmp/w" "/tmp/criteria" "fix it" mode maxIterations (nz 5)
    (Some (mkBudget None (Some (nz 20)) None None)) "acme/widgets" "miner" "Fix" None None None None None
    (mkContext tt None) false None.

Definition toy_deps (now : nat -> bool -> num) : IterateLoopDeps :=
  mkDeps (fun _ _ => Normal (bare_result true ["src/a.ts"] "done" (Some (nz 3)) None))
    (fun _ _ => Normal (mkSlop (nz 0) band_clean [])) (fun _ _ => Normal tt) now (Some (fun _ => Normal (abort_flag false))).

Definition toy_clock (i : nat) (after : bool) : num := nz (Z.of_nat (2 * i + (if after then 1 else 0))).

Definition toy_result : IterateLoopResult :=
  match (runIterateLoop toy_predict (toy_input ca_live (nz 2)) (toy_deps toy_clock)).1 with
  | Normal r => r
  | Thrown _ => mkLoopResult (mkCore out_abandon fallbackDecision 0 (nz 0) (nz 0) [] None) ZERO_METER_TOTALS []
  end.


Lemma decision_trail_complete_witness :
  trail (runIterateLoop toy_predict (toy_input ca_live (nz 2)) (toy_deps toy_clock)).2
    = [(attempt_aborted, d_reason (cr_finalDecision (lr_core toy_result)))]
  \/ trail_complete (lr_core toy_result) (runIterateLoop toy_predict (toy_input ca_live (nz 2)) (toy_deps toy_clock)).2.
Proof.
  apply (decision_trail_complete toy_predict (toy_input ca_live (nz 2)) (toy_deps toy_clock) toy_result).
  vm_compute. reflexivity.
Defined.

Lemma every_row_is_accepted_witness :
  exists n, normalizeAttemptLogEvent (log_value (start_row (toy_input ca_live (nz 2)) (nz 2))) = Normal n.
Proof.
  apply (every_row_is_accepted toy_predict (toy_input ca_live (nz 2)) (toy_deps toy_clock) eq_refl eq_refl _ true).
  replace (runIterateLoop toy_predict (toy_input ca_live (nz 2)) (toy_deps toy_clock)).2 with
    (LLog (start_row (toy_input ca_live (nz 2)) (nz 2)) true
      :: tl (runIterateLoop toy_predict (toy_input ca_live (nz 2)) (toy_deps toy_clock)).2) by (vm_compute; reflexivity).
  apply list_elem_of_here.
Defined.

Lemma iterate_loop_completes_witness :
  exists r, (runIterateLoop toy_predict (toy_input ca_live (nz 2)) (toy_deps toy_clock)).1 = Normal r.
Proof.
  apply (iterate_loop_completes toy_predict (toy_input ca_live (nz 2)) (toy_deps toy_clock) 3).
  - discriminate.
  - intros b [= <-] a c. destruct a; simpl; intros [=]; subst; reflexivity.
  - lia.
  - intros n H. assert (E : loop_ceiling (toy_input ca_live (nz 2)) = nnat 2) by (vm_compute; reflexivity).
    rewrite E in H. unfold nnat, nz in H. injection H as H. assert (n = 2) as -> by lia. lia.
  - intros i r calls [= <- <-]. exists (0, 3, 1, 0)%Z. split; [| simpl; lia].
    unfold iteration_usage, int_usage. cbn [bare_result r_tokensUsed r_turnsUsed r_costUsd dep_nowMs toy_deps].
    unfold toy_clock. rewrite nz_sub by lia. rewrite nz_max.
    assert ((Z.max 0 (Z.of_nat (2 * i + 1) - Z.of_nat (2 * i + 0)) = 1)%Z) as -> by lia. reflexivity.
Defined.

(** An unreadable clock loses the iteration's decision.  When the injected
    clock yields a value that is not a number, the agent runs, metering throws, and
    the run rejects with only its start row in the trail. *)
Theorem unreadable_clock_loses_decision :
  let run := runIterateLoop toy_predict (toy_input ca_live (nz 2)) (toy_deps (fun _ _ => NaN)) in
  run.1 = Thrown "next.wallClockMs must be a finite, non-negative number"
  /\ driver_runs run.2 = [(1, loop_task (toy_input ca_live (nz 2)))]
  /\ trail run.2 = [STARTED].
Proof. vm_compute. auto. Qed.
