(* ===== verification/Submission.v ===== *)
(** * From handoff to submission

    Models [miner/submission-gate.ts] (the last content check before a pull
    request is opened), [miner/harness-submission-trigger.ts] (the same check on a
    handoff packet, behind the session's circuit breaker) and
    [miner/loop-reentry-policy.ts] (may the loop pick another candidate).

    Main results: a submission is allowed exactly when nothing objects, and a
    refusal always says why; a session that trips its circuit breaker allows
    nothing afterwards, and its breaker trips after the configured number of
    consecutive refusals; re-entry is allowed exactly below every ceiling. *)

From stdpp Require Import base list strings option sets.
From S2P Require Import Prelude JsNumber JsString Ledger KillSwitch GateAdvisory SelfReview IteratePolicy.

Local Open Scope nat_scope.
Local Open Scope string_scope.
Local Open Scope js_scope.

(** ** Submission gate *)

Definition SUBMISSION_GATE_PASSING_CONCLUSION : GateCheckConclusion := gc_success.

Definition SLOP_BAND_SEVERITY (band : SelfReviewSlopBand) : nat :=
  match band with band_clean => 0 | band_low => 1 | band_elevated => 2 | band_high => 3 end.

Definition isSlopBandWithinThreshold (band threshold : SelfReviewSlopBand) : bool :=
  Nat.leb (SLOP_BAND_SEVERITY band) (SLOP_BAND_SEVERITY threshold).

Inductive SubmissionGateMode := sg_observe | sg_enforce.

#[global] Instance SubmissionGateMode_eq_dec : EqDecision SubmissionGateMode.
Proof. solve_decision. Defined.

Record SubmissionGateCandidate := mkCandidate {
  sc_killSwitchScope : MinerKillSwitchScope;
  sc_predictedGateVerdict : option PredictedGateVerdict;
  sc_slopAssessment : option SelfReviewSlopAssessment;
  sc_slopThreshold : SelfReviewSlopBand;
  sc_mode : SubmissionGateMode;
}.

Record SubmissionGateDecision := mkSubmission {
  sd_allow : bool;
  sd_reasons : list string;
}.

Definition evaluateSubmissionSignals (candidate : SubmissionGateCandidate) : list string :=
  (match sc_predictedGateVerdict candidate with
   | None => ["predicted_gate_unavailable"]
   | Some v =>
       if bool_decide (pv_conclusion v <> SUBMISSION_GATE_PASSING_CONCLUSION) then
         let blockerCodes := join "," (List.map f_code (pv_blockers v)) in
         [("predicted_gate_not_passing:" ++ conclusion_to_string (pv_conclusion v)
           ++ (if str_empty blockerCodes then "" else ":" ++ blockerCodes))%string]
       else []
   end
   ++ match sc_slopAssessment candidate with
      | None => ["slop_assessment_unavailable"]
      | Some s =>
          if negb (isSlopBandWithinThreshold (sa_band s) (sc_slopThreshold candidate)) then
            [("slop_band_exceeds_threshold:" ++ band_to_string (sa_band s) ++ ">"
              ++ band_to_string (sc_slopThreshold candidate))%string]
          else []
      end)%list.

Definition shouldSubmit (candidate : SubmissionGateCandidate) : SubmissionGateDecision :=
  if isMinerKillSwitchActive (sc_killSwitchScope candidate) then
    mkSubmission false [scope_to_string (sc_killSwitchScope candidate) ++ "_kill_switch_active"]
  else
    let reasons := evaluateSubmissionSignals candidate in
    let signalsPass := Nat.eqb (List.length reasons) 0 in
    match sc_mode candidate with
    | sg_observe =>
        mkSubmission false (if signalsPass then ["observe_mode_active:would_have_allowed"]
                            else "observe_mode_active:would_have_blocked" :: reasons)
    | sg_enforce => mkSubmission signalsPass reasons
    end.

(** ** Harness trigger *)

Definition DEFAULT_MAX_CONSECUTIVE_GATE_BLOCKS : num := nz 3.

Record HarnessSubmissionTriggerCandidate := mkTrigger {
  tc_killSwitchScope : MinerKillSwitchScope;
  tc_handoffPacket : HandoffPacket;
  tc_slopThreshold : SelfReviewSlopBand;
  tc_mode : SubmissionGateMode;
  tc_consecutiveGateBlocks : num;
  tc_maxConsecutiveGateBlocks : option num;
}.

Record HarnessSubmissionTriggerDecision := mkTriggerDecision {
  td_allow : bool;
  td_reasons : list string;
  td_circuitBreakerTripped : bool;
}.

Definition gate_candidate (candidate : HarnessSubmissionTriggerCandidate) : SubmissionGateCandidate :=
  let verdict := hp_selfReviewVerdict (tc_handoffPacket candidate) in
  mkCandidate (tc_killSwitchScope candidate) (Some (predictedGateVerdict verdict)) (Some (slopAssessment verdict))
    (tc_slopThreshold candidate) (tc_mode candidate).

Definition evaluateHarnessSubmissionTrigger (candidate : HarnessSubmissionTriggerCandidate)
    : HarnessSubmissionTriggerDecision :=
  let maxConsecutiveGateBlocks := tc_maxConsecutiveGateBlocks candidate ?? DEFAULT_MAX_CONSECUTIVE_GATE_BLOCKS in
  if ngeb (tc_consecutiveGateBlocks candidate) maxConsecutiveGateBlocks then
    mkTriggerDecision false
      ["circuit_breaker_tripped_after_consecutive_blocks:" ++ num_to_string (tc_consecutiveGateBlocks candidate) ++ ">="
       ++ num_to_string maxConsecutiveGateBlocks] true
  else
    let gateDecision := shouldSubmit (gate_candidate candidate) in
    mkTriggerDecision (sd_allow gateDecision) (sd_reasons gateDecision) false.

(** ** Re-entry *)

Inductive LoopReentryOutcome := re_merged | re_disengaged | re_other.

#[global] Instance LoopReentryOutcome_eq_dec : EqDecision LoopReentryOutcome.
Proof. solve_decision. Defined.

Definition DEFAULT_MAX_CONSECUTIVE_DISENGAGEMENTS : num := nz 3.
Definition DEFAULT_MAX_REENTRIES_PER_HOUR : num := nz 4.
Definition DEFAULT_MAX_REENTRIES_PER_SESSION : num := nz 20.

Record LoopReentryCandidate := mkReentry {
  rc_killSwitchScope : MinerKillSwitchScope;
  rc_repoFullName : string;
  rc_outcome : LoopReentryOutcome;
  rc_consecutiveDisengagements : num;
  rc_maxConsecutiveDisengagements : option num;
  rc_reentriesThisHour : num;
  rc_maxReentriesPerHour : option num;
  rc_reentriesThisSession : num;
  rc_maxReentriesPerSession : option num;
}.

Record LoopReentryDecision := mkReentryDecision {
  rd_reenter : bool;
  rd_reasons : list string;
}.

Definition over_cap (code : string) (count max : num) : string :=
  code ++ ":" ++ num_to_string count ++ ">=" ++ num_to_string max.

Definition shouldReenter (c : LoopReentryCandidate) : LoopReentryDecision :=
  if isMinerKillSwitchActive (rc_killSwitchScope c) then
    mkReentryDecision false [scope_to_string (rc_killSwitchScope c) ++ "_kill_switch_active"]
  else
    let maxDisengagements := rc_maxConsecutiveDisengagements c ?? DEFAULT_MAX_CONSECUTIVE_DISENGAGEMENTS in
    let maxHour := rc_maxReentriesPerHour c ?? DEFAULT_MAX_REENTRIES_PER_HOUR in
    let maxSession := rc_maxReentriesPerSession c ?? DEFAULT_MAX_REENTRIES_PER_SESSION in
    let reasons :=
      ((if bool_decide (rc_outcome c = re_disengaged) && ngeb (rc_consecutiveDisengagements c) maxDisengagements
        then [over_cap "repo_paused_after_consecutive_disengagements" (rc_consecutiveDisengagements c) maxDisengagements] else [])
       ++ (if ngeb (rc_reentriesThisHour c) maxHour
           then [over_cap "hourly_reentry_cap_reached" (rc_reentriesThisHour c) maxHour] else [])
       ++ (if ngeb (rc_reentriesThisSession c) maxSession
           then [over_cap "session_reentry_cap_reached" (rc_reentriesThisSession c) maxSession] else []))%list in
    mkReentryDecision (Nat.eqb (List.length reasons) 0) reasons.

(** ** Theorems *)

(** Everything a submission needs. *)
Definition submission_clear (c : SubmissionGateCandidate) : Prop :=
  sc_killSwitchScope c = scope_none /\ sc_mode c = sg_enforce
  /\ (exists v, sc_predictedGateVerdict c = Some v /\ pv_conclusion v = gc_success)
  /\ (exists s, sc_slopAssessment c = Some s /\ SLOP_BAND_SEVERITY (sa_band s) <= SLOP_BAND_SEVERITY (sc_slopThreshold c)).

Lemma signals_nil c : evaluateSubmissionSignals c = [] <->
  (exists v, sc_predictedGateVerdict c = Some v /\ pv_conclusion v = gc_success)
  /\ (exists s, sc_slopAssessment c = Some s /\ SLOP_BAND_SEVERITY (sa_band s) <= SLOP_BAND_SEVERITY (sc_slopThreshold c)).
Proof.
  unfold evaluateSubmissionSignals, SUBMISSION_GATE_PASSING_CONCLUSION.
  destruct (sc_predictedGateVerdict c) as [v |]; [| split; [discriminate | intros [(v & [=] & _) _]]].
  case_bool_decide as Hv; [split; [discriminate | intros [(v' & [= <-] & E) _]; contradiction] |].
  assert (Hv' : pv_conclusion v = gc_success) by (destruct (decide (pv_conclusion v = gc_success)); [done | contradiction]).
  destruct (sc_slopAssessment c) as [s |]; [| split; [discriminate | intros [_ (s & [=] & _)]]].
  unfold isSlopBandWithinThreshold. destruct (Nat.leb_spec (SLOP_BAND_SEVERITY (sa_band s)) (SLOP_BAND_SEVERITY (sc_slopThreshold c))); simpl.
  - split; [intros _; eauto 10 | reflexivity].
  - split; [discriminate | intros [_ (s' & [= <-] & Hs)]; lia].
Qed.

Lemma shouldSubmit_iff c : (sd_allow (shouldSubmit c) = true <-> submission_clear c)
  /\ (sd_allow (shouldSubmit c) = false -> sd_reasons (shouldSubmit c) <> []).
Proof.
  unfold shouldSubmit, submission_clear. rewrite <- signals_nil. cbv zeta.
  destruct (sc_killSwitchScope c); simpl; try (split; [split; [discriminate | intros ([=] & _)] | discriminate]).
  destruct (sc_mode c); simpl.
  - split; [split; [discriminate | intros (_ & [=] & _)] |]. destruct (evaluateSubmissionSignals c); discriminate.
  - destruct (evaluateSubmissionSignals c); simpl; split; try discriminate; split; auto; try discriminate. intros (_ & _ & [=]).
Qed.

(** Nothing is submitted by default.  A handoff is allowed through exactly when
    the session's circuit breaker has not tripped, no kill switch is engaged, the
    gate is enforcing, the predicted gate concluded success and the slop band is at
    or under the threshold; every refusal gives a reason, and only the breaker's
    refusal is reported as tripped. *)
Theorem submission_allowed_iff c :
  let d := evaluateHarnessSubmissionTrigger c in
  let max := default (nz 3) (tc_maxConsecutiveGateBlocks c) in
  let verdict := hp_selfReviewVerdict (tc_handoffPacket c) in
  (td_allow d = true <->
     ngeb (tc_consecutiveGateBlocks c) max = false
     /\ tc_killSwitchScope c = scope_none /\ tc_mode c = sg_enforce
     /\ pv_conclusion (predictedGateVerdict verdict) = gc_success
     /\ SLOP_BAND_SEVERITY (sa_band (slopAssessment verdict)) <= SLOP_BAND_SEVERITY (tc_slopThreshold c))
  /\ (td_allow d = false -> td_reasons d <> [])
  /\ (td_circuitBreakerTripped d = true <-> ngeb (tc_consecutiveGateBlocks c) max = true).
Proof.
  cbv zeta. unfold evaluateHarnessSubmissionTrigger, DEFAULT_MAX_CONSECUTIVE_GATE_BLOCKS. cbv zeta.
  destruct (ngeb (tc_consecutiveGateBlocks c) _); simpl.
  - split; [split; [discriminate | intros ([=] & _)] |]. split; [discriminate | split; reflexivity].
  - destruct (shouldSubmit_iff (gate_candidate c)) as [A R]. split; [| split; [exact R | split; discriminate]].
    rewrite A. unfold submission_clear, gate_candidate. simpl. split.
    + intros (H1 & H2 & (v & [= <-] & H3) & s & [= <-] & H4). auto.
    + intros (_ & H1 & H2 & H3 & H4). eauto 10.
Qed.

(** *** Sessions *)

(** A session feeds the trigger one candidate after the other.  The caller keeps
    the tally of consecutive refusals: an allowed candidate resets it. *)
Record SessionCandidate := mkSession {
  ss_killSwitchScope : MinerKillSwitchScope;
  ss_packet : HandoffPacket;
  ss_slopThreshold : SelfReviewSlopBand;
  ss_mode : SubmissionGateMode;
}.

Section Session.
Context (max : nat).

Definition session_step (tally : nat) (x : SessionCandidate) : HarnessSubmissionTriggerDecision * nat :=
  let d := evaluateHarnessSubmissionTrigger
    (mkTrigger (ss_killSwitchScope x) (ss_packet x) (ss_slopThreshold x) (ss_mode x) (nnat tally) (Some (nnat max))) in
  (d, if td_allow d then 0 else S tally).

Fixpoint session_run (tally : nat) (xs : list SessionCandidate) : list HarnessSubmissionTriggerDecision :=
  match xs with
  | [] => []
  | x :: xs' => let '(d, tally') := session_step tally x in d :: session_run tally' xs'
  end.

Lemma step_tripped tally x : td_circuitBreakerTripped (session_step tally x).1 = true <-> max <= tally.
Proof.
  unfold session_step, evaluateHarnessSubmissionTrigger. cbv zeta. cbn [tc_consecutiveGateBlocks tc_maxConsecutiveGateBlocks from_option id fst].
  unfold nnat. rewrite nz_geb. destruct (Z.leb_spec (Z.of_nat max) (Z.of_nat tally)); simpl; split; try discriminate; try reflexivity; lia.
Qed.

Lemma step_allow_untripped tally x : td_allow (session_step tally x).1 = true -> tally < max.
Proof.
  unfold session_step, evaluateHarnessSubmissionTrigger. cbv zeta. cbn [tc_consecutiveGateBlocks tc_maxConsecutiveGateBlocks from_option id fst].
  unfold nnat. rewrite nz_geb. destruct (Z.leb_spec (Z.of_nat max) (Z.of_nat tally)); simpl; [discriminate | lia].
Qed.

Lemma session_stays_tripped xs : forall tally, max <= tally ->
  Forall (fun d => td_allow d = false /\ td_circuitBreakerTripped d = true) (session_run tally xs).
Proof.
  induction xs as [| x xs IH]; intros tally H; cbn [session_run]; [constructor |].
  pose proof (proj2 (step_tripped tally x) H) as T. pose proof (step_allow_untripped tally x) as U.
  destruct (session_step tally x) as [d t'] eqn:E. cbn [fst] in *.
  assert (Hd : td_allow d = false) by (destruct (td_allow d); [exfalso; specialize (U eq_refl); lia | reflexivity]).
  constructor; [auto |]. apply IH. unfold session_step in E. injection E as <- <-. rewrite Hd. lia.
Qed.

Lemma session_refusals xs ys : forall tally,
  Forall (fun d => td_allow d = false) (session_run tally xs) ->
  session_run tally (xs ++ ys)%list = (session_run tally xs ++ session_run (tally + List.length xs) ys)%list.
Proof.
  induction xs as [| x xs IH]; intros tally H; [simpl; by rewrite Nat.add_0_r |].
  cbn [session_run] in H. cbn [session_run List.app List.length app]. destruct (session_step tally x) as [d t'] eqn:E. apply List.Forall_cons_iff in H as [Hd H].
  assert (t' = S tally) as -> by (unfold session_step in E; injection E as <- <-; by rewrite Hd).
  rewrite IH by assumption. by rewrite <- Nat.add_succ_comm.
Qed.

(** The circuit breaker stops a session for good.  In a session that starts
    fresh, once [max] consecutive candidates were refused, no later candidate is
    allowed, whatever its verdict, and each refusal reports the tripped breaker;
    before that the breaker does not trip. *)
Theorem circuit_breaker_is_final xs ys :
  Forall (fun d => td_allow d = false) (session_run 0 xs) -> List.length xs = max ->
  Forall (fun d => td_allow d = false /\ td_circuitBreakerTripped d = true) (skipn (List.length xs) (session_run 0 (xs ++ ys)%list))
  /\ Forall (fun d => td_circuitBreakerTripped d = false) (session_run 0 xs).
Proof.
  intros H Hl. split.
  - rewrite session_refusals by assumption. simpl.
    assert (L : forall zs t, List.length (session_run t zs) = List.length zs).
    { induction zs as [| z zs IH]; intros t; cbn [session_run]; [reflexivity |]. destruct (session_step t z). simpl. by rewrite IH. }
    rewrite <- (L xs 0) at 1. rewrite skipn_app, skipn_all, Nat.sub_diag. simpl.
    apply session_stays_tripped. lia.
  - assert (G : forall zs t, Forall (fun d => td_allow d = false) (session_run t zs) -> t + List.length zs <= max ->
      Forall (fun d => td_circuitBreakerTripped d = false) (session_run t zs)); [| apply G; [exact H | lia]].
    clear. induction zs as [| z zs IH]; intros t Hf Ht; cbn [session_run] in *; [constructor |].
    pose proof (step_tripped t z) as T. destruct (session_step t z) as [d t'] eqn:E. apply List.Forall_cons_iff in Hf as [Hd Hf].
    assert (t' = S t) as -> by (unfold session_step in E; injection E as <- <-; by rewrite Hd).
    cbn [fst] in T. simpl in Ht. constructor; [| apply IH; [exact Hf | lia]].
    destruct (td_circuitBreakerTripped d); [exfalso; pose proof (proj1 T eq_refl); lia | reflexivity].
Qed.
End Session.

Definition toy_packet (c : GateCheckConclusion) : HandoffPacket :=
  mkPacket "/tmp/w" None "done" (mkReview (mkPredicted c "t" "" None [] []) (mkSlop (nz 0) band_clean []) [] true) "attempt-1" None.

Definition toy_candidate (c : GateCheckConclusion) : SessionCandidate :=
  mkSession scope_none (toy_packet c) band_low sg_enforce.

Lemma circuit_breaker_is_final_witness :
  Forall (fun d => td_allow d = false /\ td_circuitBreakerTripped d = true)
    (skipn 2 (session_run 2 0 [toy_candidate gc_failure; toy_candidate gc_neutral; toy_candidate gc_success])).
Proof.
  apply (circuit_breaker_is_final 2 [toy_candidate gc_failure; toy_candidate gc_neutral] [toy_candidate gc_success]);
    [repeat constructor | reflexivity].
Defined.

(** Re-entry needs every ceiling clear.  The loop re-enters discovery exactly
    when no kill switch is engaged, the hourly and the session caps are not
    reached, and the last outcome was not a disengagement that fills the
    repository's allowance; a merged outcome exempts from the latter only; every
    refusal gives its reasons. *)
Theorem shouldReenter_iff c :
  (rd_reenter (shouldReenter c) = true <->
     rc_killSwitchScope c = scope_none
     /\ ngeb (rc_reentriesThisHour c) (default (nz 4) (rc_maxReentriesPerHour c)) = false
     /\ ngeb (rc_reentriesThisSession c) (default (nz 20) (rc_maxReentriesPerSession c)) = false
     /\ (rc_outcome c = re_disengaged ->
         ngeb (rc_consecutiveDisengagements c) (default (nz 3) (rc_maxConsecutiveDisengagements c)) = false))
  /\ (rd_reenter (shouldReenter c) = false -> rd_reasons (shouldReenter c) <> []).
Proof.
  unfold shouldReenter, DEFAULT_MAX_CONSECUTIVE_DISENGAGEMENTS, DEFAULT_MAX_REENTRIES_PER_HOUR, DEFAULT_MAX_REENTRIES_PER_SESSION.
  destruct (rc_killSwitchScope c); simpl; try (split; [split; [discriminate | intros ([=] & _)] | discriminate]).
  destruct (ngeb (rc_reentriesThisHour c) _), (ngeb (rc_reentriesThisSession c) _),
    (ngeb (rc_consecutiveDisengagements c) _); case_bool_decide as Ho; simpl;
    (split; [split; [intros H; try discriminate H; repeat split; try reflexivity; intros; congruence
                    | intros (_ & H1 & H2 & H3); try discriminate; try (specialize (H3 Ho); discriminate); reflexivity]
            | discriminate]).
Qed.
