(* ===== verification/Autonomy.v ===== *)
(** * Autonomy of the maintainer agent

    Models [settings/autonomy.ts] of the engine (the dial every write of the
    reviewing agent is authorised by) and [settings/agent-execution.ts] of the
    service (action mode, the GitHub permissions an action class needs, and the
    audit record of an action).

    Main results: an unknown class or level never acts and what the normaliser
    keeps is exactly the valid part of its input; a mode is live exactly when no
    switch, global, per-repository or of the instance, restrains it, and a
    further restraint never loosens it; an installation is ready exactly when it
    grants what the acting classes need. *)

From stdpp Require Import base list strings option gmap.
From S2P Require Import Prelude JsNumber JsString Ledger KillSwitch IteratePolicy.

Local Open Scope string_scope.
Local Open Scope js_scope.

(** ** Levels and action classes *)

Inductive AgentActionClass :=
| ac_review | ac_request_changes | ac_approve | ac_merge | ac_close | ac_label
| ac_review_state_label | ac_update_branch | ac_assign.

#[global] Instance AgentActionClass_eq_dec : EqDecision AgentActionClass.
Proof. solve_decision. Defined.

Definition AGENT_ACTION_CLASSES : list AgentActionClass :=
  [ac_review; ac_request_changes; ac_approve; ac_merge; ac_close; ac_label;
   ac_review_state_label; ac_update_branch; ac_assign].

Definition class_to_string (c : AgentActionClass) : string :=
  match c with
  | ac_review => "review" | ac_request_changes => "request_changes" | ac_approve => "approve"
  | ac_merge => "merge" | ac_close => "close" | ac_label => "label"
  | ac_review_state_label => "review_state_label" | ac_update_branch => "update_branch" | ac_assign => "assign"
  end.

#[global] Instance AgentActionClass_vocabulary : Vocabulary AgentActionClass.
Proof. vocabulary_by class_to_string AGENT_ACTION_CLASSES. Defined.

Definition AUTONOMY_LEVELS : list AutonomyLevel := [observe; auto_with_approval; auto_level].

Definition level_to_string (l : AutonomyLevel) : string :=
  match l with observe => "observe" | auto_with_approval => "auto_with_approval" | auto_level => "auto" end.

#[global] Instance AutonomyLevel_vocabulary : Vocabulary AutonomyLevel.
Proof. vocabulary_by level_to_string AUTONOMY_LEVELS. Defined.

(** [Partial<Record<AgentActionClass, AutonomyLevel>>]. *)
Definition AutonomyPolicy : Type := AgentActionClass -> option AutonomyLevel.

Definition DEFAULT_AUTONOMY_LEVEL : AutonomyLevel := observe.

Definition resolveAutonomy (autonomy : option AutonomyPolicy) (actionClass : AgentActionClass) : AutonomyLevel :=
  (p ← autonomy; p actionClass) ?? DEFAULT_AUTONOMY_LEVEL.

Definition isActingAutonomyLevel (level : AutonomyLevel) : bool :=
  match level with auto_level | auto_with_approval => true | observe => false end.

Definition isAgentConfigured (autonomy : option AutonomyPolicy) : bool :=
  existsb (fun c => isActingAutonomyLevel (resolveAutonomy autonomy c)) AGENT_ACTION_CLASSES.

Definition autonomyRequiresApproval (level : AutonomyLevel) : bool :=
  match level with auto_with_approval => true | _ => false end.

(** The input is a parsed JSON or YAML value; anything but an object carries no
    policy. *)
Definition normalizeAutonomyPolicy (input : jsval) : AutonomyPolicy :=
  match input with
  | JObj record => fun actionClass =>
      match get_field (JObj record) (class_to_string actionClass) with
      | JStr value => of_word value
      | _ => None
      end
  | _ => fun _ => None
  end.

(** ** The auto-maintain policy *)

Inductive AutoMergeMethod := mm_merge | mm_squash | mm_rebase.

#[global] Instance AutoMergeMethod_eq_dec : EqDecision AutoMergeMethod.
Proof. solve_decision. Defined.

Definition AUTO_MERGE_METHODS : list AutoMergeMethod := [mm_merge; mm_squash; mm_rebase].

Definition method_to_string (m : AutoMergeMethod) : string :=
  match m with mm_merge => "merge" | mm_squash => "squash" | mm_rebase => "rebase" end.

#[global] Instance AutoMergeMethod_vocabulary : Vocabulary AutoMergeMethod.
Proof. vocabulary_by method_to_string AUTO_MERGE_METHODS. Defined.

Record AutoMaintainPolicy := mkAutoMaintain {
  requireApprovals : num;
  am_mergeMethod : AutoMergeMethod;
}.

Definition DEFAULT_AUTO_MAINTAIN_POLICY : AutoMaintainPolicy := mkAutoMaintain (nz 1) mm_squash.

Definition MAX_REQUIRE_APPROVALS : num := nz 10.

Definition normalizeAutoMaintainPolicy (input : jsval) : AutoMaintainPolicy :=
  match input with
  | JObj record =>
      let approvals :=
        match get_field (JObj record) "requireApprovals" with
        | JNum raw => if is_finite raw then nmin MAX_REQUIRE_APPROVALS (nmax (nz 0) (ntrunc raw))
                      else requireApprovals DEFAULT_AUTO_MAINTAIN_POLICY
        | _ => requireApprovals DEFAULT_AUTO_MAINTAIN_POLICY
        end in
      let method :=
        match get_field (JObj record) "mergeMethod" with
        | JStr raw => of_word raw ?? am_mergeMethod DEFAULT_AUTO_MAINTAIN_POLICY
        | _ => am_mergeMethod DEFAULT_AUTO_MAINTAIN_POLICY
        end in
      mkAutoMaintain approvals method
  | _ => DEFAULT_AUTO_MAINTAIN_POLICY
  end.

(** ** Action mode *)

Inductive AgentActionMode := am_paused | am_dry_run | am_live.

#[global] Instance AgentActionMode_eq_dec : EqDecision AgentActionMode.
Proof. solve_decision. Defined.

Definition isGlobalAgentPause (AGENT_ACTIONS_PAUSED : option string) : bool :=
  TRUTHY_ENV_VALUE (AGENT_ACTIONS_PAUSED ?? "").

Record AgentActionModeInput := mkModeInput {
  mi_globalPaused : bool;
  mi_agentPaused : option bool;
  mi_agentDryRun : option bool;
  mi_instanceMode : option AgentActionMode;
}.

Definition resolveAgentActionMode (input : AgentActionModeInput) : AgentActionMode :=
  if mi_globalPaused input || bool_decide (mi_agentPaused input = Some true)
     || bool_decide (mi_instanceMode input = Some am_paused) then am_paused
  else if bool_decide (mi_agentDryRun input = Some true)
          || bool_decide (mi_instanceMode input = Some am_dry_run) then am_dry_run
  else am_live.

Definition agentActionModeExecutes (mode : AgentActionMode) : bool := bool_decide (mode = am_live).

(** ** Permissions *)

Definition PR_WRITE_ACTION_CLASSES : list AgentActionClass :=
  [ac_review; ac_request_changes; ac_approve; ac_close; ac_update_branch].
Definition CONTENTS_WRITE_ACTION_CLASSES : list AgentActionClass := [ac_merge].

Definition includes_class (cs : list AgentActionClass) (c : AgentActionClass) : bool :=
  existsb (fun d => bool_decide (d = c)) cs.

Definition agentRequiresPrWrite (autonomy : option AutonomyPolicy) : bool :=
  existsb (fun c => isActingAutonomyLevel (resolveAutonomy autonomy c)) PR_WRITE_ACTION_CLASSES.

Definition agentRequiresContentsWrite (autonomy : option AutonomyPolicy) : bool :=
  existsb (fun c => isActingAutonomyLevel (resolveAutonomy autonomy c)) CONTENTS_WRITE_ACTION_CLASSES.

Inductive AgentPermissionReadiness := not_required | ready | reconsent_required.

#[global] Instance AgentPermissionReadiness_eq_dec : EqDecision AgentPermissionReadiness.
Proof. solve_decision. Defined.

(** Every requirement asks for write access, so a requirement is the name of its
    permission. *)
Record AgentPermissionRequirement := mkRequirement { permission : string }.
Definition requiredAccess : string := "write".

Definition addRequirementOnce (requirements : list AgentPermissionRequirement)
    (requirement : AgentPermissionRequirement) : list AgentPermissionRequirement :=
  if existsb (fun entry => String.eqb (permission entry) (permission requirement)) requirements then requirements
  else requirements ++ [requirement].

Definition add_requirements (autonomy : option AutonomyPolicy) (requirements : list AgentPermissionRequirement)
    (candidate : AgentActionClass) : list AgentPermissionRequirement :=
  if negb (isActingAutonomyLevel (resolveAutonomy autonomy candidate)) then requirements
  else
    let rs := if includes_class PR_WRITE_ACTION_CLASSES candidate
              then addRequirementOnce requirements (mkRequirement "pull_requests") else requirements in
    if includes_class CONTENTS_WRITE_ACTION_CLASSES candidate
    then addRequirementOnce rs (mkRequirement "contents") else rs.

Definition requiredAgentActionPermissions (autonomy : option AutonomyPolicy) (actionClass : option AgentActionClass)
    : list AgentPermissionRequirement :=
  let candidates := match actionClass with
                    | Some c => [c]
                    | None => (PR_WRITE_ACTION_CLASSES ++ CONTENTS_WRITE_ACTION_CLASSES)%list
                    end in
  List.fold_left (add_requirements autonomy) candidates [].

(** [installationPermissions?.[permission] !== "write"]. *)
Definition granted (installationPermissions : option (gmap string string)) (r : AgentPermissionRequirement) : bool :=
  bool_decide ((p ← installationPermissions; p !! permission r) = Some requiredAccess).

Definition missingAgentActionPermissions (autonomy : option AutonomyPolicy)
    (installationPermissions : option (gmap string string)) (actionClass : option AgentActionClass)
    : list AgentPermissionRequirement :=
  List.filter (fun r => negb (granted installationPermissions r)) (requiredAgentActionPermissions autonomy actionClass).

Definition formatAgentPermissionDenial (autonomy : option AutonomyPolicy)
    (installationPermissions : option (gmap string string)) (actionClass : option AgentActionClass)
    (suppressed : bool) : string :=
  let missing := missingAgentActionPermissions autonomy installationPermissions actionClass in
  let summary :=
    if Nat.ltb 0 (List.length missing)
    then join ", " (List.map (fun r => permission r ++ ": " ++ requiredAccess) missing)
    else "required GitHub App permission" in
  summary ++ " not granted — maintainer must re-consent" ++ (if suppressed then " (suppressed repeat)" else "").

Definition resolveAgentPermissionReadiness (autonomy : option AutonomyPolicy)
    (installationPermissions : option (gmap string string)) (actionClass : option AgentActionClass)
    : AgentPermissionReadiness :=
  match requiredAgentActionPermissions autonomy actionClass with
  | [] => not_required
  | _ :: _ =>
      match missingAgentActionPermissions autonomy installationPermissions actionClass with
      | [] => ready
      | _ :: _ => reconsent_required
      end
  end.

(** ** The audit record of an action *)

Definition STRUCTURED_CLOSE_REASONS_MAX_COUNT : nat := 20.

Definition boundStructuredCloseReasonsForPersistence {T} (closeReasons : list T) : list T :=
  if Nat.ltb STRUCTURED_CLOSE_REASONS_MAX_COUNT (List.length closeReasons)
  then firstn STRUCTURED_CLOSE_REASONS_MAX_COUNT closeReasons else closeReasons.

Record AuditMetadata := mkAuditMetadata {
  md_repoFullName : string;
  md_actionClass : AgentActionClass;
  md_autonomyLevel : AutonomyLevel;
  md_mode : AgentActionMode;
  md_closeReasons : option (list string);
  md_closeReasonCount : option nat;
  md_closeReasonsTruncated : option bool;
}.

Record AuditEventRecord := mkAudit {
  au_eventType : string;
  au_actor : option string;
  au_targetKey : string;
  au_outcome : string;
  au_detail : option string;
  au_metadata : AuditMetadata;
}.

Definition buildAgentActionAudit (actionClass : AgentActionClass) (autonomyLevel : AutonomyLevel) (mode : AgentActionMode)
    (outcome repoFullName : string) (targetKey actor reason : option string) (closeReasons : option (list string))
    (closeReasonCount : option nat) : AuditEventRecord :=
  let count := if bool_decide (actionClass = ac_close)
               then closeReasonCount ?? (List.length <$> closeReasons) ?? 0%nat else 0%nat in
  let bounded :=
    match closeReasons with
    | Some (r :: rs) =>
        if bool_decide (actionClass = ac_close)
        then Some (boundStructuredCloseReasonsForPersistence (r :: rs)) else None
    | _ => None
    end in
  mkAudit ("agent.action." ++ class_to_string actionClass) actor (targetKey ?? repoFullName) outcome reason
    (mkAuditMetadata repoFullName actionClass autonomyLevel mode bounded
       (match bounded with Some _ => Some count | None => None end)
       (match bounded with
        | Some rs => if Nat.ltb (List.length rs) count then Some true else None
        | None => None
        end)).

(** ** Deny by default *)

(** The JSON of a policy: one field per class that has a level. *)
Definition policy_json (p : AutonomyPolicy) : jsval :=
  JObj (omap (fun c => (fun l => (class_to_string c, JStr (level_to_string l))) <$> p c) AGENT_ACTION_CLASSES).

Lemma acting_not_observe l : isActingAutonomyLevel l = true <-> l <> observe.
Proof. by destruct l. Qed.

Lemma approval_acts l : autonomyRequiresApproval l = true -> isActingAutonomyLevel l = true.
Proof. by destruct l. Qed.

#[export] Hint Resolve approval_acts : loopover.

Lemma normalize_exact fs c l :
  normalizeAutonomyPolicy (JObj fs) c = Some l <-> get_own fs (class_to_string c) = Some (JStr (level_to_string l)).
Proof.
  unfold normalizeAutonomyPolicy, get_field. split.
  - destruct (get_own fs (class_to_string c)) as [[] |]; simpl; try discriminate.
    intros E%of_word_sound. by rewrite <- E.
  - intros ->. simpl. exact (of_word_word l).
Qed.

(** What acts was asked for: an acting class is one whose field holds the
    literal of an acting level. *)
Theorem normalized_policy_denies_by_default v c :
  isActingAutonomyLevel (resolveAutonomy (Some (normalizeAutonomyPolicy v)) c) = true
  <-> exists fs l, v = JObj fs /\ get_own fs (class_to_string c) = Some (JStr (level_to_string l)) /\ l <> observe.
Proof.
  unfold resolveAutonomy. cbn [mbind option_bind]. split.
  - destruct (normalizeAutonomyPolicy v c) as [l |] eqn:E; simpl; [| discriminate].
    rewrite acting_not_observe. intros Hl. destruct v; try discriminate.
    apply normalize_exact in E. eauto.
  - intros (fs & l & -> & E & Hl). apply normalize_exact in E. rewrite E. simpl. by apply acting_not_observe.
Qed.

Lemma class_to_string_inj c d : class_to_string c = class_to_string d -> c = d.
Proof. exact (word_inj c d). Qed.

Lemma get_own_omap (p : AutonomyPolicy) c cs : c ∈ cs ->
  get_own (omap (fun c => (fun l => (class_to_string c, JStr (level_to_string l))) <$> p c) cs) (class_to_string c)
  = (fun l => JStr (level_to_string l)) <$> p c.
Proof.
  unfold get_own. induction cs as [| d cs IH]; intros Hin; [by apply elem_of_nil in Hin |].
  cbn [omap list_omap]. destruct (decide (c = d)) as [<- | Hne].
  - destruct (p c) as [l |] eqn:E; simpl; [by rewrite String.eqb_refl |].
    destruct (decide (c ∈ cs)) as [H | H]; [rewrite (IH H); by rewrite ?E |].
    clear IH Hin. induction cs as [| d cs IH]; [done |]. apply not_elem_of_cons in H as [Hd Hc].
    cbn [omap list_omap]. destruct (p d); simpl; [| by apply IH].
    destruct (String.eqb_spec (class_to_string d) (class_to_string c)) as [Heq | _]; [| by apply IH].
    by apply class_to_string_inj in Heq; subst.
  - apply elem_of_cons in Hin as [-> | Hin]; [done |].
    destruct (p d) as [l |]; simpl; [| by apply IH].
    destruct (String.eqb_spec (class_to_string d) (class_to_string c)) as [Heq | _]; [| by apply IH].
    by apply class_to_string_inj in Heq; subst.
Qed.

(** A policy survives being stored and read back. *)
Theorem policy_roundtrip p c : normalizeAutonomyPolicy (policy_json p) c = p c.
Proof.
  unfold policy_json, normalizeAutonomyPolicy, get_field.
  rewrite get_own_omap by (apply list_elem_of_In; exact (vocabulary_total c)).
  destruct (p c) as [l |]; simpl; [exact (of_word_word l) | reflexivity].
Qed.

Lemma clamp_band z : exists n : Z, (0 <= n <= 10)%Z /\ nmin MAX_REQUIRE_APPROVALS (nmax (nz 0) (nz z)) = nz n.
Proof. exists (Z.min 10 (Z.max 0 z)). split; [lia |]. unfold MAX_REQUIRE_APPROVALS. by num_int. Qed.

(** However malformed its input, the approval count is an integer between 0 and
    10. *)
Theorem requireApprovals_band v :
  exists n : Z, (0 <= n <= 10)%Z /\ requireApprovals (normalizeAutoMaintainPolicy v) = nz n.
Proof.
  assert (D : exists n : Z, (0 <= n <= 10)%Z /\ nz 1 = nz n) by (exists 1%Z; split; [lia | done]).
  destruct v as [| | | | | | fs]; try exact D.
  cbn [normalizeAutoMaintainPolicy requireApprovals].
  destruct (get_field _ _) as [| | | raw | | |]; try exact D.
  destruct raw as [| | | q]; try exact D.
  cbn [is_finite ntrunc]. case_match; apply clamp_band.
Qed.

(** ** Modes *)

Definition restraint (m : AgentActionMode) : nat :=
  match m with am_live => 0 | am_dry_run => 1 | am_paused => 2 end.

(** The restraint each of the four switches asks for. *)
Definition switches (i : AgentActionModeInput) : list AgentActionMode :=
  [if mi_globalPaused i then am_paused else am_live;
   if bool_decide (mi_agentPaused i = Some true) then am_paused else am_live;
   if bool_decide (mi_agentDryRun i = Some true) then am_dry_run else am_live;
   mi_instanceMode i ?? am_live].

(** The resolved mode is the strictest any switch asks for. *)
Theorem mode_is_strictest i :
  restraint (resolveAgentActionMode i) = List.fold_right Nat.max 0 (restraint <$> switches i)
  /\ (agentActionModeExecutes (resolveAgentActionMode i) = true <-> Forall (eq am_live) (switches i)).
Proof.
  destruct i as [[] [[] |] [[] |] [[] |]];
    (split; [reflexivity |]); split; intros H; try done; try (by repeat constructor);
    repeat match goal with H : Forall _ _ |- _ => inversion H; clear H; subst end; done.
Qed.

(** ** Permission readiness *)

(** The permission a class writes through, if GitHub has one for it. *)
Definition writes_through (c : AgentActionClass) : option string :=
  if includes_class PR_WRITE_ACTION_CLASSES c then Some "pull_requests"
  else if includes_class CONTENTS_WRITE_ACTION_CLASSES c then Some "contents" else None.

Definition candidate (actionClass : option AgentActionClass) (c : AgentActionClass) : Prop :=
  match actionClass with Some d => c = d | None => True end.

Lemma addRequirementOnce_elem rs r x : x ∈ addRequirementOnce rs r <-> x ∈ rs \/ x = r.
Proof.
  unfold addRequirementOnce. destruct (existsb _ rs) eqn:E.
  - apply existsb_exists in E as ([p] & Hin & Heq%String.eqb_eq). destruct r as [q]. simpl in Heq. subst.
    apply list_elem_of_In in Hin. split; [tauto | intros [H | ->]; assumption].
  - rewrite elem_of_app, list_elem_of_singleton. tauto.
Qed.

Lemma add_requirements_elem a rs c x :
  x ∈ add_requirements a rs c <->
  x ∈ rs \/ (isActingAutonomyLevel (resolveAutonomy a c) = true /\ writes_through c = Some (permission x)).
Proof.
  unfold add_requirements. cbv zeta. destruct (isActingAutonomyLevel (resolveAutonomy a c)); cbn [negb];
    [| split; [tauto | intros [H | [? _]]; [assumption | discriminate]]].
  destruct x as [p]. unfold writes_through.
  destruct (includes_class PR_WRITE_ACTION_CLASSES c) eqn:E1, (includes_class CONTENTS_WRITE_ACTION_CLASSES c) eqn:E2.
  - destruct c; vm_compute in E1, E2; discriminate.
  - rewrite addRequirementOnce_elem. naive_solver congruence.
  - rewrite addRequirementOnce_elem. naive_solver congruence.
  - naive_solver congruence.
Qed.

Lemma required_elem a oc x :
  x ∈ requiredAgentActionPermissions a oc <->
  exists c, candidate oc c /\ isActingAutonomyLevel (resolveAutonomy a c) = true /\ writes_through c = Some (permission x).
Proof.
  assert (F : forall cs rs, x ∈ List.fold_left (add_requirements a) cs rs <->
    x ∈ rs \/ exists c, c ∈ cs /\ isActingAutonomyLevel (resolveAutonomy a c) = true /\ writes_through c = Some (permission x)).
  { induction cs as [| c cs IH]; intros rs; simpl.
    - split; [tauto | intros [H | (c & H & _)]; [assumption | by apply elem_of_nil in H]].
    - rewrite IH, add_requirements_elem. split.
      + intros [[H | H] | (d & H & H')]; [tauto | right; exists c | right; exists d]; set_solver.
      + intros [H | (d & H & H')]; [tauto |]. apply elem_of_cons in H as [-> | H]; [tauto | right; eauto]. }
  unfold requiredAgentActionPermissions. rewrite F. split.
  - intros [H | (c & Hc & Ha & Hw)]; [by apply elem_of_nil in H |]. exists c. split; [| tauto].
    destruct oc; simpl; [by apply list_elem_of_singleton in Hc | done].
  - intros (c & Hc & Ha & Hw). right. exists c. split; [| tauto].
    destruct oc as [d |]; simpl in *; [by apply list_elem_of_singleton |].
    destruct c; try (vm_compute in Hw; discriminate); apply list_elem_of_In; cbn; tauto.
Qed.

(** The executor's pre-flight check: [not_required] exactly when no acting class
    under consideration writes through a permission, [reconsent_required]
    exactly when one does and the installation lacks it. *)
Theorem permission_readiness_exact a perms oc :
  (resolveAgentPermissionReadiness a perms oc = not_required <->
     forall c, candidate oc c -> isActingAutonomyLevel (resolveAutonomy a c) = true -> writes_through c = None)
  /\ (resolveAgentPermissionReadiness a perms oc = reconsent_required <->
     exists c p, candidate oc c /\ isActingAutonomyLevel (resolveAutonomy a c) = true /\ writes_through c = Some p
       /\ granted perms (mkRequirement p) = false).
Proof.
  assert (N : requiredAgentActionPermissions a oc = [] <->
     forall c, candidate oc c -> isActingAutonomyLevel (resolveAutonomy a c) = true -> writes_through c = None).
  { split.
    - intros E c Hc Ha. destruct (writes_through c) as [p |] eqn:W; [| done].
      assert (H : mkRequirement p ∈ requiredAgentActionPermissions a oc) by (apply required_elem; eauto).
      rewrite E in H. by apply elem_of_nil in H.
    - intros H. destruct (requiredAgentActionPermissions a oc) as [| r rs] eqn:E; [done |].
      assert (Hr : r ∈ requiredAgentActionPermissions a oc) by (rewrite E; left).
      apply required_elem in Hr as (c & Hc & Ha & Hw). by rewrite (H c Hc Ha) in Hw. }
  assert (M : (exists r, r ∈ missingAgentActionPermissions a perms oc) <->
     exists c p, candidate oc c /\ isActingAutonomyLevel (resolveAutonomy a c) = true /\ writes_through c = Some p
       /\ granted perms (mkRequirement p) = false).
  { unfold missingAgentActionPermissions. split.
    - intros (r & H). apply list_elem_of_In, filter_In in H as [H G%negb_true_iff].
      apply list_elem_of_In, required_elem in H as (c & Hc & Ha & Hw). exists c, (permission r). by destruct r.
    - intros (c & p & Hc & Ha & Hw & G). exists (mkRequirement p). apply list_elem_of_In, filter_In.
      split; [apply list_elem_of_In, required_elem; eauto | by rewrite G]. }
  unfold resolveAgentPermissionReadiness.
  destruct (requiredAgentActionPermissions a oc) as [| r rs] eqn:E.
  - split; [tauto |]. split; [done |]. rewrite <- M. intros (r & H).
    unfold missingAgentActionPermissions in H. rewrite E in H. by apply elem_of_nil in H.
  - split; [rewrite <- N; by destruct (missingAgentActionPermissions a perms oc) |]. rewrite <- M.
    destruct (missingAgentActionPermissions a perms oc) as [| m ms]; [| split; [exists m; left | done]].
    split; [done |]. intros (x & H). by apply elem_of_nil in H.
Qed.
