(* ===== verification/PrDisposition.v ===== *)
(** * The shared disposition of a pull request

    Models [settings/pr-disposition.ts]: the one place GitHub's
    [mergeable_state] is interpreted, and the held / approve / merge assessment
    the planner, the executor and the comment all read.

    Main results: the assessment is characterised exactly and satisfies the
    contract the module declares; the comment's stand-alone predicate is
    equivalent to the assessment's; the recorded causes of a hold are exactly the
    declared inputs that hold, in declaration order; releasing the guardrail
    never affects another hold. *)

From stdpp Require Import base list strings option.
From S2P Require Import Prelude JsString.

Local Open Scope string_scope.
Local Open Scope js_scope.

Inductive MergeableAssessment := ma_clean | ma_conflict | ma_behind | ma_unstable | ma_indeterminate.

#[global] Instance MergeableAssessment_eq_dec : EqDecision MergeableAssessment.
Proof. solve_decision. Defined.

Definition assessMergeableState (state : option string) : MergeableAssessment :=
  let s := toLowerCase (state ?? "") in
  if String.eqb s "clean" then ma_clean
  else if String.eqb s "dirty" then ma_conflict
  else if String.eqb s "behind" then ma_behind
  else if String.eqb s "unstable" then ma_unstable
  else ma_indeterminate.

(** The keys of [MERGE_HOLD_INPUTS], in declaration order. *)
Inductive MergeHoldInput :=
| mh_guardrailHit | mh_migrationCollisionHold | mh_unlinkedIssueMatchHold | mh_advisoryCheckHold
| mh_priorityEligibilityHold | mh_screenshotEvidenceHold | mh_unlinkedIssueMatchCloseWithoutCloseActing.

#[global] Instance MergeHoldInput_eq_dec : EqDecision MergeHoldInput.
Proof. solve_decision. Defined.

Definition MERGE_HOLD_INPUT_KEYS : list MergeHoldInput :=
  [mh_guardrailHit; mh_migrationCollisionHold; mh_unlinkedIssueMatchHold; mh_advisoryCheckHold;
   mh_priorityEligibilityHold; mh_screenshotEvidenceHold; mh_unlinkedIssueMatchCloseWithoutCloseActing].

(** [Record<MergeHoldInput, boolean> & {...}]: the holds are a function of the
    key. *)
Record PrDispositionInput := mkDispositionInput {
  pd_hold : MergeHoldInput -> bool;
  pd_mergeableState : option string;
  pd_reviewGood : bool;
  pd_unstableExplainedByIgnoredChecks : option bool;
  pd_guardrailEscalationCleared : option bool;
}.

Record PrDisposition := mkDisposition {
  mergeable : MergeableAssessment;
  d_heldForManualReview : bool;
  heldBy : list MergeHoldInput;
  heldForUnstableMergeState : bool;
  wouldApprove : bool;
  wouldMerge : bool;
  commentMergeStateHeld : bool;
}.

Definition is_true_flag (b : option bool) : bool := bool_decide (b = Some true).

Definition releasedHolds (input : PrDispositionInput) (key : MergeHoldInput) : bool :=
  match key with mh_guardrailHit => is_true_flag (pd_guardrailEscalationCleared input) | _ => false end.

Definition derivePrDisposition (input : PrDispositionInput) : PrDisposition :=
  let mergeable := assessMergeableState (pd_mergeableState input) in
  let unstableHolds := bool_decide (mergeable = ma_unstable)
                       && negb (is_true_flag (pd_unstableExplainedByIgnoredChecks input)) in
  let heldBy := List.filter (fun key => pd_hold input key && negb (releasedHolds input key)) MERGE_HOLD_INPUT_KEYS in
  let heldForManualReview := Nat.ltb 0 (List.length heldBy) in
  mkDisposition mergeable heldForManualReview heldBy unstableHolds
    (pd_reviewGood input && negb heldForManualReview && negb (bool_decide (mergeable = ma_conflict)) && negb unstableHolds)
    (pd_reviewGood input && negb heldForManualReview && bool_decide (mergeable = ma_clean))
    (bool_decide (mergeable = ma_conflict) || bool_decide (mergeable = ma_behind) || unstableHolds).

Definition isCommentMergeStateHeld (state : option string) (unstableExplainedByIgnoredChecks : option bool) : bool :=
  let mergeable := assessMergeableState state in
  let unstableHolds := bool_decide (mergeable = ma_unstable) && negb (is_true_flag unstableExplainedByIgnoredChecks) in
  bool_decide (mergeable = ma_conflict) || bool_decide (mergeable = ma_behind) || unstableHolds.

(** ** Characterisation *)

(** A declared input that holds and is not released. *)
Definition holds (input : PrDispositionInput) (key : MergeHoldInput) : Prop :=
  pd_hold input key = true /\ releasedHolds input key = false.

(** The merge state asks for nothing of the contributor or of CI. *)
Definition unstable_unexplained (input : PrDispositionInput) : Prop :=
  assessMergeableState (pd_mergeableState input) = ma_unstable /\ pd_unstableExplainedByIgnoredChecks input <> Some true.

Lemma heldBy_elem input key : key ∈ heldBy (derivePrDisposition input) <-> holds input key.
Proof.
  unfold derivePrDisposition, holds. cbn [heldBy]. rewrite list_elem_of_In, filter_In, andb_true_iff, negb_true_iff.
  split; [tauto |]. intros H. split; [destruct key; simpl; tauto | assumption].
Qed.

Lemma held_iff input : d_heldForManualReview (derivePrDisposition input) = true <-> exists key, holds input key.
Proof.
  setoid_rewrite <- heldBy_elem. unfold derivePrDisposition. cbn [d_heldForManualReview heldBy].
  destruct (List.filter _ _) as [| k ks]; simpl.
  - split; [discriminate | intros [key H]; by apply elem_of_nil in H].
  - split; [intros _; exists k; left | done].
Qed.

Lemma unstable_iff input :
  heldForUnstableMergeState (derivePrDisposition input) = true <-> unstable_unexplained input.
Proof.
  unfold derivePrDisposition, unstable_unexplained, is_true_flag. cbn [heldForUnstableMergeState].
  rewrite andb_true_iff, negb_true_iff, bool_decide_eq_true, bool_decide_eq_false. tauto.
Qed.

Lemma wouldMerge_iff input : wouldMerge (derivePrDisposition input) = true <->
  pd_reviewGood input = true /\ (forall key, ~ holds input key)
  /\ assessMergeableState (pd_mergeableState input) = ma_clean.
Proof.
  transitivity (pd_reviewGood input = true /\ d_heldForManualReview (derivePrDisposition input) <> true
    /\ assessMergeableState (pd_mergeableState input) = ma_clean).
  - unfold derivePrDisposition. cbn [wouldMerge d_heldForManualReview].
    rewrite !andb_true_iff, negb_true_iff, bool_decide_eq_true, not_true_iff_false. tauto.
  - rewrite held_iff. firstorder.
Qed.

Lemma wouldApprove_iff input : wouldApprove (derivePrDisposition input) = true <->
  pd_reviewGood input = true /\ (forall key, ~ holds input key)
  /\ assessMergeableState (pd_mergeableState input) <> ma_conflict /\ ~ unstable_unexplained input.
Proof.
  rewrite <- unstable_iff.
  transitivity (pd_reviewGood input = true /\ d_heldForManualReview (derivePrDisposition input) <> true
    /\ assessMergeableState (pd_mergeableState input) <> ma_conflict
    /\ heldForUnstableMergeState (derivePrDisposition input) <> true).
  - unfold derivePrDisposition. cbn [wouldApprove d_heldForManualReview heldForUnstableMergeState].
    rewrite !not_true_iff_false, !andb_true_iff, !negb_true_iff, bool_decide_eq_false. tauto.
  - rewrite held_iff. firstorder.
Qed.

(** The contract the module declares: merge is the strictest of the outcomes,
    asks for exactly [clean] and implies approve; a conflict or an unexplained
    unstable state is never approved; [behind], [blocked], [unknown] and an
    absent state are approvable and hold nothing on their own. *)
Theorem disposition_contract input :
  let d := derivePrDisposition input in
  (wouldMerge d = true -> wouldApprove d = true /\ mergeable d = ma_clean /\ commentMergeStateHeld d = false)
  /\ (wouldApprove d = true -> mergeable d <> ma_conflict /\ heldForUnstableMergeState d = false)
  /\ (pd_reviewGood input = true -> d_heldForManualReview d = false ->
      mergeable d = ma_behind \/ mergeable d = ma_indeterminate -> wouldApprove d = true /\ wouldMerge d = false)
  /\ (d_heldForManualReview d = true <-> exists key, holds input key).
Proof.
  cbv zeta. split_and!; [| | | apply held_iff].
  - intros H. apply wouldMerge_iff in H as (Hr & Hh & Hc).
    assert (~ unstable_unexplained input) by (intros [U _]; congruence).
    split_and!; [apply wouldApprove_iff; split_and!; congruence || assumption | exact Hc |].
    unfold derivePrDisposition. cbn [commentMergeStateHeld]. by rewrite Hc.
  - intros H. apply wouldApprove_iff in H as (_ & _ & Hc & Hu). split; [exact Hc |].
    apply not_true_iff_false. by rewrite unstable_iff.
  - intros Hr Hh Hm. assert (Hno : forall key, ~ holds input key).
    { intros key K. apply not_true_iff_false in Hh. apply Hh, held_iff. by exists key. }
    split.
    + apply wouldApprove_iff. split_and!; [done | done | |]; [| intros [U _]];
        destruct Hm as [Hm | Hm]; unfold derivePrDisposition in Hm; cbn [mergeable] in Hm; congruence.
    + apply not_true_iff_false. rewrite wouldMerge_iff. intros (_ & _ & Hc).
      destruct Hm as [Hm | Hm]; unfold derivePrDisposition in Hm; cbn [mergeable] in Hm; congruence.
Qed.

(** The comment's own predicate reads a merge state as the planner's assessment
    does, whatever the other inputs are, so the two surfaces cannot disagree. *)
Theorem comment_predicate_equivalent input :
  isCommentMergeStateHeld (pd_mergeableState input) (pd_unstableExplainedByIgnoredChecks input)
  = commentMergeStateHeld (derivePrDisposition input).
Proof. reflexivity. Qed.

(** Key order: the recorded causes follow the table. *)
Lemma heldBy_order input : heldBy (derivePrDisposition input) `sublist_of` MERGE_HOLD_INPUT_KEYS.
Proof.
  unfold derivePrDisposition. cbn [heldBy]. generalize MERGE_HOLD_INPUT_KEYS as l.
  induction l as [| k l IH]; simpl; [constructor |]. case_match; by constructor.
Qed.

(** Clearing the guardrail escalation lifts the guardrail hold and no other. *)
Theorem escalation_releases_only_guardrail input :
  let cleared := mkDispositionInput (pd_hold input) (pd_mergeableState input) (pd_reviewGood input)
                   (pd_unstableExplainedByIgnoredChecks input) (Some true) in
  forall key, key ∈ heldBy (derivePrDisposition cleared)
    <-> key ∈ heldBy (derivePrDisposition input) /\ key <> mh_guardrailHit.
Proof.
  intros cleared key. rewrite !heldBy_elem. unfold holds. destruct key; cbn; naive_solver.
Qed.
