(* ===== verification/PublicComment.v ===== *)
(** * Text the service publishes

    Models [sanitizePublicComment] of [github/commands.ts], the chain of
    replacements every comment of the disposition planner passes through before
    it is posted.  The replacements are applied in the source's order with the
    expressions of [JsRegex]; a repeated group, which [JsRegex] lacks, is unrolled
    to the length of the subject ([UpTo]), beyond which no further copy of a
    non-empty group can match. *)

From stdpp Require Import base list strings option.
From Stdlib Require Import Ascii.
From S2P Require Import Prelude JsString JsRegex GateAdvisory.

Local Open Scope nat_scope.
Local Open Scope string_scope.

(** [(?:r)*], tried greedily, for at most [n] copies. *)
Fixpoint UpTo (n : nat) (r : re) : re :=
  match n with
  | O => Eps
  | S n' => Alt (Cat r (UpTo n' r)) Eps
  end.

(** The recurring pieces: [\b...\b], a number with optional sign and fraction,
    an arrow between two numbers. *)
Definition bounded (r : re) : re := Cat WordBoundary (Cat r WordBoundary).
Definition words (ws : list string) : re := alt_all (lit_ci <$> ws).
Definition digits : re := Plus is_digit.
Definition opt_spaces : re := Rep is_space.
Definition opt_lit (s : string) : re := Opt (lit_ci s).
Definition signed_number : re :=
  cat_all [Opt (Chr (fun c => Ascii.eqb c "-" || Ascii.eqb c "+")); digits; Opt (Cat (lit_ci ".") digits)].
Definition transition : re :=
  cat_all [signed_number; opt_spaces; words ["->"; "→"; "to"]; opt_spaces; signed_number].

Definition PRIVATE : string := "private context".

Definition PRIVATE_REPLACEMENTS : list re :=
  [ cat_all [WordBoundary; lit_ci "open pr count"; spaces; digits; spaces; lit_ci "exceeds threshold"; spaces; digits;
             WordBoundary; opt_lit "."];
    cat_all [WordBoundary; lit_ci "open pr count is at or below"; spaces; digits; WordBoundary];
    cat_all [WordBoundary; lit_ci "merged pr count"; spaces; digits; spaces; lit_ci "is below upstream floor"; spaces;
             digits; WordBoundary; opt_lit "."];
    cat_all [WordBoundary; lit_ci "issue-discovery history"; opt_spaces; lit_ci "("; opt_spaces; digits; spaces;
             lit_ci "valid solved,"; opt_spaces; lit_ci "credibility"; spaces; signed_number; opt_spaces; lit_ci ")";
             spaces; lit_ci "is below upstream floors"; opt_spaces; lit_ci "("; opt_spaces; digits; spaces;
             lit_ci "valid solved,"; opt_spaces; signed_number; spaces; lit_ci "credibility"; opt_spaces; lit_ci ")";
             opt_lit "."];
    cat_all [WordBoundary; lit_ci "credibility"; spaces; signed_number; spaces; lit_ci "is below floor"; spaces;
             signed_number; WordBoundary; opt_lit "."];
    cat_all [WordBoundary; words ["effective"; "projected"; "estimated"]; lit_ci " score";
             Opt (Cat (lit_ci " change") opt_s); WordBoundary; Opt (Cat spaces (lit_ci "from")); spaces; transition];
    bounded (alt_all [Cat (lit_ci "raw trust score") opt_s; Cat (lit_ci "trust score") opt_s; Cat (lit_ci "wallet") opt_s;
             Cat (lit_ci "hotkey") opt_s; Cat (lit_ci "coldkey") opt_s; Cat (lit_ci "seed phrase") opt_s;
             Cat (lit_ci "mnemonic") opt_s]);
    bounded (alt_all [Cat (lit_ci "public score estimate") opt_s; Cat (lit_ci "estimated score") opt_s;
             Cat (lit_ci "score estimate") opt_s; Cat (lit_ci "estimated reward") opt_s; Cat (lit_ci "reward") opt_s;
             Cat (lit_ci "reward estimate") opt_s; Cat (lit_ci "payout") opt_s; lit_ci "farming"; lit_ci "scoreability";
             Cat (lit_ci "score preview") opt_s; Cat (lit_ci "projected score change") opt_s]);
    bounded (alt_all [Cat (lit_ci "cohort") opt_s; cat_all [lit_ci "miner"; maybe_sep; lit_ci "originated"];
             cat_all [lit_ci "human"; maybe_sep; lit_ci "originated"]; lit_ci "raw trust"]);
    bounded (alt_all [lit_ci "private reviewability"; Cat (lit_ci "reviewability internal") opt_s]);
    bounded (alt_all [Cat (lit_ci "private ranking") opt_s; Cat (lit_ci "ranking") opt_s]);
    bounded (words ["open_pr_pressure"; "closed_pr_credibility"; "low_credibility"; "maintainer_lane";
             "inactive_or_unknown_lane"; "issue_discovery_only"; "merged_pr_history_floor";
             "issue_discovery_validity_floor"]);
    bounded (alt_all [Cat (lit_ci "credibility") (Opt (Cat (lit_ci " update") opt_s)); lit_ci "closed pr credibility";
             lit_ci "low credibility"; lit_ci "open pr pressure"]);
    cat_all [WordBoundary; lit_ci PRIVATE; WordBoundary; spaces; transition] ].

(** [sanitizeReviewabilityTerm]: the command name in [@loopover reviewability]
    stays.  [before] is the text already scanned, last character first. *)
Fixpoint reverse_onto (s acc : string) : string :=
  match s with EmptyString => acc | String c s' => reverse_onto s' (String c acc) end.

Definition head_char (s : string) : option ascii := match s with String c _ => Some c | EmptyString => None end.

Definition after_mention (before : string) : bool :=
  String.prefix (reverse_onto "@loopover " "") (toLowerCase before).

Fixpoint sanitizeReviewabilityTerm_from (fuel : nat) (before s : string) : string :=
  match fuel with
  | O => s
  | S fuel' =>
      match s with
      | EmptyString => ""
      | String c s' =>
          match m (bounded (lit_ci "reviewability")) (head_char before) s (fun _ rest => Some rest) with
          | Some rest =>
              let matched := String.substring 0 (String.length s - String.length rest) s in
              (if after_mention before then matched else PRIVATE)
              ++ sanitizeReviewabilityTerm_from fuel' (reverse_onto matched before) rest
          | None => String c (sanitizeReviewabilityTerm_from fuel' (String c before) s')
          end
      end
  end.

Definition sanitizeReviewabilityTerm (value : string) : string :=
  sanitizeReviewabilityTerm_from (String.length value) "" value.

(** [/private context(?:,\s*private context)+/gi] on a subject of [n] characters. *)
Definition repeated_private (n : nat) : re :=
  let more := cat_all [lit_ci ","; opt_spaces; lit_ci PRIVATE] in
  cat_all [lit_ci PRIVATE; more; UpTo n more].

Definition sanitizePublicComment (value : string) : string :=
  let sanitized := List.fold_left (fun v r => replace_all r PRIVATE v) PRIVATE_REPLACEMENTS value in
  let sanitized := replace_all (bounded (lit_ci "likely_duplicate")) "possible overlap with existing work" sanitized in
  let terms := sanitizeReviewabilityTerm sanitized in
  replace_all (repeated_private (String.length terms)) PRIVATE terms.

(** ** The unrolled group loses no match *)

Fixpoint copies (k : nat) (r : re) : re :=
  match k with O => Eps | S k' => Cat r (copies k' r) end.

Lemma UpTo_enough r : (forall prev s prev' rest, denotes r prev s prev' rest -> String.length rest < String.length s) ->
  forall k n prev s prev' rest, denotes (copies k r) prev s prev' rest -> String.length s <= n ->
  denotes (UpTo n r) prev s prev' rest.
Proof.
  intros Hr. induction k as [| k IH]; intros n prev s prev' rest H Hn; simpl in H.
  - inversion H; subst. destruct n; simpl; eauto with loopover.
  - apply denotes_cat in H as (prev1 & s1 & H1 & H2). pose proof (Hr _ _ _ _ H1).
    destruct n as [| n]; [lia |]. simpl. apply D_alt_l, denotes_cat. exists prev1, s1. split; [done |].
    apply (IH n); [done | lia].
Qed.

(** ** Sanity checks against the language *)

Example sanitize_terms :
  sanitizePublicComment "Wallets, hotkey,mnemonics: estimated score 3 -> 4.5; @LoopOver reviewability of reviewability"
  = "private context: private context; @LoopOver reviewability of private context".
Proof. vm_compute. reflexivity. Qed.

Example sanitize_numbers :
  sanitizePublicComment "Open PR count 12 exceeds threshold 5. Score preview 1 to 2."
  = "private context private context.".
Proof. vm_compute. reflexivity. Qed.

Example sanitize_plain : sanitizePublicComment "rebase onto main, then push" = "rebase onto main, then push".
Proof. vm_compute. reflexivity. Qed.
