(* ===== verification/AgentActions.v ===== *)
(** * The disposition planner

    Models [settings/agent-actions.ts]: given the gate's verdict, the state of a
    pull request and the repository's autonomy, the GitHub actions to take, and
    the circuit breakers that may afterwards turn a merge or a close into a hold.
    [planAgentMaintenanceActions] is the source's function with its local
    constants as definitions over the input and its numbered sections as
    functions that extend the list of actions planned so far; an early [return]
    is a branch that ends there.

    The theorems about the plan are in [AgentPlan], those about the breakers in
    [AgentBreakers]. *)

From stdpp Require Import base list strings option.
From Stdlib Require Import Ascii.
From S2P Require Import Prelude JsNumber JsString IteratePolicy Autonomy PrDisposition Guardrail GateAdvisory PublicComment.

Local Open Scope nat_scope.
Local Open Scope string_scope.
Local Open Scope js_scope.

(** ** Labels *)

Definition DEFAULT_SLOP_GATE_MIN_SCORE : num := nz 60.
Definition AGENT_LABEL_READY : string := "ready-to-merge".
Definition AGENT_LABEL_CHANGES : string := "changes-requested".
Definition DEFAULT_BLACKLIST_LABEL : string := "slop".
Definition DEFAULT_CONTRIBUTOR_CAP_LABEL : string := "over-contributor-limit".
Definition DEFAULT_REVIEW_NAG_LABEL : string := "review-nag-cooldown".
Definition DEFAULT_COPYCAT_LABEL : string := "copycat".
Definition AGENT_LABEL_NEEDS_REVIEW : string := "manual-review".
Definition AGENT_LABEL_MIGRATION_COLLISION : string := "migration-collision".
Definition AGENT_LABEL_PENDING_CLOSURE : string := "pending-closure".

(** [string | null | undefined] where the code tells the two apart. *)
Inductive label_setting := l_undefined | l_null | l_named (l : string).

Definition resolveNullableLabel (configured : label_setting) (fallback : string) : option string :=
  match configured with
  | l_null => None
  | l_undefined => Some fallback
  | l_named l => Some l
  end.

(** ** Automation authors *)

Definition PROTECTED_AUTOCLOSE_AUTHORS : list string := ["github-actions[bot]"; "dependabot[bot]"; "renovate[bot]"].

Definition parseGitHubLoginList (value : option string) : list string :=
  js_set (List.filter (fun l => negb (str_empty l))
    (List.map (fun login => toLowerCase (trim login))
       (split_runs (fun c => is_space c || Ascii.eqb c ",") (value ?? "")))).

(** [env?.PROTECTED_AUTOCLOSE_AUTHORS_EXTRA]. *)
Definition protectedAutocloseAuthors (extra_env : option string) : list string :=
  let extra := parseGitHubLoginList extra_env in
  if Nat.ltb 0 (List.length extra) then js_set (PROTECTED_AUTOCLOSE_AUTHORS ++ extra)%list
  else PROTECTED_AUTOCLOSE_AUTHORS.

Definition isProtectedAutomationAuthor (login : option string) (extra_env : option string) : bool :=
  match login with
  | Some l => set_has (protectedAutocloseAuthors extra_env) (toLowerCase l)
  | None => false
  end.

(** ** Planned actions *)

Inductive LabelOp := op_add | op_remove.

#[global] Instance LabelOp_eq_dec : EqDecision LabelOp.
Proof. solve_decision. Defined.

Inductive CloseKind :=
| ck_linked_issue_hard_rule | ck_blacklist | ck_contributor_cap | ck_review_nag | ck_screenshot_table
| ck_heuristic | ck_copycat.

#[global] Instance CloseKind_eq_dec : EqDecision CloseKind.
Proof. solve_decision. Defined.

Inductive CloseCiState := ccs_failed | ccs_not_required.

Record PlannedAgentAction := mkAction {
  actionClass : AgentActionClass;
  autonomyClass : option AgentActionClass;
  requiresApproval : bool;
  reason : string;
  label : option string;
  labelOp : option LabelOp;
  comment : option string;
  reviewBody : option string;
  mergeMethod : option AutoMergeMethod;
  closeComment : option string;
  closeReasons : option (list string);
  closeKind : option CloseKind;
  closeRequiresCiState : option CloseCiState;
  closeRequiresMergeableState : option bool;
  closeRequiresThreadResolved : option bool;
  closeRequiresDuplicateStillOpen : option bool;
  duplicateWinnerPrNumber : option num;
  closeConcreteEvidence : option bool;
  closeConcreteEvidenceCodes : option (list string);
  expectedHeadSha : option string;
  dismissStaleApproval : option bool;
  assignee : option string;
}.

(** The object literals the planner pushes: the fields it sets, the others
    absent. *)
Definition label_action (auth : option AgentActionClass) (kind : option CloseKind) (approval : bool) (why : string)
    (l : string) (op : option LabelOp) (note : option string) : PlannedAgentAction :=
  mkAction ac_label auth approval why (Some l) op note None None None None kind
    None None None None None None None None None None.

Definition policy_close (kind : CloseKind) (approval : bool) (why : string) (message : string) (sha : option string)
    : PlannedAgentAction :=
  mkAction ac_close None approval why None None None None None (Some message) (Some [why]) (Some kind)
    None None None None None None None sha None None.

Definition assign_action (approval : bool) (login : string) : PlannedAgentAction :=
  mkAction ac_assign None approval "auto-assign PR opener" None None None None None None None None
    None None None None None None None None None (Some login).

Definition approve_action (approval : bool) (sha : option string) : PlannedAgentAction :=
  mkAction ac_approve None approval "gate passed, CI green" None None None
    (Some "LoopOver approves — the gate is satisfied and CI is green.") None None None None
    None None None None None None None sha None None.

Definition dismiss_action (approval : bool) (sha : option string) : PlannedAgentAction :=
  mkAction ac_approve None approval "stale approval retracted — a newer commit no longer qualifies for approval"
    None None None None None None None None None None None None None None None sha (Some true) None.

Definition merge_action (approval : bool) (why : string) (method : AutoMergeMethod) (sha : option string)
    : PlannedAgentAction :=
  mkAction ac_merge None approval why None None None None (Some method) None None None
    None None None None None None None sha None None.

Definition is_class (c : AgentActionClass) (a : PlannedAgentAction) : bool := bool_decide (actionClass a = c).
Definition is_remove (a : PlannedAgentAction) : bool := bool_decide (labelOp a = Some op_remove).

(** ** Concrete evidence *)

Definition CONCRETE_EVIDENCE_BLOCKER_CODES : list string :=
  ["secret_leak"; "duplicate_pr_risk"; "surface_lane_reject"; "manifest_missing_tests";
   "manifest_linked_issue_required"; "pre_merge_check_required"; "lockfile_tamper_risk"; "missing_linked_issue";
   "linked_issue_superseded"; "self_authored_linked_issue"; "content_lane_deliverable_missing"].

Definition AI_JUDGMENT_BLOCKER_CODES : list string := ["ai_consensus_defect"; "ai_review_split"].

(** ** Input of the planner *)

Inductive CiState := ci_passed | ci_failed | ci_pending | ci_unverified.

#[global] Instance CiState_eq_dec : EqDecision CiState.
Proof. solve_decision. Defined.

Inductive CopycatGateMode := cg_off | cg_warn | cg_label | cg_block.

#[global] Instance CopycatGateMode_eq_dec : EqDecision CopycatGateMode.
Proof. solve_decision. Defined.

Inductive CapItemKind := cap_pull_requests | cap_issues | cap_both.
Inductive CapScope := scope_repository | scope_install.

#[global] Instance CapScope_eq_dec : EqDecision CapScope.
Proof. solve_decision. Defined.

Record LinkedIssueHardRule := mkHardRule { hr_violated : bool; hr_reason : option string }.
Record BlacklistMatch := mkBlacklistMatch { bm_matched : bool; bm_reason : option string }.
Record ContributorCapMatch := mkCapMatch {
  cm_matched : bool; cm_authorLogin : string; cm_openCount : num; cm_cap : num;
  cm_itemKind : CapItemKind; cm_scope : option CapScope }.
Record ReviewNagMatch := mkNagMatch { rn_matched : bool; rn_authorLogin : string; rn_pingCount : num; rn_maxPings : num }.
Record CopycatMatch := mkCopycatMatch { cy_matched : bool; cy_score : num; cy_matchedPullNumber : num }.
Record ScreenshotTableMatch := mkScreenshotMatch { sm_matched : bool; sm_reason : option string }.
Record LinkedIssueVerify := mkVerify { lv_verifyBeforeClose : bool; lv_closeDelaySeconds : num }.
Record Hold := mkHold { h_reason : string; h_comment : string }.
Record CheckHold := mkCheckHold { ch_name : string; ch_appSlug : string; ch_conclusion : string }.

Record PlanPr := mkPlanPr {
  p_mergeableState : option string;
  p_reviewDecision : option string;
  p_slopRisk : option num;
  p_labels : list string;
  p_linkedDuplicateCount : option num;
  p_linkedDuplicateWinnerNumber : option num;
  p_headSha : option string;
  p_mergeBlockedSha : option string;
  p_mergeBlockedReason : option string;
  p_approvedHeadSha : option string;
  p_authorLogin : option string;
}.

(** [AgentActionPlanInput] without the fields the planner documents as ignored
    ([aiCiRefutationEnabled], [ciRequiredContextsVerified], [pr.linkedIssues]).
    A check that is only counted ([nonRequiredCheckFailures]) is its name. *)
Record AgentActionPlanInput := mkPlanInput {
  i_conclusion : GateCheckConclusion;
  i_blockerTitles : list string;
  i_gateBlockerCodes : option (list string);
  i_autonomy : option AutonomyPolicy;
  i_autoMaintain : option AutoMaintainPolicy;
  i_slopGateMinScore : option num;
  i_changedPaths : list string;
  i_hardGuardrailGlobs : list string;
  i_guardrailEscalationOnCleanReview : option string;
  i_guardrailEscalationEffort : option string;
  i_guardrailEscalationSelfConsistencyRuns : option num;
  i_guardrailEscalationModel : option string;
  i_guardrailEscalationProvider : option string;
  i_manualReviewLabel : label_setting;
  i_manualReviewLabelAppliedSha : option string;
  i_readyToMergeLabel : label_setting;
  i_changesRequestedLabel : label_setting;
  i_migrationCollisionLabel : label_setting;
  i_pendingClosureLabel : label_setting;
  i_manualReviewLockContentionResolved : option bool;
  i_authorIsOwner : bool;
  i_authorIsAdmin : bool;
  i_authorIsAutomationBot : bool;
  i_closeOwnerAuthors : option bool;
  i_ciState : CiState;
  i_ciHasPending : option bool;
  i_failingCheckNames : option (list string);
  i_linkedIssueHardRule : option LinkedIssueHardRule;
  i_blacklistMatch : option BlacklistMatch;
  i_blacklistLabel : label_setting;
  i_contributorCapMatch : option ContributorCapMatch;
  i_contributorCapLabel : label_setting;
  i_reviewNagMatch : option ReviewNagMatch;
  i_reviewNagLabel : label_setting;
  i_copycatMatch : option CopycatMatch;
  i_copycatGateMode : option CopycatGateMode;
  i_copycatLabel : label_setting;
  i_linkedIssueVerify : option LinkedIssueVerify;
  i_migrationCollisionHold : option Hold;
  i_advisoryCheckHold : option (list CheckHold);
  i_ignoredCheckNonPassing : option (list CheckHold);
  i_nonRequiredCheckFailures : option (list string);
  i_unlinkedIssueMatchHold : option Hold;
  i_priorityEligibilityHold : option Hold;
  i_screenshotEvidenceHold : option Hold;
  i_unlinkedIssueMatchClose : option Hold;
  i_aiReviewLowConfidenceHold : option Hold;
  i_screenshotTableMatch : option ScreenshotTableMatch;
  i_screenshotTableEvidenceUnresolved : option bool;
  i_pr : PlanPr;
}.

Definition concreteCloseEvidenceCodes (input : AgentActionPlanInput) : list string :=
  List.filter (fun code => set_has CONCRETE_EVIDENCE_BLOCKER_CODES code && negb (set_has AI_JUDGMENT_BLOCKER_CODES code))
    (i_gateBlockerCodes input ?? []).

Definition hasConcreteCloseEvidence (input : AgentActionPlanInput) (ciFailed isConflict : bool) : bool :=
  if ciFailed || isConflict then true
  else Nat.ltb 0 (List.length (concreteCloseEvidenceCodes input)).

Definition same_label (a b : string) : bool := String.eqb (toLowerCase a) (toLowerCase b).

Definition hasLabel (labels : list string) (name : string) : bool := existsb (fun l => same_label l name) labels.

(** A planned addition of the label. *)
Definition adds_label (name : string) (a : PlannedAgentAction) : bool :=
  is_class ac_label a && negb (is_remove a)
  && match label a with Some l => same_label l name | None => false end.

Definition hasLabelOrPlanned (labels : list string) (actions : list PlannedAgentAction) (name : string) : bool :=
  hasLabel labels name || existsb (adds_label name) actions.

Record AgentDispositionLabelSettings := mkLabelSettings {
  ls_manualReviewLabel : label_setting;
  ls_readyToMergeLabel : label_setting;
  ls_changesRequestedLabel : label_setting;
  ls_migrationCollisionLabel : label_setting;
  ls_pendingClosureLabel : label_setting;
}.

Record ResolvedAgentDispositionLabels := mkLabels {
  manualReview : option string;
  readyToMerge : option string;
  changesRequested : option string;
  migrationCollision : option string;
  pendingClosure : option string;
}.

Definition resolveAgentDispositionLabels (settings : AgentDispositionLabelSettings) : ResolvedAgentDispositionLabels :=
  mkLabels
    (resolveNullableLabel (ls_manualReviewLabel settings) AGENT_LABEL_NEEDS_REVIEW)
    (resolveNullableLabel (ls_readyToMergeLabel settings) AGENT_LABEL_READY)
    (resolveNullableLabel (ls_changesRequestedLabel settings) AGENT_LABEL_CHANGES)
    (resolveNullableLabel (ls_migrationCollisionLabel settings) AGENT_LABEL_MIGRATION_COLLISION)
    (resolveNullableLabel (ls_pendingClosureLabel settings) AGENT_LABEL_PENDING_CLOSURE).

Definition guardrailHoldReason (changedPaths hardGuardrailGlobs : list string) : string :=
  let matches := changedPathsHittingGuardrail changedPaths hardGuardrailGlobs in
  match matches with
  | [] => "guarded path -> manual review (changed-file list unavailable)"
  | _ =>
      let visible := join ", " (List.map (fun path => "`" ++ path ++ "`") (firstn 3 matches)) in
      "guarded path -> manual review (" ++ visible
      ++ (if Nat.ltb 3 (List.length matches)
          then ", and " ++ num_to_string (nsub (nnat (List.length matches)) (nz 3)) ++ " more" else "") ++ ")"
  end.

(** ** Circuit breakers *)

(** The fields of the added label besides its name and operation. *)
Definition is_this_label (name : string) (a : PlannedAgentAction) : bool :=
  is_class ac_label a && bool_decide (label a = Some name).

Definition withManualReviewHoldLabel (planned : list PlannedAgentAction) (labelSettings : AgentDispositionLabelSettings)
    (auth : AgentActionClass) (approval : bool) (why : string) : list PlannedAgentAction :=
  match manualReview (resolveAgentDispositionLabels labelSettings) with
  | None => planned
  | Some name =>
      let next := List.filter (fun a => negb (is_this_label name a && is_remove a)) planned in
      if existsb (fun a => is_this_label name a && negb (is_remove a)) next then next
      else (next ++ [label_action (Some auth) None approval why name (Some op_add) None])%list
  end.

Definition downgradeMergeToHold (planned : list PlannedAgentAction) (holdOnly : bool)
    (labelSettings : AgentDispositionLabelSettings) : list PlannedAgentAction :=
  if negb holdOnly || negb (existsb (is_class ac_merge) planned) then planned
  else
    let labels := resolveAgentDispositionLabels labelSettings in
    let next := List.filter (fun a => negb (is_class ac_merge a)) planned in
    let stagedMerge := List.find (is_class ac_merge) planned in
    let withHold := withManualReviewHoldLabel next labelSettings ac_merge
      (match stagedMerge with Some a => requiresApproval a | None => false end)
      "accuracy circuit-breaker engaged (merge precision dropped) — would-merge held for human review" in
    List.filter (fun a => negb (match readyToMerge labels with
                                | Some promised => is_this_label promised a && negb (is_remove a)
                                | None => false
                                end)) withHold.

Definition CONTENT_INSPECTION_CLOSE_KINDS : list CloseKind := [ck_screenshot_table; ck_review_nag; ck_copycat].

Definition isBreakerEligibleClose (a : PlannedAgentAction) : bool :=
  bool_decide (closeKind a = Some ck_heuristic)
  || match closeKind a with Some k => bool_decide (k ∈ CONTENT_INSPECTION_CLOSE_KINDS) | None => false end.

Definition noConcreteEvidenceUnderProjectBreaker (closeHoldOnly : bool) (a : PlannedAgentAction) : bool :=
  is_class ac_close a && isBreakerEligibleClose a && negb (is_true_flag (closeConcreteEvidence a)) && closeHoldOnly.

Definition everyJustifyingCodeUntrustworthy (untrustworthyRuleCodes : list string) (a : PlannedAgentAction) : bool :=
  let codes := closeConcreteEvidenceCodes a ?? [] in
  Nat.ltb 0 (List.length codes) && forallb (set_has untrustworthyRuleCodes) codes.

Definition isDowngradableClose (closeHoldOnly : bool) (untrustworthyRuleCodes : list string) (a : PlannedAgentAction)
    : bool :=
  is_class ac_close a && isBreakerEligibleClose a
  && (noConcreteEvidenceUnderProjectBreaker closeHoldOnly a
      || (is_true_flag (closeConcreteEvidence a) && everyJustifyingCodeUntrustworthy untrustworthyRuleCodes a)).

Definition isOrphanedCoupledLabel (droppedCloseKinds : list CloseKind) (a : PlannedAgentAction) : bool :=
  is_class ac_label a && match closeKind a with Some k => bool_decide (k ∈ droppedCloseKinds) | None => false end.

Definition downgradeCloseToHold (planned : list PlannedAgentAction) (closeHoldOnly : bool)
    (labelSettings : AgentDispositionLabelSettings) (untrustworthyRuleCodes : list string) : list PlannedAgentAction :=
  let downgradable := isDowngradableClose closeHoldOnly untrustworthyRuleCodes in
  if negb (existsb downgradable planned) then planned
  else
    let droppedCloseKinds := omap closeKind (List.filter downgradable planned) in
    let next := List.filter (fun a => negb (downgradable a) && negb (isOrphanedCoupledLabel droppedCloseKinds a)) planned in
    let droppedClose := List.find downgradable planned in
    withManualReviewHoldLabel next labelSettings ac_close
      (match droppedClose with Some a => requiresApproval a | None => false end)
      "close-precision circuit-breaker engaged — would-close held for human review".

(** ** Messages *)

Definition closeMessage (reasons : list string) : string :=
  "LoopOver is closing this pull request on the maintainer's behalf (" ++ join "; " reasons
  ++ "). This is an automated maintenance action — to pursue this change, please open a new pull request with the issues resolved. Closed PRs may be analyzed later to improve review accuracy, but they are not automatically reopened or re-reviewed.".

Definition blacklistCloseMessage : string :=
  "LoopOver is closing this pull request on the maintainer's behalf. This account is blocked from contributing to this repository, so the change was not reviewed on its merits. This is an automated maintenance action.".

Definition item_noun (k : CapItemKind) : string :=
  match k with cap_pull_requests => "pull requests" | cap_issues => "issues" | cap_both => "pull requests and issues" end.

Definition contributorCapCloseMessage (authorLogin : string) (openCount cap : num) (itemNoun : CapItemKind)
    (scope : option CapScope) : string :=
  let scopeDescription :=
    if bool_decide (scope = Some scope_install)
    then "this install's configured limit (across every repository it gates, combined)"
    else "this repository's configured limit" in
  "LoopOver closed this because @" ++ authorLogin ++ " has " ++ num_to_string openCount ++ " open " ++ item_noun itemNoun
  ++ ", above " ++ scopeDescription ++ " of " ++ num_to_string cap
  ++ ". Close or merge an existing one to open a new one. This is an automated maintenance action.".

Definition reviewNagCloseMessage (authorLogin : string) (pingCount maxPings : num) : string :=
  "LoopOver closed this because @" ++ authorLogin ++ " pinged @loopover " ++ num_to_string pingCount
  ++ " times, above this repository's configured limit of " ++ num_to_string maxPings
  ++ ". Please wait for the cooldown window to pass before requesting review again. This is an automated maintenance action.".

Definition copycatCloseMessage (matchedPullNumber : num) : string :=
  "LoopOver is closing this pull request on the maintainer's behalf. Its added code overlaps prior art already submitted in #"
  ++ num_to_string matchedPullNumber
  ++ " above this repository's configured threshold. This is an automated maintenance action — to pursue original work, please open a new pull request.".

Definition screenshotTableCloseMessage (why : string) : string := why ++ " This is an automated maintenance action.".

Definition dquote : string := String (ascii_of_N 34) "".

Definition advisoryHoldReason (holds : list CheckHold) : string :=
  "advisory check-run held for manual review: "
  ++ join "; " (List.map (fun h => dquote ++ ch_name h ++ dquote ++ " (" ++ ch_appSlug h ++ ") concluded " ++ ch_conclusion h) holds).

Definition advisoryHoldComment (holds : list CheckHold) : string :=
  "Held for manual review: a maintainer-configured advisory check-run reported a non-passing result — "
  ++ join "; " (List.map (fun h => "`" ++ ch_name h ++ "` (from `" ++ ch_appSlug h ++ "`) concluded `" ++ ch_conclusion h ++ "`") holds)
  ++ ". This does not block CI, but a maintainer should review it. This is an automated maintenance action.".

(** ** The contributor-cap short circuit *)

(** [...(sha ? { expectedHeadSha: sha } : {})]: an empty SHA pins nothing. *)
Definition pin (sha : option string) : option string :=
  match sha with Some (String c s) => Some (String c s) | _ => None end.

Definition contributor (authorIsOwner authorIsAdmin authorIsAutomationBot : bool) : bool :=
  negb authorIsOwner && negb authorIsAdmin && negb authorIsAutomationBot.

(** A close with its coupled label, as the policy short circuits push them. *)
Definition close_with_label (autonomy : option AutonomyPolicy) (kind : CloseKind) (why message : string)
    (l : option string) (sha : option string) : list PlannedAgentAction :=
  let lvl := resolveAutonomy autonomy ac_close in
  if isActingAutonomyLevel lvl
  then policy_close kind (autonomyRequiresApproval lvl) why (sanitizePublicComment message) (pin sha)
       :: match l with
          | Some name => [label_action (Some ac_close) (Some kind) (autonomyRequiresApproval lvl) why name (Some op_add) None]
          | None => []
          end
  else [].

Definition planContributorCapClose (autonomy : option AutonomyPolicy) (authorIsOwner authorIsAdmin authorIsAutomationBot : bool)
    (contributorCapMatch : option ContributorCapMatch) (contributorCapLabel : label_setting) (headSha : option string)
    : option (list PlannedAgentAction) :=
  match contributorCapMatch with
  | Some cm =>
      if cm_matched cm && contributor authorIsOwner authorIsAdmin authorIsAutomationBot
      then Some (close_with_label autonomy ck_contributor_cap "over the per-contributor open-item cap"
                   (contributorCapCloseMessage (cm_authorLogin cm) (cm_openCount cm) (cm_cap cm) (cm_itemKind cm) (cm_scope cm))
                   (resolveNullableLabel contributorCapLabel DEFAULT_CONTRIBUTOR_CAP_LABEL) headSha)
      else None
  | None => None
  end.

(** ** The planner *)

Definition push_if (cond : bool) (a : PlannedAgentAction) (actions : list PlannedAgentAction) : list PlannedAgentAction :=
  if cond then (actions ++ [a])%list else actions.

Definition is_some {A} (o : option A) : bool := match o with Some _ => true | None => false end.

(** [a != null && b != null && a === b]. *)
Definition same_sha (a b : option string) : bool :=
  match a, b with Some x, Some y => String.eqb x y | _, _ => false end.

Definition plan_label_settings (input : AgentActionPlanInput) : AgentDispositionLabelSettings :=
  mkLabelSettings (i_manualReviewLabel input) (i_readyToMergeLabel input) (i_changesRequestedLabel input)
    (i_migrationCollisionLabel input) (i_pendingClosureLabel input).

Record Derived := mkDerived {
  dv_reviewGood : bool; dv_guardrailHit : bool; dv_guardrailEscalationCleared : bool; dv_closeActing : bool }.

Definition buildPrDispositionInput (input : AgentActionPlanInput) (derived : Derived) : PrDispositionInput :=
  mkDispositionInput
    (fun key => match key with
     | mh_guardrailHit => dv_guardrailHit derived
     | mh_migrationCollisionHold => is_some (i_migrationCollisionHold input)
     | mh_unlinkedIssueMatchHold => is_some (i_unlinkedIssueMatchHold input)
     | mh_priorityEligibilityHold => is_some (i_priorityEligibilityHold input)
     | mh_screenshotEvidenceHold => is_some (i_screenshotEvidenceHold input)
     | mh_advisoryCheckHold =>
         match i_advisoryCheckHold input with Some hs => Nat.ltb 0 (List.length hs) | None => false end
     | mh_unlinkedIssueMatchCloseWithoutCloseActing =>
         is_some (i_unlinkedIssueMatchClose input) && negb (dv_closeActing derived)
     end)
    (p_mergeableState (i_pr input))
    (dv_reviewGood derived)
    (Some (match i_ignoredCheckNonPassing input with Some cs => Nat.ltb 0 (List.length cs) | None => false end
           && Nat.eqb (List.length (i_nonRequiredCheckFailures input ?? [])) 0
           && negb (bool_decide (i_ciState input = ci_failed))))
    (Some (dv_guardrailEscalationCleared derived)).

(** The escalation knobs of which at least one must be set. *)
Definition escalation_configured (input : AgentActionPlanInput) : bool :=
  is_some (i_guardrailEscalationEffort input) || is_some (i_guardrailEscalationSelfConsistencyRuns input)
  || is_some (i_guardrailEscalationModel input) || is_some (i_guardrailEscalationProvider input).

Definition resolveHoldCause (input : AgentActionPlanInput) : list MergeHoldInput :=
  let guardrailHit := isGuardrailHit (i_changedPaths input) (i_hardGuardrailGlobs input) in
  let reviewGood := bool_decide (i_conclusion input = gc_success) && bool_decide (i_ciState input = ci_passed) in
  let cleared := guardrailHit && reviewGood && escalation_configured input
                 && bool_decide (i_guardrailEscalationOnCleanReview input = Some "proceed") in
  heldBy (derivePrDisposition (buildPrDispositionInput input
    (mkDerived reviewGood guardrailHit cleared (isActingAutonomyLevel (resolveAutonomy (i_autonomy input) ac_close))))).

Definition maybePlanAssign (actions : list PlannedAgentAction) (input : AgentActionPlanInput) : list PlannedAgentAction :=
  let lvl := resolveAutonomy (i_autonomy input) ac_assign in
  match pin (p_authorLogin (i_pr input)) with
  | Some login => push_if (isActingAutonomyLevel lvl) (assign_action (autonomyRequiresApproval lvl) login) actions
  | None => actions
  end.

Definition maybePlanCopycatLabel (actions : list PlannedAgentAction) (input : AgentActionPlanInput) : list PlannedAgentAction :=
  let lvl := resolveAutonomy (i_autonomy input) ac_label in
  match i_copycatMatch input, resolveNullableLabel (i_copycatLabel input) DEFAULT_COPYCAT_LABEL with
  | Some cy, Some name =>
      push_if (bool_decide (i_copycatGateMode input = Some cg_label) && cy_matched cy
               && contributor (i_authorIsOwner input) (i_authorIsAdmin input) (i_authorIsAutomationBot input)
               && isActingAutonomyLevel lvl)
        (label_action None (Some ck_copycat) (autonomyRequiresApproval lvl) "copycat containment above threshold" name
           (Some op_add) None) actions
  | _, _ => actions
  end.

Module Plan.
Section Planner.
Variable input : AgentActionPlanInput.

Definition level (c : AgentActionClass) : AutonomyLevel := resolveAutonomy (i_autonomy input) c.
Definition acting (c : AgentActionClass) : bool := isActingAutonomyLevel (level c).
Definition approval (c : AgentActionClass) : bool := autonomyRequiresApproval (level c).

Definition autoMaintain : AutoMaintainPolicy := i_autoMaintain input ?? DEFAULT_AUTO_MAINTAIN_POLICY.
Definition slopGateMinScore : num := i_slopGateMinScore input ?? DEFAULT_SLOP_GATE_MIN_SCORE.
Definition failingCheckNames : list string := i_failingCheckNames input ?? [].
Definition approvalsSatisfied : bool :=
  neqb (requireApprovals autoMaintain) (nz 0) || bool_decide (p_reviewDecision (i_pr input) = Some "APPROVED").

Definition isContributor : bool :=
  contributor (i_authorIsOwner input) (i_authorIsAdmin input) (i_authorIsAutomationBot input).

(** The short circuits ahead of all merit analysis, each the plan it returns when
    it fires. *)
Definition blacklist_plan : option (list PlannedAgentAction) :=
  match i_blacklistMatch input with
  | Some bm =>
      if bm_matched bm && isContributor
      then Some (close_with_label (i_autonomy input) ck_blacklist "blacklisted contributor" blacklistCloseMessage
                   (resolveNullableLabel (i_blacklistLabel input) DEFAULT_BLACKLIST_LABEL) (p_headSha (i_pr input)))
      else None
  | None => None
  end.

Definition cap_plan : option (list PlannedAgentAction) :=
  planContributorCapClose (i_autonomy input) (i_authorIsOwner input) (i_authorIsAdmin input)
    (i_authorIsAutomationBot input) (i_contributorCapMatch input) (i_contributorCapLabel input) (p_headSha (i_pr input)).

Definition nag_plan : option (list PlannedAgentAction) :=
  match i_reviewNagMatch input with
  | Some rn =>
      if rn_matched rn && isContributor
      then Some (close_with_label (i_autonomy input) ck_review_nag "review-nag cooldown"
                   (reviewNagCloseMessage (rn_authorLogin rn) (rn_pingCount rn) (rn_maxPings rn))
                   (resolveNullableLabel (i_reviewNagLabel input) DEFAULT_REVIEW_NAG_LABEL) (p_headSha (i_pr input)))
      else None
  | None => None
  end.

Definition copycat_plan : option (list PlannedAgentAction) :=
  match i_copycatMatch input with
  | Some cy =>
      if cy_matched cy && isContributor && bool_decide (i_copycatGateMode input = Some cg_block)
      then Some (close_with_label (i_autonomy input) ck_copycat "copycat containment above threshold"
                   (copycatCloseMessage (cy_matchedPullNumber cy))
                   (resolveNullableLabel (i_copycatLabel input) DEFAULT_COPYCAT_LABEL) (p_headSha (i_pr input)))
      else None
  | None => None
  end.

Definition screenshot_unresolved_plan : option (list PlannedAgentAction) :=
  if is_true_flag (i_screenshotTableEvidenceUnresolved input) && isContributor then Some [] else None.

Definition screenshot_plan : option (list PlannedAgentAction) :=
  match i_screenshotTableMatch input with
  | Some sm =>
      if sm_matched sm && isContributor
      then Some (if acting ac_close
                 then [policy_close ck_screenshot_table (approval ac_close) "missing before/after screenshot table"
                         (sanitizePublicComment (screenshotTableCloseMessage
                            (sm_reason sm ?? "missing a before/after screenshot table")))
                         (pin (p_headSha (i_pr input)))]
                 else [])
      else None
  | None => None
  end.

Definition skipped_plan : option (list PlannedAgentAction) :=
  if bool_decide (i_conclusion input = gc_skipped) then Some [] else None.

Definition short_circuits : list (option (list PlannedAgentAction)) :=
  [blacklist_plan; cap_plan; nag_plan; copycat_plan; screenshot_unresolved_plan; screenshot_plan; skipped_plan].

(** *** CI, conflicts and eligibility *)

Definition ciPassed : bool := bool_decide (i_ciState input = ci_passed).
Definition ciFailed : bool := bool_decide (i_ciState input = ci_failed).
Definition ciPending : bool := bool_decide (i_ciState input = ci_pending) || is_true_flag (i_ciHasPending input).
Definition ciUnverified : bool := bool_decide (i_ciState input = ci_unverified).
Definition conclusion : GateCheckConclusion := i_conclusion input.
Definition is_failure : bool := bool_decide (conclusion = gc_failure).
Definition isConflict : bool := bool_decide (assessMergeableState (p_mergeableState (i_pr input)) = ma_conflict).
Definition isReviewThreadJustified : bool := set_has (i_gateBlockerCodes input ?? []) REVIEW_THREAD_BLOCKER_CODE.
Definition closeEligible : bool :=
  isContributor || ((i_authorIsOwner input || i_authorIsAdmin input) && is_true_flag (i_closeOwnerAuthors input)).
Definition pendingCiMayStillCloseForTerminalReason : bool :=
  closeEligible && acting ac_close && (is_failure || isConflict || ciFailed).

(** *** Guardrail, disposition and labels *)

Definition gatePassing : bool := bool_decide (conclusion = gc_success).
Definition guardrailHit : bool := isGuardrailHit (i_changedPaths input) (i_hardGuardrailGlobs input).
Definition guardrailReason : string :=
  if guardrailHit then guardrailHoldReason (i_changedPaths input) (i_hardGuardrailGlobs input)
  else "guarded path -> manual review".
Definition reviewGood : bool := gatePassing && ciPassed.
Definition guardrailEscalationCleared : bool :=
  guardrailHit && reviewGood && escalation_configured input
  && bool_decide (i_guardrailEscalationOnCleanReview input = Some "proceed").
Definition disposition : PrDisposition :=
  derivePrDisposition (buildPrDispositionInput input
    (mkDerived reviewGood guardrailHit guardrailEscalationCleared (acting ac_close))).
Definition heldForManualReview : bool := d_heldForManualReview disposition.
Definition mergeableStateUnstable : bool := heldForUnstableMergeState disposition.
Definition labels : ResolvedAgentDispositionLabels := resolveAgentDispositionLabels (plan_label_settings input).

(** *** Merge and close *)

Definition mergeTerminallyBlocked : bool := same_sha (p_mergeBlockedSha (i_pr input)) (p_headSha (i_pr input)).
Definition alreadyApprovedThisHead : bool := same_sha (p_approvedHeadSha (i_pr input)) (p_headSha (i_pr input)).
Definition canMerge : bool :=
  wouldMerge disposition && acting ac_merge && approvalsSatisfied && negb mergeTerminallyBlocked.
Definition willClose : bool :=
  closeEligible && acting ac_close
  && (ciFailed || (is_failure && negb (is_some (i_aiReviewLowConfidenceHold input))) || isConflict).
Definition unlinkedIssueMatchViolated : bool :=
  is_some (i_unlinkedIssueMatchClose input) && closeEligible && acting ac_close.

(** *** The linked-issue hard rule *)

Definition hard_rule_violated : bool :=
  match i_linkedIssueHardRule input with Some hr => hr_violated hr | None => false end.
Definition hard_rule_reason (fallback : string) : string :=
  (hr ← i_linkedIssueHardRule input; hr_reason hr) ?? fallback.
Definition linkedIssueViolated : bool := hard_rule_violated && closeEligible && acting ac_close.
Definition verifyBeforeClose : bool :=
  match i_linkedIssueVerify input with Some lv => lv_verifyBeforeClose lv | None => false end.
Definition closeDelaySeconds : num := (lv_closeDelaySeconds <$> i_linkedIssueVerify input) ?? nz 0.
Definition pendingClosureLabelPresent : bool :=
  match pendingClosure labels with Some l => hasLabel (p_labels (i_pr input)) l | None => false end.
Definition canApplyPendingClosureFlagNow : bool :=
  is_some (pendingClosure labels) && acting ac_review_state_label && negb (approval ac_review_state_label).
Definition flagForLinkedIssue : bool :=
  linkedIssueViolated && verifyBeforeClose && negb pendingClosureLabelPresent && canApplyPendingClosureFlagNow.
Definition willCloseForLinkedIssue : bool :=
  linkedIssueViolated && (negb verifyBeforeClose || pendingClosureLabelPresent || negb canApplyPendingClosureFlagNow).
Definition clearLinkedIssueFlag : bool := negb hard_rule_violated && pendingClosureLabelPresent.
Definition linkedIssueCloseInFlight : bool := flagForLinkedIssue || willCloseForLinkedIssue.

(** *** Reasons *)

Definition ciReason : string :=
  if ciFailed then "CI is failing" ++ match failingCheckNames with [] => "" | ns => " (" ++ join ", " ns ++ ")" end
  else if ciUnverified then "CI could not be verified" else "".
Definition verdict : string := "verdict=" ++ conclusion_to_string conclusion.
Definition because (why : string) : string := verdict ++ "; " ++ why.
Definition verdict_and_ci : string := if str_empty ciReason then verdict else because ciReason.

Definition manualHoldReason : option string :=
  if guardrailHit && negb guardrailEscalationCleared then Some (because guardrailReason)
  else if ciUnverified then Some "CI could not be verified"
  else if bool_decide (conclusion = gc_action_required) then Some "review requires maintainer action"
  else if negb reviewGood && negb willClose && (negb closeEligible || acting ac_close) then Some verdict_and_ci
  else None.

(** *** 1) Holds of a would-merge, announced by the manual-review label *)

Definition push_merge_hold (wanted : bool) (why : string) (note : option string) (actions : list PlannedAgentAction)
    : list PlannedAgentAction :=
  match manualReview labels with
  | Some l =>
      push_if (wanted && acting ac_merge && negb (hasLabelOrPlanned (p_labels (i_pr input)) actions l))
        (label_action (Some ac_merge) None (approval ac_merge) why l (Some op_add) note) actions
  | None => actions
  end.

(** A hold that carries its own reason and comment. *)
Definition push_hold (wanted : bool) (hold : option Hold) (actions : list PlannedAgentAction) : list PlannedAgentAction :=
  match hold with
  | Some h => push_merge_hold wanted (because (h_reason h)) (Some (sanitizePublicComment (h_comment h))) actions
  | None => actions
  end.

Definition section1 (actions : list PlannedAgentAction) : list PlannedAgentAction :=
  push_merge_hold (reviewGood && guardrailHit && negb guardrailEscalationCleared) (because guardrailReason) None actions.

(** 1b) Lifting a hold the planner itself applied. *)
Definition noManualReviewHoldWanted : bool :=
  negb (is_some manualHoldReason) && negb (is_some (i_migrationCollisionHold input))
  && negb (is_some (i_unlinkedIssueMatchHold input)) && negb (is_some (i_priorityEligibilityHold input))
  && negb (is_some (i_screenshotEvidenceHold input)) && negb (is_some (i_unlinkedIssueMatchClose input))
  && negb heldForManualReview && negb mergeTerminallyBlocked.

Definition section1b (actions : list PlannedAgentAction) : list PlannedAgentAction :=
  match manualReview labels with
  | Some l =>
      push_if (noManualReviewHoldWanted && is_some (i_manualReviewLabelAppliedSha input) && hasLabel (p_labels (i_pr input)) l)
        (label_action (Some ac_merge) None (approval ac_merge)
           ("manual-review hold resolved — clearing the " ++ dquote ++ l ++ dquote ++ " label the bot applied")
           l (Some op_remove) None) actions
  | None => actions
  end.

Definition section1c (actions : list PlannedAgentAction) : list PlannedAgentAction :=
  push_hold (reviewGood && negb (acting ac_review_state_label)) (i_migrationCollisionHold input) actions.
Definition section1d (actions : list PlannedAgentAction) : list PlannedAgentAction :=
  push_hold (reviewGood && negb (acting ac_review_state_label)) (i_unlinkedIssueMatchHold input) actions.
Definition section1d_screenshot (actions : list PlannedAgentAction) : list PlannedAgentAction :=
  push_hold reviewGood (i_screenshotEvidenceHold input) actions.
Definition section1d_priority (actions : list PlannedAgentAction) : list PlannedAgentAction :=
  push_hold reviewGood (i_priorityEligibilityHold input) actions.
Definition section1e (actions : list PlannedAgentAction) : list PlannedAgentAction :=
  push_hold (reviewGood && negb (acting ac_close) && negb (acting ac_review_state_label))
    (i_unlinkedIssueMatchClose input) actions.

(** *** 2) Disposition labels *)

Definition state_label : option string :=
  if linkedIssueCloseInFlight || unlinkedIssueMatchViolated || negb reviewGood then changesRequested labels
  else if is_some (i_migrationCollisionHold input) then migrationCollision labels
  else if heldForManualReview || mergeTerminallyBlocked then manualReview labels
  else if mergeableStateUnstable then None
  else readyToMerge labels.

Definition advisory_holds : option (list CheckHold) :=
  match i_advisoryCheckHold input with Some (h :: hs) => Some (h :: hs) | _ => None end.

Definition state_reason : string :=
  if linkedIssueCloseInFlight then "linked-issue hard rule: " ++ hard_rule_reason "ineligible linked issue"
  else
    match i_unlinkedIssueMatchClose input, unlinkedIssueMatchViolated with
    | Some h, true => because (h_reason h)
    | _, _ =>
        if negb reviewGood then verdict_and_ci
        else match i_migrationCollisionHold input, i_unlinkedIssueMatchHold input, i_unlinkedIssueMatchClose input,
                   advisory_holds with
             | Some h, _, _, _ => because (h_reason h)
             | _, Some h, _, _ => because (h_reason h)
             | _, _, Some h, _ => because (h_reason h)
             | _, _, _, Some hs => because (advisoryHoldReason hs)
             | _, _, _, _ =>
                 if heldForManualReview then because guardrailReason
                 else if mergeTerminallyBlocked
                 then because ("CI green, but a prior merge attempt failed and is held: "
                               ++ (p_mergeBlockedReason (i_pr input) ?? "reason unrecorded"))
                 else because "CI green"
             end
    end.

Definition state_comment : option string :=
  if negb linkedIssueCloseInFlight && negb unlinkedIssueMatchViolated && reviewGood
  then
    match i_migrationCollisionHold input, i_unlinkedIssueMatchHold input, i_unlinkedIssueMatchClose input,
          advisory_holds, i_screenshotEvidenceHold input with
    | Some h, _, _, _, _ => Some (sanitizePublicComment (h_comment h))
    | _, Some h, _, _, _ => Some (sanitizePublicComment (h_comment h))
    | _, _, Some h, _, _ => Some (sanitizePublicComment (h_comment h))
    | _, _, _, Some hs, _ => Some (sanitizePublicComment (advisoryHoldComment hs))
    | _, _, _, _, Some h => Some (sanitizePublicComment (h_comment h))
    | _, _, _, _, _ => None
    end
  else None.

Definition push_state_label (actions : list PlannedAgentAction) : list PlannedAgentAction :=
  match state_label with
  | Some l =>
      push_if (negb (hasLabelOrPlanned (p_labels (i_pr input)) actions l))
        (label_action (Some ac_review_state_label) None (approval ac_review_state_label) state_reason l None state_comment)
        actions
  | None => actions
  end.

Definition stale_removal (stale : string) : PlannedAgentAction :=
  label_action (Some ac_review_state_label) None (approval ac_review_state_label)
    ("disposition resolved — clearing the stale " ++ dquote ++ stale ++ dquote ++ " label") stale (Some op_remove) None.

Fixpoint clear_stale (livePrLabels : list string) (siblings : list (option string)) (alreadyHandled : list string)
    (actions : list PlannedAgentAction) : list PlannedAgentAction :=
  match siblings with
  | [] => actions
  | None :: rest => clear_stale livePrLabels rest alreadyHandled actions
  | Some stale :: rest =>
      let staleLower := toLowerCase stale in
      if bool_decide (Some stale = state_label) || set_has alreadyHandled staleLower
         || negb (set_has livePrLabels staleLower)
      then clear_stale livePrLabels rest alreadyHandled actions
      else clear_stale livePrLabels rest (staleLower :: alreadyHandled) (actions ++ [stale_removal stale])%list
  end.

Definition dispositionLabelSiblings : list (option string) :=
  [readyToMerge labels; migrationCollision labels; changesRequested labels].

Definition flag_action (l : string) : PlannedAgentAction :=
  let ruleReason := hard_rule_reason "the linked issue is not eligible for a community PR" in
  let window := if ngtb closeDelaySeconds (nz 0) then "~" ++ num_to_string closeDelaySeconds ++ "s"
                else "the next verification" in
  label_action (Some ac_review_state_label) (Some ck_linked_issue_hard_rule) (approval ac_review_state_label)
    ("linked-issue hard rule (flagged for verification): " ++ ruleReason) l (Some op_add)
    (Some ("⚠️ This PR links an ineligible issue (" ++ ruleReason ++ ") and will be closed on re-verification in "
           ++ window ++ " unless the linked issue changes.")).

Definition unflag_action (l : string) : PlannedAgentAction :=
  label_action (Some ac_review_state_label) (Some ck_linked_issue_hard_rule) (approval ac_review_state_label)
    "linked-issue hard rule resolved — clearing the pending-closure flag" l (Some op_remove)
    (Some "✓ The linked-issue hard-rule violation is resolved — this PR is no longer pending closure.").

Definition push_flags (actions : list PlannedAgentAction) : list PlannedAgentAction :=
  match pendingClosure labels with
  | Some l => push_if clearLinkedIssueFlag (unflag_action l) (push_if flagForLinkedIssue (flag_action l) actions)
  | None => actions
  end.

Definition section2 (actions : list PlannedAgentAction) : list PlannedAgentAction :=
  if acting ac_review_state_label
  then push_flags
         (clear_stale (List.map toLowerCase (p_labels (i_pr input))) dispositionLabelSiblings [] (push_state_label actions))
  else actions.

(** *** 3) Approve, or retract a stale approval *)

Definition approve_now : bool :=
  wouldApprove disposition && negb linkedIssueCloseInFlight && acting ac_approve
  && negb (bool_decide (p_reviewDecision (i_pr input) = Some "APPROVED")) && negb alreadyApprovedThisHead.

Definition approval_is_stale : bool :=
  match p_approvedHeadSha (i_pr input), p_headSha (i_pr input) with
  | Some approved, Some head => negb (String.eqb approved head)
  | _, _ => false
  end.

Definition section3 (actions : list PlannedAgentAction) : list PlannedAgentAction :=
  if approve_now then (actions ++ [approve_action (approval ac_approve) (pin (p_headSha (i_pr input)))])%list
  else push_if (approval_is_stale && acting ac_approve && negb canMerge && negb willClose && negb willCloseForLinkedIssue)
         (dismiss_action (approval ac_approve) (p_headSha (i_pr input))) actions.

(** *** 4) Disposition *)

Definition linked_issue_close : PlannedAgentAction :=
  let why := hard_rule_reason "the linked issue is not eligible for a community PR" in
  policy_close ck_linked_issue_hard_rule (approval ac_close) why (closeMessage [why]) (pin (p_headSha (i_pr input))).

Definition repeat_match_close (h : Hold) : PlannedAgentAction :=
  mkAction ac_close None (approval ac_close) (h_reason h) None None None None None (Some (closeMessage [h_reason h]))
    (Some [h_reason h]) (Some ck_heuristic) (Some ccs_not_required) None None None None None None
    (pin (p_headSha (i_pr input))) None None.

Definition the_merge : PlannedAgentAction :=
  merge_action (approval ac_merge)
    ("gate passed, CI green, mergeable, " ++ num_to_string (requireApprovals autoMaintain) ++ " approval(s) satisfied")
    (am_mergeMethod autoMaintain) (pin (p_headSha (i_pr input))).

Definition duplicate_linked : bool := ngtb (p_linkedDuplicateCount (i_pr input) ?? nz 0) (nz 0).

Definition close_reasons : list string :=
  let reasons :=
    ((if ciFailed then [ciReason] else [])
     ++ (if isConflict then ["conflicts with the base branch — resolve and open a fresh PR"] else [])
     ++ i_blockerTitles input
     ++ match p_slopRisk (i_pr input) with
        | Some risk => if ngeb risk slopGateMinScore
                       then [("slop score " ++ num_to_string risk ++ " ≥ " ++ num_to_string slopGateMinScore)%string] else []
        | None => []
        end
     ++ (if duplicate_linked
         then [match p_linkedDuplicateWinnerNumber (i_pr input) with
               | Some n => ("duplicate of open PR #" ++ num_to_string n)%string
               | None => "duplicate of another open PR"
               end]
         else []))%list in
  match reasons with [] => ["the review gate is not satisfied"] | rs => rs end.

Definition heuristic_close : PlannedAgentAction :=
  mkAction ac_close None (approval ac_close) (join "; " close_reasons) None None None None None
    (Some (closeMessage close_reasons)) (Some close_reasons) (Some ck_heuristic)
    (Some (if ciFailed then ccs_failed else ccs_not_required)) (Some isConflict) (Some isReviewThreadJustified)
    (Some duplicate_linked) (p_linkedDuplicateWinnerNumber (i_pr input))
    (Some (hasConcreteCloseEvidence input ciFailed isConflict)) (Some (concreteCloseEvidenceCodes input))
    (pin (p_headSha (i_pr input))) None None.

Definition section4 (actions : list PlannedAgentAction) : list PlannedAgentAction :=
  if flagForLinkedIssue then actions
  else if willCloseForLinkedIssue then (actions ++ [linked_issue_close])%list
  else
    match i_unlinkedIssueMatchClose input, unlinkedIssueMatchViolated with
    | Some h, true => (actions ++ [repeat_match_close h])%list
    | _, _ =>
        if canMerge then (actions ++ [the_merge])%list
        else if willClose then (actions ++ [heuristic_close])%list
        else actions
    end.

(** *** The fallback hold, and the transient hold that has cleared *)

Definition manualHoldAutonomyClass : AgentActionClass := if reviewGood then ac_merge else ac_close.

Definition section_fallback (actions : list PlannedAgentAction) : list PlannedAgentAction :=
  match manualHoldReason, manualReview labels with
  | Some why, Some l =>
      push_if (negb (existsb (fun a => is_class ac_merge a || is_class ac_close a) actions)
               && negb (hasLabelOrPlanned (p_labels (i_pr input)) actions l))
        (label_action (Some manualHoldAutonomyClass) None (approval manualHoldAutonomyClass) why l (Some op_add)
           (match i_aiReviewLowConfidenceHold input with
            | Some h => if reviewGood then None else Some (sanitizePublicComment (h_comment h))
            | None => None
            end)) actions
  | _, _ => actions
  end.

(** A planned action on the label, whatever it does to it. *)
Definition touches_label (l : string) (a : PlannedAgentAction) : bool :=
  is_class ac_label a && match label a with Some l' => same_label l' l | None => false end.

Definition section_contention (actions : list PlannedAgentAction) : list PlannedAgentAction :=
  match manualReview labels with
  | Some l =>
      push_if (is_true_flag (i_manualReviewLockContentionResolved input) && negb (is_some manualHoldReason)
               && hasLabel (p_labels (i_pr input)) l && negb (existsb (touches_label l) actions))
        (label_action (Some manualHoldAutonomyClass) None (approval manualHoldAutonomyClass)
           "AI-review lock contention has cleared and nothing else currently holds this PR — removing the transient manual-review hold"
           l (Some op_remove) None) actions
  | None => actions
  end.

(** What is planned whatever CI says. *)
Definition preamble : list PlannedAgentAction := maybePlanCopycatLabel (maybePlanAssign [] input) input.

Definition merit_sections (actions : list PlannedAgentAction) : list PlannedAgentAction :=
  section_contention (section_fallback (section4 (section3 (section2
    (section1e (section1d_priority (section1d_screenshot (section1d (section1c (section1b (section1 actions))))))))))).

Definition merit_plan : list PlannedAgentAction :=
  if ciPending && negb pendingCiMayStillCloseForTerminalReason then preamble else merit_sections preamble.

Definition planAgentMaintenanceActions : list PlannedAgentAction :=
  List.fold_right (fun early rest => match early with Some plan => plan | None => rest end) merit_plan short_circuits.

End Planner.
End Plan.
