(* ===== verification/AgentPlan.v ===== *)
(** * What the disposition planner promises

    Theorems about [Plan.planAgentMaintenanceActions] of [AgentActions].
    [plan_rule] is the rule the rest is proved by: a predicate holds of every
    planned action if it holds of each action the planner can push, under the
    conditions it pushes it. *)

From stdpp Require Import base list strings option sets.
From S2P Require Import Prelude JsNumber JsString IteratePolicy Autonomy PrDisposition Guardrail GateAdvisory PublicComment AgentActions.

Import Plan.

Local Open Scope nat_scope.
Local Open Scope string_scope.
Local Open Scope js_scope.

(** ** Reasoning about pushes *)

Ltac bools := repeat match goal with
  | H : _ && _ = true |- _ => apply andb_true_iff in H as [? ?]
  | H : negb _ = true |- _ => apply negb_true_iff in H
  | H : bool_decide _ = true |- _ => apply bool_decide_eq_true in H
  | H : bool_decide _ = false |- _ => apply bool_decide_eq_false in H
  | H : _ || _ = false |- _ => apply orb_false_iff in H as [? ?]
  end.

Lemma forall_push (P : PlannedAgentAction -> Prop) c a l :
  Forall P l -> (c = true -> P a) -> Forall P (push_if c a l).
Proof. intros Hl Ha. destruct c; simpl; [apply Forall_app; split; [done | by repeat constructor; apply Ha] | done]. Qed.

Lemma forall_snoc (P : PlannedAgentAction -> Prop) a l : Forall P l -> P a -> Forall P (l ++ [a])%list.
Proof. intros Hl Ha. apply Forall_app. by repeat constructor. Qed.

#[export] Hint Resolve forall_push forall_snoc : loopover.

(** No short circuit returned early. *)
Definition reaches_merit (input : AgentActionPlanInput) : Prop := Forall (eq None) (short_circuits input).

(** CI has settled, or a terminal reason to close is already known. *)
Definition settled (input : AgentActionPlanInput) : Prop :=
  ciPending input = false \/ pendingCiMayStillCloseForTerminalReason input = true.

Lemma plan_unfold input :
  (exists plan, Some plan ∈ short_circuits input /\ planAgentMaintenanceActions input = plan)
  \/ (reaches_merit input /\ planAgentMaintenanceActions input = merit_plan input).
Proof.
  unfold planAgentMaintenanceActions, reaches_merit. induction (short_circuits input) as [| [p |] l IH]; simpl.
  - right. split; [constructor | done].
  - left. exists p. split; [left | done].
  - destruct IH as [(plan & Hin & E) | [H E]]; [left; exists plan; split; [by right | done] | right; split; [by constructor | done]].
Qed.

(** What a predicate must satisfy to hold of the actions planned on the merits. *)
Record merit_rule (input : AgentActionPlanInput) (P : PlannedAgentAction -> Prop) : Prop := mkMeritRule {
  P_merge_hold : forall l why note, reviewGood input = true -> acting input ac_merge = true ->
    manualReview (labels input) = Some l -> hasLabel (p_labels (i_pr input)) l = false ->
    P (label_action (Some ac_merge) None (approval input ac_merge) why l (Some op_add) note);
  P_lift : forall l why, noManualReviewHoldWanted input = true -> is_some (i_manualReviewLabelAppliedSha input) = true ->
    manualReview (labels input) = Some l -> hasLabel (p_labels (i_pr input)) l = true ->
    P (label_action (Some ac_merge) None (approval input ac_merge) why l (Some op_remove) None);
  P_state : forall l, acting input ac_review_state_label = true -> state_label input = Some l ->
    hasLabel (p_labels (i_pr input)) l = false ->
    P (label_action (Some ac_review_state_label) None (approval input ac_review_state_label) (state_reason input) l None
    (state_comment input));
  P_stale : forall l, acting input ac_review_state_label = true -> Some l ∈ dispositionLabelSiblings input ->
    state_label input <> Some l -> hasLabel (p_labels (i_pr input)) l = true -> P (stale_removal input l);
  P_flag : forall l, acting input ac_review_state_label = true -> flagForLinkedIssue input = true ->
    pendingClosure (labels input) = Some l -> P (flag_action input l);
  P_unflag : forall l, acting input ac_review_state_label = true -> clearLinkedIssueFlag input = true ->
    pendingClosure (labels input) = Some l -> P (unflag_action input l);
  P_approve : approve_now input = true -> P (approve_action (approval input ac_approve) (pin (p_headSha (i_pr input))));
  P_dismiss : approve_now input = false -> approval_is_stale input = true -> acting input ac_approve = true ->
    canMerge input = false -> willClose input = false -> willCloseForLinkedIssue input = false ->
    P (dismiss_action (approval input ac_approve) (p_headSha (i_pr input)));
  P_linked_close : flagForLinkedIssue input = false -> willCloseForLinkedIssue input = true -> P (linked_issue_close input);
  P_repeat_close : forall h, linkedIssueCloseInFlight input = false -> unlinkedIssueMatchViolated input = true ->
    i_unlinkedIssueMatchClose input = Some h -> P (repeat_match_close input h);
  P_merge : linkedIssueCloseInFlight input = false -> unlinkedIssueMatchViolated input = false ->
    canMerge input = true -> P (the_merge input);
  P_close : linkedIssueCloseInFlight input = false -> unlinkedIssueMatchViolated input = false ->
    canMerge input = false -> willClose input = true -> P (heuristic_close input);
  P_fallback : forall why l note, manualHoldReason input = Some why -> manualReview (labels input) = Some l ->
    hasLabel (p_labels (i_pr input)) l = false ->
    P (label_action (Some (manualHoldAutonomyClass input)) None (approval input (manualHoldAutonomyClass input)) why l (Some op_add) note);
  P_contention : forall l why, is_true_flag (i_manualReviewLockContentionResolved input) = true ->
    manualHoldReason input = None -> manualReview (labels input) = Some l -> hasLabel (p_labels (i_pr input)) l = true ->
    P (label_action (Some (manualHoldAutonomyClass input)) None (approval input (manualHoldAutonomyClass input)) why l (Some op_remove) None);
}.

Section Rule.
Context (input : AgentActionPlanInput) (P : PlannedAgentAction -> Prop).

(** *** Short circuits *)
Hypothesis P_policy : forall kind why msg, isContributor input = true -> acting input ac_close = true ->
  kind <> ck_heuristic -> kind <> ck_linked_issue_hard_rule -> ~ reaches_merit input ->
  P (policy_close kind (approval input ac_close) why msg (pin (p_headSha (i_pr input)))).
Hypothesis P_policy_label : forall kind why l, isContributor input = true -> acting input ac_close = true ->
  kind <> ck_heuristic -> kind <> ck_linked_issue_hard_rule -> ~ reaches_merit input ->
  P (label_action (Some ac_close) (Some kind) (approval input ac_close) why l (Some op_add) None).

Lemma forall_close_with_label kind why msg l :
  isContributor input = true -> kind <> ck_heuristic -> kind <> ck_linked_issue_hard_rule -> ~ reaches_merit input ->
  Forall P (close_with_label (i_autonomy input) kind why msg l (p_headSha (i_pr input))).
Proof.
  intros Hc K1 K2 Hr. unfold close_with_label. case_eq (isActingAutonomyLevel (resolveAutonomy (i_autonomy input) ac_close)); intros Ha; [| constructor].
  constructor; [by apply P_policy |]. destruct l; constructor; [by apply P_policy_label | constructor].
Qed.

Lemma forall_short_circuit plan : Some plan ∈ short_circuits input -> Forall P plan.
Proof.
  intros H. assert (Hr : ~ reaches_merit input).
  { intros R. unfold reaches_merit in R. rewrite List.Forall_forall in R. apply list_elem_of_In in H. by specialize (R _ H). }
  unfold short_circuits in H. repeat (apply elem_of_cons in H as [H | H]); [.. | by apply elem_of_nil in H]; symmetry in H.
  - unfold blacklist_plan in H. destruct (i_blacklistMatch input); [| done]. case_match; [| done]. bools.
    injection H as <-. by apply forall_close_with_label.
  - unfold cap_plan, planContributorCapClose in H. destruct (i_contributorCapMatch input); [| done]. case_match; [| done]. bools.
    injection H as <-. by apply forall_close_with_label.
  - unfold nag_plan in H. destruct (i_reviewNagMatch input); [| done]. case_match; [| done]. bools.
    injection H as <-. by apply forall_close_with_label.
  - unfold copycat_plan in H. destruct (i_copycatMatch input); [| done]. case_match; [| done]. bools.
    injection H as <-. by apply forall_close_with_label.
  - unfold screenshot_unresolved_plan in H. case_match; [| done]. by injection H as <-.
  - unfold screenshot_plan in H. destruct (i_screenshotTableMatch input); [| done]. case_match; [| done]. bools.
    injection H as <-. case_eq (acting input ac_close); intros Ha; [| constructor].
    constructor; [by apply P_policy | constructor].
  - unfold skipped_plan in H. case_match; [| done]. by injection H as <-.
Qed.

(** *** The merit plan *)
Hypothesis P_assign : forall login, acting input ac_assign = true -> P (assign_action (approval input ac_assign) login).
Hypothesis P_copycat : forall l, isContributor input = true -> acting input ac_label = true ->
  i_copycatGateMode input = Some cg_label -> resolveNullableLabel (i_copycatLabel input) DEFAULT_COPYCAT_LABEL = Some l ->
  P (label_action None (Some ck_copycat) (approval input ac_label) "copycat containment above threshold" l (Some op_add) None).

Lemma forall_preamble : Forall P (preamble input).
Proof.
  unfold preamble, maybePlanCopycatLabel. assert (A : Forall P (maybePlanAssign [] input)).
  { unfold maybePlanAssign. case_match; [| constructor]. apply forall_push; [constructor | by apply P_assign]. }
  repeat case_match; try done. apply forall_push; [done |]. intros Hc. bools. by apply P_copycat.
Qed.

Hypothesis R : merit_rule input P.

Lemma forall_merge_hold wanted why note l :
  Forall P l -> (wanted = true -> reviewGood input = true) -> Forall P (push_merge_hold input wanted why note l).
Proof.
  intros Hl Hw. unfold push_merge_hold. case_eq (manualReview (labels input)); [intros l0 E | done].
  apply forall_push; [done |]. intros Hc. bools. unfold hasLabelOrPlanned in *. bools. by apply (P_merge_hold _ _ R); auto.
Qed.

Lemma forall_hold wanted h l :
  Forall P l -> (wanted = true -> reviewGood input = true) -> Forall P (push_hold input wanted h l).
Proof. intros Hl Hw. destruct h; [by apply forall_merge_hold | done]. Qed.

Lemma set_has_map l name : set_has (List.map toLowerCase l) (toLowerCase name) = hasLabel l name.
Proof.
  unfold set_has, hasLabel, same_label. apply Bool.eq_iff_eq_true. rewrite bool_decide_eq_true, existsb_exists, list_elem_of_In, in_map_iff.
  split; intros (x & H1 & H2); exists x; [split; [done | by rewrite H1, String.eqb_refl] | apply String.eqb_eq in H2; done].
Qed.

Lemma forall_stale siblings : forall handled l, acting input ac_review_state_label = true ->
  (forall s, Some s ∈ siblings -> Some s ∈ dispositionLabelSiblings input) -> Forall P l ->
  Forall P (clear_stale input (List.map toLowerCase (p_labels (i_pr input))) siblings handled l).
Proof.
  induction siblings as [| [s |] siblings IH]; intros handled l Ha Hs Hl; simpl; [done | |].
  - case_match; [apply IH; auto; intros; apply Hs; by right |]. bools.
    match goal with H : negb _ = false |- _ => apply negb_false_iff in H; rewrite set_has_map in H end.
    apply IH; [done | intros; apply Hs; by right |]. apply forall_snoc; [done |].
    apply (P_stale _ _ R); auto. apply Hs. left.
  - apply IH; auto. intros; apply Hs. by right.
Qed.

Lemma forall_section2 l : Forall P l -> Forall P (section2 input l).
Proof.
  intros Hl. unfold section2. case_eq (acting input ac_review_state_label); intros Ha; [| done].
  assert (Hs : Forall P (push_state_label input l)).
  { unfold push_state_label. case_eq (state_label input); [intros l0 E | done]. apply forall_push; [done |].
    intros Hc. unfold hasLabelOrPlanned in *. bools. by apply (P_state _ _ R). }
  pose proof (forall_stale (dispositionLabelSiblings input) [] _ Ha (fun s H => H) Hs) as Hst.
  unfold push_flags. case_eq (pendingClosure (labels input)); [intros l0 E | done].
  apply forall_push; [apply forall_push; [done |] |]; intros Hc; [by apply (P_flag _ _ R) | by apply (P_unflag _ _ R)].
Qed.

Lemma forall_section3 l : Forall P l -> Forall P (section3 input l).
Proof.
  intros Hl. unfold section3. case_eq (approve_now input); intros E; [apply forall_snoc; [done | by apply (P_approve _ _ R)] |].
  apply forall_push; [done |]. intros Hc. bools. by apply (P_dismiss _ _ R).
Qed.

Lemma forall_section4 l : Forall P l -> Forall P (section4 input l).
Proof.
  intros Hl. unfold section4. case_eq (flagForLinkedIssue input); intros E1; [done |].
  case_eq (willCloseForLinkedIssue input); intros E2; [apply forall_snoc; [done | by apply (P_linked_close _ _ R)] |].
  assert (F : linkedIssueCloseInFlight input = false) by (unfold linkedIssueCloseInFlight; by rewrite E1, E2).
  assert (M : unlinkedIssueMatchViolated input = false -> Forall P
    (if canMerge input then (l ++ [the_merge input])%list
     else if willClose input then (l ++ [heuristic_close input])%list else l)).
  { intros E4. case_eq (canMerge input); intros E5; [apply forall_snoc; [done | by apply (P_merge _ _ R)] |].
    case_eq (willClose input); intros E6; [apply forall_snoc; [done | by apply (P_close _ _ R)] | done]. }
  case_eq (unlinkedIssueMatchViolated input); intros E4; case_eq (i_unlinkedIssueMatchClose input); [intros h E3 | intros E3 | intros h E3 | intros E3]; auto.
  - apply forall_snoc; [done | by apply (P_repeat_close _ _ R)].
  - unfold unlinkedIssueMatchViolated in E4. by rewrite E3 in E4.
Qed.

Lemma forall_fallback l : Forall P l -> Forall P (section_fallback input l).
Proof.
  intros Hl. unfold section_fallback. case_eq (manualHoldReason input); [intros why E1 | done].
  case_eq (manualReview (labels input)); [intros l0 E2 | done]. apply forall_push; [done |].
  intros Hc. bools. unfold hasLabelOrPlanned in *. bools. by apply (P_fallback _ _ R).
Qed.

Lemma forall_contention l : Forall P l -> Forall P (section_contention input l).
Proof.
  intros Hl. unfold section_contention. case_eq (manualReview (labels input)); [intros l0 E2 | done].
  apply forall_push; [done |]. intros Hc. bools. apply (P_contention _ _ R); auto. by destruct (manualHoldReason input).
Qed.

Lemma forall_merit_sections l : Forall P l -> Forall P (merit_sections input l).
Proof.
  intros Hl. unfold merit_sections, section1, section1b, section1c, section1d, section1d_screenshot, section1d_priority, section1e.
  apply forall_contention, forall_fallback, forall_section4, forall_section3, forall_section2.
  do 5 (apply forall_hold; [| intros; bools; done]).
  assert (H1 : Forall P (push_merge_hold input (reviewGood input && guardrailHit input && negb (guardrailEscalationCleared input))
    (because input (guardrailReason input)) None l)) by (apply forall_merge_hold; [done | intros; bools; done]).
  case_eq (manualReview (labels input)); [intros l0 E | done]. apply forall_push; [done |]. intros Hc. bools. by apply (P_lift _ _ R).
Qed.
End Rule.

(** Everything the planner plans. *)
Lemma plan_rule input (P : PlannedAgentAction -> Prop) :
  (forall kind why msg, isContributor input = true -> acting input ac_close = true ->
     kind <> ck_heuristic -> kind <> ck_linked_issue_hard_rule -> ~ reaches_merit input ->
     P (policy_close kind (approval input ac_close) why msg (pin (p_headSha (i_pr input))))) ->
  (forall kind why l, isContributor input = true -> acting input ac_close = true ->
     kind <> ck_heuristic -> kind <> ck_linked_issue_hard_rule -> ~ reaches_merit input ->
     P (label_action (Some ac_close) (Some kind) (approval input ac_close) why l (Some op_add) None)) ->
  (forall login, acting input ac_assign = true -> P (assign_action (approval input ac_assign) login)) ->
  (forall l, isContributor input = true -> acting input ac_label = true -> i_copycatGateMode input = Some cg_label ->
     resolveNullableLabel (i_copycatLabel input) DEFAULT_COPYCAT_LABEL = Some l ->
     P (label_action None (Some ck_copycat) (approval input ac_label) "copycat containment above threshold" l (Some op_add) None)) ->
  (reaches_merit input -> settled input -> merit_rule input P) ->
  Forall P (planAgentMaintenanceActions input).
Proof.
  intros H1 H2 H3 H4 H5. destruct (plan_unfold input) as [(plan & Hin & ->) | [Hm ->]].
  - by apply (forall_short_circuit input P).
  - pose proof (forall_preamble input P H3 H4) as Hp. unfold merit_plan.
    destruct (ciPending input) eqn:E1, (pendingCiMayStillCloseForTerminalReason input) eqn:E2; simpl; try done;
      apply forall_merit_sections; try done; apply H5; try done; unfold settled; auto.
Qed.

(** ** Merges and closes *)

Definition terminal (a : PlannedAgentAction) : bool := is_class ac_merge a || is_class ac_close a.

Lemma filter_push (Q : PlannedAgentAction -> bool) c a l : Q a = false -> List.filter Q (push_if c a l) = List.filter Q l.
Proof. intros H. destruct c; simpl; [| done]. rewrite List.filter_app. simpl. by rewrite H, app_nil_r. Qed.

Lemma filter_past (Q : PlannedAgentAction -> bool) a l : Q a = false -> List.filter Q (l ++ [a])%list = List.filter Q l.
Proof. exact (filter_push Q true a l). Qed.

Section Terminals.
Context (input : AgentActionPlanInput).

Lemma terminals_merge_hold wanted why note l :
  List.filter terminal (push_merge_hold input wanted why note l) = List.filter terminal l.
Proof. unfold push_merge_hold. case_match; [by apply filter_push | done]. Qed.

Lemma terminals_hold wanted h l : List.filter terminal (push_hold input wanted h l) = List.filter terminal l.
Proof. destruct h; [apply terminals_merge_hold | done]. Qed.

Lemma terminals_stale live siblings : forall handled l,
  List.filter terminal (clear_stale input live siblings handled l) = List.filter terminal l.
Proof.
  induction siblings as [| [s |] siblings IH]; intros handled l; simpl; [done | | apply IH].
  case_match; [apply IH |]. rewrite IH. by apply filter_past.
Qed.

Lemma terminals_section2 l : List.filter terminal (section2 input l) = List.filter terminal l.
Proof.
  unfold section2, push_flags, push_state_label. destruct (acting input ac_review_state_label); [| done].
  transitivity (List.filter terminal (clear_stale input (List.map toLowerCase (p_labels (i_pr input)))
    (dispositionLabelSiblings input) [] (push_state_label input l))).
  - case_match; [| done]. by rewrite !filter_push.
  - rewrite terminals_stale. unfold push_state_label. case_match; [by apply filter_push | done].
Qed.

Lemma terminals_section3 l : List.filter terminal (section3 input l) = List.filter terminal l.
Proof. unfold section3. case_match; [by apply filter_past | by apply filter_push]. Qed.

Lemma terminals_preamble : List.filter terminal (preamble input) = [].
Proof.
  unfold preamble, maybePlanCopycatLabel, maybePlanAssign.
  repeat case_match; rewrite ?filter_push by done; reflexivity.
Qed.

Lemma section4_app l : section4 input l = (l ++ section4 input [])%list.
Proof. unfold section4. repeat case_match; rewrite ?app_nil_r; reflexivity. Qed.

Lemma section4_terminal : List.filter terminal (section4 input []) = section4 input [] /\ List.length (section4 input []) <= 1.
Proof. unfold section4. repeat case_match; simpl; split; reflexivity || lia. Qed.

Lemma terminals_fallback l : List.filter terminal (section_fallback input l) = List.filter terminal l.
Proof. unfold section_fallback. repeat case_match; try done; by apply filter_push. Qed.

Lemma terminals_contention l : List.filter terminal (section_contention input l) = List.filter terminal l.
Proof. unfold section_contention. case_match; [by apply filter_push | done]. Qed.

Lemma terminals_section1b l : List.filter terminal (section1b input l) = List.filter terminal l.
Proof. unfold section1b. case_match; [by apply filter_push | done]. Qed.

Lemma terminals_merit l :
  List.filter terminal (merit_sections input l) = (List.filter terminal l ++ section4 input [])%list.
Proof.
  unfold merit_sections. rewrite terminals_contention, terminals_fallback, section4_app, List.filter_app, (proj1 section4_terminal).
  f_equal. rewrite terminals_section3, terminals_section2. unfold section1e, section1d_priority, section1d_screenshot, section1d, section1c.
  rewrite !terminals_hold, terminals_section1b. apply terminals_merge_hold.
Qed.

(** On the merits, at most one action of a plan merges or closes, and it is the
    disposition's. *)
Lemma terminals_merit_plan :
  List.filter terminal (merit_plan input)
  = if ciPending input && negb (pendingCiMayStillCloseForTerminalReason input) then [] else section4 input [].
Proof. unfold merit_plan. case_match; [apply terminals_preamble |]. by rewrite terminals_merit, terminals_preamble. Qed.
End Terminals.

Lemma holdCause_planner input : resolveHoldCause input = heldBy (disposition input).
Proof. reflexivity. Qed.

Lemma disposition_mergeable input :
  mergeable (disposition input) = assessMergeableState (p_mergeableState (i_pr input)).
Proof. reflexivity. Qed.

Lemma no_holds_iff d : (forall key, ~ holds d key) <-> heldBy (derivePrDisposition d) = [].
Proof.
  setoid_rewrite <- heldBy_elem. split; [| intros ->; intros key; apply not_elem_of_nil].
  intros H. destruct (heldBy (derivePrDisposition d)) as [| k ks]; [done |]. exfalso. apply (H k). left.
Qed.

Lemma reviewGood_iff input : reviewGood input = true <-> i_conclusion input = gc_success /\ i_ciState input = ci_passed.
Proof. unfold reviewGood, gatePassing, ciPassed, conclusion. by rewrite andb_true_iff, !bool_decide_eq_true. Qed.

Lemma wouldMerge_disposition input : wouldMerge (disposition input) = true <->
  i_conclusion input = gc_success /\ i_ciState input = ci_passed /\ resolveHoldCause input = []
  /\ assessMergeableState (p_mergeableState (i_pr input)) = ma_clean.
Proof.
  unfold disposition. rewrite wouldMerge_iff, no_holds_iff. cbn [pd_reviewGood buildPrDispositionInput dv_reviewGood].
  rewrite reviewGood_iff, holdCause_planner. unfold disposition. cbn [pd_mergeableState]. tauto.
Qed.

Lemma inFlight_iff input : linkedIssueCloseInFlight input = linkedIssueViolated input.
Proof.
  unfold linkedIssueCloseInFlight, flagForLinkedIssue, willCloseForLinkedIssue.
  by destruct (linkedIssueViolated input), (verifyBeforeClose input), (pendingClosureLabelPresent input),
    (canApplyPendingClosureFlagNow input).
Qed.

(** Everything a merge needs. *)
Record merge_earned (input : AgentActionPlanInput) : Prop := {
  me_no_short_circuit : reaches_merit input;
  me_gate : i_conclusion input = gc_success;
  me_ci : i_ciState input = ci_passed;
  me_settled : i_ciHasPending input <> Some true;
  me_clean : assessMergeableState (p_mergeableState (i_pr input)) = ma_clean;
  me_unheld : resolveHoldCause input = [];
  me_autonomy : acting input ac_merge = true;
  me_approvals : approvalsSatisfied input = true;
  me_not_blocked : mergeTerminallyBlocked input = false;
  me_no_hard_rule : linkedIssueViolated input = false;
  me_no_repeat : unlinkedIssueMatchViolated input = false;
}.

Lemma canMerge_iff input : canMerge input = true <->
  (i_conclusion input = gc_success /\ i_ciState input = ci_passed /\ resolveHoldCause input = []
   /\ assessMergeableState (p_mergeableState (i_pr input)) = ma_clean)
  /\ acting input ac_merge = true /\ approvalsSatisfied input = true /\ mergeTerminallyBlocked input = false.
Proof. unfold canMerge. rewrite !andb_true_iff, negb_true_iff, wouldMerge_disposition. tauto. Qed.

Lemma good_has_no_terminal_reason input :
  i_conclusion input = gc_success -> i_ciState input = ci_passed ->
  assessMergeableState (p_mergeableState (i_pr input)) = ma_clean ->
  pendingCiMayStillCloseForTerminalReason input = false /\ (ciPending input = false <-> i_ciHasPending input <> Some true).
Proof.
  intros H1 H2 H3.
  unfold pendingCiMayStillCloseForTerminalReason, is_failure, conclusion, isConflict, ciFailed, ciPending, is_true_flag.
  rewrite H1, H2, H3. rewrite (bool_decide_eq_false_2 (gc_success = gc_failure)), (bool_decide_eq_false_2 (ma_clean = ma_conflict)),
    (bool_decide_eq_false_2 (ci_passed = ci_failed)), (bool_decide_eq_false_2 (ci_passed = ci_pending)) by done.
  split; [by rewrite !andb_false_r |]. simpl. by rewrite bool_decide_eq_false.
Qed.

Lemma short_circuit_no_merge input plan a : Some plan ∈ short_circuits input -> a ∈ plan -> actionClass a <> ac_merge.
Proof.
  intros H Ha. assert (F : Forall (fun a => actionClass a <> ac_merge) plan).
  { apply (forall_short_circuit input); [done.. |]. exact H. }
  rewrite List.Forall_forall in F. apply F. by apply list_elem_of_In.
Qed.

Lemma elem_terminal a l : a ∈ List.filter terminal l <-> a ∈ l /\ terminal a = true.
Proof. by rewrite !list_elem_of_In, filter_In. Qed.

(** The four ways a plan on the merits ends in a merge or a close. *)
Lemma section4_cases input a : a ∈ section4 input [] ->
  (willCloseForLinkedIssue input = true /\ a = linked_issue_close input)
  \/ (linkedIssueViolated input = false /\ unlinkedIssueMatchViolated input = true
      /\ exists h, i_unlinkedIssueMatchClose input = Some h /\ a = repeat_match_close input h)
  \/ (linkedIssueViolated input = false /\ unlinkedIssueMatchViolated input = false
      /\ canMerge input = true /\ a = the_merge input)
  \/ (linkedIssueViolated input = false /\ unlinkedIssueMatchViolated input = false
      /\ canMerge input = false /\ willClose input = true /\ a = heuristic_close input).
Proof.
  unfold section4. rewrite <- inFlight_iff. unfold linkedIssueCloseInFlight.
  destruct (flagForLinkedIssue input); [by intros ?%elem_of_nil |].
  destruct (willCloseForLinkedIssue input); [intros ->%list_elem_of_singleton; by left |]. intros H. right.
  destruct (i_unlinkedIssueMatchClose input) as [h |] eqn:U, (unlinkedIssueMatchViolated input) eqn:V;
    [apply list_elem_of_singleton in H as ->; left; eauto 10 | | unfold unlinkedIssueMatchViolated in V; by rewrite U in V |];
    right; destruct (canMerge input), (willClose input); simpl in H; try (apply list_elem_of_singleton in H as ->);
    try (by apply elem_of_nil in H); auto 10.
Qed.

(** A merge or close of the plan comes from a short circuit or from section 4 of
    a settled plan. *)
Lemma terminal_origin input a : a ∈ planAgentMaintenanceActions input -> terminal a = true ->
  (exists plan, Some plan ∈ short_circuits input /\ a ∈ plan)
  \/ (reaches_merit input /\ settled input /\ a ∈ section4 input []).
Proof.
  intros Ha Ht. destruct (plan_unfold input) as [(plan & Hin & E) | [Hm E]]; rewrite E in Ha; [left; eauto | right].
  assert (H : a ∈ List.filter terminal (merit_plan input)) by by apply elem_terminal.
  rewrite terminals_merit_plan in H. unfold settled.
  destruct (ciPending input), (pendingCiMayStillCloseForTerminalReason input); simpl in H; try (by apply elem_of_nil in H); auto.
Qed.

Lemma section4_in_plan input a : reaches_merit input -> settled input -> a ∈ section4 input [] ->
  a ∈ planAgentMaintenanceActions input.
Proof.
  intros Hm Hs Ha. destruct (plan_unfold input) as [(plan & Hin & _) | [_ ->]].
  - exfalso. unfold reaches_merit in Hm. rewrite List.Forall_forall in Hm. apply list_elem_of_In in Hin. by specialize (Hm _ Hin).
  - apply elem_terminal. rewrite terminals_merit_plan.
    destruct Hs as [-> | ->]; [done |]. by rewrite andb_false_r.
Qed.

Lemma merge_origin input a : a ∈ planAgentMaintenanceActions input -> actionClass a = ac_merge ->
  merge_earned input /\ a = the_merge input.
Proof.
  intros Ha Hc. destruct (terminal_origin input a Ha) as [(plan & Hin & Hp) | (Hm & Hs & H4)].
  { unfold terminal, is_class. by rewrite Hc. }
  { exfalso. by eapply short_circuit_no_merge. }
  apply section4_cases in H4 as [[_ ->] | [(_ & _ & h & _ & ->) | [(F & V & C & ->) | (_ & _ & _ & _ & ->)]]]; try discriminate.
  split; [| done]. apply canMerge_iff in C as ((G & CI & N & Cl) & A & Ap & B).
  destruct (good_has_no_terminal_reason input G CI Cl) as [T Pn].
  constructor; try done. apply Pn. destruct Hs as [Hs | Hs]; [done | by rewrite T in Hs].
Qed.

Lemma merge_reached input : merge_earned input -> the_merge input ∈ planAgentMaintenanceActions input.
Proof.
  intros [Hm G CI Hp Cl N A Ap B F V].
  destruct (good_has_no_terminal_reason input G CI Cl) as [_ Pn].
  apply section4_in_plan; [done | left; by apply Pn |].
  assert (C : canMerge input = true) by (apply canMerge_iff; tauto).
  rewrite <- inFlight_iff in F. unfold linkedIssueCloseInFlight in F. apply orb_false_iff in F as [F1 F2].
  unfold section4. rewrite F1, F2, V, C. destruct (i_unlinkedIssueMatchClose input); by left.
Qed.

(** C2: a merge is planned exactly when it is earned: no policy short circuit
    fires, the gate passed, every check has completed and passed, GitHub calls
    the branch clean, no declared hold stands, merging is within the agent's
    autonomy, required approvals are in, no earlier attempt failed terminally on
    this commit, and no linked-issue rule or repeat match is about to close the
    pull request.  There is then one merge, by the configured method, pinned to
    the reviewed head. *)
Theorem merge_planned_iff_earned input :
  ((exists a, a ∈ planAgentMaintenanceActions input /\ actionClass a = ac_merge) <-> merge_earned input)
  /\ (forall a, a ∈ planAgentMaintenanceActions input -> actionClass a = ac_merge ->
        a = the_merge input /\ expectedHeadSha a = pin (p_headSha (i_pr input))
        /\ mergeMethod a = Some (am_mergeMethod (autoMaintain input))).
Proof.
  split; [split |].
  - intros (a & Ha & Hc). by apply (merge_origin input a).
  - intros H. exists (the_merge input). split; [by apply merge_reached | done].
  - intros a Ha Hc. by destruct (merge_origin input a Ha Hc) as [_ ->].
Qed.

(** ** Closes *)

Definition closes (plan : list PlannedAgentAction) : Prop := exists a, a ∈ plan /\ actionClass a = ac_close.

Definition blacklisted (input : AgentActionPlanInput) : bool :=
  match i_blacklistMatch input with Some bm => bm_matched bm | None => false end.
Definition over_cap (input : AgentActionPlanInput) : bool :=
  match i_contributorCapMatch input with Some cm => cm_matched cm | None => false end.
Definition nagging (input : AgentActionPlanInput) : bool :=
  match i_reviewNagMatch input with Some rn => rn_matched rn | None => false end.
Definition copycat_blocked (input : AgentActionPlanInput) : bool :=
  match i_copycatMatch input with Some cy => cy_matched cy | None => false end
  && bool_decide (i_copycatGateMode input = Some cg_block).
Definition screenshot_missing (input : AgentActionPlanInput) : bool :=
  match i_screenshotTableMatch input with Some sm => sm_matched sm | None => false end
  && negb (is_true_flag (i_screenshotTableEvidenceUnresolved input)).

(** A deterministic policy closes the pull request ahead of any merit. *)
Definition policy_due (input : AgentActionPlanInput) : bool :=
  isContributor input
  && (blacklisted input || over_cap input || nagging input || copycat_blocked input || screenshot_missing input).

(** A confirmed adverse signal about the change itself. *)
Definition adverse (input : AgentActionPlanInput) : Prop :=
  i_ciState input = ci_failed \/ (i_conclusion input = gc_failure /\ i_aiReviewLowConfidenceHold input = None)
  \/ assessMergeableState (p_mergeableState (i_pr input)) = ma_conflict.

Lemma closes_with_label autonomy kind why msg l sha :
  closes (close_with_label autonomy kind why msg l sha) <-> isActingAutonomyLevel (resolveAutonomy autonomy ac_close) = true.
Proof.
  unfold closes, close_with_label. destruct (isActingAutonomyLevel _).
  - split; [done |]. intros _. eexists. split; [left |]. done.
  - split; [| done]. intros (a & H & _). by apply elem_of_nil in H.
Qed.

Lemma nil_closes : ~ closes [].
Proof. intros (a & H & _). by apply elem_of_nil in H. Qed.

Lemma some_plan_unmerited input plan : Some plan ∈ short_circuits input -> ~ reaches_merit input.
Proof.
  intros H Hm. unfold reaches_merit in Hm. rewrite List.Forall_forall in Hm.
  apply list_elem_of_In in H. by specialize (Hm _ H).
Qed.

(** A short circuit fires on its condition, and then closes when closing acts. *)
Definition fires (input : AgentActionPlanInput) (due : bool) (early : option (list PlannedAgentAction)) : Prop :=
  match early with
  | Some p => due = true /\ (closes p <-> acting input ac_close = true)
  | None => due = false
  end.

Lemma policy_fires input :
  fires input (isContributor input && blacklisted input) (blacklist_plan input)
  /\ fires input (isContributor input && over_cap input) (cap_plan input)
  /\ fires input (isContributor input && nagging input) (nag_plan input)
  /\ fires input (isContributor input && copycat_blocked input) (copycat_plan input).
Proof.
  unfold blacklist_plan, cap_plan, planContributorCapClose, nag_plan, copycat_plan, blacklisted, over_cap, nagging, copycat_blocked.
  fold (isContributor input). split_and!; (case_match; [| simpl; try (by rewrite andb_false_r); by destruct (isContributor input)]).
  all: destruct (isContributor input); rewrite ?andb_false_r, ?andb_true_r; try reflexivity.
  all: cbn [andb]; case_match; (split; [done | apply closes_with_label]) || done.
Qed.

Lemma screenshot_fires input :
  fires input (isContributor input && match i_screenshotTableMatch input with Some sm => sm_matched sm | None => false end)
    (screenshot_plan input).
Proof.
  unfold screenshot_plan. case_match; [| simpl; by rewrite andb_false_r]. rewrite andb_comm.
  case_match; [| done]. split; [done |]. destruct (acting input ac_close); [| by split; [intros ?%nil_closes |]].
  split; [done |]. intros _. eexists. split; [left |]. done.
Qed.

(** The plan closes exactly when a policy is due and closing acts, or when the
    merits, if they are reached, say so. *)
Lemma closes_ladder input :
  closes (planAgentMaintenanceActions input) <->
  if policy_due input then acting input ac_close = true
  else if isContributor input && is_true_flag (i_screenshotTableEvidenceUnresolved input) then False
  else if bool_decide (i_conclusion input = gc_skipped) then False
  else closes (merit_plan input).
Proof.
  destruct (policy_fires input) as (F1 & F2 & F3 & F4). pose proof (screenshot_fires input) as F5.
  unfold planAgentMaintenanceActions, short_circuits, policy_due. cbn [List.fold_right].
  destruct (isContributor input) eqn:C; simpl in *.
  - destruct (blacklist_plan input); [destruct F1 as [-> F1]; exact F1 |]. simpl in F1. rewrite F1. simpl.
    destruct (cap_plan input); [destruct F2 as [-> F2]; exact F2 |]. simpl in F2. rewrite F2. simpl.
    destruct (nag_plan input); [destruct F3 as [-> F3]; exact F3 |]. simpl in F3. rewrite F3. simpl.
    destruct (copycat_plan input); [destruct F4 as [-> F4]; exact F4 |]. simpl in F4. rewrite F4. simpl.
    unfold screenshot_unresolved_plan, screenshot_missing, skipped_plan. rewrite C, andb_true_r.
    destruct (is_true_flag _); [rewrite andb_false_r; split; [by intros ?%nil_closes | done] |]. rewrite andb_true_r.
    destruct (screenshot_plan input); [destruct F5 as [-> F5]; exact F5 |]. simpl in F5. rewrite F5.
    destruct (bool_decide (i_conclusion input = gc_skipped)); simpl; [split; [by intros ?%nil_closes | done] | done].
  - destruct (blacklist_plan input); [by destruct F1 |]. destruct (cap_plan input); [by destruct F2 |].
    destruct (nag_plan input); [by destruct F3 |]. destruct (copycat_plan input); [by destruct F4 |].
    unfold screenshot_unresolved_plan, skipped_plan. rewrite C, andb_false_r.
    destruct (screenshot_plan input); [by destruct F5 |]. destruct (bool_decide (i_conclusion input = gc_skipped)); simpl; [split; [by intros ?%nil_closes | done] | done].
Qed.

Lemma merits_reached input :
  reaches_merit input <-> policy_due input = false
    /\ isContributor input && is_true_flag (i_screenshotTableEvidenceUnresolved input) = false
    /\ i_conclusion input <> gc_skipped.
Proof.
  destruct (policy_fires input) as (F1 & F2 & F3 & F4). pose proof (screenshot_fires input) as F5.
  unfold reaches_merit, short_circuits, policy_due, screenshot_missing. rewrite !List.Forall_cons_iff.
  unfold fires in *.
  destruct (isContributor input) eqn:C; simpl in *.
  - destruct (blacklist_plan input); [destruct F1 as [-> _]; naive_solver |]. rewrite F1.
    destruct (cap_plan input); [destruct F2 as [-> _]; naive_solver |]. rewrite F2.
    destruct (nag_plan input); [destruct F3 as [-> _]; naive_solver |]. rewrite F3.
    destruct (copycat_plan input); [destruct F4 as [-> _]; naive_solver |]. rewrite F4. simpl.
    unfold screenshot_unresolved_plan, skipped_plan. rewrite C, andb_true_r.
    destruct (is_true_flag _); [naive_solver |]. rewrite andb_true_r.
    destruct (screenshot_plan input); [destruct F5 as [-> _]; naive_solver |]. rewrite F5.
    case_bool_decide; split; naive_solver.
  - destruct (blacklist_plan input); [by destruct F1 |]. destruct (cap_plan input); [by destruct F2 |].
    destruct (nag_plan input); [by destruct F3 |]. destruct (copycat_plan input); [by destruct F4 |].
    unfold screenshot_unresolved_plan, skipped_plan. rewrite C, andb_false_r.
    destruct (screenshot_plan input); [by destruct F5 |].
    case_bool_decide; split; naive_solver.
Qed.

Lemma willClose_iff input : willClose input = true <->
  closeEligible input = true /\ acting input ac_close = true /\ adverse input.
Proof.
  unfold willClose, ciFailed, is_failure, conclusion, isConflict, adverse.
  rewrite !andb_true_iff, !orb_true_iff, andb_true_iff, negb_true_iff, !bool_decide_eq_true.
  destruct (i_aiReviewLowConfidenceHold input); simpl; naive_solver.
Qed.

Lemma adverse_settles input : closeEligible input = true -> acting input ac_close = true -> adverse input ->
  pendingCiMayStillCloseForTerminalReason input = true.
Proof.
  unfold pendingCiMayStillCloseForTerminalReason, is_failure, conclusion, isConflict, ciFailed, adverse.
  intros -> -> H. simpl. rewrite !orb_true_iff, !bool_decide_eq_true. naive_solver.
Qed.

Lemma adverse_cannot_merge input : adverse input -> canMerge input = false.
Proof.
  intros H. apply not_true_iff_false. rewrite canMerge_iff. unfold adverse in H.
  intros ((G & CI & _ & Cl) & _). naive_solver congruence.
Qed.

Lemma merit_closes input : closes (merit_plan input) <-> settled input /\ exists a, a ∈ section4 input [] /\ actionClass a = ac_close.
Proof.
  assert (E : closes (merit_plan input) <-> exists a, a ∈ List.filter terminal (merit_plan input) /\ actionClass a = ac_close).
  { unfold closes. split; intros (a & Ha & Hc); exists a; (split; [| done]); [apply elem_terminal; split; [done |] | apply elem_terminal in Ha; tauto].
    unfold terminal, is_class. by rewrite Hc. }
  rewrite E, terminals_merit_plan. unfold settled.
  destruct (ciPending input), (pendingCiMayStillCloseForTerminalReason input); simpl;
    (split; [intros (a & Ha & Hc) | intros ([?|?] & a & Ha & Hc)]); try discriminate; try (by apply elem_of_nil in Ha); eauto 6.
Qed.

(** A reason to close on the merits.  The linked-issue rule and the repeat match
    wait for CI to settle; an adverse signal does not. *)
Definition merit_due (input : AgentActionPlanInput) : Prop :=
  adverse input
  \/ (settled input /\ (hard_rule_violated input = true \/ is_some (i_unlinkedIssueMatchClose input) = true)).

Lemma section4_closes input : acting input ac_close = true -> closeEligible input = true ->
  (exists a, a ∈ section4 input [] /\ actionClass a = ac_close)
  <-> flagForLinkedIssue input = false
      /\ (adverse input \/ hard_rule_violated input = true \/ is_some (i_unlinkedIssueMatchClose input) = true).
Proof.
  intros A El. split.
  - intros (a & Ha & Hc). split.
    { unfold section4 in Ha. destruct (flagForLinkedIssue input); [by apply elem_of_nil in Ha | done]. }
    apply section4_cases in Ha as [[W ->] | [(_ & V & _) | [(_ & _ & _ & ->) | (_ & _ & _ & W & ->)]]]; try discriminate.
    + unfold willCloseForLinkedIssue, linkedIssueViolated in W. bools. auto.
    + unfold unlinkedIssueMatchViolated in V. bools. auto.
    + apply willClose_iff in W as (_ & _ & W). auto.
  - intros [F D]. unfold section4. rewrite F.
    destruct (willCloseForLinkedIssue input) eqn:W; [eexists; split; [left |]; done |].
    destruct (unlinkedIssueMatchViolated input) eqn:V, (i_unlinkedIssueMatchClose input) as [h |] eqn:U.
    + eexists; split; [left |]; done.
    + unfold unlinkedIssueMatchViolated in V. by rewrite U in V.
    + unfold unlinkedIssueMatchViolated in V. by rewrite U, El, A in V.
    + destruct D as [D | [D | D]]; [| | discriminate].
      * rewrite (adverse_cannot_merge _ D), (proj2 (willClose_iff input)) by done. eexists; split; [left |]; done.
      * pose proof (inFlight_iff input) as I. unfold linkedIssueCloseInFlight, linkedIssueViolated in I.
        by rewrite F, W, D, El, A in I.
Qed.

Lemma closes_iff input : closes (planAgentMaintenanceActions input) <->
     acting input ac_close = true
     /\ (policy_due input = true
         \/ (reaches_merit input /\ closeEligible input = true /\ flagForLinkedIssue input = false /\ merit_due input)).
Proof.
  rewrite closes_ladder, merits_reached. destruct (policy_due input); [naive_solver |].
  destruct (isContributor input && _); [naive_solver |]. case_bool_decide; [naive_solver |].
  rewrite merit_closes. split.
  - intros (S & X). assert (acting input ac_close = true /\ closeEligible input = true) as [A El].
    { destruct X as (a & Ha & Hc).
      apply section4_cases in Ha as [[W ->] | [(_ & V & _) | [(_ & _ & _ & ->) | (_ & _ & _ & W & ->)]]]; try discriminate.
      - unfold willCloseForLinkedIssue, linkedIssueViolated in W. by bools.
      - unfold unlinkedIssueMatchViolated in V. by bools.
      - apply willClose_iff in W. tauto. }
    apply (section4_closes input A El) in X. unfold merit_due. tauto.
  - intros (A & [? | (_ & El & F & D)]); [done |]. split.
    + destruct D as [D | [S _]]; [right; by apply adverse_settles | done].
    + apply (section4_closes input A El). unfold merit_due in D. tauto.
Qed.

(** C5: a close is planned exactly when it is due: closing acts, and either a
    deterministic policy (blacklist, open-item cap, nagging, copycat, missing
    screenshots) applies to a contributor, or the author is one the repository
    allows closing for and the merits give a reason - failing CI, a gate failure
    that is not held as low-confidence, a base conflict, or, once CI has settled,
    a linked-issue violation past its verification flag or a repeat match.  In
    particular unverified or pending CI, a neutral gate and a hold close
    nothing, and nothing closes the owner's, an admin's or an automation
    account's pull request while owner-close is off. *)
Theorem close_planned_iff_due input :
  (closes (planAgentMaintenanceActions input) <->
     acting input ac_close = true
     /\ (policy_due input = true
         \/ (reaches_merit input /\ closeEligible input = true /\ flagForLinkedIssue input = false /\ merit_due input)))
  /\ (closes (planAgentMaintenanceActions input) -> isContributor input = true
      \/ (i_authorIsOwner input || i_authorIsAdmin input = true /\ i_closeOwnerAuthors input = Some true)).
Proof.
  split; [apply closes_iff |]. rewrite closes_iff. intros (_ & [P | (_ & El & _)]).
  - left. unfold policy_due in P. by bools.
  - unfold closeEligible, is_true_flag in El. apply orb_true_iff in El as [El | El]; [by left | right]. by bools.
Qed.

(** ** Coherence *)

Definition fresh_approval (a : PlannedAgentAction) : Prop := actionClass a = ac_approve /\ dismissStaleApproval a = None.

Lemma forall_elem {A} (P : A -> Prop) l : Forall P l -> forall a, a ∈ l -> P a.
Proof. rewrite List.Forall_forall. intros H a Ha. apply H. by apply list_elem_of_In. Qed.

Ltac each_action := match goal with |- forall a, a ∈ ?l -> @?Q a => apply (forall_elem Q l) end.
Ltac plan_by := each_action; apply plan_rule; [intros | intros | intros | intros | intros ? ?; split; intros].

Lemma approve_origin input a : a ∈ planAgentMaintenanceActions input -> actionClass a = ac_approve ->
  reaches_merit input /\ acting input ac_approve = true
  /\ ((a = approve_action (approval input ac_approve) (pin (p_headSha (i_pr input))) /\ approve_now input = true)
      \/ (a = dismiss_action (approval input ac_approve) (p_headSha (i_pr input)) /\ canMerge input = false /\ willClose input = false
          /\ willCloseForLinkedIssue input = false /\ approval_is_stale input = true)).
Proof.
  revert a. plan_by; simpl in *; try discriminate.
  - split; [done |]. split; [unfold approve_now in *; by bools | by left].
  - split; [done |]. split; [done | right; auto 10].
Qed.

Lemma wouldApprove_disposition input : wouldApprove (disposition input) = true ->
  i_conclusion input = gc_success /\ i_ciState input = ci_passed /\ resolveHoldCause input = []
  /\ assessMergeableState (p_mergeableState (i_pr input)) <> ma_conflict.
Proof.
  unfold disposition. rewrite wouldApprove_iff, no_holds_iff. cbn [pd_reviewGood buildPrDispositionInput dv_reviewGood pd_mergeableState].
  rewrite reviewGood_iff, holdCause_planner. unfold disposition. cbn [pd_mergeableState]. tauto.
Qed.

Lemma short_circuit_terminals input plan : Some plan ∈ short_circuits input -> List.length (List.filter terminal plan) <= 1.
Proof.
  assert (C : forall k w m l, List.length (List.filter terminal (close_with_label (i_autonomy input) k w m l (p_headSha (i_pr input)))) <= 1).
  { intros. unfold close_with_label. case_match; [| simpl; lia]. destruct l; simpl; lia. }
  unfold short_circuits. intros H. repeat (apply elem_of_cons in H as [H | H]); [.. | by apply elem_of_nil in H]; symmetry in H.
  all: unfold blacklist_plan, cap_plan, planContributorCapClose, nag_plan, copycat_plan, screenshot_unresolved_plan, screenshot_plan, skipped_plan in H.
  all: repeat case_match; try discriminate; injection H as <-; try apply C; simpl; lia.
Qed.

(** C28: a plan is coherent: it has at most one merge or close; it never merges
    and retracts an approval; and it approves a pull request it also closes only
    in the one case of a repeat unlinked-issue match, which the approve step does
    not consult.  The planner never requests changes, reviews or updates the
    branch. *)
Theorem plan_coherent input :
  let plan := planAgentMaintenanceActions input in
  List.length (List.filter terminal plan) <= 1
  /\ (forall a, a ∈ plan -> actionClass a = ac_approve -> dismissStaleApproval a = Some true ->
        (forall b, b ∈ plan -> actionClass b <> ac_merge))
  /\ (forall a, a ∈ plan -> fresh_approval a -> closes plan -> unlinkedIssueMatchViolated input = true)
  /\ (forall a, a ∈ plan -> actionClass a ∉ [ac_review; ac_request_changes; ac_update_branch]).
Proof.
  cbv zeta. split_and!.
  - destruct (plan_unfold input) as [(plan & Hin & ->) | [_ ->]]; [by eapply short_circuit_terminals |].
    rewrite terminals_merit_plan. case_match; [simpl; lia | apply section4_terminal].
  - intros a Ha Hc Hd b Hb Hm. apply (approve_origin input) in Ha as (_ & _ & [[-> _] | (-> & M & _)]); [discriminate | | done].
    apply (merge_origin input) in Hb as [[]  _]; [| done]. assert (canMerge input = true) by (apply canMerge_iff; tauto). congruence.
  - intros a Ha [Hc Hd] Hcl. apply (approve_origin input) in Ha as (Hm & _ & [[-> N] | (-> & _)]); [| discriminate | done].
    unfold approve_now in N. bools.
    match goal with H : wouldApprove _ = true |- _ => apply wouldApprove_disposition in H as (G & CI & _ & Cf) end.
    match goal with H : linkedIssueCloseInFlight _ = false |- _ => rewrite inFlight_iff in H; rename H into L end.
    apply closes_iff in Hcl as (A & [P | (_ & El & _ & [D | (_ & [D | D])])]).
    + apply merits_reached in Hm as (P' & _). congruence.
    + unfold adverse in D. naive_solver congruence.
    + unfold linkedIssueViolated in L. by rewrite D, El, A in L.
    + unfold unlinkedIssueMatchViolated. by rewrite D, El, A.
  - plan_by; simpl; set_solver.
Qed.

(** ** Autonomy *)

(** The class whose dial authorises an action. *)
Definition governing (a : PlannedAgentAction) : AgentActionClass := autonomyClass a ?? actionClass a.

(** An operation on the manual-review label, the planner's voice towards the
    maintainer. *)
Definition on_manual_review (input : AgentActionPlanInput) (a : PlannedAgentAction) : Prop :=
  actionClass a = ac_label /\ exists l, manualReview (labels input) = Some l /\ label a = Some l.

Lemma canMerge_acts input : canMerge input = true -> acting input ac_merge = true.
Proof. rewrite canMerge_iff. tauto. Qed.

Lemma linked_close_acts input : willCloseForLinkedIssue input = true -> acting input ac_close = true.
Proof. unfold willCloseForLinkedIssue, linkedIssueViolated. intros H. by bools. Qed.

(** Every planned action is authorised by an acting class and staged for a
    human exactly when that class asks for approval, with one exception: an
    operation on the manual-review label may be planned although its class does
    not act. *)
Theorem plan_within_autonomy input a :
  a ∈ planAgentMaintenanceActions input ->
  requiresApproval a = approval input (governing a)
  /\ (acting input (governing a) = true \/ on_manual_review input a).
Proof.
  revert a. plan_by; unfold governing; simpl; (split; [reflexivity |]); try (by left);
    try (right; split; [done |]; eexists; split; [eassumption | done]); left.
  - unfold approve_now in *. by bools.
  - by apply linked_close_acts.
  - unfold unlinkedIssueMatchViolated in *. by bools.
  - by apply canMerge_acts.
  - unfold willClose in *. by bools.
Qed.

(** ** Labels *)

Definition add_of (a : PlannedAgentAction) : option string :=
  if is_class ac_label a && negb (is_remove a) then label a else None.
Definition removal_of (a : PlannedAgentAction) : option string :=
  if is_class ac_label a && is_remove a then label a else None.

Lemma hasLabel_same labels a b : same_label a b = true -> hasLabel labels a = hasLabel labels b.
Proof.
  unfold hasLabel, same_label. intros H%String.eqb_eq. by rewrite H.
Qed.

(** The labels the copycat gate and the short circuits apply are configured
    apart from the disposition labels. *)
Definition enforcement_label (input : AgentActionPlanInput) (l : string) : Prop :=
  ~ reaches_merit input
  \/ (i_copycatGateMode input = Some cg_label /\ resolveNullableLabel (i_copycatLabel input) DEFAULT_COPYCAT_LABEL = Some l).

Lemma flag_absent input l : pendingClosure (labels input) = Some l -> flagForLinkedIssue input = true ->
  hasLabel (p_labels (i_pr input)) l = false.
Proof. unfold flagForLinkedIssue, pendingClosureLabelPresent. intros ->. intros H. by bools. Qed.

Lemma unflag_present input l : pendingClosure (labels input) = Some l -> clearLinkedIssueFlag input = true ->
  hasLabel (p_labels (i_pr input)) l = true.
Proof. unfold clearLinkedIssueFlag, pendingClosureLabelPresent. intros ->. intros H. by bools. Qed.

Lemma label_operation input a l : a ∈ planAgentMaintenanceActions input ->
  (add_of a = Some l -> hasLabel (p_labels (i_pr input)) l = false \/ enforcement_label input l)
  /\ (removal_of a = Some l -> hasLabel (p_labels (i_pr input)) l = true).
Proof.
  revert a. plan_by; unfold add_of, removal_of; simpl; (split; [intros [= <-] | intros [= <-]]); auto; try discriminate.
  - right. by left.
  - right. right. auto.
  - left. by apply flag_absent.
  - by apply unflag_present.
Qed.

(** The planner adds only labels the pull request lacks (up to case, and
    apart from the enforcement labels of a short circuit or of the copycat gate)
    and removes only labels it has; hence no plan both adds and removes a
    disposition label. *)
Theorem label_operations_sound input a l :
  a ∈ planAgentMaintenanceActions input ->
  (add_of a = Some l -> hasLabel (p_labels (i_pr input)) l = false \/ enforcement_label input l)
  /\ (removal_of a = Some l -> hasLabel (p_labels (i_pr input)) l = true)
  /\ (forall b l', add_of a = Some l -> b ∈ planAgentMaintenanceActions input -> removal_of b = Some l' ->
        same_label l l' = true -> enforcement_label input l).
Proof.
  intros Ha. destruct (label_operation input a l Ha) as [A R]. split_and!; [done | done |].
  intros b l' Hl Hb Hr S. destruct (A Hl) as [N | E]; [| done].
  apply (label_operation input b l' Hb) in Hr. rewrite (hasLabel_same _ _ _ S) in N. congruence.
Qed.

(** ** The linked-issue verification, over passes *)

Lemma push_sub c a l : l ⊆ push_if c a l.
Proof. destruct c; simpl; set_solver. Qed.

Lemma after_section2 input l :
  section2 input l ⊆ section_contention input (section_fallback input (section4 input (section3 input (section2 input l)))).
Proof.
  generalize (section2 input l) as s. intros s a Ha.
  assert (H3 : a ∈ section3 input s) by (unfold section3; case_match; [set_solver | by apply push_sub]).
  assert (H4 : a ∈ section4 input (section3 input s)) by (rewrite section4_app; set_solver).
  unfold section_contention, section_fallback. repeat case_match; repeat apply push_sub; exact H4.
Qed.

Lemma section2_in_plan input a : reaches_merit input -> settled input ->
  (forall l, a ∈ section2 input l) -> a ∈ planAgentMaintenanceActions input.
Proof.
  intros Hm Hs Ha. destruct (plan_unfold input) as [(plan & Hin & _) | [_ ->]]; [by apply some_plan_unmerited in Hin |].
  unfold merit_plan. destruct Hs as [-> | ->]; rewrite ?andb_false_r; simpl; apply after_section2, Ha.
Qed.

Lemma plan_terminals input : reaches_merit input -> settled input ->
  List.filter terminal (planAgentMaintenanceActions input) = section4 input [].
Proof.
  intros Hm Hs. destruct (plan_unfold input) as [(plan & Hin & _) | [_ ->]]; [by apply some_plan_unmerited in Hin |].
  rewrite terminals_merit_plan. destruct Hs as [-> | ->]; by rewrite ?andb_false_r.
Qed.

(** What GitHub's labels are after a plan's label operations. *)
Definition apply_label (ls : list string) (a : PlannedAgentAction) : list string :=
  match add_of a, removal_of a with
  | Some l, _ => if hasLabel ls l then ls else (ls ++ [l])%list
  | _, Some l => List.filter (fun x => negb (same_label x l)) ls
  | _, _ => ls
  end.

Definition apply_labels (plan : list PlannedAgentAction) (ls : list string) : list string :=
  List.fold_left apply_label plan ls.

Lemma same_label_refl l : same_label l l = true.
Proof. unfold same_label. apply String.eqb_refl. Qed.

Lemma hasLabel_app ls l l' : hasLabel (ls ++ [l'])%list l = hasLabel ls l || same_label l' l.
Proof. unfold hasLabel. rewrite existsb_app. simpl. by rewrite orb_false_r. Qed.

(** A label added and not removed is there afterwards. *)
Lemma applied_label plan l : forall ls,
  (forall b l', b ∈ plan -> removal_of b = Some l' -> same_label l l' = false) ->
  hasLabel ls l = true \/ (exists a, a ∈ plan /\ add_of a = Some l) -> hasLabel (apply_labels plan ls) l = true.
Proof.
  induction plan as [| b plan IH]; intros ls Hno H; simpl.
  - destruct H as [H | (a & H & _)]; [done | by apply elem_of_nil in H].
  - apply IH; [intros c l' Hc; apply Hno; by right |].
    assert (K : hasLabel ls l = true -> hasLabel (apply_label ls b) l = true).
    { intros Hl. unfold apply_label. destruct (add_of b) as [l' |]; [case_match; [done | rewrite hasLabel_app; by rewrite Hl] |].
      destruct (removal_of b) as [l' |] eqn:E; [| done]. specialize (Hno b l' ltac:(left) E).
      unfold hasLabel in *. apply existsb_exists in Hl as (x & Hx & Sx). apply existsb_exists. exists x. split; [| done].
      apply filter_In. split; [done |]. apply negb_true_iff. unfold same_label in *. apply String.eqb_eq in Sx. by rewrite Sx. }
    destruct H as [H | (a & Ha & Hadd)]; [left; by apply K |].
    apply elem_of_cons in Ha as [-> | Ha]; [| right; eauto].
    left. unfold apply_label. rewrite Hadd. case_match; [done |]. rewrite hasLabel_app, same_label_refl. by rewrite orb_true_r.
Qed.

(** The rule is being verified: violated by a contributor's pull request, with a
    flag that can be set now. *)
Record verifying (input : AgentActionPlanInput) (l : string) : Prop := {
  vf_merit : reaches_merit input;
  vf_settled : settled input;
  vf_eligible : closeEligible input = true;
  vf_close : acting input ac_close = true;
  vf_verify : verifyBeforeClose input = true;
  vf_label : pendingClosure (labels input) = Some l;
  vf_flaggable : acting input ac_review_state_label = true /\ approval input ac_review_state_label = false;
}.

Lemma verifying_flag input l : verifying input l ->
  flagForLinkedIssue input = hard_rule_violated input && negb (hasLabel (p_labels (i_pr input)) l)
  /\ willCloseForLinkedIssue input = hard_rule_violated input && hasLabel (p_labels (i_pr input)) l.
Proof.
  intros [_ _ El A V L [F1 F2]].
  unfold flagForLinkedIssue, willCloseForLinkedIssue, linkedIssueViolated, canApplyPendingClosureFlagNow, pendingClosureLabelPresent.
  rewrite El, A, V, L, F1, F2. destruct (hard_rule_violated input), (hasLabel _ l); done.
Qed.

Lemma flag_in_section2 input l : verifying input l -> flagForLinkedIssue input = true -> forall acts, flag_action input l ∈ section2 input acts.
Proof.
  intros [_ _ _ _ _ L [F1 _]] F acts. unfold section2, push_flags. rewrite F1, L, F. apply push_sub. simpl. set_solver.
Qed.

Lemma unflag_in_section2 input l : verifying input l -> clearLinkedIssueFlag input = true -> forall acts, unflag_action input l ∈ section2 input acts.
Proof.
  intros [_ _ _ _ _ L [F1 _]] F acts. unfold section2, push_flags. rewrite F1, L, F. simpl. set_solver.
Qed.


(** ** Concrete plans *)

(** A contributor's clean, green pull request on a repository with the given
    autonomy; the remaining arguments are what the examples vary. *)
Definition sample_pr (ls : list string) : PlanPr :=
  mkPlanPr (Some "clean") None None ls None None (Some "abc123") None None None (Some "octocat").

Definition sample (autonomy : option AutonomyPolicy) (ci : CiState) (ls : list string) (contention : bool)
    (rule : option LinkedIssueHardRule) (verify : option LinkedIssueVerify) (collision repeat_match : option Hold)
    : AgentActionPlanInput :=
  mkPlanInput gc_success [] None autonomy (Some (mkAutoMaintain (nz 0) mm_squash)) None ["README.md"] [] None None None None None
    l_undefined None l_undefined l_undefined l_undefined l_undefined (Some contention) false false false None ci None None
    rule None l_undefined None l_undefined None l_undefined None None l_undefined verify collision None None None None None None
    repeat_match None None None (sample_pr ls).

Definition full_auto : option AutonomyPolicy := Some (fun _ => Some auto_level).

Definition green : AgentActionPlanInput := sample full_auto ci_passed [] false None None None None.

Example green_plan :
  List.map (fun a => (actionClass a, label a)) (planAgentMaintenanceActions green)
  = [(ac_assign, None); (ac_label, Some "ready-to-merge"); (ac_approve, None); (ac_merge, None)].
Proof. vm_compute. reflexivity. Qed.

Lemma plan_within_autonomy_witness :
  requiresApproval (the_merge green) = approval green (governing (the_merge green))
  /\ (acting green (governing (the_merge green)) = true \/ on_manual_review green (the_merge green)).
Proof. apply plan_within_autonomy. vm_compute. set_solver. Defined.

Definition ready_label : PlannedAgentAction :=
  label_action (Some ac_review_state_label) None false "verdict=success; CI green" "ready-to-merge" None None.

Lemma label_operations_sound_witness :
  (add_of ready_label = Some "ready-to-merge" ->
     hasLabel (p_labels (i_pr green)) "ready-to-merge" = false \/ enforcement_label green "ready-to-merge")
  /\ (removal_of ready_label = Some "ready-to-merge" -> hasLabel (p_labels (i_pr green)) "ready-to-merge" = true)
  /\ (forall b l', add_of ready_label = Some "ready-to-merge" -> b ∈ planAgentMaintenanceActions green ->
        removal_of b = Some l' -> same_label "ready-to-merge" l' = true -> enforcement_label green "ready-to-merge").
Proof. apply label_operations_sound. vm_compute. set_solver. Defined.

(** A linked-issue rule under verification. *)
Definition under_rule (ls : list string) (violated : bool) : AgentActionPlanInput :=
  sample full_auto ci_passed ls false (Some (mkHardRule violated None)) (Some (mkVerify true (nz 60))) None None.

Lemma sample_verifying ls violated : verifying (under_rule ls violated) "pending-closure".
Proof. constructor; try reflexivity; [by repeat constructor | by left | by split]. Qed.


(** ** Where the planner departs from its description *)

(** The planner approves and closes one pull request in one plan when a
    repeat unlinked-issue match closes a green pull request: the approve step
    checks the linked-issue close but not this one, although the section says it
    never approves what it is about to close. *)
Theorem approves_what_it_closes :
  let input := sample full_auto ci_passed [] false None None None (Some (mkHold "repeat match" "")) in
  exists a b, a ∈ planAgentMaintenanceActions input /\ fresh_approval a
    /\ b ∈ planAgentMaintenanceActions input /\ actionClass b = ac_close.
Proof.
  cbv zeta. exists (approve_action false (Some "abc123")).
  exists (repeat_match_close (sample full_auto ci_passed [] false None None None (Some (mkHold "repeat match" ""))) (mkHold "repeat match" "")).
  split_and!; [vm_compute; set_solver | done | | done]. vm_compute. set_solver.
Qed.

(** When the lock contention that caused a transient hold has cleared, the hold
    label is removed although a migration collision still holds the pull
    request: the guard [manualHoldReason === null] does not cover the holds of a
    would-merge, as the comment on the step claims. *)
Theorem contention_lifts_live_hold :
  let input := sample full_auto ci_passed ["manual-review"] true None None (Some (mkHold "collision" "rebase")) None in
  resolveHoldCause input = [mh_migrationCollisionHold]
  /\ exists a, a ∈ planAgentMaintenanceActions input /\ removal_of a = Some "manual-review".
Proof.
  cbv zeta. split; [reflexivity |].
  exists (label_action (Some ac_merge) None false
    "AI-review lock contention has cleared and nothing else currently holds this PR — removing the transient manual-review hold"
    "manual-review" (Some op_remove) None).
  split; [vm_compute; set_solver | done].
Qed.

(** A repository on which no class acts still has the manual-review label
    planned when CI could not be verified. *)
Theorem quiescent_repository_labelled :
  let input := sample None ci_unverified [] false None None None None in
  isAgentConfigured (i_autonomy input) = false
  /\ List.map (fun a => (actionClass a, label a)) (planAgentMaintenanceActions input) = [(ac_label, Some "manual-review")].
Proof. split; vm_compute; reflexivity. Qed.
