(* ===== verification/AgentBreakers.v ===== *)
(** * Circuit breakers and the close-audit holdout

    Models [applyPrecisionBreakers] and [agentDispositionLabels] of
    [queue/processors.ts] and [review/close-audit-holdout.ts], the transforms a
    plan passes through between [Plan.planAgentMaintenanceActions] and the
    executor, on top of the single breakers of [AgentActions].

    Main results: the transforms only remove merges, eligible closes, their
    coupled labels and a release of the hold, and only add the hold label;
    deterministic closes survive them; they are idempotent and never leave a plan
    that both adds and removes the hold label; a holdout diverts a close only
    after its propensity record is written. *)

From stdpp Require Import base list strings option sets.
From Stdlib Require Import Ascii.
From S2P Require Import Prelude JsNumber JsString IteratePolicy Autonomy PrDisposition GateAdvisory AgentActions AgentPlan.

Local Open Scope nat_scope.
Local Open Scope string_scope.
Local Open Scope js_scope.

(** ** Composition *)

Definition applyPrecisionBreakers (planned : list PlannedAgentAction) (holdOnly closeHoldOnly : bool)
    (labelSettings : AgentDispositionLabelSettings) (untrustworthyRuleCodes : list string) : list PlannedAgentAction :=
  let afterMerge := if holdOnly then downgradeMergeToHold planned true labelSettings else planned in
  downgradeCloseToHold afterMerge closeHoldOnly labelSettings untrustworthyRuleCodes.

Inductive DispositionClass := dc_merge | dc_close | dc_hold.

Definition agentDispositionLabels (breakerOnPlan : list PlannedAgentAction) (gateBlockerCodes : list string)
    (holdReasonCode : option string) : DispositionClass * string :=
  (if existsb (is_class ac_merge) breakerOnPlan then dc_merge
   else if existsb (is_class ac_close) breakerOnPlan then dc_close else dc_hold,
   List.hd_error gateBlockerCodes ?? holdReasonCode ?? "none").

(** ** The holdout *)

Definition holdout_eligible (a : PlannedAgentAction) : bool :=
  is_class ac_close a && bool_decide (closeKind a = Some ck_heuristic) && negb (requiresApproval a).

Definition holdoutEligibleClose (planned : list PlannedAgentAction) : option PlannedAgentAction :=
  List.find holdout_eligible planned.

Definition applyCloseAuditHoldout (planned : list PlannedAgentAction) (labelSettings : AgentDispositionLabelSettings)
    : list PlannedAgentAction :=
  withManualReviewHoldLabel (List.filter (fun a => negb (holdout_eligible a)) planned) labelSettings ac_close false
    "close-audit holdout drew this PR — would-close held for human adjudication (#8831)".

Definition holdoutSeed (repoFullName : string) (pullNumber : num) (headSha : option string) : string :=
  "record:" ++ repoFullName ++ "#" ++ num_to_string pullNumber ++ "@" ++ (headSha ?? "unknown").

(** [Number.parseInt(s, 16)]: the digits up to the first other character. *)
Definition hex_digit (c : ascii) : option Z :=
  let n := Z.of_N (N_of_ascii c) in
  if (48 <=? n)%Z && (n <=? 57)%Z then Some (n - 48)%Z
  else if (97 <=? n)%Z && (n <=? 102)%Z then Some (n - 87)%Z
  else if (65 <=? n)%Z && (n <=? 70)%Z then Some (n - 55)%Z
  else None.

Fixpoint parse_hex (acc : option Z) (s : string) : option Z :=
  match s with
  | String c s' =>
      match hex_digit c with
      | Some d => parse_hex (Some ((acc ?? 0) * 16 + d)%Z) s'
      | None => acc
      end
  | EmptyString => acc
  end.

Definition hmacHexToUnitFloat (hex : string) : num :=
  match parse_hex None (String.substring 0 8 hex) with
  | Some z => ndiv (nz z) (nz 4294967296)
  | None => NaN
  end.

Record DecisionReplayHoldout := mkHoldout { ho_epsilonPct : num; ho_draw : num; ho_diverted : bool }.

(** [maybeApplyCloseAuditHoldout].  [draw] is the caller's [rng] or the keyed
    hash of the seed; [record] is the write of the propensity record and of the
    adjudication row, which may throw. *)
Definition maybeApplyCloseAuditHoldout (planned : list PlannedAgentAction) (epsilonPct : option num)
    (closeAutonomyIsAuto : bool) (labelSettings : AgentDispositionLabelSettings) (draw : num) (record : completion unit)
    : list PlannedAgentAction * option DecisionReplayHoldout :=
  let eps := epsilonPct ?? nz 0 in
  if nleb eps (nz 0) || negb closeAutonomyIsAuto then (planned, None)
  else
    match holdoutEligibleClose planned with
    | None => (planned, None)
    | Some _ =>
        if ngeb draw (ndiv eps (nz 100)) then (planned, Some (mkHoldout eps draw false))
        else
          match record with
          | Normal _ => (applyCloseAuditHoldout planned labelSettings, Some (mkHoldout eps draw true))
          | Thrown _ => (planned, Some (mkHoldout eps draw false))
          end
    end.

(** The plan the service executes. *)
Definition final_plan (planned : list PlannedAgentAction) (holdOnly closeHoldOnly : bool)
    (labelSettings : AgentDispositionLabelSettings) (untrustworthyRuleCodes : list string) (epsilonPct : option num)
    (closeAutonomyIsAuto : bool) (draw : num) (record : completion unit) : list PlannedAgentAction :=
  (maybeApplyCloseAuditHoldout
     (applyPrecisionBreakers planned holdOnly closeHoldOnly labelSettings untrustworthyRuleCodes)
     epsilonPct closeAutonomyIsAuto labelSettings draw record).1.

(** ** The hold label *)

(** [plan'] only tightens [plan]: what it adds is the hold label. *)
Definition hold_label (ls : AgentDispositionLabelSettings) (a : PlannedAgentAction) : Prop :=
  exists name auth ap why, manualReview (resolveAgentDispositionLabels ls) = Some name
    /\ (auth = ac_merge \/ auth = ac_close)
    /\ a = label_action (Some auth) None ap why name (Some op_add) None.

Definition tightens (ls : AgentDispositionLabelSettings) (plan plan' : list PlannedAgentAction) : Prop :=
  forall a, a ∈ plan' -> a ∈ plan \/ hold_label ls a.

Lemma tightens_refl ls plan : tightens ls plan plan.
Proof. intros a Ha. by left. Qed.

Lemma tightens_trans ls p1 p2 p3 : tightens ls p1 p2 -> tightens ls p2 p3 -> tightens ls p1 p3.
Proof. intros H1 H2 a Ha. destruct (H2 a Ha) as [H | H]; [by apply H1 | by right]. Qed.

Lemma elem_filter (Q : PlannedAgentAction -> bool) l a : a ∈ List.filter Q l <-> a ∈ l /\ Q a = true.
Proof. by rewrite !list_elem_of_In, filter_In. Qed.

#[export] Hint Resolve tightens_refl tightens_trans : loopover.

Lemma with_hold_tightens plan ls auth ap why : auth = ac_merge \/ auth = ac_close ->
  tightens ls plan (withManualReviewHoldLabel plan ls auth ap why).
Proof.
  intros Hauth a. unfold withManualReviewHoldLabel. destruct (manualReview _) as [name |] eqn:E; [| by left].
  case_match; [rewrite elem_filter; tauto |].
  rewrite elem_of_app, list_elem_of_singleton, elem_filter. intros [[Hp _] | ->]; [by left | right].
  unfold hold_label. eauto 8.
Qed.

(** What the hold label leaves alone. *)
Lemma with_hold_keeps plan ls auth ap why a : a ∈ plan -> removal_of a = None ->
  a ∈ withManualReviewHoldLabel plan ls auth ap why.
Proof.
  intros Ha Hr. unfold withManualReviewHoldLabel. destruct (manualReview _) as [name |] eqn:E; [| done].
  assert (K : a ∈ List.filter (fun a => negb (is_this_label name a && is_remove a)) plan).
  { apply elem_filter. split; [done |]. apply negb_true_iff. unfold removal_of, is_this_label in *.
    destruct (is_class ac_label a), (is_remove a); simpl in *; rewrite ?andb_false_r, ?Hr; done. }
  case_match; [done |]. set_solver.
Qed.

(** No plan with the hold label both adds and removes it. *)
Definition flaps (ls : AgentDispositionLabelSettings) (plan : list PlannedAgentAction) : Prop :=
  exists name a b, manualReview (resolveAgentDispositionLabels ls) = Some name /\ a ∈ plan /\ b ∈ plan
    /\ add_of a = Some name /\ removal_of b = Some name.

Lemma with_hold_no_flap plan ls auth ap why : ~ flaps ls (withManualReviewHoldLabel plan ls auth ap why).
Proof.
  intros (name & a & b & E & _ & Hb & _ & Hr). unfold withManualReviewHoldLabel in Hb. rewrite E in Hb.
  assert (N : b ∉ List.filter (fun a => negb (is_this_label name a && is_remove a)) plan).
  { rewrite elem_filter. intros [_ K%negb_true_iff]. unfold removal_of, is_this_label in *.
    destruct (is_class ac_label b), (is_remove b); simpl in *; try discriminate.
    rewrite Hr in K. by rewrite bool_decide_eq_true_2 in K. }
  case_match; [done |]. apply elem_of_app in Hb as [Hb | Hb]; [done |].
  apply list_elem_of_singleton in Hb as ->. discriminate.
Qed.

(** ** Single breakers *)

Section Breakers.
Context (ls : AgentDispositionLabelSettings) (codes : list string).

Lemma merge_breaker_tightens plan holdOnly : tightens ls plan (downgradeMergeToHold plan holdOnly ls).
Proof.
  unfold downgradeMergeToHold. case_match; [apply tightens_refl |].
  intros a [Ha _]%elem_filter. apply with_hold_tightens in Ha as [Ha | Ha]; [| by right | by left].
  left. by apply elem_filter in Ha as [Ha _].
Qed.

Lemma close_breaker_tightens plan hold : tightens ls plan (downgradeCloseToHold plan hold ls codes).
Proof.
  unfold downgradeCloseToHold. case_match; [apply tightens_refl |].
  intros a Ha. apply with_hold_tightens in Ha as [Ha | Ha]; [| by right | by right].
  left. by apply elem_filter in Ha as [Ha _].
Qed.

Lemma hold_label_class a : hold_label ls a -> actionClass a = ac_label.
Proof. by intros (name & auth & ap & why & _ & _ & ->). Qed.

Lemma merge_breaker_no_merge plan a : a ∈ downgradeMergeToHold plan true ls -> actionClass a <> ac_merge.
Proof.
  unfold downgradeMergeToHold. destruct (existsb (is_class ac_merge) plan) eqn:E; simpl.
  - intros [Ha _]%elem_filter. apply with_hold_tightens in Ha as [Ha | Ha]; [| | by left].
    + apply elem_filter in Ha as [_ Ha]. unfold is_class in Ha. by bools.
    + intros M. by rewrite (hold_label_class _ Ha) in M.
  - intros Ha M. rewrite <- not_true_iff_false in E. apply E, existsb_exists. exists a.
    split; [by apply list_elem_of_In |]. unfold is_class. by rewrite M.
Qed.

Lemma close_breaker_none_left plan hold a :
  a ∈ downgradeCloseToHold plan hold ls codes -> isDowngradableClose hold codes a = false.
Proof.
  unfold downgradeCloseToHold. destruct (existsb _ plan) eqn:E; simpl.
  - intros Ha. apply with_hold_tightens in Ha as [Ha | Ha]; [| | by right].
    + apply elem_filter in Ha as [_ Ha]. by bools.
    + unfold isDowngradableClose, is_class. by rewrite (hold_label_class _ Ha).
  - intros Ha. apply not_true_iff_false. intros D. rewrite <- not_true_iff_false in E. apply E, existsb_exists.
    exists a. split; [by apply list_elem_of_In | done].
Qed.

(** Each breaker is idempotent: its result has nothing left to downgrade. *)
Lemma merge_breaker_idempotent plan holdOnly :
  downgradeMergeToHold (downgradeMergeToHold plan holdOnly ls) holdOnly ls = downgradeMergeToHold plan holdOnly ls.
Proof.
  destruct holdOnly; [| done]. set (p := downgradeMergeToHold plan true ls).
  unfold downgradeMergeToHold at 1. destruct (existsb (is_class ac_merge) p) eqn:E; [| done].
  apply existsb_exists in E as (a & Ha & Hc). apply list_elem_of_In in Ha. unfold is_class in Hc. bools.
  by apply merge_breaker_no_merge in Ha.
Qed.

Lemma close_breaker_idempotent plan hold :
  downgradeCloseToHold (downgradeCloseToHold plan hold ls codes) hold ls codes = downgradeCloseToHold plan hold ls codes.
Proof.
  set (p := downgradeCloseToHold plan hold ls codes). unfold downgradeCloseToHold at 1.
  destruct (existsb _ p) eqn:E; [| done]. apply existsb_exists in E as (a & Ha & Hc). apply list_elem_of_In in Ha.
  apply close_breaker_none_left in Ha. congruence.
Qed.

(** A deterministic close is one no breaker may touch. *)
Definition deterministic_close (a : PlannedAgentAction) : Prop :=
  actionClass a = ac_close
  /\ (closeKind a = Some ck_blacklist \/ closeKind a = Some ck_contributor_cap \/ closeKind a = Some ck_linked_issue_hard_rule).

Lemma deterministic_not_eligible a : deterministic_close a -> isBreakerEligibleClose a = false.
Proof. unfold isBreakerEligibleClose, CONTENT_INSPECTION_CLOSE_KINDS. by intros [_ [-> | [-> | ->]]]. Qed.

Lemma close_not_label a : actionClass a = ac_close -> removal_of a = None /\ is_class ac_label a = false /\ is_class ac_merge a = false.
Proof. unfold removal_of, is_class. by intros ->. Qed.

Lemma merge_breaker_keeps_closes plan holdOnly a :
  actionClass a = ac_close -> a ∈ plan -> a ∈ downgradeMergeToHold plan holdOnly ls.
Proof.
  intros Hc Ha. destruct (close_not_label a Hc) as (Hr & Hl & Hm). unfold downgradeMergeToHold. case_match; [done |].
  apply elem_filter. split.
  - apply with_hold_keeps; [| done]. apply elem_filter. by rewrite Hm.
  - unfold is_this_label. rewrite Hl. by destruct (readyToMerge _).
Qed.

Lemma close_breaker_keeps plan hold a : actionClass a = ac_close -> isDowngradableClose hold codes a = false ->
  a ∈ plan -> a ∈ downgradeCloseToHold plan hold ls codes.
Proof.
  intros Hc Hd Ha. destruct (close_not_label a Hc) as (Hr & Hl & Hm). unfold downgradeCloseToHold. case_match; [done |].
  apply with_hold_keeps; [| done]. apply elem_filter. split; [done |]. rewrite Hd. unfold isOrphanedCoupledLabel. by rewrite Hl.
Qed.

(** Dropping a close drops the label that is metadata on it. *)
Lemma close_breaker_couples plan hold c lbl k :
  c ∈ plan -> isDowngradableClose hold codes c = true -> closeKind c = Some k ->
  actionClass lbl = ac_label -> closeKind lbl = Some k -> ~ hold_label ls lbl ->
  lbl ∉ downgradeCloseToHold plan hold ls codes.
Proof.
  intros Hc Hd Hk Hl Hkl Hn H. unfold downgradeCloseToHold in H.
  assert (E : existsb (isDowngradableClose hold codes) plan = true)
    by (apply existsb_exists; exists c; split; [by apply list_elem_of_In | done]).
  rewrite E in H. simpl in H. apply with_hold_tightens in H as [H | H]; [| done | by right].
  apply elem_filter in H as [_ H]. bools. unfold isOrphanedCoupledLabel, is_class in *. rewrite Hl, Hkl in *.
  match goal with H : _ && _ = false |- _ => apply andb_false_iff in H as [H | H]; [discriminate |] end. bools.
  match goal with H : k ∉ _ |- _ => apply H end. apply list_elem_of_omap. exists c. split; [by apply elem_filter | done].
Qed.
End Breakers.

(** ** The pipeline *)

Lemma flaps_sub ls p q : (forall a, a ∈ q -> a ∈ p) -> flaps ls q -> flaps ls p.
Proof. intros H (name & a & b & E & Ha & Hb & R). exists name, a, b. split_and!; try done; try (by apply H); apply R. Qed.

Lemma merge_breaker_no_flap ls plan holdOnly : ~ flaps ls plan -> ~ flaps ls (downgradeMergeToHold plan holdOnly ls).
Proof.
  intros H. unfold downgradeMergeToHold. case_match; [done |]. intros F.
  eapply with_hold_no_flap, flaps_sub; [| exact F]. intros a Ha. by apply elem_filter in Ha as [Ha _].
Qed.

Lemma close_breaker_no_flap ls codes plan hold : ~ flaps ls plan -> ~ flaps ls (downgradeCloseToHold plan hold ls codes).
Proof. intros H. unfold downgradeCloseToHold. case_match; [done |]. apply with_hold_no_flap. Qed.

Lemma holdout_cases plan eps auto ls draw record :
  let r := maybeApplyCloseAuditHoldout plan eps auto ls draw record in
  (r.1 = applyCloseAuditHoldout plan ls /\ (exists u, record = Normal u) /\ auto = true
     /\ (exists h, r.2 = Some h /\ ho_diverted h = true))
  \/ (r.1 = plan /\ forall h, r.2 = Some h -> ho_diverted h = false).
Proof.
  cbv zeta. unfold maybeApplyCloseAuditHoldout.
  destruct (nleb (eps ?? nz 0) (nz 0)); simpl; [right; split; [done |]; intros; discriminate |].
  destruct auto; simpl; [| right; split; [done |]; intros; discriminate].
  destruct (holdoutEligibleClose plan); [| right; split; [done |]; intros; discriminate].
  destruct (ngeb _ _); [right; split; [done |]; intros h [= <-]; done |].
  destruct record; [left; split_and!; eauto | right; split; [done |]; intros h [= <-]; done].
Qed.

Lemma holdout_tightens plan ls : tightens ls plan (applyCloseAuditHoldout plan ls).
Proof.
  intros a Ha. apply with_hold_tightens in Ha as [Ha | Ha]; [| by right | by right]. left. by apply elem_filter in Ha as [Ha _].
Qed.

Lemma holdout_keeps plan ls a : holdout_eligible a = false -> removal_of a = None -> a ∈ plan -> a ∈ applyCloseAuditHoldout plan ls.
Proof. intros H Hr Ha. apply with_hold_keeps; [| done]. apply elem_filter. by rewrite H. Qed.

Section Pipeline.
Context (ls : AgentDispositionLabelSettings) (codes : list string).
Context (holdOnly closeHoldOnly : bool) (eps : option num) (auto : bool) (draw : num) (record : completion unit).

Lemma final_tightens plan : tightens ls plan (final_plan plan holdOnly closeHoldOnly ls codes eps auto draw record).
Proof.
  unfold final_plan, applyPrecisionBreakers.
  assert (T : tightens ls plan (downgradeCloseToHold (if holdOnly then downgradeMergeToHold plan true ls else plan) closeHoldOnly ls codes)).
  { eapply tightens_trans; [| apply close_breaker_tightens]. destruct holdOnly; [apply merge_breaker_tightens | apply tightens_refl]. }
  match goal with |- context [maybeApplyCloseAuditHoldout ?p] => destruct (holdout_cases p eps auto ls draw record) as [(-> & _) | (-> & _)] end;
    [eapply tightens_trans; [exact T | apply holdout_tightens] | exact T].
Qed.

Lemma final_sub plan a : a ∈ final_plan plan holdOnly closeHoldOnly ls codes eps auto draw record ->
  a ∈ applyPrecisionBreakers plan holdOnly closeHoldOnly ls codes \/ hold_label ls a.
Proof.
  unfold final_plan.
  match goal with |- context [maybeApplyCloseAuditHoldout ?p] => destruct (holdout_cases p eps auto ls draw record) as [(-> & _) | (-> & _)] end;
    [apply holdout_tightens | by left].
Qed.

Lemma final_keeps_deterministic plan a : deterministic_close a -> a ∈ plan ->
  a ∈ final_plan plan holdOnly closeHoldOnly ls codes eps auto draw record.
Proof.
  intros D Ha. pose proof (deterministic_not_eligible a D) as N. destruct D as [Hc Hk].
  assert (B : a ∈ applyPrecisionBreakers plan holdOnly closeHoldOnly ls codes).
  { unfold applyPrecisionBreakers. apply close_breaker_keeps; [done | unfold isDowngradableClose; by rewrite N, andb_false_r |].
    destruct holdOnly; [by apply merge_breaker_keeps_closes | done]. }
  unfold final_plan.
  match goal with |- context [maybeApplyCloseAuditHoldout ?p] => destruct (holdout_cases p eps auto ls draw record) as [(-> & _) | (-> & _)] end;
    [| done].
  apply holdout_keeps; [| by apply close_not_label | done].
  unfold holdout_eligible, isBreakerEligibleClose in *. apply orb_false_iff in N as [-> _]. by rewrite andb_false_r.
Qed.

Lemma final_no_flap plan : ~ flaps ls plan -> ~ flaps ls (final_plan plan holdOnly closeHoldOnly ls codes eps auto draw record).
Proof.
  intros H. assert (B : ~ flaps ls (applyPrecisionBreakers plan holdOnly closeHoldOnly ls codes)).
  { unfold applyPrecisionBreakers. apply close_breaker_no_flap. destruct holdOnly; [by apply merge_breaker_no_flap | done]. }
  unfold final_plan.
  match goal with |- context [maybeApplyCloseAuditHoldout ?p] => destruct (holdout_cases p eps auto ls draw record) as [(-> & _) | (-> & _)] end;
    [apply with_hold_no_flap | done].
Qed.

(** C7: between the planner and the executor a plan is only tightened.  Whatever
    the breakers and the holdout do, they add nothing but the hold label; with the
    merge breaker engaged no merge is left; with the close breaker engaged every
    close left is deterministic or carries concrete evidence; closes for a
    blacklist, the open-item cap or the linked-issue rule always survive; and a
    plan that does not both add and remove the hold label does not start to. *)
Theorem breakers_only_tighten plan :
  let final := final_plan plan holdOnly closeHoldOnly ls codes eps auto draw record in
  tightens ls plan final
  /\ (holdOnly = true -> forall a, a ∈ final -> actionClass a <> ac_merge)
  /\ (closeHoldOnly = true -> forall a, a ∈ final -> actionClass a = ac_close ->
        isBreakerEligibleClose a = false \/ closeConcreteEvidence a = Some true)
  /\ (forall a, deterministic_close a -> a ∈ plan -> a ∈ final)
  /\ (~ flaps ls plan -> ~ flaps ls final).
Proof.
  cbv zeta. split_and!; [apply final_tightens | | | apply final_keeps_deterministic | apply final_no_flap].
  - intros Hh a Ha. apply final_sub in Ha as [Ha | Ha]; [| rewrite (hold_label_class _ _ Ha); done].
    unfold applyPrecisionBreakers in Ha. rewrite Hh in Ha. apply close_breaker_tightens in Ha as [Ha | Ha];
      [by eapply merge_breaker_no_merge | by rewrite (hold_label_class _ _ Ha)].
  - intros Hh a Ha Hc. apply final_sub in Ha as [Ha | Ha]; [| by rewrite (hold_label_class _ _ Ha) in Hc].
    unfold applyPrecisionBreakers in Ha. apply close_breaker_none_left in Ha.
    destruct (isBreakerEligibleClose a) eqn:E; [right | by left].
    unfold isDowngradableClose, noConcreteEvidenceUnderProjectBreaker, is_class, is_true_flag in Ha.
    rewrite Hc, E, Hh in Ha. by destruct (bool_decide_reflect (closeConcreteEvidence a = Some true)).
Qed.
End Pipeline.

(** The breakers are idempotent: running them on their own result changes
    nothing. *)
Theorem breakers_idempotent plan holdOnly closeHoldOnly ls codes :
  let once := applyPrecisionBreakers plan holdOnly closeHoldOnly ls codes in
  applyPrecisionBreakers once holdOnly closeHoldOnly ls codes = once.
Proof.
  cbv zeta. unfold applyPrecisionBreakers at 1. set (once := applyPrecisionBreakers _ _ _ _ _).
  assert (E : (if holdOnly then downgradeMergeToHold once true ls else once) = once).
  { destruct holdOnly eqn:Eh; [| done]. unfold downgradeMergeToHold. destruct (existsb (is_class ac_merge) once) eqn:X; [| done].
    apply existsb_exists in X as (a & Ha & Hc). apply list_elem_of_In in Ha. unfold is_class in Hc. bools.
    unfold once, applyPrecisionBreakers in Ha. apply close_breaker_tightens in Ha as [Ha | Ha];
      [by apply merge_breaker_no_merge in Ha | by rewrite (hold_label_class _ _ Ha) in Hc]. }
  rewrite E. unfold once, applyPrecisionBreakers. apply close_breaker_idempotent.
Qed.

(** A holdout diverts a close only after its propensity record was written, and
    then no close it could have drawn is left. *)
Theorem holdout_divert_recorded plan eps auto ls draw record h :
  let r := maybeApplyCloseAuditHoldout plan eps auto ls draw record in
  r.2 = Some h -> ho_diverted h = true ->
  (exists u, record = Normal u) /\ auto = true /\ forall a, a ∈ r.1 -> holdout_eligible a = false.
Proof.
  cbv zeta. intros Hr Hd. destruct (holdout_cases plan eps auto ls draw record) as [(E & Rec & A & _) | (_ & N)];
    [| by rewrite (N h Hr) in Hd].
  split_and!; [done | done |]. rewrite E. intros a Ha. apply with_hold_tightens in Ha as [Ha | Ha]; [| | by right].
  - apply elem_filter in Ha as [_ Ha]. by bools.
  - unfold holdout_eligible, is_class. by rewrite (hold_label_class _ _ Ha).
Qed.
