(* ===== verification/MergeTrain.v ===== *)
(** * The merge train

    Models [review/merge-train.ts]: whether a pull request's merge waits for an
    older open sibling that overlaps it, and the path helpers it uses
    ([normalizeForMatch] and [isLockfile] of [signals/path-matchers.ts]).

    Main results: the decision is characterised exactly (who blocks, in which
    order they are reported); a sibling blocks for at most a day; when numbers
    follow creation times, as GitHub assigns them, some pull request of any set
    can always merge; without that the train can deadlock on an undated sibling. *)

From stdpp Require Import base list strings option sets sorting.
From Stdlib Require Import Ascii QArith.
From S2P Require Import Prelude JsNumber JsString Guardrail.

Local Open Scope string_scope.
Local Open Scope js_scope.

(** ** Paths *)

Record NormalizedPath := mkNormalizedPath { np_norm : string; np_base : string; np_ext : string }.

Definition normalize (path : string) : string := toLowerCase (backslashes_to_slashes path).

Definition last_segment (sep : ascii) (s : string) : string := List.last (split_on sep s) "".

(** The extension is empty unless the last dot is past the first character. *)
Definition extension (base : string) : string :=
  match split_on "." base with
  | [] | [_] => ""
  | first :: rest => match rest with
                     | [_] => if str_empty first then "" else last_segment "." base
                     | _ => last_segment "." base
                     end
  end.

Definition normalizeForMatch (path : string) : NormalizedPath :=
  let norm := normalize path in
  let base := last_segment "/" norm in
  mkNormalizedPath norm base (extension base).

Definition LOCKFILE_NAMES : list string :=
  ["package-lock.json"; "npm-shrinkwrap.json"; "yarn.lock"; "pnpm-lock.yaml"; "bun.lock"; "bun.lockb"; "cargo.lock";
   "poetry.lock"; "pipfile.lock"; "composer.lock"; "gemfile.lock"; "go.sum"; "go.work.sum"; "uv.lock";
   "packages.lock.json"; "flake.lock"; "deno.lock"; "pubspec.lock"; "podfile.lock"; "mix.lock"; "package.resolved";
   "gradle.lockfile"; "pdm.lock"; "conan.lock"; "pixi.lock"; "cartfile.resolved"; "gopkg.lock"; "shard.lock";
   "rebar.lock"; "renv.lock"; "chart.lock"].

Definition isLockfile (path : string) : bool := set_has LOCKFILE_NAMES (np_base (normalizeForMatch path)).

(** [LOW_SIGNAL_DIR_RE]: a directory of the path, at any depth, is one of these. *)
Definition LOW_SIGNAL_DIRS : list string :=
  ["dist"; "build"; "out"; "coverage"; "node_modules"; "vendor"; "vendored"; "third_party"; "third-party";
   "bower_components"; "jspm_packages"].

Definition LOW_SIGNAL_DIR_RE (path : string) : bool :=
  existsb (fun dir => set_has LOW_SIGNAL_DIRS (toLowerCase dir)) (List.removelast (split_on "/" path)).

Definition isMeaningfulPath (path : string) : bool := negb (isLockfile path) && negb (LOW_SIGNAL_DIR_RE path).

(** ** The decision *)

Record MergeTrainSibling := mkSibling {
  mt_number : Z;
  mt_createdAt : option string;
  mt_mergeableState : option string;
  mt_linkedIssues : option (list Z);
  mt_changedFiles : option (list string);
  mt_heldForManualReview : option bool;
  mt_isDraft : option bool;
}.

Definition MERGE_TRAIN_MAX_WAIT_MS : num := nz (24 * 60 * 60 * 1000).

Record MergeTrainWait := mkWait { blockingPr : Z; queueAhead : list Z }.

Definition overlaps (thisPrLinkedIssues : list Z) (thisPrChangedFiles : option (list string)) (sibling : MergeTrainSibling)
    : bool :=
  existsb (fun issue => bool_decide (issue ∈ mt_linkedIssues sibling ?? [])) thisPrLinkedIssues
  || match thisPrChangedFiles, mt_changedFiles sibling with
     | Some mine, Some theirs => existsb (fun path => set_has theirs path && isMeaningfulPath path) mine
     | _, _ => false
     end.

Record ShouldWaitForOlderSiblingsInput := mkTrainInput {
  ti_thisPrNumber : Z;
  ti_thisPrCreatedAt : option string;
  ti_thisPrLinkedIssues : list Z;
  ti_thisPrChangedFiles : option (list string);
  ti_siblings : list MergeTrainSibling;
  ti_nowMs : num;
}.

(** Insertion into a list ordered by number, after its equals: the stable sort
    of [a.number - b.number]. *)
Fixpoint insert_by_number (s : MergeTrainSibling) (l : list MergeTrainSibling) : list MergeTrainSibling :=
  match l with
  | [] => [s]
  | t :: l' => if (mt_number s <? mt_number t)%Z then s :: l else t :: insert_by_number s l'
  end.

Definition sort_by_number (l : list MergeTrainSibling) : list MergeTrainSibling :=
  List.fold_left (fun acc s => insert_by_number s acc) l [].

Section Train.
(** [Date.parse]. *)
Context (date_parse : string -> num).

Definition created_ms (createdAt : option string) : num :=
  match createdAt with Some (String c s) => date_parse (String c s) | _ => NaN end.

Definition isOlder (input : ShouldWaitForOlderSiblingsInput) (sibling : MergeTrainSibling) : bool :=
  let thisCreatedMs := created_ms (ti_thisPrCreatedAt input) in
  let siblingCreatedMs := created_ms (mt_createdAt sibling) in
  if is_finite siblingCreatedMs && is_finite thisCreatedMs && negb (neqb siblingCreatedMs thisCreatedMs)
  then nltb siblingCreatedMs thisCreatedMs
  else (mt_number sibling <? ti_thisPrNumber input)%Z.

Definition not_stale (input : ShouldWaitForOlderSiblingsInput) (sibling : MergeTrainSibling) : bool :=
  let siblingCreatedMs := created_ms (mt_createdAt sibling) in
  if negb (is_finite siblingCreatedMs) then true
  else nltb (nsub (ti_nowMs input) siblingCreatedMs) MERGE_TRAIN_MAX_WAIT_MS.

Definition flag (b : option bool) : bool := b ?? false.

Definition trying_to_merge (sibling : MergeTrainSibling) : bool :=
  negb (bool_decide (mt_mergeableState sibling = Some "dirty")) && negb (flag (mt_heldForManualReview sibling))
  && negb (flag (mt_isDraft sibling)) && negb (bool_decide (mt_mergeableState sibling = Some "draft")).

Definition blocks (input : ShouldWaitForOlderSiblingsInput) (sibling : MergeTrainSibling) : bool :=
  negb (mt_number sibling =? ti_thisPrNumber input)%Z && trying_to_merge sibling && isOlder input sibling
  && overlaps (ti_thisPrLinkedIssues input) (ti_thisPrChangedFiles input) sibling && not_stale input sibling.

(** The chain of [filter]s is one filter by their conjunction. *)
Definition shouldWaitForOlderSiblings (input : ShouldWaitForOlderSiblingsInput) : option MergeTrainWait :=
  let viable := sort_by_number (List.filter (blocks input) (ti_siblings input)) in
  match viable with
  | [] => None
  | blocker :: _ => Some (mkWait (mt_number blocker) (List.map mt_number viable))
  end.

(** ** Exactness *)

Lemma insert_perm s l : insert_by_number s l ≡ₚ s :: l.
Proof.
  induction l as [| t l IH]; simpl; [done |]. case_match; [done |]. rewrite IH. constructor.
Qed.

Lemma sort_perm_acc l : forall acc, List.fold_left (fun acc s => insert_by_number s acc) l acc ≡ₚ l ++ acc.
Proof.
  induction l as [| s l IH]; intros acc; simpl; [done |]. rewrite IH, insert_perm. by rewrite Permutation_middle.
Qed.

Lemma sort_perm l : sort_by_number l ≡ₚ l.
Proof. unfold sort_by_number. rewrite sort_perm_acc. by rewrite app_nil_r. Qed.

Definition by_number (s t : MergeTrainSibling) : Prop := (mt_number s <= mt_number t)%Z.

Lemma insert_sorted s l : Sorted by_number l -> Sorted by_number (insert_by_number s l).
Proof.
  unfold by_number. induction 1 as [| t l H IH Hd]; simpl; [by repeat constructor |].
  destruct (Z.ltb_spec (mt_number s) (mt_number t)) as [Hl | Hl].
  - repeat constructor; try done. lia.
  - constructor; [done |]. destruct l as [| u l]; simpl; [constructor; lia |].
    inversion Hd; subst. case_match; constructor; lia.
Qed.

Lemma sort_sorted_acc l : forall acc, Sorted by_number acc -> Sorted by_number (List.fold_left (fun acc s => insert_by_number s acc) l acc).
Proof. induction l as [| s l IH]; intros acc H; simpl; [done |]. by apply IH, insert_sorted. Qed.

Lemma sort_strongly l : StronglySorted by_number (sort_by_number l).
Proof. apply Sorted_StronglySorted; [intros a b c; unfold by_number; lia | apply sort_sorted_acc; constructor]. Qed.

Lemma train_spec input :
  match shouldWaitForOlderSiblings input with
  | None => forall s, s ∈ ti_siblings input -> blocks input s = false
  | Some w =>
      (exists s, s ∈ ti_siblings input /\ blocks input s = true /\ mt_number s = blockingPr w)
      /\ (forall s, s ∈ ti_siblings input -> blocks input s = true -> (blockingPr w <= mt_number s)%Z)
      /\ queueAhead w ≡ₚ List.map mt_number (List.filter (blocks input) (ti_siblings input))
      /\ StronglySorted Z.le (queueAhead w)
  end.
Proof.
  unfold shouldWaitForOlderSiblings. set (v := List.filter (blocks input) (ti_siblings input)).
  assert (M : forall s, s ∈ sort_by_number v <-> s ∈ ti_siblings input /\ blocks input s = true).
  { intros s. rewrite (sort_perm v). unfold v. by rewrite !list_elem_of_In, filter_In. }
  pose proof (sort_strongly v) as S. pose proof (sort_perm v) as P.
  destruct (sort_by_number v) as [| b l] eqn:E.
  - intros s Hs. apply not_true_iff_false. intros B. assert (H : s ∈ []) by (by apply M). by apply elem_of_nil in H.
  - split_and!; cbn [blockingPr queueAhead].
    + exists b. assert (H : b ∈ b :: l) by left. apply M in H. tauto.
    + intros s Hs B. assert (H : s ∈ b :: l) by (by apply M). apply elem_of_cons in H as [-> | H]; [lia |].
      inversion S as [| x1 x2 _ F]; subst. rewrite List.Forall_forall in F. apply F. by apply list_elem_of_In.
    + by rewrite <- P.
    + clear - S. induction S as [| x xs S IH F]; simpl; constructor; [done |].
      apply List.Forall_forall. intros z Hz. apply in_map_iff in Hz as (s & <- & Hs).
      rewrite List.Forall_forall in F. by apply F.
Qed.

(** A merge waits exactly when an older open sibling that is trying to merge,
    overlaps it and is not a day old blocks it; the wait names the blocking
    sibling of lowest number and lists exactly the blocking siblings in
    increasing order. *)
Theorem merge_train_exact input :
  match shouldWaitForOlderSiblings input with
  | None => forall s, s ∈ ti_siblings input -> blocks input s = false
  | Some w =>
      (exists s, s ∈ ti_siblings input /\ blocks input s = true /\ mt_number s = blockingPr w)
      /\ (forall s, s ∈ ti_siblings input -> blocks input s = true -> (blockingPr w <= mt_number s)%Z)
      /\ queueAhead w ≡ₚ List.map mt_number (List.filter (blocks input) (ti_siblings input))
      /\ StronglySorted Z.le (queueAhead w)
  end.
Proof. apply train_spec. Qed.

(** ** Progress *)

(** What the executor asks for a pull request [x] of the open set [ps]. *)
Definition seen_by (ps : list MergeTrainSibling) (now : num) (x : MergeTrainSibling) : ShouldWaitForOlderSiblingsInput :=
  mkTrainInput (mt_number x) (mt_createdAt x) (mt_linkedIssues x ?? []) (mt_changedFiles x) ps now.

(** Numbers follow creation times, as GitHub assigns them. *)
Definition chronological (ps : list MergeTrainSibling) : Prop :=
  forall a b, a ∈ ps -> b ∈ ps -> (mt_number a < mt_number b)%Z ->
  is_finite (created_ms (mt_createdAt a)) = true -> is_finite (created_ms (mt_createdAt b)) = true ->
  nleb (created_ms (mt_createdAt a)) (created_ms (mt_createdAt b)) = true.

Lemma blocks_older ps now x s : chronological ps -> x ∈ ps -> s ∈ ps -> blocks (seen_by ps now x) s = true ->
  (mt_number s < mt_number x)%Z.
Proof.
  intros C Hx Hs. unfold blocks, isOlder. cbn [ti_thisPrNumber ti_thisPrCreatedAt seen_by].
  rewrite !andb_true_iff, negb_true_iff, Z.eqb_neq. intros ((((Hne & _) & Ho) & _) & _).
  destruct (is_finite (created_ms (mt_createdAt s)) && is_finite (created_ms (mt_createdAt x)) && _) eqn:E;
    [| by apply Z.ltb_lt].
  apply andb_true_iff in E as [[Fs Fx]%andb_true_iff _].
  destruct (Z.lt_total (mt_number s) (mt_number x)) as [H | [H | H]]; [done | done |].
  pose proof (C x s Hx Hs H Fx Fs) as L. unfold nltb, nleb, ncmp in *.
  destruct (created_ms (mt_createdAt s)) as [| | | qs], (created_ms (mt_createdAt x)) as [| | | qx]; try discriminate.
  rewrite <- (Qcompare_antisym qs qx) in L. by destruct (Qcompare qs qx).
Qed.

(** The train always moves: of any non-empty set of open pull requests whose
    numbers follow their creation times, at least one does not wait - the one of
    lowest number - whatever overlaps what. *)
Theorem merge_train_progress ps now :
  ps <> [] -> chronological ps ->
  exists x, x ∈ ps /\ (forall y, y ∈ ps -> (mt_number x <= mt_number y)%Z) /\ shouldWaitForOlderSiblings (seen_by ps now x) = None.
Proof.
  intros Hne C.
  assert (Hmin : exists x, x ∈ ps /\ forall y, y ∈ ps -> (mt_number x <= mt_number y)%Z).
  { clear C. induction ps as [| a ps IH]; [done |]. destruct ps as [| b ps].
    - exists a. split; [left |]. intros y Hy. apply list_elem_of_singleton in Hy as ->. lia.
    - destruct IH as (x & Hx & Hm); [done |]. destruct (Z.le_gt_cases (mt_number a) (mt_number x)) as [H | H].
      + exists a. split; [left |]. intros y [-> | Hy]%elem_of_cons; [lia |]. specialize (Hm y Hy). lia.
      + exists x. split; [by right |]. intros y [-> | Hy]%elem_of_cons; [lia | auto]. }
  destruct Hmin as (x & Hx & Hm). exists x. split_and!; [done | done |].
  pose proof (train_spec (seen_by ps now x)) as X. destruct (shouldWaitForOlderSiblings _) as [w |]; [| done].
  destruct X as ((s & Hs & B & _) & _). cbn in Hs. pose proof (blocks_older ps now x s C Hx Hs B). specialize (Hm s Hs). lia.
Qed.

(** A dated sibling blocks for less than a day. *)
Lemma blocked_less_than_a_day input s : blocks input s = true -> is_finite (created_ms (mt_createdAt s)) = true ->
  nltb (nsub (ti_nowMs input) (created_ms (mt_createdAt s))) MERGE_TRAIN_MAX_WAIT_MS = true.
Proof. unfold blocks, not_stale. intros H F. apply andb_true_iff in H as [_ H]. by rewrite F in H. Qed.
End Train.

(** ** Deadlock on an undated sibling *)

(** Times as the length of the text, for the examples. *)
Definition toy_date (s : string) : num := nz (Z.of_nat (String.length s)).

Definition toy (n : Z) (createdAt : option string) : MergeTrainSibling :=
  mkSibling n createdAt (Some "clean") (Some [7%Z]) None None None.

(** Comparing by time where both are known and by number otherwise is not
    transitive: 3 was created before 1, 2 carries no time, and each waits for
    another. *)
Theorem merge_train_deadlock :
  let ps := [toy 1 (Some "aaa"); toy 2 None; toy 3 (Some "a")] in
  forall x, x ∈ ps -> shouldWaitForOlderSiblings toy_date (seen_by ps (nz 10) x) <> None.
Proof.
  cbv zeta. intros x H. repeat (apply elem_of_cons in H as [-> | H]; [vm_compute; discriminate |]). by apply elem_of_nil in H.
Qed.

(** The reported blocker is the lowest number, not the oldest sibling. *)
Example blocker_not_oldest :
  let ps := [toy 1 (Some "aa"); toy 2 (Some "a"); toy 3 (Some "aaa")] in
  blockingPr <$> shouldWaitForOlderSiblings toy_date (seen_by ps (nz 10) (toy 3 (Some "aaa"))) = Some 1%Z.
Proof. vm_compute. reflexivity. Qed.

Lemma merge_train_progress_witness :
  exists x, x ∈ [toy 1 (Some "a"); toy 2 (Some "aa")]
    /\ (forall y, y ∈ [toy 1 (Some "a"); toy 2 (Some "aa")] -> (mt_number x <= mt_number y)%Z)
    /\ shouldWaitForOlderSiblings toy_date (seen_by [toy 1 (Some "a"); toy 2 (Some "aa")] (nz 10) x) = None.
Proof.
  apply merge_train_progress; [discriminate |].
  intros a b Ha Hb. repeat (apply elem_of_cons in Ha as [-> | Ha]); try (by apply elem_of_nil in Ha);
  repeat (apply elem_of_cons in Hb as [-> | Hb]); try (by apply elem_of_nil in Hb); cbn [mt_number toy]; intros; try lia; reflexivity.
Defined.
