(* ===== verification/MergeFailure.v ===== *)
(** * Failed merges

    Models [services/merge-failure.ts] (the classification of a merge GitHub
    refused and the lifetime of the block it leaves), the row operations behind
    it ([bumpPullRequestMergeAttempt], [markPullRequestMergeBlocked] and the
    reset on a new head, of [db/repositories.ts]) and [handleMergeFailure] of
    [services/agent-action-executor.ts], which runs them.

    Main results: an unchanged head is merged against at most [MERGE_RETRY_CAP]
    times before a block stands; a block caused by the installation lapses after
    its window, one caused by the commit lasts exactly as long as the head; the
    planner plans no merge while a block is in effect. *)

From stdpp Require Import base list strings option.
From Stdlib Require Import Ascii.
From S2P Require Import Prelude JsNumber JsString JsRegex PublicComment Autonomy GateAdvisory AgentActions AgentPlan.

Local Open Scope nat_scope.
Local Open Scope string_scope.
Local Open Scope js_scope.

(** ** Messages *)

Definition MERGE_RETRY_CAP : nat := 5.

Definition isMergeConflictMessage (message : string) : bool :=
  test (alt_all [lit_ci "merge conflict"; lit_ci "not mergeable"; lit_ci "cannot be merged"; lit_ci "has conflicts";
                 cat_all [lit_ci "conflict"; opt_lit "s"; lit_ci " with the base"]]) message.

Definition isNoNewBaseCommitsMessage (message : string) : bool := test (lit_ci "no new commits on the base branch") message.

Definition isWorkflowScopeRefusalMessage (message : string) : bool :=
  test (cat_all [lit_ci "refusing to allow "; Opt (words ["a "; "an "]); words ["github app"; "oauth app"; "integration"];
                 Rep (fun c => negb (Ascii.eqb c ".")); lit_ci "workflow"]) message.

Definition isBaseBranchMovedMessage (message : string) : bool := test (lit_ci "base branch was modified") message.

Definition isMergeAlreadyInProgressMessage (message : string) : bool := test (lit_ci "merge already in progress") message.

Definition isConvergenceForbiddenMessage (message : string) : bool :=
  test (words ["resource not accessible by integration"; "secondary rate limit"; "api rate limit"; "abuse detection"]) message.

Definition isRateLimitMessage (message : string) : bool :=
  test (words ["secondary rate limit"; "abuse"; "api rate limit exceeded"]) message.

(** ** Classification *)

(** A caught error: its HTTP status, if it carries one, and [errorMessage] of it. *)
Record GhError := mkError { httpStatus : option Z; er_message : string }.

Definition INFRA_MERGE_BLOCK_TTL_MS : Z := 30 * 60 * 1000.

Inductive MergeFailureScope := scope_commit | scope_infra.

#[global] Instance MergeFailureScope_eq_dec : EqDecision MergeFailureScope.
Proof. solve_decision. Defined.

Record MergeFailure := mkFailure { mf_terminal : bool; mf_scope : MergeFailureScope; mf_reason : string }.

Definition has_status (error : GhError) (code : Z) : bool := bool_decide (httpStatus error = Some code).

Definition classifyMergeFailure (error : GhError) : MergeFailure :=
  let message := er_message error in
  if has_status error 401
  then mkFailure true scope_infra ("installation token rejected: App suspended or key rotated (401): " ++ message)
  else if has_status error 429
  then mkFailure false scope_infra ("merge rate-limited (429 — secondary rate limit, self-healing window): " ++ message)
  else if has_status error 403 && isRateLimitMessage message
  then mkFailure false scope_infra ("merge rate-limited (403 — secondary rate limit, self-healing window): " ++ message)
  else if has_status error 403 && isConvergenceForbiddenMessage message
  then mkFailure false scope_infra
         ("merge forbidden for now (403 — branch protection or GitHub permission visibility may still be converging): " ++ message)
  else if has_status error 403 then mkFailure true scope_commit ("merge forbidden (403): " ++ message)
  else if has_status error 405 && isBaseBranchMovedMessage message
  then mkFailure false scope_commit ("base branch moved during merge — retrying: " ++ message)
  else if has_status error 405 && isMergeAlreadyInProgressMessage message
  then mkFailure false scope_commit ("a merge for this PR was already in progress — retrying: " ++ message)
  else if has_status error 405
  then mkFailure true scope_commit ("merge not allowed (405 — repo merge policy forbids an automated merge): " ++ message)
  else if has_status error 409 then mkFailure true scope_commit ("merge conflict / required check absent (409): " ++ message)
  else if isMergeConflictMessage message
  then mkFailure true scope_commit ("branch conflicts with base — contributor must rebase: " ++ message)
  else mkFailure false scope_commit message.

(** ** The pull request's row *)

(** The columns of [pull_requests] a failed merge reads and writes. *)
Record MergeRow := mkRow {
  row_headSha : string;
  row_mergeAttemptCount : nat;
  row_mergeBlockedSha : option string;
  row_mergeBlockedReason : option string;
  row_mergeBlockedUntil : option string;
}.

(** The update is conditional on the head; the count returned is the row's. *)
Definition bumpPullRequestMergeAttempt (row : MergeRow) (headSha : string) : MergeRow * nat :=
  let row' := if String.eqb (row_headSha row) headSha
              then mkRow (row_headSha row) (S (row_mergeAttemptCount row)) (row_mergeBlockedSha row)
                     (row_mergeBlockedReason row) (row_mergeBlockedUntil row)
              else row in
  (row', row_mergeAttemptCount row').

Definition markPullRequestMergeBlocked (row : MergeRow) (headSha reason : string) (expiresAt : option string) : MergeRow :=
  if String.eqb (row_headSha row) headSha
  then mkRow (row_headSha row) (match expiresAt with Some _ => 0 | None => row_mergeAttemptCount row end)
         (Some headSha) (Some (js_take 280 reason)) expiresAt
  else row.

(** What an upsert of the row does to these columns: a new head restarts the
    budget and leaves the block of the old one in place. *)
Definition sync_head (row : MergeRow) (resolvedHeadSha : string) : MergeRow :=
  let headShaChanged := negb (String.eqb resolvedHeadSha (row_headSha row)) in
  mkRow resolvedHeadSha (if headShaChanged then 0 else row_mergeAttemptCount row)
    (row_mergeBlockedSha row) (row_mergeBlockedReason row) (row_mergeBlockedUntil row).

Section Blocks.
(** [Date.parse] and [Date.prototype.toISOString]. *)
Context (date_parse : string -> num) (toISOString : num -> string).

Definition isMergeBlockInEffect (mergeBlockedSha mergeBlockedUntil headSha : option string) (nowMs : num) : bool :=
  match mergeBlockedSha, headSha with
  | Some blocked, Some head =>
      if negb (String.eqb blocked head) then false
      else match mergeBlockedUntil with
           | None => true
           | Some until => let expiry := date_parse until in is_finite expiry && nltb nowMs expiry
           end
  | _, _ => false
  end.

Definition activeMergeBlockedSha (mergeBlockedSha mergeBlockedUntil headSha : option string) (nowMs : num) : option string :=
  if isMergeBlockInEffect mergeBlockedSha mergeBlockedUntil headSha nowMs then mergeBlockedSha else None.

(** A failed merge of [headSha] at the time [nowMs]: the row afterwards. *)
Definition handleMergeFailure (row : MergeRow) (headSha : string) (error : GhError) (nowMs : num) : MergeRow :=
  let c := classifyMergeFailure error in
  let '(row1, terminal, reason) :=
    if mf_terminal c then (row, true, mf_reason c)
    else
      let '(row1, attempts) := bumpPullRequestMergeAttempt row headSha in
      if Nat.leb MERGE_RETRY_CAP attempts
      then (row1, true, "merge could not complete after " ++ num_to_string (nnat attempts) ++ " attempt(s): " ++ er_message error)
      else (row1, false, mf_reason c) in
  if negb terminal then row1
  else
    let expiresAt := if bool_decide (mf_scope c = scope_infra)
                     then Some (toISOString (nadd nowMs (nz INFRA_MERGE_BLOCK_TTL_MS))) else None in
    markPullRequestMergeBlocked row1 headSha reason expiresAt.

(** The block the planner is shown. *)
Definition row_block (row : MergeRow) (nowMs : num) : option string :=
  activeMergeBlockedSha (row_mergeBlockedSha row) (row_mergeBlockedUntil row) (Some (row_headSha row)) nowMs.

Definition fail_all (row : MergeRow) (failures : list (GhError * num)) : MergeRow :=
  List.fold_left (fun r f => handleMergeFailure r (row_headSha r) (fst f) (snd f)) failures row.

(** ** One failure *)

(** A failure either spends one attempt, leaving the block as it was, or
    records one for this head. *)
Lemma failure_step row e now :
  let row' := handleMergeFailure row (row_headSha row) e now in
  row_headSha row' = row_headSha row
  /\ ((mf_terminal (classifyMergeFailure e) = false /\ row_mergeAttemptCount row' = S (row_mergeAttemptCount row)
       /\ S (row_mergeAttemptCount row) < MERGE_RETRY_CAP
       /\ row_mergeBlockedSha row' = row_mergeBlockedSha row /\ row_mergeBlockedUntil row' = row_mergeBlockedUntil row)
      \/ ((mf_terminal (classifyMergeFailure e) = true \/ MERGE_RETRY_CAP <= S (row_mergeAttemptCount row))
          /\ row_mergeBlockedSha row' = Some (row_headSha row)
          /\ row_mergeBlockedUntil row'
             = (if bool_decide (mf_scope (classifyMergeFailure e) = scope_infra)
                then Some (toISOString (nadd now (nz INFRA_MERGE_BLOCK_TTL_MS))) else None))).
Proof.
  cbv zeta. unfold handleMergeFailure, bumpPullRequestMergeAttempt, markPullRequestMergeBlocked.
  destruct (classifyMergeFailure e) as [[] sc why]; cbn [mf_terminal mf_scope mf_reason]; rewrite !String.eqb_refl;
    cbn [row_headSha row_mergeAttemptCount negb].
  - cbn. auto 10.
  - destruct (Nat.leb_spec MERGE_RETRY_CAP (S (row_mergeAttemptCount row))) as [H | H];
      cbn [negb row_headSha]; [rewrite String.eqb_refl |]; cbn [row_headSha row_mergeBlockedSha row_mergeBlockedUntil]; auto 10.
Qed.

Lemma terminal_failure_blocks row e now :
  mf_terminal (classifyMergeFailure e) = true \/ MERGE_RETRY_CAP <= S (row_mergeAttemptCount row) ->
  row_mergeBlockedSha (handleMergeFailure row (row_headSha row) e now) = Some (row_headSha row)
  /\ row_mergeBlockedUntil (handleMergeFailure row (row_headSha row) e now)
     = (if bool_decide (mf_scope (classifyMergeFailure e) = scope_infra)
        then Some (toISOString (nadd now (nz INFRA_MERGE_BLOCK_TTL_MS))) else None).
Proof.
  intros H. destruct (failure_step row e now) as [_ [(T & _ & C & _) | (_ & B)]]; [| exact B].
  exfalso. destruct H as [E | E]; [congruence | lia].
Qed.

Lemma fail_head row fs : row_headSha (fail_all row fs) = row_headSha row.
Proof.
  unfold fail_all. revert row. induction fs as [| [e t] fs IH]; intros row; simpl; [done |].
  rewrite IH. apply failure_step.
Qed.

Lemma fail_snoc row fs e t :
  fail_all row (fs ++ [(e, t)]) = handleMergeFailure (fail_all row fs) (row_headSha (fail_all row fs)) e t.
Proof. unfold fail_all. by rewrite List.fold_left_app. Qed.

(** Before the first block every failure was transient and cost one attempt. *)
Lemma unblocked_attempts row fs : row_mergeBlockedSha row = None ->
  row_mergeBlockedSha (fail_all row fs) = None ->
  row_mergeAttemptCount (fail_all row fs) = row_mergeAttemptCount row + List.length fs
  /\ (fs <> [] -> row_mergeAttemptCount row + List.length fs < MERGE_RETRY_CAP)
  /\ Forall (fun f => mf_terminal (classifyMergeFailure (fst f)) = false) fs.
Proof.
  intros H0. induction fs as [| [e t] fs IH] using rev_ind; intros H; [simpl; split_and!; [lia | done | constructor] |].
  rewrite fail_snoc in *. destruct (failure_step (fail_all row fs) e t) as [_ [(T & A & C & B & _) | (_ & B & _)]];
    [| by rewrite B in H].
  rewrite B in H. destruct (IH H) as (A' & _ & F). rewrite A, A', List.length_app in *. simpl.
  split_and!; [lia | intros _; lia |]. apply Forall_app. split; [exact F | by constructor].
Qed.

(** A commit that keeps failing transiently is not blocked before the cap. *)
Lemma within_budget row fs : row_mergeBlockedSha row = None ->
  Forall (fun f => mf_terminal (classifyMergeFailure (fst f)) = false) fs ->
  row_mergeAttemptCount row + List.length fs < MERGE_RETRY_CAP ->
  row_mergeBlockedSha (fail_all row fs) = None.
Proof.
  intros H0 F. induction fs as [| [e t] fs IH] using rev_ind; intros L; [done |].
  apply Forall_app in F as [F1 F2%Forall_inv]. rewrite List.length_app in L. simpl in L.
  rewrite fail_snoc. assert (U : row_mergeBlockedSha (fail_all row fs) = None) by (apply IH; [done | lia]).
  destruct (unblocked_attempts row fs H0 U) as [A _].
  destruct (failure_step (fail_all row fs) e t) as [_ [(_ & _ & _ & B & _) | ([T | T] & _)]];
    [by rewrite B | simpl in F2; congruence | lia].
Qed.

(** The retry budget is exact: merges that fail against one unblocked head
    leave it unblocked if and only if every failure was classified as transient
    and together with the attempts already spent they stay below the cap of
    five; so the fifth failure at the latest leaves a block for this head. *)
Theorem merge_retry_budget_exact row fs :
  row_mergeBlockedSha row = None -> fs <> [] ->
  (row_mergeBlockedSha (fail_all row fs) = None
   <-> Forall (fun f => mf_terminal (classifyMergeFailure (fst f)) = false) fs
       /\ row_mergeAttemptCount row + List.length fs < MERGE_RETRY_CAP).
Proof.
  intros H0 Hne. split.
  - intros H. destruct (unblocked_attempts row fs H0 H) as (_ & L & F). auto.
  - intros [F L]. by apply within_budget.
Qed.

(** ** How long a block lasts *)

Section Dates.
(** [Date.parse] reads back the instants [toISOString] prints. *)
Hypothesis iso_roundtrip : forall z, (0 <= z <= 8640000000000000)%Z -> date_parse (toISOString (nz z)) = nz z.

Lemma sync_block row sha now : row_block (sync_head row sha) now
  = activeMergeBlockedSha (row_mergeBlockedSha row) (row_mergeBlockedUntil row) (Some sha) now.
Proof. done. Qed.

(** The block a failure leaves lasts exactly as long as its cause: while the
    head is the one that failed, an infra-scoped block is in effect until thirty
    minutes after the failure and not from then on, a commit-scoped one always;
    for any other head neither is, and the new head starts with no attempt
    spent. *)
Theorem block_lifetime_exact row e (t now : Z) sha :
  (0 <= t <= 4000000000000000)%Z -> (0 <= now <= 4000000000000000)%Z ->
  let row' := handleMergeFailure row (row_headSha row) e (nz t) in
  mf_terminal (classifyMergeFailure e) = true \/ MERGE_RETRY_CAP <= S (row_mergeAttemptCount row) ->
  (sha = row_headSha row ->
     row_block (sync_head row' sha) (nz now)
     = if bool_decide (mf_scope (classifyMergeFailure e) = scope_commit) || (now <? t + INFRA_MERGE_BLOCK_TTL_MS)%Z
       then Some sha else None)
  /\ (sha <> row_headSha row ->
        row_block (sync_head row' sha) (nz now) = None /\ row_mergeAttemptCount (sync_head row' sha) = 0).
Proof.
  intros Ht Hn row' Hterm. destruct (failure_step row e (nz t)) as [Hh _]. fold row' in Hh.
  pose proof (terminal_failure_blocks row e (nz t) Hterm) as B. fold row' in B.
  destruct B as [B U]. rewrite sync_block, B, U. unfold activeMergeBlockedSha, isMergeBlockInEffect.
  split; intros Hsha.
  - rewrite Hsha, String.eqb_refl. cbn [negb]. destruct (mf_scope (classifyMergeFailure e)); [done |].
    rewrite (bool_decide_eq_true_2 (scope_infra = scope_infra)), (bool_decide_eq_false_2 (scope_infra = scope_commit)) by done.
    unfold INFRA_MERGE_BLOCK_TTL_MS in *. rewrite nz_add, iso_roundtrip by lia. by rewrite nz_finite, nz_ltb.
  - rewrite (proj2 (String.eqb_neq _ _)) by congruence. cbn [negb]. split; [done |].
    unfold sync_head. cbn [row_mergeAttemptCount]. rewrite Hh, (proj2 (String.eqb_neq _ _)) by done. done.
Qed.
End Dates.

(** ** The planner respects the block *)

(** The planner's view of a row: its head and the block still in effect. *)
Definition sees_row (input : AgentActionPlanInput) (row : MergeRow) (nowMs : num) : Prop :=
  p_headSha (i_pr input) = Some (row_headSha row) /\ p_mergeBlockedSha (i_pr input) = row_block row nowMs.

Lemma blocked_exactly input row now : sees_row input row now ->
  Plan.mergeTerminallyBlocked input
  = isMergeBlockInEffect (row_mergeBlockedSha row) (row_mergeBlockedUntil row) (Some (row_headSha row)) now.
Proof.
  intros [H1 H2]. unfold Plan.mergeTerminallyBlocked, same_sha. rewrite H1, H2.
  unfold row_block, activeMergeBlockedSha. destruct (isMergeBlockInEffect _ _ _ _) eqn:E; [| done].
  unfold isMergeBlockInEffect in E. destruct (row_mergeBlockedSha row) as [b |]; [| done].
  destruct (String.eqb b (row_headSha row)); [done | discriminate].
Qed.

(** Once a merge of the current head has failed terminally, or for the fifth
    time, the planner plans no merge of that head, whatever else it is told: for
    a commit-scoped failure at any later moment, for an infra-scoped one during
    the thirty minutes after it. *)
Theorem blocked_head_not_replanned row e (t now : Z) input :
  (forall z, (0 <= z <= 8640000000000000)%Z -> date_parse (toISOString (nz z)) = nz z) ->
  (0 <= t <= 4000000000000000)%Z ->
  mf_terminal (classifyMergeFailure e) = true \/ MERGE_RETRY_CAP <= S (row_mergeAttemptCount row) ->
  mf_scope (classifyMergeFailure e) = scope_commit \/ (now < t + INFRA_MERGE_BLOCK_TTL_MS)%Z ->
  sees_row input (handleMergeFailure row (row_headSha row) e (nz t)) (nz now) ->
  Forall (fun a => actionClass a <> ac_merge) (Plan.planAgentMaintenanceActions input).
Proof.
  intros Hiso Ht Hterm Hsc Hin. apply List.Forall_forall. intros a Ha Hc. apply list_elem_of_In in Ha.
  destruct (merge_origin input a Ha Hc) as [[] _].
  rewrite (blocked_exactly _ _ _ Hin) in me_not_blocked.
  destruct (failure_step row e (nz t)) as [Hh _]. destruct (terminal_failure_blocks row e (nz t) Hterm) as [B U].
  unfold isMergeBlockInEffect in me_not_blocked. rewrite B, U, Hh, String.eqb_refl in me_not_blocked.
  destruct (mf_scope (classifyMergeFailure e)); [discriminate |]. destruct Hsc as [? | Hw]; [done |].
  rewrite (bool_decide_eq_true_2 (scope_infra = scope_infra)) in me_not_blocked by done.
  unfold INFRA_MERGE_BLOCK_TTL_MS in *. rewrite nz_add, Hiso, nz_finite, nz_ltb in me_not_blocked by lia. cbn in me_not_blocked. lia.
Qed.
End Blocks.

(** ** Concrete failures *)

(** Instants as runs of digits, for the examples. *)
Definition run_of (x : num) : string := match x with Fin q => zeros (Z.to_nat (Qround.Qfloor q)) | _ => "" end.
Definition run_length (s : string) : num := nz (Z.of_nat (String.length s)).

Lemma zeros_length n : String.length (zeros n) = n.
Proof. induction n as [| n IH]; [done |]. change (S (String.length (zeros n)) = S n). by rewrite IH. Qed.

Lemma run_roundtrip z : (0 <= z <= 8640000000000000)%Z -> run_length (run_of (nz z)) = nz z.
Proof. intros H. unfold run_length, run_of, nz. rewrite Qround.Qfloor_Z, zeros_length. f_equal. f_equal. lia. Qed.

Definition fresh_row : MergeRow := mkRow "abc123" 0 None None None.
Definition moved : GhError := mkError (Some 405%Z) "Base branch was modified. Review and try the merge again.".
Definition conflict : GhError := mkError (Some 409%Z) "Head branch is out of date".
Definition rejected : GhError := mkError (Some 401%Z) "Bad credentials".

Lemma merge_retry_budget_exact_witness :
  row_mergeBlockedSha (fail_all run_of fresh_row (repeat (moved, nz 0) 4)) = None
  /\ row_mergeBlockedSha (fail_all run_of fresh_row (repeat (moved, nz 0) 5)) <> None.
Proof.
  split.
  - apply (merge_retry_budget_exact run_of fresh_row (repeat (moved, nz 0) 4)); [reflexivity | discriminate |].
    split; [repeat constructor | vm_compute; lia].
  - intros H. apply (merge_retry_budget_exact run_of fresh_row (repeat (moved, nz 0) 5)) in H as [_ H];
      [vm_compute in H; lia | reflexivity | discriminate].
Defined.

Lemma block_lifetime_exact_witness :
  let row' := handleMergeFailure run_of fresh_row "abc123" rejected (nz 5) in
  row_block run_length (sync_head row' "abc123") (nz 1000) = Some "abc123"
  /\ row_block run_length (sync_head row' "abc123") (nz 1800005) = None
  /\ row_block run_length (sync_head row' "def456") (nz 1000) = None.
Proof.
  intros row'.
  assert (T : mf_terminal (classifyMergeFailure rejected) = true) by reflexivity.
  pose proof (block_lifetime_exact run_length run_of run_roundtrip fresh_row rejected 5) as B.
  split_and!.
  - exact (proj1 (B 1000%Z "abc123" ltac:(lia) ltac:(lia) (or_introl T)) eq_refl).
  - exact (proj1 (B 1800005%Z "abc123" ltac:(lia) ltac:(lia) (or_introl T)) eq_refl).
  - exact (proj1 (proj2 (B 1000%Z "def456" ltac:(lia) ltac:(lia) (or_introl T)) ltac:(discriminate))).
Defined.

(** The green pull request of the planner's examples, after a failed merge. *)
Definition after_conflict : AgentActionPlanInput :=
  let pr := i_pr green in
  mkPlanInput (i_conclusion green) (i_blockerTitles green) (i_gateBlockerCodes green) (i_autonomy green) (i_autoMaintain green)
    (i_slopGateMinScore green) (i_changedPaths green) (i_hardGuardrailGlobs green) None None None None None l_undefined None
    l_undefined l_undefined l_undefined l_undefined (Some false) false false false None ci_passed None None None None l_undefined
    None l_undefined None l_undefined None None l_undefined None None None None None None None None None None None None
    (mkPlanPr (p_mergeableState pr) None None [] None None (Some "abc123") (Some "abc123") None None (p_authorLogin pr)).

Lemma blocked_head_not_replanned_witness :
  Forall (fun a => actionClass a <> ac_merge) (Plan.planAgentMaintenanceActions after_conflict).
Proof.
  apply (blocked_head_not_replanned run_length run_of fresh_row conflict 5 99 after_conflict run_roundtrip);
    [lia | left; reflexivity | left; reflexivity | split; reflexivity].
Defined.
