(* ===== verification/PrFreshness.v ===== *)
(** * Freshness of a pull request

    Models [github/pr-freshness.ts]: whether the live pull request still is the
    one that was reviewed (open, at the expected head, on the expected base),
    checked from one fetch immediately before every mutation.

    Main result: the answer is [Current] exactly under the documented conditions,
    and otherwise names the first condition that fails. *)

From stdpp Require Import base list strings option.
From Stdlib Require Import Ascii.
From S2P Require Import Prelude JsString.

Local Open Scope nat_scope.
Local Open Scope string_scope.
Local Open Scope js_scope.

(** ** Data *)

Inductive PullRequestUnavailableSource := us_token | us_pull_request_fetch | us_live_payload.

Inductive StaleReason := sr_unavailable | sr_closed | sr_head_unresolved | sr_head_changed | sr_no_longer_draft | sr_base_changed.

#[global] Instance StaleReason_eq_dec : EqDecision StaleReason.
Proof. solve_decision. Defined.

Inductive PullRequestFreshness :=
| Current (liveHeadSha liveState : option string) (liveLabels : list string)
| Stale (why : StaleReason) (expectedHeadSha liveHeadSha liveState : option string)
    (unavailableSource : option PullRequestUnavailableSource) (unavailableDetail : option string).

Record PullRequestFreshnessOptions := mkOptions {
  o_requireDraft : bool;
  o_unavailableSource : option PullRequestUnavailableSource;
  o_unavailableDetail : option string;
  o_expectedBaseRef : option string;
}.

(** The fields of the live payload the check reads; [lp_state] is absent when it
    is not a string, a label without a name is [None]. *)
Record LivePull := mkLive {
  lp_state : option string;
  lp_headSha : option string;
  lp_baseRef : option string;
  lp_draft : option bool;
  lp_labels : option (list (option string));
}.

(** A text that is neither absent nor empty. *)
Definition truthy (s : option string) : option string :=
  match s with Some (String c s) => Some (String c s) | _ => None end.

Definition normalizedHead (value : option string) : option string :=
  match truthy (trim <$> value) with Some t => Some (toLowerCase t) | None => None end.

Definition reviewedPullRequestHeadSha (pullRequestHeadSha advisoryHeadSha : option string) : option string :=
  match normalizedHead pullRequestHeadSha with Some s => Some s | None => normalizedHead advisoryHeadSha end.

Definition live_label_names (live : LivePull) : list string := omap truthy (lp_labels live ?? []).

(** ** The check *)

Definition classifyPullRequestFreshness (live : option LivePull) (expectedHeadSha : option string)
    (options : PullRequestFreshnessOptions) : PullRequestFreshness :=
  let expected := normalizedHead expectedHeadSha in
  match live with
  | None => Stale sr_unavailable expected None None (o_unavailableSource options) (truthy (o_unavailableDetail options))
  | Some live =>
      let liveHeadSha := normalizedHead (lp_headSha live) in
      match truthy (lp_state live) with
      | None => Stale sr_unavailable expected liveHeadSha None (Some (o_unavailableSource options ?? us_live_payload))
                  (truthy (o_unavailableDetail options))
      | Some liveState =>
          if negb (String.eqb liveState "open") then Stale sr_closed expected liveHeadSha (Some liveState) None None
          else
            match expected, liveHeadSha with
            | Some _, None => Stale sr_head_unresolved expected None (Some liveState) None None
            | _, _ =>
                if match expected, liveHeadSha with Some e, Some h => negb (String.eqb h e) | _, _ => false end
                then Stale sr_head_changed expected liveHeadSha (Some liveState) None None
                else if match truthy (o_expectedBaseRef options), truthy (lp_baseRef live) with
                        | Some b, Some l => negb (String.eqb l b)
                        | _, _ => false
                        end
                then Stale sr_base_changed expected liveHeadSha (Some liveState) None None
                else if o_requireDraft options && negb (bool_decide (lp_draft live = Some true))
                then Stale sr_no_longer_draft expected liveHeadSha (Some liveState) None None
                else Current liveHeadSha (Some liveState) (live_label_names live)
            end
      end
  end.

(** What the fetch met: the tokens at hand, the error minting one (its message),
    and GitHub's answer. *)
Inductive LiveResult := live_error (error : string) | live_data (data : LivePull).

Record FetchReads := mkFetch {
  f_installationToken : option string;
  f_tokenError : option string;
  f_publicToken : option string;
  f_live : LiveResult;
}.

Definition strippedErrorMessage (message : option string) (fallback : string) : string :=
  let stripped := match message with
                  | Some m => if String.prefix "Error: " m then String.substring 7 (String.length m - 7) m else m
                  | None => ""
                  end in
  if str_empty stripped then fallback else stripped.

Definition fetchPullRequestFreshness (r : FetchReads) (expectedHeadSha expectedBaseRef : option string) (requireDraft : bool)
    : PullRequestFreshness :=
  let options src detail := mkOptions requireDraft src detail (truthy expectedBaseRef) in
  match truthy (match f_installationToken r with Some t => Some t | None => f_publicToken r end) with
  | None =>
      classifyPullRequestFreshness None expectedHeadSha
        (options (Some us_token) (Some (js_take 240 (strippedErrorMessage (f_tokenError r) "no token available"))))
  | Some _ =>
      match f_live r with
      | live_error e => classifyPullRequestFreshness None expectedHeadSha (options (Some us_pull_request_fetch) (Some e))
      | live_data data => classifyPullRequestFreshness (Some data) expectedHeadSha (options None None)
      end
  end.

Definition pullRequestFreshnessDetail (result : PullRequestFreshness) : string :=
  match result with
  | Current _ _ _ => "PR is current"
  | Stale why expectedHeadSha liveHeadSha liveState _ _ =>
      match why with
      | sr_unavailable => "live PR state could not be verified"
      | sr_closed => "PR is no longer open (live state: " ++ (liveState ?? "unknown") ++ ")"
      | sr_head_unresolved => "live PR head SHA could not be verified"
      | sr_no_longer_draft => "PR is no longer a draft"
      | sr_base_changed => "PR base branch changed since the diff/review/CI it will merge with were computed"
      | sr_head_changed => "PR head changed from " ++ (expectedHeadSha ?? "unknown") ++ " to " ++ (liveHeadSha ?? "unknown")
      end
  end.

(** ** Exactness *)

(** Everything "current" promises. *)
Record is_current (live : LivePull) (expectedHeadSha expectedBaseRef : option string) (requireDraft : bool) : Prop := {
  ic_open : lp_state live = Some "open";
  ic_head : normalizedHead expectedHeadSha <> None -> normalizedHead (lp_headSha live) = normalizedHead expectedHeadSha;
  ic_base : truthy expectedBaseRef <> None -> truthy (lp_baseRef live) <> None -> lp_baseRef live = expectedBaseRef;
  ic_draft : requireDraft = true -> lp_draft live = Some true;
}.

Lemma truthy_some s t : truthy s = Some t -> s = Some t.
Proof. by destruct s as [[| c s] |]. Qed.

Lemma truthy_idem s : truthy (truthy s) = truthy s.
Proof. by destruct s as [[| c s] |]. Qed.

Lemma classify_current live expected base draft src detail :
  (exists h s ls, classifyPullRequestFreshness (Some live) expected (mkOptions draft src detail base) = Current h s ls)
  <-> is_current live expected base draft.
Proof.
  unfold classifyPullRequestFreshness. cbn [o_requireDraft o_unavailableSource o_unavailableDetail o_expectedBaseRef].
  split.
  - intros (h & s & ls & H). destruct (truthy (lp_state live)) as [st |] eqn:Es; [| discriminate].
    apply truthy_some in Es. destruct (String.eqb_spec st "open") as [-> | ?]; [| discriminate]. cbn [negb] in H.
    constructor; [done | | |];
      destruct (normalizedHead expected) as [e |] eqn:Ee, (normalizedHead (lp_headSha live)) as [l |] eqn:El; try discriminate H; try done.
    all: try destruct (String.eqb_spec l e) as [-> | ?]; cbn [negb] in H; try discriminate H; try done.
    all: destruct (truthy base) as [b |] eqn:Eb, (truthy (lp_baseRef live)) as [bl |] eqn:Ebl; try done.
    all: try (apply truthy_some in Eb); try (apply truthy_some in Ebl);
      try destruct (String.eqb_spec bl b) as [-> | ?]; cbn [negb] in H; try discriminate H; try congruence.
    all: intros ->; cbn [andb] in H; destruct (bool_decide (lp_draft live = Some true)) eqn:Ed; try discriminate H;
      by apply bool_decide_eq_true in Ed.
  - intros [Ho Hh Hb Hd]. rewrite Ho. cbn [truthy String.eqb negb].
    assert (D : draft && negb (bool_decide (lp_draft live = Some true)) = false).
    { destruct draft; [| done]. rewrite (bool_decide_eq_true_2 _ (Hd eq_refl)). done. }
    assert (B : match truthy base, truthy (lp_baseRef live) with Some b, Some l => negb (String.eqb l b) | _, _ => false end = false).
    { destruct (truthy base) as [b |] eqn:Eb, (truthy (lp_baseRef live)) as [l |] eqn:El; try done.
      apply truthy_some in Eb, El. rewrite (Hb ltac:(done) ltac:(done)) in El. assert (l = b) as -> by congruence.
      by rewrite String.eqb_refl. }
    destruct (normalizedHead expected) as [e |] eqn:Ee.
    + rewrite (Hh ltac:(done)), String.eqb_refl. cbn [negb]. rewrite B, D. eauto.
    + replace (String.eqb "open" "open") with true by done. cbn [negb].
      destruct (normalizedHead (lp_headSha live)); cbn; rewrite B, D; eauto.
Qed.

(** The fetch proves the pull request current exactly when a token was at hand,
    GitHub answered, and the answer is the reviewed pull request. *)
Theorem fetch_current_exact r expected base draft :
  (exists h s ls, fetchPullRequestFreshness r expected base draft = Current h s ls)
  <-> truthy (match f_installationToken r with Some t => Some t | None => f_publicToken r end) <> None
      /\ exists live, f_live r = live_data live /\ is_current live expected base draft.
Proof.
  unfold fetchPullRequestFreshness. destruct (truthy (match f_installationToken r with Some _ => _ | None => _ end)) as [t |].
  2: { split; [intros (h & s & ls & [=]) | by intros [? _]]. }
  destruct (f_live r) as [e | live]; [split; [intros (h & s & ls & [=]) | intros (_ & live & [=] & _)] |].
  rewrite classify_current. split.
  - intros [Ho Hh Hb Hd]. split; [done |]. exists live. split; [done |]. constructor; try done.
    intros H1 H2. assert (E : lp_baseRef live = truthy base) by (apply Hb; [by rewrite truthy_idem | done]).
    destruct (truthy base) eqn:Eb; [| done]. apply truthy_some in Eb. congruence.
  - intros (_ & live' & [= <-] & [Ho Hh Hb Hd]). constructor; try done.
    rewrite truthy_idem. intros H1 H2. rewrite (Hb H1 H2). by destruct base as [[| c s] |].
Qed.

Lemma fetch_current_labels r expected base draft h s ls :
  fetchPullRequestFreshness r expected base draft = Current h s ls ->
  exists live, f_live r = live_data live /\ is_current live expected base draft /\ ls = live_label_names live
    /\ h = normalizedHead (lp_headSha live).
Proof.
  intros H. destruct (proj1 (fetch_current_exact r expected base draft)) as (_ & live & E & C); [eauto |].
  exists live. split_and!; [done | done | |]; unfold fetchPullRequestFreshness in H; rewrite E in H;
    (destruct (truthy _); [| discriminate]); unfold classifyPullRequestFreshness in H; rewrite (ic_open _ _ _ _ C) in H;
    cbn [truthy] in H; repeat case_match; congruence.
Qed.
