(* ===== verification/AgentExecutor.v ===== *)
(** * The action executor

    Models [services/agent-action-executor.ts]: the gate stack every planned
    action passes before it touches GitHub, the mutation itself, the record kept
    of each outcome, and the payload that carries an action through the approval
    queue and back.

    What a pass reads from outside (the queue's insert, GitHub's live answers, the
    clock, the contributor-cap lock, whether a write lands) is the [LiveReads] of
    each action; what it does is a [trace] of [Event]s in order.  A read or a
    write that throws outside the [try] of step 9 ends the pass.  Telemetry
    (metrics, logs, PagerDuty, error capture) and the installation-health refresh
    are not modelled.

    The theorems are in [ExecutorSafety]. *)

From stdpp Require Import base list strings option gmap.
From Stdlib Require Import Ascii.
From S2P Require Import Prelude JsNumber JsString IteratePolicy Autonomy PrDisposition AgentActions MergeTrain MergeFailure PrFreshness.

Local Open Scope nat_scope.
Local Open Scope string_scope.
Local Open Scope js_scope.

Definition AGENT_ACTOR : string := "loopover".

(** ** Audit texts *)

Definition AUDIT_REASON_MAX_LENGTH : nat := 280.

Definition boundAuditReason (detail : string) : string :=
  if Nat.ltb AUDIT_REASON_MAX_LENGTH (js_length detail) then js_take AUDIT_REASON_MAX_LENGTH detail ++ "…" else detail.

Definition closeReasonsForAudit (action : PlannedAgentAction) : option (list string * nat) :=
  if negb (is_class ac_close action) then None
  else
    let rawReasons := match closeReasons action with
                      | Some (r :: rs) => r :: rs
                      | _ => [reason action]
                      end in
    Some (List.map boundAuditReason (boundStructuredCloseReasonsForPersistence rawReasons), List.length rawReasons).

Definition kind_to_string (k : CloseKind) : string :=
  match k with
  | ck_linked_issue_hard_rule => "linked-issue-hard-rule" | ck_blacklist => "blacklist"
  | ck_contributor_cap => "contributor_cap" | ck_review_nag => "review_nag" | ck_screenshot_table => "screenshot_table"
  | ck_heuristic => "heuristic" | ck_copycat => "copycat"
  end.

Definition defaultDecisionRecordReasonCode (action : PlannedAgentAction) : string :=
  match closeKind action with Some k => "policy_close:" ++ kind_to_string k | None => "success" end.

(** ** Write-permission denials *)

(** [PR_WRITE_CLASSES]. *)
Definition PR_WRITE_CLASSES : list AgentActionClass := [ac_request_changes; ac_approve; ac_merge; ac_close; ac_update_branch].

Definition PR_WRITE_DENIAL_COOLDOWN_MS : Z := 15 * 60 * 1000.
Definition PR_WRITE_DENIAL_COOLDOWN_MAX_ENTRIES : nat := 1024.

(** The module-level [Map], in insertion order. *)
Definition Cooldown : Type := list (string * num).

Definition writePermissionDenialKey (installationId : Z) (repoFullName : string) (pullNumber : Z) (c : AgentActionClass) : string :=
  num_to_string (nz installationId) ++ ":" ++ repoFullName ++ ":" ++ num_to_string (nz pullNumber) ++ ":" ++ class_to_string c.

Definition pruneWritePermissionDenialCooldown (m : Cooldown) (nowMs : num) : Cooldown :=
  List.filter (fun e => negb (ngeb (nsub nowMs (snd e)) (nz PR_WRITE_DENIAL_COOLDOWN_MS))) m.

Definition evictOldestWritePermissionDenialCooldownEntry (m : Cooldown) : Cooldown := tail m.

Definition map_get (m : Cooldown) (key : string) : option num :=
  snd <$> List.find (fun e => String.eqb (fst e) key) m.

(** [Map.prototype.set]: a known key keeps its place. *)
Fixpoint map_set (m : Cooldown) (key : string) (v : num) : Cooldown :=
  match m with
  | [] => [(key, v)]
  | e :: m' => if String.eqb (fst e) key then (key, v) :: m' else e :: map_set m' key v
  end.

(** The map is pruned by the read. *)
Definition shouldSuppressWritePermissionDenial (m : Cooldown) (key : string) (nowMs : num) : Cooldown * bool :=
  let m' := pruneWritePermissionDenialCooldown m nowMs in
  (m', match map_get m' key with
       | Some lastDeniedMs => nltb (nsub nowMs lastDeniedMs) (nz PR_WRITE_DENIAL_COOLDOWN_MS)
       | None => false
       end).

Definition markWritePermissionDenialAudited (m : Cooldown) (key : string) (nowMs : num) : Cooldown :=
  let m1 := pruneWritePermissionDenialCooldown m nowMs in
  let m2 := if Nat.leb PR_WRITE_DENIAL_COOLDOWN_MAX_ENTRIES (List.length m1)
            then evictOldestWritePermissionDenialCooldownEntry m1 else m1 in
  map_set m2 key nowMs.

(** ** Context, outcomes and what a pass reads *)

Inductive MergeTrainMode := mt_off | mt_audit | mt_enforce.

#[global] Instance MergeTrainMode_eq_dec : EqDecision MergeTrainMode.
Proof. solve_decision. Defined.

(** [AgentActionExecutionContext]; [x_capRecheck] says whether the caller passed
    [contributorCapMergeRecheck], [x_managedByCaller] is
    [decisionRecord.managedByCaller]. *)
Record ExecCtx := mkCtx {
  x_installationId : Z;
  x_repoFullName : string;
  x_pullNumber : Z;
  x_headSha : option string;
  x_expectedBaseRef : option string;
  x_autonomy : option AutonomyPolicy;
  x_installationPermissions : option (gmap string string);
  x_authorLogin : option string;
  x_contributorCapCancelCi : bool;
  x_capRecheck : bool;
  x_manualReviewLabel : label_setting;
  x_mergeTrainMode : option MergeTrainMode;
  x_pullRequestCreatedAt : option string;
  x_pullRequestLinkedIssues : option (list Z);
  x_pullRequestChangedFiles : option (list string);
  x_managedByCaller : bool;
}.

Inductive OutcomeKind := oc_completed | oc_queued | oc_denied | oc_error | oc_dry_run.

#[global] Instance OutcomeKind_eq_dec : EqDecision OutcomeKind.
Proof. solve_decision. Defined.

Definition outcome_to_string (o : OutcomeKind) : string :=
  match o with
  | oc_completed => "completed" | oc_queued => "queued" | oc_denied => "denied" | oc_error => "error" | oc_dry_run => "dry_run"
  end.

Record AgentActionOutcome := mkOutcome {
  out_actionClass : AgentActionClass;
  outcome : OutcomeKind;
  detail : string;
}.

(** The calls of [performAction]: GitHub's, and the bookkeeping that goes with
    them. *)
Inductive Call :=
| EnsureLabel (l : string)
| RemoveLabel (l : string)
| MarkLabelProvenance (sha why : string)
| ClearLabelProvenance
| CreateComment (body : string)
| RequestChanges (body : string)
| Approve (body : string) (sha : option string)
| DismissApproval
| MergePullRequest (method : AutoMergeMethod) (sha : option string)
| RecordTerminal (decision : string)
| CloseExplanation (body : string) (kind : option CloseKind)
| ClosePullRequest
| UpdateBranch (sha : option string)
| EnsureAssignee (login : string).

(** An open pull request of the repository, as the merge train lists it. *)
Record SiblingRow := mkSiblingRow {
  sb_number : Z;
  sb_createdAt : option string;
  sb_mergeableState : option string;
  sb_linkedIssues : option (list Z);
  sb_labels : list string;
  sb_isDraft : option bool;
}.

Record LiveReads := mkReads {
  lr_staged : GhError + bool;               (* createPendingAgentActionIfAbsent: created *)
  lr_suppressClock : num;
  lr_markClock : num;
  lr_fetch : FetchReads;
  lr_ci : GhError + CiState;
  lr_mergeState : option string;
  lr_threadBlockers : nat;
  lr_winnerState : option string;
  lr_siblings : list SiblingRow;
  lr_filePaths : list (Z * string);
  lr_trainClock : num;
  lr_alreadyTold : bool;
  lr_commentPosted : bool;
  lr_lockAcquired : bool;
  lr_underCap : GhError + bool;
  lr_call : Call -> GhError + bool;         (* a reply the code reads: suppressed, applied *)
  lr_audit : nat -> GhError + unit;         (* the n-th audit write of the action *)
}.

Inductive Event :=
| Staged (a : PlannedAgentAction)
| Audited (a : AuditEventRecord)
| TrainBlocked (blocker : Z)
| WaitComment (blocker : Z)
| WouldWait (blocker : Z)
| LockClaimed
| LockReleased
| Called (c : Call)
| DecisionRecorded (a : PlannedAgentAction) (reasonCode : string)
| CiCancelled (kind : CloseKind) (sha : string)
| ApprovalMarked (sha : string)
| Notified (what : string)
| MergeFailed (sha : string) (e : GhError)
| Escalated (kind : CloseKind).

Record St := mkSt {
  st_outcomes : list AgentActionOutcome;
  st_cooldown : Cooldown;
  st_trace : list Event;
}.

Definition log (evs : list Event) (st : St) : St := mkSt (st_outcomes st) (st_cooldown st) (st_trace st ++ evs)%list.
Definition push_outcome (o : AgentActionOutcome) (st : St) : St :=
  mkSt (st_outcomes st ++ [o])%list (st_cooldown st) (st_trace st).
Definition set_cooldown (m : Cooldown) (st : St) : St := mkSt (st_outcomes st) m (st_trace st).

(** ** Outcomes by index *)

Definition pendingClosureLabelApplied (plan : list PlannedAgentAction) (outcomes : list AgentActionOutcome) : bool :=
  existsb (fun '(index, action) =>
             is_class ac_label action && bool_decide (closeKind action = Some ck_linked_issue_hard_rule)
             && bool_decide (labelOp action = Some op_add) && bool_decide (outcome <$> outcomes !! index = Some oc_completed))
    (imap pair plan).

(** The first action of the batch, among those with an outcome at their index,
    that closes for [kind]: its outcome. *)
Fixpoint coupledCloseOutcome (planned : list PlannedAgentAction) (outcomes : list AgentActionOutcome)
    (kind : option CloseKind) : option OutcomeKind :=
  match outcomes, planned with
  | o :: outcomes', a :: planned' =>
      if is_class ac_close a && bool_decide (closeKind a = kind) then Some (outcome o)
      else coupledCloseOutcome planned' outcomes' kind
  | _, _ => None
  end.

(** ** The gate stack *)

(** How an action leaves the stack. *)
Inductive Verdict :=
| v_staged
| v_already_staged
| v_settled (o : OutcomeKind) (why : string)
| v_denied_permission (why : string)
| v_denied_again (why : string)
| v_train_wait (w : MergeTrainWait)
| v_lock_contended (why : string)
| v_cap_check_failed (e : GhError)
| v_over_cap (why : string)
| v_perform.

Definition gate : Type := GhError + option Verdict.
Definition pass : gate := inr None.
Definition settle (o : OutcomeKind) (why : string) : gate := inr (Some (v_settled o why)).
Definition deny (why : string) : gate := settle oc_denied why.

(** The first gate that settles the action decides; one that throws ends the
    pass. *)
Fixpoint first_settled (gates : list gate) : GhError + Verdict :=
  match gates with
  | [] => inr v_perform
  | inl e :: _ => inl e
  | inr (Some v) :: _ => inr v
  | inr None :: gates' => first_settled gates'
  end.

Definition action_level (ctx : ExecCtx) (action : PlannedAgentAction) : AutonomyLevel :=
  resolveAutonomy (x_autonomy ctx) (autonomyClass action ?? actionClass action).

(** [action.expectedHeadSha ?? ctx.headSha ?? null]. *)
Definition pinned_sha (ctx : ExecCtx) (action : PlannedAgentAction) : option string :=
  match expectedHeadSha action with Some s => Some s | None => x_headSha ctx end.

Definition manual_review_label (ctx : ExecCtx) : option string :=
  resolveNullableLabel (x_manualReviewLabel ctx) AGENT_LABEL_NEEDS_REVIEW.

Section Executor.
Context (date_parse : string -> num).
Context (ctx : ExecCtx) (mode : AgentActionMode) (planned : list PlannedAgentAction).

Section Action.
Context (r : LiveReads) (st : St) (action : PlannedAgentAction).

(** 1 *)
Definition gate_pause : gate := if bool_decide (mode = am_paused) then deny "agent actions paused" else pass.

(** 2 *)
Definition gate_autonomy : gate :=
  if negb (isActingAutonomyLevel (action_level ctx action))
  then deny ("autonomy for " ++ class_to_string (actionClass action) ++ " is " ++ level_to_string (action_level ctx action)
             ++ " — action not currently enabled")
  else pass.

(** 3 *)
Definition gate_dry_run : gate :=
  if bool_decide (mode = am_dry_run)
  then settle oc_dry_run ("dry-run: would " ++ class_to_string (actionClass action) ++ " — " ++ reason action) else pass.

(** 4 *)
Definition gate_approval : gate :=
  if requiresApproval action
  then match lr_staged r with
       | inl e => inl e
       | inr true => inr (Some v_staged)
       | inr false => inr (Some v_already_staged)
       end
  else pass.

(** 5 *)
Definition permission_ready : bool :=
  bool_decide (resolveAgentPermissionReadiness (x_autonomy ctx) (x_installationPermissions ctx) (Some (actionClass action)) = ready).

Definition denial_key : string :=
  writePermissionDenialKey (x_installationId ctx) (x_repoFullName ctx) (x_pullNumber ctx) (actionClass action).

Definition permission_denial (suppressed : bool) : string :=
  formatAgentPermissionDenial (x_autonomy ctx) (x_installationPermissions ctx) (Some (actionClass action)) suppressed.

Definition gate_permission : gate :=
  if bool_decide (actionClass action ∈ PR_WRITE_CLASSES) && negb permission_ready
  then if snd (shouldSuppressWritePermissionDenial (st_cooldown st) denial_key (lr_suppressClock r))
       then inr (Some (v_denied_again (permission_denial true)))
       else inr (Some (v_denied_permission (permission_denial false)))
  else pass.

(** 6 *)
Definition pairedCloseOutcome : option OutcomeKind :=
  match closeKind action with
  | Some k => if is_class ac_label action then coupledCloseOutcome planned (st_outcomes st) (Some k) else None
  | None => None
  end.

Definition gate_coupling : gate :=
  match pairedCloseOutcome, closeKind action with
  | Some o, Some k =>
      if bool_decide (o = oc_denied) || bool_decide (o = oc_error)
      then deny ("paired " ++ kind_to_string k ++ " close did not complete (" ++ outcome_to_string o
                 ++ ") — skipping the companion label so the PR isn't mislabeled while still open")
      else pass
  | _, _ => pass
  end.

(** 7 and 7b *)
Definition freshnessAlreadyProvenByPairedClose : bool :=
  is_class ac_label action && is_some (closeKind action) && bool_decide (pairedCloseOutcome = Some oc_completed).

Definition needs_no_hold : bool := is_class ac_approve action || is_class ac_merge action.

Definition gate_freshness : gate :=
  if freshnessAlreadyProvenByPairedClose then pass
  else
    match truthy (pinned_sha ctx action) with
    | None => deny "live PR head guard unavailable — action not executed"
    | Some sha =>
        let freshness := fetchPullRequestFreshness (lr_fetch r) (Some sha) (x_expectedBaseRef ctx) false in
        match freshness with
        | Stale _ _ _ _ _ _ => deny (pullRequestFreshnessDetail freshness ++ " — action not executed")
        | Current _ _ liveLabels =>
            match manual_review_label ctx with
            | Some name =>
                if needs_no_hold && hasLabel liveLabels name
                then deny ("manual-review label " ++ dquote ++ name ++ dquote ++ " is present on the live PR — "
                           ++ class_to_string (actionClass action) ++ " not executed")
                else pass
            | None => pass
            end
        end
    end.

(** 8 *)
Definition is_heuristic_close : bool := is_class ac_close action && bool_decide (closeKind action = Some ck_heuristic).

Definition isAmbiguousLegacyHeuristicClose : bool := is_heuristic_close && negb (is_some (closeRequiresCiState action)).

Definition ci_required_failed : bool := match closeRequiresCiState action with Some ccs_failed => true | _ => false end.

Definition requiresLiveCiRecheck : bool :=
  is_class ac_merge action || (is_class ac_close action && ci_required_failed) || isAmbiguousLegacyHeuristicClose.

Definition requiresLiveMergeableRecheck : bool := is_heuristic_close && is_true_flag (closeRequiresMergeableState action).
Definition requiresLiveThreadRecheck : bool := is_heuristic_close && is_true_flag (closeRequiresThreadResolved action).
Definition requiresLiveDuplicateRecheck : bool :=
  is_heuristic_close && is_true_flag (closeRequiresDuplicateStillOpen action) && is_some (duplicateWinnerPrNumber action).
Definition requiresLiveApproveMergeableRecheck : bool := is_class ac_approve action.

Definition ci_to_string (c : CiState) : string :=
  match c with ci_passed => "passed" | ci_failed => "failed" | ci_pending => "pending" | ci_unverified => "unverified" end.

(** [liveCi!.ciState !== (action.closeRequiresCiState ?? "failed")]: where CI is
    re-read for a close the recorded requirement is "failed" or absent. *)
Definition ciStaleReason (liveCi : CiState) : option string :=
  if negb requiresLiveCiRecheck then None
  else if is_class ac_merge action
  then if negb (bool_decide (liveCi = ci_passed)) then Some ("live CI is no longer passing (now: " ++ ci_to_string liveCi ++ ")") else None
  else if negb (bool_decide (liveCi = ci_failed)) then Some ("CI state changed since planning (now: " ++ ci_to_string liveCi ++ ")") else None.

Definition mergeableStaleReason : option string :=
  if requiresLiveMergeableRecheck && bool_decide (lr_mergeState r = Some "clean")
  then Some "the base-branch conflict that justified this close has since cleared" else None.

Definition threadStaleReason : option string :=
  if requiresLiveThreadRecheck && Nat.eqb (lr_threadBlockers r) 0
  then Some "the review thread(s) that justified this close are now all resolved" else None.

Definition duplicateStaleReason : option string :=
  match duplicateWinnerPrNumber action, lr_winnerState r with
  | Some winner, Some state =>
      if requiresLiveDuplicateRecheck && negb (String.eqb state "open")
      then Some ("duplicate-cluster winner #" ++ num_to_string winner ++ " is no longer open") else None
  | _, _ => None
  end.

Definition approveMergeableStaleReason : option string :=
  match lr_mergeState r with
  | Some state =>
      if requiresLiveApproveMergeableRecheck && (String.eqb state "dirty" || String.eqb state "unstable")
      then Some ("live mergeable_state is now " ++ dquote ++ state ++ dquote ++ " — the planner never approves this state") else None
  | None => None
  end.

Definition staleReason (liveCi : CiState) : option string :=
  match ciStaleReason liveCi with Some w => Some w | None =>
  match mergeableStaleReason with Some w => Some w | None =>
  match threadStaleReason with Some w => Some w | None =>
  match duplicateStaleReason with Some w => Some w | None => approveMergeableStaleReason end end end end.

Definition gate_live : gate :=
  let stale liveCi := match staleReason liveCi with
                      | Some w => deny (w ++ " — action not executed")
                      | None => pass
                      end in
  if requiresLiveCiRecheck
  then match lr_ci r with inl e => inl e | inr c => stale c end
  else stale ci_unverified.

(** 8b *)
Definition paths_of (n : Z) : option (list string) :=
  match List.map snd (List.filter (fun row => Z.eqb (fst row) n) (lr_filePaths r)) with
  | [] => None
  | ps => Some ps
  end.

Definition train_sibling (s : SiblingRow) : MergeTrainSibling :=
  mkSibling (sb_number s) (sb_createdAt s) (sb_mergeableState s) (sb_linkedIssues s) (paths_of (sb_number s))
    (Some (match manual_review_label ctx with Some name => hasLabel (sb_labels s) name | None => false end))
    (Some (sb_isDraft s ?? false)).

Definition train_input : ShouldWaitForOlderSiblingsInput :=
  mkTrainInput (x_pullNumber ctx) (x_pullRequestCreatedAt ctx) (x_pullRequestLinkedIssues ctx ?? [])
    (match paths_of (x_pullNumber ctx) with Some ps => Some ps | None => x_pullRequestChangedFiles ctx end)
    (List.map train_sibling (lr_siblings r)) (lr_trainClock r).

(** The decision of the train where it is on. *)
Definition train_decision : option MergeTrainWait :=
  if is_class ac_merge action && bool_decide (x_mergeTrainMode ctx = Some mt_audit \/ x_mergeTrainMode ctx = Some mt_enforce)
  then shouldWaitForOlderSiblings date_parse train_input else None.

Definition gate_train : gate :=
  match train_decision with
  | Some w => if bool_decide (x_mergeTrainMode ctx = Some mt_enforce) then inr (Some (v_train_wait w)) else pass
  | None => pass
  end.

(** 8c *)
Definition takes_cap_lock : bool := is_class ac_merge action && x_capRecheck ctx.

Definition gate_cap : gate :=
  if takes_cap_lock
  then if negb (lr_lockAcquired r)
       then inr (Some (v_lock_contended ("contributor cap lock contended for " ++ x_repoFullName ctx ++ " author "
              ++ (x_authorLogin ctx ?? "") ++ " — action not executed")))
       else match lr_underCap r with
            | inl e => inr (Some (v_cap_check_failed e))
            | inr true => pass
            | inr false => inr (Some (v_over_cap ("contributor cap re-check confirmed " ++ (x_authorLogin ctx ?? "")
                ++ " is now over cap on " ++ x_repoFullName ctx ++ " — action not executed")))
            end
  else pass.

Definition gates : list gate :=
  [gate_pause; gate_autonomy; gate_dry_run; gate_approval; gate_permission; gate_coupling; gate_freshness; gate_live;
   gate_train; gate_cap].

Definition verdict : GhError + Verdict := first_settled gates.

(** ** Step 9: the mutation *)

(** A sequence of calls: those made, and how it ended. *)
Definition act (A : Type) : Type := list Call * (GhError + A).
Definition done_with {A} (a : A) : act A := ([], inr a).
Definition call (c : Call) : act bool := ([c], lr_call r c).
(** [await ... .catch(() => {})]. *)
Definition call_best_effort (c : Call) : act unit := ([c], inr tt).
Definition then_ {A B} (p : act A) (k : A -> act B) : act B :=
  match p with
  | (cs, inl e) => (cs, inl e)
  | (cs, inr a) => let '(cs', res) := k a in ((cs ++ cs')%list, res)
  end.
Definition when (c : bool) (p : act unit) : act unit := if c then p else done_with tt.

(** [ctx.manualReviewLabel && action.label === ctx.manualReviewLabel]. *)
Definition is_configured_hold_label : bool :=
  match x_manualReviewLabel ctx with
  | l_named l => negb (str_empty l) && bool_decide (label action = Some l)
  | _ => false
  end.

Definition perform_label : act (option string) :=
  let comment_then := match truthy (comment action) with
                      | Some body => then_ (call (CreateComment body)) (fun _ => done_with None)
                      | None => done_with None
                      end in
  if bool_decide (labelOp action = Some op_remove)
  then then_ (call (RemoveLabel (label action ?? ""))) (fun _ =>
       then_ (when is_configured_hold_label (call_best_effort ClearLabelProvenance)) (fun _ => comment_then))
  else then_ (call (EnsureLabel (label action ?? ""))) (fun _ =>
       then_ (match truthy (x_headSha ctx) with
              | Some sha => when is_configured_hold_label (call_best_effort (MarkLabelProvenance sha (reason action)))
              | None => done_with tt
              end) (fun _ => comment_then)).

Definition perform_assign : act (option string) :=
  match truthy (assignee action) with
  | None => done_with None
  | Some login =>
      then_ (call (EnsureAssignee login)) (fun applied =>
        if applied then done_with None
        else then_ (call (EnsureLabel ("by:" ++ login))) (fun _ =>
             done_with (Some ("assignee refused by GitHub — fell back to a by:" ++ login ++ " label"))))
  end.

Definition performAction : act (option string) :=
  match actionClass action with
  | ac_label => perform_label
  | ac_request_changes => then_ (call (RequestChanges (reviewBody action ?? ""))) (fun _ => done_with None)
  | ac_approve =>
      if is_true_flag (dismissStaleApproval action) then then_ (call DismissApproval) (fun _ => done_with None)
      else then_ (call (Approve (reviewBody action ?? "") (pinned_sha ctx action))) (fun _ => done_with None)
  | ac_merge =>
      then_ (call (MergePullRequest (mergeMethod action ?? mm_squash) (truthy (pinned_sha ctx action)))) (fun suppressed =>
        if suppressed
        then done_with (Some "merge suppressed by the instance-wide dry-run/paused kill switch — no GitHub write attempted")
        else then_ (call (RecordTerminal "merged")) (fun _ => done_with None))
  | ac_close =>
      then_ (match truthy (closeComment action) with
             | Some body => then_ (call (CloseExplanation body (closeKind action))) (fun _ => done_with tt)
             | None => done_with tt
             end) (fun _ =>
      then_ (call ClosePullRequest) (fun _ => then_ (call (RecordTerminal "closed")) (fun _ => done_with None)))
  | ac_update_branch => then_ (call (UpdateBranch (pinned_sha ctx action))) (fun _ => done_with None)
  | ac_assign => perform_assign
  | _ => done_with None
  end.

(** ** Records *)

Definition targetKey : string := x_repoFullName ctx ++ "#" ++ num_to_string (nz (x_pullNumber ctx)).

Definition audit_record (o : OutcomeKind) (boundedDetail : string) : AuditEventRecord :=
  buildAgentActionAudit (actionClass action) (action_level ctx action) mode
    (outcome_to_string (if bool_decide (o = oc_dry_run) then oc_completed else o)) (x_repoFullName ctx) (Some targetKey)
    (Some AGENT_ACTOR) (Some boundedDetail) (fst <$> closeReasonsForAudit action) (snd <$> closeReasonsForAudit action).

(** The [audit] closure: the outcome is pushed, then the record is written; the
    write is the [n]-th of the action. *)
Definition audit (n : nat) (o : OutcomeKind) (why : string) (s : St) : St * (GhError + unit) :=
  let bounded := boundAuditReason why in
  let s1 := push_outcome (mkOutcome (actionClass action) o bounded) s in
  match lr_audit r n with
  | inl e => (s1, inl e)
  | inr _ => (log [Audited (audit_record o bounded)] s1, inr tt)
  end.

(** What follows a completed mutation, each best-effort. *)
Definition after_completed : list Event :=
  ((if (is_class ac_merge action || is_class ac_close action) && negb (x_managedByCaller ctx)
    then [DecisionRecorded action (defaultDecisionRecordReasonCode action)] else [])
   ++ (match truthy (x_headSha ctx) with
       | Some sha =>
           if is_class ac_close action
           then if bool_decide (closeKind action = Some ck_contributor_cap) && x_contributorCapCancelCi ctx
                then [CiCancelled ck_contributor_cap sha]
                else if bool_decide (closeKind action = Some ck_blacklist) then [CiCancelled ck_blacklist sha] else []
           else []
       | None => []
       end)
   ++ (match truthy (x_headSha ctx) with
       | Some sha => if is_class ac_approve action && negb (is_true_flag (dismissStaleApproval action))
                     then [ApprovalMarked sha] else []
       | None => []
       end)
   ++ (match actionClass action with
       | ac_merge => [Notified "merged"] | ac_close => [Notified "closed"] | ac_request_changes => [Notified "manual"]
       | _ => []
       end))%list.

(** The [catch] block: [n] audit writes were made before it. *)
Definition on_error (n : nat) (e : GhError) (s : St) : St * (GhError + unit) :=
  match audit n oc_error (er_message e) s with
  | (s1, inl e') => (s1, inl e')
  | (s1, inr _) =>
      (match truthy (x_headSha ctx) with
       | Some sha => if is_class ac_merge action then log [MergeFailed sha e] s1 else s1
       | None => s1
       end, inr tt)
  end.

Definition performMutation (s : St) : St * (GhError + unit) :=
  let '(calls, result) := performAction in
  let s1 := log (List.map Called calls) s in
  match result with
  | inl e => on_error 0 e s1
  | inr detailOverride =>
      match audit 0 oc_completed (detailOverride ?? reason action) s1 with
      | (s2, inl e) => on_error 1 e s2
      | (s2, inr _) => (log after_completed s2, inr tt)
      end
  end.

(** ** One action *)

Definition train_wait_text (w : MergeTrainWait) : string :=
  "merge train: waiting for older mergeable sibling #" ++ num_to_string (nz (blockingPr w)) ++ " — action not executed".

(** Steps 8b's bookkeeping where the train waits or, in audit mode, would. *)
Definition train_events : list Event :=
  match train_decision with
  | Some w =>
      TrainBlocked (blockingPr w)
      :: (if bool_decide (x_mergeTrainMode ctx = Some mt_enforce)
          then if negb (lr_alreadyTold r) && lr_commentPosted r then [WaitComment (blockingPr w)] else []
          else [WouldWait (blockingPr w)])
  | None => []
  end.

(** The bookkeeping of the gates that were reached. *)
Definition settle_action (v : Verdict) : St * (GhError + unit) :=
  match v with
  | v_staged => audit 0 oc_queued ("awaiting maintainer approval — " ++ reason action) (log [Staged action] st)
  | v_already_staged => (st, inr tt)
  | v_settled o why => audit 0 o why st
  | v_denied_again why =>
      (push_outcome (mkOutcome (actionClass action) oc_denied why)
         (set_cooldown (pruneWritePermissionDenialCooldown (st_cooldown st) (lr_suppressClock r)) st), inr tt)
  | v_denied_permission why =>
      let st1 := set_cooldown (pruneWritePermissionDenialCooldown (st_cooldown st) (lr_suppressClock r)) st in
      match audit 0 oc_denied why st1 with
      | (st2, inl e) => (st2, inl e)
      | (st2, inr _) => (set_cooldown (markWritePermissionDenialAudited (st_cooldown st2) denial_key (lr_markClock r)) st2, inr tt)
      end
  | v_train_wait w => audit 0 oc_denied (train_wait_text w) (log train_events st)
  | v_lock_contended why => audit 0 oc_denied why (log train_events st)
  | v_cap_check_failed e => (log (train_events ++ [LockClaimed; LockReleased])%list st, inl e)
  | v_over_cap why =>
      let '(st1, res) := audit 0 oc_denied why (log (train_events ++ [LockClaimed])%list st) in (log [LockReleased] st1, res)
  | v_perform =>
      if takes_cap_lock
      then let '(st1, res) := performMutation (log (train_events ++ [LockClaimed])%list st) in (log [LockReleased] st1, res)
      else performMutation (log train_events st)
  end.

Definition execute_action : St * (GhError + unit) :=
  match verdict with
  | inl e => (st, inl e)
  | inr v => settle_action v
  end.
End Action.

(** ** The pass *)

Context (reads : nat -> LiveReads).

Fixpoint execute_from (i : nat) (actions : list PlannedAgentAction) (st : St) : St * (GhError + unit) :=
  match actions with
  | [] => (st, inr tt)
  | a :: actions' =>
      match execute_action (reads i) st a with
      | (st1, inl e) => (st1, inl e)
      | (st1, inr _) => execute_from (S i) actions' st1
      end
  end.

(** [MODERATION_RULE_TYPES.has(closeKind)]. *)
Definition moderated (k : CloseKind) : bool :=
  bool_decide (k ∈ [ck_contributor_cap; ck_blacklist; ck_review_nag; ck_copycat]).

(** The rule [maybeEscalateModeration] escalates, if any. *)
Definition escalated_rule (outcomes : list AgentActionOutcome) : option CloseKind :=
  match truthy (x_authorLogin ctx) with
  | Some _ =>
      if bool_decide (mode = am_live)
      then match List.find (fun '(i, a) =>
               is_class ac_close a && match closeKind a with Some k => moderated k | None => false end
               && bool_decide (outcome <$> outcomes !! i = Some oc_completed)) (imap pair planned) with
           | Some (_, a) => closeKind a
           | None => None
           end
      else None
  | None => None
  end.

Definition execute_pass (cooldown : Cooldown) : St * (GhError + list AgentActionOutcome) :=
  match execute_from 0 planned (mkSt [] cooldown []) with
  | (st1, inl e) => (st1, inl e)
  | (st1, inr _) =>
      let outcomes := st_outcomes st1 in
      (match escalated_rule outcomes with Some k => log [Escalated k] st1 | None => st1 end, inr outcomes)
  end.
End Executor.

Definition executeAgentMaintenanceActions (date_parse : string -> num) (ctx : ExecCtx) (brakes : AgentActionModeInput)
    (planned : list PlannedAgentAction) (reads : nat -> LiveReads) (cooldown : Cooldown)
    : St * (GhError + list AgentActionOutcome) :=
  execute_pass date_parse ctx (resolveAgentActionMode brakes) planned reads cooldown.

(** ** The issue-side executor *)

(** The writes of an issue action: a label, a comment, a close. *)
Inductive IssueCall := IssueLabel (l : string) | IssueComment (body : string) | CloseIssue.

Record IssueCtx := mkIssueCtx { ix_autonomy : option AutonomyPolicy }.

Section Issue.
Context (ctx : IssueCtx) (mode : AgentActionMode) (issue_call : nat -> IssueCall -> GhError + unit).

(** The calls made and how they ended. *)
Definition perform_issue (i : nat) (action : PlannedAgentAction) : list IssueCall * (GhError + unit) :=
  if is_class ac_label action then ([IssueLabel (label action ?? "")], issue_call i (IssueLabel (label action ?? "")))
  else match truthy (closeComment action) with
       | Some body => match issue_call i (IssueComment body) with
                      | inl e => ([IssueComment body], inl e)
                      | inr _ => ([IssueComment body; CloseIssue], issue_call i CloseIssue)
                      end
       | None => ([CloseIssue], issue_call i CloseIssue)
       end.

Definition execute_issue_action (i : nat) (action : PlannedAgentAction) : AgentActionOutcome * list IssueCall :=
  let level := resolveAutonomy (ix_autonomy ctx) (autonomyClass action ?? actionClass action) in
  let done o why := mkOutcome (actionClass action) o (boundAuditReason why) in
  if bool_decide (mode = am_paused) then (done oc_denied "agent actions paused", [])
  else if negb (isActingAutonomyLevel level)
  then (done oc_denied ("autonomy for " ++ class_to_string (actionClass action) ++ " is " ++ level_to_string level
                        ++ " — action not currently enabled"), [])
  else if bool_decide (mode = am_dry_run)
  then (done oc_dry_run ("dry-run: would " ++ class_to_string (actionClass action) ++ " — " ++ reason action), [])
  else if requiresApproval action
  then (done oc_denied ("awaiting maintainer approval — issue-side staging is not yet supported (" ++ reason action ++ ")"), [])
  else if negb (is_class ac_label action) && negb (is_class ac_close action)
  then (done oc_denied ("unsupported action class for an issue: " ++ class_to_string (actionClass action)), [])
  else
    let '(calls, result) := perform_issue i action in
    (match result with inl e => done oc_error (er_message e) | inr _ => done oc_completed (reason action) end, calls).

(** Audit writes that succeed. *)
Definition executeIssueMaintenanceActions (planned : list PlannedAgentAction) : list (AgentActionOutcome * list IssueCall) :=
  imap execute_issue_action planned.
End Issue.

(** ** Through the approval queue *)

(** [AgentPendingActionParams] (without the field only legacy rows carry). *)
Record AgentPendingActionParams := mkParams {
  pp_autonomyClass : option AgentActionClass;
  pp_label : option string;
  pp_labelOp : option LabelOp;
  pp_comment : option string;
  pp_reviewBody : option string;
  pp_mergeMethod : option AutoMergeMethod;
  pp_assignee : option string;
  pp_closeComment : option string;
  pp_closeReasons : option (list string);
  pp_closeKind : option CloseKind;
  pp_closeRequiresCiState : option CloseCiState;
  pp_closeRequiresMergeableState : option bool;
  pp_closeRequiresThreadResolved : option bool;
  pp_closeRequiresDuplicateStillOpen : option bool;
  pp_duplicateWinnerPrNumber : option num;
  pp_closeConcreteEvidence : option bool;
  pp_expectedHeadSha : option string;
  pp_dismissStaleApproval : option bool;
}.

Definition actionParams (action : PlannedAgentAction) : AgentPendingActionParams :=
  mkParams (autonomyClass action) (label action) (labelOp action) (comment action) (reviewBody action) (mergeMethod action)
    (assignee action) (closeComment action) (boundStructuredCloseReasonsForPersistence <$> closeReasons action)
    (closeKind action) (closeRequiresCiState action) (closeRequiresMergeableState action) (closeRequiresThreadResolved action)
    (closeRequiresDuplicateStillOpen action) (duplicateWinnerPrNumber action) (closeConcreteEvidence action)
    (expectedHeadSha action) (dismissStaleApproval action).

Definition pendingActionToPlanned (cls : AgentActionClass) (params : AgentPendingActionParams) (why : option string)
    : PlannedAgentAction :=
  mkAction cls (pp_autonomyClass params) false (why ?? "maintainer-approved") (pp_label params) (pp_labelOp params)
    (pp_comment params) (pp_reviewBody params) (pp_mergeMethod params) (pp_closeComment params) (pp_closeReasons params)
    (pp_closeKind params) (pp_closeRequiresCiState params) (pp_closeRequiresMergeableState params)
    (pp_closeRequiresThreadResolved params) (pp_closeRequiresDuplicateStillOpen params) (pp_duplicateWinnerPrNumber params)
    (pp_closeConcreteEvidence params) None (pp_expectedHeadSha params) (pp_dismissStaleApproval params) (pp_assignee params).
