(* ===== verification/ExecutorSafety.v ===== *)
(** * What the executor guarantees

    The theorems about [AgentExecutor]: what holds whenever the executor touches
    GitHub, what is recorded of each action, how the denial cooldown stays
    bounded, and what survives the approval queue. *)

From stdpp Require Import base list strings option gmap sets.
From Stdlib Require Import Ascii.
From S2P Require Import Prelude JsNumber JsString IteratePolicy Autonomy PrDisposition AgentActions AgentPlan.
From S2P Require Import MergeTrain MergeFailure PrFreshness AgentExecutor.

Local Open Scope nat_scope.
Local Open Scope string_scope.
Local Open Scope js_scope.

(** ** Calls of a trace *)

Definition called (e : Event) : option Call := match e with Called c => Some c | _ => None end.
Definition calls_of (st : St) : list Call := omap called (st_trace st).

Lemma calls_log evs st : calls_of (log evs st) = (calls_of st ++ omap called evs)%list.
Proof. unfold calls_of. simpl. by rewrite omap_app. Qed.

Lemma calls_called cs : omap called (List.map Called cs) = cs.
Proof. induction cs as [| c cs IH]; [done |]. cbn. f_equal. exact IH. Qed.

(** ** The stack *)

Lemma first_settled_perform gs :
  Forall (fun g => g <> inr (Some v_perform)) gs -> (first_settled gs = inr v_perform <-> Forall (fun g => g = pass) gs).
Proof.
  induction 1 as [| g gs Hg _ IH]; simpl; [done |]. rewrite List.Forall_cons_iff, <- IH.
  destruct g as [e | [v |]]; unfold pass; [split; [done | by intros [? _]] | | by split; [| intros [_ ?]]].
  split; [intros [= ->]; done | by intros [? _]].
Qed.

Section Executor.
Context (date_parse : string -> num) (ctx : ExecCtx) (mode : AgentActionMode) (planned : list PlannedAgentAction).

Notation vrd := (verdict date_parse ctx mode planned).
Notation exec := (execute_action date_parse ctx mode planned).

Lemma no_gate_performs r st a : Forall (fun g => g <> inr (Some v_perform)) (gates date_parse ctx mode planned r st a).
Proof.
  repeat constructor;
    [unfold gate_pause | unfold gate_autonomy | unfold gate_dry_run | unfold gate_approval | unfold gate_permission
    | unfold gate_coupling | unfold gate_freshness | unfold gate_live | unfold gate_train | unfold gate_cap];
    unfold deny, settle, pass; repeat case_match; done.
Qed.

(** What has been established of an action the executor lets through. *)
Record cleared (r : LiveReads) (st : St) (a : PlannedAgentAction) : Prop := {
  cl_live : mode = am_live;
  cl_autonomy : isActingAutonomyLevel (action_level ctx a) = true;
  cl_approval : requiresApproval a = false;
  cl_permission : actionClass a ∈ PR_WRITE_CLASSES ->
    resolveAgentPermissionReadiness (x_autonomy ctx) (x_installationPermissions ctx) (Some (actionClass a)) = ready;
  cl_coupled : forall o, pairedCloseOutcome planned st a = Some o -> o <> oc_denied /\ o <> oc_error;
  cl_fresh : freshnessAlreadyProvenByPairedClose planned st a = false ->
    exists sha h s labels, truthy (pinned_sha ctx a) = Some sha
      /\ fetchPullRequestFreshness (lr_fetch r) (Some sha) (x_expectedBaseRef ctx) false = Current h s labels
      /\ forall name, manual_review_label ctx = Some name -> needs_no_hold a = true -> hasLabel labels name = false;
  cl_live_ci : requiresLiveCiRecheck a = true -> exists c, lr_ci r = inr c /\ ciStaleReason a c = None;
  cl_still_due : mergeableStaleReason r a = None /\ threadStaleReason r a = None /\ duplicateStaleReason r a = None
    /\ approveMergeableStaleReason r a = None;
  cl_train : x_mergeTrainMode ctx = Some mt_enforce -> actionClass a = ac_merge ->
    shouldWaitForOlderSiblings date_parse (train_input ctx r) = None;
  cl_cap : takes_cap_lock ctx a = true -> lr_lockAcquired r = true /\ lr_underCap r = inr true;
}.

Lemma gate_freshness_pass r st a : gate_freshness ctx planned r st a = pass <->
  (freshnessAlreadyProvenByPairedClose planned st a = false ->
    exists sha h s labels, truthy (pinned_sha ctx a) = Some sha
      /\ fetchPullRequestFreshness (lr_fetch r) (Some sha) (x_expectedBaseRef ctx) false = Current h s labels
      /\ forall name, manual_review_label ctx = Some name -> needs_no_hold a = true -> hasLabel labels name = false).
Proof.
  unfold gate_freshness, deny, settle, pass. destruct (freshnessAlreadyProvenByPairedClose planned st a); [done |].
  destruct (truthy (pinned_sha ctx a)) as [sha |]; [| split; [done | by intros (? & ? & ? & ? & [=] & _)]].
  destruct (fetchPullRequestFreshness _ _ _ _) as [h s ls | w e h s us ud] eqn:F.
  2: { split; [done |]. intros (sha' & h' & s' & l' & [= <-] & F' & _); [done |]. congruence. }
  destruct (manual_review_label ctx) as [name |].
  - destruct (needs_no_hold a && hasLabel ls name) eqn:E.
    + apply andb_true_iff in E as [E1 E2]. split; [done |]. intros (sha' & h' & s' & l' & [= <-] & F' & N); [done |].
      assert (l' = ls) as -> by congruence. by rewrite (N name eq_refl E1) in E2.
    + split; [| done]. intros _ _. exists sha, h, s, ls. split_and!; [done | done |]. intros n [= <-] E1. by rewrite E1 in E.
  - split; [| done]. intros _ _. exists sha, h, s, ls. by split_and!.
Qed.

Lemma stale_none r a c : staleReason r a c = None <->
  ciStaleReason a c = None /\ mergeableStaleReason r a = None /\ threadStaleReason r a = None /\ duplicateStaleReason r a = None
  /\ approveMergeableStaleReason r a = None.
Proof.
  unfold staleReason. destruct (ciStaleReason a c), (mergeableStaleReason r a), (threadStaleReason r a), (duplicateStaleReason r a);
    naive_solver.
Qed.

Lemma gate_live_pass r a : gate_live r a = pass <->
  (requiresLiveCiRecheck a = true -> exists c, lr_ci r = inr c /\ ciStaleReason a c = None)
  /\ mergeableStaleReason r a = None /\ threadStaleReason r a = None /\ duplicateStaleReason r a = None
  /\ approveMergeableStaleReason r a = None.
Proof.
  unfold gate_live, deny, settle, pass. destruct (requiresLiveCiRecheck a) eqn:R.
  - destruct (lr_ci r) as [e | c]; [split; [done |]; intros [H _]; destruct (H eq_refl) as (c & [=] & _) |].
    pose proof (stale_none r a c) as S. destruct (staleReason r a c) as [w |].
    + split; [done |]. intros [H H']. destruct (H eq_refl) as (c' & [= <-] & H1). discriminate (proj2 S (conj H1 H')).
    + split; [| done]. intros _. destruct (proj1 S eq_refl) as [H1 H2]. split; [intros _; by exists c | exact H2].
  - pose proof (stale_none r a ci_unverified) as S.
    assert (N : ciStaleReason a ci_unverified = None) by (unfold ciStaleReason; by rewrite R).
    destruct (staleReason r a ci_unverified) as [w |].
    + split; [done |]. intros [_ H']. discriminate (proj2 S (conj N H')).
    + split; [| done]. intros _. destruct (proj1 S eq_refl) as [_ H2]. by split.
Qed.

Lemma gate_train_pass r a : gate_train date_parse ctx r a = pass <->
  (x_mergeTrainMode ctx = Some mt_enforce -> actionClass a = ac_merge ->
   shouldWaitForOlderSiblings date_parse (train_input ctx r) = None).
Proof.
  unfold gate_train, train_decision, is_class, pass. destruct (decide (x_mergeTrainMode ctx = Some mt_enforce)) as [E | E].
  - rewrite (bool_decide_eq_true_2 (_ \/ _)), (bool_decide_eq_true_2 (x_mergeTrainMode ctx = Some mt_enforce)) by auto.
    destruct (decide (actionClass a = ac_merge)) as [M | M].
    + rewrite bool_decide_eq_true_2 by done. cbn [andb]. destruct (shouldWaitForOlderSiblings _ _); naive_solver.
    + rewrite bool_decide_eq_false_2 by done. cbn [andb]. naive_solver.
  - rewrite (bool_decide_eq_false_2 (x_mergeTrainMode ctx = Some mt_enforce)) by done.
    split; [done |]. intros _. by repeat case_match.
Qed.

(** An action passes the whole stack exactly when it is cleared. *)
Lemma perform_iff_cleared r st a : vrd r st a = inr v_perform <-> cleared r st a.
Proof.
  unfold verdict. rewrite (first_settled_perform _ (no_gate_performs r st a)). unfold gates.
  rewrite !List.Forall_cons_iff, List.Forall_nil_iff, gate_freshness_pass, gate_live_pass, gate_train_pass.
  unfold gate_pause, gate_autonomy, gate_dry_run, gate_approval, gate_permission, gate_coupling, gate_cap, permission_ready,
    deny, settle, pass.
  split.
  - intros (H1 & H2 & H3 & H4 & H5 & H6 & H7 & (H8 & H9) & H10 & H11 & _). constructor; try done.
    + destruct mode; [by vm_compute in H1 | by vm_compute in H3 | done].
    + by destruct (isActingAutonomyLevel _).
    + destruct (requiresApproval a); [| done]. by destruct (lr_staged r) as [? | []].
    + intros Hc. rewrite bool_decide_eq_true_2 in H5 by done. cbn [andb] in H5.
      destruct (bool_decide_reflect (resolveAgentPermissionReadiness (x_autonomy ctx) (x_installationPermissions ctx) (Some (actionClass a)) = ready));
        [done |]. cbn [negb] in H5. by destruct (snd _) in H5.
    + intros o Ho. rewrite Ho in H6. unfold pairedCloseOutcome in Ho. destruct (closeKind a); [| done].
      split; intros ->; discriminate H6.
    + intros Hl. rewrite Hl in H11. destruct (lr_lockAcquired r); [| done]. cbn [negb] in H11. by destruct (lr_underCap r) as [? | []].
  - intros [C1 C2 C3 C4 C5 C6 C7 (S1 & S2 & S3 & S4) C9 C10]. split_and!; try done.
    + by rewrite C1.
    + by rewrite C2.
    + by rewrite C1.
    + by rewrite C3.
    + destruct (bool_decide_reflect (actionClass a ∈ PR_WRITE_CLASSES)) as [Hc |]; [| done].
      by rewrite bool_decide_eq_true_2 by auto.
    + destruct (pairedCloseOutcome planned st a) as [o |]; [| done]. destruct (closeKind a); [| done].
      destruct (C5 o eq_refl) as [D1 D2]. by rewrite !bool_decide_eq_false_2 by done.
    + destruct (takes_cap_lock ctx a); [| done]. destruct (C10 eq_refl) as [-> ->]. done.
Qed.

(** ** One action *)

Lemma audit_calls r a n o why s : calls_of (fst (audit ctx mode r a n o why s)) = calls_of s.
Proof. unfold audit. destruct (lr_audit r n); simpl; [done |]. by rewrite calls_log, app_nil_r. Qed.

Lemma after_completed_no_call a : omap called (after_completed ctx a) = [].
Proof. unfold after_completed. rewrite !omap_app. repeat case_match; done. Qed.

Lemma train_events_no_call r a : omap called (train_events date_parse ctx r a) = [].
Proof. unfold train_events. repeat case_match; done. Qed.

Lemma on_error_calls r a n e s : calls_of (fst (on_error ctx mode r a n e s)) = calls_of s.
Proof.
  unfold on_error. pose proof (audit_calls r a n oc_error (er_message e) s) as H.
  destruct (audit ctx mode r a n oc_error (er_message e) s) as [s1 [e' | u]]; simpl in *; [done |].
  repeat case_match; rewrite ?calls_log, ?app_nil_r; done.
Qed.

Lemma performMutation_calls r a s : calls_of (fst (performMutation ctx mode r a s)) = (calls_of s ++ fst (performAction ctx r a))%list.
Proof.
  unfold performMutation. destruct (performAction ctx r a) as [cs [e | d]]; cbn [fst].
  - by rewrite on_error_calls, calls_log, calls_called.
  - pose proof (audit_calls r a 0 oc_completed (d ?? reason a) (log (List.map Called cs) s)) as H.
    destruct (audit _ _ _ _ _ _ _ _) as [s2 [e | u]]; cbn [fst] in *.
    + by rewrite on_error_calls, H, calls_log, calls_called.
    + by rewrite calls_log, after_completed_no_call, app_nil_r, H, calls_log, calls_called.
Qed.

(** The calls an action adds are those of its mutation, and only if it passed
    the stack. *)
Lemma execute_calls r st a : calls_of (fst (exec r st a))
  = (calls_of st ++ match vrd r st a with inr v_perform => fst (performAction ctx r a) | _ => [] end)%list.
Proof.
  unfold execute_action. destruct (vrd r st a) as [e | v]; [by rewrite app_nil_r |]. destruct v; cbn [settle_action].
  - by rewrite audit_calls, calls_log.
  - by rewrite app_nil_r.
  - by rewrite audit_calls, app_nil_r.
  - match goal with |- context [audit _ _ _ _ ?n ?o ?w ?s] => pose proof (audit_calls r a n o w s) as H; destruct (audit _ _ _ _ n o w s) as [s2 [e | u]] end;
      cbn [fst] in *; rewrite app_nil_r; exact H.
  - by rewrite app_nil_r.
  - by rewrite audit_calls, calls_log, train_events_no_call.
  - by rewrite audit_calls, calls_log, train_events_no_call.
  - cbn [fst]. by rewrite calls_log, omap_app, train_events_no_call.
  - match goal with |- context [audit _ _ _ _ ?n ?o ?w ?s] => pose proof (audit_calls r a n o w s) as H; destruct (audit _ _ _ _ n o w s) as [s2 res] end;
      cbn [fst] in *; by rewrite calls_log, H, calls_log, omap_app, train_events_no_call, app_nil_r.
  - destruct (takes_cap_lock ctx a).
    + match goal with |- context [performMutation _ _ _ _ ?s] => pose proof (performMutation_calls r a s) as H; destruct (performMutation _ _ _ _ s) as [s2 res] end;
        cbn [fst] in *. by rewrite calls_log, H, calls_log, omap_app, train_events_no_call, !app_nil_r.
    + by rewrite performMutation_calls, calls_log, train_events_no_call, app_nil_r.
Qed.

(** What an action adds to the outcomes, the trace and the cooldown is
    determined once its audit writes land: one outcome, except for an action
    whose approval row already existed. *)
Lemma audit_outcome r a n o why s : lr_audit r n = inr tt ->
  audit ctx mode r a n o why s
  = (log [Audited (audit_record ctx mode a o (boundAuditReason why))] (push_outcome (mkOutcome (actionClass a) o (boundAuditReason why)) s), inr tt).
Proof. unfold audit. by intros ->. Qed.

Lemma performMutation_outcome r a s : (forall n, lr_audit r n = inr tt) ->
  exists o why, o <> oc_denied /\ st_outcomes (fst (performMutation ctx mode r a s)) = (st_outcomes s ++ [mkOutcome (actionClass a) o why])%list
    /\ snd (performMutation ctx mode r a s) = inr tt.
Proof.
  intros Ha. unfold performMutation, on_error. destruct (performAction ctx r a) as [cs [e | d]].
  - rewrite (audit_outcome _ _ _ _ _ _ (Ha 0)). exists oc_error. eexists. repeat case_match; done.
  - rewrite (audit_outcome _ _ _ _ _ _ (Ha 0)). exists oc_completed. by eexists.
Qed.

Lemma first_settled_in gs v : first_settled gs = inr v -> v = v_perform \/ inr (Some v) ∈ gs.
Proof.
  induction gs as [| [e | [w |]] gs IH]; simpl; [intros [= <-]; by left | done | intros [= <-]; right; left |].
  intros [H | H]%IH; [by left | by do 2 right].
Qed.

Definition skipped (r : LiveReads) (a : PlannedAgentAction) : bool :=
  bool_decide (mode = am_live) && isActingAutonomyLevel (action_level ctx a) && requiresApproval a
  && match lr_staged r with inr false => true | _ => false end.

Lemma skipped_iff r st a : vrd r st a = inr v_already_staged <-> skipped r a = true.
Proof.
  unfold verdict, gates, skipped, gate_pause, gate_autonomy, gate_dry_run, gate_approval, deny, settle, pass.
  destruct mode; cbn [bool_decide]; try (by destruct (isActingAutonomyLevel (action_level ctx a))).
  change (bool_decide (am_live = am_live)) with true. change (bool_decide (am_live = am_paused)) with false.
  change (bool_decide (am_live = am_dry_run)) with false.
  destruct (isActingAutonomyLevel (action_level ctx a)); cbn [negb andb]; [| done].
  destruct (requiresApproval a); cbn [andb first_settled]; [by destruct (lr_staged r) as [e | []] |].
  split; [| done]. change (first_settled [gate_permission ctx r st a; gate_coupling planned st a; gate_freshness ctx planned r st a;
    gate_live r a; gate_train date_parse ctx r a; gate_cap ctx r a] = inr v_already_staged -> false = true).
  intros [H | H]%first_settled_in; [done |]. rewrite !elem_of_cons, elem_of_nil in H.
  unfold gate_permission, gate_coupling, gate_freshness, gate_live, gate_train, gate_cap, deny, settle, pass in H.
  repeat (destruct H as [H | H]); try done; repeat case_match; discriminate H.
Qed.

Lemma settled_kind r st a o why : vrd r st a = inr (v_settled o why) -> o = oc_denied \/ o = oc_dry_run.
Proof.
  intros [? | H]%first_settled_in; [done |]. unfold gates in H. rewrite !elem_of_cons, elem_of_nil in H.
  unfold gate_pause, gate_autonomy, gate_dry_run, gate_approval, gate_permission, gate_coupling, gate_freshness, gate_live,
    gate_train, gate_cap, deny, settle, pass in H.
  repeat (destruct H as [H | H]); try done; repeat case_match; try discriminate H; injection H as -> _; auto.
Qed.

Lemma execute_outcome r st a : (forall n, lr_audit r n = inr tt) -> snd (exec r st a) = inr tt ->
  if skipped r a then fst (exec r st a) = st
  else exists o why, st_outcomes (fst (exec r st a)) = (st_outcomes st ++ [mkOutcome (actionClass a) o why])%list
         /\ (vrd r st a <> inr v_perform -> o <> oc_completed /\ o <> oc_error).
Proof.
  intros Ha Hr. pose proof (skipped_iff r st a) as K. pose proof (settled_kind r st a) as Q. unfold execute_action in *.
  destruct (vrd r st a) as [e | v]; [discriminate |].
  destruct (skipped r a) eqn:Ek; [injection (proj2 K eq_refl) as ->; done |].
  destruct v; cbn [settle_action] in *; rewrite ?(audit_outcome _ _ _ _ _ _ (Ha 0)) in *; cbn [fst snd] in *;
    try (do 2 eexists; split; [reflexivity | done]).
  - discriminate (proj1 K eq_refl).
  - do 2 eexists. split; [reflexivity |]. intros _. by destruct (Q o why eq_refl) as [-> | ->].
  - discriminate.
  - destruct (takes_cap_lock ctx a).
    + destruct (performMutation_outcome r a (log (train_events date_parse ctx r a ++ [LockClaimed]) st)%list Ha) as (o & w & _ & E & _).
      destruct (performMutation _ _ _ _ _) as [s2 res]. exists o, w. by split.
    + destruct (performMutation_outcome r a (log (train_events date_parse ctx r a) st) Ha) as (o & w & _ & E & _).
      exists o, w. by split.
Qed.

(** ** The pass *)

Context (reads : nat -> LiveReads).

Lemma execute_from_calls acts : forall i st c,
  c ∈ calls_of (fst (execute_from date_parse ctx mode planned reads i acts st)) ->
  c ∈ calls_of st \/ exists j a st', acts !! j = Some a /\ cleared (reads (i + j)) st' a /\ c ∈ fst (performAction ctx (reads (i + j)) a).
Proof.
  induction acts as [| a acts IH]; intros i st c; simpl; [by left |].
  pose proof (execute_calls (reads i) st a) as E. pose proof (perform_iff_cleared (reads i) st a) as P.
  assert (K : forall st1, fst (exec (reads i) st a) = st1 -> c ∈ calls_of st1 -> c ∈ calls_of st \/
    exists j b st', (a :: acts) !! j = Some b /\ cleared (reads (i + j)) st' b /\ c ∈ fst (performAction ctx (reads (i + j)) b)).
  { intros st1 <-. rewrite E, elem_of_app. intros [H | H]; [by left |]. right. exists 0, a, st. rewrite Nat.add_0_r.
    destruct (vrd (reads i) st a) as [e | v]; [by apply elem_of_nil in H |].
    destruct v; try (by apply elem_of_nil in H). split_and!; [done | by apply P | done]. }
  destruct (exec (reads i) st a) as [st1 [e | u]]; cbn [fst] in *; [by apply K |].
  intros [H | (j & b & st' & H1 & H2 & H3)]%IH; [by apply (K st1) |].
  right. exists (S j), b, st'. by rewrite Nat.add_succ_r.
Qed.

Lemma execute_pass_calls cooldown c :
  c ∈ calls_of (fst (execute_pass date_parse ctx mode planned reads cooldown)) ->
  exists i a st, planned !! i = Some a /\ cleared (reads i) st a /\ c ∈ fst (performAction ctx (reads i) a).
Proof.
  intros H. destruct (execute_from_calls planned 0 (mkSt [] cooldown []) c) as [N | X]; [| by apply elem_of_nil in N | exact X].
  unfold execute_pass in H. destruct (execute_from _ _ _ _ _ _ _ _) as [st1 [e | u]]; cbn [fst] in *; [done |].
  case_match; [rewrite calls_log, app_nil_r in H |]; done.
Qed.

(** ** Silence outside live mode *)

Definition is_audit (e : Event) : Prop := match e with Audited _ => True | _ => False end.

Lemma not_live_settles r st a : mode <> am_live -> exists o why, vrd r st a = inr (v_settled o why).
Proof.
  intros H. unfold verdict, gates, gate_pause, gate_autonomy, gate_dry_run, deny, settle, pass.
  destruct mode; [by do 2 eexists | | done].
  change (bool_decide (am_dry_run = am_paused)) with false. change (bool_decide (am_dry_run = am_dry_run)) with true.
  destruct (isActingAutonomyLevel (action_level ctx a)); by do 2 eexists.
Qed.

Lemma execute_from_silent acts : mode <> am_live -> forall i st, Forall is_audit (st_trace st) ->
  Forall is_audit (st_trace (fst (execute_from date_parse ctx mode planned reads i acts st))).
Proof.
  intros Hm. induction acts as [| a acts IH]; intros i st H; simpl; [done |].
  destruct (not_live_settles (reads i) st a Hm) as (o & why & V). unfold execute_action. rewrite V. cbn [settle_action].
  unfold audit. destruct (lr_audit (reads i) 0); cbn [fst]; [done |].
  apply IH. apply Forall_app. split; [done | by repeat constructor].
Qed.

Lemma escalation_live outcomes k : escalated_rule ctx mode planned outcomes = Some k -> mode = am_live.
Proof. unfold escalated_rule. destruct (truthy _), (bool_decide_reflect (mode = am_live)); done. Qed.

(** ** Outcomes by index *)

(** The actions that get an outcome: all but those whose approval row already
    existed. *)
Fixpoint heard (i : nat) (acts : list PlannedAgentAction) : list PlannedAgentAction :=
  match acts with
  | [] => []
  | a :: acts' => if skipped (reads i) a then heard (S i) acts' else a :: heard (S i) acts'
  end.

Hypothesis audits_land : forall i n, lr_audit (reads i) n = inr tt.

Lemma execute_from_outcomes acts : forall i st st',
  execute_from date_parse ctx mode planned reads i acts st = (st', inr tt) ->
  exists new, st_outcomes st' = (st_outcomes st ++ new)%list /\ List.map out_actionClass new = List.map actionClass (heard i acts).
Proof.
  induction acts as [| a acts IH]; intros i st st'; simpl.
  { intros [= <-]. exists []. by rewrite app_nil_r. }
  pose proof (execute_outcome (reads i) st a (audits_land i)) as E.
  destruct (exec (reads i) st a) as [st1 [e | []]]; [done |]. cbn [fst snd] in E. specialize (E eq_refl).
  intros H. apply IH in H as (new & H1 & H2). destruct (skipped (reads i) a).
  - rewrite E in H1. by exists new.
  - destruct E as (o & w & E & _). rewrite E in H1. exists (mkOutcome (actionClass a) o w :: new).
    split; [by rewrite H1, <- app_assoc | simpl; by rewrite H2].
Qed.

(** With nothing skipped, every action runs from a state that holds exactly the
    outcomes of the actions before it. *)
Lemma execute_from_at acts : forall i st st',
  (forall j a, acts !! j = Some a -> skipped (reads (i + j)) a = false) ->
  execute_from date_parse ctx mode planned reads i acts st = (st', inr tt) ->
  forall j a, acts !! j = Some a -> exists stj,
    snd (exec (reads (i + j)) stj a) = inr tt
    /\ List.length (st_outcomes stj) = List.length (st_outcomes st) + j
    /\ exists rest, st_outcomes st' = (st_outcomes (fst (exec (reads (i + j)) stj a)) ++ rest)%list.
Proof.
  induction acts as [| a acts IH]; intros i st st' Hs H j b Hj; [done |]. simpl in H.
  pose proof (execute_outcome (reads i) st a (audits_land i)) as E.
  destruct (exec (reads i) st a) as [st1 [e | []]] eqn:X; [done |]. cbn [fst snd] in E. specialize (E eq_refl).
  pose proof (Hs 0 a eq_refl) as S0. rewrite Nat.add_0_r in S0. rewrite S0 in E. destruct E as (o & w & E & _).
  destruct j as [| j].
  - injection Hj as <-. exists st. rewrite Nat.add_0_r, X. split_and!; [done | lia |]. cbn [fst].
    destruct (execute_from_outcomes _ _ _ _ H) as (new & -> & _). by exists new.
  - destruct (IH (S i) st1 st') with (j := j) (a := b) as (stj & A & B & C); [| done | done |].
    + intros j' a' Hj'. rewrite Nat.add_succ_comm. by apply Hs.
    + exists stj. rewrite <- Nat.add_succ_comm. split_and!; [done | | done].
      rewrite B, E, List.length_app. simpl. lia.
Qed.
End Executor.

(** The close the executor pairs a label with is the first of its kind. *)
Lemma coupled_lookup k planned : forall outs i c o,
  planned !! i = Some c -> actionClass c = ac_close -> closeKind c = Some k ->
  (forall i' d, i' < i -> planned !! i' = Some d -> actionClass d = ac_close -> closeKind d <> Some k) ->
  outs !! i = Some o -> coupledCloseOutcome planned outs (Some k) = Some (outcome o).
Proof.
  induction planned as [| p planned IH]; intros outs i c o Hi Hc Hk Hf Ho; [done |].
  destruct outs as [| o' outs]; [done |]. destruct i as [| i]; simpl in *.
  - injection Hi as ->. injection Ho as ->. unfold is_class. by rewrite Hc, Hk, !bool_decide_eq_true_2.
  - destruct (is_class ac_close p && bool_decide (closeKind p = Some k)) eqn:E.
    + apply andb_true_iff in E as [E1%bool_decide_eq_true E2%bool_decide_eq_true]. by destruct (Hf 0 p ltac:(lia) eq_refl E1).
    + apply (IH outs i c o); try done. intros i' d Hl. apply (Hf (S i') d). lia.
Qed.

Lemma merge_call_class ctx r a m sha : MergePullRequest m sha ∈ fst (performAction ctx r a) ->
  actionClass a = ac_merge /\ m = (mergeMethod a ?? mm_squash) /\ sha = truthy (pinned_sha ctx a).
Proof.
  unfold performAction, perform_label, perform_assign, then_, call, call_best_effort, when, done_with.
  destruct (actionClass a); intros H; repeat case_match; simplify_eq/=; set_solver.
Qed.

(** ** What every mutation was checked for *)

(** What the reads of one action established about a merge that was made. *)
Definition verified_merge (date_parse : string -> num) (ctx : ExecCtx) (brakes : AgentActionModeInput)
    (planned : list PlannedAgentAction) (reads : nat -> LiveReads) (m : AutoMergeMethod) (sha : option string) : Prop :=
  exists i a live, planned !! i = Some a /\ actionClass a = ac_merge /\ m = (mergeMethod a ?? mm_squash)
  /\ resolveAgentActionMode brakes = am_live
  /\ isActingAutonomyLevel (action_level ctx a) = true /\ requiresApproval a = false
  /\ resolveAgentPermissionReadiness (x_autonomy ctx) (x_installationPermissions ctx) (Some ac_merge) = ready
  /\ f_live (lr_fetch (reads i)) = live_data live /\ sha <> None /\ sha = truthy (pinned_sha ctx a)
  /\ is_current live sha (x_expectedBaseRef ctx) false
  /\ (forall name, manual_review_label ctx = Some name -> hasLabel (live_label_names live) name = false)
  /\ lr_ci (reads i) = inr ci_passed
  /\ (x_mergeTrainMode ctx = Some mt_enforce -> shouldWaitForOlderSiblings date_parse (train_input ctx (reads i)) = None)
  /\ (x_capRecheck ctx = true -> lr_lockAcquired (reads i) = true /\ lr_underCap (reads i) = inr true).

Lemma merge_call_facts date_parse ctx brakes planned reads cooldown m sha :
  MergePullRequest m sha ∈ calls_of (fst (executeAgentMaintenanceActions date_parse ctx brakes planned reads cooldown)) ->
  verified_merge date_parse ctx brakes planned reads m sha.
Proof.
  intros H. apply execute_pass_calls in H as (i & a & st & Hi & C & Hc).
  apply merge_call_class in Hc as (Cl & -> & ->). destruct C as [C1 C2 C3 C4 C5 C6 C7 C8 C9 C10].
  assert (M : is_class ac_merge a = true) by (by apply bool_decide_eq_true).
  assert (L : is_class ac_label a = false) by (apply bool_decide_eq_false; by rewrite Cl).
  destruct C6 as (sha & h & s & labels & Hsha & F & N).
  { unfold freshnessAlreadyProvenByPairedClose. by rewrite L. }
  destruct (fetch_current_labels _ _ _ _ _ _ _ F) as (live & Hl & Hcur & -> & _).
  destruct C7 as (c & Hci & Hst); [unfold requiresLiveCiRecheck; by rewrite M |].
  exists i, a, live. rewrite Hsha. rewrite Cl in C4. split_and!; try done.
  - apply C4. unfold PR_WRITE_CLASSES. set_solver.
  - intros name Hn. apply N; [done |]. unfold needs_no_hold. by rewrite M, orb_true_r.
  - unfold ciStaleReason, requiresLiveCiRecheck in Hst. rewrite M in Hst. cbn [negb orb] in Hst. by destruct c.
  - auto.
  - intros Hx. apply C10. unfold takes_cap_lock. by rewrite M, Hx.
Qed.

(** C3: whenever the executor asks GitHub to merge, the merge belongs to a
    planned action and, from the reads made for that action: no brake is set
    (live mode), the repository's autonomy acts on merges without approval, the
    App holds the write permission, the live pull request is open, at the very
    commit the merge is pinned to and on the expected base, it does not carry the
    manual-review label, live CI has passed, no older overlapping sibling is
    ahead where the train is enforced, and where a contributor cap is set its
    lock is held and the author is under it. *)
Theorem merge_call_verified date_parse ctx brakes planned reads cooldown m sha :
  MergePullRequest m sha ∈ calls_of (fst (executeAgentMaintenanceActions date_parse ctx brakes planned reads cooldown)) ->
  exists i a live, planned !! i = Some a /\ actionClass a = ac_merge /\ m = (mergeMethod a ?? mm_squash)
  /\ resolveAgentActionMode brakes = am_live
  /\ isActingAutonomyLevel (action_level ctx a) = true /\ requiresApproval a = false
  /\ resolveAgentPermissionReadiness (x_autonomy ctx) (x_installationPermissions ctx) (Some ac_merge) = ready
  /\ f_live (lr_fetch (reads i)) = live_data live /\ sha <> None /\ sha = truthy (pinned_sha ctx a)
  /\ is_current live sha (x_expectedBaseRef ctx) false
  /\ (forall name, manual_review_label ctx = Some name -> hasLabel (live_label_names live) name = false)
  /\ lr_ci (reads i) = inr ci_passed
  /\ (x_mergeTrainMode ctx = Some mt_enforce -> shouldWaitForOlderSiblings date_parse (train_input ctx (reads i)) = None)
  /\ (x_capRecheck ctx = true -> lr_lockAcquired (reads i) = true /\ lr_underCap (reads i) = inr true).
Proof. apply merge_call_facts. Qed.

(** C29: the brakes hold: while the agent is paused or in dry-run, globally, for
    the instance or for the repository, a pass leaves nothing but audit records -
    no call, no staged approval, no lock, no escalation. *)
Theorem only_live_acts date_parse ctx brakes planned reads cooldown :
  resolveAgentActionMode brakes <> am_live ->
  Forall is_audit (st_trace (fst (executeAgentMaintenanceActions date_parse ctx brakes planned reads cooldown))).
Proof.
  intros Hm. unfold executeAgentMaintenanceActions, execute_pass.
  pose proof (execute_from_silent date_parse ctx _ planned reads planned Hm 0 (mkSt [] cooldown []) (List.Forall_nil _)) as H.
  destruct (execute_from _ _ _ _ _ _ _ _) as [st1 [e | u]]; [done |].
  destruct (escalated_rule _ _ _ _) as [k |] eqn:E; [| done]. by apply escalation_live in E.
Qed.

(** In a pass whose audit writes land, the outcomes returned are, in order,
    those of the planned actions that were not waiting in the approval queue
    already; so when none was, the outcome at an index is the outcome of the
    action at that index, as the readers of the list assume. *)
Theorem outcomes_by_index date_parse ctx brakes planned reads cooldown outs :
  (forall i n, lr_audit (reads i) n = inr tt) ->
  snd (executeAgentMaintenanceActions date_parse ctx brakes planned reads cooldown) = inr outs ->
  List.map out_actionClass outs = List.map actionClass (heard ctx (resolveAgentActionMode brakes) reads 0 planned)
  /\ ((forall i a, planned !! i = Some a -> skipped ctx (resolveAgentActionMode brakes) (reads i) a = false) ->
      List.map out_actionClass outs = List.map actionClass planned).
Proof.
  intros Ha. unfold executeAgentMaintenanceActions, execute_pass.
  destruct (execute_from _ _ _ _ _ _ _ _) as [st1 [e | []]] eqn:X; [done |]. cbn [snd]. intros [= <-].
  destruct (execute_from_outcomes _ _ _ _ reads Ha _ _ _ _ X) as (new & -> & E). cbn [st_outcomes app].
  split; [exact E |]. intros Hs. rewrite E. f_equal. clear - Hs.
  assert (K : forall acts i, (forall j a, acts !! j = Some a -> skipped ctx (resolveAgentActionMode brakes) (reads (i + j)) a = false) ->
    heard ctx (resolveAgentActionMode brakes) reads i acts = acts).
  { induction acts as [| a acts IH]; intros i H; simpl; [done |]. pose proof (H 0 a eq_refl) as H0.
    rewrite Nat.add_0_r in H0. rewrite H0. f_equal. apply IH. intros j b Hj. rewrite Nat.add_succ_comm. by apply H. }
  by apply K.
Qed.

(** A label that announces a close is not put on a pull request whose close
    did not happen: where outcomes line up with actions, if the close a label is
    paired with was denied or failed in this pass, the label is not attempted. *)
Theorem coupled_label_withheld date_parse ctx brakes planned reads cooldown outs i j k c l oc :
  (forall i n, lr_audit (reads i) n = inr tt) ->
  (forall i a, planned !! i = Some a -> skipped ctx (resolveAgentActionMode brakes) (reads i) a = false) ->
  snd (executeAgentMaintenanceActions date_parse ctx brakes planned reads cooldown) = inr outs ->
  i < j -> planned !! i = Some c -> actionClass c = ac_close -> closeKind c = Some k ->
  (forall i' d, i' < i -> planned !! i' = Some d -> actionClass d = ac_close -> closeKind d <> Some k) ->
  planned !! j = Some l -> actionClass l = ac_label -> closeKind l = Some k ->
  outs !! i = Some oc -> outcome oc = oc_denied \/ outcome oc = oc_error ->
  exists ol, outs !! j = Some ol /\ outcome ol <> oc_completed /\ outcome ol <> oc_error.
Proof.
  intros Ha Hs H Hij Hi Hc Hk Hf Hj Hl Hlk Ho Hbad. unfold executeAgentMaintenanceActions, execute_pass in H.
  destruct (execute_from _ _ _ _ _ _ _ _) as [st1 [e | []]] eqn:X; [done |]. cbn [snd] in H. injection H as <-.
  destruct (execute_from_at date_parse ctx _ planned reads Ha planned 0 _ _ Hs X j l Hj) as (stj & Hr & Len & rest & E). cbn in Len, Hr.
  pose proof (execute_outcome _ _ _ planned (reads j) stj l (Ha j) Hr) as O. rewrite (Hs j l Hj) in O.
  destruct O as (o & w & O & N). cbn [Nat.add] in E. rewrite O in E. rewrite E, <- app_assoc in Ho |- *.
  rewrite lookup_app_l in Ho by lia.
  exists (mkOutcome (actionClass l) o w). split; [by rewrite lookup_app_r, Len, Nat.sub_diag by lia |].
  apply N. intros V. apply perform_iff_cleared in V as [_ _ _ _ C5 _ _ _ _ _].
  assert (P : pairedCloseOutcome planned stj l = Some (outcome oc)).
  { unfold pairedCloseOutcome, is_class. rewrite Hlk, Hl, bool_decide_eq_true_2 by done. exact (coupled_lookup k planned _ i c oc Hi Hc Hk Hf Ho). }
  destruct (C5 _ P). destruct Hbad; done.
Qed.

(** ** The denial cooldown *)

Definition cooldown_ok (m : Cooldown) : Prop :=
  NoDup (List.map fst m) /\ List.length m <= PR_WRITE_DENIAL_COOLDOWN_MAX_ENTRIES.

Lemma get_set m k v k' : map_get (map_set m k v) k' = if String.eqb k k' then Some v else map_get m k'.
Proof.
  unfold map_get. induction m as [| [k0 v0] m IH]; simpl; [by destruct (String.eqb k k') |].
  destruct (String.eqb_spec k0 k) as [-> | Hn]; simpl; [by destruct (String.eqb k k') |].
  destruct (String.eqb_spec k0 k') as [-> | Hn']; [| exact IH].
  destruct (String.eqb_spec k k') as [-> | _]; done.
Qed.

Lemma keys_set m k v x : x ∈ List.map fst (map_set m k v) -> x = k \/ x ∈ List.map fst m.
Proof.
  induction m as [| [k0 v0] m IH]; simpl; [set_solver |].
  destruct (String.eqb_spec k0 k) as [-> | Hn]; simpl; set_solver.
Qed.

Lemma set_nodup m k v : NoDup (List.map fst m) -> NoDup (List.map fst (map_set m k v)).
Proof.
  induction m as [| [k0 v0] m IH]; simpl; [intros _; apply NoDup_singleton |].
  intros [H1 H2]%NoDup_cons. destruct (String.eqb_spec k0 k) as [-> | Hn]; simpl; constructor; auto.
  intros H%keys_set. naive_solver.
Qed.

Lemma set_length m k v : List.length (map_set m k v) <= S (List.length m).
Proof. induction m as [| e m IH]; simpl; [lia |]. destruct (String.eqb (fst e) k); simpl; lia. Qed.

Lemma filter_keys (P : string * num -> bool) m : NoDup (List.map fst m) -> NoDup (List.map fst (List.filter P m)).
Proof.
  induction m as [| e m IH]; simpl; [done |]. intros [H1 H2]%NoDup_cons.
  destruct (P e); simpl; [constructor; [| auto] | auto].
  intros H. apply H1. rewrite list_elem_of_In, in_map_iff in *. destruct H as (x & <- & [Hx _]%filter_In). eauto.
Qed.

Lemma get_none m k : k ∉ List.map fst m -> map_get m k = None.
Proof.
  unfold map_get. induction m as [| [k0 v0] m IH]; simpl; [done |]. intros H.
  destruct (String.eqb_spec k0 k) as [-> | _]; [set_solver | apply IH; set_solver].
Qed.

Lemma get_filter (P : string * num -> bool) m k : NoDup (List.map fst m) ->
  map_get (List.filter P m) k = match map_get m k with Some v => if P (k, v) then Some v else None | None => None end.
Proof.
  induction m as [| [k0 v0] m IH]; simpl; [done |]. intros [H1 H2]%NoDup_cons.
  destruct (String.eqb_spec k0 k) as [-> | Hn].
  - replace (map_get ((k, v0) :: m) k) with (Some v0) by (unfold map_get; simpl; by rewrite String.eqb_refl).
    destruct (P (k, v0)); [unfold map_get; simpl; by rewrite String.eqb_refl |]. rewrite IH by done. by rewrite get_none.
  - replace (map_get ((k0, v0) :: m) k) with (map_get m k)
      by (unfold map_get; simpl; by rewrite (proj2 (String.eqb_neq k0 k) Hn)).
    destruct (P (k0, v0)); [| by apply IH]. rewrite <- IH by done.
    unfold map_get. simpl. by rewrite (proj2 (String.eqb_neq k0 k) Hn).
Qed.

Lemma suppress_get m k now : NoDup (List.map fst m) ->
  snd (shouldSuppressWritePermissionDenial m k now)
  = match map_get m k with
    | Some last => negb (ngeb (nsub now last) (nz PR_WRITE_DENIAL_COOLDOWN_MS)) && nltb (nsub now last) (nz PR_WRITE_DENIAL_COOLDOWN_MS)
    | None => false
    end.
Proof.
  intros H. unfold shouldSuppressWritePermissionDenial, pruneWritePermissionDenialCooldown. cbn [snd]. rewrite get_filter by done.
  destruct (map_get m k) as [v |]; [| done]. cbn [snd]. by destruct (negb _).
Qed.

Lemma get_tail m k v : NoDup (List.map fst m) -> map_get (tail m) k = Some v -> map_get m k = Some v.
Proof.
  destruct m as [| [k0 v0] m]; [done |]. simpl. intros [H1 _]%NoDup_cons H.
  unfold map_get. simpl. destruct (String.eqb_spec k0 k) as [-> | _]; [by rewrite get_none in H | exact H].
Qed.

(** The memory of audited write-permission denials stays bounded (at most
    1024 entries, one per key), a denial audited at some instant is suppressed
    for exactly the fifteen minutes after it, and auditing one denial never
    silences another: a different key is suppressed afterwards only if it was
    before. *)
Theorem denial_cooldown_exact m k (t : Z) :
  cooldown_ok m -> (0 <= t <= 2 ^ 52)%Z ->
  let m' := markWritePermissionDenialAudited m k (nz t) in
  cooldown_ok m'
  /\ (forall now, (0 <= now <= 2 ^ 52)%Z ->
        snd (shouldSuppressWritePermissionDenial m' k (nz now)) = (now - t <? PR_WRITE_DENIAL_COOLDOWN_MS)%Z)
  /\ (forall k' now, k' <> k -> snd (shouldSuppressWritePermissionDenial m' k' now) = true ->
        snd (shouldSuppressWritePermissionDenial m k' now) = true).
Proof.
  intros [Hn Hl] Ht m'. subst m'. unfold markWritePermissionDenialAudited, evictOldestWritePermissionDenialCooldownEntry. cbv zeta.
  set (m1 := pruneWritePermissionDenialCooldown m (nz t)).
  assert (N1 : NoDup (List.map fst m1)) by by apply filter_keys.
  assert (L1 : List.length m1 <= PR_WRITE_DENIAL_COOLDOWN_MAX_ENTRIES)
    by (etrans; [apply List.filter_length_le | exact Hl]).
  match goal with |- context [map_set ?x k _] => set (m2 := x) end.
  assert (N2 : NoDup (List.map fst m2)).
  { unfold m2. case_match; [| done]. destruct m1; [done |]. by apply NoDup_cons in N1 as [_ N1]. }
  assert (L2 : S (List.length m2) <= PR_WRITE_DENIAL_COOLDOWN_MAX_ENTRIES).
  { unfold m2. destruct (Nat.leb_spec PR_WRITE_DENIAL_COOLDOWN_MAX_ENTRIES (List.length m1)); [| lia].
    destruct m1; simpl in *; [unfold PR_WRITE_DENIAL_COOLDOWN_MAX_ENTRIES in *; lia | lia]. }
  assert (G2 : forall k' v, map_get m2 k' = Some v -> map_get m k' = Some v).
  { intros k' v H. assert (G1 : map_get m1 k' = Some v) by (unfold m2 in H; case_match; [by apply get_tail | done]).
    unfold m1, pruneWritePermissionDenialCooldown in G1. rewrite get_filter in G1 by done. repeat case_match; congruence. }
  clearbody m2. pose proof (set_nodup m2 k (nz t) N2) as N3. split_and!.
  - split; [done |]. etrans; [apply set_length | exact L2].
  - intros now Hnow. rewrite suppress_get, get_set, String.eqb_refl, nz_sub by (done || lia). rewrite nz_geb, nz_ltb. lia.
  - intros k' now Hk. rewrite !suppress_get, get_set, (proj2 (String.eqb_neq k k')) by done.
    destruct (map_get m2 k') as [v |] eqn:E; [| done]. by rewrite (G2 _ _ E).
Qed.

(** ** Through the approval queue *)

(** The action that runs when a maintainer accepts a staged one. *)
Definition accepted (a : PlannedAgentAction) : PlannedAgentAction :=
  pendingActionToPlanned (actionClass a) (actionParams a) (Some (reason a)).

(** Accepting a staged action does what was staged: the accepted action
    needs no further approval, is governed by the same autonomy class, pinned to
    the same commit, re-verified by the same live checks, makes the same calls,
    and leaves the same events. *)
Theorem accepted_action_faithful date_parse ctx a :
  requiresApproval (accepted a) = false
  /\ action_level ctx (accepted a) = action_level ctx a
  /\ pinned_sha ctx (accepted a) = pinned_sha ctx a
  /\ after_completed ctx a = List.map (fun e => match e with DecisionRecorded _ c => DecisionRecorded a c | _ => e end)
                               (after_completed ctx (accepted a))
  /\ forall r, gate_live r (accepted a) = gate_live r a
       /\ gate_train date_parse ctx r (accepted a) = gate_train date_parse ctx r a
       /\ performAction ctx r (accepted a) = performAction ctx r a.
Proof.
  split_and!; [done.. | |].
  - destruct a. unfold after_completed, accepted, is_class. cbn. repeat case_match; done.
  - intros r. destruct a. unfold accepted. by split_and!.
Qed.

(** But the per-rule circuit breaker is lost on the way: the codes that
    justified a close are not stored, so an accepted close that counts as having
    concrete evidence is never held, whatever rules have become untrustworthy,
    although the same close is held when it is executed directly. *)
Theorem accepted_close_escapes_rule_breaker :
  (forall a hold labels codes, closeConcreteEvidence a = Some true ->
     downgradeCloseToHold [accepted a] hold labels codes = [accepted a])
  /\ exists a labels codes,
       closeConcreteEvidence a = Some true
       /\ Forall (fun b => actionClass b <> ac_close) (downgradeCloseToHold [a] false labels codes)
       /\ downgradeCloseToHold [accepted a] false labels codes = [accepted a].
Proof.
  assert (K : forall a hold labels codes, closeConcreteEvidence a = Some true ->
     downgradeCloseToHold [accepted a] hold labels codes = [accepted a]).
  { intros a hold labels codes H. unfold downgradeCloseToHold. cbn [existsb]. rewrite orb_false_r.
    unfold isDowngradableClose, noConcreteEvidenceUnderProjectBreaker, everyJustifyingCodeUntrustworthy, accepted, is_true_flag.
    cbn. rewrite H. rewrite bool_decide_eq_true_2 by done. cbn. by rewrite !andb_false_r. }
  split; [exact K |].
  exists (mkAction ac_close None true "duplicate" None None None None None None None (Some ck_heuristic) (Some ccs_not_required)
            None None None None (Some true) (Some ["duplicate_pr_risk"]) None None None),
    (mkLabelSettings l_undefined l_undefined l_undefined l_undefined l_undefined), ["duplicate_pr_risk"].
  split_and!; [done | | by apply K]. vm_compute. by repeat constructor.
Qed.

(** ** Concrete passes *)

Definition free : AgentActionModeInput := mkModeInput false None None None.

Definition some_ctx (autonomy : option AutonomyPolicy) : ExecCtx :=
  mkCtx 1 "octo/repo" 7 (Some "abc123") (Some "main") autonomy
    (Some {["pull_requests" := "write"; "contents" := "write"]}) (Some "octocat") false false l_undefined None None None None true.

Definition some_live : LivePull := mkLive (Some "open") (Some "abc123") (Some "main") (Some false) (Some []).

(** Everything succeeds; [staged] answers the approval queue, [lands] the audit
    writes. *)
Definition some_reads (staged : bool) (ci : CiState) (lands : nat -> bool) : LiveReads :=
  mkReads (inr staged) (nz 0) (nz 0) (mkFetch (Some "token") None None (live_data some_live)) (inr ci) (Some "clean") 0 None [] []
    (nz 0) false true true (inr true)
    (fun c => match c with MergePullRequest _ _ => inr false | _ => inr true end)
    (fun n => if lands n then inr tt else inl (mkError None "database is locked")).

Definition good_reads : nat -> LiveReads := fun _ => some_reads true ci_passed (fun _ => true).

Definition run (autonomy : option AutonomyPolicy) (planned : list PlannedAgentAction) (reads : nat -> LiveReads)
    : St * (GhError + list AgentActionOutcome) :=
  executeAgentMaintenanceActions toy_date (some_ctx autonomy) free planned reads [].

(** A green pull request is labelled, approved and merged. *)
Example green_pass :
  let p := run full_auto (Plan.planAgentMaintenanceActions green) good_reads in
  calls_of (fst p)
  = [EnsureAssignee "octocat"; EnsureLabel "ready-to-merge";
     Approve "LoopOver approves — the gate is satisfied and CI is green." (Some "abc123");
     MergePullRequest mm_squash (Some "abc123"); RecordTerminal "merged"].
Proof. vm_compute. reflexivity. Qed.

Lemma merge_call_verified_witness :
  exists i a, Plan.planAgentMaintenanceActions green !! i = Some a /\ actionClass a = ac_merge
    /\ lr_ci (good_reads i) = inr ci_passed.
Proof.
  destruct (merge_call_verified toy_date (some_ctx full_auto) free (Plan.planAgentMaintenanceActions green) good_reads []
              mm_squash (Some "abc123")) as (i & a & live & H1 & H2 & _ & _ & _ & _ & _ & _ & _ & _ & _ & _ & H3 & _).
  - apply (list_elem_of_lookup_2 _ 3). vm_compute. reflexivity.
  - exists i, a. auto.
Defined.

Lemma only_live_acts_witness :
  Forall is_audit (st_trace (fst (executeAgentMaintenanceActions toy_date (some_ctx full_auto) (mkModeInput true None None None)
    (Plan.planAgentMaintenanceActions green) good_reads []))).
Proof. apply only_live_acts. vm_compute. discriminate. Defined.

Lemma outcomes_by_index_witness :
  exists outs, snd (run full_auto (Plan.planAgentMaintenanceActions green) good_reads) = inr outs
    /\ List.map out_actionClass outs = [ac_assign; ac_label; ac_approve; ac_merge].
Proof.
  assert (R : exists outs, snd (run full_auto (Plan.planAgentMaintenanceActions green) good_reads) = inr outs)
    by (eexists; vm_compute; reflexivity).
  destruct R as [outs R]. exists outs. split; [exact R |].
  destruct (outcomes_by_index toy_date (some_ctx full_auto) free (Plan.planAgentMaintenanceActions green) good_reads [] outs
              (fun _ _ => eq_refl) R) as [E _].
  rewrite E. vm_compute. reflexivity.
Defined.

(** A contributor-cap close GitHub refuses, with the label that announces it. *)
Definition cap_plan : list PlannedAgentAction :=
  [policy_close ck_contributor_cap false "over the cap" "too many" (Some "abc123");
   label_action (Some ac_close) (Some ck_contributor_cap) false "over the cap" "over-contributor-limit" (Some op_add) None].

Definition refusing : nat -> LiveReads := fun _ =>
  mkReads (inr true) (nz 0) (nz 0) (mkFetch (Some "token") None None (live_data some_live)) (inr ci_passed) None 0 None [] [] (nz 0)
    false true true (inr true)
    (fun c => match c with ClosePullRequest => inl (mkError (Some 403%Z) "Resource not accessible by integration") | _ => inr true end)
    (fun _ => inr tt).

Lemma coupled_label_withheld_witness :
  exists outs ol, snd (run full_auto cap_plan refusing) = inr outs /\ outs !! 1 = Some ol
    /\ outcome ol <> oc_completed /\ outcome ol <> oc_error.
Proof.
  assert (R : exists o0 o1, snd (run full_auto cap_plan refusing) = inr [o0; o1] /\ outcome o0 = oc_error)
    by (do 2 eexists; split; vm_compute; reflexivity).
  destruct R as (o0 & o1 & R & E). exists [o0; o1].
  destruct (coupled_label_withheld toy_date (some_ctx full_auto) free cap_plan refusing [] [o0; o1] 0 1 ck_contributor_cap
    (policy_close ck_contributor_cap false "over the cap" "too many" (Some "abc123"))
    (label_action (Some ac_close) (Some ck_contributor_cap) false "over the cap" "over-contributor-limit" (Some op_add) None) o0)
    as (ol & H1 & H2);
    [intros; reflexivity | | exact R | lia | reflexivity | reflexivity | reflexivity | intros; lia | reflexivity | reflexivity
     | reflexivity | reflexivity | by right | by exists ol].
  intros i a H. unfold skipped. assert (Q : requiresApproval a = false); [| rewrite Q; by rewrite andb_false_r].
  destruct i as [| [| i]]; [injection H as <-; reflexivity.. | discriminate].
Defined.

Lemma denial_cooldown_exact_witness :
  let m' := markWritePermissionDenialAudited [] "1:octo/repo:7:merge" (nz 0) in
  cooldown_ok [] /\ snd (shouldSuppressWritePermissionDenial m' "1:octo/repo:7:merge" (nz 899999)) = true
  /\ snd (shouldSuppressWritePermissionDenial m' "1:octo/repo:7:merge" (nz 900000)) = false.
Proof.
  intros m'. assert (O : cooldown_ok []) by (split; [constructor | vm_compute; lia]).
  destruct (denial_cooldown_exact [] "1:octo/repo:7:merge" 0 O ltac:(lia)) as (_ & H & _).
  split_and!; [exact O | exact (H 899999%Z ltac:(lia)) | exact (H 900000%Z ltac:(lia))].
Defined.

(** ** Where the executor departs from its description *)

(** Assignment waits for approval, closing and the disposition labels act. *)
Definition assign_by_approval : option AutonomyPolicy :=
  Some (fun c => match c with
                 | ac_assign => Some auto_with_approval
                 | ac_close | ac_review_state_label => Some auto_level
                 | _ => None
                 end).

Definition first_flag : AgentActionPlanInput :=
  sample assign_by_approval ci_passed [] false (Some (mkHardRule true None)) (Some (mkVerify true (nz 60))) None None.

(** An action whose approval row already exists leaves no outcome, and the
    outcomes after it shift: in the planner's own plan for a linked-issue
    violation the pending-closure label is posted and its outcome recorded as
    completed, but the check that schedules the verification pass reads the
    wrong index and reports that it was not. *)
Theorem staging_noop_shifts_outcomes :
  let planned := Plan.planAgentMaintenanceActions first_flag in
  let p := run assign_by_approval planned (fun _ => some_reads false ci_passed (fun _ => true)) in
  EnsureLabel "pending-closure" ∈ calls_of (fst p)
  /\ exists o o', snd p = inr [o; o'] /\ outcome o = oc_completed /\ outcome o' = oc_completed
       /\ List.map actionClass planned = [ac_assign; ac_label; ac_label]
       /\ pendingClosureLabelApplied planned [o; o'] = false.
Proof. vm_compute. split; [right; left | by do 2 eexists]. Qed.

(** A merge that succeeded is recorded as failed when the audit write after
    it throws: the write sits inside the [try] of the mutation, so the pass
    returns both a completed and an error outcome for the one action and counts a
    failed merge attempt against the merged head. *)
Theorem audit_failure_reports_merged_as_failed :
  let p := run full_auto [Plan.the_merge green] (fun _ => some_reads true ci_passed (fun n => negb (Nat.eqb n 0))) in
  MergePullRequest mm_squash (Some "abc123") ∈ calls_of (fst p)
  /\ MergeFailed "abc123" (mkError None "database is locked") ∈ st_trace (fst p)
  /\ exists o o', snd p = inr [o; o'] /\ outcome o = oc_completed /\ outcome o' = oc_error.
Proof. vm_compute. split_and!; [left | do 3 right; left |]. by do 2 eexists. Qed.
