(* ===== verification/Moderation.v ===== *)
(** * Moderation

    Models the engine's [settings/moderation-rules.ts] and
    [settings/contributor-blacklist.ts], and the escalation that ties them to
    completed enforcement closes: [applyModerationEscalationForRule] and
    [buildModerationEscalationComment] of [services/agent-action-executor.ts] over
    the violation ledger of [db/repositories.ts].

    Main results: a replayed enforcement changes nothing; a contributor is
    blacklisted exactly when the configured number of distinct violations is
    reached; the union of blacklists blocks exactly the logins some list blocks,
    but can lose the id that makes an entry survive a rename. *)

From stdpp Require Import base list strings option sets.
From Stdlib Require Import Ascii.
From S2P Require Import Prelude JsNumber JsString Ledger Autonomy PrFreshness AgentActions AgentExecutor.

Local Open Scope nat_scope.
Local Open Scope string_scope.
Local Open Scope js_scope.

(** ** Rules *)

Inductive ModerationRuleType := mr_contributor_cap | mr_blacklist | mr_review_nag | mr_review_evasion | mr_copycat.

#[global] Instance ModerationRuleType_eq_dec : EqDecision ModerationRuleType.
Proof. solve_decision. Defined.

Definition ALL_MODERATION_RULE_TYPES : list ModerationRuleType :=
  [mr_contributor_cap; mr_blacklist; mr_review_nag; mr_review_evasion; mr_copycat].

Definition rule_to_string (r : ModerationRuleType) : string :=
  match r with
  | mr_contributor_cap => "contributor_cap" | mr_blacklist => "blacklist" | mr_review_nag => "review_nag"
  | mr_review_evasion => "review_evasion" | mr_copycat => "copycat"
  end.

#[global] Instance ModerationRuleType_vocabulary : Vocabulary ModerationRuleType.
Proof. vocabulary_by rule_to_string ALL_MODERATION_RULE_TYPES. Defined.

Definition MODERATION_VIOLATION_EVENT_TYPE (r : ModerationRuleType) : string :=
  match r with
  | mr_contributor_cap => "moderation.violation.contributor_cap"
  | mr_blacklist => "moderation.violation.blacklist"
  | mr_review_nag => "moderation.violation.review_nag"
  | mr_review_evasion => "moderation.violation.review_evasion"
  | mr_copycat => "moderation.violation.copycat"
  end.

Record GlobalModerationConfig := mkModerationConfig {
  mc_enabled : bool;
  mc_rules : list ModerationRuleType;
  mc_warningLabel : string;
  mc_bannedLabel : string;
  mc_banThreshold : num;
  mc_violationDecayDays : option num;
  mc_autoBlacklistOnBan : bool;
}.

Definition DEFAULT_GLOBAL_MODERATION_CONFIG : GlobalModerationConfig :=
  mkModerationConfig false ALL_MODERATION_RULE_TYPES "mod:warning" "mod:banned" (nz 5) None true.

(** The loop of [normalizeModerationRules] from an index, with what it has seen;
    the rules seen are the rules kept. *)
Fixpoint normalize_rules_from (index : nat) (seen : list ModerationRuleType) (input : list jsval)
    : list ModerationRuleType * list string :=
  match input with
  | [] => ([], [])
  | raw :: input' =>
      match match raw with JStr s => of_word s | _ => None end with
      | None =>
          let '(rules, warnings) := normalize_rules_from (S index) seen input' in
          (rules, ("moderationRules[" ++ num_to_string (nnat index) ++ "] is not a recognized rule type (expected one of "
                   ++ join ", " (List.map rule_to_string ALL_MODERATION_RULE_TYPES) ++ "); ignoring it.") :: warnings)
      | Some rule =>
          if bool_decide (rule ∈ seen) then normalize_rules_from (S index) seen input'
          else let '(rules, warnings) := normalize_rules_from (S index) (rule :: seen) input' in (rule :: rules, warnings)
      end
  end.

Definition normalizeModerationRules (input : jsval) : list ModerationRuleType * list string :=
  match input with
  | JUndefined | JNull => ([], [])
  | JArr vs => normalize_rules_from 0 [] vs
  | _ => ([], ["moderationRules must be a list of rule type strings; ignoring it."])
  end.

Definition normalizeModerationLabel (input : jsval) : option string :=
  match input with
  | JStr s => let trimmed := trim s in if Nat.eqb (js_length trimmed) 0 then None else Some (js_take 100 trimmed)
  | _ => None
  end.

Definition resolveEffectiveModerationRules (globalRules : list ModerationRuleType)
    (perRepoOverride : option (list ModerationRuleType)) : list ModerationRuleType :=
  perRepoOverride ?? globalRules.

Inductive ModerationGateMode := gm_inherit | gm_off | gm_enabled.

Definition resolveModerationGateEnabled (globalEnabled : bool) (gateMode : ModerationGateMode) : bool :=
  if negb globalEnabled then false else match gateMode with gm_off => false | _ => true end.

Inductive ModerationTier := tier_none | tier_warning | tier_banned.

#[global] Instance ModerationTier_eq_dec : EqDecision ModerationTier.
Proof. solve_decision. Defined.

Definition moderationTierForViolationCount (count banThreshold : num) : ModerationTier :=
  if nleb count (nz 0) then tier_none else if ngeb count banThreshold then tier_banned else tier_warning.

(** ** The contributor blacklist *)

Record ContributorBlacklistEntry := mkEntry {
  e_login : string;
  e_githubId : option num;
  e_reason : option string;
  e_evidence : option (list string);
  e_addedAt : option string;
}.

(** After the first character of [GITHUB_LOGIN]: alphanumeric, or a hyphen with
    an alphanumeric after it. *)
Fixpoint login_tail (s : string) : bool :=
  match s with
  | EmptyString => true
  | String c s' =>
      (is_alnum c || (Ascii.eqb c "-" && match s' with String d _ => is_alnum d | EmptyString => false end)) && login_tail s'
  end.

Definition login_core (s : string) : string :=
  let n := String.length s in
  if Nat.leb 5 n && String.eqb (String.substring (n - 5) 5 s) "[bot]" then String.substring 0 (n - 5) s else s.

Definition GITHUB_LOGIN (s : string) : bool :=
  match login_core s with
  | String c rest => is_alnum c && Nat.leb (String.length rest) 38 && login_tail rest
  | EmptyString => false
  end.

Definition MAX_ENTRIES : nat := 1000.
Definition MAX_REASON_CHARS : nat := 200.
Definition MAX_EVIDENCE : nat := 10.
Definition MAX_EVIDENCE_CHARS : nat := 500.

Definition nonblank (v : jsval) : option string :=
  match v with JStr s => if str_empty (trim s) then None else Some (trim s) | _ => None end.

Definition entry_of (login : string) (record : jsval) : ContributorBlacklistEntry :=
  mkEntry login
    (match get_field record "githubId" with
     | JNum n => if is_finite n && neqb (ntrunc n) n && ngtb n (nz 0) then Some n else None
     | _ => None
     end)
    (js_take MAX_REASON_CHARS <$> nonblank (get_field record "reason"))
    (match get_field record "evidence" with
     | JArr refs => match firstn MAX_EVIDENCE (List.map (js_take MAX_EVIDENCE_CHARS) (omap nonblank refs)) with
                    | [] => None
                    | evidence => Some evidence
                    end
     | _ => None
     end)
    (nonblank (get_field record "addedAt")).

(** The login of a raw entry: a bare string or an object with a [login]. *)
Definition raw_login (raw : jsval) : option string :=
  match raw with
  | JStr s => Some (trim s)
  | JObj fields => match get_field (JObj fields) "login" with JStr s => Some (trim s) | _ => None end
  | _ => None
  end.

(** The loop of [normalizeContributorBlacklist]: [kept] counts the entries so
    far, [seen] holds their lower-cased logins. *)
Fixpoint normalize_blacklist_from (index kept : nat) (seen : list string) (input : list jsval)
    : list ContributorBlacklistEntry * list string :=
  match input with
  | [] => ([], [])
  | raw :: input' =>
      let at_index := "contributorBlacklist[" ++ num_to_string (nnat index) ++ "]" in
      let warn w := let '(es, ws) := normalize_blacklist_from (S index) kept seen input' in (es, w :: ws) in
      if Nat.leb MAX_ENTRIES kept
      then ([], ["contributorBlacklist is capped at " ++ num_to_string (nnat MAX_ENTRIES) ++ " entries; dropping the rest."])
      else
        match raw_login raw with
        | None => warn (at_index ++ " needs a string login; ignoring it.")
        | Some login =>
            if negb (GITHUB_LOGIN login) then warn (at_index ++ ".login is not a valid GitHub login; ignoring it.")
            else
              let key := toLowerCase login in
              if set_has seen key then normalize_blacklist_from (S index) kept seen input'
              else let '(es, ws) := normalize_blacklist_from (S index) (S kept) (key :: seen) input' in
                   (entry_of login raw :: es, ws)
        end
  end.

Definition normalizeContributorBlacklist (input : jsval) : list ContributorBlacklistEntry * list string :=
  match input with
  | JUndefined | JNull => ([], [])
  | JArr vs => normalize_blacklist_from 0 0 [] vs
  | _ => ([], ["contributorBlacklist must be a list of entries; ignoring it."])
  end.

Definition entry_matches (key : option string) (githubId : option num) (entry : ContributorBlacklistEntry) : bool :=
  match githubId, e_githubId entry with Some id, Some id' => neqb id' id | _, _ => false end
  || match key with Some k => String.eqb (toLowerCase (e_login entry)) k | None => false end.

Definition findBlacklistEntry (login : option string) (entries : option (list ContributorBlacklistEntry)) (githubId : option num)
    : option ContributorBlacklistEntry :=
  List.find (entry_matches (toLowerCase <$> truthy login) githubId) (entries ?? []).

Definition isAuthorBlacklisted (login : option string) (entries : option (list ContributorBlacklistEntry)) (githubId : option num)
    : bool :=
  is_some (findBlacklistEntry login entries githubId).

Fixpoint merge_from (seen : list string) (entries : list ContributorBlacklistEntry) : list ContributorBlacklistEntry :=
  match entries with
  | [] => []
  | e :: entries' =>
      let key := toLowerCase (e_login e) in
      if set_has seen key then merge_from seen entries' else e :: merge_from (key :: seen) entries'
  end.

Definition mergeContributorBlacklists (lists : list (list ContributorBlacklistEntry)) : list ContributorBlacklistEntry :=
  merge_from [] (List.concat lists).

(** ** The ledger *)

(** The audit rows of the [moderation.violation] family; [vi_createdAt] is the instant
    [created_at] prints. *)
Record Violation := mkViolation {
  vi_eventType : string;
  vi_actor : string;
  vi_targetKey : string;
  vi_createdAt : Z;
}.

Definition hasModerationViolationForTarget (ledger : list Violation) (actor eventType targetKey : string) : bool :=
  existsb (fun v => String.eqb (vi_actor v) actor && String.eqb (vi_eventType v) eventType && String.eqb (vi_targetKey v) targetKey) ledger.

(** Whether a row was inserted; [lands] says whether the insert completes. *)
Definition recordModerationViolation (lands : bool) (ledger : list Violation) (eventType actor targetKey : string) (now : Z)
    : list Violation * option bool :=
  if hasModerationViolationForTarget ledger actor eventType targetKey then (ledger, Some false)
  else if lands then (ledger ++ [mkViolation eventType actor targetKey now], Some true)%list else (ledger, None).

Definition counted (actor : string) (eventTypes : list string) (since : option num) (v : Violation) : bool :=
  String.eqb (vi_actor v) actor && set_has eventTypes (vi_eventType v)
  && match since with Some s => nleb s (nz (vi_createdAt v)) | None => true end.

Definition countModerationViolationsForActor (ledger : list Violation) (actor : string) (eventTypes : list string)
    (since : option num) : nat :=
  List.length (List.filter (counted actor eventTypes since) ledger).

(** ** Escalation *)

Definition buildModerationEscalationComment (tier : ModerationTier) (totalCount banThreshold : num)
    (violationDecayDays : option num) (blacklisted : bool) : string :=
  let decayNote := match violationDecayDays with
                   | Some d => " Violations older than " ++ num_to_string d ++ " day(s) no longer count toward this total."
                   | None => ""
                   end in
  if bool_decide (tier = tier_banned)
  then
    let blacklistNote := if blacklisted then " This contributor has been automatically added to the blacklist."
                         else " Automatic blacklisting is not enabled for this instance, so no blacklist entry was added." in
    "This contributor now has " ++ num_to_string totalCount
    ++ " recorded moderation violation(s), at or beyond the configured threshold of " ++ num_to_string banThreshold ++ "."
    ++ blacklistNote ++ decayNote
  else
    "This contributor now has " ++ num_to_string totalCount ++ " recorded moderation violation(s) (warning threshold). "
    ++ num_to_string (nsub banThreshold totalCount) ++ " more will result in an automatic ban." ++ decayNote.

Record ModerationContextSettings := mkModerationSettings {
  ms_moderationGateMode : option ModerationGateMode;
  ms_moderationRules : option (list ModerationRuleType);
  ms_moderationWarningLabel : option string;
  ms_moderationBannedLabel : option string;
}.

Definition no_overrides : ModerationContextSettings := mkModerationSettings None None None None.

Record ModState := mkModState {
  mod_ledger : list Violation;
  mod_blacklist : list ContributorBlacklistEntry;
  mod_posted : list (string * string);      (* labels applied with the comment posted *)
}.

(** Which of the two writes complete. *)
Record ModWrites := mkModWrites { w_record : bool; w_blacklist : bool }.

Definition DAY_MS : num := nz (24 * 60 * 60 * 1000).

Section Escalation.
Context (cfg : GlobalModerationConfig) (settings : ModerationContextSettings) (rule : ModerationRuleType) (author : string).

Definition effectiveRules : list ModerationRuleType := resolveEffectiveModerationRules (mc_rules cfg) (ms_moderationRules settings).

Definition counting : bool :=
  resolveModerationGateEnabled (mc_enabled cfg) (ms_moderationGateMode settings ?? gm_inherit) && bool_decide (rule ∈ effectiveRules).

Definition since (now : Z) : option num := (fun d => nsub (nz now) (nmul d DAY_MS)) <$> mc_violationDecayDays cfg.

Definition total (ledger : list Violation) (now : Z) : nat :=
  countModerationViolationsForActor ledger author (List.map MODERATION_VIOLATION_EVENT_TYPE effectiveRules) (since now).

Definition banReason (totalCount : num) : string :=
  "moderation-engine auto-ban: " ++ num_to_string totalCount ++ " lifetime violations reached the configured threshold".

Definition ban (s : ModState) (w : ModWrites) (targetKey : string) (totalCount : num) : list ContributorBlacklistEntry * bool :=
  if isAuthorBlacklisted (Some author) (Some (mod_blacklist s)) None then (mod_blacklist s, true)
  else if w_blacklist w
  then ((mod_blacklist s ++ [mkEntry author None (Some (banReason totalCount)) (Some [targetKey]) None])%list, true)
  else (mod_blacklist s, false).

Definition applyModerationEscalationForRule (w : ModWrites) (targetKey : string) (now : Z) (s : ModState) : ModState :=
  if negb counting then s
  else
    let '(ledger, recorded) :=
      recordModerationViolation (w_record w) (mod_ledger s) (MODERATION_VIOLATION_EVENT_TYPE rule) author targetKey now in
    let isNewViolation := recorded ?? true in
    if negb isNewViolation then s
    else
      let totalCount := nnat (total ledger now) in
      let tier := moderationTierForViolationCount totalCount (mc_banThreshold cfg) in
      if bool_decide (tier = tier_none) then mkModState ledger (mod_blacklist s) (mod_posted s)
      else
        let banned := bool_decide (tier = tier_banned) in
        let label := if banned then ms_moderationBannedLabel settings ?? mc_bannedLabel cfg
                     else ms_moderationWarningLabel settings ?? mc_warningLabel cfg in
        let '(blacklist, blacklisted) :=
          if banned && mc_autoBlacklistOnBan cfg then ban s w targetKey totalCount else (mod_blacklist s, false) in
        mkModState ledger blacklist
          (mod_posted s ++ [(label, buildModerationEscalationComment tier totalCount (mc_banThreshold cfg)
                                      (mc_violationDecayDays cfg) blacklisted)])%list.
End Escalation.

(** ** Normalisation *)

Lemma rule_to_string_inj q r : rule_to_string q = rule_to_string r -> q = r.
Proof. exact (word_inj q r). Qed.

Lemma normalize_rules_spec vs : forall index seen r,
  r ∈ fst (normalize_rules_from index seen vs) <-> r ∉ seen /\ JStr (rule_to_string r) ∈ vs.
Proof.
  induction vs as [| v vs IH]; intros index seen r; simpl; [set_solver |]. rewrite elem_of_cons.
  assert (D : (exists q, v = JStr (rule_to_string q) /\ (match v with JStr s => of_word s | _ => None end) = Some q)
              \/ ((match v with JStr s => of_word s | _ => None end) = (None : option ModerationRuleType)
                  /\ forall q, v <> JStr (rule_to_string q))).
  { destruct v as [| | | | s | |]; try (by right). destruct (of_word s) as [q |] eqn:E.
    - left. exists q. apply of_word_sound in E. by rewrite <- E.
    - right. split; [done |]. intros q [= ->]. pose proof (of_word_word q) as W. change (word q) with (rule_to_string q) in W. congruence. }
  destruct D as [(q & -> & ->) | [-> Hn]].
  - case_bool_decide as Hq.
    + rewrite IH. split; [tauto |]. intros [H1 [[= E] | H2]]; [| tauto]. apply rule_to_string_inj in E. by subst.
    + specialize (IH (S index) (q :: seen) r). destruct (normalize_rules_from (S index) (q :: seen) vs) as [rules ws]. cbn [fst] in *.
      rewrite elem_of_cons, IH, not_elem_of_cons. destruct (decide (r = q)) as [-> | Hr]; [tauto |].
      split; [tauto |]. intros [H1 [[= E] | H2]]; [| tauto]. by apply rule_to_string_inj in E.
  - specialize (IH (S index) seen r). destruct (normalize_rules_from (S index) seen vs) as [rules ws]. cbn [fst] in *.
    rewrite IH. split; [tauto |]. intros [H1 [E | H2]]; [| tauto]. by destruct (Hn r).
Qed.

Lemma normalize_rules_nodup vs : forall index seen,
  NoDup (fst (normalize_rules_from index seen vs)).
Proof.
  induction vs as [| v vs IH]; intros index seen; simpl; [constructor |].
  destruct (match v with JStr s => of_word s | _ => None end) as [q |].
  - case_bool_decide; [apply IH |]. pose proof (normalize_rules_spec vs (S index) (q :: seen) q) as K.
    specialize (IH (S index) (q :: seen)). destruct (normalize_rules_from (S index) (q :: seen) vs) as [rules ws]. cbn [fst] in *.
    constructor; [| done]. rewrite K. set_solver.
  - specialize (IH (S index) seen). by destruct (normalize_rules_from (S index) seen vs).
Qed.

(** A rule counts after normalisation exactly when the list names it, once. *)
Theorem normalized_rules_exact vs :
  NoDup (fst (normalizeModerationRules (JArr vs)))
  /\ forall r, r ∈ fst (normalizeModerationRules (JArr vs)) <-> JStr (rule_to_string r) ∈ vs.
Proof.
  split; [apply normalize_rules_nodup |]. intros r. cbn [normalizeModerationRules]. rewrite normalize_rules_spec. set_solver.
Qed.

Definition login_key (e : ContributorBlacklistEntry) : string := toLowerCase (e_login e).

Lemma normalize_blacklist_wf vs : forall index kept seen es ws,
  normalize_blacklist_from index kept seen vs = (es, ws) -> kept <= MAX_ENTRIES ->
  kept + List.length es <= MAX_ENTRIES /\ NoDup (List.map login_key es)
  /\ (forall e, e ∈ es -> GITHUB_LOGIN (e_login e) = true /\ login_key e ∉ seen
        /\ exists raw, raw ∈ vs /\ raw_login raw = Some (e_login e)).
Proof.
  assert (W : forall n k, k <= n -> k + List.length (@nil ContributorBlacklistEntry) <= n) by (simpl; lia).
  induction vs as [| raw vs IH]; intros index kept seen es ws E K.
  { injection E as <- <-. split_and!; [by apply W | constructor |]. intros e He. by apply elem_of_nil in He. }
  cbn [normalize_blacklist_from] in E. destruct (Nat.leb_spec MAX_ENTRIES kept) as [L | L].
  { injection E as <- <-. split_and!; [by apply W | constructor |]. intros e He. by apply elem_of_nil in He. }
  assert (Drop : forall es' ws', normalize_blacklist_from (S index) kept seen vs = (es', ws') -> es = es' ->
    kept + List.length es <= MAX_ENTRIES /\ NoDup (List.map login_key es)
    /\ (forall e, e ∈ es -> GITHUB_LOGIN (e_login e) = true /\ login_key e ∉ seen
          /\ exists r, r ∈ raw :: vs /\ raw_login r = Some (e_login e))).
  { intros es' ws' E' ->. destruct (IH _ _ _ _ _ E' K) as (H1 & H2 & H3). split_and!; [done | done |].
    intros e He. destruct (H3 e He) as (A & B & r & Hr & F). split_and!; [done | done |]. exists r. split; [by right | done]. }
  destruct (raw_login raw) as [login |] eqn:R.
  - destruct (GITHUB_LOGIN login) eqn:G; cbn [negb] in E.
    + destruct (bool_decide_reflect (toLowerCase login ∈ seen)) as [S | S]; unfold set_has in E;
        [rewrite bool_decide_eq_true_2 in E by done; by apply (Drop es ws) |].
      rewrite bool_decide_eq_false_2 in E by done.
      destruct (normalize_blacklist_from (Datatypes.S index) (Datatypes.S kept) (toLowerCase login :: seen) vs) as [es' ws'] eqn:E'.
      injection E as <- <-. destruct (IH _ _ _ _ _ E' ltac:(lia)) as (H1 & H2 & H3).
      split_and!; [simpl in *; lia | |].
      * simpl. constructor; [| done]. intros H. apply list_elem_of_In, in_map_iff in H as (e & Ee & He%list_elem_of_In).
        destruct (H3 e He) as (_ & B & _). apply B. rewrite Ee. left.
      * intros e [-> | He]%elem_of_cons; [cbn; split_and!; [done | done | exists raw; split; [left | done]] |].
        destruct (H3 e He) as (A & B & r & Hr & F). split_and!; [done | set_solver | exists r; split; [by right | done]].
    + destruct (normalize_blacklist_from (S index) kept seen vs) as [es' ws'] eqn:E'. injection E as <- <-. by apply (Drop es' ws').
  - destruct (normalize_blacklist_from (S index) kept seen vs) as [es' ws'] eqn:E'. injection E as <- <-. by apply (Drop es' ws').
Qed.

(** Whatever the configuration holds, the normalised blacklist has at most 1000
    entries, no two for one login up to case, and every entry is a valid login
    some raw entry names. *)
Theorem normalized_blacklist_wf v :
  let es := fst (normalizeContributorBlacklist v) in
  List.length es <= MAX_ENTRIES /\ NoDup (List.map login_key es)
  /\ Forall (fun e => GITHUB_LOGIN (e_login e) = true) es.
Proof.
  cbv zeta. assert (W : List.length (@nil ContributorBlacklistEntry) <= MAX_ENTRIES) by (vm_compute; lia).
  destruct v as [| | | | | vs |]; try (split_and!; [exact W | constructor | constructor]). cbn [normalizeContributorBlacklist].
  destruct (normalize_blacklist_from 0 0 [] vs) as [es ws] eqn:E.
  destruct (normalize_blacklist_wf vs 0 0 [] es ws E ltac:(lia)) as (H1 & H2 & H3). split_and!; [done | done |].
  apply List.Forall_forall. intros e He. by apply H3, list_elem_of_In.
Qed.

(** ** The union of blacklists *)

Lemma merge_from_keys entries : forall seen k,
  existsb (fun e => String.eqb (login_key e) k) (merge_from seen entries)
  = negb (set_has seen k) && existsb (fun e => String.eqb (login_key e) k) entries.
Proof.
  induction entries as [| e entries IH]; intros seen k; simpl; [by rewrite andb_false_r |]. fold (login_key e).
  unfold set_has in *. destruct (bool_decide_reflect (login_key e ∈ seen)) as [H | H].
  - rewrite IH. destruct (String.eqb_spec (login_key e) k) as [<- | _]; [| done].
    by rewrite bool_decide_eq_true_2.
  - simpl. rewrite IH. destruct (String.eqb_spec (login_key e) k) as [<- | Hk]; simpl.
    + by rewrite bool_decide_eq_false_2.
    + f_equal. f_equal. apply bool_decide_ext. set_solver.
Qed.

Lemma blacklisted_by_login login l : login <> "" ->
  isAuthorBlacklisted (Some login) (Some l) None = existsb (fun e => String.eqb (login_key e) (toLowerCase login)) l.
Proof.
  intros Hn. unfold isAuthorBlacklisted, findBlacklistEntry.
  assert (T : toLowerCase <$> truthy (Some login) = Some (toLowerCase login)) by (by destruct login).
  rewrite T. cbn [default]. generalize (toLowerCase login). intros k.
  change (is_some (List.find (entry_matches (Some k) None) l) = existsb (fun e => String.eqb (login_key e) k) l).
  induction l as [| e l IH]; [done |]. cbn [List.find existsb].
  change (entry_matches (Some k) None e) with (String.eqb (login_key e) k). by destruct (String.eqb (login_key e) k).
Qed.

(** A login is blocked by the union of several blacklists exactly when some
    list blocks it, whatever the order, case or duplicates. *)
Theorem blacklist_union_exact login lists :
  login <> "" ->
  isAuthorBlacklisted (Some login) (Some (mergeContributorBlacklists lists)) None
  = existsb (fun l => isAuthorBlacklisted (Some login) (Some l) None) lists.
Proof.
  intros Hn. rewrite blacklisted_by_login by done. unfold mergeContributorBlacklists. rewrite merge_from_keys.
  change (negb (set_has [] (toLowerCase login))) with true. rewrite andb_true_l.
  induction lists as [| l lists IH]; [done |]. cbn [List.concat existsb]. rewrite existsb_app, IH.
  by rewrite blacklisted_by_login.
Qed.

(** But the union can lose the id that survives a rename: when the first
    list names the login without its id and a later one with it, the merged
    list no longer matches the renamed account the later list blocks. *)
Theorem blacklist_union_drops_id :
  exists global repo renamed id,
    isAuthorBlacklisted (Some renamed) (Some repo) (Some id) = true
    /\ isAuthorBlacklisted (Some renamed) (Some (mergeContributorBlacklists [global; repo])) (Some id) = false.
Proof.
  exists [mkEntry "mallory" None None None None], [mkEntry "mallory" (Some (nz 42)) None None None], "mallory2", (nz 42).
  vm_compute. auto.
Qed.

(** ** Escalation *)

Section Ladder.
Context (cfg : GlobalModerationConfig) (settings : ModerationContextSettings) (rule : ModerationRuleType) (author : string).

Notation apply_rule := (applyModerationEscalationForRule cfg settings rule author).

(** A violation already on the ledger. *)
Definition on_ledger (s : ModState) (targetKey : string) : bool :=
  hasModerationViolationForTarget (mod_ledger s) author (MODERATION_VIOLATION_EVENT_TYPE rule) targetKey.

Lemma replay_noop w targetKey now s : on_ledger s targetKey = true -> apply_rule w targetKey now s = s.
Proof.
  unfold on_ledger, applyModerationEscalationForRule, recordModerationViolation. intros ->. by destruct (negb _).
Qed.

Lemma applied_on_ledger w targetKey now s : w_record w = true -> counting cfg settings rule = true ->
  on_ledger (apply_rule w targetKey now s) targetKey = true.
Proof.
  intros Hw Hc. unfold applyModerationEscalationForRule, recordModerationViolation. rewrite Hc, Hw. cbn [negb].
  destruct (hasModerationViolationForTarget (mod_ledger s) author _ targetKey) eqn:E; cbn [default negb]; [exact E |].
  assert (L : forall b p, on_ledger (mkModState (mod_ledger s ++ [mkViolation (MODERATION_VIOLATION_EVENT_TYPE rule) author targetKey now])%list b p) targetKey = true).
  { intros b p. unfold on_ledger, hasModerationViolationForTarget. cbn [mod_ledger]. rewrite existsb_app. cbn.
    by rewrite !String.eqb_refl, orb_true_r. }
  repeat case_match; try discriminate; apply L.
Qed.

(** Escalation is idempotent: once an enforcement has been recorded, running
    it again for the same contributor, rule and pull request - a redelivered
    webhook, a retried job - records nothing, labels nothing and bans nobody. *)
Theorem escalation_idempotent w w' targetKey now now' s :
  w_record w = true ->
  apply_rule w' targetKey now' (apply_rule w targetKey now s) = apply_rule w targetKey now s.
Proof.
  intros Hw. destruct (counting cfg settings rule) eqn:Hc; [by apply replay_noop, applied_on_ledger |].
  unfold applyModerationEscalationForRule. by rewrite Hc.
Qed.

(** *** The ban *)

Hypothesis counts : counting cfg settings rule = true.
Hypothesis lifetime : mc_violationDecayDays cfg = None.
Hypothesis auto_ban : mc_autoBlacklistOnBan cfg = true.
Hypothesis named : author <> "".
Context (threshold : Z).
Hypothesis threshold_pos : (1 <= threshold)%Z.
Hypothesis threshold_is : mc_banThreshold cfg = nz threshold.

Definition all_land : ModWrites := mkModWrites true true.

(** The enforcements of a contributor, in order. *)
Definition enforce (targets : list (string * Z)) (s : ModState) : ModState :=
  List.fold_left (fun s t => apply_rule all_land (fst t) (snd t) s) targets s.

Definition blacklisted (s : ModState) : bool := isAuthorBlacklisted (Some author) (Some (mod_blacklist s)) None.

Lemma blacklisted_snoc s e : e_login e = author ->
  isAuthorBlacklisted (Some author) (Some (mod_blacklist s ++ [e])%list) None = true.
Proof. intros H. rewrite blacklisted_by_login by done. rewrite existsb_app. cbn. unfold login_key. by rewrite H, String.eqb_refl, orb_true_r. Qed.

Lemma rule_effective : rule ∈ effectiveRules cfg settings.
Proof. unfold counting in counts. apply andb_true_iff in counts as [_ H]. by apply bool_decide_eq_true in H. Qed.

Lemma total_snoc ledger targetKey now now' :
  total cfg settings author (ledger ++ [mkViolation (MODERATION_VIOLATION_EVENT_TYPE rule) author targetKey now])%list now'
  = S (total cfg settings author ledger now').
Proof.
  unfold total, countModerationViolationsForActor, since. rewrite lifetime. rewrite filter_snoc.
  assert (C : counted author (List.map MODERATION_VIOLATION_EVENT_TYPE (effectiveRules cfg settings)) None
                (mkViolation (MODERATION_VIOLATION_EVENT_TYPE rule) author targetKey now) = true).
  { unfold counted. cbn. rewrite String.eqb_refl, andb_true_r. cbn. apply bool_decide_eq_true. apply list_elem_of_In, in_map.
    apply list_elem_of_In, rule_effective. }
  cbn [fmap option_fmap option_map]. rewrite C, List.length_app. simpl. lia.
Qed.

(** One new enforcement: the count goes up by one, and the contributor is
    blacklisted afterwards if it was before or the threshold is reached. *)
Lemma new_violation targetKey now s : on_ledger s targetKey = false ->
  let s' := apply_rule all_land targetKey now s in
  mod_ledger s' = (mod_ledger s ++ [mkViolation (MODERATION_VIOLATION_EVENT_TYPE rule) author targetKey now])%list
  /\ blacklisted s' = blacklisted s || (threshold <=? Z.of_nat (S (total cfg settings author (mod_ledger s) 0)))%Z.
Proof.
  intros H. cbv zeta. unfold on_ledger in H. unfold applyModerationEscalationForRule, recordModerationViolation. rewrite counts, H.
  cbn [negb w_record all_land default id]. rewrite total_snoc, auto_ban, threshold_is.
  assert (T : total cfg settings author (mod_ledger s) now = total cfg settings author (mod_ledger s) 0)
    by (unfold total, since; by rewrite lifetime).
  rewrite T. generalize (total cfg settings author (mod_ledger s) 0). intros n.
  unfold moderationTierForViolationCount, nnat. rewrite nz_leb, nz_geb, (proj2 (Z.leb_gt (Z.of_nat (S n)) 0)) by lia.
  destruct (threshold <=? Z.of_nat (S n))%Z.
  - rewrite (bool_decide_eq_false_2 (tier_banned = tier_none)), (bool_decide_eq_true_2 (tier_banned = tier_banned)) by done.
    cbn [andb]. unfold ban. fold (blacklisted s). destruct (blacklisted s) eqn:B; cbn [w_blacklist all_land mod_ledger orb]; [by split |].
    split; [done |]. unfold blacklisted. cbn [mod_blacklist]. by apply blacklisted_snoc.
  - rewrite (bool_decide_eq_false_2 (tier_warning = tier_none)), (bool_decide_eq_false_2 (tier_warning = tier_banned)) by done.
    cbn [andb mod_ledger]. split; [done |]. by rewrite orb_false_r.
Qed.

Lemma enforce_ledger targets s : total cfg settings author (mod_ledger s) 0 = 0 ->
  (forall t, on_ledger s t = false) -> NoDup (List.map fst targets) ->
  total cfg settings author (mod_ledger (enforce targets s)) 0 = List.length targets
  /\ (forall t, on_ledger (enforce targets s) t = bool_decide (t ∈ List.map fst targets))
  /\ blacklisted (enforce targets s) = blacklisted s || (negb (Nat.eqb (List.length targets) 0) && (threshold <=? Z.of_nat (List.length targets))%Z).
Proof.
  intros T0 L0. induction targets as [| [k t] targets IH] using rev_ind; intros N.
  { split_and!; [done | intros t; by rewrite bool_decide_eq_false_2 by set_solver | by rewrite orb_false_r]. }
  rewrite List.map_app in N. apply NoDup_app in N as (N & D & _). destruct (IH N) as (A & B & C).
  assert (F : on_ledger (enforce targets s) k = false).
  { rewrite B. apply bool_decide_eq_false. intros Hk. apply (D k Hk). cbn. left. }
  unfold enforce in *. rewrite List.fold_left_app. cbn [List.fold_left fst snd].
  destruct (new_violation k t _ F) as [H1 H2]. split_and!.
  - rewrite H1, total_snoc, A, List.length_app. simpl. lia.
  - intros x. unfold on_ledger, hasModerationViolationForTarget in *. rewrite H1, existsb_app, B. cbn. rewrite !String.eqb_refl, orb_false_r. cbn.
    rewrite List.map_app. destruct (String.eqb_spec k x) as [-> | Hx]; cbn.
    + rewrite orb_true_r. symmetry. apply bool_decide_eq_true. set_solver.
    + rewrite orb_false_r. apply bool_decide_ext. set_solver.
  - rewrite H2, C, A, List.length_app. cbn [List.length]. replace (List.length targets + 1) with (S (List.length targets)) by lia. cbn [Nat.eqb negb andb].
    destruct (blacklisted s); [done |]. cbn [orb]. destruct (Nat.eqb (List.length targets) 0); cbn [negb andb orb]; [done |].
    destruct (Z.leb_spec threshold (Z.of_nat (List.length targets))), (Z.leb_spec threshold (Z.of_nat (S (List.length targets)))); try done; lia.
Qed.
End Ladder.

(** A contributor is banned exactly at the threshold: with the layer on for
    the rule, a lifetime tally and automatic bans, a contributor with no recorded
    violation who is not on the blacklist is on it after enforcements on distinct
    targets if and only if there were at least [threshold] of them. *)
Theorem ban_exactly_at_threshold cfg settings rule author threshold targets s :
  counting cfg settings rule = true -> mc_violationDecayDays cfg = None -> mc_autoBlacklistOnBan cfg = true ->
  author <> "" -> (1 <= threshold)%Z -> mc_banThreshold cfg = nz threshold ->
  total cfg settings author (mod_ledger s) 0 = 0 -> (forall t, on_ledger rule author s t = false) -> blacklisted author s = false ->
  NoDup (List.map fst targets) ->
  blacklisted author (enforce cfg settings rule author targets s) = (threshold <=? Z.of_nat (List.length targets))%Z.
Proof.
  intros H1 H2 H3 H4 H5 H6 H7 H8 H9 H10.
  destruct (enforce_ledger cfg settings rule author H1 H2 H3 H4 threshold H5 H6 targets s H7 H8 H10) as (_ & _ & ->).
  rewrite H9. cbn [orb]. destruct targets; [| done]. cbn. symmetry. apply Z.leb_gt. lia.
Qed.

(** ** Examples *)

Definition strict : GlobalModerationConfig := mkModerationConfig true ALL_MODERATION_RULE_TYPES "mod:warning" "mod:banned" (nz 3) None true.
Definition clean_state : ModState := mkModState [] [] [].

Lemma ban_exactly_at_threshold_witness :
  blacklisted "mallory" (enforce strict no_overrides mr_blacklist "mallory" [("a#1", 1%Z); ("a#2", 2%Z)] clean_state) = false
  /\ blacklisted "mallory" (enforce strict no_overrides mr_blacklist "mallory" [("a#1", 1%Z); ("a#2", 2%Z); ("b#1", 3%Z)] clean_state) = true.
Proof.
  split.
  - rewrite (ban_exactly_at_threshold strict no_overrides mr_blacklist "mallory" 3); try done; try lia.
    repeat constructor; set_solver.
  - rewrite (ban_exactly_at_threshold strict no_overrides mr_blacklist "mallory" 3); try done; try lia.
    repeat constructor; set_solver.
Defined.

Lemma escalation_idempotent_witness :
  let once := applyModerationEscalationForRule strict no_overrides mr_copycat "mallory" all_land "a#1" 1 clean_state in
  applyModerationEscalationForRule strict no_overrides mr_copycat "mallory" all_land "a#1" 9 once = once.
Proof. apply escalation_idempotent. reflexivity. Defined.

Lemma blacklist_union_exact_witness :
  isAuthorBlacklisted (Some "Mallory") (Some (mergeContributorBlacklists
    [[mkEntry "eve" None None None None]; [mkEntry "mallory" None None None None]])) None = true.
Proof. rewrite blacklist_union_exact; [reflexivity | discriminate]. Defined.
