(* ===== verification/ApprovalAccept.v ===== *)
(** * Accepting a staged action

    Models the accept half of [decidePendingAgentAction]
    ([services/agent-approval-queue.ts]): an action that waited in the approval
    queue is re-validated against what is true now, stage by stage, and either
    superseded or handed to the executor with the plan the precision breakers
    leave of it.  The decision row, its claim and the sweep are in
    [ApprovalQueue].

    What the procedure reads on the way (settings, the stored pull request, live
    GitHub answers, breaker flags, the linked-issue rule) is an [AcceptReads]; a
    read whose failure the code tolerates is an [option].

    Main results: the conditions under which a staged merge still reaches the
    executor, exactly; what the executor then merges is the commit that was
    staged; and the plan handed over is never staged again.  The accept-time
    exemption differs from the planner's for administrators. *)

From stdpp Require Import base list strings option gmap.
From Stdlib Require Import Ascii.
From S2P Require Import Prelude JsNumber JsString IteratePolicy Autonomy PrDisposition GateAdvisory AgentActions AgentPlan.
From S2P Require Import MergeTrain MergeFailure PrFreshness AgentExecutor ExecutorSafety Moderation.

Local Open Scope nat_scope.
Local Open Scope string_scope.
Local Open Scope js_scope.

(** ** Rows *)

Inductive AgentPendingActionStatus := ps_pending | ps_accepted | ps_rejected | ps_errored | ps_expired.

#[global] Instance AgentPendingActionStatus_eq_dec : EqDecision AgentPendingActionStatus.
Proof. solve_decision. Defined.

(** The time stamps of the decision are written and not read. *)
Record AgentPendingActionRecord := mkPending {
  pa_id : string;
  pa_repoFullName : string;
  pa_pullNumber : Z;
  pa_installationId : Z;
  pa_actionClass : AgentActionClass;
  pa_autonomyLevel : AutonomyLevel;
  pa_params : AgentPendingActionParams;
  pa_reason : option string;
  pa_status : AgentPendingActionStatus;
  pa_decidedBy : option string;
  pa_createdAt : string;
}.

(** ** What acceptance reads *)

Record AcceptSettings := mkAcceptSettings {
  as_autonomy : option AutonomyPolicy;
  as_agentPaused : option bool;
  as_agentDryRun : option bool;
  as_contributorBlacklist : option (list ContributorBlacklistEntry);
  as_closeOwnerAuthors : option bool;
  as_mergeMethod : option AutoMergeMethod;      (* autoMaintain?.mergeMethod *)
  as_labels : AgentDispositionLabelSettings;
  as_mergeTrainMode : option MergeTrainMode;
  as_contributorOpenPrCap : option num;
  as_autoCloseExemptLogins : option (list string);
  as_contributorCapCancelCi : option bool;
}.

Record AcceptPr := mkAcceptPr {
  ap_headSha : option string;
  ap_baseRef : option string;
  ap_authorLogin : option string;
  ap_authorGithubId : option num;
  ap_createdAt : option string;
  ap_linkedIssues : option (list Z);
  ap_changedFiles : option (list string);
}.

Record AcceptReads := mkAcceptReads {
  ar_pairedClose : option string;               (* latestCompletedAuditEventDetail *)
  ar_settings : AcceptSettings;
  ar_pr : option AcceptPr;
  ar_permissions : option (gmap string string);
  ar_protectedAuthors : option string;          (* the environment's extra automation accounts *)
  ar_hardRule : option LinkedIssueHardRule;     (* resolveLinkedIssueHardRule *)
  ar_ci : option CiState;                       (* None: the read was rejected *)
  ar_mergeState : option string;
  ar_review : option (option string);           (* None: the read was rejected *)
  ar_threadBlockers : option nat;
  ar_winnerState : option string;
  ar_holdOnly : bool;
  ar_closeHoldOnly : bool;
  ar_untrustworthy : list string;
  ar_authorIsAdmin : bool;                      (* isPerTenantAdmin *)
  ar_cancelCiDefault : bool;
  ar_globalPaused : bool;
  ar_instanceMode : option AgentActionMode;
}.

Definition REVIEW_DECISION_UNREADABLE : string := "__loopover_review_decision_unreadable__".

Definition isAutoCloseExempt (login : option string) (exemptLogins : option (list string)) : bool :=
  match truthy login with
  | None => false
  | Some l => existsb (fun entry => String.eqb (toLowerCase entry) (toLowerCase l)) (exemptLogins ?? [])
  end.

(** [repoFullName.includes("/") ? repoFullName.slice(0, indexOf("/")) : ""]. *)
Definition repo_owner (repoFullName : string) : string :=
  match split_on "/" repoFullName with
  | owner :: _ :: _ => owner
  | _ => ""
  end.

(** ** The stages of acceptance *)

(** [executionOutcome] and the audit detail of a superseded row. *)
Definition superseding : Type := option (string * string).

Section Accept.
Context (pending : AgentPendingActionRecord) (r : AcceptReads).

Definition params : AgentPendingActionParams := pa_params pending.
Definition settings : AcceptSettings := ar_settings r.
Definition class_is (c : AgentActionClass) : bool := bool_decide (pa_actionClass pending = c).
Definition kind_is (k : CloseKind) : bool := bool_decide (pp_closeKind params = Some k).
Definition class_name : string := class_to_string (pa_actionClass pending).

Definition stagedHead : option string := truthy (pp_expectedHeadSha params).
Definition liveHead : option string := pr ← ar_pr r; truthy (ap_headSha pr).

(** A label coupled to a close. *)
Definition stage_paired_close : superseding :=
  match pp_closeKind params with
  | Some k =>
      if class_is ac_label && bool_decide (pp_autonomyClass params = Some ac_close) && negb (is_some (ar_pairedClose r))
      then Some ("paired_close_not_completed", "superseded " ++ kind_to_string k
        ++ " label: its paired close has not completed — applying it would brand a PR that remains open")
      else None
  | None => None
  end.

Definition stage_head : superseding :=
  match stagedHead, liveHead with
  | Some staged, Some live =>
      if String.eqb staged live then None
      else Some ("head_moved", "superseded " ++ class_name ++ ": staged head " ++ js_take 12 staged
        ++ " no longer matches live head " ++ js_take 12 live ++ " (force-push after staging)")
  | _, _ => None
  end.

Definition isUnpinnedRatifyingAction : bool :=
  negb (is_some stagedHead)
  && ((class_is ac_approve && negb (is_true_flag (pp_dismissStaleApproval params))) || class_is ac_merge || class_is ac_close).

Definition stage_pin : superseding :=
  if isUnpinnedRatifyingAction
  then Some ("unpinned_legacy_action", "superseded " ++ class_name
    ++ ": staged with no reviewed-head pin, so freshness cannot be verified — re-stage from a fresh sweep")
  else None.

Definition stage_blacklist : superseding :=
  match ar_pr r with
  | Some pr =>
      if class_is ac_close && kind_is ck_blacklist
         && negb (is_some (findBlacklistEntry (ap_authorLogin pr) (as_contributorBlacklist settings) (ap_authorGithubId pr)))
      then Some ("no_longer_blacklisted", "superseded blacklist close: contributor is no longer on the blacklist") else None
  | None => None
  end.

(** The exemption as acceptance derives it. *)
Definition authorIsOwner (pr : AcceptPr) : bool :=
  match truthy (ap_authorLogin pr) with
  | Some login => String.eqb (toLowerCase login) (toLowerCase (repo_owner (pa_repoFullName pending)))
  | None => false
  end.
Definition authorIsAutomationBot (pr : AcceptPr) : bool := isProtectedAutomationAuthor (ap_authorLogin pr) (ar_protectedAuthors r).
Definition accept_closeEligible (pr : AcceptPr) : bool :=
  (negb (authorIsOwner pr) && negb (authorIsAutomationBot pr))
  || (authorIsOwner pr && is_true_flag (as_closeOwnerAuthors settings)).

Definition rule_violated : bool := match ar_hardRule r with Some hr => hr_violated hr | None => false end.

Definition stage_linked_issue_close : superseding :=
  match ar_pr r with
  | Some pr =>
      if class_is ac_close && kind_is ck_linked_issue_hard_rule
      then if negb (accept_closeEligible pr)
           then Some ("no_longer_close_eligible",
             "superseded linked-issue hard-rule close: the author is no longer close-eligible (owner/automation exemption now applies)")
           else if negb rule_violated
           then Some ("linked_issue_no_longer_violated",
             "superseded linked-issue hard-rule close: the linked issue is no longer ineligible")
           else None
      else None
  | None => None
  end.

(** The live disposition. *)
Definition heuristic_close_row : bool := class_is ac_close && kind_is ck_heuristic.
Definition isMergeableRecheck : bool :=
  heuristic_close_row && negb (bool_decide (pp_closeRequiresMergeableState params = Some false)).
Definition isThreadRecheck : bool := heuristic_close_row && is_true_flag (pp_closeRequiresThreadResolved params).
Definition shouldRecheckLiveDisposition : bool :=
  is_some liveHead && (class_is ac_merge || isMergeableRecheck || isThreadRecheck).
Definition shouldRecheckLiveDuplicateWinner : bool :=
  heuristic_close_row && is_true_flag (pp_closeRequiresDuplicateStillOpen params) && is_some (pp_duplicateWinnerPrNumber params).
Definition rechecks : bool := shouldRecheckLiveDisposition || shouldRecheckLiveDuplicateWinner.

Definition ciState : option CiState := if shouldRecheckLiveDisposition then ar_ci r else None.
Definition mergeableState : option string := if shouldRecheckLiveDisposition then ar_mergeState r else None.
Definition reviewFetchSucceeded : bool := is_some (ar_review r) && shouldRecheckLiveDisposition.
Definition reviewDecision : option string := if reviewFetchSucceeded then (v ← ar_review r; v) else None.
Definition threadsNowResolved : bool :=
  isThreadRecheck && match ar_threadBlockers r with Some n => Nat.eqb n 0 | None => false end.
Definition mergeableNowCleared : bool :=
  isMergeableRecheck && reviewFetchSucceeded && bool_decide (mergeableState = Some "clean")
  && negb (bool_decide (reviewDecision = Some "CHANGES_REQUESTED"))
  && negb (bool_decide (reviewDecision = Some REVIEW_DECISION_UNREADABLE)).

Definition stale_merge : option string :=
  match ciState with
  | Some ci_failed => Some "live CI is no longer passing (now: failed)"
  | Some ci_pending => Some "live CI is no longer passing (now: pending)"
  | Some ci_unverified => Some "live CI is no longer passing (now: unverified)"
  | _ =>
      if bool_decide (mergeableState = Some "dirty") then Some "the base branch now conflicts (mergeable_state: dirty)"
      else if bool_decide (reviewDecision = Some "CHANGES_REQUESTED") then Some "a reviewer has since requested changes"
      else None
  end.

Definition stale_close : option string :=
  if mergeableNowCleared then Some "the conflict that justified this close has since cleared"
  else if threadsNowResolved then Some "the review thread(s) that justified this close are now all resolved"
  else match pp_duplicateWinnerPrNumber params, ar_winnerState r with
       | Some winner, Some state =>
           if shouldRecheckLiveDuplicateWinner && negb (String.eqb state "open")
           then Some ("duplicate-cluster winner #" ++ num_to_string winner ++ " is no longer open") else None
       | _, _ => None
       end.

Definition stage_disposition : superseding :=
  if rechecks
  then match (if class_is ac_merge then stale_merge else stale_close) with
       | Some why => Some ("stale_disposition", "superseded " ++ class_name ++ ": " ++ why ++ " since staging")
       | None => None
       end
  else None.

(** The merge method is re-read where the disposition was. *)
Definition with_mergeMethod (p : AgentPendingActionParams) (m : AutoMergeMethod) : AgentPendingActionParams :=
  mkParams (pp_autonomyClass p) (pp_label p) (pp_labelOp p) (pp_comment p) (pp_reviewBody p) (Some m) (pp_assignee p)
    (pp_closeComment p) (pp_closeReasons p) (pp_closeKind p) (pp_closeRequiresCiState p) (pp_closeRequiresMergeableState p)
    (pp_closeRequiresThreadResolved p) (pp_closeRequiresDuplicateStillOpen p) (pp_duplicateWinnerPrNumber p)
    (pp_closeConcreteEvidence p) (pp_expectedHeadSha p) (pp_dismissStaleApproval p).

Definition liveParams : AgentPendingActionParams :=
  match as_mergeMethod settings with
  | Some m => if rechecks then with_mergeMethod params m else params
  | None => params
  end.

(** The action as accepted, and what the breakers leave of it. *)
Definition accepted_action : PlannedAgentAction := pendingActionToPlanned (pa_actionClass pending) liveParams (pa_reason pending).

Definition accept_plan : list PlannedAgentAction :=
  let plan := [accepted_action] in
  let plan := if ar_holdOnly r then downgradeMergeToHold plan true (as_labels settings) else plan in
  downgradeCloseToHold plan (ar_closeHoldOnly r) (as_labels settings) (ar_untrustworthy r).

Definition plan_merges : bool := existsb (is_class ac_merge) accept_plan.

Definition stage_linked_issue_merge : superseding :=
  match ar_pr r, ar_hardRule r with
  | Some pr, Some hr =>
      if plan_merges && accept_closeEligible pr && hr_violated hr
      then Some ("linked_issue_hard_rule", "superseded merge: linked-issue hard rule now violated — "
        ++ (hr_reason hr ?? "ineligible linked issue"))
      else None
  | _, _ => None
  end.

(** In the order of the code; the first that objects supersedes the row. *)
Definition accept_stages : list superseding :=
  [stage_paired_close; stage_head; stage_pin; stage_blacklist; stage_linked_issue_close; stage_disposition;
   stage_linked_issue_merge].

Definition superseded : superseding := List.fold_right (fun s rest => match s with Some x => Some x | None => rest end) None accept_stages.

(** ** What the executor is given *)

Definition cap_recheck : bool :=
  match ar_pr r with
  | Some pr =>
      plan_merges && is_some (as_contributorOpenPrCap settings) && is_some (truthy (ap_authorLogin pr))
      && negb (isAutoCloseExempt (ap_authorLogin pr) (as_autoCloseExemptLogins settings))
      && negb (authorIsOwner pr) && negb (ar_authorIsAdmin r) && negb (authorIsAutomationBot pr)
  | None => false
  end.

Definition accept_ctx : ExecCtx :=
  mkCtx (pa_installationId pending) (pa_repoFullName pending) (pa_pullNumber pending)
    (pr ← ar_pr r; ap_headSha pr) (pr ← ar_pr r; ap_baseRef pr) (as_autonomy settings) (ar_permissions r)
    (pr ← ar_pr r; ap_authorLogin pr) (as_contributorCapCancelCi settings ?? ar_cancelCiDefault r) cap_recheck
    (ls_manualReviewLabel (as_labels settings)) (as_mergeTrainMode settings) (pr ← ar_pr r; ap_createdAt pr)
    (pr ← ar_pr r; ap_linkedIssues pr) (pr ← ar_pr r; ap_changedFiles pr) false.

Definition accept_brakes : AgentActionModeInput :=
  mkModeInput (ar_globalPaused r) (as_agentPaused settings) (as_agentDryRun settings) (ar_instanceMode r).

(** The executor run of an accepted row: superseded rows run nothing. *)
Definition accept_run (date_parse : string -> num) (reads : nat -> LiveReads) (cooldown : Cooldown)
    : option (St * (GhError + list AgentActionOutcome)) :=
  match superseded with
  | Some _ => None
  | None => Some (executeAgentMaintenanceActions date_parse accept_ctx accept_brakes accept_plan reads cooldown)
  end.
End Accept.

(** ** What acceptance hands over *)

Lemma superseded_none pending r : superseded pending r = None <-> Forall (eq None) (accept_stages pending r).
Proof.
  unfold superseded. induction (accept_stages pending r) as [| s l IH]; simpl; [done |].
  rewrite List.Forall_cons_iff, <- IH. destruct s; intuition congruence.
Qed.

(** Neither a merge nor anything to be staged. *)
Definition quiet (a : PlannedAgentAction) : Prop := actionClass a <> ac_merge /\ requiresApproval a = false.

Lemma quiet_filter p l : Forall quiet l -> Forall quiet (List.filter p l).
Proof. apply List.incl_Forall, List.incl_filter. Qed.

Lemma hold_label_only planned ls auth approval why :
  Forall quiet planned -> approval = false ->
  Forall quiet (withManualReviewHoldLabel planned ls auth approval why).
Proof.
  intros H ->. unfold withManualReviewHoldLabel. case_match; [| done].
  case_match; [by apply quiet_filter |]. apply Forall_app. split; [by apply quiet_filter |]. by repeat constructor.
Qed.

(** The breakers leave of the accepted action either itself or no merge, and
    nothing that asks for approval. *)
Lemma accept_plan_cases pending r :
  (accept_plan pending r = [accepted_action pending r] /\ (pa_actionClass pending = ac_merge -> ar_holdOnly r = false))
  \/ (Forall quiet (accept_plan pending r)
      /\ (pa_actionClass pending = ac_merge -> ar_holdOnly r = true)).
Proof.
  unfold accept_plan. set (a := accepted_action pending r). set (ls := as_labels (settings r)).
  assert (A : actionClass a = pa_actionClass pending) by done. assert (R : requiresApproval a = false) by done.
  assert (H : forall plan, (plan = [a] \/ Forall quiet plan) ->
    downgradeCloseToHold plan (ar_closeHoldOnly r) ls (ar_untrustworthy r) = plan
    \/ (Forall quiet
          (downgradeCloseToHold plan (ar_closeHoldOnly r) ls (ar_untrustworthy r))
        /\ (plan = [a] -> pa_actionClass pending <> ac_merge))).
  { intros plan Hp. unfold downgradeCloseToHold. set (d := isDowngradableClose _ _).
    destruct (existsb d plan) eqn:E; cbn [negb]; [right | by left].
    assert (Hc : plan = [a] -> pa_actionClass pending <> ac_merge).
    { intros ->. cbn in E. rewrite orb_false_r in E. unfold d, isDowngradableClose in E. rewrite <- A.
      apply andb_true_iff in E as [E _]. apply andb_true_iff in E as [E _]. apply bool_decide_eq_true in E. congruence. }
    assert (Hf : Forall quiet plan).
    { destruct Hp as [-> | ?]; [| done]. constructor; [| constructor]. split; [rewrite A; by apply Hc | done]. }
    split; [| done]. apply hold_label_only; [by apply quiet_filter |].
    destruct (List.find d plan) as [b |] eqn:Fb; [| done]. apply List.find_some in Fb as [Hb _].
    rewrite List.Forall_forall in Hf. by apply Hf. }
  destruct (ar_holdOnly r) eqn:Eh; [| destruct (H [a] (or_introl eq_refl)) as [-> | [F C]]; [by left | right; split; [done |]]].
  - destruct (decide (pa_actionClass pending = ac_merge)) as [M | M].
    + right. split; [| done].
      assert (Ea : is_class ac_merge a = true) by (apply bool_decide_eq_true; congruence).
      assert (F : Forall quiet (downgradeMergeToHold [a] true ls)).
      { unfold downgradeMergeToHold. cbn [negb existsb List.filter List.find orb]. rewrite Ea. cbn [negb orb].
        apply quiet_filter, hold_label_only; [constructor | done]. }
      destruct (H _ (or_intror F)) as [-> | [F' _]]; done.
    + assert (Em : downgradeMergeToHold [a] true ls = [a]).
      { unfold downgradeMergeToHold. cbn [existsb negb orb]. assert (is_class ac_merge a = false) as ->
          by (apply bool_decide_eq_false; congruence). done. }
      rewrite Em. destruct (H [a] (or_introl eq_refl)) as [-> | [F C]]; [by left | right; split; [done | congruence]].
  - intros M. by destruct (C eq_refl).
Qed.

Lemma plan_merges_iff pending r :
  plan_merges pending r = true <-> pa_actionClass pending = ac_merge /\ ar_holdOnly r = false.
Proof.
  unfold plan_merges. destruct (accept_plan_cases pending r) as [[-> Hm] | [F Hm]].
  - cbn [existsb]. rewrite orb_false_r. unfold is_class. rewrite bool_decide_eq_true. cbn. intuition.
  - split; [| intros [M Hh]; rewrite (Hm M) in Hh; done].
    intros E. apply existsb_exists in E as (a & Ha & E). apply bool_decide_eq_true in E.
    rewrite List.Forall_forall in F. by destruct (F a Ha).
Qed.

(** Nothing known now speaks against the staged merge: the commit is the one
    staged, CI, mergeability and reviews read as they must (a read that failed
    does not object), the merge breaker is off, and the linked-issue rule does
    not hold against an author it applies to. *)
Definition merge_still_justified (pending : AgentPendingActionRecord) (r : AcceptReads) : Prop :=
  (exists sha, stagedHead pending = Some sha /\ forall live, liveHead r = Some live -> live = sha)
  /\ (is_some (liveHead r) = true ->
      (ar_ci r = None \/ ar_ci r = Some ci_passed) /\ ar_mergeState r <> Some "dirty"
      /\ ar_review r <> Some (Some "CHANGES_REQUESTED"))
  /\ ar_holdOnly r = false
  /\ (forall pr, ar_pr r = Some pr -> accept_closeEligible pending r pr = true -> rule_violated r = false).

Section MergeRow.
Context (pending : AgentPendingActionRecord) (r : AcceptReads).
Hypothesis is_merge : pa_actionClass pending = ac_merge.

Lemma merge_class c : class_is pending c = bool_decide (c = ac_merge).
Proof. unfold class_is. rewrite is_merge. by destruct c. Qed.

Lemma merge_stages_idle :
  stage_paired_close pending r = None /\ stage_blacklist pending r = None /\ stage_linked_issue_close pending r = None.
Proof.
  unfold stage_paired_close, stage_blacklist, stage_linked_issue_close. rewrite !merge_class. cbn.
  by destruct (pp_closeKind _), (ar_pr r).
Qed.

Lemma merge_head_iff :
  stage_head pending r = None /\ stage_pin pending = None
  <-> exists sha, stagedHead pending = Some sha /\ forall live, liveHead r = Some live -> live = sha.
Proof.
  unfold stage_head, stage_pin, isUnpinnedRatifyingAction. rewrite !merge_class. cbn [andb orb].
  change (bool_decide (ac_merge = ac_merge)) with true. rewrite orb_true_r, andb_true_r.
  destruct (stagedHead pending) as [sha |]; cbn [is_some negb]; [| by split; [intros [_ ?] | intros (? & ? & _)]].
  destruct (liveHead r) as [live |]; [destruct (String.eqb_spec sha live) as [-> | N] |].
  - split; [intros _; exists live; split; [done | by intros ? [= ->]] | done].
  - split; [by intros [? _] |]. intros (s & [= <-] & H). by destruct N; rewrite (H live eq_refl).
  - split; [intros _; exists sha; by split | done].
Qed.

Lemma merge_rechecks : rechecks pending r = is_some (liveHead r).
Proof.
  unfold rechecks, shouldRecheckLiveDisposition, shouldRecheckLiveDuplicateWinner, heuristic_close_row. rewrite !merge_class.
  cbn. by rewrite orb_false_r, andb_true_r.
Qed.

Lemma merge_disposition_iff :
  stage_disposition pending r = None <->
  (is_some (liveHead r) = true ->
   (ar_ci r = None \/ ar_ci r = Some ci_passed) /\ ar_mergeState r <> Some "dirty"
   /\ ar_review r <> Some (Some "CHANGES_REQUESTED")).
Proof.
  pose proof merge_rechecks as Rc. unfold stage_disposition. rewrite Rc, merge_class.
  assert (S : shouldRecheckLiveDisposition pending r = is_some (liveHead r)).
  { unfold shouldRecheckLiveDisposition. rewrite merge_class. cbn. by rewrite andb_true_r. }
  destruct (is_some (liveHead r)); [| by split].
  change (bool_decide (ac_merge = ac_merge)) with true. cbv iota.
  unfold stale_merge, ciState, mergeableState, reviewDecision, reviewFetchSucceeded. rewrite S.
  split.
  - intros H _. destruct (ar_ci r) as [[] |]; try done; repeat case_bool_decide; try done;
      (split_and!; [by auto | done |]); intros E; rewrite E in *; done.
  - intros H. destruct (H eq_refl) as (C & M & V).
    assert (bool_decide (ar_mergeState r = Some "dirty") = false) as -> by (by apply bool_decide_eq_false).
    assert (W : bool_decide ((if is_some (ar_review r) && true then v ← ar_review r; v else None) = Some "CHANGES_REQUESTED") = false).
    { apply bool_decide_eq_false. destruct (ar_review r) as [v |]; cbn; [| done]. intros ->. done. }
    rewrite W. by destruct C as [-> | ->].
Qed.

Lemma merge_rule_iff :
  ar_holdOnly r = false ->
  (stage_linked_issue_merge pending r = None <->
   forall pr, ar_pr r = Some pr -> accept_closeEligible pending r pr = true -> rule_violated r = false).
Proof.
  intros Hh. unfold stage_linked_issue_merge, rule_violated.
  rewrite (proj2 (plan_merges_iff pending r) (conj is_merge Hh)). cbn [andb].
  destruct (ar_pr r) as [pr |], (ar_hardRule r) as [hr |]; try (split; [by intros _ ? | done]).
  destruct (accept_closeEligible pending r pr) eqn:E, (hr_violated hr) eqn:V; cbn [andb]; [| by split | | by split].
  - split; [done | by intros H; specialize (H pr eq_refl E)].
  - split; [intros _ ? [= <-]; congruence | done].
Qed.
End MergeRow.

Lemma accepted_pin pending r : expectedHeadSha (accepted_action pending r) = pp_expectedHeadSha (pa_params pending).
Proof. unfold accepted_action, liveParams. by repeat case_match. Qed.

Lemma accepted_merge_iff pending r :
  pa_actionClass pending = ac_merge ->
  (superseded pending r = None /\ plan_merges pending r = true <-> merge_still_justified pending r).
Proof.
  intros M. rewrite superseded_none, plan_merges_iff. unfold accept_stages, merge_still_justified.
  rewrite !List.Forall_cons_iff, <- (merge_head_iff pending r M), <- (merge_disposition_iff pending r M).
  destruct (merge_stages_idle pending r M) as (-> & -> & ->).
  split.
  - intros [(_ & A & B & _ & _ & C & D & _) [_ Hh]]. rewrite <- (merge_rule_iff pending r M Hh). intuition congruence.
  - intros ([A B] & C & Hh & D). rewrite <- (merge_rule_iff pending r M Hh) in D. rewrite A, B, C, D. by split_and!.
Qed.


(** ** Examples *)

Definition staged_merge : AgentPendingActionRecord :=
  mkPending "row-1" "octo/repo" 7 1 ac_merge auto_with_approval (actionParams (Plan.the_merge green)) (Some "gate passed")
    ps_pending None "a".

Definition no_labels : AgentDispositionLabelSettings := mkLabelSettings l_undefined l_undefined l_undefined l_undefined l_undefined.

Definition some_settings : AcceptSettings :=
  mkAcceptSettings full_auto None None None None (Some mm_rebase) no_labels None None None None.

(** The stored pull request of [author], at head [sha], under [rule]. *)
Definition some_accept (author sha : string) (admin : bool) (rule : option LinkedIssueHardRule) : AcceptReads :=
  mkAcceptReads None some_settings (Some (mkAcceptPr (Some sha) (Some "main") (Some author) None None None None))
    (Some {["pull_requests" := "write"; "contents" := "write"]}) None rule (Some ci_passed) (Some "clean") (Some None) None None
    false false [] admin false false None.

Example force_push_supersedes :
  fst <$> superseded staged_merge (some_accept "octocat" "def456" false None) = Some "head_moved".
Proof. vm_compute. reflexivity. Qed.


Definition admin_input : AgentActionPlanInput :=
  mkPlanInput gc_success [] None full_auto (Some (mkAutoMaintain (nz 0) mm_squash)) None ["README.md"] [] None None None None None
    l_undefined None l_undefined l_undefined l_undefined l_undefined None false true false None ci_passed None None
    (Some (mkHardRule true None)) None l_undefined None l_undefined None l_undefined None None l_undefined None None None None
    None None None None None None None None (sample_pr []).

(** The planner exempts administrators from the linked-issue rule and plans the
    merge; accepting the same merge supersedes it, since acceptance derives the
    exemption without them. *)
Theorem accept_forgets_admins :
  i_authorIsAdmin admin_input = true /\ Plan.hard_rule_violated admin_input = true
  /\ Plan.the_merge admin_input ∈ Plan.planAgentMaintenanceActions admin_input
  /\ fst <$> superseded staged_merge (some_accept "admin" "abc123" true (i_linkedIssueHardRule admin_input))
     = Some "linked_issue_hard_rule".
Proof. vm_compute. split_and!; try reflexivity. set_solver. Qed.
