(* ===== verification/ApprovalQueue.v ===== *)
(** * The approval queue

    Models the life of a staged action: [stageForApproval] and
    [createPendingAgentActionIfAbsent] put a row into [agent_pending_actions],
    [decidePendingAgentAction] claims and decides it, and
    [sweepStaleApprovalQueue] with [planApprovalQueueMaintenance] reminds of and
    expires it ([services/agent-approval-queue.ts],
    [services/agent-approval-staleness.ts], the row operations of
    [db/repositories.ts]).

    Workers run concurrently on one table.  A [Proc] is a procedure between two
    of its database statements; [proc_step] runs it up to and including the
    next; [step] lets any process move, any new one start, and any one be killed
    where it stands.  What a step reads from outside is a [World].  The
    acceptance itself is [ApprovalAccept].  The rename of a repository, which
    rewrites the table, is not modelled; nor is the pruning of notification rows
    older than ninety days.

    Main results: whatever interleaves and whoever dies, a row is executed at
    most once, only after an accept and never after a reject; rows move along
    one state machine and a decided row is final; a row is reminded of on six
    days and then expires.  Not as documented: a superseded action can never be
    staged again, a re-opened row is not announced, and the sweep never reaches
    the rows beyond the newest five hundred. *)

From stdpp Require Import base list strings option gmap sorting.
From Stdlib Require Import Ascii QArith Qround.
From S2P Require Import Prelude JsNumber JsString IteratePolicy Autonomy PrDisposition AgentActions AgentPlan.
From S2P Require Import MergeTrain MergeFailure PrFreshness AgentExecutor ExecutorSafety Moderation ApprovalAccept.

Local Open Scope nat_scope.
Local Open Scope string_scope.
Local Open Scope js_scope.

(** ** The table *)

Notation Rows := (gmap string AgentPendingActionRecord).

Record Store := mkStore {
  rows : Rows;                      (* by primary key *)
  deliveries : list string;         (* dedup keys of the badge channel *)
}.

Definition with_status (row : AgentPendingActionRecord) (s : AgentPendingActionStatus) (by_ : option string) : AgentPendingActionRecord :=
  mkPending (pa_id row) (pa_repoFullName row) (pa_pullNumber row) (pa_installationId row) (pa_actionClass row)
    (pa_autonomyLevel row) (pa_params row) (pa_reason row) s by_ (pa_createdAt row).

Definition getPendingAgentAction (t : Rows) (id : string) : option AgentPendingActionRecord := t !! id.

(** [UPDATE ... WHERE id = ? AND status = 'pending'], and whether it changed a
    row. *)
Definition claimPendingAgentActionDecision (t : Rows) (id : string) (s : AgentPendingActionStatus) (by_ : string) : Rows * bool :=
  match t !! id with
  | Some row => if bool_decide (pa_status row = ps_pending) then (<[id := with_status row s (Some by_)]> t, true) else (t, false)
  | None => (t, false)
  end.

(** [UPDATE ... WHERE id = ?]. *)
Definition setPendingAgentActionStatus (t : Rows) (id : string) (s : AgentPendingActionStatus) (by_ : string) : Rows :=
  match t !! id with
  | Some row => <[id := with_status row s (Some by_)]> t
  | None => t
  end.

(** What [stageForApproval] stages. *)
Record StageInput := mkStage {
  si_repoFullName : string;
  si_pullNumber : Z;
  si_installationId : Z;
  si_actionClass : AgentActionClass;
  si_autonomyLevel : AutonomyLevel;
  si_params : AgentPendingActionParams;
  si_reason : string;
}.

Definition stage_input (ctx : ExecCtx) (action : PlannedAgentAction) : StageInput :=
  mkStage (x_repoFullName ctx) (x_pullNumber ctx) (x_installationId ctx) (actionClass action) (action_level ctx action)
    (actionParams action) (reason action).

Definition staged_repo (s : StageInput) : string := js_take 200 (si_repoFullName s).

Definition is_target (s : StageInput) (row : AgentPendingActionRecord) : bool :=
  String.eqb (pa_repoFullName row) (staged_repo s) && Z.eqb (pa_pullNumber row) (si_pullNumber s)
  && bool_decide (pa_actionClass row = si_actionClass s).

Definition find_target (t : Rows) (s : StageInput) : option AgentPendingActionRecord :=
  List.find (is_target s) (List.map snd (map_to_list t)).

Definition staged_row (s : StageInput) (id createdAt : string) : AgentPendingActionRecord :=
  mkPending id (staged_repo s) (si_pullNumber s) (si_installationId s) (si_actionClass s) (si_autonomyLevel s) (si_params s)
    (Some (si_reason s)) ps_pending None createdAt.

(** [INSERT ... ON CONFLICT (repo, pull, class) DO NOTHING]: [None] where it
    violates the primary key instead. *)
Definition insert_pending (t : Rows) (s : StageInput) (id createdAt : string) : option (Rows * bool) :=
  match find_target t s with
  | Some _ => Some (t, false)
  | None => match t !! id with
            | Some _ => None
            | None => Some (<[id := staged_row s id createdAt]> t, true)
            end
  end.

(** The re-opening [UPDATE ... WHERE id = ? AND status = 'expired']. *)
Definition reopen_pending (t : Rows) (s : StageInput) (id createdAt : string) : Rows * bool :=
  match t !! id with
  | Some row =>
      if bool_decide (pa_status row = ps_expired)
      then (<[id := mkPending (pa_id row) (pa_repoFullName row) (pa_pullNumber row) (si_installationId s) (pa_actionClass row)
                      (si_autonomyLevel s) (si_params s) (Some (si_reason s)) ps_pending None createdAt]> t, true)
      else (t, false)
  | None => (t, false)
  end.

(** [ORDER BY created_at DESC, id]. *)
Definition listed_before (a b : AgentPendingActionRecord) : Prop :=
  String.le (pa_createdAt b) (pa_createdAt a)
  /\ (String.le (pa_createdAt a) (pa_createdAt b) -> String.le (pa_id a) (pa_id b)).

#[global] Instance listed_before_dec : RelDecision listed_before.
Proof. unfold listed_before. intros a b. apply _. Defined.

Definition listPendingAgentActions (t : Rows) (limit : nat) : list AgentPendingActionRecord :=
  List.firstn limit
    (merge_sort listed_before (List.filter (fun row => bool_decide (pa_status row = ps_pending)) (List.map snd (map_to_list t)))).

(** [insertNotificationDeliveryIfAbsent] on the badge channel: was it created? *)
Definition insertNotificationDeliveryIfAbsent (keys : list string) (key : string) : list string * bool :=
  if set_has keys key then (keys, false) else ((keys ++ [key])%list, true).

(** ** Staleness *)

Definition APPROVAL_REMINDER_INTERVAL_MS : num := nz (24 * 60 * 60 * 1000).
Definition APPROVAL_EXPIRY_MS : num := nz (7 * 24 * 60 * 60 * 1000).

Inductive ApprovalQueueMaintenance := qm_none | qm_remind (bucket : num) | qm_expire.

Section Queue.
(** [Date.parse]. *)
Context (date_parse : string -> num).

Definition planApprovalQueueMaintenance (createdAt : string) (nowMs : num) : ApprovalQueueMaintenance :=
  let staged := date_parse createdAt in
  if negb (is_finite staged) then qm_none
  else
    let age := nsub nowMs staged in
    if ngeb age APPROVAL_EXPIRY_MS then qm_expire
    else
      let bucket := nfloor (ndiv age APPROVAL_REMINDER_INTERVAL_MS) in
      if ngeb bucket (nz 1) then qm_remind bucket else qm_none.

Definition target_name (repo : string) (pull : Z) (c : AgentActionClass) : string :=
  repo ++ "#" ++ num_to_string (nz pull) ++ ":" ++ class_to_string c.

Definition stage_key (s : StageInput) : string :=
  "agent.pending_action:" ++ target_name (si_repoFullName s) (si_pullNumber s) (si_actionClass s).

Definition reminder_key (row : AgentPendingActionRecord) (bucket : num) : string :=
  "agent.pending_action.reminder:" ++ target_name (pa_repoFullName row) (pa_pullNumber row) (pa_actionClass row)
  ++ ":" ++ num_to_string bucket.

(** ** Processes *)

Inductive ApprovalDecision := d_accept | d_reject.

Inductive DecisionStatus := ds_accepted | ds_errored | ds_rejected | ds_already_decided | ds_not_found.

Record ApprovalDecisionResult := mkResult {
  res_status : DecisionStatus;
  res_action : option AgentPendingActionRecord;
  res_executionOutcome : option string;
}.

Inductive QEvent :=
| ev_claimed (id : string) (s : AgentPendingActionStatus) (by_ : string)
| ev_executed (pending : AgentPendingActionRecord) (by_ : string) (calls : list Call)
| ev_audit (eventType actor outcome detail : string)
| ev_badge (key : string)
| ev_opened (id : string).

(** What a step may read: a fresh id, the clock, the reads of an acceptance and
    of the executor, and whether a best-effort write fails. *)
Record World := mkWorld {
  w_uuid : string;
  w_nowIso : string;
  w_accept : AcceptReads;
  w_reads : nat -> LiveReads;
  w_cooldown : Cooldown;
  w_fails : bool;
}.

(** A procedure between two of its statements. *)
Inductive Proc :=
| pr_decide (id : string) (d : ApprovalDecision) (by_ : string)
| pr_claim (pending : AgentPendingActionRecord) (d : ApprovalDecision) (by_ : string)
| pr_lost (pending : AgentPendingActionRecord)
| pr_accepted (pending : AgentPendingActionRecord) (by_ : string)
| pr_supersede (pending : AgentPendingActionRecord) (by_ outcome detail : string)
| pr_execute (pending : AgentPendingActionRecord) (by_ : string) (r : AcceptReads)
| pr_executed (pending : AgentPendingActionRecord) (by_ : string) (o : option OutcomeKind)
| pr_record (e : QEvent) (next : Proc)
| pr_result (res : ApprovalDecisionResult)
| pr_sweep (nowMs : num)
| pr_sweeping (nowMs : num) (rest : list AgentPendingActionRecord) (reminded expired : nat)
| pr_expired (row : AgentPendingActionRecord) (next : Proc)
| pr_swept (reminded expired : nat)
| pr_stage (s : StageInput)
| pr_conflict (s : StageInput)
| pr_reopen (s : StageInput) (existing : AgentPendingActionRecord)
| pr_notify (s : StageInput)
| pr_staged (created : bool).

Definition ends (st : Store) (p : Proc) : Store * option Proc * list QEvent := (st, Some p, []).
Definition with_rows (st : Store) (t : Rows) : Store := mkStore t (deliveries st).
Definition with_deliveries (st : Store) (ks : list string) : Store := mkStore (rows st) ks.

Definition decided (row : AgentPendingActionRecord) (s : AgentPendingActionStatus) (by_ : string) : AgentPendingActionRecord :=
  with_status row s (Some by_).

(** The final status, audit outcome and texts of an executed row. *)
Definition exec_outcome (o : option OutcomeKind) : string := match o with Some k => outcome_to_string k | None => "no_outcome" end.
Definition final_status (o : option OutcomeKind) : AgentPendingActionStatus :=
  match o with Some oc_error => ps_errored | _ => ps_accepted end.
Definition final_audit (o : option OutcomeKind) : string :=
  match o with
  | Some oc_dry_run => "completed" | Some oc_denied => "denied" | Some oc_queued => "queued" | Some oc_completed => "completed"
  | Some oc_error | None => "error"
  end.

(** One row of the sweep: the row, the maintenance it is due, the counters. *)
Definition sweep_row (w : World) (st : Store) (nowMs : num) (row : AgentPendingActionRecord)
    (rest : list AgentPendingActionRecord) (reminded expired : nat) : Store * option Proc * list QEvent :=
  match planApprovalQueueMaintenance (pa_createdAt row) nowMs with
  | qm_none => ends st (pr_sweeping nowMs rest reminded expired)
  | qm_remind bucket =>
      let key := reminder_key row bucket in
      let '(ks, created) := insertNotificationDeliveryIfAbsent (deliveries st) key in
      if w_fails w then ends st (pr_sweeping nowMs rest reminded expired)
      else if created then (with_deliveries st ks, Some (pr_sweeping nowMs rest (S reminded) expired), [ev_badge key])
      else ends st (pr_sweeping nowMs rest reminded expired)
  | qm_expire =>
      let '(t, claimed) := claimPendingAgentActionDecision (rows st) (pa_id row) ps_expired AGENT_ACTOR in
      if w_fails w then ends st (pr_sweeping nowMs rest reminded expired)
      else if claimed
      then (with_rows st t, Some (pr_expired row (pr_sweeping nowMs rest reminded (S expired))),
            [ev_claimed (pa_id row) ps_expired AGENT_ACTOR])
      else ends st (pr_sweeping nowMs rest reminded expired)
  end.

(** One statement of a process: [None] for the process where it throws. *)
Definition proc_step (w : World) (st : Store) (p : Proc) : Store * option Proc * list QEvent :=
  match p with
  | pr_decide id d by_ =>
      match getPendingAgentAction (rows st) id with
      | None => ends st (pr_result (mkResult ds_not_found None None))
      | Some pending =>
          if bool_decide (pa_status pending = ps_pending) then ends st (pr_claim pending d by_)
          else ends st (pr_result (mkResult ds_already_decided (Some pending) None))
      end
  | pr_claim pending d by_ =>
      let s := match d with d_accept => ps_accepted | d_reject => ps_rejected end in
      let '(t, won) := claimPendingAgentActionDecision (rows st) (pa_id pending) s by_ in
      if negb won then ends st (pr_lost pending)
      else
        (with_rows st t,
         Some (match d with
               | d_accept => pr_accepted pending by_
               | d_reject =>
                   pr_record (ev_audit "agent.pending_action.rejected" by_ "completed" ("rejected " ++ class_to_string (pa_actionClass pending)))
                     (pr_result (mkResult ds_rejected (Some (decided pending ps_rejected by_)) None))
               end),
         [ev_claimed (pa_id pending) s by_])
  | pr_lost pending =>
      ends st (pr_result (mkResult ds_already_decided
        (Some (match getPendingAgentAction (rows st) (pa_id pending) with Some c => c | None => pending end)) None))
  | pr_accepted pending by_ =>
      ends st (match superseded pending (w_accept w) with
               | Some (outcome, detail) => pr_supersede pending by_ outcome detail
               | None => pr_execute pending by_ (w_accept w)
               end)
  | pr_supersede pending by_ outcome detail =>
      ends (with_rows st (setPendingAgentActionStatus (rows st) (pa_id pending) ps_rejected by_))
        (pr_record (ev_audit "agent.pending_action.superseded" by_ "denied" detail)
           (pr_result (mkResult ds_rejected (Some (decided pending ps_rejected by_)) (Some outcome))))
  | pr_execute pending by_ r =>
      let '(s, result) := executeAgentMaintenanceActions date_parse (accept_ctx pending r) (accept_brakes r)
                            (accept_plan pending r) (w_reads w) (w_cooldown w) in
      (st, match result with
           | inl _ => None
           | inr outcomes => Some (pr_executed pending by_ (outcome <$> hd_error outcomes))
           end, [ev_executed pending by_ (calls_of s)])
  | pr_executed pending by_ o =>
      ends (with_rows st (setPendingAgentActionStatus (rows st) (pa_id pending) (final_status o) by_))
        (pr_record (ev_audit "agent.pending_action.accepted" by_ (final_audit o)
                      ("accepted " ++ class_to_string (pa_actionClass pending) ++ " → " ++ exec_outcome o))
           (pr_result (mkResult (match final_status o with ps_errored => ds_errored | _ => ds_accepted end)
                         (Some (decided pending (final_status o) by_)) (Some (exec_outcome o)))))
  | pr_record e next => if w_fails w then (st, None, []) else (st, Some next, [e])
  | pr_result _ | pr_swept _ _ | pr_staged _ => (st, None, [])
  | pr_sweep nowMs => ends st (pr_sweeping nowMs (listPendingAgentActions (rows st) 500) 0 0)
  | pr_sweeping nowMs [] reminded expired => ends st (pr_swept reminded expired)
  | pr_sweeping nowMs (row :: rest) reminded expired => sweep_row w st nowMs row rest reminded expired
  | pr_expired row next =>
      (st, Some next,
       if w_fails w then []
       else [ev_audit "agent.pending_action.expired" AGENT_ACTOR "denied"
               ("staged " ++ class_to_string (pa_actionClass row) ++ " expired unapproved after 7 days")])
  | pr_stage s =>
      match insert_pending (rows st) s (w_uuid w) (w_nowIso w) with
      | None => (st, None, [])
      | Some (t, true) => (with_rows st t, Some (pr_notify s), [ev_opened (w_uuid w)])
      | Some (_, false) => ends st (pr_conflict s)
      end
  | pr_conflict s =>
      match find_target (rows st) s with
      | None => (st, None, [])
      | Some existing =>
          ends st (if bool_decide (pa_status existing = ps_expired) then pr_reopen s existing else pr_staged false)
      end
  | pr_reopen s existing =>
      let '(t, reopened) := reopen_pending (rows st) s (pa_id existing) (w_nowIso w) in
      if reopened then (with_rows st t, Some (pr_notify s), [ev_opened (pa_id existing)]) else ends st (pr_staged false)
  | pr_notify s =>
      let '(ks, created) := insertNotificationDeliveryIfAbsent (deliveries st) (stage_key s) in
      if w_fails w then (st, None, [])
      else (with_deliveries st ks, Some (pr_staged true), if created then [ev_badge (stage_key s)] else [])
  end.

(** ** The system *)

Record Sys := mkSys { sys_store : Store; sys_procs : list Proc; sys_trace : list QEvent }.

Definition entry (p : Proc) : Prop :=
  match p with pr_decide _ _ _ | pr_sweep _ | pr_stage _ => True | _ => False end.

Inductive step : Sys -> Sys -> Prop :=
| step_start st ps tr p : entry p -> step (mkSys st ps tr) (mkSys st (ps ++ [p]) tr)
| step_run st ps p ps' tr w st' next evs :
    proc_step w st p = (st', next, evs) ->
    step (mkSys st (ps ++ p :: ps') tr) (mkSys st' (ps ++ option_list next ++ ps') (tr ++ evs))
| step_kill st ps p ps' tr : step (mkSys st (ps ++ p :: ps') tr) (mkSys st (ps ++ ps') tr).

Definition empty_sys : Sys := mkSys (mkStore ∅ []) [] [].
Definition reachable (s : Sys) : Prop := rtc step empty_sys s.
End Queue.

(** ** Reminders and expiry *)

Definition DAY : Z := 86400000.

Lemma floor_between x (q : Z) : nleb (nz q) x = true -> nltb x (nz (q + 1)) = true -> nfloor x = nz q.
Proof.
  destruct x as [| | | v]; try done. intros L U. apply nleb_fin in L. apply nltb_fin in U. cbn. f_equal.
  assert (q <= Qfloor v)%Z by (rewrite <- (Qfloor_Z q); by apply Qfloor_resp_le).
  assert (Qfloor v < q + 1)%Z; [| lia]. rewrite Zlt_Qlt. eapply Qle_lt_trans; [apply Qfloor_le | exact U].
Qed.

Lemma days_div (age : Z) : ndiv (nz age) APPROVAL_REMINDER_INTERVAL_MS = rnd (inject_Z age / inject_Z DAY).
Proof. reflexivity. Qed.

Lemma days_mono (a b : Z) : (a <= b)%Z ->
  nleb (ndiv (nz a) APPROVAL_REMINDER_INTERVAL_MS) (ndiv (nz b) APPROVAL_REMINDER_INTERVAL_MS) = true.
Proof.
  intros H. rewrite !days_div. apply rnd_mono. unfold Qdiv. apply Qmult_le_compat_r; [by rewrite <- Zle_Qle | done].
Qed.

(** The quotient rounds, but never across a whole day. *)
Lemma day_quotient (age q : Z) :
  (0 <= q <= 6)%Z -> (q * DAY <= age <= q * DAY + (DAY - 1))%Z -> nfloor (ndiv (nz age) APPROVAL_REMINDER_INTERVAL_MS) = nz q.
Proof.
  intros Hq [L U]. apply days_mono in L, U.
  assert (B : nleb (nz q) (ndiv (nz (q * DAY)) APPROVAL_REMINDER_INTERVAL_MS) = true
              /\ nltb (ndiv (nz (q * DAY + (DAY - 1))) APPROVAL_REMINDER_INTERVAL_MS) (nz (q + 1)) = true).
  { assert (q = 0 \/ q = 1 \/ q = 2 \/ q = 3 \/ q = 4 \/ q = 5 \/ q = 6)%Z as C by lia.
    destruct C as [-> | [-> | [-> | [-> | [-> | [-> | ->]]]]]]; split; vm_compute; reflexivity. }
  destruct B as [B1 B2]. apply floor_between; [exact (nleb_trans _ _ _ B1 L) | exact (nleb_nltb_trans _ _ _ U B2)].
Qed.

(** A pending row is due exactly by its age: nothing during the first day
    (or while its time stamp lies ahead), the reminder of day 1 to 6 during that
    day, expiry from the seventh day on; an unreadable time stamp is never due
    for anything. *)
Theorem maintenance_exact date_parse createdAt (staged now : Z) :
  date_parse createdAt = nz staged -> (0 <= staged <= 2 ^ 52)%Z -> (0 <= now <= 2 ^ 52)%Z ->
  let age := (now - staged)%Z in
  planApprovalQueueMaintenance date_parse createdAt (nz now)
  = if (7 * DAY <=? age)%Z then qm_expire else if (DAY <=? age)%Z then qm_remind (nz (age / DAY)) else qm_none.
Proof.
  intros E Hs Hn. cbv zeta. unfold planApprovalQueueMaintenance. rewrite E. cbn [is_finite nz negb].
  assert (A : nsub (nz now) (nz staged) = nz (now - staged)) by (apply nz_sub; lia). fold (nz staged). rewrite A.
  set (age := (now - staged)%Z). unfold APPROVAL_EXPIRY_MS. rewrite nz_geb.
  change (7 * 24 * 60 * 60 * 1000)%Z with (7 * DAY)%Z.
  destruct (Z.leb_spec (7 * DAY) age) as [H | H]; [done |].
  assert (Dp : DAY = 86400000%Z) by done.
  destruct (Z.leb_spec DAY age) as [H1 | H1].
  - pose proof (Z.div_mod age DAY ltac:(lia)) as M. pose proof (Z.mod_pos_bound age DAY ltac:(lia)) as B.
    assert (1 <= age / DAY <= 6)%Z by (split; [apply Z.div_le_lower_bound | apply Z.lt_succ_r, Z.div_lt_upper_bound]; lia).
    rewrite (day_quotient age (age / DAY)) by lia. rewrite nz_geb. by replace (1 <=? age / DAY)%Z with true by lia.
  - assert (F : nltb (ndiv (nz age) APPROVAL_REMINDER_INTERVAL_MS) (nz 1) = true).
    { eapply nleb_nltb_trans; [apply (days_mono age (DAY - 1)); lia | vm_compute; reflexivity]. }
    assert (ngeb (nfloor (ndiv (nz age) APPROVAL_REMINDER_INTERVAL_MS)) (nz 1) = false) as ->; [| done].
    rewrite days_div in *. destruct (rnd _) as [| | | v]; try done. cbn [nfloor]. rewrite nz_geb. apply Z.leb_gt.
    apply nltb_fin in F. rewrite Zlt_Qlt. eapply Qle_lt_trans; [apply Qfloor_le | exact F].
Qed.

(** ** What a step does to one row *)

(** The process has claimed row [id] and not yet run, respectively already run,
    the executor for it. *)
Fixpoint will_run (id : string) (p : Proc) : bool :=
  match p with
  | pr_accepted q _ | pr_supersede q _ _ _ | pr_execute q _ _ => String.eqb (pa_id q) id
  | pr_record _ next | pr_expired _ next => will_run id next
  | _ => false
  end.
Fixpoint has_run (id : string) (p : Proc) : bool :=
  match p with
  | pr_executed q _ _ => String.eqb (pa_id q) id
  | pr_record _ next | pr_expired _ next => has_run id next
  | _ => false
  end.

(** The executor ran for [id]; a maintainer's decision claimed it. *)
Definition executes (id : string) (e : QEvent) : bool := match e with ev_executed q _ _ => String.eqb (pa_id q) id | _ => false end.
Definition decides (id : string) (e : QEvent) : bool :=
  match e with ev_claimed i s _ => String.eqb i id && negb (bool_decide (s = ps_expired)) | _ => false end.

Definition count {A} (f : A -> bool) (l : list A) : nat := List.length (List.filter f l).

Lemma count_app {A} (f : A -> bool) l l' : count f (l ++ l') = count f l + count f l'.
Proof. unfold count. by rewrite List.filter_app, List.length_app. Qed.

Definition status_of (id : string) (st : Store) : option AgentPendingActionStatus := pa_status <$> rows st !! id.

(** Neither a process that holds a row nor an event about one is recorded under
    another. *)
Fixpoint plain (p : Proc) : bool :=
  match p with
  | pr_record e next => match e with ev_audit _ _ _ _ => plain next | _ => false end
  | pr_expired _ next => plain next
  | pr_accepted _ _ | pr_supersede _ _ _ _ | pr_execute _ _ _ | pr_executed _ _ _ => false
  | _ => true
  end.
Definition tame (p : Proc) : bool :=
  match p with
  | pr_record e next => plain p
  | pr_expired _ next => plain p
  | _ => true
  end.

Lemma plain_holds id p : plain p = true -> will_run id p = false /\ has_run id p = false.
Proof. induction p; simpl; try done. by destruct e. Qed.

(** What one statement can do to a row: its status, the processes about to run
    the executor for it ([h]) and those that did ([x]) before and after, then the
    runs and the decisions it logs. *)
Inductive moves : option AgentPendingActionStatus -> nat -> nat -> option AgentPendingActionStatus -> nat -> nat -> nat -> nat -> Prop :=
| mv_idle s h x h' x' : h' <= h -> x' <= x -> moves s h x s h' x' 0 0
| mv_accept : moves (Some ps_pending) 0 0 (Some ps_accepted) 1 0 0 1
| mv_reject : moves (Some ps_pending) 0 0 (Some ps_rejected) 0 0 0 1
| mv_expire : moves (Some ps_pending) 0 0 (Some ps_expired) 0 0 0 0
| mv_open s : s = None \/ s = Some ps_expired -> moves s 0 0 (Some ps_pending) 0 0 0 0
| mv_supersede s : moves s 1 0 ((fun _ => ps_rejected) <$> s) 0 0 0 0
| mv_execute s x' : x' <= 1 -> moves s 1 0 s 0 x' 1 0
| mv_finish s s' : s' = ps_accepted \/ s' = ps_errored -> moves s 0 1 ((fun _ => s') <$> s) 0 0 0 0.

Lemma claim_cases t id s by_ :
  claimPendingAgentActionDecision t id s by_ = (t, false)
  \/ exists row, t !! id = Some row /\ pa_status row = ps_pending
       /\ claimPendingAgentActionDecision t id s by_ = (<[id := with_status row s (Some by_)]> t, true).
Proof.
  unfold claimPendingAgentActionDecision. destruct (t !! id) as [row |] eqn:E; [| by left].
  case_bool_decide as H; [right; eauto | by left].
Qed.

Lemma status_insert id j row st : status_of id (with_rows st (<[j := row]> (rows st)))
  = if String.eqb j id then Some (pa_status row) else status_of id st.
Proof.
  unfold status_of, with_rows. cbn [rows]. destruct (String.eqb_spec j id) as [-> | N]; [by rewrite lookup_insert_eq | by rewrite lookup_insert_ne].
Qed.

Lemma status_set id j s by_ st : status_of id (with_rows st (setPendingAgentActionStatus (rows st) j s by_))
  = if String.eqb j id then (fun _ => s) <$> status_of id st else status_of id st.
Proof.
  unfold setPendingAgentActionStatus. destruct (rows st !! j) as [row |] eqn:E.
  - rewrite status_insert. destruct (String.eqb_spec j id) as [-> | N]; [| done]. unfold status_of. by rewrite E.
  - destruct (String.eqb_spec j id) as [-> | N]; [| by destruct st]. unfold status_of, with_rows. cbn [rows]. by rewrite E.
Qed.

Section Moves.
Context (date_parse : string -> num) (id : string).

Notation here p := (Nat.b2n (will_run id p)) (only parsing).
Notation after p := (Nat.b2n (has_run id p)) (only parsing).
Notation in_next next f := (count (f id) (option_list next)) (only parsing).

Definition moved (st : Store) (p : Proc) (out : Store * option Proc * list QEvent) : Prop :=
  let '(st', next, evs) := out in
  moves (status_of id st) (here p) (after p) (status_of id st') (in_next next will_run) (in_next next has_run)
    (count (executes id) evs) (count (decides id) evs)
  /\ forall p', next = Some p' -> tame p' = true.

Lemma moved_plain st p p' : plain p' = true -> moved st p (ends st p').
Proof.
  intros H. destruct (plain_holds id p' H) as [A B]. split; [cbn; rewrite A, B; constructor; cbn; lia |].
  intros ? [= <-]. by destruct p'.
Qed.

Lemma moved_gone st p : moved st p (st, None, []).
Proof. split; [constructor; cbn; lia | done]. Qed.

Lemma moved_sweep w st nowMs row rest a b :
  moved st (pr_sweeping nowMs (row :: rest) a b) (sweep_row date_parse w st nowMs row rest a b).
Proof.
  unfold sweep_row. destruct (planApprovalQueueMaintenance _ _ _) as [| bucket |]; [by apply moved_plain | |].
  - unfold insertNotificationDeliveryIfAbsent. destruct (set_has _ _); [destruct (w_fails w); by apply moved_plain |].
    destruct (w_fails w); [by apply moved_plain |]. split; [by constructor | by intros ? [= <-]].
  - destruct (claim_cases (rows st) (pa_id row) ps_expired AGENT_ACTOR) as [-> | (r0 & E & P & ->)];
      (destruct (w_fails w); [by apply moved_plain |]); [by apply moved_plain |].
    split; [| by intros ? [= <-]]. rewrite status_insert. cbn. rewrite andb_false_r. cbn.
    destruct (String.eqb_spec (pa_id row) id) as [<- | N]; [| by constructor].
    unfold status_of. rewrite E. cbn. rewrite P. constructor.
Qed.

Lemma moved_open st s j t next : plain next = true -> tame next = true ->
  moves (status_of id st) 0 0 (status_of id (with_rows st t)) 0 0 0 0 ->
  moved st (pr_stage s) (with_rows st t, Some next, [ev_opened j]).
Proof.
  intros P T M. destruct (plain_holds id next P) as [A B]. split; [cbn; rewrite A, B; exact M | by intros ? [= <-]].
Qed.

Lemma opened_moves st j row : rows st !! j = None \/ status_of j st = Some ps_expired -> pa_status row = ps_pending ->
  moves (status_of id st) 0 0 (status_of id (with_rows st (<[j := row]> (rows st)))) 0 0 0 0.
Proof.
  intros H P. rewrite status_insert, P. destruct (String.eqb_spec j id) as [-> | N]; [| by constructor].
  constructor. destruct H as [H | H]; [left | by right]. unfold status_of. by rewrite H.
Qed.

Lemma moved_stage w st s : moved st (pr_stage s) (proc_step date_parse w st (pr_stage s)).
Proof.
  cbn [proc_step]. unfold insert_pending. destruct (find_target _ s); [by apply moved_plain |].
  destruct (rows st !! w_uuid w) eqn:E; [apply moved_gone |].
  apply moved_open; [done | done |]. apply opened_moves; [by left | done].
Qed.

Lemma moved_reopen w st s q : moved st (pr_reopen s q) (proc_step date_parse w st (pr_reopen s q)).
Proof.
  cbn [proc_step]. unfold reopen_pending. destruct (rows st !! pa_id q) as [row |] eqn:E; [| by apply moved_plain].
  case_bool_decide as H; [| by apply moved_plain].
  apply (moved_open st s); [done | done |]. apply opened_moves; [right | done]. unfold status_of. rewrite E. cbn. by rewrite H.
Qed.

Lemma moved_claim w st q d by_ : moved st (pr_claim q d by_) (proc_step date_parse w st (pr_claim q d by_)).
Proof.
  cbn [proc_step]. destruct (claim_cases (rows st) (pa_id q) (match d with d_accept => ps_accepted | d_reject => ps_rejected end) by_)
    as [-> | (row & E & P & ->)]; [by apply moved_plain |].
  cbn [negb]. split; [| intros ? [= <-]; by destruct d]. rewrite status_insert.
  assert (S : status_of (pa_id q) st = Some ps_pending) by (unfold status_of; rewrite E; cbn; by rewrite P).
  destruct d; cbn; destruct (String.eqb_spec (pa_id q) id) as [<- | N]; cbn; try rewrite S; by constructor.
Qed.

Lemma moved_held w st p : tame p = true ->
  match p with pr_accepted _ _ | pr_supersede _ _ _ _ | pr_execute _ _ _ | pr_executed _ _ _ => True | _ => False end ->
  moved st p (proc_step date_parse w st p).
Proof.
  intros T. destruct p; try done; intros _; cbn [proc_step].
  - destruct (superseded _ _) as [[o d] |]; (split; [apply mv_idle; unfold count; cbn; destruct (String.eqb (pa_id pending) id); cbn; lia | by intros ? [= <-]]).
  - split; [| by intros ? [= <-]]. rewrite status_set. cbn. destruct (String.eqb_spec (pa_id pending) id); by constructor.
  - destruct (executeAgentMaintenanceActions _ _ _ _ _ _) as [s [e | outs]]; (split; [| by intros ? [= <-]]);
      cbn; destruct (String.eqb (pa_id pending) id); cbn; constructor; lia.
  - split; [| by intros ? [= <-]]. rewrite status_set. cbn. destruct (String.eqb_spec (pa_id pending) id); constructor; try done.
    destruct o as [[] |]; auto.
Qed.

(** Every statement of every process moves row [id] along [moves]. *)
Lemma step_moves w st p : tame p = true -> moved st p (proc_step date_parse w st p).
Proof.
  intros T. destruct p; try (by apply moved_held); try apply moved_gone; cbn [proc_step].
  - destruct (getPendingAgentAction _ _); [| by apply moved_plain]. case_bool_decide; by apply moved_plain.
  - apply (moved_claim w).
  - by apply moved_plain.
  - destruct (w_fails w); [apply moved_gone |]. cbn in T. destruct e; try done.
    destruct (plain_holds id p T) as [A B]. split; [cbn; rewrite A, B; by constructor |]. intros ? [= <-]. by destruct p.
  - by apply moved_plain.
  - destruct rest; [by apply moved_plain | apply moved_sweep].
  - cbn in T. destruct (plain_holds id p T) as [A B].
    split; [destruct (w_fails w); cbn; rewrite A, B; by constructor |]. intros ? [= <-]. by destruct p.
  - apply (moved_stage w).
  - destruct (find_target _ _); [| apply moved_gone]. case_bool_decide; by apply moved_plain.
  - apply (moved_reopen w).
  - unfold insertNotificationDeliveryIfAbsent. destruct (set_has _ _); (destruct (w_fails w); [apply moved_gone |]);
      (split; [by constructor | by intros ? [= <-]]).
Qed.
End Moves.

(** ** The invariant of a row *)

Definition settled (s : option AgentPendingActionStatus) : Prop :=
  s = Some ps_accepted \/ s = Some ps_rejected \/ s = Some ps_errored.

(** Of a row in status [s] with [h] processes about to run the executor, [x]
    that ran it, [e] runs and [v] decisions so far. *)
Record row_ok (s : option AgentPendingActionStatus) (h x e v : nat) : Prop := {
  ok_once : e + h <= v;
  ok_decided : v <= 1;
  ok_holder : h + x <= 1;
  ok_ran : x <= e;
  ok_settled : 0 < v -> settled s;
  ok_held : 0 < h + x -> s = Some ps_accepted;
}.

Lemma row_ok_moves s h x s' h' x' e' v' h0 x0 e v :
  moves s h x s' h' x' e' v' -> row_ok s (h0 + h) (x0 + x) e v -> row_ok s' (h0 + h') (x0 + x') (e + e') (v + v').
Proof.
  assert (NP : ~ settled (Some ps_pending)) by (by intros [| []]).
  intros M [K1 K2 K3 K4 K5 K6]. destruct M as [s h x h' x' Hh Hx | | | | s Hs | s | s x' Hx | s s' Hs].
  - split; try lia; [intros ?; apply K5; lia | intros ?; apply K6; lia].
  - assert (v = 0) by (destruct v; [done | destruct NP; apply K5; lia]). split; try lia; intros _; [by left | done].
  - assert (v = 0) by (destruct v; [done | destruct NP; apply K5; lia]). split; try lia; intros _; by right; left.
  - assert (v = 0) by (destruct v; [done | destruct NP; apply K5; lia]). split; lia.
  - assert (v = 0). { destruct v; [done |]. destruct (K5 ltac:(lia)) as [E | [E | E]]; rewrite E in Hs; by destruct Hs. }
    split; lia.
  - rewrite K6 by lia. split; try lia. intros _. by right; left.
  - rewrite K6 in * by lia. split; try lia; intros _; [by left | done].
  - rewrite K6 by lia. split; try lia. intros _. destruct Hs as [-> | ->]; [by left | by right; right].
Qed.

Section Invariant.
Context (date_parse : string -> num).

Definition sys_row_ok (id : string) (s : Sys) : Prop :=
  row_ok (status_of id (sys_store s)) (count (will_run id) (sys_procs s)) (count (has_run id) (sys_procs s))
    (count (executes id) (sys_trace s)) (count (decides id) (sys_trace s)).

Definition sys_ok (s : Sys) : Prop := Forall (fun p => tame p = true) (sys_procs s) /\ forall id, sys_row_ok id s.

Lemma count_middle {A} (f : A -> bool) l m l' : count f (l ++ m ++ l')%list = count f (l ++ l')%list + count f m.
Proof. rewrite !count_app. lia. Qed.

Lemma count_at {A} (f : A -> bool) l x l' : count f (l ++ x :: l')%list = count f (l ++ l')%list + Nat.b2n (f x).
Proof. pose proof (count_middle f l [x] l') as H. cbn [app] in H. rewrite H. f_equal. unfold count. cbn. by destruct (f x). Qed.

Lemma entry_plain p : entry p -> plain p = true /\ tame p = true.
Proof. by destruct p. Qed.

Lemma row_ok_step id s s' : Forall (fun p => tame p = true) (sys_procs s) -> sys_row_ok id s -> step date_parse s s' -> sys_row_ok id s'.
Proof.
  unfold sys_row_ok. intros T I St.
  destruct St as [st ps tr p Hp | st ps p ps' tr w st' next evs E | st ps p ps' tr]; cbn [sys_store sys_procs sys_trace] in *.
  - destruct (plain_holds id p (proj1 (entry_plain p Hp))) as [A B]. rewrite !(count_app _ ps). unfold count at 2 4. cbn.
    by rewrite A, B, !Nat.add_0_r.
  - apply Forall_app in T as [_ T]. apply List.Forall_cons_iff in T as [Tp _].
    pose proof (step_moves date_parse id w st p Tp) as M. rewrite E in M. destruct M as [M _].
    rewrite !count_middle, (count_app _ tr), (count_app _ tr). rewrite !count_at in I. exact (row_ok_moves _ _ _ _ _ _ _ _ _ _ _ _ M I).
  - rewrite !count_at in I. destruct I as [K1 K2 K3 K4 K5 K6]. split; try lia; [done | intros ?; apply K6; lia].
Qed.

Lemma tame_step s s' : Forall (fun p => tame p = true) (sys_procs s) -> step date_parse s s' ->
  Forall (fun p => tame p = true) (sys_procs s').
Proof.
  intros T St. destruct St as [st ps tr p Hp | st ps p ps' tr w st' next evs E | st ps p ps' tr]; cbn [sys_procs] in *.
  - apply Forall_app. split; [done |]. repeat constructor. by apply entry_plain.
  - apply Forall_app in T as [T1 T]. apply List.Forall_cons_iff in T as [Tp T2]. rewrite !Forall_app. split_and!; [done | | done].
    pose proof (step_moves date_parse "" w st p Tp) as M. rewrite E in M.
    destruct next as [p' |]; constructor; [by apply (proj2 M) | constructor].
  - apply Forall_app in T as [T1 T]. apply List.Forall_cons_iff in T as [_ T2]. by apply Forall_app.
Qed.

Lemma sys_ok_step s s' : sys_ok s -> step date_parse s s' -> sys_ok s'.
Proof. intros [T I] St. split; [by apply (tame_step s) | intros id; by apply (row_ok_step id s)]. Qed.

Lemma sys_ok_steps s s' : sys_ok s -> rtc (step date_parse) s s' -> sys_ok s'.
Proof. intros H R. induction R as [| x y z S R IH]; [done |]. apply IH. by apply (sys_ok_step x). Qed.

Lemma sys_ok_empty : sys_ok empty_sys.
Proof. split; [constructor |]. intros id. split; cbn; lia. Qed.
End Invariant.

(** ** Consent *)

Definition accepted_by (tr : list QEvent) (q : AgentPendingActionRecord) (by_ : string) : Prop :=
  ev_claimed (pa_id q) ps_accepted by_ ∈ tr.

(** A process that holds a row was let in by the maintainer it acts for. *)
Definition consents (tr : list QEvent) (p : Proc) : Prop :=
  match p with
  | pr_accepted q by_ | pr_supersede q by_ _ _ | pr_execute q by_ _ | pr_executed q by_ _ => accepted_by tr q by_
  | _ => True
  end.

Definition runs_consent (tr : list QEvent) : Prop := forall q by_ calls, ev_executed q by_ calls ∈ tr -> accepted_by tr q by_.

Section Consent.
Context (date_parse : string -> num).

Lemma plain_consents tr p : plain p = true -> consents tr p.
Proof. by destruct p. Qed.

Lemma consents_app tr evs p : consents tr p -> consents (tr ++ evs) p.
Proof. destruct p; try done; cbn; unfold accepted_by; intros H; apply elem_of_app; by left. Qed.

Definition is_run (e : QEvent) : bool := match e with ev_executed _ _ _ => true | _ => false end.

(** The step ends holding no row and logs no run. *)
Definition uneventful (out : Store * option Proc * list QEvent) : bool :=
  let '(_, next, evs) := out in forallb plain (option_list next) && forallb (fun e => negb (is_run e)) evs.

Lemma uneventful_consents tr st' next evs : runs_consent tr -> uneventful (st', next, evs) = true ->
  (forall p, next = Some p -> consents (tr ++ evs) p) /\ runs_consent (tr ++ evs).
Proof.
  intros R U. apply andb_true_iff in U as [P N]. split.
  - intros p ->. apply plain_consents. cbn in P. by rewrite andb_true_r in P.
  - intros q b c H. apply elem_of_app in H as [H | H]; [apply elem_of_app; left; by apply (R q b c) |].
    rewrite forallb_forall in N. by specialize (N _ (proj1 (list_elem_of_In _ _) H)).
Qed.

Lemma sweep_uneventful w st nowMs row rest a b : uneventful (sweep_row date_parse w st nowMs row rest a b) = true.
Proof.
  unfold sweep_row, insertNotificationDeliveryIfAbsent. destruct (planApprovalQueueMaintenance _ _ _); [done | |].
  - by destruct (set_has _ _), (w_fails w).
  - destruct (claim_cases (rows st) (pa_id row) ps_expired AGENT_ACTOR) as [-> | (? & _ & _ & ->)]; by destruct (w_fails w).
Qed.

Lemma uneventful_step w st p : tame p = true ->
  match p with pr_claim _ _ _ | pr_accepted _ _ | pr_execute _ _ _ => False | _ => True end ->
  uneventful (proc_step date_parse w st p) = true.
Proof.
  intros T Hp. destruct p; try done; cbn [proc_step].
  - destruct (getPendingAgentAction _ _); [| done]. by case_bool_decide.
  - cbn in T. destruct e; try done. destruct (w_fails w); [done |]. cbn. by rewrite T.
  - destruct rest; [done | apply sweep_uneventful].
  - cbn in T. destruct (w_fails w); cbn; by rewrite T.
  - unfold insert_pending. by destruct (find_target _ _), (rows st !! w_uuid w).
  - destruct (find_target _ _); [| done]. by case_bool_decide.
  - unfold reopen_pending. destruct (rows st !! _); [| done]. by case_bool_decide.
  - unfold insertNotificationDeliveryIfAbsent. by destruct (set_has _ _), (w_fails w).
Qed.

Lemma consent_step w st p tr st' next evs :
  tame p = true -> consents tr p -> runs_consent tr -> proc_step date_parse w st p = (st', next, evs) ->
  (forall p', next = Some p' -> consents (tr ++ evs) p') /\ runs_consent (tr ++ evs).
Proof.
  intros T C R E.
  assert (U : match p with pr_claim _ _ _ | pr_accepted _ _ | pr_execute _ _ _ => False | _ => True end ->
              (forall p', next = Some p' -> consents (tr ++ evs) p') /\ runs_consent (tr ++ evs)).
  { intros Hp. apply (uneventful_consents tr st' next evs R). rewrite <- E. by apply uneventful_step. }
  destruct p; try (by apply U); clear U; cbn [proc_step] in E.
  - destruct (claimPendingAgentActionDecision _ _ _ _) as [t []]; cbn in E; injection E as <- <- <-.
    + split; [| intros q b c H; apply elem_of_app in H as [H | H];
        [apply elem_of_app; left; by apply (R q b c) | by apply list_elem_of_singleton in H]].
      intros p' [= <-]. destruct d; [| done]. cbn. unfold accepted_by. apply elem_of_app. right. by apply list_elem_of_singleton.
    + by apply (uneventful_consents tr st).
  - injection E as <- <- <-. rewrite app_nil_r. split; [| done]. intros p' [= <-]. by destruct (superseded _ _) as [[] |].
  - destruct (executeAgentMaintenanceActions _ _ _ _ _ _) as [s res]. injection E as <- <- <-.
    assert (A : accepted_by (tr ++ [ev_executed pending by_ (calls_of s)]) pending by_) by (apply elem_of_app; by left).
    split; [intros p' Hp; destruct res; [done | by injection Hp as <-] |].
    intros q b c H. apply elem_of_app in H as [H | H]; [apply elem_of_app; left; by apply (R q b c) |].
    apply list_elem_of_singleton in H. by injection H as -> -> ->.
Qed.

Definition sys_consent (s : Sys) : Prop :=
  Forall (fun p => tame p = true /\ consents (sys_trace s) p) (sys_procs s) /\ runs_consent (sys_trace s).

Lemma sys_consent_step s s' : sys_consent s -> step date_parse s s' -> sys_consent s'.
Proof.
  intros [F R] St. assert (T : Forall (fun p => tame p = true) (sys_procs s')).
  { apply (tame_step date_parse s); [| done]. eapply List.Forall_impl; [| exact F]. by intros ? [? _]. }
  assert (N : Forall (consents (sys_trace s')) (sys_procs s') /\ runs_consent (sys_trace s')).
  { destruct St as [st ps tr p Hp | st ps p ps' tr w st' next evs E | st ps p ps' tr]; cbn [sys_procs sys_trace] in *.
    - split; [| done]. apply Forall_app. split; [eapply List.Forall_impl; [| exact F]; by intros ? [_ ?] |].
      repeat constructor. by apply plain_consents, entry_plain.
    - apply Forall_app in F as [F1 F]. apply List.Forall_cons_iff in F as [[Tp Cp] F2].
      destruct (consent_step w st p tr st' next evs Tp Cp R E) as [N R']. split; [| done]. rewrite !Forall_app.
      split_and!; [| destruct next as [p' |]; constructor; [by apply N | constructor] |];
        (eapply List.Forall_impl; [| eassumption]; intros ? [_ ?]; by apply consents_app).
    - split; [| done]. apply Forall_app in F as [F1 F]. apply List.Forall_cons_iff in F as [_ F2].
      apply Forall_app. split; (eapply List.Forall_impl; [| eassumption]; by intros ? [_ ?]). }
  split; [| apply N]. destruct N as [N _]. rewrite List.Forall_forall in *. intros p Hp. split; [by apply T | by apply N].
Qed.

Lemma reachable_inv s : reachable date_parse s -> sys_ok s /\ sys_consent s.
Proof.
  intros R. assert (H : sys_ok empty_sys /\ sys_consent empty_sys).
  { split; [apply sys_ok_empty |]. split; [constructor | intros ? ? ? H; by apply elem_of_nil in H]. }
  unfold reachable in R. revert H. induction R as [| x y z S R IH]; [done |]. intros [A B]. apply IH.
  split; [by apply (sys_ok_step date_parse x) | by apply (sys_consent_step x)].
Qed.
End Consent.

(** ** At most once *)

Lemma count_ge {A} (f : A -> bool) l x : x ∈ l -> f x = true -> 1 <= count f l.
Proof.
  intros H E. apply list_elem_of_split in H as (l1 & l2 & ->). rewrite count_at, E. cbn. lia.
Qed.

Lemma count_two {A} (f : A -> bool) l x y : x ∈ l -> y ∈ l -> x <> y -> f x = true -> f y = true -> 2 <= count f l.
Proof.
  intros Hx Hy N Ex Ey. apply list_elem_of_split in Hx as (l1 & l2 & ->). rewrite count_at, Ex. cbn.
  assert (1 <= count f (l1 ++ l2)); [| lia]. apply (count_ge f _ y); [| done]. set_solver.
Qed.

(** C11: whatever decisions, sweeps and stagings run concurrently, and wherever
    a worker is killed, the executor runs at most once for a row, only on behalf
    of the maintainer whose accept won the claim, and never for a row whose
    reject did. *)
Theorem executes_at_most_once date_parse s id :
  reachable date_parse s ->
  count (executes id) (sys_trace s) <= 1
  /\ (forall q by_ calls, ev_executed q by_ calls ∈ sys_trace s -> ev_claimed (pa_id q) ps_accepted by_ ∈ sys_trace s)
  /\ (forall by_, ev_claimed id ps_rejected by_ ∈ sys_trace s -> count (executes id) (sys_trace s) = 0).
Proof.
  intros R. destruct (reachable_inv date_parse s R) as [[_ I] [_ C]]. destruct (I id) as [K1 K2 _ _ _ _].
  split_and!; [lia | exact C |]. intros by_ Hr.
  destruct (count (executes id) (sys_trace s)) as [| n] eqn:E; [done |]. exfalso.
  assert (exists q b c, ev_executed q b c ∈ sys_trace s /\ pa_id q = id) as (q & b & c & Hq & Eq).
  { unfold count in E. destruct (List.filter (executes id) (sys_trace s)) as [| e l] eqn:F; [done |].
    assert (He : In e (List.filter (executes id) (sys_trace s))) by (rewrite F; by left).
    apply List.filter_In in He as [He Hx]. destruct e; try done. exists pending, by_0, calls.
    split; [by apply list_elem_of_In | by apply String.eqb_eq]. }
  apply C in Hq. unfold accepted_by in Hq. rewrite Eq in Hq.
  assert (2 <= count (decides id) (sys_trace s)); [| lia].
  apply (count_two _ _ _ _ Hr Hq); [done | cbn; by rewrite String.eqb_refl | cbn; by rewrite String.eqb_refl].
Qed.

(** The life of a row. *)
Definition may_become (s s' : AgentPendingActionStatus) : bool :=
  match s, s' with
  | ps_pending, (ps_pending | ps_accepted | ps_rejected | ps_expired) => true
  | ps_expired, (ps_expired | ps_pending) => true
  | ps_accepted, (ps_accepted | ps_rejected | ps_errored) => true
  | ps_rejected, ps_rejected | ps_errored, ps_errored => true
  | _, _ => false
  end.

Lemma status_step date_parse s s' id a :
  sys_ok s -> step date_parse s s' -> status_of id (sys_store s) = Some a ->
  exists b, status_of id (sys_store s') = Some b /\ may_become a b = true.
Proof.
  intros [T I] St H. specialize (I id). assert (Same : may_become a a = true) by (by destruct a).
  destruct St as [st ps tr p Hp | st ps p ps' tr w st' next evs E | st ps p ps' tr]; unfold sys_row_ok in *;
    cbn [sys_store sys_procs sys_trace] in *; [by exists a | | by exists a].
  apply Forall_app in T as [_ T]. apply List.Forall_cons_iff in T as [Tp _].
  pose proof (step_moves date_parse id w st p Tp) as M. rewrite E in M. destruct M as [M _].
  destruct I as [_ _ _ _ _ K]. rewrite !count_at in K. rewrite H in M, K.
  remember (Some a) as sa eqn:Ea. remember (Nat.b2n (will_run id p)) as h eqn:Eh. remember (Nat.b2n (has_run id p)) as x eqn:Ex.
  destruct M as [s0 h x h' x' _ _ | | | | s0 Hs | s0 | s0 x' _ | s0 s1 Hs];
    try (injection Ea as <-; by eexists); subst.
  - by exists a.
  - destruct Hs as [? | [= ->]]; [done |]. by exists ps_pending.
  - injection (K ltac:(lia)) as ->. by exists ps_rejected.
  - by exists a.
  - injection (K ltac:(lia)) as ->. exists s1. split; [done |]. by destruct Hs as [-> | ->].
Qed.

(** C23: in every run a row, once staged, stays, and its status moves only
    along the machine: a pending row is accepted, rejected or expired; an expired
    one can be opened again; an accepted one is closed as accepted, superseded or
    errored; a rejected or errored row is final. *)
Theorem row_state_machine date_parse s s' id row :
  reachable date_parse s -> step date_parse s s' -> rows (sys_store s) !! id = Some row ->
  exists row', rows (sys_store s') !! id = Some row' /\ may_become (pa_status row) (pa_status row') = true.
Proof.
  intros R St H. destruct (reachable_inv date_parse s R) as [I _].
  destruct (status_step date_parse s s' id (pa_status row) I St) as (b & Hb & M).
  - unfold status_of. by rewrite H.
  - unfold status_of in Hb. destruct (rows (sys_store s') !! id) as [row' |]; [| done]. injection Hb as <-. by exists row'.
Qed.

(** ** One row per target *)

Definition same_target (a b : AgentPendingActionRecord) : Prop :=
  pa_repoFullName a = pa_repoFullName b /\ pa_pullNumber a = pa_pullNumber b /\ pa_actionClass a = pa_actionClass b.

Definition one_per_target (t : Rows) : Prop :=
  forall i j a b, t !! i = Some a -> t !! j = Some b -> same_target a b -> i = j.

(** What a statement does to the table: nothing, an update that keeps the
    target, or the row of a target that had none. *)
Inductive table_change (t : Rows) : Rows -> Prop :=
| tc_same : table_change t t
| tc_update j a b : t !! j = Some a -> same_target a b -> table_change t (<[j := b]> t)
| tc_new s j c : find_target t s = None -> t !! j = None -> table_change t (<[j := staged_row s j c]> t).

Lemma change_claim t id s by_ : table_change t (fst (claimPendingAgentActionDecision t id s by_)).
Proof. destruct (claim_cases t id s by_) as [-> | (row & E & _ & ->)]; [constructor | by apply (tc_update t id row)]. Qed.

Lemma change_set t id s by_ : table_change t (setPendingAgentActionStatus t id s by_).
Proof.
  unfold setPendingAgentActionStatus. destruct (t !! id) as [row |] eqn:E; [by apply (tc_update t id row) | constructor].
Qed.

Lemma proc_table date_parse w st p : table_change (rows st) (rows (fst (fst (proc_step date_parse w st p)))).
Proof.
  assert (Id : table_change (rows st) (rows st)) by constructor.
  destruct p; cbn [proc_step]; try exact Id.
  - destruct (getPendingAgentAction _ _); [| exact Id]. by case_bool_decide.
  - pose proof (change_claim (rows st) (pa_id pending) (match d with d_accept => ps_accepted | d_reject => ps_rejected end) by_) as C.
    destruct (claimPendingAgentActionDecision _ _ _ _) as [t []]; [exact C | exact Id].
  - apply change_set.
  - by destruct (executeAgentMaintenanceActions _ _ _ _ _ _) as [s res].
  - apply change_set.
  - by destruct (w_fails w).
  - destruct rest as [| row rest]; [exact Id |]. unfold sweep_row. destruct (planApprovalQueueMaintenance _ _ _); [exact Id | |].
    + unfold insertNotificationDeliveryIfAbsent. by destruct (set_has _ _), (w_fails w).
    + pose proof (change_claim (rows st) (pa_id row) ps_expired AGENT_ACTOR) as C.
      destruct (claimPendingAgentActionDecision _ _ _ _) as [t []]; destruct (w_fails w); done.
  - unfold insert_pending. destruct (find_target _ _) eqn:F; [exact Id |]. destruct (rows st !! w_uuid w) eqn:E; [exact Id |].
    by apply tc_new.
  - destruct (find_target _ _); [| exact Id]. by case_bool_decide.
  - unfold reopen_pending. destruct (rows st !! _) as [row |] eqn:E; [| exact Id]. case_bool_decide; [| exact Id].
    by apply (tc_update _ _ row).
  - unfold insertNotificationDeliveryIfAbsent. by destruct (set_has _ _), (w_fails w).
Qed.

Lemma same_target_sym a b : same_target a b -> same_target b a.
Proof. unfold same_target. intuition congruence. Qed.

Lemma same_target_trans a b c : same_target a b -> same_target b c -> same_target a c.
Proof. unfold same_target. intuition congruence. Qed.

Lemma is_target_same s a b : is_target s a = true -> (is_target s b = true <-> same_target a b).
Proof.
  unfold is_target, same_target. rewrite !andb_true_iff, !String.eqb_eq, !Z.eqb_eq, !bool_decide_eq_true. intuition congruence.
Qed.

Lemma find_target_spec t s :
  match find_target t s with
  | Some row => exists i, t !! i = Some row /\ is_target s row = true
  | None => forall i row, t !! i = Some row -> is_target s row = false
  end.
Proof.
  unfold find_target. destruct (List.find _ _) as [row |] eqn:F.
  - apply List.find_some in F as [Hin Ht]. apply List.in_map_iff in Hin as ([i row'] & <- & Hin).
    exists i. split; [by apply elem_of_map_to_list, list_elem_of_In | done].
  - intros i row Hi. apply (List.find_none _ _ F). apply List.in_map_iff. exists (i, row). split; [done |].
    by apply list_elem_of_In, elem_of_map_to_list.
Qed.

Lemma staged_target s j c : is_target s (staged_row s j c) = true.
Proof. unfold is_target. cbn. rewrite String.eqb_refl, Z.eqb_refl. by rewrite bool_decide_true. Qed.

Lemma change_one_per_target t t' : table_change t t' -> one_per_target t -> one_per_target t'.
Proof.
  intros C U. destruct C as [| j a b Hj S | s j c F Hj]; [done | |].
  - intros i k x y Hi Hk Hs. rewrite lookup_insert_Some in Hi, Hk.
    destruct Hi as [[<- <-] | [Ni Hi]], Hk as [[<- <-] | [Nk Hk]]; [done | | | by apply (U i k x y)].
    + apply (U j k a y); [done | done | by apply (same_target_trans _ b)].
    + apply (U i j x a); [done | done | apply (same_target_trans _ b); [done | by apply same_target_sym]].
  - pose proof (find_target_spec t s) as N. rewrite F in N.
    intros i k x y Hi Hk Hs. rewrite lookup_insert_Some in Hi, Hk.
    assert (T : forall z, same_target (staged_row s j c) z -> is_target s z = true)
      by (intros z; by apply is_target_same, staged_target).
    destruct Hi as [[<- <-] | [Ni Hi]], Hk as [[<- <-] | [Nk Hk]]; [done | | | by apply (U i k x y)].
    + apply N in Hk. by rewrite T in Hk.
    + apply N in Hi. apply same_target_sym in Hs. by rewrite T in Hi.
Qed.

Lemma change_keeps t t' id row : table_change t t' -> t !! id = Some row -> exists row', t' !! id = Some row' /\ same_target row row'.
Proof.
  intros C H. destruct C as [| j a b Hj S | s j c F Hj]; [by exists row | |].
  - destruct (decide (j = id)) as [-> | N]; [exists b; rewrite lookup_insert_eq; split; [done | congruence] |].
    exists row. by rewrite lookup_insert_ne.
  - exists row. rewrite lookup_insert_ne by congruence. done.
Qed.

Lemma step_table date_parse s s' : step date_parse s s' -> table_change (rows (sys_store s)) (rows (sys_store s')).
Proof.
  intros St. destruct St as [| st ps p ps' tr w st' next evs E |]; cbn [sys_store]; try constructor.
  pose proof (proc_table date_parse w st p) as C. by rewrite E in C.
Qed.

Lemma run_table date_parse s s' id row :
  rtc (step date_parse) s s' -> rows (sys_store s) !! id = Some row ->
  exists row', rows (sys_store s') !! id = Some row' /\ same_target row row'.
Proof.
  intros R. revert row. induction R as [| x y z S R IH]; intros row H; [by exists row |].
  destruct (change_keeps _ _ id row (step_table _ _ _ S) H) as (r1 & H1 & S1).
  destruct (IH r1 H1) as (r2 & H2 & S2). exists r2. split; [done | by apply (same_target_trans _ r1)].
Qed.

Lemma reachable_one_per_target date_parse s : reachable date_parse s -> one_per_target (rows (sys_store s)).
Proof.
  intros R. assert (H : one_per_target (rows (sys_store empty_sys))) by (intros i j a b H; change ((∅ : Rows) !! i = Some a) in H; by rewrite lookup_empty in H).
  unfold reachable in R. revert H. induction R as [| x y z S R IH]; [done |]. intros H. apply IH.
  by apply (change_one_per_target _ _ (step_table _ _ _ S)).
Qed.

Lemma final_status_stays date_parse s s' id a :
  sys_ok s -> rtc (step date_parse) s s' -> (a = ps_rejected \/ a = ps_errored) ->
  status_of id (sys_store s) = Some a -> status_of id (sys_store s') = Some a.
Proof.
  intros I R Ha. revert I. induction R as [| x y z S R IH]; intros I H; [done |].
  apply IH; [by apply (sys_ok_step date_parse x) |].
  destruct (status_step date_parse x y id a I S H) as (b & Hb & M). rewrite Hb. destruct Ha as [-> | ->]; by destruct b.
Qed.

(** An action whose row was rejected, superseded or failed once can never be
    staged again for that pull request: the row keeps its place, every later
    staging of the same action finds it, changes nothing and tells nobody.  The
    code sends a superseded action back to be staged by a fresh sweep. *)
Theorem superseded_never_restaged date_parse s s' id row input :
  reachable date_parse s -> rows (sys_store s) !! id = Some row -> pa_status row = ps_rejected \/ pa_status row = ps_errored ->
  is_target input row = true -> rtc (step date_parse) s s' ->
  forall w, proc_step date_parse w (sys_store s') (pr_stage input) = ends (sys_store s') (pr_conflict input)
    /\ proc_step date_parse w (sys_store s') (pr_conflict input) = ends (sys_store s') (pr_staged false).
Proof.
  intros R Hr Hs Ht Run w. destruct (reachable_inv date_parse s R) as [I _].
  assert (R' : reachable date_parse s') by (unfold reachable in *; by transitivity s).
  destruct (run_table date_parse s s' id row Run Hr) as (row' & Hr' & Same).
  assert (Hs' : pa_status row' = pa_status row).
  { pose proof (final_status_stays date_parse s s' id (pa_status row) I Run Hs) as F. unfold status_of in F.
    rewrite Hr, Hr' in F. cbn in F. by injection (F eq_refl). }
  pose proof (find_target_spec (rows (sys_store s')) input) as F.
  assert (Ht' : is_target input row' = true) by (by apply (is_target_same input row)).
  destruct (find_target (rows (sys_store s')) input) as [found |] eqn:E; [| by rewrite (F id row' Hr') in Ht'].
  destruct F as (i & Hi & Hf).
  assert (i = id) as ->.
  { apply (reachable_one_per_target date_parse s' R' i id found row' Hi Hr'). by apply (is_target_same input found row' Hf). }
  assert (found = row') as -> by congruence. cbn [proc_step]. unfold insert_pending. rewrite E.
  split; [done |]. rewrite bool_decide_false; [done |]. rewrite Hs'. by destruct Hs as [-> | ->].
Qed.

(** ** Announcements *)

Definition badge (e : QEvent) : option string := match e with ev_badge k => Some k | _ => None end.
Definition badges (tr : list QEvent) : list string := omap badge tr.

Definition announced (s : Sys) : Prop := deliveries (sys_store s) = badges (sys_trace s) /\ NoDup (badges (sys_trace s)).

Lemma delivery_cases keys k :
  insertNotificationDeliveryIfAbsent keys k = (keys, false)
  \/ ((k ∉ keys) /\ insertNotificationDeliveryIfAbsent keys k = ((keys ++ [k])%list, true)).
Proof.
  unfold insertNotificationDeliveryIfAbsent. destruct (set_has keys k) eqn:E; [by left | right].
  split; [| done]. intros H. apply set_has_elem in H. congruence.
Qed.

(** A statement sends no badge, or one whose key is not in the table yet. *)
Definition sends (st : Store) (out : Store * option Proc * list QEvent) : Prop :=
  let '(st', _, evs) := out in
  (deliveries st' = deliveries st /\ badges evs = [])
  \/ exists k, (k ∉ deliveries st) /\ deliveries st' = (deliveries st ++ [k])%list /\ badges evs = [k].

Lemma sweep_sends date_parse w st nowMs row rest a b : sends st (sweep_row date_parse w st nowMs row rest a b).
Proof.
  unfold sweep_row. destruct (planApprovalQueueMaintenance _ _ _) as [| bucket |]; [by left | |].
  - destruct (delivery_cases (deliveries st) (reminder_key row bucket)) as [-> | [N ->]]; destruct (w_fails w); try by left.
    right. by exists (reminder_key row bucket).
  - destruct (claimPendingAgentActionDecision _ _ _ _) as [t []]; destruct (w_fails w); by left.
Qed.

Lemma proc_sends date_parse w st p : tame p = true -> sends st (proc_step date_parse w st p).
Proof.
  intros T. destruct p; cbn [proc_step]; try (by left); try (unfold ends, sends; repeat case_match; simplify_eq/=; by left).
  - cbn in T. destruct e; try done. destruct (w_fails w); by left.
  - destruct rest; [by left | apply sweep_sends].
  - destruct (delivery_cases (deliveries st) (stage_key s)) as [-> | [N ->]]; destruct (w_fails w); try by left.
    right. by exists (stage_key s).
Qed.

Lemma announced_step date_parse s s' :
  Forall (fun p => tame p = true) (sys_procs s) -> announced s -> step date_parse s s' -> announced s'.
Proof.
  intros T [E N] St. destruct St as [| st ps p ps' tr w st' next evs S |]; [done | | done]. cbn in T.
  apply Forall_app in T as [_ T]. apply List.Forall_cons_iff in T as [Tp _].
  pose proof (proc_sends date_parse w st p Tp) as B. rewrite S in B. unfold announced in *. cbn [sys_store sys_trace] in *.
  assert (A : badges (tr ++ evs) = (badges tr ++ badges evs)%list) by apply omap_app. rewrite A. destruct B as [[-> ->] | (k & Nk & -> & ->)]; [by rewrite app_nil_r |].
  rewrite E in *. split; [done |]. apply NoDup_app. split_and!; [done | | apply NoDup_singleton]. set_solver.
Qed.

(** No announcement is ever repeated: in any run each badge key - one for
    the staging of an action on a pull request, one for each day it waited - is
    sent at most once. *)
Theorem announced_once date_parse s : reachable date_parse s -> NoDup (badges (sys_trace s)).
Proof.
  intros R. assert (H : sys_ok empty_sys /\ announced empty_sys) by (split; [apply sys_ok_empty | split; [done | constructor]]).
  unfold reachable in R. revert H. induction R as [s | x y z S R IH]; intros [A B]; [apply B |]. apply IH.
  split; [by apply (sys_ok_step date_parse x) | by apply (announced_step date_parse x); [apply A | |]].
Qed.

(** ** The reach of the sweep *)

#[global] Instance listed_before_trans : Transitive listed_before.
Proof.
  intros a b c [A1 A2] [B1 B2]. split; [by transitivity (pa_createdAt b) |]. intros H.
  transitivity (pa_id b); [apply A2 | apply B2]; etransitivity; eassumption.
Qed.

#[global] Instance listed_before_total : Total listed_before.
Proof.
  intros a b. unfold listed_before.
  destruct (String.le_total (pa_createdAt a) (pa_createdAt b)), (String.le_total (pa_id a) (pa_id b)),
    (decide (String.le (pa_createdAt b) (pa_createdAt a))), (decide (String.le (pa_createdAt a) (pa_createdAt b))); tauto.
Qed.

(** The sweep reads the newest pending rows only: a row with as many newer
    pending rows as the limit is not read, whatever its age, so it is neither
    reminded of nor expired while they wait.  The code promises these escapes to
    every pending row. *)
Theorem sweep_starves_oldest t limit row newer :
  NoDup newer -> limit <= List.length newer ->
  (forall n, n ∈ newer -> (exists i, t !! i = Some n) /\ pa_status n = ps_pending /\ ~ String.le (pa_createdAt n) (pa_createdAt row)) ->
  row ∉ listPendingAgentActions t limit.
Proof.
  intros ND Len H Hin. unfold listPendingAgentActions in Hin. set (L := merge_sort listed_before _) in Hin.
  assert (S : StronglySorted listed_before L) by (apply StronglySorted_merge_sort; apply _).
  apply list_elem_of_split in Hin as (l1 & l2 & E).
  pose proof (List.firstn_skipn limit L) as EL. rewrite E in EL. rewrite <- app_assoc in EL. cbn in EL. rewrite <- EL in S.
  assert (Hl : List.length l1 < limit).
  { pose proof (List.firstn_le_length limit L) as B. rewrite E, List.length_app in B. cbn in B. lia. }
  assert (Sub : newer ⊆ l1).
  { intros n Hn. destruct (H n Hn) as ((i & Hi) & Pn & Nn).
    assert (HL : n ∈ L).
    { unfold L. rewrite merge_sort_Permutation. apply list_elem_of_In, List.filter_In. split; [| by apply bool_decide_eq_true].
      apply List.in_map_iff. exists (i, n). split; [done |]. by apply list_elem_of_In, elem_of_map_to_list. }
    rewrite <- EL in HL. apply elem_of_app in HL as [HL | HL]; [done |]. exfalso. apply Nn.
    apply elem_of_cons in HL as [-> | HL]; [reflexivity |].
    apply StronglySorted_app in S as (_ & _ & S). apply StronglySorted_cons in S as [S _]. rewrite Forall_forall in S. by apply S. }
  assert (List.length newer <= List.length l1); [| lia]. apply submseteq_length, NoDup_submseteq; [done | exact Sub].
Qed.

(** ** Runs *)

(** Processes that run one after the other, each to its end. *)
Fixpoint play (date_parse : string -> num) (fuel : nat) (w : World) (st : Store) (p : Proc) : option (Store * list QEvent) :=
  match fuel with
  | O => None
  | S fuel' =>
      match proc_step date_parse w st p with
      | (st', None, evs) => Some (st', evs)
      | (st', Some p', evs) =>
          match play date_parse fuel' w st' p' with
          | Some (st'', evs') => Some (st'', (evs ++ evs')%list)
          | None => None
          end
      end
  end.

Fixpoint plays (date_parse : string -> num) (script : list (World * Proc)) (st : Store) : option (Store * list QEvent) :=
  match script with
  | [] => Some (st, [])
  | (w, p) :: script' =>
      match play date_parse 30 w st p with
      | Some (st', evs) =>
          match plays date_parse script' st' with
          | Some (st'', evs') => Some (st'', (evs ++ evs')%list)
          | None => None
          end
      | None => None
      end
  end.

Lemma play_steps date_parse fuel w st p st' evs tr :
  play date_parse fuel w st p = Some (st', evs) -> rtc (step date_parse) (mkSys st [p] tr) (mkSys st' [] (tr ++ evs)).
Proof.
  revert st p evs tr. induction fuel as [| fuel IH]; [done |]. intros st p evs tr. cbn [play].
  destruct (proc_step date_parse w st p) as [[st1 [p1 |]] evs1] eqn:E.
  - destruct (play date_parse fuel w st1 p1) as [[st2 evs2] |] eqn:P; [| done]. intros [= <- <-].
    eapply rtc_l; [exact (step_run date_parse st [] p [] tr w st1 (Some p1) evs1 E) |]. rewrite (app_assoc tr). by apply IH.
  - intros [= <- <-]. apply rtc_once. exact (step_run date_parse st [] p [] tr w st1 None evs1 E).
Qed.

Lemma plays_steps date_parse script st st' evs tr :
  Forall (fun wp => entry (snd wp)) script -> plays date_parse script st = Some (st', evs) ->
  rtc (step date_parse) (mkSys st [] tr) (mkSys st' [] (tr ++ evs)).
Proof.
  revert st evs tr. induction script as [| [w p] script IH]; intros st evs tr F.
  - intros [= <- <-]. rewrite app_nil_r. apply rtc_refl.
  - apply List.Forall_cons_iff in F as [Fp F]. cbn [plays].
    destruct (play date_parse 30 w st p) as [[st1 evs1] |] eqn:P; [| done].
    destruct (plays date_parse script st1) as [[st2 evs2] |] eqn:Q; [| done]. intros [= <- <-].
    eapply rtc_l; [exact (step_start date_parse st [] tr p Fp) |].
    transitivity (mkSys st1 [] (tr ++ evs1)); [by apply (play_steps _ 30 w) |]. rewrite (app_assoc tr). by apply IH.
Qed.

Definition day_stamp (s : string) : num := nz (Z.of_nat (String.length s) * DAY).

Definition world (uuid now head : string) : World := mkWorld uuid now (some_accept "octocat" head false None) good_reads [] false.

Definition merge_stage : StageInput :=
  mkStage "octo/repo" 7 1 ac_merge auto_with_approval (actionParams (Plan.the_merge green)) "gate passed".

(** The script of a test, its final state and events. *)
Definition final (script : list (World * Proc)) : Sys :=
  match plays day_stamp script (mkStore ∅ []) with
  | Some (st, evs) => mkSys st [] evs
  | None => empty_sys
  end.

Lemma final_reachable script : Forall (fun wp => entry (snd wp)) script -> reachable day_stamp (final script).
Proof.
  intros F. unfold final. destruct (plays day_stamp script (mkStore ∅ [])) as [[st evs] |] eqn:P; [| apply rtc_refl].
  exact (plays_steps day_stamp script _ _ _ [] F P).
Qed.

(** Staged, accepted twice: the second accept finds the row decided. *)
Definition accepted_twice : list (World * Proc) :=
  [(world "r1" "" "abc123", pr_stage merge_stage);
   (world "-" "" "abc123", pr_decide "r1" d_accept "ann");
   (world "-" "" "abc123", pr_decide "r1" d_accept "bob")].

(** Staged, superseded by a force push at acceptance. *)
Definition force_pushed : list (World * Proc) :=
  [(world "r1" "" "abc123", pr_stage merge_stage); (world "-" "" "def456", pr_decide "r1" d_accept "ann")].

Example accepted_twice_trace :
  sys_trace (final accepted_twice)
  = [ev_opened "r1"; ev_badge "agent.pending_action:octo/repo#7:merge"; ev_claimed "r1" ps_accepted "ann";
     ev_executed (staged_row merge_stage "r1" "") "ann" [MergePullRequest mm_rebase (Some "abc123"); RecordTerminal "merged"];
     ev_audit "agent.pending_action.accepted" "ann" "completed" "accepted merge → completed"].
Proof. vm_compute. reflexivity. Qed.

(** Two lives of a row under a daily sweep: staged on day 0, expired on day 7,
    staged again, expired on day 14. *)
Definition sweep_on (d : nat) : World * Proc := (world "-" "" "abc123", pr_sweep (nz (Z.of_nat d * DAY))).
Definition first_life : list (World * Proc) := (world "r1" "" "abc123", pr_stage merge_stage) :: List.map sweep_on (seq 1 7).
Definition second_life : list (World * Proc) := (world "r2" "ddddddd" "abc123", pr_stage merge_stage) :: List.map sweep_on (seq 8 7).

(** A row that expired and is opened again is not announced: the badge and
    the reminders carry the keys of its first life, so the maintainer hears of it
    on days 0 to 6 and never again, and it expires a second time in silence.  The
    code promises a fresh notification. *)
Theorem reopened_row_is_silent :
  let s := final first_life in
  let s' := final (first_life ++ second_life) in
  (reachable day_stamp s /\ reachable day_stamp s')
  /\ List.length (badges (sys_trace s)) = 7
  /\ exists evs, sys_trace s' = (sys_trace s ++ evs)%list
       /\ evs = [ev_opened "r1"; ev_claimed "r1" ps_expired "loopover";
                 ev_audit "agent.pending_action.expired" "loopover" "denied" "staged merge expired unapproved after 7 days"].
Proof.
  cbv zeta. split; [| split; [vm_compute; reflexivity | eexists; split; [vm_compute; reflexivity | reflexivity]]].
  split; apply final_reachable; repeat constructor.
Qed.

(** ** Instances *)

Lemma accepted_twice_reachable : reachable day_stamp (final accepted_twice).
Proof. apply final_reachable. repeat constructor. Qed.

Lemma force_pushed_reachable : reachable day_stamp (final force_pushed).
Proof. apply final_reachable. repeat constructor. Qed.

Lemma maintenance_exact_witness :
  planApprovalQueueMaintenance day_stamp "dd" (nz (5 * DAY + 1)) = qm_remind (nz 3)
  /\ planApprovalQueueMaintenance day_stamp "dd" (nz (9 * DAY)) = qm_expire.
Proof.
  split; [rewrite (maintenance_exact day_stamp "dd" (2 * DAY) (5 * DAY + 1)) by (reflexivity || (unfold DAY; lia))
         | rewrite (maintenance_exact day_stamp "dd" (2 * DAY) (9 * DAY)) by (reflexivity || (unfold DAY; lia))];
    reflexivity.
Defined.

Lemma executes_at_most_once_witness :
  count (executes "r1") (sys_trace (final accepted_twice)) = 1 /\ count (executes "r1") (sys_trace (final accepted_twice)) <= 1.
Proof.
  split; [vm_compute; reflexivity |].
  exact (proj1 (executes_at_most_once day_stamp (final accepted_twice) "r1" accepted_twice_reachable)).
Defined.

Lemma row_state_machine_witness :
  exists row', rows (sys_store (final force_pushed)) !! "r1" = Some row' /\ may_become ps_rejected (pa_status row') = true.
Proof.
  assert (S : step day_stamp (final force_pushed)
                (mkSys (sys_store (final force_pushed)) (sys_procs (final force_pushed) ++ [pr_sweep (nz 0)]) (sys_trace (final force_pushed)))).
  { destruct (final force_pushed) as [st ps tr]. by apply step_start. }
  destruct (rows (sys_store (final force_pushed)) !! "r1") as [row |] eqn:E; [| vm_compute in E; discriminate].
  destruct (row_state_machine day_stamp _ _ "r1" row force_pushed_reachable S E) as (row' & H & M).
  exists row. split; [reflexivity |]. cbn [sys_store] in H. rewrite E in H. injection H as <-.
  vm_compute in E. injection E as <-. reflexivity.
Defined.

Lemma superseded_never_restaged_witness :
  proc_step day_stamp (world "r9" "" "def456") (sys_store (final force_pushed)) (pr_conflict merge_stage)
  = ends (sys_store (final force_pushed)) (pr_staged false).
Proof.
  destruct (rows (sys_store (final force_pushed)) !! "r1") as [row |] eqn:E; [| vm_compute in E; discriminate].
  assert (P : pa_status row = ps_rejected /\ is_target merge_stage row = true) by (vm_compute in E; injection E as <-; by vm_compute).
  exact (proj2 (superseded_never_restaged day_stamp _ _ "r1" row merge_stage force_pushed_reachable E
    (or_introl (proj1 P)) (proj2 P) (rtc_refl _ _) (world "r9" "" "def456"))).
Defined.

Lemma announced_once_witness : NoDup (badges (sys_trace (final accepted_twice))).
Proof. exact (announced_once day_stamp _ accepted_twice_reachable). Defined.

Lemma sweep_starves_oldest_witness :
  let old := staged_row merge_stage "r1" "a" in
  let new := staged_row (mkStage "octo/repo" 8 1 ac_merge auto_with_approval (actionParams (Plan.the_merge green)) "gate passed") "r2" "b" in
  old ∉ listPendingAgentActions {["r1" := old; "r2" := new]} 1.
Proof.
  cbv zeta. apply (sweep_starves_oldest _ 1 _ [staged_row (mkStage "octo/repo" 8 1 ac_merge auto_with_approval
    (actionParams (Plan.the_merge green)) "gate passed") "r2" "b"]); [apply NoDup_singleton | done |].
  intros n Hn. apply list_elem_of_singleton in Hn as ->.
  split_and!; [exists "r2"; reflexivity | reflexivity | intros H; by vm_compute in H].
Defined.
