(* ===== verification/CanonicalJson.v ===== *)
(** * Canonical JSON and content digests

    Models [packages/loopover-contract/src/digest.ts]: [canonicalJson], the one
    serialization every published commitment is computed under, [sha256Hex] and
    [contentDigest], together with the part of the language they meet when a
    stored record is checked again: [JSON.parse].

    [JSON_parse] is the RFC 8259 grammar on UTF-8 text: white space, the three
    literals, numbers (read as the nearest double), strings with their escapes
    and surrogate pairs, arrays, and objects, where a repeated key overwrites the
    earlier value.  A [\u] escape of a lone surrogate has no UTF-8 form and is
    reported as a parse failure.  The recursion is driven by fuel; [parse_stable]
    shows that the fuel [JSON_parse] supplies is never the reason for a failure.

    Keys are sorted by the byte order of their UTF-8 encoding.  It agrees with
    the source's UTF-16 code-unit order except between a key beyond the basic
    plane and one in U+E000..U+FFFF; the keys of every committed record are ASCII.
    A [jsval] is never a function, a symbol or a bigint, so the source's [throw]
    has no counterpart.  Web Crypto's digest is a parameter ([WebCrypto]).

    Results: a canonical text parses, and the value it parses to has the same
    canonical text ([canonicalJson_roundtrip]), so a stored record always
    re-digests to its commitment; the text does not depend on the order in which
    an object's fields were written ([canonicalJson_order]). *)

From stdpp Require Import base list sorting strings option pretty sets.
From Stdlib Require Import QArith Qround Qpower ZArith Ascii Lia Permutation.
From S2P Require Import Prelude JsNumber JsString Ledger.

Local Open Scope nat_scope.
Local Open Scope string_scope.

(** ** Reading JSON *)

Definition is_json_space (c : ascii) : bool :=
  Ascii.eqb c " " || Ascii.eqb c "009" || Ascii.eqb c "010" || Ascii.eqb c "013".

Fixpoint skip_ws (s : string) : string :=
  match s with
  | String c s' => if is_json_space c then skip_ws s' else s
  | EmptyString => ""
  end.

(** [expect c s] is the text after a leading [c]. *)
Definition expect (c : ascii) (s : string) : option string :=
  match s with
  | String d s' => if Ascii.eqb d c then Some s' else None
  | EmptyString => None
  end.

Fixpoint strip_prefix (p s : string) : option string :=
  match p with
  | EmptyString => Some s
  | String c p' => s' ← expect c s; strip_prefix p' s'
  end.

Definition quote_char : ascii := "034".
Definition backslash : ascii := "092".

(** *** Strings *)

Definition hex_value (c : ascii) : option N :=
  let n := N_of_ascii c in
  if ((48 <=? n) && (n <=? 57))%N then Some (n - 48)%N
  else if ((97 <=? n) && (n <=? 102))%N then Some (n - 87)%N
  else if ((65 <=? n) && (n <=? 70))%N then Some (n - 55)%N
  else None.

Definition hex4 (s : string) : option (N * string) :=
  match s with
  | String a (String b (String c (String d s'))) =>
      x ← hex_value a; y ← hex_value b; z ← hex_value c; w ← hex_value d;
      Some ((((x * 16 + y) * 16 + z) * 16 + w)%N, s')
  | _ => None
  end.

(** The UTF-8 encoding of a code point. *)
Definition utf8 (cp : N) : string :=
  let tail k := String (ascii_of_N (128 + N.land (N.shiftr cp k) 63)) in
  if (cp <? 128)%N then String (ascii_of_N cp) ""
  else if (cp <? 2048)%N then String (ascii_of_N (192 + N.shiftr cp 6)) (tail 0%N "")
  else if (cp <? 65536)%N then String (ascii_of_N (224 + N.shiftr cp 12)) (tail 6%N (tail 0%N ""))
  else String (ascii_of_N (240 + N.shiftr cp 18)) (tail 12%N (tail 6%N (tail 0%N ""))).

Definition is_high (u : N) : bool := ((55296 <=? u) && (u <? 56320))%N.
Definition is_low (u : N) : bool := ((56320 <=? u) && (u <? 57344))%N.

(** After [\u]: a code unit, or a pair of surrogates. *)
Definition parse_unicode (s : string) : option (string * string) :=
  '(u, r) ← hex4 s;
  if is_high u then
    r1 ← expect backslash r; r2 ← expect "u" r1; '(l, r3) ← hex4 r2;
    if is_low l then Some (utf8 (65536 + (u - 55296) * 1024 + (l - 56320)), r3) else None
  else if is_low u then None
  else Some (utf8 u, r).

Definition parse_escape (s : string) : option (string * string) :=
  match s with
  | EmptyString => None
  | String c r =>
      let n := N_of_ascii c in
      if (n =? 34)%N || (n =? 92)%N || (n =? 47)%N then Some (String c "", r)
      else if (n =? 98)%N then Some (String (ascii_of_N 8) "", r)
      else if (n =? 102)%N then Some (String (ascii_of_N 12) "", r)
      else if (n =? 110)%N then Some (String (ascii_of_N 10) "", r)
      else if (n =? 114)%N then Some (String (ascii_of_N 13) "", r)
      else if (n =? 116)%N then Some (String (ascii_of_N 9) "", r)
      else if (n =? 117)%N then parse_unicode r
      else None
  end.

(** The characters of a string literal, up to its closing quote. *)
Fixpoint parse_chars (fuel : nat) (s : string) : option (string * string) :=
  match fuel, s with
  | S f, String c r =>
      if Ascii.eqb c quote_char then Some ("", r)
      else if Ascii.eqb c backslash then
        '(t, r1) ← parse_escape r; '(u, r2) ← parse_chars f r1; Some (t ++ u, r2)
      else if (N_of_ascii c <? 32)%N then None
      else '(u, r2) ← parse_chars f r; Some (String c u, r2)
  | _, _ => None
  end.

Definition parse_string (s : string) : option (string * string) := parse_chars (S (String.length s)) s.

(** *** Numbers *)

Definition is_digit (c : ascii) : bool := let n := N_of_ascii c in ((48 <=? n) && (n <=? 57))%N.

(** The longest run of digits at the front, and the rest. *)
Fixpoint take_digits (s : string) : string * string :=
  match s with
  | String c r => if is_digit c then let '(d, r') := take_digits r in (String c d, r') else ("", s)
  | EmptyString => ("", "")
  end.

Fixpoint digits_value_from (acc : Z) (s : string) : Z :=
  match s with
  | String c r => digits_value_from (acc * 10 + (Z.of_N (N_of_ascii c) - 48)) r
  | EmptyString => acc
  end.

Definition digits_value (s : string) : Z := digits_value_from 0 s.

(** [0] or a run of digits that does not start with [0]. *)
Definition int_part_ok (ds : string) : bool :=
  match ds with
  | EmptyString => false
  | String c EmptyString => true
  | String c _ => negb (Ascii.eqb c "0")
  end.

Definition parse_fraction (s : string) : option (string * string) :=
  match expect "." s with
  | None => Some ("", s)
  | Some r => let '(fs, r') := take_digits r in if str_empty fs then None else Some (fs, r')
  end.

Definition parse_exponent (s : string) : option (Z * string) :=
  let after (r : string) :=
    let '(neg, r1) := match expect "-" r with
                      | Some r1 => (true, r1)
                      | None => (false, default r (expect "+" r))
                      end in
    let '(ds, r2) := take_digits r1 in
    if str_empty ds then None
    else Some (if neg then (- digits_value ds)%Z else digits_value ds, r2) in
  match expect "e" s, expect "E" s with
  | Some r, _ => after r
  | None, Some r => after r
  | None, None => Some (0%Z, s)
  end.

Definition decimal (neg : bool) (m e : Z) : Q :=
  let q := (inject_Z m * Qpower 10 e)%Q in if neg then Qopp q else q.

Definition parse_number (s : string) : option (num * string) :=
  let '(neg, s1) := match expect "-" s with Some r => (true, r) | None => (false, s) end in
  let '(ds, s2) := take_digits s1 in
  if int_part_ok ds then
    '(fs, s3) ← parse_fraction s2; '(e, s4) ← parse_exponent s3;
    Some (rnd (decimal neg (digits_value (ds ++ fs)) (e - Z.of_nat (String.length fs))), s4)
  else None.

(** *** Values *)

(** Assignment to a key of an object under construction. *)
Fixpoint set_field (fs : list (string * jsval)) (k : string) (v : jsval) : list (string * jsval) :=
  match fs with
  | [] => [(k, v)]
  | (k', v') :: fs' => if String.eqb k' k then (k', v) :: fs' else (k', v') :: set_field fs' k v
  end.

Fixpoint parse_value (fuel : nat) (s : string) : option (jsval * string) :=
  match fuel with
  | O => None
  | S f =>
      let s := skip_ws s in
      match expect quote_char s, expect "[" s, expect "{" s with
      | Some r, _, _ => '(t, r') ← parse_string r; Some (JStr t, r')
      | _, Some r, _ =>
          match expect "]" (skip_ws r) with
          | Some r' => Some (JArr [], r')
          | None => '(vs, r') ← parse_elements f r; Some (JArr vs, r')
          end
      | _, _, Some r =>
          match expect "}" (skip_ws r) with
          | Some r' => Some (JObj [], r')
          | None => '(fs, r') ← parse_members f [] r; Some (JObj fs, r')
          end
      | None, None, None =>
          match strip_prefix "null" s, strip_prefix "true" s, strip_prefix "false" s with
          | Some r, _, _ => Some (JNull, r)
          | _, Some r, _ => Some (JBool true, r)
          | _, _, Some r => Some (JBool false, r)
          | None, None, None => '(n, r) ← parse_number s; Some (JNum n, r)
          end
      end
  end
with parse_elements (fuel : nat) (s : string) : option (list jsval * string) :=
  match fuel with
  | O => None
  | S f =>
      '(v, r) ← parse_value f s;
      let r := skip_ws r in
      match expect "," r with
      | Some r' => '(vs, r2) ← parse_elements f r'; Some (v :: vs, r2)
      | None => r' ← expect "]" r; Some ([v], r')
      end
  end
with parse_members (fuel : nat) (acc : list (string * jsval)) (s : string) : option (list (string * jsval) * string) :=
  match fuel with
  | O => None
  | S f =>
      r0 ← expect quote_char (skip_ws s);
      '(k, r1) ← parse_string r0;
      r2 ← expect ":" (skip_ws r1);
      '(v, r) ← parse_value f r2;
      let acc' := set_field acc k v in
      let r := skip_ws r in
      match expect "," r with
      | Some r' => parse_members f acc' r'
      | None => r' ← expect "}" r; Some (acc', r')
      end
  end.

(** [JSON.parse]; [None] is the [SyntaxError] it throws. *)
Definition JSON_parse (s : string) : option jsval :=
  match parse_value (2 * String.length s + 2) s with
  | Some (v, r) => if str_empty (skip_ws r) then Some v else None
  | None => None
  end.

(** ** Writing canonical JSON *)

Fixpoint insert_by_key {A} (kv : string * A) (l : list (string * A)) : list (string * A) :=
  match l with
  | [] => [kv]
  | kw :: l' => if decide (String.le kv.1 kw.1) then kv :: kw :: l' else kw :: insert_by_key kv l'
  end.

(** [keys.sort()], carrying the values along. *)
Fixpoint sort_by_key {A} (l : list (string * A)) : list (string * A) :=
  match l with
  | [] => []
  | kv :: l' => insert_by_key kv (sort_by_key l')
  end.

Definition is_undefined (v : jsval) : bool := match v with JUndefined => true | _ => false end.

Definition render_member (kt : string * string) : string := json_quote kt.1 ++ ":" ++ kt.2.

Fixpoint canonicalJson (value : jsval) : string :=
  match value with
  | JNull => "null"
  | JNum n => json_num n
  | JBool b => if b then "true" else "false"
  | JStr s => json_quote s
  | JUndefined => "null"
  | JArr vs => "[" ++ join "," (List.map canonicalJson vs) ++ "]"
  | JObj fs =>
      "{" ++ join "," (List.map render_member (sort_by_key (List.flat_map (fun kv =>
        if is_undefined kv.2 then [] else [(kv.1, canonicalJson kv.2)]) fs))) ++ "}"
  end.

(** ** Digests *)

(** Web Crypto's SHA-256: thirty-two bytes for every input. *)
Class WebCrypto := {
  subtle_digest : string -> list ascii;
  subtle_digest_length : forall data, List.length (subtle_digest data) = 32;
}.

(** [byte.toString(16)] and [padStart(2, "0")]. *)
Definition byte_hex (b : ascii) : string :=
  let n := N_of_ascii b in
  if (n <? 16)%N then hex_digit n else hex_digit (n / 16) ++ hex_digit (n mod 16).

Definition padStart2 (s : string) : string := if Nat.ltb (String.length s) 2 then zeros (2 - String.length s) ++ s else s.

Definition sha256Hex `{WebCrypto} (text : string) : string :=
  join "" (List.map (fun b => padStart2 (byte_hex b)) (subtle_digest text)).

Definition contentDigest `{WebCrypto} (value : jsval) : string := sha256Hex (canonicalJson value).

(** ** What a text is read back as *)

Definition reread (n : num) : num :=
  match parse_number (num_to_string n) with Some (m, _) => m | None => n end.

(** The rendering of a number is read, whole, as a number that renders alike. *)
Definition num_reads_back (n : num) : bool :=
  match parse_number (num_to_string n) with
  | Some (m, r) => str_empty r && is_finite m && String.eqb (num_to_string m) (num_to_string n)
  | None => false
  end.

Fixpoint numbers_read_back (v : jsval) : bool :=
  match v with
  | JNum n => negb (is_finite n) || num_reads_back n
  | JArr vs => forallb numbers_read_back vs
  | JObj fs => forallb (fun kv => numbers_read_back kv.2) fs
  | _ => true
  end.

(** The value the canonical text of [v] denotes. *)
Fixpoint canon (v : jsval) : jsval :=
  match v with
  | JUndefined => JNull
  | JNum n => if is_finite n then JNum (reread n) else JNull
  | JArr vs => JArr (List.map canon vs)
  | JObj fs => JObj (sort_by_key (List.flat_map (fun kv => if is_undefined kv.2 then [] else [(kv.1, canon kv.2)]) fs))
  | _ => v
  end.

(** ** Strings *)

#[local] Arguments String.append : simpl nomatch.

#[local] Hint Rewrite string_length_app string_app_assoc : text.

Lemma parse_chars_step c n (X : string) :
  parse_chars (S n) (json_escape_char c ++ X) = ('(u, r) ← parse_chars n X; Some (String c u, r)).
Proof. destruct c as [[] [] [] [] [] [] [] []]; reflexivity. Qed.

Lemma escape_char_length c : 1 <= String.length (json_escape_char c).
Proof. destruct c as [[] [] [] [] [] [] [] []]; vm_compute; lia. Qed.

Lemma escape_length s : String.length s <= String.length (json_escape s).
Proof.
  induction s as [| c s IH]; simpl; [lia |]. rewrite string_length_app. pose proof (escape_char_length c). lia.
Qed.

Lemma parse_chars_escape s : forall n rest, String.length s < n ->
  parse_chars n (json_escape s ++ String quote_char rest) = Some (s, rest).
Proof.
  induction s as [| c s IH]; intros [| n] rest Hn; simpl in Hn; try lia; [reflexivity |].
  change (json_escape (String c s)) with (json_escape_char c ++ json_escape s).
  rewrite string_app_assoc, parse_chars_step, IH by lia. reflexivity.
Qed.

(** A quoted string, followed by anything, is read as itself. *)
Lemma quote_shape s rest : json_quote s ++ rest = String quote_char (json_escape s ++ String quote_char rest).
Proof. unfold json_quote. simpl. by rewrite string_app_assoc. Qed.

Lemma parse_string_quote s rest : parse_string (json_escape s ++ String quote_char rest) = Some (s, rest).
Proof.
  apply parse_chars_escape. rewrite string_length_app. pose proof (escape_length s). simpl. lia.
Qed.

(** Reading two quoted strings apart: the text determines the string and what follows it. *)
Lemma json_quote_inj s t rest rest' : json_quote s ++ rest = json_quote t ++ rest' -> s = t /\ rest = rest'.
Proof.
  rewrite !quote_shape. intros [= H]. pose proof (parse_string_quote s rest) as A.
  rewrite H, parse_string_quote in A. by simplify_eq.
Qed.

(** ** Numbers *)

(** Text that cannot continue a number. *)
Definition num_stop (s : string) : bool :=
  match s with
  | EmptyString => true
  | String c _ => negb (is_digit c || Ascii.eqb c "." || Ascii.eqb c "e" || Ascii.eqb c "E")
  end.

Section NumberApp.
Context (rest : string) (Hstop : num_stop rest = true).

Lemma stop_expect c : Ascii.eqb c "." || Ascii.eqb c "e" || Ascii.eqb c "E" = true -> expect c rest = None.
Proof.
  intros Hc. destruct rest as [| d r]; [done |]. simpl. destruct (Ascii.eqb_spec d c) as [-> |]; [| done].
  simpl in Hstop. rewrite <- !orb_assoc in *. rewrite Hc, orb_true_r in Hstop. discriminate.
Qed.

Lemma expect_app c s r : expect c s = Some r -> expect c (s ++ rest) = Some (r ++ rest).
Proof. destruct s as [| d s]; [done |]. simpl. destruct (Ascii.eqb d c); [| done]. by intros [= ->]. Qed.

Lemma expect_none_app c s : Ascii.eqb c "." || Ascii.eqb c "e" || Ascii.eqb c "E" = true ->
  expect c s = None -> expect c (s ++ rest) = None.
Proof. intros Hc. destruct s as [| d s]; [intros _; by apply stop_expect |]. simpl. by destruct (Ascii.eqb d c). Qed.

Lemma take_digits_app s d r : take_digits s = (d, r) -> take_digits (s ++ rest) = (d, r ++ rest).
Proof.
  revert d r. induction s as [| c s IH]; intros d r; simpl.
  - intros [= <- <-]. destruct rest as [| c r']; [done |]. simpl in *. by destruct (is_digit c).
  - destruct (is_digit c); [| by intros [= <- <-]].
    destruct (take_digits s) as [d' r']. rewrite (IH _ _ eq_refl). by intros [= <- <-].
Qed.

Lemma parse_fraction_app s fs r : parse_fraction s = Some (fs, r) -> parse_fraction (s ++ rest) = Some (fs, r ++ rest).
Proof.
  unfold parse_fraction. destruct (expect "." s) as [r1 |] eqn:E.
  - rewrite (expect_app _ _ _ E). destruct (take_digits r1) as [ds r2] eqn:D. rewrite (take_digits_app _ _ _ D).
    destruct (str_empty ds); [done |]. by intros [= -> ->].
  - rewrite expect_none_app by done. by intros [= <- <-].
Qed.

Lemma parse_exponent_app s e r : parse_exponent s = Some (e, r) -> parse_exponent (s ++ rest) = Some (e, r ++ rest).
Proof.
  set (after (r : string) :=
    let '(neg, r1) := match expect "-" r with
                      | Some r1 => (true, r1)
                      | None => (false, default r (expect "+" r))
                      end in
    let '(ds, r2) := take_digits r1 in
    if str_empty ds then None
    else Some (if neg then (- digits_value ds)%Z else digits_value ds, r2)).
  assert (A : forall u, after u = Some (e, r) -> after (u ++ rest) = Some (e, r ++ rest)).
  { intros u. unfold after. destruct u as [| c u]; [done |]. simpl.
    destruct (Ascii.eqb c "-"); simpl.
    - destruct (take_digits u) as [ds r2] eqn:D. rewrite (take_digits_app _ _ _ D).
      destruct (str_empty ds); [done |]. by intros [= <- <-].
    - destruct (Ascii.eqb c "+"); simpl.
      + destruct (take_digits u) as [ds r2] eqn:D. rewrite (take_digits_app _ _ _ D).
        destruct (str_empty ds); [done |]. by intros [= <- <-].
      + destruct (is_digit c); [| done].
        destruct (take_digits u) as [ds r2] eqn:D. rewrite (take_digits_app _ _ _ D). simpl. by intros [= <- <-]. }
  unfold parse_exponent. fold after.
  destruct (expect "e" s) as [r1 |] eqn:E1; [rewrite (expect_app _ _ _ E1); apply A |].
  rewrite (expect_none_app "e") by done.
  destruct (expect "E" s) as [r1 |] eqn:E2; [rewrite (expect_app _ _ _ E2); apply A |].
  rewrite (expect_none_app "E") by done. by intros [= <- <-].
Qed.

Lemma parse_number_app s n r : parse_number s = Some (n, r) -> parse_number (s ++ rest) = Some (n, r ++ rest).
Proof.
  unfold parse_number. destruct s as [| c s]; [done |]. simpl expect. cbn [String.append].
  destruct (Ascii.eqb c "-"); cbn [String.append];
    [destruct (take_digits s) as [ds s2] eqn:D | destruct (take_digits (String c s)) as [ds s2] eqn:D;
       change (String c (s ++ rest)) with (String c s ++ rest)];
    rewrite (take_digits_app _ _ _ D); (destruct (int_part_ok ds); [| done]);
    (destruct (parse_fraction s2) as [[fs s3] |] eqn:F; [| done]); rewrite (parse_fraction_app _ _ _ F); cbn;
    (destruct (parse_exponent s3) as [[e s4] |] eqn:X; [| done]); rewrite (parse_exponent_app _ _ _ X); cbn;
    by intros [= <- <-].
Qed.
End NumberApp.

Lemma parse_number_head s n r : parse_number s = Some (n, r) ->
  exists c t, s = String c t /\ (c = "-"%char \/ is_digit c = true).
Proof.
  unfold parse_number. destruct s as [| c t]; [done |]. intros H. exists c, t. split; [done |].
  simpl expect in H. destruct (Ascii.eqb_spec c "-") as [-> | _]; [by left |]. right. simpl in H.
  by destruct (is_digit c).
Qed.

(** A number is the only value that starts with a sign or a digit. *)
Lemma parse_value_number f s n r : parse_number s = Some (n, r) -> parse_value (S f) s = Some (JNum n, r).
Proof.
  intros H. destruct (parse_number_head _ _ _ H) as (c & t & -> & Hc).
  assert (K : skip_ws (String c t) = String c t /\ expect quote_char (String c t) = None
    /\ expect "[" (String c t) = None /\ expect "{" (String c t) = None /\ strip_prefix "null" (String c t) = None
    /\ strip_prefix "true" (String c t) = None /\ strip_prefix "false" (String c t) = None).
  { destruct c as [[] [] [] [] [] [] [] []]; destruct Hc as [Hc | Hc]; try discriminate Hc; repeat split; reflexivity. }
  destruct K as (K1 & K2 & K3 & K4 & K5 & K6 & K7). cbn [parse_value].
  rewrite K1, K2, K3, K4, K5, K6, K7, H. reflexivity.
Qed.

(** ** Sorting by key *)

Section Sorting.
Context {A : Type}.
Implicit Types l : list (string * A).

Lemma insert_by_key_perm (x : string * A) l : insert_by_key x l ≡ₚ x :: l.
Proof. induction l as [| y l IH]; simpl; [done |]. case_decide; [done |]. rewrite IH. constructor. Qed.

Lemma sort_by_key_perm l : sort_by_key l ≡ₚ l.
Proof. induction l as [| x l IH]; simpl; [done |]. by rewrite insert_by_key_perm, IH. Qed.

(** Two entries under different keys can be inserted in either order. *)
Lemma insert_by_key_comm (x y : string * A) l : x.1 <> y.1 ->
  insert_by_key x (insert_by_key y l) = insert_by_key y (insert_by_key x l).
Proof.
  intros Hne. assert (T : String.le x.1 y.1 \/ String.le y.1 x.1) by apply (total String.le).
  assert (N : ~ (String.le x.1 y.1 /\ String.le y.1 x.1)).
  { intros [H1 H2]. apply Hne. by apply (anti_symm String.le). }
  assert (Tr : forall a b c, String.le a b -> String.le b c -> String.le a c) by (intros a b c; by transitivity b).
  induction l as [| z l IH]; simpl.
  - repeat case_decide; tauto || done.
  - destruct (decide (String.le x.1 z.1)) as [Hx | Hx], (decide (String.le y.1 z.1)) as [Hy | Hy]; simpl.
    + rewrite (decide_True _ _ Hx), (decide_True _ _ Hy). repeat case_decide; tauto || done.
    + rewrite (decide_True _ _ Hx), (decide_False _ _ Hy). rewrite decide_False; [done |]. eauto.
    + rewrite (decide_False _ _ Hx), (decide_True _ _ Hy). rewrite decide_False; [done |]. eauto.
    + rewrite (decide_False _ _ Hx), (decide_False _ _ Hy). by rewrite IH.
Qed.

Lemma sort_by_key_order l l' : NoDup (l.*1) -> l ≡ₚ l' -> sort_by_key l = sort_by_key l'.
Proof.
  intros ND P. induction P as [| x l l' P IH | x y l | l1 l2 l3 P1 IH1 P2 IH2]; simpl in *; [done | | |].
  - apply NoDup_cons in ND as [_ ND]. by rewrite IH.
  - apply NoDup_cons in ND as [Hx _]. apply insert_by_key_comm. set_solver.
  - rewrite IH1 by done. apply IH2. by rewrite <- P1.
Qed.

Lemma insert_by_key_in (x y : string * A) l : y ∈ insert_by_key x l -> y = x \/ y ∈ l.
Proof. rewrite insert_by_key_perm. apply elem_of_cons. Qed.

(** Sorting a sorted list changes nothing. *)
Lemma insert_by_key_front (x : string * A) l : Forall (fun y => String.le x.1 y.1) l -> insert_by_key x l = x :: l.
Proof. intros F. destruct l as [| y l]; simpl; [done |]. apply Forall_cons in F as [F _]. by rewrite decide_True. Qed.

Lemma insert_by_key_sorted (x : string * A) l :
  StronglySorted (fun a b => String.le a.1 b.1) l -> StronglySorted (fun a b => String.le a.1 b.1) (insert_by_key x l).
Proof.
  induction l as [| y l IH]; intros S; simpl; [repeat constructor |].
  apply StronglySorted_cons in S as [F S]. case_decide as D.
  - constructor; [by constructor |]. constructor; [done |]. eapply Forall_impl; [exact F |].
    intros z Hz. by transitivity y.1.
  - constructor; [by apply IH |]. rewrite Forall_forall in *. intros z [-> | Hz]%insert_by_key_in; [| by apply F].
    destruct (total String.le x.1 y.1); [done | assumption].
Qed.

Lemma sort_by_key_sorted l : StronglySorted (fun a b => String.le a.1 b.1) (sort_by_key l).
Proof. induction l; simpl; [constructor | by apply insert_by_key_sorted]. Qed.

Lemma sort_by_key_id l : StronglySorted (fun a b => String.le a.1 b.1) l -> sort_by_key l = l.
Proof.
  induction l as [| x l IH]; intros S; simpl; [done |]. apply StronglySorted_cons in S as [F S].
  rewrite IH by done. by apply insert_by_key_front.
Qed.
End Sorting.

(** Sorting looks at the keys only. *)
Lemma insert_by_key_map {A B} (g : A -> B) x l :
  List.map (fun kv => (kv.1, g kv.2)) (insert_by_key x l)
  = insert_by_key (x.1, g x.2) (List.map (fun kv => (kv.1, g kv.2)) l).
Proof. induction l as [| y l IH]; simpl; [done |]. case_decide; simpl; [done |]. by rewrite IH. Qed.

Lemma sort_by_key_map {A B} (g : A -> B) (l : list (string * A)) :
  List.map (fun kv => (kv.1, g kv.2)) (sort_by_key l) = sort_by_key (List.map (fun kv => (kv.1, g kv.2)) l).
Proof. induction l as [| x l IH]; simpl; [done |]. by rewrite insert_by_key_map, IH. Qed.

(** The fields that reach the text. *)
Definition visible (fs : list (string * jsval)) : list (string * jsval) :=
  List.filter (fun kv => negb (is_undefined kv.2)) fs.

Lemma flat_map_visible {B} (g : jsval -> B) fs :
  List.flat_map (fun kv => if is_undefined kv.2 then [] else [(kv.1, g kv.2)]) fs
  = List.map (fun kv => (kv.1, g kv.2)) (visible fs).
Proof. induction fs as [| [k v] fs IH]; simpl; [done |]. destruct (is_undefined v); simpl; by rewrite IH. Qed.

Lemma canonicalJson_obj fs :
  canonicalJson (JObj fs)
  = "{" ++ join "," (List.map (fun kv => render_member (kv.1, canonicalJson kv.2)) (sort_by_key (visible fs))) ++ "}".
Proof.
  cbn [canonicalJson]. rewrite flat_map_visible, <- sort_by_key_map, List.map_map. reflexivity.
Qed.

Lemma canon_obj fs : canon (JObj fs) = JObj (List.map (fun kv => (kv.1, canon kv.2)) (sort_by_key (visible fs))).
Proof. cbn [canon]. by rewrite flat_map_visible, <- sort_by_key_map. Qed.

Lemma visible_in kv fs : kv ∈ visible fs -> kv ∈ fs.
Proof. rewrite !list_elem_of_In. unfold visible. rewrite List.filter_In. tauto. Qed.

Lemma sorted_visible_in kv fs : kv ∈ sort_by_key (visible fs) -> kv ∈ fs.
Proof. rewrite sort_by_key_perm. apply visible_in. Qed.

Lemma visible_nodup fs : NoDup (fs.*1) -> NoDup ((visible fs).*1).
Proof.
  induction fs as [| [k v] fs IH]; simpl; [done |]. intros [Hk ND]%NoDup_cons. destruct (is_undefined v); simpl; [by apply IH |].
  apply NoDup_cons. split; [| by apply IH]. rewrite list_elem_of_fmap. intros (kv & -> & Hin). apply Hk.
  apply list_elem_of_fmap. eauto using visible_in.
Qed.

(** ** Reading back what was written *)

(** [v] is read, in any context that does not continue a number. *)
Definition reads (v : jsval) : Prop :=
  forall f rest, 2 * String.length (canonicalJson v) + 2 <= f -> num_stop rest = true ->
    parse_value f (canonicalJson v ++ rest) = Some (canon v, rest).

Lemma reads_num n : negb (is_finite n) || num_reads_back n = true -> reads (JNum n).
Proof.
  intros H [| f] rest Hf Hs; [lia |]. cbn [canonicalJson canon]. unfold json_num. destruct (is_finite n); [| reflexivity].
  simpl in H. unfold num_reads_back in H. unfold reread. destruct (parse_number (num_to_string n)) as [[m r] |] eqn:E; [| done].
  apply andb_true_iff in H as [H _]. apply andb_true_iff in H as [H _]. apply str_empty_true in H as ->.
  apply parse_value_number, (parse_number_app rest Hs _ _ _ E).
Qed.

Lemma reads_elements vs : vs <> [] -> Forall reads vs -> forall f rest,
  2 * String.length (join "," (List.map canonicalJson vs)) + 3 <= f ->
  parse_elements f (join "," (List.map canonicalJson vs) ++ String "]" rest) = Some (List.map canon vs, rest).
Proof.
  intros Hne F. induction F as [| v vs Hv F IH]; [done |]. intros [| f] rest Hf; [lia |].
  destruct vs as [| w vs].
  - cbn [List.map join] in *. cbn [parse_elements]. rewrite Hv by (done || lia). reflexivity.
  - cbn [List.map] in *. rewrite join_cons in * by done. remember (join "," (canonicalJson w :: _)) as T.
    rewrite !string_length_app in Hf. cbn [String.length] in Hf.
    rewrite !string_app_assoc. cbn [parse_elements]. rewrite Hv by (done || lia).
    cbn -[parse_elements]. rewrite IH by (done || lia). reflexivity.
Qed.

Lemma set_field_new acc k v : k ∉ acc.*1 -> set_field acc k v = (acc ++ [(k, v)])%list.
Proof.
  induction acc as [| [k' v'] acc IH]; simpl; [done |]. intros [Hne Hin]%not_elem_of_cons.
  destruct (String.eqb_spec k' k); [congruence |]. by rewrite IH.
Qed.

Lemma reads_members ms : ms <> [] -> Forall (fun kv => reads kv.2) ms -> forall acc f rest,
  NoDup (acc.*1 ++ ms.*1)%list ->
  2 * String.length (join "," (List.map (fun kv => render_member (kv.1, canonicalJson kv.2)) ms)) + 3 <= f ->
  parse_members f acc (join "," (List.map (fun kv => render_member (kv.1, canonicalJson kv.2)) ms) ++ String "}" rest)
  = Some ((acc ++ List.map (fun kv => (kv.1, canon kv.2)) ms)%list, rest).
Proof.
  intros Hne F. induction F as [| [k v] ms Hv F IH]; [done |]. intros acc [| f] rest ND Hf; [lia |]. simpl in Hv.
  assert (Hk : k ∉ acc.*1) by (apply NoDup_app in ND as (_ & ND & _); intros C; by apply (ND k C), elem_of_cons; left).
  assert (ND' : NoDup ((acc ++ [(k, canon v)]).*1 ++ ms.*1)%list) by (by rewrite fmap_app, <- app_assoc).
  assert (Hlen : String.length (canonicalJson v) + 3 <= String.length (render_member (k, canonicalJson v))).
  { unfold render_member, json_quote. cbn [fst snd]. rewrite !string_length_app. simpl. lia. }
  destruct ms as [| [k2 v2] ms].
  - cbn [List.map join fst snd] in *. cbn [parse_members]. unfold render_member in *. cbn [fst snd] in *.
    rewrite !string_app_assoc, quote_shape. cbn -[parse_value parse_string].
    rewrite parse_string_quote. cbn -[parse_value].
    rewrite Hv by (done || lia). cbn. by rewrite set_field_new.
  - cbn [List.map fst snd] in *. rewrite join_cons in * by done. remember (join "," (render_member (k2, _) :: _)) as T.
    rewrite !string_length_app in Hf. cbn [String.length] in Hf. cbn [parse_members]. unfold render_member at 1. cbn [fst snd].
    rewrite !string_app_assoc, quote_shape. cbn -[parse_members parse_value parse_string join List.map].
    rewrite parse_string_quote. cbn -[parse_members parse_value join List.map].
    rewrite Hv by (done || lia). cbn -[parse_members join List.map]. rewrite set_field_new by done.
    rewrite IH by (done || lia). by rewrite <- app_assoc.
Qed.

Lemma canonical_head v : numbers_read_back v = true ->
  exists c r, canonicalJson v = String c r /\ is_json_space c = false /\ c <> "]"%char /\ c <> "}"%char.
Proof.
  destruct v as [| | [] | n | s | vs | fs]; cbn [canonicalJson numbers_read_back]; intros H; try (repeat eexists; discriminate).
  unfold json_num. destruct (is_finite n); [| repeat eexists; discriminate]. simpl in H. unfold num_reads_back in H.
  destruct (parse_number (num_to_string n)) as [[m r] |] eqn:E; [| done].
  destruct (parse_number_head _ _ _ E) as (c & t & -> & Hc). exists c, t. split; [done |].
  destruct Hc as [-> | Hc]; [by repeat split |].
  destruct c as [[] [] [] [] [] [] [] []]; try discriminate Hc; by repeat split.
Qed.

(** The texts inside brackets do not start with the closing bracket. *)
Lemma elements_open c vs rest : c = "]"%char -> vs <> [] -> Forall (fun v => numbers_read_back v = true) vs ->
  expect c (skip_ws (join "," (List.map canonicalJson vs) ++ rest)) = None.
Proof.
  intros -> Hne F. destruct F as [| v vs Hv F]; [done |].
  destruct (canonical_head v Hv) as (c & r & E & S & N & _).
  assert (K : exists r', join "," (List.map canonicalJson (v :: vs)) = String c r').
  { destruct vs; cbn [List.map join]; rewrite E; eexists; [done | by rewrite string_app_cons]. }
  destruct K as [r' ->]. rewrite string_app_cons. cbn [skip_ws]. rewrite S. simpl. by destruct (Ascii.eqb_spec c "]").
Qed.

Lemma members_open ms rest : ms <> [] ->
  expect "}" (skip_ws (join "," (List.map (fun kv => render_member (kv.1, canonicalJson kv.2)) ms) ++ rest)) = None.
Proof.
  destruct ms as [| [k v] ms]; [done |]. intros _.
  destruct ms; cbn [List.map join]; unfold render_member; cbn [fst snd]; rewrite !string_app_assoc, quote_shape; reflexivity.
Qed.

Lemma reads_arr vs : Forall reads vs -> Forall (fun v => numbers_read_back v = true) vs -> reads (JArr vs).
Proof.
  intros R N [| f] rest Hf Hs; [lia |]. cbn [canonicalJson canon] in *. rewrite !string_length_app in Hf. cbn [String.length] in Hf.
  rewrite !string_app_assoc. destruct (decide (vs = [])) as [-> | Hne]; [reflexivity |].
  change ("[" ++ ?x) with (String "[" x). cbn -[parse_elements]. change ("" ++ ?x) with x.
  change ("]" ++ rest) with (String "]" rest). rewrite elements_open, reads_elements by (done || lia). reflexivity.
Qed.

Lemma reads_obj fs : NoDup (fs.*1) -> Forall (fun kv => reads kv.2) fs -> reads (JObj fs).
Proof.
  intros ND R [| f] rest Hf Hs; [lia |]. rewrite canonicalJson_obj in *. rewrite canon_obj.
  rewrite !string_length_app in Hf. cbn [String.length] in Hf. rewrite !string_app_assoc.
  destruct (decide (sort_by_key (visible fs) = [])) as [-> | Hne]; [reflexivity |].
  change ("{" ++ ?x) with (String "{" x). cbn -[parse_members]. change ("" ++ ?x) with x.
  change ("}" ++ rest) with (String "}" rest). rewrite members_open, reads_members; try done; [| | lia].
  - rewrite Forall_forall in *. intros kv Hin. by apply R, sorted_visible_in.
  - simpl. rewrite sort_by_key_perm. by apply visible_nodup.
Qed.

Lemma canonical_reads v : keys_distinct v = true -> numbers_read_back v = true -> reads v.
Proof.
  induction v as [| | b | n | s | vs IH | fs IH] using jsval_rect_all; cbn [keys_distinct numbers_read_back]; intros K N.
  - intros [| f] rest Hf _; [lia | reflexivity].
  - intros [| f] rest Hf _; [lia | reflexivity].
  - intros [| f] rest Hf _; [lia | by destruct b].
  - by apply reads_num.
  - intros [| f] rest Hf _; [lia |]. cbn [canonicalJson canon]. rewrite quote_shape. cbn -[parse_string].
    by rewrite parse_string_quote.
  - rewrite forallb_forall in K, N. apply reads_arr; apply Forall_forall; intros w Hw%list_elem_of_In; [| by apply N].
    rewrite Forall_forall in IH. apply IH; [by apply list_elem_of_In | by apply K | by apply N].
  - apply andb_true_iff in K as [K1 K2]. apply bool_decide_eq_true in K1. rewrite forallb_forall in K2, N.
    apply reads_obj; [done |]. apply Forall_forall. intros kv Hin%list_elem_of_In.
    rewrite Forall_forall in IH. apply IH; [by apply list_elem_of_In | by apply K2 | by apply N].
Qed.

Lemma canon_defined v : is_undefined (canon v) = false.
Proof. destruct v; simpl; try done. by destruct (is_finite n). Qed.

Lemma visible_canon l : visible (List.map (fun kv => (kv.1, canon kv.2)) l) = List.map (fun kv => (kv.1, canon kv.2)) l.
Proof. induction l as [| [k v] l IH]; simpl; [done |]. rewrite canon_defined. simpl. by rewrite IH. Qed.

Lemma canonicalJson_canon v : numbers_read_back v = true -> canonicalJson (canon v) = canonicalJson v.
Proof.
  induction v as [| | b | n | s | vs IH | fs IH] using jsval_rect_all; intros N; try done.
  - cbn [canon canonicalJson numbers_read_back] in *. unfold json_num. destruct (is_finite n) eqn:F; [| done].
    simpl in N. unfold num_reads_back in N. unfold reread. destruct (parse_number _) as [[m r] |]; [| done].
    apply andb_true_iff in N as [N1 N2]. apply andb_true_iff in N1 as [_ N1]. apply String.eqb_eq in N2.
    simpl. unfold json_num. by rewrite N1.
  - cbn [canon canonicalJson numbers_read_back] in *. rewrite List.map_map. rewrite forallb_forall in N.
    do 3 f_equal. apply List.map_ext_in. intros w Hw. rewrite Forall_forall in IH.
    apply IH; [by apply list_elem_of_In | by apply N].
  - rewrite canon_obj, !canonicalJson_obj, visible_canon. cbn [numbers_read_back] in N. rewrite forallb_forall in N.
    rewrite <- sort_by_key_map, (sort_by_key_id _ (sort_by_key_sorted _)), List.map_map. do 3 f_equal.
    apply List.map_ext_in. intros [k w] Hw. simpl. do 2 f_equal. rewrite Forall_forall in IH.
    apply list_elem_of_In, sorted_visible_in in Hw. apply (IH (k, w) Hw), (N (k, w)). by apply list_elem_of_In.
Qed.

(** ** Properties *)

Lemma canonical_reparse v :
  keys_distinct v = true -> numbers_read_back v = true -> JSON_parse (canonicalJson v) = Some (canon v).
Proof.
  intros K N. unfold JSON_parse.
  pose proof (canonical_reads v K N (2 * String.length (canonicalJson v) + 2) "" ltac:(lia) eq_refl) as R.
  rewrite string_app_nil_r in R. by rewrite R.
Qed.

(** C26: [JSON.parse] reads every canonical text, and the value it returns has the
    same canonical text: the digest of a stored record can be recomputed from
    the stored text alone.  Object keys are distinct, as in every JavaScript
    object, and each number renders to a decimal that reads back. *)
Theorem canonicalJson_roundtrip v :
  keys_distinct v = true -> numbers_read_back v = true ->
  exists w, JSON_parse (canonicalJson v) = Some w /\ canonicalJson w = canonicalJson v.
Proof. intros K N. exists (canon v). split; [by apply canonical_reparse | by apply canonicalJson_canon]. Qed.

(** The canonical text does not depend on the order in which an object's
    fields were assigned. *)
Theorem canonicalJson_order fs gs :
  NoDup (fs.*1) -> fs ≡ₚ gs -> canonicalJson (JObj fs) = canonicalJson (JObj gs).
Proof.
  intros ND P. rewrite !canonicalJson_obj. do 4 f_equal. apply sort_by_key_order; [by apply visible_nodup |].
  unfold visible. clear ND. induction P; simpl; try done.
  - by destruct (negb (is_undefined _)); [constructor |].
  - destruct (negb (is_undefined x.2)), (negb (is_undefined y.2)); by constructor || done.
  - by etransitivity.
Qed.

(** ** The fuel is enough *)

Lemma skip_ws_length s : String.length (skip_ws s) <= String.length s.
Proof. induction s as [| c s IH]; simpl; [done |]. destruct (is_json_space c); simpl; lia. Qed.

Lemma expect_length c s r : expect c s = Some r -> String.length s = S (String.length r).
Proof. destruct s as [| d s]; simpl; [done |]. destruct (Ascii.eqb d c); [| done]. by intros [= ->]. Qed.

Lemma strip_prefix_length p s r : strip_prefix p s = Some r -> String.length s = String.length p + String.length r.
Proof.
  revert s. induction p as [| c p IH]; intros s; simpl; [by intros [= ->] |].
  destruct (expect c s) as [s' |] eqn:E; [| done]. simpl. intros H%IH. apply expect_length in E. lia.
Qed.

Lemma hex4_length s u r : hex4 s = Some (u, r) -> String.length r < String.length s.
Proof.
  unfold hex4. destruct s as [| a [| b [| c [| d s]]]]; try done.
  destruct (hex_value a), (hex_value b), (hex_value c), (hex_value d); try done.
  cbn. intros [= _ <-]. lia.
Qed.

Lemma parse_escape_length s t r : parse_escape s = Some (t, r) -> String.length r < String.length s.
Proof.
  destruct s as [| c s]; [done |]. unfold parse_escape.
  repeat (match goal with |- context [if ?b then _ else _] => destruct b end; [intros ?; simplify_eq; simpl; lia |]).
  destruct (_ =? 117)%N; [| done]. unfold parse_unicode.
  destruct (hex4 s) as [[u r1] |] eqn:E; [| done]. apply hex4_length in E. simpl. destruct (is_high u).
  - destruct (expect backslash r1) as [r2 |] eqn:E2; [| done]. apply expect_length in E2. simpl.
    destruct (expect "u" r2) as [r3 |] eqn:E3; [| done]. apply expect_length in E3. simpl.
    destruct (hex4 r3) as [[l r4] |] eqn:E4; [| done]. apply hex4_length in E4. simpl.
    destruct (is_low l); [| done]. intros ?; simplify_eq; lia.
  - destruct (is_low u); [done |]. intros ?; simplify_eq; lia.
Qed.

Lemma parse_chars_length f : forall s t r, parse_chars f s = Some (t, r) -> String.length r < String.length s.
Proof.
  induction f as [| f IH]; intros [| c s] t r; try done. cbn [parse_chars].
  destruct (Ascii.eqb c quote_char); [intros ?; simplify_eq; simpl; lia |]. destruct (Ascii.eqb c backslash).
  - destruct (parse_escape s) as [[u r1] |] eqn:E; [| done]. apply parse_escape_length in E. simpl.
    destruct (parse_chars f r1) as [[w r2] |] eqn:E2; [| done]. apply IH in E2. simpl. intros ?; simplify_eq; lia.
  - destruct (_ <? 32)%N; [done |]. destruct (parse_chars f s) as [[w r2] |] eqn:E2; [| done].
    apply IH in E2. simpl. intros ?; simplify_eq; lia.
Qed.

(** More fuel than characters changes nothing in a string literal. *)
Lemma parse_chars_stable f : forall g s, String.length s < f -> String.length s < g -> parse_chars f s = parse_chars g s.
Proof.
  induction f as [| f IH]; intros [| g] [| c s] Hf Hg; simpl in Hf, Hg; try lia; try done. cbn [parse_chars].
  destruct (Ascii.eqb c quote_char); [done |]. destruct (Ascii.eqb c backslash).
  - destruct (parse_escape s) as [[u r1] |] eqn:E; [| done]. apply parse_escape_length in E. simpl.
    by rewrite (IH g r1) by lia.
  - destruct (_ <? 32)%N; [done |]. by rewrite (IH g s) by lia.
Qed.

Lemma take_digits_length s d r : take_digits s = (d, r) -> String.length s = String.length d + String.length r.
Proof.
  revert d r. induction s as [| c s IH]; intros d r; simpl; [by intros [= <- <-] |].
  destruct (is_digit c); [| by intros [= <- <-]]. destruct (take_digits s) as [d' r'].
  specialize (IH _ _ eq_refl). intros [= <- <-]. simpl. lia.
Qed.

Lemma parse_number_length s n r : parse_number s = Some (n, r) -> String.length r < String.length s.
Proof.
  unfold parse_number.
  assert (H1 : exists neg s1, match expect "-" s with Some r => (true, r) | None => (false, s) end = (neg, s1)
    /\ String.length s1 <= String.length s).
  { destruct (expect "-" s) as [s1 |] eqn:E; [apply expect_length in E |]; repeat eexists; lia. }
  destruct H1 as (neg & s1 & -> & H1). destruct (take_digits s1) as [ds s2] eqn:D. apply take_digits_length in D.
  destruct (int_part_ok ds) eqn:I; [| done]. assert (0 < String.length ds) by (destruct ds; [done | simpl; lia]).
  destruct (parse_fraction s2) as [[fs s3] |] eqn:F; [| done]. simpl.
  assert (H3 : String.length s3 <= String.length s2).
  { revert F. unfold parse_fraction. destruct (expect "." s2) as [u |] eqn:E; [| intros ?; by simplify_eq].
    apply expect_length in E. destruct (take_digits u) as [gs s'] eqn:D2. apply take_digits_length in D2.
    destruct (str_empty gs); [done |]. intros ?; simplify_eq; lia. }
  destruct (parse_exponent s3) as [[e s4] |] eqn:X; [| done]. simpl. intros ?; simplify_eq.
  enough (String.length r <= String.length s3) by lia. revert X. clear. unfold parse_exponent.
  assert (A : forall u, (let '(neg, r1) := match expect "-" u with Some r1 => (true, r1) | None => (false, default u (expect "+" u)) end in
    let '(ds, r2) := take_digits r1 in
    if str_empty ds then None else Some (if neg then (- digits_value ds)%Z else digits_value ds, r2)) = Some (e, r) ->
    String.length r <= String.length u).
  { intros u. assert (B : exists neg r1, match expect "-" u with Some r1 => (true, r1) | None => (false, default u (expect "+" u)) end = (neg, r1)
      /\ String.length r1 <= String.length u).
    { destruct (expect "-" u) as [u1 |] eqn:E1; [apply expect_length in E1; repeat eexists; lia |].
      destruct (expect "+" u) as [u2 |] eqn:E2; [apply expect_length in E2 |]; repeat eexists; simpl; lia. }
    destruct B as (neg & r1 & -> & B). destruct (take_digits r1) as [ds r2] eqn:D. apply take_digits_length in D.
    destruct (str_empty ds); [done |]. intros ?; simplify_eq; lia. }
  destruct (expect "e" s3) as [u |] eqn:E1; [apply expect_length in E1; intros H%A; lia |].
  destruct (expect "E" s3) as [u |] eqn:E2; [apply expect_length in E2; intros H%A; lia |]. intros ?; by simplify_eq.
Qed.

Lemma parse_consumes f :
  (forall s v r, parse_value f s = Some (v, r) -> String.length r < String.length s)
  /\ (forall s vs r, parse_elements f s = Some (vs, r) -> String.length r < String.length s)
  /\ (forall acc s fs r, parse_members f acc s = Some (fs, r) -> String.length r < String.length s).
Proof.
  induction f as [| f (IHv & IHe & IHm)]; [done |]. split; [| split].
  - intros s v r. cbn -[strip_prefix parse_string]. pose proof (skip_ws_length s) as W.
    destruct (expect quote_char (skip_ws s)) as [u |] eqn:E1.
    { apply expect_length in E1. destruct (parse_string u) as [[t u'] |] eqn:P; [| done].
      apply parse_chars_length in P. simpl. intros ?; simplify_eq; lia. }
    destruct (expect "[" (skip_ws s)) as [u |] eqn:E2.
    { apply expect_length in E2. pose proof (skip_ws_length u). destruct (expect "]" (skip_ws u)) as [u' |] eqn:E.
      - apply expect_length in E. intros ?; simplify_eq; lia.
      - destruct (parse_elements f u) as [[vs u'] |] eqn:P; [| done]. apply IHe in P. simpl. intros ?; simplify_eq; lia. }
    destruct (expect "{" (skip_ws s)) as [u |] eqn:E3.
    { apply expect_length in E3. pose proof (skip_ws_length u). destruct (expect "}" (skip_ws u)) as [u' |] eqn:E.
      - apply expect_length in E. intros ?; simplify_eq; lia.
      - destruct (parse_members f [] u) as [[fs u'] |] eqn:P; [| done]. apply IHm in P. simpl. intros ?; simplify_eq; lia. }
    destruct (strip_prefix "null" _) as [u |] eqn:E4; [apply strip_prefix_length in E4; simpl in E4; intros ?; simplify_eq; lia |].
    destruct (strip_prefix "true" _) as [u |] eqn:E5; [apply strip_prefix_length in E5; simpl in E5; intros ?; simplify_eq; lia |].
    destruct (strip_prefix "false" _) as [u |] eqn:E6; [apply strip_prefix_length in E6; simpl in E6; intros ?; simplify_eq; lia |].
    destruct (parse_number _) as [[n u] |] eqn:E7; [| done]. apply parse_number_length in E7. simpl. intros ?; simplify_eq; lia.
  - intros s vs r. cbn. destruct (parse_value f s) as [[v u] |] eqn:P; [| done]. apply IHv in P. simpl.
    pose proof (skip_ws_length u). destruct (expect "," (skip_ws u)) as [u' |] eqn:E; apply expect_length in E || clear E.
    + destruct (parse_elements f u') as [[ws u2] |] eqn:P2; [| done]. apply IHe in P2. simpl. intros ?; simplify_eq; lia.
    + destruct (expect "]" (skip_ws u)) as [u' |] eqn:E; [| done]. apply expect_length in E. simpl. intros ?; simplify_eq; lia.
  - intros acc s fs r. cbn -[parse_string]. pose proof (skip_ws_length s).
    destruct (expect quote_char (skip_ws s)) as [u |] eqn:E1; [| done]. apply expect_length in E1. simpl.
    destruct (parse_string u) as [[k u1] |] eqn:P1; [| done]. apply parse_chars_length in P1. cbn.
    pose proof (skip_ws_length u1). destruct (expect ":" (skip_ws u1)) as [u2 |] eqn:E2; [| done]. apply expect_length in E2. cbn.
    destruct (parse_value f u2) as [[v u3] |] eqn:P2; [| done]. apply IHv in P2. cbn.
    pose proof (skip_ws_length u3). destruct (expect "," (skip_ws u3)) as [u4 |] eqn:E3; apply expect_length in E3 || clear E3.
    + intros P3%IHm. lia.
    + destruct (expect "}" (skip_ws u3)) as [u4 |] eqn:E; [| done]. apply expect_length in E. simpl. intros ?; simplify_eq; lia.
Qed.

Lemma parse_stable_all f :
  (forall g s, 2 * String.length s + 2 <= f -> 2 * String.length s + 2 <= g -> parse_value f s = parse_value g s)
  /\ (forall g s, 2 * String.length s + 3 <= f -> 2 * String.length s + 3 <= g -> parse_elements f s = parse_elements g s)
  /\ (forall g acc s, 2 * String.length s + 3 <= f -> 2 * String.length s + 3 <= g ->
        parse_members f acc s = parse_members g acc s).
Proof.
  induction f as [| f (IHv & IHe & IHm)]; [repeat split; intros; lia |]. split; [| split].
  - intros [| g] s Hf Hg; [lia |]. cbn -[strip_prefix parse_string]. pose proof (skip_ws_length s) as W.
    destruct (expect quote_char (skip_ws s)) as [u |] eqn:E1; [done |].
    destruct (expect "[" (skip_ws s)) as [u |] eqn:E2.
    { apply expect_length in E2. destruct (expect "]" (skip_ws u)); [done |]. by rewrite (IHe g u) by lia. }
    destruct (expect "{" (skip_ws s)) as [u |] eqn:E3; [| done].
    apply expect_length in E3. destruct (expect "}" (skip_ws u)); [done |]. by rewrite (IHm g [] u) by lia.
  - intros [| g] s Hf Hg; [lia |]. cbn. rewrite (IHv g s) by lia.
    destruct (parse_value g s) as [[v u] |] eqn:P; [| done]. apply parse_consumes in P. cbn.
    pose proof (skip_ws_length u). destruct (expect "," (skip_ws u)) as [u' |] eqn:E; [| done].
    apply expect_length in E. by rewrite (IHe g u') by lia.
  - intros [| g] acc s Hf Hg; [lia |]. cbn -[parse_string]. pose proof (skip_ws_length s).
    destruct (expect quote_char (skip_ws s)) as [u |] eqn:E1; [| done]. apply expect_length in E1. cbn -[parse_string].
    destruct (parse_string u) as [[k u1] |] eqn:P1; [| done]. apply parse_chars_length in P1. cbn.
    pose proof (skip_ws_length u1). destruct (expect ":" (skip_ws u1)) as [u2 |] eqn:E2; [| done]. apply expect_length in E2. cbn.
    rewrite (IHv g u2) by lia. destruct (parse_value g u2) as [[v u3] |] eqn:P2; [| done]. apply parse_consumes in P2. cbn.
    pose proof (skip_ws_length u3). destruct (expect "," (skip_ws u3)) as [u4 |] eqn:E3; [| done].
    apply expect_length in E3. by rewrite (IHm g _ u4) by lia.
Qed.

(** No amount of further fuel changes what [JSON_parse] reads. *)
Theorem parse_stable s f : 2 * String.length s + 2 <= f ->
  parse_value f s = parse_value (2 * String.length s + 2) s.
Proof. intros H. by apply parse_stable_all. Qed.

Lemma parse_stable_witness : 2 * String.length "[1]" + 2 <= 100 /\ parse_value 100 "[1]" = Some (JArr [JNum (nz 1)], "").
Proof. split; [vm_compute; lia |]. rewrite (parse_stable "[1]" 100); [reflexivity | vm_compute; lia]. Defined.

(** ** Digests *)

Lemma byte_hex_length b : String.length (padStart2 (byte_hex b)) = 2.
Proof. destruct b as [[] [] [] [] [] [] [] []]; reflexivity. Qed.

(** A digest is sixty-four hexadecimal characters. *)
Lemma sha256Hex_length `{WebCrypto} text : String.length (sha256Hex text) = 64.
Proof.
  unfold sha256Hex. assert (L : forall bs, String.length (join "" (List.map (fun b => padStart2 (byte_hex b)) bs)) = 2 * List.length bs).
  { induction bs as [| b bs IH]; [done |]. cbn [List.map List.length]. destruct bs as [| b2 bs].
    - cbn [List.map join List.length]. rewrite byte_hex_length. lia.
    - rewrite join_cons by done. rewrite !string_length_app, IH, byte_hex_length. cbn [String.length List.length]. lia. }
  by rewrite L, subtle_digest_length.
Qed.

(** ** Witnesses *)

(** A record with an absent field, a nested array, a fraction and characters that need escaping. *)
Definition sample_value : jsval :=
  JObj [("pullNumber", JNum (nz 42)); ("action", JStr (String quote_char (String "010" "close"))); ("gone", JUndefined);
        ("aiConfidence", JNum (rnd (85 # 100))); ("modelIds", JArr [JStr "m1"; JNull; JBool true])].

Lemma canonicalJson_roundtrip_witness :
  keys_distinct sample_value = true /\ numbers_read_back sample_value = true
  /\ exists w, JSON_parse (canonicalJson sample_value) = Some w /\ canonicalJson w = canonicalJson sample_value.
Proof.
  split; [vm_compute; reflexivity |]. split; [vm_compute; reflexivity |].
  apply canonicalJson_roundtrip; vm_compute; reflexivity.
Defined.

Lemma canonicalJson_order_witness :
  NoDup ["b"; "a"] /\ canonicalJson (JObj [("b", JNum (nz 1)); ("a", JNull)]) = canonicalJson (JObj [("a", JNull); ("b", JNum (nz 1))]).
Proof.
  assert (ND : NoDup ["b"; "a"]) by (apply (bool_decide_unpack _); vm_compute; exact I).
  split; [exact ND |]. apply (canonicalJson_order [("b", JNum (nz 1)); ("a", JNull)]); [exact ND | constructor].
Defined.
