(* ===== verification/DecisionRecord.v ===== *)
(** * Decision records and the hash-chained ledger: the writers

    Models [src/review/decision-record.ts] up to the verification (which is
    [LedgerVerify]) and [src/queue/delivery-id.ts]: the published record of a
    verdict ([buildDecisionRecord]), why a head is evaluated again
    ([deriveReevaluationReason], [resolveReevaluation]), and the two tables a
    verdict is written to by [persistDecisionRecord] and [appendDecisionLedger].

    [decision_records] is a map by primary key; [decision_ledger] is the list of
    its rows in the order of their primary key [seq].  A writer is a process
    between two of its statements ([Writer]); [writer_step] runs one statement,
    which may succeed, fail, or take effect and still be reported as failed
    ([Io]).  [lstep] lets any number of writers interleave, start and die, and
    lets the retention job delete expired records between any two statements.

    Main results: whatever interleaves and fails, the ledger stays a chain from
    genesis, every entry commits to a record text with that digest, and the
    process that inserted nothing never appends ([ledger_always_chained]); a
    repeated verdict is never stored without a declared reason, and a first one
    never with one ([reevaluations_declared]).  Not as documented: once
    retention has deleted the first record of a head, a later verdict of the same
    head is lost ([pruned_head_loses_verdicts]). *)

From stdpp Require Import base list strings option gmap sorting pretty relations.
From Stdlib Require Import QArith ZArith Ascii Lia.
From S2P Require Import Prelude JsNumber JsString Ledger CanonicalJson.

Local Open Scope nat_scope.
Local Open Scope string_scope.
Local Open Scope js_scope.

(** ** Delivery ids *)

Inductive DeliveryIdOrigin :=
| regateSweep | regateRepair | manualRegate | backlogConvergence | panelRetriggerRecovery | linkedIssueVerify
| reconcile | surfaceWithoutDisposition.

Definition DELIVERY_ID_PREFIXES (o : DeliveryIdOrigin) : string :=
  match o with
  | regateSweep => "regate-sweep:"
  | regateRepair => "regate-repair:"
  | manualRegate => "manual-regate:"
  | backlogConvergence => "backlog-convergence:"
  | panelRetriggerRecovery => "panel-retrigger-recovery:"
  | linkedIssueVerify => "linked-issue-verify:"
  | reconcile => "reconcile:"
  | surfaceWithoutDisposition => "surface-without-disposition:"
  end.

Definition DELIVERY_ID_ORIGINS : list DeliveryIdOrigin :=
  [regateSweep; regateRepair; manualRegate; backlogConvergence; panelRetriggerRecovery; linkedIssueVerify; reconcile;
   surfaceWithoutDisposition].

Definition deliveryIdFor (origin : DeliveryIdOrigin) (suffix : string) : string := DELIVERY_ID_PREFIXES origin ++ suffix.

Definition deliveryIdOrigin (deliveryId : option string) : option DeliveryIdOrigin :=
  match deliveryId with
  | None => None
  | Some d => List.find (fun o => String.prefix (DELIVERY_ID_PREFIXES o) d) DELIVERY_ID_ORIGINS
  end.

(** ** Why a head is evaluated again *)

Inductive ReevaluationReason :=
| scheduled_recheck | pipeline_error | config_change | maintainer_request | upstream_state_change.

#[global] Instance ReevaluationReason_eq_dec : EqDecision ReevaluationReason.
Proof. solve_decision. Defined.

Definition reason_word (r : ReevaluationReason) : string :=
  match r with
  | scheduled_recheck => "scheduled_recheck"
  | pipeline_error => "pipeline_error"
  | config_change => "config_change"
  | maintainer_request => "maintainer_request"
  | upstream_state_change => "upstream_state_change"
  end.

Definition REEVALUATION_REASONS : list ReevaluationReason :=
  [scheduled_recheck; pipeline_error; config_change; maintainer_request; upstream_state_change].

#[export] Instance ReevaluationReason_vocabulary : Vocabulary ReevaluationReason.
Proof. vocabulary_by reason_word REEVALUATION_REASONS. Defined.

(** [isReevaluationReason], returning the member it narrows to. *)
Definition isReevaluationReason (value : option string) : option ReevaluationReason := value ≫= of_word.

Definition REEVALUATION_REASON_BY_ORIGIN (o : DeliveryIdOrigin) : ReevaluationReason :=
  match o with
  | regateSweep => scheduled_recheck
  | regateRepair => pipeline_error
  | manualRegate => maintainer_request
  | backlogConvergence => pipeline_error
  | panelRetriggerRecovery => maintainer_request
  | linkedIssueVerify => upstream_state_change
  | reconcile => pipeline_error
  | surfaceWithoutDisposition => pipeline_error
  end.

Definition deriveReevaluationReason (deliveryId : option string) : ReevaluationReason :=
  match deliveryIdOrigin deliveryId with
  | None => upstream_state_change
  | Some o => REEVALUATION_REASON_BY_ORIGIN o
  end.

(** The reason is whatever the caller passed: it is validated, not trusted. *)
Record ReevaluationContext := mkReevaluation {
  rc_reason : option string;
  rc_supersedesRecordId : option string;
  rc_actor : option string;
}.

Record ResolvedReevaluation := mkResolved {
  rv_reason : ReevaluationReason;
  rv_supersedesRecordId : string;
  rv_actor : option string;
}.

(** The refusal: [UndeclaredReevaluationError(target, priorCount)]. *)
Inductive Refusal := UndeclaredReevaluationError (target : string) (priorCount : nat).

Definition UndeclaredReevaluationError_message (e : Refusal) : string :=
  let '(UndeclaredReevaluationError target priorCount) := e in
  "Refusing to write a repeat verdict for " ++ target ++ ": this head SHA already has " ++ pretty priorCount
  ++ " verdict(s), so the write must declare a re-evaluation reason (one of "
  ++ join ", " (List.map reason_word REEVALUATION_REASONS) ++ "). A new head SHA needs no reason.".

Definition revision_id (baseId : string) (n : nat) : string := baseId ++ ":rev" ++ pretty n.

Definition resolveReevaluation (priorCount : nat) (baseId : string) (context : option ReevaluationContext) (target : string)
  : Refusal + option ResolvedReevaluation :=
  if Nat.eqb priorCount 0 then inr None
  else
    match isReevaluationReason (context ≫= rc_reason) with
    | None => inl (UndeclaredReevaluationError target priorCount)
    | Some reason =>
        inr (Some (mkResolved reason
          ((context ≫= rc_supersedesRecordId) ?? (if Nat.eqb priorCount 1 then baseId else revision_id baseId priorCount))
          (match context ≫= rc_actor with
           | Some a => if str_empty (trim a) then None else Some (trim a)
           | None => None
           end)))
    end.

(** ** The record *)

Record AiAgreement := mkAgreement { ag_agreement : num; ag_confidence : num; ag_sampleCount : num; ag_uncorroborated : bool }.
Record Salvageability := mkSalvage { sv_score : num; sv_factors : list string }.

Record DecisionRecord := mkRecord {
  dr_schemaVersion : string;
  dr_repoFullName : string;
  dr_pullNumber : Z;
  dr_headSha : string;
  dr_baseSha : option string;
  dr_action : string;
  dr_reasonCode : string;
  dr_configDigest : string;
  dr_settingsDigest : option string;
  dr_gatePack : option string;
  dr_ciState : option string;
  dr_modelIds : option (list string);
  dr_promptDigest : option string;
  dr_aiConfidence : option num;
  dr_aiAgreement : option AiAgreement;
  dr_salvageability : option Salvageability;
  dr_divertedByHoldout : bool;
  dr_findingsCount : option num;
  dr_decidedAt : string;
}.

Definition DECISION_RECORD_SCHEMA_VERSION : string := "6".

Definition agreement_value (a : AiAgreement) : jsval :=
  JObj [("agreement", JNum (ag_agreement a)); ("confidence", JNum (ag_confidence a));
        ("sampleCount", JNum (ag_sampleCount a)); ("uncorroborated", JBool (ag_uncorroborated a))].

Definition salvage_value (s : Salvageability) : jsval :=
  JObj [("score", JNum (sv_score s)); ("factors", JArr (List.map JStr (sv_factors s)))].

(** The record as the object [canonicalJson] receives. *)
Definition record_value (r : DecisionRecord) : jsval :=
  JObj [("schemaVersion", JStr (dr_schemaVersion r)); ("repoFullName", JStr (dr_repoFullName r));
        ("pullNumber", JNum (nz (dr_pullNumber r))); ("headSha", JStr (dr_headSha r));
        ("baseSha", jopt JStr (dr_baseSha r)); ("action", JStr (dr_action r)); ("reasonCode", JStr (dr_reasonCode r));
        ("configDigest", JStr (dr_configDigest r)); ("settingsDigest", jopt JStr (dr_settingsDigest r));
        ("gatePack", jopt JStr (dr_gatePack r)); ("ciState", jopt JStr (dr_ciState r));
        ("modelIds", jopt (fun ms => JArr (List.map JStr ms)) (dr_modelIds r));
        ("promptDigest", jopt JStr (dr_promptDigest r)); ("aiConfidence", jopt JNum (dr_aiConfidence r));
        ("aiAgreement", jopt agreement_value (dr_aiAgreement r));
        ("salvageability", jopt salvage_value (dr_salvageability r));
        ("divertedByHoldout", JBool (dr_divertedByHoldout r)); ("findingsCount", jopt JNum (dr_findingsCount r));
        ("decidedAt", JStr (dr_decidedAt r))].

(** What the caller supplies; an absent field and [null] are treated alike. *)
Record DecisionInput := mkInput {
  in_repoFullName : string;
  in_pullNumber : Z;
  in_headSha : string;
  in_baseSha : option string;
  in_action : string;
  in_reasonCode : string;
  in_configDigest : string;
  in_settingsDigest : option string;
  in_gatePack : option string;
  in_ciState : option string;
  in_modelIds : option (list string);
  in_promptDigest : option string;
  in_aiConfidence : option num;
  in_aiAgreement : option AiAgreement;
  in_salvageability : option Salvageability;
  in_divertedByHoldout : option bool;
  in_findingsCount : option num;
  in_decidedAt : option string;
}.

(** [Number.isInteger(n) && n >= 0]. *)
Definition is_count (n : num) : bool := is_finite n && neqb (nfloor n) n && ngeb n (nz 0).

Definition build_record (input : DecisionInput) (nowIso : string) : DecisionRecord :=
  mkRecord DECISION_RECORD_SCHEMA_VERSION (in_repoFullName input) (in_pullNumber input) (in_headSha input)
    (in_baseSha input) (in_action input) (in_reasonCode input) (in_configDigest input) (in_settingsDigest input)
    (in_gatePack input) (in_ciState input) (in_modelIds input) (in_promptDigest input) (in_aiConfidence input)
    (in_aiAgreement input) (in_salvageability input) (in_divertedByHoldout input ?? false)
    (match in_findingsCount input with Some n => if is_count n then Some n else None | None => None end)
    (in_decidedAt input ?? nowIso).

Definition buildDecisionRecord `{WebCrypto} (input : DecisionInput) (nowIso : string) : DecisionRecord * string :=
  let record := build_record input nowIso in (record, contentDigest (record_value record)).

(** ** The public text *)

Definition bold_code (label value : string) : string := "**" ++ label ++ "**: `" ++ value ++ "`".

Definition renderDecisionRecordSection (record : DecisionRecord) (recordDigest : string) : string :=
  let dot := " · " in
  let truthy (o : option string) := match o with Some s => if str_empty s then None else Some s | None => None end in
  let verdict := "- **action**: " ++ dr_action record ++ dot ++ bold_code "clause" (dr_reasonCode record) in
  let config :=
    "- " ++ bold_code "config" (dr_configDigest record)
    ++ (match truthy (dr_gatePack record) with Some p => dot ++ "**pack**: " ++ p | None => "" end)
    ++ (match truthy (dr_ciState record) with Some c => dot ++ "**ci**: " ++ c | None => "" end) in
  let model :=
    "- **model**: " ++ (match dr_modelIds record with Some (m :: ms) => join "+" (m :: ms) | _ => "n/a" end)
    ++ (match dr_promptDigest record with Some p => dot ++ bold_code "prompt" p | None => "" end)
    ++ (match dr_aiConfidence record with Some c => dot ++ "**confidence**: " ++ num_to_string c | None => "" end) in
  let note := "- **note**: diverted by the randomized close-audit holdout (#8831) — the deterministic pipeline would otherwise have closed this PR" in
  let commitment :=
    "- " ++ bold_code "record" recordDigest ++ " (schema v" ++ dr_schemaVersion record ++ ", head `"
    ++ js_take 7 (dr_headSha record) ++ "`)" in
  join (String "010" "")
    (List.concat [[verdict; config];
      if bool_decide (is_Some (dr_modelIds record)) || bool_decide (is_Some (dr_promptDigest record)) then [model] else [];
      if dr_divertedByHoldout record then [note] else [];
      [commitment]]).

(** ** The tables *)

Record RecordRow := mkRow {
  rr_id : string;
  rr_repoFullName : string;
  rr_pullNumber : Z;
  rr_headSha : string;
  rr_action : string;
  rr_reasonCode : string;
  rr_recordDigest : string;
  rr_recordJson : string;
  rr_createdAt : string;
  rr_reevaluationReason : option ReevaluationReason;
  rr_supersedesRecordId : option string;
  rr_reevaluationActor : option string;
  rr_findingsCount : option num;
  rr_holdCause : option string;
}.

Record LedgerRow := mkLedgerRow {
  lr_seq : Z;
  lr_recordId : string;
  lr_recordDigest : string;
  lr_prevHash : string;
  lr_rowHash : string;
  lr_createdAt : string;
}.

Record Db := mkDb {
  decision_records : gmap string RecordRow;
  decision_ledger : list LedgerRow;      (* ascending [seq] *)
}.

Definition LEDGER_GENESIS_HASH : string := zeros 64.

(** The fields a ledger row commits to. *)
Definition ledger_fields (seq : Z) (recordId recordDigest createdAt : string) : jsval :=
  JObj [("seq", JNum (nz seq)); ("recordId", JStr recordId); ("recordDigest", JStr recordDigest); ("createdAt", JStr createdAt)].

Definition ledgerRowHash `{WebCrypto} (prevHash : string) (fields : jsval) : string :=
  sha256Hex (prevHash ++ canonicalJson fields).

(** [ORDER BY seq DESC LIMIT 1]. *)
Definition ledger_tip (ledger : list LedgerRow) : option LedgerRow := list.last ledger.

(** [INSERT], refused when the primary key is taken. *)
Fixpoint ledger_insert (row : LedgerRow) (ledger : list LedgerRow) : option (list LedgerRow) :=
  match ledger with
  | [] => Some [row]
  | x :: xs =>
      if (lr_seq row =? lr_seq x)%Z then None
      else if (lr_seq row <? lr_seq x)%Z then Some (row :: x :: xs)
      else (fun ys => x :: ys) <$> ledger_insert row xs
  end.

(** The tip's [seq] and [row_hash] with the number of rows, from one statement. *)
Definition loadDecisionLedgerTip (db : Db) : Z * string * nat :=
  match ledger_tip (decision_ledger db) with
  | None => (0%Z, LEDGER_GENESIS_HASH, 0)
  | Some row => (lr_seq row, lr_rowHash row, List.length (decision_ledger db))
  end.

Definition loadPublicLedgerRow (db : Db) (seq : Z) : option LedgerRow :=
  List.find (fun row => (lr_seq row =? seq)%Z) (decision_ledger db).

(** The latest record of a pull request; records with one creation time are in
    no order the query states, here the order of the table. *)
Definition latest_record (db : Db) (repo : string) (pull : Z) : option RecordRow :=
  List.fold_left (fun best row =>
      match best with
      | Some b => if str_ltb (rr_createdAt b) (rr_createdAt row) then Some row else best
      | None => Some row
      end)
    (List.filter (fun row => String.eqb (rr_repoFullName row) repo && (rr_pullNumber row =? pull)%Z)
       (List.map snd (map_to_list (decision_records db)))) None.

Definition loadPublicDecisionRecord (db : Db) (repo : string) (pull : Z) : option (jsval * string) :=
  row ← latest_record db repo pull; v ← JSON_parse (rr_recordJson row); Some (v, rr_recordDigest row).

(** ** The writers *)

Record Write := mkWrite {
  w_record : DecisionRecord;
  w_recordDigest : string;
  w_attempts : nat;
  w_reevaluation : option ReevaluationContext;
  w_holdCause : option string;
}.

Definition target_of (r : DecisionRecord) : string :=
  dr_repoFullName r ++ "#" ++ pretty (dr_pullNumber r) ++ "@" ++ dr_headSha r.

Definition base_id (r : DecisionRecord) : string := js_take 250 ("record:" ++ target_of r).

Definition record_id (r : DecisionRecord) (priorCount : nat) : string :=
  if Nat.eqb priorCount 0 then base_id r else revision_id (base_id r) (priorCount + 1).

(** [SELECT COUNT( * ) ... WHERE repo_full_name = ? AND pull_number = ? AND head_sha = ?]. *)
Definition same_head (r : DecisionRecord) (row : RecordRow) : bool :=
  String.eqb (rr_repoFullName row) (js_take 200 (dr_repoFullName r)) && (rr_pullNumber row =? dr_pullNumber r)%Z
  && String.eqb (rr_headSha row) (dr_headSha r).
Definition prior_count (t : gmap string RecordRow) (r : DecisionRecord) : nat :=
  List.length (List.filter (fun kv => same_head r kv.2) (map_to_list t)).

Definition record_row (id : string) (w : Write) (reevaluated : option ResolvedReevaluation) : RecordRow :=
  let r := w_record w in
  mkRow id (js_take 200 (dr_repoFullName r)) (dr_pullNumber r) (dr_headSha r) (dr_action r) (js_take 200 (dr_reasonCode r))
    (w_recordDigest w) (canonicalJson (record_value r)) (dr_decidedAt r) (rv_reason <$> reevaluated)
    (rv_supersedesRecordId <$> reevaluated) (reevaluated ≫= rv_actor) (dr_findingsCount r) (w_holdCause w).

(** A database statement succeeds, fails without effect, or takes effect and
    is still reported as failed. *)
Inductive Io := io_ok | io_fault | io_lost.

(** What is logged. *)
Inductive LedgerEvent :=
| ev_append_failed (recordId : string)     (* [decision_ledger_append_failed] *)
| ev_persist_error (target : string).      (* [decision_record_persist_error] *)

(** [persistDecisionRecord] before its next statement. *)
Inductive Writer :=
| wr_count (w : Write) (attempt : nat)
| wr_insert (w : Write) (attempt priorCount : nat) (reevaluated : option ResolvedReevaluation)
| wr_tip (recordId recordDigest : string) (attempt : nat)
| wr_append (recordId recordDigest : string) (attempt : nat) (seq : Z) (prevHash createdAt : string)
| wr_done (id : option string)
| wr_refused (e : Refusal).

Definition APPEND_ATTEMPTS : nat := 3.

Definition persist_target (r : DecisionRecord) : string := dr_repoFullName r ++ "#" ++ pretty (dr_pullNumber r).

(** The record insert threw. *)
Definition insert_failed (w : Write) (attempt : nat) : Writer * list LedgerEvent :=
  if Nat.leb (w_attempts w) attempt then (wr_done None, [ev_persist_error (persist_target (w_record w))])
  else (wr_count w (attempt + 1), []).

(** The ledger insert threw. *)
Definition append_failed (recordId recordDigest : string) (attempt : nat) : Writer * list LedgerEvent :=
  if Nat.eqb attempt APPEND_ATTEMPTS then (wr_done (Some recordId), [ev_append_failed recordId])
  else (wr_tip recordId recordDigest (attempt + 1), []).

Definition writer_step `{WebCrypto} (io : Io) (clock : string) (db : Db) (p : Writer) : Db * Writer * list LedgerEvent :=
  match p with
  | wr_count w attempt =>
      match io with
      | io_ok =>
          let n := prior_count (decision_records db) (w_record w) in
          match resolveReevaluation n (base_id (w_record w)) (w_reevaluation w) (target_of (w_record w)) with
          | inl e => (db, wr_refused e, [])
          | inr reevaluated => (db, wr_insert w attempt n reevaluated, [])
          end
      | _ => (db, wr_done None, [ev_persist_error (persist_target (w_record w))])
      end
  | wr_insert w attempt n reevaluated =>
      let id := record_id (w_record w) n in
      let failed := insert_failed w attempt in
      match decision_records db !! id, io with
      | Some _, _ | None, io_fault => (db, failed.1, failed.2)
      | None, _ =>
          let db' := mkDb (<[id := record_row id w reevaluated]> (decision_records db)) (decision_ledger db) in
          match io with
          | io_ok => (db', wr_tip id (w_recordDigest w) 1, [])
          | _ => (db', failed.1, failed.2)
          end
      end
  | wr_tip id digest attempt =>
      match io with
      | io_ok =>
          let tip := ledger_tip (decision_ledger db) in
          (db, wr_append id digest attempt (((lr_seq <$> tip) ?? 0%Z) + 1)%Z ((lr_rowHash <$> tip) ?? LEDGER_GENESIS_HASH) clock, [])
      | _ => (db, wr_done (Some id), [ev_append_failed id])
      end
  | wr_append id digest attempt seq prevHash createdAt =>
      let row := mkLedgerRow seq id digest prevHash (ledgerRowHash prevHash (ledger_fields seq id digest createdAt)) createdAt in
      let failed := append_failed id digest attempt in
      match ledger_insert row (decision_ledger db), io with
      | None, _ | Some _, io_fault => (db, failed.1, failed.2)
      | Some ledger', io_ok => (mkDb (decision_records db) ledger', wr_done (Some id), [])
      | Some ledger', io_lost => (mkDb (decision_records db) ledger', failed.1, failed.2)
      end
  | wr_done _ | wr_refused _ => (db, p, [])
  end.

(** ** Concurrent writers *)

Record LedgerSys := mkLedgerSys {
  ls_db : Db;
  ls_writers : list Writer;
  ls_log : list LedgerEvent;
}.

(** The retention job deletes records created before its cutoff, in batches:
    between two statements some of the expired ones are gone. *)
Definition prunes (cutoff : string) (t t' : gmap string RecordRow) : Prop :=
  t' ⊆ t /\ forall id row, t !! id = Some row -> t' !! id = None -> str_ltb (rr_createdAt row) cutoff = true.

(** The completed deletion. *)
Definition prune_records (cutoff : string) (t : gmap string RecordRow) : gmap string RecordRow :=
  filter (fun kv => str_ltb (rr_createdAt kv.2) cutoff = false) t.

(** Both call sites persist what [buildDecisionRecord] returned. *)
Definition start_writer `{WebCrypto} (input : DecisionInput) (nowIso : string) (reevaluation : option ReevaluationContext)
  (holdCause : option string) : Writer :=
  let '(record, recordDigest) := buildDecisionRecord input nowIso in
  wr_count (mkWrite record recordDigest 3 reevaluation holdCause) 1.

(** A process moves, starts or dies, or the retention job deletes.  The numbers
    of a record are doubles, which the language renders as decimals that read
    back as the same double. *)
Inductive lstep `{WebCrypto} (retention : bool) : LedgerSys -> LedgerSys -> Prop :=
| ls_move db pre p post log io clock db' p' evs :
    writer_step io clock db p = (db', p', evs) ->
    lstep retention (mkLedgerSys db (pre ++ p :: post) log) (mkLedgerSys db' (pre ++ p' :: post) (log ++ evs))
| ls_start db ws log input nowIso reevaluation holdCause :
    numbers_read_back (record_value (build_record input nowIso)) = true ->
    lstep retention (mkLedgerSys db ws log) (mkLedgerSys db (start_writer input nowIso reevaluation holdCause :: ws) log)
| ls_die db pre p post log :
    lstep retention (mkLedgerSys db (pre ++ p :: post) log) (mkLedgerSys db (pre ++ post) log)
| ls_prune db ws log cutoff t' :
    retention = true -> prunes cutoff (decision_records db) t' ->
    lstep retention (mkLedgerSys db ws log) (mkLedgerSys (mkDb t' (decision_ledger db)) ws log).

Definition empty_db : Db := mkDb ∅ [].
Definition ledger_reachable `{WebCrypto} (retention : bool) (s : LedgerSys) : Prop :=
  rtc (lstep retention) (mkLedgerSys empty_db [] []) s.

(** ** The chain *)

(** [rows] continue a chain whose last row has hash [prev] and number [n]. *)
Fixpoint chained `{WebCrypto} (prev : string) (n : Z) (rows : list LedgerRow) : Prop :=
  match rows with
  | [] => True
  | row :: rows' =>
      lr_seq row = (n + 1)%Z /\ lr_prevHash row = prev
      /\ lr_rowHash row = ledgerRowHash prev (ledger_fields (lr_seq row) (lr_recordId row) (lr_recordDigest row) (lr_createdAt row))
      /\ chained (lr_rowHash row) (n + 1) rows'
  end.

(** The hash a chain of [rows] ends in. *)
Definition end_hash (prev : string) (rows : list LedgerRow) : string := (lr_rowHash <$> ledger_tip rows) ?? prev.

Section Chain.
Context `{WebCrypto}.

Lemma end_hash_cons prev row rows : end_hash prev (row :: rows) = end_hash (lr_rowHash row) rows.
Proof. unfold end_hash, ledger_tip. rewrite list.last_cons. by destruct (list.last rows). Qed.

Lemma chained_app prev n a b :
  chained prev n (a ++ b) <-> chained prev n a /\ chained (end_hash prev a) (n + Z.of_nat (List.length a)) b.
Proof.
  revert prev n. induction a as [| row a IH]; intros prev n.
  - cbn [app chained List.length]. change (end_hash prev []) with prev. rewrite Z.add_0_r. tauto.
  - cbn [app chained List.length]. rewrite IH, end_hash_cons.
    replace (n + 1 + Z.of_nat (List.length a))%Z with (n + Z.of_nat (S (List.length a)))%Z by lia. tauto.
Qed.

Lemma chained_seqs prev n rows : chained prev n rows ->
  forall i row, rows !! i = Some row -> lr_seq row = (n + Z.of_nat i + 1)%Z.
Proof.
  revert prev n. induction rows as [| r rows IH]; intros prev n C i row E; [done |]. destruct C as (S & _ & _ & C).
  destruct i as [| i]; simpl in E; [injection E as <-; lia |]. rewrite (IH _ _ C i row E). lia.
Qed.

Lemma chained_tip prev n rows : chained prev n rows ->
  (((lr_seq <$> ledger_tip rows) ?? n) = n + Z.of_nat (List.length rows))%Z.
Proof.
  intros C. destruct rows as [| r rows] using rev_ind; [simpl; lia |]. clear IHrows.
  unfold ledger_tip. rewrite last_snoc. cbn. apply chained_app in C as (_ & S & _). rewrite length_app. simpl. lia.
Qed.

(** An insert with a taken number is refused, with the next number it appends. *)
Lemma ledger_insert_taken prev n rows row : chained prev n rows ->
  (n < lr_seq row <= n + Z.of_nat (List.length rows))%Z -> ledger_insert row rows = None.
Proof.
  revert prev n. induction rows as [| r rows IH]; intros prev n C B; cbn [List.length] in B; [lia |].
  destruct C as (S & _ & _ & C). cbn [ledger_insert].
  destruct (Z.eqb_spec (lr_seq row) (lr_seq r)); [done |]. destruct (Z.ltb_spec (lr_seq row) (lr_seq r)); [lia |].
  by rewrite (IH _ _ C) by lia.
Qed.

Lemma ledger_insert_next prev n rows row : chained prev n rows ->
  (lr_seq row = n + Z.of_nat (List.length rows) + 1)%Z -> ledger_insert row rows = Some (rows ++ [row])%list.
Proof.
  revert prev n. induction rows as [| r rows IH]; intros prev n C B; cbn [List.length] in B; [done |].
  destruct C as (S & _ & _ & C). cbn [ledger_insert].
  destruct (Z.eqb_spec (lr_seq row) (lr_seq r)); [lia |]. destruct (Z.ltb_spec (lr_seq row) (lr_seq r)); [lia |].
  by rewrite (IH _ _ C) by lia.
Qed.

(** A writer about to append read the hash of the row before its number. *)
Definition tip_read (ledger : list LedgerRow) (p : Writer) : Prop :=
  match p with
  | wr_append _ _ _ seq prevHash _ =>
      exists k, k <= List.length ledger /\ seq = (Z.of_nat k + 1)%Z /\ prevHash = end_hash LEDGER_GENESIS_HASH (take k ledger)
  | _ => True
  end.

Lemma tip_read_grow ledger row p : tip_read ledger p -> tip_read (ledger ++ [row]) p.
Proof.
  destruct p; try done. intros (k & L & -> & ->). exists k. rewrite length_app. split; [lia |]. split; [done |].
  by rewrite take_app_le.
Qed.

(** The ledger after the append of a writer whose read was right: refused, or
    longer by its row. *)
Lemma append_cases ledger id digest attempt seq prevHash createdAt :
  let row := mkLedgerRow seq id digest prevHash (ledgerRowHash prevHash (ledger_fields seq id digest createdAt)) createdAt in
  chained LEDGER_GENESIS_HASH 0 ledger -> tip_read ledger (wr_append id digest attempt seq prevHash createdAt) ->
  ledger_insert row ledger = None
  \/ (ledger_insert row ledger = Some (ledger ++ [row])%list /\ chained LEDGER_GENESIS_HASH 0 (ledger ++ [row])).
Proof.
  intros row C (k & L & -> & ->). destruct (decide (k = List.length ledger)) as [-> | Hk].
  - right. split; [apply (ledger_insert_next _ _ _ _ C); cbn; lia |].
    apply chained_app. split; [done |]. cbn. rewrite firstn_all. repeat split; lia.
  - left. apply (ledger_insert_taken _ _ _ _ C). cbn. lia.
Qed.

(** What a statement does to the ledger. *)
Lemma writer_step_ledger io clock db p db' p' evs :
  chained LEDGER_GENESIS_HASH 0 (decision_ledger db) -> tip_read (decision_ledger db) p ->
  writer_step io clock db p = (db', p', evs) ->
  chained LEDGER_GENESIS_HASH 0 (decision_ledger db') /\ tip_read (decision_ledger db') p'
  /\ (decision_ledger db' = decision_ledger db \/ exists row, decision_ledger db' = (decision_ledger db ++ [row])%list).
Proof.
  intros C T. destruct p as [w a | w a n re | id d a | id d a seq ph ca | id | e]; cbn [writer_step].
  - destruct io; [destruct (resolveReevaluation _ _ _ _) |..]; intros [= <- <- <-]; auto.
  - unfold insert_failed. destruct (decision_records db !! _), io; try destruct (Nat.leb _ _); intros [= <- <- <-]; simpl; auto.
  - destruct io; intros [= <- <- <-]; simpl; auto. split; [done |]. split; [| by left].
    exists (List.length (decision_ledger db)). split; [done |]. split; [| by rewrite firstn_all].
    rewrite (chained_tip _ _ _ C). lia.
  - destruct (append_cases (decision_ledger db) id d a seq ph ca C T) as [-> | [-> C']];
      unfold append_failed; destruct io; try destruct (Nat.eqb _ _); intros [= <- <- <-]; simpl; eauto.
  - intros [= <- <- <-]; auto.
  - intros [= <- <- <-]; auto.
Qed.

Definition chain_inv (s : LedgerSys) : Prop :=
  chained LEDGER_GENESIS_HASH 0 (decision_ledger (ls_db s)) /\ Forall (tip_read (decision_ledger (ls_db s))) (ls_writers s).

Lemma chain_inv_step retention s s' : chain_inv s -> lstep retention s s' -> chain_inv s'.
Proof.
  intros [C T] St. destruct St as [db pre p post log io clock db' p' evs E | db ws log input nowIso re hc Hn | db pre p post log | db ws log cutoff t' _ _];
    unfold chain_inv in *; cbn [ls_db ls_writers] in *.
  - apply Forall_app in T as [T1 T2]. apply Forall_cons in T2 as [Tp T2].
    destruct (writer_step_ledger _ _ _ _ _ _ _ C Tp E) as (C' & Tp' & G). split; [done |].
    assert (K : forall q, tip_read (decision_ledger db) q -> tip_read (decision_ledger db') q).
    { intros q. destruct G as [-> | [row ->]]; [done |]. apply tip_read_grow. }
    apply Forall_app. split; [by eapply Forall_impl | constructor; [done | by eapply Forall_impl]].
  - split; [done |]. constructor; [| done]. unfold start_writer. by destruct (buildDecisionRecord _ _).
  - split; [done |]. apply Forall_app in T as [T1 T2]. apply Forall_cons in T2 as [_ T2]. by apply Forall_app.
  - by split.
Qed.

Lemma chain_inv_reachable retention s : ledger_reachable retention s -> chain_inv s.
Proof.
  intros R. unfold ledger_reachable in R. remember (mkLedgerSys empty_db [] []) as s0 eqn:E.
  assert (C0 : chain_inv s0) by (subst; by repeat constructor).
  clear E. induction R; [done |]. eauto using chain_inv_step.
Qed.
End Chain.

(** ** The records *)

Section Records.
Context `{WebCrypto}.

(** The digest is that of the record, whose numbers read back. *)
Inductive honest (w : Write) : Prop :=
| honest_write : w_recordDigest w = contentDigest (record_value (w_record w)) ->
    numbers_read_back (record_value (w_record w)) = true -> honest w.

(** A verdict with [n] earlier ones carries a declared reason exactly when [n > 0]. *)
Definition declared (n : nat) (re : option ResolvedReevaluation) : Prop :=
  if Nat.eqb n 0 then re = None else is_Some re.

Lemma resolve_declared n base ctx target re : resolveReevaluation n base ctx target = inr re -> declared n re.
Proof.
  unfold resolveReevaluation, declared. destruct (Nat.eqb n 0); [by intros [= <-] |].
  destruct (isReevaluationReason _); [| done]. intros [= <-]. eauto.
Qed.

(** A row as some writer wrote it. *)
Definition written (id : string) (row : RecordRow) : Prop :=
  exists w n re, row = record_row id w re /\ id = record_id (w_record w) n /\ honest w /\ declared n re.

(** What a writer holds between two statements.  Without retention the record
    it is about to chain is in the table. *)
Definition holds (retention : bool) (t : gmap string RecordRow) (p : Writer) : Prop :=
  match p with
  | wr_count w _ => honest w
  | wr_insert w _ n re => honest w /\ declared n re
  | wr_tip id d _ | wr_append id d _ _ _ _ => retention = false -> exists row, t !! id = Some row /\ rr_recordDigest row = d
  | _ => True
  end.

Definition records_inv (retention : bool) (s : LedgerSys) : Prop :=
  (forall id row, decision_records (ls_db s) !! id = Some row -> written id row)
  /\ Forall (holds retention (decision_records (ls_db s))) (ls_writers s)
  /\ (retention = false -> forall lr, lr ∈ decision_ledger (ls_db s) ->
        exists row, decision_records (ls_db s) !! lr_recordId lr = Some row /\ rr_recordDigest row = lr_recordDigest lr).

Lemma record_holds_mono retention (t t' : gmap string RecordRow) p : t ⊆ t' -> holds retention t p -> holds retention t' p.
Proof. intros S. destruct p; simpl; try done; intros K E; destruct (K E) as (row & L & D); eauto using lookup_weaken. Qed.

Lemma ledger_insert_in row : forall ledger ledger' lr, ledger_insert row ledger = Some ledger' -> lr ∈ ledger' -> lr = row \/ lr ∈ ledger.
Proof.
  induction ledger as [| x xs IH]; intros ledger' lr; simpl; [intros [= <-]; set_solver |].
  destruct (_ =? _)%Z; [done |]. destruct (_ <? _)%Z; [intros [= <-]; set_solver |].
  destruct (ledger_insert row xs) as [ys |] eqn:E; [| done]. intros [= <-] Hin. apply elem_of_cons in Hin as [-> | Hin]; [set_solver |].
  destruct (IH _ _ eq_refl Hin); set_solver.
Qed.

(** What a statement does to the records and to what its writer holds. *)
Lemma writer_step_records retention io clock db p db' p' evs :
  (forall id row, decision_records db !! id = Some row -> written id row) ->
  holds retention (decision_records db) p -> writer_step io clock db p = (db', p', evs) ->
  decision_records db ⊆ decision_records db'
  /\ (forall id row, decision_records db' !! id = Some row -> written id row)
  /\ holds retention (decision_records db') p'
  /\ (retention = false -> forall lr, lr ∈ decision_ledger db' -> lr ∈ decision_ledger db
        \/ exists row, decision_records db' !! lr_recordId lr = Some row /\ rr_recordDigest row = lr_recordDigest lr).
Proof.
  intros W Hp. destruct p as [w a | w a n re | id d a | id d a seq ph ca | id | e]; cbn [writer_step] in *.
  - destruct io; [destruct (resolveReevaluation _ _ _ _) eqn:E |..]; intros [= <- <- <-]; cbn in *; split_and!; eauto using resolve_declared.
  - destruct Hp as [Ho De]. set (id := record_id (w_record w) n).
    assert (Hf : forall t, holds retention t (insert_failed w a).1).
    { intros t. unfold insert_failed. by destruct (Nat.leb _ _). }
    destruct (decision_records db !! id) eqn:E.
    { intros [= <- <- <-]. cbn. split_and!; eauto. }
    assert (W' : forall id' row', <[id := record_row id w re]> (decision_records db) !! id' = Some row' -> written id' row').
    { intros id' row'. destruct (decide (id' = id)) as [-> | Hne]; [| rewrite lookup_insert_ne by done; apply W].
      rewrite lookup_insert_eq. intros [= <-]. by exists w, n, re. }
    assert (S : decision_records db ⊆ <[id := record_row id w re]> (decision_records db)) by (by apply insert_subseteq).
    destruct io; intros [= <- <- <-]; cbn; split_and!; eauto.
    intros _. exists (record_row id w re). by rewrite lookup_insert_eq.
  - destruct io; intros [= <- <- <-]; cbn in *; split_and!; eauto.
  - assert (Hf : holds retention (decision_records db) (append_failed id d a).1).
    { unfold append_failed. by destruct (Nat.eqb _ _). }
    destruct (ledger_insert _ _) as [l |] eqn:E; [| intros [= <- <- <-]; cbn in *; split_and!; eauto].
    assert (L : retention = false -> forall lr, lr ∈ l -> lr ∈ decision_ledger db
      \/ exists row, decision_records db !! lr_recordId lr = Some row /\ rr_recordDigest row = lr_recordDigest lr).
    { intros R lr Hin. destruct (ledger_insert_in _ _ _ _ E Hin) as [-> |]; [right; by apply Hp | by left]. }
    destruct io; intros [= <- <- <-]; cbn in *; split_and!; eauto.
  - intros [= <- <- <-]; cbn in *; split_and!; eauto.
  - intros [= <- <- <-]; cbn in *; split_and!; eauto.
Qed.

Lemma records_inv_step retention s s' : records_inv retention s -> lstep retention s s' -> records_inv retention s'.
Proof.
  intros (W & Hp & L) St. unfold records_inv in *.
  destruct St as [db pre p post log io clock db' p' evs E | db ws log input nowIso re hc Hn | db pre p post log | db ws log cutoff t' R [P _]];
    cbn [ls_db ls_writers] in *.
  - apply Forall_app in Hp as [H1 H2]. apply Forall_cons in H2 as [H0 H2].
    destruct (writer_step_records _ _ _ _ _ _ _ _ W H0 E) as (S & W' & H0' & L'). split; [done |]. split.
    + apply Forall_app. split; [| constructor; [done |]]; eapply Forall_impl; eauto using record_holds_mono.
    + intros R lr Hin. destruct (L' R lr Hin) as [Hin' | ?]; [| done]. destruct (L R lr Hin') as (row & ? & ?).
      exists row. eauto using lookup_weaken.
  - split; [done |]. split; [| done]. constructor; [by constructor | done].
  - split; [done |]. split; [| done]. apply Forall_app in Hp as [H1 H2]. apply Forall_cons in H2 as [_ H2]. by apply Forall_app.
  - cbn. split; [| split; [| congruence]].
    + intros id row E. apply W. eauto using lookup_weaken.
    + eapply Forall_impl; [exact Hp |]. intros p Hh. subst. destruct p; simpl in *; done || congruence.
Qed.

Lemma records_inv_reachable retention s : ledger_reachable retention s -> records_inv retention s.
Proof.
  intros R. unfold ledger_reachable in R. remember (mkLedgerSys empty_db [] []) as s0 eqn:E.
  assert (C0 : records_inv retention s0).
  { subst. split; [intros id row E; cbn in E; by rewrite lookup_empty in E |]. split; [constructor |]. intros _ lr Hin. set_solver. }
  clear E. induction R; [done |]. eauto using records_inv_step.
Qed.
End Records.

(** ** A writer on its own *)

(** [fuel] statements of one writer, all successful. *)
Fixpoint run_writer `{WebCrypto} (fuel : nat) (clock : string) (db : Db) (p : Writer) (log : list LedgerEvent)
  : Db * Writer * list LedgerEvent :=
  match fuel with
  | O => (db, p, log)
  | S f => let '(db', p', evs) := writer_step io_ok clock db p in run_writer f clock db' p' (log ++ evs)
  end.

Lemma run_writer_steps `{WebCrypto} retention fuel clock : forall db p log db' p' log' ws,
  run_writer fuel clock db p log = (db', p', log') ->
  rtc (lstep retention) (mkLedgerSys db (p :: ws) log) (mkLedgerSys db' (p' :: ws) log').
Proof.
  induction fuel as [| f IH]; intros db p log db' p' log' ws; simpl; [intros [= <- <- <-]; constructor |].
  destruct (writer_step io_ok clock db p) as [[db1 p1] evs] eqn:E. intros R. eapply rtc_l; [| by apply IH].
  exact (ls_move retention db [] p ws log io_ok clock db1 p1 evs E).
Qed.

Section Properties.
Context `{WebCrypto}.

Lemma ledger_grows retention s s' : chain_inv s -> rtc (lstep retention) s s' ->
  exists more, decision_ledger (ls_db s') = (decision_ledger (ls_db s) ++ more)%list.
Proof.
  intros C R. induction R as [s | s1 s2 s3 St R IH]; [exists []; by rewrite app_nil_r |].
  destruct (IH (chain_inv_step _ _ _ C St)) as [more Em].
  assert (G : exists m, decision_ledger (ls_db s2) = (decision_ledger (ls_db s1) ++ m)%list).
  { destruct C as [C T]. destruct St as [db pre p post log io clock db' p' evs E | | |]; cbn in *; try (exists []; by rewrite app_nil_r).
    apply Forall_app in T as [_ T]. apply Forall_cons in T as [T _].
    destruct (writer_step_ledger _ _ _ _ _ _ _ C T E) as (_ & _ & [-> | [row ->]]); [exists []; by rewrite app_nil_r | by eexists]. }
  destruct G as [m Em']. exists (m ++ more)%list. by rewrite Em, Em', app_assoc.
Qed.

(** C12: the ledger is a chain from genesis in every reachable state, however
    writers interleave, fail, lose answers and die and whatever retention
    deletes: the numbers are 1, 2, ..., each row commits to its predecessor's
    hash and its hash is the digest of its fields.  And it only ever grows at
    its end. *)
Theorem ledger_always_chained s s' :
  ledger_reachable true s -> rtc (lstep true) s s' ->
  chained LEDGER_GENESIS_HASH 0 (decision_ledger (ls_db s))
  /\ exists more, decision_ledger (ls_db s') = (decision_ledger (ls_db s) ++ more)%list.
Proof. intros R St. pose proof (chain_inv_reachable _ _ R) as C. split; [apply C | by eapply ledger_grows]. Qed.

(** Every stored verdict is either the first of its head, under the plain id
    and without a reason, or a revision [:rev<n>], [n >= 2], with one of the five
    declared reasons and the record it supersedes; its text and digest are those
    of one record. *)
Theorem reevaluations_declared s id row :
  ledger_reachable true s -> decision_records (ls_db s) !! id = Some row ->
  exists r, rr_recordJson row = canonicalJson (record_value r) /\ rr_recordDigest row = contentDigest (record_value r)
    /\ ((id = base_id r /\ rr_reevaluationReason row = None /\ rr_supersedesRecordId row = None)
        \/ exists n, 2 <= n /\ id = revision_id (base_id r) n
             /\ is_Some (rr_reevaluationReason row) /\ is_Some (rr_supersedesRecordId row)).
Proof.
  intros R E. apply records_inv_reachable in R as (W & _). destruct (W _ _ E) as (w & n & re & -> & -> & [Ho _] & De).
  exists (w_record w). split; [done |]. split; [done |]. unfold declared, record_id in *.
  destruct (Nat.eqb n 0) eqn:E0; [subst re; by left |]. apply Nat.eqb_neq in E0. right. destruct De as [v ->].
  exists (n + 1). repeat split; [lia | eauto..].
Qed.

(** Alone and without faults, a verdict whose id is free is stored under it and
    chained behind the tip: one record and one ledger row more. *)
Theorem persist_stores db w clock re :
  let r := w_record w in
  let n := prior_count (decision_records db) r in
  let id := record_id r n in
  let prevHash := end_hash LEDGER_GENESIS_HASH (decision_ledger db) in
  let seq := (Z.of_nat (List.length (decision_ledger db)) + 1)%Z in
  chained LEDGER_GENESIS_HASH 0 (decision_ledger db) ->
  resolveReevaluation n (base_id r) (w_reevaluation w) (target_of r) = inr re ->
  decision_records db !! id = None ->
  run_writer 4 clock db (wr_count w 1) []
  = (mkDb (<[id := record_row id w re]> (decision_records db))
       (decision_ledger db ++ [mkLedgerRow seq id (w_recordDigest w) prevHash
          (ledgerRowHash prevHash (ledger_fields seq id (w_recordDigest w) clock)) clock])%list,
     wr_done (Some id), []).
Proof.
  intros r n id prevHash seq C Re Fr. cbn [run_writer writer_step]. fold r n. rewrite Re. cbn [writer_step]. fold r id.
  rewrite Fr. cbn [writer_step decision_ledger].
  pose proof (chained_tip _ _ _ C) as T. rewrite T.
  rewrite (ledger_insert_next _ _ _ _ C) by (cbn; lia). cbn [decision_records]. reflexivity.
Qed.

(** A repeat verdict that does not declare a known reason is refused and
    leaves both tables as they are. *)
Theorem undeclared_refused db w clock :
  let n := prior_count (decision_records db) (w_record w) in
  0 < n -> isReevaluationReason (w_reevaluation w ≫= rc_reason) = None ->
  run_writer 1 clock db (wr_count w 1) [] = (db, wr_refused (UndeclaredReevaluationError (target_of (w_record w)) n), []).
Proof.
  intros n Hn Hr. cbn. fold n. unfold resolveReevaluation. rewrite Hr.
  by destruct (Nat.eqb_spec n 0); [lia |].
Qed.

(** C27: when a record of the head has been deleted so that the count no longer
    names a free revision, a further verdict of that head is lost: three
    attempts collide, the failure is swallowed and both tables stay as they
    are. *)
Theorem pruned_head_loses_verdicts db w clock :
  let r := w_record w in
  let n := prior_count (decision_records db) r in
  w_attempts w = 3 -> 0 < n -> is_Some (isReevaluationReason (w_reevaluation w ≫= rc_reason)) ->
  is_Some (decision_records db !! revision_id (base_id r) (n + 1)) ->
  run_writer 6 clock db (wr_count w 1) [] = (db, wr_done None, [ev_persist_error (persist_target r)]).
Proof.
  intros r n Ha Hn [reason Hr] [row Hrow].
  assert (exists re, resolveReevaluation n (base_id r) (w_reevaluation w) (target_of r) = inr re) as [re Re].
  { unfold resolveReevaluation. rewrite Hr. destruct (Nat.eqb n 0); eauto. }
  assert (I : record_id r n = revision_id (base_id r) (n + 1)) by (unfold record_id; destruct (Nat.eqb_spec n 0); [lia | done]).
  assert (Step : forall a, writer_step io_ok clock db (wr_count w a) = (db, wr_insert w a n re, [])) by (intros a; cbn; fold r n; by rewrite Re).
  assert (Ins : forall a, writer_step io_ok clock db (wr_insert w a n re) = (db, (insert_failed w a).1, (insert_failed w a).2)).
  { intros a. cbn. fold r. by rewrite I, Hrow. }
  unfold insert_failed in Ins. rewrite Ha in Ins.
  cbn [run_writer]. rewrite Step, Ins. cbn [Nat.leb Nat.add fst snd]. rewrite Step, Ins. cbn [Nat.leb Nat.add fst snd].
  rewrite Step, Ins. reflexivity.
Qed.
End Properties.

(** ** Witnesses *)

(** A digest of thirty-two bytes to run the code with. *)
Fixpoint toy_fold (acc : N) (s : string) : N :=
  match s with
  | EmptyString => acc
  | String c s' => toy_fold (N.land (acc * 31 + N_of_ascii c + 1) 65535)%N s'
  end.

Fixpoint toy_bytes (n : nat) (x : N) : list ascii :=
  match n with
  | O => []
  | S n' => ascii_of_N (x mod 256) :: toy_bytes n' (x / 256)
  end.

Lemma toy_bytes_length n x : List.length (toy_bytes n x) = n.
Proof. revert x. induction n as [| n IH]; intros x; simpl; congruence. Qed.

#[export] Instance toy_crypto : WebCrypto :=
  {| subtle_digest data := toy_bytes 32 (toy_fold 0 data); subtle_digest_length data := toy_bytes_length 32 (toy_fold 0 data) |}.

Definition sample_input (action decidedAt : string) : DecisionInput :=
  mkInput "acme/widgets" 7 "c0ffee" None action "slop" "cfg" None None None None None None None None None (Some (nz 2)) (Some decidedAt).

Definition recheck : option ReevaluationContext := Some (mkReevaluation (Some "scheduled_recheck") None None).

Definition sample_write (action decidedAt : string) (re : option ReevaluationContext) : Write :=
  let '(record, digest) := buildDecisionRecord (sample_input action decidedAt) "now" in mkWrite record digest 3 re None.

(** Two verdicts of one head, a hundred days apart; then retention takes the first. *)
Definition alone (clock : string) (db : Db) (action decidedAt : string) : Db * Writer * list LedgerEvent :=
  run_writer 4 clock db (wr_count (sample_write action decidedAt recheck) 1) [].
Definition one_verdict : Db := (alone "2026-01-01T00:00:01.000Z" empty_db "hold" "2026-01-01T00:00:00.000Z").1.1.
Definition two_verdicts : Db := (alone "2026-04-11T00:00:01.000Z" one_verdict "hold" "2026-04-11T00:00:00.000Z").1.1.
Definition first_pruned : Db :=
  mkDb (prune_records "2026-01-02T00:00:00.000Z" (decision_records two_verdicts)) (decision_ledger two_verdicts).

Lemma prune_records_prunes cutoff t : prunes cutoff t (prune_records cutoff t).
Proof.
  split; [apply map_filter_subseteq |]. intros id row E N. destruct (str_ltb (rr_createdAt row) cutoff) eqn:L; [done |].
  apply map_lookup_filter_None in N as [N | N]; [congruence |]. by destruct (N row E).
Qed.

Lemma triple_eq {A B C} (x : A * B * C) b c : (x.1.2, x.2) = (b, c) -> x = (x.1.1, b, c).
Proof. destruct x as [[a b'] c']. by intros [= -> ->]. Qed.

(** A complete run of a writer that starts in a reachable state. *)
Lemma alone_reachable retention clock db action decidedAt id ws log :
  ledger_reachable retention (mkLedgerSys db ws log) ->
  numbers_read_back (record_value (build_record (sample_input action decidedAt) "now")) = true ->
  ((alone clock db action decidedAt).1.2, (alone clock db action decidedAt).2) = (wr_done (Some id), []) ->
  ledger_reachable retention (mkLedgerSys (alone clock db action decidedAt).1.1 (wr_done (Some id) :: ws) log).
Proof.
  intros R N E. eapply rtc_r in R; [| exact (ls_start retention db ws log (sample_input action decidedAt) "now" recheck None N)].
  unfold ledger_reachable. etransitivity; [exact R |]. apply triple_eq in E.
  assert (G : forall fuel db0 p l0, run_writer fuel clock db0 p (log ++ l0) = let '(d, q, l) := run_writer fuel clock db0 p l0 in (d, q, (log ++ l)%list)).
  { induction fuel as [| f IH]; intros db0 p l0; simpl; [done |]. destruct (writer_step io_ok clock db0 p) as [[d q] l].
    by rewrite <- IH, app_assoc. }
  apply (run_writer_steps retention 4 clock). specialize (G 4 db (wr_count (sample_write action decidedAt recheck) 1) []).
  rewrite app_nil_r in G. etransitivity; [exact G |]. unfold alone in E at 1. rewrite E. by rewrite app_nil_r.
Qed.

Definition two_writers : list Writer :=
  [wr_done (Some "record:acme/widgets#7@c0ffee:rev2"); wr_done (Some "record:acme/widgets#7@c0ffee")].

Lemma two_verdicts_reachable retention : ledger_reachable retention (mkLedgerSys two_verdicts two_writers []).
Proof. apply alone_reachable; [apply alone_reachable; [constructor |..] |..]; vm_compute; reflexivity. Qed.

Lemma first_pruned_step : lstep true (mkLedgerSys two_verdicts two_writers []) (mkLedgerSys first_pruned two_writers []).
Proof. by apply (ls_prune true two_verdicts two_writers [] "2026-01-02T00:00:00.000Z"), prune_records_prunes. Qed.

Lemma ledger_always_chained_witness :
  ledger_reachable true (mkLedgerSys two_verdicts two_writers [])
  /\ chained LEDGER_GENESIS_HASH 0 (decision_ledger two_verdicts) /\ List.length (decision_ledger two_verdicts) = 2.
Proof.
  split; [exact (two_verdicts_reachable true) |]. split; [| vm_compute; reflexivity].
  apply (ledger_always_chained (mkLedgerSys two_verdicts two_writers []) (mkLedgerSys first_pruned two_writers []));
    [exact (two_verdicts_reachable true) | apply rtc_once, first_pruned_step].
Defined.

Lemma reevaluations_declared_witness :
  exists row r, decision_records two_verdicts !! "record:acme/widgets#7@c0ffee:rev2" = Some row
    /\ rr_recordDigest row = contentDigest (record_value r).
Proof.
  destruct (decision_records two_verdicts !! "record:acme/widgets#7@c0ffee:rev2") as [row |] eqn:E;
    [| exfalso; revert E; vm_compute; discriminate].
  destruct (reevaluations_declared (mkLedgerSys two_verdicts two_writers []) _ row (two_verdicts_reachable true) E) as (r & _ & D & _).
  exists row, r. split; [reflexivity | exact D].
Defined.

Definition first_write : Write := sample_write "merge" "2026-01-01T00:00:00.000Z" None.

Lemma persist_stores_witness :
  (run_writer 4 "2026-01-01T00:00:01.000Z" empty_db (wr_count first_write 1) []).1.2 = wr_done (Some "record:acme/widgets#7@c0ffee").
Proof.
  pose proof (persist_stores empty_db first_write "2026-01-01T00:00:01.000Z" None) as P. cbv zeta in P.
  rewrite P; clear P; [vm_compute; reflexivity | exact I | vm_compute; reflexivity | vm_compute; reflexivity].
Defined.

Lemma undeclared_refused_witness :
  run_writer 1 "2026-04-12T00:00:00.000Z" one_verdict (wr_count (sample_write "merge" "2026-04-12T00:00:00.000Z" None) 1) []
  = (one_verdict, wr_refused (UndeclaredReevaluationError "acme/widgets#7@c0ffee" 1), []).
Proof.
  apply (undeclared_refused one_verdict (sample_write "merge" "2026-04-12T00:00:00.000Z" None)); [vm_compute; lia | reflexivity].
Defined.

Lemma pruned_head_loses_verdicts_witness :
  rtc (lstep true) (mkLedgerSys empty_db [] []) (mkLedgerSys first_pruned two_writers [])
  /\ run_writer 6 "2026-07-05T00:00:01.000Z" first_pruned (wr_count (sample_write "close" "2026-07-05T00:00:00.000Z" recheck) 1) []
     = (first_pruned, wr_done None, [ev_persist_error "acme/widgets#7"]).
Proof.
  split; [eapply rtc_r; [exact (two_verdicts_reachable true) | exact first_pruned_step] |].
  apply (pruned_head_loses_verdicts first_pruned (sample_write "close" "2026-07-05T00:00:00.000Z" recheck));
    [reflexivity | vm_compute; lia | vm_compute; eauto | vm_compute; eauto].
Defined.
