(* ===== verification/LedgerVerify.v ===== *)
(** * Verification of the decision ledger

    Models the rest of [src/review/decision-record.ts]: the declared waivers
    ([parseLedgerContentWaiver], [parseLedgerUnchainedWaiver]) and
    [verifyDecisionLedger], with the retention window it consults
    ([src/db/retention.ts]).

    [verifyDecisionLedger] issues seven queries, and writers may run between any
    two of them: [Snapshots] is the database each query sees, [at_rest] the case
    of one database for all.  The two readings of the clock are milliseconds;
    [toISOString] renders them.  [Date.parse], whose reading of free-form dates
    is left to the implementation, is the parameter [date_parse].

    Main results: at rest, the verdict is exactly a declarative statement about
    the two tables ([verify_exact]); while writers run, a verification that
    starts from an existing row reports nothing but records whose append is
    overdue ([no_false_alarm]); two ledgers that agree on one row's hash agree
    on every row up to it, unless two different texts have the same digest
    ([anchored_prefix]).  Not as documented: when retention has emptied a head, a
    new verdict reuses its id and the ledger is reported as tampered with
    ([reused_id_reported_as_tampering]); a ledger deleted as a whole verifies
    ([deleted_ledger_verifies]). *)

From stdpp Require Import base list strings option gmap sorting pretty relations.
From Stdlib Require Import QArith Qround Qpower ZArith Ascii Lia.
From S2P Require Import Prelude JsNumber JsString Ledger JsRegex CanonicalJson DecisionRecord.

Local Open Scope nat_scope.
Local Open Scope string_scope.
Local Open Scope js_scope.

(** ** Dates *)

Definition pad_left (n : nat) (z : Z) : string := let s := pretty z in zeros (n - String.length s) ++ s.

(** Year, month and day of a day number counted from 1970-01-01. *)
Definition civil_of_days (days : Z) : Z * Z * Z :=
  (let z := days + 719468 in
   let era := z / 146097 in
   let doe := z mod 146097 in
   let yoe := (doe - doe / 1460 + doe / 36524 - doe / 146096) / 365 in
   let doy := doe - (365 * yoe + yoe / 4 - yoe / 100) in
   let mp := (5 * doy + 2) / 153 in
   let d := doy - (153 * mp + 2) / 5 + 1 in
   let m := if mp <? 10 then mp + 3 else mp - 9 in
   (yoe + era * 400 + (if m <=? 2 then 1 else 0), m, d))%Z.

Definition iso_year (y : Z) : string :=
  if ((0 <=? y) && (y <=? 9999))%Z then pad_left 4 y
  else (if (y <? 0)%Z then "-" else "+") ++ pad_left 6 (Z.abs y).

(** [new Date(ms).toISOString()]. *)
Definition toISOString (ms : Z) : string :=
  let '(y, m, d) := civil_of_days (ms / 86400000)%Z in
  let t := (ms mod 86400000)%Z in
  iso_year y ++ "-" ++ pad_left 2 m ++ "-" ++ pad_left 2 d ++ "T" ++ pad_left 2 (t / 3600000)%Z ++ ":"
  ++ pad_left 2 (t / 60000 mod 60)%Z ++ ":" ++ pad_left 2 (t / 1000 mod 60)%Z ++ "." ++ pad_left 3 (t mod 1000)%Z ++ "Z".

Example iso_epoch : toISOString 0 = "1970-01-01T00:00:00.000Z". Proof. vm_compute. reflexivity. Qed.
Example iso_leap : toISOString 1709210096007 = "2024-02-29T12:34:56.007Z". Proof. vm_compute. reflexivity. Qed.
Example iso_before : toISOString (-1) = "1969-12-31T23:59:59.999Z". Proof. vm_compute. reflexivity. Qed.

(** [a <= b] on text, as SQL compares the columns. *)
Definition str_leb (a b : string) : bool := negb (str_ltb b a).

(** ** Retention *)

Record RetentionRule := mkRule { ru_table : string; ru_column : string; ru_days : Z }.

Definition RETENTION_POLICY : list RetentionRule :=
  [mkRule "orb_pr_outcomes" "occurred_at" 90; mkRule "service_status_samples" "sampled_at" 35;
   mkRule "orb_signals" "received_at" 90; mkRule "audit_events" "created_at" 90; mkRule "ai_usage_events" "created_at" 90;
   mkRule "product_usage_events" "occurred_at" 180; mkRule "github_rate_limit_observations" "observed_at" 30;
   mkRule "signal_snapshots" "generated_at" 90; mkRule "score_previews" "generated_at" 90;
   mkRule "repo_snapshots" "fetched_at" 90; mkRule "agent_context_snapshots" "created_at" 30;
   mkRule "webhook_events" "received_at" 14; mkRule "notification_deliveries" "created_at" 90;
   mkRule "predicted_gate_calls" "created_at" 90; mkRule "grounding_file_content_cache" "fetched_at" 2;
   mkRule "ai_review_cache" "created_at" 30; mkRule "ai_slop_cache" "created_at" 30;
   mkRule "linked_issue_satisfaction_cache" "created_at" 30; mkRule "review_audit" "created_at" 90;
   mkRule "decision_records" "created_at" 180; mkRule "orb_webhook_events" "received_at" 14;
   mkRule "check_summaries" "updated_at" 30; mkRule "pull_request_files" "updated_at" 30;
   mkRule "repo_github_totals_snapshots" "fetched_at" 30; mkRule "recent_merged_pull_requests" "updated_at" 30;
   mkRule "pull_request_reviews" "updated_at" 30; mkRule "predicted_gate_calibration_ledger" "created_at" 90;
   mkRule "contributor_gate_history" "created_at" 90; mkRule "decision_replay_inputs" "created_at" 180;
   mkRule "decision_replay_prompts" "created_at" 30; mkRule "submitter_outcome_log" "recorded_at" 90;
   mkRule "alert_dedup_claims" "created_at" 14].

Definition MS_PER_DAY : Z := 86400000.
Definition cutoffIso (days nowMs : Z) : string := toISOString (nowMs - days * MS_PER_DAY).

Definition retention_rule (table : string) : option RetentionRule :=
  List.find (fun rule => String.eqb (ru_table rule) table) RETENTION_POLICY.
Definition retentionDaysForTable (table : string) : option Z := ru_days <$> retention_rule table.
Definition retentionCutoffIsoForTable (table : string) (nowMs : Z) : option string :=
  (fun rule => cutoffIso (ru_days rule) nowMs) <$> retention_rule table.

(** ** Declared exclusions *)

Record LedgerContentWaiver := mkContentWaiver { cw_fromSeq : num; cw_toSeq : num; cw_reason : string }.
Record LedgerUnchainedWaiver := mkUnchainedWaiver { uw_fromIso : string; uw_toIso : string; uw_maxRecords : num; uw_reason : string }.

(** [Number(digits)]. *)
Definition number_of_digits (ds : string) : num := rnd (inject_Z (digits_value ds)).

(** [/^\s*(\d+)\s*-\s*(\d+)\s*$/] and its two groups. *)
Definition match_seq_range (s : string) : option (string * string) :=
  let '(a, r1) := take_digits (trim_start s) in
  r2 ← expect "-" (trim_start r1);
  let '(b, r3) := take_digits (trim_start r2) in
  if str_empty a || str_empty b || negb (str_empty (trim_start r3)) then None else Some (a, b).

(** The text before the first [c] and the text after it. *)
Fixpoint split_first (c : ascii) (s : string) : option (string * string) :=
  match s with
  | EmptyString => None
  | String d r => if Ascii.eqb d c then Some ("", r) else '(a, b) ← split_first c r; Some (String d a, b)
  end.

Definition parseLedgerContentWaiver (raw : option string) : option LedgerContentWaiver :=
  match raw with
  | None | Some EmptyString => None
  | Some raw =>
      '(range, text) ← split_first ":" raw;
      let reason := trim text in
      if str_empty reason then None
      else
        '(a, b) ← match_seq_range range;
        let fromSeq := number_of_digits a in
        let toSeq := number_of_digits b in
        if nltb fromSeq (nz 1) || nltb toSeq fromSeq then None
        else Some (mkContentWaiver fromSeq toSeq reason)
  end.

(** The part of [s] before its suffix [rest]. *)
Definition before (s rest : string) : string := String.substring 0 (String.length s - String.length rest) s.

(** [/^\s*(\S+)\s*\.\.\s*(\S+)\s*$/] and its two groups. *)
Definition match_iso_range (s : string) : option (string * string) :=
  let space := Rep is_space in
  let word := Plus (fun c => negb (is_space c)) in
  let dots := cat_all [space; Chr (Ascii.eqb "."); Chr (Ascii.eqb "."); space] in
  m space None s (fun p0 s0 =>
    m word p0 s0 (fun p1 s1 =>
      m dots p1 s1 (fun p2 s2 =>
        m word p2 s2 (fun p3 s3 =>
          m space p3 s3 (fun _ s4 => if str_empty s4 then Some (before s0 s1, before s2 s3) else None))))).

(** [Number(text)] for a text without white space around it. *)
Definition radix_digits (radix : N) (s : string) : option Z :=
  (fix go (acc : Z) (s : string) : option Z :=
     match s with
     | EmptyString => Some acc
     | String c r =>
         d ← hex_value c; if (d <? radix)%N then go (acc * Z.of_N radix + Z.of_N d)%Z r else None
     end) 0%Z s.

Definition radix_literal (s : string) : option num :=
  let read radix r := match r with EmptyString => None | _ => (fun z => rnd (inject_Z z)) <$> radix_digits radix r end in
  match s with
  | String z (String x r) =>
      if negb (Ascii.eqb z "0") then None
      else if Ascii.eqb (lower_ascii x) "x" then read 16%N r
      else if Ascii.eqb (lower_ascii x) "o" then read 8%N r
      else if Ascii.eqb (lower_ascii x) "b" then read 2%N r
      else None
  | _ => None
  end.

Definition decimal_literal (s : string) : num :=
  let '(neg, s1) := match expect "-" s with Some r => (true, r) | None => (false, default s (expect "+" s)) end in
  if String.eqb s1 "Infinity" then (if neg then NInf else PInf)
  else
    let '(ds, s2) := take_digits s1 in
    let '(fs, s3) := match expect "." s2 with Some r => take_digits r | None => ("", s2) end in
    match parse_exponent s3 with
    | Some (e, EmptyString) =>
        if str_empty (ds ++ fs) then NaN
        else rnd (decimal neg (digits_value (ds ++ fs)) (e - Z.of_nat (String.length fs)))
    | _ => NaN
    end.

Definition js_Number (s : string) : num :=
  if str_empty s then nz 0 else match radix_literal s with Some n => n | None => decimal_literal s end.

Definition parseLedgerUnchainedWaiver (date_parse : string -> num) (raw : option string) : option LedgerUnchainedWaiver :=
  match raw with
  | None | Some EmptyString => None
  | Some raw =>
      match split_on "|" raw with
      | rangePart :: countPart :: reasonPart :: reasonParts =>
          let reason := trim (join "|" (reasonPart :: reasonParts)) in
          if str_empty reason then None
          else
            '(a, b) ← match_iso_range rangePart;
            match date_parse a, date_parse b with
            | Fin fromMs, Fin toMs =>
                let maxRecords := js_Number (trim countPart) in
                if nltb (Fin toMs) (Fin fromMs) then None
                else if is_finite maxRecords && neqb (nfloor maxRecords) maxRecords && ngeb maxRecords (nz 1)
                then Some (mkUnchainedWaiver (toISOString (Qfloor fromMs)) (toISOString (Qfloor toMs)) maxRecords reason)
                else None
            | _, _ => None
            end
      | _ => None
      end
  end.

(** ** Verification *)

Inductive LedgerBreak :=
| sequence_gap (atSeq expectedSeq : Z)
| predecessor_mismatch (atSeq : Z)
| row_hash_mismatch (atSeq : Z)
| short_tail (atSeq : Z)
| content_mismatch (atSeq : Z) (recordId : string)
| missing_record (atSeq : Z) (recordId : string)
| unchained_record (atSeq : Z) (recordId : string).

Definition LEDGER_APPEND_GRACE_MS : Z := 5 * 60 * 1000.

Record VerifyResult := mkVerifyResult {
  vr_ok : bool;
  vr_checked : nat;
  vr_nextAfterSeq : option Z;
  vr_tipSeq : Z;
  vr_tipHash : string;
  vr_totalCount : nat;
  vr_prunedRecords : nat;
  vr_contentMismatches : nat;
  vr_waivedContentMismatches : nat;
  vr_contentWaiver : option LedgerContentWaiver;
  vr_waivedUnchainedRecords : nat;
  vr_unchainedWaiver : option LedgerUnchainedWaiver;
  vr_break : option LedgerBreak;
}.

(** The database as each query of one verification sees it. *)
Record Snapshots := mkSnapshots {
  sn_total : Db;
  sn_tip : Db;
  sn_prior : Db;
  sn_rows : Db;
  sn_records : Db;
  sn_covered : Db;
  sn_orphan : Db;
}.
Definition at_rest (db : Db) : Snapshots := mkSnapshots db db db db db db db.

(** The configuration and the two readings of the clock. *)
Record VerifyEnv := mkVerifyEnv {
  ve_contentWaiver : option LedgerContentWaiver;
  ve_unchainedWaiver : option LedgerUnchainedWaiver;
  ve_cutoffNow : Z;
  ve_graceNow : Z;
}.

Definition verify_env (date_parse : string -> num) (contentWaiver unchainedWaiver : option string) (cutoffNow graceNow : Z) : VerifyEnv :=
  mkVerifyEnv (parseLedgerContentWaiver contentWaiver) (parseLedgerUnchainedWaiver date_parse unchainedWaiver) cutoffNow graceNow.

(** The variables of the loop over the window. *)
Record Scan := mkScan {
  sc_prevHash : string;
  sc_expectedSeq : Z;
  sc_checked : nat;
  sc_pruned : nat;
  sc_mismatches : nat;
  sc_waived : nat;
  sc_first : option LedgerBreak;
  sc_lastCreatedAt : option string;
}.

Definition in_waiver (w : option LedgerContentWaiver) (seq : Z) : bool :=
  match w with
  | Some w => ngeb (nz seq) (cw_fromSeq w) && nleb (nz seq) (cw_toSeq w)
  | None => false
  end.

Definition is_pruned (cutoff : option string) (row : LedgerRow) : bool :=
  match cutoff with Some c => str_ltb (lr_createdAt row) c | None => false end.

Section Verify.
Context `{WebCrypto}.

(** [contentDigest(JSON.parse(recordJson))], [null] when it does not parse. *)
Definition recomputed_digest (recordJson : string) : option string := contentDigest <$> JSON_parse recordJson.

Definition content_matches (row : LedgerRow) (record : RecordRow) : bool :=
  match recomputed_digest (rr_recordJson record) with
  | Some d => String.eqb d (lr_recordDigest row)
  | None => false
  end.

(** One row of the window: a structural break, or the variables after it. *)
Definition scan_row (env : VerifyEnv) (records : gmap string RecordRow) (st : Scan) (row : LedgerRow) : LedgerBreak + Scan :=
  if negb (lr_seq row =? sc_expectedSeq st)%Z then inl (sequence_gap (lr_seq row) (sc_expectedSeq st))
  else if negb (String.eqb (lr_prevHash row) (sc_prevHash st)) then inl (predecessor_mismatch (lr_seq row))
  else if negb (String.eqb
      (ledgerRowHash (sc_prevHash st) (ledger_fields (lr_seq row) (lr_recordId row) (lr_recordDigest row) (lr_createdAt row)))
      (lr_rowHash row)) then inl (row_hash_mismatch (lr_seq row))
  else
    let next pruned mismatches waived first :=
      mkScan (lr_rowHash row) (lr_seq row + 1) (sc_checked st + 1) pruned mismatches waived first (Some (lr_createdAt row)) in
    match records !! lr_recordId row with
    | None =>
        if is_pruned (retentionCutoffIsoForTable "decision_records" (ve_cutoffNow env)) row
        then inr (next (sc_pruned st + 1) (sc_mismatches st) (sc_waived st) (sc_first st))
        else inl (missing_record (lr_seq row) (lr_recordId row))
    | Some record =>
        if content_matches row record then inr (next (sc_pruned st) (sc_mismatches st) (sc_waived st) (sc_first st))
        else if in_waiver (ve_contentWaiver env) (lr_seq row)
        then inr (next (sc_pruned st) (sc_mismatches st) (sc_waived st + 1) (sc_first st))
        else inr (next (sc_pruned st) (sc_mismatches st + 1) (sc_waived st)
                    (Some (default (content_mismatch (lr_seq row) (lr_recordId row)) (sc_first st))))
    end.

Fixpoint scan (env : VerifyEnv) (records : gmap string RecordRow) (st : Scan) (rows : list LedgerRow) : Scan * option LedgerBreak :=
  match rows with
  | [] => (st, None)
  | row :: rows' =>
      match scan_row env records st row with
      | inl b => (st, Some b)
      | inr st' => scan env records st' rows'
      end
  end.

(** [SELECT ... WHERE seq > ? ORDER BY seq ASC LIMIT ?]. *)
Definition window (ledger : list LedgerRow) (afterSeq : Z) (bounded : nat) : list LedgerRow :=
  take bounded (List.filter (fun row => (afterSeq <? lr_seq row)%Z) ledger).

(** [NOT EXISTS (SELECT 1 FROM decision_ledger l WHERE l.record_id = r.id)]. *)
Definition unvouched (ledger : list LedgerRow) (id : string) : bool :=
  forallb (fun row => negb (String.eqb (lr_recordId row) id)) ledger.

(** Inside the declared window and at or before the verified tail. *)
Definition waiver_covers (w : LedgerUnchainedWaiver) (lastVerified : string) (row : RecordRow) : bool :=
  str_leb (uw_fromIso w) (rr_createdAt row) && str_leb (rr_createdAt row) (uw_toIso w)
  && str_leb (rr_createdAt row) lastVerified.

Definition covered_count (db : Db) (w : LedgerUnchainedWaiver) (lastVerified grace : string) : nat :=
  List.length (List.filter (fun kv => waiver_covers w lastVerified kv.2 && str_leb (rr_createdAt kv.2) grace
                                      && unvouched (decision_ledger db) kv.1) (map_to_list (decision_records db))).

Definition newest (rows : list (string * RecordRow)) : option (string * RecordRow) :=
  List.fold_left (fun best kv =>
      match best with
      | Some b => if str_ltb (rr_createdAt b.2) (rr_createdAt kv.2) then Some kv else best
      | None => Some kv
      end) rows None.

(** The records whose append is overdue, without those an applied waiver names. *)
Definition overdue (db : Db) (waiver : option LedgerUnchainedWaiver) (lastVerified grace : string) : list (string * RecordRow) :=
  List.filter (fun kv => str_leb (rr_createdAt kv.2) grace
      && negb (match waiver with Some w => waiver_covers w lastVerified kv.2 | None => false end)
      && unvouched (decision_ledger db) kv.1) (map_to_list (decision_records db)).

Definition bounded_limit (limit : Z) : nat := Z.to_nat (Z.max 1 (Z.min 1000 limit)).

(** The variables when the loop starts: genesis, or the row the window resumes from. *)
Definition start_scan (afterSeq : Z) (prior : option LedgerRow) : Scan :=
  mkScan ((lr_rowHash <$> prior) ?? LEDGER_GENESIS_HASH) (afterSeq + 1) 0 0 0 0 None (lr_createdAt <$> prior).

Definition grace_cutoff (env : VerifyEnv) : string := toISOString (ve_graceNow env - LEDGER_APPEND_GRACE_MS).

(** The number of records the declared waiver covers, none when there are more than it declares. *)
Definition waived_unchained (env : VerifyEnv) (db : Db) (lastVerified : string) : nat :=
  match ve_unchainedWaiver env with
  | Some w =>
      let n := covered_count db w lastVerified (grace_cutoff env) in
      if nleb (nnat n) (uw_maxRecords w) then n else 0
  | None => 0
  end.

Definition applied_waiver (env : VerifyEnv) (db : Db) (lastVerified : string) : option LedgerUnchainedWaiver :=
  if Nat.ltb 0 (waived_unchained env db lastVerified) then ve_unchainedWaiver env else None.

(** The reconciliation behind the last window: the number waived and the break. *)
Definition reconcile_records (env : VerifyEnv) (sn : Snapshots) (st : Scan) (lastVerified : string) : nat * option LedgerBreak :=
  (waived_unchained env (sn_covered sn) lastVerified,
   match newest (overdue (sn_orphan sn) (applied_waiver env (sn_covered sn) lastVerified) lastVerified (grace_cutoff env)) with
   | None => None
   | Some (id, row) =>
       Some (if str_ltb lastVerified (rr_createdAt row) then short_tail (sc_expectedSeq st - 1)
             else unchained_record (sc_expectedSeq st - 1) id)
   end).

Definition verifyDecisionLedger (env : VerifyEnv) (sn : Snapshots) (afterSeq limit : Z) : VerifyResult :=
  let bounded := bounded_limit limit in
  let totalCount := List.length (decision_ledger (sn_total sn)) in
  let globalTip := ledger_tip (decision_ledger (sn_tip sn)) in
  let tipSeq := (lr_seq <$> globalTip) ?? 0%Z in
  let tipHash := (lr_rowHash <$> globalTip) ?? LEDGER_GENESIS_HASH in
  let prior := if (0 <? afterSeq)%Z then loadPublicLedgerRow (sn_prior sn) afterSeq else None in
  let result ok st nextAfterSeq waivedUnchained brk :=
    mkVerifyResult ok (sc_checked st) nextAfterSeq tipSeq tipHash totalCount (sc_pruned st) (sc_mismatches st)
      (sc_waived st) (ve_contentWaiver env) waivedUnchained (ve_unchainedWaiver env) brk in
  let st0 := start_scan afterSeq prior in
  if (0 <? afterSeq)%Z && bool_decide (prior = None)
  then result false st0 None 0 (Some (sequence_gap afterSeq afterSeq))
  else
    let results := window (decision_ledger (sn_rows sn)) afterSeq bounded in
    match scan env (decision_records (sn_records sn)) st0 results with
    | (st, Some b) => result false st None 0 (Some b)
    | (st, None) =>
        let nextAfterSeq := if Nat.eqb (List.length results) bounded then lr_seq <$> ledger_tip results else None in
        let '(waivedUnchained, orphanBreak) :=
          match nextAfterSeq, sc_lastCreatedAt st with
          | None, Some lastVerified => reconcile_records env sn st lastVerified
          | _, _ => (0, None)
          end in
        match orphanBreak with
        | Some b => result false st None waivedUnchained (Some b)
        | None =>
            match sc_first st with
            | Some b => result false st nextAfterSeq waivedUnchained (Some b)
            | None => result true st nextAfterSeq waivedUnchained None
            end
        end
    end.
End Verify.

(** The public route's reading of its query parameters (both already numbers). *)
Definition verify_status (r : VerifyResult) : Z := if vr_ok r then 200 else 409.

(** ** What a scan finds *)

Section ScanSpec.
Context `{WebCrypto} (env : VerifyEnv) (records : gmap string RecordRow).

(** The record a row vouches for is there, or old enough to have been deleted. *)
Definition accounted (row : LedgerRow) : Prop :=
  is_Some (records !! lr_recordId row)
  \/ is_pruned (retentionCutoffIsoForTable "decision_records" (ve_cutoffNow env)) row = true.

(** Where the record is there, its text has the digest the row commits to, or
    the row lies in the declared exclusion. *)
Definition reconciled (row : LedgerRow) : Prop :=
  forall record, records !! lr_recordId row = Some record ->
    content_matches row record = true \/ in_waiver (ve_contentWaiver env) (lr_seq row) = true.

Lemma scan_row_inr st row :
  (exists st', scan_row env records st row = inr st')
  <-> lr_seq row = sc_expectedSeq st /\ lr_prevHash row = sc_prevHash st
      /\ lr_rowHash row = ledgerRowHash (sc_prevHash st)
           (ledger_fields (lr_seq row) (lr_recordId row) (lr_recordDigest row) (lr_createdAt row))
      /\ accounted row.
Proof.
  unfold scan_row, accounted. destruct (Z.eqb_spec (lr_seq row) (sc_expectedSeq st)); cbn [negb]; [| split; [by intros [? ?] | tauto]].
  destruct (String.eqb_spec (lr_prevHash row) (sc_prevHash st)); cbn [negb]; [| split; [by intros [? ?] | tauto]].
  destruct (String.eqb_spec (ledgerRowHash (sc_prevHash st)
    (ledger_fields (lr_seq row) (lr_recordId row) (lr_recordDigest row) (lr_createdAt row))) (lr_rowHash row)); cbn [negb];
    [| split; [by intros [? ?] | intros (_ & _ & E & _); congruence]].
  destruct (records !! lr_recordId row) as [rec |].
  - split; [| intros _]; [eauto 6 |]. destruct (content_matches _ _); [eauto |]. destruct (in_waiver _ _); eauto.
  - destruct (is_pruned _ row); split; eauto 8; [by intros [? ?] |]. intros (_ & _ & _ & [[? ?] | ?]); done.
Qed.

(** The variables after a row that passed. *)
Lemma scan_row_state st row st' : scan_row env records st row = inr st' ->
  sc_prevHash st' = lr_rowHash row /\ sc_expectedSeq st' = (lr_seq row + 1)%Z /\ sc_checked st' = sc_checked st + 1
  /\ sc_lastCreatedAt st' = Some (lr_createdAt row)
  /\ (sc_first st' = None <-> sc_first st = None /\ reconciled row).
Proof.
  unfold scan_row, reconciled. destruct (negb _); [done |]. destruct (negb _); [done |]. destruct (negb _); [done |].
  destruct (records !! lr_recordId row) as [rec |] eqn:E.
  - destruct (content_matches row rec) eqn:Cm; [| destruct (in_waiver _ _) eqn:Wv]; intros [= <-]; cbn;
      (do 4 (split; [done |])).
    + split; [intros F; split; [done |]; intros ? [= <-]; auto | tauto].
    + split; [intros F; split; [done |]; intros ? [= <-]; auto | tauto].
    + split; [done |]. intros [_ K]. destruct (K rec eq_refl); congruence.
  - destruct (is_pruned _ _); [| done]. intros [= <-]; cbn. (do 4 (split; [done |])). split; [intros F; split; done | tauto].
Qed.

Lemma scan_none : forall rows st,
  (scan env records st rows).2 = None
  <-> chained (sc_prevHash st) (sc_expectedSeq st - 1) rows /\ Forall accounted rows.
Proof.
  induction rows as [| row rows IH]; intros st; [cbn; split; auto |]. cbn [scan chained].
  pose proof (scan_row_inr st row) as R. destruct (scan_row env records st row) as [b | st'] eqn:E.
  - cbn. split; [done |]. intros [(S & P & Hh & _) A]. apply Forall_cons in A as [A _].
    destruct (proj2 R) as [? ?]; [| done]. repeat split; [lia | done..].
  - destruct (proj1 R (ex_intro _ _ eq_refl)) as (S & P & Hh & A). destruct (scan_row_state _ _ _ E) as (E1 & E2 & _).
    rewrite IH, E1, E2, Forall_cons, S. replace (sc_expectedSeq st + 1 - 1)%Z with (sc_expectedSeq st - 1 + 1)%Z by lia.
    rewrite <- S. split; [intros [C F] | intros [(S' & P' & H' & C) [_ F]]]; repeat split; try done; lia.
Qed.

Lemma scan_first : forall rows st, (scan env records st rows).2 = None ->
  (sc_first (scan env records st rows).1 = None <-> sc_first st = None /\ Forall reconciled rows).
Proof.
  induction rows as [| row rows IH]; intros st; cbn [scan]; [intros _; cbn; split; [auto | tauto] |].
  destruct (scan_row env records st row) as [b | st'] eqn:E; [done |]. intros N.
  rewrite (IH _ N), Forall_cons. destruct (scan_row_state _ _ _ E) as (_ & _ & _ & _ & ->). tauto.
Qed.

Lemma scan_last : forall rows st, (scan env records st rows).2 = None ->
  sc_lastCreatedAt (scan env records st rows).1
  = match ledger_tip rows with Some row => Some (lr_createdAt row) | None => sc_lastCreatedAt st end
  /\ sc_checked (scan env records st rows).1 = sc_checked st + List.length rows.
Proof.
  induction rows as [| row rows IH]; intros st; cbn [scan]; [intros _; cbn; split; [done | lia] |].
  destruct (scan_row env records st row) as [b | st'] eqn:E; [done |]. intros N.
  destruct (IH _ N) as [-> ->]. destruct (scan_row_state _ _ _ E) as (_ & _ & -> & -> & _).
  unfold ledger_tip. rewrite list.last_cons. split; [by destruct (list.last rows) | cbn; lia].
Qed.
End ScanSpec.

Lemma newest_in l : match newest l with Some kv => kv ∈ l | None => l = [] end.
Proof.
  unfold newest. set (f := fun best kv => _).
  assert (G : forall l b, match List.fold_left f l (Some b) with Some kv => kv = b \/ kv ∈ l | None => False end).
  { induction l0 as [| kv l0 IH]; intros b; cbn [List.fold_left]; [by left |].
    assert (E : f (Some b) kv = Some kv \/ f (Some b) kv = Some b) by (unfold f; destruct (str_ltb _ _); auto).
    destruct E as [-> | ->]; [specialize (IH kv) | specialize (IH b)]; destruct (List.fold_left f l0 _); set_solver. }
  destruct l as [| kv l]; [done |]. simpl. specialize (G l kv). destruct (List.fold_left f l (Some kv)); [| done]. set_solver.
Qed.

Lemma unvouched_false ledger id : unvouched ledger id = false <-> exists lr, lr ∈ ledger /\ lr_recordId lr = id.
Proof.
  unfold unvouched. induction ledger as [| lr l IH]; simpl; [split; [done | intros (lr & Hin & _); set_solver] |].
  destruct (String.eqb_spec (lr_recordId lr) id) as [E | E]; simpl.
  - split; [intros _; exists lr; set_solver | done].
  - rewrite IH. split; intros (x & Hin & Ex); [exists x; set_solver |].
    apply elem_of_cons in Hin as [-> | Hin]; [done | by exists x].
Qed.

Lemma overdue_in db waiver lastVerified grace id row :
  (id, row) ∈ overdue db waiver lastVerified grace
  <-> decision_records db !! id = Some row /\ str_leb (rr_createdAt row) grace = true
      /\ (match waiver with Some w => waiver_covers w lastVerified row | None => false end) = false
      /\ unvouched (decision_ledger db) id = true.
Proof.
  unfold overdue. rewrite list_elem_of_In, List.filter_In, <- list_elem_of_In, elem_of_map_to_list. cbn.
  rewrite !andb_true_iff, negb_true_iff. tauto.
Qed.

Section VerifySpec.
Context `{WebCrypto}.

(** The creation time the reconciliation is anchored at. *)
Definition verified_tail (prior : option LedgerRow) (rows : list LedgerRow) : option string :=
  match ledger_tip rows with Some row => Some (lr_createdAt row) | None => lr_createdAt <$> prior end.

(** Every record that is due has a ledger row, except those an applied waiver names. *)
Definition records_vouched (env : VerifyEnv) (sn : Snapshots) (lastVerified : string) : Prop :=
  forall id row, decision_records (sn_orphan sn) !! id = Some row -> str_leb (rr_createdAt row) (grace_cutoff env) = true ->
    (match applied_waiver env (sn_covered sn) lastVerified with Some w => waiver_covers w lastVerified row | None => false end) = false ->
    exists lr, lr ∈ decision_ledger (sn_orphan sn) /\ lr_recordId lr = id.

Lemma reconcile_none env sn st lastVerified :
  (reconcile_records env sn st lastVerified).2 = None <-> records_vouched env sn lastVerified.
Proof.
  unfold reconcile_records, records_vouched. cbn [snd].
  pose proof (newest_in (overdue (sn_orphan sn) (applied_waiver env (sn_covered sn) lastVerified) lastVerified (grace_cutoff env))) as N.
  destruct (newest _) as [[id row] |]; split; try done.
  - intros V. apply overdue_in in N as (E & G & W & U). destruct (V _ _ E G W) as (lr & Hin & Eq).
    assert (unvouched (decision_ledger (sn_orphan sn)) id = false) by (apply unvouched_false; eauto). congruence.
  - intros _ id row E G W. apply unvouched_false. destruct (unvouched _ id) eqn:U; [| done].
    assert (Hin : (id, row) ∈ overdue (sn_orphan sn) (applied_waiver env (sn_covered sn) lastVerified) lastVerified (grace_cutoff env))
      by (by apply overdue_in). rewrite N in Hin. set_solver.
Qed.

(** The verdict on a window, whatever the queries saw. *)
Lemma verify_ok_iff env sn afterSeq limit :
  let rows := window (decision_ledger (sn_rows sn)) afterSeq (bounded_limit limit) in
  let prior := if (0 <? afterSeq)%Z then loadPublicLedgerRow (sn_prior sn) afterSeq else None in
  vr_ok (verifyDecisionLedger env sn afterSeq limit) = true
  <-> ((0 < afterSeq)%Z -> is_Some prior)
      /\ chained ((lr_rowHash <$> prior) ?? LEDGER_GENESIS_HASH) afterSeq rows
      /\ Forall (accounted env (decision_records (sn_records sn))) rows
      /\ Forall (reconciled env (decision_records (sn_records sn))) rows
      /\ (List.length rows <> bounded_limit limit -> forall lastVerified, verified_tail prior rows = Some lastVerified ->
            records_vouched env sn lastVerified).
Proof.
  intros rows prior. unfold verifyDecisionLedger. fold prior rows. cbv zeta.
  pose proof (scan_none env (decision_records (sn_records sn)) rows (start_scan afterSeq prior)) as SN.
  pose proof (scan_first env (decision_records (sn_records sn)) rows (start_scan afterSeq prior)) as SF.
  pose proof (scan_last env (decision_records (sn_records sn)) rows (start_scan afterSeq prior)) as SL.
  destruct (scan env (decision_records (sn_records sn)) (start_scan afterSeq prior) rows) as [st brk].
  cbn [fst snd start_scan sc_prevHash sc_expectedSeq sc_first sc_lastCreatedAt] in *.
  replace (afterSeq + 1 - 1)%Z with afterSeq in SN by lia.
  destruct ((0 <? afterSeq)%Z && bool_decide (prior = None)) eqn:Pr.
  { apply andb_true_iff in Pr as [P0 Pn]. apply bool_decide_eq_true in Pn. cbn. split; [done |].
    intros [K _]. destruct K as [? ?]; [by apply Z.ltb_lt | congruence]. }
  assert (Hp : (0 < afterSeq)%Z -> is_Some prior).
  { intros P0%Z.ltb_lt. rewrite P0 in Pr. cbn in Pr. apply bool_decide_eq_false in Pr. by apply not_eq_None_Some. }
  destruct brk as [b |]; [cbn; split; [done | intros (_ & C & A & _); destruct SN as [_ SN]; discriminate SN; by split] |].
  destruct (proj1 SN eq_refl) as [C A]. specialize (SF eq_refl). destruct (SL eq_refl) as [Last _]. fold (verified_tail prior rows) in Last.
  clear SN SL. destruct (Nat.eqb_spec (List.length rows) (bounded_limit limit)) as [Full | Part].
  - assert (exists s, lr_seq <$> ledger_tip rows = Some s) as [s Es].
    { unfold ledger_tip. destruct (list.last rows) as [r |] eqn:E; [eauto |]. apply last_None in E. rewrite E in Full.
      unfold bounded_limit in Full. simpl in Full. lia. }
    rewrite Es. destruct (sc_first st) eqn:F; cbn; split; try done; [intros (_ & _ & _ & R & _); discriminate (proj2 SF (conj eq_refl R)) |].
    intros _. destruct (proj1 SF eq_refl) as [_ R]. by repeat split.
  - rewrite Last. destruct (verified_tail prior rows) as [lv |].
    + pose proof (reconcile_none env sn st lv) as RN. destruct (reconcile_records env sn st lv) as [n ob]. cbn [snd] in RN.
      destruct ob as [b |]; cbn; [split; [done | intros (_ & _ & _ & _ & V); discriminate (proj2 RN (V Part lv eq_refl))] |].
      assert (V : records_vouched env sn lv) by (by apply RN).
      destruct (sc_first st) eqn:F; cbn; split; try done; [intros (_ & _ & _ & R & _); discriminate (proj2 SF (conj eq_refl R)) |].
      intros _. destruct (proj1 SF eq_refl) as [_ R]. repeat split; try done. by intros _ ? [= <-].
    + destruct (sc_first st) eqn:F; cbn; split; try done; [intros (_ & _ & _ & R & _); discriminate (proj2 SF (conj eq_refl R)) |].
      intros _. destruct (proj1 SF eq_refl) as [_ R]. by repeat split.
Qed.
End VerifySpec.

(** ** Windows of a chain *)

Section Windows.
Context `{WebCrypto}.

(** Rows of a chain are found at their position. *)
Lemma load_chained db a : chained LEDGER_GENESIS_HASH 0 (decision_ledger db) ->
  (0 < a <= Z.of_nat (List.length (decision_ledger db)))%Z ->
  loadPublicLedgerRow db a = decision_ledger db !! (Z.to_nat a - 1).
Proof.
  unfold loadPublicLedgerRow. generalize (decision_ledger db) as l. clear db. intros l. generalize LEDGER_GENESIS_HASH as prev.
  enough (G : forall l prev n a, chained prev n l -> (n < a <= n + Z.of_nat (List.length l))%Z ->
    List.find (fun row => (lr_seq row =? a)%Z) l = l !! (Z.to_nat (a - n) - 1)).
  { intros prev C B. rewrite (G l prev 0%Z a C) by lia. by rewrite Z.sub_0_r. }
  clear l a. induction l as [| r l IH]; intros prev n a C B; cbn [List.length] in B; [lia |].
  destruct C as (Sq & _ & _ & C). cbn [List.find]. rewrite Sq. destruct (Z.eqb_spec (n + 1) a) as [<- | Hne].
  - by replace (Z.to_nat (n + 1 - n) - 1) with 0 by lia.
  - rewrite (IH _ _ _ C) by lia. replace (Z.to_nat (a - n) - 1) with (S (Z.to_nat (a - (n + 1)) - 1)) by lia. done.
Qed.

Lemma window_chained l a b : chained LEDGER_GENESIS_HASH 0 l -> (0 <= a <= Z.of_nat (List.length l))%Z ->
  window l a b = take b (drop (Z.to_nat a) l).
Proof.
  intros C B. unfold window. f_equal. revert C B. generalize LEDGER_GENESIS_HASH as prev.
  enough (G : forall l prev n a, chained prev n l -> (n <= a <= n + Z.of_nat (List.length l))%Z ->
    List.filter (fun row => (a <? lr_seq row)%Z) l = drop (Z.to_nat (a - n)) l).
  { intros prev C B. rewrite (G l prev 0%Z a C) by lia. by rewrite Z.sub_0_r. }
  clear l a b. induction l as [| r l IH]; intros prev n a C B; cbn [List.length] in B; [by destruct (Z.to_nat _) |].
  destruct C as (Sq & _ & _ & C). cbn [List.filter]. destruct (Z.ltb_spec a (lr_seq r)) as [L | L].
  - replace (Z.to_nat (a - n)) with 0 by lia. cbn. f_equal. apply filter_all_in. intros x Hx%list_elem_of_In.
    apply list_elem_of_lookup in Hx as [i Hi]. rewrite (chained_seqs _ _ _ C i x Hi). apply Z.ltb_lt. lia.
  - rewrite (IH _ _ _ C) by lia. by replace (Z.to_nat (a - n)) with (S (Z.to_nat (a - (n + 1)))) by lia.
Qed.

Lemma end_hash_take l k prev : 0 < k -> k <= List.length l -> (lr_rowHash <$> l !! (k - 1)) ?? prev = end_hash prev (take k l).
Proof.
  intros H0 L. unfold end_hash, ledger_tip. rewrite last_lookup, length_take, lookup_take_lt by lia.
  by replace (Nat.pred (k `min` List.length l)) with (k - 1) by lia.
Qed.

(** Any window of a chain continues from the row it resumes at. *)
Lemma window_continues l a b : chained LEDGER_GENESIS_HASH 0 l -> (0 <= a <= Z.of_nat (List.length l))%Z ->
  chained (end_hash LEDGER_GENESIS_HASH (take (Z.to_nat a) l)) a (window l a b).
Proof.
  intros C B. rewrite (window_chained l a b C B).
  rewrite <- (take_drop (Z.to_nat a) l) in C. apply chained_app in C as [_ C].
  rewrite length_take, Nat.min_l, Z.add_0_l, Z2Nat.id in C by lia.
  rewrite <- (take_drop b (drop (Z.to_nat a) l)) in C. by apply chained_app in C as [C _].
Qed.

(** ** Verification while writers run *)

Lemma records_grow s s' : records_inv false s -> rtc (lstep false) s s' ->
  decision_records (ls_db s) ⊆ decision_records (ls_db s').
Proof.
  intros I R. induction R as [| s1 s2 s3 St R IH]; [done |]. transitivity (decision_records (ls_db s2)); [| by eapply IH, records_inv_step].
  destruct I as (W & Hp & _). destruct St as [db pre p post log io clock db' p' evs E | | | db ws log cutoff t' Re _]; cbn in *; try done.
  apply Forall_app in Hp as [_ Hp]. apply Forall_cons in Hp as [Hp _]. by eapply writer_step_records in E as [? _].
Qed.

Lemma jopt_keys {A} (inj : A -> jsval) o : (forall a, keys_distinct (inj a) = true) -> keys_distinct (jopt inj o) = true.
Proof. intros K. destruct o; [apply K | reflexivity]. Qed.

Lemma record_keys r : keys_distinct (record_value r) = true.
Proof.
  assert (L : forall l, forallb keys_distinct (List.map JStr l) = true) by (induction l; done).
  assert (Sv : forall sv, keys_distinct (salvage_value sv) = true) by (intros [sc fs]; cbn; rewrite L; reflexivity).
  unfold record_value. cbn [keys_distinct]. apply andb_true_iff. split; [vm_compute; reflexivity |].
  cbn [forallb snd keys_distinct]. rewrite !jopt_keys by (done || exact L || exact Sv). reflexivity.
Qed.

(** What a writer stored re-digests to what it chained. *)
Lemma written_matches id row lr : written id row -> rr_recordDigest row = lr_recordDigest lr -> content_matches lr row = true.
Proof.
  intros (w & n & re & -> & _ & [D N] & _) E. unfold content_matches, recomputed_digest.
  cbn [record_row rr_recordJson rr_recordDigest] in *. rewrite (canonical_reparse _ (record_keys _) N). cbn [fmap option_fmap option_map]. unfold contentDigest. rewrite canonicalJson_canon by done.
  apply String.eqb_eq. by rewrite <- E, D.
Qed.

(** The database each query of a verification sees, in the order of the queries. *)
Definition during (s1 s2 s3 s4 s5 : LedgerSys) (sn : Snapshots) : Prop :=
  sn_prior sn = ls_db s1 /\ sn_rows sn = ls_db s2 /\ sn_records sn = ls_db s3 /\ sn_covered sn = ls_db s4 /\ sn_orphan sn = ls_db s5
  /\ rtc (lstep false) s1 s2 /\ rtc (lstep false) s2 s3 /\ rtc (lstep false) s3 s4 /\ rtc (lstep false) s4 s5.

Definition overdue_break (b : LedgerBreak) : Prop :=
  match b with short_tail _ | unchained_record _ _ => True | _ => False end.

Lemma reconcile_overdue env sn st lastVerified b : (reconcile_records env sn st lastVerified).2 = Some b ->
  overdue_break b /\ exists id row, decision_records (sn_orphan sn) !! id = Some row
    /\ str_leb (rr_createdAt row) (grace_cutoff env) = true /\ unvouched (decision_ledger (sn_orphan sn)) id = true.
Proof.
  unfold reconcile_records. cbn [snd].
  pose proof (newest_in (overdue (sn_orphan sn) (applied_waiver env (sn_covered sn) lastVerified) lastVerified (grace_cutoff env))) as N.
  destruct (newest _) as [[id row] |]; [| done]. intros [= <-]. apply overdue_in in N as (E & G & _ & U).
  split; [by destruct (str_ltb _ _) | eauto].
Qed.

(** The row a verification resumes at is where it was read. *)
Lemma prior_in_chain s1 s2 afterSeq sn :
  ledger_reachable false s1 -> rtc (lstep false) s1 s2 -> sn_prior sn = ls_db s1 ->
  (0 <= afterSeq <= Z.of_nat (List.length (decision_ledger (ls_db s1))))%Z ->
  let prior := if (0 <? afterSeq)%Z then loadPublicLedgerRow (sn_prior sn) afterSeq else None in
  ((0 < afterSeq)%Z -> is_Some prior)
  /\ (lr_rowHash <$> prior) ?? LEDGER_GENESIS_HASH = end_hash LEDGER_GENESIS_HASH (take (Z.to_nat afterSeq) (decision_ledger (ls_db s2)))
  /\ (0 <= afterSeq <= Z.of_nat (List.length (decision_ledger (ls_db s2))))%Z.
Proof.
  intros R R2 E1 B prior. pose proof (chain_inv_reachable _ _ R) as C1. destruct (ledger_grows _ _ _ C1 R2) as [more G].
  subst prior. rewrite E1, G, length_app, take_app_le by lia. destruct (Z.ltb_spec 0 afterSeq) as [L | L].
  - rewrite (load_chained _ _ (proj1 C1)) by lia. rewrite <- end_hash_take by lia. split_and!; [| done | lia..].
    intros _. apply lookup_lt_is_Some. lia.
  - replace afterSeq with 0%Z by lia. split_and!; [lia | done | lia..].
Qed.

(** Every row a query returned has its record, with the digest it commits to. *)
Lemma rows_in_place s1 s2 s3 afterSeq limit :
  ledger_reachable false s1 -> rtc (lstep false) s1 s2 -> rtc (lstep false) s2 s3 ->
  Forall (fun row => exists record, decision_records (ls_db s3) !! lr_recordId row = Some record /\ content_matches row record = true)
    (window (decision_ledger (ls_db s2)) afterSeq (bounded_limit limit)).
Proof.
  intros R R2 R3. assert (Re2 : ledger_reachable false s2) by (unfold ledger_reachable in *; by transitivity s1).
  pose proof (records_inv_reachable _ _ Re2) as I2. pose proof (records_grow _ _ I2 R3) as G.
  destruct I2 as (W & _ & L). apply Forall_forall. intros lr Hin.
  assert (Hl : lr ∈ decision_ledger (ls_db s2)).
  { unfold window in Hin. apply list_elem_of_In. apply subseteq_take, list_elem_of_In, List.filter_In in Hin. tauto. }
  destruct (L eq_refl lr Hl) as (row & E & D). exists row. split; [by eapply lookup_weaken |]. by eapply written_matches; [apply W |].
Qed.

(** A window whose records are all in place and unaltered. *)
Lemma scan_clean env records : forall rows st,
  chained (sc_prevHash st) (sc_expectedSeq st - 1) rows ->
  Forall (fun row => exists record, records !! lr_recordId row = Some record /\ content_matches row record = true) rows ->
  exists st', scan env records st rows = (st', None)
    /\ sc_checked st' = sc_checked st + List.length rows /\ sc_pruned st' = sc_pruned st
    /\ sc_mismatches st' = sc_mismatches st /\ sc_first st' = sc_first st.
Proof.
  induction rows as [| row rows IH]; intros st C F; [exists st; cbn; repeat split; lia |].
  apply Forall_cons in F as [(rec & L & M) F]. destruct C as (Sq & P & Hh & C). cbn [scan]. unfold scan_row.
  replace (sc_expectedSeq st - 1 + 1)%Z with (sc_expectedSeq st) in Sq by lia.
  rewrite Sq, Z.eqb_refl, P, String.eqb_refl. rewrite Sq in Hh. rewrite <- Hh, String.eqb_refl, L, M. cbn [negb].
  match goal with |- context [scan env records ?st1 rows] => destruct (IH st1) as (st' & E & K1 & K2 & K3 & K4); [| exact F |] end.
  - cbn [sc_prevHash sc_expectedSeq]. by replace (sc_expectedSeq st + 1 - 1)%Z with (sc_expectedSeq st - 1 + 1)%Z by lia.
  - exists st'. split; [exact E |]. cbn in K1, K2, K3, K4. cbn [List.length]. repeat split; (lia || done).
Qed.

(** C13: while any number of writers run, fail, lose answers and die, and before
    retention deletes anything, a verification that starts at genesis or at an
    existing row raises no false alarm: it checks its whole window, finds every
    record and every digest in place, and reports a break only when some record
    older than the grace period has no ledger row. *)
Theorem no_false_alarm env sn s1 s2 s3 s4 s5 afterSeq limit :
  ledger_reachable false s1 -> during s1 s2 s3 s4 s5 sn ->
  (0 <= afterSeq <= Z.of_nat (List.length (decision_ledger (ls_db s1))))%Z ->
  let r := verifyDecisionLedger env sn afterSeq limit in
  vr_checked r = List.length (window (decision_ledger (ls_db s2)) afterSeq (bounded_limit limit))
  /\ vr_prunedRecords r = 0 /\ vr_contentMismatches r = 0
  /\ match vr_break r with
     | None => vr_ok r = true
     | Some b => overdue_break b /\ exists id row, decision_records (ls_db s5) !! id = Some row
         /\ str_leb (rr_createdAt row) (grace_cutoff env) = true /\ unvouched (decision_ledger (ls_db s5)) id = true
     end.
Proof.
  intros R (E1 & E2 & E3 & E4 & E5 & R2 & R3 & _) B. cbv zeta.
  set (rows := window (decision_ledger (ls_db s2)) afterSeq (bounded_limit limit)).
  set (prior := if (0 <? afterSeq)%Z then loadPublicLedgerRow (sn_prior sn) afterSeq else None).
  destruct (prior_in_chain s1 s2 afterSeq sn R R2 E1 B) as (P0 & Ph & Bd). fold prior in P0, Ph.
  destruct (scan_clean env (decision_records (sn_records sn)) rows (start_scan afterSeq prior)) as (st & Sc & K1 & K2 & K3 & K4).
  { cbn [start_scan sc_prevHash sc_expectedSeq]. rewrite Ph. replace (afterSeq + 1 - 1)%Z with afterSeq by lia.
    apply window_continues; [| exact Bd]. apply (chain_inv_reachable false). unfold ledger_reachable in *. by transitivity s1. }
  { rewrite E3. by apply (rows_in_place s1 s2 s3). }
  unfold verifyDecisionLedger. cbv zeta. fold prior. rewrite E2. fold rows. rewrite Sc. cbn [start_scan sc_checked sc_pruned sc_mismatches sc_first] in *.
  assert (Pr : (0 <? afterSeq)%Z && bool_decide (prior = None) = false).
  { destruct (Z.ltb_spec 0 afterSeq) as [L | L]; [| done]. destruct (P0 L) as [x ->]. done. }
  rewrite Pr, K4.
  destruct (if Nat.eqb _ _ then _ else _) as [next |] eqn:Nx; [cbn; rewrite K1, K2, K3; auto |].
  destruct (sc_lastCreatedAt st) as [lv |]; [| cbn; rewrite K1, K2, K3; auto].
  pose proof (reconcile_overdue env sn st lv) as Ro. destruct (reconcile_records env sn st lv) as [n [b |]]; cbn; rewrite K1, K2, K3;
    (do 3 (split; [done |])); [| done]. rewrite E5 in Ro. by apply Ro.
Qed.
End Windows.

(** ** Tamper evidence *)

Lemma app_cancel (p x y : string) : p ++ x = p ++ y -> x = y.
Proof. induction p as [| c p IH]; [done |]. rewrite !string_app_cons. intros [= H]. by apply IH. Qed.

Lemma app_same_length (a b x y : string) : String.length a = String.length b -> a ++ x = b ++ y -> a = b /\ x = y.
Proof.
  revert b. induction a as [| c a IH]; intros [| d b] L E; try discriminate L; [done |].
  rewrite !string_app_cons in E. injection E as -> E. injection L as L. by destruct (IH b L E) as [-> ->].
Qed.

(** The text a ledger row commits to. *)
Lemma ledger_fields_text seq id digest createdAt :
  canonicalJson (ledger_fields seq id digest createdAt)
  = ("{" ++ json_quote "createdAt" ++ ":") ++ json_quote createdAt ++ ("," ++ json_quote "recordDigest" ++ ":") ++ json_quote digest
    ++ ("," ++ json_quote "recordId" ++ ":") ++ json_quote id ++ ("," ++ json_quote "seq" ++ ":") ++ json_num (nz seq) ++ "}".
Proof.
  unfold ledger_fields. rewrite canonicalJson_obj.
  assert (S : sort_by_key (visible [("seq", JNum (nz seq)); ("recordId", JStr id); ("recordDigest", JStr digest); ("createdAt", JStr createdAt)])
    = [("createdAt", JStr createdAt); ("recordDigest", JStr digest); ("recordId", JStr id); ("seq", JNum (nz seq))]) by reflexivity.
  rewrite S. cbn [List.map fst snd canonicalJson]. unfold render_member. cbn [fst snd].
  rewrite !join_cons by done. cbn [join]. by rewrite !string_app_assoc.
Qed.

Lemma ledger_fields_inj seq i d c i' d' c' :
  canonicalJson (ledger_fields seq i d c) = canonicalJson (ledger_fields seq i' d' c') -> i = i' /\ d = d' /\ c = c'.
Proof.
  rewrite !ledger_fields_text. intros E.
  apply app_cancel, json_quote_inj in E as [-> E]. apply app_cancel, json_quote_inj in E as [-> E].
  by apply app_cancel, json_quote_inj in E as [-> _].
Qed.

Section Tampering.
Context `{WebCrypto}.

(** Two texts with one digest. *)
Definition collision : Prop := exists x y, x <> y /\ sha256Hex x = sha256Hex y.

Lemma row_hash_length prev n rows : chained prev n rows -> Forall (fun row => String.length (lr_rowHash row) = 64) rows.
Proof.
  revert prev n. induction rows as [| r rows IH]; intros prev n C; [constructor |]. destruct C as (_ & _ & Hh & C).
  constructor; [| by eapply IH]. rewrite Hh. apply sha256Hex_length.
Qed.

Lemma end_hash_length n rows : chained LEDGER_GENESIS_HASH n rows -> String.length (end_hash LEDGER_GENESIS_HASH rows) = 64.
Proof.
  intros C. apply row_hash_length in C. unfold end_hash, ledger_tip. destruct (list.last rows) as [r |] eqn:E; [| reflexivity].
  cbn. apply last_Some in E as [l' ->]. apply Forall_app in C as [_ C]. by apply Forall_cons in C as [C _].
Qed.

(** Equal hashes behind equal numbers: equal predecessors and fields. *)
Lemma row_hash_inj seq p i d c p' i' d' c' :
  String.length p = String.length p' ->
  ledgerRowHash p (ledger_fields seq i d c) = ledgerRowHash p' (ledger_fields seq i' d' c') ->
  collision \/ (p = p' /\ i = i' /\ d = d' /\ c = c').
Proof.
  intros L E. destruct (decide (p ++ canonicalJson (ledger_fields seq i d c) = p' ++ canonicalJson (ledger_fields seq i' d' c'))) as [Eq | Ne].
  - right. apply app_same_length in Eq as [-> Eq]; [| done]. split; [done |]. by apply (ledger_fields_inj seq).
  - left. eexists _, _. split; [exact Ne | exact E].
Qed.

(** A row of a chain and the one before it. *)
Lemma chained_link l i y z : chained LEDGER_GENESIS_HASH 0 l -> l !! i = Some y -> l !! S i = Some z ->
  lr_seq z = (Z.of_nat (S i) + 1)%Z /\ lr_prevHash z = lr_rowHash y /\ String.length (lr_rowHash y) = 64
  /\ lr_rowHash z = ledgerRowHash (lr_rowHash y) (ledger_fields (lr_seq z) (lr_recordId z) (lr_recordDigest z) (lr_createdAt z)).
Proof.
  intros C Ey Ez. pose proof (row_hash_length _ _ _ C) as Lh. rewrite Forall_lookup in Lh.
  rewrite <- (take_drop (S i) l) in C. apply chained_app in C as [_ C]. rewrite (drop_S l z (S i) Ez) in C.
  destruct C as (Sq & P & Hz & _). rewrite length_take in Sq. pose proof (lookup_lt_Some _ _ _ Ez).
  assert (Eh : end_hash LEDGER_GENESIS_HASH (take (S i) l) = lr_rowHash y).
  { rewrite <- end_hash_take by lia. replace (S i - 1) with i by lia. by rewrite Ey. }
  rewrite Eh in P, Hz. split_and!; [lia | done | by eapply Lh | done].
Qed.

Lemma row_ext r r' : lr_seq r = lr_seq r' -> lr_recordId r = lr_recordId r' -> lr_recordDigest r = lr_recordDigest r' ->
  lr_prevHash r = lr_prevHash r' -> lr_rowHash r = lr_rowHash r' -> lr_createdAt r = lr_createdAt r' -> r = r'.
Proof. destruct r, r'; cbn; congruence. Qed.

(** Two chains from genesis that agree on the hash of one row agree
    on that row and on every row before it, in every column, or the digest
    function has a collision: an anchored row pins the whole history before
    it. *)
Lemma chained_prefix rows rows' row row' i :
  chained LEDGER_GENESIS_HASH 0 rows -> chained LEDGER_GENESIS_HASH 0 rows' ->
  rows !! i = Some row -> rows' !! i = Some row' -> lr_rowHash row = lr_rowHash row' ->
  take (S i) rows = take (S i) rows' \/ collision.
Proof.
  intros C C'. revert row row'. induction i as [| i IH]; intros row row' E E' Hh; pose proof Hh as Hh0.
  - destruct rows as [| r l]; [done |]. destruct rows' as [| r' l']; [done |]. injection E as ->. injection E' as ->.
    destruct C as (S1 & P1 & H1 & _), C' as (S2 & P2 & H2 & _). rewrite H1, H2, S1, S2 in Hh.
    destruct (row_hash_inj _ _ _ _ _ _ _ _ _ eq_refl Hh) as [? | (_ & K1 & K2 & K3)]; [by right |]. left. cbn [take].
    f_equal. apply row_ext; congruence.
  - assert (exists x, rows !! i = Some x) as [x Ex] by (apply lookup_lt_is_Some; apply lookup_lt_Some in E; lia).
    assert (exists x', rows' !! i = Some x') as [x' Ex'] by (apply lookup_lt_is_Some; apply lookup_lt_Some in E'; lia).
    destruct (chained_link _ _ _ _ C Ex E) as (S1 & P1 & L1 & H1), (chained_link _ _ _ _ C' Ex' E') as (S2 & P2 & L2 & H2).
    rewrite H1, H2, S1, S2 in Hh. apply row_hash_inj in Hh as [? | (Kp & K1 & K2 & K3)]; [by right | | congruence].
    destruct (IH x x' Ex Ex' Kp) as [T | ?]; [| by right]. left.
    rewrite (take_S_r _ _ _ E), (take_S_r _ _ _ E'), T. do 2 f_equal. apply row_ext; congruence.
Qed.
End Tampering.

(** ** Properties *)

(** The verdict on a window at rest is exact: it is "ok" if and only if the row
    it resumes from exists, the rows of the window are numbered and hashed as a
    chain continuing that row, each row's record is there with the committed
    digest (or is old enough to have been deleted, or lies in the declared
    exclusion, which excuses the digest only), and, behind the last window,
    every record older than the grace period has a ledger row or is one of the
    declared exceptions. *)
Theorem verify_exact `{WebCrypto} env db afterSeq limit :
  let rows := window (decision_ledger db) afterSeq (bounded_limit limit) in
  let prior := if (0 <? afterSeq)%Z then loadPublicLedgerRow db afterSeq else None in
  vr_ok (verifyDecisionLedger env (at_rest db) afterSeq limit) = true
  <-> ((0 < afterSeq)%Z -> is_Some prior)
      /\ chained ((lr_rowHash <$> prior) ?? LEDGER_GENESIS_HASH) afterSeq rows
      /\ Forall (accounted env (decision_records db)) rows
      /\ Forall (reconciled env (decision_records db)) rows
      /\ (List.length rows <> bounded_limit limit -> forall lastVerified, verified_tail prior rows = Some lastVerified ->
            records_vouched env (at_rest db) lastVerified).
Proof. apply (verify_ok_iff env (at_rest db)). Qed.

(** A ledger without rows verifies from genesis whatever the records are: the
    reconciliation is skipped when there is no verified tail. *)
Theorem deleted_ledger_verifies `{WebCrypto} env records limit :
  let r := verifyDecisionLedger env (at_rest (mkDb records [])) 0 limit in vr_ok r = true /\ vr_checked r = 0.
Proof.
  cbv zeta. unfold verifyDecisionLedger. cbn -[bounded_limit].
  assert (W : window [] 0 (bounded_limit limit) = []) by (unfold window; by destruct (bounded_limit limit)). rewrite W. cbn.
  by destruct (bounded_limit limit).
Qed.

(** What a declared exclusion can say: a forward interval of row numbers from 1
    on, or at least one record in an interval of time, each with a reason that
    is not blank. *)
Theorem waivers_are_bounded date_parse raw raw' :
  (forall w, parseLedgerContentWaiver raw = Some w ->
     nleb (nz 1) (cw_fromSeq w) = true /\ nleb (cw_fromSeq w) (cw_toSeq w) = true /\ required_ok (cw_reason w))
  /\ (forall w, parseLedgerUnchainedWaiver date_parse raw' = Some w ->
     exists a b fromMs toMs, date_parse a = Fin fromMs /\ date_parse b = Fin toMs /\ (fromMs <= toMs)%Q
       /\ uw_fromIso w = toISOString (Qfloor fromMs) /\ uw_toIso w = toISOString (Qfloor toMs)
       /\ nleb (nz 1) (uw_maxRecords w) = true /\ required_ok (uw_reason w)).
Proof.
  assert (Tr : forall s, str_empty (trim s) = false -> required_ok (trim s)).
  { intros s E. split; [apply trim_idem | by apply str_empty_false]. }
  split; intros w.
  - unfold parseLedgerContentWaiver. destruct raw as [[| c s] |]; try done.
    destruct (split_first ":" (String c s)) as [[range text] |]; [| done]. cbn [mbind option_bind].
    destruct (str_empty (trim text)) eqn:Et; [done |].
    destruct (match_seq_range range) as [[a b] |]; [| done]. cbn [mbind option_bind].
    destruct (nltb (number_of_digits a) (nz 1) || nltb (number_of_digits b) (number_of_digits a)) eqn:B; [done |].
    apply orb_false_iff in B as [B1 B2]. intros [= <-]. cbn.
    rewrite nleb_total in B1, B2 by apply rnd_not_nan || done. apply negb_false_iff in B1, B2. split_and!; eauto.
  - unfold parseLedgerUnchainedWaiver. destruct raw' as [[| c s] |]; try done.
    destruct (split_on "|" (String c s)) as [| p0 [| p1 [| p2 ps]]]; try done.
    destruct (str_empty (trim (join "|" (p2 :: ps)))) eqn:Et; [done |].
    destruct (match_iso_range p0) as [[a b] |]; [| done]. cbn [mbind option_bind].
    destruct (date_parse a) as [| | | fm] eqn:Ea; try done. destruct (date_parse b) as [| | | tm] eqn:Eb; try done.
    destruct (nltb (Fin tm) (Fin fm)) eqn:B; [done |]. apply nltb_fin_false in B.
    destruct (is_finite _ && _ && _) eqn:N; [| done]. apply andb_true_iff in N as [_ N]. intros [= <-]. cbn.
    exists a, b, fm, tm. split_and!; eauto.
Qed.

(** ** Witnesses *)

Definition plain_env (nowMs : Z) : VerifyEnv := verify_env (fun _ => NaN) None None nowMs nowMs.

(** Both verdicts of [two_verdicts] deleted by retention, then a new one. *)
Definition all_pruned : Db :=
  mkDb (prune_records "2026-05-01T00:00:00.000Z" (decision_records two_verdicts)) (decision_ledger two_verdicts).
Definition id_reused : Db := (alone "2026-11-01T00:00:01.000Z" all_pruned "close" "2026-11-01T00:00:00.000Z").1.1.

Lemma id_reused_reachable : exists ws log, ledger_reachable true (mkLedgerSys id_reused ws log).
Proof.
  exists (wr_done (Some "record:acme/widgets#7@c0ffee") :: two_writers), []. apply alone_reachable.
  - eapply rtc_r; [exact (two_verdicts_reachable true) |].
    by apply (ls_prune true two_verdicts two_writers [] "2026-05-01T00:00:00.000Z"), prune_records_prunes.
  - vm_compute. reflexivity.
  - vm_compute. reflexivity.
Qed.

(** Without any tampering: a head whose records retention has deleted is
    evaluated again, the new record takes the deleted one's id, and the ledger
    row of the deleted record is reported as a content mismatch from then on.
    Before that verdict the same ledger verified. *)
Theorem reused_id_reported_as_tampering :
  exists s, ledger_reachable true s
    /\ vr_ok (verifyDecisionLedger (plain_env 1793577600000) (at_rest all_pruned) 0 500) = true
    /\ vr_ok (verifyDecisionLedger (plain_env 1793577600000) (at_rest (ls_db s)) 0 500) = false
    /\ vr_break (verifyDecisionLedger (plain_env 1793577600000) (at_rest (ls_db s)) 0 500)
       = Some (content_mismatch 1 "record:acme/widgets#7@c0ffee").
Proof.
  destruct id_reused_reachable as (ws & log & R). exists (mkLedgerSys id_reused ws log). split; [exact R |].
  cbn [ls_db]. split_and!; vm_compute; reflexivity.
Qed.

(** Two of [two_verdicts]'s rows, verified with no writer running. *)
Lemma no_false_alarm_witness :
  let s := mkLedgerSys two_verdicts two_writers [] in
  ledger_reachable false s /\ during s s s s s (at_rest two_verdicts)
  /\ vr_contentMismatches (verifyDecisionLedger (plain_env 1775952000000) (at_rest two_verdicts) 1 500) = 0.
Proof.
  cbv zeta. set (s := mkLedgerSys two_verdicts two_writers []).
  assert (R : ledger_reachable false s) by exact (two_verdicts_reachable false).
  assert (D : during s s s s s (at_rest two_verdicts)) by (unfold during; split_and!; (exact eq_refl || apply rtc_refl)).
  assert (B : (0 <= 1 <= Z.of_nat (List.length (decision_ledger (ls_db s))))%Z) by (split; [lia | vm_compute; discriminate]).
  split; [exact R |]. split; [exact D |].
  pose proof (no_false_alarm (plain_env 1775952000000) (at_rest two_verdicts) s s s s s 1 500 R D B) as P.
  cbv zeta in P. destruct P as (_ & _ & P & _). exact P.
Defined.

Lemma waivers_are_bounded_witness :
  parseLedgerContentWaiver (Some " 5 - 257 : rows from before the revision scheme ")
    = Some (mkContentWaiver (nz 5) (nz 257) "rows from before the revision scheme")
  /\ parseLedgerUnchainedWaiver (fun s => nz (Z.of_nat (String.length s))) (Some "a..bcd|231|failed appends")
    = Some (mkUnchainedWaiver "1970-01-01T00:00:00.001Z" "1970-01-01T00:00:00.003Z" (nz 231) "failed appends")
  /\ nleb (nz 1) (nz 5) = true.
Proof.
  assert (E : parseLedgerContentWaiver (Some " 5 - 257 : rows from before the revision scheme ")
    = Some (mkContentWaiver (nz 5) (nz 257) "rows from before the revision scheme")) by (vm_compute; reflexivity).
  split; [exact E |]. split; [vm_compute; reflexivity |].
  exact (proj1 (proj1 (waivers_are_bounded (fun _ => NaN) _ None) _ E)).
Defined.
