(* ===== verification/LedgerAnchor.v ===== *)
(** * External anchoring of the decision ledger

    Models [src/review/ledger-anchor.ts] (payload, published keys, public
    status), [ledger-anchor-persistence.ts] (the attempt log and its paginated
    public listing), [ledger-anchor-scheduler.ts] (when a checkpoint is
    published) and the payload of [packages/loopover-contract/src/anchor-verify.ts].

    The attempt log is the list of its rows.  Signing and the submission to a
    transparency log or a git repository happen outside: [sign] and [Submission]
    are what comes back.  Signature verification, PEM and base64 handling and
    the HTTP of the backends are not modelled.

    Main results: following the cursor of the public listing visits every
    attempt once, newest first, failures included ([anchor_pages_complete]); an
    hourly tick with a signing key leaves no required backend without either a
    success for the tip or a freshly logged attempt ([hourly_tick_covers_tip]);
    exactly one unretired key signs ([signing_key_unambiguous]). *)

From stdpp Require Import base list strings option gmap sorting pretty.
From Stdlib Require Import QArith Qround ZArith Ascii Lia.
From S2P Require Import Prelude JsNumber JsString Ledger CanonicalJson DecisionRecord LedgerVerify.

Local Open Scope nat_scope.
Local Open Scope string_scope.
Local Open Scope js_scope.

(** ** The payload *)

Definition LEDGER_ANCHOR_PAYLOAD_VERSION : Z := 1.
Definition LEDGER_ANCHOR_LEDGER_ID : string := "loopover.decision_ledger".

Record LedgerAnchorPayload := mkPayload {
  ap_v : Z;
  ap_ledger : string;
  ap_seq : Z;
  ap_rowHash : string;
  ap_totalCount : nat;
  ap_at : string;
}.

Definition payload_value (p : LedgerAnchorPayload) : jsval :=
  JObj [("v", JNum (nz (ap_v p))); ("ledger", JStr (ap_ledger p)); ("seq", JNum (nz (ap_seq p)));
        ("rowHash", JStr (ap_rowHash p)); ("totalCount", JNum (nnat (ap_totalCount p))); ("at", JStr (ap_at p))].

Definition buildLedgerAnchorPayload (tip : Z * string * nat) (at_ : string) : LedgerAnchorPayload :=
  let '(seq, rowHash, totalCount) := tip in
  mkPayload LEDGER_ANCHOR_PAYLOAD_VERSION LEDGER_ANCHOR_LEDGER_ID seq rowHash totalCount at_.

(** The exact bytes signed and verified. *)
Definition anchorSigningInput (p : LedgerAnchorPayload) : string := canonicalJson (payload_value p).

Record SignedLedgerAnchor := mkSigned { sa_payload : LedgerAnchorPayload; sa_keyId : string; sa_signature : string }.

(** ** Published keys *)

Record AnchorPublicKey := mkKey {
  ak_keyId : string;
  ak_publicKeySpki : string;
  ak_notBefore : string;
  ak_notAfter : option string;
}.

(** The entry as a key, when its fields have the required types. *)
Definition key_of_entry (entry : jsval) : option AnchorPublicKey :=
  match entry with
  | JObj _ | JArr _ =>
      match get_field entry "keyId", get_field entry "publicKeySpki", get_field entry "notBefore", get_field entry "notAfter" with
      | JStr keyId, JStr spki, JStr notBefore, JNull =>
          if str_empty keyId || str_empty spki then None else Some (mkKey keyId spki notBefore None)
      | JStr keyId, JStr spki, JStr notBefore, JStr notAfter =>
          if str_empty keyId || str_empty spki then None else Some (mkKey keyId spki notBefore (Some notAfter))
      | _, _, _, _ => None
      end
  | _ => None
  end.

Definition parseAnchorPublicKeys (raw : option string) : list AnchorPublicKey :=
  match raw with
  | None | Some EmptyString => []
  | Some raw => match JSON_parse raw with Some (JArr entries) => omap key_of_entry entries | _ => [] end
  end.

Definition unretired (key : AnchorPublicKey) : bool := bool_decide (ak_notAfter key = None).

Definition currentAnchorKey (keys : list AnchorPublicKey) : option AnchorPublicKey :=
  match List.filter unretired keys with [key] => Some key | _ => None end.

Definition anchorKeyById (keys : list AnchorPublicKey) (keyId : string) : option AnchorPublicKey :=
  List.find (fun key => String.eqb (ak_keyId key) keyId) keys.

Inductive AnchorKeyStatus := aks_ok | aks_unconfigured | aks_malformed | aks_no_valid_entries | aks_expired | aks_ambiguous_rotation.

Record AnchorKeyDiagnosis := mkDiagnosis {
  kd_status : AnchorKeyStatus;
  kd_keys : list AnchorPublicKey;
  kd_currentKeyId : option string;
  kd_droppedEntries : nat;
}.

Definition diagnoseAnchorPublicKeys (raw : option string) : AnchorKeyDiagnosis :=
  let empty status := mkDiagnosis status [] None 0 in
  match raw with
  | None | Some EmptyString => empty aks_unconfigured
  | Some text =>
      match JSON_parse text with
      | Some (JArr parsed) =>
          let keys := parseAnchorPublicKeys raw in
          match keys with
          | [] => empty (if Nat.eqb (List.length parsed) 0 then aks_unconfigured else aks_no_valid_entries)
          | _ =>
              let current := List.length (List.filter unretired keys) in
              mkDiagnosis (if Nat.eqb current 1 then aks_ok else if Nat.eqb current 0 then aks_expired else aks_ambiguous_rotation)
                keys (ak_keyId <$> currentAnchorKey keys) (List.length parsed - List.length keys)
          end
      | _ => empty aks_malformed
      end
  end.

Inductive PublicAnchorStatus := pas_anchored | pas_empty_ledger | pas_unconfigured | pas_pending.

Definition publicAnchorStatus (anchorCount : nat) (tipSeq : Z) (hasSigningKey : bool) : PublicAnchorStatus :=
  if Nat.ltb 0 anchorCount then pas_anchored
  else if (tipSeq =? 0)%Z then pas_empty_ledger
  else if negb hasSigningKey then pas_unconfigured
  else pas_pending.

(** ** The attempt log *)

Inductive LedgerAnchorBackend := be_rekor | be_git | be_ots | be_bittensor.

#[global] Instance LedgerAnchorBackend_eq_dec : EqDecision LedgerAnchorBackend.
Proof. solve_decision. Defined.

(** What a backend threw: text, an [Error] with its message, or anything else. *)
Inductive Failure := failed_text (s : string) | failed_error (message : string) | failed_other.

Definition errorMessage (e : Failure) : string :=
  match e with
  | failed_error m => if str_empty m then "unknown error" else m
  | _ => "unknown error"
  end.

Definition failure_text (e : Failure) : string :=
  js_take 500 (match e with failed_text s => s | _ => errorMessage e end).

Inductive AttemptStatus := attempt_ok (backendRef : jsval) (proofR2Key : option string) | attempt_failed (error : Failure).

Record LedgerAnchorAttemptInput := mkAttempt {
  at_payload : LedgerAnchorPayload;
  at_signature : string;
  at_keyId : string;
  at_backend : LedgerAnchorBackend;
  at_status : AttemptStatus;
}.

Record AnchorRow := mkAnchorRow {
  ar_id : string;
  ar_seq : Z;
  ar_rowHash : string;
  ar_payloadJson : string;
  ar_signature : string;
  ar_keyId : string;
  ar_backend : LedgerAnchorBackend;
  ar_backendRef : option string;
  ar_proofR2Key : option string;
  ar_ok : bool;
  ar_error : option string;
  ar_createdAt : string;
}.

(** The row of one attempt, under the id [crypto.randomUUID] returned. *)
Definition attempt_row (attempt : LedgerAnchorAttemptInput) (uuid createdAt : string) : AnchorRow :=
  let p := at_payload attempt in
  let row := mkAnchorRow uuid (ap_seq p) (ap_rowHash p) (json_stringify (payload_value p) ?? "") (at_signature attempt)
               (at_keyId attempt) (at_backend attempt) in
  match at_status attempt with
  | attempt_ok ref proof => row (json_stringify ref) proof true None createdAt
  | attempt_failed e => row None None false (Some (failure_text e)) createdAt
  end.

Definition recordLedgerAnchorAttempt (log : list AnchorRow) (attempt : LedgerAnchorAttemptInput) (uuid createdAt : string) : list AnchorRow :=
  (log ++ [attempt_row attempt uuid createdAt])%list.

(** ** Its public listing *)

(** [ORDER BY created_at DESC, id DESC]. *)
Definition newer_first (a b : AnchorRow) : Prop :=
  str_ltb (ar_createdAt b) (ar_createdAt a) = true
  \/ (ar_createdAt a = ar_createdAt b /\ String.le (ar_id b) (ar_id a)).
#[global] Instance newer_first_dec : RelDecision newer_first.
Proof. intros a b. unfold newer_first. apply _. Defined.

Definition newest_first (log : list AnchorRow) : list AnchorRow := merge_sort newer_first log.

Record PublicLedgerAnchor := mkPublicAnchor {
  pa_id : string;
  pa_seq : Z;
  pa_rowHash : string;
  pa_keyId : string;
  pa_backend : LedgerAnchorBackend;
  pa_backendRef : jsval;
  pa_ok : bool;
  pa_error : option string;
  pa_createdAt : string;
}.

Definition parseBackendRef (raw : option string) : jsval :=
  match raw with Some s => default JNull (JSON_parse s) | None => JNull end.

Definition public_anchor (row : AnchorRow) : PublicLedgerAnchor :=
  mkPublicAnchor (ar_id row) (ar_seq row) (ar_rowHash row) (ar_keyId row) (ar_backend row) (parseBackendRef (ar_backendRef row))
    (ar_ok row) (ar_error row) (ar_createdAt row).

Definition encodeAnchorCursor (createdAt id : string) : string := createdAt ++ "|" ++ id.

Definition parseAnchorCursor (before_ : option string) : option (string * string) :=
  match before_ with
  | None => None
  | Some s =>
      '(createdAt, id) ← split_first "|" s;
      if str_empty createdAt || str_empty id then None else Some (createdAt, id)
  end.

(** [created_at < ? OR (created_at = ? AND id < ?)]. *)
Definition after_cursor (cursor : option (string * string)) (row : AnchorRow) : bool :=
  match cursor with
  | None => true
  | Some (createdAt, id) =>
      str_ltb (ar_createdAt row) createdAt || String.eqb (ar_createdAt row) createdAt && str_ltb (ar_id row) id
  end.

Definition of_backend (backend : option LedgerAnchorBackend) (row : AnchorRow) : bool :=
  match backend with None => true | Some b => bool_decide (ar_backend row = b) end.

Definition page_limit (limit : option Z) : nat := Z.to_nat (Z.max 1 (Z.min 200 (limit ?? 50%Z))).

Definition loadPublicLedgerAnchors (log : list AnchorRow) (backend : option LedgerAnchorBackend) (before_ : option string) (limit : option Z)
  : list PublicLedgerAnchor * option string :=
  let n := page_limit limit in
  let results := take (n + 1) (List.filter (fun row => of_backend backend row && after_cursor (parseAnchorCursor before_) row) (newest_first log)) in
  let page := take n results in
  let lastRow := if Nat.ltb n (List.length results) then list.last page else None in
  (List.map public_anchor page, (fun row => encodeAnchorCursor (ar_createdAt row) (ar_id row)) <$> lastRow).

Definition loadLastLedgerAnchorAttempt (log : list AnchorRow) : option (Z * string) :=
  (fun row => (ar_seq row, ar_rowHash row)) <$> List.head (newest_first log).

Definition anchored_by (log : list AnchorRow) (rowHash : string) (b : LedgerAnchorBackend) : bool :=
  existsb (fun row => String.eqb (ar_rowHash row) rowHash && ar_ok row && bool_decide (ar_backend row = b)) log.

Definition anchorBackendsMissingForRowHash (log : list AnchorRow) (rowHash : string) (backends : list LedgerAnchorBackend) : list LedgerAnchorBackend :=
  List.filter (fun b => negb (anchored_by log rowHash b)) backends.

(** ** The schedule *)

Definition LEDGER_ANCHOR_SEQ_THRESHOLD : Z := 256.

Inductive LedgerAnchorScheduleDecision := sd_empty_ledger | sd_unchanged | sd_hourly | sd_seq_threshold | sd_retry_unanchored.

Definition shouldAnchor (d : LedgerAnchorScheduleDecision) : bool :=
  match d with sd_empty_ledger | sd_unchanged => false | _ => true end.

Definition decideLedgerAnchorSchedule (isHourly : bool) (tipSeq : Z) (tipHash : string) (lastAnchor : option (Z * string))
  (seqThreshold : Z) (unanchoredBackends : list LedgerAnchorBackend) : LedgerAnchorScheduleDecision :=
  if (tipSeq =? 0)%Z then sd_empty_ledger
  else if (seqThreshold <=? tipSeq - ((fst <$> lastAnchor) ?? 0%Z))%Z then sd_seq_threshold
  else
    let tipUnchanged := match lastAnchor with Some (_, h) => String.eqb h tipHash | None => false end in
    if isHourly && negb tipUnchanged then sd_hourly
    else if isHourly && tipUnchanged && Nat.ltb 0 (List.length unanchoredBackends) then sd_retry_unanchored
    else sd_unchanged.

Record LedgerAnchorGitTarget := mkGitTarget { gt_owner : string; gt_repo : string; gt_branch : string; gt_path : string }.

(** [a || b] on configuration text. *)
Definition text_or (o : option string) (d : string) : string := match o with Some s => if str_empty s then d else s | None => d end.

Definition resolveGitAnchorTarget (owner repo branch path : option string) : option LedgerAnchorGitTarget :=
  match owner, repo with
  | Some o, Some r =>
      if str_empty o || str_empty r then None
      else Some (mkGitTarget o r (text_or branch "main") (text_or path "anchors.jsonl"))
  | _, _ => None
  end.

(** A backend writes its own row, or throws and the guard writes a failure. *)
Inductive Submission := submitted (status : AttemptStatus) | threw (e : Failure).

Definition submission_status (s : Submission) : AttemptStatus := match s with submitted st => st | threw e => attempt_failed (failed_text (errorMessage e)) end.

Record AnchorEnv := mkAnchorEnv {
  ae_keys : option string;
  ae_privateKey : option string;
  ae_git : bool;                                         (* [deps.submitGit] is configured *)
  ae_sign : string -> string -> option string;            (* private key and signing input; [None] when it throws *)
  ae_submit : LedgerAnchorBackend -> SignedLedgerAnchor -> Submission;
  ae_stamp : LedgerAnchorBackend -> string * string;      (* uuid and creation time of the row *)
  ae_missingReadable : bool;                              (* whether the query for missing backends succeeds *)
}.

Definition requiredSuccessBackends (git : bool) : list LedgerAnchorBackend := if git then [be_rekor; be_git] else [be_rekor].

(** One guarded submission. *)
Definition guardedSubmit (env : AnchorEnv) (signed : SignedLedgerAnchor) (log : list AnchorRow) (b : LedgerAnchorBackend) : list AnchorRow :=
  let '(uuid, createdAt) := ae_stamp env b in
  recordLedgerAnchorAttempt log
    (mkAttempt (sa_payload signed) (sa_signature signed) (sa_keyId signed) b (submission_status (ae_submit env b signed))) uuid createdAt.

(** The signing key in force and its private half. *)
Definition signing_key (env : AnchorEnv) : option (AnchorPublicKey * string) :=
  key ← currentAnchorKey (parseAnchorPublicKeys (ae_keys env));
  match ae_privateKey env with
  | Some pem => if str_empty pem then None else Some (key, pem)
  | None => None
  end.

Definition runScheduledLedgerAnchor (env : AnchorEnv) (db : Db) (log : list AnchorRow) (isHourly : bool) (now : string)
  : completion (LedgerAnchorScheduleDecision * list AnchorRow) :=
  let '(tipSeq, tipHash, totalCount) := loadDecisionLedgerTip db in
  let lastAnchor := loadLastLedgerAnchorAttempt log in
  let required := requiredSuccessBackends (ae_git env) in
  let unanchored := if ae_missingReadable env then anchorBackendsMissingForRowHash log tipHash required else [] in
  let decision := decideLedgerAnchorSchedule isHourly tipSeq tipHash lastAnchor LEDGER_ANCHOR_SEQ_THRESHOLD unanchored in
  if negb (shouldAnchor decision) then Normal (decision, log)
  else
    match signing_key env with
    | None => Normal (decision, log)
    | Some (key, pem) =>
        let payload := buildLedgerAnchorPayload (tipSeq, tipHash, totalCount) now in
        match ae_sign env pem (anchorSigningInput payload) with
        | None => Thrown "sign"
        | Some signature =>
            Normal (decision, List.fold_left (guardedSubmit env (mkSigned payload (ak_keyId key) signature)) required log)
        end
    end.

(** ** Order of the listing *)

Lemma compare_refl a : String.compare a a = Eq.
Proof. induction a as [| c a IH]; simpl; [done |]. unfold Ascii.compare. by rewrite N.compare_refl. Qed.

Lemma str_ltb_iff a b : str_ltb a b = true <-> String.le a b /\ a <> b.
Proof.
  unfold str_ltb, String.ltb, String.le, String.leb. pose proof (String.compare_eq_iff a b) as Q. pose proof (compare_refl b) as R.
  destruct (String.compare a b) eqn:E; cbn; split; try done.
  - intros [_ N]. destruct N. by apply Q.
  - intros _. split; [done |]. intros ->. congruence.
  - intros [[] _].
Qed.

#[global] Instance newer_first_trans : Transitive newer_first.
Proof.
  assert (L : forall a b c, String.le a b -> String.le b c -> String.le a c) by (intros a b c; by transitivity b).
  assert (A : forall a b, String.le a b -> String.le b a -> a = b) by (intros a b; apply (anti_symm String.le)).
  intros x y z [H1 | [E1 H1]] [H2 | [E2 H2]]; unfold newer_first.
  - left. apply str_ltb_iff in H1 as [L1 N1], H2 as [L2 N2]. apply str_ltb_iff. split; [eauto |].
    intros E. apply N2. rewrite <- E in L1. by apply A.
  - left. congruence.
  - left. congruence.
  - right. split; [congruence | eauto].
Qed.

#[global] Instance newer_first_total : Total newer_first.
Proof.
  intros x y. unfold newer_first. destruct (decide (ar_createdAt x = ar_createdAt y)) as [E | N].
  - destruct (total String.le (ar_id x) (ar_id y)); [right | left]; right; by split.
  - destruct (total String.le (ar_createdAt x) (ar_createdAt y)); [right | left]; left; apply str_ltb_iff; auto.
Qed.

(** The cursor of a row selects what comes after it. *)
Definition cursor_of (row : AnchorRow) : string := encodeAnchorCursor (ar_createdAt row) (ar_id row).

Definition cursor_ok (row : AnchorRow) : bool :=
  str_forallb (fun c => negb (Ascii.eqb c "|")) (ar_createdAt row) && negb (str_empty (ar_createdAt row)) && negb (str_empty (ar_id row)).

Lemma split_first_app c a b : str_forallb (fun d => negb (Ascii.eqb d c)) a = true -> split_first c (a ++ String c b) = Some (a, b).
Proof.
  induction a as [| d a IH]; simpl; [by rewrite Ascii.eqb_refl |].
  rewrite andb_true_iff, negb_true_iff. intros [N H]. rewrite N, IH by done. done.
Qed.

Lemma cursor_roundtrip row : cursor_ok row = true -> parseAnchorCursor (Some (cursor_of row)) = Some (ar_createdAt row, ar_id row).
Proof.
  unfold cursor_ok, cursor_of, encodeAnchorCursor. rewrite !andb_true_iff, !negb_true_iff. intros [[B E1] E2]. cbn [parseAnchorCursor].
  change ("|" ++ ar_id row) with (String "|" (ar_id row)). rewrite split_first_app by done. cbn. by rewrite E1, E2.
Qed.

Lemma after_row row x : ar_id row <> ar_id x ->
  (newer_first row x -> after_cursor (Some (ar_createdAt row, ar_id row)) x = true)
  /\ (newer_first x row -> after_cursor (Some (ar_createdAt row, ar_id row)) x = false).
Proof.
  intros N. cbn. split.
  - intros [H | [E H]]; [by rewrite H |]. apply orb_true_iff. right. rewrite E, String.eqb_refl. apply str_ltb_iff. split; [done | congruence].
  - intros H. apply not_true_iff_false. intros K. apply orb_true_iff in K.
    assert (S : newer_first row x).
    { destruct K as [K | K]; [by left |]. apply andb_true_iff in K as [K1 K2]. apply String.eqb_eq in K1. apply str_ltb_iff in K2 as [K2 _].
      right. by split. }
    assert (A : forall a b, String.le a b -> String.le b a -> a = b) by (intros a b; apply (anti_symm String.le)).
    destruct H as [H | [E H]], S as [S | [E' S]].
    + apply str_ltb_iff in H as [H N1], S as [S _]. apply N1. by apply A.
    + rewrite E' in H. apply str_ltb_iff in H as [_ N1]. done.
    + rewrite E in S. apply str_ltb_iff in S as [_ N1]. done.
    + apply N. by apply A.
Qed.

Lemma after_self row : after_cursor (Some (ar_createdAt row, ar_id row)) row = false.
Proof.
  cbn. apply orb_false_iff. rewrite String.eqb_refl. split; apply not_true_iff_false; rewrite ?andb_true_iff, !str_ltb_iff; tauto.
Qed.

(** In a sorted list without repeated ids, what comes after the row at [k] is the rest of the list. *)
Lemma filter_after l k row :
  StronglySorted newer_first l -> NoDup (ar_id <$> l) -> l !! k = Some row ->
  List.filter (after_cursor (Some (ar_createdAt row, ar_id row))) l = drop (S k) l.
Proof.
  revert k. induction l as [| x l IH]; intros k S ND E; [done |]. apply StronglySorted_cons in S as [F S].
  rewrite fmap_cons in ND. apply NoDup_cons in ND as [Hx ND]. rewrite Forall_forall in F. destruct k as [| k].
  - injection E as ->. cbn [List.filter drop]. rewrite after_self. apply filter_all_in. intros y Hy%list_elem_of_In.
    apply after_row; [| by apply F]. intros Ei. apply Hx. rewrite Ei. by apply list_elem_of_fmap_2.
  - cbn in E. cbn [List.filter]. destruct (after_row row x) as [_ A].
    { intros Ei. apply Hx. rewrite <- Ei. apply list_elem_of_fmap_2. by eapply list_elem_of_lookup_2. }
    rewrite A by (apply F; by eapply list_elem_of_lookup_2). by apply IH.
Qed.

(** ** Following the cursor *)

Fixpoint all_pages (fuel : nat) (log : list AnchorRow) (backend : option LedgerAnchorBackend) (limit : option Z) (before_ : option string)
  : list PublicLedgerAnchor :=
  match fuel with
  | O => []
  | S f =>
      let '(anchors, nextBefore) := loadPublicLedgerAnchors log backend before_ limit in
      (anchors ++ match nextBefore with Some c => all_pages f log backend limit (Some c) | None => [] end)%list
  end.

(** The attempts a backend filter selects, newest first. *)
Definition listed (log : list AnchorRow) (backend : option LedgerAnchorBackend) : list AnchorRow :=
  List.filter (of_backend backend) (newest_first log).

Lemma filter_both {A} (p q : A -> bool) l : List.filter (fun x => p x && q x) l = List.filter q (List.filter p l).
Proof. induction l as [| x l IH]; [done |]. cbn [List.filter]. destruct (p x); cbn [andb List.filter]; by rewrite IH. Qed.

Lemma filter_bool_Permutation {A} (p : A -> bool) l k : l ≡ₚ k -> List.filter p l ≡ₚ List.filter p k.
Proof.
  induction 1 as [| x l k _ IH | x y l | l k m _ IH1 _ IH2]; cbn [List.filter].
  - done.
  - destruct (p x); by rewrite IH.
  - destruct (p x), (p y); try done. constructor.
  - by rewrite IH1.
Qed.

Section Pages.
Context (log : list AnchorRow) (backend : option LedgerAnchorBackend) (limit : option Z).
Context (Hids : NoDup (ar_id <$> log)) (Hok : Forall (fun row => cursor_ok row = true) log).
Local Notation listing := (listed log backend).

Lemma listing_sorted : StronglySorted newer_first listing /\ NoDup (ar_id <$> listing) /\ Forall (fun row => cursor_ok row = true) listing.
Proof.
  assert (P : newest_first log ≡ₚ log) by apply merge_sort_Permutation.
  assert (S : StronglySorted newer_first (newest_first log)) by (apply StronglySorted_merge_sort; apply _).
  assert (ND : NoDup (ar_id <$> newest_first log)) by (by rewrite P).
  assert (F : Forall (fun row => cursor_ok row = true) (newest_first log)) by (by rewrite P).
  unfold listed. revert S ND F. generalize (newest_first log) as l.
  induction l as [| x l IH]; intros S ND F; [by repeat constructor |].
  apply StronglySorted_cons in S as [Fx S]. rewrite fmap_cons in ND. apply NoDup_cons in ND as [Hx ND]. apply Forall_cons in F as [F0 F].
  destruct (IH S ND F) as (I1 & I2 & I3). cbn [List.filter].
  assert (Sub : forall y, y ∈ List.filter (of_backend backend) l -> y ∈ l) by (intros y; rewrite !list_elem_of_In, List.filter_In; tauto).
  destruct (of_backend backend x); [| done]. split_and!.
  - constructor; [done |]. rewrite Forall_forall in *. auto.
  - rewrite fmap_cons. apply NoDup_cons. split; [| done]. rewrite list_elem_of_fmap. intros (y & E & Hy). apply Hx. rewrite E.
    by apply list_elem_of_fmap_2, Sub.
  - by constructor.
Qed.

(** The cursor stands at position [pos] of the listing. *)
Definition cursor_at (pos : nat) (before_ : option string) : Prop :=
  (pos = 0 /\ before_ = None) \/ exists row, pos = S row.1 /\ listing !! row.1 = Some row.2 /\ before_ = Some (cursor_of row.2).

Lemma page_at pos before_ : cursor_at pos before_ ->
  loadPublicLedgerAnchors log backend before_ limit
  = (List.map public_anchor (take (page_limit limit) (drop pos listing)),
     if Nat.ltb (page_limit limit) (List.length (drop pos listing))
     then cursor_of <$> listing !! (pos + page_limit limit - 1) else None).
Proof.
  intros C. assert (R : List.filter (fun row => of_backend backend row && after_cursor (parseAnchorCursor before_) row) (newest_first log) = drop pos listing).
  { rewrite filter_both. change (List.filter (of_backend backend) (newest_first log)) with listing.
    destruct C as [[-> ->] | ([k row] & -> & L & ->)]; cbn [fst snd] in *.
    - apply filter_all_in. done.
    - destruct listing_sorted as (S & ND & F). rewrite Forall_lookup in F. rewrite cursor_roundtrip by (by eapply F). by apply filter_after. }
  unfold loadPublicLedgerAnchors. rewrite R. cbv zeta. pose proof (eq_refl (page_limit limit)) as Pn. unfold page_limit in Pn at 1.
  set (n := page_limit limit) in *. assert (1 <= n) by lia. clear Pn.
  rewrite take_take, Nat.min_l by lia. f_equal. rewrite length_take.
  destruct (Nat.ltb_spec n (List.length (drop pos listing))) as [L | L].
  - replace (Nat.ltb n _) with true by (symmetry; apply Nat.ltb_lt; lia).
    rewrite last_lookup, length_take, Nat.min_l, lookup_take_lt, lookup_drop by lia.
    by replace (pos + Nat.pred n) with (pos + n - 1) by lia.
  - by replace (Nat.ltb n _) with false by (symmetry; apply Nat.ltb_ge; lia).
Qed.

Lemma pages_from fuel : forall pos before_, cursor_at pos before_ -> List.length listing - pos < fuel ->
  all_pages fuel log backend limit before_ = List.map public_anchor (drop pos listing).
Proof.
  induction fuel as [| f IH]; intros pos before_ C L; [lia |]. cbn [all_pages]. rewrite (page_at _ _ C).
  set (n := page_limit limit). assert (1 <= n) by (unfold n, page_limit; lia).
  destruct (Nat.ltb_spec n (List.length (drop pos listing))) as [More | Done].
  - rewrite length_drop in More. destruct (lookup_lt_is_Some_2 listing (pos + n - 1)) as [row E]; [lia |]. rewrite E. cbn [fmap option_fmap option_map].
    rewrite (IH (pos + n)); [| | lia].
    + rewrite <- List.map_app, <- drop_drop. f_equal. apply take_drop.
    + right. exists (pos + n - 1, row). cbn. split_and!; [lia | done..].
  - by rewrite take_ge, app_nil_r by lia.
Qed.
End Pages.


(** Following the cursor of the public listing from the first page, with any page
    size, visits exactly the attempts of the asked backend, each once, newest
    first and failures included, and stops. *)
Theorem anchor_pages_complete log backend limit fuel :
  NoDup (ar_id <$> log) -> Forall (fun row => cursor_ok row = true) log -> List.length log < fuel ->
  all_pages fuel log backend limit None = List.map public_anchor (listed log backend)
  /\ StronglySorted newer_first (listed log backend)
  /\ listed log backend ≡ₚ List.filter (of_backend backend) log.
Proof.
  intros ND Ok L. assert (P : newest_first log ≡ₚ log) by apply merge_sort_Permutation.
  assert (Q : listed log backend ≡ₚ List.filter (of_backend backend) log) by (by apply filter_bool_Permutation).
  split_and!; [| by apply listing_sorted | done].
  rewrite (pages_from log backend limit ND Ok fuel 0); [by rewrite drop_0 | by left |].
  pose proof (List.filter_length_le (of_backend backend) log). rewrite Q. lia.
Qed.

(** ** The tick *)

(** The row a tick adds for one backend. *)
Definition checkpoint (env : AnchorEnv) (signed : SignedLedgerAnchor) (b : LedgerAnchorBackend) : AnchorRow :=
  attempt_row (mkAttempt (sa_payload signed) (sa_signature signed) (sa_keyId signed) b (submission_status (ae_submit env b signed)))
    (ae_stamp env b).1 (ae_stamp env b).2.

Lemma fold_guarded env signed backends : forall log,
  List.fold_left (guardedSubmit env signed) backends log = (log ++ List.map (checkpoint env signed) backends)%list.
Proof.
  induction backends as [| b l IH]; intros log; cbn [List.fold_left List.map]; [by rewrite app_nil_r |].
  rewrite IH. unfold guardedSubmit, recordLedgerAnchorAttempt, checkpoint. destruct (ae_stamp env b). by rewrite <- app_assoc.
Qed.

Lemma checkpoint_fields env signed b :
  let row := checkpoint env signed b in
  ar_seq row = ap_seq (sa_payload signed) /\ ar_rowHash row = ap_rowHash (sa_payload signed) /\ ar_backend row = b
  /\ ar_createdAt row = (ae_stamp env b).2
  /\ (forall ref proof, submission_status (ae_submit env b signed) = attempt_ok ref proof -> ar_ok row = true).
Proof. unfold checkpoint, attempt_row. cbn. destruct (submission_status _); cbn; naive_solver. Qed.

Section Tick.
Context (env : AnchorEnv) (db : Db) (log : list AnchorRow) (seq : Z) (hash : string) (total : nat).
Context (Htip : loadDecisionLedgerTip db = (seq, hash, total)).
Local Notation required := (requiredSuccessBackends (ae_git env)).

Definition tick_decision (isHourly : bool) : LedgerAnchorScheduleDecision :=
  decideLedgerAnchorSchedule isHourly seq hash (loadLastLedgerAnchorAttempt log) LEDGER_ANCHOR_SEQ_THRESHOLD
    (if ae_missingReadable env then anchorBackendsMissingForRowHash log hash required else []).

Definition tick_payload (now : string) : LedgerAnchorPayload := buildLedgerAnchorPayload (seq, hash, total) now.

(** A tick as its decision followed by the attempts. *)
Lemma tick_runs isHourly now :
  runScheduledLedgerAnchor env db log isHourly now
  = if shouldAnchor (tick_decision isHourly) then
      match signing_key env with
      | None => Normal (tick_decision isHourly, log)
      | Some (key, pem) =>
          match ae_sign env pem (anchorSigningInput (tick_payload now)) with
          | None => Thrown "sign"
          | Some sig =>
              Normal (tick_decision isHourly, (log ++ List.map (checkpoint env (mkSigned (tick_payload now) (ak_keyId key) sig)) required)%list)
          end
      end
    else Normal (tick_decision isHourly, log).
Proof.
  unfold runScheduledLedgerAnchor. rewrite Htip. cbv zeta. fold (tick_decision isHourly). fold (tick_payload now).
  destruct (shouldAnchor _); cbn [negb]; [| done]. destruct (signing_key env) as [[key pem] |]; [| done].
  destruct (ae_sign _ _ _); [| done]. by rewrite fold_guarded.
Qed.

(** An hourly tick is idle on a nonempty ledger only when the last attempt was for this tip. *)
Lemma hourly_idle : seq <> 0%Z -> shouldAnchor (tick_decision true) = false -> ae_missingReadable env = true ->
  forall b, b ∈ required -> anchored_by log hash b = true.
Proof.
  intros N I M b Hb. unfold tick_decision, decideLedgerAnchorSchedule in I. rewrite M in I.
  apply Z.eqb_neq in N. rewrite N in I. destruct (_ <=? _)%Z; [done |]. cbv zeta in I.
  set (un := match loadLastLedgerAnchorAttempt log with Some (_, h) => String.eqb h hash | None => false end) in I.
  destruct un; cbn [andb negb] in I; [| done]. destruct (Nat.ltb_spec 0 (List.length (anchorBackendsMissingForRowHash log hash required))) as [L | L]; [done |].
  destruct (anchored_by log hash b) eqn:A; [done |]. exfalso.
  assert (H : List.In b (anchorBackendsMissingForRowHash log hash required)).
  { apply List.filter_In. rewrite A. split; [by apply list_elem_of_In | done]. }
  destruct (anchorBackendsMissingForRowHash log hash required); [done | cbn in L; lia].
Qed.
End Tick.

(** C24: on a nonempty ledger an hourly tick with a usable signing key leaves no required
    backend behind: each either has a recorded success for the current tip or gets
    an attempt for exactly that tip logged now, whatever the backend answered. *)
Theorem hourly_tick_covers_tip env db log now seq hash total key pem sig :
  loadDecisionLedgerTip db = (seq, hash, total) -> seq <> 0%Z -> ae_missingReadable env = true ->
  signing_key env = Some (key, pem) -> ae_sign env pem (anchorSigningInput (tick_payload seq hash total now)) = Some sig ->
  exists d new, runScheduledLedgerAnchor env db log true now = Normal (d, log ++ new)%list
    /\ forall b, b ∈ requiredSuccessBackends (ae_git env) ->
         anchored_by log hash b = true
         \/ exists row, row ∈ new /\ ar_backend row = b /\ ar_rowHash row = hash /\ ar_seq row = seq.
Proof.
  intros T N M K Sg. rewrite (tick_runs env db log seq hash total T true now), K, Sg.
  destruct (shouldAnchor _) eqn:A.
  - eexists _, _. split; [done |]. intros b Hb. right. exists (checkpoint env (mkSigned (tick_payload seq hash total now) (ak_keyId key) sig) b).
    pose proof (checkpoint_fields env (mkSigned (tick_payload seq hash total now) (ak_keyId key) sig) b) as (F1 & F2 & F3 & _).
    split; [| done]. by apply list_elem_of_fmap_2.
  - exists (tick_decision env log seq hash true), []. rewrite app_nil_r. split; [done |]. intros b Hb. left.
    by eapply hourly_idle.
Qed.

(** The newest row of a log extended by newer rows is one of them. *)
Lemma newest_of_app log new : new <> [] ->
  (forall a b, a ∈ log -> b ∈ new -> str_ltb (ar_createdAt a) (ar_createdAt b) = true) ->
  exists row, List.head (newest_first (log ++ new)) = Some row /\ row ∈ new.
Proof.
  intros NE Newer. destruct new as [| n0 new0] eqn:En; [done |]. rewrite <- En in *.
  assert (P : newest_first (log ++ new) ≡ₚ log ++ new) by apply merge_sort_Permutation.
  assert (S : StronglySorted newer_first (newest_first (log ++ new))) by (apply StronglySorted_merge_sort; apply _).
  assert (H0 : n0 ∈ newest_first (log ++ new)) by (rewrite P, En; set_solver).
  destruct (newest_first (log ++ new)) as [| x l] eqn:E; [by apply not_elem_of_nil in H0 |].
  exists x. split; [done |]. assert (Hx : x ∈ (log ++ new)%list) by (rewrite <- P; left).
  apply elem_of_app in Hx as [Hx | Hx]; [| done]. exfalso.
  assert (Hn : n0 ∈ new) by (rewrite En; left). pose proof (Newer x n0 Hx Hn) as L. apply str_ltb_iff in L as [L N].
  apply StronglySorted_cons in S as [F _]. rewrite Forall_forall in F. apply elem_of_cons in H0 as [-> | H0]; [done |].
  destruct (F n0 H0) as [G | [G _]]; [| done]. apply str_ltb_iff in G as [G _]. apply N. by apply (anti_symm String.le).
Qed.

(** After a checkpoint every backend took, the next tick finds nothing to do. *)
Lemma anchored_tip_idle env log seq hash isHourly signed :
  ap_seq (sa_payload signed) = seq -> ap_rowHash (sa_payload signed) = hash ->
  (forall b, exists ref proof, submission_status (ae_submit env b signed) = attempt_ok ref proof) ->
  (forall b row, row ∈ log -> str_ltb (ar_createdAt row) (ae_stamp env b).2 = true) ->
  shouldAnchor (tick_decision env (log ++ List.map (checkpoint env signed) (requiredSuccessBackends (ae_git env))) seq hash isHourly) = false.
Proof.
  intros <- <- Ok Newer. set (required := requiredSuccessBackends (ae_git env)). set (new := List.map (checkpoint env signed) required).
  assert (C : forall row, row ∈ new -> exists b, row = checkpoint env signed b).
  { intros row Hr. apply list_elem_of_In, List.in_map_iff in Hr as (b & <- & _). by exists b. }
  destruct (newest_of_app log new) as (row & Hd & Hr).
  { unfold new, required, requiredSuccessBackends. by destruct (ae_git env). }
  { intros a r Ha Hr. destruct (C r Hr) as [b ->]. pose proof (checkpoint_fields env signed b) as (_ & _ & _ & E & _). rewrite E. by apply Newer. }
  destruct (C row Hr) as [b0 ->]. pose proof (checkpoint_fields env signed b0) as (Es & Eh & _).
  assert (A : forall b, b ∈ required -> anchored_by (log ++ new) (ap_rowHash (sa_payload signed)) b = true).
  { intros b Hb. apply existsb_exists. exists (checkpoint env signed b).
    pose proof (checkpoint_fields env signed b) as (_ & F2 & F3 & _ & F5). destruct (Ok b) as (ref & proof & O).
    rewrite F2, F3, String.eqb_refl, (F5 _ _ O), bool_decide_true by done. split; [| done].
    apply List.in_app_iff. right. by apply List.in_map, list_elem_of_In. }
  assert (M : anchorBackendsMissingForRowHash (log ++ new) (ap_rowHash (sa_payload signed)) required = []).
  { unfold anchorBackendsMissingForRowHash. destruct (List.filter _ required) as [| b l] eqn:E; [done |].
    assert (Hb : In b (b :: l)) by (by left). rewrite <- E in Hb. apply List.filter_In in Hb as [Hb N]. by rewrite A in N by (by apply list_elem_of_In). }
  unfold tick_decision, decideLedgerAnchorSchedule, loadLastLedgerAnchorAttempt. rewrite Hd. cbn [fmap option_fmap option_map fst].
  rewrite Es, Eh. fold required new. rewrite M, String.eqb_refl. change LEDGER_ANCHOR_SEQ_THRESHOLD with 256%Z.
  destruct (_ =? 0)%Z; [done |]. destruct (Z.leb_spec 256 (ap_seq (sa_payload signed) - default 0%Z (Some (ap_seq (sa_payload signed))))); [cbn in *; lia |].
  by destruct isHourly, (ae_missingReadable env).
Qed.

(** Once every backend has taken a checkpoint of the tip, later ticks on the same
    ledger write nothing: an unchanged ledger is not anchored again and again. *)
Theorem tick_idempotent env db log isHourly now now' d log' :
  (forall b signed, exists ref proof, submission_status (ae_submit env b signed) = attempt_ok ref proof) ->
  (forall b row, row ∈ log -> str_ltb (ar_createdAt row) (ae_stamp env b).2 = true) ->
  runScheduledLedgerAnchor env db log isHourly now = Normal (d, log') ->
  exists d', runScheduledLedgerAnchor env db log' isHourly now' = Normal (d', log').
Proof.
  intros Ok Newer R. destruct (loadDecisionLedgerTip db) as [[seq hash] total] eqn:T.
  rewrite (tick_runs env db _ seq hash total T) in R. rewrite (tick_runs env db _ seq hash total T).
  destruct (shouldAnchor (tick_decision env log seq hash isHourly)) eqn:A.
  - destruct (signing_key env) as [[key pem] |] eqn:K.
    + destruct (ae_sign _ _ _) as [sig |] eqn:Sg; [| done]. injection R as <- <-.
      rewrite anchored_tip_idle by (auto || done). eauto.
    + injection R as <- <-. rewrite A. eauto.
  - injection R as <- <-. rewrite A. eauto.
Qed.

(** ** The published keys *)

(** The published diagnosis says ok exactly when there is a key to sign with, and
    always lists the keys the verifier parses. *)
Theorem signing_key_unambiguous raw :
  let d := diagnoseAnchorPublicKeys raw in
  kd_keys d = parseAnchorPublicKeys raw
  /\ kd_currentKeyId d = ak_keyId <$> currentAnchorKey (parseAnchorPublicKeys raw)
  /\ (kd_status d = aks_ok <-> is_Some (currentAnchorKey (parseAnchorPublicKeys raw))).
Proof.
  assert (No : aks_unconfigured = aks_ok <-> is_Some (None : option AnchorPublicKey)) by (split; [done | by intros []]).
  cbv zeta. unfold diagnoseAnchorPublicKeys. destruct raw as [[| c text] |]; [done | | done]. cbn [parseAnchorPublicKeys].
  destruct (JSON_parse (String c text)) as [[] |]; try (split_and!; [done.. | by split; [| intros []]]).
  match goal with |- context [omap key_of_entry ?l] => set (keys := omap key_of_entry l) end. destruct keys as [| k ks] eqn:E.
  - split_and!; [done.. |]. cbn. split; [by destruct (Nat.eqb _ _) | by intros []].
  - rewrite <- E. cbn [kd_keys kd_currentKeyId kd_status]. split_and!; [done.. |]. unfold currentAnchorKey.
    destruct (List.filter unretired keys) as [| x [| y r]]; cbn; (split; [try done; by intros _; eexists | by intros []; try done]).
Qed.

(** ** Samples *)

Definition sample_tip : Db := mkDb ∅ [mkLedgerRow 1 "record:acme/widgets#7@c0ffee" "d1" LEDGER_GENESIS_HASH "h1" "2026-04-01T00:00:00.000Z"].

(** Rekor accepts, the git backend throws. *)
Definition sample_anchor_env (gitWorks : bool) : AnchorEnv :=
  mkAnchorEnv
    (json_stringify (JArr [JObj [("keyId", JStr "k1"); ("publicKeySpki", JStr "spki"); ("notBefore", JStr "2026-01-01"); ("notAfter", JNull)]]))
    (Some "pem") true (fun pem input => Some ("signed " ++ input))
    (fun b _ => match b with
                | be_git => if gitWorks then submitted (attempt_ok (JStr "commit") None) else threw (failed_error "no installation token")
                | _ => submitted (attempt_ok (JObj [("logIndex", JNum (nz 5))]) None)
                end)
    (fun b => (match b with be_git => "b" | _ => "a" end, "2026-04-01T01:00:00.000Z")) true.

Definition first_tick : list AnchorRow :=
  match runScheduledLedgerAnchor (sample_anchor_env false) sample_tip [] true "2026-04-01T01:00:00.000Z" with Normal (_, log) => log | _ => [] end.

Lemma anchor_pages_complete_witness :
  List.length first_tick = 2
  /\ all_pages 3 first_tick None (Some 1%Z) None = List.map public_anchor (listed first_tick None)
  /\ List.map pa_ok (all_pages 3 first_tick None (Some 1%Z) None) = [false; true].
Proof.
  assert (L : List.length first_tick = 2) by (vm_compute; reflexivity). split; [done |].
  split; [| vm_compute; reflexivity].
  apply (anchor_pages_complete first_tick None (Some 1%Z) 3).
  - apply (bool_decide_unpack _). vm_compute. exact I.
  - apply (bool_decide_unpack _). vm_compute. exact I.
  - rewrite L. lia.
Defined.

Lemma hourly_tick_covers_tip_witness :
  exists d new, runScheduledLedgerAnchor (sample_anchor_env false) sample_tip [] true "2026-04-01T01:00:00.000Z" = Normal (d, [] ++ new)%list
    /\ exists row, row ∈ new /\ ar_backend row = be_git /\ ar_rowHash row = "h1" /\ ar_seq row = 1%Z.
Proof.
  assert (K : exists key, signing_key (sample_anchor_env false) = Some (key, "pem")) by (eexists; vm_compute; reflexivity).
  destruct K as [key K].
  destruct (hourly_tick_covers_tip (sample_anchor_env false) sample_tip [] "2026-04-01T01:00:00.000Z" 1 "h1" 1 key "pem" _
              eq_refl ltac:(done) eq_refl K eq_refl) as (d & new & R & Cov).
  exists d, new. split; [exact R |]. destruct (Cov be_git) as [A | A]; [right; left | discriminate A | exact A].
Defined.

Lemma tick_idempotent_witness :
  exists d log' d', runScheduledLedgerAnchor (sample_anchor_env true) sample_tip [] true "2026-04-01T01:00:00.000Z" = Normal (d, log')
    /\ List.length log' = 2
    /\ runScheduledLedgerAnchor (sample_anchor_env true) sample_tip log' true "2026-04-01T02:00:00.000Z" = Normal (d', log').
Proof.
  destruct (runScheduledLedgerAnchor (sample_anchor_env true) sample_tip [] true "2026-04-01T01:00:00.000Z") as [[d log'] |] eqn:R;
    [| exfalso; revert R; vm_compute; discriminate..].
  destruct (tick_idempotent (sample_anchor_env true) sample_tip [] true "2026-04-01T01:00:00.000Z" "2026-04-01T02:00:00.000Z" d log') as [d' R'].
  - intros [] signed; cbn; eauto.
  - intros b row Hr. by apply not_elem_of_nil in Hr.
  - exact R.
  - exists d, log', d'. split; [done |]. split; [| exact R'].
    pose proof (f_equal (fun c => match c with Normal (_, l) => List.length l | _ => 0 end) R) as E. vm_compute in E. done.
Defined.
