(* ===== verification/Wilson.v ===== *)
(** * The Wilson score interval

    Models [wilsonInterval] of [src/orb/analytics.ts] on doubles, with the
    correctly rounded square root it calls, and shows that for counts up to
    2^53 no intermediate value overflows, vanishes or becomes [NaN]: the
    interval is a pair of finite doubles with 0 <= lo <= hi <= 1
    ([wilson_bounds]). *)

From Stdlib Require Import QArith Qround Qreduction Qpower ZArith Lia Lqa.
From S2P Require Import Prelude JsNumber.

Local Open Scope Q_scope.

(** [Math.sqrt], correctly rounded: [r] is the integer root at 53 bits, and the half way
    point above it decides; no double has a root exactly half way. *)
Definition nsqrt (x : num) : num :=
  match x with
  | Fin q =>
      match Qcompare q 0 with
      | Eq => Fin 0
      | Lt => NaN
      | Gt =>
          let e := (ilog2 q / 2 - 52)%Z in
          let scaled := (q * qpow2 (- (2 * e)))%Q in
          let r := Z.sqrt (Qfloor scaled) in
          let half := (inject_Z r + (1 # 2))%Q in
          Fin (Qred (inject_Z (if Qle_bool scaled (half * half) then r else r + 1) * qpow2 e))
      end
  | PInf => PInf
  | _ => NaN
  end.

Definition wilsonInterval (successes trials : num) : option (num * num) :=
  let z := rnd (196 # 100) in
  if nleb trials (nz 0) then None
  else
    let p := ndiv successes trials in
    let z2 := nmul z z in
    let denom := nadd (nz 1) (ndiv z2 trials) in
    let center := ndiv (nadd p (ndiv z2 (nmul (nz 2) trials))) denom in
    let half := ndiv (nmul z (nsqrt (nadd (ndiv (nmul p (nsub (nz 1) p)) trials)
                                          (ndiv z2 (nmul (nmul (nz 4) trials) trials))))) denom in
    Some (nmax (nz 0) (nsub center half), nmin (nz 1) (nadd center half)).

(** [Math.round(value * 1000) / 1000]. *)
Definition round_3dp (value : num) : num := ndiv (nround (nmul value (nz 1000))) (nz 1000).

(** ** Ranges of rounded values *)

Lemma Zle_inject a b : (a <= b)%Z -> inject_Z a <= inject_Z b.
Proof. intros H. rewrite <- Zle_Qle. assumption. Qed.

(** Rounding stays between integers the doubles have. *)
Lemma rnd_within a b q : (Z.abs a <= 2 ^ 53)%Z -> (Z.abs b <= 2 ^ 53)%Z -> inject_Z a <= q <= inject_Z b ->
  exists v, rnd q = Fin v /\ inject_Z a <= v <= inject_Z b.
Proof.
  intros Ha Hb [L U]. apply rnd_mono in L, U. rewrite rnd_int_exact in L, U by assumption. unfold nz in *.
  destruct (rnd q) as [| | | v]; [discriminate L | discriminate U | discriminate L |]. exists v. num_facts. auto.
Qed.

(** Nor does it leave the range up to a large power of two. *)
Lemma rnd_below_huge q : 0 <= q <= inject_Z (2 ^ 200) -> exists v, rnd q = Fin v.
Proof.
  intros [L U]. apply rnd_nonneg in L. apply rnd_mono in U.
  assert (E : rnd (inject_Z (2 ^ 200)) = Fin (inject_Z (2 ^ 200))) by (vm_compute; reflexivity). rewrite E in U.
  destruct (rnd q) as [| | | v]; [discriminate L | discriminate U | discriminate L | eauto].
Qed.

Lemma ndiv_fin a b : 0 < b -> ndiv (Fin a) (Fin b) = rnd (a / b).
Proof.
  intros Hb. unfold ndiv. destruct (Qeq_bool b 0) eqn:E; [| reflexivity]. apply Qeq_bool_iff in E. lra.
Qed.

Lemma Qdiv_between q b lo hi : 0 < b -> lo * b <= q -> q <= hi * b -> lo <= q / b <= hi.
Proof. intros Hb L U. split; [apply Qle_shift_div_l | apply Qle_shift_div_r]; assumption. Qed.

(** ** The square root of a value up to 2 *)

Lemma root_scaled q r e : 0 <= q <= 2 -> (0 <= r)%Z -> inject_Z (r * r) <= q * qpow2 (- (2 * e)) -> inject_Z r * qpow2 e <= 2.
Proof.
  intros Hq Hr H. set (x := inject_Z r * qpow2 e).
  assert (X : x * x <= q).
  { pose proof (qpow2_pos e) as P. pose proof (qpow2_opp_r (2 * e)) as C. pose proof (qpow2_add e e) as D.
    replace (e + e)%Z with (2 * e)%Z in D by lia. rewrite inject_Z_mult in H.
    assert (M : inject_Z r * inject_Z r * qpow2 (2 * e) <= q * qpow2 (- (2 * e)) * qpow2 (2 * e)).
    { apply Qmult_le_compat_r; [assumption | apply Qlt_le_weak, qpow2_pos]. }
    assert (E1 : q * qpow2 (- (2 * e)) * qpow2 (2 * e) == q) by (rewrite <- Qmult_assoc, (Qmult_comm (qpow2 (- _))), C; ring).
    assert (E2 : x * x == inject_Z r * inject_Z r * qpow2 (2 * e)) by (unfold x; rewrite D; ring).
    rewrite E2. rewrite E1 in M. assumption. }
  destruct (Qlt_le_dec 2 x) as [G |]; [| assumption]. exfalso. nra.
Qed.

Lemma nsqrt_range q : 0 <= q <= 2 -> exists v, nsqrt (Fin q) = Fin v /\ 0 <= v <= 3.
Proof.
  intros Hq. unfold nsqrt. destruct (q ?= 0) eqn:C.
  - exists 0. split; [reflexivity | lra].
  - apply Qlt_alt in C. lra.
  - apply Qgt_alt in C. cbv zeta. set (e := (ilog2 q / 2 - 52)%Z). set (scaled := q * qpow2 (- (2 * e))). set (r := Z.sqrt (Qfloor scaled)).
    assert (Hs : 0 <= scaled) by (unfold scaled; apply Qmult_le_0_compat; [lra | apply Qlt_le_weak, qpow2_pos]).
    assert (Hf : (0 <= Qfloor scaled)%Z) by (change 0%Z with (Qfloor 0); apply Qfloor_resp_le; assumption).
    assert (Hr : (0 <= r)%Z) by apply Z.sqrt_nonneg.
    assert (R : inject_Z r * qpow2 e <= 2).
    { apply (root_scaled q); [assumption.. |]. fold scaled. eapply Qle_trans; [| apply Qfloor_le]. apply Zle_inject.
      apply (Z.sqrt_spec (Qfloor scaled) Hf). }
    assert (He : qpow2 e <= 1).
    { assert (ilog2 q <= 1)%Z by (apply (ilog2_mono q 2); [assumption | lra]). change 1 with (qpow2 0). apply qpow2_le.
      unfold e. assert (ilog2 q / 2 < 1)%Z by (apply Z.div_lt_upper_bound; lia). lia. }
    pose proof (qpow2_pos e) as P. eexists. split; [reflexivity |]. rewrite Qred_correct.
    assert (M : (0 <= (if Qle_bool scaled ((inject_Z r + (1 # 2)) * (inject_Z r + (1 # 2))) then r else r + 1) <= r + 1)%Z)
      by (destruct (Qle_bool _ _); lia).
    set (m := if Qle_bool _ _ then r else (r + 1)%Z) in *. destruct M as [M0 M1]. apply Zle_inject in M0, M1. rewrite inject_Z_plus in M1.
    change (inject_Z 0) with 0 in *. change (inject_Z 1) with 1 in *. split; nra.
Qed.

(** ** The interval *)

Definition z_score : num := rnd (196 # 100).

Lemma z_score_value : exists z z2, z_score = Fin z /\ nmul z_score z_score = Fin z2 /\ 0 <= z <= 2 /\ 0 <= z2 <= 4.
Proof.
  eexists _, _. split; [vm_compute; reflexivity |]. split; [vm_compute; reflexivity |].
  split; split; vm_compute; discriminate.
Qed.

(** Integer literals as rationals. *)
Ltac literals :=
  change (inject_Z 0) with 0 in *; change (inject_Z 1) with 1 in *; change (inject_Z 2) with 2 in *;
  change (inject_Z 4) with 4 in *; change (inject_Z 5) with 5 in *; change (inject_Z 8) with 8 in *; change (inject_Z (-8)) with (-8) in *.

Section Interval.
Context (c t : Z) (Hc : (0 <= c <= t)%Z) (Ht : (1 <= t <= 2 ^ 53)%Z).
Local Notation T := (inject_Z t).

Lemma trials_pos : 1 <= T.
Proof. apply (Zle_inject 1). lia. Qed.

(** Observed rate, its correction and their quotient stay in range. *)
Lemma center_range z2 : 0 <= z2 <= 4 ->
  exists p denom center, ndiv (nz c) (nz t) = Fin p /\ 0 <= p <= 1
    /\ nadd (nz 1) (ndiv (Fin z2) (nz t)) = Fin denom /\ 1 <= denom
    /\ ndiv (nadd (Fin p) (ndiv (Fin z2) (nmul (nz 2) (nz t)))) (Fin denom) = Fin center /\ 0 <= center <= 1.
Proof.
  intros Hz. pose proof trials_pos as T1. unfold nz. rewrite !ndiv_fin by lra.
  destruct (rnd_unit (inject_Z c / T)) as (p & Ep & Hp); [apply frac_unit; lia |]. rewrite Ep.
  destruct (rnd_within 0 4 (z2 / T)) as (y & Ey & Hy); [lia.. | apply Qdiv_between; literals; nra |]. rewrite Ey.
  destruct (rnd_within 1 5 (inject_Z 1 + y)) as (d & Ed & Hd); [lia.. | literals; lra |].
  cbn [nadd nmul]. rewrite Ed. exists p, d.
  destruct (rnd_below_huge (inject_Z 2 * T)) as [t2 E2].
  { split; [literals; lra |]. rewrite <- inject_Z_mult. apply Zle_inject. lia. }
  assert (H2 : T <= t2).
  { assert (M : nleb (rnd T) (rnd (inject_Z 2 * T)) = true) by (apply rnd_mono; literals; lra).
    rewrite E2, rnd_int_exact in M by lia. unfold nz in M. num_facts. assumption. }
  rewrite E2, ndiv_fin by lra.
  assert (XY : z2 / t2 <= z2 / T).
  { apply Qle_shift_div_r; [lra |]. assert (E : z2 / T * t2 == z2 * (t2 / T)) by (field; lra). rewrite E. clear E.
    assert (1 <= t2 / T) by (apply Qle_shift_div_l; lra). nra. }
  assert (X0 : 0 <= z2 / t2) by (apply Qle_shift_div_l; lra).
  destruct (rnd_within 0 4 (z2 / t2)) as (x & Ex & Hx); [lia.. | split; [assumption |]; eapply Qle_trans; [exact XY |]; apply Qle_shift_div_r; literals; nra |].
  assert (Hxy : x <= y) by (assert (M := rnd_mono _ _ XY); rewrite Ex, Ey in M; num_facts; assumption).
  rewrite Ex. cbn [nadd].
  destruct (rnd_within 0 5 (p + x)) as (s & Es & Hs); [lia.. | literals; lra |]. rewrite Es.
  assert (Hsd : s <= d).
  { assert (M : nleb (rnd (p + x)) (rnd (inject_Z 1 + y)) = true) by (apply rnd_mono; literals; lra).
    rewrite Es, Ed in M. num_facts. assumption. }
  literals. rewrite ndiv_fin by lra.
  destruct (rnd_unit (s / d)) as (ctr & Ec & Hctr); [apply Qdiv_between; lra |]. rewrite Ec.
  exists ctr. repeat split; try reflexivity; literals; lra.
Qed.

(** So does the half width. *)
Lemma half_range p z z2 denom : 0 <= p <= 1 -> 0 <= z <= 2 -> 0 <= z2 <= 4 -> 1 <= denom ->
  exists half, ndiv (nmul (Fin z) (nsqrt (nadd (ndiv (nmul (Fin p) (nsub (nz 1) (Fin p))) (nz t))
                                               (ndiv (Fin z2) (nmul (nmul (nz 4) (nz t)) (nz t)))))) (Fin denom) = Fin half
    /\ 0 <= half <= 8.
Proof.
  intros Hp Hz Hz2 Hd. pose proof trials_pos as T1. unfold nsub, nz. cbn [nopp nadd nmul].
  destruct (rnd_unit (inject_Z 1 + - p)) as (q & Eq & Hq); [literals; lra |]. rewrite Eq. cbn [nmul].
  destruct (rnd_unit (p * q)) as (pq & Epq & Hpq); [nra |]. rewrite Epq, ndiv_fin by lra.
  destruct (rnd_unit (pq / T)) as (v1 & E1 & H1); [apply Qdiv_between; nra |]. rewrite E1.
  assert (B : inject_Z t <= inject_Z (2 ^ 53)) by (apply Zle_inject; lia).
  destruct (rnd_below_huge (inject_Z 4 * T)) as [t4 E4]; [split; [literals; lra | rewrite <- inject_Z_mult; apply Zle_inject; lia] |].
  assert (H4 : 4 <= t4 <= inject_Z (2 ^ 55)).
  { assert (M : nleb (rnd (inject_Z 4)) (rnd (inject_Z 4 * T)) = true) by (apply rnd_mono; literals; lra).
    assert (N : nleb (rnd (inject_Z 4 * T)) (rnd (inject_Z (2 ^ 55))) = true)
      by (apply rnd_mono; rewrite <- inject_Z_mult; apply Zle_inject; lia).
    rewrite E4, rnd_int_exact in M by lia. rewrite E4 in N. replace (rnd (inject_Z (2 ^ 55))) with (Fin (inject_Z (2 ^ 55))) in N by (vm_compute; reflexivity).
    unfold nz in M. num_facts. auto. }
  rewrite E4. cbn [nmul].
  destruct (rnd_below_huge (t4 * T)) as [t44 E44].
  { split; [nra |]. apply Qle_trans with (inject_Z (2 ^ 55) * inject_Z (2 ^ 53)); [nra |]. rewrite <- inject_Z_mult. apply Zle_inject. lia. }
  assert (H44 : 4 <= t44).
  { assert (M : nleb (rnd (inject_Z 4)) (rnd (t4 * T)) = true) by (apply rnd_mono; literals; nra).
    rewrite E44, rnd_int_exact in M by lia. unfold nz in M. num_facts. assumption. }
  rewrite E44, ndiv_fin by lra.
  destruct (rnd_unit (z2 / t44)) as (v2 & E2 & H2); [apply Qdiv_between; lra |]. rewrite E2. cbn [nadd].
  destruct (rnd_within 0 2 (v1 + v2)) as (a & Ea & Ha); [lia.. | literals; lra |]. rewrite Ea.
  destruct (nsqrt_range a Ha) as (sq & Esq & Hsq). rewrite Esq. cbn [nmul].
  destruct (rnd_within 0 8 (z * sq)) as (w & Ew & Hw); [lia.. | literals; split; nra |]. rewrite Ew, ndiv_fin by lra.
  destruct (rnd_within 0 8 (w / denom)) as (h & Eh & Hh); [lia.. | literals; apply Qdiv_between; nra |].
  rewrite Eh. exists h. literals. auto.
Qed.

(** For counts up to 2^53 the interval is made of finite doubles, in order, within [0, 1]. *)
Lemma wilson_bounds : exists lo hi, wilsonInterval (nz c) (nz t) = Some (Fin lo, Fin hi) /\ 0 <= lo /\ lo <= hi /\ hi <= 1.
Proof.
  unfold wilsonInterval. fold z_score. rewrite nz_leb. replace (t <=? 0)%Z with false by (symmetry; apply Z.leb_gt; lia). cbv zeta.
  destruct z_score_value as (z & z2 & Ez & Ez2 & Hz & Hz2). rewrite Ez2, Ez.
  destruct (center_range z2 Hz2) as (p & d & ctr & Ep & Hp & Ed & Hd & Ec & Hc'). rewrite Ep, Ed, Ec.
  destruct (half_range p z z2 d Hp Hz Hz2 Hd) as (h & Eh & Hh). rewrite Eh.
  unfold nsub. cbn [nopp nadd].
  destruct (rnd_within (-8) 1 (ctr + - h)) as (l & El & Hl); [lia.. | literals; lra |].
  destruct (rnd_within 0 9 (ctr + h)) as (u & Eu & Hu); [lia.. | literals; change (inject_Z 9) with 9; lra |].
  assert (LU : l <= u) by (assert (M : nleb (rnd (ctr + - h)) (rnd (ctr + h)) = true) by (apply rnd_mono; lra); rewrite El, Eu in M; num_facts; assumption).
  rewrite El, Eu. unfold nmax, nmin, nz. cbn [ncmp]. literals.
  destruct (0 ?= l) eqn:A; destruct (1 ?= u) eqn:B;
    first [apply Qeq_alt in A | apply Qlt_alt in A | apply Qgt_alt in A]; first [apply Qeq_alt in B | apply Qlt_alt in B | apply Qgt_alt in B];
    eexists _, _; (split; [reflexivity | lra]).
Qed.
End Interval.

(** ** Rounding to thousandths *)

Lemma round_3dp_steps q : 0 <= q <= 1 ->
  exists v, rnd (q * inject_Z 1000) = Fin v /\ (0 <= Qfloor (v + (1 # 2)) <= 1000)%Z
    /\ round_3dp (Fin q) = rnd (inject_Z (Qfloor (v + (1 # 2))) / inject_Z 1000).
Proof.
  intros Hq. destruct (rnd_within 0 1000 (q * inject_Z 1000)) as (v & Ev & Hv); [lia.. | literals; change (inject_Z 1000) with 1000; lra |].
  exists v. split; [assumption |]. change (inject_Z 1000) with 1000 in Hv. literals. split.
  - split; [change 0%Z with (Qfloor 0); apply Qfloor_resp_le; lra |].
    enough (Qfloor (v + (1 # 2)) < 1001)%Z by lia. rewrite Zlt_Qlt. eapply Qle_lt_trans; [apply Qfloor_le |]. change (inject_Z 1001) with 1001. lra.
  - unfold round_3dp, nz. cbn [nmul]. rewrite Ev. cbn [nround]. unfold nz. apply ndiv_fin. reflexivity.
Qed.

Lemma round_3dp_range q : 0 <= q <= 1 -> exists v, round_3dp (Fin q) = Fin v /\ 0 <= v <= 1.
Proof. intros Hq. destruct (round_3dp_steps q Hq) as (v & _ & Hk & ->). apply rnd_unit, frac_unit; lia. Qed.

Lemma round_3dp_mono p q : 0 <= p -> p <= q -> q <= 1 -> nleb (round_3dp (Fin p)) (round_3dp (Fin q)) = true.
Proof.
  intros H0 Hpq H1. destruct (round_3dp_steps p) as (u & Eu & _ & ->); [lra |]. destruct (round_3dp_steps q) as (v & Ev & _ & ->); [lra |].
  assert (M : nleb (rnd (p * inject_Z 1000)) (rnd (q * inject_Z 1000)) = true) by (apply rnd_mono; change (inject_Z 1000) with 1000; lra).
  rewrite Eu, Ev in M. num_facts. apply rnd_mono. apply Qmult_le_compat_r; [| discriminate]. apply Zle_inject, Qfloor_resp_le. lra.
Qed.
