(* ===== verification/TransientLocks.v ===== *)
(** * Transient locks

    Models [src/queue/transient-locks.ts] (claim, release, heartbeat and the
    pull-request and contributor-cap locks), [src/queue/submission-lock.ts] (the
    durable object behind them), [src/queue/held-lock-registry.ts] (what a
    process releases at shutdown), the lock operations of
    [src/selfhost/redis-cache.ts], and the review lock of
    [src/queue/ai-review-orchestration.ts].

    Redis is not part of the sources: the class [Redis] states the documented
    behaviour of the four commands used.  Time is in milliseconds.  A call to a
    store may succeed, fail before its effect or lose its answer ([Net]); tokens
    are the values [randomUUID] returned.

    Main results: while a claim's time to live runs, renewals included, no other
    claim succeeds, whatever calls other workers make in between
    ([lock_exclusive]); a release or renewal with another token changes no lock
    ([stale_token_harmless]); a lock whose holder died can be claimed again when
    its time is over ([dead_holder_recovers]); a shutdown leaves no lock of the
    process behind ([shutdown_leaves_no_lock]); a heartbeat survives one failed
    renewal in a row ([heartbeat_keeps_lock]).  Not as documented: two failed
    renewals lose the lock ([two_failed_renewals_lose_lock]), and a lock held
    through the durable object is never renewed ([durable_lock_not_renewed]). *)

From stdpp Require Import base list strings option gmap pretty.
From Stdlib Require Import QArith ZArith Lia.
From S2P Require Import Prelude JsNumber JsString Ledger.

Local Open Scope nat_scope.
Local Open Scope string_scope.
Local Open Scope js_scope.

(** ** Redis *)

(** [GET], [SET key value EX ttl], [EXPIRE] and [DEL] at a time; [NX] and the two scripts
    are atomic combinations of them. *)
Class Redis (R : Type) := {
  r_get : R -> Z -> string -> option string;
  r_set : R -> Z -> string -> string -> Z -> R;
  r_expire : R -> Z -> string -> Z -> R;
  r_del : R -> Z -> string -> R;
  r_get_set r now k v ttl t k' : (now <= t)%Z ->
    r_get (r_set r now k v ttl) t k' = if decide (k' = k) then (if (t <? now + ttl * 1000)%Z then Some v else None) else r_get r t k';
  r_get_expire r now k ttl t k' : (now <= t)%Z ->
    r_get (r_expire r now k ttl) t k'
    = if decide (k' = k) then (if (t <? now + ttl * 1000)%Z then r_get r now k else None) else r_get r t k';
  r_get_del r now k t k' : (now <= t)%Z -> r_get (r_del r now k) t k' = if decide (k' = k) then None else r_get r t k';
  (** A key that is there was there before: values only vanish with time. *)
  r_get_earlier r now t k v : (now <= t)%Z -> r_get r t k = Some v -> r_get r now k = Some v;
}.

(** ** The durable object: one record per key *)

Record LockRecord := mkLock { sl_ownerToken : string; sl_expiresAt : num }.

Inductive LockResponse := resp_acquired (b : bool) | resp_released (b : bool) | resp_error (error : string) (status : Z).

Definition string_field (body : jsval) (name : string) : string := match get_field body name with JStr s => s | _ => "" end.

(** [existing && existing.expiresAt > now]. *)
Definition unexpired (record : option LockRecord) (now : num) : option string :=
  match record with Some r => if ngtb (sl_expiresAt r) now then Some (sl_ownerToken r) else None | None => None end.

Definition handleClaim (existing : option LockRecord) (now : num) (body : jsval) : LockResponse * option LockRecord :=
  let ownerToken := string_field body "ownerToken" in
  let ttlSeconds := match get_field body "ttlSeconds" with JNum n => n | _ => NaN end in
  if str_empty ownerToken || negb (is_finite ttlSeconds) || nleb ttlSeconds (nz 0) then (resp_error "invalid_claim" 400%Z, existing)
  else
    let steal := match get_field body "steal" with JBool b => b | _ => false end in
    let put := (resp_acquired true, Some (mkLock ownerToken (nadd now (nmul ttlSeconds (nz 1000))))) in
    if steal then put
    else match unexpired existing now with
         | Some owner => if negb (String.eqb owner ownerToken) then (resp_acquired false, existing) else put
         | None => put
         end.

Definition handleRelease (existing : option LockRecord) (body : jsval) : LockResponse * option LockRecord :=
  let ownerToken := string_field body "ownerToken" in
  if str_empty ownerToken then (resp_error "invalid_release" 400%Z, existing)
  else
    match existing with
    | Some r => if String.eqb (sl_ownerToken r) ownerToken then (resp_released true, None) else (resp_released false, existing)
    | None => (resp_released false, existing)
    end.

(** ** Claiming and releasing *)

Record TransientLockClaim := mkClaim { lc_acquired : bool; lc_ownerToken : option string }.

(** A call that succeeds, fails before its effect, or whose answer is lost. *)
Inductive Net := net_ok | net_fault | net_lost.

#[global] Instance Net_eq_dec : EqDecision Net.
Proof. solve_decision. Defined.

(** Which methods the configured cache has. *)
Record CacheShape := mkShape { cs_claim : bool; cs_releaseIfValue : bool; cs_renewIfValue : bool }.
Record LockEnv := mkLockEnv { le_SUBMISSION_LOCK : bool; le_cache : option CacheShape }.

Definition fail_open : TransientLockClaim := mkClaim true None.

Section Locks.
Context {R : Type} {redis : Redis R}.

Record Stores := mkStores { st_durable : gmap string LockRecord; st_cache : R }.

Definition put_durable (st : Stores) (key : string) (record : option LockRecord) : Stores :=
  mkStores (partial_alter (fun _ => record) key (st_durable st)) (st_cache st).
Definition put_cache (st : Stores) (r : R) : Stores := mkStores (st_durable st) r.

(** What the caller of a store call ends up with. *)
Definition after {A} (io : Net) (st st' : Stores) (answer failed : A) : A * Stores :=
  match io with net_ok => (answer, st') | net_fault => (failed, st) | net_lost => (failed, st') end.

Definition cache_claim (r : R) (now : Z) (key value : string) (ttlSeconds : Z) : bool * R :=
  match r_get r now key with Some _ => (false, r) | None => (true, r_set r now key value ttlSeconds) end.

Definition cache_renewIfValue (r : R) (now : Z) (key value : string) (ttlSeconds : Z) : bool * R :=
  if decide (r_get r now key = Some value) then (true, r_expire r now key ttlSeconds) else (false, r).

Definition cache_releaseIfValue (r : R) (now : Z) (key value : string) : bool * R :=
  if decide (r_get r now key = Some value) then (true, r_del r now key) else (false, r).

Definition claim_body (ownerToken : string) (ttlSeconds : Z) (steal : bool) : jsval :=
  JObj [("ownerToken", JStr ownerToken); ("ttlSeconds", JNum (nz ttlSeconds)); ("steal", JBool steal)].

Definition claimSubmissionLockIfBound (st : Stores) (now : Z) (io : Net) (ownerToken key : string) (ttlSeconds : Z) (steal : bool)
  : TransientLockClaim * Stores :=
  let '(resp, record) := handleClaim (st_durable st !! key) (nz now) (claim_body ownerToken ttlSeconds steal) in
  after io st (put_durable st key record)
    (match resp with resp_acquired b => mkClaim b (if b then Some ownerToken else None) | _ => fail_open end) fail_open.

Definition has_claim (shape : CacheShape) : bool := cs_claim shape && cs_releaseIfValue shape.

Definition claimTransientLock (env : LockEnv) (st : Stores) (now : Z) (io : Net) (ownerToken key : string) (ttlSeconds : Z) (steal : bool)
  : TransientLockClaim * Stores :=
  if le_SUBMISSION_LOCK env then claimSubmissionLockIfBound st now io ownerToken key ttlSeconds steal
  else
    match le_cache env with
    | None => (fail_open, st)
    | Some shape =>
        if negb (has_claim shape) then (fail_open, st)
        else if steal
        then after io st (put_cache st (r_set (st_cache st) now key ownerToken ttlSeconds)) (mkClaim true (Some ownerToken)) fail_open
        else
          let '(acquired, r) := cache_claim (st_cache st) now key ownerToken ttlSeconds in
          after io st (put_cache st r) (mkClaim acquired (if acquired then Some ownerToken else None)) fail_open
    end.

Definition releaseTransientLockIfOwner (env : LockEnv) (st : Stores) (now : Z) (io : Net) (key : string) (ownerToken : option string) : Stores :=
  match ownerToken with
  | None | Some EmptyString => st
  | Some token =>
      if le_SUBMISSION_LOCK env
      then (after io st (put_durable st key (handleRelease (st_durable st !! key) (JObj [("ownerToken", JStr token)])).2) tt tt).2
      else
        match le_cache env with
        | Some shape => if cs_releaseIfValue shape then (after io st (put_cache st (cache_releaseIfValue (st_cache st) now key token).2) tt tt).2 else st
        | None => st
        end
  end.

(** ** The heartbeat *)

(** Whether there is anything to renew. *)
Definition heartbeat_active (env : LockEnv) (ownerToken : option string) : bool :=
  match ownerToken, le_cache env with
  | Some token, Some shape => negb (str_empty token) && cs_renewIfValue shape
  | _, _ => false
  end.

Definition heartbeat_interval (ttlSeconds : Z) : Z := Z.max 1000 (ttlSeconds * 1000 / 3)%Z.

(** One tick of an active heartbeat: whether it found the lock lost, and the stores. *)
Definition heartbeat_tick (st : Stores) (now : Z) (io : Net) (key token : string) (ttlSeconds : Z) : bool * Stores :=
  let '(stillOurs, r) := cache_renewIfValue (st_cache st) now key token ttlSeconds in
  after io st (put_cache st r) (negb stillOurs) false.

(** ** The locks *)

Definition PR_ACTUATION_LOCK_TTL_SECONDS : Z := 600.
Definition CONTRIBUTOR_CAP_LOCK_TTL_SECONDS : Z := 600.
Definition AI_REVIEW_LOCK_TTL_SECONDS : Z := 1800.

Definition prActuationLockKey (repoFullName : string) (prNumber : Z) : string :=
  "pr-actuation-lock:" ++ toLowerCase repoFullName ++ "#" ++ pretty prNumber.
Definition contributorCapLockKey (repoFullName authorLogin : string) : string :=
  "contributor-cap-lock:" ++ toLowerCase repoFullName ++ ":" ++ toLowerCase authorLogin.
Definition aiReviewLockKey (repoFullName : string) (prNumber : Z) (headSha mode : string) : string :=
  "ai-review-lock:" ++ toLowerCase repoFullName ++ "#" ++ pretty prNumber ++ "@" ++ toLowerCase headSha ++ ":" ++ mode.

(** The process's registry: the token it holds each key under. *)
Definition registerHeldLock (held : gmap string string) (key token : string) : gmap string string := <[key := token]> held.
Definition unregisterHeldLock (held : gmap string string) (key token : string) : gmap string string :=
  if decide (held !! key = Some token) then delete key held else held.

(** [claimPrActuationLock], [claimContributorCapLock] and [claimAiReviewLock] over their key and time to live. *)
Definition claim_registered (env : LockEnv) (st : Stores) (held : gmap string string) (now : Z) (io : Net) (token key : string) (ttl : Z) (steal : bool)
  : TransientLockClaim * Stores * gmap string string :=
  let '(claim, st') := claimTransientLock env st now io token key ttl steal in
  (claim, st', match lc_ownerToken claim with Some t => if lc_acquired claim then registerHeldLock held key t else held | None => held end).

(** The matching releases. *)
Definition release_registered (env : LockEnv) (st : Stores) (held : gmap string string) (now : Z) (io : Net) (key : string) (token : option string)
  : Stores * gmap string string :=
  (releaseTransientLockIfOwner env st now io key token, match token with Some t => unregisterHeldLock held key t | None => held end).

Definition claimPrActuationLock env st held now io token repoFullName prNumber :=
  claim_registered env st held now io token (prActuationLockKey repoFullName prNumber) PR_ACTUATION_LOCK_TTL_SECONDS false.
Definition releasePrActuationLock env st held now io repoFullName prNumber token :=
  release_registered env st held now io (prActuationLockKey repoFullName prNumber) token.
Definition claimContributorCapLock env st held now io token repoFullName authorLogin :=
  claim_registered env st held now io token (contributorCapLockKey repoFullName authorLogin) CONTRIBUTOR_CAP_LOCK_TTL_SECONDS false.
Definition releaseContributorCapLock env st held now io repoFullName authorLogin token :=
  release_registered env st held now io (contributorCapLockKey repoFullName authorLogin) token.
Definition claimAiReviewLock env st held now io token repoFullName prNumber headSha mode steal :=
  claim_registered env st held now io token (aiReviewLockKey repoFullName prNumber headSha mode) AI_REVIEW_LOCK_TTL_SECONDS steal.
Definition releaseAiReviewLock env st held now io repoFullName prNumber headSha mode token :=
  release_registered env st held now io (aiReviewLockKey repoFullName prNumber headSha mode) token.

(** The releases of every registered lock, whatever each of them does. *)
Definition releaseAllHeldLocksAtShutdown (env : LockEnv) (st : Stores) (held : gmap string string) (now : Z) (io : string -> Net)
  : nat * Stores * gmap string string :=
  let entries := map_to_list held in
  (List.length entries,
   List.fold_left (fun st kv => releaseTransientLockIfOwner env st now (io kv.1) kv.1 (Some kv.2)) entries st, ∅).
End Locks.
Arguments Stores : clear implicits.

(** ** Who holds a lock *)

(** The store in use serializes: the durable object, or a cache with claim and release. *)
Definition backed (env : LockEnv) : bool :=
  le_SUBMISSION_LOCK env || match le_cache env with Some shape => has_claim shape | None => false end.

(** Clock readings and times to live whose sums are exact. *)
Definition small_times (now ttl : Z) : Prop := (0 <= now /\ 0 < ttl /\ now + ttl * 1000 <= 2 ^ 53)%Z.

Section Owner.
Context {R : Type} {redis : Redis R} (env : LockEnv).

(** The token under which a key is live at a time. *)
Definition live_owner (st : Stores R) (t : Z) (key : string) : option string :=
  if le_SUBMISSION_LOCK env then unexpired (st_durable st !! key) (nz t) else r_get (st_cache st) t key.

Lemma live_earlier st now t key v : (now <= t)%Z -> live_owner st t key = Some v -> live_owner st now key = Some v.
Proof.
  intros L. unfold live_owner. destruct (le_SUBMISSION_LOCK env); [| by apply r_get_earlier].
  unfold unexpired. destruct (st_durable st !! key) as [r |]; [| done]. destruct (sl_expiresAt r) as [| | | q]; try done.
  unfold ngtb, nz. destruct (nltb (Fin (inject_Z t)) (Fin q)) eqn:A; [| done]. intros E.
  assert (B : nltb (Fin (inject_Z now)) (Fin q) = true); [| by rewrite B].
  apply nltb_fin in A. apply nltb_fin. eapply Qle_lt_trans; [| exact A]. by rewrite <- Zle_Qle.
Qed.

Lemma durable_put st key record t k :
  le_SUBMISSION_LOCK env = true ->
  live_owner (put_durable st key record) t k = if decide (k = key) then unexpired record (nz t) else live_owner st t k.
Proof.
  intros D. unfold live_owner, put_durable. rewrite D. cbn [st_durable]. destruct (decide (k = key)) as [-> | N].
  - by rewrite lookup_partial_alter_eq.
  - by rewrite lookup_partial_alter_ne.
Qed.

(** The record a successful claim writes. *)
Lemma unexpired_written token now ttl t : small_times now ttl -> (now <= t)%Z ->
  unexpired (Some (mkLock token (nadd (nz now) (nmul (nz ttl) (nz 1000))))) (nz t)
  = if (t <? now + ttl * 1000)%Z then Some token else None.
Proof.
  intros (A & B & C) L. unfold unexpired. cbn [sl_expiresAt sl_ownerToken].
  assert (M : nmul (nz ttl) (nz 1000) = nz (ttl * 1000)).
  { unfold nmul, nz. rewrite <- inject_Z_mult. apply rnd_int_exact. lia. }
  rewrite M, nz_add, nz_gtb by lia. done.
Qed.

Lemma handleClaim_eq existing now token ttl steal : token <> "" -> small_times now ttl ->
  handleClaim existing (nz now) (claim_body token ttl steal)
  = match (if steal then None else unexpired existing (nz now)) with
    | Some owner => if String.eqb owner token then (resp_acquired true, Some (mkLock token (nadd (nz now) (nmul (nz ttl) (nz 1000)))))
                    else (resp_acquired false, existing)
    | None => (resp_acquired true, Some (mkLock token (nadd (nz now) (nmul (nz ttl) (nz 1000)))))
    end.
Proof.
  intros N (A & B & C). unfold handleClaim. change (string_field (claim_body token ttl steal) "ownerToken") with token.
  change (get_field (claim_body token ttl steal) "ttlSeconds") with (JNum (nz ttl)).
  change (get_field (claim_body token ttl steal) "steal") with (JBool steal). cbv iota beta zeta.
  rewrite nz_leb, (nz_finite ttl). replace (ttl <=? 0)%Z with false by (symmetry; apply Z.leb_gt; lia).
  assert (E : str_empty token = false) by (by destruct token). rewrite E. cbn [orb negb].
  destruct steal; [done |]. destruct (unexpired existing (nz now)) as [owner |]; [| done]. by destruct (String.eqb owner token).
Qed.

(** A claim is granted when it steals or the key is free. *)
Definition grant (st : Stores R) (now : Z) (key : string) (steal : bool) : bool := steal || bool_decide (live_owner st now key = None).

(** What a claim with a new token does to every lock, and what it answers. *)
Lemma claim_effect st now io token key ttl steal :
  backed env = true -> token <> "" -> small_times now ttl -> live_owner st now key <> Some token ->
  let '(claim, st') := claimTransientLock env st now io token key ttl steal in
  claim = (match io with
           | net_ok => mkClaim (grant st now key steal) (if grant st now key steal then Some token else None)
           | _ => fail_open
           end)
  /\ forall t k, (now <= t)%Z ->
       live_owner st' t k
       = if bool_decide (k = key) && grant st now key steal && negb (bool_decide (io = net_fault))
         then (if (t <? now + ttl * 1000)%Z then Some token else None) else live_owner st t k.
Proof.
  intros B N Sm Fr. unfold claimTransientLock, grant, backed in *. destruct (le_SUBMISSION_LOCK env) eqn:D.
  - unfold claimSubmissionLockIfBound. rewrite (handleClaim_eq _ _ _ _ _ N Sm).
    assert (O : unexpired (st_durable st !! key) (nz now) = live_owner st now key) by (unfold live_owner; by rewrite D). rewrite O.
    set (rec := mkLock token _).
    assert (W : forall t k, (now <= t)%Z -> live_owner (put_durable st key (Some rec)) t k
              = if bool_decide (k = key) then (if (t <? now + ttl * 1000)%Z then Some token else None) else live_owner st t k).
    { intros t k L. rewrite durable_put by done. case_bool_decide; case_decide; try done. unfold rec. by rewrite unexpired_written. }
    assert (K : forall t k, live_owner (put_durable st key (st_durable st !! key)) t k = live_owner st t k).
    { intros t k. rewrite durable_put by done. case_decide; [| done]. subst. unfold live_owner. by rewrite D. }
    assert (E : (if steal then None else live_owner st now key) = None <-> steal || bool_decide (live_owner st now key = None) = true).
    { destruct steal; [by split |]. cbn. by rewrite bool_decide_eq_true. }
    destruct (if steal then None else live_owner st now key) as [o |] eqn:G.
    + destruct (steal || _) eqn:Gr; [by discriminate (proj2 E eq_refl) |]. assert (Ho : live_owner st now key = Some o) by (by destruct steal).
      destruct (String.eqb_spec o token) as [-> | _]; [done |].
      destruct io; cbn [after]; (split; [done |]); intros t k L; rewrite ?K, ?andb_false_r; done.
    + rewrite (proj1 E eq_refl).
      destruct io; cbn [after]; (split; [done |]); intros t k L; rewrite ?W, ?andb_true_r, ?andb_false_r by done; done.
  - cbn [orb] in B. destruct (le_cache env) as [shape |]; [| done]. rewrite B. cbn [negb].
    assert (O : forall t k, live_owner st t k = r_get (st_cache st) t k) by (intros; unfold live_owner; by rewrite D).
    assert (W : forall t k, (now <= t)%Z -> live_owner (put_cache st (r_set (st_cache st) now key token ttl)) t k
              = if bool_decide (k = key) then (if (t <? now + ttl * 1000)%Z then Some token else None) else live_owner st t k).
    { intros t k L. unfold live_owner, put_cache. rewrite D. cbn [st_cache]. rewrite r_get_set by done. by case_decide; case_bool_decide. }
    destruct steal; cbn [orb].
    + destruct io; cbn [after]; (split; [done |]); intros t k L; rewrite ?W, ?andb_true_r, ?andb_false_r by done; done.
    + unfold cache_claim. rewrite <- O. destruct (live_owner st now key) as [o |] eqn:G.
      * rewrite bool_decide_false by done. destruct io; cbn [after]; (split; [done |]); intros t k L; rewrite ?andb_false_r; try done; by destruct st.
      * rewrite bool_decide_true by done. destruct io; cbn [after]; (split; [done |]); intros t k L; rewrite ?W, ?andb_true_r, ?andb_false_r by done; done.
Qed.

(** After a claim that got its token, the key is live under it for the time to live. *)
Lemma acquired_effect st now io token key ttl steal st' t k :
  backed env = true -> token <> "" -> small_times now ttl -> live_owner st now key <> Some token ->
  claimTransientLock env st now io token key ttl steal = (mkClaim true (Some token), st') -> (now <= t)%Z ->
  live_owner st' t k = if bool_decide (k = key) then (if (t <? now + ttl * 1000)%Z then Some token else None) else live_owner st t k.
Proof.
  intros B N Sm Fr C L. pose proof (claim_effect st now io token key ttl steal B N Sm Fr) as CE. rewrite C in CE. destruct CE as [Cl CE].
  destruct io; [| done..]. destruct (grant st now key steal); [| discriminate Cl]. rewrite CE by done. by rewrite !andb_true_r.
Qed.

(** A release frees the key if it is live under the token, and nothing else. *)
Lemma release_effect st now io token key t k :
  backed env = true -> token <> "" -> (now <= t)%Z ->
  live_owner (releaseTransientLockIfOwner env st now io key (Some token)) t k
  = if bool_decide (k = key) && bool_decide (live_owner st t k = Some token) && negb (bool_decide (io = net_fault))
    then None else live_owner st t k.
Proof.
  intros B N L. unfold releaseTransientLockIfOwner, backed in *. destruct token as [| c token']; [done |]. set (token := String c token') in *.
  destruct (le_SUBMISSION_LOCK env) eqn:D.
  - assert (F : live_owner (put_durable st key (handleRelease (st_durable st !! key) (JObj [("ownerToken", JStr token)])).2) t k
              = if bool_decide (k = key) && bool_decide (live_owner st t k = Some token) then None else live_owner st t k).
    { rewrite durable_put by done. case_decide as K; [| by rewrite bool_decide_false]. rewrite bool_decide_true by done. subst k. cbn [andb].
      unfold handleRelease. change (string_field (JObj [("ownerToken", JStr token)]) "ownerToken") with token. cbn [str_empty token].
      assert (O : live_owner st t key = unexpired (st_durable st !! key) (nz t)) by (unfold live_owner; by rewrite D). rewrite O.
      destruct (st_durable st !! key) as [r |]; [| done]. unfold unexpired. destruct (String.eqb_spec (sl_ownerToken r) token) as [E | E]; cbn [snd].
      - destruct (ngtb _ _); [by rewrite E, bool_decide_true | by case_bool_decide].
      - destruct (ngtb _ _); [| by case_bool_decide]. by rewrite bool_decide_false by congruence. }
    destruct io; cbn [after snd]; rewrite ?F, ?andb_true_r, ?andb_false_r; done.
  - cbn [orb] in B. destruct (le_cache env) as [shape |]; [| done]. unfold has_claim in B. apply andb_true_iff in B as [_ ->].
    assert (O : forall st t k, live_owner st t k = r_get (st_cache st) t k) by (intros; unfold live_owner; by rewrite D).
    assert (F : live_owner (put_cache st (cache_releaseIfValue (st_cache st) now key token).2) t k
              = if bool_decide (k = key) && bool_decide (live_owner st t k = Some token) then None else live_owner st t k).
    { rewrite !O. cbn [put_cache st_cache]. unfold cache_releaseIfValue. case_decide as G; cbn [snd].
      - rewrite r_get_del by done. case_decide as K; [| by rewrite bool_decide_false]. subst k. rewrite bool_decide_true by done. cbn [andb].
        case_bool_decide; [done |]. destruct (r_get (st_cache st) t key) as [v |] eqn:E; [| done]. apply (r_get_earlier _ now) in E; [| done]. congruence.
      - case_bool_decide as K; [| done]. subst k. cbn [andb]. case_bool_decide as E; [| done]. by apply (r_get_earlier _ now) in E. }
    destruct io; cbn [after snd]; rewrite ?F, ?andb_true_r, ?andb_false_r; done.
Qed.

(** A renewal extends the key if it is live under the token in the cache, and nothing else;
    it never reaches the durable object. *)
Lemma tick_effect st now io token key ttl t k : (now <= t)%Z ->
  live_owner (heartbeat_tick st now io key token ttl).2 t k
  = if bool_decide (k = key) && bool_decide (live_owner st now key = Some token) && negb (bool_decide (io = net_fault)) && negb (le_SUBMISSION_LOCK env)
    then (if (t <? now + ttl * 1000)%Z then Some token else None) else live_owner st t k.
Proof.
  intros L. unfold heartbeat_tick, cache_renewIfValue, live_owner. destruct (le_SUBMISSION_LOCK env).
  - rewrite andb_false_r. case_decide; by destruct io.
  - rewrite andb_true_r. case_decide as G.
    + rewrite G, (bool_decide_true (Some token = Some token)) by done. rewrite andb_true_r.
      destruct io; cbn [after snd put_cache st_cache]; rewrite ?andb_true_r, ?andb_false_r; try done;
        (rewrite r_get_expire by done; rewrite G; by case_decide; case_bool_decide).
    + rewrite (bool_decide_false _ G), andb_false_r. by destruct io, st.
Qed.
End Owner.

(** ** Runs of calls *)

Inductive lock_op :=
| op_claim (token key : string) (ttl : Z) (steal : bool)
| op_release (token key : string)
| op_renew (token key : string) (ttl : Z).

Record Call := mkCall { ca_now : Z; ca_io : Net; ca_op : lock_op }.

Section Runs.
Context {R : Type} {redis : Redis R} (env : LockEnv).

Definition apply_call (st : Stores R) (c : Call) : Stores R :=
  match ca_op c with
  | op_claim token key ttl steal => (claimTransientLock env st (ca_now c) (ca_io c) token key ttl steal).2
  | op_release token key => releaseTransientLockIfOwner env st (ca_now c) (ca_io c) key (Some token)
  | op_renew token key ttl => if heartbeat_active env (Some token) then (heartbeat_tick st (ca_now c) (ca_io c) key token ttl).2 else st
  end.

Definition run_calls (st : Stores R) (calls : list Call) : Stores R := List.fold_left apply_call calls st.

(** Calls that do not take the lock [token] holds on [key] by right: no steal of the key and
    no release with the token. *)
Definition leaves_alone (token key : string) (op : lock_op) : bool :=
  match op with
  | op_claim token' key' ttl steal =>
      negb (bool_decide (token' = token)) && (negb (bool_decide (key' = key)) || negb steal && negb (bool_decide (token' = "")) && (0 <? ttl)%Z)
  | op_release token' key' => negb (bool_decide (token' = token))
  | op_renew _ _ _ => true
  end.

(** The end of the lease after a call: a renewal that reaches the store moves it. *)
Definition lease_end (token key : string) (lease : Z) (c : Call) : Z :=
  match ca_op c with
  | op_renew token' key' ttl =>
      if bool_decide (token' = token) && bool_decide (key' = key) && negb (bool_decide (ca_io c = net_fault))
         && heartbeat_active env (Some token) && negb (le_SUBMISSION_LOCK env)
      then (ca_now c + ttl * 1000)%Z else lease
  | _ => lease
  end.

(** The lease after calls that come in order, each before the lease ends. *)
Fixpoint lease_after (token key : string) (lease last : Z) (calls : list Call) : option Z :=
  match calls with
  | [] => Some lease
  | c :: calls' =>
      if (last <=? ca_now c)%Z && (ca_now c <? lease)%Z && (match ca_op c with op_claim _ _ ttl _ => (ca_now c + ttl * 1000 <=? 2 ^ 53)%Z | _ => true end)
         && leaves_alone token key (ca_op c)
      then lease_after token key (lease_end token key lease c) (ca_now c) calls' else None
  end.

Definition last_time (last : Z) (calls : list Call) : Z := List.fold_left (fun _ c => ca_now c) calls last.

Lemma claim_frame st now io token key ttl steal t k : (now <= t)%Z -> k <> key ->
  live_owner env (claimTransientLock env st now io token key ttl steal).2 t k = live_owner env st t k.
Proof.
  intros L N. unfold claimTransientLock. destruct (le_SUBMISSION_LOCK env) eqn:D.
  - unfold claimSubmissionLockIfBound. destruct (handleClaim _ _ _) as [resp rec].
    destruct io; cbn [after snd]; rewrite ?durable_put by done; by rewrite ?decide_False by done.
  - destruct (le_cache env) as [shape |]; [| done]. destruct (negb _); [done |]. unfold live_owner. rewrite D.
    destruct steal; [| unfold cache_claim; destruct (r_get (st_cache st) now key)];
      destruct io; cbn [after snd put_cache st_cache]; rewrite ?r_get_set by done; by rewrite ?decide_False by done.
Qed.

Definition holds_until (st : Stores R) (now lease : Z) (token key : string) : Prop :=
  forall t, (now <= t < lease)%Z -> live_owner env st t key = Some token.

Lemma renew_keeps st now io token key lease token' key' ttl :
  (now < lease)%Z -> holds_until st now lease token key ->
  let c := mkCall now io (op_renew token' key' ttl) in
  holds_until (apply_call st c) now (lease_end token key lease c) token key.
Proof.
  intros L Hh c t Ht. pose proof (Hh now ltac:(lia)) as Now. unfold apply_call, lease_end in *. cbn [c ca_op ca_now ca_io] in *.
  destruct (decide (token' = token /\ key' = key)) as [[-> ->] | NK].
  - rewrite !bool_decide_true in Ht by done. cbn [andb] in Ht. destruct (heartbeat_active env (Some token)).
    + rewrite tick_effect by lia. rewrite Now, !bool_decide_true by done. cbn [andb]. rewrite andb_true_r in Ht. destruct (_ && _).
      * by replace (t <? _)%Z with true by (symmetry; apply Z.ltb_lt; lia).
      * apply Hh. lia.
    + rewrite andb_false_r in Ht. apply Hh. cbn [andb] in Ht. lia.
  - assert (E : bool_decide (token' = token) && bool_decide (key' = key) = false) by (repeat case_bool_decide; naive_solver).
    rewrite E in Ht. cbn [andb] in Ht. destruct (heartbeat_active env (Some token')); [| apply Hh; lia]. rewrite tick_effect by lia.
    destruct (decide (key = key')) as [<- | Nk]; [| rewrite (bool_decide_false (key = key')) by done; apply Hh; lia].
    rewrite Now, (bool_decide_false (Some token = Some token')) by naive_solver. rewrite andb_false_r. apply Hh. lia.
Qed.

(** One call leaves the lock with its holder until the end of the lease. *)
Lemma call_keeps st c token key lease :
  backed env = true -> token <> "" -> (0 <= ca_now c < lease)%Z ->
  (match ca_op c with op_claim _ _ ttl _ => (ca_now c + ttl * 1000 <=? 2 ^ 53)%Z | _ => true end) = true ->
  leaves_alone token key (ca_op c) = true -> holds_until st (ca_now c) lease token key ->
  holds_until (apply_call st c) (ca_now c) (lease_end token key lease c) token key.
Proof.
  intros B NT L Sm LA Hh. pose proof (Hh (ca_now c) ltac:(lia)) as Now.
  destruct c as [now io [token' key' ttl steal | token' key' | token' key' ttl]]; [| | cbn in L; by apply renew_keeps; [lia |]];
    intros t Ht; unfold apply_call, lease_end in *; cbn [ca_op ca_now ca_io leaves_alone] in *.
  - apply andb_true_iff in LA as [T%negb_true_iff%bool_decide_eq_false LA]. destruct (decide (key' = key)) as [-> | NK].
    + rewrite bool_decide_true in LA by done. cbn [negb orb] in LA. rewrite !andb_true_iff, !negb_true_iff in LA.
      destruct LA as [[-> Ne%bool_decide_eq_false] P%Z.ltb_lt].
      pose proof (claim_effect env st now io token' key ttl false B Ne) as E. destruct (claimTransientLock _ _ _ _ _ _ _ _) as [cl st'].
      destruct E as [_ E]; [unfold small_times; lia | congruence |]. cbn [snd]. rewrite E by lia. unfold grant. rewrite Now. cbn.
      rewrite andb_false_r. apply Hh. lia.
    + rewrite claim_frame by (done || lia). apply Hh. lia.
  - apply negb_true_iff, bool_decide_eq_false in LA. destruct (decide (token' = "")) as [-> | Ne]; [apply Hh; lia |].
    rewrite release_effect by (done || lia). rewrite (Hh t) by lia. rewrite (bool_decide_false (Some token = Some token')) by congruence.
    by rewrite andb_false_r.
Qed.

Lemma calls_keep token key : backed env = true -> token <> "" -> forall calls st now lease lease', (0 <= now)%Z ->
  lease_after token key lease now calls = Some lease' -> holds_until st now lease token key ->
  holds_until (run_calls st calls) (last_time now calls) lease' token key.
Proof.
  intros B NT. induction calls as [| c calls IH]; intros st now lease lease' P E Hh; cbn [lease_after] in E; [by injection E as <- |].
  destruct (_ && _) eqn:G; [| done]. rewrite !andb_true_iff in G. destruct G as [[[A%Z.leb_le C%Z.ltb_lt] Sm] LA].
  cbn [run_calls last_time List.fold_left]. apply (IH _ _ (lease_end token key lease c)); [lia | done |].
  apply call_keeps; try done; [lia |]. intros t Ht. apply Hh. lia.
Qed.
End Runs.

(** C16: while the lease of an acquired lock runs, from the claim over any calls by other
    workers (claims, releases with their own tokens, renewals, each of which may
    fail or lose its answer) and the holder's own renewals, the key stays live
    under the holder's token and no other claim that reaches the store is
    granted, unless it steals. *)
Theorem lock_exclusive {R} `{Redis R} env st t0 io token key ttl steal st0 calls lease t token' ttl' :
  backed env = true -> token <> "" -> small_times t0 ttl -> live_owner env st t0 key <> Some token ->
  claimTransientLock env st t0 io token key ttl steal = (mkClaim true (Some token), st0) ->
  lease_after env token key (t0 + ttl * 1000) t0 calls = Some lease ->
  (last_time t0 calls <= t < lease)%Z -> token' <> token -> token' <> "" -> small_times t ttl' ->
  live_owner env (run_calls env st0 calls) t key = Some token
  /\ (claimTransientLock env (run_calls env st0 calls) t net_ok token' key ttl' false).1 = mkClaim false None.
Proof.
  intros B NT Sm Fr C E Ht N' Ne' Sm'.
  assert (H0 : holds_until env st0 t0 (t0 + ttl * 1000) token key).
  { intros u Hu. rewrite (acquired_effect env st t0 io token key ttl steal) by (done || lia). rewrite bool_decide_true by done.
    by replace (u <? _)%Z with true by (symmetry; apply Z.ltb_lt; lia). }
  pose proof (calls_keep env token key B NT calls st0 t0 _ lease ltac:(unfold small_times in *; lia) E H0 t Ht) as O. split; [done |].
  assert (Fr' : live_owner env (run_calls env st0 calls) t key <> Some token') by (rewrite O; congruence).
  pose proof (claim_effect env (run_calls env st0 calls) t net_ok token' key ttl' false B Ne' Sm' Fr') as CE'.
  destruct (claimTransientLock env (run_calls env st0 calls) _ _ _ _ _ _) as [cl st']. destruct CE' as [-> _]. cbn [fst]. unfold grant. by rewrite O.
Qed.

(** A release or a renewal with a token that does not hold the key changes no lock at
    any later time: a holder that overran its time cannot free or extend the
    lock of its successor. *)
Theorem stale_token_harmless {R} `{Redis R} env st now io token key ttl t k :
  backed env = true -> token <> "" -> live_owner env st now key <> Some token -> (now <= t)%Z ->
  live_owner env (releaseTransientLockIfOwner env st now io key (Some token)) t k = live_owner env st t k
  /\ live_owner env (heartbeat_tick st now io key token ttl).2 t k = live_owner env st t k.
Proof.
  intros B NT Fr L. rewrite release_effect, tick_effect by done. rewrite (bool_decide_false _ Fr), andb_false_r. split; [| done].
  case_bool_decide as K; [| done]. subst k. cbn [andb]. case_bool_decide as O; [| done]. by apply (live_earlier env _ now) in O.
Qed.

(** ** Recovery *)

Fixpoint in_order (now : Z) (calls : list Call) : bool :=
  match calls with [] => true | c :: calls' => (now <=? ca_now c)%Z && in_order (ca_now c) calls' end.

Lemma in_order_last calls : forall now, in_order now calls = true -> (now <= last_time now calls)%Z.
Proof.
  induction calls as [| c calls IH]; intros now O; [done |]. cbn [in_order] in O. apply andb_true_iff in O as [L%Z.leb_le O].
  cbn [last_time List.fold_left]. transitivity (ca_now c); [done | by apply IH].
Qed.

Section Recovery.
Context {R : Type} {redis : Redis R} (env : LockEnv).

(** Calls that give the key to nobody. *)
Definition grants_nothing (key : string) (op : lock_op) : bool :=
  match op with op_claim _ key' _ _ | op_renew _ key' _ => negb (bool_decide (key' = key)) | op_release _ _ => true end.

Definition free_from (st : Stores R) (e : Z) (key : string) : Prop := forall t, (e <= t)%Z -> live_owner env st t key = None.

Lemma calls_stay_free key e : backed env = true -> forall calls st now, in_order now calls = true ->
  forallb (fun c => grants_nothing key (ca_op c)) calls = true -> (last_time now calls <= e)%Z ->
  free_from st e key -> free_from (run_calls env st calls) e key.
Proof.
  intros B. induction calls as [| c calls IH]; intros st now O G Le F; [done |]. cbn [forallb in_order] in *.
  apply andb_true_iff in G as [G1 G], O as [_ O]. apply (IH _ (ca_now c) O G Le). pose proof (in_order_last _ _ O) as Lc.
  cbn [last_time List.fold_left] in Le. fold (last_time (ca_now c) calls) in Le. intros t Ht. unfold apply_call.
  destruct (ca_op c) as [token' key' ttl steal | token' key' | token' key' ttl]; cbn [grants_nothing] in G1.
  - apply negb_true_iff, bool_decide_eq_false in G1. rewrite claim_frame by (lia || congruence). by apply F.
  - destruct (decide (token' = "")) as [-> | Ne]; [by apply F |]. rewrite release_effect by (done || lia). rewrite (F t) by done.
    by rewrite andb_false_r.
  - apply negb_true_iff, bool_decide_eq_false in G1. destruct (heartbeat_active _ _); [| by apply F].
    rewrite tick_effect by lia. rewrite (bool_decide_false (key = key')) by congruence. by apply F.
Qed.
End Recovery.

(** A free key goes to the next claim that reaches the store. *)
Lemma free_claim {R} `{Redis R} env st t token key ttl :
  backed env = true -> token <> "" -> small_times t ttl -> live_owner env st t key = None ->
  (claimTransientLock env st t net_ok token key ttl false).1 = mkClaim true (Some token).
Proof.
  intros B N Sm F. pose proof (claim_effect env st t net_ok token key ttl false B N Sm ltac:(by rewrite F)) as CE.
  destruct (claimTransientLock env st _ _ _ _ _ _) as [cl st']. destruct CE as [-> _]. cbn [fst]. unfold grant. by rewrite F.
Qed.

(** A lock whose holder never comes back is free again when its time is over: whatever
    other calls came in between, the next claim that reaches the store gets it. *)
Theorem dead_holder_recovers {R} `{Redis R} env st t0 io token key ttl steal st0 calls t token' ttl' :
  backed env = true -> token <> "" -> small_times t0 ttl -> live_owner env st t0 key <> Some token ->
  claimTransientLock env st t0 io token key ttl steal = (mkClaim true (Some token), st0) ->
  in_order t0 calls = true -> forallb (fun c => grants_nothing key (ca_op c)) calls = true ->
  (t0 + ttl * 1000 <= t)%Z -> (last_time t0 calls <= t)%Z -> token' <> "" -> small_times t ttl' ->
  (claimTransientLock env (run_calls env st0 calls) t net_ok token' key ttl' false).1 = mkClaim true (Some token').
Proof.
  intros B NT Sm Fr C O G Ht Lt Ne' Sm'. apply free_claim; try done. pose proof (in_order_last _ _ O) as L0.
  apply (calls_stay_free env key t B calls st0 t0 O G Lt); [| done]. intros u Hu.
  rewrite (acquired_effect env st t0 io token key ttl steal) by (done || lia). rewrite bool_decide_true by done.
  by replace (u <? _)%Z with false by (symmetry; apply Z.ltb_ge; lia).
Qed.

(** ** Shutdown *)

Section Shutdown.
Context {R : Type} {redis : Redis R} (env : LockEnv).

(** One process beside all others: the stores, its registry, the tokens it has drawn, the time. *)
Record ProcState := mkProc { pr_st : Stores R; pr_held : gmap string string; pr_mine : gset string; pr_now : Z }.

Definition unused (st : Stores R) (now : Z) (token : string) : Prop := forall t k, (now <= t)%Z -> live_owner env st t k <> Some token.

(** Its own claims answer or fail, its releases get through; the others do anything with
    tokens of their own. *)
Inductive proc_step : ProcState -> ProcState -> Prop :=
| ps_claim st held mine now now' io token key ttl steal claim st' held' :
    (now <= now')%Z -> io <> net_lost -> token <> "" -> token ∉ mine -> unused st now' token -> small_times now' ttl ->
    claim_registered env st held now' io token key ttl steal = (claim, st', held') ->
    proc_step (mkProc st held mine now) (mkProc st' held' ({[token]} ∪ mine) now')
| ps_release st held mine now now' io token key st' held' :
    (now <= now')%Z -> io <> net_fault -> token ∈ mine -> token <> "" ->
    release_registered env st held now' io key (Some token) = (st', held') ->
    proc_step (mkProc st held mine now) (mkProc st' held' mine now')
| ps_renew st held mine now now' io token key ttl :
    (now <= now')%Z -> proc_step (mkProc st held mine now) (mkProc (heartbeat_tick st now' io key token ttl).2 held mine now')
| ps_other_claim st held mine now now' io token key ttl steal :
    (now <= now')%Z -> token <> "" -> token ∉ mine -> unused st now' token -> small_times now' ttl ->
    proc_step (mkProc st held mine now) (mkProc (claimTransientLock env st now' io token key ttl steal).2 held mine now')
| ps_other_release st held mine now now' io token key :
    (now <= now')%Z -> token <> "" -> proc_step (mkProc st held mine now) (mkProc (releaseTransientLockIfOwner env st now' io key (Some token)) held mine now').

(** A lock live under one of the process's tokens is registered under it. *)
Definition registered (s : ProcState) : Prop :=
  (forall key token, pr_held s !! key = Some token -> token <> "")
  /\ forall t key token, (pr_now s <= t)%Z -> live_owner env (pr_st s) t key = Some token -> token ∈ pr_mine s -> pr_held s !! key = Some token.

Lemma claim_step_registered st held mine now now' io token key ttl steal claim st' held' :
  backed env = true -> registered (mkProc st held mine now) -> (now <= now')%Z -> io <> net_lost -> token <> "" -> token ∉ mine ->
  unused st now' token -> small_times now' ttl -> claim_registered env st held now' io token key ttl steal = (claim, st', held') ->
  registered (mkProc st' held' ({[token]} ∪ mine) now').
Proof.
  intros B [I1 I2] L Io NT NM U Sm E. unfold claim_registered in E.
  pose proof (claim_effect env st now' io token key ttl steal B NT Sm (U now' key ltac:(lia))) as CE.
  destruct (claimTransientLock env st now' io token key ttl steal) as [cl st1]. destruct CE as [-> CE]. injection E as _ <- <-. cbn in I1, I2.
  destruct io; [| | done]; cbn [lc_ownerToken lc_acquired fail_open].
  - destruct (grant env st now' key steal); cbn [lc_ownerToken lc_acquired]; unfold registerHeldLock; split; cbn.
    + intros k tk. destruct (decide (k = key)) as [-> | NK]; [rewrite lookup_insert_eq; congruence | rewrite lookup_insert_ne by done; apply I1].
    + intros t k tk Ht Hl Hm. rewrite CE in Hl by done. destruct (decide (k = key)) as [-> | NK].
      * rewrite bool_decide_true in Hl by done. cbn in Hl. destruct (_ <? _)%Z; [| done]. injection Hl as <-. by rewrite lookup_insert_eq.
      * rewrite bool_decide_false in Hl by done. cbn in Hl. rewrite lookup_insert_ne by done. apply (I2 t); [lia | done |].
        apply elem_of_union in Hm as [->%elem_of_singleton | Hm]; [| done]. exfalso. by apply (U t k).
    + exact I1.
    + intros t k tk Ht Hl Hm. rewrite CE in Hl by done. rewrite andb_false_r in Hl. cbn in Hl. apply (I2 t); [lia | done |].
      apply elem_of_union in Hm as [->%elem_of_singleton | Hm]; [| done]. exfalso. by apply (U t k).
  - split; cbn; [exact I1 |]. intros t k tk Ht Hl Hm. rewrite CE in Hl by done. rewrite andb_false_r in Hl. apply (I2 t); [lia | done |].
    apply elem_of_union in Hm as [->%elem_of_singleton | Hm]; [| done]. exfalso. by apply (U t k).
Qed.

(** A call that adds no live token of the process keeps the registry complete. *)
Lemma registered_shrink st st' held mine now now' :
  registered (mkProc st held mine now) -> (now <= now')%Z ->
  (forall t k tk, (now' <= t)%Z -> tk ∈ mine -> live_owner env st' t k = Some tk -> exists u, (now <= u)%Z /\ live_owner env st u k = Some tk) ->
  registered (mkProc st' held mine now').
Proof.
  intros [I1 I2] L Sh. split; [exact I1 |]. cbn [pr_st pr_held pr_mine pr_now] in *. intros t k tk Ht Hl Hm. destruct (Sh t k tk Ht Hm Hl) as (u & Hu & Hlu). by apply (I2 u).
Qed.

Lemma proc_step_registered s s' : backed env = true -> registered s -> proc_step s s' -> registered s'.
Proof.
  intros B I St. destruct St as [st held mine now now' io token key ttl steal claim st' held' L Io NT NM U Sm E
    | st held mine now now' io token key st' held' L Io Hm NT E | st held mine now now' io token key ttl L
    | st held mine now now' io token key ttl steal L NT NM U Sm | st held mine now now' io token key L NT].
  - by eapply claim_step_registered.
  - pose proof (f_equal fst E) as E1. pose proof (f_equal snd E) as E2. cbn [release_registered fst snd] in E1, E2. subst st' held'. clear E.
    destruct I as [I1 I2]. cbn in I1, I2. unfold unregisterHeldLock. split; cbn [pr_st pr_held pr_mine pr_now].
    + intros k tk. case_decide; [| apply I1]. destruct (decide (k = key)) as [-> |]; [by rewrite lookup_delete_eq | rewrite lookup_delete_ne by done; apply I1].
    + intros t k tk Ht Hl Hmk. rewrite release_effect in Hl by done. rewrite (bool_decide_false _ Io) in Hl. cbn [negb] in Hl. rewrite andb_true_r in Hl.
      destruct (_ && _) eqn:G; [done |]. pose proof (I2 t k tk ltac:(lia) Hl Hmk) as Hk.
      destruct (decide (held !! key = Some token)) as [Hd | Hd]; [| exact Hk].
      destruct (decide (k = key)) as [-> | NK]; [| by rewrite lookup_delete_ne].
      assert (tk = token) by congruence. subst tk. rewrite Hl, !bool_decide_true in G by done. done.
  - eapply registered_shrink; [exact I | done |]. intros t k tk Ht Hm Hl. rewrite tick_effect in Hl by done.
    destruct (_ && _) eqn:G; [| exists t; split; [lia | done]]. destruct (_ <? _)%Z; [| done]. injection Hl as ->.
    rewrite !andb_true_iff, !bool_decide_eq_true in G. destruct G as [[[-> O] _] _]. exists now'. by split.
  - eapply registered_shrink; [exact I | done |]. intros t k tk Ht Hm Hl.
    pose proof (claim_effect env st now' io token key ttl steal B NT Sm (U now' key ltac:(lia))) as CE.
    destruct (claimTransientLock env st now' io token key ttl steal) as [cl st1]. destruct CE as [_ CE]. cbn [snd] in Hl. rewrite CE in Hl by done.
    destruct (_ && _); [| exists t; split; [lia | done]]. destruct (_ <? _)%Z; [| done]. injection Hl as <-. done.
  - eapply registered_shrink; [exact I | done |]. intros t k tk Ht Hm Hl. rewrite release_effect in Hl by done.
    destruct (_ && _); [done |]. exists t. split; [lia | done].
Qed.

(** Releasing a list of entries frees them all and takes nothing else. *)
Lemma release_all_effect now io : backed env = true -> forall entries st t k tk, Forall (fun kv => kv.2 <> "") entries ->
  (forall key, io key = net_ok) -> (now <= t)%Z ->
  live_owner env (List.fold_left (fun st kv => releaseTransientLockIfOwner env st now (io kv.1) kv.1 (Some kv.2)) entries st) t k = Some tk ->
  live_owner env st t k = Some tk /\ (k, tk) ∉ entries.
Proof.
  intros B. induction entries as [| [key token] entries IH]; intros st t k tk F Io L Hl; [split; [done | by apply not_elem_of_nil] |].
  apply Forall_cons in F as [NT F]. cbn [List.fold_left fst snd] in Hl. destruct (IH _ _ _ _ F Io L Hl) as [H1 H2].
  rewrite release_effect in H1 by done. rewrite Io in H1. cbn in H1. rewrite andb_true_r in H1. destruct (_ && _) eqn:G; [done |].
  split; [done |]. apply not_elem_of_cons. split; [| done]. intros [= -> ->]. rewrite H1, !bool_decide_true in G by done. done.
Qed.
End Shutdown.
Arguments ProcState : clear implicits.
Arguments mkProc {R} _ _ _ _.

(** At a shutdown in which its releases get through, a process leaves no key locked:
    whatever it and the others did before, steals among its own passes included,
    no lock is live afterwards under a token it drew. *)
Theorem shutdown_leaves_no_lock {R} `{Redis R} env st0 now0 s now io t key token :
  backed env = true -> rtc (proc_step env) (mkProc st0 ∅ ∅ now0) s -> (pr_now s <= now)%Z -> (forall key, io key = net_ok) -> (now <= t)%Z ->
  token ∈ pr_mine s ->
  live_owner env (releaseAllHeldLocksAtShutdown env (pr_st s) (pr_held s) now io).1.2 t key <> Some token.
Proof.
  intros B St L Io Lt Hm Hl.
  assert (I : registered env s).
  { assert (I0 : registered env (mkProc st0 ∅ ∅ now0)) by (split; cbn; set_solver).
    clear - B St I0. induction St as [| s1 s2 s3 S1 St IH]; [done |]. by eapply IH, proc_step_registered. }
  destruct I as [I1 I2]. unfold releaseAllHeldLocksAtShutdown in Hl. cbn [fst snd] in Hl.
  destruct (release_all_effect env now io B (map_to_list (pr_held s)) (pr_st s) t key token) as [H1 H2]; try done.
  - apply Forall_forall. intros [k tk] Hk%elem_of_map_to_list. cbn. by apply (I1 k).
  - apply H2, elem_of_map_to_list. apply (I2 t); [lia | done | done].
Qed.

(** ** The heartbeat *)

(** The ticks of a heartbeat started at [t], with what becomes of each renewal. *)
Fixpoint ticks (token key : string) (ttl t : Z) (ios : list Net) : list Call :=
  match ios with
  | [] => []
  | io :: ios' => mkCall (t + heartbeat_interval ttl) io (op_renew token key ttl) :: ticks token key ttl (t + heartbeat_interval ttl) ios'
  end.

Fixpoint no_two_faults (previous : bool) (ios : list Net) : bool :=
  match ios with
  | [] => true
  | io :: ios' => let fault := bool_decide (io = net_fault) in negb (previous && fault) && no_two_faults fault ios'
  end.

Lemma interval_third ttl : (3 <= ttl)%Z -> (1000 <= heartbeat_interval ttl /\ 3 * heartbeat_interval ttl <= ttl * 1000)%Z.
Proof. intros L. unfold heartbeat_interval. pose proof (Z.mul_div_le (ttl * 1000) 3 ltac:(lia)). lia. Qed.

Lemma ticks_lease env token key ttl : (3 <= ttl)%Z -> heartbeat_active env (Some token) = true -> le_SUBMISSION_LOCK env = false ->
  forall ios t lease (previous : bool), no_two_faults previous ios = true ->
  lease = (t + ttl * 1000 - (if previous then heartbeat_interval ttl else 0))%Z ->
  exists lease', lease_after env token key lease t (ticks token key ttl t ios) = Some lease'
    /\ (last_time t (ticks token key ttl t ios) + heartbeat_interval ttl < lease')%Z.
Proof.
  intros L HA D. pose proof (interval_third ttl L) as [I1 I3]. set (i := heartbeat_interval ttl) in *.
  induction ios as [| io ios IH]; intros t lease previous N El; cbn [ticks lease_after last_time List.fold_left].
  - exists lease. split; [done |]. fold i. destruct previous; lia.
  - fold i. cbn [ca_now ca_op ca_io leaves_alone]. cbn [no_two_faults] in N. apply andb_true_iff in N as [N1 N].
    replace (t <=? t + i)%Z with true by (symmetry; apply Z.leb_le; lia).
    replace (t + i <? lease)%Z with true by (symmetry; apply Z.ltb_lt; destruct previous; lia). cbn [andb].
    apply (IH _ _ (bool_decide (io = net_fault)) N). unfold lease_end. cbn [ca_op ca_now ca_io]. rewrite HA, D, !bool_decide_true by done. cbn [andb negb].
    rewrite !andb_true_r. destruct (bool_decide (io = net_fault)); cbn [negb]; [| lia]. destruct previous; [done |]. lia.
Qed.

(** A heartbeat keeps the lock for as long as it runs if no two renewals in a row
    fail: at every time up to the tick after the last one the key is live under
    the holder's token, whatever time to live of at least three seconds. *)
Theorem heartbeat_keeps_lock {R} `{Redis R} env st t0 io token key ttl steal st0 ios t :
  le_SUBMISSION_LOCK env = false -> backed env = true -> heartbeat_active env (Some token) = true -> token <> "" ->
  (3 <= ttl)%Z -> small_times t0 ttl -> live_owner env st t0 key <> Some token ->
  claimTransientLock env st t0 io token key ttl steal = (mkClaim true (Some token), st0) -> no_two_faults false ios = true ->
  (last_time t0 (ticks token key ttl t0 ios) <= t <= last_time t0 (ticks token key ttl t0 ios) + heartbeat_interval ttl)%Z ->
  live_owner env (run_calls env st0 (ticks token key ttl t0 ios)) t key = Some token.
Proof.
  intros D B HA NT L Sm Fr C N Ht. destruct (ticks_lease env token key ttl L HA D ios t0 (t0 + ttl * 1000) false N ltac:(cbv iota; lia)) as (lease & E & Hl).
  apply (calls_keep env token key B NT _ st0 t0 _ lease ltac:(unfold small_times in *; lia) E); [| lia].
  intros u Hu. rewrite (acquired_effect env st t0 io token key ttl steal) by (done || lia). rewrite bool_decide_true by done.
  by replace (u <? _)%Z with true by (symmetry; apply Z.ltb_lt; lia).
Qed.

(** Two failed renewals in a row lose a lock whose time to live is a multiple of three
    seconds, as all of them are: the third tick comes when the time is already
    over, it reports the lock lost, and another worker's claim is granted. *)
Theorem two_failed_renewals_lose_lock {R} `{Redis R} env st t0 io token key n st0 token' ttl' :
  le_SUBMISSION_LOCK env = false -> backed env = true -> token <> "" -> (1 <= n)%Z -> small_times t0 (3 * n) ->
  live_owner env st t0 key <> Some token ->
  claimTransientLock env st t0 io token key (3 * n) false = (mkClaim true (Some token), st0) ->
  let third := (t0 + 3 * heartbeat_interval (3 * n))%Z in
  let st2 := run_calls env st0 (ticks token key (3 * n) t0 [net_fault; net_fault]) in
  token' <> "" -> small_times third ttl' ->
  (heartbeat_tick st2 third net_ok key token (3 * n)).1 = true
  /\ (claimTransientLock env st2 third net_ok token' key ttl' false).1 = mkClaim true (Some token').
Proof.
  intros D B NT N1 Sm Fr C third st2 NT' Sm'. assert (T : third = (t0 + 3 * n * 1000)%Z).
  { unfold third, heartbeat_interval. replace (3 * n * 1000)%Z with (n * 1000 * 3)%Z by lia. rewrite Z.div_mul by lia. lia. }
  assert (S2 : st2 = st0).
  { unfold st2, run_calls, apply_call. cbn [ticks List.fold_left ca_op ca_now ca_io]. destruct (heartbeat_active _ _); [| done].
    unfold heartbeat_tick, cache_renewIfValue. repeat (case_decide; cbn [after snd]); done. }
  assert (F : live_owner env st0 third key = None).
  { rewrite (acquired_effect env st t0 io token key (3 * n) false) by (done || lia). rewrite bool_decide_true by done.
    by replace (third <? _)%Z with false by (symmetry; apply Z.ltb_ge; lia). }
  rewrite S2. split; [| by apply free_claim]. unfold heartbeat_tick, cache_renewIfValue.
  unfold live_owner in F. rewrite D in F. rewrite F. by case_decide.
Qed.

(** A lock held through the durable object is never renewed: however often its
    heartbeat ticks, another worker gets it when the first time to live is over,
    while the holder is still at work. *)
Theorem durable_lock_not_renewed {R} `{Redis R} env st t0 io token key ttl steal st0 ios token' ttl' t :
  le_SUBMISSION_LOCK env = true -> token <> "" -> small_times t0 ttl -> live_owner env st t0 key <> Some token ->
  claimTransientLock env st t0 io token key ttl steal = (mkClaim true (Some token), st0) ->
  (t0 + ttl * 1000 <= t)%Z -> token' <> "" -> small_times t ttl' ->
  (claimTransientLock env (run_calls env st0 (ticks token key ttl t0 ios)) t net_ok token' key ttl' false).1 = mkClaim true (Some token').
Proof.
  intros D NT Sm Fr C Ht NT' Sm'. assert (B : backed env = true) by (unfold backed; by rewrite D). apply free_claim; try done.
  assert (K : forall ios u t1 s, live_owner env (run_calls env s (ticks token key ttl t1 ios)) u key = live_owner env s u key).
  { clear - D. induction ios as [| o ios IH]; intros u t1 s; [done |]. cbn [ticks run_calls List.fold_left].
    etransitivity; [apply (IH u) |]. unfold apply_call. cbn [ca_op ca_now ca_io]. destruct (heartbeat_active _ _); [| done].
    unfold heartbeat_tick, cache_renewIfValue, live_owner. rewrite D. case_decide; by destruct o. }
  assert (t0 <= t)%Z by (destruct Sm as (? & ? & ?); lia). rewrite K, (acquired_effect env st t0 io token key ttl steal) by done. rewrite bool_decide_true by done.
  by replace (t <? _)%Z with false by (symmetry; apply Z.ltb_ge; lia).
Qed.

(** ** Samples *)

(** A server that keeps each key with its time of expiry. *)
Definition toy_redis_live (r : gmap string (string * Z)) (t : Z) (k : string) : option string :=
  '(v, e) ← r !! k; if (t <? e)%Z then Some v else None.

Lemma toy_live_insert r k v e t k' :
  toy_redis_live (<[k := (v, e)]> r) t k' = if decide (k' = k) then (if (t <? e)%Z then Some v else None) else toy_redis_live r t k'.
Proof. unfold toy_redis_live. case_decide as E; [subst; by rewrite lookup_insert_eq | by rewrite lookup_insert_ne]. Qed.

Lemma toy_live_delete r k t k' : toy_redis_live (delete k r) t k' = if decide (k' = k) then None else toy_redis_live r t k'.
Proof. unfold toy_redis_live. case_decide as E; [subst; by rewrite lookup_delete_eq | by rewrite lookup_delete_ne]. Qed.

#[export] Instance toy_redis : Redis (gmap string (string * Z)).
Proof.
  refine {| r_get := toy_redis_live; r_set r now k v ttl := <[k := (v, (now + ttl * 1000)%Z)]> r;
            r_expire r now k ttl := match toy_redis_live r now k with Some v => <[k := (v, (now + ttl * 1000)%Z)]> r | None => delete k r end;
            r_del r now k := delete k r |}.
  - intros r now k v ttl t k' L. apply toy_live_insert.
  - intros r now k ttl t k' L. destruct (toy_redis_live r now k) as [v |] eqn:G; rewrite ?toy_live_insert, ?toy_live_delete; [done |].
    case_decide; [| done]. by destruct (_ <? _)%Z.
  - intros r now k t k' L. apply toy_live_delete.
  - intros r now t k v L. unfold toy_redis_live. destruct (r !! k) as [[v' e] |]; [| done]. cbn.
    destruct (Z.ltb_spec t e); [| done]. intros [= ->]. by replace (now <? e)%Z with true by (symmetry; apply Z.ltb_lt; lia).
Defined.

Definition self_hosted : LockEnv := mkLockEnv false (Some (mkShape true true true)).
Definition hosted : LockEnv := mkLockEnv true None.
Definition no_locks : Stores (gmap string (string * Z)) := mkStores ∅ ∅.
Definition sample_key : string := prActuationLockKey "Acme/Widgets" 7.
Definition first_claim (env : LockEnv) : Stores (gmap string (string * Z)) :=
  (claimTransientLock env no_locks 1000 net_ok "a" sample_key PR_ACTUATION_LOCK_TTL_SECONDS false).2.

(** A rival claim, a stale release by the rival and a renewal of the holder. *)
Definition sample_calls : list Call :=
  [mkCall 2000 net_ok (op_claim "b" sample_key 600 false); mkCall 3000 net_ok (op_release "b" sample_key);
   mkCall 400000 net_lost (op_renew "a" sample_key 600)].

Lemma lock_exclusive_witness :
  live_owner self_hosted (run_calls self_hosted (first_claim self_hosted) sample_calls) 700000 sample_key = Some "a"
  /\ (claimTransientLock self_hosted (run_calls self_hosted (first_claim self_hosted) sample_calls) 700000 net_ok "c" sample_key 600 false).1 = mkClaim false None.
Proof.
  apply (lock_exclusive self_hosted no_locks 1000 net_ok "a" sample_key 600 false (first_claim self_hosted) sample_calls 1000000 700000 "c" 600);
    [reflexivity | discriminate | unfold small_times; lia | vm_compute; discriminate | vm_compute; reflexivity | vm_compute; reflexivity
    | vm_compute; split; [discriminate | reflexivity] | discriminate | discriminate | unfold small_times; lia].
Defined.

Lemma stale_token_harmless_witness :
  live_owner self_hosted (releaseTransientLockIfOwner self_hosted (first_claim self_hosted) 2000 net_ok sample_key (Some "b")) 3000 sample_key = Some "a".
Proof.
  destruct (stale_token_harmless self_hosted (first_claim self_hosted) 2000 net_ok "b" sample_key 600 3000 sample_key) as [E _];
    [reflexivity | discriminate | vm_compute; discriminate | lia |]. rewrite E. vm_compute. reflexivity.
Defined.

Lemma dead_holder_recovers_witness :
  (claimTransientLock self_hosted (run_calls self_hosted (first_claim self_hosted) [mkCall 5000 net_ok (op_release "b" sample_key)])
     601000 net_ok "b" sample_key 600 false).1 = mkClaim true (Some "b").
Proof.
  apply (dead_holder_recovers self_hosted no_locks 1000 net_ok "a" sample_key 600 false (first_claim self_hosted)
           [mkCall 5000 net_ok (op_release "b" sample_key)] 601000 "b" 600);
    [reflexivity | discriminate | unfold small_times; lia | vm_compute; discriminate | vm_compute; reflexivity | reflexivity | vm_compute; reflexivity
    | lia | vm_compute; discriminate | discriminate | unfold small_times; lia].
Defined.

Lemma heartbeat_keeps_lock_witness :
  live_owner self_hosted (run_calls self_hosted (first_claim self_hosted) (ticks "a" sample_key 600 1000 [net_fault; net_ok; net_fault])) 700000 sample_key
  = Some "a".
Proof.
  apply (heartbeat_keeps_lock self_hosted no_locks 1000 net_ok "a" sample_key 600 false (first_claim self_hosted) [net_fault; net_ok; net_fault] 700000);
    [reflexivity | reflexivity | reflexivity | discriminate | lia | unfold small_times; lia | vm_compute; discriminate | vm_compute; reflexivity | reflexivity
    | vm_compute; split; discriminate].
Defined.

Lemma two_failed_renewals_lose_lock_witness :
  (claimTransientLock self_hosted (run_calls self_hosted (first_claim self_hosted) (ticks "a" sample_key 600 1000 [net_fault; net_fault]))
     601000 net_ok "b" sample_key 600 false).1 = mkClaim true (Some "b").
Proof.
  apply (two_failed_renewals_lose_lock self_hosted no_locks 1000 net_ok "a" sample_key 200 (first_claim self_hosted) "b" 600);
    [reflexivity | reflexivity | discriminate | lia | unfold small_times; lia | vm_compute; discriminate | vm_compute; reflexivity | discriminate
    | vm_compute; split; [discriminate | split; [reflexivity | discriminate]]].
Defined.

Lemma durable_lock_not_renewed_witness :
  (claimTransientLock hosted (run_calls hosted (first_claim hosted) (ticks "a" sample_key 600 1000 [net_ok; net_ok; net_ok]))
     601000 net_ok "b" sample_key 600 false).1 = mkClaim true (Some "b").
Proof.
  apply (durable_lock_not_renewed hosted no_locks 1000 net_ok "a" sample_key 600 false (first_claim hosted) [net_ok; net_ok; net_ok] "b" 600 601000);
    [reflexivity | discriminate | unfold small_times; lia | vm_compute; discriminate | vm_compute; reflexivity | lia | discriminate | unfold small_times; lia].
Defined.

(** The process claims, then a forced re-run of its own steals the lock, then the first pass ends. *)
Definition stolen_claim : Stores (gmap string (string * Z)) * gmap string string :=
  let '(_, st1, held1) := claim_registered self_hosted no_locks ∅ 1000 net_ok "a" sample_key 1800 false in
  let '(_, st2, held2) := claim_registered self_hosted st1 held1 2000 net_ok "b" sample_key 1800 true in
  release_registered self_hosted st2 held2 3000 net_ok sample_key (Some "a").

Lemma toy_unused (st : Stores (gmap string (string * Z))) now token :
  forallb (fun kv => negb (String.eqb kv.2.1 token)) (map_to_list (st_cache st)) = true -> unused self_hosted st now token.
Proof.
  intros F t k L Hl. unfold live_owner in Hl. cbn in Hl. unfold toy_redis_live in Hl. destruct (st_cache st !! k) as [[v e] |] eqn:E; [| done]. cbn in Hl.
  destruct (_ <? _)%Z; [| done]. injection Hl as ->. apply elem_of_map_to_list, list_elem_of_In in E.
  rewrite forallb_forall in F. specialize (F _ E). cbn in F. by rewrite String.eqb_refl in F.
Qed.

Lemma shutdown_leaves_no_lock_witness :
  stolen_claim.2 !! sample_key = Some "b"
  /\ live_owner self_hosted (releaseAllHeldLocksAtShutdown self_hosted stolen_claim.1 stolen_claim.2 4000 (fun _ => net_ok)).1.2 5000 sample_key <> Some "b".
Proof.
  split; [vm_compute; reflexivity |].
  set (s1 := claim_registered self_hosted no_locks ∅ 1000 net_ok "a" sample_key 1800 false).
  set (s2 := claim_registered self_hosted s1.1.2 s1.2 2000 net_ok "b" sample_key 1800 true).
  set (final := mkProc stolen_claim.1 stolen_claim.2 ({["b"]} ∪ ({["a"]} ∪ ∅)) 3000).
  apply (shutdown_leaves_no_lock self_hosted no_locks 0 final 4000 (fun _ => net_ok) 5000 sample_key "b");
    [reflexivity | | cbn; lia | done | lia | cbn; set_solver].
  eapply rtc_l; [apply (ps_claim self_hosted no_locks ∅ ∅ 0 1000 net_ok "a" sample_key 1800 false s1.1.1 s1.1.2 s1.2);
    [lia | done | done | set_solver | by apply toy_unused | unfold small_times; lia | reflexivity] |].
  eapply rtc_l; [apply (ps_claim self_hosted s1.1.2 s1.2 _ 1000 2000 net_ok "b" sample_key 1800 true s2.1.1 s2.1.2 s2.2);
    [lia | done | done | set_solver | apply toy_unused; vm_compute; reflexivity | unfold small_times; lia | reflexivity] |].
  apply rtc_once, (ps_release self_hosted s2.1.2 s2.2 _ 2000 3000 net_ok "a" sample_key); [lia | done | set_solver | done | reflexivity].
Defined.
