(* ===== verification/LocalStore.v ===== *)
(** * What the miner's local stores share

    The miner keeps its claims and its work queue in two SQLite files
    ([packages/loopover-miner/lib/claim-ledger.ts] and [portfolio-queue.ts]).
    This file holds what both models use: a table as the list of its rows in
    insertion order, with the guarded [UPDATE], the [INSERT ... ON CONFLICT DO
    UPDATE ... WHERE] and the keyed reads of the sources; calls that may throw
    after changing the store; the input normalizers, which the two sources
    repeat word for word; and the clock, whose [Date.parse] is known to read
    back what [toISOString] writes ([IsoClock]). *)

From Stdlib Require Import Ascii QArith Qround ZArith Lia.
From stdpp Require Import base list strings option sets.
From S2P Require Import Prelude JsNumber JsString Ledger.

Local Open Scope nat_scope.
Local Open Scope string_scope.
Local Open Scope js_scope.

(** ** The clock *)

(** [new Date(ms).toISOString()] and [Date.parse]. *)
Class IsoClock := {
  iso : Z -> string;
  Date_parse : string -> num;
  iso_nonempty z : iso z <> "";
  Date_parse_iso z : (0 <= z <= 8640000000000000)%Z -> Date_parse (iso z) = nz z;
}.

(** ** Calls on a store

    A call sees the store and leaves one behind, also when it throws. *)

Definition call (S A : Type) : Type := S -> S * completion A.

Definition ret {S A} (a : A) : call S A := fun s => (s, Normal a).
Definition throw {S A} (msg : string) : call S A := fun s => (s, Thrown msg).
Definition lift {S A} (c : completion A) : call S A := fun s => (s, c).
Definition bind {S A B} (c : call S A) (k : A -> call S B) : call S B :=
  fun s => match c s with
           | (s', Normal a) => k a s'
           | (s', Thrown m) => (s', Thrown m)
           end.
Notation "x <~ c ;; k" := (bind c (fun x => k)) (at level 100, c at next level, right associativity) : js_scope.

(** [BEGIN IMMEDIATE ... COMMIT], rolled back and rethrown when the body throws. *)
Definition transaction {S A} (body : call S A) : call S A :=
  fun s => match body s with
           | (s', Normal a) => (s', Normal a)
           | (_, Thrown m) => (s, Thrown m)
           end.

(** [for (const x of xs) { const r = f(x); if (r) out.push(r) }]. *)
Fixpoint collect {S A B} (f : A -> call S (option B)) (xs : list A) : call S (list B) :=
  match xs with
  | [] => ret []
  | x :: rest => r <~ f x ;; out <~ collect f rest ;; ret (match r with Some b => b :: out | None => out end)
  end.

(** A loop of calls keeps what every call keeps; a transaction too. *)
Lemma collect_keeps {S A B} (P : S -> Prop) (f : A -> call S (option B)) xs :
  (forall x s, P s -> P (fst (f x s))) -> forall s, P s -> P (fst (collect f xs s)).
Proof.
  intros Hf. induction xs as [| x xs IH]; intros s Hs; [done |]. cbn [collect]. unfold bind at 1. specialize (Hf x s Hs).
  destruct (f x s) as [s1 [r | m]]; [| done]. unfold bind. specialize (IH s1 Hf). by destruct (collect f xs s1) as [s2 [out | m]].
Qed.

Lemma transaction_keeps {S A} (P : S -> Prop) (body : call S A) s : P s -> P (fst (body s)) -> P (fst (transaction body s)).
Proof. intros H1 H2. unfold transaction. by destruct (body s) as [s' [a | m]]. Qed.

(** ** Input normalizers *)

Definition DEFAULT_apiBaseUrl : string := "https://api.github.com".

Definition normalizeRepoFullName (repoFullName : jsval) : completion string :=
  match repoFullName with
  | JStr s =>
      match split_on "/" (trim s) with
      | [owner; repo] =>
          if str_empty owner || str_empty repo then Thrown "invalid_repo_full_name"
          else if negb (isValidRepoSegment owner) || negb (isValidRepoSegment repo) then Thrown "invalid_repo_full_name"
          else Normal (owner ++ "/" ++ repo)
      | _ => Thrown "invalid_repo_full_name"
      end
  | _ => Thrown "invalid_repo_full_name"
  end.

Definition normalizeApiBaseUrl (apiBaseUrl : jsval) : completion string :=
  match apiBaseUrl with
  | JUndefined | JNull => Normal DEFAULT_apiBaseUrl
  | JStr s => if str_empty (trim s) then Thrown "invalid_api_base_url" else Normal (trim s)
  | _ => Thrown "invalid_api_base_url"
  end.

(** [Number.isInteger(v) && v >= 1], the integer. *)
Definition positive_integer (v : jsval) : option Z :=
  match v with
  | JNum (Fin q) => if Qeq_bool q (inject_Z (Qfloor q)) && (1 <=? Qfloor q)%Z then Some (Qfloor q) else None
  | _ => None
  end.

(** What the normalizers return. *)
Definition repo_text (s : string) : Prop := normalizeRepoFullName (JStr s) = Normal s.
Definition host_text (s : string) : Prop := normalizeApiBaseUrl (JStr s) = Normal s.

Lemma normalizeRepoFullName_text v s : normalizeRepoFullName v = Normal s -> repo_text s.
Proof.
  intros H. unfold repo_text. destruct v; try discriminate. cbn [normalizeRepoFullName] in *.
  destruct (split_on "/" (trim s0)) as [| owner [| repo [| ? ?]]] eqn:E; try discriminate.
  destruct (str_empty owner || str_empty repo) eqn:Ee; [discriminate |].
  destruct (negb (isValidRepoSegment owner) || _) eqn:V; [discriminate |]. injection H as <-.
  pose proof (split_on_join "/" (trim s0)) as J. rewrite E in J. cbn [join] in J.
  change (String "/" "" ++ repo) with ("/" ++ repo) in J. by rewrite J, trim_idem, E, Ee, V, J.
Qed.

Lemma normalizeApiBaseUrl_text v s : normalizeApiBaseUrl v = Normal s -> host_text s.
Proof.
  unfold host_text. destruct v; cbn [normalizeApiBaseUrl]; try discriminate.
  - by intros [= <-].
  - by intros [= <-].
  - destruct (str_empty (trim s0)) eqn:E; [discriminate |]. intros [= <-]. by rewrite trim_idem, E.
Qed.

Lemma positive_integer_nz z : (1 <= z)%Z -> positive_integer (JNum (nz z)) = Some z.
Proof.
  intros H. unfold positive_integer, nz. rewrite Qfloor_Z. rewrite (proj2 (Qeq_bool_iff _ _)) by reflexivity.
  by rewrite (proj2 (Z.leb_le 1 z) H).
Qed.

Lemma positive_integer_pos v z : positive_integer v = Some z -> (1 <= z)%Z.
Proof.
  destruct v as [| | | n | | |]; try discriminate. destruct n; try discriminate. cbn [positive_integer].
  destruct (_ && _) eqn:E; [| discriminate]. intros [= <-]. by apply andb_true_iff in E as [_ E%Z.leb_le].
Qed.

Lemma normalizeRepoFullName_trim s r : normalizeRepoFullName (JStr s) = Normal r -> r = trim s.
Proof.
  cbn [normalizeRepoFullName]. destruct (split_on "/" (trim s)) as [| owner [| repo [| ? ?]]] eqn:E; try discriminate.
  destruct (_ || _); [discriminate |]. destruct (_ || _); [discriminate |]. intros [= <-].
  pose proof (split_on_join "/" (trim s)) as J. rewrite E in J. exact J.
Qed.

Lemma repo_text_trim s : repo_text s -> trim s = s.
Proof. intros H. symmetry. by apply normalizeRepoFullName_trim. Qed.

(** A repository name has no colon. *)
Lemma repo_text_colon s : repo_text s -> str_forallb (fun c => negb (Ascii.eqb c ":")) s = true.
Proof.
  unfold repo_text. cbn [normalizeRepoFullName]. destruct (split_on "/" (trim s)) as [| owner [| repo [| ? ?]]]; try discriminate.
  destruct (_ || _); [discriminate |]. destruct (isValidRepoSegment owner) eqn:V1; [| discriminate].
  destruct (isValidRepoSegment repo) eqn:V2; [| discriminate]. cbn [negb orb]. intros [= <-].
  assert (G : forall seg, isValidRepoSegment seg = true -> str_forallb (fun c => negb (Ascii.eqb c ":")) seg = true).
  { intros seg V. unfold isValidRepoSegment in V. rewrite !andb_true_iff in V. destruct V as [[[_ V] _] _]. revert V.
    induction seg as [| c seg IH]; [done |]. cbn [str_forallb]. intros [Hc Hs]%andb_true_iff. rewrite IH, andb_true_r by done.
    revert Hc. destruct c as [[] [] [] [] [] [] [] []]; by vm_compute. }
  assert (A : forall p a b, str_forallb p (a ++ b) = str_forallb p a && str_forallb p b).
  { intros p a b. induction a as [| c a IH]; [done |]. rewrite string_app_cons. cbn [str_forallb]. by rewrite IH, andb_assoc. }
  rewrite A, (G owner V1). cbn [andb]. change ("/" ++ repo) with (String "/" repo). cbn [str_forallb]. by rewrite (G repo V2).
Qed.

Lemma repo_text_nonempty s : repo_text s -> s <> "".
Proof. by intros H ->. Qed.

Lemma host_text_trim s : host_text s -> trim s = s /\ s <> "".
Proof.
  unfold host_text. cbn. destruct (str_empty (trim s)) eqn:E; [discriminate |]. intros [= ET]. rewrite ET in E.
  split; [done | by apply str_empty_false].
Qed.

(** ** Tables *)

Lemma nodup_cons_inv {A} (x : A) l : NoDup (x :: l) -> x ∉ l /\ NoDup l.
Proof. intros H. split; [by apply NoDup_cons_1_1 in H | by apply NoDup_cons_1_2 in H]. Qed.

Section Table.
Context {Row Key : Type} `{EqDecision Key} (key : Row -> Key).

Definition find_key (k : Key) (rows : list Row) : option Row := List.find (fun r => bool_decide (key r = k)) rows.

(** [UPDATE ... WHERE key = k AND guard]. *)
Definition update_where (k : Key) (guard : Row -> bool) (f : Row -> Row) (rows : list Row) : list Row :=
  List.map (fun r => if bool_decide (key r = k) && guard r then f r else r) rows.

(** The row its [RETURNING *] yields. *)
Definition returning (k : Key) (guard : Row -> bool) (f : Row -> Row) (rows : list Row) : option Row :=
  f <$> List.find (fun r => bool_decide (key r = k) && guard r) rows.

(** [INSERT ... ON CONFLICT(key) DO UPDATE ... WHERE guard]. *)
Definition upsert (k : Key) (guard : Row -> bool) (f : Row -> Row) (new : Row) (rows : list Row) : list Row :=
  match find_key k rows with
  | Some _ => update_where k guard f rows
  | None => (rows ++ [new])%list
  end.

Lemma find_key_in k rows r : find_key k rows = Some r -> In r rows /\ key r = k.
Proof. intros [H1 H2]%List.find_some. by apply bool_decide_eq_true in H2. Qed.

Lemma find_key_none k rows : find_key k rows = None <-> ~ In k (List.map key rows).
Proof.
  unfold find_key. split.
  - intros H (r & <- & Hr)%List.in_map_iff. pose proof (List.find_none _ _ H r Hr) as X. simpl in X.
    by apply bool_decide_eq_false in X.
  - intros H. destruct (List.find _ rows) as [r |] eqn:E; [| done]. apply List.find_some in E as [E1 E2].
    apply bool_decide_eq_true in E2 as <-. by destruct H; apply List.in_map.
Qed.

Lemma find_key_unique rows r : NoDup (List.map key rows) -> In r rows -> find_key (key r) rows = Some r.
Proof.
  induction rows as [| a rows IH]; [done |]. cbn [List.map]. intros [Hn Hd]%nodup_cons_inv [-> | Hin]; unfold find_key; cbn [List.find].
  - by rewrite bool_decide_true.
  - rewrite bool_decide_false; [by apply IH |]. intros E. apply Hn, list_elem_of_In. rewrite E. by apply List.in_map.
Qed.

Lemma update_proj {B} (g : Row -> B) k guard f rows : (forall r, g (f r) = g r) ->
  List.map g (update_where k guard f rows) = List.map g rows.
Proof.
  intros Hf. unfold update_where. rewrite List.map_map. apply List.map_ext. intros r. by destruct (_ && _).
Qed.

Lemma update_keys k guard f rows : (forall r, key (f r) = key r) -> List.map key (update_where k guard f rows) = List.map key rows.
Proof. apply update_proj. Qed.

Lemma find_update k k' guard f rows : (forall r, key (f r) = key r) ->
  find_key k' (update_where k guard f rows)
  = if decide (k' = k) then (fun r => if guard r then f r else r) <$> find_key k rows else find_key k' rows.
Proof.
  intros Hf. unfold find_key, update_where. induction rows as [| a rows IH]; cbn [List.map List.find]; [by destruct (decide _) |].
  destruct (decide (key a = k)) as [E | E].
  - rewrite (bool_decide_true (key a = k)) by done. cbn [andb].
    assert (K : key (if guard a then f a else a) = key a) by (destruct (guard a); auto). rewrite K.
    destruct (decide (k' = k)) as [-> | N]; [by rewrite bool_decide_true |]. rewrite bool_decide_false by congruence. exact IH.
  - rewrite (bool_decide_false (key a = k)) by done. cbn [andb].
    destruct (decide (k' = k)) as [-> | N]; [rewrite bool_decide_false by done; exact IH |].
    destruct (bool_decide (key a = k')); [done | exact IH].
Qed.

Lemma find_app k rows r : find_key k (rows ++ [r])
  = match find_key k rows with Some x => Some x | None => if decide (key r = k) then Some r else None end.
Proof.
  unfold find_key. induction rows as [| a rows IH]; cbn [List.find List.app].
  - destruct (decide (key r = k)); [by rewrite bool_decide_true | by rewrite bool_decide_false].
  - by destruct (bool_decide (key a = k)).
Qed.

(** A guarded upsert as the reader of one key sees it. *)
Lemma find_upsert k k' guard f new rows : (forall r, key (f r) = key r) -> key new = k ->
  find_key k' (upsert k guard f new rows)
  = if decide (k' = k)
    then Some (match find_key k rows with Some r => if guard r then f r else r | None => new end)
    else find_key k' rows.
Proof.
  intros Hf Hk. unfold upsert. destruct (find_key k rows) as [r |] eqn:E.
  - rewrite find_update by done. rewrite E. by destruct (decide (k' = k)).
  - rewrite find_app. destruct (decide (k' = k)) as [-> | N]; [rewrite E, decide_True by done; done |].
    destruct (find_key k' rows); [done |]. rewrite decide_False; [done |]. congruence.
Qed.

Lemma upsert_keys k guard f new rows : (forall r, key (f r) = key r) -> key new = k -> NoDup (List.map key rows) ->
  NoDup (List.map key (upsert k guard f new rows)).
Proof.
  intros Hf Hk Hn. unfold upsert. destruct (find_key k rows) eqn:E; [by rewrite update_keys |].
  rewrite List.map_app. apply list.NoDup_app. split; [done |]. apply find_key_none in E. split; [| apply NoDup_singleton].
  intros x Hx Hy. apply list_elem_of_In in Hx, Hy. destruct Hy as [<- | []]. by rewrite Hk in *.
Qed.

Lemma upsert_in k guard f new rows r : In r (upsert k guard f new rows) -> In r rows \/ (exists r0, In r0 rows /\ r = f r0) \/ r = new.
Proof.
  unfold upsert. destruct (find_key k rows) as [found |].
  - intros (r0 & <- & H0)%List.in_map_iff. destruct (_ && _); eauto.
  - rewrite List.in_app_iff. intros [H | [-> | []]]; auto.
Qed.

Lemma update_in k guard f rows r : In r (update_where k guard f rows) -> In r rows \/ exists r0, In r0 rows /\ guard r0 = true /\ key r0 = k /\ r = f r0.
Proof.
  intros (r0 & <- & H0)%List.in_map_iff. destruct (bool_decide (key r0 = k) && guard r0) eqn:E; [right | by left].
  apply andb_true_iff in E as [E1%bool_decide_eq_true E2]. eauto.
Qed.

(** [returning] names the row that was updated. *)
Lemma returning_spec k guard f rows : NoDup (List.map key rows) ->
  returning k guard f rows = match find_key k rows with Some r => if guard r then Some (f r) else None | None => None end.
Proof.
  unfold returning, find_key. induction rows as [| a rows IH]; [done |]. cbn [List.map List.find]. intros [Hn Hd]%nodup_cons_inv.
  destruct (decide (key a = k)) as [E | E].
  - rewrite !(bool_decide_true (key a = k)) by done. cbn [andb]. destruct (guard a); [done |].
    destruct (List.find _ rows) as [r |] eqn:F; [| done]. apply List.find_some in F as [F1 F2].
    apply andb_true_iff in F2 as [F2%bool_decide_eq_true _]. destruct Hn. apply list_elem_of_In. rewrite E, <- F2. by apply List.in_map.
  - rewrite !(bool_decide_false (key a = k)) by done. by apply IH.
Qed.

(** Guarded updates of several keys, where an updated row no longer passes the
    guard. *)
Definition update_all (ks : list Key) (guard : Row -> bool) (f : Row -> Row) (rows : list Row) : list Row :=
  List.map (fun r => if bool_decide (key r ∈ ks) && guard r then f r else r) rows.

Lemma update_all_nil guard f rows : update_all [] guard f rows = rows.
Proof.
  unfold update_all. rewrite <- (List.map_id rows) at 2. apply List.map_ext. intros r.
  rewrite bool_decide_false; [done | apply not_elem_of_nil].
Qed.

Lemma update_all_cons k ks guard f rows : (forall r, key (f r) = key r) -> (forall r, guard (f r) = false) ->
  update_all ks guard f (update_where k guard f rows) = update_all (k :: ks) guard f rows.
Proof.
  intros Hk Hg. unfold update_all, update_where. rewrite List.map_map. apply List.map_ext. intros r.
  destruct (guard r) eqn:A; rewrite ?andb_false_r, ?andb_true_r; [| by rewrite A, !andb_false_r].
  destruct (decide (key r = k)) as [<- | N].
  - rewrite (bool_decide_true (key r = key r)) by done. rewrite (bool_decide_true (key r ∈ key r :: ks)) by set_solver.
    by rewrite Hg, andb_false_r.
  - rewrite (bool_decide_false (key r = k)) by done. rewrite A, andb_true_r.
    rewrite (bool_decide_ext (key r ∈ k :: ks) (key r ∈ ks)); [done |]. set_solver.
Qed.

(** A row another key's update does not touch. *)
Lemma update_other k guard f rows r : In r rows -> key r <> k -> In r (update_where k guard f rows).
Proof.
  intros Hr N. unfold update_where. apply List.in_map_iff. exists r. split; [| done]. by rewrite bool_decide_false.
Qed.

(** The rows [p] selects, named by their keys. *)
Lemma update_all_filter p guard f rows : NoDup (List.map key rows) -> (forall r, p r = true -> guard r = true) ->
  update_all (List.map key (List.filter p rows)) guard f rows = List.map (fun r => if p r then f r else r) rows.
Proof.
  intros Hn Hp. unfold update_all. apply List.map_ext_in. intros r Hr. destruct (p r) eqn:E.
  - rewrite (Hp r E), bool_decide_true; [done |]. apply list_elem_of_In, List.in_map. by apply List.filter_In.
  - destruct (bool_decide _) eqn:B; [| done]. apply bool_decide_eq_true, list_elem_of_In, List.in_map_iff in B as (d & Ed & [Hd1 Hd2]%List.filter_In).
    pose proof (find_key_unique _ _ Hn Hd1) as F1. rewrite Ed, (find_key_unique _ _ Hn Hr) in F1. injection F1 as ->. congruence.
Qed.

(** Filtering keeps keys apart. *)
Lemma filter_rows_keys {B} (g : Row -> B) p rows : NoDup (List.map g rows) -> NoDup (List.map g (List.filter p rows)).
Proof.
  induction rows as [| a rows IH]; [done |]. cbn [List.map List.filter]. intros [Hn Hd]%nodup_cons_inv.
  destruct (p a); [| by apply IH]. cbn [List.map]. apply list.NoDup_cons. split; [| by apply IH].
  intros (d & Ed & [Hd1 _]%List.filter_In)%list_elem_of_In%List.in_map_iff. apply Hn, list_elem_of_In. rewrite <- Ed. by apply List.in_map.
Qed.

(** Counting. *)
Definition count (p : Row -> bool) (rows : list Row) : nat := List.length (List.filter p rows).

Lemma count_map_le p g rows : (forall r, In r rows -> p (g r) = true -> p r = true) -> count p (List.map g rows) <= count p rows.
Proof.
  unfold count. induction rows as [| a rows IH]; intros H; [done |]. cbn [List.map List.filter].
  specialize (IH (fun r Hr => H r (or_intror Hr))). specialize (H a (or_introl eq_refl)).
  destruct (p (g a)), (p a); simpl; lia || discriminate (H eq_refl).
Qed.

Lemma row_count_app p l1 l2 : count p (l1 ++ l2) = count p l1 + count p l2.
Proof. unfold count. by rewrite List.filter_app, List.length_app. Qed.

Lemma count_update_le k guard f rows p : NoDup (List.map key rows) -> count p (update_where k guard f rows) <= count p rows + 1.
Proof.
  unfold count, update_where. induction rows as [| a rows IH]; [simpl; lia |]. cbn [List.map List.filter]. intros [Hn Hd]%nodup_cons_inv.
  specialize (IH Hd). destruct (decide (key a = k)) as [E | E].
  - assert (R : List.map (fun r => if bool_decide (key r = k) && guard r then f r else r) rows = rows).
    { rewrite <- (List.map_id rows) at 2. apply List.map_ext_in. intros r Hr. rewrite bool_decide_false; [done |].
      intros E'. apply Hn, list_elem_of_In. rewrite E, <- E'. by apply List.in_map. }
    rewrite R. destruct (p (if bool_decide (key a = k) && guard a then f a else a)), (p a); simpl; lia.
  - rewrite (bool_decide_false (key a = k)) by done. cbn [andb]. destruct (p a); simpl; lia.
Qed.

Lemma count_upsert_le k guard f new rows p : NoDup (List.map key rows) -> count p (upsert k guard f new rows) <= count p rows + 1.
Proof.
  intros Hn. unfold upsert. destruct (find_key k rows); [by apply count_update_le |]. rewrite row_count_app. unfold count at 2.
  cbn [List.filter]. destruct (p new); simpl; lia.
Qed.
End Table.

(** ** A concrete clock, for the examples *)

Fixpoint toy_digits (p : positive) : string :=
  match p with
  | xH => ""
  | xO p' => String "0" (toy_digits p')
  | xI p' => String "1" (toy_digits p')
  end.

Fixpoint toy_read (s : string) : positive :=
  match s with
  | "" => xH
  | String c s' => if Ascii.eqb c "1" then xI (toy_read s') else xO (toy_read s')
  end.

Definition toy_iso (z : Z) : string := match z with Z0 => "z" | Zpos p => String "p" (toy_digits p) | Zneg _ => "n" end.
Definition toy_parse (s : string) : num :=
  match s with
  | "z" => nz 0
  | String "p" s' => nz (Zpos (toy_read s'))
  | _ => NaN
  end.

Lemma toy_read_digits p : toy_read (toy_digits p) = p.
Proof. induction p as [p IH | p IH |]; cbn; by rewrite ?IH. Qed.

Definition toy_clock : IsoClock.
Proof.
  refine {| iso := toy_iso; Date_parse := toy_parse |}; [by intros [] |].
  intros [| p | p] H; [done | | lia]. cbn. by rewrite toy_read_digits.
Defined.
