(* ===== verification/ClaimLedger.v ===== *)
(** * The miner's claim ledger

    Models [packages/loopover-miner/lib/claim-ledger.ts] and
    [claim-ledger-expiry.ts]: the local table of issues this machine is working
    on, with its claim, release, expiry, listing and purge, and the claim under
    a cap that counts and inserts in one transaction.

    The table is the list of its rows in the order of their ids.  Sibling
    processes share the file; [ledger_step] is one call of one of them, and a
    history is any sequence of such calls.  Opening the file and its schema
    migrations are not modelled; [tenant_id], which nothing reads, is left out.

    Main results: every call keeps one row per issue and host, of normalized
    values ([ledger_calls_wf]); a sweep expires exactly the active claims that
    are too old or whose time is unreadable ([sweep_exact]); the capped claim is
    described on every branch ([claim_within_cap_exact]), and however the calls
    of racing processes interleave, capped claims never bring a repository above
    its cap ([cap_never_exceeded]); a claim stranded by a dead process can be
    taken over after fourteen days ([stranded_claim_recovers]).  The cap counts
    rows, and a second claim of an active issue succeeds without one, so
    it does not bound the attempts at work ([same_issue_claims_uncapped]). *)

From Stdlib Require Import QArith ZArith Lia.
From stdpp Require Import base list strings option sets sorting.
From S2P Require Import Prelude JsNumber JsString Ledger LocalStore.

Local Open Scope nat_scope.
Local Open Scope string_scope.
Local Open Scope js_scope.

(** ** Data *)

Inductive ClaimStatus := active | released | expired.

#[global] Instance ClaimStatus_eq_dec : EqDecision ClaimStatus.
Proof. solve_decision. Defined.

#[global] Instance ClaimStatus_vocabulary : Vocabulary ClaimStatus.
Proof. vocabulary_by (fun s => match s with active => "active" | released => "released" | expired => "expired" end) [active; released; expired]. Defined.

Record ClaimEntry := mkClaim {
  ce_id : Z;
  ce_apiBaseUrl : string;
  ce_repoFullName : string;
  ce_issueNumber : Z;
  ce_claimedAt : string;
  ce_status : ClaimStatus;
  ce_note : option string;
}.

(** The table and the largest id it ever held ([AUTOINCREMENT]). *)
Record ClaimDb := mkClaimDb { cd_rows : list ClaimEntry; cd_seq : Z }.

Definition claim_key (c : ClaimEntry) : string * string * Z := (ce_apiBaseUrl c, ce_repoFullName c, ce_issueNumber c).

Record RecordClaimInput := mkClaimInput {
  ri_repoFullName : jsval;
  ri_issueNumber : jsval;
  ri_note : jsval;
  ri_apiBaseUrl : jsval;
}.

Inductive ClaimWithinCapResult :=
| claimed_result (claim : ClaimEntry) (activeClaimCount maxConcurrentClaims : Z)
| cap_rejected (activeClaimCount maxConcurrentClaims : Z).

Definition is_active (c : ClaimEntry) : bool := bool_decide (ce_status c = active).

Definition with_claim_status (st : ClaimStatus) (c : ClaimEntry) : ClaimEntry :=
  mkClaim (ce_id c) (ce_apiBaseUrl c) (ce_repoFullName c) (ce_issueNumber c) (ce_claimedAt c) st (ce_note c).

(** [SET claimed_at = excluded.claimed_at, note = excluded.note, status = 'active']. *)
Definition reactivate (claimedAt : string) (note : option string) (c : ClaimEntry) : ClaimEntry :=
  mkClaim (ce_id c) (ce_apiBaseUrl c) (ce_repoFullName c) (ce_issueNumber c) claimedAt active note.

Definition set_rows (db : ClaimDb) (rows : list ClaimEntry) : ClaimDb := mkClaimDb rows (cd_seq db).

(** ** Input normalizers *)

Definition normalizeIssueNumber (issueNumber : jsval) : completion Z :=
  match positive_integer issueNumber with Some n => Normal n | None => Thrown "invalid_issue_number" end.

Definition normalizeMaxConcurrentClaims (maxConcurrentClaims : jsval) : completion Z :=
  match positive_integer maxConcurrentClaims with Some n => Normal n | None => Thrown "invalid_max_concurrent_claims" end.

Definition normalizeNote (note : jsval) : completion (option string) :=
  match note with
  | JUndefined | JNull => Normal None
  | JStr s => Normal (Some s)
  | _ => Thrown "invalid_note"
  end.

Definition normalizeListRepoFilter (repoFullName : jsval) : completion (option string) :=
  match repoFullName with
  | JUndefined | JNull => Normal None
  | v => r <- normalizeRepoFullName v ;; Normal (Some r)
  end.

Definition normalizeStatusFilter (status : jsval) : completion (option ClaimStatus) :=
  match status with
  | JUndefined | JNull => Normal None
  | JStr s => match of_word s with Some st => Normal (Some st) | None => Thrown "invalid_status" end
  | _ => Thrown "invalid_status"
  end.

(** ** Statements *)

Definition record_statement (api repo : string) (issue : Z) (claimedAt : string) (note : option string) (db : ClaimDb) : ClaimDb :=
  let k := (api, repo, issue) in
  let new := mkClaim (cd_seq db + 1) api repo issue claimedAt active note in
  mkClaimDb (upsert claim_key k (fun c => negb (is_active c)) (reactivate claimedAt note) new (cd_rows db))
    (match find_key claim_key k (cd_rows db) with Some _ => cd_seq db | None => cd_seq db + 1 end)%Z.

(** [UPDATE ... SET status = st WHERE key AND status = 'active' RETURNING *]. *)
Definition end_statement (st : ClaimStatus) (api repo : string) (issue : Z) : call ClaimDb (option ClaimEntry) :=
  fun db => let k := (api, repo, issue) in
            (set_rows db (update_where claim_key k is_active (with_claim_status st) (cd_rows db)),
             Normal (returning claim_key k is_active (with_claim_status st) (cd_rows db))).

Definition count_active_repo (repo : string) (db : ClaimDb) : nat :=
  count (fun c => String.eqb (ce_repoFullName c) repo && is_active c) (cd_rows db).

(** ** Operations *)

Section Ops.
Context `{IsoClock}.

Definition recordClaim (now : Z) (input : RecordClaimInput) : call ClaimDb ClaimEntry :=
  apiBaseUrl <~ lift (normalizeApiBaseUrl (ri_apiBaseUrl input)) ;;
  repoFullName <~ lift (normalizeRepoFullName (ri_repoFullName input)) ;;
  issueNumber <~ lift (normalizeIssueNumber (ri_issueNumber input)) ;;
  note <~ lift (normalizeNote (ri_note input)) ;;
  fun db =>
    let db' := record_statement apiBaseUrl repoFullName issueNumber (iso now) note db in
    match find_key claim_key (apiBaseUrl, repoFullName, issueNumber) (cd_rows db') with
    | Some row => (db', Normal row)
    | None => (db', Thrown "TypeError")
    end.

Definition end_claim (st : ClaimStatus) (repoFullName issueNumber apiBaseUrl : jsval) : call ClaimDb (option ClaimEntry) :=
  normalizedForge <~ lift (normalizeApiBaseUrl apiBaseUrl) ;;
  normalizedRepo <~ lift (normalizeRepoFullName repoFullName) ;;
  normalizedIssue <~ lift (normalizeIssueNumber issueNumber) ;;
  end_statement st normalizedForge normalizedRepo normalizedIssue.

Definition releaseClaim := end_claim released.
Definition expireClaim := end_claim expired.

Definition listClaims (repoFullName status : jsval) : call ClaimDb (list ClaimEntry) :=
  repo <~ lift (normalizeListRepoFilter repoFullName) ;;
  st <~ lift (normalizeStatusFilter status) ;;
  fun db => (db, Normal (List.filter (fun c =>
    match repo with Some r => String.eqb (ce_repoFullName c) r | None => true end
    && match st with Some s => bool_decide (ce_status c = s) | None => true end) (cd_rows db))).

Definition listActiveClaims (repoFullName : jsval) : call ClaimDb (list ClaimEntry) := listClaims repoFullName (JStr "active").

(** *** Expiry *)

Definition DEFAULT_MAX_CLAIM_AGE_MS : Z := 14 * 24 * 60 * 60 * 1000.

Definition claimAgeMs (claim : ClaimEntry) (nowMs : num) : option num :=
  let claimedAtMs := Date_parse (ce_claimedAt claim) in
  if is_finite claimedAtMs then Some (nsub nowMs claimedAtMs) else None.

Definition claim_due (nowMs maxAgeMs : num) (claim : ClaimEntry) : bool :=
  match claimAgeMs claim nowMs with None => true | Some ageMs => ngtb ageMs maxAgeMs end.

Definition findExpiredClaims (claims : list ClaimEntry) (nowMs maxAgeMs : num) : completion (list ClaimEntry) :=
  if negb (is_finite nowMs) || nltb nowMs (nz 0) then Thrown "invalid_now_ms"
  else if negb (is_finite maxAgeMs) || nltb maxAgeMs (nz 0) then Thrown "invalid_max_age_ms"
  else Normal (List.filter (fun claim => is_active claim && claim_due nowMs maxAgeMs claim) claims).

Definition sweepExpiredClaims (nowMs maxAgeMs : num) : call ClaimDb (list ClaimEntry) :=
  activeClaims <~ listClaims JUndefined (JStr "active") ;;
  due <~ lift (findExpiredClaims activeClaims nowMs maxAgeMs) ;;
  collect (fun claim => expireClaim (JStr (ce_repoFullName claim)) (JNum (nz (ce_issueNumber claim))) (JStr (ce_apiBaseUrl claim))) due.

Definition reclaimExpiredClaims (now : Z) (maxAgeMs : option num) : call ClaimDb (list ClaimEntry) :=
  sweepExpiredClaims (nz now) (maxAgeMs ?? nz DEFAULT_MAX_CLAIM_AGE_MS).

(** [Date.now()] for the sweep and [new Date()] for the claim are read at
    [sweepNow] and [now]. *)
Definition claimIssue (sweepNow now : Z) (repoFullName issueNumber note apiBaseUrl : jsval) : call ClaimDb ClaimEntry :=
  _ <~ sweepExpiredClaims (nz sweepNow) (nz DEFAULT_MAX_CLAIM_AGE_MS) ;;
  recordClaim now (mkClaimInput repoFullName issueNumber note apiBaseUrl).

Definition claimIssueWithinCap (sweepNow now : Z) (repoFullName issueNumber note apiBaseUrl maxConcurrentClaims : jsval)
    : call ClaimDb ClaimWithinCapResult :=
  cap <~ lift (normalizeMaxConcurrentClaims maxConcurrentClaims) ;;
  normalizedRepo <~ lift (normalizeRepoFullName repoFullName) ;;
  transaction (
    _ <~ sweepExpiredClaims (nz sweepNow) (nz DEFAULT_MAX_CLAIM_AGE_MS) ;;
    activeClaimCount <~ (fun db => (db, Normal (Z.of_nat (count_active_repo normalizedRepo db)))) ;;
    if (cap <=? activeClaimCount)%Z then ret (cap_rejected activeClaimCount cap)
    else claim <~ recordClaim now (mkClaimInput repoFullName issueNumber note apiBaseUrl) ;;
         ret (claimed_result claim activeClaimCount cap)).

(** [DELETE FROM miner_claims WHERE repo_full_name = ?], the number of rows. *)
Definition purgeByRepo (repoFullName : jsval) : call ClaimDb Z :=
  repo <~ lift (normalizeRepoFullName repoFullName) ;;
  fun db => (set_rows db (List.filter (fun c => negb (String.eqb (ce_repoFullName c) repo)) (cd_rows db)),
             Normal (Z.of_nat (count (fun c => String.eqb (ce_repoFullName c) repo) (cd_rows db)))).
End Ops.

(** ** Well-formed ledgers *)

Record claim_ok (c : ClaimEntry) : Prop := mkClaimOk {
  ok_host : host_text (ce_apiBaseUrl c);
  ok_repo : repo_text (ce_repoFullName c);
  ok_issue : (1 <= ce_issueNumber c)%Z;
}.

Record ledger_wf (db : ClaimDb) : Prop := mkLedgerWf {
  lw_keys : NoDup (List.map claim_key (cd_rows db));
  lw_rows : forall c, In c (cd_rows db) -> claim_ok c;
  lw_ids : forall c, In c (cd_rows db) -> (ce_id c <= cd_seq db)%Z;
  lw_order : StronglySorted Z.lt (List.map ce_id (cd_rows db));
}.

Lemma status_key st c : claim_key (with_claim_status st c) = claim_key c.
Proof. done. Qed.

Lemma reactivate_key t n c : claim_key (reactivate t n c) = claim_key c.
Proof. done. Qed.

(** A row changed in place: same key and id. *)
Definition same_row (c d : ClaimEntry) : Prop := claim_key c = claim_key d /\ ce_id c = ce_id d.

Lemma same_row_ok c d : same_row c d -> claim_ok c -> claim_ok d.
Proof. intros [[= E1 E2 E3] _] [H1 H2 H3]. split; by rewrite <- ?E1, <- ?E2, <- ?E3. Qed.

(** Changing rows in place keeps the ledger well formed. *)
Lemma wf_in_place db rows : ledger_wf db -> Forall2 same_row (cd_rows db) rows -> ledger_wf (set_rows db rows).
Proof.
  intros [Hk Hr Hi Ho] F. unfold set_rows.
  assert (K : List.map claim_key rows = List.map claim_key (cd_rows db) /\ List.map ce_id rows = List.map ce_id (cd_rows db)).
  { clear Hk Hr Hi Ho. induction F as [| c d cs ds [E1 E2] F [IH1 IH2]]; [done |]. cbn [List.map]. by rewrite E1, E2, IH1, IH2. }
  assert (I : forall d, In d rows -> exists c, In c (cd_rows db) /\ same_row c d).
  { clear Hk Hr Hi Ho K. induction F as [| c d cs ds E F IH]; intros d'; [done |]. intros [<- | Hd]; [exists c; by split; [left |] |].
    destruct (IH d' Hd) as (c' & Hc & E'). exists c'. by split; [right |]. }
  destruct K as [K1 K2]. split; cbn [cd_rows cd_seq]; [by rewrite K1 | | | by rewrite K2].
  - intros d Hd. destruct (I d Hd) as (c & Hc & E). by apply (same_row_ok c), Hr.
  - intros d Hd. destruct (I d Hd) as (c & Hc & [_ <-]). by apply Hi.
Qed.

Lemma map_same_row (f : ClaimEntry -> ClaimEntry) rows : (forall c, same_row c (f c)) -> Forall2 same_row rows (List.map f rows).
Proof. intros H. induction rows as [| c rows IH]; constructor; auto. Qed.

Lemma update_same_row k guard (f : ClaimEntry -> ClaimEntry) rows : (forall c, same_row c (f c)) ->
  Forall2 same_row rows (update_where claim_key k guard f rows).
Proof. intros H. apply map_same_row. intros c. by destruct (_ && _). Qed.

Lemma record_wf api repo issue at_ note db : host_text api -> repo_text repo -> (1 <= issue)%Z ->
  ledger_wf db -> ledger_wf (record_statement api repo issue at_ note db).
Proof.
  intros H1 H2 H3 W. unfold record_statement, upsert.
  destruct (find_key claim_key (api, repo, issue) (cd_rows db)) as [c |] eqn:E.
  - by apply wf_in_place, update_same_row.
  - destruct W as [Hk Hr Hi Ho]. set (new := mkClaim _ _ _ _ _ _ _).
    split; cbn [cd_rows cd_seq].
    + pose proof (upsert_keys claim_key (api, repo, issue) (fun c => negb (is_active c)) (reactivate at_ note) new (cd_rows db)) as U.
      unfold upsert in U. rewrite E in U. by apply U.
    + intros c [Hc | [<- | []]]%List.in_app_iff; [by apply Hr | by split].
    + intros c [Hc | [<- | []]]%List.in_app_iff; [apply Hi in Hc; lia | cbn; lia].
    + rewrite List.map_app. apply StronglySorted_app. split; [| split; [done | repeat constructor]]. intros i j Hi' Hj.
      apply list_elem_of_In in Hj as [<- | []]. apply list_elem_of_In, List.in_map_iff in Hi' as (c & <- & Hc). apply Hi in Hc. cbn. lia.
Qed.

(** ** The sweep *)

Lemma end_claim_row st c db : claim_ok c ->
  end_claim st (JStr (ce_repoFullName c)) (JNum (nz (ce_issueNumber c))) (JStr (ce_apiBaseUrl c)) db
  = end_statement st (ce_apiBaseUrl c) (ce_repoFullName c) (ce_issueNumber c) db.
Proof.
  intros [H1 H2 H3]. unfold end_claim, normalizeIssueNumber, bind, lift. rewrite H1, H2, positive_integer_nz by done. reflexivity.
Qed.

Lemma collect_expire xs : forall db, NoDup (List.map claim_key (cd_rows db)) -> NoDup (List.map claim_key xs) ->
  (forall x, In x xs -> claim_ok x /\ is_active x = true /\ In x (cd_rows db)) ->
  collect (fun c => expireClaim (JStr (ce_repoFullName c)) (JNum (nz (ce_issueNumber c))) (JStr (ce_apiBaseUrl c))) xs db
  = (set_rows db (update_all claim_key (List.map claim_key xs) is_active (with_claim_status expired) (cd_rows db)), Normal (List.map (with_claim_status expired) xs)).
Proof.
  induction xs as [| x xs IH]; intros db Hk Hx Hin.
  - cbn [collect List.map]. rewrite update_all_nil. by destruct db.
  - destruct (Hin x (or_introl eq_refl)) as (Hok & Hact & Hrow). cbn [collect List.map]. unfold bind at 1.
    unfold expireClaim at 1. rewrite end_claim_row by done. unfold end_statement.
    fold (claim_key x). rewrite returning_spec, find_key_unique, Hact by done.
    unfold bind at 1. cbn [List.map] in Hx. apply nodup_cons_inv in Hx as [Hn Hx]. rewrite IH; cbn [cd_rows set_rows].
    + cbn [ret]. unfold ret. f_equal. unfold set_rows. cbn [cd_seq]. by rewrite update_all_cons.
    + by rewrite update_keys.
    + done.
    + intros y Hy. destruct (Hin y (or_intror Hy)) as (H1 & H2 & H3). split; [done |]. split; [done |].
      apply update_other; [done |]. intros E. apply Hn, list_elem_of_In. rewrite <- E. by apply List.in_map.
Qed.

Section Sweep.
Context `{IsoClock}.

(** A claim the sweep at [nowMs] ends. *)
Definition stale (nowMs maxAgeMs : num) (c : ClaimEntry) : bool := is_active c && claim_due nowMs maxAgeMs c.

Definition swept (nowMs maxAgeMs : num) (db : ClaimDb) : ClaimDb :=
  set_rows db (List.map (fun c => if stale nowMs maxAgeMs c then with_claim_status expired c else c) (cd_rows db)).

Definition sane (x : num) : bool := is_finite x && negb (nltb x (nz 0)).

Lemma sweep_runs nowMs maxAgeMs db : ledger_wf db -> sane nowMs = true -> sane maxAgeMs = true ->
  sweepExpiredClaims nowMs maxAgeMs db
  = (swept nowMs maxAgeMs db, Normal (List.map (with_claim_status expired) (List.filter (stale nowMs maxAgeMs) (cd_rows db)))).
Proof.
  intros W [S1 S2%negb_true_iff]%andb_true_iff [S3 S4%negb_true_iff]%andb_true_iff.
  unfold sweepExpiredClaims, listClaims, findExpiredClaims, bind, lift, normalizeListRepoFilter, normalizeStatusFilter.
  change (of_word "active") with (Some active). rewrite S1, S2, S3, S4. cbn [negb orb].
  assert (F : List.filter (fun c => is_active c && claim_due nowMs maxAgeMs c)
                (List.filter (fun c => true && bool_decide (ce_status c = active)) (cd_rows db))
              = List.filter (stale nowMs maxAgeMs) (cd_rows db)).
  { induction (cd_rows db) as [| c rows IH]; [done |]. unfold stale, is_active in *. cbn [List.filter andb] in *.
    destruct (bool_decide (ce_status c = active)) eqn:A; cbn [List.filter andb]; [rewrite A; cbn [andb]; by rewrite IH | exact IH]. }
  rewrite F. set (due := List.filter (stale nowMs maxAgeMs) (cd_rows db)).
  assert (D : forall x, In x due -> claim_ok x /\ is_active x = true /\ In x (cd_rows db)).
  { intros x [Hx Hs]%List.filter_In. unfold stale in Hs. apply andb_true_iff in Hs as [Hs _]. split; [by apply (lw_rows db W) | done]. }
  rewrite collect_expire; [| apply (lw_keys db W) | | done].
  - unfold due, swept. rewrite update_all_filter; [done | apply (lw_keys db W) |]. unfold stale. by intros c [Hc _]%andb_true_iff.
  - apply filter_rows_keys, (lw_keys db W).
Qed.

Lemma swept_wf nowMs maxAgeMs db : ledger_wf db -> ledger_wf (swept nowMs maxAgeMs db).
Proof. intros W. apply wf_in_place; [done |]. apply map_same_row. intros c. by destruct (stale _ _ _). Qed.
End Sweep.

(** ** What each call does *)

Section Calls.
Context `{IsoClock}.

(** A claim's inputs, normalized in the source's order. *)
Definition normalize_claim (input : RecordClaimInput) : completion (string * string * Z * option string) :=
  api <- normalizeApiBaseUrl (ri_apiBaseUrl input) ;;
  repo <- normalizeRepoFullName (ri_repoFullName input) ;;
  issue <- normalizeIssueNumber (ri_issueNumber input) ;;
  note <- normalizeNote (ri_note input) ;;
  Normal (api, repo, issue, note).

(** The row a claim returns: the one already active, the old one made active
    again, or a new one. *)
Definition claim_row (api repo : string) (issue : Z) (at_ : string) (note : option string) (db : ClaimDb) : ClaimEntry :=
  match find_key claim_key (api, repo, issue) (cd_rows db) with
  | Some c => if is_active c then c else reactivate at_ note c
  | None => mkClaim (cd_seq db + 1) api repo issue at_ active note
  end.

Lemma find_record api repo issue at_ note db k :
  find_key claim_key k (cd_rows (record_statement api repo issue at_ note db))
  = if decide (k = (api, repo, issue)) then Some (claim_row api repo issue at_ note db) else find_key claim_key k (cd_rows db).
Proof.
  unfold record_statement. cbn [cd_rows]. rewrite find_upsert by done. destruct (decide _) as [-> | _]; [| done].
  unfold claim_row. destruct (find_key _ _ _) as [c |]; [| done]. by destruct (is_active c).
Qed.

Lemma recordClaim_cases now input db :
  recordClaim now input db
  = match normalize_claim input with
    | Thrown m => (db, Thrown m)
    | Normal (api, repo, issue, note) =>
        (record_statement api repo issue (iso now) note db, Normal (claim_row api repo issue (iso now) note db))
    end.
Proof.
  unfold recordClaim, normalize_claim, bind, lift, cbind.
  destruct (normalizeApiBaseUrl _) as [api |]; [| done]. destruct (normalizeRepoFullName _) as [repo |]; [| done].
  destruct (normalizeIssueNumber _) as [issue |]; [| done]. destruct (normalizeNote _) as [note |]; [| done].
  by rewrite find_record, decide_True by done.
Qed.

Lemma normalize_claim_ok input api repo issue note : normalize_claim input = Normal (api, repo, issue, note) ->
  host_text api /\ repo_text repo /\ (1 <= issue)%Z /\ normalizeRepoFullName (ri_repoFullName input) = Normal repo.
Proof.
  unfold normalize_claim, normalizeIssueNumber. intros (a & Ha & H1)%cbind_normal.
  apply cbind_normal in H1 as (r & Hr & H1). apply cbind_normal in H1 as (i & Hi & H1). apply cbind_normal in H1 as (n & Hn & H1).
  injection H1 as -> -> -> ->. destruct (positive_integer _) as [z |] eqn:E; [| discriminate]. injection Hi as ->.
  split_and!; eauto using normalizeApiBaseUrl_text, normalizeRepoFullName_text, positive_integer_pos.
Qed.

(** A sweep runs, or refuses its times and changes nothing. *)
Lemma sweep_cases nowMs maxAgeMs db : ledger_wf db ->
  (exists out, sweepExpiredClaims nowMs maxAgeMs db = (swept nowMs maxAgeMs db, Normal out))
  \/ (exists m, sweepExpiredClaims nowMs maxAgeMs db = (db, Thrown m)).
Proof.
  intros W. destruct (sane nowMs) eqn:S1; [destruct (sane maxAgeMs) eqn:S2 |].
  - left. eexists. by apply sweep_runs.
  - right. unfold sweepExpiredClaims, listClaims, findExpiredClaims, bind, lift, normalizeListRepoFilter, normalizeStatusFilter.
    change (of_word "active") with (Some active). destruct (_ || _); [by eexists |].
    unfold sane in S2. apply andb_false_iff in S2. rewrite <- negb_true_iff, negb_false_iff in S2.
    rewrite (proj2 (orb_true_iff _ _) S2). by eexists.
  - right. unfold sweepExpiredClaims, listClaims, findExpiredClaims, bind, lift, normalizeListRepoFilter, normalizeStatusFilter.
    change (of_word "active") with (Some active). unfold sane in S1. apply andb_false_iff in S1.
    rewrite <- negb_true_iff, negb_false_iff in S1. rewrite (proj2 (orb_true_iff _ _) S1). by eexists.
Qed.

(** A capped claim on every branch. *)
Definition capped_outcome (sweepNow now : Z) (input : RecordClaimInput) (repo : string) (cap : Z) (db : ClaimDb)
    : ClaimDb * completion ClaimWithinCapResult :=
  let db1 := swept (nz sweepNow) (nz DEFAULT_MAX_CLAIM_AGE_MS) db in
  let n := Z.of_nat (count_active_repo repo db1) in
  if (cap <=? n)%Z then (db1, Normal (cap_rejected n cap))
  else match normalize_claim input with
       | Thrown m => (db, Thrown m)
       | Normal (api, repo', issue, note) =>
           (record_statement api repo' issue (iso now) note db1,
            Normal (claimed_result (claim_row api repo' issue (iso now) note db1) n cap))
       end.

Lemma sane_age : sane (nz DEFAULT_MAX_CLAIM_AGE_MS) = true.
Proof. reflexivity. Qed.

Lemma sane_nz z : (0 <= z)%Z -> sane (nz z) = true.
Proof. intros Hz. unfold sane. rewrite nz_finite, nz_ltb. apply negb_true_iff, Z.ltb_ge, Hz. Qed.

Lemma capped_claim_runs sweepNow now input capv repo cap db : ledger_wf db -> (0 <= sweepNow)%Z ->
  normalizeMaxConcurrentClaims capv = Normal cap -> normalizeRepoFullName (ri_repoFullName input) = Normal repo ->
  claimIssueWithinCap sweepNow now (ri_repoFullName input) (ri_issueNumber input) (ri_note input) (ri_apiBaseUrl input) capv db
  = capped_outcome sweepNow now input repo cap db.
Proof.
  intros W Ht Hc Hr. unfold claimIssueWithinCap, transaction, bind, lift. rewrite Hc, Hr, sweep_runs by eauto using sane_nz, sane_age.
  unfold capped_outcome. destruct (cap <=? _)%Z; [done |].
  replace (mkClaimInput _ _ _ _) with input by (by destruct input). rewrite recordClaim_cases.
  by destruct (normalize_claim input) as [[[[? ?] ?] ?] |].
Qed.
End Calls.

(** A capped claim sweeps first, then counts the active claims of the
    repository under every host.  At the cap it rejects and keeps what the sweep
    expired; below it the claim is recorded, unless an input is malformed, when
    the whole call is undone, the sweep included. *)
Theorem claim_within_cap_exact `{IsoClock} sweepNow now input capv repo cap db : ledger_wf db -> (0 <= sweepNow)%Z ->
  normalizeMaxConcurrentClaims capv = Normal cap -> normalizeRepoFullName (ri_repoFullName input) = Normal repo ->
  let out := claimIssueWithinCap sweepNow now (ri_repoFullName input) (ri_issueNumber input) (ri_note input) (ri_apiBaseUrl input) capv db in
  let db1 := fst (sweepExpiredClaims (nz sweepNow) (nz DEFAULT_MAX_CLAIM_AGE_MS) db) in
  let n := Z.of_nat (count_active_repo repo db1) in
  ((cap <= n)%Z -> out = (db1, Normal (cap_rejected n cap)))
  /\ (forall m, (n < cap)%Z -> normalize_claim input = Thrown m -> out = (db, Thrown m))
  /\ (forall api repo' issue note, (n < cap)%Z -> normalize_claim input = Normal (api, repo', issue, note) ->
       exists row, out = (record_statement api repo issue (iso now) note db1, Normal (claimed_result row n cap))
         /\ find_key claim_key (api, repo, issue) (cd_rows (fst out)) = Some row /\ ce_status row = active).
Proof.
  intros W Ht Hc Hr. cbv zeta. rewrite (capped_claim_runs _ _ _ _ _ _ _ W Ht Hc Hr), sweep_runs by eauto using sane_nz, sane_age.
  cbn [fst]. unfold capped_outcome. split_and!.
  - intros L%Z.leb_le. by rewrite L.
  - intros m L%Z.leb_gt E. by rewrite L, E.
  - intros api repo' issue note L%Z.leb_gt E. rewrite L, E. destruct (normalize_claim_ok _ _ _ _ _ E) as (_ & _ & _ & E').
    rewrite Hr in E'. injection E' as <-. eexists. split; [reflexivity |]. cbn [fst]. rewrite find_record, decide_True by done.
    split; [done |]. unfold claim_row. destruct (find_key _ _ _) as [c |]; [| done]. destruct (is_active c) eqn:A; [| done].
    by apply bool_decide_eq_true in A.
Qed.

(** ** Histories

    Calls of the processes that share the file, in the order the database
    serialises them.  A sweep outside a transaction is a listing and a sequence
    of [expireClaim] calls, so its interleavings are histories too. *)

Inductive ledger_call :=
| do_claim_capped (sweepNow now : Z) (input : RecordClaimInput) (maxConcurrentClaims : jsval)
| do_claim (sweepNow now : Z) (input : RecordClaimInput)
| do_record (now : Z) (input : RecordClaimInput)
| do_release (repoFullName issueNumber apiBaseUrl : jsval)
| do_expire (repoFullName issueNumber apiBaseUrl : jsval)
| do_sweep (nowMs maxAgeMs : num)
| do_purge (repoFullName : jsval).

Section Histories.
Context `{IsoClock}.

Definition run_call (db : ClaimDb) (c : ledger_call) : ClaimDb :=
  match c with
  | do_claim_capped sweepNow now i cap =>
      fst (claimIssueWithinCap sweepNow now (ri_repoFullName i) (ri_issueNumber i) (ri_note i) (ri_apiBaseUrl i) cap db)
  | do_claim sweepNow now i => fst (claimIssue sweepNow now (ri_repoFullName i) (ri_issueNumber i) (ri_note i) (ri_apiBaseUrl i) db)
  | do_record now i => fst (recordClaim now i db)
  | do_release repo issue api => fst (releaseClaim repo issue api db)
  | do_expire repo issue api => fst (expireClaim repo issue api db)
  | do_sweep nowMs maxAgeMs => fst (sweepExpiredClaims nowMs maxAgeMs db)
  | do_purge repo => fst (purgeByRepo repo db)
  end.

Definition run_ledger (db : ClaimDb) (cs : list ledger_call) : ClaimDb := List.fold_left run_call cs db.

Lemma end_claim_fst st repo issue api db :
  fst (end_claim st repo issue api db) = db
  \/ exists k, fst (end_claim st repo issue api db) = set_rows db (update_where claim_key k is_active (with_claim_status st) (cd_rows db)).
Proof.
  unfold end_claim, bind, lift. destruct (normalizeApiBaseUrl _); [| by left]. destruct (normalizeRepoFullName _); [| by left].
  destruct (normalizeIssueNumber _); [| by left]. right. by eexists.
Qed.

Lemma end_claim_wf st repo issue api db : ledger_wf db -> ledger_wf (fst (end_claim st repo issue api db)).
Proof.
  intros W. destruct (end_claim_fst st repo issue api db) as [-> | [k ->]]; [done |]. by apply wf_in_place, update_same_row.
Qed.

Lemma recordClaim_wf now i db : ledger_wf db -> ledger_wf (fst (recordClaim now i db)).
Proof.
  intros W. rewrite recordClaim_cases. destruct (normalize_claim i) as [[[[api repo] issue] note] |] eqn:E; [| done].
  destruct (normalize_claim_ok _ _ _ _ _ E) as (? & ? & ? & _). by apply record_wf.
Qed.

Lemma filter_wf p db : ledger_wf db -> ledger_wf (set_rows db (List.filter p (cd_rows db))).
Proof.
  intros [Hk Hr Hi Ho]. split; cbn [cd_rows cd_seq set_rows].
  - by apply filter_rows_keys.
  - intros c [Hc _]%List.filter_In. by apply Hr.
  - intros c [Hc _]%List.filter_In. by apply Hi.
  - clear -Ho. induction (cd_rows db) as [| c rows IH]; [done |]. cbn [List.map List.filter] in *. apply StronglySorted_cons in Ho as [Hf Ho].
    destruct (p c); [| by apply IH]. cbn [List.map]. apply StronglySorted_cons. split; [| by apply IH].
    apply List.Forall_forall. intros x (d & <- & [Hd _]%List.filter_In)%List.in_map_iff.
    eapply List.Forall_forall in Hf; [exact Hf |]. by apply List.in_map.
Qed.

Lemma run_call_wf db c : ledger_wf db -> ledger_wf (run_call db c).
Proof.
  intros W. destruct c as [sw now i cap | sw now i | now i | repo issue api | repo issue api | n a | repo]; cbn [run_call].
  - unfold claimIssueWithinCap, bind, lift, transaction. destruct (normalizeMaxConcurrentClaims cap) as [n |]; [| done].
    destruct (normalizeRepoFullName _) as [repo |]; [| done].
    destruct (sweep_cases (nz sw) (nz DEFAULT_MAX_CLAIM_AGE_MS) db W) as [[out ->] | [m ->]]; [| done].
    destruct (n <=? _)%Z; [by apply swept_wf |].
    pose proof (recordClaim_wf now (mkClaimInput (ri_repoFullName i) (ri_issueNumber i) (ri_note i) (ri_apiBaseUrl i)) _
      (swept_wf (nz sw) (nz DEFAULT_MAX_CLAIM_AGE_MS) db W)) as R.
    by destruct (recordClaim _ _ _) as [db' [row | m]].
  - unfold claimIssue, bind. destruct (sweep_cases (nz sw) (nz DEFAULT_MAX_CLAIM_AGE_MS) db W) as [[out ->] | [m ->]]; [| done].
    by apply recordClaim_wf, swept_wf.
  - by apply recordClaim_wf.
  - by apply end_claim_wf.
  - by apply end_claim_wf.
  - destruct (sweep_cases n a db W) as [[out ->] | [m ->]]; [by apply swept_wf | done].
  - unfold purgeByRepo, bind, lift. destruct (normalizeRepoFullName repo); [by apply filter_wf | done].
Qed.

(** *** Counting the active claims of a repository *)

Lemma count_in_place r db (f : ClaimEntry -> ClaimEntry) :
  (forall c, f c = c \/ (ce_status (f c) <> active)) ->
  count_active_repo r (set_rows db (List.map f (cd_rows db))) <= count_active_repo r db.
Proof.
  intros Hf. unfold count_active_repo. cbn [cd_rows set_rows]. apply count_map_le. intros c _. destruct (Hf c) as [-> | N]; [done |].
  unfold is_active. rewrite (bool_decide_false (_ = active)) by done. by rewrite andb_false_r.
Qed.

Lemma end_claim_count st r repo issue api db : st <> active ->
  count_active_repo r (fst (end_claim st repo issue api db)) <= count_active_repo r db.
Proof.
  intros N. destruct (end_claim_fst st repo issue api db) as [-> | [k ->]]; [done |].
  apply count_in_place. intros c. destruct (_ && _); [by right | by left].
Qed.

Lemma swept_count r n a db : count_active_repo r (swept n a db) <= count_active_repo r db.
Proof. apply count_in_place. intros c. destruct (stale n a c); [by right | by left]. Qed.

Lemma record_count r api repo issue at_ note db : ledger_wf db ->
  count_active_repo r (record_statement api repo issue at_ note db) <= count_active_repo r db + (if String.eqb repo r then 1 else 0).
Proof.
  intros W. unfold count_active_repo, record_statement. cbn [cd_rows].
  destruct (String.eqb_spec repo r) as [-> | N]; [apply count_upsert_le, (lw_keys db W) |].
  unfold upsert. destruct (find_key _ _ _) as [found |].
  - rewrite Nat.add_0_r. apply count_map_le. intros c _. destruct (bool_decide (claim_key c = _) && _) eqn:E; [| done].
    apply andb_true_iff in E as [[= E1 E2 E3]%bool_decide_eq_true _]. cbn. rewrite E2. by rewrite (proj2 (String.eqb_neq _ _) N).
  - rewrite row_count_app. unfold count at 2. cbn. rewrite (proj2 (String.eqb_neq _ _) N). cbn. lia.
Qed.

Lemma recordClaim_count r now i db : ledger_wf db ->
  count_active_repo r (fst (recordClaim now i db)) <= count_active_repo r db + 1
  /\ (normalizeRepoFullName (ri_repoFullName i) <> Normal r -> count_active_repo r (fst (recordClaim now i db)) <= count_active_repo r db).
Proof.
  intros W. rewrite recordClaim_cases. destruct (normalize_claim i) as [[[[api repo] issue] note] |] eqn:E; [| cbn [fst]; split; intros; lia].
  destruct (normalize_claim_ok _ _ _ _ _ E) as (_ & _ & _ & ->). cbn [fst].
  pose proof (record_count r api repo issue (iso now) note db W). destruct (String.eqb_spec repo r) as [-> | N]; split; intros; try lia. done.
Qed.

(** Every claim on [r] in the history is a capped one with at most [cap]. *)
Definition respects (r : string) (cap : Z) (c : ledger_call) : Prop :=
  match c with
  | do_claim_capped _ _ i capv =>
      normalizeRepoFullName (ri_repoFullName i) = Normal r -> forall n, normalizeMaxConcurrentClaims capv = Normal n -> (n <= cap)%Z
  | do_claim _ _ i | do_record _ i => normalizeRepoFullName (ri_repoFullName i) <> Normal r
  | _ => True
  end.

Lemma run_call_count r cap db c : ledger_wf db -> respects r cap c -> (Z.of_nat (count_active_repo r db) <= cap)%Z ->
  (Z.of_nat (count_active_repo r (run_call db c)) <= cap)%Z.
Proof.
  intros W R L. destruct c as [sw now i capv | sw now i | now i | repo issue api | repo issue api | n a | repo]; cbn [run_call respects] in *.
  - unfold claimIssueWithinCap, bind, lift, transaction. destruct (normalizeMaxConcurrentClaims capv) as [n |] eqn:Ec; [| done].
    destruct (normalizeRepoFullName (ri_repoFullName i)) as [repo |] eqn:Er; [| done].
    destruct (sweep_cases (nz sw) (nz DEFAULT_MAX_CLAIM_AGE_MS) db W) as [[out ->] | [m ->]]; [| done].
    pose proof (swept_wf (nz sw) (nz DEFAULT_MAX_CLAIM_AGE_MS) db W) as W1.
    pose proof (swept_count r (nz sw) (nz DEFAULT_MAX_CLAIM_AGE_MS) db) as C1. set (db1 := swept _ _ db) in *.
    destruct (Z.leb_spec n (Z.of_nat (count_active_repo repo db1))) as [Hn | Hn]; [unfold ret; cbn [fst]; lia |].
    destruct (recordClaim_count r now (mkClaimInput (ri_repoFullName i) (ri_issueNumber i) (ri_note i) (ri_apiBaseUrl i)) db1 W1) as [C2 C3].
    cbn [ri_repoFullName] in C3. rewrite Er in C3. destruct (recordClaim _ _ db1) as [db2 [row | m]]; [| done]. unfold ret. cbn [fst] in *.
    destruct (decide (repo = r)) as [-> | N]; [specialize (R eq_refl n eq_refl); lia |]. assert (X : Normal repo <> Normal r) by congruence.
    specialize (C3 X). lia.
  - unfold claimIssue, bind. destruct (sweep_cases (nz sw) (nz DEFAULT_MAX_CLAIM_AGE_MS) db W) as [[out ->] | [m ->]]; [| done].
    pose proof (swept_count r (nz sw) (nz DEFAULT_MAX_CLAIM_AGE_MS) db) as C1.
    destruct (recordClaim_count r now (mkClaimInput (ri_repoFullName i) (ri_issueNumber i) (ri_note i) (ri_apiBaseUrl i)) _
      (swept_wf (nz sw) (nz DEFAULT_MAX_CLAIM_AGE_MS) db W)) as [_ C2]. specialize (C2 R). lia.
  - destruct (recordClaim_count r now i db W) as [_ C2]. specialize (C2 R). lia.
  - pose proof (end_claim_count released r repo issue api db ltac:(done)). unfold releaseClaim. lia.
  - pose proof (end_claim_count expired r repo issue api db ltac:(done)). unfold expireClaim. lia.
  - destruct (sweep_cases n a db W) as [[out ->] | [m ->]]; [| done]. pose proof (swept_count r n a db). cbn [fst]. lia.
  - unfold purgeByRepo, bind, lift. destruct (normalizeRepoFullName repo); [| done]. cbn [fst].
    enough (count_active_repo r (set_rows db (List.filter (fun c => negb (String.eqb (ce_repoFullName c) a)) (cd_rows db)))
            <= count_active_repo r db) by lia.
    unfold count_active_repo, count. cbn [cd_rows set_rows]. clear. induction (cd_rows db) as [| c rows IH]; [done |]. cbn [List.filter].
    destruct (negb _); cbn [List.filter]; destruct (_ && _); simpl; lia.
Qed.
End Histories.

(** Whatever calls sibling processes make, in any order, the ledger keeps one
    row per host, repository and issue, every row holds normalized values, and
    the ids grow in the order the rows were first claimed. *)
Theorem ledger_calls_wf `{IsoClock} db calls : ledger_wf db -> ledger_wf (run_ledger db calls).
Proof.
  unfold run_ledger. revert db. induction calls as [| c calls IH]; intros db W; [done |]. cbn [List.fold_left].
  by apply IH, run_call_wf.
Qed.

(** C17: in every history in which a repository is claimed only under caps of at
    most [cap], with releases, expiries, sweeps and purges of any process in
    between, the repository never has more than [cap] active claims. *)
Theorem cap_never_exceeded `{IsoClock} r cap db calls : ledger_wf db -> (Z.of_nat (count_active_repo r db) <= cap)%Z ->
  Forall (respects r cap) calls -> (Z.of_nat (count_active_repo r (run_ledger db calls)) <= cap)%Z.
Proof.
  unfold run_ledger. intros W L F. revert db W L. induction F as [| c calls R F IH]; intros db W L; [done |].
  cbn [List.fold_left]. apply IH; [by apply run_call_wf | by apply run_call_count].
Qed.

(** A sweep of a well-formed ledger completes, expires the active claims older
    than the limit or with an unreadable time, returns those, and changes
    nothing else. *)
Theorem sweep_exact `{IsoClock} nowMs maxAgeMs db : ledger_wf db -> sane nowMs = true -> sane maxAgeMs = true ->
  let due c := is_active c && match claimAgeMs c nowMs with None => true | Some age => ngtb age maxAgeMs end in
  sweepExpiredClaims nowMs maxAgeMs db
  = (set_rows db (List.map (fun c => if due c then with_claim_status expired c else c) (cd_rows db)),
     Normal (List.map (with_claim_status expired) (List.filter due (cd_rows db)))).
Proof. apply sweep_runs. Qed.

(** A claim left active by a process that died is taken over by [claimIssue]
    once it is older than fourteen days, with a new claim time; until then the
    call returns the old claim and leaves it as it is. *)
Theorem stranded_claim_recovers `{IsoClock} sweepNow now input api repo issue note db row t0 : ledger_wf db ->
  normalize_claim input = Normal (api, repo, issue, note) -> find_key claim_key (api, repo, issue) (cd_rows db) = Some row ->
  ce_status row = active -> ce_claimedAt row = iso t0 -> (0 <= t0 <= sweepNow)%Z -> (sweepNow <= 8640000000000000)%Z ->
  let out := claimIssue sweepNow now (ri_repoFullName input) (ri_issueNumber input) (ri_note input) (ri_apiBaseUrl input) db in
  snd out = Normal (if (DEFAULT_MAX_CLAIM_AGE_MS <? sweepNow - t0)%Z then reactivate (iso now) note row else row)
  /\ find_key claim_key (api, repo, issue) (cd_rows (fst out))
     = Some (if (DEFAULT_MAX_CLAIM_AGE_MS <? sweepNow - t0)%Z then reactivate (iso now) note row else row).
Proof.
  intros W Hn Hf Ha Ht L1 L2. cbv zeta. unfold claimIssue, bind. rewrite sweep_runs by eauto using sane_nz, sane_age with lia.
  rewrite (recordClaim_cases now (mkClaimInput _ _ _ _)). replace (mkClaimInput _ _ _ _) with input by (by destruct input).
  rewrite Hn. cbn [fst snd]. rewrite find_record, decide_True by done.
  enough (E : claim_row api repo issue (iso now) note (swept (nz sweepNow) (nz DEFAULT_MAX_CLAIM_AGE_MS) db)
              = if (DEFAULT_MAX_CLAIM_AGE_MS <? sweepNow - t0)%Z then reactivate (iso now) note row else row) by (by rewrite E).
  assert (S : find_key claim_key (api, repo, issue) (cd_rows (swept (nz sweepNow) (nz DEFAULT_MAX_CLAIM_AGE_MS) db))
              = Some (if stale (nz sweepNow) (nz DEFAULT_MAX_CLAIM_AGE_MS) row then with_claim_status expired row else row)).
  { apply find_key_in in Hf as [Hin Hk]. rewrite <- Hk. unfold swept. cbn [cd_rows set_rows].
    set (f := fun c => if stale _ _ c then _ else c). change (if stale _ _ row then _ else row) with (f row).
    assert (K : forall c, claim_key (f c) = claim_key c) by (intros c; unfold f; by destruct (stale _ _ c)). rewrite <- (K row).
    apply find_key_unique; [| by apply List.in_map]. rewrite List.map_map, (List.map_ext _ claim_key) by done. apply (lw_keys db W). }
  unfold claim_row. rewrite S. unfold stale, claim_due, claimAgeMs, is_active. rewrite Ha, (bool_decide_true (active = active)) by done.
  rewrite Ht, Date_parse_iso, nz_finite by lia. rewrite nz_sub, nz_gtb by (rewrite Z.abs_eq; lia). cbn [andb].
  destruct (_ <? _)%Z; [done |]. by rewrite Ha, bool_decide_true.
Qed.

Lemma record_active_id api repo issue at_ note db row : NoDup (List.map claim_key (cd_rows db)) ->
  find_key claim_key (api, repo, issue) (cd_rows db) = Some row -> is_active row = true -> record_statement api repo issue at_ note db = db.
Proof.
  intros Hk Hf Ha. unfold record_statement, upsert. rewrite Hf. destruct db as [rows seq]. cbn [cd_rows cd_seq] in *. f_equal.
  unfold update_where. rewrite <- (List.map_id rows) at 2. apply List.map_ext_in. intros c Hc.
  destruct (bool_decide (claim_key c = _)) eqn:E; [| done]. apply bool_decide_eq_true in E.
  pose proof (find_key_unique claim_key rows c Hk Hc) as F. rewrite E, Hf in F. injection F as <-. by rewrite Ha.
Qed.

Lemma swept_fresh `{IsoClock} n a db : (forall c, In c (cd_rows db) -> stale n a c = false) -> swept n a db = db.
Proof.
  intros F. unfold swept. destruct db as [rows seq]. cbn [cd_rows set_rows cd_seq] in *. unfold set_rows. cbn [cd_seq]. f_equal.
  rewrite <- (List.map_id rows) at 2. apply List.map_ext_in. intros c Hc. by rewrite (F c Hc).
Qed.

(** The cap counts rows.  Below it, a capped claim of an issue that is already
    active succeeds and changes nothing, so any number of attempts can hold one
    issue and only one of them is counted; and the first of them to end
    releases the claim of all. *)
Theorem same_issue_claims_uncapped `{IsoClock} sweepNow now input capv cap api repo issue note db row : ledger_wf db -> (0 <= sweepNow)%Z ->
  normalizeMaxConcurrentClaims capv = Normal cap -> normalize_claim input = Normal (api, repo, issue, note) ->
  find_key claim_key (api, repo, issue) (cd_rows db) = Some row -> ce_status row = active ->
  (forall c, In c (cd_rows db) -> stale (nz sweepNow) (nz DEFAULT_MAX_CLAIM_AGE_MS) c = false) ->
  (Z.of_nat (count_active_repo repo db) < cap)%Z ->
  claimIssueWithinCap sweepNow now (ri_repoFullName input) (ri_issueNumber input) (ri_note input) (ri_apiBaseUrl input) capv db
  = (db, Normal (claimed_result row (Z.of_nat (count_active_repo repo db)) cap))
  /\ find_key claim_key (api, repo, issue) (cd_rows (fst (releaseClaim (ri_repoFullName input) (ri_issueNumber input) (ri_apiBaseUrl input) db)))
     = Some (with_claim_status released row).
Proof.
  intros W Ht Hc Hn Hf Ha Hs L. destruct (normalize_claim_ok _ _ _ _ _ Hn) as (_ & _ & _ & Hr).
  assert (A : is_active row = true) by (unfold is_active; by rewrite Ha, bool_decide_true). split.
  - rewrite (capped_claim_runs _ _ _ _ _ _ _ W Ht Hc Hr). unfold capped_outcome. rewrite swept_fresh by done.
    rewrite (proj2 (Z.leb_gt _ _) L), Hn. rewrite (record_active_id _ _ _ _ _ db row (lw_keys db W) Hf A). unfold claim_row. by rewrite Hf, A.
  - unfold normalize_claim in Hn. apply cbind_normal in Hn as (a & Ea & Hn). apply cbind_normal in Hn as (r & Er & Hn).
    apply cbind_normal in Hn as (i & Ei & Hn). apply cbind_normal in Hn as (nt & _ & Hn). injection Hn as -> -> -> ->.
    unfold releaseClaim, end_claim, bind, lift. rewrite Ea, Er, Ei. unfold end_statement. cbn [fst cd_rows set_rows].
    rewrite find_update, decide_True by done. rewrite Hf. cbn. by rewrite A.
Qed.

(** ** Examples *)

#[local] Existing Instance toy_clock.

Definition attempt (issue : Z) : RecordClaimInput := mkClaimInput (JStr "acme/widgets") (JNum (nz issue)) JUndefined JUndefined.
Definition no_claims : ClaimDb := mkClaimDb [] 0.

Lemma no_claims_wf : ledger_wf no_claims.
Proof. split; [apply NoDup_nil_2 | done | done | constructor]. Qed.

(** Cap 2: two attempts on issue 1, one on issue 2, a fourth rejected. *)
Definition sample_history : list ledger_call :=
  [do_claim_capped 10 10 (attempt 1) (JNum (nz 2)); do_claim_capped 11 11 (attempt 1) (JNum (nz 2));
   do_claim_capped 12 12 (attempt 2) (JNum (nz 2)); do_claim_capped 13 13 (attempt 3) (JNum (nz 2));
   do_release (JStr "acme/widgets") (JNum (nz 1)) JUndefined].

Definition one_claim : ClaimDb := run_ledger no_claims (firstn 1 sample_history).

Lemma one_claim_wf : ledger_wf one_claim.
Proof. apply run_call_wf, no_claims_wf. Qed.

Lemma ledger_calls_wf_witness : ledger_wf (run_ledger no_claims sample_history).
Proof. apply (ledger_calls_wf no_claims sample_history), no_claims_wf. Defined.

Lemma cap_never_exceeded_witness :
  (Z.of_nat (count_active_repo "acme/widgets" (run_ledger no_claims (firstn 4 sample_history))) <= 2)%Z
  /\ count_active_repo "acme/widgets" (run_ledger no_claims (firstn 4 sample_history)) = 2.
Proof.
  split; [| vm_compute; reflexivity].
  apply (cap_never_exceeded "acme/widgets" 2 no_claims (firstn 4 sample_history) no_claims_wf); [by vm_compute |].
  unfold sample_history; cbn [firstn]. repeat (apply List.Forall_cons; [intros _ n; vm_compute; intros [= <-]; discriminate |]).
  apply List.Forall_nil.
Defined.

Lemma claim_within_cap_exact_witness :
  snd (claimIssueWithinCap 13 13 (JStr "acme/widgets") (JNum (nz 3)) JUndefined JUndefined (JNum (nz 1)) one_claim)
  = Normal (cap_rejected 1 1).
Proof.
  pose proof (claim_within_cap_exact 13 13 (attempt 3) (JNum (nz 1)) "acme/widgets" 1 one_claim one_claim_wf ltac:(lia) eq_refl eq_refl)
    as (H & _ & _). apply (f_equal snd) in H; [exact H |]. by vm_compute.
Defined.

Lemma sweep_exact_witness :
  List.map ce_status (cd_rows (fst (sweepExpiredClaims (nz 2000000000) (nz 1000) one_claim))) = [expired].
Proof.
  pose proof (sweep_exact (nz 2000000000) (nz 1000) one_claim one_claim_wf eq_refl eq_refl) as E. cbv zeta in E. rewrite E.
  vm_compute. reflexivity.
Defined.

Lemma stranded_claim_recovers_witness :
  snd (claimIssue 1209600011 1209600012 (JStr "acme/widgets") (JNum (nz 1)) JUndefined JUndefined one_claim)
  = Normal (mkClaim 1 "https://api.github.com" "acme/widgets" 1 (iso 1209600012) active None).
Proof.
  refine (proj1 (stranded_claim_recovers 1209600011 1209600012 (attempt 1) "https://api.github.com" "acme/widgets" 1 None one_claim
    (mkClaim 1 "https://api.github.com" "acme/widgets" 1 (iso 10) active None) 10 one_claim_wf eq_refl eq_refl eq_refl eq_refl _ _)); lia.
Defined.

Lemma same_issue_claims_uncapped_witness :
  snd (claimIssueWithinCap 11 11 (JStr "acme/widgets") (JNum (nz 1)) JUndefined JUndefined (JNum (nz 2)) one_claim)
  = Normal (claimed_result (mkClaim 1 "https://api.github.com" "acme/widgets" 1 (iso 10) active None) 1 2).
Proof.
  refine (f_equal snd (proj1 (same_issue_claims_uncapped 11 11 (attempt 1) (JNum (nz 2)) 2 "https://api.github.com" "acme/widgets" 1 None
    one_claim (mkClaim 1 "https://api.github.com" "acme/widgets" 1 (iso 10) active None) one_claim_wf _ eq_refl eq_refl eq_refl eq_refl _ _))).
  - lia.
  - intros c [<- | []]. by vm_compute.
  - by vm_compute.
Defined.
