(* ===== verification/ClaimConflict.v ===== *)
(** * Submission freshness and claim conflicts

    Models three files of [packages/loopover-miner/lib]: the last check before a
    pull request is opened ([submission-freshness-check.ts]), the election among
    miners that claim one issue ([claim-adjudication.ts], over the engine's
    election of [DuplicateWinner]), and the resolution after the pull request
    exists ([claim-conflict-resolver.ts]), which may close the miner's own pull
    request with the command of [LocalWrite].

    The live state of the issue is fetched from GitHub: [fetch n] is what the
    [n]-th attempt yields, [None] for a failure or an unusable answer.  Waiting,
    audit events and local writes are recorded in the order they happen.
    Dependencies are functions, so the sources' checks that they are are not
    repeated here.

    Main results: the freshness check passes exactly when the claim is active
    and the first usable answer within the attempts shows an open issue that no
    other author addresses ([freshness_exact]); the resolver writes at most one
    command, which closes the miner's own pull request, exactly when the
    election is lost ([conflict_closes_own_pr_only]).  The two miners of a race
    compare different times, each its own local claim with the other's pull
    request, so in the race the resolver is there for, both win and nothing is
    closed ([racing_miners_both_win]). *)

From Stdlib Require Import Ascii QArith Qround ZArith Lia Lqa.
From stdpp Require Import base list strings option pretty.
From S2P Require Import Prelude JsNumber JsString Ledger DuplicateWinner LocalWrite LocalStore ClaimLedger.

Local Open Scope nat_scope.
Local Open Scope string_scope.
Local Open Scope js_scope.

(** ** Data *)

Inductive PrState := pr_open | pr_closed | pr_merged.
#[global] Instance PrState_eq_dec : EqDecision PrState.
Proof. solve_decision. Defined.

Inductive IssueState := issue_open | issue_closed.
#[global] Instance IssueState_eq_dec : EqDecision IssueState.
Proof. solve_decision. Defined.

(** [authorLogin] is [None] when it is not a string. *)
Record ReferencingPr := mkRefPr { rp_number : Z; rp_state : PrState; rp_authorLogin : option string; rp_createdAt : option string }.

(** [referencingPrs] is [None] when it is not an array. *)
Record LiveIssueSnapshot := mkSnapshot { ls_state : IssueState; ls_referencingPrs : option (list ReferencingPr) }.

Inductive FreshnessAbortReason := issue_closed_reason | already_addressed | claim_superseded | live_state_unavailable.

Inductive miner_event :=
| waited (ms : Z)
| abort_event (repoFullName : string) (issueNumber : Z) (reason : FreshnessAbortReason)
| local_write (spec : LocalWriteActionSpec).

Inductive SubmissionFreshnessResult := fresh | not_fresh (reason : FreshnessAbortReason).

(** ** Retries *)

Definition DEFAULT_SNAPSHOT_MAX_ATTEMPTS : nat := 3.
Definition MAX_BACKOFF_MS : Z := 10000.
Definition DEFAULT_BASE_BACKOFF_MS : Z := 500.

Definition defaultRetryBackoffMs (attempt : Z) : Z :=
  Z.min MAX_BACKOFF_MS (DEFAULT_BASE_BACKOFF_MS * 2 ^ (Z.max 1 attempt - 1)).

(** [options.maxAttempts], floored, when it is a finite number of at least one. *)
Definition max_attempts (option_ : option num) : nat :=
  match option_ with
  | Some (Fin q) => if nleb (nz 1) (Fin q) then Z.to_nat (Qfloor q) else DEFAULT_SNAPSHOT_MAX_ATTEMPTS
  | _ => DEFAULT_SNAPSHOT_MAX_ATTEMPTS
  end.

(** [for (attempt = n; attempt <= maxAttempts; ...)] with [left] attempts to go:
    [stop] ends it, and there is a wait after every attempt but the last. *)
Fixpoint attempts {A} (fetch : nat -> option LiveIssueSnapshot) (step : A -> LiveIssueSnapshot -> A * bool) (left n : nat) (acc : A)
    : A * list miner_event :=
  match left with
  | O => (acc, [])
  | S left' =>
      let '(acc', stop) := match fetch n with Some snapshot => step acc snapshot | None => (acc, false) end in
      if stop then (acc', [])
      else let '(out, evs) := attempts fetch step left' (S n) acc' in
           (out, if Nat.eqb left' 0 then evs else waited (defaultRetryBackoffMs (Z.of_nat n)) :: evs)
  end.

(** ** The freshness check *)

Definition resolveFreshnessApiBaseUrl (apiBaseUrl : jsval) : string :=
  match apiBaseUrl with
  | JStr s => if str_empty (trim s) then DEFAULT_apiBaseUrl else trim s
  | _ => DEFAULT_apiBaseUrl
  end.

Record FreshnessCandidate := mkCandidate {
  fc_repoFullName : jsval;
  fc_issueNumber : jsval;
  fc_minerLogin : jsval;
  fc_apiBaseUrl : jsval;
}.

Definition trimmed_text (v : jsval) : string := match v with JStr s => trim s | _ => "" end.

(** Another author, by login without its case; an unknown author is another. *)
Definition by_another (minerLogin : string) (pr : ReferencingPr) : bool :=
  match rp_authorLogin pr with
  | Some login => negb (String.eqb (toLowerCase (trim login)) (toLowerCase minerLogin))
  | None => true
  end.

Definition addressed_by_other (minerLogin : string) (pr : ReferencingPr) : bool :=
  (bool_decide (rp_state pr = pr_merged) || bool_decide (rp_state pr = pr_open)) && by_another minerLogin pr.

Definition referencing (snapshot : LiveIssueSnapshot) : list ReferencingPr := ls_referencingPrs snapshot ?? [].

(** The decision on a usable snapshot. *)
Definition snapshot_verdict (minerLogin : string) (snapshot : LiveIssueSnapshot) : SubmissionFreshnessResult :=
  if bool_decide (ls_state snapshot = issue_closed) then not_fresh issue_closed_reason
  else if existsb (addressed_by_other minerLogin) (referencing snapshot) then not_fresh already_addressed
  else fresh.

Definition abort (repoFullName : string) (issueNumber : Z) (reason : FreshnessAbortReason) : SubmissionFreshnessResult * list miner_event :=
  (not_fresh reason, [abort_event repoFullName issueNumber reason]).

Definition conclude (repoFullName : string) (issueNumber : Z) (verdict : SubmissionFreshnessResult) : SubmissionFreshnessResult * list miner_event :=
  match verdict with fresh => (fresh, []) | not_fresh reason => abort repoFullName issueNumber reason end.

Section Checks.
Context `{IsoClock}.

Definition checkSubmissionFreshness (candidate : FreshnessCandidate) (ledger : ClaimDb) (fetch : nat -> option LiveIssueSnapshot)
    (maxAttempts : option num) : completion (SubmissionFreshnessResult * list miner_event) :=
  let repoFullName := trimmed_text (fc_repoFullName candidate) in
  if str_empty repoFullName then Thrown "invalid_repo_full_name"
  else match positive_integer (fc_issueNumber candidate) with
  | None => Thrown "invalid_issue_number"
  | Some issueNumber =>
      let minerLogin := trimmed_text (fc_minerLogin candidate) in
      if str_empty minerLogin then Thrown "invalid_miner_login"
      else
        let candidateApiBaseUrl := resolveFreshnessApiBaseUrl (fc_apiBaseUrl candidate) in
        claims <- snd (listClaims (JStr repoFullName) JUndefined ledger) ;;
        let claim := List.find (fun c => (ce_issueNumber c =? issueNumber)%Z
                       && String.eqb (resolveFreshnessApiBaseUrl (JStr (ce_apiBaseUrl c))) candidateApiBaseUrl) claims in
        Normal (match claim with
                | Some c =>
                    if is_active c then
                      let '(snapshot, waits) := attempts fetch (fun _ s => (Some s, true)) (max_attempts maxAttempts) 1 None in
                      let '(verdict, evs) :=
                        match snapshot with
                        | None => abort repoFullName issueNumber live_state_unavailable
                        | Some s => conclude repoFullName issueNumber (snapshot_verdict minerLogin s)
                        end in
                      (verdict, (waits ++ evs)%list)
                    else abort repoFullName issueNumber claim_superseded
                | None => abort repoFullName issueNumber claim_superseded
                end)
  end.

(** ** Adjudication *)

Record ObservedClaim := mkObserved { oc_number : Z; oc_claimedAt : option string }.

Definition toClaimMember (claim : ObservedClaim) : DuplicateClaimMember := mkMember (oc_number claim) (oc_claimedAt claim) None.

Record ClaimAdjudication := mkAdjudication { ca_isWinner : bool; ca_winnerNumber : option Z }.

Definition adjudicateSoftClaim (self : ObservedClaim) (competing : list ObservedClaim) : ClaimAdjudication :=
  let selfMember := toClaimMember self in
  let siblings := List.map toClaimMember competing in
  mkAdjudication (isDuplicateClusterWinnerByClaim Date_parse selfMember siblings)
                 (resolveDuplicateClusterWinnerNumber Date_parse selfMember siblings).

(** ** Resolution *)

Definition assembleCompetingClaims (snapshot : LiveIssueSnapshot) (selfPrNumber : Z) (minerLogin : string) : list ObservedClaim :=
  List.map (fun pr => mkObserved (rp_number pr) (rp_createdAt pr))
    (List.filter (by_another (trim minerLogin))
      (List.filter (fun pr => bool_decide (rp_state pr = pr_open) && negb (rp_number pr =? selfPrNumber)%Z) (referencing snapshot))).

Record ClaimConflictInput := mkConflictInput {
  cc_repoFullName : string;
  cc_issueNumber : Z;
  cc_selfPrNumber : Z;
  cc_selfClaimedAt : option string;
  cc_minerLogin : string;
}.

Inductive ClaimConflictResult :=
| not_checked
| won (winnerNumber : option Z) (competingCount : nat)
| lost (winnerNumber : option Z) (competingCount : nat) (closeResult : jsval).

Definition close_comment (winnerNumber : option Z) : string :=
  match winnerNumber with
  | Some n => if (n =? 0)%Z
              then "Closing this PR: another open pull request already claims this issue. This is an automated soft-claim conflict resolution -- no action needed from you."
              else "Closing this PR: pull request #" ++ pretty n ++ " claimed this issue first. This is an automated soft-claim conflict resolution -- no action needed from you."
  | None => "Closing this PR: another open pull request already claims this issue. This is an automated soft-claim conflict resolution -- no action needed from you."
  end.

(** The last usable snapshot and its competing claims; a competing claim ends
    the attempts. *)
Definition observe (input : ClaimConflictInput) (fetch : nat -> option LiveIssueSnapshot) (maxAttempts : option num)
    : option (list ObservedClaim) * list miner_event :=
  attempts fetch (fun _ s => let competing := assembleCompetingClaims s (cc_selfPrNumber input) (cc_minerLogin input) in
                             (Some competing, (0 <? List.length competing)%nat))
    (max_attempts maxAttempts) 1 None.

(** [execute] is the injected [executeLocalWrite]; when it throws, so does the
    resolver. *)
Definition resolveClaimConflict (input : ClaimConflictInput) (fetch : nat -> option LiveIssueSnapshot)
    (execute : LocalWriteActionSpec -> completion jsval) (maxAttempts : option num)
    : completion ClaimConflictResult * list miner_event :=
  let '(observed, waits) := observe input fetch maxAttempts in
  match observed with
  | None => (Normal not_checked, waits)
  | Some competing =>
      let adjudication := adjudicateSoftClaim (mkObserved (cc_selfPrNumber input) (cc_selfClaimedAt input)) competing in
      if ca_isWinner adjudication then (Normal (won (ca_winnerNumber adjudication) (List.length competing)), waits)
      else
        let spec := buildClosePrSpec (cc_repoFullName input) (cc_selfPrNumber input) (Some (close_comment (ca_winnerNumber adjudication))) in
        (closeResult <- execute spec ;; Normal (lost (ca_winnerNumber adjudication) (List.length competing) closeResult),
         (waits ++ [local_write spec])%list)
  end.
End Checks.

(** ** The attempts *)

(** The answer of the first attempt, of [k], that yields one. *)
Definition first_usable (fetch : nat -> option LiveIssueSnapshot) (k : nat) : option LiveIssueSnapshot :=
  head (omap fetch (seq 1 k)).

Definition is_wait (e : miner_event) : bool := match e with waited _ => true | _ => false end.
Definition writes (evs : list miner_event) : list LocalWriteActionSpec :=
  omap (fun e => match e with local_write s => Some s | _ => None end) evs.
Definition aborts (evs : list miner_event) : list miner_event := List.filter (fun e => match e with abort_event _ _ _ => true | _ => false end) evs.

Lemma attempts_wait {A} fetch (step : A -> _) left n acc : forallb is_wait (snd (attempts fetch step left n acc)) = true.
Proof.
  revert n acc. induction left as [| left IH]; intros n acc; [done |]. cbn [attempts].
  destruct (match fetch n with Some s => step acc s | None => (acc, false) end) as [acc' stop]. destruct stop; [done |].
  specialize (IH (S n) acc'). destruct (attempts fetch step left (S n) acc') as [out evs]. cbn [snd] in *. by destruct (Nat.eqb left 0).
Qed.

Lemma attempts_first fetch left n :
  fst (attempts fetch (fun _ s => (Some s, true)) left n None) = head (omap fetch (seq n left)).
Proof.
  revert n. induction left as [| left IH]; intros n; [done |]. cbn [attempts seq omap list_omap]. destruct (fetch n) as [s |]; [done |].
  specialize (IH (S n)). by destruct (attempts _ _ left (S n) None).
Qed.

Lemma waits_nothing evs : forallb is_wait evs = true -> writes evs = [] /\ aborts evs = [].
Proof. induction evs as [| e evs IH]; [done |]. cbn. destruct e; [| done | done]. exact IH. Qed.

(** ** Freshness *)

Lemma resolve_host s : host_text s -> resolveFreshnessApiBaseUrl (JStr s) = s.
Proof. unfold host_text. cbn. destruct (str_empty (trim s)); [discriminate |]. by intros [= ->]. Qed.

Lemma find_filter {A} (p q : A -> bool) l : List.find p (List.filter q l) = List.find (fun x => q x && p x) l.
Proof. induction l as [| a l IH]; [done |]. cbn [List.filter List.find]. destruct (q a); cbn [List.find andb]; [by destruct (p a) | done]. Qed.

Lemma find_ext_in {A} (p q : A -> bool) l : (forall x, In x l -> p x = q x) -> List.find p l = List.find q l.
Proof.
  induction l as [| a l IH]; [done |]. intros E. cbn [List.find]. rewrite (E a) by (by left). destruct (q a); [done |].
  apply IH. intros x Hx. apply E. by right.
Qed.

(** The claim the check finds is the row of the candidate's key. *)
Lemma freshness_claim db repo issue host : ledger_wf db ->
  List.find (fun c => (ce_issueNumber c =? issue)%Z && String.eqb (resolveFreshnessApiBaseUrl (JStr (ce_apiBaseUrl c))) host)
    (List.filter (fun c => String.eqb (ce_repoFullName c) repo && true) (cd_rows db))
  = find_key claim_key (host, repo, issue) (cd_rows db).
Proof.
  intros W. rewrite find_filter. unfold find_key. apply find_ext_in. intros c Hc.
  rewrite (resolve_host _ (ok_host c (lw_rows db W c Hc))). unfold claim_key.
  destruct (String.eqb_spec (ce_repoFullName c) repo), (Z.eqb_spec (ce_issueNumber c) issue), (String.eqb_spec (ce_apiBaseUrl c) host);
    cbn; symmetry; (apply bool_decide_eq_true || apply bool_decide_eq_false); congruence.
Qed.

Definition freshness_verdict (claim : option ClaimEntry) (usable : option LiveIssueSnapshot) (minerLogin : string) : SubmissionFreshnessResult :=
  match claim with
  | Some c =>
      if is_active c then match usable with Some s => snapshot_verdict minerLogin s | None => not_fresh live_state_unavailable end
      else not_fresh claim_superseded
  | None => not_fresh claim_superseded
  end.

Definition verdict_event (repo : string) (issue : Z) (v : SubmissionFreshnessResult) : list miner_event :=
  match v with fresh => [] | not_fresh r => [abort_event repo issue r] end.

Lemma freshness_runs `{IsoClock} candidate db fetch maxAttempts repo issue : ledger_wf db ->
  normalizeRepoFullName (fc_repoFullName candidate) = Normal repo -> positive_integer (fc_issueNumber candidate) = Some issue ->
  trimmed_text (fc_minerLogin candidate) <> "" ->
  exists evs,
    checkSubmissionFreshness candidate db fetch maxAttempts
    = Normal (freshness_verdict (find_key claim_key (resolveFreshnessApiBaseUrl (fc_apiBaseUrl candidate), repo, issue) (cd_rows db))
                (first_usable fetch (max_attempts maxAttempts)) (trimmed_text (fc_minerLogin candidate)), evs)
    /\ writes evs = []
    /\ aborts evs = verdict_event repo issue
         (freshness_verdict (find_key claim_key (resolveFreshnessApiBaseUrl (fc_apiBaseUrl candidate), repo, issue) (cd_rows db))
            (first_usable fetch (max_attempts maxAttempts)) (trimmed_text (fc_minerLogin candidate))).
Proof.
  intros W Hr Hi Hm. unfold checkSubmissionFreshness. rewrite Hi. apply str_empty_false in Hm. rewrite Hm.
  destruct (fc_repoFullName candidate) as [| | | | s | |]; try discriminate. pose proof (normalizeRepoFullName_trim s repo Hr) as Er.
  cbn [trimmed_text]. rewrite <- Er. pose proof (normalizeRepoFullName_text _ _ Hr) as Ht.
  assert (Ne : str_empty repo = false) by (destruct (str_empty repo) eqn:E; [apply str_empty_true in E as ->; discriminate Ht | done]).
  rewrite Ne. unfold listClaims, bind, lift, normalizeListRepoFilter, cbind, normalizeStatusFilter. unfold repo_text in Ht. rewrite Ht.
  cbn [snd]. rewrite freshness_claim by done. unfold freshness_verdict.
  destruct (find_key _ _ _) as [c |]; [| by eexists]. destruct (is_active c); [| by eexists].
  pose proof (attempts_first fetch (max_attempts maxAttempts) 1) as F.
  pose proof (attempts_wait fetch (fun (_ : option LiveIssueSnapshot) s => (Some s, true)) (max_attempts maxAttempts) 1 None) as G.
  destruct (attempts _ _ _ 1 None) as [snapshot waits]. cbn [fst snd] in F, G. unfold first_usable. rewrite <- F.
  apply waits_nothing in G as [G1 G2].
  destruct snapshot as [snap |]; cbn [abort conclude].
  - destruct (snapshot_verdict _ snap); cbn [conclude abort]; eexists; (split; [reflexivity |]); unfold writes, aborts in *;
      rewrite ?app_nil_r, ?omap_app, ?List.filter_app, ?G1, ?G2; by split.
  - eexists. split; [reflexivity |]. unfold writes, aborts in *. by rewrite omap_app, List.filter_app, G1, G2.
Qed.

(** A submission passes the freshness check exactly when the miner's own claim
    on the issue is active and the first usable answer within the attempts shows
    the issue open with no open or merged pull request of another author; the
    check writes nothing, and records one abort event with its reason exactly
    when it does not pass. *)
Theorem freshness_exact `{IsoClock} candidate db fetch maxAttempts repo issue : ledger_wf db ->
  normalizeRepoFullName (fc_repoFullName candidate) = Normal repo -> positive_integer (fc_issueNumber candidate) = Some issue ->
  trimmed_text (fc_minerLogin candidate) <> "" ->
  exists verdict evs,
    checkSubmissionFreshness candidate db fetch maxAttempts = Normal (verdict, evs)
    /\ (verdict = fresh <-> exists c s,
          find_key claim_key (resolveFreshnessApiBaseUrl (fc_apiBaseUrl candidate), repo, issue) (cd_rows db) = Some c
          /\ ce_status c = active /\ first_usable fetch (max_attempts maxAttempts) = Some s /\ ls_state s = issue_open
          /\ forall pr, In pr (referencing s) -> rp_state pr <> pr_closed ->
               by_another (trimmed_text (fc_minerLogin candidate)) pr = false)
    /\ writes evs = []
    /\ aborts evs = match verdict with fresh => [] | not_fresh reason => [abort_event repo issue reason] end.
Proof.
  intros W Hr Hi Hm. destruct (freshness_runs candidate db fetch maxAttempts repo issue W Hr Hi Hm) as (evs & E1 & E2 & E3).
  eexists _, evs. split; [exact E1 |]. split; [| by split]. clear E1 E2 E3. unfold freshness_verdict.
  set (login := trimmed_text _). destruct (find_key _ _ _) as [c |]; [| split; [done | by intros (? & ? & ? & _)]].
  destruct (is_active c) eqn:A; unfold is_active in A;
    [apply bool_decide_eq_true in A | apply bool_decide_eq_false in A; split; [done | intros (d & ? & [= <-] & ? & _); done]].
  destruct (first_usable _ _) as [s |]; [| split; [done | by intros (? & ? & _ & _ & ? & _)]]. unfold snapshot_verdict. split.
  - intros V. exists c, s. destruct (bool_decide (ls_state s = issue_closed)) eqn:C; [done |]. apply bool_decide_eq_false in C.
    destruct (existsb _ _) eqn:X; [done |]. split_and!; [done | done | done | by destruct (ls_state s) |]. intros pr Hp Hs.
    destruct (by_another login pr) eqn:B; [| done].
    assert (T : existsb (addressed_by_other login) (referencing s) = true); [| congruence].
    apply existsb_exists. exists pr. split; [done |]. unfold addressed_by_other. rewrite B, andb_true_r. by destruct (rp_state pr).
  - intros (d & t & [= <-] & _ & [= <-] & O & N). rewrite O. cbn. destruct (existsb _ _) eqn:X; [| done].
    apply existsb_exists in X as (pr & Hp & X). unfold addressed_by_other in X. apply andb_true_iff in X as [X1 X2].
    rewrite (N pr Hp) in X2; [discriminate |]. intros Hc. by rewrite Hc in X1.
Qed.

(** ** Conflicts *)

Definition self_claim (input : ClaimConflictInput) : ObservedClaim := mkObserved (cc_selfPrNumber input) (cc_selfClaimedAt input).

Lemma observe_waits input fetch maxAttempts : writes (snd (observe input fetch maxAttempts)) = [].
Proof. apply waits_nothing. apply attempts_wait. Qed.

Lemma adjudication_lost `{IsoClock} self competing :
  isDuplicateClusterWinnerByClaim Date_parse (toClaimMember self) (List.map toClaimMember competing) = false
  <-> exists other, In other competing /\ ~ before Date_parse (toClaimMember self) (toClaimMember other).
Proof.
  split.
  - intros E. unfold isDuplicateClusterWinnerByClaim in E. destruct (Nat.eqb (List.length _) 0); [discriminate |].
    apply not_true_iff_false in E.
    destruct (existsb (fun o => negb (prPrecedesSibling Date_parse (toClaimMember self) (toClaimMember o))) competing) eqn:X.
    + apply existsb_exists in X as (o & Ho & X%negb_true_iff). exists o. split; [done |]. intros B%precedes_iff. congruence.
    + destruct E. apply forallb_forall. intros m (o & <- & Ho)%List.in_map_iff.
      apply not_false_iff_true. intros P. apply not_true_iff_false in X. destruct X. apply existsb_exists. exists o. by rewrite P.
  - intros (o & Ho & N). apply not_true_iff_false. intros E. destruct N. apply (proj1 (wins_iff _ _ _) E), list_elem_of_In.
    by apply List.in_map.
Qed.

Lemma close_comment_text winner : no_nul (close_comment winner) = true /\ given (Some (close_comment winner)) = Some (close_comment winner).
Proof.
  unfold close_comment. destruct winner as [n |]; [destruct (n =? 0)%Z |]; [done | | done].
  rewrite !no_nul_app, no_nul_number. done.
Qed.

(** The resolver writes at most one command, and only when the election is
    lost: when some competing pull request it observed does not come after its
    own claim.  The command then closes the miner's own pull request, comments
    on it, and does nothing else. *)
Theorem conflict_closes_own_pr_only `{IsoClock} input fetch execute maxAttempts : no_nul (cc_repoFullName input) = true ->
  let out := resolveClaimConflict input fetch execute maxAttempts in
  (writes (snd out) <> [] <-> exists competing other,
     fst (observe input fetch maxAttempts) = Some competing /\ In other competing
     /\ ~ before Date_parse (toClaimMember (self_claim input)) (toClaimMember other))
  /\ (forall spec, In spec (writes (snd out)) -> exists comment,
       sh_commands (ws_command spec)
       = Some [["gh"; "pr"; "close"; pretty (cc_selfPrNumber input); "--repo"; cc_repoFullName input];
               ["gh"; "pr"; "comment"; pretty (cc_selfPrNumber input); "--repo"; cc_repoFullName input; "--body"; comment]]).
Proof.
  intros Hn. cbv zeta. unfold resolveClaimConflict. pose proof (observe_waits input fetch maxAttempts) as G.
  destruct (observe input fetch maxAttempts) as [observed waits]. cbn [fst snd] in *.
  destruct observed as [competing |]; [| cbn [snd]; rewrite G; split; [split; [done | by intros (? & ? & ? & _)] | done]].
  fold (self_claim input). cbn [adjudicateSoftClaim ca_isWinner ca_winnerNumber].
  pose proof (adjudication_lost (self_claim input) competing) as L.
  destruct (isDuplicateClusterWinnerByClaim _ _ _).
  - cbn [snd]. rewrite G. split; [| done]. split; [done |]. intros (cs & other & [= <-] & Ho & N).
    assert (X : true = false) by (apply L; eauto). discriminate X.
  - cbn [snd]. unfold writes in *. rewrite omap_app, G. cbn. split.
    + split; [intros _ | done]. destruct (proj1 L eq_refl) as (o & Ho & N). eauto.
    + set (winner := resolveDuplicateClusterWinnerNumber _ _ _). intros spec [<- | []]. exists (close_comment winner).
      destruct (close_comment_text winner) as [C1 C2].
      rewrite close_read, C2; [done | done |]. rewrite C2. cbn. by rewrite C1.
Qed.

(** One side of a race: a claim before the other's pull request. *)
Lemma race_side `{IsoClock} repo issue x y loginX loginY claimX createdX createdY execute (swap : bool) :
  x <> y -> toLowerCase (trim loginX) <> toLowerCase (trim loginY) -> (0 <= claimX < createdY)%Z -> (createdY <= 8640000000000000)%Z ->
  let own := mkRefPr x pr_open (Some loginX) createdX in
  let other := mkRefPr y pr_open (Some loginY) (Some (iso createdY)) in
  resolveClaimConflict (mkConflictInput repo issue x (Some (iso claimX)) loginX)
    (fun _ => Some (mkSnapshot issue_open (Some (if swap then [other; own] else [own; other])))) execute None = (Normal (won (Some x) 1), []).
Proof.
  intros Hxy Hl Hc Hm own other.
  assert (C : assembleCompetingClaims (mkSnapshot issue_open (Some (if swap then [other; own] else [own; other]))) x loginX
              = [mkObserved y (Some (iso createdY))]).
  { unfold assembleCompetingClaims, referencing, own, other. cbn [ls_referencingPrs from_option id].
    assert (Ey : (y =? x)%Z = false) by (apply Z.eqb_neq; congruence).
    assert (El : by_another (trim loginX) (mkRefPr y pr_open (Some loginY) (Some (iso createdY))) = true).
    { unfold by_another. cbn [rp_authorLogin]. by rewrite (proj2 (String.eqb_neq _ _) (not_eq_sym Hl)). }
    destruct swap; cbn [List.filter rp_state rp_number]; rewrite Z.eqb_refl, Ey, bool_decide_true by done; cbn [negb andb List.filter];
      rewrite El; done. }
  assert (K : forall z n, (0 <= z <= 8640000000000000)%Z ->
            claim Date_parse (toClaimMember (mkObserved n (Some (iso z)))) = Some (inject_Z z)).
  { intros z n Hz. unfold claim, claimTimeMs. cbn [toClaimMember linkedIssueClaimedAt oc_claimedAt].
    by rewrite (proj2 (str_empty_false _) (iso_nonempty z)), Date_parse_iso. }
  assert (Win : isDuplicateClusterWinnerByClaim Date_parse (toClaimMember (mkObserved x (Some (iso claimX))))
                  (List.map toClaimMember [mkObserved y (Some (iso createdY))]) = true).
  { apply wins_iff. intros m Hin. apply list_elem_of_In in Hin as [<- | []].
    exists (inject_Z claimX), (inject_Z createdY). rewrite !K by lia. split; [done |]. split; [done |]. left. rewrite <- Zlt_Qlt. lia. }
  unfold resolveClaimConflict, observe. cbn [cc_selfPrNumber cc_minerLogin cc_selfClaimedAt]. unfold max_attempts, DEFAULT_SNAPSHOT_MAX_ATTEMPTS.
  cbn [attempts]. rewrite C. cbn [List.length Nat.ltb Nat.leb]. unfold adjudicateSoftClaim. cbn [ca_isWinner ca_winnerNumber]. rewrite Win.
  unfold resolveDuplicateClusterWinnerNumber. rewrite Win. reflexivity.
Qed.

(** C19: two miners race: each claimed the issue locally before the other's pull
    request was created, each pull request is open, and each resolver sees both.
    Each compares its own early claim with the creation of the other's pull
    request, so each finds itself the winner and neither pull request is
    closed. *)
Theorem racing_miners_both_win `{IsoClock} repo issue a b loginA loginB claimA claimB createdA createdB executeA executeB :
  a <> b -> toLowerCase (trim loginA) <> toLowerCase (trim loginB) ->
  (0 <= claimA < createdB)%Z -> (0 <= claimB < createdA)%Z -> (createdA <= 8640000000000000)%Z -> (createdB <= 8640000000000000)%Z ->
  let snapshot := mkSnapshot issue_open (Some [mkRefPr a pr_open (Some loginA) (Some (iso createdA));
                                               mkRefPr b pr_open (Some loginB) (Some (iso createdB))]) in
  resolveClaimConflict (mkConflictInput repo issue a (Some (iso claimA)) loginA) (fun _ => Some snapshot) executeA None
  = (Normal (won (Some a) 1), [])
  /\ resolveClaimConflict (mkConflictInput repo issue b (Some (iso claimB)) loginB) (fun _ => Some snapshot) executeB None
  = (Normal (won (Some b) 1), []).
Proof.
  intros Hab Hl HA HB MA MB snapshot. split.
  - exact (race_side repo issue a b loginA loginB claimA (Some (iso createdA)) createdB executeA false Hab Hl HA MB).
  - exact (race_side repo issue b a loginB loginA claimB (Some (iso createdB)) createdA executeB true
      (not_eq_sym Hab) (not_eq_sym Hl) HB MA).
Qed.

(** ** Examples *)

#[local] Existing Instance toy_clock.

Definition sample_candidate : FreshnessCandidate :=
  mkCandidate (JStr "acme/widgets") (JNum (nz 1)) (JStr "ana") JUndefined.
Definition quiet_issue : LiveIssueSnapshot := mkSnapshot issue_open (Some [mkRefPr 9 pr_closed (Some "bo") None]).
Definition second_try (n : nat) : option LiveIssueSnapshot := if Nat.eqb n 2 then Some quiet_issue else None.

Lemma freshness_exact_witness : exists evs, checkSubmissionFreshness sample_candidate one_claim second_try None = Normal (fresh, evs).
Proof.
  destruct (freshness_exact sample_candidate one_claim second_try None "acme/widgets" 1 one_claim_wf eq_refl eq_refl)
    as (v & evs & E & I & _); [done |]. exists evs. rewrite E. f_equal. f_equal. apply I.
  eexists _, quiet_issue. split; [vm_compute; reflexivity |]. split; [reflexivity |]. split; [reflexivity |]. split; [reflexivity |].
  intros pr [<- | []] Hs. by destruct Hs.
Defined.

(** The other pull request was there before this claim. *)
Definition late_claim : ClaimConflictInput := mkConflictInput "acme/widgets" 1 8 (Some (iso 100)) "ana".
Definition taken_issue : LiveIssueSnapshot := mkSnapshot issue_open (Some [mkRefPr 8 pr_open (Some "Ana") (Some (iso 200)); mkRefPr 7 pr_open (Some "bo") (Some (iso 50))]).

Lemma conflict_closes_own_pr_only_witness :
  writes (snd (resolveClaimConflict late_claim (fun _ => Some taken_issue) (fun _ => Normal JNull) None)) <> [].
Proof.
  destruct (conflict_closes_own_pr_only late_claim (fun _ => Some taken_issue) (fun _ => Normal JNull) None eq_refl) as [I _].
  apply I. exists [mkObserved 7 (Some (iso 50))], (mkObserved 7 (Some (iso 50))). split; [vm_compute; reflexivity |]. split; [by left |].
  intros B%precedes_iff. vm_compute in B. discriminate B.
Defined.

Lemma racing_miners_both_win_witness :
  snd (resolveClaimConflict (mkConflictInput "acme/widgets" 1 7 (Some (iso 10)) "ana")
        (fun _ => Some (mkSnapshot issue_open (Some [mkRefPr 7 pr_open (Some "ana") (Some (iso 100)); mkRefPr 8 pr_open (Some "bo") (Some (iso 101))])))
        (fun _ => Normal JNull) None) = [].
Proof.
  refine (f_equal snd (proj1 (racing_miners_both_win "acme/widgets" 1 7 8 "ana" "bo" 10 20 100 101
    (fun _ => Normal JNull) (fun _ => Normal JNull) _ _ _ _ _ _))); first [lia | done].
Defined.
