(* ===== verification/PortfolioStore.v ===== *)
(** * The miner's work queue on disk

    Models [packages/loopover-miner/lib/portfolio-queue.ts] and
    [portfolio-queue-expiry.ts]: the table of work items with enqueue, dequeue
    by priority, completion, failure, requeue, the batch claim in one
    transaction, the counters of the attempt history and the sweep of leases
    left behind by dead processes.

    The table is the list of its rows; a new row gets one more than the largest
    [rowid].  Opening the file and its schema migrations are not modelled;
    [tenant_id], which nothing reads, is left out.  [priority] is a [REAL]
    column that only finite numbers enter, so it is a rational.

    Main results: every call keeps one row per item, a lease exactly on the rows
    in progress, and counters in which no more failures are recorded than
    attempts ([store_calls_wf]); dequeuing drains the queue in the order of
    priority, then time, then insertion ([dequeue_drains_in_order]); an item is
    handed out again only after a call gave it back ([claimed_item_held]); the
    sweep gives back exactly the leases that are too old or unreadable
    ([lease_sweep_exact]). *)

From Stdlib Require Import Ascii QArith ZArith Lia Lqa.
From stdpp Require Import base list strings option sets sorting.
From S2P Require Import Prelude JsNumber JsString LedgerAnchor LocalStore.

Local Open Scope nat_scope.
Local Open Scope string_scope.
Local Open Scope js_scope.

(** ** Data *)

Inductive QueueStatus := q_queued | q_in_progress | q_done.

#[global] Instance QueueStatus_eq_dec : EqDecision QueueStatus.
Proof. solve_decision. Defined.

Record QueueRow := mkRow {
  qr_rowid : Z;
  qr_apiBaseUrl : string;
  qr_repoFullName : string;
  qr_identifier : string;
  qr_priority : Q;
  qr_status : QueueStatus;
  qr_enqueuedAt : string;
  qr_leasedAt : option string;
  qr_attempts : Z;
  qr_failures : Z;
  qr_reenqueues : Z;
}.

Record QueueEntry := mkEntry {
  qe_apiBaseUrl : string;
  qe_repoFullName : string;
  qe_identifier : string;
  qe_priority : Q;
  qe_status : QueueStatus;
  qe_enqueuedAt : string;
}.

Record QueueLeaseEntry := mkLease {
  le_apiBaseUrl : string;
  le_repoFullName : string;
  le_identifier : string;
  le_status : QueueStatus;
  le_leasedAt : option string;
}.

Record QueueAttemptHistory := mkHistory {
  ah_attempts : Z;
  ah_consecutiveFailures : Z;
  ah_reenqueues : Z;
  ah_reachedDone : bool;
}.

Record EnqueueItem := mkEnqueue {
  ei_repoFullName : jsval;
  ei_identifier : jsval;
  ei_priority : jsval;
  ei_apiBaseUrl : jsval;
}.

Definition row_key (r : QueueRow) : string * string * string := (qr_apiBaseUrl r, qr_repoFullName r, qr_identifier r).

Definition rowToEntry (row : QueueRow) : QueueEntry :=
  mkEntry (qr_apiBaseUrl row) (qr_repoFullName row) (qr_identifier row) (qr_priority row) (qr_status row) (qr_enqueuedAt row).

Definition rowToLeaseEntry (row : QueueRow) : QueueLeaseEntry :=
  mkLease (qr_apiBaseUrl row) (qr_repoFullName row) (qr_identifier row) (qr_status row) (qr_leasedAt row).

Definition has_status (st : QueueStatus) (r : QueueRow) : bool := bool_decide (qr_status r = st).

(** ** Input normalizers *)

Fixpoint includes_separator (s : string) : bool :=
  match s with
  | String c s' => (Ascii.eqb c ":" && match s' with String d _ => Ascii.eqb d ":" | "" => false end) || includes_separator s'
  | "" => false
  end.

Definition normalizeIdentifier (identifier : jsval) : completion string :=
  match identifier with
  | JStr s =>
      let trimmed := trim s in
      if str_empty trimmed then Thrown "invalid_identifier"
      else if includes_separator trimmed then Thrown "invalid_identifier"
      else Normal trimmed
  | _ => Thrown "invalid_identifier"
  end.

Definition normalizePriority (priority : jsval) : completion Q :=
  match priority with
  | JUndefined | JNull => Normal (0 # 1)
  | JNum (Fin q) => if nltb (Fin q) (nz 0) then Thrown "invalid_priority" else Normal q
  | _ => Thrown "invalid_priority"
  end.

(** ** Statements *)

(** [ORDER BY priority DESC, enqueued_at ASC, rowid ASC]. *)
Definition listed_before_b (a b : QueueRow) : bool :=
  match (qr_priority a ?= qr_priority b)%Q with
  | Gt => true
  | Lt => false
  | Eq => str_ltb (qr_enqueuedAt a) (qr_enqueuedAt b)
          || String.eqb (qr_enqueuedAt a) (qr_enqueuedAt b) && (qr_rowid a <=? qr_rowid b)%Z
  end.

Definition listed (a b : QueueRow) : Prop := listed_before_b a b = true.
#[global] Instance listed_decision a b : Decision (listed a b).
Proof. unfold listed. apply _. Defined.

Definition in_order (rows : list QueueRow) : list QueueRow := merge_sort listed rows.

Definition next_rowid (rows : list QueueRow) : Z := List.fold_left (fun m r => Z.max m (qr_rowid r)) rows 0%Z + 1.

(** [SET priority = excluded.priority, status = 'queued']. *)
Definition requeue_with (priority : Q) (r : QueueRow) : QueueRow :=
  mkRow (qr_rowid r) (qr_apiBaseUrl r) (qr_repoFullName r) (qr_identifier r) priority q_queued (qr_enqueuedAt r) (qr_leasedAt r)
    (qr_attempts r) (qr_failures r) (qr_reenqueues r).

(** [SET status = 'in_progress', leased_at = ?, attempts_count = attempts_count + 1]. *)
Definition lease_row (leasedAt : string) (r : QueueRow) : QueueRow :=
  mkRow (qr_rowid r) (qr_apiBaseUrl r) (qr_repoFullName r) (qr_identifier r) (qr_priority r) q_in_progress (qr_enqueuedAt r) (Some leasedAt)
    (qr_attempts r + 1) (qr_failures r) (qr_reenqueues r).

(** [SET status = 'done', leased_at = NULL, consecutive_failures = 0]. *)
Definition done_row (r : QueueRow) : QueueRow :=
  mkRow (qr_rowid r) (qr_apiBaseUrl r) (qr_repoFullName r) (qr_identifier r) (qr_priority r) q_done (qr_enqueuedAt r) None
    (qr_attempts r) 0 (qr_reenqueues r).

(** [SET status = 'queued', leased_at = NULL], both failure counters plus one. *)
Definition failed_row (r : QueueRow) : QueueRow :=
  mkRow (qr_rowid r) (qr_apiBaseUrl r) (qr_repoFullName r) (qr_identifier r) (qr_priority r) q_queued (qr_enqueuedAt r) None
    (qr_attempts r) (qr_failures r + 1) (qr_reenqueues r + 1).

(** [SET status = 'queued', leased_at = NULL]. *)
Definition reopened_row (r : QueueRow) : QueueRow :=
  mkRow (qr_rowid r) (qr_apiBaseUrl r) (qr_repoFullName r) (qr_identifier r) (qr_priority r) q_queued (qr_enqueuedAt r) None
    (qr_attempts r) (qr_failures r) (qr_reenqueues r).

Definition enqueue_statement (api repo identifier : string) (priority : Q) (enqueuedAt : string) (rows : list QueueRow) : list QueueRow :=
  upsert row_key (api, repo, identifier) (fun r => negb (has_status q_in_progress r)) (requeue_with priority)
    (mkRow (next_rowid rows) api repo identifier priority q_queued enqueuedAt None 0 0 0) rows.

(** ** Operations *)

Definition Store : Type := list QueueRow.

Section Ops.
Context `{IsoClock}.

Definition enqueue (now : Z) (item : EnqueueItem) : call Store QueueEntry :=
  apiBaseUrl <~ lift (normalizeApiBaseUrl (ei_apiBaseUrl item)) ;;
  repoFullName <~ lift (normalizeRepoFullName (ei_repoFullName item)) ;;
  identifier <~ lift (normalizeIdentifier (ei_identifier item)) ;;
  priority <~ lift (normalizePriority (ei_priority item)) ;;
  fun rows =>
    let rows' := enqueue_statement apiBaseUrl repoFullName identifier priority (iso now) rows in
    match find_key row_key (apiBaseUrl, repoFullName, identifier) rows' with
    | Some row => (rows', Normal (rowToEntry row))
    | None => (rows', Thrown "TypeError")
    end.

(** One [UPDATE] of the first queued row in the listing order, by its [rowid]. *)
Definition dequeueNext (now : Z) : call Store (option QueueEntry) :=
  fun rows =>
    match in_order (List.filter (has_status q_queued) rows) with
    | [] => (rows, Normal None)
    | first :: _ =>
        (List.map (fun r => if (qr_rowid r =? qr_rowid first)%Z then lease_row (iso now) r else r) rows,
         Normal (Some (rowToEntry (lease_row (iso now) first))))
    end.

(** [UPDATE ... WHERE key AND guard RETURNING *], with the key normalized. *)
Definition keyed_update (guard : QueueRow -> bool) (f : QueueRow -> QueueRow) (repoFullName identifier apiBaseUrl : jsval)
    : call Store (option QueueEntry) :=
  api <~ lift (normalizeApiBaseUrl apiBaseUrl) ;;
  repo <~ lift (normalizeRepoFullName repoFullName) ;;
  ident <~ lift (normalizeIdentifier identifier) ;;
  fun rows => (update_where row_key (api, repo, ident) guard f rows,
               Normal (rowToEntry <$> returning row_key (api, repo, ident) guard f rows)).

Definition markDone := keyed_update (fun r => negb (has_status q_done r)) done_row.
Definition markFailed := keyed_update (has_status q_in_progress) failed_row.
Definition reclaimStuckItem := keyed_update (has_status q_in_progress) failed_row.
Definition requeueItem := keyed_update (has_status q_done) reopened_row.
Definition claimTarget (leasedAt : string) := keyed_update (has_status q_queued) (lease_row leasedAt).

Definition listInProgress : call Store (list QueueLeaseEntry) :=
  fun rows => (rows, Normal (List.map rowToLeaseEntry (in_order (List.filter (has_status q_in_progress) rows)))).

Definition listQueue (repoFullName : jsval) : call Store (list QueueEntry) :=
  match repoFullName with
  | JUndefined | JNull => fun rows => (rows, Normal (List.map rowToEntry (in_order rows)))
  | v => repo <~ lift (normalizeRepoFullName v) ;;
         fun rows => (rows, Normal (List.map rowToEntry (in_order (List.filter (fun r => String.eqb (qr_repoFullName r) repo) rows))))
  end.

Definition is_open (r : QueueRow) : bool := has_status q_queued r || has_status q_in_progress r.

(** A target the selector returns: host, repository and identifier. *)
Record PortfolioQueueClaimTarget := mkTarget { ct_apiBaseUrl : string; ct_repoFullName : string; ct_identifier : string }.

(** [selectFn] may throw. *)
Definition batchClaim (now : Z) (selectFn : list QueueEntry -> completion (list PortfolioQueueClaimTarget)) : call Store (list QueueEntry) :=
  transaction (
    entries <~ (fun rows => (rows, Normal (List.map rowToEntry (in_order (List.filter is_open rows))))) ;;
    targets <~ lift (selectFn entries) ;;
    collect (fun t => claimTarget (iso now) (JStr (ct_repoFullName t)) (JStr (ct_identifier t)) (JStr (ct_apiBaseUrl t))) targets).

Definition getAttemptHistory (repoFullName identifier apiBaseUrl : jsval) : call Store QueueAttemptHistory :=
  api <~ lift (normalizeApiBaseUrl apiBaseUrl) ;;
  repo <~ lift (normalizeRepoFullName repoFullName) ;;
  ident <~ lift (normalizeIdentifier identifier) ;;
  fun rows => (rows, Normal (match find_key row_key (api, repo, ident) rows with
                             | None => mkHistory 0 0 0 false
                             | Some r => mkHistory (qr_attempts r) (qr_failures r) (qr_reenqueues r) (has_status q_done r)
                             end)).

Definition purgeQueueByRepo (repoFullName : jsval) : call Store Z :=
  repo <~ lift (normalizeRepoFullName repoFullName) ;;
  fun rows => (List.filter (fun r => negb (String.eqb (qr_repoFullName r) repo)) rows,
               Normal (Z.of_nat (count (fun r => String.eqb (qr_repoFullName r) repo) rows))).

(** ** The sweep *)

Definition DEFAULT_MAX_LEASE_MS : Z := 30 * 60 * 1000.

(** [Date.parse(null)] is [NaN]. *)
Definition leaseAgeMs (item : QueueLeaseEntry) (nowMs : num) : option num :=
  match le_leasedAt item with
  | None => None
  | Some leasedAt => let leasedAtMs := Date_parse leasedAt in if is_finite leasedAtMs then Some (nsub nowMs leasedAtMs) else None
  end.

Definition lease_due (nowMs maxLeaseMs : num) (item : QueueLeaseEntry) : bool :=
  match leaseAgeMs item nowMs with None => true | Some ageMs => ngtb ageMs maxLeaseMs end.

Definition findStuckItems (items : list QueueLeaseEntry) (nowMs maxLeaseMs : num) : completion (list QueueLeaseEntry) :=
  if negb (is_finite nowMs) || nltb nowMs (nz 0) then Thrown "invalid_now_ms"
  else if negb (is_finite maxLeaseMs) || nltb maxLeaseMs (nz 0) then Thrown "invalid_max_lease_ms"
  else Normal (List.filter (fun item => bool_decide (le_status item = q_in_progress) && lease_due nowMs maxLeaseMs item) items).

Definition sweepStuckItems (nowMs maxLeaseMs : num) : call Store (list QueueEntry) :=
  inProgress <~ listInProgress ;;
  stuck <~ lift (findStuckItems inProgress nowMs maxLeaseMs) ;;
  collect (fun item => reclaimStuckItem (JStr (le_repoFullName item)) (JStr (le_identifier item)) (JStr (le_apiBaseUrl item))) stuck.
End Ops.

(** ** Well-formed stores *)

Definition ident_text (s : string) : Prop := normalizeIdentifier (JStr s) = Normal s.

Lemma normalizeIdentifier_text v s : normalizeIdentifier v = Normal s -> ident_text s.
Proof.
  unfold ident_text. destruct v; cbn [normalizeIdentifier]; try discriminate. destruct (str_empty (trim s0)) eqn:E; [discriminate |].
  destruct (includes_separator (trim s0)) eqn:I; [discriminate |]. intros [= <-]. by rewrite trim_idem, E, I.
Qed.

Lemma normalizePriority_nonneg v q : normalizePriority v = Normal q -> (0 <= q)%Q.
Proof.
  destruct v as [| | | n | | |]; cbn [normalizePriority]; try discriminate; try (intros [= <-]; discriminate).
  destruct n as [| | | p]; try discriminate. destruct (nltb (Fin p) (nz 0)) eqn:E; [discriminate |]. intros [= <-].
  by apply nltb_fin_false in E.
Qed.

Definition busy (r : QueueRow) : Z := if has_status q_in_progress r then 1 else 0.

(** A lease exactly while in progress; failures in a row are among the returns
    to the queue, and every return had an attempt before it. *)
Record row_ok (r : QueueRow) : Prop := mkRowOk {
  rk_host : host_text (qr_apiBaseUrl r);
  rk_repo : repo_text (qr_repoFullName r);
  rk_ident : ident_text (qr_identifier r);
  rk_priority : (0 <= qr_priority r)%Q;
  rk_lease : is_Some (qr_leasedAt r) <-> qr_status r = q_in_progress;
  rk_counters : (0 <= qr_failures r <= qr_reenqueues r /\ qr_reenqueues r + busy r <= qr_attempts r)%Z;
}.

Record store_wf (rows : Store) : Prop := mkStoreWf {
  sw_keys : NoDup (List.map row_key rows);
  sw_ids : NoDup (List.map qr_rowid rows);
  sw_rows : forall r, In r rows -> row_ok r;
}.

(** A change of one row in place. *)
Record changes_row (guard : QueueRow -> bool) (f : QueueRow -> QueueRow) : Prop := mkChanges {
  cr_key : forall r, row_key (f r) = row_key r;
  cr_id : forall r, qr_rowid (f r) = qr_rowid r;
  cr_ok : forall r, guard r = true -> row_ok r -> row_ok (f r);
}.

Ltac row_change :=
  constructor; [done | done |]; intros r G [H1 H2 H3 H4 H5 H6];
  constructor; cbn [qr_apiBaseUrl qr_repoFullName qr_identifier qr_priority qr_status qr_leasedAt qr_attempts qr_failures qr_reenqueues
    lease_row done_row failed_row reopened_row requeue_with]; try done;
  unfold busy, has_status in *; cbn [qr_status lease_row done_row failed_row reopened_row requeue_with] in *;
  repeat case_bool_decide; try congruence; try lia; try (split; [by intros [? ?] | done]); try (split; [tauto | done]).

Lemma lease_changes at_ : changes_row (has_status q_queued) (lease_row at_).
Proof. row_change. Qed.

Lemma done_changes : changes_row (fun r => negb (has_status q_done r)) done_row.
Proof. row_change. Qed.

Lemma failed_changes : changes_row (has_status q_in_progress) failed_row.
Proof. row_change. Qed.

Lemma reopened_changes : changes_row (has_status q_done) reopened_row.
Proof. row_change. Qed.

Lemma requeue_changes q : (0 <= q)%Q -> changes_row (fun r => negb (has_status q_in_progress r)) (requeue_with q).
Proof. intros Hq. row_change. Qed.

(** Rows changed in place, where the change is allowed. *)
Lemma map_store_wf guard f p rows : changes_row guard f -> (forall r, In r rows -> p r = true -> guard r = true) -> store_wf rows ->
  store_wf (List.map (fun r => if p r : bool then f r else r) rows).
Proof.
  intros [Ck Ci Co] G [Hk Hi Hr]. split.
  - rewrite List.map_map, (List.map_ext _ row_key); [done |]. intros r. by destruct (p r).
  - rewrite List.map_map, (List.map_ext _ qr_rowid); [done |]. intros r. by destruct (p r).
  - intros r (r0 & <- & H0)%List.in_map_iff. destruct (p r0) eqn:E; [| by apply Hr]. apply Co; [by apply G | by apply Hr].
Qed.

Lemma update_store_wf k guard f rows : changes_row guard f -> store_wf rows -> store_wf (update_where row_key k guard f rows).
Proof.
  intros C W. unfold update_where. apply (map_store_wf guard f (fun r => bool_decide (row_key r = k) && guard r)); [done | | done].
  by intros r _ [_ G]%andb_true_iff.
Qed.

Lemma keyed_cases guard f repo ident api rows :
  (exists m, keyed_update guard f repo ident api rows = (rows, Thrown m))
  \/ exists a r i, normalizeApiBaseUrl api = Normal a /\ normalizeRepoFullName repo = Normal r /\ normalizeIdentifier ident = Normal i
     /\ keyed_update guard f repo ident api rows
        = (update_where row_key (a, r, i) guard f rows, Normal (rowToEntry <$> returning row_key (a, r, i) guard f rows)).
Proof.
  unfold keyed_update, bind, lift. destruct (normalizeApiBaseUrl api) as [a |]; [| left; by eexists].
  destruct (normalizeRepoFullName repo) as [r |]; [| left; by eexists]. destruct (normalizeIdentifier ident) as [i |]; [| left; by eexists].
  right. by exists a, r, i.
Qed.

Lemma keyed_wf guard f repo ident api rows : changes_row guard f -> store_wf rows -> store_wf (fst (keyed_update guard f repo ident api rows)).
Proof.
  intros C W. destruct (keyed_cases guard f repo ident api rows) as [[m ->] | (a & r & i & _ & _ & _ & ->)]; [done |].
  by apply update_store_wf.
Qed.

Lemma next_rowid_above rows r : In r rows -> (qr_rowid r < next_rowid rows)%Z.
Proof.
  unfold next_rowid. assert (G : forall m, (m <= List.fold_left (fun m r => Z.max m (qr_rowid r)) rows m)%Z
    /\ forall r, In r rows -> (qr_rowid r <= List.fold_left (fun m r => Z.max m (qr_rowid r)) rows m)%Z).
  { induction rows as [| a rows IH]; intros m; [split; [cbn; lia | done] |]. cbn [List.fold_left].
    destruct (IH (Z.max m (qr_rowid a))) as [I1 I2]. split; [lia |]. intros x [-> | Hx]; [lia | by apply I2]. }
  intros H. pose proof (proj2 (G 0%Z) r H). lia.
Qed.

Lemma enqueue_statement_wf api repo ident priority at_ rows : host_text api -> repo_text repo -> ident_text ident -> (0 <= priority)%Q ->
  store_wf rows -> store_wf (enqueue_statement api repo ident priority at_ rows).
Proof.
  intros H1 H2 H3 H4 W. unfold enqueue_statement. set (new := mkRow _ _ _ _ _ _ _ _ _ _ _).
  pose proof (upsert_keys row_key (api, repo, ident) (fun r => negb (has_status q_in_progress r)) (requeue_with priority) new rows
    (fun _ => eq_refl) eq_refl (sw_keys rows W)) as K. unfold upsert in *. destruct (find_key _ _ rows).
  - apply update_store_wf; [by apply requeue_changes | done].
  - destruct W as [Hk Hi Hr]. split; [done | |].
    + rewrite List.map_app. apply list.NoDup_app. split; [done |]. split; [| apply NoDup_singleton].
      intros x Hx Hy. apply list_elem_of_In in Hx, Hy. destruct Hy as [<- | []]. apply List.in_map_iff in Hx as (r & Er & Hin).
      apply next_rowid_above in Hin. cbn in Er. lia.
    + intros r [Hin | [<- | []]]%List.in_app_iff; [by apply Hr |]. constructor; cbn; try done; lia.
Qed.

Definition normalize_item (item : EnqueueItem) : completion (string * string * string * Q) :=
  api <- normalizeApiBaseUrl (ei_apiBaseUrl item) ;;
  repo <- normalizeRepoFullName (ei_repoFullName item) ;;
  ident <- normalizeIdentifier (ei_identifier item) ;;
  priority <- normalizePriority (ei_priority item) ;;
  Normal (api, repo, ident, priority).

(** ** The order of the listing *)

Lemma listed_iff a b : listed a b <->
  (qr_priority b < qr_priority a)%Q
  \/ (qr_priority a == qr_priority b)%Q
     /\ (String.le (qr_enqueuedAt a) (qr_enqueuedAt b) /\ (qr_enqueuedAt a = qr_enqueuedAt b -> (qr_rowid a <= qr_rowid b)%Z)).
Proof.
  unfold listed, listed_before_b. destruct (qr_priority a ?= qr_priority b)%Q eqn:C.
  - apply Qeq_alt in C. rewrite orb_true_iff, str_ltb_iff, andb_true_iff, Z.leb_le, String.eqb_eq. split.
    + intros [[L N] | [E L]]; right; (split; [done |]); [by split | rewrite E; split; [reflexivity | done]].
    + intros [L | (_ & L & I)]; [lra |]. destruct (decide (qr_enqueuedAt a = qr_enqueuedAt b)) as [E | N]; [right; auto | left; auto].
  - apply Qlt_alt in C. split; [done |]. intros [L | (E & _)]; lra.
  - apply Qgt_alt in C. split; [by left | done].
Qed.

#[global] Instance listed_trans : Transitive listed.
Proof.
  intros x y z. rewrite !listed_iff. intros [P1 | (P1 & L1 & I1)] [P2 | (P2 & L2 & I2)]; [left; lra | left; lra | left; lra |].
  right. split; [lra |]. split; [by transitivity (qr_enqueuedAt y) |]. intros E.
  assert (E1 : qr_enqueuedAt x = qr_enqueuedAt y) by (apply (anti_symm String.le); [done | by rewrite E]).
  specialize (I1 E1). assert (E2 : qr_enqueuedAt y = qr_enqueuedAt z) by congruence. specialize (I2 E2). lia.
Qed.

#[global] Instance listed_total : Total listed.
Proof.
  intros x y. rewrite !listed_iff. destruct (Q_dec (qr_priority x) (qr_priority y)) as [[L | L] | L]; [right; by left | left; by left |].
  destruct (decide (qr_enqueuedAt x = qr_enqueuedAt y)) as [E | N].
  - destruct (Z.le_ge_cases (qr_rowid x) (qr_rowid y)); [left | right]; right; (split; [lra |]); rewrite E; split; auto; reflexivity.
  - destruct (total String.le (qr_enqueuedAt x) (qr_enqueuedAt y)); [left | right]; right; (split; [lra |]); (split; [done | congruence]).
Qed.

Lemma listed_antisym a b : listed a b -> listed b a -> qr_rowid a = qr_rowid b.
Proof.
  rewrite !listed_iff. intros [P1 | (P1 & L1 & I1)] [P2 | (P2 & L2 & I2)]; try lra.
  assert (E : qr_enqueuedAt a = qr_enqueuedAt b) by (by apply (anti_symm String.le)). specialize (I1 E). specialize (I2 (eq_sym E)). lia.
Qed.

Lemma in_order_perm rows : in_order rows ≡ₚ rows.
Proof. apply merge_sort_Permutation. Qed.

Lemma in_order_in r rows : In r (in_order rows) <-> In r rows.
Proof. rewrite <- !list_elem_of_In. by rewrite in_order_perm. Qed.

(** ** Dequeue *)

Lemma same_rowid rows r s : store_wf rows -> In r rows -> In s rows -> qr_rowid r = qr_rowid s -> r = s.
Proof.
  intros W Hr Hs E. pose proof (find_key_unique qr_rowid rows r (sw_ids rows W) Hr) as F.
  rewrite E, (find_key_unique qr_rowid rows s (sw_ids rows W) Hs) in F. by injection F.
Qed.

Lemma same_key rows r s : store_wf rows -> In r rows -> In s rows -> row_key r = row_key s -> r = s.
Proof.
  intros W Hr Hs E. pose proof (find_key_unique row_key rows r (sw_keys rows W) Hr) as F.
  rewrite E, (find_key_unique row_key rows s (sw_keys rows W) Hs) in F. by injection F.
Qed.

Definition waiting (rows : Store) : list QueueRow := in_order (List.filter (has_status q_queued) rows).

Lemma waiting_in rows r : In r (waiting rows) <-> In r rows /\ qr_status r = q_queued.
Proof. unfold waiting. rewrite in_order_in, List.filter_In. unfold has_status. by rewrite bool_decide_eq_true. Qed.

Lemma dequeue_empty `{IsoClock} now rows : waiting rows = [] -> dequeueNext now rows = (rows, Normal None).
Proof. intros E. unfold dequeueNext. unfold waiting in E. by rewrite E. Qed.

Lemma queued_after_lease at_ id rows :
  List.filter (has_status q_queued) (List.map (fun r => if (qr_rowid r =? id)%Z then lease_row at_ r else r) rows)
  = List.filter (fun r => negb (qr_rowid r =? id)%Z) (List.filter (has_status q_queued) rows).
Proof.
  induction rows as [| a rows IH]; [done |]. cbn [List.map List.filter]. destruct (qr_rowid a =? id)%Z eqn:B.
  - change (has_status q_queued (lease_row at_ a)) with false. destruct (has_status q_queued a); [| done]. cbn [List.filter]. by rewrite B.
  - destruct (has_status q_queued a); [| done]. cbn [List.filter]. rewrite B. cbn [negb]. by rewrite IH.
Qed.

(** The first waiting row is leased; the others wait on, in the same order. *)
Lemma dequeue_first `{IsoClock} now rows first rest : store_wf rows -> waiting rows = first :: rest ->
  let rows' := update_where row_key (row_key first) (has_status q_queued) (lease_row (iso now)) rows in
  dequeueNext now rows = (rows', Normal (Some (rowToEntry (lease_row (iso now) first)))) /\ waiting rows' = rest.
Proof.
  intros W E. cbv zeta.
  assert (Hf : In first rows /\ qr_status first = q_queued) by (apply waiting_in; rewrite E; by left). destruct Hf as [Hin Hq].
  assert (M : List.map (fun r => if (qr_rowid r =? qr_rowid first)%Z then lease_row (iso now) r else r) rows
              = update_where row_key (row_key first) (has_status q_queued) (lease_row (iso now)) rows).
  { unfold update_where. apply List.map_ext_in. intros r Hr. destruct (Z.eqb_spec (qr_rowid r) (qr_rowid first)) as [Er | Nr].
    - rewrite (same_rowid rows r first W Hr Hin Er). unfold has_status. by rewrite !bool_decide_true.
    - rewrite bool_decide_false; [done |]. intros K. apply Nr. by rewrite (same_key rows r first W Hr Hin K). }
  split.
  - unfold dequeueNext. unfold waiting in E. rewrite E. by rewrite M.
  - rewrite <- M. clear M. assert (S : StronglySorted listed (waiting rows)) by (apply StronglySorted_merge_sort; apply _).
    pose proof (in_order_perm (List.filter (has_status q_queued) rows)) as P. fold (waiting rows) in P. rewrite E in S, P.
    apply StronglySorted_cons in S as [_ S].
    pose proof (queued_after_lease (iso now) (qr_rowid first) rows) as F. set (rows' := List.map _ rows) in *.
    assert (ND : NoDup (qr_rowid first :: List.map qr_rowid rest)).
    { change (NoDup (List.map qr_rowid (first :: rest))). rewrite (Permutation_map qr_rowid P).
      apply filter_rows_keys, (sw_ids rows W). }
    apply nodup_cons_inv in ND as [Hn _].
    assert (R : List.filter (has_status q_queued) rows' ≡ₚ rest).
    { rewrite F, <- (filter_bool_Permutation _ _ _ P). cbn [List.filter]. rewrite Z.eqb_refl. cbn [negb].
      rewrite filter_all_in; [done |]. intros r Hr. apply negb_true_iff, Z.eqb_neq. intros Er. apply Hn, list_elem_of_In.
      rewrite <- Er. by apply List.in_map. }
    assert (Sub : forall r, In r rest -> In r rows).
    { intros r Hr. assert (X : In r (waiting rows)) by (rewrite E; by right). by apply waiting_in in X as [X _]. }
    apply StronglySorted_unique_strong with (R := listed).
    + intros x y Hx Hy L1 L2. apply list_elem_of_In in Hy. unfold waiting in Hx. rewrite in_order_perm, R in Hx. apply list_elem_of_In in Hx.
      apply (same_rowid rows); auto. by apply listed_antisym.
    + apply StronglySorted_merge_sort; apply _.
    + done.
    + unfold waiting. by rewrite in_order_perm.
Qed.

(** Successive calls of [dequeueNext]. *)
Fixpoint drain `{IsoClock} (times : list Z) (rows : Store) : list (completion (option QueueEntry)) :=
  match times with
  | [] => []
  | t :: ts => let '(rows', out) := dequeueNext t rows in out :: drain ts rows'
  end.

(** The entry of a row once it is handed out. *)
Definition handed_out (r : QueueRow) : QueueEntry :=
  mkEntry (qr_apiBaseUrl r) (qr_repoFullName r) (qr_identifier r) (qr_priority r) q_in_progress (qr_enqueuedAt r).

(** ** Histories *)

Inductive store_call :=
| so_enqueue (now : Z) (item : EnqueueItem)
| so_dequeue (now : Z)
| so_done (repoFullName identifier apiBaseUrl : jsval)
| so_failed (repoFullName identifier apiBaseUrl : jsval)
| so_reclaim (repoFullName identifier apiBaseUrl : jsval)
| so_requeue (repoFullName identifier apiBaseUrl : jsval)
| so_batch (now : Z) (selectFn : list QueueEntry -> completion (list PortfolioQueueClaimTarget))
| so_sweep (nowMs maxLeaseMs : num)
| so_purge (repoFullName : jsval).

Section Histories.
Context `{IsoClock}.

Definition run_store_call (rows : Store) (c : store_call) : Store :=
  match c with
  | so_enqueue now item => fst (enqueue now item rows)
  | so_dequeue now => fst (dequeueNext now rows)
  | so_done repo ident api => fst (markDone repo ident api rows)
  | so_failed repo ident api => fst (markFailed repo ident api rows)
  | so_reclaim repo ident api => fst (reclaimStuckItem repo ident api rows)
  | so_requeue repo ident api => fst (requeueItem repo ident api rows)
  | so_batch now selectFn => fst (batchClaim now selectFn rows)
  | so_sweep nowMs maxLeaseMs => fst (sweepStuckItems nowMs maxLeaseMs rows)
  | so_purge repo => fst (purgeQueueByRepo repo rows)
  end.

Definition run_store (rows : Store) (calls : list store_call) : Store := List.fold_left run_store_call calls rows.

Lemma enqueue_call_cases now item rows :
  enqueue now item rows
  = match normalize_item item with
    | Thrown m => (rows, Thrown m)
    | Normal (api, repo, ident, priority) =>
        let rows' := enqueue_statement api repo ident priority (iso now) rows in
        (rows', match find_key row_key (api, repo, ident) rows' with Some r => Normal (rowToEntry r) | None => Thrown "TypeError" end)
    end.
Proof.
  unfold enqueue, normalize_item, bind, lift, cbind. destruct (normalizeApiBaseUrl _) as [api |]; [| done].
  destruct (normalizeRepoFullName _) as [repo |]; [| done]. destruct (normalizeIdentifier _) as [ident |]; [| done].
  destruct (normalizePriority _) as [q |]; [| done]. by destruct (find_key _ _ _).
Qed.

Lemma normalize_item_ok item api repo ident priority : normalize_item item = Normal (api, repo, ident, priority) ->
  host_text api /\ repo_text repo /\ ident_text ident /\ (0 <= priority)%Q.
Proof.
  unfold normalize_item. intros (a & Ha & H1)%cbind_normal. apply cbind_normal in H1 as (r & Hr & H1).
  apply cbind_normal in H1 as (i & Hi & H1). apply cbind_normal in H1 as (q & Hq & H1). injection H1 as -> -> -> ->.
  split_and!; eauto using normalizeApiBaseUrl_text, normalizeRepoFullName_text, normalizeIdentifier_text, normalizePriority_nonneg.
Qed.

(** A property of stores that every keyed update of the table keeps, is kept by
    a batch claim and by a sweep. *)
Lemma batch_keeps (P : Store -> Prop) now sel rows :
  (forall t s, P s -> P (fst (claimTarget (iso now) (JStr (ct_repoFullName t)) (JStr (ct_identifier t)) (JStr (ct_apiBaseUrl t)) s))) ->
  P rows -> P (fst (batchClaim now sel rows)).
Proof.
  intros K H0. unfold batchClaim. apply transaction_keeps; [done |]. unfold bind, lift. destruct (sel _) as [targets |]; [| done].
  apply (collect_keeps P); [| done]. intros t s. apply K.
Qed.

Lemma sweep_keeps (P : Store -> Prop) nowMs maxLeaseMs rows :
  (forall i s, P s -> P (fst (reclaimStuckItem (JStr (le_repoFullName i)) (JStr (le_identifier i)) (JStr (le_apiBaseUrl i)) s))) ->
  P rows -> P (fst (sweepStuckItems nowMs maxLeaseMs rows)).
Proof.
  intros K H0. unfold sweepStuckItems, bind, lift, listInProgress. destruct (findStuckItems _ _ _) as [stuck |]; [| done].
  apply (collect_keeps P); [| done]. intros i s. apply K.
Qed.

Lemma run_store_call_wf rows c : store_wf rows -> store_wf (run_store_call rows c).
Proof.
  intros W. destruct c as [now item | now | repo i a | repo i a | repo i a | repo i a | now sel | n l | repo]; cbn [run_store_call].
  - rewrite enqueue_call_cases. destruct (normalize_item item) as [[[[api repo] ident] q] |] eqn:E; [| done].
    destruct (normalize_item_ok _ _ _ _ _ E) as (? & ? & ? & ?). by apply enqueue_statement_wf.
  - destruct (waiting rows) as [| first rest] eqn:E; [by rewrite dequeue_empty |].
    rewrite (proj1 (dequeue_first now rows first rest W E)). by apply update_store_wf; [apply lease_changes |].
  - by apply keyed_wf; [apply done_changes |].
  - by apply keyed_wf; [apply failed_changes |].
  - by apply keyed_wf; [apply failed_changes |].
  - by apply keyed_wf; [apply reopened_changes |].
  - apply (batch_keeps store_wf); [| done]. intros t s Ws. by apply keyed_wf; [apply lease_changes |].
  - apply (sweep_keeps store_wf); [| done]. intros t s Ws. by apply keyed_wf; [apply failed_changes |].
  - unfold purgeQueueByRepo, bind, lift. destruct (normalizeRepoFullName repo); [| done]. destruct W as [Hk Hi Hr].
    split; [by apply filter_rows_keys | by apply filter_rows_keys |]. intros r [Hin _]%List.filter_In. by apply Hr.
Qed.
End Histories.

(** Whatever calls the processes that share the queue make, the table keeps one
    row per item, a lease exactly on the rows in progress, and counters that
    agree: failures in a row are at most the returns to the queue, and these,
    with the attempt under way, at most the attempts. *)
Theorem store_calls_wf `{IsoClock} rows calls : store_wf rows -> store_wf (run_store rows calls).
Proof.
  unfold run_store. revert rows. induction calls as [| c calls IH]; intros rows W; [done |]. by apply IH, run_store_call_wf.
Qed.

(** Successive dequeues hand out the waiting items exactly in the order of the
    listing (highest priority first, then earliest, then first inserted), each
    once, and then report that nothing waits. *)
Theorem dequeue_drains_in_order `{IsoClock} times rows : store_wf rows ->
  drain times rows
  = take (length times) (List.map (fun r => Normal (Some (handed_out r))) (in_order (List.filter (has_status q_queued) rows))
                          ++ replicate (length times) (Normal None))%list
  /\ StronglySorted listed (in_order (List.filter (has_status q_queued) rows)).
Proof.
  intros W. split; [| apply StronglySorted_merge_sort; apply _]. fold (waiting rows). revert rows W.
  induction times as [| t ts IH]; intros rows W; [done |]. cbn [drain length replicate].
  destruct (waiting rows) as [| first rest] eqn:E.
  - rewrite dequeue_empty by done. rewrite (IH rows W), E. cbn [List.map app take]. f_equal.
  - destruct (dequeue_first t rows first rest W E) as [D Wt]. rewrite D. cbn [List.map app take]. f_equal.
    rewrite IH by (apply update_store_wf; [apply lease_changes | done]). rewrite Wt.
    change (Normal None :: replicate (length ts) (Normal None)) with (replicate (S (length ts)) (@Normal (option QueueEntry) None)).
    rewrite !take_app. f_equal. rewrite !take_replicate. f_equal. lia.
Qed.

(** ** Held items *)

Definition entry_key (e : QueueEntry) : string * string * string := (qe_apiBaseUrl e, qe_repoFullName e, qe_identifier e).

Definition call_key (repoFullName identifier apiBaseUrl : jsval) : completion (string * string * string) :=
  a <- normalizeApiBaseUrl apiBaseUrl ;; r <- normalizeRepoFullName repoFullName ;; i <- normalizeIdentifier identifier ;; Normal (a, r, i).

(** Calls that may end the lease of item [k]. *)
Definition gives_back (k : string * string * string) (c : store_call) : Prop :=
  match c with
  | so_done repo i a | so_failed repo i a | so_reclaim repo i a => call_key repo i a = Normal k
  | so_sweep _ _ => True
  | so_purge repo => normalizeRepoFullName repo = Normal (snd (fst k))
  | _ => False
  end.

Section Held.
Context `{IsoClock} (k : string * string * string) (r : QueueRow).
Hypothesis (Hr : qr_status r = q_in_progress).

Lemma held_update k' guard f rows : (forall x, row_key (f x) = row_key x) -> k' <> k \/ guard r = false ->
  find_key row_key k rows = Some r -> find_key row_key k (update_where row_key k' guard f rows) = Some r.
Proof.
  intros Hk C F. rewrite find_update by done. destruct (decide (k = k')) as [<- | N]; [| done].
  destruct C as [C | G]; [done |]. rewrite F. cbn. by rewrite G.
Qed.

Lemma held_keyed guard f repo i a rows : (forall x, row_key (f x) = row_key x) -> call_key repo i a <> Normal k \/ guard r = false ->
  find_key row_key k rows = Some r -> find_key row_key k (fst (keyed_update guard f repo i a rows)) = Some r.
Proof.
  intros Hk C F. destruct (keyed_cases guard f repo i a rows) as [[m ->] | (a' & r' & i' & Ea & Er & Ei & ->)]; [done |]. cbn [fst].
  apply held_update; [done | | done]. destruct C as [C | C]; [left | by right]. intros E. apply C. unfold call_key.
  rewrite Ea, Er, Ei. cbn. by rewrite E.
Qed.

Lemma held_status st : st <> q_in_progress -> has_status st r = false.
Proof. intros N. unfold has_status. apply bool_decide_eq_false. congruence. Qed.

Lemma held_step rows c : store_wf rows -> ~ gives_back k c -> find_key row_key k rows = Some r ->
  find_key row_key k (run_store_call rows c) = Some r.
Proof.
  intros W N F. destruct c as [now item | now | repo i a | repo i a | repo i a | repo i a | now sel | n l | repo]; cbn [run_store_call gives_back] in *.
  - rewrite enqueue_call_cases. destruct (normalize_item item) as [[[[api repo] ident] q] |]; [| done]. cbn [fst].
    unfold enqueue_statement. rewrite find_upsert by done. destruct (decide _) as [<- | _]; [| done]. rewrite F.
    unfold has_status. by rewrite bool_decide_true.
  - destruct (waiting rows) as [| first rest] eqn:E; [by rewrite dequeue_empty |].
    rewrite (proj1 (dequeue_first now rows first rest W E)). apply held_update; [done | right; by apply held_status | done].
  - apply held_keyed; [done | by left | done].
  - apply held_keyed; [done | by left | done].
  - apply held_keyed; [done | by left | done].
  - apply held_keyed; [done | right; by apply held_status | done].
  - apply (batch_keeps (fun s => find_key row_key k s = Some r)); [| done]. intros t s Fs.
    apply held_keyed; [done | right; by apply held_status | done].
  - by destruct N.
  - unfold purgeQueueByRepo, bind, lift. destruct (normalizeRepoFullName repo) as [repo' |]; [| done]. cbn [fst].
    apply find_key_in in F as [Hin Hk]. rewrite <- Hk. apply find_key_unique; [apply filter_rows_keys, (sw_keys rows W) |].
    apply List.filter_In. split; [done |]. apply negb_true_iff, String.eqb_neq. intros E. apply N. by rewrite <- Hk, <- E.
Qed.
End Held.

(** An item in progress stays as its holder left it, with its lease, through
    every call of other processes that does not end, fail, reclaim, sweep or
    purge it: it is not handed out again, and enqueuing it again does nothing. *)
Theorem claimed_item_held `{IsoClock} k r rows calls : store_wf rows -> find_key row_key k rows = Some r -> qr_status r = q_in_progress ->
  Forall (fun c => ~ gives_back k c) calls ->
  find_key row_key k (run_store rows calls) = Some r
  /\ (forall now e, snd (dequeueNext now (run_store rows calls)) = Normal (Some e) -> entry_key e <> k).
Proof.
  intros W F Hr Hc.
  assert (G : store_wf (run_store rows calls) /\ find_key row_key k (run_store rows calls) = Some r).
  { unfold run_store. revert rows W F. induction Hc as [| c calls Nc Hc IH]; intros rows W F; [done |]. cbn [List.fold_left].
    apply IH; [by apply run_store_call_wf | by apply held_step]. }
  destruct G as [W' F']. split; [done |]. intros now e D E.
  destruct (waiting (run_store rows calls)) as [| first rest] eqn:Q; [by rewrite dequeue_empty in D |].
  rewrite (proj1 (dequeue_first now _ first rest W' Q)) in D. injection D as <-. change (row_key first = k) in E.
  assert (X : In first (waiting (run_store rows calls))) by (rewrite Q; by left). apply waiting_in in X as [X1 X2].
  rewrite <- E, (find_key_unique row_key _ first (sw_keys _ W') X1) in F'. injection F' as ->. congruence.
Qed.

(** ** The sweep of leases *)

Definition stuck_row `{IsoClock} (nowMs maxLeaseMs : num) (r : QueueRow) : bool :=
  has_status q_in_progress r && lease_due nowMs maxLeaseMs (rowToLeaseEntry r).

Lemma keyed_row guard f r rows : row_ok r ->
  keyed_update guard f (JStr (qr_repoFullName r)) (JStr (qr_identifier r)) (JStr (qr_apiBaseUrl r)) rows
  = (update_where row_key (row_key r) guard f rows, Normal (rowToEntry <$> returning row_key (row_key r) guard f rows)).
Proof. intros [H1 H2 H3 _ _ _]. unfold keyed_update, bind, lift. by rewrite H1, H2, H3. Qed.

(** A loop of keyed updates over rows of the table that all pass the guard. *)
Lemma collect_keyed guard f xs : (forall r, row_key (f r) = row_key r) -> (forall r, guard (f r) = false) ->
  forall rows, NoDup (List.map row_key rows) -> NoDup (List.map row_key xs) ->
  (forall x, In x xs -> row_ok x /\ guard x = true /\ In x rows) ->
  collect (fun x => keyed_update guard f (JStr (qr_repoFullName x)) (JStr (qr_identifier x)) (JStr (qr_apiBaseUrl x))) xs rows
  = (update_all row_key (List.map row_key xs) guard f rows, Normal (List.map (fun x => rowToEntry (f x)) xs)).
Proof.
  intros Hk Hg. induction xs as [| x xs IH]; intros rows Kr Kx Hin; [cbn [collect List.map]; by rewrite update_all_nil |].
  destruct (Hin x (or_introl eq_refl)) as (Hok & Hgx & Hrow). cbn [collect List.map] in *. unfold bind at 1. rewrite keyed_row by done.
  rewrite returning_spec, find_key_unique, Hgx by done. apply nodup_cons_inv in Kx as [Hn Kx]. unfold bind. rewrite IH.
  - cbn. unfold ret. by rewrite update_all_cons.
  - by rewrite update_keys.
  - done.
  - intros y Hy. destruct (Hin y (or_intror Hy)) as (H1 & H2 & H3). split; [done |]. split; [done |].
    apply update_other; [done |]. intros E. apply Hn, list_elem_of_In. rewrite <- E. by apply List.in_map.
Qed.

Lemma collect_lease {B} (g : jsval -> jsval -> jsval -> call Store (option B)) xs rows :
  collect (fun i => g (JStr (le_repoFullName i)) (JStr (le_identifier i)) (JStr (le_apiBaseUrl i))) (List.map rowToLeaseEntry xs) rows
  = collect (fun r => g (JStr (qr_repoFullName r)) (JStr (qr_identifier r)) (JStr (qr_apiBaseUrl r))) xs rows.
Proof.
  revert rows. induction xs as [| x xs IH]; intros rows; [done |]. cbn [List.map collect]. unfold bind. cbn.
  destruct (g _ _ _ rows) as [s [r | m]]; [| done]. by rewrite IH.
Qed.

(** A sweep completes, returns to the queue exactly the items in progress whose
    lease is older than the limit or unreadable, counts each as a failed
    attempt, reports them in listing order, and changes nothing else. *)
Theorem lease_sweep_exact `{IsoClock} nowMs maxLeaseMs rows : store_wf rows ->
  is_finite nowMs && negb (nltb nowMs (nz 0)) = true -> is_finite maxLeaseMs && negb (nltb maxLeaseMs (nz 0)) = true ->
  sweepStuckItems nowMs maxLeaseMs rows
  = (List.map (fun r => if stuck_row nowMs maxLeaseMs r then failed_row r else r) rows,
     Normal (List.map (fun r => rowToEntry (failed_row r)) (List.filter (stuck_row nowMs maxLeaseMs) (in_order (List.filter (has_status q_in_progress) rows))))).
Proof.
  intros W [S1 S2%negb_true_iff]%andb_true_iff [S3 S4%negb_true_iff]%andb_true_iff.
  unfold sweepStuckItems, listInProgress, findStuckItems, bind at 1, bind, lift. rewrite S1, S2, S3, S4. cbn [negb orb].
  set (busy_rows := in_order (List.filter (has_status q_in_progress) rows)).
  assert (F : List.filter (fun item => bool_decide (le_status item = q_in_progress) && lease_due nowMs maxLeaseMs item) (List.map rowToLeaseEntry busy_rows)
              = List.map rowToLeaseEntry (List.filter (stuck_row nowMs maxLeaseMs) busy_rows)).
  { induction busy_rows as [| b bs IH]; [done |]. cbn [List.map List.filter]. rewrite IH.
    change (bool_decide (le_status (rowToLeaseEntry b) = q_in_progress) && lease_due nowMs maxLeaseMs (rowToLeaseEntry b))
      with (stuck_row nowMs maxLeaseMs b). by destruct (stuck_row _ _ b). }
  rewrite F, collect_lease. unfold reclaimStuckItem.
  assert (P : List.filter (stuck_row nowMs maxLeaseMs) busy_rows ≡ₚ List.filter (stuck_row nowMs maxLeaseMs) rows).
  { unfold busy_rows. rewrite (filter_bool_Permutation _ _ _ (in_order_perm _)). clear. induction rows as [| a rows IH]; [done |].
    cbn [List.filter]. unfold stuck_row at 2. destruct (has_status q_in_progress a) eqn:B; cbn [andb List.filter]; [| done].
    unfold stuck_row at 1. rewrite B. cbn [andb]. by destruct (lease_due _ _ _); [constructor |]. }
  rewrite collect_keyed; [| done | done | apply (sw_keys rows W) | |].
  - f_equal. rewrite <- (update_all_filter row_key (stuck_row nowMs maxLeaseMs) (has_status q_in_progress)); [| apply (sw_keys rows W) |].
    + unfold update_all. apply List.map_ext. intros r. erewrite bool_decide_ext; [done |]. by rewrite (Permutation_map row_key P).
    + unfold stuck_row. by intros r [Hr _]%andb_true_iff.
  - rewrite (Permutation_map row_key P). apply filter_rows_keys, (sw_keys rows W).
  - intros x Hx. apply list_elem_of_In in Hx. rewrite P in Hx. apply list_elem_of_In, List.filter_In in Hx as [Hx Hs].
    unfold stuck_row in Hs. apply andb_true_iff in Hs as [Hs _]. split; [by apply (sw_rows rows W) | done].
Qed.

(** ** Examples *)

#[local] Existing Instance toy_clock.

Definition work (ident : string) (priority : Z) : EnqueueItem :=
  mkEnqueue (JStr "acme/widgets") (JStr ident) (JNum (nz priority)) JUndefined.

Definition sample_calls : list store_call :=
  [so_enqueue 1 (work "issue:1" 1); so_enqueue 2 (work "issue:2" 5); so_enqueue 3 (work "issue:3" 5); so_dequeue 4;
   so_enqueue 5 (work "issue:2" 9)].

Definition three_items : Store := run_store [] (firstn 3 sample_calls).
Definition one_taken : Store := run_store [] (firstn 4 sample_calls).

Lemma empty_store_wf : store_wf [].
Proof. split; [apply NoDup_nil_2 | apply NoDup_nil_2 | done]. Qed.

Lemma three_items_wf : store_wf three_items.
Proof. do 3 apply run_store_call_wf. apply empty_store_wf. Qed.

Lemma one_taken_wf : store_wf one_taken.
Proof. do 4 apply run_store_call_wf. apply empty_store_wf. Qed.

Lemma store_calls_wf_witness : store_wf (run_store [] sample_calls).
Proof. exact (store_calls_wf [] sample_calls empty_store_wf). Defined.

Lemma dequeue_drains_in_order_witness :
  List.map (fun o => match o with Normal (Some e) => qe_identifier e | _ => "" end) (drain [4; 5; 6; 7]%Z three_items)
  = ["issue:2"; "issue:3"; "issue:1"; ""].
Proof. rewrite (proj1 (dequeue_drains_in_order [4; 5; 6; 7]%Z three_items three_items_wf)). vm_compute. reflexivity. Defined.

Definition taken_key : string * string * string := ("https://api.github.com", "acme/widgets", "issue:2").
Definition taken_row : QueueRow := default (mkRow 0 "" "" "" (0 # 1) q_done "" None 0 0 0) (find_key row_key taken_key one_taken).

Lemma claimed_item_held_witness :
  find_key row_key taken_key (run_store one_taken [so_enqueue 5 (work "issue:2" 9); so_dequeue 6; so_done (JStr "acme/widgets") (JStr "issue:3") JUndefined])
  = Some taken_row.
Proof.
  refine (proj1 (claimed_item_held taken_key taken_row one_taken _ one_taken_wf eq_refl eq_refl _)).
  repeat (apply List.Forall_cons; [cbn; try tauto; vm_compute; discriminate |]). apply List.Forall_nil.
Defined.

Lemma lease_sweep_exact_witness :
  List.map qr_status (fst (sweepStuckItems (nz 2000000) (nz DEFAULT_MAX_LEASE_MS) one_taken)) = [q_queued; q_queued; q_queued].
Proof. rewrite (lease_sweep_exact (nz 2000000) (nz DEFAULT_MAX_LEASE_MS) one_taken one_taken_wf eq_refl eq_refl). vm_compute. reflexivity. Defined.
