(* ===== verification/PortfolioManager.v ===== *)
(** * Batch claims under work-in-progress caps

    Models [packages/loopover-miner/lib/portfolio-queue-manager.ts]: the stored
    queue of [PortfolioStore] projected into the engine's queue of
    [PortfolioQueue], the engine's capped selection, and the claim of what it
    selected in one transaction.  The host of an item travels through the
    engine inside the item's id, [host::repository::identifier].

    Main results: an id reads back as the item it was made of when the
    identifier does not start with a colon ([queue_item_id_round_trip]); a batch
    claims exactly the selected rows ([batch_claim_exact]); whatever the
    processes that share the queue do between batches, the items in progress
    stay within the global cap and, for every repository of a host, within the
    repository's cap ([wip_never_exceeded]).  The store accepts identifiers that
    start with a colon, and one of those makes every batch that selects it fail
    ([colon_identifier_blocks_batches]). *)

From Stdlib Require Import Ascii QArith Qround ZArith Lia.
From stdpp Require Import base list strings option sets sorting.
From S2P Require Import Prelude JsNumber JsString Ledger PortfolioQueue LedgerAnchor LocalStore PortfolioStore.

Local Open Scope nat_scope.
Local Open Scope string_scope.
Local Open Scope js_scope.

(** ** Item ids *)

Definition ITEM_ID_SEPARATOR : string := "::".

Definition queueItemId (apiBaseUrl repoFullName identifier : string) : string :=
  apiBaseUrl ++ ITEM_ID_SEPARATOR ++ repoFullName ++ ITEM_ID_SEPARATOR ++ identifier.

(** The text before and after [s.lastIndexOf("::")]. *)
Fixpoint cut_last (s : string) : option (string * string) :=
  match s with
  | "" => None
  | String c s' =>
      match cut_last s' with
      | Some (before, after) => Some (String c before, after)
      | None =>
          match s' with
          | String d rest => if Ascii.eqb c ":" && Ascii.eqb d ":" then Some ("", rest) else None
          | "" => None
          end
      end
  end.

Definition parseQueueItemId (id : jsval) : completion PortfolioQueueClaimTarget :=
  match id with
  | JStr id =>
      match cut_last id with
      | Some (beforeIdentifier, identifier) =>
          if str_empty beforeIdentifier || str_empty identifier then Thrown "invalid_queue_item_id"
          else match cut_last beforeIdentifier with
               | Some (apiBaseUrl, repoFullName) =>
                   if str_empty apiBaseUrl || str_empty repoFullName then Thrown "invalid_queue_item_id"
                   else Normal (mkTarget apiBaseUrl repoFullName identifier)
               | None => Thrown "invalid_queue_item_id"
               end
      | None => Thrown "invalid_queue_item_id"
      end
  | _ => Thrown "invalid_queue_item_id"
  end.

(** ** Caps *)

(** [Partial<PortfolioCaps>]. *)
Record PartialCaps := mkPartialCaps { pc_globalWipCap : option num; pc_perRepoWipCap : option num }.

Definition normalize_cap (value : option num) : num :=
  match value with
  | Some PInf => PInf
  | Some v => if is_finite v then nmax (nz 0) (ntrunc v) else nz 0
  | None => nz 0
  end.

Definition normalizePortfolioCaps (caps : PartialCaps) : PortfolioCaps :=
  mkCaps (normalize_cap (pc_globalWipCap caps)) (normalize_cap (pc_perRepoWipCap caps)).

(** ** Projection into the engine's queue *)

Definition newline : string := String (ascii_of_nat 10) "".

Definition entry_host (entry : QueueEntry) : string :=
  if str_empty (trim (qe_apiBaseUrl entry)) then DEFAULT_apiBaseUrl else trim (qe_apiBaseUrl entry).

(** The grouping key: host and repository. *)
Definition repo_key (host repoFullName : string) : string := host ++ newline ++ toLowerCase repoFullName.

Definition engine_state (st : QueueStatus) : PortfolioQueueItemState :=
  match st with q_in_progress => in_progress | _ => queued end.

(** [bucketsByRepo] with [bucketOrder]: buckets by key, in the order of their
    first entry. *)
Fixpoint add_to_bucket (key repoLower : string) (item : PortfolioQueueItem) (buckets : list (string * PortfolioQueueBucket))
    : list (string * PortfolioQueueBucket) :=
  match buckets with
  | [] => [(key, mkQBucket repoLower [item])]
  | (k, b) :: rest =>
      if String.eqb k key then (k, mkQBucket (qb_repoFullName b) (qb_items b ++ [item])%list) :: rest
      else (k, b) :: add_to_bucket key repoLower item rest
  end.

Definition add_entry (buckets : list (string * PortfolioQueueBucket)) (entry : QueueEntry) : list (string * PortfolioQueueBucket) :=
  let repoFullName := trim (qe_repoFullName entry) in
  let identifier := trim (qe_identifier entry) in
  if str_empty repoFullName || str_empty identifier then buckets
  else
    let apiBaseUrl := entry_host entry in
    let repoKey := repo_key apiBaseUrl repoFullName in
    add_to_bucket repoKey (toLowerCase repoFullName)
      (mkItem (queueItemId apiBaseUrl repoFullName identifier) repoKey (engine_state (qe_status entry))) buckets.

Definition entriesToPortfolioQueue (entries : list QueueEntry) : PortfolioQueue :=
  let activeEntries := List.filter (fun entry => negb (bool_decide (qe_status entry = q_done))) entries in
  List.map snd (List.fold_left add_entry activeEntries []).

(** [items.map(parse)], which throws with the first item that does. *)
Fixpoint parse_ids (ids : list string) : completion (list PortfolioQueueClaimTarget) :=
  match ids with
  | [] => Normal []
  | id :: rest => t <- parseQueueItemId (JStr id) ;; ts <- parse_ids rest ;; Normal (t :: ts)
  end.

Definition selectEligibleBatch (caps : PortfolioCaps) (entries : list QueueEntry) : completion (list PortfolioQueueClaimTarget) :=
  let normalizedCaps := normalizePortfolioCaps (mkPartialCaps (Some (globalWipCap caps)) (Some (perRepoWipCap caps))) in
  parse_ids (List.map it_id (nextEligibleItems (entriesToPortfolioQueue entries) normalizedCaps)).

(** ** The manager *)

(** What [initPortfolioQueueManager] resolves from its options. *)
Record PortfolioQueueManager := mkManager { pm_caps : PortfolioCaps; pm_staleLeaseMs : num }.

Definition initPortfolioQueueManager (caps : option PartialCaps) (staleLeaseMs : option num) : PortfolioQueueManager :=
  mkManager (normalizePortfolioCaps (caps ?? mkPartialCaps (Some (nz 1)) (Some (nz 1))))
            (match staleLeaseMs with Some v => if is_finite v then v else nz DEFAULT_MAX_LEASE_MS | None => nz DEFAULT_MAX_LEASE_MS end).

Section Manager.
Context `{IsoClock}.

Definition reclaimStuckItems (manager : PortfolioQueueManager) (now : Z) (maxLeaseMs : option num) : call Store (list QueueEntry) :=
  sweepStuckItems (nz now) (maxLeaseMs ?? pm_staleLeaseMs manager).

Definition claimNextBatch (manager : PortfolioQueueManager) (sweepNow now : Z) : call Store (list QueueEntry) :=
  _ <~ sweepStuckItems (nz sweepNow) (pm_staleLeaseMs manager) ;;
  batchClaim now (selectEligibleBatch (pm_caps manager)).
End Manager.

(** ** Ids read back *)

Definition leading_colon (s : string) : bool := match s with String c _ => Ascii.eqb c ":" | "" => false end.

Lemma cut_last_none s : includes_separator s = false -> cut_last s = None.
Proof.
  induction s as [| c s IH]; [done |]. cbn [includes_separator cut_last]. intros [N1 N2]%orb_false_iff. rewrite IH by done.
  destruct s as [| d s]; [done |]. by rewrite N1.
Qed.

Lemma cut_last_app a b : includes_separator b = false -> leading_colon b = false -> cut_last (a ++ ITEM_ID_SEPARATOR ++ b) = Some (a, b).
Proof.
  intros N L. induction a as [| c a IH].
  - change ("" ++ ITEM_ID_SEPARATOR ++ b) with (String ":" (String ":" b)). cbn [cut_last]. rewrite cut_last_none by done.
    destruct b as [| d b]; [done |]. cbn [leading_colon] in L. by rewrite L.
  - rewrite string_app_cons. cbn [cut_last]. by rewrite IH.
Qed.

Lemma no_colon_facts s : str_forallb (fun c => negb (Ascii.eqb c ":")) s = true -> includes_separator s = false /\ leading_colon s = false.
Proof.
  induction s as [| c s IH]; [done |]. cbn [str_forallb includes_separator leading_colon]. intros [Hc%negb_true_iff Hs]%andb_true_iff.
  rewrite Hc. destruct (IH Hs) as [-> _]. done.
Qed.

Lemma snoc_colon_facts s : str_forallb (fun c => negb (Ascii.eqb c ":")) s = true -> s <> "" ->
  includes_separator (s ++ ":") = false /\ leading_colon (s ++ ":") = false.
Proof.
  induction s as [| c s IH]; [done |]. cbn [str_forallb]. intros [Hc%negb_true_iff Hs]%andb_true_iff _. rewrite string_app_cons.
  cbn [includes_separator leading_colon]. rewrite Hc. destruct (decide (s = "")) as [-> | Ne]; [done |]. by destruct (IH Hs Ne) as [-> _].
Qed.

Lemma ident_text_facts s : ident_text s -> trim s = s /\ s <> "" /\ includes_separator s = false.
Proof.
  unfold ident_text. cbn. destruct (str_empty (trim s)) eqn:E; [discriminate |]. destruct (includes_separator (trim s)) eqn:I; [discriminate |].
  intros [= ET]. rewrite ET in *. split; [done |]. split; [by apply str_empty_false | done].
Qed.

(** The two cuts of an id: an identifier that starts with a colon loses it to
    the repository. *)
Definition id_parts (api repo ident : string) : string * string * string :=
  match ident with
  | String c x => if Ascii.eqb c ":" then (api, repo ++ ":", x) else (api, repo, ident)
  | "" => (api, repo, ident)
  end.

Definition two_cuts (id : string) : option (string * string * string) :=
  match cut_last id with
  | Some (before, last) => match cut_last before with Some (first, mid) => Some (first, mid, last) | None => None end
  | None => None
  end.

Lemma queueItemId_cuts api repo ident : repo_text repo -> ident_text ident ->
  two_cuts (queueItemId api repo ident) = Some (id_parts api repo ident)
  /\ cut_last (queueItemId api repo ident)
     = Some (if leading_colon ident then (api ++ ITEM_ID_SEPARATOR ++ repo ++ ":", snd (id_parts api repo ident))
             else (api ++ ITEM_ID_SEPARATOR ++ repo, ident)).
Proof.
  intros Hr Hi. pose proof (repo_text_colon repo Hr) as Hc. destruct (no_colon_facts repo Hc) as [N1 L1].
  destruct (snoc_colon_facts repo Hc (repo_text_nonempty repo Hr)) as [N2 L2]. destruct (ident_text_facts ident Hi) as (_ & Ne & Ni).
  destruct (leading_colon ident) eqn:L.
  - destruct ident as [| c x]; [done |]. cbn [leading_colon] in L. apply Ascii.eqb_eq in L as ->. cbn [includes_separator] in Ni.
    apply orb_false_iff in Ni as [Nx Ni]. cbn [id_parts snd Ascii.eqb Bool.eqb].
    assert (E : queueItemId api repo (String ":" x) = (api ++ ITEM_ID_SEPARATOR ++ repo ++ ":") ++ ITEM_ID_SEPARATOR ++ x).
    { unfold queueItemId. rewrite !string_app_assoc. reflexivity. }
    assert (C : cut_last (queueItemId api repo (String ":" x)) = Some (api ++ ITEM_ID_SEPARATOR ++ repo ++ ":", x)).
    { rewrite E. apply cut_last_app; [done |]. by destruct x. }
    split; [| exact C]. unfold two_cuts. rewrite C. by rewrite cut_last_app.
  - assert (C : cut_last (queueItemId api repo ident) = Some (api ++ ITEM_ID_SEPARATOR ++ repo, ident)).
    { replace (queueItemId api repo ident) with ((api ++ ITEM_ID_SEPARATOR ++ repo) ++ ITEM_ID_SEPARATOR ++ ident)
        by (unfold queueItemId; by rewrite !string_app_assoc). by apply cut_last_app. }
    split; [| exact C]. unfold two_cuts. rewrite C, cut_last_app by done. destruct ident as [| c x]; [done |].
    cbn [leading_colon] in L. cbn [id_parts]. by rewrite L.
Qed.

Lemma id_round_trip api repo ident : host_text api -> repo_text repo -> ident_text ident ->
  parseQueueItemId (JStr (queueItemId api repo ident))
  = if leading_colon ident
    then if String.eqb ident ":" then Thrown "invalid_queue_item_id" else Normal (mkTarget api (repo ++ ":") (snd (id_parts api repo ident)))
    else Normal (mkTarget api repo ident).
Proof.
  intros Ha Hr Hi. destruct (queueItemId_cuts api repo ident Hr Hi) as [T C]. destruct (host_text_trim api Ha) as [_ Na].
  pose proof (repo_text_nonempty repo Hr) as Nr. destruct (ident_text_facts ident Hi) as (_ & Ni & _).
  assert (E : forall x y, str_empty (api ++ x) = false /\ (y <> "" -> str_empty (y ++ x) = false)).
  { intros x y. split; [by destruct api | by destruct y]. }
  unfold two_cuts in T. unfold parseQueueItemId. rewrite C in *. destruct (leading_colon ident) eqn:L.
  - destruct ident as [| c x]; [done |]. cbn [leading_colon] in L. apply Ascii.eqb_eq in L as ->. cbn [id_parts snd Ascii.eqb Bool.eqb] in *.
    rewrite (proj1 (E _ "")). destruct x as [| d x]; [done |]. cbn [str_empty orb] in *.
    destruct (cut_last (api ++ ITEM_ID_SEPARATOR ++ repo ++ ":")) as [[f m] |]; [| done]. injection T as -> ->. rewrite (proj2 (E ":" repo) Nr). by destruct api.
  - rewrite (proj1 (E _ "")). destruct ident as [| c x]; [done |]. cbn [str_empty orb leading_colon id_parts] in *. rewrite L in T.
    destruct (cut_last (api ++ ITEM_ID_SEPARATOR ++ repo)) as [[f m] |]; [| done]. injection T as -> ->. by destruct api, repo.
Qed.

(** An id made of a host, a repository and an identifier as the store keeps
    them reads back as the same three, unless the identifier starts with a
    colon. *)
Theorem queue_item_id_round_trip api repo ident : host_text api -> repo_text repo -> ident_text ident -> leading_colon ident = false ->
  parseQueueItemId (JStr (queueItemId api repo ident)) = Normal (mkTarget api repo ident).
Proof. intros Ha Hr Hi L. by rewrite id_round_trip, L. Qed.

(** ** The projection keeps the items *)

Lemma trim_keeps_ends a b : trim a = a -> a <> "" -> trim b = b -> b <> "" -> forall m, trim (a ++ m ++ b) = a ++ m ++ b.
Proof.
  intros Ta Na Tb Nb m.
  assert (Eb : trim_end b = b).
  { unfold trim in Tb. rewrite <- Tb. by rewrite trim_end_idem. }
  assert (K : forall p, trim_end (p ++ b) = p ++ b).
  { induction p as [| c p IH]; [done |]. rewrite string_app_cons. cbn [trim_end]. rewrite IH. destruct p, b; done. }
  unfold trim at 1. unfold trim in Ta. destruct (trim_start_head a) as [E | (c & t & E & Hc)]; [rewrite E in Ta; by subst a |].
  assert (Ha : exists u, a = String c u).
  { rewrite E in Ta. destruct (trim_end_head c t Hc) as [u Hu]. exists u. congruence. }
  destruct Ha as [u ->]. rewrite string_app_cons, trim_start_nonspace by done. by rewrite <- string_app_cons, <- string_app_assoc, K.
Qed.

Definition row_group (r : QueueRow) : string := cleanRepoFullName (repo_key (qr_apiBaseUrl r) (qr_repoFullName r)).

Definition row_item (r : QueueRow) : PortfolioQueueItem :=
  mkItem (queueItemId (qr_apiBaseUrl r) (qr_repoFullName r) (qr_identifier r)) (row_group r) (engine_state (qr_status r)).

Lemma add_to_bucket_items key low item bs :
  all_items (List.map snd (add_to_bucket key low item bs)) ≡ₚ (normalizeItem item :: all_items (List.map snd bs))%list.
Proof.
  induction bs as [| [k b] bs IH]; [done |]. cbn [add_to_bucket]. destruct (String.eqb k key); unfold all_items in *; cbn [List.map snd List.flat_map] in *.
  - cbn [qb_items]. rewrite List.map_app. cbn [List.map]. rewrite <- app_assoc. cbn [app]. by rewrite <- Permutation_middle.
  - rewrite IH. by rewrite <- Permutation_middle.
Qed.

Lemma add_entry_row bs r : row_ok r ->
  all_items (List.map snd (add_entry bs (rowToEntry r))) ≡ₚ (row_item r :: all_items (List.map snd bs))%list.
Proof.
  intros [Ha Hr Hi _ _ _]. destruct (host_text_trim _ Ha) as [Ta Na]. pose proof (repo_text_trim _ Hr) as Tr.
  pose proof (repo_text_nonempty _ Hr) as Nr. destruct (ident_text_facts _ Hi) as (Ti & Ni & _).
  unfold add_entry, entry_host, rowToEntry. cbn [qe_repoFullName qe_identifier qe_apiBaseUrl qe_status]. rewrite Ta, Tr, Ti.
  rewrite !(proj2 (str_empty_false _)) by done. cbn [orb]. rewrite add_to_bucket_items. unfold normalizeItem, row_item, cleanId, queueItemId.
  cbn [it_id it_repoFullName it_state].
  pose proof (trim_keeps_ends _ _ Ta Na Ti Ni (ITEM_ID_SEPARATOR ++ qr_repoFullName r ++ ITEM_ID_SEPARATOR)) as T.
  rewrite !string_app_assoc in T. rewrite T. by destruct (qr_status r).
Qed.

Lemma project_items rows : (forall r, In r rows -> row_ok r /\ is_open r = true) ->
  all_items (entriesToPortfolioQueue (List.map rowToEntry rows)) ≡ₚ List.map row_item rows.
Proof.
  intros H. unfold entriesToPortfolioQueue. rewrite filter_all_in.
  - assert (G : forall bs, all_items (List.map snd (List.fold_left add_entry (List.map rowToEntry rows) bs))
      ≡ₚ (List.map row_item rows ++ all_items (List.map snd bs))%list).
    { induction rows as [| r rows IH]; intros bs; [done |]. cbn [List.map List.fold_left]. rewrite IH by (intros x Hx; apply H; by right).
      rewrite add_entry_row by (apply H; by left). by rewrite <- Permutation_middle. }
    rewrite G. by rewrite app_nil_r.
  - intros e (r & <- & Hr)%List.in_map_iff. destruct (H r Hr) as [_ O]. unfold is_open, has_status in O. apply negb_true_iff, bool_decide_eq_false.
    cbn. intros E. rewrite E in O. done.
Qed.

(** ** Items in progress *)

(** The items in progress of the groups [w] selects. *)
Definition wip (w : string -> bool) (rows : Store) : nat := count (fun r => has_status q_in_progress r && w (row_group r)) rows.

Definition open_rows (rows : Store) : list QueueRow := in_order (List.filter is_open rows).

Definition queue_of (rows : Store) : PortfolioQueue := entriesToPortfolioQueue (List.map rowToEntry (open_rows rows)).

Lemma open_rows_in rows r : store_wf rows -> In r (open_rows rows) -> In r rows /\ row_ok r /\ is_open r = true.
Proof.
  intros W. unfold open_rows. rewrite in_order_in, List.filter_In. intros [H1 H2]. split; [done |]. split; [by apply (sw_rows rows W) | done].
Qed.

Lemma queue_of_items rows : store_wf rows -> all_items (queue_of rows) ≡ₚ List.map row_item (open_rows rows).
Proof. intros W. apply project_items. intros r Hr. by apply open_rows_in in Hr as [_ Hr]. Qed.

Lemma queue_of_length rows : store_wf rows -> length (all_items (queue_of rows)) <= length rows.
Proof.
  intros W. rewrite (Permutation_length (queue_of_items rows W)), List.length_map. unfold open_rows.
  rewrite (Permutation_length (in_order_perm _)). apply List.filter_length_le.
Qed.

Lemma active_wip w rows : store_wf rows ->
  length (List.filter (fun i => w (it_repoFullName i) && isActiveItem i) (all_items (queue_of rows))) = wip w rows.
Proof.
  intros W. rewrite (Permutation_length (filter_bool_Permutation _ _ _ (queue_of_items rows W))). unfold open_rows.
  rewrite (Permutation_length (filter_bool_Permutation _ _ _ (Permutation_map row_item (in_order_perm _)))).
  unfold wip, count. clear W. induction rows as [| r rows IH]; [done |]. cbn [List.filter].
  assert (H : isActiveItem (row_item r) = has_status q_in_progress r /\ (has_status q_in_progress r = true -> is_open r = true)).
  { unfold is_open, has_status, isActiveItem, row_item. cbn [it_state]. by destruct (qr_status r). }
  destruct H as [HA HO]. destruct (has_status q_in_progress r), (is_open r); cbn [List.map List.filter andb]; rewrite ?HA;
    cbn [it_repoFullName row_item]; rewrite ?andb_false_r, ?andb_true_r; try exact IH; [| by specialize (HO eq_refl)].
  destruct (w (row_group r)); cbn [length]; by rewrite IH.
Qed.

Lemma active_in_wip g rows : store_wf rows -> active_in g (all_items (queue_of rows)) = wip (fun x => String.eqb x g) rows.
Proof. apply (active_wip (fun x => String.eqb x g)). Qed.

Lemma active_all_wip rows : store_wf rows -> active_all (all_items (queue_of rows)) = wip (fun _ => true) rows.
Proof. apply (active_wip (fun _ => true)). Qed.

(** *** What is selected are rows of the table *)

Lemma images_rows {A B} (f : A -> B) (P : A -> Prop) ys : (forall y, In y ys -> exists x, P x /\ y = f x) ->
  exists xs, ys = List.map f xs /\ forall x, In x xs -> P x.
Proof.
  induction ys as [| y ys IH]; intros H; [by exists [] |]. destruct (H y (or_introl eq_refl)) as (x & Px & ->).
  destruct IH as (xs & -> & Hxs); [intros z Hz; apply H; by right |]. exists (x :: xs). split; [done |]. intros z [-> | Hz]; auto.
Qed.

Lemma selected_rows rows caps : store_wf rows -> caps_ok caps -> safe_length (length rows) ->
  exists xs, nextEligibleItems (queue_of rows) caps = List.map row_item xs /\ forall x, In x xs -> In x rows /\ row_ok x /\ is_open x = true.
Proof.
  intros W Hc Hl. apply (images_rows row_item (fun x => In x rows /\ row_ok x /\ is_open x = true)). intros i Hi.
  assert (Hs : safe_length (length (all_items (queue_of rows)))) by (pose proof (queue_of_length rows W); unfold safe_length in *; lia).
  destruct (nextEligibleItems_fifo (queue_of rows) caps (it_repoFullName i) Hc Hs) as [rest E].
  assert (X : In i (queued_in (it_repoFullName i) (all_items (queue_of rows)))).
  { rewrite E. apply List.in_app_iff. left. apply List.filter_In. split; [done |]. apply String.eqb_refl. }
  apply List.filter_In in X as [X _]. apply list_elem_of_In in X. rewrite (queue_of_items rows W) in X.
  apply list_elem_of_In, List.in_map_iff in X as (x & <- & Hx). exists x. by split; [apply open_rows_in |].
Qed.

(** *** A claim takes one row *)

Definition target_of (r : QueueRow) : PortfolioQueueClaimTarget :=
  if leading_colon (qr_identifier r)
  then mkTarget (qr_apiBaseUrl r) (qr_repoFullName r ++ ":") (snd (id_parts (qr_apiBaseUrl r) (qr_repoFullName r) (qr_identifier r)))
  else mkTarget (qr_apiBaseUrl r) (qr_repoFullName r) (qr_identifier r).

Lemma parse_row_id r : row_ok r ->
  parseQueueItemId (JStr (it_id (row_item r)))
  = if String.eqb (qr_identifier r) ":" then Thrown "invalid_queue_item_id" else Normal (target_of r).
Proof.
  intros [Ha Hr Hi _ _ _]. cbn [it_id row_item]. rewrite id_round_trip by done. unfold target_of.
  destruct (leading_colon (qr_identifier r)) eqn:L; [done |]. destruct (String.eqb_spec (qr_identifier r) ":") as [E | _]; [| done].
  rewrite E in L. discriminate.
Qed.

Lemma parse_row_ids xs : (forall x, In x xs -> row_ok x) ->
  parse_ids (List.map it_id (List.map row_item xs))
  = if existsb (fun x => String.eqb (qr_identifier x) ":") xs then Thrown "invalid_queue_item_id" else Normal (List.map target_of xs).
Proof.
  induction xs as [| x xs IH]; intros H; [done |]. cbn [List.map parse_ids existsb]. rewrite parse_row_id by (apply H; by left).
  destruct (String.eqb (qr_identifier x) ":"); [done |]. cbn [cbind orb]. rewrite IH by (intros y Hy; apply H; by right).
  by destruct (existsb _ xs).
Qed.

Lemma colon_repo_rejected s : exists m, normalizeRepoFullName (JStr (s ++ ":")) = Thrown m.
Proof.
  destruct (normalizeRepoFullName (JStr (s ++ ":"))) as [r | m] eqn:E; [| by exists m]. exfalso.
  pose proof (normalizeRepoFullName_text _ _ E) as T. apply normalizeRepoFullName_trim in E. apply repo_text_colon in T. subst r.
  assert (N : forall p, str_forallb (fun c => negb (Ascii.eqb c ":")) (trim_end (p ++ ":")) = false).
  { induction p as [| c p IH]; [done |]. rewrite string_app_cons. cbn [trim_end]. destruct (trim_end (p ++ ":")) as [| d t] eqn:F; [done |].
    cbn [str_forallb] in *. by rewrite IH, andb_false_r. }
  assert (S : exists p, trim_start (s ++ ":") = p ++ ":").
  { clear. induction s as [| c s IH]; [by exists "" |]. rewrite string_app_cons. cbn [trim_start]. destruct (is_space c); [done |].
    by exists (String c s). }
  destruct S as [p S]. unfold trim in T. by rewrite S, N in T.
Qed.

Section Claims.
Context `{IsoClock}.

Definition claim_row (leasedAt : string) (t : PortfolioQueueClaimTarget) : call Store (option QueueEntry) :=
  claimTarget leasedAt (JStr (ct_repoFullName t)) (JStr (ct_identifier t)) (JStr (ct_apiBaseUrl t)).

Lemma claim_colon_throws at_ r rows : leading_colon (qr_identifier r) = true -> row_ok r ->
  exists m, claim_row at_ (target_of r) rows = (rows, Thrown m).
Proof.
  intros L [Ha _ _ _ _ _]. unfold claim_row, claimTarget, target_of. rewrite L. cbn [ct_repoFullName ct_identifier ct_apiBaseUrl].
  unfold keyed_update, bind, lift. rewrite Ha. destruct (colon_repo_rejected (qr_repoFullName r)) as [m ->]. by exists m.
Qed.

Lemma claim_row_step at_ r rows : leading_colon (qr_identifier r) = false -> row_ok r ->
  claim_row at_ (target_of r) rows
  = (update_where row_key (row_key r) (has_status q_queued) (lease_row at_) rows,
     Normal (rowToEntry <$> returning row_key (row_key r) (has_status q_queued) (lease_row at_) rows)).
Proof. intros L Ok. unfold claim_row, target_of. rewrite L. by apply keyed_row. Qed.

Lemma wip_lease w at_ r rows : NoDup (List.map row_key rows) ->
  wip w (update_where row_key (row_key r) (has_status q_queued) (lease_row at_) rows) <= wip w rows + (if w (row_group r) then 1 else 0).
Proof.
  intros Hn. destruct (w (row_group r)) eqn:E; [by apply count_update_le |]. rewrite Nat.add_0_r. apply count_map_le.
  intros x _. case_bool_decide as K; [| done]. destruct (has_status q_queued x); cbn [andb]; [| done].
  assert (G : row_group (lease_row at_ x) = row_group r) by (injection K as K1 K2 _; unfold row_group; cbn; by rewrite K1, K2).
  by rewrite G, E, andb_false_r.
Qed.

Lemma collect_wip w at_ xs : (forall x, In x xs -> row_ok x) -> forall rows, NoDup (List.map row_key rows) ->
  let '(rows', out) := collect (claim_row at_) (List.map target_of xs) rows in
  (exists m, out = Thrown m) \/ wip w rows' <= wip w rows + count (fun x => w (row_group x)) xs.
Proof.
  induction xs as [| x xs IH]; intros Hok rows Hn; [right; cbn; lia |]. cbn [List.map collect]. unfold bind at 1.
  assert (Ox : row_ok x) by (apply Hok; by left). destruct (leading_colon (qr_identifier x)) eqn:L.
  - destruct (claim_colon_throws at_ x rows L Ox) as [m ->]. left. by exists m.
  - rewrite claim_row_step by done. pose proof (wip_lease w at_ x rows Hn) as Hw.
    set (rows1 := update_where _ _ _ _ rows) in *. assert (N1 : NoDup (List.map row_key rows1)) by (unfold rows1; by rewrite update_keys).
    specialize (IH (fun y Hy => Hok y (or_intror Hy)) rows1 N1). unfold bind, ret.
    destruct (collect (claim_row at_) (List.map target_of xs) rows1) as [rows2 [out | m]]; [| left; by exists m]. right. destruct IH as [[m ?] | IH]; [done |].
    unfold count in *. cbn [List.filter]. destruct (w (row_group x)); cbn [length]; lia.
Qed.
End Claims.

(** ** The caps hold *)

Lemma cap_normal c : cap_ok c -> normalize_cap (Some c) = c /\ finiteNonNegativeInt c = c.
Proof.
  intros [-> | (z & Hz & ->)]; [done |]. unfold normalize_cap, finiteNonNegativeInt.
  change (match nz z with PInf => PInf | _ => if is_finite (nz z) then nmax (nz 0) (ntrunc (nz z)) else nz 0 end)
    with (nmax (nz 0) (ntrunc (nz z))).
  change (match nz z with PInf => PInf | _ => if negb (is_finite (nz z)) then nz 0 else nmax (nz 0) (ntrunc (nz z)) end)
    with (nmax (nz 0) (ntrunc (nz z))).
  rewrite ntrunc_nz, nz_max, Z.max_r by lia. done.
Qed.

(** Caps as the manager keeps them. *)
Definition manager_caps_ok (caps : PortfolioCaps) : Prop := cap_ok (globalWipCap caps) /\ cap_ok (perRepoWipCap caps).

Lemma caps_normal caps : manager_caps_ok caps ->
  normalizePortfolioCaps (mkPartialCaps (Some (globalWipCap caps)) (Some (perRepoWipCap caps))) = caps /\ normalizeCaps caps = caps /\ caps_ok caps.
Proof.
  destruct caps as [g p]. intros [Hg Hp]. cbn [globalWipCap perRepoWipCap] in *. destruct (cap_normal g Hg) as [G1 G2], (cap_normal p Hp) as [P1 P2].
  assert (E : normalizeCaps (mkCaps g p) = mkCaps g p) by (unfold normalizeCaps; cbn [globalWipCap perRepoWipCap]; by rewrite G2, P2).
  split; [| split; [done |]].
  - unfold normalizePortfolioCaps. cbn [pc_globalWipCap pc_perRepoWipCap]. by rewrite G1, P1.
  - unfold caps_ok. by rewrite E.
Qed.

Definition within_caps (caps : PortfolioCaps) (rows : Store) : Prop :=
  nleb (nnat (wip (fun _ => true) rows)) (globalWipCap caps) = true
  /\ forall g, nleb (nnat (wip (fun x => String.eqb x g) rows)) (perRepoWipCap caps) = true.

Lemma nleb_nnat_mono a b c : a <= b -> nleb (nnat b) c = true -> nleb (nnat a) c = true.
Proof. intros L. apply nleb_trans. unfold nnat. apply nleb_fin. rewrite <- Zle_Qle. lia. Qed.

(** Calls that lower the number of items in progress. *)
Lemma within_less caps rows rows' : (forall w, wip w rows' <= wip w rows) -> within_caps caps rows -> within_caps caps rows'.
Proof. intros L [W1 W2]. split; [| intros g]; eapply nleb_nnat_mono; [apply L | done | apply L | done]. Qed.

Section History.
Context `{IsoClock}.

Lemma batch_claim_within caps now rows : store_wf rows -> manager_caps_ok caps -> safe_length (length rows) ->
  within_caps caps rows -> within_caps caps (fst (batchClaim now (selectEligibleBatch caps) rows)).
Proof.
  intros W Hc Hl B. destruct (caps_normal caps Hc) as (N1 & N2 & Ok). unfold batchClaim, transaction, bind at 1, bind, lift, selectEligibleBatch.
  rewrite N1. fold (open_rows rows). fold (queue_of rows).
  assert (Hs : safe_length (length (all_items (queue_of rows)))) by (pose proof (queue_of_length rows W); unfold safe_length in *; lia).
  destruct (nextEligibleItems_respects_caps (queue_of rows) caps Ok Hs) as [Cg Cr].
  destruct (selected_rows rows caps W Ok Hl) as (xs & E & Hx). rewrite E in *. rewrite parse_row_ids by (intros x Hi; by apply Hx).
  destruct (existsb _ xs); [done |]. rewrite N2 in *.
  assert (K : forall w, let '(rows', out) := collect (claim_row (iso now)) (List.map target_of xs) rows in
    (exists m, out = Thrown m) \/ wip w rows' <= wip w rows + count (fun x => w (row_group x)) xs).
  { intros w. apply collect_wip; [intros x Hi; by apply Hx | apply (sw_keys rows W)]. }
  fold (claim_row (iso now)). destruct (collect (claim_row (iso now)) (List.map target_of xs) rows) as [rows' [out | m]]; [| done].
  assert (K' : forall w, wip w rows' <= wip w rows + count (fun x => w (row_group x)) xs) by (intros w; destruct (K w) as [[m ?] | ?]; done).
  cbn [fst]. destruct B as [B1 B2]. split.
  - eapply nleb_nnat_mono; [apply K' |]. unfold count. rewrite filter_all_in by done. destruct Cg as [Z | L].
    + apply map_eq_nil in Z as ->. by rewrite Nat.add_0_r.
    + rewrite active_all_wip, List.length_map in L by done. done.
  - intros g. eapply nleb_nnat_mono; [apply K' |]. assert (C : length (List.filter (of_repo g) (List.map row_item xs)) = count (fun x => String.eqb (row_group x) g) xs).
    { clear. unfold count. induction xs as [| x xs IH]; [done |]. cbn [List.map List.filter]. unfold of_repo at 1. cbn [it_repoFullName row_item].
      destruct (String.eqb (row_group x) g); cbn [length]; by rewrite IH. }
    specialize (Cr g). cbv zeta in Cr. rewrite C, active_in_wip in Cr by done. destruct Cr as [-> | L]; [by rewrite Nat.add_0_r | done].
Qed.

(** *** Other calls *)

Lemma wip_update w k guard f rows : (forall r, qr_status (f r) <> q_in_progress) -> wip w (update_where row_key k guard f rows) <= wip w rows.
Proof.
  intros Hf. unfold wip, update_where. apply count_map_le. intros r _. destruct (_ && guard r); [| done].
  unfold has_status at 1. rewrite bool_decide_false by apply Hf. done.
Qed.

Lemma wip_keyed w guard f repo i a rows : (forall r, qr_status (f r) <> q_in_progress) -> wip w (fst (keyed_update guard f repo i a rows)) <= wip w rows.
Proof.
  intros Hf. destruct (keyed_cases guard f repo i a rows) as [[m ->] | (a' & r' & i' & _ & _ & _ & ->)]; [done |]. by apply wip_update.
Qed.

Lemma wip_enqueue w now item rows : wip w (fst (enqueue now item rows)) <= wip w rows.
Proof.
  rewrite enqueue_call_cases. destruct (normalize_item item) as [[[[api repo] ident] q] |]; [| done]. cbn [fst]. unfold enqueue_statement, upsert.
  destruct (find_key _ _ _); [by apply wip_update |]. unfold wip. rewrite row_count_app. fold (wip w rows). fold (wip w [mkRow (next_rowid rows) api repo ident q q_queued (iso now) None 0 0 0]).
  change (wip w [mkRow (next_rowid rows) api repo ident q q_queued (iso now) None 0 0 0]) with 0. lia.
Qed.

Lemma wip_sweep w nowMs maxLeaseMs rows : wip w (fst (sweepStuckItems nowMs maxLeaseMs rows)) <= wip w rows.
Proof.
  apply (sweep_keeps (fun s => wip w s <= wip w rows)); [| done]. intros i s Hs. etransitivity; [| exact Hs]. by apply wip_keyed.
Qed.

Lemma wip_purge w repo rows : wip w (fst (purgeQueueByRepo repo rows)) <= wip w rows.
Proof.
  unfold purgeQueueByRepo, bind, lift. destruct (normalizeRepoFullName repo) as [r |]; [| done]. cbn [fst]. unfold wip, count.
  induction rows as [| a rows IH]; [done |]. cbn [List.filter]. destruct (negb _); cbn [List.filter]; destruct (_ && w _); cbn [length]; lia.
Qed.

(** Calls that hand out items by other rules than the caps. *)
Definition hands_out (c : store_call) : bool := match c with so_dequeue _ | so_batch _ _ => true | _ => false end.

Lemma wip_call w rows c : hands_out c = false -> wip w (run_store_call rows c) <= wip w rows.
Proof.
  destruct c as [now item | now | repo i a | repo i a | repo i a | repo i a | now sel | n l | repo]; try discriminate; intros _; cbn [run_store_call];
    first [apply wip_enqueue | apply wip_sweep | apply wip_purge | by apply wip_keyed].
Qed.

Lemma keyed_length guard f repo i a rows : length (fst (keyed_update guard f repo i a rows)) = length rows.
Proof.
  destruct (keyed_cases guard f repo i a rows) as [[m ->] | (a' & r' & i' & _ & _ & _ & ->)]; [done |]. apply List.length_map.
Qed.

Lemma sweep_length nowMs maxLeaseMs rows : length (fst (sweepStuckItems nowMs maxLeaseMs rows)) = length rows.
Proof. apply (sweep_keeps (fun s => length s = length rows)); [| done]. intros i s <-. apply keyed_length. Qed.

Lemma call_length rows c : length (run_store_call rows c) <= length rows + 1.
Proof.
  assert (K : forall guard f repo i a, length (fst (keyed_update guard f repo i a rows)) <= length rows + 1) by (intros; rewrite keyed_length; lia).
  destruct c as [now item | now | repo i a | repo i a | repo i a | repo i a | now sel | n l | repo]; cbn [run_store_call]; try apply K.
  - rewrite enqueue_call_cases. destruct (normalize_item item) as [[[[api repo] ident] q] |]; [| cbn; lia]. cbn [fst].
    unfold enqueue_statement, upsert, update_where. destruct (find_key _ _ _); rewrite ?List.length_map, ?List.length_app; cbn; lia.
  - unfold dequeueNext. destruct (in_order _); cbn [fst]; rewrite ?List.length_map; lia.
  - apply (batch_keeps (fun s => length s <= length rows + 1)); [| lia]. intros t s. unfold claimTarget. by rewrite keyed_length.
  - rewrite sweep_length. lia.
  - unfold purgeQueueByRepo, bind, lift. destruct (normalizeRepoFullName repo) as [r |]; cbn [fst]; [| lia].
    pose proof (List.filter_length_le (fun x => negb (String.eqb (qr_repoFullName x) r)) rows). lia.
Qed.

(** What the processes that share the queue do: any call of the store, or the
    batch claim of a manager. *)
Inductive queue_event :=
| qv_call (c : store_call)
| qv_claim (sweepNow now : Z).

Definition run_event (manager : PortfolioQueueManager) (rows : Store) (e : queue_event) : Store :=
  match e with
  | qv_call c => run_store_call rows c
  | qv_claim sweepNow now => fst (claimNextBatch manager sweepNow now rows)
  end.

Definition run_events (manager : PortfolioQueueManager) (rows : Store) (es : list queue_event) : Store := List.fold_left (run_event manager) es rows.

Definition by_the_caps (e : queue_event) : bool := match e with qv_call c => negb (hands_out c) | qv_claim _ _ => true end.

(** A claim is the sweep, then the batch unless the sweep threw. *)
Lemma claim_steps manager sweepNow now rows :
  let swept := run_store_call rows (so_sweep (nz sweepNow) (pm_staleLeaseMs manager)) in
  fst (claimNextBatch manager sweepNow now rows) = swept
  \/ fst (claimNextBatch manager sweepNow now rows) = run_store_call swept (so_batch now (selectEligibleBatch (pm_caps manager))).
Proof.
  cbv zeta. cbn [run_store_call]. unfold claimNextBatch, bind. destruct (sweepStuckItems _ _ rows) as [s [a | m]]; [by right | by left].
Qed.

Lemma event_step manager rows e : manager_caps_ok (pm_caps manager) -> by_the_caps e = true -> safe_length (length rows + 1) ->
  store_wf rows -> within_caps (pm_caps manager) rows ->
  let rows' := run_event manager rows e in store_wf rows' /\ within_caps (pm_caps manager) rows' /\ length rows' <= length rows + 1.
Proof.
  intros Hc He Hl W B. cbv zeta. destruct e as [c | sweepNow now]; cbn [run_event by_the_caps] in *.
  - apply negb_true_iff in He. split; [by apply run_store_call_wf |]. split; [| apply call_length].
    apply (within_less _ rows); [| done]. intros w. by apply wip_call.
  - pose proof (sweep_length (nz sweepNow) (pm_staleLeaseMs manager) rows) as Ls.
    set (sw := so_sweep (nz sweepNow) (pm_staleLeaseMs manager)). change (length (run_store_call rows sw) = length rows) in Ls.
    assert (Ws : store_wf (run_store_call rows sw)) by (by apply run_store_call_wf).
    assert (Bs : within_caps (pm_caps manager) (run_store_call rows sw)) by (apply (within_less _ rows); [intros w; by apply wip_call | done]).
    destruct (claim_steps manager sweepNow now rows) as [-> | ->]; fold sw; [rewrite Ls; split; [done |]; split; [done | lia] |].
    split; [by apply run_store_call_wf |]. split; [| rewrite <- Ls; apply call_length].
    apply batch_claim_within; try done. rewrite Ls. unfold safe_length in *. lia.
Qed.
End History.


(** ** A batch claims what was selected *)

Lemma id_parts_inj api repo ident api' repo' ident' : repo_text repo -> repo_text repo' ->
  id_parts api repo ident = id_parts api' repo' ident' -> (api, repo, ident) = (api', repo', ident').
Proof.
  intros Hr Hr'.
  assert (N : forall s t, repo_text s -> s <> t ++ ":").
  { intros s t Hs ->. apply repo_text_colon in Hs. induction t as [| c t IH]; [done |]. rewrite string_app_cons in Hs. cbn [str_forallb] in Hs.
    apply andb_true_iff in Hs as [_ Hs]. by apply IH. }
  assert (S : forall s t, s ++ ":" = t ++ ":" -> s = t).
  { induction s as [| c s IH]; intros [| d t] E; try done.
    - destruct t; discriminate E.
    - destruct s; discriminate E.
    - rewrite !string_app_cons in E. injection E as -> E. by rewrite (IH t E). }
  unfold id_parts. destruct ident as [| c x], ident' as [| c' x'];
    repeat match goal with |- context [Ascii.eqb ?c ":"] => destruct (Ascii.eqb_spec c ":"); subst end; intros E; simplify_eq;
    repeat match goal with
    | E : ?s ++ ":" = ?t ++ ":" |- _ => apply S in E; subst
    | H : repo_text (?t ++ ":") |- _ => by destruct (N _ t H)
    end; reflexivity.
Qed.

Lemma row_item_inj r s : row_ok r -> row_ok s -> it_id (row_item r) = it_id (row_item s) -> row_key r = row_key s.
Proof.
  intros [_ Hr Hi _ _ _] [_ Hr' Hi' _ _ _] E. cbn [it_id row_item] in E. apply id_parts_inj; [done | done |].
  pose proof (proj1 (queueItemId_cuts (qr_apiBaseUrl r) _ _ Hr Hi)) as C. rewrite E, (proj1 (queueItemId_cuts _ _ _ Hr' Hi')) in C.
  by injection C.
Qed.

(** A list is free of repetitions when its part in every group is. *)
Lemma nodup_groups sel : (forall g, NoDup (List.filter (of_repo g) sel)) -> NoDup sel.
Proof.
  induction sel as [| i sel IH]; intros H; [apply NoDup_nil_2 |]. apply list.NoDup_cons. split.
  - intros Hi. specialize (H (it_repoFullName i)). cbn [List.filter] in H. unfold of_repo at 1 in H. rewrite String.eqb_refl in H.
    apply nodup_cons_inv in H as [H _]. apply H, list_elem_of_In, List.filter_In. split; [by apply list_elem_of_In | apply String.eqb_refl].
  - apply IH. intros g. specialize (H g). cbn [List.filter] in H. destruct (of_repo g i); [by apply nodup_cons_inv in H as [_ H] | done].
Qed.

Lemma items_nodup rows : store_wf rows -> NoDup (all_items (queue_of rows)).
Proof.
  intros W. rewrite (queue_of_items rows W). apply NoDup_ListNoDup, (NoDup_map_inv it_id), NoDup_ListNoDup. rewrite List.map_map.
  assert (K : NoDup (List.map row_key (open_rows rows))).
  { unfold open_rows. rewrite (Permutation_map row_key (in_order_perm _)). apply filter_rows_keys, (sw_keys rows W). }
  assert (Ok : forall r, In r (open_rows rows) -> row_ok r) by (intros r Hr; by apply open_rows_in in Hr as (_ & Hr & _)).
  induction (open_rows rows) as [| r l IH]; [apply NoDup_nil_2 |]. cbn [List.map] in *. apply nodup_cons_inv in K as [Kn K]. apply list.NoDup_cons. split.
  - intros Hi. apply Kn. apply list_elem_of_In, List.in_map_iff in Hi as (s & E & Hs). apply list_elem_of_In.
    rewrite <- (row_item_inj s r (Ok s (or_intror Hs)) (Ok r (or_introl eq_refl)) E). by apply List.in_map.
  - apply IH; [done |]. intros s Hs. apply Ok. by right.
Qed.

Lemma selection_nodup rows caps : store_wf rows -> caps_ok caps -> safe_length (length rows) ->
  NoDup (nextEligibleItems (queue_of rows) caps) /\ forall i, In i (nextEligibleItems (queue_of rows) caps) -> isQueuedItem i = true.
Proof.
  intros W Hc Hl.
  assert (Hs : safe_length (length (all_items (queue_of rows)))) by (pose proof (queue_of_length rows W); unfold safe_length in *; lia).
  pose proof (fun g => nextEligibleItems_fifo (queue_of rows) caps g Hc Hs) as F. split.
  - apply nodup_groups. intros g. destruct (F g) as [rest E]. assert (Q : NoDup (queued_in g (all_items (queue_of rows)))).
    { unfold queued_in. rewrite NoDup_ListNoDup. apply List.NoDup_filter. by apply NoDup_ListNoDup, items_nodup. }
    rewrite E in Q. by apply list.NoDup_app in Q as [Q _].
  - intros i Hi. destruct (F (it_repoFullName i)) as [rest E].
    assert (X : In i (queued_in (it_repoFullName i) (all_items (queue_of rows)))).
    { rewrite E. apply List.in_app_iff. left. apply List.filter_In. split; [done |]. apply String.eqb_refl. }
    by apply List.filter_In in X as [_ [_ X]%andb_true_iff].
Qed.

Lemma collect_targets `{IsoClock} at_ xs rows : (forall x, In x xs -> leading_colon (qr_identifier x) = false) ->
  collect (claim_row at_) (List.map target_of xs) rows
  = collect (fun x => claimTarget at_ (JStr (qr_repoFullName x)) (JStr (qr_identifier x)) (JStr (qr_apiBaseUrl x))) xs rows.
Proof.
  revert rows. induction xs as [| x xs IH]; intros rows L; [done |]. cbn [List.map collect]. unfold bind at 1 3.
  unfold claim_row at 1, target_of at 1 2 3. rewrite (L x (or_introl eq_refl)). cbn [ct_repoFullName ct_identifier ct_apiBaseUrl].
  destruct (claimTarget _ _ _ _ rows) as [s [r | m]]; [| done]. unfold bind. rewrite IH; [done |]. intros y Hy. apply L. by right.
Qed.

Lemma selected_keys xs : NoDup (List.map row_item xs) ->
  (forall x y, In x xs -> In y xs -> row_key x = row_key y -> x = y) -> NoDup (List.map row_key xs).
Proof.
  intros N J. apply NoDup_ListNoDup in N. apply NoDup_ListNoDup. induction xs as [| x xs IH]; [apply List.NoDup_nil |].
  cbn [List.map] in *. inversion_clear N as [| ? ? Nx N']. apply List.NoDup_cons; [| apply IH; [done |]; intros y z Hy Hz; apply J; by right].
  intros (y & E & Hy)%List.in_map_iff. apply Nx. rewrite (J x y (or_introl eq_refl) (or_intror Hy) (eq_sym E)). by apply List.in_map.
Qed.

(** When no waiting identifier starts with a colon, a batch completes: it leases
    exactly the rows whose items the engine selected, each once, reports them in
    the order of the selection, and leaves the others as they were. *)
Theorem batch_claim_exact `{IsoClock} caps now rows : store_wf rows -> manager_caps_ok caps -> safe_length (length rows) ->
  (forall r, In r rows -> qr_status r = q_queued -> leading_colon (qr_identifier r) = false) ->
  exists xs, List.map row_item xs = nextEligibleItems (queue_of rows) caps
    /\ (forall x, In x xs -> In x rows /\ qr_status x = q_queued) /\ NoDup (List.map row_key xs)
    /\ batchClaim now (selectEligibleBatch caps) rows
       = (update_all row_key (List.map row_key xs) (has_status q_queued) (lease_row (iso now)) rows,
          Normal (List.map (fun x => rowToEntry (lease_row (iso now) x)) xs)).
Proof.
  intros W Hc Hl L. destruct (caps_normal caps Hc) as (N1 & N2 & Ok). destruct (selected_rows rows caps W Ok Hl) as (xs & E & Hx).
  destruct (selection_nodup rows caps W Ok Hl) as [Nd Hq]. rewrite E in Nd, Hq.
  assert (Hw : forall x, In x xs -> In x rows /\ qr_status x = q_queued).
  { intros x Hi. destruct (Hx x Hi) as (H1 & _ & O). split; [done |]. specialize (Hq (row_item x) (List.in_map _ _ _ Hi)).
    unfold isQueuedItem in Hq. unfold is_open, has_status in O. cbn [it_state row_item] in Hq. by destruct (qr_status x). }
  assert (K : NoDup (List.map row_key xs)).
  { apply selected_keys; [done |]. intros x y Hi Hj. apply (same_key rows); [done | by apply Hx | by apply Hx]. }
  exists xs. split; [done |]. split; [done |]. split; [done |].
  unfold batchClaim, transaction, bind at 1, bind, lift, selectEligibleBatch. rewrite N1. fold (open_rows rows). fold (queue_of rows).
  rewrite E, parse_row_ids by (intros x Hi; by apply Hx).
  assert (Lx : forall x, In x xs -> leading_colon (qr_identifier x) = false) by (intros x Hi; destruct (Hw x Hi); by apply L).
  replace (existsb _ xs) with false.
  - fold (claim_row (iso now)). rewrite collect_targets by done. unfold claimTarget. rewrite collect_keyed; try done; [apply (sw_keys rows W) |].
    intros x Hi. destruct (Hw x Hi) as [H1 H2]. split; [by apply Hx |]. split; [unfold has_status; by rewrite H2 | done].
  - symmetry. apply not_true_iff_false. intros (x & Hi & Ex%String.eqb_eq)%List.existsb_exists. specialize (Lx x Hi). by rewrite Ex in Lx.
Qed.

Lemma collect_colon `{IsoClock} at_ xs x : (forall y, In y xs -> row_ok y) -> In x xs -> leading_colon (qr_identifier x) = true ->
  forall rows, exists m, snd (collect (claim_row at_) (List.map target_of xs) rows) = Thrown m.
Proof.
  intros Ok Hx L. induction xs as [| y xs IH]; intros rows; [done |]. cbn [List.map collect]. unfold bind at 1.
  assert (Oy : row_ok y) by (apply Ok; by left). destruct (leading_colon (qr_identifier y)) eqn:Ly.
  - destruct (claim_colon_throws at_ y rows Ly Oy) as [m ->]. by exists m.
  - rewrite claim_row_step by done. set (rows1 := update_where _ _ _ _ rows). destruct Hx as [-> | Hx]; [congruence |].
    destruct (IH (fun z Hz => Ok z (or_intror Hz)) Hx rows1) as [m E]. unfold bind. exists m.
    destruct (collect (claim_row at_) (List.map target_of xs) rows1) as [s out]. cbn [snd] in E. by rewrite E.
Qed.

(** An identifier that starts with a colon passes the store's check, but its id
    reads back as another repository: a batch that selects it throws and claims
    nothing, also not the other items it selected, so while the item is at the
    head of its repository's queue no batch is handed out. *)
Theorem colon_identifier_blocks_batches `{IsoClock} caps now rows r : store_wf rows -> manager_caps_ok caps -> safe_length (length rows) ->
  In r rows -> leading_colon (qr_identifier r) = true -> In (row_item r) (nextEligibleItems (queue_of rows) caps) ->
  exists m, batchClaim now (selectEligibleBatch caps) rows = (rows, Thrown m).
Proof.
  intros W Hc Hl Hr L Hi. destruct (caps_normal caps Hc) as (N1 & N2 & Ok). destruct (selected_rows rows caps W Ok Hl) as (xs & E & Hx).
  unfold batchClaim, transaction, bind at 1, bind, lift, selectEligibleBatch. rewrite N1. fold (open_rows rows). fold (queue_of rows).
  rewrite E in *. rewrite parse_row_ids by (intros x Hy; by apply Hx). destruct (existsb _ xs); [by eexists |].
  apply List.in_map_iff in Hi as (x & Ex & Hin). destruct (Hx x Hin) as (Hrow & Ox & _).
  assert (X : x = r).
  { apply (same_key rows); [done | done | done |]. apply row_item_inj; [done | by apply (sw_rows rows W) | by rewrite Ex]. }
  subst x. fold (claim_row (iso now)).
  destruct (collect_colon (iso now) xs r (fun y Hy => proj1 (proj2 (Hx y Hy))) Hin L rows) as [m C]. exists m.
  destruct (collect (claim_row (iso now)) (List.map target_of xs) rows) as [s out]. cbn [snd] in C. by rewrite C.
Qed.

(** ** Examples *)

#[local] Existing Instance toy_clock.

Lemma queue_item_id_round_trip_witness :
  parseQueueItemId (JStr "https://api.github.com::acme/widgets::issue:7") = Normal (mkTarget "https://api.github.com" "acme/widgets" "issue:7").
Proof. exact (queue_item_id_round_trip "https://api.github.com" "acme/widgets" "issue:7" eq_refl eq_refl eq_refl eq_refl). Defined.

Definition one_each : PortfolioQueueManager := initPortfolioQueueManager (Some (mkPartialCaps (Some (nz 2)) (Some (nz 1)))) None.

Lemma one_each_caps_ok : manager_caps_ok (pm_caps one_each).
Proof. split; right; [exists 2%Z | exists 1%Z]; (split; [lia | vm_compute; reflexivity]). Qed.

Definition on_host (host ident : string) : EnqueueItem := mkEnqueue (JStr "acme/widgets") (JStr ident) JUndefined (JStr host).

Definition two_hosts : list queue_event :=
  [qv_call (so_enqueue 1 (work "issue:1" 1)); qv_call (so_enqueue 2 (work "issue:2" 5)); qv_call (so_enqueue 3 (on_host "https://forge.example" "issue:1"));
   qv_claim 4 5; qv_claim 6 7; qv_call (so_done (JStr "acme/widgets") (JStr "issue:2") JUndefined); qv_claim 8 9].

Example two_hosts_run :
  List.map (fun r => (qr_apiBaseUrl r, qr_identifier r, qr_status r)) (run_events one_each [] two_hosts)
  = [("https://api.github.com", "issue:1", q_in_progress); ("https://api.github.com", "issue:2", q_done);
     ("https://forge.example", "issue:1", q_in_progress)].
Proof. vm_compute. reflexivity. Qed.


Lemma batch_claim_exact_witness :
  exists xs, length xs = 1
    /\ snd (batchClaim 9 (selectEligibleBatch (pm_caps one_each)) three_items) = Normal (List.map (fun x => rowToEntry (lease_row (iso 9) x)) xs).
Proof.
  destruct (batch_claim_exact (pm_caps one_each) 9 three_items three_items_wf one_each_caps_ok) as (xs & E & _ & _ & C).
  - unfold safe_length. vm_compute. discriminate.
  - intros r Hr _. vm_compute in Hr. by destruct Hr as [<- | [<- | [<- | []]]].
  - exists xs. split; [| by rewrite C]. apply (f_equal (@length _)) in E. rewrite List.length_map in E. rewrite E. vm_compute. reflexivity.
Defined.

Definition colon_store : Store := run_store [] [so_enqueue 1 (work ":7" 5); so_enqueue 2 (on_host "https://forge.example" "issue:2")].

Definition colon_row : QueueRow := default (mkRow 0 "" "" "" (0 # 1) q_done "" None 0 0 0) (List.hd_error colon_store).

Lemma colon_identifier_blocks_batches_witness :
  exists m, batchClaim 9 (selectEligibleBatch (pm_caps one_each)) colon_store = (colon_store, Thrown m).
Proof.
  apply (colon_identifier_blocks_batches (pm_caps one_each) 9 colon_store colon_row).
  - do 2 apply run_store_call_wf. apply empty_store_wf.
  - apply one_each_caps_ok.
  - unfold safe_length. vm_compute. discriminate.
  - vm_compute. by left.
  - reflexivity.
  - vm_compute. by left.
Defined.
