(* ===== verification/DenyHooks.v ===== *)
(** * Deny hooks of the coding agent

    Models [miner/deny-hooks.ts]: rules that decide, before a tool call of the
    coding agent runs, whether it is blocked.  A rule names a tool by a glob and
    may ask for a path in the input, for texts in one input string, and for an
    option-shaped word in one input string.

    The input of a tool call is a graph of objects, which may be shared and
    cyclic; the collection of its strings threads the set of visited objects as
    the source does, with one more unit of fuel than there are objects.
    [RegExp] values are their source, their flags and their test, for expressions
    without the [g] and [y] flags, whose test keeps no state.

    Main results: the strings tested are exactly those reachable from the input
    ([input_strings_reachable]); a call is blocked exactly when a rule fires, by
    the first one that does ([deny_verdict_exact]); workflow files are blocked in
    any letter case, directory, quoting or Windows spelling
    ([workflow_files_blocked]) and force pushes in any of their forms
    ([force_push_blocked]); but a path with two [./] segments in a row, which
    names the same file, is allowed ([dot_segments_evade_rules]). *)

From Stdlib Require Import Ascii ZArith Lia.
From stdpp Require Import base list strings option sets relations.
From S2P Require Import Prelude JsString JsRegex Guardrail.

Local Open Scope nat_scope.
Local Open Scope string_scope.
Local Open Scope js_scope.

(** ** Data *)

Record RegExp := mkRegExp { rx_source : string; rx_flags : string; rx_test : string -> bool }.

Record DenyRule := mkDenyRule {
  dr_matcher : string;
  dr_pathPattern : option string;
  dr_inputIncludesAll : option (list string);
  dr_inputTokenPattern : option RegExp;
  dr_reason : string;
}.

Record DenyVerdict := mkVerdict { dv_allowed : bool; dv_blockedBy : option DenyRule }.

(** A value inside a tool-call input: a string, an object or array (its
    address), or another primitive. *)
Inductive input_value :=
| IStr (s : string)
| IRef (address : nat)
| IOther.

#[global] Instance input_value_eq_dec : EqDecision input_value.
Proof. solve_decision. Defined.

(** The objects and arrays of the input: their elements or property values. *)
Definition heap : Type := list (list input_value).

Record ProposedToolCall := mkToolCall { tc_name : jsval; tc_heap : heap; tc_input : input_value }.

(** ** Globs *)

Fixpoint deny_glob_body (glob : string) : re :=
  match glob with
  | "" => Eps
  | String "*" rest =>
      match rest with
      | String "*" (String "/" rest') => Cat (Opt (Cat (Rep dot) (Chr (Ascii.eqb "/")))) (deny_glob_body rest')
      | String "*" rest' => Cat (Rep dot) (deny_glob_body rest')
      | _ => Cat (Rep not_slash) (deny_glob_body rest)
      end
  | String c rest => Cat (Chr (ci c)) (deny_glob_body rest)
  end.

(** [globToRegExp(glob).test(s)]. *)
Definition glob_test (glob s : string) : bool := test_full (deny_glob_body glob) s.

(** ** Paths and tokens *)

(** [.replace(/^\.\/+/, "")]. *)
Definition drop_dot_slashes (s : string) : string :=
  match s with
  | String "." (String "/" s') => drop_slashes s'
  | _ => s
  end.

(** [.replace(/\/\.\//g, "/")]: a match ends with the slash a following one
    would start with. *)
Fixpoint collapse_dot_segments (s : string) : string :=
  match s with
  | "" => ""
  | String c s1 =>
      match s1 with
      | String d (String e s3) =>
          if Ascii.eqb c "/" && Ascii.eqb d "." && Ascii.eqb e "/" then String "/" (collapse_dot_segments s3)
          else String c (collapse_dot_segments s1)
      | _ => String c (collapse_dot_segments s1)
      end
  end.

(** [.replace(/\/+$/, "")]. *)
Fixpoint drop_end (p : ascii -> bool) (s : string) : string :=
  match s with
  | "" => ""
  | String c s' => match drop_end p s' with "" => if p c then "" else String c "" | t => String c t end
  end.

Fixpoint drop_start (p : ascii -> bool) (s : string) : string :=
  match s with
  | String c s' => if p c then drop_start p s' else s
  | "" => ""
  end.

Definition is_slash (c : ascii) : bool := Ascii.eqb c "/".

Definition normalizePathCandidate (value : string) : string :=
  drop_end is_slash (collapse_dot_segments (drop_dot_slashes (backslashes_to_slashes value))).

Definition is_quote (c : ascii) : bool := Ascii.eqb c (ascii_of_N 34) || Ascii.eqb c "'".

(** [token.replace(/^["']+|["']+$/g, "")]. *)
Definition strip_quotes (token : string) : string := drop_end is_quote (drop_start is_quote token).

Definition splitTokens (value : string) : list string :=
  List.filter (fun t => negb (str_empty t)) (List.map strip_quotes (split_runs is_space value)).

Definition pathCandidates (value : string) : list string :=
  List.filter (fun c => negb (str_empty c))
    (js_set (value :: normalizePathCandidate value :: List.flat_map (fun t => [t; normalizePathCandidate t]) (splitTokens value))).

(** ** Input strings *)

Section Strings.
Variable h : heap.

(** The strings of object [n], and the visited objects after. *)
Fixpoint visit (fuel : nat) (seen : list nat) (n : nat) : list string * list nat :=
  match fuel with
  | 0 => ([], seen)
  | S fuel =>
      if bool_decide (n ∈ seen) then ([], seen)
      else match h !! n with
           | None => ([], seen)
           | Some values =>
               List.fold_left (fun acc value =>
                 match value with
                 | IStr s => (fst acc ++ [s], snd acc)
                 | IRef k => let r := visit fuel (snd acc) k in (fst acc ++ fst r, snd r)
                 | IOther => acc
                 end) values ([], n :: seen)
           end
  end%list.
End Strings.

Definition collectInputStrings (h : heap) (input : input_value) : list string :=
  match input with IRef n => fst (visit h (S (length h)) [] n) | _ => [] end.

(** ** Rules *)

Fixpoint is_prefix (p s : string) : bool :=
  match p, s with
  | "", _ => true
  | String c p', String d s' => Ascii.eqb c d && is_prefix p' s'
  | String _ _, "" => false
  end.

(** [s.includes(needle)]. *)
Fixpoint str_includes (needle s : string) : bool :=
  is_prefix needle s || match s with String _ s' => str_includes needle s' | "" => false end.

Definition matcherMatches (matcher : string) (toolName : jsval) : bool :=
  glob_test matcher (match toolName with JStr s => s | _ => "" end).

Definition ruleMatches (rule : DenyRule) (toolName : jsval) (inputStrings : list string) : bool :=
  matcherMatches (dr_matcher rule) toolName
  && match dr_pathPattern rule with
     | Some pattern => existsb (fun value => existsb (glob_test pattern) (pathCandidates value)) inputStrings
     | None => true
     end
  && match dr_inputIncludesAll rule with
     | Some needles => existsb (fun value => forallb (fun needle => str_includes needle value) needles) inputStrings
     | None => true
     end
  && match dr_inputTokenPattern rule with
     | Some tokenPattern => existsb (fun value => existsb (rx_test tokenPattern) (splitTokens value)) inputStrings
     | None => true
     end.

Definition path_rule (pathPattern reason : string) : DenyRule := mkDenyRule "*" (Some pathPattern) None None reason.

Definition is_letter (c : ascii) : bool := let n := N_of_ascii (lower_ascii c) in ((97 <=? n) && (n <=? 122))%N.

(** [/^-[a-z]*f[a-z]*$/i]. *)
Definition short_force_option : RegExp :=
  mkRegExp "^-[a-z]*f[a-z]*$" "i" (test_full (cat_all [Chr (Ascii.eqb "-"); Rep is_letter; Chr (ci "f"); Rep is_letter])).

Definition DEFAULT_DENY_RULES : list DenyRule :=
  [path_rule "**/.github/workflows/**" "Never modify CI workflows (.github/workflows/**).";
   path_rule "**/.env*" "Never read or write environment files (.env*).";
   path_rule "**/.dev.vars" "Never read or write local Worker secrets (.dev.vars).";
   path_rule "**/.npmrc" "Never read or write npm credential files (.npmrc).";
   path_rule "**/*secret*/**" "Never touch secret-bearing directories (**/*secret*/**).";
   path_rule "**/*secret*" "Never touch secret-bearing paths (**/*secret*).";
   path_rule "**/*private*key*" "Never touch private key material (**/*private*key*).";
   path_rule "**/*.pem" "Never touch PEM key material (*.pem).";
   mkDenyRule "*" None (Some ["push"; "--force"]) None "Never force-push (git push --force).";
   mkDenyRule "*" None (Some ["push"]) (Some short_force_option) "Never force-push (git push -f)."].

Definition evaluateDenyHooks (toolCall : ProposedToolCall) (rules : list DenyRule) : DenyVerdict :=
  let inputStrings := collectInputStrings (tc_heap toolCall) (tc_input toolCall) in
  match List.find (fun rule => ruleMatches rule (tc_name toolCall) inputStrings) rules with
  | Some rule => mkVerdict false (Some rule)
  | None => mkVerdict true None
  end.

(** ** Meaning of a glob *)

(** [covers g s]: letters match in any case, [*] stands for text without a
    [/], [**] for text without a line terminator, and [**/] for nothing or for
    such text that ends with a [/]. *)
Fixpoint covers (g s : string) : Prop :=
  match g with
  | "" => s = ""
  | String "*" rest =>
      match rest with
      | String "*" (String "/" rest') =>
          covers rest' s \/ exists u t, s = u ++ String "/" t /\ str_forallb dot u = true /\ covers rest' t
      | String "*" rest' => exists u t, s = u ++ t /\ str_forallb dot u = true /\ covers rest' t
      | _ => exists u t, s = u ++ t /\ str_forallb not_slash u = true /\ covers rest t
      end
  | String c rest => exists d t, s = String d t /\ lower_ascii d = lower_ascii c /\ covers rest t
  end.

Lemma deny_glob_lit c g s : c <> "*"%char ->
  deny_glob_body (String c g) = Cat (Chr (ci c)) (deny_glob_body g)
  /\ (covers (String c g) s <-> exists d t, s = String d t /\ lower_ascii d = lower_ascii c /\ covers g t).
Proof. destruct c as [[] [] [] [] [] [] [] []]; intros H; (split; [reflexivity | done]) || congruence. Qed.

Lemma deny_glob_star g s : (forall g', g <> String "*" g') ->
  deny_glob_body (String "*" g) = Cat (Rep not_slash) (deny_glob_body g)
  /\ (covers (String "*" g) s <-> exists u t, s = u ++ t /\ str_forallb not_slash u = true /\ covers g t).
Proof.
  intros H. destruct g as [| c g]; [by split |]. destruct (decide (c = "*"%char)) as [-> | Hc]; [by destruct (H g) |].
  destruct c as [[] [] [] [] [] [] [] []]; (split; [reflexivity | done]) || congruence.
Qed.

Lemma deny_glob_globstar g s : (forall g', g <> String "/" g') ->
  deny_glob_body (String "*" (String "*" g)) = Cat (Rep dot) (deny_glob_body g)
  /\ (covers (String "*" (String "*" g)) s <-> exists u t, s = u ++ t /\ str_forallb dot u = true /\ covers g t).
Proof.
  intros H. destruct g as [| c g]; [by split |]. destruct (decide (c = "/"%char)) as [-> | Hc]; [by destruct (H g) |].
  destruct c as [[] [] [] [] [] [] [] []]; (split; [reflexivity | done]) || congruence.
Qed.

Lemma denotes_opt r prev s prev' rest : denotes (Opt r) prev s prev' rest <-> denotes r prev s prev' rest \/ (prev' = prev /\ rest = s).
Proof.
  split; [| intros [H | [-> ->]]; [by apply D_alt_l | apply D_alt_r, D_eps]].
  unfold Opt. inversion 1 as [| | | | | ? ? ? ? ? ? X | ? ? ? ? ? ? X |]; subst; [by left |]. inversion X; subst. by right.
Qed.

(** A repetition followed by an expression: some text of its characters, then
    the rest. *)
Lemma denotes_rep_then p r prev s (P : string -> Prop) : (forall prev s, (exists prev', denotes r prev s prev' "") <-> P s) ->
  (exists prev', denotes (Cat (Rep p) r) prev s prev' "") <-> exists u t, s = u ++ t /\ str_forallb p u = true /\ P t.
Proof.
  intros IH. split.
  - intros (prev' & H). apply denotes_cat in H as (prev1 & s1 & H1 & H2). apply denotes_rep in H1 as (u & -> & Hu & ->).
    exists u, s1. split; [done |]. split; [done |]. apply (IH (last_char prev u)). eauto.
  - intros (u & t & -> & Hu & Ht). apply (IH (last_char prev u)) in Ht as [prev' Ht]. exists prev'. apply denotes_cat.
    exists (last_char prev u), t. split; [apply denotes_rep; eauto | done].
Qed.

Lemma denotes_chr_then p r prev s (P : string -> Prop) : (forall prev s, (exists prev', denotes r prev s prev' "") <-> P s) ->
  (exists prev', denotes (Cat (Chr p) r) prev s prev' "") <-> exists d t, s = String d t /\ p d = true /\ P t.
Proof.
  intros IH. split.
  - intros (prev' & H). apply denotes_cat in H as (prev1 & s1 & H1 & H2). apply denotes_chr in H1 as (d & -> & Hd & ->).
    exists d, s1. split; [done |]. split; [done |]. apply (IH (Some d)). eauto.
  - intros (d & t & -> & Hd & Ht). apply (IH (Some d)) in Ht as [prev' Ht]. exists prev'. apply denotes_cat. exists (Some d), t.
    split; [apply denotes_chr; eauto | done].
Qed.

(** The compiled expression means what the glob means. *)
Lemma deny_glob_denotes g : forall prev s, (exists prev', denotes (deny_glob_body g) prev s prev' "") <-> covers g s.
Proof.
  induction g as [| c g Hc IH | g Hg IH | g IH | g Hg IH] using glob_ind; intros prev s.
  - split; [intros [prev' H]; by inversion H | intros ->; eauto with loopover].
  - destruct (deny_glob_lit c g s Hc) as [-> ->]. rewrite (denotes_chr_then _ _ _ _ (covers g) IH). unfold ci. by setoid_rewrite Ascii.eqb_eq.
  - destruct (deny_glob_star g s Hg) as [-> ->]. by apply denotes_rep_then.
  - change (deny_glob_body (String "*" (String "*" (String "/" g))))
      with (Cat (Opt (Cat (Rep dot) (Chr (Ascii.eqb "/")))) (deny_glob_body g)).
    change (covers (String "*" (String "*" (String "/" g))) s)
      with (covers g s \/ exists u t, s = u ++ String "/" t /\ str_forallb dot u = true /\ covers g t).
    split.
    + intros (prev' & H). apply denotes_cat in H as (prev1 & s1 & H1 & H2). apply denotes_opt in H1 as [H1 | [-> ->]].
      * apply denotes_cat in H1 as (prev2 & s2 & H1 & H3). apply denotes_rep in H1 as (u & -> & Hu & ->).
        apply denotes_chr in H3 as (d & -> & Hd & ->). apply Ascii.eqb_eq in Hd as <-. right. exists u, s1.
        split; [done |]. split; [done |]. apply (IH (Some "/"%char)). eauto.
      * left. apply (IH prev). eauto.
    + intros [H | (u & t & -> & Hu & H)].
      * apply (IH prev) in H as [prev' H]. exists prev'. apply denotes_cat. exists prev, s. split; [| done]. apply denotes_opt. by right.
      * apply (IH (Some "/"%char)) in H as [prev' H]. exists prev'. apply denotes_cat. exists (Some "/"%char), t. split; [| done].
        apply denotes_opt. left. apply denotes_cat. exists (last_char prev u), (String "/" t).
        split; [apply denotes_rep; eauto | apply denotes_chr; by exists "/"%char].
  - destruct (deny_glob_globstar g s Hg) as [-> ->]. by apply denotes_rep_then.
Qed.

Lemma glob_test_iff g s : glob_test g s = true <-> covers g s.
Proof. unfold glob_test. by rewrite test_full_iff, deny_glob_denotes. Qed.

(** ** The strings of an input *)

Section Reach.
Variable h : heap.

Definition edge (a b : nat) : Prop := exists values, h !! a = Some values /\ IRef b ∈ values /\ is_Some (h !! b).

Definition holds (a : nat) (s : string) : Prop := exists values, h !! a = Some values /\ IStr s ∈ values.

(** A visit of part of the values of an object, or of one object: what it adds
    is reached from [roots], has its own objects visited, and gives the strings. *)
Record explores (roots : nat -> Prop) (seen : list nat) (r : list string * list nat) : Prop := mkExplores {
  ex_nodup : NoDup (snd r);
  ex_bound : forall x, x ∈ snd r -> is_Some (h !! x);
  ex_keeps : forall x, x ∈ seen -> x ∈ snd r;
  ex_reach : forall x, x ∈ snd r -> x ∉ seen -> exists n, roots n /\ rtc edge n x;
  ex_closed : forall x y, x ∈ snd r -> x ∉ seen -> edge x y -> y ∈ snd r;
  ex_strings : forall s, s ∈ fst r <-> exists x, x ∈ snd r /\ x ∉ seen /\ holds x s;
}.

Lemma seen_size seen : NoDup seen -> (forall x, x ∈ seen -> is_Some (h !! x)) -> length seen <= length h.
Proof.
  intros N B. rewrite <- (length_seq (length h) 0). apply NoDup_incl_length; [by apply NoDup_ListNoDup |].
  intros x Hx%list_elem_of_In. apply List.in_seq. apply B, lookup_lt_is_Some in Hx. lia.
Qed.

Lemma explores_nothing roots seen : NoDup seen -> (forall x, x ∈ seen -> is_Some (h !! x)) -> explores roots seen ([], seen).
Proof.
  intros N B. split; cbn; try done. intros s. split; [intros H; by apply list_elem_of_In in H | by intros (x & H1 & H2 & _)].
Qed.

(** One exploration after another. *)
Lemma explores_app roots1 roots2 seen out1 seen1 out2 seen2 : explores roots1 seen (out1, seen1) -> explores roots2 seen1 (out2, seen2) ->
  explores (fun n => roots1 n \/ roots2 n) seen ((out1 ++ out2)%list, seen2).
Proof.
  intros [N1 B1 K1 R1 C1 S1] [N2 B2 K2 R2 C2 S2]. cbn [fst snd] in *. split; cbn [fst snd]; auto.
  - intros x Hx Hn. destruct (decide (x ∈ seen1)) as [H1 | H1]; [destruct (R1 x H1 Hn) as (n & ? & ?) | destruct (R2 x Hx H1) as (n & ? & ?)]; eauto.
  - intros x y Hx Hn E. destruct (decide (x ∈ seen1)) as [H1 | H1]; [apply K2; eauto | eauto].
  - intros s. rewrite elem_of_app, S1, S2. split.
    + intros [(x & H1 & H2 & H3) | (x & H1 & H2 & H3)]; exists x; [by auto |]. split; [done |]. split; [| done]. intros X. by apply H2, K1.
    + intros (x & H1 & H2 & H3). destruct (decide (x ∈ seen1)); [left | right]; eauto.
Qed.

Lemma explores_more (roots roots' : nat -> Prop) seen r : (forall n, roots n -> roots' n) -> explores roots seen r -> explores roots' seen r.
Proof. intros H [N B K R C S]. split; auto. intros x H1 H2. destruct (R x H1 H2) as (n & ? & ?). eauto. Qed.

Definition visit_step (fuel : nat) (acc : list string * list nat) (value : input_value) : list string * list nat :=
  match value with
  | IStr s => ((fst acc ++ [s])%list, snd acc)
  | IRef k => let r := visit h fuel (snd acc) k in ((fst acc ++ fst r)%list, snd r)
  | IOther => acc
  end.

(** The values of object [n], one after the other. *)
Lemma explore_values fuel n : (forall seen k, NoDup seen -> (forall x, x ∈ seen -> is_Some (h !! x)) -> length h - length seen < fuel ->
    explores (fun m => m = k) seen (visit h fuel seen k) /\ (is_Some (h !! k) -> k ∈ snd (visit h fuel seen k))) ->
  forall values seen, NoDup seen -> (forall x, x ∈ seen -> is_Some (h !! x)) -> length h - length seen < fuel -> n ∈ seen ->
  forall out, exists out' seen', List.fold_left (visit_step fuel) values (out, seen) = ((out ++ out')%list, seen')
    /\ (exists out'', explores (fun m => IRef m ∈ values) seen (out'', seen')
        /\ forall s, s ∈ out' <-> s ∈ out'' \/ IStr s ∈ values)
    /\ forall k, IRef k ∈ values -> is_Some (h !! k) -> k ∈ seen'.
Proof.
  intros IH. induction values as [| v values IHv]; intros seen N B L Hn out.
  - exists [], seen. split; [cbn; by rewrite app_nil_r |]. split; [| by intros k Hk%elem_of_nil].
    exists []. split; [by apply explores_nothing |]. intros s. split; [by left | by intros [? | ?%elem_of_nil]].
  - cbn [List.fold_left]. destruct v as [s0 | k |].
    + destruct (IHv seen N B L Hn (out ++ [s0])%list) as (o & sn & E & (o2 & X & S) & K). exists (s0 :: o), sn.
      unfold visit_step at 2. cbn [fst snd]. rewrite E, <- app_assoc. split; [done |]. split; [exists o2; split |].
      * apply (explores_more (fun m => IRef m ∈ values)); [intros m Hm; by right | done].
      * intros s. rewrite !elem_of_cons, S. naive_solver.
      * intros k [[=] | Hk]%elem_of_cons Hh. by apply K.
    + destruct (IH seen k N B L) as [X Hk]. destruct (visit h fuel seen k) as [o1 s1] eqn:V. cbn [fst snd] in *.
      assert (L1 : length h - length s1 < fuel).
      { pose proof (NoDup_incl_length (proj1 (NoDup_ListNoDup seen) N) (fun x Hx => proj1 (list_elem_of_In _ _) (ex_keeps _ _ _ X x (proj2 (list_elem_of_In _ _) Hx)))).
        cbn in *. lia. }
      destruct (IHv s1 (ex_nodup _ _ _ X) (ex_bound _ _ _ X) L1 (ex_keeps _ _ _ X n Hn) (out ++ o1)%list) as (o & sn & E & (o2 & Y & S) & K).
      exists (o1 ++ o)%list, sn. unfold visit_step at 2. cbn [fst snd]. rewrite V. cbn [fst snd]. rewrite E, <- app_assoc.
      split; [done |]. split; [exists (o1 ++ o2)%list; split |].
      * apply (explores_more (fun m => m = k \/ IRef m ∈ values)); [intros m [-> | Hm]; [by left | by right] |]. by apply (explores_app _ _ _ _ s1).
      * intros s. rewrite !elem_of_app, elem_of_cons, S. naive_solver.
      * intros k' [[= ->] | Hk']%elem_of_cons Hh; [| by apply K]. apply (ex_keeps _ _ _ Y). by apply Hk.
    + destruct (IHv seen N B L Hn out) as (o & sn & E & (o2 & X & S) & K). exists o, sn. split; [done |]. split; [exists o2; split |].
      * apply (explores_more (fun m => IRef m ∈ values)); [intros m Hm; by right | done].
      * intros s. rewrite S, elem_of_cons. naive_solver.
      * intros k [[=] | Hk]%elem_of_cons Hh. by apply K.
Qed.

Lemma explores_object n values seen out out2 seen' : h !! n = Some values -> n ∉ seen ->
  explores (fun m => IRef m ∈ values) (n :: seen) (out2, seen') -> (forall s, s ∈ out <-> s ∈ out2 \/ IStr s ∈ values) ->
  (forall k, IRef k ∈ values -> is_Some (h !! k) -> k ∈ seen') -> explores (fun m => m = n) seen (out, seen').
Proof.
  intros Hv Hn [N B K R C S] So Kr. cbn [fst snd] in *. split; cbn [fst snd]; try done.
  - intros x Hx. apply K. by right.
  - intros x Hx Hs. destruct (decide (x = n)) as [-> | Ne]; [exists n; split; [done | apply rtc_refl] |].
    destruct (R x Hx) as (m & Hm & P); [by intros [-> | ?]%elem_of_cons |]. exists n. split; [done |]. apply rtc_l with m; [| done].
    exists values. split; [done |]. split; [done |]. inversion P as [| ? ? ? (vs & E & _)]; subst; [by apply B | by rewrite E].
  - intros x y Hx Hs E. destruct (decide (x = n)) as [-> | Ne]; [| apply (C x); [done | by intros [-> | ?]%elem_of_cons | done]].
    destruct E as (vs & E & H1 & H2). rewrite Hv in E. injection E as <-. by apply Kr.
  - intros s. rewrite So, S. split.
    + intros [(x & H1 & H2 & H3) | H1]; [exists x; split; [done |]; split; [| done]; intros X; apply H2; by right |].
      exists n. split; [apply K; by left |]. split; [done | by exists values].
    + intros (x & H1 & H2 & H3). destruct (decide (x = n)) as [-> | Ne].
      * right. destruct H3 as (vs & E & H3). rewrite Hv in E. by injection E as <-.
      * left. exists x. split; [done |]. split; [by intros [-> | ?]%elem_of_cons | done].
Qed.

Lemma visit_explores fuel : forall seen n, NoDup seen -> (forall x, x ∈ seen -> is_Some (h !! x)) -> length h - length seen < fuel ->
  explores (fun m => m = n) seen (visit h fuel seen n) /\ (is_Some (h !! n) -> n ∈ snd (visit h fuel seen n)).
Proof.
  induction fuel as [| fuel IH]; intros seen n N B L; [lia |]. cbn [visit]. case_bool_decide as Hs; [split; [by apply explores_nothing | done] |].
  destruct (h !! n) as [values |] eqn:Hv; [| split; [by apply explores_nothing | by intros [? ?]]].
  assert (N1 : NoDup (n :: seen)) by (by apply list.NoDup_cons).
  assert (B1 : forall x, x ∈ n :: seen -> is_Some (h !! x)) by (intros x [-> | Hx]%elem_of_cons; [by rewrite Hv | by apply B]).
  pose proof (seen_size _ N1 B1) as Z. cbn [length] in Z.
  destruct (explore_values fuel n IH values (n :: seen) N1 B1) with (out := @nil string) as (o & sn & E & (o2 & X & S) & K);
    [cbn [length]; lia | by left |].
  change (List.fold_left (visit_step fuel) values ([], n :: seen) = (o, sn)) in E. fold (visit_step fuel). rewrite E. split.
  - by apply (explores_object n values seen o o2 sn).
  - intros _. apply (ex_keeps _ _ _ X). by left.
Qed.
End Reach.

(** Every string that can be reached from the input object through any chain of
    objects and arrays is tested, and nothing else; sharing and cycles are
    followed once. *)
Theorem input_strings_reachable h n s : is_Some (h !! n) ->
  s ∈ collectInputStrings h (IRef n) <-> exists x, rtc (edge h) n x /\ holds h x s.
Proof.
  intros Hn. unfold collectInputStrings.
  destruct (visit_explores h (S (length h)) [] n) as [[N B K R C S] Hin]; [apply NoDup_nil_2 | by intros x Hx%elem_of_nil | cbn; lia |].
  rewrite S. specialize (Hin Hn). split.
  - intros (x & H1 & H2 & H3). destruct (R x H1 H2) as (m & -> & P). eauto.
  - intros (x & P & Hx). exists x. split; [| split; [apply not_elem_of_nil | done]]. clear Hx Hn S R N B K.
    set (V := snd (visit h (S (length h)) [] n)) in *. clearbody V. induction P as [| x y z E P IHP]; [done |]. apply IHP. apply (C x); [done | apply not_elem_of_nil | done].
Qed.

(** ** When a rule fires *)

Definition tool_name (call : ProposedToolCall) : string := match tc_name call with JStr s => s | _ => "" end.

(** A string anywhere in the input of the call. *)
Definition reads_string (call : ProposedToolCall) (s : string) : Prop :=
  exists n x, tc_input call = IRef n /\ rtc (edge (tc_heap call)) n x /\ holds (tc_heap call) x s.

(** The spellings of a string tested as a path: itself or one of its words
    without quotes, as it is or normalized. *)
Definition spelling (value c : string) : Prop :=
  exists t, (t = value \/ t ∈ splitTokens value) /\ (c = t \/ c = normalizePathCandidate t).

Record fires (call : ProposedToolCall) (rule : DenyRule) : Prop := mkFires {
  fr_tool : covers (dr_matcher rule) (tool_name call);
  fr_path : forall p, dr_pathPattern rule = Some p -> exists v c, reads_string call v /\ spelling v c /\ c <> "" /\ covers p c;
  fr_texts : forall needles, dr_inputIncludesAll rule = Some needles ->
    exists v, reads_string call v /\ forall x, x ∈ needles -> exists a b, v = a ++ x ++ b;
  fr_word : forall rx, dr_inputTokenPattern rule = Some rx -> exists v t, reads_string call v /\ t ∈ splitTokens v /\ rx_test rx t = true;
}.

Definition well_addressed (call : ProposedToolCall) : Prop := forall n, tc_input call = IRef n -> is_Some (tc_heap call !! n).

Lemma reads_collected call s : well_addressed call -> s ∈ collectInputStrings (tc_heap call) (tc_input call) <-> reads_string call s.
Proof.
  unfold well_addressed, reads_string. intros W. destruct (tc_input call) as [t | n |].
  - split; [by intros H%elem_of_nil | by intros (n & x & [=] & _)].
  - pose proof (input_strings_reachable (tc_heap call) n s (W n eq_refl)) as E. rewrite E. split.
    + intros (x & H1 & H2). by exists n, x.
    + intros (m & x & [= <-] & H1 & H2). by exists x.
  - split; [by intros H%elem_of_nil | by intros (n & x & [=] & _)].
Qed.

Lemma is_prefix_iff p s : is_prefix p s = true <-> exists b, s = p ++ b.
Proof.
  revert s. induction p as [| c p IH]; intros s; [split; [by exists s | done] |]. destruct s as [| d s]; cbn [is_prefix].
  - split; [done | by intros [b [=]]].
  - rewrite andb_true_iff, Ascii.eqb_eq, IH. split.
    + intros (-> & b & ->). by exists b.
    + intros (b & E). rewrite string_app_cons in E. injection E as -> ->. split; [done | by exists b].
Qed.

Lemma str_includes_iff x s : str_includes x s = true <-> exists a b, s = a ++ x ++ b.
Proof.
  induction s as [| c s IH]; cbn [str_includes]; rewrite orb_true_iff, is_prefix_iff.
  - split; [intros [[b ->] | [=]]; by exists "", b |]. intros (a & b & E). left. exists b. destruct a; [done | discriminate E].
  - rewrite IH. split.
    + intros [[b E] | (a & b & ->)]; [by exists "", b | by exists (String c a), b].
    + intros ([| d a] & b & E); [left; by exists b |]. rewrite string_app_cons in E. injection E as -> ->. right. by exists a, b.
Qed.

Lemma existsb_elem {A} (f : A -> bool) l : existsb f l = true <-> exists x, x ∈ l /\ f x = true.
Proof. rewrite List.existsb_exists. by setoid_rewrite list_elem_of_In. Qed.

Lemma candidates_iff value c : c ∈ pathCandidates value <-> spelling value c /\ c <> "".
Proof.
  unfold pathCandidates, spelling. rewrite list_elem_of_In, List.filter_In, <- list_elem_of_In, js_set_elem, negb_true_iff, str_empty_false.
  apply and_iff_compat_r. rewrite !elem_of_cons, list_elem_of_In, List.in_flat_map. split.
  - intros [-> | [-> | (t & Ht & Hc)]]; [exists value; auto | exists value; auto |]. exists t. rewrite list_elem_of_In. split; [by right |].
    destruct Hc as [<- | [<- | []]]; auto.
  - intros (t & [-> | Ht] & [-> | ->]); [by left | by right; left | |]; right; right; exists t; (split; [by apply list_elem_of_In |]);
      cbn; auto.
Qed.

Lemma ruleMatches_iff call rule : well_addressed call ->
  ruleMatches rule (tc_name call) (collectInputStrings (tc_heap call) (tc_input call)) = true <-> fires call rule.
Proof.
  intros W. unfold ruleMatches, matcherMatches. fold (tool_name call). rewrite !andb_true_iff, glob_test_iff.
  pose proof (fun s => reads_collected call s W) as R. set (strings := collectInputStrings _ _) in *.
  assert (P : match dr_pathPattern rule with
    | Some pattern => existsb (fun value => existsb (glob_test pattern) (pathCandidates value)) strings | None => true end = true
    <-> forall p, dr_pathPattern rule = Some p -> exists v c, reads_string call v /\ spelling v c /\ c <> "" /\ covers p c).
  { destruct (dr_pathPattern rule) as [p |]; [| split; done]. rewrite existsb_elem. setoid_rewrite existsb_elem. setoid_rewrite candidates_iff.
    setoid_rewrite glob_test_iff. setoid_rewrite R. split.
    - intros (v & Hv & c & [H1 H2] & H3) p' [= <-]. by exists v, c.
    - intros H. destruct (H p eq_refl) as (v & c & ? & ? & ? & ?). exists v. split; [done |]. by exists c. }
  assert (T : match dr_inputIncludesAll rule with
    | Some needles => existsb (fun value => forallb (fun needle => str_includes needle value) needles) strings | None => true end = true
    <-> forall needles, dr_inputIncludesAll rule = Some needles -> exists v, reads_string call v /\ forall x, x ∈ needles -> exists a b, v = a ++ x ++ b).
  { destruct (dr_inputIncludesAll rule) as [ns |]; [| split; done]. rewrite existsb_elem. setoid_rewrite forallb_forall.
    setoid_rewrite str_includes_iff. setoid_rewrite R. setoid_rewrite <- list_elem_of_In. split; [by intros H ns' [= <-] | auto]. }
  assert (X : match dr_inputTokenPattern rule with
    | Some rx => existsb (fun value => existsb (rx_test rx) (splitTokens value)) strings | None => true end = true
    <-> forall rx, dr_inputTokenPattern rule = Some rx -> exists v t, reads_string call v /\ t ∈ splitTokens v /\ rx_test rx t = true).
  { destruct (dr_inputTokenPattern rule) as [rx |]; [| split; done]. rewrite existsb_elem. setoid_rewrite existsb_elem. setoid_rewrite R. split.
    - intros (v & Hv & t & H1 & H2) rx' [= <-]. by exists v, t.
    - intros H. destruct (H rx eq_refl) as (v & t & ? & ? & ?). exists v. split; [done |]. by exists t. }
  rewrite P, T, X. split; [intros [[[? ?] ?] ?]; by split | by intros []].
Qed.

Lemma find_first {A} (f : A -> bool) l :
  match List.find f l with
  | Some x => exists pre post, l = (pre ++ x :: post)%list /\ f x = true /\ forall y, y ∈ pre -> f y = false
  | None => forall y, y ∈ l -> f y = false
  end.
Proof.
  induction l as [| x l IH]; [by intros y Hy%elem_of_nil |]. cbn [List.find]. destruct (f x) eqn:E.
  - exists [], l. split; [done |]. split; [done |]. by intros y Hy%elem_of_nil.
  - destruct (List.find f l) as [y |].
    + destruct IH as (pre & post & -> & Hy & H). exists (x :: pre), post. split; [done |]. split; [done |]. by intros z [-> | Hz]%elem_of_cons; [| apply H].
    + by intros z [-> | Hz]%elem_of_cons; [| apply IH].
Qed.


(** A rule of the list that fires blocks the call. *)
Lemma fires_blocks call rules rule : well_addressed call -> rule ∈ rules -> fires call rule -> dv_allowed (evaluateDenyHooks call rules) = false.
Proof.
  intros W Hr Hf. unfold evaluateDenyHooks. destruct (List.find _ rules) as [r |] eqn:E; [done |]. exfalso.
  apply List.find_none with (x := rule) in E; [| by apply list_elem_of_In]. apply ruleMatches_iff in Hf; [| done]. by rewrite Hf in E.
Qed.

Lemma blocked_iff call rules : well_addressed call ->
  dv_allowed (evaluateDenyHooks call rules) = false <-> exists r, r ∈ rules /\ fires call r.
Proof.
  intros W. split; [| intros (r & Hr & Hf); by apply (fires_blocks _ _ r)]. unfold evaluateDenyHooks.
  destruct (List.find _ rules) as [r |] eqn:E; [| done]. intros _. apply List.find_some in E as [E1 E2]. exists r.
  split; [by apply list_elem_of_In | by apply ruleMatches_iff].
Qed.

(** A tool name without a slash is covered by the built-in rules. *)
Lemma star_covers s : str_forallb not_slash s = true -> covers "*" s.
Proof. intros H. cbn. exists s, "". by rewrite string_app_nil_r. Qed.

(** ** The built-in rules *)

(** Text without wildcards, in any letter case. *)
Lemma covers_text l g w s : str_forallb (fun c => negb (Ascii.eqb c "*")) l = true -> toLowerCase w = toLowerCase l -> covers g s -> covers (l ++ g) (w ++ s).
Proof.
  revert w. induction l as [| c l IH]; intros w Hl E H; destruct w as [| d w]; try discriminate E; [done |].
  cbn [str_forallb] in Hl. apply andb_true_iff in Hl as [Hc Hl]. cbn [toLowerCase] in E. injection E as E1 E2. rewrite !string_app_cons.
  apply deny_glob_lit; [intros ->; discriminate Hc |]. exists d, (w ++ s). split; [done |]. split; [done |]. by apply IH.
Qed.

(** A directory prefix: nothing, or text that ends with a slash. *)
Definition directory (dir : string) : Prop := dir = "" \/ exists u, dir = u ++ "/" /\ str_forallb dot u = true.

Lemma covers_under g dir s : directory dir -> covers g s -> covers ("**/" ++ g) (dir ++ s).
Proof.
  intros [-> | (u & -> & Hu)] H; [by left |]. right. exists u, s. split; [| by split]. by rewrite string_app_assoc.
Qed.

(** A relative path that normalization leaves alone. *)
Record plain_path (p : string) : Prop := mkPlain {
  pp_relative : drop_slashes p = p;
  pp_dot : drop_dot_slashes p = p;
  pp_normal : normalizePathCandidate p = p;
}.

(** Its spellings in a tool call: with either kind of slash, and with a leading
    [./]. *)
Definition spelled (p t : string) : Prop := backslashes_to_slashes t = p \/ backslashes_to_slashes t = "./" ++ p.

Lemma backslashes_idem s : backslashes_to_slashes (backslashes_to_slashes s) = backslashes_to_slashes s.
Proof.
  induction s as [| c s IH]; [done |]. cbn [backslashes_to_slashes]. rewrite IH. f_equal.
  destruct (Ascii.eqb c "\") eqn:E; [done | by rewrite E].
Qed.

Lemma drop_dot_slashes_dot s : drop_dot_slashes ("./" ++ s) = drop_slashes s.
Proof. reflexivity. Qed.

Lemma spelled_normal p t : plain_path p -> spelled p t -> normalizePathCandidate t = p.
Proof.
  intros [R Dd N] S. unfold normalizePathCandidate in *.
  assert (B : backslashes_to_slashes p = p).
  { destruct S as [<- | E]; [apply backslashes_idem |]. pose proof (backslashes_idem t) as I. rewrite E in I. cbn in I. by injection I. }
  rewrite B, Dd in N. destruct S as [-> | ->]; [by rewrite Dd |]. by rewrite drop_dot_slashes_dot, R.
Qed.

(** A call that names a workflow file anywhere in its input is blocked: as a
    whole string or as one quoted or unquoted word of a command, in any letter
    case, below any directory, with either kind of slash and with a leading [./]. *)
Theorem workflow_files_blocked call v t dir w file :
  well_addressed call -> str_forallb not_slash (tool_name call) = true -> reads_string call v -> t = v \/ t ∈ splitTokens v ->
  directory dir -> toLowerCase w = ".github/workflows/" -> str_forallb dot file = true ->
  plain_path (dir ++ w ++ file) -> spelled (dir ++ w ++ file) t ->
  dv_allowed (evaluateDenyHooks call DEFAULT_DENY_RULES) = false.
Proof.
  intros W Hn Hv Ht Hd Hw Hf Hp Hs. apply (fires_blocks _ _ (path_rule "**/.github/workflows/**" "Never modify CI workflows (.github/workflows/**)."));
    [done | by left |].
  assert (C : covers "**/.github/workflows/**" (dir ++ w ++ file)).
  { apply (covers_under ".github/workflows/**"); [done |]. apply (covers_text ".github/workflows/" "**" w file); [done | done |].
    exists file, "". by rewrite string_app_nil_r. }
  split; cbn [path_rule dr_matcher dr_pathPattern dr_inputIncludesAll dr_inputTokenPattern]; try done; [by apply star_covers |].
  intros p [= <-]. exists v, (dir ++ w ++ file). split; [done |]. split; [exists t; split; [done |]; right; symmetry; by apply spelled_normal |].
  split; [| done]. intros E. destruct dir; [| discriminate E]. destruct w; [discriminate Hw | discriminate E].
Qed.

Lemma short_option_test a c b : str_forallb is_letter a = true -> lower_ascii c = "f"%char -> str_forallb is_letter b = true ->
  rx_test short_force_option ("-" ++ a ++ String c b) = true.
Proof.
  intros Ha Hc Hb. cbn [rx_test short_force_option cat_all]. apply test_full_iff. eexists. eapply D_cat; [by apply D_chr |].
  eapply D_cat; [apply denotes_rep; by exists a |]. eapply D_cat; [apply D_chr; unfold ci; by rewrite Hc |].
  eapply D_cat; [apply denotes_rep; exists b; by rewrite string_app_nil_r | apply D_eps].
Qed.

(** A command that mentions [push] and forces it is blocked: with an option that
    contains [--force], or with a word of short options among which is [f] in
    either case. *)
Theorem force_push_blocked call v : well_addressed call -> str_forallb not_slash (tool_name call) = true -> reads_string call v ->
  (exists a b, v = a ++ "push" ++ b) ->
  (exists a b, v = a ++ "--force" ++ b)
  \/ (exists a c b, "-" ++ a ++ String c b ∈ splitTokens v /\ str_forallb is_letter a = true /\ lower_ascii c = "f"%char /\ str_forallb is_letter b = true) ->
  dv_allowed (evaluateDenyHooks call DEFAULT_DENY_RULES) = false.
Proof.
  intros W Hn Hv Hp [Hf | (a & c & b & Ht & Ha & Hc & Hb)].
  - apply (fires_blocks _ _ (mkDenyRule "*" None (Some ["push"; "--force"]) None "Never force-push (git push --force).")); [done | |].
    + do 8 apply list_elem_of_further. apply list_elem_of_here.
    + split; cbn; try done; [by apply star_covers |]. intros ns [= <-]. exists v. split; [done |].
      intros x [-> | [-> | Hx%elem_of_nil]%elem_of_cons]%elem_of_cons; done.
  - apply (fires_blocks _ _ (mkDenyRule "*" None (Some ["push"]) (Some short_force_option) "Never force-push (git push -f).")); [done | |].
    + do 9 apply list_elem_of_further. apply list_elem_of_here.
    + split; cbn [dr_matcher dr_pathPattern dr_inputIncludesAll dr_inputTokenPattern]; try done; [by apply star_covers | |].
      * intros ns [= <-]. exists v. split; [done |]. by intros x [-> | Hx%elem_of_nil]%elem_of_cons.
      * intros rx [= <-]. exists v, ("-" ++ a ++ String c b). split; [done |]. split; [done |]. by apply short_option_test.
Qed.

(** ** Paths the rules miss *)

(** The file a relative path names: empty and [.] segments are skipped. *)
Definition named_file (path : string) : string :=
  join "/" (List.filter (fun seg => negb (str_empty seg || String.eqb seg ".")) (split_on "/" path)).

Definition write_call (path : string) : ProposedToolCall := mkToolCall (JStr "Write") [[IStr path; IStr "on: push"]] (IRef 0).

(** Only one [/./] of a run is collapsed and doubled slashes are not, so a call
    that writes a workflow file under such a path is allowed, although the plain
    spelling of the same file is blocked. *)
Theorem dot_segments_evade_rules :
  List.map (fun path => (named_file path, dv_allowed (evaluateDenyHooks (write_call path) DEFAULT_DENY_RULES)))
    [".github/workflows/ci.yml"; "./.github/./workflows/ci.yml"; ".github/././workflows/ci.yml"; ".github//workflows/ci.yml"]
  = [(".github/workflows/ci.yml", false); (".github/workflows/ci.yml", false);
     (".github/workflows/ci.yml", true); (".github/workflows/ci.yml", true)].
Proof. vm_compute. reflexivity. Qed.

(** ** Examples *)

(** An input whose arguments refer back to it. *)
Definition cyclic_call : ProposedToolCall :=
  mkToolCall (JStr "Bash") [[IStr "run"; IRef 1; IRef 1]; [IStr "git push -uf"; IRef 0; IOther]] (IRef 0).

Lemma cyclic_addressed : well_addressed cyclic_call.
Proof. intros n [= <-]. by eexists. Qed.

Lemma cyclic_reads : reads_string cyclic_call "git push -uf".
Proof.
  exists 0, 1. split; [done |]. split.
  - apply rtc_once. exists [IStr "run"; IRef 1; IRef 1]. split; [done |]. split; [right; left | by eexists].
  - exists [IStr "git push -uf"; IRef 0; IOther]. split; [done | left].
Qed.

Lemma input_strings_reachable_witness : "git push -uf" ∈ collectInputStrings (tc_heap cyclic_call) (IRef 0).
Proof.
  apply (input_strings_reachable (tc_heap cyclic_call) 0 "git push -uf"); [by eexists |].
  destruct cyclic_reads as (n & x & [= <-] & P & Hx). by exists x.
Defined.


Definition workflow_add : ProposedToolCall := mkToolCall (JStr "Bash") [[IStr "git add 'Pkg\.GitHub\Workflows\ci.yml'"]] (IRef 0).

Lemma workflow_files_blocked_witness : dv_allowed (evaluateDenyHooks workflow_add DEFAULT_DENY_RULES) = false.
Proof.
  apply (workflow_files_blocked workflow_add "git add 'Pkg\.GitHub\Workflows\ci.yml'" "Pkg\.GitHub\Workflows\ci.yml" "Pkg/" ".GitHub/Workflows/" "ci.yml").
  - intros n [= <-]. by eexists.
  - reflexivity.
  - exists 0, 0. split; [done |]. split; [apply rtc_refl |]. eexists. split; [reflexivity | left].
  - right. vm_compute. do 2 apply list_elem_of_further. apply list_elem_of_here.
  - right. by exists "Pkg".
  - reflexivity.
  - reflexivity.
  - by split.
  - by left.
Defined.

Lemma force_push_blocked_witness : dv_allowed (evaluateDenyHooks cyclic_call DEFAULT_DENY_RULES) = false.
Proof.
  apply (force_push_blocked cyclic_call "git push -uf" cyclic_addressed eq_refl cyclic_reads); [by exists "git ", " -uf" |].
  right. exists "u", "f"%char, "". split; [vm_compute; do 2 apply list_elem_of_further; apply list_elem_of_here | by split_and!].
Defined.
