(* ===== verification/DenySynthesis.v ===== *)
(** * Deny rules from blocked history

    Models [miner/deny-hook-synthesis.ts] of the engine (deny-rule proposals from
    the paths that gate blocks touched, their review, and the rules in effect) and
    [packages/loopover-miner/lib/deny-hook-synthesis.ts], the store that keeps the
    proposals of every repository with the maintainers' decisions.

    [localeCompare] and the SHA-256 digest of [node:crypto] are parameters
    ([Platform]); [Array.prototype.sort] is a stable insertion sort.  The store
    keeps a rule as a value: what is written is the JSON of a synthesized rule,
    which has no regular expression.  Opening the file and its migration are not
    modelled.

    Main results: a path's count is the number of history records that touch it
    ([path_counts_exact]); once all proposals are approved, every path blocked
    often enough is denied ([frequent_paths_denied]) and an approved rule denies
    its path in any letter case and below any directory
    ([approved_path_blocked]); exactly the built-in rules and the approved ones
    are enforced ([only_approved_enforced]); in the store a rule is approved only
    by a maintainer's decision that no later one overrode, and refreshing from new
    history keeps every decision ([approval_needs_decision],
    [refresh_keeps_decisions]). *)

From Stdlib Require Import Ascii QArith Qround ZArith Lia.
From stdpp Require Import base list strings option sets relations.
From S2P Require Import Prelude JsNumber JsString JsRegex Guardrail Ledger CanonicalJson LocalStore DenyHooks.

Local Open Scope nat_scope.
Local Open Scope string_scope.
Local Open Scope js_scope.

Class Platform := {
  localeCompare : string -> string -> Z;
  sha256_digest : string -> string;
}.

(** ** Data *)

Record BlockerHistoryRecord := mkHistoryRecord {
  bh_repoFullName : option string;
  bh_blockerCodes : list string;
  bh_changedPaths : list string;
  bh_guardrailMatches : list string;
  bh_pullNumber : option Z;
  bh_recordedAt : option string;
}.

Inductive DenyRuleProposalStatus := p_proposed | p_approved | p_rejected.

#[global] Instance DenyRuleProposalStatus_eq_dec : EqDecision DenyRuleProposalStatus.
Proof. solve_decision. Defined.

Record DenyRuleProposalAudit := mkAudit {
  au_kind : string;
  au_path : string;
  au_pathPattern : string;
  au_occurrenceCount : nat;
  au_blockerCodes : list string;
  au_synthesizedAt : string;
}.

Record DenyRuleProposal := mkProposal {
  dp_id : string;
  dp_status : DenyRuleProposalStatus;
  dp_rule : DenyRule;
  dp_audit : DenyRuleProposalAudit;
}.

Record SynthesisConfig := mkSynthesisConfig { sc_minPathOccurrences : option num; sc_maxProposals : option num }.

Definition DEFAULT_minPathOccurrences : Z := 2.
Definition DEFAULT_maxProposals : Z := 20.

(** [proposalStatusSet.has(status)], the status it names. *)
Definition proposal_status (s : string) : option DenyRuleProposalStatus :=
  if String.eqb s "proposed" then Some p_proposed
  else if String.eqb s "approved" then Some p_approved
  else if String.eqb s "rejected" then Some p_rejected
  else None.

(** ** History records *)

Definition normalizeOptionalStringArray (value : jsval) : list string :=
  match value with
  | JArr vs =>
      List.flat_map (fun entry => match entry with JStr s => if str_empty (trim s) then [] else [trim s] | _ => [] end) vs
  | _ => []
  end.

Definition normalizeOptionalRepoFullName (value : jsval) : option string :=
  match value with
  | JStr s => if str_empty (trim s) then None else match normalizeRepoFullName (JStr s) with Normal r => Some r | Thrown _ => None end
  | _ => None
  end.

Definition normalizeBlockerHistoryRecord (record : jsval) : option BlockerHistoryRecord :=
  match record with
  | JObj _ =>
      let blockerCodes := normalizeOptionalStringArray (get_field record "blockerCodes") in
      match blockerCodes with
      | [] => None
      | _ =>
          Some (mkHistoryRecord (normalizeOptionalRepoFullName (get_field record "repoFullName")) blockerCodes
                  (normalizeOptionalStringArray (get_field record "changedPaths"))
                  (normalizeOptionalStringArray (get_field record "guardrailMatches"))
                  (positive_integer (get_field record "pullNumber"))
                  (match get_field record "recordedAt" with JStr s => if str_empty (trim s) then None else Some (trim s) | _ => None end))
      end
  | _ => None
  end.

Definition normalizeBlockerHistory (records : jsval) : list BlockerHistoryRecord :=
  match records with
  | JArr rs => List.flat_map (fun record => match normalizeBlockerHistoryRecord record with Some entry => [entry] | None => [] end) rs
  | _ => []
  end.

(** ** Paths *)

Definition canonicalizeChangedPath (path : string) : option string :=
  let trimmed := drop_slashes (drop_dot_slashes (backslashes_to_slashes (trim path))) in
  if str_empty trimmed || str_includes ".." trimmed then None else Some (toLowerCase trimmed).

Definition changedPathToDenyGlob (path : string) : option string :=
  match canonicalizeChangedPath path with Some canonical => Some ("**/" ++ canonical) | None => None end.

(** [pathPattern.replace(/^\*\*\//, "")]. *)
Definition drop_globstar (pattern : string) : string :=
  match pattern with String "*" (String "*" (String "/" rest)) => rest | _ => pattern end.

Definition file_write (path : string) : ProposedToolCall := mkToolCall (JStr "Write") [[IStr path]] (IRef 0).

Definition isCoveredByDefaultDenyRules (pathPattern : string) : bool :=
  if str_empty (trim pathPattern) then false
  else
    let samplePath := drop_globstar pathPattern in
    if str_empty samplePath then false else negb (dv_allowed (evaluateDenyHooks (file_write samplePath) DEFAULT_DENY_RULES)).

Definition collectPathsFromRecord (record : BlockerHistoryRecord) : list string :=
  js_set (omap canonicalizeChangedPath (bh_changedPaths record ++ bh_guardrailMatches record)%list).

(** ** Aggregation *)

(** [map.set(k, f(map.get(k)))] on a [Map]: in place, or at the end. *)
Fixpoint map_update {A} (k : string) (f : option A -> A) (m : list (string * A)) : list (string * A) :=
  match m with
  | [] => [(k, f None)]
  | (k', v) :: rest => if String.eqb k' k then (k', f (Some v)) :: rest else (k', v) :: map_update k f rest
  end.

Definition map_find {A} (k : string) (m : list (string * A)) : option A := snd <$> List.find (fun kv => String.eqb (fst kv) k) m.

Definition bump (n : option nat) : nat := default 0 n + 1.

Record Aggregate := mkAggregate {
  ag_pathCounts : list (string * nat);
  ag_pathBlockers : list (string * list string);
  ag_blockerCounts : list (string * nat);
  ag_recordCount : nat;
}.

Definition add_path (codes : list string) (acc : list (string * nat) * list (string * list string)) (path : string)
    : list (string * nat) * list (string * list string) :=
  (map_update path bump (fst acc), map_update path (fun old => js_set (default [] old ++ codes)%list) (snd acc)).

Definition add_record (acc : list (string * nat) * list (string * list string) * list (string * nat)) (record : BlockerHistoryRecord)
    : list (string * nat) * list (string * list string) * list (string * nat) :=
  (List.fold_left (add_path (bh_blockerCodes record)) (collectPathsFromRecord record) (fst acc),
   List.fold_left (fun counts code => map_update code bump counts) (bh_blockerCodes record) (snd acc)).

Definition aggregateBlockerHistory (records : jsval) : Aggregate :=
  let normalized := normalizeBlockerHistory records in
  let acc := List.fold_left add_record normalized ([], [], []) in
  mkAggregate (fst (fst acc)) (snd (fst acc)) (snd acc) (length normalized).

(** ** Proposals *)

(** [JSON.stringify] of the fields that identify a rule. *)
Definition ruleSignature (rule : DenyRule) : string :=
  default "" (json_stringify (JObj
    [("matcher", JStr (dr_matcher rule)); ("pathPattern", jopt JStr (dr_pathPattern rule));
     ("inputIncludesAll", jopt (fun ns => JArr (List.map JStr ns)) (dr_inputIncludesAll rule));
     ("inputTokenPattern", jopt (fun rx => JObj [("source", JStr (rx_source rx)); ("flags", JStr (rx_flags rx))]) (dr_inputTokenPattern rule));
     ("reason", JStr (dr_reason rule))])).

Section Synthesis.
Context `{IsoClock} `{Platform}.

Definition stableProposalId (kind key : string) : string :=
  kind ++ ":" ++ js_take 16 (sha256_digest (kind ++ ":" ++ key)).

Definition synthesized_reason (occurrenceCount : nat) (path : string) (sortedBlockers : list string) : string :=
  "Synthesized deny rule: " ++ num_to_string (nnat occurrenceCount) ++ " gate block(s) touched " ++ path ++ " ("
  ++ (if str_empty (join ", " sortedBlockers) then "path history" else join ", " sortedBlockers) ++ "). Review before enabling.".

Definition buildPathProposal (path : string) (occurrenceCount : nat) (blockerCodes : list string) (nowMs : Z) : option DenyRuleProposal :=
  match changedPathToDenyGlob path with
  | None => None
  | Some pathPattern =>
      if isCoveredByDefaultDenyRules pathPattern then None
      else
        let sortedBlockers := js_sort str_ltb blockerCodes in
        Some (mkProposal (stableProposalId "path" pathPattern) p_proposed
                (path_rule pathPattern (synthesized_reason occurrenceCount path sortedBlockers))
                (mkAudit "path_history" path pathPattern occurrenceCount sortedBlockers (iso nowMs)))
  end.

(** [Number.isInteger(v) ? Math.max(1, v) : fallback]. *)
Definition config_integer (v : option num) (fallback : Z) : Z :=
  match v with
  | Some (Fin q) => if Qeq_bool q (inject_Z (Qfloor q)) then Z.max 1 (Qfloor q) else fallback
  | _ => fallback
  end.

Definition ranks_ahead (left right : string * nat) : bool :=
  let d := (Z.of_nat (snd right) - Z.of_nat (snd left))%Z in
  ((if (d =? 0)%Z then localeCompare (fst left) (fst right) else d) <? 0)%Z.

Definition ranked_paths (minPathOccurrences : Z) (pathCounts : list (string * nat)) : list (string * nat) :=
  js_sort ranks_ahead (List.filter (fun pc => (minPathOccurrences <=? Z.of_nat (snd pc))%Z) pathCounts).

(** The loop over the ranked paths, with the signatures seen and the number of
    proposals so far. *)
Fixpoint propose (maxProposals : Z) (pathBlockers : list (string * list string)) (nowMs : Z) (seen : list string) (made : nat)
    (ranked : list (string * nat)) : list DenyRuleProposal :=
  match ranked with
  | [] => []
  | (path, count) :: rest =>
      match buildPathProposal path count (map_find path pathBlockers ?? []) nowMs with
      | None => propose maxProposals pathBlockers nowMs seen made rest
      | Some proposal =>
          let signature := ruleSignature (dp_rule proposal) in
          if set_has seen signature then propose maxProposals pathBlockers nowMs seen made rest
          else if (maxProposals <=? Z.of_nat (S made))%Z then [proposal]
          else proposal :: propose maxProposals pathBlockers nowMs (signature :: seen) (S made) rest
      end
  end.

Definition synthesizeDenyRuleProposals (records : jsval) (config : SynthesisConfig) (nowMs : Z) : list DenyRuleProposal :=
  let minPathOccurrences := config_integer (sc_minPathOccurrences config) DEFAULT_minPathOccurrences in
  let maxProposals := config_integer (sc_maxProposals config) DEFAULT_maxProposals in
  let agg := aggregateBlockerHistory records in
  if (ag_recordCount agg =? 0)%nat then []
  else propose maxProposals (ag_pathBlockers agg) nowMs (List.map ruleSignature DEFAULT_DENY_RULES) 0
         (ranked_paths minPathOccurrences (ag_pathCounts agg)).
End Synthesis.

(** ** Rules in effect *)

Fixpoint merge_approved (seen : list string) (proposals : list DenyRuleProposal) : list DenyRule :=
  match proposals with
  | [] => []
  | proposal :: rest =>
      if negb (bool_decide (dp_status proposal = p_approved)) then merge_approved seen rest
      else
        let signature := ruleSignature (dp_rule proposal) in
        if set_has seen signature then merge_approved seen rest
        else dp_rule proposal :: merge_approved (signature :: seen) rest
  end.

Definition resolveEffectiveDenyRules (includeDefaults : option bool) (approvedProposals : list DenyRuleProposal) : list DenyRule :=
  let merged := match includeDefaults with Some false => [] | _ => DEFAULT_DENY_RULES end in
  (merged ++ merge_approved (List.map ruleSignature merged) approvedProposals)%list.

Definition with_status (status : DenyRuleProposalStatus) (p : DenyRuleProposal) : DenyRuleProposal :=
  mkProposal (dp_id p) status (dp_rule p) (dp_audit p).

(** The updates as the entries of a [Map]. *)
Definition setProposalStatuses (proposals : list DenyRuleProposal) (updates : list (string * string)) : list DenyRuleProposal :=
  List.map (fun proposal =>
    match map_find (dp_id proposal) updates ≫= proposal_status with
    | Some status => with_status status proposal
    | None => proposal
    end) proposals.

(** ** The store of proposals *)

Record ProposalRow := mkProposalRow {
  pr_apiBaseUrl : string;
  pr_repoFullName : string;
  pr_id : string;
  pr_status : DenyRuleProposalStatus;
  pr_rule : DenyRule;
  pr_audit : DenyRuleProposalAudit;
  pr_updatedAt : string;
}.

Definition ProposalStore : Type := list ProposalRow.

Definition proposal_key (r : ProposalRow) : string * string * string := (pr_apiBaseUrl r, pr_repoFullName r, pr_id r).

Definition rowToProposal (row : ProposalRow) : DenyRuleProposal := mkProposal (pr_id row) (pr_status row) (pr_rule row) (pr_audit row).

(** [DO UPDATE SET status, rule_json, audit_json, updated_at]. *)
Definition replace_row (status : DenyRuleProposalStatus) (rule : DenyRule) (audit : DenyRuleProposalAudit) (updatedAt : string) (r : ProposalRow)
    : ProposalRow := mkProposalRow (pr_apiBaseUrl r) (pr_repoFullName r) (pr_id r) status rule audit updatedAt.

Definition decide_row (status : DenyRuleProposalStatus) (updatedAt : string) (r : ProposalRow) : ProposalRow :=
  replace_row status (pr_rule r) (pr_audit r) updatedAt r.

(** The status a refreshed proposal keeps. *)
Definition kept_status (existing : option ProposalRow) : DenyRuleProposalStatus :=
  match existing with Some r => pr_status r | None => p_proposed end.

Section Store.
Context `{IsoClock} `{Platform}.

Definition refresh_one (api repo updatedAt : string) (rows : ProposalStore) (proposal : DenyRuleProposal) : ProposalStore :=
  let status := kept_status (find_key proposal_key (api, repo, dp_id proposal) rows) in
  upsert proposal_key (api, repo, dp_id proposal) (fun _ => true) (replace_row status (dp_rule proposal) (dp_audit proposal) updatedAt)
    (mkProposalRow api repo (dp_id proposal) status (dp_rule proposal) (dp_audit proposal) updatedAt) rows.

(** [WHERE api_base_url = ? AND repo_full_name = ? ORDER BY id ASC]. *)
Definition rows_of (api repo : string) (rows : ProposalStore) : list ProposalRow :=
  js_sort (fun a b => str_ltb (pr_id a) (pr_id b))
    (List.filter (fun r => String.eqb (pr_apiBaseUrl r) api && String.eqb (pr_repoFullName r) repo) rows).

(** [nowMs] is read for the synthesis, [now] for the rows. *)
Definition refreshProposals (nowMs now : Z) (repoFullName history : jsval) (config : SynthesisConfig) (apiBaseUrl : jsval)
    : call ProposalStore (list DenyRuleProposal) :=
  forge <~ lift (normalizeApiBaseUrl apiBaseUrl) ;;
  repo <~ lift (normalizeRepoFullName repoFullName) ;;
  fun rows =>
    let rows' := List.fold_left (refresh_one forge repo (iso now)) (synthesizeDenyRuleProposals history config nowMs) rows in
    (rows', Normal (List.map rowToProposal (rows_of forge repo rows'))).

Definition listProposals (repoFullName apiBaseUrl : jsval) : call ProposalStore (list DenyRuleProposal) :=
  forge <~ lift (normalizeApiBaseUrl apiBaseUrl) ;;
  repo <~ lift (normalizeRepoFullName repoFullName) ;;
  fun rows => (rows, Normal (List.map rowToProposal (rows_of forge repo rows))).

Definition setProposalStatus (now : Z) (repoFullName proposalId : jsval) (status : string) (apiBaseUrl : jsval) : call ProposalStore unit :=
  forge <~ lift (normalizeApiBaseUrl apiBaseUrl) ;;
  repo <~ lift (normalizeRepoFullName repoFullName) ;;
  id <~ lift (match proposalId with JStr s => if str_empty (trim s) then Thrown "invalid_proposal_id" else Normal (trim s)
              | _ => Thrown "invalid_proposal_id" end) ;;
  st <~ lift (match proposal_status status with Some st => Normal st | None => Thrown "invalid_proposal_status" end) ;;
  fun rows => (update_where proposal_key (forge, repo, id) (fun _ => true) (decide_row st (iso now)) rows, Normal tt).

Definition resolveEffectiveRules (repoFullName : jsval) (includeDefaults : option bool) (apiBaseUrl : jsval) : call ProposalStore (list DenyRule) :=
  proposals <~ listProposals repoFullName apiBaseUrl ;;
  ret (resolveEffectiveDenyRules includeDefaults proposals).

Definition purgeProposals (repoFullName : jsval) : call ProposalStore Z :=
  repo <~ lift (normalizeRepoFullName repoFullName) ;;
  fun rows => (List.filter (fun r => negb (String.eqb (pr_repoFullName r) repo)) rows,
               Normal (Z.of_nat (count (fun r => String.eqb (pr_repoFullName r) repo) rows))).
End Store.

(** ** Signatures identify rules *)

Definition null_or (t : option string) : string := match t with Some s => s | None => "null" end.

Definition json_strings (ns : list string) : string := "[" ++ join "," (List.map json_quote ns) ++ "]".

Definition member_text (k : string) : string := json_quote k ++ ":".

Lemma signature_text rule :
  ruleSignature rule
  = "{" ++ member_text "matcher" ++ json_quote (dr_matcher rule) ++ "," ++ member_text "pathPattern" ++ null_or (json_quote <$> dr_pathPattern rule)
    ++ "," ++ member_text "inputIncludesAll" ++ null_or (json_strings <$> dr_inputIncludesAll rule)
    ++ "," ++ member_text "inputTokenPattern"
    ++ null_or ((fun rx => "{" ++ member_text "source" ++ json_quote (rx_source rx) ++ "," ++ member_text "flags" ++ json_quote (rx_flags rx) ++ "}")
                  <$> dr_inputTokenPattern rule)
    ++ "," ++ member_text "reason" ++ json_quote (dr_reason rule) ++ "}".
Proof.
  assert (A : forall ns, json_stringify (JArr (List.map JStr ns)) = Some (json_strings ns)).
  { intros ns. cbn [json_stringify]. unfold json_strings. by rewrite List.map_map, (List.map_ext _ json_quote). }
  unfold ruleSignature, jopt, member_text. destruct rule as [mt [p |] [ns |] [rx |] re]; cbn [dr_matcher dr_pathPattern dr_inputIncludesAll dr_inputTokenPattern dr_reason];
    set (arr := JArr _) || idtac; cbn [json_stringify List.map List.concat fst snd default app join fmap option_fmap option_map null_or from_option id];
    try (unfold arr; rewrite A); cbn [app join default from_option id]; by rewrite ?string_app_assoc.
Qed.

Lemma string_app_inj a b c : a ++ b = a ++ c -> b = c.
Proof. induction a as [| x a IH]; [done |]. rewrite !string_app_cons. intros [= E]. by apply IH. Qed.

Lemma quote_head s rest : exists t, json_quote s ++ rest = String quote_char t.
Proof. rewrite quote_shape. by eexists. Qed.

Lemma null_quote_inj o o' rest rest' : null_or (json_quote <$> o) ++ rest = null_or (json_quote <$> o') ++ rest' -> o = o' /\ rest = rest'.
Proof.
  destruct o as [s |], o' as [s' |]; cbn [fmap option_fmap option_map null_or]; intros E.
  - apply json_quote_inj in E as [-> ->]. done.
  - destruct (quote_head s rest) as [t T]. rewrite T in E. discriminate E.
  - destruct (quote_head s' rest') as [t T]. rewrite T in E. discriminate E.
  - by apply string_app_inj in E.
Qed.

Lemma join_quotes_inj ns : forall ns' rest rest', join "," (List.map json_quote ns) ++ "]" ++ rest = join "," (List.map json_quote ns') ++ "]" ++ rest' ->
  ns = ns' /\ rest = rest'.
Proof.
  assert (J : forall n ns rest, join "," (List.map json_quote (n :: ns)) ++ "]" ++ rest
    = json_quote n ++ match ns with [] => "]" ++ rest | _ => "," ++ join "," (List.map json_quote ns) ++ "]" ++ rest end).
  { intros n [| n' ns0] rest; [done |]. cbn [List.map]. rewrite join_cons by discriminate. by rewrite !string_app_assoc. }
  induction ns as [| n ns IH]; intros ns' rest rest' E.
  - destruct ns' as [| n' ns']; [by injection E |]. rewrite J in E. destruct (quote_head n' (match ns' with [] => "]" ++ rest' | _ => "," ++ join "," (List.map json_quote ns') ++ "]" ++ rest' end)) as [t T].
    rewrite T in E. discriminate E.
  - destruct ns' as [| n' ns'].
    + rewrite J in E. destruct (quote_head n (match ns with [] => "]" ++ rest | _ => "," ++ join "," (List.map json_quote ns) ++ "]" ++ rest end)) as [t T].
      rewrite T in E. discriminate E.
    + rewrite !J in E. apply json_quote_inj in E as [-> E]. destruct ns as [| m ns], ns' as [| m' ns']; try discriminate E; [by injection E |].
      apply string_app_inj in E. destruct (IH (m' :: ns') rest rest' E) as [[= -> ->] ->]. done.
Qed.

Lemma null_strings_inj o o' rest rest' : null_or (json_strings <$> o) ++ rest = null_or (json_strings <$> o') ++ rest' -> o = o' /\ rest = rest'.
Proof.
  destruct o as [ns |], o' as [ns' |]; cbn [fmap option_fmap option_map null_or]; unfold json_strings; intros E; try discriminate E.
  - rewrite !string_app_assoc in E. apply string_app_inj, join_quotes_inj in E as [-> ->]. done.
  - by apply string_app_inj in E.
Qed.

(** Two rules with one signature are one rule, unless they carry regular
    expressions. *)
Lemma ruleSignature_inj r r' : dr_inputTokenPattern r = None -> ruleSignature r = ruleSignature r' -> r = r'.
Proof.
  intros T. rewrite !signature_text. intros E. apply string_app_inj, string_app_inj in E. apply json_quote_inj in E as [E1 E].
  do 2 apply string_app_inj in E. apply null_quote_inj in E as [E2 E]. do 2 apply string_app_inj in E. apply null_strings_inj in E as [E3 E].
  do 2 apply string_app_inj in E. rewrite T in E. destruct (dr_inputTokenPattern r') as [rx |] eqn:T'; [discriminate E |].
  apply string_app_inj, string_app_inj, string_app_inj in E. apply json_quote_inj in E as [E4 _]. destruct r, r'. cbn in *. by subst.
Qed.

(** ** Exactly the approved rules are enforced *)

Definition json_rule (p : DenyRuleProposal) : Prop := dr_inputTokenPattern (dp_rule p) = None.

Lemma merge_approved_sound seen ps r : r ∈ merge_approved seen ps -> exists p, p ∈ ps /\ dp_status p = p_approved /\ dp_rule p = r.
Proof.
  revert seen. induction ps as [| p ps IH]; intros seen; [by intros H%elem_of_nil |]. cbn [merge_approved].
  assert (R : forall seen', r ∈ merge_approved seen' ps -> exists q, q ∈ p :: ps /\ dp_status q = p_approved /\ dp_rule q = r).
  { intros seen' Hr. destruct (IH seen' Hr) as (q & ? & ? & ?). exists q. split; [by right | done]. }
  case_bool_decide as A; cbn [negb]; [| apply R]. destruct (set_has seen _); [apply R |].
  intros [-> | Hr]%elem_of_cons; [exists p; split; [by left | done] | by apply (R _ Hr)].
Qed.

Lemma merge_approved_complete seen ps p : p ∈ ps -> dp_status p = p_approved ->
  ruleSignature (dp_rule p) ∈ seen \/ exists r, r ∈ merge_approved seen ps /\ ruleSignature r = ruleSignature (dp_rule p).
Proof.
  revert seen. induction ps as [| q ps IH]; intros seen; [by intros H%elem_of_nil |]. cbn [merge_approved].
  intros [-> | Hp]%elem_of_cons A.
  - rewrite bool_decide_true by done. cbn [negb]. destruct (set_has seen _) eqn:S; [left; by apply set_has_elem |]. right.
    exists (dp_rule q). split; [by left | done].
  - case_bool_decide as B; cbn [negb]; [| by apply IH]. destruct (set_has seen _) eqn:S; [by apply IH |].
    destruct (IH (ruleSignature (dp_rule q) :: seen) Hp A) as [[-> | Hs]%elem_of_cons | (r & Hr & E)].
    + right. exists (dp_rule q). split; [by left | done].
    + by left.
    + right. exists r. split; [by right | done].
Qed.

Lemma effective_rules inc ps r : (forall p, p ∈ ps -> json_rule p) ->
  r ∈ resolveEffectiveDenyRules inc ps
  <-> (inc <> Some false /\ r ∈ DEFAULT_DENY_RULES) \/ exists p, p ∈ ps /\ dp_status p = p_approved /\ dp_rule p = r.
Proof.
  intros J. unfold resolveEffectiveDenyRules.
  assert (D : forall x, x ∈ match inc with Some false => [] | _ => DEFAULT_DENY_RULES end <-> inc <> Some false /\ x ∈ DEFAULT_DENY_RULES).
  { intros x. by destruct inc as [[] |]; (split; [intros Hx; split; [discriminate | exact Hx] | intros [_ Hx]; exact Hx]) || (split; [intros Hx%elem_of_nil | intros [Hx _]]). }
  set (merged := match inc with Some false => [] | _ => DEFAULT_DENY_RULES end) in *. rewrite elem_of_app, D. split.
  - intros [H | H%merge_approved_sound]; auto.
  - intros [H | (p & Hp & A & <-)]; [by left |].
    destruct (merge_approved_complete (List.map ruleSignature merged) ps p Hp A) as [Hs | (r & Hr & E)].
    + apply list_elem_of_In, List.in_map_iff in Hs as (r & E & Hr). left. apply D, list_elem_of_In.
      by rewrite (ruleSignature_inj _ r (J p Hp) (eq_sym E)).
    + right. destruct (merge_approved_sound _ _ _ Hr) as (q & Hq & _ & Eq). by rewrite (ruleSignature_inj _ r (J p Hp) (eq_sym E)).
Qed.

(** The rules in effect are the built-in ones, unless they are switched off, and
    those of the approved proposals: a call is blocked exactly when one of these
    fires.  Proposals that were not approved, or were rejected, never block. *)
Theorem only_approved_enforced call inc ps : well_addressed call -> (forall p, p ∈ ps -> json_rule p) ->
  dv_allowed (evaluateDenyHooks call (resolveEffectiveDenyRules inc ps)) = false
  <-> (inc <> Some false /\ exists r, r ∈ DEFAULT_DENY_RULES /\ fires call r)
      \/ exists p, p ∈ ps /\ dp_status p = p_approved /\ fires call (dp_rule p).
Proof.
  intros W J. pose proof (fun r => effective_rules inc ps r J) as F.
  rewrite blocked_iff by done. setoid_rewrite F. split.
  - intros (r & [[H1 H2] | (p & H1 & H2 & <-)] & Hf); [left | right]; eauto.
  - intros [[H1 (r & H2 & Hf)] | (p & H1 & H2 & Hf)]; [exists r | exists (dp_rule p)]; eauto 6.
Qed.

(** ** An approved rule denies its path *)

Lemma lower_fixed d c : (c = "*" \/ c = "/")%char -> lower_ascii d = lower_ascii c -> d = c.
Proof. intros [-> | ->]; destruct d as [[] [] [] [] [] [] [] []]; vm_compute; intros E; (reflexivity || discriminate E). Qed.

(** A path read as a glob covers itself, in any letter case. *)
Lemma covers_self p : forall q, toLowerCase q = toLowerCase p -> covers p q.
Proof.
  induction p as [| c g Hc IH | g Hg IH | g IH | g Hg IH] using glob_ind; intros q E.
  - by destruct q.
  - destruct q as [| d q]; [discriminate E |]. cbn [toLowerCase] in E. injection E as E1 E2. apply deny_glob_lit; [done |].
    exists d, q. split; [done |]. split; [done | by apply IH].
  - destruct q as [| d q]; [discriminate E |]. cbn [toLowerCase] in E. injection E as E1 E2. apply lower_fixed in E1 as ->; [| by left].
    apply deny_glob_star; [done |]. exists "*", q. split; [done |]. split; [done | by apply IH].
  - destruct q as [| d1 [| d2 [| d3 q]]]; try discriminate E. cbn [toLowerCase] in E. injection E as E1 E2 E3 E.
    apply lower_fixed in E1 as ->, E2 as ->, E3 as ->; [| by right | by left | by left]. right. exists "**", q. split; [done |].
    split; [done | by apply IH].
  - destruct q as [| d1 [| d2 q]]; try discriminate E. cbn [toLowerCase] in E. injection E as E1 E2 E.
    apply lower_fixed in E1 as ->, E2 as ->; [| by left | by left]. apply deny_glob_globstar; [done |]. exists "**", q. split; [done |].
    split; [done | by apply IH].
Qed.

Lemma path_rule_fires call c reason v t dir q : str_forallb not_slash (tool_name call) = true -> reads_string call v -> t = v \/ t ∈ splitTokens v ->
  t = dir ++ q -> directory dir -> toLowerCase q = toLowerCase c -> t <> "" -> fires call (path_rule ("**/" ++ c) reason).
Proof.
  intros Hn Hv Ht -> Hd Hq Ne. split; cbn [path_rule dr_matcher dr_pathPattern dr_inputIncludesAll dr_inputTokenPattern]; try done; [by apply star_covers |].
  intros p [= <-]. exists v, (dir ++ q). split; [done |]. split; [exists (dir ++ q); auto |]. split; [done |]. apply covers_under; [done |]. by apply covers_self.
Qed.

Lemma build_rule `{IsoClock} `{Platform} path n codes nowMs proposal : buildPathProposal path n codes nowMs = Some proposal ->
  au_path (dp_audit proposal) = path
  /\ exists c reason, canonicalizeChangedPath path = Some c /\ dp_rule proposal = path_rule ("**/" ++ c) reason /\ dp_status proposal = p_proposed.
Proof.
  unfold buildPathProposal, changedPathToDenyGlob. destruct (canonicalizeChangedPath path) as [c |]; [| discriminate].
  destruct (isCoveredByDefaultDenyRules _); [discriminate |]. intros [= <-]. split; [done |]. by eexists _, _.
Qed.

(** What the loop proposes was built from a ranked path. *)
Lemma propose_sound `{IsoClock} `{Platform} mx blockers nowMs ranked : forall seen made p, p ∈ propose mx blockers nowMs seen made ranked ->
  exists path n, (path, n) ∈ ranked /\ buildPathProposal path n (map_find path blockers ?? []) nowMs = Some p.
Proof.
  induction ranked as [| [path n] ranked IH]; intros seen made p; [by intros Hp%elem_of_nil |]. cbn [propose].
  assert (R : forall seen' made', p ∈ propose mx blockers nowMs seen' made' ranked ->
    exists path' n', (path', n') ∈ (path, n) :: ranked /\ buildPathProposal path' n' (map_find path' blockers ?? []) nowMs = Some p).
  { intros seen' made' Hp. destruct (IH _ _ _ Hp) as (path' & n' & ? & ?). exists path', n'. split; [by right | done]. }
  destruct (buildPathProposal path n _ nowMs) as [q |] eqn:B; [| apply R]. destruct (set_has seen _); [apply R |].
  destruct (mx <=? _)%Z.
  - intros ->%list_elem_of_singleton. exists path, n. split; [by left | done].
  - intros [-> | Hp]%elem_of_cons; [exists path, n; split; [by left | done] | by apply (R _ _ Hp)].
Qed.

Lemma synthesized_rule `{IsoClock} `{Platform} records config nowMs p : p ∈ synthesizeDenyRuleProposals records config nowMs ->
  exists c reason, canonicalizeChangedPath (au_path (dp_audit p)) = Some c /\ dp_rule p = path_rule ("**/" ++ c) reason /\ dp_status p = p_proposed.
Proof.
  unfold synthesizeDenyRuleProposals. destruct (_ =? 0)%nat; [by intros Hp%elem_of_nil |]. intros (path & n & _ & B)%propose_sound.
  destruct (build_rule _ _ _ _ _ B) as (-> & c & reason & ? & ? & ?). by exists c, reason.
Qed.

(** Once a synthesized proposal is approved, every call that names its path is
    blocked: as a whole string or one word of a command, in any letter case and
    below any directory, whatever other proposals there are. *)
Theorem approved_path_blocked `{IsoClock} `{Platform} records config nowMs p inc ps :
  p ∈ synthesizeDenyRuleProposals records config nowMs -> with_status p_approved p ∈ ps -> (forall x, x ∈ ps -> json_rule x) ->
  exists c, canonicalizeChangedPath (au_path (dp_audit p)) = Some c
    /\ forall call v dir q, well_addressed call -> str_forallb not_slash (tool_name call) = true -> reads_string call v ->
       dir ++ q = v \/ dir ++ q ∈ splitTokens v -> dir ++ q <> "" -> directory dir -> toLowerCase q = toLowerCase c ->
       dv_allowed (evaluateDenyHooks call (resolveEffectiveDenyRules inc ps)) = false.
Proof.
  intros Hs Hp J. destruct (synthesized_rule _ _ _ _ Hs) as (c & reason & Hc & E & _). exists c. split; [done |].
  intros call v dir q W Hn Hv Ht Ne Hd Hq. apply (fires_blocks _ _ (dp_rule p)); [done | |].
  - apply effective_rules; [done |]. right. by exists (with_status p_approved p).
  - rewrite E. by apply (path_rule_fires call c reason v (dir ++ q) dir q).
Qed.

(** ** Counts *)

Lemma map_find_update {A} k k' (f : option A -> A) m :
  map_find k' (map_update k f m) = if String.eqb k k' then Some (f (map_find k m)) else map_find k' m.
Proof.
  unfold map_find. induction m as [| [x v] m IH]; cbn [map_update List.find fst].
  - by destruct (String.eqb k k').
  - destruct (String.eqb_spec x k) as [-> | N]; cbn [List.find fst].
    + by destruct (String.eqb k k').
    + destruct (String.eqb_spec x k') as [-> | N']; [destruct (String.eqb_spec k k'); [congruence | done] | done].
Qed.

Lemma add_paths_find codes p paths : NoDup paths -> forall m,
  map_find p (fst (List.fold_left (add_path codes) paths m)) = if bool_decide (p ∈ paths) then Some (bump (map_find p (fst m))) else map_find p (fst m).
Proof.
  induction paths as [| x paths IH]; intros N m; [done |]. apply nodup_cons_inv in N as [Nx N]. cbn [List.fold_left]. rewrite IH by done.
  cbn [add_path fst]. rewrite map_find_update. destruct (String.eqb_spec x p) as [-> | Ne].
  - rewrite (bool_decide_false (p ∈ paths)) by done. rewrite (bool_decide_true (p ∈ p :: paths)); [done | by left].
  - erewrite (bool_decide_ext (p ∈ x :: paths)); [done |]. rewrite elem_of_cons. naive_solver.
Qed.

Definition touches (p : string) (r : BlockerHistoryRecord) : bool := bool_decide (p ∈ collectPathsFromRecord r).

Lemma add_records_find p rs : forall acc,
  map_find p (fst (fst (List.fold_left add_record rs acc)))
  = match count (touches p) rs with 0 => map_find p (fst (fst acc)) | n => Some (default 0 (map_find p (fst (fst acc))) + n) end.
Proof.
  induction rs as [| r rs IH]; intros acc; [done |]. cbn [List.fold_left]. rewrite IH. cbn [add_record fst].
  rewrite add_paths_find by apply js_set_nodup. unfold count. cbn [List.filter]. change (bool_decide (p ∈ collectPathsFromRecord r)) with (touches p r).
  destruct (touches p r) eqn:T; [| done]. unfold bump. cbn [length].
  destruct (length (List.filter (touches p) rs)) as [| k]; [done |]. cbn [default]. unfold id. f_equal. cbn. lia.
Qed.

(** The count of a path is the number of usable history records that touch it,
    each record counted once; a path no record touches has no count. *)
Theorem path_counts_exact records p :
  map_find p (ag_pathCounts (aggregateBlockerHistory records))
  = match count (touches p) (normalizeBlockerHistory records) with 0 => None | n => Some n end.
Proof. unfold aggregateBlockerHistory. cbn [ag_pathCounts]. rewrite add_records_find. by destruct (count _ _). Qed.

Lemma propose_complete `{IsoClock} `{Platform} mx blockers nowMs path n ranked : forall seen made,
  (path, n) ∈ ranked -> (Z.of_nat (made + length ranked) <= mx)%Z ->
  match buildPathProposal path n (map_find path blockers ?? []) nowMs with
  | None => True
  | Some p => ruleSignature (dp_rule p) ∈ seen
              \/ exists q, q ∈ propose mx blockers nowMs seen made ranked /\ ruleSignature (dp_rule q) = ruleSignature (dp_rule p)
  end.
Proof.
  induction ranked as [| [path' n'] ranked IH]; intros seen made Hp L; [by apply elem_of_nil in Hp |]. cbn [propose length] in *.
  apply elem_of_cons in Hp as [[= <- <-] | Hp].
  - destruct (buildPathProposal path n _ nowMs) as [p |]; [| done]. destruct (set_has seen _) eqn:S; [left; by apply set_has_elem |]. right.
    exists p. destruct (mx <=? _)%Z; (split; [by left | done]).
  - destruct (buildPathProposal path' n' _ nowMs) as [p' |]; [| apply IH; [done | lia]].
    destruct (set_has seen _); [apply IH; [done | lia] |].
    destruct (mx <=? _)%Z eqn:M.
    + apply Z.leb_le in M. destruct ranked; [by apply elem_of_nil in Hp | cbn in L; lia].
    + specialize (IH (ruleSignature (dp_rule p') :: seen) (S made) Hp ltac:(lia)). destruct (buildPathProposal path n _ nowMs) as [p |]; [| done].
      destruct IH as [[-> | Hs]%elem_of_cons | (q & Hq & E)]; [right; exists p'; split; [by left | done] | by left | right; exists q; split; [by right | done]].
Qed.

Lemma file_write_addressed path : well_addressed (file_write path).
Proof. intros n [= <-]. by eexists. Qed.

Lemma file_write_reads path : reads_string (file_write path) path.
Proof. exists 0, 0. split; [done |]. split; [apply rtc_refl |]. exists [IStr path]. split; [done | left]. Qed.

Lemma canonical_nonempty path c : canonicalizeChangedPath path = Some c -> c <> "".
Proof.
  unfold canonicalizeChangedPath. destruct (drop_slashes _) as [| d s]; [done |]. destruct (_ || _); [discriminate |]. intros [= <-]. discriminate.
Qed.

Lemma config_integer_pos v d : (1 <= d)%Z -> (1 <= config_integer v d)%Z.
Proof. intros Hd. destruct v as [[| | | q] |]; cbn [config_integer]; try done. destruct (Qeq_bool _ _); lia. Qed.

(** End to end: when the maintainers approve every proposal, writing a path that
    gate blocks touched at least the configured number of times is denied, either
    by a built-in rule or by the synthesized one, as long as there are no more such
    paths than proposals may be made. *)
Theorem frequent_paths_denied `{IsoClock} `{Platform} records config nowMs p :
  let counts := ag_pathCounts (aggregateBlockerHistory records) in
  let min := config_integer (sc_minPathOccurrences config) DEFAULT_minPathOccurrences in
  canonicalizeChangedPath p = Some p -> (min <= Z.of_nat (count (touches p) (normalizeBlockerHistory records)))%Z ->
  (Z.of_nat (length (ranked_paths min counts)) <= config_integer (sc_maxProposals config) DEFAULT_maxProposals)%Z ->
  dv_allowed (evaluateDenyHooks (file_write p)
    (resolveEffectiveDenyRules None (List.map (with_status p_approved) (synthesizeDenyRuleProposals records config nowMs)))) = false.
Proof.
  cbv zeta. intros Hp Hm Hl. pose proof (config_integer_pos (sc_minPathOccurrences config) DEFAULT_minPathOccurrences ltac:(done)) as Hmin.
  set (min := config_integer (sc_minPathOccurrences config) _) in *. set (ps := synthesizeDenyRuleProposals records config nowMs).
  pose proof (path_counts_exact records p) as Hc. set (n := count (touches p) _) in *.
  assert (Hn : exists k, n = S k) by (destruct n as [| k]; [lia | by exists k]). destruct Hn as [k Hk]. rewrite Hk in Hc.
  assert (Hin : (p, n) ∈ ranked_paths min (ag_pathCounts (aggregateBlockerHistory records))).
  { unfold ranked_paths. rewrite js_sort_elem, list_elem_of_In, List.filter_In, Hk. split; [| apply Z.leb_le; cbn [snd]; lia].
    unfold map_find in Hc. destruct (List.find _ _) as [[p' n'] |] eqn:F; [| discriminate Hc]. apply List.find_some in F as [F1 F2%String.eqb_eq].
    cbn in *. by injection Hc as <-; subst. }
  assert (J : forall x, x ∈ List.map (with_status p_approved) ps -> json_rule x).
  { intros x Hx. apply list_elem_of_In, List.in_map_iff in Hx as (y & <- & Hy%list_elem_of_In). destruct (synthesized_rule _ _ _ _ Hy) as (c & re & _ & E & _).
    unfold json_rule, with_status. cbn [dp_rule]. by rewrite E. }
  pose proof (propose_complete (config_integer (sc_maxProposals config) DEFAULT_maxProposals) (ag_pathBlockers (aggregateBlockerHistory records)) nowMs p n
    _ (List.map ruleSignature DEFAULT_DENY_RULES) 0 Hin Hl) as C.
  assert (Fire : forall reason, fires (file_write p) (path_rule ("**/" ++ p) reason)).
  { intros reason. apply (path_rule_fires _ p reason p p "" p); auto using file_write_reads; [by left | by apply (canonical_nonempty p)]. }
  destruct (buildPathProposal p n _ nowMs) as [q |] eqn:B.
  - destruct (build_rule _ _ _ _ _ B) as (_ & c & reason & Ec & Eq & _). rewrite Hp in Ec. injection Ec as <-.
    apply (fires_blocks _ _ (dp_rule q)); [apply file_write_addressed | | by rewrite Eq]. apply effective_rules; [done |].
    assert (R : forall r, ruleSignature r = ruleSignature (dp_rule q) -> dp_rule q = r) by (intros r E; apply ruleSignature_inj; [by rewrite Eq | done]).
    destruct C as [Hs | (q' & Hq & E)].
    + apply list_elem_of_In, List.in_map_iff in Hs as (r & E & Hr). left. split; [done |]. rewrite (R r E). by apply list_elem_of_In.
    + right. exists (with_status p_approved q'). split; [| split; [done | cbn; symmetry; by apply R]].
      apply list_elem_of_In, List.in_map, list_elem_of_In. unfold ps, synthesizeDenyRuleProposals.
      destruct (ag_recordCount _ =? 0)%nat eqn:Z0; [| done]. exfalso. cbn in Z0. apply Nat.eqb_eq in Z0.
      assert (n = 0) by (unfold n, count; pose proof (List.filter_length_le (touches p) (normalizeBlockerHistory records)); lia). lia.
  - unfold buildPathProposal, changedPathToDenyGlob in B. rewrite Hp in B. destruct (isCoveredByDefaultDenyRules ("**/" ++ p)) eqn:V; [| discriminate B].
    unfold isCoveredByDefaultDenyRules in V. destruct (str_empty (trim _)); [discriminate V |].
    change (drop_globstar ("**/" ++ p)) with p in V. destruct (str_empty p); [discriminate V |]. apply negb_true_iff in V.
    apply blocked_iff in V as (r & Hr & Hf); [| apply file_write_addressed]. apply (fires_blocks _ _ r); [apply file_write_addressed | | done].
    apply effective_rules; [done |]. left. by split.
Qed.

(** ** Decisions in the store *)

Inductive proposal_call :=
| pc_refresh (nowMs now : Z) (repoFullName history : jsval) (config : SynthesisConfig) (apiBaseUrl : jsval)
| pc_decide (now : Z) (repoFullName proposalId : jsval) (status : string) (apiBaseUrl : jsval)
| pc_purge (repoFullName : jsval).

(** The call is a maintainer's decision on row [k]. *)
Definition decides (k : string * string * string) (st : DenyRuleProposalStatus) (c : proposal_call) : Prop :=
  match c with
  | pc_decide _ repo (JStr id) status api =>
      normalizeApiBaseUrl api = Normal (fst (fst k)) /\ normalizeRepoFullName repo = Normal (snd (fst k)) /\ trim id = snd k /\ str_empty (trim id) = false
      /\ proposal_status status = Some st
  | _ => False
  end.

Definition purges (k : string * string * string) (c : proposal_call) : Prop :=
  match c with pc_purge repo => normalizeRepoFullName repo = Normal (snd (fst k)) | _ => False end.

Section Decisions.
Context `{IsoClock} `{Platform}.

Definition run_proposal_call (rows : ProposalStore) (c : proposal_call) : ProposalStore :=
  match c with
  | pc_refresh nowMs now repo history config api => fst (refreshProposals nowMs now repo history config api rows)
  | pc_decide now repo id status api => fst (setProposalStatus now repo id status api rows)
  | pc_purge repo => fst (purgeProposals repo rows)
  end.

Definition run_proposals (rows : ProposalStore) (calls : list proposal_call) : ProposalStore := List.fold_left run_proposal_call calls rows.

Definition status_of (k : string * string * string) (rows : ProposalStore) : option DenyRuleProposalStatus := pr_status <$> find_key proposal_key k rows.

Lemma refresh_one_status api repo at_ rows p k :
  status_of k (refresh_one api repo at_ rows p)
  = match status_of k rows with Some st => Some st | None => if decide (k = (api, repo, dp_id p)) then Some p_proposed else None end.
Proof.
  unfold status_of, refresh_one. rewrite find_upsert by done. destruct (decide (k = _)) as [-> | N]; [| by destruct (find_key _ _ rows)].
  by destruct (find_key _ _ rows).
Qed.

(** A refresh leaves every decision and adds rows that wait for one. *)
Lemma refresh_status api repo at_ ps k : forall rows,
  let rows' := List.fold_left (refresh_one api repo at_) ps rows in
  status_of k rows' = match status_of k rows with
                      | Some st => Some st
                      | None => if bool_decide (k ∈ List.map (fun p => (api, repo, dp_id p)) ps) then Some p_proposed else None
                      end.
Proof.
  cbv zeta. induction ps as [| p ps IH]; intros rows.
  { cbn [List.fold_left]. destruct (status_of k rows); [done |]. by rewrite bool_decide_false by apply not_elem_of_nil. }
  cbn [List.fold_left List.map]. rewrite IH, refresh_one_status.
  destruct (status_of k rows) as [st |]; [done |]. destruct (decide (k = (api, repo, dp_id p))) as [-> | N].
  - rewrite bool_decide_true; [done | by left].
  - erewrite (bool_decide_ext (k ∈ _ :: _)); [done |]. rewrite elem_of_cons. naive_solver.
Qed.

Lemma decide_cases now repo id status api rows :
  (exists a r i st, setProposalStatus now repo id status api rows
     = (update_where proposal_key (a, r, i) (fun _ => true) (decide_row st (iso now)) rows, Normal tt)
     /\ decides (a, r, i) st (pc_decide now repo id status api))
  \/ fst (setProposalStatus now repo id status api rows) = rows /\ forall k st, ~ decides k st (pc_decide now repo id status api).
Proof.
  unfold setProposalStatus, bind, lift, decides.
  destruct id as [| | | | s | |]; try (right; split; [by destruct (normalizeApiBaseUrl api), (normalizeRepoFullName repo) | intros k st []]).
  destruct (normalizeApiBaseUrl api) as [a |]; [| right; split; [done |]; intros k st [E _]; discriminate E].
  destruct (normalizeRepoFullName repo) as [r |]; [| right; split; [done |]; intros k st (_ & E & _); discriminate E].
  destruct (str_empty (trim s)); [right; split; [done |]; intros k st (_ & _ & _ & E & _); discriminate E |].
  destruct (proposal_status status) as [st |]; [| right; split; [done |]; intros k st (_ & _ & _ & _ & E); discriminate E]. left. by exists a, r, (trim s), st.
Qed.

Lemma find_filtered (p : ProposalRow -> bool) k rows : (forall r, proposal_key r = k -> p r = true) ->
  find_key proposal_key k (List.filter p rows) = find_key proposal_key k rows.
Proof.
  intros Hp. unfold find_key. induction rows as [| r rows IH]; [done |]. cbn [List.filter List.find]. case_bool_decide as K.
  - rewrite (Hp r K). cbn [List.find]. by rewrite bool_decide_true.
  - destruct (p r); [cbn [List.find]; by rewrite bool_decide_false | done].
Qed.

(** Where an approved row comes from. *)
Lemma approved_step rows c k : status_of k (run_proposal_call rows c) = Some p_approved ->
  decides k p_approved c
  \/ status_of k rows = Some p_approved /\ ~ purges k c /\ (forall st, st <> p_approved -> ~ decides k st c).
Proof.
  destruct c as [nowMs now repo history config api | now repo id status api | repo]; cbn [run_proposal_call].
  - unfold refreshProposals, bind, lift. destruct (normalizeApiBaseUrl api) as [a |]; [| by auto]. destruct (normalizeRepoFullName repo) as [r |]; [| by auto].
    cbn [fst]. rewrite refresh_status. destruct (status_of k rows) as [st |]; [intros [= ->]; by auto |]. by destruct (bool_decide _).
  - destruct (decide_cases now repo id status api rows) as [(a & r & i & st & -> & D) | E].
    + cbn [fst]. unfold status_of. rewrite find_update by done. destruct (decide (k = (a, r, i))) as [-> | N].
      * destruct (find_key _ _ rows); [| done]. cbn. intros [= ->]. by left.
      * intros E. right. split; [done |]. split; [by intros [] |]. intros st' _ D'. apply N. destruct id; try done.
        destruct D as (D1 & D2 & D3 & _), D' as (E1 & E2 & E3 & _). destruct k as [[ka kr] ki]. cbn in *. congruence.
    + destruct E as [-> N]. intros E. right. split; [done |]. split; [by intros [] |]. intros st _. apply N.
  - unfold purgeProposals, bind, lift. destruct (normalizeRepoFullName repo) as [r |] eqn:Er; cbn [fst].
    + intros E. right. assert (Ne : r <> snd (fst k)).
      { intros ->. unfold status_of in E. destruct (find_key proposal_key k _) as [x |] eqn:F; [| done]. apply find_key_in in F as [F1 F2].
        apply List.filter_In in F1 as [_ F1]. rewrite <- F2 in F1. cbn in F1. by rewrite String.eqb_refl in F1. }
      unfold status_of in *. rewrite find_filtered in E; [split; [done |]; split; [by cbn; rewrite Er; intros [= ->] | by intros st _ []] |].
      intros x <-. apply negb_true_iff, String.eqb_neq. cbn in Ne. congruence.
    + intros E. right. split; [done |]. split; [cbn; by rewrite Er | by intros st _ []].
Qed.
End Decisions.

Lemma proposal_keys `{IsoClock} `{Platform} calls : NoDup (List.map proposal_key (run_proposals [] calls)).
Proof.
  induction calls as [| c calls IH] using rev_ind; [apply NoDup_nil_2 |]. unfold run_proposals in *. rewrite List.fold_left_app. cbn [List.fold_left].
  set (rows := List.fold_left run_proposal_call calls []) in *. destruct c as [nowMs now repo history config api | now repo id status api | repo]; cbn [run_proposal_call].
  - unfold refreshProposals, bind, lift. destruct (normalizeApiBaseUrl api) as [a |]; [| done]. destruct (normalizeRepoFullName repo) as [r |]; [| done].
    cbn [fst]. generalize (synthesizeDenyRuleProposals history config nowMs). clearbody rows. intros ps. revert rows IH.
    induction ps as [| p ps IHp]; intros rows IH; [done |]. apply IHp. by apply upsert_keys.
  - destruct (decide_cases now repo id status api rows) as [(a & r & i & st & -> & _) | [-> _]]; [| done]. cbn [fst]. by rewrite update_keys.
  - unfold purgeProposals, bind, lift. destruct (normalizeRepoFullName repo); [| done]. by apply filter_rows_keys.
Qed.

Lemma approved_decision `{IsoClock} `{Platform} calls k : status_of k (run_proposals [] calls) = Some p_approved ->
  exists pre c post, calls = (pre ++ c :: post)%list /\ decides k p_approved c
    /\ forall c', c' ∈ post -> ~ purges k c' /\ forall st, st <> p_approved -> ~ decides k st c'.
Proof.
  induction calls as [| c calls IH] using rev_ind; [done |]. unfold run_proposals in *. rewrite List.fold_left_app. cbn [List.fold_left].
  intros [D | (E & Np & Nd)]%approved_step.
  - exists calls, c, []. split; [done |]. split; [done |]. by intros c' Hc%elem_of_nil.
  - destruct (IH E) as (pre & c0 & post & -> & D & Hpost). exists pre, c0, (post ++ [c])%list. split; [by rewrite <- app_assoc |]. split; [done |].
    intros c' [Hc | ->%list_elem_of_singleton]%elem_of_app; [by apply Hpost | done].
Qed.


(** A refresh keeps every decision, whatever the new history says, and what it
    adds waits for one. *)
Theorem refresh_keeps_decisions `{IsoClock} `{Platform} nowMs now repo history config api rows k :
  let rows' := fst (refreshProposals nowMs now repo history config api rows) in
  (forall st, status_of k rows = Some st -> status_of k rows' = Some st)
  /\ (status_of k rows = None -> status_of k rows' = None \/ status_of k rows' = Some p_proposed).
Proof.
  cbv zeta. unfold refreshProposals, bind, lift. destruct (normalizeApiBaseUrl api) as [a |]; [| cbn; by auto].
  destruct (normalizeRepoFullName repo) as [r |]; [| cbn; by auto]. cbn [fst]. rewrite refresh_status. split; [by intros st -> |].
  intros ->. destruct (bool_decide _); auto.
Qed.

(** ** Examples *)

#[local] Existing Instance toy_clock.

(** Code-unit order, and the text as its own digest. *)
#[local] Instance toy_platform : Platform :=
  {| localeCompare := fun a b => if str_ltb a b then (-1)%Z else if str_ltb b a then 1%Z else 0%Z; sha256_digest := fun s => s |}.

Definition block_of (path : string) : jsval := JObj [("blockerCodes", JArr [JStr "missing_tests"]); ("changedPaths", JArr [JStr path; JNum (nz 3)])].

Definition history_sample : jsval :=
  JArr [block_of "./Src/Core.ts"; block_of "src\core.ts"; block_of ".env.local"; block_of ".env.local"; block_of "docs/once.md"; JNull].

Definition default_config : SynthesisConfig := mkSynthesisConfig None None.

Example synthesis_example :
  List.map (fun p => (dr_pathPattern (dp_rule p), dr_reason (dp_rule p))) (synthesizeDenyRuleProposals history_sample default_config 7)
  = [(Some "**/src/core.ts", "Synthesized deny rule: 2 gate block(s) touched src/core.ts (missing_tests). Review before enabling.")].
Proof. vm_compute. reflexivity. Qed.

(** A canonical path need not be a fixed point of canonicalization: one key has no
    glob at all, and two keys of one file share the glob and the id of their
    proposals while their blocks are counted apart. *)
Theorem canonical_keys_not_fixed :
  canonicalizeChangedPath "./ /" = Some " /" /\ changedPathToDenyGlob " /" = None
  /\ canonicalizeChangedPath "././src/a.ts" = Some "./src/a.ts" /\ changedPathToDenyGlob "./src/a.ts" = changedPathToDenyGlob "src/a.ts"
  /\ (let history := JArr [block_of "././src/a.ts"; block_of "././src/a.ts"; block_of "src/a.ts"; block_of "src/a.ts"] in
      match synthesizeDenyRuleProposals history default_config 7 with
      | [p; q] => dp_id p = dp_id q /\ dr_reason (dp_rule p) <> dr_reason (dp_rule q)
      | _ => False
      end)
  /\ synthesizeDenyRuleProposals (JArr [block_of "././src/a.ts"; block_of "src/a.ts"]) default_config 7 = [].
Proof. vm_compute. repeat split; discriminate. Qed.

Lemma frequent_paths_denied_witness :
  dv_allowed (evaluateDenyHooks (file_write "src/core.ts")
    (resolveEffectiveDenyRules None (List.map (with_status p_approved) (synthesizeDenyRuleProposals history_sample default_config 7)))) = false.
Proof.
  apply (frequent_paths_denied history_sample default_config 7 "src/core.ts"); vm_compute; [reflexivity | discriminate | discriminate].
Defined.

Definition sample_proposal : DenyRuleProposal :=
  default (mkProposal "" p_rejected (path_rule "" "") (mkAudit "" "" "" 0 [] "")) (List.hd_error (synthesizeDenyRuleProposals history_sample default_config 7)).

Lemma approved_path_blocked_witness :
  dv_allowed (evaluateDenyHooks (file_write "pkg/SRC/core.ts") (resolveEffectiveDenyRules (Some false) [with_status p_approved sample_proposal])) = false.
Proof.
  destruct (approved_path_blocked history_sample default_config 7 sample_proposal (Some false) [with_status p_approved sample_proposal]) as (c & Hc & B).
  - vm_compute. left.
  - left.
  - by intros x ->%list_elem_of_singleton.
  - vm_compute in Hc. injection Hc as <-. apply (B (file_write "pkg/SRC/core.ts") "pkg/SRC/core.ts" "pkg/" "SRC/core.ts");
      [apply file_write_addressed | done | apply file_write_reads | by left | done | right; by exists "pkg" | done].
Defined.

Lemma only_approved_enforced_witness :
  dv_allowed (evaluateDenyHooks (file_write "src/core.ts") (resolveEffectiveDenyRules (Some false) [sample_proposal])) = true.
Proof.
  apply not_false_iff_true. intros E. apply (only_approved_enforced (file_write "src/core.ts") (Some false) [sample_proposal]) in E.
  - destruct E as [[N _] | (p & ->%list_elem_of_singleton & S & _)]; [by apply N | vm_compute in S; discriminate S].
  - apply file_write_addressed.
  - by intros x ->%list_elem_of_singleton.
Defined.

Definition decisions_sample : list proposal_call :=
  [pc_refresh 7 7 (JStr "acme/widgets") history_sample default_config JUndefined;
   pc_decide 8 (JStr "acme/widgets") (JStr (dp_id sample_proposal)) "approved" JUndefined;
   pc_refresh 9 9 (JStr "acme/widgets") history_sample default_config JUndefined].

