(* ===== verification/WorktreeAllocator.v ===== *)
(** * Worktree slots shared by processes

    Models [packages/loopover-miner/lib/worktree-allocator.ts]: the fixed pool of
    checkout directories on disk, leased to attempts by processes of one machine or
    of several containers over one volume, with the reclaim of leases whose owner is
    gone.

    A call of [acquire] is three database steps between which other processes may
    act: the reclaim, which frees one row at a time and only when the row still
    carries the lease evidence that was probed, a read, and a transaction.
    Histories are sequences of these steps with arbitrary, possibly outdated,
    probes.  [process.kill(pid, 0)] is an argument, [path.join] a parameter.
    Resolving paths, creating directories and the column migration are not
    modelled.

    Main results: in every interleaving a slot has at most one attempt, an attempt
    at most one slot, and no two slots share a directory
    ([no_double_booking]); the slots in use stay within the configured number
    ([slots_within_capacity]); a lease is ended only by its own release, or by a
    reclaim that found that very lease too old or its owner dead on the owner's own
    host ([lease_survives]); an orphaned lease does come back: the next acquire
    gets a slot ([orphan_slot_recovered]).  When the attempt is activated by another
    process between the read and the transaction, the transaction returns that row
    whatever its repository, which the read would refuse
    ([raced_attempt_other_repo]). *)

From Stdlib Require Import Ascii QArith ZArith Lia.
From stdpp Require Import base list strings option sets sorting.
From S2P Require Import Prelude JsNumber JsString Ledger LocalStore.

Local Open Scope nat_scope.
Local Open Scope string_scope.
Local Open Scope js_scope.

(** ** Data *)

Inductive SlotStatus := slot_free | slot_active.

#[global] Instance SlotStatus_eq_dec : EqDecision SlotStatus.
Proof. solve_decision. Defined.

Record WorktreeSlotRow := mkSlot {
  sl_slotIndex : nat;
  sl_worktreePath : string;
  sl_attemptId : option string;
  sl_repoFullName : option string;
  sl_status : SlotStatus;
  sl_ownerPid : option Z;
  sl_ownerHost : option string;
  sl_allocatedAt : option string;
}.

#[global] Instance WorktreeSlotRow_eq_dec : EqDecision WorktreeSlotRow.
Proof. solve_decision. Defined.

Definition SlotTable : Type := list WorktreeSlotRow.

(** What [openWorktreeAllocator] resolves from its options. *)
Record WorktreeAllocator := mkAllocator {
  wa_worktreeBaseDir : string;
  wa_maxConcurrency : nat;
  wa_maxLeaseMs : num;
  wa_processPid : Z;
  wa_hostId : string;
}.

Definition SLOT_MAX_LEASE_MS : Z := 6 * 60 * 60 * 1000.
Definition defaultMaxConcurrency : Z := 2.

(** ** Options *)

Definition normalizeMaxConcurrency (value : option num) : completion Z :=
  match value with
  | None => Normal defaultMaxConcurrency
  | Some v => match positive_integer (JNum v) with Some z => Normal z | None => Thrown "invalid_max_concurrency" end
  end.

Definition normalizeMaxLeaseMs (value : option num) : completion num :=
  match value with
  | None => Normal (nz SLOT_MAX_LEASE_MS)
  | Some v => if negb (is_finite v) || nltb v (nz 0) then Thrown "invalid_max_lease_ms" else Normal v
  end.

Definition normalizeHostId (hostname : string) (value : jsval) : completion string :=
  match value with
  | JUndefined | JNull => Normal hostname
  | JStr s => if str_empty (trim s) then Thrown "invalid_host_id" else Normal (trim s)
  | _ => Thrown "invalid_host_id"
  end.

Definition normalizeAttemptId (attemptId : jsval) : completion string :=
  match attemptId with
  | JStr s => if str_empty (trim s) then Thrown "invalid_attempt_id" else Normal (trim s)
  | _ => Thrown "invalid_attempt_id"
  end.

(** ** Statements *)

Definition is_status (st : SlotStatus) (r : WorktreeSlotRow) : bool := bool_decide (sl_status r = st).

Definition free_row (r : WorktreeSlotRow) : WorktreeSlotRow := mkSlot (sl_slotIndex r) (sl_worktreePath r) None None slot_free None None None.

Definition active_row (attempt repo : string) (pid : Z) (host at_ : string) (r : WorktreeSlotRow) : WorktreeSlotRow :=
  mkSlot (sl_slotIndex r) (sl_worktreePath r) (Some attempt) (Some repo) slot_active (Some pid) (Some host) (Some at_).

Definition by_attempt (attempt : string) (rows : SlotTable) : option WorktreeSlotRow :=
  List.find (fun r => bool_decide (sl_attemptId r = Some attempt)) rows.

(** The row with the smallest index among those [p] selects. *)
Definition first_slot (p : WorktreeSlotRow -> bool) (rows : SlotTable) : option WorktreeSlotRow :=
  List.fold_left (fun best r =>
    if p r then match best with Some b => if Nat.leb (sl_slotIndex b) (sl_slotIndex r) then best else Some r | None => Some r end else best)
    rows None.

(** [ORDER BY slot_index]. *)
Definition slot_le (x y : WorktreeSlotRow) : Prop := (sl_slotIndex x <= sl_slotIndex y)%nat.
#[global] Instance slot_le_decision x y : Decision (slot_le x y).
Proof. unfold slot_le. apply _. Defined.

Section Allocator.
Context `{IsoClock}.
Variable path_join : string -> string -> string.

(** [INSERT OR IGNORE]: nothing when the index or the path is taken. *)
Definition insert_slot (index : nat) (path : string) (rows : SlotTable) : SlotTable :=
  if existsb (fun r => Nat.eqb (sl_slotIndex r) index || String.eqb (sl_worktreePath r) path) rows then rows
  else (rows ++ [mkSlot index path None None slot_free None None None])%list.

Definition ensureSlots (worktreeBaseDir : string) (maxConcurrency : nat) (rows : SlotTable) : SlotTable :=
  List.fold_left (fun rows slotIndex =>
    insert_slot slotIndex (path_join worktreeBaseDir ("slot-" ++ num_to_string (nnat slotIndex))) rows) (List.seq 0 maxConcurrency) rows.

(** [Date.parse(null)] is [NaN]. *)
Definition allocationAgeMs (allocatedAt : option string) (nowMs : num) : option num :=
  match allocatedAt with
  | None => None
  | Some at_ => if is_finite (Date_parse at_) then Some (nsub nowMs (Date_parse at_)) else None
  end.

(** [alive pid] is what [process.kill(pid, 0)] tells on the calling host. *)
Definition isProcessAlive (alive : Z -> bool) (pid : Z) : bool := if (pid <=? 0)%Z then false else alive pid.

Definition isSlotOrphaned (row : WorktreeSlotRow) (nowMs maxLeaseMs : num) (hostId : string) (alive : Z -> bool) : bool :=
  match allocationAgeMs (sl_allocatedAt row) nowMs with
  | Some ageMs => if ngtb ageMs maxLeaseMs then true else false
  | None => false
  end
  || match sl_ownerHost row with
     | Some host => String.eqb host hostId && match sl_ownerPid row with None => true | Some pid => negb (isProcessAlive alive pid) end
     | None => false
     end.

(** The lease evidence the update compares. *)
Definition same_lease (row r : WorktreeSlotRow) : bool :=
  Nat.eqb (sl_slotIndex r) (sl_slotIndex row) && is_status slot_active r
  && bool_decide (sl_allocatedAt r = sl_allocatedAt row) && bool_decide (sl_ownerPid r = sl_ownerPid row)
  && bool_decide (sl_ownerHost r = sl_ownerHost row).

Definition reclaim_row (row : WorktreeSlotRow) (rows : SlotTable) : SlotTable :=
  List.map (fun r => if same_lease row r then free_row r else r) rows.

(** [probedRows] are the active rows as some read returned them. *)
Definition reclaimOrphanedAllocations (nowMs maxLeaseMs : num) (hostId : string) (alive : Z -> bool) (probedRows : list WorktreeSlotRow)
    (rows : SlotTable) : SlotTable :=
  List.fold_left (fun rows row => if isSlotOrphaned row nowMs maxLeaseMs hostId alive then reclaim_row row rows else rows) probedRows rows.

Definition openWorktreeAllocator (a : WorktreeAllocator) (nowMs : num) (alive : Z -> bool) (rows : SlotTable) : SlotTable :=
  let rows := ensureSlots (wa_worktreeBaseDir a) (wa_maxConcurrency a) rows in
  reclaimOrphanedAllocations nowMs (wa_maxLeaseMs a) (wa_hostId a) alive (List.filter (is_status slot_active) rows) rows.

(** [attempt_id] is [UNIQUE]. *)
Definition mark_active (attempt repo : string) (pid : Z) (host at_ : string) (index : nat) (rows : SlotTable) : completion SlotTable :=
  if existsb (fun r => negb (Nat.eqb (sl_slotIndex r) index) && bool_decide (sl_attemptId r = Some attempt)) rows then Thrown "SQLITE_CONSTRAINT"
  else Normal (update_where sl_slotIndex index (fun _ => true) (active_row attempt repo pid host at_) rows).

Definition count_active (rows : SlotTable) : nat := count (is_status slot_active) rows.

(** A free slot within the limit. *)
Definition take_slot (a : WorktreeAllocator) (attempt repo : string) (now : Z) : call SlotTable WorktreeSlotRow :=
  fun rows =>
    if Nat.leb (wa_maxConcurrency a) (count_active rows) then (rows, Thrown "worktree_capacity_exceeded")
    else match first_slot (is_status slot_free) rows with
         | None => (rows, Thrown "worktree_capacity_exceeded")
         | Some slot =>
             match mark_active attempt repo (wa_processPid a) (wa_hostId a) (iso now) (sl_slotIndex slot) rows with
             | Normal rows' => (rows', Normal (active_row attempt repo (wa_processPid a) (wa_hostId a) (iso now) slot))
             | Thrown m => (rows, Thrown m)
             end
         end.

(** The transaction of [acquire]. *)
Definition acquire_transaction (a : WorktreeAllocator) (attempt repo : string) (now : Z) : call SlotTable WorktreeSlotRow :=
  fun rows =>
    match by_attempt attempt rows with
    | Some raced => if is_status slot_active raced then (rows, Normal raced) else take_slot a attempt repo now rows
    | None => take_slot a attempt repo now rows
    end.

(** The read before the transaction: what it returns or throws at once. *)
Definition acquire_existing (attempt repo : string) (rows : SlotTable) : option (completion WorktreeSlotRow) :=
  match by_attempt attempt rows with
  | Some existing =>
      if is_status slot_active existing
      then Some (if bool_decide (sl_repoFullName existing = Some repo) then Normal existing
                 else Thrown ("attempt_id_repo_mismatch: attempt " ++ attempt ++ " is already active for "
                              ++ default "null" (sl_repoFullName existing) ++ ", not " ++ repo))
      else None
  | None => None
  end.

(** [acquire] when no other process acts in between; [nowMs] is read for the
    reclaim, [now] for the lease. *)
Definition acquire (a : WorktreeAllocator) (alive : Z -> bool) (nowMs : num) (now : Z) (attemptId repoFullName : jsval) : call SlotTable WorktreeSlotRow :=
  fun rows =>
    let rows := reclaimOrphanedAllocations nowMs (wa_maxLeaseMs a) (wa_hostId a) alive (List.filter (is_status slot_active) rows) rows in
    (attempt <~ lift (normalizeAttemptId attemptId) ;;
     repo <~ lift (normalizeRepoFullName repoFullName) ;;
     fun rows => match acquire_existing attempt repo rows with
                 | Some out => (rows, out)
                 | None => acquire_transaction a attempt repo now rows
                 end) rows.

Definition release (attemptId : jsval) : call SlotTable (option WorktreeSlotRow) :=
  attempt <~ lift (normalizeAttemptId attemptId) ;;
  fun rows =>
    let held := fun r => bool_decide (sl_attemptId r = Some attempt) && is_status slot_active r in
    (List.map (fun r => if held r then free_row r else r) rows, Normal (free_row <$> List.find held rows)).

Definition listSlots : call SlotTable (list WorktreeSlotRow) :=
  fun rows => (rows, Normal (merge_sort slot_le rows)).

(** [SET repo_full_name, attempt_id, owner_pid, owner_host, allocated_at = NULL]. *)
Definition purgeSlotsByRepo (repoFullName : jsval) : call SlotTable nat :=
  repo <~ lift (normalizeRepoFullName repoFullName) ;;
  fun rows =>
    let stale := fun r => is_status slot_free r && bool_decide (sl_repoFullName r = Some repo) in
    (List.map (fun r => if stale r then free_row r else r) rows, Normal (count stale rows)).
End Allocator.

(** ** Well-formed tables *)

(** A free row carries no lease, an active one an attempt. *)
Definition slot_ok (r : WorktreeSlotRow) : Prop :=
  match sl_status r with
  | slot_free => free_row r = r
  | slot_active => is_Some (sl_attemptId r) /\ is_Some (sl_repoFullName r)
  end.

Record table_wf (rows : SlotTable) : Prop := mkTableWf {
  tw_index : NoDup (List.map sl_slotIndex rows);
  tw_path : NoDup (List.map sl_worktreePath rows);
  tw_rows : forall r, In r rows -> slot_ok r;
  tw_attempts : forall r s at_, In r rows -> In s rows -> sl_attemptId r = Some at_ -> sl_attemptId s = Some at_ -> r = s;
}.

(** Freeing some of the rows. *)
Definition freed (p : WorktreeSlotRow -> bool) (rows : SlotTable) : SlotTable := List.map (fun r => if p r then free_row r else r) rows.

Lemma freed_wf p rows : table_wf rows -> table_wf (freed p rows).
Proof.
  intros [W1 W2 W3 W4]. unfold freed. split.
  - rewrite List.map_map, (List.map_ext _ sl_slotIndex); [done |]. intros r. by destruct (p r).
  - rewrite List.map_map, (List.map_ext _ sl_worktreePath); [done |]. intros r. by destruct (p r).
  - intros r (r0 & <- & Hr)%List.in_map_iff. destruct (p r0); [done | by apply W3].
  - intros r s at_ (r0 & <- & Hr)%List.in_map_iff (s0 & <- & Hs)%List.in_map_iff. destruct (p r0) eqn:E; [done |].
    destruct (p s0) eqn:E'; [done |]. by apply W4.
Qed.

Lemma freed_count p q rows : (forall r, q (free_row r) = false) -> count q (freed p rows) <= count q rows.
Proof. intros Hq. apply count_map_le. intros r _. destruct (p r); [by rewrite Hq | done]. Qed.

Lemma freed_keeps p rows r : In r rows -> p r = false -> In r (freed p rows).
Proof. intros Hr Hp. apply List.in_map_iff. exists r. by rewrite Hp. Qed.

Lemma active_not_free r : is_status slot_active (free_row r) = false.
Proof. done. Qed.

(** ** Reclaim *)

(** A reclaim frees exactly rows whose own lease is orphaned, however old the
    probe is. *)
Lemma orphan_evidence `{IsoClock} row r nowMs mx host alive : same_lease row r = true ->
  isSlotOrphaned row nowMs mx host alive = isSlotOrphaned r nowMs mx host alive.
Proof.
  unfold same_lease. intros [[[_ E1%bool_decide_eq_true]%andb_true_iff E2%bool_decide_eq_true]%andb_true_iff E3%bool_decide_eq_true]%andb_true_iff.
  unfold isSlotOrphaned. by rewrite E1, E2, E3.
Qed.

Lemma reclaim_freed `{IsoClock} nowMs mx host alive probed : forall rows, exists p,
  reclaimOrphanedAllocations nowMs mx host alive probed rows = freed p rows
  /\ (forall r, p r = true -> is_status slot_active r = true /\ isSlotOrphaned r nowMs mx host alive = true)
  /\ (forall r, r ∈ probed -> is_status slot_active r = true -> isSlotOrphaned r nowMs mx host alive = true -> p r = true).
Proof.
  induction probed as [| row probed IH]; intros rows.
  - exists (fun _ => false). split; [symmetry; apply List.map_id |]. split; [done |]. by intros r Hr%elem_of_nil.
  - change (reclaimOrphanedAllocations nowMs mx host alive (row :: probed) rows) with (reclaimOrphanedAllocations nowMs mx host alive probed
      (if isSlotOrphaned row nowMs mx host alive then reclaim_row row rows else rows)).
    destruct (isSlotOrphaned row nowMs mx host alive) eqn:O.
    + destruct (IH (reclaim_row row rows)) as (p & -> & P1 & P2). exists (fun r => same_lease row r || p r). split; [| split].
      * unfold freed, reclaim_row. rewrite List.map_map. apply List.map_ext. intros r. destruct (same_lease row r); cbn [orb]; [| done].
        by destruct (p (free_row r)).
      * intros r [S | Hp]%orb_true_iff; [| by apply P1]. split; [| by rewrite <- (orphan_evidence row)].
        unfold same_lease in S. by apply andb_true_iff in S as [[[[_ S]%andb_true_iff _]%andb_true_iff _]%andb_true_iff _].
      * intros r [-> | Hr]%elem_of_cons A Or; [| rewrite (P2 r Hr A Or); apply orb_true_r]. unfold same_lease. rewrite Nat.eqb_refl, A.
        by rewrite !bool_decide_true.
    + destruct (IH rows) as (p & E & P1 & P2). exists p. split; [done |]. split; [done |].
      intros r [-> | Hr]%elem_of_cons A Or; [congruence | by apply P2].
Qed.

(** ** The transaction *)

Lemma first_slot_spec p rows :
  match first_slot p rows with Some r => In r rows /\ p r = true | None => forall r, In r rows -> p r = false end.
Proof.
  unfold first_slot. assert (G : forall best, (forall b, best = Some b -> p b = true) ->
    match List.fold_left (fun best r => if p r then match best with Some b => if Nat.leb (sl_slotIndex b) (sl_slotIndex r) then best else Some r | None => Some r end else best) rows best with
    | Some r => (In r rows \/ best = Some r) /\ p r = true
    | None => best = None /\ forall r, In r rows -> p r = false
    end).
  { induction rows as [| x rows IH]; intros best Hb; cbn [List.fold_left]; [destruct best; [by auto | by split] |].
    set (best' := if p x then _ else best). assert (Hb' : forall b, best' = Some b -> p b = true).
    { unfold best'. destruct (p x) eqn:Px; [| done]. intros b. destruct best as [b0 |]; [destruct (Nat.leb _ _) |]; intros [= <-]; auto. }
    specialize (IH best' Hb'). destruct (List.fold_left _ rows best') as [r |].
    - destruct IH as [[Hr | Hr] Hp]; (split; [| done]); [left; by right |]. unfold best' in Hr.
      destruct (p x); [| by right]. destruct best as [b0 |]; [destruct (Nat.leb _ _) |]; injection Hr as <-; [by right | left; by left | left; by left].
    - destruct IH as [E Hn]. unfold best' in E. destruct (p x) eqn:Px; [destruct best; [destruct (Nat.leb _ _) |]; discriminate E |].
      split; [done |]. intros r [-> | Hr]; auto. }
  specialize (G None ltac:(done)). destruct (List.fold_left _ rows None) as [r |]; [destruct G as [[? | [=]] ?]; auto | apply G].
Qed.

Lemma by_attempt_spec at_ rows :
  match by_attempt at_ rows with Some r => In r rows /\ sl_attemptId r = Some at_ | None => forall r, In r rows -> sl_attemptId r <> Some at_ end.
Proof.
  unfold by_attempt. destruct (List.find _ rows) as [r |] eqn:E.
  - apply List.find_some in E as [E1 E2]. by apply bool_decide_eq_true in E2.
  - intros r Hr. pose proof (List.find_none _ _ E r Hr) as N. by apply bool_decide_eq_false in N.
Qed.

Lemma same_index rows r s : table_wf rows -> In r rows -> In s rows -> sl_slotIndex r = sl_slotIndex s -> r = s.
Proof.
  intros W Hr Hs E. pose proof (find_key_unique sl_slotIndex rows r (tw_index rows W) Hr) as F.
  rewrite E, (find_key_unique sl_slotIndex rows s (tw_index rows W) Hs) in F. by injection F.
Qed.

(** The outcomes of the transaction. *)
Lemma transaction_cases `{IsoClock} a at_ repo now rows : table_wf rows ->
  let out := acquire_transaction a at_ repo now rows in
  (fst out = rows /\ (exists m, snd out = Thrown m) /\ (by_attempt at_ rows = None -> wa_maxConcurrency a <= count_active rows \/ forall r, In r rows -> is_status slot_free r = false))
  \/ (fst out = rows /\ exists r, snd out = Normal r /\ In r rows /\ sl_attemptId r = Some at_ /\ is_status slot_active r = true)
  \/ exists slot, In slot rows /\ is_status slot_free slot = true /\ by_attempt at_ rows = None /\ count_active rows < wa_maxConcurrency a
     /\ out = (update_where sl_slotIndex (sl_slotIndex slot) (fun _ => true) (active_row at_ repo (wa_processPid a) (wa_hostId a) (iso now)) rows,
               Normal (active_row at_ repo (wa_processPid a) (wa_hostId a) (iso now) slot)).
Proof.
  intros W. cbv zeta. unfold acquire_transaction. pose proof (by_attempt_spec at_ rows) as B. destruct (by_attempt at_ rows) as [raced |] eqn:EB.
  { destruct B as [B1 B2]. pose proof (tw_rows rows W raced B1) as Ok. unfold slot_ok in Ok. unfold is_status.
    destruct (sl_status raced) eqn:St; [rewrite <- Ok in B2; discriminate B2 |]. rewrite bool_decide_true by done. right. left. split; [done |].
    exists raced. split; [done |]. split; [done |]. split; [done |]. unfold is_status. by rewrite St. }
  unfold take_slot. destruct (Nat.leb_spec (wa_maxConcurrency a) (count_active rows)) as [L | L].
  { left. split; [done |]. split; [by eexists |]. by left. }
  pose proof (first_slot_spec (is_status slot_free) rows) as F. destruct (first_slot _ rows) as [slot |].
  - destruct F as [F1 F2]. unfold mark_active. destruct (existsb _ rows) eqn:X.
    + apply List.existsb_exists in X as (x & Hx & [_ X%bool_decide_eq_true]%andb_true_iff). by destruct (B x Hx).
    + right. right. by exists slot.
  - left. split; [done |]. split; [by eexists |]. by right.
Qed.

Lemma lease_wf at_ repo pid host t slot rows : table_wf rows -> In slot rows -> by_attempt at_ rows = None ->
  table_wf (update_where sl_slotIndex (sl_slotIndex slot) (fun _ => true) (active_row at_ repo pid host t) rows).
Proof.
  intros [W1 W2 W3 W4] Hs B. pose proof (by_attempt_spec at_ rows) as N. rewrite B in N. split.
  - by rewrite update_keys.
  - by rewrite (update_proj sl_slotIndex sl_worktreePath).
  - intros r [Hr | (r0 & Hr & _ & _ & ->)]%update_in; [by apply W3 |]. split; by eexists.
  - assert (C : forall r, In r (update_where sl_slotIndex (sl_slotIndex slot) (fun _ => true) (active_row at_ repo pid host t) rows) ->
      (In r rows /\ sl_attemptId r <> Some at_) \/ r = active_row at_ repo pid host t slot).
    { intros r [Hr | (r0 & Hr & _ & K & ->)]%update_in; [by left; auto |]. right. f_equal.
      pose proof (find_key_unique sl_slotIndex rows r0 W1 Hr) as F. rewrite K, (find_key_unique sl_slotIndex rows slot W1 Hs) in F. by injection F. }
    intros r s x Hr Hs' Er Es. destruct (C r Hr) as [[Hr1 Hr2] | ->], (C s Hs') as [[Hs1 Hs2] | ->]; [by apply (W4 r s x) | | |done].
    + cbn in Es. congruence.
    + cbn in Er. congruence.
Qed.

(** ** Histories *)

(** The steps of the processes that share the table: creating the slots, a
    reclaim with rows probed at any earlier moment, the transaction of an acquire,
    a release, a purge. *)
Inductive slot_step :=
| ss_ensure (worktreeBaseDir : string) (maxConcurrency : nat)
| ss_reclaim (nowMs maxLeaseMs : num) (hostId : string) (alive : Z -> bool) (probed : list WorktreeSlotRow)
| ss_transaction (a : WorktreeAllocator) (attempt repo : string) (now : Z)
| ss_release (attemptId : jsval)
| ss_purge (repoFullName : jsval).

Section Steps.
Context `{IsoClock}.
Variable path_join : string -> string -> string.

Definition run_slot_step (rows : SlotTable) (c : slot_step) : SlotTable :=
  match c with
  | ss_ensure dir n => ensureSlots path_join dir n rows
  | ss_reclaim nowMs mx host alive probed => reclaimOrphanedAllocations nowMs mx host alive probed rows
  | ss_transaction a attempt repo now => fst (acquire_transaction a attempt repo now rows)
  | ss_release attempt => fst (release attempt rows)
  | ss_purge repo => fst (purgeSlotsByRepo repo rows)
  end.

Definition run_slots (rows : SlotTable) (steps : list slot_step) : SlotTable := List.fold_left run_slot_step steps rows.

Lemma insert_slot_cases i path rows :
  insert_slot i path rows = rows
  \/ insert_slot i path rows = (rows ++ [mkSlot i path None None slot_free None None None])%list
     /\ forall r, In r rows -> sl_slotIndex r <> i /\ sl_worktreePath r <> path.
Proof.
  unfold insert_slot. destruct (existsb _ rows) eqn:X; [by left |]. right. split; [done |]. intros r Hr. rewrite <- not_true_iff_false in X.
  split; intros E; apply X, List.existsb_exists; exists r; (split; [done |]); apply orb_true_iff; [left | right]; [by apply Nat.eqb_eq | by apply String.eqb_eq].
Qed.

Lemma insert_slot_wf i path rows : table_wf rows -> table_wf (insert_slot i path rows).
Proof.
  intros W. destruct (insert_slot_cases i path rows) as [-> | [-> N]]; [done |]. destruct W as [W1 W2 W3 W4].
  set (new := mkSlot i path None None slot_free None None None).
  assert (D : forall {B} (g : WorktreeSlotRow -> B), NoDup (List.map g rows) -> (forall r, In r rows -> g r <> g new) -> NoDup (List.map g (rows ++ [new]))).
  { intros B g Hn Hd. rewrite List.map_app. apply list.NoDup_app. split; [done |]. split; [| apply NoDup_singleton].
    intros x Hx Hy. apply list_elem_of_In in Hx, Hy. destruct Hy as [<- | []]. apply List.in_map_iff in Hx as (r & E & Hr). by apply (Hd r Hr). }
  split; [apply D; [done | intros r Hr; by apply N] | apply D; [done | intros r Hr; by apply N] | |].
  - intros r [Hr | [<- | []]]%List.in_app_iff; [by apply W3 | done].
  - intros r s x [Hr | [<- | []]]%List.in_app_iff [Hs | [<- | []]]%List.in_app_iff; try done. by apply W4.
Qed.

Lemma ensure_keeps (P : SlotTable -> Prop) dir n rows : (forall i path s, P s -> P (insert_slot i path s)) -> P rows -> P (ensureSlots path_join dir n rows).
Proof.
  intros K. unfold ensureSlots. generalize (List.seq 0 n). intros l. revert rows. induction l as [| i l IH]; intros rows Hp; [done |].
  apply IH. by apply K.
Qed.

Lemma release_freed attempt rows : exists p, fst (release attempt rows) = freed p rows
  /\ forall r, p r = true -> exists x, normalizeAttemptId attempt = Normal x /\ sl_attemptId r = Some x.
Proof.
  unfold release, bind, lift. destruct (normalizeAttemptId attempt) as [x | m]; cbn [fst].
  - eexists. split; [reflexivity |]. cbn beta. intros r [E%bool_decide_eq_true _]%andb_true_iff. by exists x.
  - exists (fun _ => false). split; [symmetry; apply List.map_id | done].
Qed.

Lemma purge_freed repo rows : exists p, fst (purgeSlotsByRepo repo rows) = freed p rows /\ forall r, p r = true -> is_status slot_free r = true.
Proof.
  unfold purgeSlotsByRepo, bind, lift. destruct (normalizeRepoFullName repo) as [x | m]; cbn [fst].
  - eexists. split; [reflexivity |]. cbn beta. by intros r [E _]%andb_true_iff.
  - exists (fun _ => false). split; [symmetry; apply List.map_id | done].
Qed.

Lemma slot_step_wf rows c : table_wf rows -> table_wf (run_slot_step rows c).
Proof.
  intros W. destruct c as [dir n | nowMs mx host alive probed | a x repo now | x | repo]; cbn [run_slot_step].
  - apply ensure_keeps; [intros; by apply insert_slot_wf | done].
  - destruct (reclaim_freed nowMs mx host alive probed rows) as (p & -> & _). by apply freed_wf.
  - destruct (transaction_cases a x repo now rows W) as [[-> _] | [[-> _] | (slot & Hs & _ & B & _ & ->)]]; [done | done |]. by apply lease_wf.
  - destruct (release_freed x rows) as (p & -> & _). by apply freed_wf.
  - destruct (purge_freed repo rows) as (p & -> & _). by apply freed_wf.
Qed.

Lemma run_slots_wf rows steps : table_wf rows -> table_wf (run_slots rows steps).
Proof. unfold run_slots. revert rows. induction steps as [| c steps IH]; intros rows W; [done |]. by apply IH, slot_step_wf. Qed.

(** Capacity of every allocator that takes slots. *)
Definition limited (n : nat) (c : slot_step) : Prop := match c with ss_transaction a _ _ _ => wa_maxConcurrency a <= n | _ => True end.

Lemma slot_step_count n rows c : table_wf rows -> limited n c -> count_active rows <= n -> count_active (run_slot_step rows c) <= n.
Proof.
  intros W L C. assert (F : forall p, count_active (freed p rows) <= n) by (intros p; etransitivity; [by apply freed_count | done]).
  destruct c as [dir m | nowMs mx host alive probed | a x repo now | x | repo]; cbn [run_slot_step limited] in *.
  - apply (ensure_keeps (fun s => count_active s <= n)); [| done]. intros i path s Hs. destruct (insert_slot_cases i path s) as [-> | [-> _]]; [done |].
    unfold count_active in *. rewrite row_count_app.
    change (count (is_status slot_active) [mkSlot i path None None slot_free None None None]) with 0. lia.
  - destruct (reclaim_freed nowMs mx host alive probed rows) as (p & -> & _). apply F.
  - destruct (transaction_cases a x repo now rows W) as [[-> _] | [[-> _] | (slot & Hs & _ & _ & Lt & ->)]]; [done | done |]. cbn [fst].
    unfold count_active in *. pose proof (count_update_le sl_slotIndex (sl_slotIndex slot) (fun _ => true)
      (active_row x repo (wa_processPid a) (wa_hostId a) (iso now)) rows (is_status slot_active) (tw_index rows W)). lia.
  - destruct (release_freed x rows) as (p & -> & _). apply F.
  - destruct (purge_freed repo rows) as (p & -> & _). apply F.
Qed.

(** Steps that may end the lease of row [r]. *)
Definition ends_lease (r : WorktreeSlotRow) (c : slot_step) : Prop :=
  match c with
  | ss_reclaim nowMs mx host alive _ => isSlotOrphaned r nowMs mx host alive = true
  | ss_release x => exists a, normalizeAttemptId x = Normal a /\ sl_attemptId r = Some a
  | _ => False
  end.

Lemma slot_step_keeps rows c r : table_wf rows -> In r rows -> is_status slot_active r = true -> ~ ends_lease r c -> In r (run_slot_step rows c).
Proof.
  intros W Hr A N. destruct c as [dir m | nowMs mx host alive probed | a x repo now | x | repo]; cbn [run_slot_step ends_lease] in *.
  - apply (ensure_keeps (fun s => In r s)); [| done]. intros i path s Hs. destruct (insert_slot_cases i path s) as [-> | [-> _]]; [done |].
    apply List.in_app_iff. by left.
  - destruct (reclaim_freed nowMs mx host alive probed rows) as (p & -> & P & _). apply freed_keeps; [done |]. apply not_true_iff_false. intros E.
    by destruct N, (P r E).
  - destruct (transaction_cases a x repo now rows W) as [[-> _] | [[-> _] | (slot & Hs & Fs & _ & _ & ->)]]; [done | done |]. cbn [fst].
    apply update_other; [done |]. intros E. rewrite (same_index rows r slot W Hr Hs E) in A. unfold is_status in *.
    apply bool_decide_eq_true in A, Fs. congruence.
  - destruct (release_freed x rows) as (p & -> & P). apply freed_keeps; [done |]. apply not_true_iff_false. intros E. by apply N, P.
  - destruct (purge_freed repo rows) as (p & -> & P). apply freed_keeps; [done |]. apply not_true_iff_false. intros E. apply P in E.
    unfold is_status in *. apply bool_decide_eq_true in A, E. congruence.
Qed.
End Steps.

(** In every interleaving of the processes, two rows never share an index or a
    directory, and two rows with one attempt are one row: no worktree is given to
    two attempts and no attempt holds two. *)
Theorem no_double_booking `{IsoClock} path_join steps r s : In r (run_slots path_join [] steps) -> In s (run_slots path_join [] steps) ->
  sl_slotIndex r = sl_slotIndex s \/ sl_worktreePath r = sl_worktreePath s
  \/ (is_status slot_active r = true /\ is_status slot_active s = true /\ sl_attemptId r = sl_attemptId s) -> r = s.
Proof.
  intros Hr Hs. assert (W : table_wf (run_slots path_join [] steps)).
  { apply run_slots_wf. split; [apply NoDup_nil_2 | apply NoDup_nil_2 | done | done]. }
  intros [E | [E | (A1 & A2 & E)]].
  - by apply (same_index _ _ _ W).
  - pose proof (find_key_unique sl_worktreePath _ r (tw_path _ W) Hr) as F. rewrite E, (find_key_unique sl_worktreePath _ s (tw_path _ W) Hs) in F.
    by injection F.
  - pose proof (tw_rows _ W r Hr) as Ok. unfold slot_ok in Ok. apply bool_decide_eq_true in A1. rewrite A1 in Ok. destruct Ok as [[x Ex] _].
    apply (tw_attempts _ W r s x); [done | done | done | congruence].
Qed.

(** The slots in use never exceed the limit all allocators share. *)
Theorem slots_within_capacity `{IsoClock} path_join n rows steps : table_wf rows -> count_active rows <= n -> Forall (limited n) steps ->
  count_active (run_slots path_join rows steps) <= n.
Proof.
  intros W C L. unfold run_slots. revert rows W C. induction L as [| c steps Lc L IH]; intros rows W C; [done |]. cbn [List.fold_left].
  apply IH; [by apply slot_step_wf | by apply slot_step_count].
Qed.

(** C38: a lease stays, row and all, through any steps of other processes, with probes
    however old, as long as nobody releases its attempt and no reclaim finds this
    very lease too old by its limit, or its owner dead on the owner's own host. *)
Theorem lease_survives `{IsoClock} path_join rows steps r : table_wf rows -> In r rows -> is_status slot_active r = true ->
  Forall (fun c => ~ ends_lease r c) steps -> In r (run_slots path_join rows steps).
Proof.
  intros W Hr A N. unfold run_slots. revert rows W Hr. induction N as [| c steps Nc N IH]; intros rows W Hr; [done |]. cbn [List.fold_left].
  apply IH; [by apply slot_step_wf | by apply slot_step_keeps].
Qed.

(** Orphans come back: when a slot is held by an orphaned lease and no more slots
    are in use than allowed, an acquire by an attempt that holds none succeeds at
    once, and the slot it returns is a row of the table. *)
Theorem orphan_slot_recovered `{IsoClock} a alive nowMs now at_ repo x repo' r rows : table_wf rows -> count_active rows <= wa_maxConcurrency a ->
  In r rows -> is_status slot_active r = true -> isSlotOrphaned r nowMs (wa_maxLeaseMs a) (wa_hostId a) alive = true ->
  normalizeAttemptId at_ = Normal x -> normalizeRepoFullName repo = Normal repo' ->
  by_attempt x rows = None ->
  exists slot, snd (acquire a alive nowMs now at_ repo rows) = Normal slot /\ In slot (fst (acquire a alive nowMs now at_ repo rows))
    /\ sl_attemptId slot = Some x /\ sl_repoFullName slot = Some repo' /\ is_status slot_active slot = true.
Proof.
  intros W C Hr A O Ex Er B. unfold acquire, bind, lift. rewrite Ex, Er. cbv zeta.
  destruct (reclaim_freed nowMs (wa_maxLeaseMs a) (wa_hostId a) alive (List.filter (is_status slot_active) rows) rows) as (p & -> & P1 & P2).
  assert (Pr : p r = true) by (apply P2; [apply list_elem_of_In, List.filter_In; auto | done | done]).
  pose proof (freed_wf p rows W) as W'.
  assert (B' : by_attempt x (freed p rows) = None).
  { pose proof (by_attempt_spec x (freed p rows)) as S. destruct (by_attempt x (freed p rows)) as [s |]; [| done]. destruct S as [S1 S2].
    apply List.in_map_iff in S1 as (s0 & <- & S0). destruct (p s0); [discriminate S2 |]. pose proof (by_attempt_spec x rows) as N. rewrite B in N.
    by destruct (N s0 S0). }
  assert (Lt : count_active (freed p rows) < count_active rows).
  { clear -Hr A Pr. unfold count_active, count, freed. induction rows as [| y rows IH]; [done |]. cbn [List.map List.filter].
    assert (Le : length (List.filter (is_status slot_active) (List.map (fun r => if p r then free_row r else r) rows)) <= length (List.filter (is_status slot_active) rows))
      by (apply (freed_count p (is_status slot_active)); done).
    destruct Hr as [-> | Hr].
    - rewrite Pr, A. rewrite active_not_free. cbn [length]. lia.
    - specialize (IH Hr). destruct (p y); [rewrite active_not_free |]; destruct (is_status slot_active y); cbn [length]; lia. }
  unfold acquire_existing. rewrite B'.
  destruct (transaction_cases a x repo' now (freed p rows) W') as [(_ & _ & D) | [(_ & s & _ & S1 & S2 & _) | (slot & S1 & S2 & _ & _ & E)]].
  - destruct (D B') as [L | L]; [lia |]. specialize (L (free_row r)). assert (X : In (free_row r) (freed p rows)).
    { apply List.in_map_iff. exists r. by rewrite Pr. }
    discriminate (L X).
  - pose proof (by_attempt_spec x (freed p rows)) as N. rewrite B' in N. by destruct (N s S1).
  - rewrite E. exists (active_row x repo' (wa_processPid a) (wa_hostId a) (iso now) slot). split; [done |]. split; [| done].
    cbn [fst]. unfold update_where. apply List.in_map_iff. exists slot. by rewrite bool_decide_true.
Qed.

(** The repository of an attempt is compared only before the transaction.  When
    another process activates the attempt for another repository between the read
    and the transaction, the caller gets that allocation, not an error; the same
    row seen one step earlier is refused. *)
Theorem raced_attempt_other_repo `{IsoClock} a b at_ repo repo' now later rows rows' slot : repo <> repo' -> table_wf rows -> by_attempt at_ rows = None ->
  acquire_transaction a at_ repo' now rows = (rows', Normal slot) ->
  acquire_existing at_ repo rows = None
  /\ (exists m, acquire_existing at_ repo rows' = Some (Thrown m))
  /\ acquire_transaction b at_ repo later rows' = (rows', Normal slot) /\ sl_repoFullName slot = Some repo'.
Proof.
  intros Ne W B T. destruct (transaction_cases a at_ repo' now rows W) as [[_ [(m & E) _]] | [(_ & s & _ & S1 & S2 & _) | (s & S1 & _ & _ & _ & E)]].
  - by rewrite T in E.
  - pose proof (by_attempt_spec at_ rows) as N. rewrite B in N. by destruct (N s S1).
  - rewrite T in E. injection E as Er Es. pose proof (lease_wf at_ repo' (wa_processPid a) (wa_hostId a) (iso now) s rows W S1 B) as W'. rewrite <- Er in W'.
    assert (Hin : In slot rows').
    { rewrite Er, Es. unfold update_where. apply List.in_map_iff. exists s. by rewrite bool_decide_true. }
    assert (B' : by_attempt at_ rows' = Some slot).
    { pose proof (by_attempt_spec at_ rows') as N. destruct (by_attempt at_ rows') as [s' |].
      - destruct N as [N1 N2]. f_equal. apply (tw_attempts _ W' s' slot at_); [done | done | done | by rewrite Es].
      - destruct (N slot Hin). by rewrite Es. }
    unfold acquire_existing, acquire_transaction. rewrite B, B', Es. split; [done |]. split; [| done]. cbn [is_status sl_status active_row sl_repoFullName].
    rewrite (bool_decide_false (Some repo' = Some repo)) by congruence. by eexists.
Qed.

(** ** Examples *)

Section Examples.
#[local] Existing Instance toy_clock.

Definition toy_join (dir name : string) : string := dir ++ "/" ++ name.
Definition toy_pool (pid : Z) : WorktreeAllocator := mkAllocator "w" 1 (nz 1000) pid "host-1".
Definition toy_booked : list slot_step :=
  [ss_ensure "w" 1; ss_transaction (toy_pool 7) "a1" "acme/widgets" 5; ss_transaction (toy_pool 8) "a2" "acme/widgets" 6].
Definition toy_slots : SlotTable := run_slots toy_join [] toy_booked.
Definition toy_lease : WorktreeSlotRow := active_row "a1" "acme/widgets" 7 "host-1" (iso 5) (mkSlot 0 "w/slot-0" None None slot_free None None None).

Lemma toy_slots_one : toy_slots = [toy_lease].
Proof. vm_compute. reflexivity. Qed.

Lemma empty_table_wf : table_wf [].
Proof. split; [apply NoDup_nil_2 | apply NoDup_nil_2 | done | done]. Qed.

Lemma toy_slots_wf : table_wf [toy_lease].
Proof. rewrite <- toy_slots_one. apply run_slots_wf, empty_table_wf. Qed.

Lemma no_double_booking_witness : In toy_lease toy_slots /\ toy_lease = toy_lease.
Proof.
  split; [rewrite toy_slots_one; by left |].
  apply (no_double_booking toy_join toy_booked); [change (In toy_lease toy_slots); rewrite toy_slots_one; by left | change (In toy_lease toy_slots); rewrite toy_slots_one; by left | by left].
Defined.

Lemma slots_within_capacity_witness : count_active (run_slots toy_join [] toy_booked) <= 1.
Proof.
  apply (slots_within_capacity toy_join 1 [] toy_booked empty_table_wf); [vm_compute; lia |].
  unfold toy_booked. repeat constructor.
Defined.

(** A reclaim from another host that sees every process as dead, with a probe of
    the lease itself, leaves a lease in time alone. *)
Lemma lease_survives_witness :
  In toy_lease (run_slots toy_join [toy_lease] [ss_reclaim (nz 900) (nz 1000) "host-2" (fun _ => false) [toy_lease]; ss_purge (JStr "acme/widgets")]).
Proof.
  apply (lease_survives toy_join [toy_lease] _ toy_lease toy_slots_wf); [by left | vm_compute; reflexivity |].
  constructor; [vm_compute; discriminate | constructor; [vm_compute; tauto | constructor]].
Defined.

Lemma orphan_slot_recovered_witness :
  exists slot, snd (acquire (toy_pool 9) (fun _ => false) (nz 20) 20 (JStr "a3") (JStr "acme/widgets") [toy_lease]) = Normal slot
    /\ In slot (fst (acquire (toy_pool 9) (fun _ => false) (nz 20) 20 (JStr "a3") (JStr "acme/widgets") [toy_lease]))
    /\ sl_attemptId slot = Some "a3" /\ sl_repoFullName slot = Some "acme/widgets" /\ is_status slot_active slot = true.
Proof.
  apply (orphan_slot_recovered (toy_pool 9) (fun _ => false) (nz 20) 20 (JStr "a3") (JStr "acme/widgets") "a3" "acme/widgets" toy_lease [toy_lease] toy_slots_wf);
    [vm_compute; lia | by left | vm_compute; reflexivity ..].
Defined.

Lemma raced_attempt_other_repo_witness : exists slot rows',
  acquire_transaction (toy_pool 8) "a1" "acme/other" 6 rows' = (rows', Normal slot) /\ sl_repoFullName slot = Some "acme/widgets".
Proof.
  exists toy_lease, [toy_lease].
  destruct (raced_attempt_other_repo (toy_pool 7) (toy_pool 8) "a1" "acme/other" "acme/widgets" 5 6 (ensureSlots toy_join "w" 1 []) [toy_lease] toy_lease) as (_ & _ & E & E');
    [done | by apply (run_slots_wf toy_join [] [ss_ensure "w" 1] empty_table_wf) | vm_compute; reflexivity | vm_compute; reflexivity |].
  by split.
Defined.
End Examples.
