(* ===== verification/LinkedIssueRefs.v ===== *)
(** * Closing references in a pull-request body

    Models [extractLinkedIssueNumbersWithOverflow] of [src/db/repositories.ts]: the
    issue numbers a body links with a closing keyword, as [Closes #12], as
    [fixes owner/repo#12] or with the full URL, outside inline code spans.

    The expression is matched by the backtracking matcher of [JsRegex]; the capture
    groups are what the continuations have consumed.  Offsets count characters of
    the model's strings; they are only compared with each other.

    Main results: the loop returns the distinct numbers of the admissible
    references in order, cut at the limit, and reports an overflow exactly when
    something was cut ([extraction_exact]); every number it returns stands in the
    text behind a closing keyword, for this repository, outside every code span
    ([extracted_is_written]); a body that is one plain reference yields it, whatever
    the keyword, the blanks and the number ([plain_reference_found]). *)

From Stdlib Require Import Ascii QArith ZArith Lia.
From stdpp Require Import base list strings option sets.
From S2P Require Import Prelude JsNumber JsString JsRegex LocalStore CanonicalJson.

Local Open Scope nat_scope.
Local Open Scope string_scope.
Local Open Scope js_scope.

(** ** Matching *)

(** What a match has consumed of [s] when [rest] is left. *)
Definition taken (s rest : string) : string := String.substring 0 (String.length s - String.length rest) s.

(** One match of a [matchAll]: where it starts and ends, and its groups. *)
Record Match (A : Type) := mkMatch { mt_start : nat; mt_end : nat; mt_groups : A }.
Arguments mkMatch {A} _ _ _.
Arguments mt_start {A} _.
Arguments mt_end {A} _.
Arguments mt_groups {A} _.

(** [text.matchAll(...)] for an expression that matches no empty string; [at_]
    tries it at one position and returns the groups, the character before what is
    left, and what is left. *)
Fixpoint match_all_from {A} (fuel : nat) (at_ : option ascii -> string -> option (A * (option ascii * string))) (pos : nat) (prev : option ascii)
    (s : string) : list (Match A) :=
  match fuel with
  | O => []
  | S fuel' =>
      match s with
      | EmptyString => []
      | String c s' =>
          match at_ prev s with
          | Some (x, (prev', rest)) =>
              let end_ := pos + (String.length s - String.length rest) in
              mkMatch pos end_ x :: match_all_from fuel' at_ end_ prev' rest
          | None => match_all_from fuel' at_ (S pos) (Some c) s'
          end
      end
  end.

Definition match_all {A} (at_ : option ascii -> string -> option (A * (option ascii * string))) (text : string) : list (Match A) :=
  match_all_from (String.length text) at_ 0 None text.

(** ** The expressions *)

Definition is_tick (c : ascii) : bool := Ascii.eqb c "`".
Definition in_code (c : ascii) : bool := negb (is_tick c) && negb (N_of_ascii c =? 10)%N.
Definition code_span : re := Cat (Chr is_tick) (Cat (Rep in_code) (Chr is_tick)).

Definition s_or_d : re := Chr (fun c => ci "s" c || ci "d" c).
Definition closing_keyword : re :=
  alt_all [Cat (lit_ci "close") (Opt s_or_d); Cat (lit_ci "fix") (Opt (Cat (lit_ci "e") s_or_d)); Cat (lit_ci "resolve") (Opt s_or_d)].
Definition slug_char (c : ascii) : bool := is_word c || Ascii.eqb c "." || Ascii.eqb c "-".
Definition owner_slug : re := Cat (Plus slug_char) (Cat (lit_ci "/") (Plus slug_char)).
Definition issue_url : re :=
  cat_all [lit_ci "http"; Opt (lit_ci "s"); lit_ci "://"; Opt (lit_ci "www."); lit_ci "github.com/"].

(** The groups: [urlOwner ?? qualOwner] and the digits. *)
Record IssueRef := mkRef { ref_owner : option string; ref_digits : string }.

Definition issue_digits (owner : option string) (prev : option ascii) (s : string) : option (IssueRef * (option ascii * string)) :=
  m (Plus is_digit) prev s (fun prev1 s1 => m WordBoundary prev1 s1 (fun prev2 rest => Some (mkRef owner (taken s s1), (prev2, rest)))).

Definition url_reference (prev : option ascii) (s : string) : option (IssueRef * (option ascii * string)) :=
  m issue_url prev s (fun p1 s1 => m owner_slug p1 s1 (fun p2 s2 => m (lit_ci "/issues/") p2 s2 (issue_digits (Some (taken s1 s2))))).
Definition qualified_reference (prev : option ascii) (s : string) : option (IssueRef * (option ascii * string)) :=
  m owner_slug prev s (fun p1 s1 => m (lit_ci "#") p1 s1 (issue_digits (Some (taken s s1)))).
Definition bare_reference (prev : option ascii) (s : string) : option (IssueRef * (option ascii * string)) :=
  m (lit_ci "#") prev s (issue_digits None).

Definition closing_prefix : re := Cat WordBoundary (Cat closing_keyword (Plus is_space)).

Definition closing_reference (prev : option ascii) (s : string) : option (IssueRef * (option ascii * string)) :=
  m closing_prefix prev s (fun p s' =>
    match url_reference p s' with
    | Some x => Some x
    | None => match qualified_reference p s' with Some x => Some x | None => bare_reference p s' end
    end).

(** ** The extraction *)

Definition MAX_LINKED_ISSUE_NUMBERS : num := nz 50.

Record LinkedIssueExtractionResult := mkExtraction { ex_numbers : list Z; ex_overflow : bool }.

Definition inlineCodeSpanRanges (text : string) : list (Match unit) :=
  match_all (fun prev s => m code_span prev s (fun prev' rest => Some (tt, (prev', rest)))) text.

Definition overlaps {A B} (x : Match A) (range : Match B) : bool := Nat.ltb (mt_start x) (mt_end range) && Nat.ltb (mt_start range) (mt_end x).

(** [owner && owner.toLowerCase() !== target]. *)
Definition foreign_owner (target : string) (owner : option string) : bool :=
  match owner with
  | Some o => negb (str_empty o) && negb (String.eqb (toLowerCase o) target)
  | None => false
  end.

(** [Number(digits)], when it is a positive integer. *)
Definition issue_number (digits : string) : option Z := positive_integer (JNum (rnd (inject_Z (digits_value digits)))).

(** The loop; [seen] holds the numbers of [linkedIssues]. *)
Fixpoint extract_loop (target : string) (ranges : list (Match unit)) (normalizedLimit : num) (matches : list (Match IssueRef)) (linkedIssues : list Z)
    : LinkedIssueExtractionResult :=
  match matches with
  | [] => mkExtraction linkedIssues false
  | match_ :: rest =>
      let continue := extract_loop target ranges normalizedLimit rest linkedIssues in
      if existsb (overlaps match_) ranges then continue
      else if foreign_owner target (ref_owner (mt_groups match_)) then continue
      else match issue_number (ref_digits (mt_groups match_)) with
           | None => continue
           | Some value =>
               if bool_decide (value ∈ linkedIssues) then continue
               else if ngeb (nnat (length linkedIssues)) normalizedLimit then mkExtraction linkedIssues true
               else extract_loop target ranges normalizedLimit rest (linkedIssues ++ [value])
           end
  end.

Definition extractLinkedIssueNumbersWithOverflow (text repoFullName : string) (limit : num) : LinkedIssueExtractionResult :=
  extract_loop (toLowerCase repoFullName) (inlineCodeSpanRanges text) (nmax (nz 0) (nfloor limit)) (match_all closing_reference text) [].

Definition extractLinkedIssueNumbers (text repoFullName : string) (limit : num) : list Z :=
  ex_numbers (extractLinkedIssueNumbersWithOverflow text repoFullName limit).

Example extract_forms :
  extractLinkedIssueNumbersWithOverflow "Closes #12, fixes Acme/Widgets#7 and resolved  https://github.com/acme/widgets/issues/7
not `closes #9`, not prefixes #3, nor closes other/repo#4, nor fix #0; Fixed #12 CLOSE #1" "acme/widgets" MAX_LINKED_ISSUE_NUMBERS
  = mkExtraction [12; 7; 1]%Z false.
Proof. vm_compute. reflexivity. Qed.

(** ** The loop *)

Definition admissible (target : string) (ranges : list (Match unit)) (x : Match IssueRef) : bool :=
  negb (existsb (overlaps x) ranges) && negb (foreign_owner target (ref_owner (mt_groups x))).

(** The numbers of the admissible references, in order and with repetitions. *)
Definition references (target : string) (ranges : list (Match unit)) (matches : list (Match IssueRef)) : list Z :=
  omap (fun x => if admissible target ranges x then issue_number (ref_digits (mt_groups x)) else None) matches.

Fixpoint first_occurrences (seen xs : list Z) : list Z :=
  match xs with
  | [] => []
  | x :: rest => if bool_decide (x ∈ seen) then first_occurrences seen rest else x :: first_occurrences (x :: seen) rest
  end.

Lemma first_occurrences_ext xs : forall seen seen', (forall x, x ∈ seen <-> x ∈ seen') -> first_occurrences seen xs = first_occurrences seen' xs.
Proof.
  induction xs as [| x xs IH]; intros seen seen' E; [done |]. cbn [first_occurrences]. rewrite (bool_decide_ext _ _ (E x)). destruct (bool_decide _).
  - by apply IH.
  - f_equal. apply IH. intros y. rewrite !elem_of_cons. by rewrite E.
Qed.

Lemma first_occurrences_spec xs : forall seen, NoDup (first_occurrences seen xs) /\ forall x, x ∈ first_occurrences seen xs <-> x ∈ xs /\ x ∉ seen.
Proof.
  induction xs as [| y xs IH]; intros seen; cbn [first_occurrences].
  { split; [apply NoDup_nil_2 |]. set_solver. }
  destruct (bool_decide_reflect (y ∈ seen)) as [Hy | Hy].
  - destruct (IH seen) as [N E]. split; [done |]. set_solver.
  - destruct (IH (y :: seen)) as [N E]. split; [apply list.NoDup_cons; set_solver |]. intros x. rewrite elem_of_cons, E.
    destruct (decide (x = y)); set_solver.
Qed.

Lemma extract_loop_exact target ranges n matches : forall linked, length linked <= n ->
  let all := (linked ++ first_occurrences linked (references target ranges matches))%list in
  extract_loop target ranges (nnat n) matches linked = mkExtraction (take n all) (Nat.ltb n (length all)).
Proof.
  cbv zeta. assert (Stop : forall linked, length linked <= n -> mkExtraction linked false = mkExtraction (take n linked) (Nat.ltb n (length linked))).
  { intros linked L. rewrite take_ge by done. by destruct (Nat.ltb_spec n (length linked)); [lia |]. }
  induction matches as [| x ms IH]; intros linked L; cbn [extract_loop references omap list_omap first_occurrences].
  { rewrite app_nil_r. by apply Stop. }
  change (omap _ ms) with (references target ranges ms). unfold admissible. destruct (existsb (overlaps x) ranges); cbn [negb andb]; [by apply IH |].
  destruct (foreign_owner _ _); cbn [negb]; [by apply IH |]. destruct (issue_number _) as [v |]; [| by apply IH]. cbn [first_occurrences].
  destruct (bool_decide_reflect (v ∈ linked)) as [Hv | Hv]; [by apply IH |].
  unfold nnat at 1. unfold nnat at 1. rewrite nz_geb. destruct (Z.leb_spec (Z.of_nat n) (Z.of_nat (length linked))) as [G | G].
  - assert (E : length linked = n) by lia. rewrite <- E at 1. rewrite take_app_length. f_equal. rewrite length_app. cbn [length].
    symmetry. apply Nat.ltb_lt. lia.
  - rewrite IH by (rewrite length_app; cbn [length]; lia). rewrite <- !app_assoc. cbn [app].
    rewrite (first_occurrences_ext _ (linked ++ [v]) (v :: linked)) by (intros y; set_solver). done.
Qed.

(** The numbers are the distinct references of the body in order, cut at the
    limit, and an overflow is reported exactly when something was cut. *)
Theorem extraction_exact text repo n :
  let all := first_occurrences [] (references (toLowerCase repo) (inlineCodeSpanRanges text) (match_all closing_reference text)) in
  extractLinkedIssueNumbersWithOverflow text repo (nnat n) = mkExtraction (take n all) (Nat.ltb n (length all)).
Proof.
  unfold extractLinkedIssueNumbersWithOverflow. replace (nmax (nz 0) (nfloor (nnat n))) with (nnat n).
  - apply (extract_loop_exact _ _ n _ []). cbn. lia.
  - unfold nnat. rewrite nfloor_nz, nz_max. f_equal. lia.
Qed.

(** ** What is matched *)

Lemma toLowerCase_app s t : toLowerCase (s ++ t) = toLowerCase s ++ toLowerCase t.
Proof. induction s as [| c s IH]; [done |]. rewrite string_app_cons. cbn [toLowerCase]. by rewrite IH, string_app_cons. Qed.

Lemma last_char_app prev s t : last_char prev (s ++ t) = last_char (last_char prev s) t.
Proof. revert prev. induction s as [| c s IH]; intros prev; [done |]. rewrite string_app_cons. apply IH. Qed.

Lemma taken_app u rest : taken (u ++ rest) rest = u.
Proof.
  unfold taken. rewrite string_length_app. replace (String.length u + String.length rest - String.length rest) with (String.length u) by lia.
  induction u as [| c u IH]; [by destruct rest |]. rewrite string_app_cons. cbn [String.length String.substring]. by rewrite IH.
Qed.

(** A match consumes a prefix of the subject. *)
Lemma denotes_prefix r prev s prev' rest : denotes r prev s prev' rest -> exists u, s = u ++ rest /\ prev' = last_char prev u.
Proof.
  induction 1 as [| p prev c s Hp | | p prev c s prev' rest Hp Hd IH | r1 r2 prev s prev1 s1 prev2 s2 H1 IH1 H2 IH2 | | |]; try by exists "".
  - by exists (String c "").
  - destruct IH as (u & -> & ->). exists (String c u). by rewrite string_app_cons.
  - destruct IH1 as (u & -> & ->), IH2 as (v & -> & ->). exists (u ++ v). by rewrite string_app_assoc, last_char_app.
  - assumption.
  - assumption.
Qed.

Lemma denotes_lit_ci w prev s prev' rest : denotes (lit_ci w) prev s prev' rest <->
  exists u, s = u ++ rest /\ toLowerCase u = toLowerCase w /\ prev' = last_char prev u.
Proof.
  revert prev s. induction w as [| c w IH]; intros prev s; cbn [lit_ci].
  - split; [inversion 1; subst; by exists "" |]. intros (u & -> & E & ->). destruct u; [constructor | done].
  - rewrite denotes_cat. split.
    + intros (p1 & s1 & (d & -> & Hd & ->)%denotes_chr & (u & -> & E & ->)%IH). exists (String d u). rewrite string_app_cons. split; [done |]. split; [| done].
      cbn [toLowerCase]. apply Ascii.eqb_eq in Hd. by rewrite Hd, E.
    + intros (u & -> & E & ->). destruct u as [| d u]; [done |]. cbn [toLowerCase] in E. injection E as E1 E2. exists (Some d), (u ++ rest).
      rewrite string_app_cons. split; [apply denotes_chr; exists d; split; [done |]; split; [by apply Ascii.eqb_eq | done] |]. apply IH. by exists u.
Qed.

Lemma denotes_plus p prev s prev' rest : denotes (Plus p) prev s prev' rest <->
  exists u, s = u ++ rest /\ u <> "" /\ str_forallb p u = true /\ prev' = last_char prev u.
Proof.
  unfold Plus. rewrite denotes_cat. split.
  - intros (p1 & s1 & (c & -> & Hc & ->)%denotes_chr & (u & -> & Hu & ->)%denotes_rep). exists (String c u). rewrite string_app_cons.
    split; [done |]. split; [done |]. split; [| done]. cbn [str_forallb]. by rewrite Hc.
  - intros (u & -> & Hn & Hu & ->). destruct u as [| c u]; [done |]. cbn [str_forallb] in Hu. apply andb_true_iff in Hu as [Hc Hu].
    exists (Some c), (u ++ rest). rewrite string_app_cons. split; [apply denotes_chr; by exists c |]. apply denotes_rep. by exists u.
Qed.

Lemma denotes_alt r1 r2 prev s prev' rest : denotes (Alt r1 r2) prev s prev' rest <-> denotes r1 prev s prev' rest \/ denotes r2 prev s prev' rest.
Proof. split; [inversion 1; subst; auto | intros [? | ?]; eauto with loopover]. Qed.

(** [r] matches exactly the words of [ws], in any case. *)
Definition speaks (r : re) (ws : list string) : Prop :=
  forall prev s prev' rest, denotes r prev s prev' rest <-> exists u, s = u ++ rest /\ toLowerCase u ∈ ws /\ prev' = last_char prev u.

Lemma speaks_lit w : speaks (lit_ci w) [toLowerCase w].
Proof. intros prev s prev' rest. rewrite denotes_lit_ci. by setoid_rewrite list_elem_of_singleton. Qed.

Lemma speaks_eps : speaks Eps [""].
Proof.
  intros prev s prev' rest. setoid_rewrite list_elem_of_singleton. split; [inversion 1; subst; by exists "" |].
  intros (u & -> & E & ->). destruct u; [constructor | done].
Qed.

Lemma speaks_alt r1 r2 ws1 ws2 : speaks r1 ws1 -> speaks r2 ws2 -> speaks (Alt r1 r2) (ws1 ++ ws2).
Proof. intros H1 H2 prev s prev' rest. unfold speaks in *. rewrite denotes_alt, H1, H2. setoid_rewrite elem_of_app. naive_solver. Qed.

Lemma speaks_opt r ws : speaks r ws -> speaks (Opt r) (ws ++ [""]).
Proof. intros H. apply speaks_alt; [done | apply speaks_eps]. Qed.

Lemma toLowerCase_split u : forall a b, toLowerCase u = a ++ b -> exists v w, u = v ++ w /\ toLowerCase v = a /\ toLowerCase w = b.
Proof.
  induction u as [| d u IH]; intros a b E.
  - exists "", "". by destruct a, b.
  - destruct a as [| e a]; [by exists "", (String d u) |]. rewrite string_app_cons in E. cbn [toLowerCase] in E. injection E as E1 E2.
    apply IH in E2 as (v & w & -> & <- & <-). exists (String d v), w. cbn [toLowerCase]. by rewrite E1, string_app_cons.
Qed.

Definition products (ws1 ws2 : list string) : list string := List.flat_map (fun a => List.map (fun b => a ++ b) ws2) ws1.

Lemma products_elem w ws1 ws2 : w ∈ products ws1 ws2 <-> exists a b, w = a ++ b /\ a ∈ ws1 /\ b ∈ ws2.
Proof.
  unfold products. rewrite list_elem_of_In, List.in_flat_map. setoid_rewrite List.in_map_iff. setoid_rewrite list_elem_of_In. naive_solver.
Qed.

Lemma speaks_cat r1 r2 ws1 ws2 : speaks r1 ws1 -> speaks r2 ws2 -> speaks (Cat r1 r2) (products ws1 ws2).
Proof.
  intros H1 H2 prev s prev' rest. rewrite denotes_cat. split.
  - intros (p1 & s1 & (u & -> & Hu & ->)%H1 & (v & -> & Hv & ->)%H2). exists (u ++ v). rewrite string_app_assoc, last_char_app, toLowerCase_app.
    split; [done |]. split; [| done]. apply products_elem. eauto.
  - intros (u & -> & (a & b & E & Ha & Hb)%products_elem & ->). apply toLowerCase_split in E as (v & w & -> & <- & <-).
    exists (last_char prev v), (w ++ rest). rewrite string_app_assoc, last_char_app. split; [apply H1; by exists v | apply H2; by exists w].
Qed.

Lemma speaks_sd : speaks s_or_d ["s"; "d"].
Proof.
  intros prev s prev' rest. unfold s_or_d. rewrite denotes_chr. split.
  - intros (c & -> & Hc & ->). exists (String c ""). split; [done |]. split; [| done]. cbn [toLowerCase].
    apply orb_true_iff in Hc as [->%Ascii.eqb_eq | ->%Ascii.eqb_eq]; set_solver.
  - intros (u & -> & E & ->). destruct u as [| c [| d u]]; [set_solver | | set_solver]. exists c. split; [done |]. split; [| done].
    cbn [toLowerCase] in E. unfold ci. rewrite !elem_of_cons in E. destruct E as [[= ->] | [[= ->] | E%elem_of_nil]]; done.
Qed.

(** The nine keywords and the four beginnings of an address. *)
Definition closing_words : list string := ["closes"; "closed"; "close"; "fixes"; "fixed"; "fix"; "resolves"; "resolved"; "resolve"].
Definition url_starts : list string :=
  ["https://www.github.com/"; "https://github.com/"; "http://www.github.com/"; "http://github.com/"].

Lemma speaks_never : speaks Never [].
Proof. intros prev s prev' rest. split; [inversion 1 |]. set_solver. Qed.

Ltac speak := repeat first [apply speaks_lit | apply speaks_opt | apply speaks_alt | apply speaks_cat | apply speaks_sd | apply speaks_never | apply speaks_eps].

Lemma speaks_keyword : speaks closing_keyword closing_words.
Proof.
  assert (H : exists ws, speaks closing_keyword ws /\ ws = closing_words) by (eexists; split; [unfold closing_keyword, alt_all; speak | reflexivity]).
  destruct H as (ws & H & <-). exact H.
Qed.

Lemma speaks_url : speaks issue_url url_starts.
Proof.
  assert (H : exists ws, speaks issue_url ws /\ ws = url_starts) by (eexists; split; [unfold issue_url, cat_all; speak | reflexivity]).
  destruct H as (ws & H & <-). exact H.
Qed.

(** ** What the matches stand for *)

Definition is_slug (s : string) : Prop :=
  exists a b, s = a ++ "/" ++ b /\ a <> "" /\ b <> "" /\ str_forallb slug_char a = true /\ str_forallb slug_char b = true.

(** [written_reference u owner ds]: [u] is a reference to issue [ds] of [owner]. *)
Inductive written_reference : string -> option string -> string -> Prop :=
| wr_bare ds : written_reference ("#" ++ ds) None ds
| wr_qualified slug ds : is_slug slug -> written_reference (slug ++ "#" ++ ds) (Some slug) ds
| wr_url start slug mid ds : toLowerCase start ∈ url_starts -> is_slug slug -> toLowerCase mid = "/issues/" ->
    written_reference (start ++ slug ++ mid ++ ds) (Some slug) ds.

Lemma lower_char u c : toLowerCase u = String c "" -> is_alnum c = false -> u = String c "".
Proof.
  destruct u as [| d [| e u]]; [done | | done]. cbn [toLowerCase]. intros [= <-] H. f_equal.
  revert H. destruct d as [[] [] [] [] [] [] [] []]; by vm_compute.
Qed.

Lemma owner_slug_sound prev s prev' rest : denotes owner_slug prev s prev' rest ->
  exists u, s = u ++ rest /\ is_slug u /\ prev' = last_char prev u.
Proof.
  unfold owner_slug. intros (p1 & s1 & (a & -> & Na & Fa & ->)%denotes_plus & (p2 & s2 & (c & -> & Ec & ->)%denotes_lit_ci & (b & -> & Nb & Fb & ->)%denotes_plus)%denotes_cat)%denotes_cat.
  change (toLowerCase "/") with "/" in Ec. apply lower_char in Ec as ->; [| done]. exists (a ++ "/" ++ b). rewrite !string_app_assoc, !last_char_app.
  split; [done |]. split; [by exists a, b | done].
Qed.

Lemma issue_digits_sound owner prev s r prev' rest : issue_digits owner prev s = Some (r, (prev', rest)) ->
  exists ds, s = ds ++ rest /\ ds <> "" /\ str_forallb is_digit ds = true /\ r = mkRef owner ds /\ prev' = last_char prev ds /\ at_boundary prev' rest = true.
Proof.
  unfold issue_digits. intros (p1 & s1 & (ds & -> & Nd & Fd & ->)%denotes_plus & H)%m_sound. cbn [m] in H.
  destruct (at_boundary _ s1) eqn:B; [| done]. injection H as <- <- <-. exists ds. by rewrite taken_app.
Qed.

(** A match, spelled out. *)
Definition closing_match (prev : option ascii) (s : string) (r : IssueRef) (prev' : option ascii) (rest : string) : Prop :=
  exists kw blanks ref, s = kw ++ blanks ++ ref ++ rest /\ at_boundary prev s = true /\ toLowerCase kw ∈ closing_words
    /\ blanks <> "" /\ str_forallb is_space blanks = true /\ written_reference ref (ref_owner r) (ref_digits r)
    /\ ref_digits r <> "" /\ str_forallb is_digit (ref_digits r) = true
    /\ prev' = last_char prev (kw ++ blanks ++ ref) /\ at_boundary prev' rest = true.

Lemma closing_prefix_sound prev s prev' rest : denotes closing_prefix prev s prev' rest ->
  exists kw blanks, s = kw ++ blanks ++ rest /\ at_boundary prev s = true /\ toLowerCase kw ∈ closing_words /\ blanks <> ""
    /\ str_forallb is_space blanks = true /\ prev' = last_char prev (kw ++ blanks).
Proof.
  unfold closing_prefix. intros (p1 & s1 & B & (p2 & s2 & (kw & -> & Hk & ->)%speaks_keyword & (bl & -> & Nb & Fb & ->)%denotes_plus)%denotes_cat)%denotes_cat.
  inversion B; subst. exists kw, bl. by rewrite last_char_app.
Qed.

Lemma closing_reference_sound prev s r prev' rest : closing_reference prev s = Some (r, (prev', rest)) -> closing_match prev s r prev' rest.
Proof.
  unfold closing_reference. intros (p1 & s1 & (kw & bl & -> & B & Hk & Nb & Fb & ->)%closing_prefix_sound & H)%m_sound.
  enough (G : exists ref, s1 = ref ++ rest /\ written_reference ref (ref_owner r) (ref_digits r) /\ ref_digits r <> "" /\ str_forallb is_digit (ref_digits r) = true
    /\ prev' = last_char (last_char prev (kw ++ bl)) ref /\ at_boundary prev' rest = true).
  { destruct G as (ref & -> & Hr & Nd & Fd & -> & Bd). exists kw, bl, ref. rewrite !last_char_app in *. by rewrite ?string_app_assoc. }
  destruct (url_reference _ s1) as [x |] eqn:U; [| destruct (qualified_reference _ s1) as [x |] eqn:Q].
  - injection H as ->. apply m_sound in U as (p2 & s2 & (st & -> & Hst & ->)%speaks_url & U). apply m_sound in U as (p3 & s3 & (sl & -> & Hsl & ->)%owner_slug_sound & U).
    apply m_sound in U as (p4 & s4 & (mid & -> & Hm & ->)%denotes_lit_ci & (ds & -> & Nd & Fd & -> & -> & Bd)%issue_digits_sound). rewrite taken_app.
    exists (st ++ sl ++ mid ++ ds). rewrite !string_app_assoc, !last_char_app in *. split; [done |]. split; [by constructor | done].
  - injection H as ->. apply m_sound in Q as (p2 & s2 & (sl & -> & Hsl & ->)%owner_slug_sound & Q).
    apply m_sound in Q as (p3 & s3 & (u & -> & Hu & ->)%denotes_lit_ci & (ds & -> & Nd & Fd & -> & -> & Bd)%issue_digits_sound).
    apply lower_char in Hu as ->; [| done]. rewrite taken_app. exists (sl ++ "#" ++ ds). rewrite !string_app_assoc, !last_char_app in *.
    split; [done |]. split; [by constructor | done].
  - apply m_sound in H as (p3 & s3 & (u & -> & Hu & ->)%denotes_lit_ci & (ds & -> & Nd & Fd & -> & -> & Bd)%issue_digits_sound).
    apply lower_char in Hu as ->; [| done]. exists ("#" ++ ds). rewrite !string_app_assoc, !last_char_app in *. split; [done |]. split; [by constructor | done].
Qed.

Lemma match_all_from_sound {A} (at_ : option ascii -> string -> option (A * (option ascii * string)))
    (At : forall prev s x prev' rest, at_ prev s = Some (x, (prev', rest)) -> exists u, s = u ++ rest /\ prev' = last_char prev u) fuel : forall pos prev s x,
  x ∈ match_all_from fuel at_ pos prev s ->
  exists pre s' prev' rest, s = pre ++ s' /\ mt_start x = pos + String.length pre /\ at_ (last_char prev pre) s' = Some (mt_groups x, (prev', rest))
    /\ mt_end x = mt_start x + (String.length s' - String.length rest).
Proof.
  induction fuel as [| fuel IH]; intros pos prev s x Hx; cbn [match_all_from] in Hx; [by apply elem_of_nil in Hx |].
  destruct s as [| c s]; [by apply elem_of_nil in Hx |]. destruct (at_ prev (String c s)) as [[g [p' rest]] |] eqn:E.
  - apply elem_of_cons in Hx as [-> | Hx].
    + exists "", (String c s), p', rest. cbn [mt_start mt_groups mt_end String.length last_char]. split; [done |]. split; [lia |]. done.
    + destruct (At _ _ _ _ _ E) as (u & Eu & ->). apply IH in Hx as (pre & s' & q & rest' & -> & St & Ea & En).
      exists (u ++ pre), s', q, rest'. rewrite string_app_assoc, last_char_app, string_length_app. split; [done |]. split; [| done].
      rewrite St, Eu, string_length_app. lia.
  - apply IH in Hx as (pre & s' & q & rest' & -> & St & Ea & En). exists (String c pre), s', q, rest'. rewrite string_app_cons.
    split; [done |]. split; [cbn [String.length]; lia | done].
Qed.

Lemma closing_reference_prefix prev s x prev' rest : closing_reference prev s = Some (x, (prev', rest)) -> exists u, s = u ++ rest /\ prev' = last_char prev u.
Proof.
  intros (kw & bl & ref & -> & _ & _ & _ & _ & _ & _ & _ & -> & _)%closing_reference_sound. exists (kw ++ bl ++ ref). by rewrite !string_app_assoc.
Qed.

Lemma code_span_sound prev s prev' rest : m code_span prev s (fun prev' rest => Some (tt, (prev', rest))) = Some (tt, (prev', rest)) ->
  exists body, s = "`" ++ body ++ "`" ++ rest /\ str_forallb in_code body = true /\ prev' = Some "`"%char.
Proof.
  intros (p1 & s1 & D & [= <- <-])%m_sound. apply denotes_cat in D as (p2 & s2 & (c & -> & Hc%Ascii.eqb_eq & ->)%denotes_chr & D).
  apply denotes_cat in D as (p3 & s3 & (u & -> & Fu & ->)%denotes_rep & (d & -> & Hd%Ascii.eqb_eq & ->)%denotes_chr). subst. by exists u.
Qed.

Lemma extract_loop_sub target ranges limit matches : forall linked n, n ∈ ex_numbers (extract_loop target ranges limit matches linked) ->
  n ∈ linked \/ n ∈ references target ranges matches.
Proof.
  induction matches as [| x ms IH]; intros linked n Hn; cbn [extract_loop] in Hn; [by left |].
  cbn [references omap list_omap]. change (omap _ ms) with (references target ranges ms). unfold admissible.
  destruct (existsb (overlaps x) ranges); cbn [negb andb]; [by apply IH |]. destruct (foreign_owner _ _); cbn [negb]; [by apply IH |].
  destruct (issue_number _) as [v |]; [| by apply IH]. rewrite elem_of_cons.
  destruct (bool_decide _); [destruct (IH _ _ Hn); tauto |]. destruct (ngeb _ _); [by left |].
  destruct (IH _ _ Hn) as [H | H]; [| tauto]. set_solver.
Qed.

(** Nothing is made up: an extracted number stands in the body behind a closing
    keyword that starts a word, as a reference to this repository that ends a word,
    and no inline code span touches it. *)
Theorem extracted_is_written text repo limit n : n ∈ extractLinkedIssueNumbers text repo limit ->
  exists pre kw blanks ref post owner ds, text = pre ++ kw ++ blanks ++ ref ++ post
    /\ toLowerCase kw ∈ closing_words /\ blanks <> "" /\ str_forallb is_space blanks = true
    /\ written_reference ref owner ds /\ (owner = None \/ toLowerCase <$> owner = Some (toLowerCase repo))
    /\ str_forallb is_digit ds = true /\ issue_number ds = Some n
    /\ at_boundary (last_char None pre) (kw ++ blanks ++ ref ++ post) = true /\ at_boundary (last_char None (pre ++ kw ++ blanks ++ ref)) post = true
    /\ forall range, range ∈ inlineCodeSpanRanges text -> mt_end range <= String.length pre \/ String.length (pre ++ kw ++ blanks ++ ref) <= mt_start range.
Proof.
  intros Hn. apply extract_loop_sub in Hn as [H%elem_of_nil | Hn]; [done |]. apply list_elem_of_omap in Hn as (x & Hx & E).
  destruct (admissible _ _ x) eqn:Ad; [| done]. apply andb_true_iff in Ad as [Ov%negb_true_iff Fo%negb_true_iff].
  apply (match_all_from_sound _ closing_reference_prefix) in Hx as (pre & s' & p' & post & -> & St & Ea & En).
  apply closing_reference_sound in Ea as (kw & bl & ref & -> & B & Hk & Nb & Fb & Hw & Nd & Fd & -> & Bd).
  exists pre, kw, bl, ref, post, (ref_owner (mt_groups x)), (ref_digits (mt_groups x)). split; [done |]. split; [done |]. split; [done |]. split; [done |].
  split; [done |]. split; [| split; [done |]; split; [done |]; split; [done |]; split; [by rewrite last_char_app |]].
  - destruct (ref_owner _) as [o |] eqn:O; [right | by left]. cbn in Fo |- *. apply andb_false_iff in Fo as [Fo%negb_false_iff%str_empty_true | Fo%negb_false_iff%String.eqb_eq]; [| by rewrite Fo].
    subst o. inversion Hw as [| ? ? (a & b & Hs & Na & _) | ? ? ? ? _ (a & b & Hs & Na & _)]; subst; by destruct a.
  - intros range Hr. rewrite <- not_true_iff_false in Ov. destruct (decide (mt_end range <= String.length pre)) as [L | L]; [by left |]. right.
    destruct (decide (String.length (pre ++ kw ++ bl ++ ref) <= mt_start range)) as [L' | L']; [done |]. destruct Ov. apply List.existsb_exists.
    exists range. split; [by apply list_elem_of_In |]. unfold overlaps. apply andb_true_iff. rewrite !string_length_app in *.
    split; apply Nat.ltb_lt; lia.
Qed.

(** ** Plain references are found *)

(** A run of characters of a class is determined by where it stops. *)
Lemma run_unique p u : forall v s t, u ++ s = v ++ t -> str_forallb p u = true -> str_forallb p v = true ->
  match s with String c _ => p c = false | EmptyString => True end -> match t with String c _ => p c = false | EmptyString => True end -> u = v /\ s = t.
Proof.
  induction u as [| c u IH]; intros [| d v] s t E Fu Fv Hs Ht; try rewrite !string_app_cons in E.
  - done.
  - cbn [str_forallb] in Fv. apply andb_true_iff in Fv as [Fd _]. change ("" ++ s) with s in E. subst s. congruence.
  - cbn [str_forallb] in Fu. apply andb_true_iff in Fu as [Fc _]. change ("" ++ t) with t in E. subst t. congruence.
  - injection E as -> E. cbn [str_forallb] in Fu, Fv. apply andb_true_iff in Fu as [_ Fu], Fv as [_ Fv]. by destruct (IH v s t E Fu Fv Hs Ht) as [-> ->].
Qed.

Lemma no_code_spans text : str_forallb (fun c => negb (is_tick c)) text = true -> inlineCodeSpanRanges text = [].
Proof.
  intros F. destruct (inlineCodeSpanRanges text) as [| x l] eqn:E; [done |]. exfalso. assert (Hx : x ∈ inlineCodeSpanRanges text) by (rewrite E; left).
  apply match_all_from_sound in Hx as (pre & s' & p' & rest & -> & _ & Ea & _).
  - destruct (mt_groups x). apply code_span_sound in Ea as (body & -> & _). clear -F. induction pre as [| c pre IH]; [done |].
    rewrite string_app_cons in F. cbn [str_forallb] in F. apply andb_true_iff in F as [_ F]. auto.
  - intros prev s [] prev' rest' (p1 & s1 & D & [= -> ->])%m_sound. by apply denotes_prefix in D.
Qed.

Lemma str_forallb_app p s t : str_forallb p (s ++ t) = str_forallb p s && str_forallb p t.
Proof. induction s as [| c s IH]; [done |]. rewrite string_app_cons. cbn [str_forallb]. by rewrite IH, andb_assoc. Qed.

Lemma str_forallb_impl (p q : ascii -> bool) s : (forall c, p c = true -> q c = true) -> str_forallb p s = true -> str_forallb q s = true.
Proof. intros H. induction s as [| c s IH]; [done |]. cbn [str_forallb]. rewrite !andb_true_iff. naive_solver. Qed.

Lemma space_not_word c : is_space c = true -> is_word c = false.
Proof. destruct c as [[] [] [] [] [] [] [] []]; by vm_compute. Qed.
Lemma digit_word c : is_digit c = true -> is_word c = true.
Proof. destruct c as [[] [] [] [] [] [] [] []]; by vm_compute. Qed.
Lemma slug_not_space c : slug_char c = true -> is_space c = false.
Proof. destruct c as [[] [] [] [] [] [] [] []]; by vm_compute. Qed.
Lemma word_not_tick c : is_word c || is_space c || Ascii.eqb c "#" = true -> negb (is_tick c) = true.
Proof. destruct c as [[] [] [] [] [] [] [] []]; by vm_compute. Qed.

Lemma keyword_word kw : toLowerCase kw ∈ closing_words -> str_forallb is_word kw = true.
Proof.
  assert (L : str_forallb is_word (toLowerCase kw) = str_forallb is_word kw).
  { induction kw as [| c kw IH]; [done |]. cbn [toLowerCase str_forallb]. rewrite IH. f_equal. clear. destruct c as [[] [] [] [] [] [] [] []]; by vm_compute. }
  rewrite <- L. intros H. unfold closing_words in H. rewrite !elem_of_cons, elem_of_nil in H.
  destruct H as [-> | [-> | [-> | [-> | [-> | [-> | [-> | [-> | [-> | []]]]]]]]]]; done.
Qed.

Lemma written_head ref owner ds : written_reference ref owner ds ->
  exists c t, ref = String c t /\ is_space c = false /\ (c = "#"%char -> ref = "#" ++ ds /\ owner = None).
Proof.
  assert (Sl : forall slug t, is_slug slug -> exists c t', slug ++ t = String c t' /\ is_space c = false /\ c <> "#"%char).
  { intros slug t (a & b & -> & Na & _ & Fa & _). destruct a as [| c a]; [done |]. cbn [str_forallb] in Fa. apply andb_true_iff in Fa as [Fc _].
    exists c, ((a ++ "/" ++ b) ++ t). split; [done |]. split; [by apply slug_not_space | by intros ->]. }
  intros [ds' | slug ds' Hs | start slug mid ds' Hst Hs Hm].
  - by exists "#"%char, ds'.
  - destruct (Sl slug ("#" ++ ds') Hs) as (c & t & -> & Hc & N). by exists c, t.
  - destruct start as [| c start]; [by apply (bool_decide_pack _) in Hst |]. exists c, (start ++ slug ++ mid ++ ds'). split; [done |].
    assert (Ec : lower_ascii c = "h"%char).
    { unfold url_starts in Hst. cbn [toLowerCase] in Hst. rewrite !elem_of_cons, elem_of_nil in Hst. naive_solver. }
    clear -Ec. revert Ec. destruct c as [[] [] [] [] [] [] [] []]; by vm_compute.
Qed.

Lemma plain_match prev kw blanks ds : at_boundary prev (kw ++ blanks ++ "#" ++ ds) = true -> toLowerCase kw ∈ closing_words -> blanks <> "" ->
  str_forallb is_space blanks = true -> ds <> "" -> str_forallb is_digit ds = true ->
  exists prev', closing_reference prev (kw ++ blanks ++ "#" ++ ds) = Some (mkRef None ds, (prev', "")).
Proof.
  intros B Hk Nb Fb Nd Fd. destruct (closing_reference prev (kw ++ blanks ++ "#" ++ ds)) as [[r [p' rest]] |] eqn:E.
  - apply closing_reference_sound in E as (kw' & bl' & ref & E & _ & Hk' & Nb' & Fb' & Hw & Nd' & Fd' & -> & Bd). exists (last_char prev (kw' ++ bl' ++ ref)). f_equal.
    destruct (written_head _ _ _ Hw) as (c & t & -> & Hc & Hash).
    apply (run_unique is_word) in E as [_ E]; [| by apply keyword_word | by apply keyword_word | |].
    2: { destruct blanks as [| b blanks]; [done |]. apply andb_true_iff in Fb as [Fb _]. by apply space_not_word. }
    2: { destruct bl' as [| b bl']; [done |]. apply andb_true_iff in Fb' as [Fb' _]. by apply space_not_word. }
    apply (run_unique is_space) in E as [_ E]; [| done | done | done | done]. rewrite string_app_cons in E. injection E as <- E.
    destruct (Hash eq_refl) as [Er Eo]. change ("#" ++ ref_digits r) with (String "#" (ref_digits r)) in Er. injection Er as ->.
    destruct rest as [| d rest]; [rewrite string_app_nil_r in E; destruct r; cbn in *; by subst |]. exfalso.
    change ("" ++ ds) with ds in E. subst ds. rewrite str_forallb_app in Fd. apply andb_true_iff in Fd as [_ Fd]. cbn [str_forallb] in Fd.
    apply andb_true_iff in Fd as [Fd _]. revert Bd Nd' Fd'. rewrite !last_char_app. generalize (last_char (last_char prev kw') bl'). clear -Fd.
    generalize (ref_digits r). intros ds o. unfold at_boundary. rewrite (digit_word d Fd). cbn [last_char].
    enough (W : forall o, ds <> "" -> str_forallb is_digit ds = true -> exists x, last_char o ds = Some x /\ is_word x = true).
    { intros Bd N F. destruct (W (Some "#"%char) N F) as (x & Ex & Wx). rewrite Ex, Wx in Bd. done. }
    clear. induction ds as [| c ds IH]; [done |]. intros o _ F. cbn [str_forallb] in F. apply andb_true_iff in F as [Fc F]. cbn [last_char].
    destruct ds as [| c' ds]; [exists c; split; [done | by apply digit_word] |]. by apply IH.
  - exfalso. unfold closing_reference in E. eapply (m_complete closing_prefix) in E.
    2: { apply denotes_cat. exists prev, (kw ++ blanks ++ "#" ++ ds). split; [by constructor |]. apply denotes_cat.
         exists (last_char prev kw), (blanks ++ "#" ++ ds). split; [apply speaks_keyword; by exists kw |]. apply denotes_plus. by exists blanks. }
    destruct (url_reference _ _); [done |]. destruct (qualified_reference _ _); [done |]. unfold bare_reference in E.
    eapply (m_complete (lit_ci "#")) in E; [| apply denotes_lit_ci; by exists "#"]. unfold issue_digits in E.
    eapply (m_complete (Plus is_digit)) in E; [| apply denotes_plus; exists ds; rewrite string_app_nil_r; done]. cbn [m] in E.
    enough (W : at_boundary (last_char (last_char (last_char (last_char prev kw) blanks) "#") ds) "" = true) by (by rewrite W in E).
    generalize (last_char (last_char (last_char prev kw) blanks) "#"). clear -Nd Fd. induction ds as [| c ds IH]; [done |]. intros o.
    cbn [str_forallb] in Fd. apply andb_true_iff in Fd as [Fc F]. cbn [last_char]. destruct ds as [| c' ds]; [| by apply IH].
    unfold at_boundary. cbn [last_char]. by rewrite (digit_word c Fc).
Qed.

(** A body that is one plain reference links that issue. *)
Theorem plain_reference_found kw blanks ds repo n : toLowerCase kw ∈ closing_words -> blanks <> "" -> str_forallb is_space blanks = true ->
  str_forallb is_digit ds = true -> issue_number ds = Some n ->
  extractLinkedIssueNumbersWithOverflow (kw ++ blanks ++ "#" ++ ds) repo MAX_LINKED_ISSUE_NUMBERS = mkExtraction [n] false.
Proof.
  intros Hk Nb Fb Fd En. assert (Nd : ds <> "") by (intros ->; by vm_compute in En).
  pose proof (keyword_word kw Hk) as Wk. assert (Nk : exists c k, kw = String c k) by (destruct kw as [| c k]; [by vm_compute in Hk; set_solver | eauto]).
  destruct Nk as (c & k & ->). destruct (plain_match None (String c k) blanks ds) as [p' E]; try done.
  { rewrite string_app_cons. unfold at_boundary. cbn [str_forallb] in Wk. apply andb_true_iff in Wk as [Wc _]. by rewrite Wc. }
  unfold extractLinkedIssueNumbersWithOverflow. rewrite no_code_spans.
  2: { rewrite !str_forallb_app. apply andb_true_iff. split; [| apply andb_true_iff; split; [| apply andb_true_iff; split; [done |]]].
       - apply (str_forallb_impl is_word); [| done]. intros x Hx. apply word_not_tick. by rewrite Hx.
       - apply (str_forallb_impl is_space); [| done]. intros x Hx. apply word_not_tick. by rewrite Hx, orb_true_r.
       - apply (str_forallb_impl is_digit); [| done]. intros x Hx. apply word_not_tick. by rewrite (digit_word x Hx). }
  unfold match_all. rewrite string_app_cons in E |- *. cbn [String.length match_all_from]. rewrite E. cbv zeta.
  replace (match_all_from _ closing_reference _ p' "") with (@nil (Match IssueRef)) by (by destruct (String.length (k ++ blanks ++ "#" ++ ds))).
  cbn [extract_loop existsb mt_groups ref_owner ref_digits foreign_owner]. by rewrite En.
Qed.

Lemma extracted_is_written_witness : exists pre post, "It Fixes  acme/widgets#7." = pre ++ post /\ 7%Z ∈ extractLinkedIssueNumbers "It Fixes  acme/widgets#7." "Acme/Widgets" MAX_LINKED_ISSUE_NUMBERS.
Proof.
  assert (H : 7%Z ∈ extractLinkedIssueNumbers "It Fixes  acme/widgets#7." "Acme/Widgets" MAX_LINKED_ISSUE_NUMBERS) by (apply (bool_decide_unpack _); vm_compute; exact I).
  destruct (extracted_is_written _ _ _ _ H) as (pre & kw & bl & ref & post & owner & ds & E & _). exists pre, (kw ++ bl ++ ref ++ post). by split.
Defined.

Lemma plain_reference_found_witness :
  extractLinkedIssueNumbersWithOverflow ("RESOLVED" ++ "  " ++ "#" ++ "0042") "acme/widgets" MAX_LINKED_ISSUE_NUMBERS = mkExtraction [42%Z] false.
Proof. apply plain_reference_found; [apply (bool_decide_unpack _); vm_compute; exact I | done | vm_compute; reflexivity ..]. Defined.
