(* ===== verification/LinkedIssueRules.v ===== *)
(** * Linked-issue hard rules

    Models [src/review/linked-issue-hard-rules.ts], its configuration
    ([linked-issue-hard-rules-config.ts] of the engine), the reading of one issue
    ([fetchLinkedIssueFacts] of [src/github/backfill.ts]), the memory of a violation
    on the pull-request row ([src/db/repositories.ts]) and the part of a
    maintenance pass that ties them together ([src/queue/processors.ts]).

    GitHub's answer for an issue is an argument; the memory is the row's three
    columns.  The stored set of issues is kept as the list its JSON reads back as.
    A pass reads the row once and then writes it; passes follow each other.

    Main results: the live decision is a violation exactly when a rule is on and the
    body links too many issues, only issues that do not exist, or an open issue that
    breaks an enabled rule ([hard_rule_decision_exact], over [hard_rules_exact]); the
    configuration never enables a rule that is not spelled [block]
    ([normalized_config_safe]); a recorded violation holds through every later pass
    with the rules on and other issues linked ([violation_remembered]), and a pass
    with the rules on forgets it exactly when the recorded issues are linked and no
    violation was seen ([exoneration_exact]); without a violation nothing is
    reported or recorded ([clean_history]); references are refused only when each is
    known not to be open ([open_reference_exact]).

    Three ways out the comments do not mean to leave: a pass in which GitHub cannot
    be read ([outage_exonerates]), one in which the settings cannot be read
    ([settings_fault_forgets]), and the approval queue, which re-checks a queued
    close against the live rule alone ([remembered_close_superseded]). *)

From Stdlib Require Import Ascii QArith Qround ZArith Lia.
From stdpp Require Import base list strings option sets sorting.
From S2P Require Import Prelude JsNumber JsString Ledger LocalStore PrFreshness IteratePolicy Autonomy AgentActions AgentExecutor ApprovalQueue ApprovalAccept LinkedIssueRefs.

Local Open Scope nat_scope.
Local Open Scope string_scope.
Local Open Scope js_scope.

(** ** Configuration *)

Inductive LinkedIssueHardRulesMode := hm_block | hm_off.

#[global] Instance LinkedIssueHardRulesMode_eq_dec : EqDecision LinkedIssueHardRulesMode.
Proof. solve_decision. Defined.

Record LinkedIssueHardRulesConfig := mkHardRules {
  hc_ownerAssignedClose : LinkedIssueHardRulesMode;
  hc_assignedIssueClose : LinkedIssueHardRulesMode;
  hc_missingPointLabelClose : LinkedIssueHardRulesMode;
  hc_maintainerOnlyLabelClose : LinkedIssueHardRulesMode;
  hc_pointBearingLabels : list string;
  hc_maintainerOnlyLabels : list string;
  hc_defaultLabelRepo : bool;
  hc_verifyBeforeClose : bool;
  hc_closeDelaySeconds : num;
}.

Definition DEFAULT_CLOSE_DELAY_SECONDS : num := nz 30.
Definition MAX_CLOSE_DELAY_SECONDS : num := nz 300.
Definition DEFAULT_LINKED_ISSUE_HARD_RULES : LinkedIssueHardRulesConfig :=
  mkHardRules hm_off hm_off hm_off hm_off [] [] false true DEFAULT_CLOSE_DELAY_SECONDS.

(** A normalizer returns its value and the warnings it pushes. *)
Definition warned (A : Type) : Type := A * list string.

Definition isLinkedIssueHardRuleMode (value : jsval) : option LinkedIssueHardRulesMode :=
  match value with
  | JStr s => if String.eqb s "block" then Some hm_block else if String.eqb s "off" then Some hm_off else None
  | _ => None
  end.

Fixpoint normalize_labels (field : string) (index : nat) (items : list jsval) : warned (list string) :=
  match items with
  | [] => ([], [])
  | item :: rest =>
      let '(labels, warnings) := normalize_labels field (S index) rest in
      match item with
      | JStr s =>
          if negb (str_empty (trim s)) then (trim s :: labels, warnings)
          else (labels, ("settings.linkedIssueHardRules." ++ field ++ "[" ++ num_to_string (nnat index) ++ "] must be a non-empty string; ignoring it.") :: warnings)
      | _ => (labels, ("settings.linkedIssueHardRules." ++ field ++ "[" ++ num_to_string (nnat index) ++ "] must be a non-empty string; ignoring it.") :: warnings)
      end
  end.

Definition normalizeStringList (value : jsval) (field : string) : warned (list string) :=
  match value with
  | JUndefined => ([], [])
  | JArr items => normalize_labels field 0 items
  | _ => ([], ["settings.linkedIssueHardRules." ++ field ++ " must be an array; using no labels."])
  end.

Definition quote : string := String (ascii_of_nat 34) "".

(** Every mode defaults to [off]. *)
Definition normalizeMode (value : jsval) (field : string) : warned LinkedIssueHardRulesMode :=
  match value with
  | JUndefined => (hm_off, [])
  | _ => match isLinkedIssueHardRuleMode value with
         | Some mode => (mode, [])
         | None => (hm_off, ["settings.linkedIssueHardRules." ++ field ++ " must be one of block, off; using the default " ++ quote ++ "off" ++ quote ++ "."])
         end
  end.

Definition normalizeBoolean (value : jsval) (field : string) (default_ : bool) : warned bool :=
  match value with
  | JUndefined => (default_, [])
  | JBool b => (b, [])
  | _ => (default_, ["settings.linkedIssueHardRules." ++ field ++ " must be a boolean; using the default " ++ quote ++ (if default_ then "true" else "false") ++ quote ++ "."])
  end.

Definition normalizeCloseDelaySeconds (value : jsval) : warned num :=
  let refuse := (DEFAULT_CLOSE_DELAY_SECONDS,
    ["settings.linkedIssueHardRules.closeDelaySeconds must be a non-negative number; using the default " ++ quote ++ "30" ++ quote ++ "."]) in
  match value with
  | JUndefined => (DEFAULT_CLOSE_DELAY_SECONDS, [])
  | JNum v => if negb (is_finite v) || nltb v (nz 0) then refuse else (nmin MAX_CLOSE_DELAY_SECONDS (nfloor v), [])
  | _ => refuse
  end.

Definition normalizeLinkedIssueHardRulesConfig (input : jsval) : warned LinkedIssueHardRulesConfig :=
  match input with
  | JUndefined => (DEFAULT_LINKED_ISSUE_HARD_RULES, [])
  | JObj _ =>
      let '(owner, w1) := normalizeMode (get_field input "ownerAssignedClose") "ownerAssignedClose" in
      let '(assigned, w2) := normalizeMode (get_field input "assignedIssueClose") "assignedIssueClose" in
      let '(point, w3) := normalizeMode (get_field input "missingPointLabelClose") "missingPointLabelClose" in
      let '(only, w4) := normalizeMode (get_field input "maintainerOnlyLabelClose") "maintainerOnlyLabelClose" in
      let '(points, w5) := normalizeStringList (get_field input "pointBearingLabels") "pointBearingLabels" in
      let '(onlys, w6) := normalizeStringList (get_field input "maintainerOnlyLabels") "maintainerOnlyLabels" in
      let '(repo, w7) := normalizeBoolean (get_field input "defaultLabelRepo") "defaultLabelRepo" false in
      let '(verify, w8) := normalizeBoolean (get_field input "verifyBeforeClose") "verifyBeforeClose" true in
      let '(delay, w9) := normalizeCloseDelaySeconds (get_field input "closeDelaySeconds") in
      (mkHardRules owner assigned point only points onlys repo verify delay, List.concat [w1; w2; w3; w4; w5; w6; w7; w8; w9])
  | _ => (DEFAULT_LINKED_ISSUE_HARD_RULES, ["settings.linkedIssueHardRules must be an object; using the default all-off policy."])
  end.

Definition blocks (mode : LinkedIssueHardRulesMode) : bool := bool_decide (mode = hm_block).

Definition anyLinkedIssueHardRuleOn (config : LinkedIssueHardRulesConfig) : bool :=
  blocks (hc_ownerAssignedClose config) || blocks (hc_assignedIssueClose config)
  || blocks (hc_missingPointLabelClose config) || blocks (hc_maintainerOnlyLabelClose config).

(** [settings] is [None] when they cannot be read; their field may be absent. *)
Definition loadLinkedIssueHardRules (settings : option (option LinkedIssueHardRulesConfig)) : LinkedIssueHardRulesConfig :=
  match settings with Some (Some config) => config | _ => DEFAULT_LINKED_ISSUE_HARD_RULES end.

(** ** Reading an issue *)

Inductive payload_label := pl_text (s : string) | pl_object (name : option string) | pl_null.

(** The fields of the answer the code reads; an assignee may be null or nameless. *)
Record IssuePayload := mkPayload {
  ip_number : option Z;
  ip_state : option string;
  ip_labels : option (list payload_label);
  ip_assignees : option (list (option string));
  ip_user : option string;
  ip_title : option string;
  ip_body : option string;
  ip_closed_at : option string;
}.

Inductive GithubAnswer := ga_data (data : IssuePayload) | ga_api_error (statusCode : Z) | ga_other_error.

Record LinkedIssueFactsResult := mkFacts {
  lf_number : Z;
  lf_labels : list string;
  lf_assignees : list string;
  lf_state : string;
  lf_authorLogin : option string;
  lf_title : option string;
  lf_body : option string;
  lf_closedAt : option string;
}.

Inductive LinkedIssueFactsFetch := lff_found (facts : LinkedIssueFactsResult) | lff_not_found | lff_fetch_error.

Definition label_name (l : payload_label) : option string :=
  match l with pl_text s => truthy (Some s) | pl_object name => truthy name | pl_null => None end.

(** [github issueNumber token] is the answer to the request; [publicToken] is
    [env.GITHUB_PUBLIC_TOKEN]. *)
Definition fetchLinkedIssueFacts (github : Z -> option string -> GithubAnswer) (publicToken : option string) (issueNumber : Z) (token : option string)
    : LinkedIssueFactsFetch :=
  match github issueNumber token with
  | ga_other_error => lff_fetch_error
  | ga_api_error statusCode =>
      if negb (statusCode =? 404)%Z then lff_fetch_error
      else let hasProvenAccess := bool_decide (is_Some (truthy token)) && negb (bool_decide (token = publicToken)) in
           if hasProvenAccess then lff_not_found else lff_fetch_error
  | ga_data data =>
      lff_found (mkFacts (default issueNumber (ip_number data)) (omap label_name (default [] (ip_labels data)))
        (omap truthy (default [] (ip_assignees data))) (toLowerCase (default "open" (ip_state data))) (ip_user data)
        (truthy (ip_title data)) (truthy (ip_body data)) (ip_closed_at data))
  end.

(** ** The rules *)

Definition NO_VIOLATION : LinkedIssueHardRule := mkHardRule false None.

Definition findMatchingLabel (labels candidates : list string) : option string :=
  List.find (fun label => bool_decide (toLowerCase label ∈ List.map toLowerCase candidates)) labels.
Definition labelMatches (labels candidates : list string) : bool := bool_decide (is_Some (findMatchingLabel labels candidates)).

Definition issueIsAssignedToAuthor (issue : LinkedIssueFactsResult) (prAuthorLogin : option string) : bool :=
  match truthy ((fun login => toLowerCase (trim login)) <$> prAuthorLogin) with
  | Some author => existsb (fun assignee => String.eqb (toLowerCase assignee) author) (lf_assignees issue)
  | None => false
  end.

Section Evaluate.
Variable config : LinkedIssueHardRulesConfig.
Variable repoOwner : string.
Variable prAuthorLogin : option string.

(** The body of the loop for an open issue: the reason it returns. *)
Definition issue_violation (issue : LinkedIssueFactsResult) : option string :=
  let assignedToPrAuthor := issueIsAssignedToAuthor issue prAuthorLogin in
  let ownerLower := toLowerCase repoOwner in
  let issue_ := "Linked issue #" ++ num_to_string (nz (lf_number issue)) in
  if blocks (hc_ownerAssignedClose config) && negb (str_empty ownerLower) && negb assignedToPrAuthor
     && existsb (fun assignee => String.eqb (toLowerCase assignee) ownerLower) (lf_assignees issue)
  then Some (issue_ ++ " is assigned to the maintainer (@" ++ repoOwner
             ++ ") — that work is reserved for the maintainer, so this PR cannot be auto-accepted.")
  else match blocks (hc_assignedIssueClose config), lf_assignees issue, assignedToPrAuthor with
  | true, first :: _, false => Some (issue_ ++ " is already assigned to @" ++ first ++ " — only the assignee or a maintainer can submit that work.")
  | _, _, _ =>
  match blocks (hc_maintainerOnlyLabelClose config), findMatchingLabel (lf_labels issue) (hc_maintainerOnlyLabels config), assignedToPrAuthor with
  | true, Some label, false => Some (issue_ ++ " is labeled `" ++ label ++ "` — it is not open for community PRs unless assigned by a maintainer.")
  | _, _, _ =>
  if blocks (hc_missingPointLabelClose config) && hc_defaultLabelRepo config && negb (labelMatches (lf_labels issue) (hc_pointBearingLabels config))
  then Some (issue_ ++ " has no point-bearing label (needs one of "
             ++ default "the configured point labels" (truthy (Some (join ", " (hc_pointBearingLabels config))))
             ++ ") — it is not eligible for a scored contribution.")
  else None
  end end.

Fixpoint evaluate_issues (issues : list LinkedIssueFactsResult) : LinkedIssueHardRule :=
  match issues with
  | [] => NO_VIOLATION
  | issue :: rest =>
      if negb (String.eqb (lf_state issue) "open") then evaluate_issues rest
      else match issue_violation issue with
           | Some reason => mkHardRule true (Some reason)
           | None => evaluate_issues rest
           end
  end.

Definition evaluateLinkedIssueHardRules (issues : list LinkedIssueFactsResult) : LinkedIssueHardRule :=
  if negb (anyLinkedIssueHardRuleOn config) then NO_VIOLATION else evaluate_issues issues.
End Evaluate.

(** ** The live decision *)

Definition found_facts (result : LinkedIssueFactsFetch) : option LinkedIssueFactsResult := match result with lff_found facts => Some facts | _ => None end.
Definition is_not_found (result : LinkedIssueFactsFetch) : bool := match result with lff_not_found => true | _ => false end.
Definition is_fetch_error (result : LinkedIssueFactsFetch) : bool := match result with lff_fetch_error => true | _ => false end.

(** Where a pass runs: the repository, its token and GitHub. *)
Record RuleEnv := mkRuleEnv {
  re_repoFullName : string;
  re_repoOwner : string;
  re_publicToken : option string;
  re_github : Z -> option string -> GithubAnswer;
}.

Definition OVERFLOW_REASON : string :=
  "PR body links more issues than LoopOver can safely verify automatically; please reduce linked closing references or request maintainer review.".
Definition NOT_FOUND_REASON : string :=
  "The linked issue reference could not be found — please link a real, open issue or request maintainer review.".

Definition fetch_all (env : RuleEnv) (token : option string) (numbers : list Z) : list LinkedIssueFactsFetch :=
  List.map (fun n => fetchLinkedIssueFacts (re_github env) (re_publicToken env) n token) numbers.

Definition or_else {A} (x y : option A) : option A := match x with Some _ => x | None => y end.

Definition resolveLinkedIssueHardRule (env : RuleEnv) (config : LinkedIssueHardRulesConfig) (body : option string) (ciToken : option string)
    (prAuthorLogin : option string) : option LinkedIssueHardRule :=
  if negb (anyLinkedIssueHardRuleOn config) then None
  else
    let linkedIssuesFromBody := extractLinkedIssueNumbersWithOverflow (default "" body) (re_repoFullName env) MAX_LINKED_ISSUE_NUMBERS in
    if ex_overflow linkedIssuesFromBody then Some (mkHardRule true (Some OVERFLOW_REASON))
    else match ex_numbers linkedIssuesFromBody with
         | [] => None
         | numbers =>
             let fetchResults := fetch_all env (or_else ciToken (re_publicToken env)) numbers in
             match omap found_facts fetchResults with
             | [] => if forallb is_not_found fetchResults then Some (mkHardRule true (Some NOT_FOUND_REASON)) else None
             | issueFacts => Some (evaluateLinkedIssueHardRules config (re_repoOwner env) prAuthorLogin issueFacts)
             end
         end.

(** ** Open references *)

Definition is_open_issue (result : LinkedIssueFactsFetch) : bool :=
  match result with lff_found facts => String.eqb (lf_state facts) "open" | _ => false end.

Definition hasVerifiableOpenLinkedIssueReference (fetchResults : list LinkedIssueFactsFetch) : bool :=
  match fetchResults with
  | [] => true
  | _ => if existsb is_open_issue fetchResults then true else existsb is_fetch_error fetchResults
  end.

Record LinkedIssueClosure := mkClosure { cl_issueNumber : Z; cl_state : string; cl_closedAt : option string }.
Record LinkedIssueReferenceCheck := mkReferenceCheck { rc_hasOpenReference : bool; rc_closures : list LinkedIssueClosure }.

Definition NO_LINKED_ISSUE_REFERENCES : LinkedIssueReferenceCheck := mkReferenceCheck true [].

Definition linkedIssueClosures (fetchResults : list LinkedIssueFactsFetch) : list LinkedIssueClosure :=
  List.map (fun facts => mkClosure (lf_number facts) (lf_state facts) (lf_closedAt facts)) (omap found_facts fetchResults).

(** [minted] is the installation token, [None] when there is no installation or
    the mint fails. *)
Definition resolveLinkedIssueHasOpenReference (env : RuleEnv) (linkedIssues : list Z) (minted : option string) : LinkedIssueReferenceCheck :=
  match linkedIssues with
  | [] => NO_LINKED_ISSUE_REFERENCES
  | _ => if ngtb (nnat (length linkedIssues)) MAX_LINKED_ISSUE_NUMBERS then NO_LINKED_ISSUE_REFERENCES
         else let fetchResults := fetch_all env (or_else minted (re_publicToken env)) linkedIssues in
              mkReferenceCheck (hasVerifiableOpenLinkedIssueReference fetchResults) (linkedIssueClosures fetchResults)
  end.

(** ** The memory of a violation *)

(** The three columns of the row.  [vm_issues] is what the JSON column reads back
    as. *)
Record ViolationMemory := mkMemory {
  vm_violatedAt : option string;
  vm_reason : option string;
  vm_issues : option (list Z);
}.

Definition NO_MEMORY : ViolationMemory := mkMemory None None None.
Definition DEFAULT_VIOLATION_REASON : string := "the linked issue is not eligible for a community PR".

(** [a.size === b.size] and every value of [a] in [b]. *)
Definition linkedIssueSetsMatch (atViolation current : list Z) : bool :=
  match atViolation, current with
  | [], _ => false
  | _, [] => false
  | _, _ => let a := remove_dups atViolation in let b := remove_dups current in
            Nat.eqb (length a) (length b) && forallb (fun v => bool_decide (v ∈ b)) a
  end.

Definition mergeLinkedIssueHardRuleWithPersistedViolation (live : option LinkedIssueHardRule) (violatedAt reason : option string)
    (issuesAtViolation currentIssues : list Z) (anyRuleOn : bool) : option LinkedIssueHardRule :=
  if match live with Some r => hr_violated r | None => false end then live
  else if negb anyRuleOn then live
  else match violatedAt with
       | None => live
       | Some _ => if linkedIssueSetsMatch issuesAtViolation currentIssues then live
                   else Some (mkHardRule true (Some (default DEFAULT_VIOLATION_REASON reason)))
       end.

(** [[...new Set(linkedIssues)].sort((a, b) => a - b)]. *)
Definition issue_snapshot (linkedIssues : list Z) : list Z := merge_sort Z.le (remove_dups linkedIssues).

(** Each column keeps what it has. *)
Definition markPullRequestLinkedIssueHardRuleViolated (now : string) (reason : option string) (linkedIssues : list Z) (row : ViolationMemory) : ViolationMemory :=
  mkMemory (or_else (vm_violatedAt row) (Some now)) (or_else (vm_reason row) (Some (js_take 280 (default DEFAULT_VIOLATION_REASON reason))))
    (or_else (vm_issues row) (Some (issue_snapshot linkedIssues))).

Definition clearPullRequestLinkedIssueHardRuleViolation (row : ViolationMemory) : ViolationMemory := NO_MEMORY.

(** ** A maintenance pass *)

(** What a pass finds: the settings, the pull request's fields, the token, whether
    its two writes succeed, and the time. *)
Record RulePass := mkPass {
  rp_settings : option (option LinkedIssueHardRulesConfig);
  rp_env : RuleEnv;
  rp_body : option string;
  rp_linkedIssues : list Z;
  rp_authorLogin : option string;
  rp_ciToken : option string;
  rp_now : string;
  rp_markOk : bool;
  rp_clearOk : bool;
}.

Definition pass_config (p : RulePass) : LinkedIssueHardRulesConfig := loadLinkedIssueHardRules (rp_settings p).
Definition pass_live (p : RulePass) : option LinkedIssueHardRule :=
  resolveLinkedIssueHardRule (rp_env p) (pass_config p) (rp_body p) (rp_ciToken p) (rp_authorLogin p).
Definition violated (r : option LinkedIssueHardRule) : bool := match r with Some h => hr_violated h | None => false end.

(** The rule block of [maybeRunAgentMaintenance]: the row it leaves and the rule
    the planner gets.  [row] is what the pass has read. *)
Definition rule_pass (p : RulePass) (row : ViolationMemory) : ViolationMemory * option LinkedIssueHardRule :=
  let live := pass_live p in
  let row1 := if violated live && rp_markOk p
              then markPullRequestLinkedIssueHardRuleViolated (rp_now p) (v ← live; hr_reason v) (rp_linkedIssues p) row else row in
  let merged := mergeLinkedIssueHardRuleWithPersistedViolation live (vm_violatedAt row) (vm_reason row) (default [] (vm_issues row)) (rp_linkedIssues p)
                  (anyLinkedIssueHardRuleOn (pass_config p)) in
  let row2 := if bool_decide (is_Some (vm_violatedAt row)) && negb (violated merged) && rp_clearOk p
              then clearPullRequestLinkedIssueHardRuleViolation row1 else row1 in
  (row2, merged).

(** Passes one after the other: the last row and what each pass decided. *)
Fixpoint rule_passes (ps : list RulePass) (row : ViolationMemory) : ViolationMemory * list (option LinkedIssueHardRule) :=
  match ps with
  | [] => (row, [])
  | p :: rest => let '(row1, out) := rule_pass p row in let '(row2, outs) := rule_passes rest row1 in (row2, out :: outs)
  end.

(** ** The configuration *)

Lemma normalizeMode_block value field : fst (normalizeMode value field) = hm_block -> value = JStr "block".
Proof.
  destruct value as [| | | | s | |]; try done. unfold normalizeMode, isLinkedIssueHardRuleMode.
  destruct (String.eqb_spec s "block") as [-> | _]; [done |]. by destruct (String.eqb s "off").
Qed.

Lemma normalize_labels_clean field items : forall index, Forall (fun l => l <> "" /\ trim l = l) (fst (normalize_labels field index items)).
Proof.
  induction items as [| item items IH]; intros index; [constructor |]. cbn [normalize_labels]. specialize (IH (S index)).
  destruct (normalize_labels field (S index) items) as [labels ws]. cbn [fst] in IH. destruct item as [| | | | s | |]; try done.
  destruct (str_empty (trim s)) eqn:E; [done |]. constructor; [| done]. apply str_empty_false in E. split; [done | apply trim_idem].
Qed.

Lemma normalizeStringList_clean value field : Forall (fun l => l <> "" /\ trim l = l) (fst (normalizeStringList value field)).
Proof. destruct value as [| | | | | vs |]; try constructor. apply normalize_labels_clean. Qed.

Lemma normalizeCloseDelay_bounds value : exists z, (0 <= z <= 300)%Z /\ fst (normalizeCloseDelaySeconds value) = nz z.
Proof.
  destruct value as [| | | v | | |]; try (exists 30%Z; split; [lia | done]). unfold normalizeCloseDelaySeconds.
  destruct v as [| | | q]; try (exists 30%Z; split; [lia | done]). cbn [is_finite negb orb]. destruct (nltb (Fin q) (nz 0)) eqn:L; [exists 30%Z; split; [lia | done] |].
  assert (P : (0 <= Qfloor q)%Z).
  { change 0%Z with (Qfloor (inject_Z 0)). apply Qfloor_resp_le. by apply nltb_fin_false in L. }
  exists (Z.min 300 (Qfloor q)). split; [lia |]. cbn [fst nfloor]. unfold MAX_CLOSE_DELAY_SECONDS. change (Fin (inject_Z (Qfloor q))) with (nz (Qfloor q)).
  by rewrite nz_min.
Qed.

(** Whatever is configured, a rule is enforced only when its mode is the text
    [block], the grace period is a whole number of seconds up to five minutes, and
    every label is non-empty and trimmed. *)
Theorem normalized_config_safe input :
  let config := fst (normalizeLinkedIssueHardRulesConfig input) in
  (hc_ownerAssignedClose config = hm_block -> get_field input "ownerAssignedClose" = JStr "block")
  /\ (hc_assignedIssueClose config = hm_block -> get_field input "assignedIssueClose" = JStr "block")
  /\ (hc_missingPointLabelClose config = hm_block -> get_field input "missingPointLabelClose" = JStr "block")
  /\ (hc_maintainerOnlyLabelClose config = hm_block -> get_field input "maintainerOnlyLabelClose" = JStr "block")
  /\ (exists z, (0 <= z <= 300)%Z /\ hc_closeDelaySeconds config = nz z)
  /\ Forall (fun l => l <> "" /\ trim l = l) (hc_pointBearingLabels config ++ hc_maintainerOnlyLabels config).
Proof.
  destruct input as [| | | | | |]; try (repeat split; try done; exists 30%Z; split; [lia | done]).
  cbn [normalizeLinkedIssueHardRulesConfig].
  pose proof (normalizeMode_block (get_field (JObj fields) "ownerAssignedClose") "ownerAssignedClose") as H1.
  pose proof (normalizeMode_block (get_field (JObj fields) "assignedIssueClose") "assignedIssueClose") as H2.
  pose proof (normalizeMode_block (get_field (JObj fields) "missingPointLabelClose") "missingPointLabelClose") as H3.
  pose proof (normalizeMode_block (get_field (JObj fields) "maintainerOnlyLabelClose") "maintainerOnlyLabelClose") as H4.
  pose proof (normalizeStringList_clean (get_field (JObj fields) "pointBearingLabels") "pointBearingLabels") as H5.
  pose proof (normalizeStringList_clean (get_field (JObj fields) "maintainerOnlyLabels") "maintainerOnlyLabels") as H6.
  pose proof (normalizeCloseDelay_bounds (get_field (JObj fields) "closeDelaySeconds")) as H7.
  destruct (normalizeMode _ "ownerAssignedClose") as [? ?], (normalizeMode _ "assignedIssueClose") as [? ?], (normalizeMode _ "missingPointLabelClose") as [? ?],
    (normalizeMode _ "maintainerOnlyLabelClose") as [? ?], (normalizeStringList _ "pointBearingLabels") as [? ?], (normalizeStringList _ "maintainerOnlyLabels") as [? ?],
    (normalizeBoolean _ "defaultLabelRepo" _) as [? ?], (normalizeBoolean _ "verifyBeforeClose" _) as [? ?], (normalizeCloseDelaySeconds _) as [? ?].
  cbn in *. split; [done |]. split; [done |]. split; [done |]. split; [done |]. split; [done |]. by apply Forall_app.
Qed.

(** ** The rules *)

(** The issue is assigned to the author of the pull request. *)
Definition assigned_to_author (author : option string) (issue : LinkedIssueFactsResult) : Prop :=
  exists login a, author = Some login /\ trim login <> "" /\ a ∈ lf_assignees issue /\ toLowerCase a = toLowerCase (trim login).

Definition carries_label (issue : LinkedIssueFactsResult) (candidates : list string) : Prop :=
  exists l c, l ∈ lf_labels issue /\ c ∈ candidates /\ toLowerCase l = toLowerCase c.

(** The rule of the policy an issue breaks. *)
Inductive rule_broken (config : LinkedIssueHardRulesConfig) (owner : string) (author : option string) (issue : LinkedIssueFactsResult) : Prop :=
| rb_owner a : hc_ownerAssignedClose config = hm_block -> owner <> "" -> a ∈ lf_assignees issue -> toLowerCase a = toLowerCase owner ->
    ~ assigned_to_author author issue -> rule_broken config owner author issue
| rb_assigned : hc_assignedIssueClose config = hm_block -> lf_assignees issue <> [] -> ~ assigned_to_author author issue -> rule_broken config owner author issue
| rb_only : hc_maintainerOnlyLabelClose config = hm_block -> carries_label issue (hc_maintainerOnlyLabels config) -> ~ assigned_to_author author issue ->
    rule_broken config owner author issue
| rb_point : hc_missingPointLabelClose config = hm_block -> hc_defaultLabelRepo config = true -> ~ carries_label issue (hc_pointBearingLabels config) ->
    rule_broken config owner author issue.

Lemma blocks_iff mode : blocks mode = true <-> mode = hm_block.
Proof. apply bool_decide_eq_true. Qed.

Lemma lower_empty s : str_empty (toLowerCase s) = str_empty s.
Proof. by destruct s. Qed.

Lemma assigned_iff author issue : issueIsAssignedToAuthor issue author = true <-> assigned_to_author author issue.
Proof.
  unfold issueIsAssignedToAuthor, assigned_to_author. destruct author as [login |]; cbn [fmap option_fmap option_map]; [| split; [done | by intros (? & ? & ? & _)]].
  assert (T : truthy (Some (toLowerCase (trim login))) = if str_empty (trim login) then None else Some (toLowerCase (trim login))) by (by destruct (trim login)).
  rewrite T. destruct (str_empty (trim login)) eqn:E.
  - apply str_empty_true in E. split; [done |]. intros (l & a & [= <-] & N & _). by rewrite E in N.
  - apply str_empty_false in E. rewrite List.existsb_exists. split.
    + intros (a & Ha & Ea%String.eqb_eq). exists login, a. by rewrite list_elem_of_In.
    + intros (l & a & [= <-] & _ & Ha%list_elem_of_In & Ea). exists a. by rewrite String.eqb_eq.
Qed.

Lemma matching_label_iff issue candidates : is_Some (findMatchingLabel (lf_labels issue) candidates) <-> carries_label issue candidates.
Proof.
  unfold findMatchingLabel, carries_label. split.
  - intros [l (Hl & E%bool_decide_eq_true)%List.find_some]. apply list_elem_of_In, List.in_map_iff in E as (c & E & Hc). exists l, c. by rewrite !list_elem_of_In.
  - intros (l & c & Hl%list_elem_of_In & Hc%list_elem_of_In & E). destruct (List.find _ _) eqn:F; [by eexists |]. exfalso.
    apply (List.find_none _ _ F) in Hl. apply bool_decide_eq_false in Hl. apply Hl, list_elem_of_In, List.in_map_iff. by exists c.
Qed.

(** The four tests of the loop, whatever their order. *)
Lemma issue_violation_tests config owner author issue : let mine := issueIsAssignedToAuthor issue author in
  is_Some (issue_violation config owner author issue) <->
  blocks (hc_ownerAssignedClose config) && negb (str_empty owner) && negb mine
    && existsb (fun a => String.eqb (toLowerCase a) (toLowerCase owner)) (lf_assignees issue) = true
  \/ blocks (hc_assignedIssueClose config) && negb (bool_decide (lf_assignees issue = [])) && negb mine = true
  \/ blocks (hc_maintainerOnlyLabelClose config) && bool_decide (is_Some (findMatchingLabel (lf_labels issue) (hc_maintainerOnlyLabels config))) && negb mine = true
  \/ blocks (hc_missingPointLabelClose config) && hc_defaultLabelRepo config && negb (labelMatches (lf_labels issue) (hc_pointBearingLabels config)) = true.
Proof.
  cbv zeta. unfold issue_violation. rewrite lower_empty. destruct (_ && existsb _ _); [split; [by left | by eexists] |].
  destruct (blocks (hc_assignedIssueClose config)), (lf_assignees issue), (issueIsAssignedToAuthor issue author); cbn [andb negb];
    try (split; [right; by left | by eexists]).
  all: destruct (blocks (hc_maintainerOnlyLabelClose config)), (findMatchingLabel (lf_labels issue) (hc_maintainerOnlyLabels config)); cbn [andb negb];
    try (split; [right; right; by left | by eexists]).
  all: destruct (_ && hc_defaultLabelRepo config && _); (split; [first [by intros [? [=]] | intros _; by right; right; right] | first [by intros [? | [? | [? | ?]]] | intros _; by eexists]]).
Qed.

Lemma issue_violation_iff config owner author issue : is_Some (issue_violation config owner author issue) <-> rule_broken config owner author issue.
Proof.
  rewrite issue_violation_tests. cbv zeta. unfold labelMatches. rewrite !andb_true_iff, !negb_true_iff, !blocks_iff, !bool_decide_eq_true, !bool_decide_eq_false, matching_label_iff, matching_label_iff, str_empty_false.
  rewrite <- not_true_iff_false, assigned_iff, List.existsb_exists. setoid_rewrite String.eqb_eq. setoid_rewrite <- list_elem_of_In. split.
  - intros [(((B & N) & A) & a & Ha & E) | [[[B N] A] | [[[B L] A] | [[B D] L]]]]; [by apply (rb_owner _ _ _ _ a) | by apply rb_assigned | by apply rb_only | by apply rb_point].
  - intros [a B N Ha E A | B N A | B L A | B D L]; [left | right; left | right; right; left | right; right; right]; try done.
    split; [done |]. by exists a.
Qed.

Lemma broken_enabled config owner author issue : rule_broken config owner author issue -> anyLinkedIssueHardRuleOn config = true.
Proof. unfold anyLinkedIssueHardRuleOn. rewrite !orb_true_iff, !blocks_iff. intros []; tauto. Qed.

Lemma evaluate_issues_exact config owner author issues :
  match evaluate_issues config owner author issues with
  | mkHardRule true reason => exists before issue after, issues = (before ++ issue :: after)%list /\ lf_state issue = "open"
      /\ rule_broken config owner author issue /\ reason = issue_violation config owner author issue
      /\ forall i, i ∈ before -> lf_state i = "open" -> ~ rule_broken config owner author i
  | mkHardRule false reason => reason = None /\ forall i, i ∈ issues -> lf_state i = "open" -> ~ rule_broken config owner author i
  end.
Proof.
  induction issues as [| issue issues IH]; cbn [evaluate_issues]; [split; [done | by intros i Hi%elem_of_nil] |].
  destruct (String.eqb_spec (lf_state issue) "open") as [O | O]; cbn [negb].
  - destruct (issue_violation config owner author issue) as [reason |] eqn:V.
    + exists [], issue, issues. split; [done |]. split; [done |]. split; [apply issue_violation_iff; by rewrite V |]. split; [done |]. by intros i Hi%elem_of_nil.
    + assert (N : ~ rule_broken config owner author issue) by (rewrite <- issue_violation_iff, V; by intros []).
      destruct (evaluate_issues config owner author issues) as [[] reason].
      * destruct IH as (before & i & after & -> & Oi & B & R & H). exists (issue :: before), i, after. split; [done |]. split; [done |]. split; [done |]. split; [done |].
        intros j [-> | Hj]%elem_of_cons; [done | by apply H].
      * destruct IH as [R H]. split; [done |]. intros j [-> | Hj]%elem_of_cons; [done | by apply H].
  - destruct (evaluate_issues config owner author issues) as [[] reason].
    + destruct IH as (before & i & after & -> & Oi & B & R & H). exists (issue :: before), i, after. split; [done |]. split; [done |]. split; [done |]. split; [done |].
      intros j [-> | Hj]%elem_of_cons; [done | by apply H].
    + destruct IH as [R H]. split; [done |]. intros j [-> | Hj]%elem_of_cons; [done | by apply H].
Qed.

(** The verdict on the linked issues: a violation is reported exactly when an open
    issue breaks an enabled rule, with the reason of the first one that does; closed
    issues never count. *)
Theorem hard_rules_exact config owner author issues :
  (hr_violated (evaluateLinkedIssueHardRules config owner author issues) = true <->
   exists issue, issue ∈ issues /\ lf_state issue = "open" /\ rule_broken config owner author issue)
  /\ (hr_violated (evaluateLinkedIssueHardRules config owner author issues) = true ->
      exists before issue after, issues = (before ++ issue :: after)%list /\ lf_state issue = "open" /\ rule_broken config owner author issue
        /\ hr_reason (evaluateLinkedIssueHardRules config owner author issues) = issue_violation config owner author issue
        /\ forall i, i ∈ before -> lf_state i = "open" -> ~ rule_broken config owner author i).
Proof.
  unfold evaluateLinkedIssueHardRules. destruct (anyLinkedIssueHardRuleOn config) eqn:On; cbn [negb].
  - pose proof (evaluate_issues_exact config owner author issues) as E. destruct (evaluate_issues config owner author issues) as [[] reason]; cbn [hr_violated hr_reason].
    + split; [| done]. split; [| done]. intros _. destruct E as (before & issue & after & -> & O & B & _). exists issue. set_solver.
    + destruct E as [_ N]. split; [| done]. split; [done |]. intros (i & Hi & Oi & Bi). by destruct (N i Hi Oi).
  - cbn. split; [| done]. split; [done |]. intros (i & _ & _ & B%broken_enabled). congruence.
Qed.

(** The answers for the issues of a body. *)
Definition issue_answer (env : RuleEnv) (ciToken : option string) (n : Z) : LinkedIssueFactsFetch :=
  fetchLinkedIssueFacts (re_github env) (re_publicToken env) n (or_else ciToken (re_publicToken env)).
Definition body_issues (env : RuleEnv) (body : option string) : LinkedIssueExtractionResult :=
  extractLinkedIssueNumbersWithOverflow (default "" body) (re_repoFullName env) MAX_LINKED_ISSUE_NUMBERS.

(** C32: the live decision: a violation exactly when a rule is on and the body links too
    many issues to check, or links issues none of which exists, or links an open
    issue, as GitHub reports it now, that breaks an enabled rule.  An issue GitHub
    could not be asked about never causes one. *)
Theorem hard_rule_decision_exact env config body ciToken author :
  violated (resolveLinkedIssueHardRule env config body ciToken author) = true <->
  anyLinkedIssueHardRuleOn config = true
  /\ (ex_overflow (body_issues env body) = true
      \/ (ex_overflow (body_issues env body) = false
          /\ ((ex_numbers (body_issues env body) <> [] /\ forall n, n ∈ ex_numbers (body_issues env body) -> issue_answer env ciToken n = lff_not_found)
              \/ exists n facts, n ∈ ex_numbers (body_issues env body) /\ issue_answer env ciToken n = lff_found facts /\ lf_state facts = "open"
                   /\ rule_broken config (re_repoOwner env) author facts))).
Proof.
  unfold resolveLinkedIssueHardRule. destruct (anyLinkedIssueHardRuleOn config) eqn:On; cbn [negb]; [| split; [done | by intros [? _]]].
  change (extractLinkedIssueNumbersWithOverflow _ _ _) with (body_issues env body). cbv zeta.
  destruct (ex_overflow (body_issues env body)); [split; [by auto | done] |].
  assert (Fe : fetch_all env (or_else ciToken (re_publicToken env)) = List.map (issue_answer env ciToken)) by done. rewrite Fe.
  destruct (ex_numbers (body_issues env body)) as [| n0 ns]; [split; [done |]; intros (_ & [? | (_ & [[? _] | (n & f & Hn%elem_of_nil & _)])]); done |].
  set (numbers := n0 :: ns). set (answers := List.map (issue_answer env ciToken) numbers).
  assert (F : forall facts, facts ∈ omap found_facts answers <-> exists n, n ∈ numbers /\ issue_answer env ciToken n = lff_found facts).
  { intros facts. rewrite list_elem_of_omap. split.
    - intros (x & (n & <- & Hn)%list_elem_of_In%List.in_map_iff & E). exists n. rewrite list_elem_of_In. split; [done |]. by destruct (issue_answer env ciToken n); simplify_eq/=.
    - intros (n & Hn%list_elem_of_In & E). exists (lff_found facts). split; [| done]. apply list_elem_of_In, List.in_map_iff. by exists n. }
  assert (G : (exists n facts, n ∈ numbers /\ issue_answer env ciToken n = lff_found facts /\ lf_state facts = "open" /\ rule_broken config (re_repoOwner env) author facts)
    <-> exists facts, facts ∈ omap found_facts answers /\ lf_state facts = "open" /\ rule_broken config (re_repoOwner env) author facts) by (setoid_rewrite F; naive_solver).
  rewrite G. destruct (omap found_facts answers) as [| f fs] eqn:O.
  - destruct (forallb is_not_found answers) eqn:A; cbn [violated hr_violated].
    + split; [intros _ | done]. split; [done |]. right. split; [done |]. left. split; [done |]. intros n Hn%list_elem_of_In.
      rewrite List.forallb_forall in A. specialize (A (issue_answer env ciToken n) (List.in_map _ _ _ Hn)). by destruct (issue_answer env ciToken n).
    + split; [done |]. intros (_ & [? | (_ & [[_ N] | (g & Hg%elem_of_nil & _)])]); [done | | done]. rewrite <- not_true_iff_false in A. destruct A.
      apply List.forallb_forall. intros x (n & <- & Hn%list_elem_of_In)%List.in_map_iff. by rewrite (N n Hn).
  - change (violated (Some ?x)) with (hr_violated x). rewrite (proj1 (hard_rules_exact config (re_repoOwner env) author (f :: fs))). split; [by auto |].
    intros (_ & [? | (_ & [[_ N] | H])]); [done | | done]. assert (Hf : f ∈ f :: fs) by left. apply F in Hf as (n & Hn & E). by rewrite (N n Hn) in E.
Qed.

(** ** Remembered violations *)

Lemma linkedIssueSetsMatch_iff a b : linkedIssueSetsMatch a b = true <-> a <> [] /\ forall n, n ∈ a <-> n ∈ b.
Proof.
  destruct a as [| x a]; [split; [done | by intros []] |]. destruct b as [| y b].
  { split; [done |]. intros [_ H]. assert (X : x ∈ x :: a) by left. by apply H, elem_of_nil in X. }
  cbn [linkedIssueSetsMatch]. rewrite andb_true_iff, Nat.eqb_eq, List.forallb_forall. setoid_rewrite bool_decide_eq_true. split.
  - intros [L S]. split; [done |]. assert (Sub : remove_dups (x :: a) ⊆+ remove_dups (y :: b)).
    { apply NoDup_submseteq; [apply NoDup_remove_dups |]. intros n Hn%list_elem_of_In. by apply S. }
    apply submseteq_length_Permutation in Sub; [| lia]. intros n. rewrite <- (elem_of_remove_dups (x :: a)), <- (elem_of_remove_dups (y :: b)). by rewrite Sub.
  - intros [_ H]. split.
    + apply Permutation_length, NoDup_Permutation; [apply NoDup_remove_dups ..|]. intros n. by rewrite !elem_of_remove_dups.
    + intros n Hn%list_elem_of_In. rewrite elem_of_remove_dups in Hn. rewrite elem_of_remove_dups. by apply H.
Qed.

Definition same_issues (a b : list Z) : Prop := a <> [] /\ forall n, n ∈ a <-> n ∈ b.

(** What the planner is told: the live violation, or else the remembered one. *)
Lemma merged_violated p row : violated (snd (rule_pass p row)) = true <->
  violated (pass_live p) = true
  \/ (anyLinkedIssueHardRuleOn (pass_config p) = true /\ is_Some (vm_violatedAt row) /\ ~ same_issues (default [] (vm_issues row)) (rp_linkedIssues p)).
Proof.
  unfold rule_pass, same_issues. cbn [snd]. rewrite <- linkedIssueSetsMatch_iff. unfold mergeLinkedIssueHardRuleWithPersistedViolation. fold (violated (pass_live p)).
  destruct (violated (pass_live p)) eqn:L; [by split; [left | rewrite L] |]. destruct (anyLinkedIssueHardRuleOn (pass_config p)); cbn [negb]; [| rewrite L; naive_solver].
  destruct (vm_violatedAt row) as [t |]; [| rewrite L; split; [done | by intros [? | (_ & [] & _)]]].
  destruct (linkedIssueSetsMatch _ _); [rewrite L; naive_solver |]. cbn. split; [right; by split; [| split; [by eexists |]] | done].
Qed.

(** The row a pass leaves. *)
Lemma pass_row p row : fst (rule_pass p row) =
  if bool_decide (is_Some (vm_violatedAt row)) && negb (violated (snd (rule_pass p row))) && rp_clearOk p then NO_MEMORY
  else if violated (pass_live p) && rp_markOk p
       then markPullRequestLinkedIssueHardRuleViolated (rp_now p) (v ← pass_live p; hr_reason v) (rp_linkedIssues p) row else row.
Proof. done. Qed.

Lemma rule_passes_cons p ps row : rule_passes (p :: ps) row =
  (fst (rule_passes ps (fst (rule_pass p row))), snd (rule_pass p row) :: snd (rule_passes ps (fst (rule_pass p row)))).
Proof. cbn [rule_passes]. destruct (rule_pass p row) as [row1 out]. cbn [fst snd]. by destruct (rule_passes ps row1). Qed.

(** The author has moved the links away from the recorded set, with rules on. *)
Definition moved_links (issues : list Z) (p : RulePass) : Prop :=
  anyLinkedIssueHardRuleOn (pass_config p) = true /\ ~ same_issues issues (rp_linkedIssues p).

Lemma memory_stands t issues ps : forall row, vm_violatedAt row = Some t -> vm_issues row = Some issues -> Forall (moved_links issues) ps ->
  vm_violatedAt (fst (rule_passes ps row)) = Some t /\ vm_issues (fst (rule_passes ps row)) = Some issues
  /\ Forall (fun out => violated out = true) (snd (rule_passes ps row)).
Proof.
  induction ps as [| p ps IH]; intros row Ht Hi F; [by split; [| split; [| constructor]] |]. apply Forall_cons in F as [[On N] F].
  assert (V : violated (snd (rule_pass p row)) = true).
  { apply merged_violated. right. rewrite Hi, Ht. split; [done |]. split; [by eexists | done]. }
  rewrite rule_passes_cons. cbn [fst snd]. destruct (IH (fst (rule_pass p row))) as (H1 & H2 & H3); [| | done | by split; [| split; [| constructor]]].
  - rewrite pass_row, V. cbn [negb]. rewrite andb_false_r. cbn [andb]. destruct (_ && _); [| done]. cbn. by rewrite Ht.
  - rewrite pass_row, V. cbn [negb]. rewrite andb_false_r. cbn [andb]. destruct (_ && _); [| done]. cbn. by rewrite Hi.
Qed.

Lemma snapshot_elem n l : n ∈ issue_snapshot l <-> n ∈ l.
Proof. unfold issue_snapshot. rewrite merge_sort_Permutation. apply elem_of_remove_dups. Qed.

Lemma snapshot_same l l' : same_issues (issue_snapshot l) l' <-> same_issues l l'.
Proof.
  unfold same_issues. setoid_rewrite snapshot_elem. enough (E : issue_snapshot l = [] <-> l = []) by (by rewrite E). split.
  - intros E. destruct l as [| x l]; [done |]. assert (X : x ∈ issue_snapshot (x :: l)) by (apply snapshot_elem; left). rewrite E in X. by apply elem_of_nil in X.
  - by intros ->.
Qed.


(** A pass with a rule on forgets a recorded violation exactly when it sees none
    itself and the pull request links exactly the recorded issues, at least one;
    then it reports none either. *)
Theorem exoneration_exact p row t : anyLinkedIssueHardRuleOn (pass_config p) = true -> rp_clearOk p = true -> vm_violatedAt row = Some t ->
  (vm_violatedAt (fst (rule_pass p row)) = None <-> violated (pass_live p) = false /\ same_issues (default [] (vm_issues row)) (rp_linkedIssues p))
  /\ (vm_violatedAt (fst (rule_pass p row)) = None -> fst (rule_pass p row) = NO_MEMORY /\ violated (snd (rule_pass p row)) = false).
Proof.
  intros On Ok Ht. pose proof (merged_violated p row) as M. rewrite pass_row, Ht, Ok, andb_true_r. cbn [bool_decide].
  rewrite bool_decide_true by (by eexists). cbn [andb]. destruct (violated (snd (rule_pass p row))) eqn:V; cbn [negb].
  - assert (K : vm_violatedAt (if violated (pass_live p) && rp_markOk p then
      markPullRequestLinkedIssueHardRuleViolated (rp_now p) (v ← pass_live p; hr_reason v) (rp_linkedIssues p) row else row) = Some t)
      by (destruct (_ && _); cbn; by rewrite Ht).
    rewrite K. split; [| done]. split; [done |]. intros [L S]. destruct (proj1 M eq_refl) as [L' | (_ & _ & N)]; [congruence | done].
  - split; [| done]. split; [| done]. intros _. split.
    + destruct (violated (pass_live p)); [| done]. discriminate (proj2 M (or_introl eq_refl)).
    + destruct (linkedIssueSetsMatch (default [] (vm_issues row)) (rp_linkedIssues p)) eqn:S; [by apply linkedIssueSetsMatch_iff |]. exfalso.
      rewrite <- not_true_iff_false, linkedIssueSetsMatch_iff in S. discriminate (proj2 M (or_intror (conj On (conj (ex_intro _ t Ht) S)))).
Qed.

(** A pull request no pass found in violation is never reported and leaves no
    record. *)
Theorem clean_history ps : Forall (fun p => violated (pass_live p) = false) ps -> rule_passes ps NO_MEMORY = (NO_MEMORY, List.map pass_live ps).
Proof.
  induction 1 as [| p ps L F IH]; [done |]. assert (E : rule_pass p NO_MEMORY = (NO_MEMORY, pass_live p)).
  { unfold rule_pass, mergeLinkedIssueHardRuleWithPersistedViolation. fold (violated (pass_live p)). rewrite L. cbn. by destruct (negb _). }
  rewrite rule_passes_cons, E. cbn [fst snd]. by rewrite IH.
Qed.

(** ** Ways out *)

Lemma unreachable_live p : (forall n token, re_github (rp_env p) n token = ga_other_error) -> ex_overflow (body_issues (rp_env p) (rp_body p)) = false ->
  pass_live p = None.
Proof.
  intros U O. unfold pass_live, resolveLinkedIssueHardRule. destruct (negb _); [done |]. fold (body_issues (rp_env p) (rp_body p)). cbv zeta. rewrite O.
  destruct (ex_numbers _) as [| n ns]; [done |].
  assert (E : fetch_all (rp_env p) (or_else (rp_ciToken p) (re_publicToken (rp_env p))) (n :: ns) = lff_fetch_error :: List.map (fun _ => lff_fetch_error) ns).
  { unfold fetch_all, fetchLinkedIssueFacts. cbn [List.map]. rewrite U. f_equal. apply List.map_ext. intros m. by rewrite U. }
  rewrite E. assert (N : omap found_facts (lff_fetch_error :: List.map (fun _ => lff_fetch_error) ns) = []) by (clear; cbn; by induction ns).
  by rewrite N.
Qed.

(** A pass that forgets, and one after it that sees nothing. *)
Lemma forgotten p q row t issues : vm_violatedAt row = Some t -> vm_issues row = Some issues -> rp_clearOk p = true -> pass_live p = None ->
  violated (snd (rule_pass p row)) = false -> pass_live q = None -> moved_links issues q ->
  rule_passes [p; q] row = (NO_MEMORY, [None; None]) /\ violated (snd (rule_pass q row)) = true.
Proof.
  intros Ht Hi Ok Lp Mp Lq Mq. assert (Ep : rule_pass p row = (NO_MEMORY, None)).
  { rewrite (surjective_pairing (rule_pass p row)), pass_row, Ht, Mp, Ok. rewrite bool_decide_true by (by eexists). cbn [negb andb]. f_equal.
    revert Mp. unfold rule_pass, mergeLinkedIssueHardRuleWithPersistedViolation. cbn [snd]. rewrite Lp, Ht. cbv zeta. destruct (negb _); [done |]. by destruct (linkedIssueSetsMatch _ _). }
  assert (Eq : rule_pass q NO_MEMORY = (NO_MEMORY, None)).
  { unfold rule_pass, mergeLinkedIssueHardRuleWithPersistedViolation. rewrite Lq. cbn. by destruct (negb _). }
  split; [by rewrite !rule_passes_cons, Ep; cbn [fst snd]; rewrite Eq |]. apply merged_violated. right. destruct Mq as [On N]. rewrite Hi, Ht. split; [done |]. split; [by eexists | done].
Qed.

(** An outage exonerates: when GitHub cannot be read during one pass and the links
    are still the recorded ones, the pass forgets the violation, though it has
    examined no issue.  A body that drops the links afterwards is then in the clear,
    where it would have been in violation without that pass. *)
Theorem outage_exonerates p q row t issues : vm_violatedAt row = Some t -> vm_issues row = Some issues -> same_issues issues (rp_linkedIssues p) ->
  (forall n token, re_github (rp_env p) n token = ga_other_error) -> ex_overflow (body_issues (rp_env p) (rp_body p)) = false -> rp_clearOk p = true ->
  pass_live q = None -> moved_links issues q ->
  rule_passes [p; q] row = (NO_MEMORY, [None; None]) /\ violated (snd (rule_pass q row)) = true.
Proof.
  intros Ht Hi S U O Ok Lq Mq. pose proof (unreachable_live p U O) as Lp. eapply forgotten; try done. apply not_true_iff_false. intros V.
  apply merged_violated in V as [V | (_ & _ & N)]; [by rewrite Lp in V |]. by rewrite Hi in N.
Qed.

(** So does a pass that cannot read the settings: it takes every rule as off and
    erases the record, whatever is linked. *)
Theorem settings_fault_forgets p q row t issues : vm_violatedAt row = Some t -> vm_issues row = Some issues -> rp_settings p = None -> rp_clearOk p = true ->
  pass_live q = None -> moved_links issues q ->
  rule_passes [p; q] row = (NO_MEMORY, [None; None]) /\ violated (snd (rule_pass q row)) = true.
Proof.
  intros Ht Hi E Ok Lq Mq. assert (C : pass_config p = DEFAULT_LINKED_ISSUE_HARD_RULES) by (unfold pass_config; by rewrite E).
  assert (Lp : pass_live p = None) by (unfold pass_live; by rewrite C). eapply forgotten; try done. apply not_true_iff_false. intros V.
  apply merged_violated in V as [V | (On & _)]; [by rewrite Lp in V | by rewrite C in On].
Qed.

(** Acceptance of a queued close asks the live rule only.  After the author has
    dropped the links, the planner still closes on the remembered violation, and
    accepting that close supersedes it as no longer justified. *)
Theorem remembered_close_superseded p row t issues pending r pr : vm_violatedAt row = Some t -> vm_issues row = Some issues -> moved_links issues p ->
  pass_live p = None -> ar_hardRule r = pass_live p -> ar_pr r = Some pr -> accept_closeEligible pending r pr = true ->
  pa_actionClass pending = ac_close -> pp_closeKind (pa_params pending) = Some ck_linked_issue_hard_rule ->
  violated (snd (rule_pass p row)) = true /\ fst <$> stage_linked_issue_close pending r = Some "linked_issue_no_longer_violated".
Proof.
  intros Ht Hi [On N] L Hr Hp El Hc Hk. split.
  - apply merged_violated. right. rewrite Hi, Ht. split; [done |]. split; [by eexists | done].
  - unfold stage_linked_issue_close, class_is, kind_is, rule_violated, params. by rewrite Hp, Hc, Hk, !bool_decide_true, El, Hr, L by done.
Qed.

(** ** Open references *)

(** A pull request's references are refused only when each of them is known to be
    closed or not to exist. *)
Theorem open_reference_exact results : hasVerifiableOpenLinkedIssueReference results = false <->
  results <> [] /\ forall r, r ∈ results -> r = lff_not_found \/ exists facts, r = lff_found facts /\ lf_state facts <> "open".
Proof.
  destruct results as [| r0 rs]; [split; [done | by intros []] |]. set (results := r0 :: rs). change (hasVerifiableOpenLinkedIssueReference results) with
    (if existsb is_open_issue results then true else existsb is_fetch_error results).
  assert (E : (if existsb is_open_issue results then true else existsb is_fetch_error results) = existsb (fun r => is_open_issue r || is_fetch_error r) results).
  { generalize results. clear. induction results as [| r results IH]; [done |]. cbn [existsb]. rewrite <- IH. destruct (is_open_issue r), (is_fetch_error r), (existsb is_open_issue results); done. }
  rewrite E, <- not_true_iff_false, List.existsb_exists. split.
  - intros N. split; [done |]. intros r Hr%list_elem_of_In. destruct r as [facts | |]; [| by left | destruct N; by exists lff_fetch_error].
    right. exists facts. split; [done |]. intros O. destruct N. exists (lff_found facts). split; [done |]. cbn. by rewrite O.
  - intros [_ H] (r & Hr%list_elem_of_In & T). destruct (H r Hr) as [-> | (f & -> & Nf)]; [done |]. cbn in T. rewrite orb_false_r in T. by apply String.eqb_eq in T.
Qed.

(** ** Examples *)

Definition reserve_rules : LinkedIssueHardRulesConfig :=
  mkHardRules hm_block hm_off hm_off hm_off [] [] false true DEFAULT_CLOSE_DELAY_SECONDS.
Definition reserved_issue (n : Z) (token : option string) : GithubAnswer :=
  ga_data (mkPayload (Some n) (Some "open") (Some [pl_text "bug"]) (Some [Some "Acme"]) None None None None).
Definition toy_rule_env (github : Z -> option string -> GithubAnswer) : RuleEnv := mkRuleEnv "acme/widgets" "acme" None github.
Definition toy_pass (settings : option (option LinkedIssueHardRulesConfig)) (github : Z -> option string -> GithubAnswer) (body : string) (links : list Z) : RulePass :=
  mkPass settings (toy_rule_env github) (Some body) links (Some "dev") (Some "token") "day-1" true true.

Definition caught_pass : RulePass := toy_pass (Some (Some reserve_rules)) reserved_issue "Closes #5" [5%Z].
Definition dodge_pass : RulePass := toy_pass (Some (Some reserve_rules)) reserved_issue "no issue" [].
Definition outage_pass : RulePass := toy_pass (Some (Some reserve_rules)) (fun _ _ => ga_other_error) "Closes #5" [5%Z].
Definition fault_pass : RulePass := toy_pass None reserved_issue "Closes #5" [5%Z].
Definition caught_row : ViolationMemory := fst (rule_pass caught_pass NO_MEMORY).

Lemma caught_live : violated (pass_live caught_pass) = true.
Proof. vm_compute. reflexivity. Qed.
Lemma dodge_moves : moved_links [5%Z] dodge_pass.
Proof. split; [vm_compute; reflexivity |]. intros [_ H]. assert (X : 5%Z ∈ [5%Z]) by left. by apply H, elem_of_nil in X. Qed.
Lemma caught_at : vm_violatedAt caught_row = Some "day-1".
Proof. vm_compute. reflexivity. Qed.
Lemma caught_issues : vm_issues caught_row = Some [5%Z].
Proof. vm_compute. reflexivity. Qed.
Lemma same_five : same_issues [5%Z] [5%Z].
Proof. done. Qed.


Lemma exoneration_exact_witness :
  vm_violatedAt (fst (rule_pass outage_pass caught_row)) = None <-> violated (pass_live outage_pass) = false /\ same_issues (default [] (vm_issues caught_row)) [5%Z].
Proof. apply (exoneration_exact outage_pass caught_row "day-1"); [vm_compute; reflexivity | done | exact caught_at]. Defined.

Lemma clean_history_witness : rule_passes [dodge_pass; outage_pass] NO_MEMORY = (NO_MEMORY, [None; None]).
Proof. apply (clean_history [dodge_pass; outage_pass]). repeat constructor; vm_compute; reflexivity. Defined.

Lemma outage_exonerates_witness :
  rule_passes [outage_pass; dodge_pass] caught_row = (NO_MEMORY, [None; None]) /\ violated (snd (rule_pass dodge_pass caught_row)) = true.
Proof.
  apply (outage_exonerates outage_pass dodge_pass caught_row "day-1" [5%Z]);
    [exact caught_at | exact caught_issues | exact same_five | done | vm_compute; reflexivity | done | vm_compute; reflexivity | exact dodge_moves].
Defined.

Lemma settings_fault_forgets_witness :
  rule_passes [fault_pass; dodge_pass] caught_row = (NO_MEMORY, [None; None]) /\ violated (snd (rule_pass dodge_pass caught_row)) = true.
Proof.
  apply (settings_fault_forgets fault_pass dodge_pass caught_row "day-1" [5%Z]);
    [exact caught_at | exact caught_issues | done | done | vm_compute; reflexivity | exact dodge_moves].
Defined.

Definition staged_rule_close : AgentPendingActionRecord :=
  mkPending "row-2" "acme/widgets" 7 1 ac_close auto_with_approval (actionParams (Plan.linked_issue_close admin_input)) None ps_pending None "a".

Lemma remembered_close_superseded_witness :
  violated (snd (rule_pass dodge_pass caught_row)) = true
  /\ fst <$> stage_linked_issue_close staged_rule_close (some_accept "dev" "abc123" false (pass_live dodge_pass)) = Some "linked_issue_no_longer_violated".
Proof.
  eapply (remembered_close_superseded dodge_pass caught_row "day-1" [5%Z]);
    [exact caught_at | exact caught_issues | exact dodge_moves | vm_compute; reflexivity | reflexivity | reflexivity | vm_compute; reflexivity ..].
Defined.
