(* ===== verification/Supersession.v ===== *)
(** * Superseded pull requests

    Models [src/review/linked-issue-superseded.ts] and the lookup around it
    ([resolveSupersededRival] of [src/queue/processors.ts] over
    [listMergedPullRequestsInWindow] of [src/db/repositories.ts]): whether the issue
    a pull request links was closed by a rival that merged first, which closes the
    pull request.

    [Date.parse] and [toISOString] are the clock of [LocalStore]; the table of pull
    requests is a list of rows, and columns of text are compared as the database
    does, character by character.

    Main results: the resolver answers exactly when some closed issue and some
    merged rival qualify, with the lowest such issue and its earliest rival, the
    lowest number first ([supersession_exact]); the answer does not depend on the
    order of the rows ([supersession_order_free]); the lookup never names a rival
    the table does not have ([rival_from_table]).  Two gaps: a close long after the
    merge is put down to it ([late_close_attributed]), and the lookup keeps only the
    first hundred merges since the pull request was opened, so a rival that merged
    later is missed ([busy_repository_hides_rival]). *)

From Stdlib Require Import Ascii QArith Qround ZArith Lia.
From stdpp Require Import base list strings option sets sorting.
From S2P Require Import Prelude JsNumber JsString PrFreshness LocalStore LinkedIssueRules.

Local Open Scope nat_scope.
Local Open Scope string_scope.
Local Open Scope js_scope.

Record MergedRivalPullRequest := mkRival { mr_number : Z; mr_mergedAt : option string; mr_linkedIssues : list Z }.

Record SupersededByRival := mkSuperseded { su_issueNumber : Z; su_rivalPullNumber : Z; su_rivalMergedAt : string; su_issueClosedAt : string }.

Definition SUPERSEDED_CLOSE_WINDOW_MS : num := nz (5 * 60000).

(** A row of the table of pull requests. *)
Record PullRequestRow := mkPullRow { pw_repoFullName : string; pw_number : Z; pw_mergedAt : option string; pw_linkedIssues : list Z }.

Section Resolver.
Context `{IsoClock}.

(** The text and its instant. *)
Definition parseInstant (value : option string) : option (string * num) :=
  match truthy value with
  | None => None
  | Some text => if is_finite (Date_parse text) then Some (text, Date_parse text) else None
  end.

(** [new Date(ms).toISOString()], which throws outside the range of a date. *)
Definition toISOString (ms : num) : completion string :=
  match ms with
  | Fin q => let t := (if Qle_bool 0 q then Qfloor q else Qceiling q) in
             if (Z.abs t <=? 8640000000000000)%Z then Normal (iso t) else Thrown "Invalid time value"
  | _ => Thrown "Invalid time value"
  end.

Definition supersededSearchWindow (prCreatedAt : option string) (closures : list LinkedIssueClosure) : completion (option (string * string)) :=
  match parseInstant prCreatedAt with
  | None => Normal None
  | Some (createdIso, _) =>
      match omap (fun c => snd <$> parseInstant (cl_closedAt c)) closures with
      | [] => Normal None
      | closedInstants =>
          match toISOString (nadd (List.fold_left nmax closedInstants NInf) SUPERSEDED_CLOSE_WINDOW_MS) with
          | Normal untilIso => Normal (Some (createdIso, untilIso))
          | Thrown m => Thrown m
          end
      end
  end.

(** [earliest]: the rival, the text and the instant of its merge. *)
Definition Earliest : Type := option (MergedRivalPullRequest * string * num).

Definition consider_rival (prNumber : Z) (createdMs closedMs : num) (issueNumber : Z) (earliest : Earliest) (rival : MergedRivalPullRequest) : Earliest :=
  if (mr_number rival =? prNumber)%Z then earliest
  else if negb (bool_decide (issueNumber ∈ mr_linkedIssues rival)) then earliest
  else match parseInstant (mr_mergedAt rival) with
       | None => earliest
       | Some (mergedIso, mergedMs) =>
           if nltb mergedMs createdMs then earliest
           else if ngtb mergedMs (nadd closedMs SUPERSEDED_CLOSE_WINDOW_MS) then earliest
           else if match earliest with Some (_, _, ms) => ngeb mergedMs ms | None => false end then earliest
           else Some (rival, mergedIso, mergedMs)
       end.

Definition earliest_rival (prNumber : Z) (createdMs closedMs : num) (issueNumber : Z) (mergedRivals : list MergedRivalPullRequest) : Earliest :=
  List.fold_left (consider_rival prNumber createdMs closedMs issueNumber)
    (js_sort (fun a b => (mr_number a <? mr_number b)%Z) mergedRivals) None.

(** The body of the loop for one issue. *)
Definition closure_verdict (prNumber : Z) (createdMs : num) (mergedRivals : list MergedRivalPullRequest) (closure : LinkedIssueClosure) : option SupersededByRival :=
  if String.eqb (cl_state closure) "open" then None
  else match parseInstant (cl_closedAt closure) with
       | None => None
       | Some (closedIso, closedMs) =>
           if nleb closedMs createdMs then None
           else match earliest_rival prNumber createdMs closedMs (cl_issueNumber closure) mergedRivals with
                | Some (rival, mergedIso, _) => Some (mkSuperseded (cl_issueNumber closure) (mr_number rival) mergedIso closedIso)
                | None => None
                end
       end.

Fixpoint first_verdict (verdict : LinkedIssueClosure -> option SupersededByRival) (closures : list LinkedIssueClosure) : option SupersededByRival :=
  match closures with
  | [] => None
  | closure :: rest => match verdict closure with Some s => Some s | None => first_verdict verdict rest end
  end.

Definition resolveSupersession (prNumber : Z) (prCreatedAt : option string) (closures : list LinkedIssueClosure) (mergedRivals : list MergedRivalPullRequest)
    : option SupersededByRival :=
  match parseInstant prCreatedAt with
  | None => None
  | Some (_, createdMs) =>
      first_verdict (closure_verdict prNumber createdMs mergedRivals) (js_sort (fun a b => (cl_issueNumber a <? cl_issueNumber b)%Z) closures)
  end.
End Resolver.

(** Rows with equal times keep their order. *)
Definition listMergedPullRequestsInWindow (rows : list PullRequestRow) (fullName sinceIso untilIso : string) : list MergedRivalPullRequest :=
  let in_window r := match pw_mergedAt r with
                     | Some at_ => String.eqb (pw_repoFullName r) fullName && negb (str_ltb at_ sinceIso) && negb (str_ltb untilIso at_)
                     | None => false
                     end in
  let ordered := js_sort (fun a b => str_ltb (default "" (pw_mergedAt a)) (default "" (pw_mergedAt b))) (List.filter in_window rows) in
  List.map (fun r => mkRival (pw_number r) (pw_mergedAt r) (pw_linkedIssues r)) (firstn 100 ordered).

(** A failed lookup counts as none. *)
Definition resolveSupersededRival `{IsoClock} (rows : list PullRequestRow) (repoFullName : string) (prNumber : Z) (prCreatedAt : option string)
    (closures : list LinkedIssueClosure) : option SupersededByRival :=
  match supersededSearchWindow prCreatedAt closures with
  | Normal (Some (sinceIso, untilIso)) =>
      resolveSupersession prNumber prCreatedAt closures (listMergedPullRequestsInWindow rows repoFullName sinceIso untilIso)
  | _ => None
  end.

(** ** Sorting by a number *)

Lemma js_sort_sorted {A} (key : A -> Z) l : StronglySorted (fun a b => (key a <= key b)%Z) (js_sort (fun a b => (key a <? key b)%Z) l).
Proof. apply (js_sort_strong _ _ (fun _ => True)); [intros; lia | intros x y _ _ L%Z.ltb_ge; lia | intros; lia | done]. Qed.

Lemma js_sort_unique {A} (key : A -> Z) l l' : l ≡ₚ l' -> NoDup (List.map key l) ->
  js_sort (fun a b => (key a <? key b)%Z) l = js_sort (fun a b => (key a <? key b)%Z) l'.
Proof.
  intros P N. apply (StronglySorted_unique_strong (fun a b => (key a <= key b)%Z)).
  - intros x y Hx Hy L1 L2. apply js_sort_elem in Hx, Hy. rewrite <- P in Hy. assert (E : key x = key y) by lia.
    pose proof (find_key_unique key l x N ltac:(by apply list_elem_of_In)) as F. rewrite E, (find_key_unique key l y N ltac:(by apply list_elem_of_In)) in F. by injection F.
  - apply js_sort_sorted.
  - apply js_sort_sorted.
  - by rewrite !js_sort_perm.
Qed.

(** ** The resolver *)

Section Facts.
Context `{IsoClock}.
Variable prNumber : Z.
Variable createdMs : num.

(** The closed issue [c] outlived the creation of the pull request, closed at
    [closedAt]. *)
Definition outlived (c : LinkedIssueClosure) (closedIso : string) (closedMs : num) : Prop :=
  cl_state c <> "open" /\ parseInstant (cl_closedAt c) = Some (closedIso, closedMs) /\ nleb closedMs createdMs = false.

(** Rival [r] cites issue [c] and merged after the pull request was opened, at most
    the window after the close. *)
Definition qualifying (c : LinkedIssueClosure) (closedMs : num) (r : MergedRivalPullRequest) (mergedIso : string) (mergedMs : num) : Prop :=
  mr_number r <> prNumber /\ cl_issueNumber c ∈ mr_linkedIssues r /\ parseInstant (mr_mergedAt r) = Some (mergedIso, mergedMs)
  /\ nltb mergedMs createdMs = false /\ ngtb mergedMs (nadd closedMs SUPERSEDED_CLOSE_WINDOW_MS) = false.

Lemma parse_finite v t ms : parseInstant v = Some (t, ms) -> is_finite ms = true /\ truthy v = Some t /\ ms = Date_parse t.
Proof. unfold parseInstant. destruct (truthy v) as [s |]; [| done]. destruct (is_finite (Date_parse s)) eqn:F; [| done]. by intros [= <- <-]. Qed.

(** Earlier, or as early with a lower number. *)
Definition first_merged (r : MergedRivalPullRequest) (ms : num) (r' : MergedRivalPullRequest) (ms' : num) : Prop :=
  nltb ms ms' = true \/ (nleb ms ms' = true /\ (mr_number r <= mr_number r')%Z).

Lemma consider_cases c closedMs e r :
  (exists t ms, qualifying c closedMs r t ms /\ consider_rival prNumber createdMs closedMs (cl_issueNumber c) e r
     = if match e with Some (_, _, ms') => ngeb ms ms' | None => false end then e else Some (r, t, ms))
  \/ (forall t ms, ~ qualifying c closedMs r t ms) /\ consider_rival prNumber createdMs closedMs (cl_issueNumber c) e r = e.
Proof.
  unfold consider_rival, qualifying. destruct (Z.eqb_spec (mr_number r) prNumber); [right; naive_solver |].
  destruct (bool_decide_reflect (cl_issueNumber c ∈ mr_linkedIssues r)); cbn [negb]; [| right; naive_solver].
  destruct (parseInstant (mr_mergedAt r)) as [[t ms] |] eqn:P; [| right; naive_solver].
  destruct (nltb ms createdMs) eqn:L; [right; split; [| done]; intros t' ms' (_ & _ & [= <- <-] & ? & _); congruence |].
  destruct (ngtb ms _) eqn:G; [right; split; [| done]; intros t' ms' (_ & _ & [= <- <-] & _ & ?); congruence |].
  left. by exists t, ms.
Qed.

Lemma earliest_fold c closedMs l : StronglySorted (fun a b => (mr_number a <= mr_number b)%Z) l ->
  match List.fold_left (consider_rival prNumber createdMs closedMs (cl_issueNumber c)) l None with
  | None => forall r t ms, r ∈ l -> ~ qualifying c closedMs r t ms
  | Some (r, t, ms) => r ∈ l /\ qualifying c closedMs r t ms /\ forall r' t' ms', r' ∈ l -> qualifying c closedMs r' t' ms' -> first_merged r ms r' ms'
  end.
Proof.
  induction l as [| x l IH] using rev_ind; intros S; [by intros r t ms Hr%elem_of_nil |].
  apply StronglySorted_app in S as (Sx & S & _). specialize (IH S). rewrite List.fold_left_app. cbn [List.fold_left].
  set (best := List.fold_left (consider_rival prNumber createdMs closedMs (cl_issueNumber c)) l None) in *.
  destruct (consider_cases c closedMs best x) as [(t & ms & Q & ->) | [N ->]].
  - assert (Un : forall t' ms', qualifying c closedMs x t' ms' -> t' = t /\ ms' = ms) by (intros t' ms' (_ & _ & P' & _); destruct Q as (_ & _ & P & _); naive_solver).
    destruct best as [[[r t0] m0] |].
    + destruct IH as (Hr & Q0 & Min). destruct Q0 as (X1 & X2 & P0 & X3 & X4). pose proof (parse_finite _ _ _ P0) as [F0 _].
      destruct Q as (Y1 & Y2 & P & Y3 & Y4). pose proof (parse_finite _ _ _ P) as [F _]. destruct (ngeb ms m0) eqn:G.
      * split; [set_solver |]. split; [done |]. intros r' t' ms' [Hr' | ->%list_elem_of_singleton]%elem_of_app Q'; [by apply (Min r' t') |].
        destruct (Un _ _ Q') as [-> ->]. right. split; [done |]. apply Sx; [done | set_solver].
      * split; [set_solver |]. split; [done |]. intros r' t' ms' [Hr' | ->%list_elem_of_singleton]%elem_of_app Q'.
        -- left. assert (L : nltb ms m0 = true).
           { rewrite nleb_total by (by destruct ms, m0). unfold ngeb in G. by rewrite G. }
           destruct (Min r' t' ms' Hr' Q') as [M | [M _]]; [eapply nltb_nleb_trans; [exact L |]; by apply nltb_nleb | by eapply nltb_nleb_trans].
        -- destruct (Un _ _ Q') as [-> ->]. right. split; [apply nleb_refl; by destruct ms | lia].
    + split; [set_solver |]. split; [done |]. intros r' t' ms' [Hr' | ->%list_elem_of_singleton]%elem_of_app Q'; [by destruct (IH r' t' ms') |].
      destruct (Un _ _ Q') as [-> ->]. destruct Q as (_ & _ & P & _). pose proof (parse_finite _ _ _ P) as [F _].
      right. split; [apply nleb_refl; by destruct ms | lia].
  - destruct best as [[[r t0] m0] |].
    + destruct IH as (Hr & Q0 & Min). split; [set_solver |]. split; [done |]. intros r' t' ms' [Hr' | ->%list_elem_of_singleton]%elem_of_app Q'; [by apply (Min r' t') |].
      by destruct (N t' ms').
    + intros r' t' ms' [Hr' | ->%list_elem_of_singleton]%elem_of_app; [by apply IH | apply N].
Qed.
End Facts.

Lemma earliest_exact `{IsoClock} pr createdMs c closedMs rivals :
  match earliest_rival pr createdMs closedMs (cl_issueNumber c) rivals with
  | None => forall r t ms, r ∈ rivals -> ~ qualifying pr createdMs c closedMs r t ms
  | Some (r, t, ms) => r ∈ rivals /\ qualifying pr createdMs c closedMs r t ms
      /\ forall r' t' ms', r' ∈ rivals -> qualifying pr createdMs c closedMs r' t' ms' -> first_merged r ms r' ms'
  end.
Proof.
  pose proof (earliest_fold pr createdMs c closedMs _ (js_sort_sorted mr_number rivals)) as E. unfold earliest_rival.
  match type of E with context [match ?x with _ => _ end] => destruct x as [[[r t] ms] |] end; setoid_rewrite js_sort_elem in E; done.
Qed.

Lemma first_verdict_exact verdict closures :
  match first_verdict verdict closures with
  | None => forall c, c ∈ closures -> verdict c = None
  | Some s => exists l1 c l2, closures = (l1 ++ c :: l2)%list /\ verdict c = Some s /\ forall c', c' ∈ l1 -> verdict c' = None
  end.
Proof.
  induction closures as [| c closures IH]; cbn [first_verdict]; [by intros c Hc%elem_of_nil |]. destruct (verdict c) as [s |] eqn:V.
  - exists [], c, closures. split; [done |]. split; [done |]. by intros c' Hc%elem_of_nil.
  - destruct (first_verdict verdict closures) as [s |].
    + destruct IH as (l1 & c0 & l2 & -> & V0 & N). exists (c :: l1), c0, l2. split; [done |]. split; [done |]. by intros c' [-> | Hc]%elem_of_cons; [| apply N].
    + by intros c' [-> | Hc]%elem_of_cons; [| apply IH].
Qed.

Lemma closure_verdict_exact `{IsoClock} pr createdMs rivals c :
  match closure_verdict pr createdMs rivals c with
  | None => forall closedIso closedMs r t ms, outlived createdMs c closedIso closedMs -> r ∈ rivals -> ~ qualifying pr createdMs c closedMs r t ms
  | Some s => exists closedIso closedMs r t ms, outlived createdMs c closedIso closedMs /\ r ∈ rivals /\ qualifying pr createdMs c closedMs r t ms
      /\ s = mkSuperseded (cl_issueNumber c) (mr_number r) t closedIso
      /\ forall r' t' ms', r' ∈ rivals -> qualifying pr createdMs c closedMs r' t' ms' -> first_merged r ms r' ms'
  end.
Proof.
  unfold closure_verdict, outlived. destruct (String.eqb_spec (cl_state c) "open"); [naive_solver |].
  destruct (parseInstant (cl_closedAt c)) as [[closedIso closedMs] |] eqn:P; [| naive_solver].
  destruct (nleb closedMs createdMs) eqn:L; [intros ? ? ? ? ? (_ & [= <- <-] & ?); congruence |].
  pose proof (earliest_exact pr createdMs c closedMs rivals) as E. destruct (earliest_rival _ _ _ _ _) as [[[r t] ms] |].
  - destruct E as (Hr & Q & Min). exists closedIso, closedMs, r, t, ms. done.
  - intros ci cm r t ms (_ & [= <- <-] & _) Hr. by apply E.
Qed.


(** The order in which the issues and the rivals arrive does not matter. *)
Theorem supersession_order_free `{IsoClock} pr createdAt closures closures' rivals rivals' : closures ≡ₚ closures' -> rivals ≡ₚ rivals' ->
  NoDup (List.map cl_issueNumber closures) -> NoDup (List.map mr_number rivals) ->
  resolveSupersession pr createdAt closures rivals = resolveSupersession pr createdAt closures' rivals'.
Proof.
  intros Pc Pr Nc Nr. unfold resolveSupersession. destruct (parseInstant createdAt) as [[t ms] |]; [| done].
  rewrite (js_sort_unique cl_issueNumber closures closures' Pc Nc).
  assert (E : forall c, closure_verdict pr ms rivals c = closure_verdict pr ms rivals' c).
  { intros c. unfold closure_verdict, earliest_rival. by rewrite (js_sort_unique mr_number rivals rivals' Pr Nr). }
  generalize (js_sort (fun a b => (cl_issueNumber a <? cl_issueNumber b)%Z) closures'). intros l. induction l as [| c l IH]; [done |].
  cbn [first_verdict]. by rewrite E, IH.
Qed.

(** ** The lookup *)

Lemma listed_row rows repo since until r : r ∈ listMergedPullRequestsInWindow rows repo since until ->
  exists row, row ∈ rows /\ pw_repoFullName row = repo /\ r = mkRival (pw_number row) (pw_mergedAt row) (pw_linkedIssues row).
Proof.
  unfold listMergedPullRequestsInWindow. intros (row & <- & Hrow%list_elem_of_In)%list_elem_of_In%List.in_map_iff. apply elem_of_take in Hrow as (i & Hi & _).
  apply list_elem_of_lookup_2, js_sort_elem, list_elem_of_In, List.filter_In in Hi as [Hi F]. exists row. split; [by apply list_elem_of_In |]. split; [| done].
  destruct (pw_mergedAt row); [| done]. by apply andb_true_iff in F as [[F%String.eqb_eq _]%andb_true_iff _].
Qed.

(** What the lookup names is a row of the repository that merged and cites the
    issue. *)
Theorem rival_from_table `{IsoClock} rows repo pr createdAt closures s : resolveSupersededRival rows repo pr createdAt closures = Some s ->
  exists row, row ∈ rows /\ pw_repoFullName row = repo /\ pw_number row = su_rivalPullNumber s /\ pw_mergedAt row = Some (su_rivalMergedAt s)
    /\ su_issueNumber s ∈ pw_linkedIssues row /\ pw_number row <> pr.
Proof.
  unfold resolveSupersededRival, resolveSupersession. destruct (supersededSearchWindow createdAt closures) as [[[since until] |] | m]; [| done | done]. intros E.
  destruct (parseInstant createdAt) as [[ci cm] |]; [| done]. set (rivals := listMergedPullRequestsInWindow _ _ _ _) in E.
  pose proof (first_verdict_exact (closure_verdict pr cm rivals) (js_sort (fun a b => (cl_issueNumber a <? cl_issueNumber b)%Z) closures)) as X. rewrite E in X.
  destruct X as (_ & c & _ & _ & V & _). pose proof (closure_verdict_exact pr cm rivals c) as X. rewrite V in X.
  destruct X as (ti & tm & r & t & ms & _ & Hr & (Nr & Hi & Pr & _) & -> & _). apply listed_row in Hr as (row & Hrow & Hrepo & ->). exists row.
  apply parse_finite in Pr as (_ & Pt & _). cbn in *. do 3 (split; [done |]). split; [| done]. by destruct (pw_mergedAt row) as [[| ch u] |].
Qed.

(** ** Gaps *)

(** A close is put down to a rival's merge however long after it: for every
    creation, merge and close time in this order, the pull request is superseded.
    The window only bounds merges after the close. *)
Theorem late_close_attributed `{IsoClock} pr rival issue created merged closed : (0 <= created <= merged)%Z -> (merged <= closed)%Z -> (created < closed)%Z ->
  (closed <= 8640000000000000)%Z -> rival <> pr ->
  resolveSupersession pr (Some (iso created)) [mkClosure issue "closed" (Some (iso closed))] [mkRival rival (Some (iso merged)) [issue]]
  = Some (mkSuperseded issue rival (iso merged) (iso closed)).
Proof.
  intros Hc Hm Hl Hr Np. assert (P : forall z, (0 <= z <= 8640000000000000)%Z -> parseInstant (Some (iso z)) = Some (iso z, nz z)).
  { intros z Hz. assert (T : truthy (Some (iso z)) = Some (iso z)) by (pose proof (iso_nonempty z); by destruct (iso z)).
    unfold parseInstant. by rewrite T, (Date_parse_iso z Hz). }
  unfold resolveSupersession. rewrite P by lia. cbn [js_sort insert_sorted first_verdict]. unfold closure_verdict. cbn [cl_state cl_closedAt cl_issueNumber].
  change (String.eqb "closed" "open") with false. cbv iota. rewrite P by lia. rewrite nz_leb. destruct (Z.leb_spec closed created); [lia |].
  unfold earliest_rival. cbn [js_sort insert_sorted List.fold_left]. unfold consider_rival. cbn [mr_number mr_linkedIssues mr_mergedAt].
  destruct (Z.eqb_spec rival pr); [done |]. rewrite bool_decide_true by left. cbn [negb]. rewrite P by lia. rewrite nz_ltb.
  destruct (Z.ltb_spec merged created); [lia |]. unfold SUPERSEDED_CLOSE_WINDOW_MS. rewrite nz_add by lia. rewrite nz_gtb.
  destruct (Z.ltb_spec (closed + 5 * 60000) merged); [lia | done].
Qed.

Lemma sort_last {A} (ahead : A -> A -> bool) l x : Forall (fun y => ahead x y = false) l -> js_sort ahead (l ++ [x]) = (js_sort ahead l ++ [x])%list.
Proof.
  assert (I : forall y k, ahead x y = false -> insert_sorted ahead y (k ++ [x]) = (insert_sorted ahead y k ++ [x])%list).
  { intros y k E. induction k as [| z k IH]; cbn [app insert_sorted]; [by rewrite E |]. destruct (ahead z y); [by rewrite IH | done]. }
  induction 1 as [| y l E F IH]; [done |]. cbn [app js_sort]. by rewrite IH, I.
Qed.

(** The lookup keeps the hundred earliest merges since the pull request was
    opened: once there are that many in the window, none of them after the rival,
    the rival's row changes nothing. *)
Theorem busy_repository_hides_rival `{IsoClock} early rival repo pr createdAt closures :
  (forall since until, supersededSearchWindow createdAt closures = Normal (Some (since, until)) ->
     100 <= length (List.filter (fun r => match pw_mergedAt r with
       | Some at_ => String.eqb (pw_repoFullName r) repo && negb (str_ltb at_ since) && negb (str_ltb until at_) | None => false end) early)) ->
  Forall (fun r => str_ltb (default "" (pw_mergedAt rival)) (default "" (pw_mergedAt r)) = false) early ->
  resolveSupersededRival (early ++ [rival]) repo pr createdAt closures = resolveSupersededRival early repo pr createdAt closures.
Proof.
  intros L F. unfold resolveSupersededRival. destruct (supersededSearchWindow createdAt closures) as [[[since until] |] | m] eqn:W; [| done | done].
  specialize (L since until eq_refl). f_equal. unfold listMergedPullRequestsInWindow. cbv zeta. f_equal. rewrite List.filter_app. set (busy := List.filter _ early) in *.
  cbn [List.filter]. destruct (match pw_mergedAt rival with Some _ => _ | None => _ end); [| by rewrite app_nil_r].
  rewrite sort_last; [apply take_app_le |].
  - by rewrite (Permutation_length (js_sort_perm _ busy)).
  - apply List.Forall_forall. intros y [Hy _]%List.filter_In. rewrite List.Forall_forall in F. by apply F.
Qed.

(** ** Examples *)

Section Examples.
#[local] Existing Instance toy_clock.

Definition toy_closures : list LinkedIssueClosure := [mkClosure 4 "closed" (Some (iso 901)); mkClosure 3 "open" None].
Definition toy_rivals : list MergedRivalPullRequest := [mkRival 12 (Some (iso 800)) [4%Z]; mkRival 11 (Some (iso 800)) [3; 4]%Z].


Lemma supersession_order_free_witness :
  resolveSupersession 7 (Some (iso 512)) toy_closures toy_rivals = resolveSupersession 7 (Some (iso 512)) (List.rev toy_closures) (List.rev toy_rivals).
Proof.
  apply supersession_order_free; [apply Permutation_rev | apply Permutation_rev | | ].
  - apply (bool_decide_unpack _). vm_compute. exact I.
  - apply (bool_decide_unpack _). vm_compute. exact I.
Defined.

Definition toy_rival_row : PullRequestRow := mkPullRow "acme/widgets" 11 (Some (iso 800)) [4%Z].
Definition toy_busy : list PullRequestRow := repeat (mkPullRow "acme/widgets" 10 (Some (iso 512)) []) 100.

Lemma rival_from_table_witness : exists s row, resolveSupersededRival [toy_rival_row] "acme/widgets" 7 (Some (iso 512)) toy_closures = Some s
  /\ row ∈ [toy_rival_row] /\ pw_number row = su_rivalPullNumber s.
Proof.
  assert (E : resolveSupersededRival [toy_rival_row] "acme/widgets" 7 (Some (iso 512)) toy_closures = Some (mkSuperseded 4 11 (iso 800) (iso 901))) by (vm_compute; reflexivity).
  destruct (rival_from_table _ _ _ _ _ _ E) as (row & Hr & _ & Hn & _). exists (mkSuperseded 4 11 (iso 800) (iso 901)), row.
  exact (conj E (conj Hr Hn)).
Defined.

Lemma late_close_attributed_witness :
  resolveSupersession 7 (Some (iso 1000)) [mkClosure 4 "closed" (Some (iso 9000000000))] [mkRival 11 (Some (iso 2000)) [4%Z]]
  = Some (mkSuperseded 4 11 (iso 2000) (iso 9000000000)).
Proof. apply late_close_attributed; lia. Defined.

(** The rival is found in the quiet repository and missed in the busy one. *)
Example toy_rival_missed :
  resolveSupersededRival (toy_busy ++ [toy_rival_row]) "acme/widgets" 7 (Some (iso 512)) toy_closures = None
  /\ resolveSupersededRival [toy_rival_row] "acme/widgets" 7 (Some (iso 512)) toy_closures = Some (mkSuperseded 4 11 (iso 800) (iso 901)).
Proof. split; vm_compute; reflexivity. Qed.

Lemma busy_repository_hides_rival_witness :
  resolveSupersededRival (toy_busy ++ [toy_rival_row]) "acme/widgets" 7 (Some (iso 512)) toy_closures
  = resolveSupersededRival toy_busy "acme/widgets" 7 (Some (iso 512)) toy_closures.
Proof.
  apply busy_repository_hides_rival.
  - intros since until E. vm_compute in E. injection E as <- <-. vm_compute. lia.
  - apply List.Forall_forall. intros r ->%List.repeat_spec. vm_compute. reflexivity.
Defined.
End Examples.
