(* ===== verification/RiskControl.v ===== *)
(** * The certified act threshold

    Models [src/review/risk-control.ts]: from adjudicated decisions with their
    confidence, the lowest threshold at which the error rate of the decisions acted
    on is certified, by an exact binomial bound found by bisection and tested at a
    confidence split over the candidates; and the check of a stored result before it
    is published.

    [Math.log] and [Math.exp], whose results the language leaves to the
    implementation, are parameters ([MathLib]); every other operation is on doubles.

    Main results: the incremental scan returns exactly the lowest observed
    confidence that is certified, with the true counts of the decisions at or above
    it, and refuses exactly when none is, or when the labels do not reach the floor
    ([calibration_exact]); the bisection never returns a bound whose tail
    probability is above the level ([bound_never_optimistic]); a result the check
    accepts is a certified one with every number in its range
    ([published_payload_sound]), and a result of the scan in those ranges passes it
    ([calibrated_result_published]). *)

From Stdlib Require Import QArith ZArith Lia.
From stdpp Require Import base list strings option sets sorting.
From S2P Require Import Prelude JsNumber JsString Ledger LocalStore Wilson.

Local Open Scope nat_scope.
Local Open Scope string_scope.
Local Open Scope js_scope.

Class MathLib := {
  Math_log : num -> num;
  Math_exp : num -> num;
}.

(** ** The bound *)

Section Bound.
Context `{MathLib}.

(** [logPmf] and [cdf] after [i - 1] rounds; [k] rounds are left. *)
Fixpoint cdf_loop (k : nat) (i n p logPmf cdf : num) : num :=
  match k with
  | O => cdf
  | S k' =>
      let logPmf := nadd logPmf (nsub (nadd (Math_log (ndiv (nadd (nsub n i) (nz 1)) i)) (Math_log p)) (Math_log (nsub (nz 1) p))) in
      cdf_loop k' (nadd i (nz 1)) n p logPmf (nadd cdf (Math_exp logPmf))
  end.

Definition binomialCdf (k n : nat) (p : num) : num :=
  let logPmf := nmul (nnat n) (Math_log (nsub (nz 1) p)) in
  nmin (nz 1) (cdf_loop k (nz 1) (nnat n) p logPmf (Math_exp logPmf)).

Fixpoint bisect (rounds : nat) (errors n : nat) (delta lo hi : num) : num :=
  match rounds with
  | O => hi
  | S rounds' =>
      let mid := ndiv (nadd lo hi) (nz 2) in
      if ngtb (binomialCdf errors n mid) delta then bisect rounds' errors n delta mid hi else bisect rounds' errors n delta lo mid
  end.

Definition clopperPearsonUpperBound (errors n : nat) (delta : num) : num :=
  if Nat.eqb n 0 then nz 1
  else if Nat.leb n errors then nz 1
  else bisect 60 errors n delta (ndiv (nnat errors) (nnat n)) (nz 1).

Definition minimumCalibrationLabels (alpha delta : num) : num := nceil (ndiv (Math_log delta) (Math_log (nsub (nz 1) alpha))).
End Bound.

(** ** The scan *)

Record CalibrationPair := mkPair { cp_confidence : num; cp_correct : bool; cp_backfilled : bool }.

Inductive CalibrationResult :=
| cr_calibrated (lambda coverageAtLambda : num) (nAtLambda errorsAtLambda : nat) (alpha delta : num) (totalPairs backfilledPairs : nat)
| cr_insufficient_labels (needed : num) (have : nat) (alpha delta : num)
| cr_no_certifiable_threshold (totalPairs bestN : nat) (bestLambda bestUpperBound alpha delta : num).

(** [[...new Set(xs)]] of numbers. *)
Fixpoint num_set_from (seen xs : list num) : list num :=
  match xs with
  | [] => []
  | x :: rest => if existsb (neqb x) seen then num_set_from seen rest else x :: num_set_from (x :: seen) rest
  end.

(** The inner loop: pairs at or below [lambda] are dropped and counted. *)
Fixpoint drop_stratum (lambda : num) (rest : list CalibrationPair) (dropped droppedErrors : nat) : list CalibrationPair * nat * nat :=
  match rest with
  | [] => ([], dropped, droppedErrors)
  | p :: rest' =>
      if nleb (cp_confidence p) lambda then drop_stratum lambda rest' (S dropped) (if cp_correct p then droppedErrors else S droppedErrors)
      else (rest, dropped, droppedErrors)
  end.

(** What the scan keeps for its refusal. *)
Record Best := mkBest { b_lambda : num; b_n : nat; b_upperBound : num }.

Section Scan.
Context `{MathLib}.
Variables (alpha delta testDelta effectiveNeeded : num).
Variables (total totalErrors backfilledPairs : nat).

(** [rest] is what is left of the sorted pairs. *)
Fixpoint scan (candidates : list num) (rest : list CalibrationPair) (dropped droppedErrors : nat) (best : Best) : CalibrationResult :=
  match candidates with
  | [] => cr_no_certifiable_threshold total (b_n best) (b_lambda best) (b_upperBound best) alpha delta
  | lambda :: candidates' =>
      let n := total - dropped in
      let errors := totalErrors - droppedErrors in
      let '(rest', dropped', droppedErrors') := drop_stratum lambda rest dropped droppedErrors in
      if ngeb (nnat n) effectiveNeeded then
        let bound := clopperPearsonUpperBound errors n testDelta in
        let best' := if nltb bound (b_upperBound best) then mkBest lambda n bound else best in
        if nleb bound alpha then cr_calibrated lambda (ndiv (nnat n) (nnat total)) n errors alpha delta total backfilledPairs
        else scan candidates' rest' dropped' droppedErrors' best'
      else scan candidates' rest' dropped' droppedErrors' best
  end.
End Scan.

Definition wrong (p : CalibrationPair) : bool := negb (cp_correct p).

Definition calibrateActThreshold `{MathLib} (pairs : list CalibrationPair) (alpha delta : num) : CalibrationResult :=
  let needed := minimumCalibrationLabels alpha delta in
  if nltb (nnat (length pairs)) needed then cr_insufficient_labels needed (length pairs) alpha delta
  else
    let sorted := js_sort (fun a b => nltb (cp_confidence a) (cp_confidence b)) pairs in
    let candidates := num_set_from [] (List.map cp_confidence sorted) in
    let testDelta := ndiv delta (nnat (length candidates)) in
    let effectiveNeeded := minimumCalibrationLabels alpha testDelta in
    if nltb (nnat (length sorted)) effectiveNeeded then cr_insufficient_labels effectiveNeeded (length sorted) alpha delta
    else scan alpha delta testDelta effectiveNeeded (length sorted) (count wrong sorted) (count cp_backfilled sorted) candidates sorted 0 0
           (mkBest (default NaN (head candidates)) (length sorted) PInf).

(** ** The published payload *)

Record PublishedCalibration := mkPublished { pb_alpha : num; pb_lambda : num; pb_coverageAtLambda : num; pb_nAtLambda : num; pb_delta : num }.

(** [typeof v === "number" && p(v)]. *)
Definition number_in (v : jsval) (p : num -> bool) : option num := match v with JNum x => if p x then Some x else None | _ => None end.

(** An array has none of the fields. *)
Definition validateCalibrationPayload `{MathLib} (value : jsval) : option PublishedCalibration :=
  match get_field value "status" with
  | JStr "calibrated" =>
      alpha ← number_in (get_field value "alpha") (fun x => ngtb x (nz 0) && nleb x (rnd (5 # 100)));
      lambda ← number_in (get_field value "lambda") (fun x => ngeb x (nz 0) && nleb x (nz 1));
      coverage ← number_in (get_field value "coverageAtLambda") (fun x => ngeb x (nz 0) && nleb x (nz 1));
      delta ← number_in (get_field value "delta") (fun x => ngtb x (nz 0) && nleb x (nz 1));
      nAt ← number_in (get_field value "nAtLambda") is_finite;
      if nltb nAt (minimumCalibrationLabels alpha delta) then None else Some (mkPublished alpha lambda coverage nAt delta)
  | _ => None
  end.

(** ** Comparisons of confidences *)

Definition real (x : num) : Prop := is_finite x = true.

Lemma real_not_nan x : real x -> is_nan x = false.
Proof. by destruct x. Qed.
#[local] Hint Resolve real_not_nan : core.

Lemma real_lt x y : real x -> real y -> nltb x y = negb (nleb y x).
Proof. intros. apply nleb_total; auto. Qed.

Lemma real_eq x y : real x -> real y -> neqb x y = nleb x y && nleb y x.
Proof.
  destruct x as [| | | a], y as [| | | b]; try done. intros _ _. apply eq_true_iff_eq. rewrite andb_true_iff, neqb_fin, !nleb_fin. split.
  - intros ->. split; apply Qle_refl.
  - intros [L1 L2]. by apply Qle_antisym.
Qed.

(** ** The strata of the sorted pairs *)

Definition at_least (lambda : num) (p : CalibrationPair) : bool := nleb lambda (cp_confidence p).
Definition n_at (lambda : num) (pairs : list CalibrationPair) : nat := count (at_least lambda) pairs.
Definition errors_at (lambda : num) (pairs : list CalibrationPair) : nat := count (fun p => at_least lambda p && wrong p) pairs.

(** A threshold is certified: enough decisions at or above it, and the bound on
    their error rate within [alpha]. *)
Definition certified `{MathLib} (alpha testDelta effectiveNeeded : num) (pairs : list CalibrationPair) (lambda : num) : bool :=
  ngeb (nnat (n_at lambda pairs)) effectiveNeeded && nleb (clopperPearsonUpperBound (errors_at lambda pairs) (n_at lambda pairs) testDelta) alpha.

Lemma count_ext {A} (p q : A -> bool) l : (forall x, x ∈ l -> p x = q x) -> count p l = count q l.
Proof.
  unfold count. induction l as [| x l IH]; intros E; [done |]. cbn [List.filter]. rewrite (E x) by left.
  destruct (q x); cbn [length]; rewrite IH; [done | | done |]; intros y Hy; apply E; by right.
Qed.

Lemma count_none {A} (p : A -> bool) l : (forall x, x ∈ l -> p x = false) -> count p l = 0.
Proof. intros E. rewrite (count_ext p (fun _ => false) l E). clear. unfold count. induction l as [| x l IH]; [done | exact IH]. Qed.

Lemma count_all {A} (p : A -> bool) l : (forall x, x ∈ l -> p x = true) -> count p l = length l.
Proof. intros E. rewrite (count_ext p (fun _ => true) l E). clear. unfold count. induction l as [| x l IH]; [done |]. cbn [List.filter length]. by rewrite IH. Qed.

Lemma count_perm {A} (p : A -> bool) l l' : l ≡ₚ l' -> count p l = count p l'.
Proof.
  unfold count. induction 1 as [| x l l' P IH | x y l | l1 l2 l3 P1 IH1 P2 IH2]; cbn [List.filter]; [done | | | congruence].
  - destruct (p x); cbn [length]; by rewrite IH.
  - destruct (p x), (p y); done.
Qed.

Definition below (x : CalibrationPair) (y : CalibrationPair) : Prop := nltb (cp_confidence x) (cp_confidence y) = true.
Definition ascending (l : list CalibrationPair) : Prop := StronglySorted (fun a b => nleb (cp_confidence a) (cp_confidence b) = true) l.

(** The counts at the head of a suffix are those of the suffix. *)
Lemma suffix_counts pre x rest : (forall a b, a ∈ pre -> b ∈ x :: rest -> below a b) -> ascending (x :: rest) -> (forall p, p ∈ x :: rest -> real (cp_confidence p)) ->
  n_at (cp_confidence x) (pre ++ x :: rest) = length (x :: rest) /\ errors_at (cp_confidence x) (pre ++ x :: rest) = count wrong (x :: rest).
Proof.
  intros B S F. unfold n_at, errors_at. rewrite !row_count_app.
  assert (Lo : forall p, p ∈ pre -> at_least (cp_confidence x) p = false).
  { intros p Hp. apply nltb_not_nleb, B; [done | left]. }
  assert (Hi : forall p, p ∈ x :: rest -> at_least (cp_confidence x) p = true).
  { intros p [-> | Hp]%elem_of_cons; [apply nleb_refl, real_not_nan, F; left |]. apply StronglySorted_cons in S as [S _]. rewrite Forall_forall in S. by apply S. }
  rewrite (count_none _ pre Lo), (count_all _ _ Hi). split; [done |].
  rewrite (count_none _ pre) by (intros p Hp; by rewrite (Lo p Hp)). apply count_ext. intros p Hp. by rewrite (Hi p Hp).
Qed.

Lemma drop_stratum_spec lambda rest : forall dropped droppedErrors, ascending rest -> exists stratum rest',
  rest = (stratum ++ rest')%list /\ drop_stratum lambda rest dropped droppedErrors = (rest', dropped + length stratum, droppedErrors + count wrong stratum)
  /\ (forall p, p ∈ stratum -> nleb (cp_confidence p) lambda = true) /\ (match rest' with [] => True | p :: _ => nleb (cp_confidence p) lambda = false end).
Proof.
  induction rest as [| p rest IH]; intros d de As; cbn [drop_stratum].
  { exists [], []. cbn. split; [done |]. split; [by rewrite !Nat.add_0_r |]. split; [by intros p Hp%elem_of_nil | done]. }
  apply StronglySorted_cons in As as [_ As]. destruct (nleb (cp_confidence p) lambda) eqn:L.
  - destruct (IH (S d) (if cp_correct p then de else S de) As) as (st & rest' & -> & -> & H1 & H2). exists (p :: st), rest'. split; [done |]. split.
    + f_equal; [f_equal; cbn [length]; lia |]. unfold count, wrong. cbn [List.filter]. destruct (cp_correct p); cbn [negb length]; lia.
    + split; [| done]. by intros q [-> | Hq]%elem_of_cons; [| apply H1].
  - exists [], (p :: rest). split; [done |]. cbn. split; [by rewrite !Nat.add_0_r |]. split; [by intros q Hq%elem_of_nil | done].
Qed.

Lemma num_set_skip seen xs lambda : (forall x, x ∈ xs -> neqb x lambda = false) -> num_set_from (lambda :: seen) xs = num_set_from seen xs.
Proof.
  revert seen. induction xs as [| x xs IH]; intros seen E; [done |]. cbn [num_set_from existsb]. rewrite (E x) by left. cbn [orb].
  assert (E' : forall y, y ∈ xs -> neqb y lambda = false) by (intros y Hy; apply E; by right).
  destruct (existsb (neqb x) seen); [by apply IH |]. f_equal. rewrite <- (IH (x :: seen) E'). clear.
  assert (G : forall s s', (forall y, existsb (neqb y) s = existsb (neqb y) s') -> forall xs, num_set_from s xs = num_set_from s' xs).
  { intros s s' H xs'. revert s s' H. induction xs' as [| y ys IH]; intros s s' H; [done |]. cbn [num_set_from]. rewrite H. destruct (existsb _ s'); [by apply IH |].
    f_equal. apply IH. intros z. cbn [existsb]. by rewrite H. }
  apply G. intros y. cbn [existsb]. by destruct (neqb y x), (neqb y lambda).
Qed.

(** In an ascending list of real confidences, dropping the stratum of the first
    one drops its confidence from the candidates. *)
Lemma stratum_head x rest : ascending (x :: rest) -> (forall p, p ∈ x :: rest -> real (cp_confidence p)) ->
  exists stratum rest', (x :: rest) = (stratum ++ rest')%list /\ x ∈ stratum
    /\ (forall d de, drop_stratum (cp_confidence x) (x :: rest) d de = (rest', d + length stratum, de + count wrong stratum))
    /\ (forall p, p ∈ stratum -> nleb (cp_confidence p) (cp_confidence x) = true /\ nleb (cp_confidence x) (cp_confidence p) = true)
    /\ (forall p, p ∈ rest' -> below x p)
    /\ num_set_from [] (List.map cp_confidence (x :: rest)) = cp_confidence x :: num_set_from [] (List.map cp_confidence rest').
Proof.
  intros As F. assert (Min : forall p, p ∈ x :: rest -> nleb (cp_confidence x) (cp_confidence p) = true).
  { intros p [-> | Hp]%elem_of_cons; [apply nleb_refl, real_not_nan, F; left |]. apply StronglySorted_cons in As as [S _]. rewrite Forall_forall in S. by apply S. }
  destruct (drop_stratum_spec (cp_confidence x) (x :: rest) 0 0 As) as (st & rest' & E & D & Lo & Hi).
  assert (Up : forall p, p ∈ rest' -> below x p).
  { intros p Hp. unfold below. rewrite real_lt by (apply F; first [left | rewrite E; set_solver]). rewrite E in As. apply StronglySorted_app in As as (_ & _ & As).
    destruct rest' as [| q rest']; [by apply elem_of_nil in Hp |]. apply StronglySorted_cons in As as [S _]. rewrite Forall_forall in S.
    destruct (nleb (cp_confidence p) (cp_confidence x)) eqn:L; [| done]. exfalso. apply elem_of_cons in Hp as [-> | Hp]; [congruence |].
    pose proof (nleb_trans _ _ _ (S p Hp) L). congruence. }
  assert (Hx : x ∈ st).
  { destruct st as [| y st]; [| injection E as <- _; left]. cbn in E. subst rest'. rewrite (nleb_refl _ (real_not_nan _ (F x ltac:(left)))) in Hi. done. }
  exists st, rest'. split; [done |]. split; [done |]. split; [| split; [| split; [done |]]].
  - intros d de. destruct (drop_stratum_spec (cp_confidence x) (x :: rest) d de As) as (st2 & rest2 & E2 & D2 & Lo2 & Hi2). rewrite D2.
    assert (Es : st2 = st /\ rest2 = rest').
    { rewrite E in E2. clear -E2 Lo Hi Lo2 Hi2. revert st2 E2 Lo2. induction st as [| y st IH]; intros [| z st2] E2 Lo2; cbn in E2.
      - done.
      - subst rest'. rewrite (Lo2 z) in Hi by left. done.
      - subst rest2. rewrite (Lo y) in Hi2 by left. done.
      - injection E2 as <- E2. destruct (IH (fun p Hp => Lo p (list_elem_of_further _ _ _ Hp)) st2 E2 (fun p Hp => Lo2 p (list_elem_of_further _ _ _ Hp))) as [-> ->]. done. }
    by destruct Es as [-> ->].
  - intros p Hp. split; [by apply Lo |]. apply Min. rewrite E. set_solver.
  - cbn [List.map num_set_from existsb]. f_equal. destruct st as [| y st]; [by apply elem_of_nil in Hx |]. injection E as <- E. rewrite E, List.map_app.
    assert (Sk : forall l, (forall p, p ∈ l -> p ∈ x :: st) -> num_set_from [cp_confidence x] (List.map cp_confidence l ++ List.map cp_confidence rest')
      = num_set_from [cp_confidence x] (List.map cp_confidence rest')).
    { induction l as [| p l IH]; intros Hl; [done |]. cbn [List.map app num_set_from existsb]. rewrite real_eq.
      - rewrite Lo by (apply Hl; left). rewrite Min by (subst rest; assert (p ∈ x :: st) by (apply Hl; left); set_solver). cbn [andb orb]. apply IH. intros q Hq. apply Hl. by right.
      - apply F. subst rest. assert (p ∈ x :: st) by (apply Hl; left). set_solver.
      - apply F. left. }
    rewrite (Sk st) by set_solver. apply num_set_skip. intros c (p & <- & Hp%list_elem_of_In)%list_elem_of_In%List.in_map_iff.
    pose proof (Up p Hp) as U. rewrite real_eq by (apply F; subst rest; set_solver). unfold below in U. rewrite (nltb_not_nleb _ _ U). done.
Qed.

(** Equal confidences are certified together. *)
Lemma certified_same `{MathLib} alpha td eff pairs x y : nleb x y = true -> nleb y x = true -> certified alpha td eff pairs x = certified alpha td eff pairs y.
Proof.
  intros L1 L2. assert (E : forall p, at_least x p = at_least y p).
  { intros p. unfold at_least. apply eq_true_iff_eq. split; intros L; by eapply nleb_trans. }
  unfold certified, n_at, errors_at. rewrite (count_ext (at_least x) (at_least y)) by (intros p _; apply E).
  by rewrite (count_ext (fun p => at_least x p && wrong p) (fun p => at_least y p && wrong p)) by (intros p _; by rewrite E).
Qed.

(** What a scan over the suffix [rest] of the sorted pairs may answer. *)
Definition scan_outcome `{MathLib} (alpha delta td eff : num) (bf : nat) (sorted rest : list CalibrationPair) (result : CalibrationResult) : Prop :=
  match result with
  | cr_calibrated lambda coverage n errors alpha' delta' total bf' => (exists p, p ∈ rest /\ cp_confidence p = lambda)
      /\ n = n_at lambda sorted /\ errors = errors_at lambda sorted /\ coverage = ndiv (nnat n) (nnat (length sorted)) /\ alpha' = alpha /\ delta' = delta
      /\ total = length sorted /\ bf' = bf /\ certified alpha td eff sorted lambda = true
      /\ forall p, p ∈ rest -> nltb (cp_confidence p) lambda = true -> certified alpha td eff sorted (cp_confidence p) = false
  | cr_no_certifiable_threshold total _ _ _ alpha' delta' => total = length sorted /\ alpha' = alpha /\ delta' = delta
      /\ forall p, p ∈ rest -> certified alpha td eff sorted (cp_confidence p) = false
  | cr_insufficient_labels _ _ _ _ => False
  end.

Lemma scan_exact `{MathLib} alpha delta td eff bf sorted : (forall p, p ∈ sorted -> real (cp_confidence p)) -> ascending sorted ->
  forall fuel rest pre best, length rest <= fuel -> sorted = (pre ++ rest)%list -> (forall a b, a ∈ pre -> b ∈ rest -> below a b) ->
  scan_outcome alpha delta td eff bf sorted rest
    (scan alpha delta td eff (length sorted) (count wrong sorted) bf (num_set_from [] (List.map cp_confidence rest)) rest (length pre) (count wrong pre) best).
Proof.
  intros F As. induction fuel as [| fuel IH]; intros rest pre best Lf E B.
  { destruct rest; [| cbn in Lf; lia]. cbn. split; [done |]. split; [done |]. split; [done |]. by intros p Hp%elem_of_nil. }
  destruct rest as [| x rest]; [cbn; split; [done |]; split; [done |]; split; [done |]; by intros p Hp%elem_of_nil |].
  assert (F' : forall p, p ∈ x :: rest -> real (cp_confidence p)) by (intros p Hp; apply F; rewrite E; set_solver).
  assert (As' : ascending (x :: rest)) by (rewrite E in As; by apply StronglySorted_app in As as (_ & _ & As)).
  destruct (suffix_counts pre x rest B As' F') as [En Ee]. rewrite <- E in En, Ee.
  destruct (stratum_head x rest As' F') as (st & rest' & Es & Hx & D & Eq & Up & ->). cbn [scan]. rewrite D.
  assert (Ln : length sorted - length pre = n_at (cp_confidence x) sorted) by (rewrite En, E, length_app; lia).
  assert (Le : count wrong sorted - count wrong pre = errors_at (cp_confidence x) sorted) by (rewrite Ee, E, row_count_app; lia).
  rewrite Ln, Le. set (lambda := cp_confidence x) in *.
  assert (Next : forall best', certified alpha td eff sorted lambda = false ->
    scan_outcome alpha delta td eff bf sorted (x :: rest) (scan alpha delta td eff (length sorted) (count wrong sorted) bf
      (num_set_from [] (List.map cp_confidence rest')) rest' (length pre + length st) (count wrong pre + count wrong st) best')).
  { intros best' C. assert (Cs : forall p, p ∈ st -> certified alpha td eff sorted (cp_confidence p) = false).
    { intros p Hp. destruct (Eq p Hp). by rewrite (certified_same _ _ _ _ (cp_confidence p) lambda). }
    specialize (IH rest' (pre ++ st)%list best'). rewrite length_app, row_count_app in IH.
    assert (Lr : length rest' <= fuel).
    { apply (f_equal length) in Es. rewrite length_app in Es. cbn [length] in *. destruct st; [by apply elem_of_nil in Hx |]. cbn [length] in Es. lia. }
    assert (Ea : sorted = ((pre ++ st) ++ rest')%list) by (rewrite <- app_assoc, <- Es; done).
    assert (Bb : forall a b, a ∈ (pre ++ st)%list -> b ∈ rest' -> below a b).
    { intros a b [Ha | Ha]%elem_of_app Hb; [apply B; [done | rewrite Es; set_solver] |]. destruct (Eq a Ha) as [L _]. unfold below. eapply nleb_nltb_trans; [exact L | by apply Up]. }
    specialize (IH Lr Ea Bb). unfold scan_outcome in *. destruct (scan _ _ _ _ _ _ _ _ _ _ _ _) as [lam cov n errs a d tot b | | tot bn bl bu a d]; [| done |].
    - destruct IH as ((p & Hp & Ep) & H1 & H2 & H3 & H4 & H5 & H6 & H7 & H8 & H9). split; [exists p; split; [rewrite Es; set_solver | done] |].
      do 8 (split; [done |]). rewrite Es. intros q [Hq | Hq]%elem_of_app Lq; [by apply Cs | by apply H9].
    - destruct IH as (H1 & H2 & H3 & H4). do 3 (split; [done |]). rewrite Es. intros q [Hq | Hq]%elem_of_app; [by apply Cs | by apply H4]. }
  destruct (ngeb (nnat (n_at lambda sorted)) eff) eqn:G; [| apply Next; unfold certified; by rewrite G].
  destruct (nleb (clopperPearsonUpperBound (errors_at lambda sorted) (n_at lambda sorted) td) alpha) eqn:L; [| apply Next; unfold certified; by rewrite G, L].
  split; [exists x; split; [left | done] |]. do 7 (split; [done |]). split; [unfold certified; by rewrite G, L |].
  intros p Hp Lt. apply nltb_not_nleb in Lt. exfalso. assert (X : nleb lambda (cp_confidence p) = true); [| congruence].
  apply elem_of_cons in Hp as [-> | Hp]; [apply nleb_refl, real_not_nan, F'; left |]. apply StronglySorted_cons in As' as [S _]. rewrite Forall_forall in S. by apply S.
Qed.

(** ** Calibration *)

Definition by_confidence (pairs : list CalibrationPair) : list CalibrationPair := js_sort (fun a b => nltb (cp_confidence a) (cp_confidence b)) pairs.

(** The number of distinct confidences, over which the level is split. *)
Definition candidates_count (pairs : list CalibrationPair) : nat := length (num_set_from [] (List.map cp_confidence (by_confidence pairs))).

Lemma by_confidence_ascending pairs : (forall p, p ∈ pairs -> real (cp_confidence p)) -> ascending (by_confidence pairs).
Proof.
  intros F. apply (js_sort_strong _ _ (fun p => real (cp_confidence p))); [| | | done].
  - intros x y _ _ L. by apply nltb_nleb.
  - intros x y Rx Ry L. rewrite real_lt in L by done. by apply negb_false_iff in L.
  - intros x y z _ _ _. apply nleb_trans.
Qed.

Lemma n_at_perm lambda l l' : l ≡ₚ l' -> n_at lambda l = n_at lambda l'.
Proof. apply count_perm. Qed.
Lemma errors_at_perm lambda l l' : l ≡ₚ l' -> errors_at lambda l = errors_at lambda l'.
Proof. apply count_perm. Qed.
Lemma certified_perm `{MathLib} alpha td eff l l' lambda : l ≡ₚ l' -> certified alpha td eff l lambda = certified alpha td eff l' lambda.
Proof. intros P. unfold certified. by rewrite (n_at_perm _ _ _ P), (errors_at_perm _ _ _ P). Qed.

(** Either the labels do not reach a floor, or the scan over the sorted pairs
    answers. *)
Lemma calibrate_cases `{MathLib} pairs alpha delta : (forall p, p ∈ pairs -> real (cp_confidence p)) ->
  let td := ndiv delta (nnat (candidates_count pairs)) in let eff := minimumCalibrationLabels alpha td in
  (exists needed, calibrateActThreshold pairs alpha delta = cr_insufficient_labels needed (length pairs) alpha delta /\ nltb (nnat (length pairs)) needed = true
     /\ (needed = minimumCalibrationLabels alpha delta \/ needed = eff))
  \/ scan_outcome alpha delta td eff (count cp_backfilled pairs) (by_confidence pairs) (by_confidence pairs) (calibrateActThreshold pairs alpha delta).
Proof.
  intros F. cbv zeta. unfold calibrateActThreshold. fold (by_confidence pairs). fold (candidates_count pairs).
  pose proof (js_sort_perm (fun a b => nltb (cp_confidence a) (cp_confidence b)) pairs) as P. fold (by_confidence pairs) in P.
  set (td := ndiv delta (nnat (candidates_count pairs))). set (eff := minimumCalibrationLabels alpha td). cbv zeta.
  destruct (nltb (nnat (length pairs)) (minimumCalibrationLabels alpha delta)) eqn:L1; [left; eauto |]. rewrite (Permutation_length P).
  destruct (nltb (nnat (length pairs)) eff) eqn:L2; [left; eauto |]. right. rewrite (count_perm cp_backfilled _ _ P), <- (Permutation_length P).
  apply (scan_exact alpha delta td eff (count cp_backfilled pairs) (by_confidence pairs) ltac:(intros p Hp%js_sort_elem; by apply F) (by_confidence_ascending pairs F)
    (length (by_confidence pairs)) (by_confidence pairs) []); [done | done | by intros a b Ha%elem_of_nil].
Qed.

(** C39: the calibration answers exactly: with a threshold, it is an observed confidence
    that is certified at the split level, no lower one is, and the counts it reports
    are those of the decisions at or above it; it refuses for want of labels only
    below one of the two floors, and for want of a threshold only when no observed
    confidence is certified. *)
Theorem calibration_exact `{MathLib} pairs alpha delta : (forall p, p ∈ pairs -> real (cp_confidence p)) ->
  let td := ndiv delta (nnat (candidates_count pairs)) in let eff := minimumCalibrationLabels alpha td in
  match calibrateActThreshold pairs alpha delta with
  | cr_calibrated lambda coverage n errors alpha' delta' total bf => (exists p, p ∈ pairs /\ cp_confidence p = lambda)
      /\ n = n_at lambda pairs /\ errors = errors_at lambda pairs /\ coverage = ndiv (nnat n) (nnat (length pairs)) /\ alpha' = alpha /\ delta' = delta
      /\ total = length pairs /\ bf = count cp_backfilled pairs /\ certified alpha td eff pairs lambda = true
      /\ forall p, p ∈ pairs -> nltb (cp_confidence p) lambda = true -> certified alpha td eff pairs (cp_confidence p) = false
  | cr_no_certifiable_threshold total _ _ _ _ _ => total = length pairs /\ forall p, p ∈ pairs -> certified alpha td eff pairs (cp_confidence p) = false
  | cr_insufficient_labels needed have _ _ => have = length pairs /\ nltb (nnat (length pairs)) needed = true
      /\ (needed = minimumCalibrationLabels alpha delta \/ needed = eff)
  end.
Proof.
  intros F. cbv zeta. pose proof (js_sort_perm (fun a b => nltb (cp_confidence a) (cp_confidence b)) pairs) as P. fold (by_confidence pairs) in P.
  destruct (calibrate_cases pairs alpha delta F) as [(needed & -> & L & N) | X]; [done |]. unfold scan_outcome in X.
  destruct (calibrateActThreshold pairs alpha delta) as [lam cov n errs a d tot b | | tot bn bl bu a d]; [| done |].
  - rewrite (Permutation_length P), (certified_perm _ _ _ _ _ _ P), (n_at_perm _ _ _ P), (errors_at_perm _ _ _ P) in X.
    destruct X as ((p & Hp%js_sort_elem & Ep) & H1 & H2 & H3 & H4 & H5 & H6 & H7 & H8 & H9).
    split; [by exists p |]. do 8 (split; [done |]). intros q Hq. rewrite <- (certified_perm _ _ _ _ _ _ P). apply H9. by apply js_sort_elem.
  - rewrite (Permutation_length P) in X. destruct X as (H1 & _ & _ & H4). split; [done |]. intros q Hq. rewrite <- (certified_perm _ _ _ _ _ _ P). apply H4. by apply js_sort_elem.
Qed.

(** The bound errs on the safe side: either it is one, or the probability of so few
    errors at that rate, as computed, is not above the level. *)
Theorem bound_never_optimistic `{MathLib} errors n delta :
  clopperPearsonUpperBound errors n delta = nz 1 \/ ngtb (binomialCdf errors n (clopperPearsonUpperBound errors n delta)) delta = false.
Proof.
  unfold clopperPearsonUpperBound. destruct (Nat.eqb n 0); [by left |]. destruct (Nat.leb n errors); [by left |].
  assert (I : forall rounds lo hi, hi = nz 1 \/ ngtb (binomialCdf errors n hi) delta = false ->
    bisect rounds errors n delta lo hi = nz 1 \/ ngtb (binomialCdf errors n (bisect rounds errors n delta lo hi)) delta = false).
  { induction rounds as [| r IH]; intros lo hi Hh; [done |]. cbn [bisect]. cbv zeta.
    destruct (ngtb (binomialCdf errors n (ndiv (nadd lo hi) (nz 2))) delta) eqn:G; [by apply IH |]. apply IH. by right. }
  apply I. by left.
Qed.

(** ** Publication *)

Lemma number_in_some v p x : number_in v p = Some x <-> v = JNum x /\ p x = true.
Proof. unfold number_in. destruct v as [| | | y | | |]; try (split; [done | by intros [? _]]).
  destruct (p y) eqn:E; (split; [intros [=]; by subst | intros [[= <-] ?]; congruence]). Qed.

(** What the check lets through says it is calibrated, every number is in its range
    and its sample reaches the floor of its own level. *)
Theorem published_payload_sound `{MathLib} value p : validateCalibrationPayload value = Some p ->
  get_field value "status" = JStr "calibrated" /\ get_field value "lambda" = JNum (pb_lambda p) /\ get_field value "nAtLambda" = JNum (pb_nAtLambda p)
  /\ nltb (nz 0) (pb_alpha p) = true /\ nleb (pb_alpha p) (rnd (5 # 100)) = true /\ nleb (nz 0) (pb_lambda p) = true /\ nleb (pb_lambda p) (nz 1) = true
  /\ nleb (nz 0) (pb_coverageAtLambda p) = true /\ nleb (pb_coverageAtLambda p) (nz 1) = true /\ nltb (nz 0) (pb_delta p) = true /\ nleb (pb_delta p) (nz 1) = true
  /\ is_finite (pb_nAtLambda p) = true /\ nltb (pb_nAtLambda p) (minimumCalibrationLabels (pb_alpha p) (pb_delta p)) = false.
Proof.
  unfold validateCalibrationPayload. intros V. destruct (get_field value "status") as [| | | | s | |] eqn:St; try done.
  assert (Es : s = "calibrated") by (do 11 (destruct s as [| [[] [] [] [] [] [] [] []] s]; try done)). subst s.
  apply bind_Some in V as (a & [Ea Ra]%number_in_some & V). apply bind_Some in V as (l & [El Rl]%number_in_some & V). apply bind_Some in V as (c & [Ec Rc]%number_in_some & V).
  apply bind_Some in V as (d & [Ed Rd]%number_in_some & V). apply bind_Some in V as (n & [En Rn]%number_in_some & V). destruct (nltb n _) eqn:Fl; [done |]. injection V as <-.
  apply andb_true_iff in Ra as [? ?], Rl as [? ?], Rc as [? ?], Rd as [? ?]. cbn. repeat (split; [done |]). done.
Qed.

(** A result as it is stored. *)
Definition result_payload (r : CalibrationResult) : jsval :=
  match r with
  | cr_calibrated lambda coverage n errors alpha delta total bf =>
      JObj [("status", JStr "calibrated"); ("lambda", JNum lambda); ("coverageAtLambda", JNum coverage); ("nAtLambda", JNum (nnat n)); ("errorsAtLambda", JNum (nnat errors));
            ("alpha", JNum alpha); ("delta", JNum delta); ("totalPairs", JNum (nnat total)); ("backfilledPairs", JNum (nnat bf))]
  | cr_insufficient_labels needed have alpha delta =>
      JObj [("status", JStr "insufficient_labels"); ("needed", JNum needed); ("have", JNum (nnat have)); ("alpha", JNum alpha); ("delta", JNum delta)]
  | cr_no_certifiable_threshold total bestN bestLambda bestUpperBound alpha delta =>
      JObj [("status", JStr "no_certifiable_threshold"); ("totalPairs", JNum (nnat total)); ("bestN", JNum (nnat bestN)); ("bestLambda", JNum bestLambda);
            ("bestUpperBound", JNum bestUpperBound); ("alpha", JNum alpha); ("delta", JNum delta)]
  end.

Definition unit_interval (x : num) : Prop := nleb (nz 0) x = true /\ nleb x (nz 1) = true.

Lemma coverage_unit n total : n <= total -> 0 < total -> unit_interval (ndiv (nnat n) (nnat total)).
Proof.
  intros Le Pos. unfold nnat, nz, unit_interval.
  assert (P : (0 < inject_Z (Z.of_nat total))%Q) by (change 0%Q with (inject_Z 0); rewrite <- Zlt_Qlt; lia).
  assert (Q : (0 <= inject_Z (Z.of_nat n) / inject_Z (Z.of_nat total) <= 1)%Q).
  { split.
    - apply Qle_shift_div_l; [done |]. rewrite Qmult_0_l. change 0%Q with (inject_Z 0). rewrite <- Zle_Qle. lia.
    - apply Qle_shift_div_r; [done |]. rewrite Qmult_1_l, <- Zle_Qle. lia. }
  rewrite ndiv_fin by done. destruct (rnd_unit _ Q) as (v & -> & V1 & V2). by split; apply nleb_fin.
Qed.

(** A threshold the scan certified passes the check, at admissible levels and for
    confidences that are probabilities, when its sample reaches the unsplit floor; a
    refusal never does. *)
Theorem calibrated_result_published `{MathLib} pairs alpha delta : (forall p, p ∈ pairs -> real (cp_confidence p) /\ unit_interval (cp_confidence p)) ->
  nltb (nz 0) alpha = true -> nleb alpha (rnd (5 # 100)) = true -> nltb (nz 0) delta = true -> nleb delta (nz 1) = true ->
  match calibrateActThreshold pairs alpha delta with
  | cr_calibrated lambda coverage n errors _ _ _ _ => nltb (nnat n) (minimumCalibrationLabels alpha delta) = false ->
      validateCalibrationPayload (result_payload (calibrateActThreshold pairs alpha delta)) = Some (mkPublished alpha lambda coverage (nnat n) delta)
  | _ => validateCalibrationPayload (result_payload (calibrateActThreshold pairs alpha delta)) = None
  end.
Proof.
  intros F A1 A2 D1 D2. destruct (calibrate_cases pairs alpha delta (fun p Hp => proj1 (F p Hp))) as [(needed & -> & _) | X]; [done |]. unfold scan_outcome in X.
  destruct (calibrateActThreshold pairs alpha delta) as [lam cov n errs a d tot bf | |]; [| done | done]. intros Fl.
  destruct X as ((p & Hp & <-) & En & _ & Ec & -> & -> & _). assert (Hp' : p ∈ pairs) by (by apply js_sort_elem in Hp). destruct (F p Hp') as [_ [U1 U2]].
  assert (Un : unit_interval cov).
  { rewrite Ec. apply coverage_unit; [rewrite En; apply List.filter_length_le |]. destruct (by_confidence pairs); [by apply elem_of_nil in Hp | cbn; lia]. }
  destruct Un as [C1 C2]. unfold validateCalibrationPayload.
  change (get_field (result_payload _) "status") with (JStr "calibrated"). change (get_field (result_payload _) "alpha") with (JNum alpha).
  change (get_field (result_payload _) "lambda") with (JNum (cp_confidence p)). change (get_field (result_payload _) "coverageAtLambda") with (JNum cov).
  change (get_field (result_payload _) "delta") with (JNum delta). change (get_field (result_payload _) "nAtLambda") with (JNum (nnat n)).
  cbn [number_in]. unfold ngtb, ngeb. rewrite A1, A2, D1, D2, U1, U2, C1, C2. cbn [andb mbind option_bind]. rewrite (nz_finite (Z.of_nat n) : is_finite (nnat n) = true). cbn [mbind option_bind]. by rewrite Fl.
Qed.

(** ** Examples *)

Section Examples.
(** First-order stand-ins for the two functions. *)
Definition toy_math : MathLib := Build_MathLib (fun x => nsub x (nz 1)) (fun x => nmax (nz 0) (nadd (nz 1) x)).
#[local] Existing Instance toy_math.

Definition toy_labels : list CalibrationPair :=
  mkPair (rnd (1 # 4)) false true :: repeat (mkPair (rnd (3 # 4)) true false) 40.
Definition toy_alpha : num := rnd (5 # 100).
Definition toy_delta : num := rnd (1 # 2).
Definition toy_calibration : CalibrationResult := calibrateActThreshold toy_labels toy_alpha toy_delta.

Lemma toy_labels_real : forall p, p ∈ toy_labels -> real (cp_confidence p) /\ unit_interval (cp_confidence p).
Proof. intros p [-> | ->%list_elem_of_In%List.repeat_spec]%elem_of_cons; vm_compute; auto. Qed.

Example toy_calibrated : exists lambda coverage, toy_calibration = cr_calibrated lambda coverage 40 0 toy_alpha toy_delta 41 1 /\ neqb lambda (rnd (3 # 4)) = true.
Proof. eexists _, _. split; vm_compute; reflexivity. Qed.

Lemma calibration_exact_witness : exists lambda, (exists p, p ∈ toy_labels /\ cp_confidence p = lambda) /\ n_at lambda toy_labels = 40
  /\ forall p, p ∈ toy_labels -> nltb (cp_confidence p) lambda = true -> certified toy_alpha (ndiv toy_delta (nnat (candidates_count toy_labels)))
       (minimumCalibrationLabels toy_alpha (ndiv toy_delta (nnat (candidates_count toy_labels)))) toy_labels (cp_confidence p) = false.
Proof.
  pose proof (calibration_exact toy_labels toy_alpha toy_delta (fun p Hp => proj1 (toy_labels_real p Hp))) as X. cbv zeta in X. fold toy_calibration in X.
  destruct toy_calibrated as (lambda & coverage & E & _). rewrite E in X. destruct X as (H1 & H2 & _ & _ & _ & _ & _ & _ & _ & H9).
  exists lambda. exact (conj H1 (conj (eq_sym H2) H9)).
Defined.

Lemma published_payload_sound_witness : exists p, validateCalibrationPayload (result_payload toy_calibration) = Some p /\ nltb (pb_nAtLambda p) (minimumCalibrationLabels (pb_alpha p) (pb_delta p)) = false.
Proof.
  assert (E : exists p, validateCalibrationPayload (result_payload toy_calibration) = Some p) by (eexists; vm_compute; reflexivity). destruct E as [p E].
  exists p. split; [exact E |]. apply (published_payload_sound (result_payload toy_calibration) p E).
Defined.

Lemma calibrated_result_published_witness : exists lambda coverage,
  validateCalibrationPayload (result_payload toy_calibration) = Some (mkPublished toy_alpha lambda coverage (nnat 40) toy_delta).
Proof.
  pose proof (calibrated_result_published toy_labels toy_alpha toy_delta toy_labels_real) as X. fold toy_calibration in X.
  destruct toy_calibrated as (lambda & coverage & E & _). rewrite E in X. exists lambda, coverage. rewrite E. apply X; vm_compute; reflexivity.
Defined.
End Examples.
