(* ===== verification/ManifestPath.v ===== *)
(** * Manifest path patterns

    Models the path matcher of the engine's [focus-manifest/guidance.ts]: a pattern is
    an exact path, a directory, or a glob whose stars cross slashes; a double star
    before a slash stands for any number of whole segments, which the code expands
    into alternatives and matches by a scan without backtracking.

    Main results: the scan decides what a backtracking search would
    ([linear_glob_exact]); a pattern with stars matches exactly its meaning, as long
    as it has at most seven double stars before a slash ([manifest_glob_exact]), and
    never more than that ([manifest_glob_sound]); one without stars matches the path
    itself and what lies below it ([manifest_directory_exact]). *)

From Stdlib Require Import Ascii ZArith Lia.
From stdpp Require Import base list strings option sets.
From S2P Require Import Prelude JsString JsRegex DenyHooks LinkedIssueRefs.

Local Open Scope nat_scope.
Local Open Scope string_scope.
Local Open Scope js_scope.

Definition MAX_GLOBSTAR_SLASH_ALTERNATIVES : nat := 128.

Definition backslash : ascii := ascii_of_nat 92.

Fixpoint slashes_only (s : string) : string :=
  match s with
  | EmptyString => ""
  | String c s' => String (if Ascii.eqb c backslash then "/" else c) (slashes_only s')
  end.

Fixpoint drop_slashes (s : string) : string :=
  match s with
  | String c s' => if Ascii.eqb c "/" then drop_slashes s' else s
  | EmptyString => ""
  end.

Definition normalizePathForMatch (path : string) : string :=
  let path := slashes_only path in
  let path := if is_prefix "./" path then String.substring 2 (String.length path) path else path in
  toLowerCase (drop_slashes path).

(** ** The scan *)

(** [pattern.split(/\*+/)]: [in_run] is set inside a run of stars. *)
Fixpoint split_stars (cur : string) (in_run : bool) (pattern : string) : list string :=
  match pattern with
  | EmptyString => [cur]
  | String c rest =>
      if Ascii.eqb c "*" then if in_run then split_stars cur true rest else cur :: split_stars "" true rest
      else split_stars (cur ++ String c "") false rest
  end.

Fixpoint str_drop (n : nat) (s : string) : string :=
  match n, s with
  | S n', String _ s' => str_drop n' s'
  | _, _ => s
  end.

Definition str_ends_with (s suffix : string) : bool :=
  Nat.leb (String.length suffix) (String.length s) && String.eqb (str_drop (String.length s - String.length suffix) s) suffix.

(** What follows the first occurrence of [part], [path.indexOf(part, idx)] where
    [s] is the path from [idx]. *)
Fixpoint after_first (part s : string) : option string :=
  if is_prefix part s then Some (str_drop (String.length part) s)
  else match s with
       | EmptyString => None
       | String _ s' => after_first part s'
       end.

Fixpoint scan_parts (middles : list string) (s : string) : option string :=
  match middles with
  | [] => Some s
  | part :: rest => match after_first part s with Some s' => scan_parts rest s' | None => None end
  end.

Definition linearGlobMatcher (pattern path : string) : bool :=
  let parts := split_stars "" false pattern in
  let first := default "" (head parts) in
  let last_ := List.last parts "" in
  let middles := List.filter (fun part => negb (str_empty part)) (List.removelast (List.tl parts)) in
  if negb (is_prefix first path) || negb (str_ends_with path last_) then false
  else match scan_parts middles (str_drop (String.length first) path) with
       | Some rest => Nat.leb (String.length last_) (String.length rest)
       | None => false
       end.

(** ** Alternatives *)

(** One round for a double star before a slash. *)
Definition expand_globstar (alternatives : list string) : list string :=
  List.app (List.map (fun prefix => prefix ++ "*/") alternatives)
    (if Nat.leb (length alternatives * 2) MAX_GLOBSTAR_SLASH_ALTERNATIVES then List.rev alternatives else []).

Fixpoint expand_from (alternatives : list string) (pattern : string) : list string :=
  match pattern with
  | EmptyString => alternatives
  | String c rest =>
      if is_prefix "**/" pattern then
        match rest with
        | String _ (String _ rest') => expand_from (expand_globstar alternatives) rest'
        | _ => alternatives
        end
      else expand_from (List.map (fun a => a ++ String c "") alternatives) rest
  end.

Definition expandGlobstarSlash (pattern : string) : list string := expand_from [""] pattern.

Definition has_star (s : string) : bool := negb (str_forallb (fun c => negb (Ascii.eqb c "*")) s).

Definition compileManifestPathMatcher (pattern normalizedPath : string) : bool :=
  let normalizedPattern := normalizePathForMatch pattern in
  if str_empty normalizedPattern then false
  else if has_star normalizedPattern
  then existsb (fun globbed => if has_star globbed then linearGlobMatcher globbed normalizedPath else String.eqb normalizedPath globbed)
         (expandGlobstarSlash normalizedPattern)
  else let dirPattern := if str_ends_with normalizedPattern "/" then normalizedPattern else normalizedPattern ++ "/" in
       String.eqb normalizedPath normalizedPattern || is_prefix dirPattern normalizedPath.

Definition matchesManifestPath (path pattern : string) : bool :=
  let normalizedPath := normalizePathForMatch path in
  if str_empty normalizedPath then false else compileManifestPathMatcher pattern normalizedPath.

Definition matchedPatterns (paths patterns : list string) : list string :=
  let normalizedPaths := List.filter (fun p => negb (str_empty p)) (List.map normalizePathForMatch paths) in
  List.filter (fun pattern => existsb (compileManifestPathMatcher pattern) normalizedPaths) patterns.

Example manifest_examples :
  matchesManifestPath "./Src/Index.ts" "src" = true /\ matchesManifestPath "srcs/index.ts" "src" = false
  /\ matchesManifestPath "safe.ts" "**/safe.ts" = true /\ matchesManifestPath "a/b/safe.ts" "**/safe.ts" = true
  /\ matchesManifestPath "unsafe.ts" "**/safe.ts" = false /\ matchesManifestPath "src/a/b.test.ts" "src/*.test.ts" = true.
Proof. vm_compute. auto 10. Qed.

(** ** Meaning of a glob: a star stands for any run of characters *)

Inductive glob_covers : string -> string -> Prop :=
| gc_nil : glob_covers "" ""
| gc_char c p s : c <> "*"%char -> glob_covers p s -> glob_covers (String c p) (String c s)
| gc_star u p s : glob_covers p s -> glob_covers (String "*" p) (u ++ s).

Lemma glob_nil s : glob_covers "" s <-> s = "".
Proof. split; [by inversion 1 | intros ->; constructor]. Qed.

Lemma glob_char c p s : c <> "*"%char -> glob_covers (String c p) s <-> exists t, s = String c t /\ glob_covers p t.
Proof. intros N. split; [inversion 1; subst; eauto; done | intros (t & -> & G); by constructor]. Qed.

Lemma glob_star p s : glob_covers (String "*" p) s <-> exists u t, s = u ++ t /\ glob_covers p t.
Proof. split; [inversion 1; subst; eauto; done | intros (u & t & -> & G); by constructor]. Qed.

Lemma glob_app a b s : glob_covers (a ++ b) s <-> exists s1 s2, s = s1 ++ s2 /\ glob_covers a s1 /\ glob_covers b s2.
Proof.
  revert s. induction a as [| c a IH]; intros s.
  - change ("" ++ b) with b. split; [intros G; exists "", s; by split; [| split; [constructor |]] |]. intros (s1 & s2 & -> & ->%glob_nil & G). done.
  - rewrite string_app_cons. destruct (decide (c = "*"%char)) as [-> | N].
    + rewrite glob_star. setoid_rewrite IH. setoid_rewrite glob_star. split.
      * intros (u & t & -> & s1 & s2 & -> & G1 & G2). exists (u ++ s1), s2. rewrite string_app_assoc. eauto 10.
      * intros (s1 & s2 & -> & (u & t & -> & G1) & G2). exists u, (t ++ s2). rewrite string_app_assoc. eauto 10.
    + rewrite glob_char by done. setoid_rewrite IH. split.
      * intros (t & -> & s1 & s2 & -> & G1 & G2). exists (String c s1), s2. split; [done |]. split; [by constructor | done].
      * intros (s1 & s2 & -> & (t & -> & G1)%glob_char & G2); [| done]. exists (t ++ s2). split; [done |]. eauto.
Qed.

Lemma glob_literal a s : has_star a = false -> glob_covers a s <-> s = a.
Proof.
  unfold has_star. rewrite negb_false_iff. revert s. induction a as [| c a IH]; intros s F; [apply glob_nil |]. cbn [str_forallb] in F.
  apply andb_true_iff in F as [Fc%negb_true_iff%Ascii.eqb_neq F]. rewrite glob_char by done. setoid_rewrite (fun s => IH s F). naive_solver.
Qed.

(** ** The parts of a glob *)

(** [s] is the parts in order with anything between them. *)
Fixpoint parts_match (parts : list string) (s : string) : Prop :=
  match parts with
  | [] => False
  | [x] => s = x
  | x :: rest => exists u t, s = x ++ u ++ t /\ parts_match rest t
  end.

Lemma split_stars_nonempty cur run p : split_stars cur run p <> [].
Proof. revert cur run. induction p as [| c p IH]; intros cur run; cbn [split_stars]; [done |]. destruct (Ascii.eqb c "*"), run; try done; apply IH. Qed.

Lemma parts_match_cons x rest s : rest <> [] -> parts_match (x :: rest) s <-> exists u t, s = x ++ u ++ t /\ parts_match rest t.
Proof. by destruct rest. Qed.

Lemma split_stars_exact p : (forall cur s, parts_match (split_stars cur false p) s <-> exists t, s = cur ++ t /\ glob_covers p t)
  /\ forall s, (exists u t, s = u ++ t /\ parts_match (split_stars "" true p) t) <-> exists u t, s = u ++ t /\ glob_covers p t.
Proof.
  induction p as [| c p [A B]]; cbn [split_stars].
  - split; [intros cur s; cbn; split; [intros ->; exists ""; split; [by rewrite string_app_nil_r | constructor] | intros (t & -> & ->%glob_nil); apply string_app_nil_r] |].
    intros s. cbn. setoid_rewrite glob_nil. done.
  - destruct (Ascii.eqb_spec c "*") as [-> | N].
    + split.
      * intros cur s. rewrite parts_match_cons by apply split_stars_nonempty. setoid_rewrite glob_star. split.
        -- intros (u & t & -> & P). exists (u ++ t). split; [done |]. apply B. eauto.
        -- intros (t & -> & u & v & -> & G). destruct (proj2 (B (u ++ v)) ltac:(eauto)) as (w & x & E & P). exists w, x. by rewrite E.
      * intros s. rewrite B. setoid_rewrite glob_star. split.
        -- intros (u & t & -> & G). exists "", (u ++ t). split; [done |]. eauto.
        -- intros (u & t & -> & v & w & -> & G). exists (u ++ v), w. by rewrite string_app_assoc.
    + assert (C : forall cur s, (exists t, s = (cur ++ String c "") ++ t /\ glob_covers p t) <-> exists t, s = cur ++ t /\ glob_covers (String c p) t).
      { intros cur s. setoid_rewrite glob_char; [| done]. setoid_rewrite string_app_assoc. split; [intros (t & -> & G); exists (String c t); split; [done | by eauto] | intros (t & -> & u & -> & G); by exists u]. }
      split; [intros cur s; by rewrite A, C |]. intros s. setoid_rewrite A. change ("" ++ String c "") with (String c ""). setoid_rewrite glob_char; [| done].
      split; intros (u & t & -> & v & -> & G); exists u, (String c v); eauto.
Qed.

(** ** The scan finds the parts *)

Fixpoint fits (middles : list string) (last_ : string) (s : string) : Prop :=
  match middles with
  | [] => exists u, s = u ++ last_
  | part :: rest => exists u t, s = u ++ part ++ t /\ fits rest last_ t
  end.

Lemma fits_more middles last_ u s : fits middles last_ s -> fits middles last_ (u ++ s).
Proof.
  destruct middles as [| part rest]; cbn.
  - intros [v ->]. exists (u ++ v). by rewrite string_app_assoc.
  - intros (v & t & -> & F). exists (u ++ v), t. by rewrite string_app_assoc.
Qed.

Lemma fits_parts rest s : rest <> [] -> (exists u t, s = u ++ t /\ parts_match rest t) <-> fits (List.removelast rest) (List.last rest "") s.
Proof.
  revert s. induction rest as [| x rest IH]; intros s N; [done |]. destruct rest as [| y rest].
  - cbn. split; [intros (u & t & -> & ->); eauto | intros (u & ->); eauto].
  - specialize (IH). change (List.removelast (x :: y :: rest)) with (x :: List.removelast (y :: rest)). change (List.last (x :: y :: rest) "") with (List.last (y :: rest) "").
    cbn [fits]. setoid_rewrite (fun t => iff_sym (IH t ltac:(done))). setoid_rewrite (parts_match_cons x (y :: rest)); [| done]. split.
    + intros (u & t & -> & v & w & -> & P). exists u, (v ++ w). eauto.
    + intros (u & t & -> & v & w & -> & P). exists u, (x ++ v ++ w). eauto.
Qed.

Lemma fits_nonempty middles last_ s : fits middles last_ s <-> fits (List.filter (fun part => negb (str_empty part)) middles) last_ s.
Proof.
  revert s. induction middles as [| part rest IH]; intros s; [done |]. cbn [List.filter fits]. destruct part as [| c part]; cbn [str_empty negb].
  - rewrite <- IH. split; [intros (u & t & -> & F); by apply fits_more | intros F; by exists "", s].
  - cbn [fits]. setoid_rewrite IH. done.
Qed.

Lemma str_drop_app a b : str_drop (String.length a) (a ++ b) = b.
Proof. induction a as [| c a IH]; [by destruct b | exact IH]. Qed.

Lemma after_first_sound part s r : after_first part s = Some r -> exists u, s = u ++ part ++ r.
Proof.
  revert r. induction s as [| c s IH]; intros r; cbn [after_first].
  - destruct (is_prefix part "") eqn:P; [| done]. apply is_prefix_iff in P as (b & ->). intros [= <-]. exists "". by rewrite str_drop_app.
  - destruct (is_prefix part (String c s)) eqn:P.
    + apply is_prefix_iff in P as (b & ->). intros [= <-]. exists "". by rewrite str_drop_app.
    + intros (u & ->)%IH. by exists (String c u).
Qed.

(** The longer of two endings ends in the shorter. *)
Lemma app_suffix y : forall x t b, x ++ t = y ++ b -> String.length t <= String.length b -> exists v, b = v ++ t.
Proof.
  induction y as [| c y IH]; intros x t b E L; [by exists x |]. destruct x as [| d x].
  - change ("" ++ t) with t in E. subst t. rewrite string_app_cons in L. cbn [String.length] in L. rewrite string_length_app in L. lia.
  - rewrite !string_app_cons in E. injection E as _ E. by apply (IH x).
Qed.

(** The first occurrence leaves the most. *)
Lemma after_first_most part u t : exists v, after_first part (u ++ part ++ t) = Some (v ++ t).
Proof.
  induction u as [| c u IH].
  - exists "". change ("" ++ part ++ t) with (part ++ t). assert (P : is_prefix part (part ++ t) = true) by (apply is_prefix_iff; eauto).
    assert (G : forall s, is_prefix part s = true -> after_first part s = Some (str_drop (String.length part) s)) by (intros [| c s] Hp; cbn [after_first]; by rewrite Hp).
    rewrite (G _ P). by rewrite str_drop_app.
  - rewrite string_app_cons. cbn [after_first]. destruct (is_prefix part (String c (u ++ part ++ t))) eqn:P; [| done].
    apply is_prefix_iff in P as (b & Eb). rewrite Eb, str_drop_app. destruct (app_suffix part (String c u ++ part) t b) as [v ->]; [| | by exists v].
    + by rewrite string_app_assoc, string_app_cons.
    + apply (f_equal String.length) in Eb. cbn [String.length] in Eb. rewrite !string_length_app in Eb. lia.
Qed.

Lemma scan_parts_sound middles : forall s r, scan_parts middles s = Some r -> exists x, s = x ++ r.
Proof.
  induction middles as [| part rest IH]; intros s r; cbn [scan_parts]; [intros [= ->]; by exists "" |].
  destruct (after_first part s) as [s' |] eqn:A; [| done]. apply after_first_sound in A as (u & ->). intros (x & ->)%IH. exists (u ++ part ++ x). by rewrite !string_app_assoc.
Qed.

Lemma scan_parts_exact middles last_ : forall s, fits middles last_ s <-> exists r u, scan_parts middles s = Some r /\ r = u ++ last_.
Proof.
  induction middles as [| part rest IH]; intros s; cbn [fits scan_parts]; [split; [intros [u ->]; eauto | intros (r & u & [= <-] & ->); eauto] |]. split.
  - intros (u & t & -> & F). destruct (after_first_most part u t) as [v ->]. apply IH. by apply fits_more.
  - intros (r & u & E & ->). destruct (after_first part s) as [s' |] eqn:A; [| done]. apply after_first_sound in A as (v & ->). exists v, s'. split; [done |]. apply IH. eauto.
Qed.

Lemma str_ends_with_iff s x : str_ends_with s x = true <-> exists u, s = u ++ x.
Proof.
  unfold str_ends_with. rewrite andb_true_iff, Nat.leb_le, String.eqb_eq. split.
  - intros [L E]. assert (D : forall n s, exists u, s = u ++ str_drop n s).
    { clear. induction n as [| n IH]; intros s; [by exists "" |]. destruct s as [| c s]; [by exists "" |]. cbn [str_drop]. destruct (IH s) as [u Eu]. exists (String c u).
      rewrite string_app_cons. by rewrite <- Eu. }
    destruct (D (String.length s - String.length x) s) as [u Eu]. rewrite E in Eu. by exists u.
  - intros [u ->]. rewrite string_length_app. split; [lia |]. replace (String.length u + String.length x - String.length x) with (String.length u) by lia. apply str_drop_app.
Qed.

(** The scan for the first and the last part and, greedily, for those between
    decides whether the glob covers the path. *)
Theorem linear_glob_exact pattern path : has_star pattern = true -> linearGlobMatcher pattern path = true <-> glob_covers pattern path.
Proof.
  intros St. pose proof (proj1 (split_stars_exact pattern) "" path) as A. unfold linearGlobMatcher.
  destruct (split_stars "" false pattern) as [| first rest] eqn:Sp; [by destruct (split_stars_nonempty "" false pattern) |].
  assert (N : rest <> []).
  { intros ->. revert St Sp. unfold has_star. rewrite negb_true_iff. generalize "" at 1. clear. induction pattern as [| c p IH]; intros cur F E; [done |]. cbn [split_stars str_forallb] in *.
    destruct (Ascii.eqb c "*"); cbn [negb andb] in F; [injection E as _ E; by destruct (split_stars_nonempty "" true p) | by apply (IH (cur ++ String c ""))]. }
  assert (Gp : glob_covers pattern path <-> exists t, path = first ++ t /\ fits (List.filter (fun part => negb (str_empty part)) (List.removelast rest)) (List.last rest "") t).
  { transitivity (parts_match (first :: rest) path); [rewrite A; split; [by exists path | by intros (t & -> & G)] |]. rewrite parts_match_cons by done. setoid_rewrite <- fits_nonempty. setoid_rewrite <- (fun t => fits_parts rest t N).
    split; [intros (u & t & -> & P); exists (u ++ t); by eauto | intros (t & -> & u & v & -> & P); by exists u, v]. }
  rewrite Gp. change (default "" (head (first :: rest))) with first. change (List.tl (first :: rest)) with rest. replace (List.last (first :: rest) "") with (List.last rest "") by (by destruct rest).
  destruct (is_prefix first path) eqn:P; cbn [negb orb].
  - apply is_prefix_iff in P as (t & ->). rewrite str_drop_app. destruct (str_ends_with (first ++ t) (List.last rest "")) eqn:E; cbn [negb].
    + apply str_ends_with_iff in E as (x & Ex). destruct (scan_parts _ t) as [r |] eqn:Sc.
      * rewrite Nat.leb_le. split.
        -- intros L. exists t. split; [done |]. apply scan_parts_exact. apply scan_parts_sound in Sc as Sx. destruct Sx as (y & ->).
           destruct (app_suffix (first ++ y) x (List.last rest "") r) as [v ->]; [by rewrite string_app_assoc | done | by exists (v ++ List.last rest ""), v].
        -- intros (t' & Et & (r' & u & Sc' & ->)%scan_parts_exact). assert (t' = t) as -> by (clear -Et; induction first as [| c f IH]; [done | rewrite !string_app_cons in Et; injection Et as Et; auto]).
           rewrite Sc in Sc'. injection Sc' as ->. rewrite string_length_app. lia.
      * split; [done |]. intros (t' & Et & (r' & u & Sc' & ->)%scan_parts_exact). assert (t' = t) as -> by (clear -Et; induction first as [| c f IH]; [done | rewrite !string_app_cons in Et; injection Et as Et; auto]).
        congruence.
    + split; [done |]. intros (t' & Et & (r' & u & Sc' & ->)%scan_parts_exact). apply scan_parts_sound in Sc' as (y & ->). rewrite <- not_true_iff_false in E. destruct E.
      apply str_ends_with_iff. exists (first ++ y ++ u). by rewrite Et, !string_app_assoc.
  - split; [done |]. intros (t & -> & _). rewrite <- not_true_iff_false in P. destruct P. apply is_prefix_iff. eauto.
Qed.

Lemma linear_glob_exact_witness : linearGlobMatcher "src/*.test.*" "src/a/b.test.ts" = true /\ glob_covers "src/*.test.*" "src/a/b.test.ts".
Proof.
  assert (L : linearGlobMatcher "src/*.test.*" "src/a/b.test.ts" = true) by (vm_compute; reflexivity). split; [exact L |].
  apply (linear_glob_exact "src/*.test.*" "src/a/b.test.ts"); [vm_compute; reflexivity | exact L].
Defined.

(** ** Meaning of a manifest pattern: a double star before a slash also covers nothing *)

Inductive manifest_covers : string -> string -> Prop :=
| mc_nil : manifest_covers "" ""
| mc_char c p s : c <> "*"%char -> manifest_covers p s -> manifest_covers (String c p) (String c s)
| mc_star u p s : is_prefix "**/" (String "*" p) = false -> manifest_covers p s -> manifest_covers (String "*" p) (u ++ s)
| mc_root p s : manifest_covers p s -> manifest_covers ("**/" ++ p) s
| mc_below u p s : manifest_covers p s -> manifest_covers ("**/" ++ p) (u ++ String "/" s).

Fixpoint globstars (pattern : string) : nat :=
  match pattern with
  | EmptyString => 0
  | String _ rest =>
      if is_prefix "**/" pattern then
        match rest with
        | String _ (String _ rest') => S (globstars rest')
        | _ => 0
        end
      else globstars rest
  end.

Lemma pattern_ind (P : string -> Prop) :
  P "" -> (forall p, P p -> P ("**/" ++ p)) -> (forall c p, is_prefix "**/" (String c p) = false -> P p -> P (String c p)) -> forall p, P p.
Proof.
  intros Hn Hg Hc p. remember (String.length p) as n eqn:L. assert (Le : String.length p <= n) by lia. clear L. revert p Le.
  induction n as [| n IH]; intros [| c p] Le; cbn [String.length] in Le; try done; [lia |]. destruct (is_prefix "**/" (String c p)) eqn:G.
  - apply is_prefix_iff in G as (q & E). rewrite E. apply Hg, IH. apply (f_equal String.length) in E. rewrite string_length_app in E. cbn [String.length] in E. lia.
  - apply Hc; [done |]. apply IH. lia.
Qed.

Lemma globstar_cons p : "**/" ++ p = String "*" (String "*" (String "/" p)).
Proof. reflexivity. Qed.

Lemma globstar_prefix p : is_prefix "**/" ("**/" ++ p) = true.
Proof. apply is_prefix_iff. eauto. Qed.

Lemma expand_from_globstar alts p : expand_from alts ("**/" ++ p) = expand_from (expand_globstar alts) p.
Proof. pose proof (globstar_prefix p) as G. rewrite ?globstar_cons in *. cbn [expand_from]. by rewrite G. Qed.

Lemma expand_from_char alts c p : is_prefix "**/" (String c p) = false -> expand_from alts (String c p) = expand_from (List.map (fun a => a ++ String c "") alts) p.
Proof. intros G. cbn [expand_from]. by rewrite G. Qed.

Lemma globstars_globstar p : globstars ("**/" ++ p) = S (globstars p).
Proof. pose proof (globstar_prefix p) as G. rewrite ?globstar_cons in *. cbn [globstars]. by rewrite G. Qed.

Lemma globstars_char c p : is_prefix "**/" (String c p) = false -> globstars (String c p) = globstars p.
Proof. intros G. cbn [globstars]. by rewrite G. Qed.

Lemma covers_nil s : manifest_covers "" s <-> s = "".
Proof. split; [| intros ->; constructor]. by inversion 1. Qed.

Lemma covers_globstar p s : manifest_covers ("**/" ++ p) s <-> manifest_covers p s \/ exists u t, s = u ++ String "/" t /\ manifest_covers p t.
Proof.
  split; [| intros [C | (u & t & -> & C)]; by constructor]. pose proof (globstar_prefix p) as G. rewrite ?globstar_cons in *.
  inversion 1; subst; eauto; try done.
Qed.

(** Outside a double star before a slash a character means what it means in a glob. *)
Lemma covers_char c p s : is_prefix "**/" (String c p) = false -> manifest_covers (String c p) s <-> exists s1 s2, s = s1 ++ s2 /\ glob_covers (String c "") s1 /\ manifest_covers p s2.
Proof.
  intros G. destruct (decide (c = "*"%char)) as [-> | N].
  - setoid_rewrite glob_star. setoid_rewrite glob_nil. split.
    + inversion 1 as [| | u ? t _ C | q ? C E | u q ? C E]; subst; [done | exists u, t; split; [done |]; split; [exists u, ""; by rewrite string_app_nil_r | done] | |]; done.
    + intros (s1 & s2 & -> & (u & t & -> & ->) & C). rewrite string_app_nil_r. by constructor.
  - setoid_rewrite glob_char; [| done]. setoid_rewrite glob_nil. split.
    + inversion 1; subst; try done. eexists (String c ""), _. split; [reflexivity |]. eauto.
    + intros (s1 & s2 & -> & (t & -> & ->) & C). by constructor.
Qed.

(** ** The alternatives mean the pattern *)

Definition some_covers (alternatives : list string) (s : string) : Prop := exists a, List.In a alternatives /\ glob_covers a s.

Lemma some_covers_char alts c s :
  some_covers (List.map (fun a => a ++ String c "") alts) s <-> exists s1 s2, s = s1 ++ s2 /\ some_covers alts s1 /\ glob_covers (String c "") s2.
Proof.
  unfold some_covers. split.
  - intros (? & (a & <- & Ha)%in_map_iff & (s1 & s2 & -> & G1 & G2)%glob_app). eauto 10.
  - intros (s1 & s2 & -> & (a & Ha & G1) & G2). exists (a ++ String c ""). split; [apply in_map_iff; eauto |]. apply glob_app. eauto.
Qed.

Lemma glob_below u : glob_covers "*/" (u ++ "/").
Proof. apply gc_star. constructor; [done | constructor]. Qed.

Lemma glob_below_inv s : glob_covers "*/" s -> exists u, s = u ++ "/".
Proof. intros (u & t & -> & (v & -> & ->%glob_nil)%glob_char)%glob_star; [eauto | done]. Qed.

(** A round adds the alternatives with a directory and, below the bound, keeps those without. *)
Lemma some_covers_globstar alts s :
  some_covers (expand_globstar alts) s <->
  (exists s1 u, s = s1 ++ u ++ "/" /\ some_covers alts s1) \/ length alts * 2 <= MAX_GLOBSTAR_SLASH_ALTERNATIVES /\ some_covers alts s.
Proof.
  unfold some_covers, expand_globstar. setoid_rewrite in_app_iff. setoid_rewrite in_map_iff. split.
  - intros (? & [(a & <- & Ha) | Ha] & G).
    + apply glob_app in G as (s1 & s2 & -> & G1 & (u & ->)%glob_below_inv). left. eauto 10.
    + destruct (Nat.leb_spec (length alts * 2) MAX_GLOBSTAR_SLASH_ALTERNATIVES) as [L | L]; [| done]. apply in_rev in Ha. right. eauto.
  - intros [(s1 & u & -> & a & Ha & G) | (L & a & Ha & G)].
    + exists (a ++ "*/"). split; [left; eauto |]. apply glob_app. exists s1, (u ++ "/"). split; [done |]. split; [done | apply glob_below].
    + exists a. split; [| done]. right. apply Nat.leb_le in L. rewrite L. by apply in_rev in Ha.
Qed.

Lemma expand_globstar_length alts : length (expand_globstar alts) <= length alts * 2.
Proof.
  unfold expand_globstar. rewrite length_app, length_map. destruct (Nat.leb (length alts * 2) MAX_GLOBSTAR_SLASH_ALTERNATIVES); [rewrite length_rev | cbn [length]]; lia.
Qed.

Lemma expand_from_sound p : forall alts s, some_covers (expand_from alts p) s -> exists s1 s2, s = s1 ++ s2 /\ some_covers alts s1 /\ manifest_covers p s2.
Proof.
  induction p as [| p IH | c p Np IH] using pattern_ind; intros alts s.
  - intros C. exists s, "". rewrite string_app_nil_r. split; [done |]. split; [done | constructor].
  - rewrite expand_from_globstar. intros (s1 & s2 & -> & C1 & C2)%IH. apply some_covers_globstar in C1 as [(x & u & -> & C1) | (_ & C1)].
    + exists x, (u ++ String "/" s2). rewrite !string_app_assoc. split; [done |]. split; [done | by constructor].
    + exists s1, s2. split; [done |]. split; [done | by constructor].
  - rewrite expand_from_char by done. intros (s1 & s2 & -> & C1 & C2)%IH. apply some_covers_char in C1 as (x & y & -> & C1 & G).
    exists x, (y ++ s2). rewrite string_app_assoc. split; [done |]. split; [done |]. apply covers_char; eauto.
Qed.

Lemma expand_from_complete p : forall alts s1 s2, length alts * 2 ^ globstars p <= MAX_GLOBSTAR_SLASH_ALTERNATIVES ->
  some_covers alts s1 -> manifest_covers p s2 -> some_covers (expand_from alts p) (s1 ++ s2).
Proof.
  induction p as [| p IH | c p Np IH] using pattern_ind; intros alts s1 s2 L C1 C2.
  - apply covers_nil in C2 as ->. by rewrite string_app_nil_r.
  - rewrite expand_from_globstar. rewrite globstars_globstar, Nat.pow_succ_r' in L. pose proof (expand_globstar_length alts) as Le.
    assert (0 < 2 ^ globstars p) by (apply Nat.neq_0_lt_0, Nat.pow_nonzero; lia).
    assert (L' : length (expand_globstar alts) * 2 ^ globstars p <= MAX_GLOBSTAR_SLASH_ALTERNATIVES) by nia.
    apply covers_globstar in C2 as [C2 | (u & t & -> & C2)].
    + apply IH; [done | | done]. apply some_covers_globstar. right. split; [nia | done].
    + replace (s1 ++ u ++ String "/" t) with ((s1 ++ u ++ "/") ++ t) by (by rewrite !string_app_assoc).
      apply IH; [done | | done]. apply some_covers_globstar. left. eauto.
  - rewrite expand_from_char by done. rewrite globstars_char in L by done. apply covers_char in C2 as (x & y & -> & G & C2); [| done].
    rewrite <- string_app_assoc. apply IH; [by rewrite length_map | | done]. apply some_covers_char. eauto.
Qed.

Lemma some_covers_start s : some_covers [""] s <-> s = "".
Proof. unfold some_covers. split; [intros (a & [<- | []] & ->%glob_nil); done | intros ->; exists ""; split; [by left | constructor]]. Qed.

(** The matchers built for the alternatives test for cover. *)
Lemma alternatives_tested alts path :
  existsb (fun globbed => if has_star globbed then linearGlobMatcher globbed path else String.eqb path globbed) alts = true <-> some_covers alts path.
Proof.
  rewrite existsb_exists. unfold some_covers. split; intros (a & Ha & T); exists a; (split; [done |]); destruct (has_star a) eqn:St.
  - by apply linear_glob_exact.
  - apply String.eqb_eq in T as ->. by apply glob_literal.
  - by apply linear_glob_exact.
  - apply glob_literal in T as ->; [apply String.eqb_refl | done].
Qed.

Lemma has_star_nonempty p : has_star p = true -> str_empty p = false.
Proof. by destruct p. Qed.

Lemma matches_with_star path pattern : has_star (normalizePathForMatch pattern) = true ->
  matchesManifestPath path pattern = true <-> normalizePathForMatch path <> "" /\ some_covers (expandGlobstarSlash (normalizePathForMatch pattern)) (normalizePathForMatch path).
Proof.
  intros St. unfold matchesManifestPath, compileManifestPathMatcher. rewrite (has_star_nonempty _ St), St, <- alternatives_tested.
  destruct (normalizePathForMatch path); cbn [str_empty]; naive_solver.
Qed.

(** A pattern with stars never matches a path outside its meaning, however many
    double stars it has. *)
Theorem manifest_glob_sound path pattern : has_star (normalizePathForMatch pattern) = true ->
  matchesManifestPath path pattern = true -> manifest_covers (normalizePathForMatch pattern) (normalizePathForMatch path).
Proof.
  intros St (_ & C)%matches_with_star; [| done]. apply expand_from_sound in C as (s1 & s2 & E & ->%some_covers_start & C). by rewrite E.
Qed.

(** C40: with at most seven double stars before a slash a pattern matches exactly the
    paths of its meaning: no alternative is dropped at the bound. *)
Theorem manifest_glob_exact path pattern : has_star (normalizePathForMatch pattern) = true -> globstars (normalizePathForMatch pattern) <= 7 ->
  matchesManifestPath path pattern = true <-> normalizePathForMatch path <> "" /\ manifest_covers (normalizePathForMatch pattern) (normalizePathForMatch path).
Proof.
  intros St L. rewrite matches_with_star by done. split; intros [N C]; (split; [done |]).
  - apply expand_from_sound in C as (s1 & s2 & E & ->%some_covers_start & C). by rewrite E.
  - apply (expand_from_complete _ [""] "" (normalizePathForMatch path)); [| by apply some_covers_start | done].
    cbn [length]. rewrite Nat.mul_1_l. change MAX_GLOBSTAR_SLASH_ALTERNATIVES with (2 ^ 7). apply Nat.pow_le_mono_r; lia.
Qed.

(** An eighth double star still needs a directory: at the bound the alternatives
    without one are no longer kept. *)
Example eighth_globstar_needs_directory :
  let pattern := "**/a**/b**/c**/d**/e**/f**/g**/h" in
  globstars pattern = 8 /\ matchesManifestPath "abcdefgh" pattern = false /\ matchesManifestPath "abcdefg/h" pattern = true.
Proof. vm_compute. auto. Qed.

(** A pattern without a star matches the path it names and what lies below it. *)
Theorem manifest_directory_exact path pattern : has_star (normalizePathForMatch pattern) = false -> normalizePathForMatch pattern <> "" ->
  matchesManifestPath path pattern = true <->
  normalizePathForMatch path = normalizePathForMatch pattern
  \/ exists t, normalizePathForMatch path = normalizePathForMatch pattern ++ (if str_ends_with (normalizePathForMatch pattern) "/" then "" else "/") ++ t.
Proof.
  intros St N. unfold matchesManifestPath, compileManifestPathMatcher. rewrite St.
  assert (E : str_empty (normalizePathForMatch pattern) = false) by (by destruct (normalizePathForMatch pattern)). rewrite E. clear E St.
  destruct (normalizePathForMatch path) as [| d s]; cbn [str_empty].
  - split; [done |]. intros [E | (t & E)]; [by destruct N | by destruct (normalizePathForMatch pattern)].
  - rewrite orb_true_iff, String.eqb_eq, is_prefix_iff. destruct (str_ends_with (normalizePathForMatch pattern) "/"); [done |]. by setoid_rewrite string_app_assoc.
Qed.

(** A pattern is reported for a change set exactly when one of the changed paths matches it. *)
Theorem matched_patterns_exact paths patterns pattern :
  List.In pattern (matchedPatterns paths patterns) <-> List.In pattern patterns /\ exists path, List.In path paths /\ matchesManifestPath path pattern = true.
Proof.
  unfold matchedPatterns, matchesManifestPath. rewrite filter_In, existsb_exists. split.
  - intros [Hp (n & Hn & M)]. apply filter_In in Hn as [(path & <- & Hi)%in_map_iff Ne%negb_true_iff]. split; [done |]. exists path. by rewrite Ne.
  - intros [Hp (path & Hi & M)]. split; [done |]. destruct (str_empty (normalizePathForMatch path)) eqn:Ne; [done |].
    exists (normalizePathForMatch path). split; [| done]. apply filter_In. rewrite Ne. split; [by apply in_map | done].
Qed.

Lemma manifest_glob_sound_witness :
  matchesManifestPath "./Packages/api/safe.ts" "**/safe.*" = true /\ manifest_covers "**/safe.*" "packages/api/safe.ts".
Proof.
  assert (M : matchesManifestPath "./Packages/api/safe.ts" "**/safe.*" = true) by (vm_compute; reflexivity). split; [exact M |].
  exact (manifest_glob_sound "./Packages/api/safe.ts" "**/safe.*" eq_refl M).
Defined.

Lemma manifest_glob_exact_witness :
  manifest_covers "src/**/index.ts" "src/index.ts" /\ matchesManifestPath "src/index.ts" "src/**/index.ts" = true
  /\ ~ manifest_covers "**/safe.ts" "unsafe.ts".
Proof.
  assert (L : globstars (normalizePathForMatch "src/**/index.ts") <= 7) by (vm_compute; lia).
  assert (L' : globstars (normalizePathForMatch "**/safe.ts") <= 7) by (vm_compute; lia).
  assert (M : matchesManifestPath "src/index.ts" "src/**/index.ts" = true) by (vm_compute; reflexivity).
  split; [exact (proj2 (proj1 (manifest_glob_exact "src/index.ts" "src/**/index.ts" eq_refl L) M)) |]. split; [exact M |].
  intros C. assert (M' : matchesManifestPath "unsafe.ts" "**/safe.ts" = true).
  { apply (manifest_glob_exact "unsafe.ts" "**/safe.ts" eq_refl L'). split; [discriminate | exact C]. }
  vm_compute in M'. discriminate.
Defined.

Lemma manifest_directory_exact_witness :
  matchesManifestPath "src/review/gate.ts" "src" = true /\ exists t, "src/review/gate.ts" = "src" ++ "/" ++ t.
Proof.
  assert (M : matchesManifestPath "src/review/gate.ts" "src" = true) by (vm_compute; reflexivity). split; [exact M |].
  assert (N : normalizePathForMatch "src" <> "") by (vm_compute; discriminate).
  destruct (proj1 (manifest_directory_exact "src/review/gate.ts" "src" eq_refl N) M) as [E | E]; [vm_compute in E; discriminate | exact E].
Defined.
