(* ===== verification/PrChecks.v ===== *)
(** * Maintainer checks of a pull request

    Models the two deterministic checks a maintainer configures: the content
    assertions of the engine's [review/pre-merge-checks.ts], which a path pattern may
    restrict, and the licence consent of [review/cla-check.ts], with the lookup of the
    check run that may carry it ([fetchNamedCheckRunConclusion] of
    [github/backfill.ts]); and the steps that run them, of the live gate
    ([queue/processors.ts]) and of the prediction ([predicted-gate.ts]).

    GitHub's answer for the check runs of a commit is a parameter.

    Main results: the pre-merge findings are exactly the applicable checks the pull
    request does not meet and the path-restricted ones that cannot be decided
    ([pre_merge_exact]), and no pull request passes the gate past an enforced check
    ([enforced_check_never_passed]); consent is found missing, or left open, in exactly
    the cases described ([cla_exact]), and in block mode a pull request passes only
    with the phrase in its description or with a finished run of that name by the
    trusted app ([consent_never_passed]). A run beyond the first page counts as absent
    ([crowded_commit_reads_missing]), and the prediction holds a repository that relies
    on a check run alone ([predictor_holds_named_check]). *)

From Stdlib Require Import Ascii ZArith Lia.
From stdpp Require Import base list strings option sets.
From S2P Require Import Prelude JsNumber JsString JsRegex GateAdvisory DenyHooks LinkedIssueRules ManifestPath.

Local Open Scope nat_scope.
Local Open Scope string_scope.
Local Open Scope js_scope.

(** ** Pre-merge checks *)

Record PreMergeCheck := mkCheck {
  ck_name : string;
  ck_whenPaths : list string;
  ck_titleContains : option string;
  ck_descriptionContains : option string;
  ck_requireLabel : option string;
  ck_enforce : bool;
}.

Definition PRE_MERGE_CHECK_ADVISORY_CODE : string := "pre_merge_check_failed".
Definition PRE_MERGE_CHECK_BLOCKING_CODE : string := "pre_merge_check_required".
Definition PRE_MERGE_CHECK_UNRESOLVED_CODE : string := "pre_merge_check_unresolved".

Record CheckContext := mkContext {
  cx_title : option string;
  cx_body : option string;
  cx_labels : option (list string);
  cx_changedPaths : list string;
  cx_filesResolved : option bool;
}.

(** [check.whenPaths] has a pattern that a changed path matches. *)
Definition touches (check : PreMergeCheck) (changedPaths : list string) : bool :=
  existsb (fun path => existsb (matchesManifestPath path) (ck_whenPaths check)) changedPaths.

(** The three assertions, on the lower-case title, description and labels. *)
Definition unmet (check : PreMergeCheck) (title body : string) (labels : list string) : list string :=
  List.concat
   [match ck_titleContains check with
    | Some t => if str_includes (toLowerCase t) title then [] else ["the title must contain " ++ quote ++ t ++ quote]
    | None => []
    end;
    match ck_descriptionContains check with
    | Some d => if str_includes (toLowerCase d) body then [] else ["the description must contain " ++ quote ++ d ++ quote]
    | None => []
    end;
    match ck_requireLabel check with
    | Some l => if existsb (String.eqb (toLowerCase l)) labels then [] else ["the " ++ quote ++ l ++ quote ++ " label must be applied"]
    | None => []
    end].

Definition unresolved_finding (check : PreMergeCheck) : AdvisoryFinding :=
  plain_finding PRE_MERGE_CHECK_UNRESOLVED_CODE sev_warning
    ("Pre-merge check held — changed files not resolved: " ++ ck_name check)
    ("LoopOver could not resolve this PR's changed files to evaluate the path-gated check " ++ quote ++ ck_name check ++ quote
     ++ "; the gate is held and re-evaluates automatically.")
    (Some "No action needed — the gate re-evaluates once the PR's files are available.").

Definition failed_finding (check : PreMergeCheck) (missing : list string) : AdvisoryFinding :=
  plain_finding (if ck_enforce check then PRE_MERGE_CHECK_BLOCKING_CODE else PRE_MERGE_CHECK_ADVISORY_CODE)
    (if ck_enforce check then sev_critical else sev_warning)
    ("Pre-merge check not satisfied: " ++ ck_name check)
    ("This PR does not satisfy the maintainer pre-merge check " ++ quote ++ ck_name check ++ quote ++ ": " ++ join "; " missing ++ ".")
    (Some "Update the PR to satisfy the check, then re-run the gate.").

(** What one check adds; the guards leave by [continue]. *)
Definition check_findings (check : PreMergeCheck) (title body : string) (labels changedPaths : list string) (filesResolved : bool)
    : list AdvisoryFinding :=
  let gated := Nat.ltb 0 (length (ck_whenPaths check)) in
  if gated && negb filesResolved then if ck_enforce check then [unresolved_finding check] else []
  else if gated && negb (touches check changedPaths) then []
  else match unmet check title body labels with
       | [] => []
       | missing => [failed_finding check missing]
       end.

Definition evaluatePreMergeChecks (checks : list PreMergeCheck) (ctx : CheckContext) : list AdvisoryFinding :=
  let title := toLowerCase (cx_title ctx ?? "") in
  let body := toLowerCase (cx_body ctx ?? "") in
  let labels := List.map toLowerCase (cx_labels ctx ?? []) in
  let filesResolved := cx_filesResolved ctx ?? true in
  List.flat_map (fun check => check_findings check title body labels (cx_changedPaths ctx) filesResolved) checks.

(** ** Licence consent *)

Record ClaCheckConfig := mkCla { cla_consentPhrase : option string; cla_checkRunName : option string }.

Definition cla_unresolved_finding (name : string) : AdvisoryFinding :=
  plain_finding CLA_CHECK_UNRESOLVED_CODE sev_warning ("CLA check held — " ++ quote ++ name ++ quote ++ " not resolved")
    ("LoopOver could not resolve the " ++ quote ++ name ++ quote
     ++ " check-run's conclusion for this PR; the gate is held and re-evaluates automatically.")
    (Some "No action needed — the gate re-evaluates once the check-run's conclusion is available.").

Definition cla_missing_finding (missing : list string) : AdvisoryFinding :=
  plain_finding CLA_CONSENT_MISSING_CODE sev_warning "CLA consent not confirmed"
    ("This PR does not confirm contributor license agreement consent: " ++ join " or " missing ++ ".")
    (Some "Add the required CLA consent phrase to the PR description, or complete the CLA check, then re-run the gate.").

Definition effective_phrase (config : ClaCheckConfig) : option string :=
  match cla_consentPhrase config with
  | Some p => if Nat.ltb 0 (String.length (trim p)) then Some p else None
  | None => None
  end.

(** The conclusion is [None] when it could not be read, [Some None] when there is no
    such run. *)
Definition evaluateClaCheck (config : ClaCheckConfig) (body : option string) (checkRunConclusion : option (option string)) : list AdvisoryFinding :=
  let consentPhrase := effective_phrase config in
  let checkRunName := cla_checkRunName config in
  if negb (bool_decide (is_Some consentPhrase)) && negb (bool_decide (is_Some checkRunName)) then []
  else
    let phraseSatisfied := match consentPhrase with
                           | Some p => str_includes (toLowerCase p) (toLowerCase (body ?? ""))
                           | None => false
                           end in
    let checkRunSatisfied := bool_decide (is_Some checkRunName)
      && (bool_decide (checkRunConclusion = Some (Some "success")) || bool_decide (checkRunConclusion = Some (Some "neutral"))) in
    if phraseSatisfied || checkRunSatisfied then []
    else match checkRunName, checkRunConclusion with
         | Some name, None => [cla_unresolved_finding name]
         | _, _ =>
             [cla_missing_finding
                (List.concat
                   [match consentPhrase with Some p => ["the PR description must contain " ++ quote ++ p ++ quote] | None => [] end;
                    match checkRunName with Some n => ["the " ++ quote ++ n ++ quote ++ " check must pass"] | None => [] end])]
         end.

(** *** The check run *)

Record GitHubCheckRunPayload := mkRun { run_name : string; run_status : string; run_conclusion : option string; run_appSlug : option string }.

(** Names and slugs are compared trimmed and in lower case. *)
Definition fold_name (s : string) : string := toLowerCase (trim s).

Definition trusted_run (checkRunName trustedAppSlugLc : string) (candidate : GitHubCheckRunPayload) : bool :=
  String.eqb (fold_name (run_name candidate)) (fold_name checkRunName)
  && match run_appSlug candidate with Some slug => String.eqb (fold_name slug) trustedAppSlugLc | None => false end.

(** [answer sha] is the first page of GitHub's check runs: [None] when the request
    fails, [Some None] without the field. *)
Definition fetchNamedCheckRunConclusion (answer : string -> option (option (list GitHubCheckRunPayload)))
    (headSha : option string) (checkRunName : string) (checkRunAppSlug : option string) : option (option string) :=
  match headSha with
  | None => None
  | Some sha =>
      if str_empty sha then None
      else
        let trustedAppSlugLc := fold_name (checkRunAppSlug ?? "") in
        if str_empty trustedAppSlugLc then Some None
        else match answer sha with
             | None => None
             | Some check_runs =>
                 match List.find (trusted_run checkRunName trustedAppSlugLc) (check_runs ?? []) with
                 | None => Some None
                 | Some run => if negb (String.eqb (run_status run) "completed") then None else Some (Some (toLowerCase (run_conclusion run ?? "")))
                 end
             end
  end.

(** The request asks for one page of a hundred. *)
Definition first_page (runs : list GitHubCheckRunPayload) : list GitHubCheckRunPayload := take 100 runs.

(** ** The steps of the live gate *)

(** What the steps read of the pull request; the head is the one the advisory was
    built for. *)
Record ReviewedPr := mkReviewed { rp_title : option string; rp_body : option string; rp_labels : option (list string); rp_headSha : option string }.

Definition pre_merge_step (checks : list PreMergeCheck) (pr : ReviewedPr) (checkFiles : list string) : list AdvisoryFinding :=
  if Nat.ltb 0 (length checks)
  then evaluatePreMergeChecks checks (mkContext (rp_title pr) (rp_body pr) (rp_labels pr) checkFiles (Some (Nat.ltb 0 (length checkFiles))))
  else [].

Record ClaSettings := mkClaSettings {
  st_claGateMode : option GateRuleMode;
  st_claConsentPhrase : option string;
  st_claCheckRunName : option string;
  st_claCheckRunAppSlug : option string;
}.

Definition mode_is_on (mode : option GateRuleMode) : bool := match mode with Some m => negb (bool_decide (m = mode_off)) | None => false end.

Definition cla_step (answer : string -> option (option (list GitHubCheckRunPayload))) (settings : ClaSettings) (pr : ReviewedPr) : list AdvisoryFinding :=
  if mode_is_on (st_claGateMode settings) then
    let claCheckRunConclusion := match st_claCheckRunName settings with
                                 | Some name => if str_empty name then None
                                                else fetchNamedCheckRunConclusion answer (rp_headSha pr) name (st_claCheckRunAppSlug settings)
                                 | None => None
                                 end in
    evaluateClaCheck (mkCla (st_claConsentPhrase settings) (st_claCheckRunName settings)) (rp_body pr) claCheckRunConclusion
  else [].

(** ** The steps of the prediction *)

Definition predicted_pre_merge (checks : list PreMergeCheck) (title body : option string) (labels : option (list string)) (changedPaths : list string)
    : list AdvisoryFinding :=
  let hasChangedPaths := Nat.ltb 0 (length changedPaths) in
  let predictable := if hasChangedPaths then checks else List.filter (fun check => Nat.eqb (length (ck_whenPaths check)) 0) checks in
  evaluatePreMergeChecks predictable (mkContext title body labels changedPaths (Some hasChangedPaths)).

Definition predicted_cla (claMode : option GateRuleMode) (claConsentPhrase claCheckRunName body : option string) : list AdvisoryFinding :=
  if mode_is_on claMode then evaluateClaCheck (mkCla claConsentPhrase claCheckRunName) body None else [].

(** ** What the checks mean *)

Definition contains_ci (phrase text : string) : Prop := exists a b, toLowerCase text = a ++ toLowerCase phrase ++ b.

Definition meets (check : PreMergeCheck) (title body : string) (labels : list string) : Prop :=
  (forall t, ck_titleContains check = Some t -> contains_ci t title)
  /\ (forall d, ck_descriptionContains check = Some d -> contains_ci d body)
  /\ forall l, ck_requireLabel check = Some l -> exists l', l' ∈ labels /\ toLowerCase l' = toLowerCase l.

Definition applies (check : PreMergeCheck) (paths : list string) : Prop :=
  ck_whenPaths check = [] \/ exists path glob, path ∈ paths /\ glob ∈ ck_whenPaths check /\ matchesManifestPath path glob = true.

Lemma label_present l labels : existsb (String.eqb (toLowerCase l)) (List.map toLowerCase labels) = true <-> exists l', l' ∈ labels /\ toLowerCase l' = toLowerCase l.
Proof.
  rewrite existsb_exists. setoid_rewrite String.eqb_eq. setoid_rewrite in_map_iff. setoid_rewrite list_elem_of_In. naive_solver.
Qed.

(** One assertion: nothing is missing exactly when it holds. *)
Lemma assertion_nil (value : option string) (test : string -> bool) (P : string -> Prop) (say : string -> string) :
  (forall x, test x = true <-> P x) ->
  match value with Some x => if test x then [] else [say x] | None => [] end = [] <-> forall x, value = Some x -> P x.
Proof.
  intros T. destruct value as [x |]; [| by split]. specialize (T x). destruct (test x); split; try done; [intros _ y [= <-]; by apply T |].
  intros H. specialize (H x eq_refl). apply T in H. done.
Qed.

Lemma unmet_nil check title body labels : unmet check (toLowerCase title) (toLowerCase body) (List.map toLowerCase labels) = [] <-> meets check title body labels.
Proof.
  unfold unmet, meets. cbn [List.concat]. rewrite List.app_nil_r, !app_nil.
  rewrite (assertion_nil (ck_titleContains check) (fun t => str_includes (toLowerCase t) (toLowerCase title)) (fun t => contains_ci t title)) by (intros; apply str_includes_iff).
  rewrite (assertion_nil (ck_descriptionContains check) (fun t => str_includes (toLowerCase t) (toLowerCase body)) (fun t => contains_ci t body)) by (intros; apply str_includes_iff).
  by rewrite (assertion_nil (ck_requireLabel check) (fun l => existsb (String.eqb (toLowerCase l)) (List.map toLowerCase labels)) _ _ (fun l => label_present l labels)).
Qed.

#[global] Instance meets_dec check title body labels : Decision (meets check title body labels).
Proof.
  destruct (unmet check (toLowerCase title) (toLowerCase body) (List.map toLowerCase labels)) eqn:U; [left | right]; rewrite <- unmet_nil; by rewrite U.
Defined.

Lemma touches_iff check paths : touches check paths = true <-> exists path glob, path ∈ paths /\ glob ∈ ck_whenPaths check /\ matchesManifestPath path glob = true.
Proof. unfold touches. rewrite existsb_exists. setoid_rewrite existsb_exists. setoid_rewrite list_elem_of_In. naive_solver. Qed.

Lemma length_positive {A} (xs : list A) : Nat.ltb 0 (length xs) = true <-> xs <> [].
Proof. by destruct xs. Qed.

(** The contribution of one check. *)
Lemma check_findings_exact check title body labels paths resolved f :
  f ∈ check_findings check (toLowerCase title) (toLowerCase body) (List.map toLowerCase labels) paths resolved <->
  (ck_whenPaths check <> [] /\ resolved = false /\ ck_enforce check = true /\ f = unresolved_finding check)
  \/ ((ck_whenPaths check = [] \/ resolved = true) /\ applies check paths /\ ~ meets check title body labels
      /\ f = failed_finding check (unmet check (toLowerCase title) (toLowerCase body) (List.map toLowerCase labels))).
Proof.
  unfold check_findings, applies. rewrite <- unmet_nil, <- touches_iff. set (u := unmet _ _ _ _).
  destruct (ck_whenPaths check) as [| w ws] eqn:W; cbn [length Nat.ltb Nat.leb andb].
  - destruct u; [| rewrite list_elem_of_singleton]; split; try set_solver; naive_solver.
  - destruct resolved; cbn [negb andb]; [| destruct (ck_enforce check); [rewrite list_elem_of_singleton | rewrite elem_of_nil]; naive_solver].
    destruct (touches check paths); cbn [negb]; [destruct u; [rewrite elem_of_nil | rewrite list_elem_of_singleton] | rewrite elem_of_nil]; naive_solver.
Qed.

(** The findings are exactly the applicable checks the pull request does not meet,
    with what is missing, and the enforced path-restricted checks whose paths could
    not be read; an advisory one is then dropped. *)
Theorem pre_merge_exact checks ctx f :
  let title := cx_title ctx ?? "" in
  let body := cx_body ctx ?? "" in
  let labels := cx_labels ctx ?? [] in
  let resolved := cx_filesResolved ctx ?? true in
  f ∈ evaluatePreMergeChecks checks ctx <->
  exists check, check ∈ checks /\
    ((ck_whenPaths check <> [] /\ resolved = false /\ ck_enforce check = true /\ f = unresolved_finding check)
     \/ ((ck_whenPaths check = [] \/ resolved = true) /\ applies check (cx_changedPaths ctx) /\ ~ meets check title body labels
         /\ f = failed_finding check (unmet check (toLowerCase title) (toLowerCase body) (List.map toLowerCase labels)))).
Proof.
  cbv zeta. unfold evaluatePreMergeChecks. rewrite list_elem_of_In, in_flat_map. setoid_rewrite <- list_elem_of_In. by setoid_rewrite check_findings_exact.
Qed.

Lemma success_inv a p f : ge_conclusion (evaluateGateCheck a p) = gc_success -> f ∈ findings a ->
  isEvaluationBlocker (f_code f) p = false /\ isConfiguredGateBlocker f (applyMergeReadinessGate p) = false.
Proof.
  intros S Hf. destruct (check_spec a p) as [E _]. rewrite E in S. apply conclusion_success in S as (U & B & _). split.
  - apply not_true_iff_false. intros T. unfold unevaluated in U. rewrite <- not_true_iff_false in U. apply U, existsb_exists. exists f. split; [by apply list_elem_of_In | done].
  - apply not_true_iff_false. intros T. rewrite nil_iff_no_elem in B. apply (B f), blockers_elem. auto.
Qed.

(** No pull request passes the gate past an enforced check, whatever the policy:
    its paths were known when the check needs them, and it meets the check
    whenever that applies. *)
Theorem enforced_check_never_passed checks pr files a p check :
  pre_merge_step checks pr files ⊆ findings a -> ge_conclusion (evaluateGateCheck a p) = gc_success ->
  check ∈ checks -> ck_enforce check = true ->
  (ck_whenPaths check = [] \/ files <> [])
  /\ (applies check files -> meets check (rp_title pr ?? "") (rp_body pr ?? "") (rp_labels pr ?? [])).
Proof.
  intros Hs S Hc En.
  assert (N : forall f, f ∈ pre_merge_step checks pr files -> f_code f <> PRE_MERGE_CHECK_UNRESOLVED_CODE /\ f_code f <> PRE_MERGE_CHECK_BLOCKING_CODE).
  { intros f Hf. destruct (success_inv a p f S (Hs f Hf)) as [U B]. split; intros E; [rewrite E in U; done |].
    rewrite unconditional_blocks in B; [done |]. rewrite E. apply list_elem_of_further, list_elem_of_further, list_elem_of_here. }
  unfold pre_merge_step in N. replace (Nat.ltb 0 (length checks)) with true in N by (symmetry; apply length_positive; intros ->; by apply elem_of_nil in Hc).
  setoid_rewrite pre_merge_exact in N. cbn [cx_title cx_body cx_labels cx_changedPaths cx_filesResolved default] in N.
  assert (R : ck_whenPaths check = [] \/ files <> []).
  { destruct (ck_whenPaths check) as [| w ws] eqn:W; [by left |]. right. intros ->. destruct (N (unresolved_finding check)) as [[] _]; [| done]. exists check. split; [done |]. left. by rewrite W. }
  split; [done |]. intros Ap. destruct (decide (meets check (rp_title pr ?? "") (rp_body pr ?? "") (rp_labels pr ?? []))) as [M | M]; [done |]. exfalso. edestruct N as [_ F]; [exists check; split; [done | right; split; [| split; [done | split; [done | reflexivity]]]] |].
  - destruct R as [R | R]; [by left | right]. cbn. by apply length_positive.
  - apply F. unfold failed_finding. by rewrite En.
Qed.

(** ** Consent *)

Definition phrase_given (config : ClaCheckConfig) (body : option string) : Prop := exists p, effective_phrase config = Some p /\ contains_ci p (body ?? "").

Definition run_passed (config : ClaCheckConfig) (conclusion : option (option string)) : Prop :=
  is_Some (cla_checkRunName config) /\ (conclusion = Some (Some "success") \/ conclusion = Some (Some "neutral")).

Definition nothing_configured (config : ClaCheckConfig) : Prop := effective_phrase config = None /\ cla_checkRunName config = None.

Lemma phrase_given_iff config body :
  match effective_phrase config with Some p => str_includes (toLowerCase p) (toLowerCase (body ?? "")) | None => false end = true <-> phrase_given config body.
Proof.
  unfold phrase_given. destruct (effective_phrase config) as [p |]; [| naive_solver]. rewrite str_includes_iff. unfold contains_ci. naive_solver.
Qed.

Lemma run_passed_iff config conclusion :
  bool_decide (is_Some (cla_checkRunName config))
  && (bool_decide (conclusion = Some (Some "success")) || bool_decide (conclusion = Some (Some "neutral"))) = true <-> run_passed config conclusion.
Proof. unfold run_passed. by rewrite andb_true_iff, orb_true_iff, !bool_decide_eq_true. Qed.

Lemma nothing_configured_iff config :
  negb (bool_decide (is_Some (effective_phrase config))) && negb (bool_decide (is_Some (cla_checkRunName config))) = true <-> nothing_configured config.
Proof. unfold nothing_configured. rewrite andb_true_iff, !negb_true_iff, !bool_decide_eq_false, <- !eq_None_not_Some. done. Qed.

(** The outcome on each branch: no finding when nothing is configured or a
    configured method confirms; else the run alone leaves it open, when its
    conclusion could not be read; else consent is missing. *)
Theorem cla_exact config body conclusion :
  let fs := evaluateClaCheck config body conclusion in
  (fs = [] <-> nothing_configured config \/ phrase_given config body \/ run_passed config conclusion)
  /\ ((exists name, cla_checkRunName config = Some name /\ fs = [cla_unresolved_finding name]) <-> is_Some (cla_checkRunName config) /\ conclusion = None /\ ~ phrase_given config body)
  /\ ((exists missing, fs = [cla_missing_finding missing]) <->
      ~ nothing_configured config /\ ~ phrase_given config body /\ ~ run_passed config conclusion /\ (cla_checkRunName config = None \/ conclusion <> None)).
Proof.
  cbv zeta. unfold evaluateClaCheck. setoid_rewrite <- phrase_given_iff. rewrite <- run_passed_iff, <- nothing_configured_iff. cbv zeta.
  destruct (negb _ && negb _) eqn:N.
  - apply nothing_configured_iff in N as [_ Nr]. rewrite Nr. split; [split; auto |]. split; [split; [by intros (m & [=] & _) | by intros ([? [=]] & _)] |].
    split; [by intros [m [=]] | by intros [[] _]].
  - destruct (match effective_phrase config with Some p => _ | None => _ end) eqn:Ph; cbn [orb].
    { split; [split; auto |]. split; [split; [by intros (m & _ & [=]) | by intros (_ & _ & [])] |]. split; [by intros [m [=]] | by intros (_ & [] & _)]. }
    destruct (bool_decide _ && _) eqn:Rn; cbn [orb].
    { apply run_passed_iff in Rn as [_ Rn]. split; [split; auto |]. split; [split; [by intros (m & _ & [=]) | intros (_ & -> & _); by destruct Rn] |].
      split; [by intros [m [=]] | by intros (_ & _ & [] & _)]. }
    split; [by destruct (cla_checkRunName config), conclusion; split; try done; intros [[=] | [[=] | [=]]] |].
    destruct (cla_checkRunName config) as [n |], conclusion as [c |].
    + split; [split; [by intros (m & _ & [=]) | by intros (_ & [=] & _)] |]. split; [intros _; auto | eauto].
    + split; [split; [by intros _ | by eauto] |]. split; [by intros [m [=]] | by intros (_ & _ & _ & [[=] | []])].
    + split; [split; [by intros (m & [=] & _) | by intros ([? [=]] & _)] |]. split; [intros _; auto | eauto].
    + split; [split; [by intros (m & [=] & _) | by intros ([? [=]] & _)] |]. split; [intros _; auto | eauto].
Qed.

(** The lookup answers a conclusion only from a finished run of the first page with
    the configured name, by the trusted app. *)
Lemma conclusion_trusted answer headSha name slug c : fetchNamedCheckRunConclusion answer headSha name slug = Some (Some c) ->
  exists sha runs run slug',
    headSha = Some sha /\ answer sha = Some (Some runs) /\ run ∈ runs /\ fold_name (run_name run) = fold_name name /\ run_appSlug run = Some slug'
    /\ fold_name slug' = fold_name (slug ?? "") /\ fold_name slug' <> "" /\ run_status run = "completed" /\ c = toLowerCase (run_conclusion run ?? "").
Proof.
  unfold fetchNamedCheckRunConclusion. destruct headSha as [sha |]; [| done]. destruct (str_empty sha); [done |]. cbv zeta.
  destruct (str_empty (fold_name (slug ?? ""))) eqn:Es; [done |]. destruct (answer sha) as [[runs |] |] eqn:A; [| done | done]. change (Some runs ?? []) with runs.
  destruct (List.find _ runs) as [run |] eqn:F; [| done]. apply find_some in F as [Hr%list_elem_of_In [Tn%String.eqb_eq Ts]%andb_true_iff].
  destruct (run_appSlug run) as [slug' |] eqn:Sl; [| done]. apply String.eqb_eq in Ts. destruct (String.eqb_spec (run_status run) "completed") as [St |]; [| done]. cbn [negb].
  intros [= <-]. exists sha, runs, run, slug'. split; [done |]. split; [done |]. split; [done |]. split; [done |]. split; [done |]. split; [done |]. split; [| by split].
  rewrite Ts. intros E. by rewrite E in Es.
Qed.

Lemma cla_blocks_missing f p : f_code f = CLA_CONSENT_MISSING_CODE -> claGateMode p = Some mode_block -> isConfiguredGateBlocker f (applyMergeReadinessGate p) = true.
Proof.
  intros Hc Hm. assert (E : claGateMode (applyMergeReadinessGate p) = Some mode_block) by (unfold applyMergeReadinessGate; by destruct (bool_decide _)).
  unfold isConfiguredGateBlocker. cbv zeta. rewrite Hc, E. reflexivity.
Qed.


(** C20: in block mode a pull request passes the gate only when no method is
    configured, when its description contains the phrase, or when the trusted app
    finished a run of the configured name with success or neutral. *)
Theorem consent_never_passed answer settings pr a p :
  st_claGateMode settings = Some mode_block -> claGateMode p = Some mode_block ->
  cla_step answer settings pr ⊆ findings a -> ge_conclusion (evaluateGateCheck a p) = gc_success ->
  let config := mkCla (st_claConsentPhrase settings) (st_claCheckRunName settings) in
  nothing_configured config \/ phrase_given config (rp_body pr)
  \/ exists name sha runs run slug,
       st_claCheckRunName settings = Some name /\ rp_headSha pr = Some sha /\ answer sha = Some (Some runs) /\ run ∈ runs
       /\ fold_name (run_name run) = fold_name name /\ run_appSlug run = Some slug
       /\ fold_name slug = fold_name (st_claCheckRunAppSlug settings ?? "") /\ fold_name slug <> "" /\ run_status run = "completed"
       /\ (toLowerCase (run_conclusion run ?? "") = "success" \/ toLowerCase (run_conclusion run ?? "") = "neutral").
Proof.
  intros Ms Mp Hs S config. unfold cla_step in Hs. rewrite Ms in Hs. cbn [mode_is_on] in Hs. rewrite bool_decide_false in Hs by done. cbn [negb] in Hs. cbv zeta in Hs. fold config in Hs.
  set (c := match st_claCheckRunName settings with Some name => _ | None => _ end) in Hs.
  pose proof (cla_exact config (rp_body pr) c) as X. cbv zeta in X. destruct X as (Xn & Xu & Xm).
  assert (E : evaluateClaCheck config (rp_body pr) c = []).
  { apply nil_iff_no_elem. intros f Hf. destruct (success_inv a p f S (Hs f Hf)) as [U B].
    assert (Cd : f_code f = CLA_CHECK_UNRESOLVED_CODE \/ f_code f = CLA_CONSENT_MISSING_CODE).
    { revert Hf. unfold evaluateClaCheck. cbv zeta. destruct (_ && _); [by intros ?%elem_of_nil |]. destruct (_ || _); [by intros ?%elem_of_nil |].
      destruct (cla_checkRunName config), c; intros ->%list_elem_of_singleton; auto. }
    destruct Cd as [Cd | Cd]; [| rewrite cla_blocks_missing in B; done]. rewrite Cd in U. revert U. unfold isEvaluationBlocker. rewrite Mp. by rewrite bool_decide_true. }
  apply Xn in E as [E | [E | [_ E]]]; [by left | by right; left | right; right]. subst c.
  destruct (st_claCheckRunName settings) as [name |]; [| by destruct E]. destruct (str_empty name); [by destruct E |].
  destruct E as [E | E]; apply conclusion_trusted in E as (sha & runs & run & slug & ? & ? & ? & ? & ? & ? & ? & ? & Ec); exists name, sha, runs, run, slug; rewrite <- Ec; auto 20.
Qed.

(** ** The prediction *)

(** With the paths of the pull request the prediction of the pre-merge checks is
    the live result; without them it reports nothing the live gate would not. *)
Theorem predicted_pre_merge_agrees checks pr files :
  (files <> [] -> predicted_pre_merge checks (rp_title pr) (rp_body pr) (rp_labels pr) files = pre_merge_step checks pr files)
  /\ predicted_pre_merge checks (rp_title pr) (rp_body pr) (rp_labels pr) [] ⊆ pre_merge_step checks pr files.
Proof.
  unfold predicted_pre_merge, pre_merge_step. split.
  - intros N%length_positive. rewrite N. by destruct checks.
  - intros f. cbn [length Nat.ltb Nat.leb]. rewrite pre_merge_exact. cbn [cx_title cx_body cx_labels cx_changedPaths cx_filesResolved].
    intros (check & Hc & D). apply list_elem_of_In, filter_In in Hc as [Hc%list_elem_of_In W%Nat.eqb_eq%length_zero_iff_nil].
    destruct checks as [| c cs]; [by apply elem_of_nil in Hc |]. cbn [length].
    apply pre_merge_exact. cbn [cx_title cx_body cx_labels cx_changedPaths cx_filesResolved]. exists check. split; [done |].
    destruct D as [[D _] | (_ & _ & D)]; [done |]. right. split; [by left |]. split; [by left | done].
Qed.

(** A repository that relies on a check run alone is held by every prediction: the
    finding that the run could not be read is raised, and in block mode the
    predicted verdict is neutral. *)
Theorem predictor_holds_named_check mode name body a p :
  mode_is_on (Some mode) = true -> predicted_cla (Some mode) None (Some name) body ⊆ findings a -> claGateMode p = Some mode_block ->
  predicted_cla (Some mode) None (Some name) body = [cla_unresolved_finding name] /\ ge_conclusion (evaluateGateCheck a p) = gc_neutral.
Proof.
  intros M Hs Mp. assert (E : predicted_cla (Some mode) None (Some name) body = [cla_unresolved_finding name]) by (unfold predicted_cla; rewrite M; reflexivity).
  split; [exact E |]. rewrite E in Hs. destruct (check_spec a p) as [-> _]. unfold gate_conclusion.
  replace (unevaluated (findings a) p) with true; [done |]. symmetry. apply existsb_exists. exists (cla_unresolved_finding name). split; [apply list_elem_of_In, Hs; by apply list_elem_of_singleton |].
  unfold isEvaluationBlocker. cbn [cla_unresolved_finding plain_finding f_code]. rewrite Mp. by rewrite bool_decide_true.
Qed.

(** ** Witnesses and cases *)

Definition changelog_check : PreMergeCheck := mkCheck "changelog" ["src/**"] None (Some "Changelog:") (Some "ready") true.
Definition reviewed_pr : ReviewedPr := mkReviewed (Some "Fix parser") (Some "changelog: parser. I agree to the CLA") (Some ["Ready"]) (Some "abc").
Definition advisory_of (fs : list AdvisoryFinding) : Advisory := advisory "id" "now" "pull_request" "acme/widgets#7" "acme/widgets" fs "none" (Some 7%Z) None None.
Definition block_policy : GateCheckPolicy :=
  mkPolicy None None None None None None None None None None None None None None None None None (Some mode_block) None None
    None None None None None None None None None None.

Example enforced_check_cases :
  List.map f_code (pre_merge_step [changelog_check] (mkReviewed (Some "Fix parser") None None None) ["src/a.ts"]) = [PRE_MERGE_CHECK_BLOCKING_CODE]
  /\ List.map f_code (pre_merge_step [changelog_check] (mkReviewed (Some "Fix parser") None None None) []) = [PRE_MERGE_CHECK_UNRESOLVED_CODE]
  /\ pre_merge_step [changelog_check] (mkReviewed (Some "Fix parser") None None None) ["docs/a.md"] = [].
Proof. vm_compute. auto. Qed.

Lemma enforced_check_never_passed_witness :
  ge_conclusion (evaluateGateCheck (advisory_of []) default_policy) = gc_success
  /\ (applies changelog_check ["src/a.ts"] -> meets changelog_check "Fix parser" "changelog: parser. I agree to the CLA" ["Ready"]).
Proof.
  assert (S : ge_conclusion (evaluateGateCheck (advisory_of []) default_policy) = gc_success) by (vm_compute; reflexivity). split; [exact S |].
  assert (E : pre_merge_step [changelog_check] reviewed_pr ["src/a.ts"] = []) by (vm_compute; reflexivity).
  apply (enforced_check_never_passed [changelog_check] reviewed_pr ["src/a.ts"] (advisory_of []) default_policy changelog_check).
  - rewrite E. intros f Hf. inversion Hf.
  - exact S.
  - apply list_elem_of_here.
  - reflexivity.
Defined.

Definition bot_run (name slug conclusion : string) : GitHubCheckRunPayload := mkRun name "completed" (Some conclusion) (Some slug).
Definition cla_settings : ClaSettings := mkClaSettings (Some mode_block) None (Some "CLA Assistant") (Some "cla-bot").
Definition answer_of (runs : list GitHubCheckRunPayload) (sha : string) : option (option (list GitHubCheckRunPayload)) := Some (Some (first_page runs)).

Lemma consent_never_passed_witness :
  ge_conclusion (evaluateGateCheck (advisory_of []) block_policy) = gc_success
  /\ exists run, run ∈ [bot_run "CLA Assistant" "someone" "success"; bot_run "cla assistant" "CLA-bot" "success"] /\ run_status run = "completed" /\ run_appSlug run <> Some "someone".
Proof.
  assert (S : ge_conclusion (evaluateGateCheck (advisory_of []) block_policy) = gc_success) by (vm_compute; reflexivity). split; [exact S |].
  pose (runs := [bot_run "CLA Assistant" "someone" "success"; bot_run "cla assistant" "CLA-bot" "success"]).
  assert (E : cla_step (answer_of runs) cla_settings reviewed_pr = []) by (vm_compute; reflexivity).
  destruct (consent_never_passed (answer_of runs) cla_settings reviewed_pr (advisory_of []) block_policy) as [[_ N] | [(q & N & _) | X]].
  - reflexivity.
  - reflexivity.
  - rewrite E. intros f Hf. inversion Hf.
  - exact S.
  - discriminate.
  - discriminate.
  - destruct X as (name & sha & rs & run & slug & _ & _ & Ea & Hr & _ & Es & Ef & _ & St & _). injection Ea as <-. exists run. split; [exact Hr |]. split; [exact St |].
    rewrite Es. intros [= ->]. vm_compute in Ef. discriminate.
Defined.

Lemma predictor_holds_named_check_witness :
  ge_conclusion (evaluateGateCheck (advisory_of [cla_unresolved_finding "CLA Assistant"]) block_policy) = gc_neutral.
Proof.
  apply (predictor_holds_named_check mode_block "CLA Assistant" (Some "body") (advisory_of [cla_unresolved_finding "CLA Assistant"]) block_policy).
  - reflexivity.
  - intros f Hf. exact Hf.
  - reflexivity.
Defined.

Lemma predicted_pre_merge_agrees_witness :
  predicted_pre_merge [changelog_check] (rp_title reviewed_pr) (rp_body reviewed_pr) (rp_labels reviewed_pr) ["src/a.ts"] = pre_merge_step [changelog_check] reviewed_pr ["src/a.ts"].
Proof. apply (predicted_pre_merge_agrees [changelog_check] reviewed_pr ["src/a.ts"]). discriminate. Defined.

(** With a hundred other runs before it, the passed run of the trusted app is on the
    second page: the lookup answers that there is none, and the gate fails a pull
    request whose consent is confirmed. *)
Theorem crowded_commit_reads_missing :
  let runs := (repeat (bot_run "build" "ci" "success") 100 ++ [bot_run "CLA Assistant" "cla-bot" "success"])%list in
  fetchNamedCheckRunConclusion (answer_of runs) (Some "abc") "CLA Assistant" (Some "cla-bot") = Some None
  /\ List.map f_code (cla_step (answer_of runs) cla_settings reviewed_pr) = [CLA_CONSENT_MISSING_CODE]
  /\ ge_conclusion (evaluateGateCheck (advisory_of (cla_step (answer_of runs) cla_settings reviewed_pr)) block_policy) = gc_failure.
Proof. vm_compute. auto. Qed.
